(* ===== verification/_CoqProject ===== *)
-Q . S2P
Prelude.v
Bytes.v
Layout.v
Utf8.v
StreamProto.v
RegistryProto.v
RegistryWire.v
RegistryCodec.v
RegistryPages.v
Correlation.v
Registry.v
RegistryReplay.v
RegistryInv.v
RegistryOps.v
RegistryThms.v
Bootfs.v
BootfsThms.v
Elf.v
ElfThms.v
Startup.v
Image.v
StartupThms.v
StartupSafety.v
Shell.v
ShellThms.v
History.v
HistoryThms.v
StateM.v
Uart.v
UartThms.v
Restart.v
RestartThms.v
Accounting.v
AccountingThms.v
Input.v
InputThms.v
Editor.v
EditorThms.v
Launch.v
LaunchThms.v
Supervision.v
SupervisionThms.v
Process.v
ProcessThms.v
Stream.v
StreamThms.v
StreamPipe.v
Sha256.v
Sha256Thms.v
Memory.v
BootInfo.v
BootPlan.v
BootPlanThms.v
BootInfoThms.v
Service.v
ServiceInv.v
ServiceThms.v
ServiceSweep.v
DeviceManifest.v
Coordinator.v
CoordinatorThms.v
DeviceControl.v
ControlThms.v
DeviceController.v
ControllerThms.v
DriverLaunch.v
DriverLaunchThms.v
DeviceManifestThms.v
ConsoleProto.v
ConsoleProtoThms.v
Console.v
ConsoleInv.v
ConsoleOps.v
ConsoleThms.v
JobProto.v
JobWriteThms.v
JobReadThms.v
JobProtoThms.v
