(* ===== verification/Prelude.v ===== *)
(** * Wyrmroot: a verification development

    Wyrmroot is a capability operating system in Rust: a UEFI loader, a boot
    archive, native processes started from it, and services that talk to each
    other in fixed-size datagrams.  This library models the parts that decide
    something about bytes they did not write themselves, or that keep state for
    others, and proves them correct.

    ** How the parts meet

    - the UEFI loader (loader/src) turns the firmware's memory map into the
      kernel's (memory_map.rs), plans where the modules lie (modules.rs) and
      describes both in the boot record (boot_info.rs), the one thing the kernel
      reads when it starts;
    - the boot archive (crates/wyrmroot-bootfs) carries the executables; the
      builder writes it on the host, the parser reads it on the machine;
    - the loader crate (crates/wyrmroot-loader) plans an executable's segments
      (elf.rs), writes the startup block of the new process (image.rs) and
      speaks the launch protocol WRLP with it (launch.rs): INIT hands over the
      capabilities of a profile, READY answers; process.rs composes the three in
      one transaction over kernel handles, which it undoes when a step fails;
    - the runtime (crates/wyrmroot-runtime, startup.rs) is the first code of the
      new process: it parses that block;
    - the bootstrap registry (userspace/registryd, lib.rs) hands service
      endpoints to clients, speaking the WRRG protocol
      (crates/wyrmroot-registry-proto); its service step (service.rs) waits for
      a datagram or a closed peer, decodes it, applies it to the registry and
      sends the answers; a process learns its registry endpoint
      from three environment strings of the startup block;
    - a serial port is driven by the UART core (crates/wyrmroot-uart16550-core)
      through whatever gives access to its registers; the device manager gives
      it to a driver according to a role manifest, under the coordinator of
      crates/wyrmroot-device-proto, and with the records of that crate: it
      asks the first process to launch the driver (driver_launch.rs), hands
      over the resources (control.rs, control_v1_1.rs), reports and receives
      bindings (controller.rs, controller_v1_1.rs, d5_controller.rs) and
      connects clients (connector.rs);
    - the console (userspace/consoled, lib.rs) joins the serial stream of that
      driver to the shell it launches, stages what each sends the other, and
      reports its state in the status protocol WRCN
      (crates/wyrmroot-console-proto); it asks the first process to launch the
      shell, and the shell asks it to launch, watch and end jobs, in the
      protocol WRLJ (crates/wyrmroot-launch-proto);
    - the console and the shell exchange WRST stream records
      (crates/wyrmroot-stream-proto), through the runtime's stream endpoints
      (stream.rs), and the shell's line core
      (crates/wyrmroot-wyrmsh-core) turns the received bytes into events
      (input.rs), the events into a line with its history (editor.rs,
      history.rs), the line into terminal output (redraw.rs) and, once
      submitted, into a command (parser.rs, command.rs);
    - the system's first process keeps its services running under the restart
      policy of crates/wyrmroot-runtime (supervision/restart.rs); a parent
      watches a child for READY and exit (supervision.rs); and the
      runtime's ledger (bounded_accounting.rs) bounds what each of them holds;
      a service's attempt record is what its retirement from the ledger needs.

    ** Files

    - [Prelude]: outcomes of Rust code ([Ok], [Err], [Panic]) with their
      notations, machine integers, arrays, tactics and the hint database;
      [Bytes]: slices and little-endian fields; [Utf8]: text.
    - [StreamProto]: the WRST codec and its theorems.
    - [RegistryProto]: the WRRG data types, parser and encoders;
      [RegistryWire]: the wire format as a relation that both sides meet;
      [RegistryCodec]: the encoders meet it, canonicity, absence of panics;
      [RegistryPages]: pages of the service list, and the round trip of every
      encoder;
      [Correlation]: the decimal environment strings.
    - [Registry]: [RegistryState] and its operations, as state transformers;
      [RegistryReplay]: the replay rings as bounded lists; [RegistryInv]: the
      invariant; [RegistryOps]: every operation keeps it; [RegistryThms]: runs
      as a step relation, and what the registry guarantees to its clients.
    - [Service]: the service step over a class of transports; [ServiceInv]: the
      handles and identities the registry shows it; [ServiceThms]: custody of
      handles, with a ledger kept beside any transport; [ServiceSweep]: the
      sweep of closed endpoints and the clients that watch them.
    - [Bootfs], [BootfsThms]: archive paths, parser, lookup and builder.
    - [Elf], [ElfThms]: the ELF planner.
    - [Startup], [Image], [StartupThms], [StartupSafety]: the startup block,
      from its writer in the loader to its parser in the new process.
    - [Shell], [ShellThms]: the shell's word splitter and command table;
      [History], [HistoryThms]: the ring of submitted lines.
    - [Input], [InputThms]: the terminal input decoder; [Editor]: the line
      editor and its redraw frames; [EditorThms]: the editor refines a line of
      characters with a cursor, composed with the decoder and the history, and
      what a frame shows of it.
    - [StateM]: a state and error monad with its weakest preconditions, for the
      components that change their state before they fail;
      [Uart], [UartThms]: the UART core over a class of register adapters;
      [Restart], [RestartThms]: the restart state machine.
    - [Accounting], [AccountingThms]: the ledger of admitted resources.
    - [Launch], [LaunchThms]: the messages of WRLP and the table of profiles;
      [Supervision], [SupervisionThms]: the observation of a child, over a class
      of platforms whose calls the theorems record;
      [Process], [ProcessThms]: the construction of a process and its rollback.
    - [Stream], [StreamThms], [StreamPipe]: stream endpoints over a class of
      kernel channels, and a writer and a reader joined by one.
    - [Sha256], [Sha256Thms]: the digest, and the standard's definition of it;
      [Memory]: the four byte primitives.
    - [BootInfo], [BootInfoThms]: the boot record; [BootPlan], [BootPlanThms]:
      the memory map and the module plan.
    - [Layout]: records as lists of fields, and the contract of
      their codecs; [DeviceManifest], [DeviceManifestThms]: device roles;
      [Coordinator], [CoordinatorThms]: the life of a driver;
      [DeviceControl], [ControlThms], [DeviceController], [ControllerThms],
      [DriverLaunch], [DriverLaunchThms]: the records of the device protocols.
    - [ConsoleProto], [ConsoleProtoThms]: the status protocol and its session;
      [Console]: the console's core; [ConsoleInv]: its queues, newline
      transforms and restart windows, and the invariant, with a log of
      what was received and sent; [ConsoleOps]: every operation
      keeps it; [ConsoleThms]: any calls of a caller, with the transactions,
      tokens and reservations it was given, and what they show.
    - [JobProto]: WRLJ; [JobWriteThms]: its string records, and what its
      writers write and refuse; [JobReadThms]: what its readers accept;
      [JobProtoThms]: the exactness of both ends, and the reply the shell's
      launcher cannot read.

    A file other than [Layout], [StateM] and those with the suffix
    Thms, Inv, Ops, Wire, Codec, Safety,
    Replay or Pipe translates
    source; names are the source's, with the type's name in front where a
    method's name is not unique ([history_len] is [History::len]).

    ** What the theorems show

    - Codecs (WRST, WRRG, correlation strings, startup blocks, boot archives):
      what one side writes, the other side reads back; for WRST, WRRG (but
      for service lists) and the correlation strings the accepted bytes are exactly
      the written ones; and a
      parser answers on every input without a panic.
    - Registry: the invariant holds in every reachable state and no request
      panics in one; endpoint identities are issued once; generations of a name
      increase; lookup, publication, closing and enumeration do what clients
      rely on, including exactly which watches are notified and in which order.
    - Registry service: over every transport it never panics and holds exactly
      its control channel and the installed endpoints; a sweep that meets a closed
      publication watched by a closed client never succeeds.
    - ELF planner: an accepted plan's segments are the loadable headers, page
      aligned, disjoint, within user space, off the stack and never both
      writable and executable; the memory objects made from them stay in bounds.
    - Shell: the splitter computes a character-level specification and inverts
      quoting; commands are classified exactly; the history ring is a bounded
      list of lines.
    - Input and editor: the decoder takes any bytes without a panic and drops a
      bracketed paste up to its end marker; the editor's byte arrays act as a
      line of characters with a cursor; what is typed is the line; a frame shows
      whole characters around the cursor however it is read.
    - UART: any calls on any device are a run of two bounded queues in which
      lost bytes are counted; the interrupt-enable register follows the state of
      the core; register accesses per call are bounded.
    - Restart policy: attempts are numbered, bounded, spaced by the backoff and
      within the window; an episode ends after boundedly many transitions.
    - Ledger: totals, budgets and the tokens handed out always agree, nothing
      admitted is lost, and it can always be given back, once.

    - Device protocols: each record has one spelling, which its codec writes and
      accepts and nothing else (a status with an attempt of number zero is the
      exception the theorem describes); a manifest gives no resource to two roles;
      attempts to run a driver are numbered, bounded, spaced and cleaned up, and
      only the latest, ready one is published.
    - Console: any calls leave it with its invariants and a valid status; in
      every session what the child is sent is what was received, with LF line
      ends, and what the terminal is sent is what each output of the child was,
      with CR LF line ends, in order and without loss.  Status protocol: each
      message has one spelling; queries are answered one at a time, each once.
    - Process construction: for every platform, a load that fails at a platform
      call undoes what it did, unless the platform refuses the rollback too, and
      says whether the caller still holds what it lent; one that succeeds leaves
      the child and its channel and nothing else.  A request without the resource
      domain its profile needs is the exception: it never succeeds and leaves
      the child's handles open.
    - Streams: what is read is what was written, in order, whatever the sizes of
      the reads and writes, and a reader that keeps reading gets all of it.
    - Boot handoff: the kernel's memory map says of every address what the
      firmware's does; module planning agrees with the record's own check; and
      what an accepted record hands over is reserved and disjoint, and retained
      where it carries a lifetime.
    - Runtime: the digest is SHA-256 as FIPS 180-4 defines it, with its
      constants derived from the primes; the byte primitives do what C asks.
    - Launch protocol: an INIT is accepted only when every capability record
      and received handle is the one of the profile, it is accepted then when its
      reserved bytes are zero, and what is written is read back.  Supervision: for every platform it returns after boundedly many
      calls, success means one READY and a clean exit, and an error tells
      whether the exit was seen.

    - Job protocol: a message has one encoding, the writers write it or refuse,
      the reader accepts nothing else, and what it shows of a request or a list
      is what was sent; a launch accepted under a job number of more than 32
      bits is the exception, which a theorem exhibits.

    ** Modelling choices

    Integers are [Z]; each operation's overflow is written out: [checked_*]
    returns [None], an unchecked [+] or [-] that does not fit is [Panic]
    ([plus], [minus]), and where the code's meaning differs between builds
    (validate_page_shape) a parameter says whether overflow checks are compiled
    in.  Indexing out of range, a failed [unwrap], [expect] or [debug_assert!]
    is [Panic].  [usize] has 64 bits.  A [&mut] argument is passed and returned;
    where an error leaves it partly written and a caller can see that (the
    registry's state, the shell's scratch), the written value is returned with
    the error.

    Loops that are not structural run on fuel, and running out of it is [Panic],
    so each theorem that excludes panics also shows that the fuel suffices: the
    archive parser and the startup scans get one step per byte, the history's
    eviction loop one step per possible entry, the supervision loops one round
    for READY, one for the closed channel and one for the exit, and the
    retirement of a registry peer, which may retire others, one step per
    endpoint the registry can hold.  The read loop
    of a stream endpoint has no bound in the source (a peer may send empty
    records for ever): its model answers [None] while the fuel lasts, and the
    theorems give the fuel at which it answers.  The UART core's loops are bounded
    in the source, and their fuel is that bound.  Memory allocation in the
    archive builder, the memory behind a startup pointer, the register adapter
    of the UART core and the platform of a supervisor (classes; the theorems
    hold for every instance), the kernel's numbers for rights, object types and
    signals (classes [Abi] and [SupervisionAbi]), the
    kernel's channel limits, the platform and the kernel's numbers of process
    construction ([LoaderPlatform], [ProcessAbi]), the channels of a stream
    ([StreamSystem], [StreamAbi], [Conduit]), the registry service's
    [Transport], the layout and kinds of the boot
    record ([BootAbi]) and the process-wide counter of ledgers are
    parameters.  Time reaches the restart policy as an argument.

    ** Not modelled

    Kernel calls and everything that only sequences them: the services'
    adapters and start-up, the product boot sequences, the firmware calls and page tables of the UEFI
    loader, and the host tools.  The kernel is not part of the repository.
    Canonicity of WRRG is stated for every message other than ServiceList.
    The bootstrap and gate
    protocols, the boot manifest, the kernel image loader
    and the product profiles of the boot archive are the next parts of the
    plan. *)

From stdpp Require Import base tactics option list list_numbers.
From Stdlib Require Import ZArith Lia.

#[global] Set Default Goal Selector "!".
#[global] Open Scope Z_scope.

(** ** Outcomes of Rust code

    A call of a Rust function either returns [Ok], returns [Err], or panics (an
    index out of range, an [unwrap] of [None], an arithmetic overflow under
    debug assertions).  Panics are values of the model, so that their absence
    is a theorem and not an assumption. *)

Inductive res (E A : Type) : Type :=
| Ok (a : A)
| Err (e : E)
| Panic.
Arguments Ok {E A} _.
Arguments Err {E A} _.
Arguments Panic {E A}.

Definition res_bind {E A B : Type} (c : res E A) (k : A -> res E B) : res E B :=
  match c with
  | Ok a => k a
  | Err e => Err e
  | Panic => Panic
  end.

(** [option::ok_or]. *)
Definition ok_or {E A : Type} (e : E) (o : option A) : res E A :=
  match o with
  | Some a => Ok a
  | None => Err e
  end.

(** [Option::unwrap], slice indexing: absent means panic. *)
Definition or_panic {E A : Type} (o : option A) : res E A :=
  match o with
  | Some a => Ok a
  | None => Panic
  end.

(** [Result::map_err]. *)
Definition map_err {E F A : Type} (f : E -> F) (c : res E A) : res F A :=
  match c with
  | Ok a => Ok a
  | Err e => Err (f e)
  | Panic => Panic
  end.

Definition is_ok {E A : Type} (c : res E A) : bool :=
  match c with
  | Ok _ => true
  | _ => false
  end.

Declare Scope wyr_scope.
Delimit Scope wyr_scope with wyr.
Open Scope wyr_scope.

Notation "'let!' x ':=' c 'in' k" := (res_bind c (fun x => k))
  (at level 10, x binder, c at level 100, k at level 200,
   format "'[v' 'let!'  x  ':='  c  'in' '/' k ']'") : wyr_scope.

(** Debug-build assertion or slice bound: continue or panic. *)
Notation "'assert!' b ';;' k" := (if b then k else Panic)
  (at level 10, b at level 99, k at level 200,
   format "'[v' 'assert!'  b  ';;' '/' k ']'") : wyr_scope.

(** [if b { return Err(e); }]. *)
Notation "'reject_if!' b 'with' e ';;' k" := (if b then Err e else k)
  (at level 10, b at level 99, e at level 99, k at level 200,
   format "'[v' 'reject_if!'  b  'with'  e  ';;' '/' k ']'") : wyr_scope.

#[global] Instance res_eq_dec {E A} `{EqDecision E} `{EqDecision A} :
  EqDecision (res E A).
Proof. solve_decision. Defined.

Section res_laws.
Context {E A B : Type}.
Implicit Types (c : res E A) (k : A -> res E B) (o : option A).

Lemma res_bind_Ok c k b :
  res_bind c k = Ok b <-> exists a, c = Ok a /\ k a = Ok b.
Proof. destruct c; naive_solver. Qed.

Lemma res_bind_not_panic c k :
  c <> Panic -> (forall a, c = Ok a -> k a <> Panic) -> res_bind c k <> Panic.
Proof. destruct c; naive_solver. Qed.

Lemma or_panic_not_panic o : is_Some o -> or_panic (E:=E) o <> Panic.
Proof. by intros [a ->]. Qed.

Lemma ok_or_not_panic (e : E) o : ok_or e o <> Panic.
Proof. by destruct o. Qed.

Lemma ok_or_Ok (e : E) o (a : A) : ok_or e o = Ok a <-> o = Some a.
Proof. destruct o; naive_solver. Qed.

Lemma or_panic_Ok o (a : A) : or_panic (E:=E) o = Ok a <-> o = Some a.
Proof. destruct o; naive_solver. Qed.
End res_laws.

(** ** Machine integers

    [u8], [u16], [u32], [u64] and [usize] are integers of [Z]; the target is
    x86-64, so [usize] has 64 bits.  [checked_add] and the like return [None]
    exactly when the Rust operation does. *)

Definition u8_bound : Z := 2 ^ 8.
Definition u16_bound : Z := 2 ^ 16.
Definition u32_bound : Z := 2 ^ 32.
Definition u64_bound : Z := 2 ^ 64.

Definition in_u8 (z : Z) : Prop := 0 <= z < 2 ^ 8.
Definition in_u16 (z : Z) : Prop := 0 <= z < 2 ^ 16.
Definition in_u32 (z : Z) : Prop := 0 <= z < 2 ^ 32.
Definition in_u64 (z : Z) : Prop := 0 <= z < 2 ^ 64.

#[global] Instance in_u8_dec z : Decision (in_u8 z).
Proof. unfold in_u8. apply _. Defined.
#[global] Instance in_u16_dec z : Decision (in_u16 z).
Proof. unfold in_u16. apply _. Defined.
#[global] Instance in_u32_dec z : Decision (in_u32 z).
Proof. unfold in_u32. apply _. Defined.
#[global] Instance in_u64_dec z : Decision (in_u64 z).
Proof. unfold in_u64. apply _. Defined.

Definition checked_add (bound a b : Z) : option Z :=
  if a + b <? bound then Some (a + b) else None.
Definition checked_mul (bound a b : Z) : option Z :=
  if a * b <? bound then Some (a * b) else None.
Definition checked_sub (a b : Z) : option Z :=
  if b <=? a then Some (a - b) else None.
Definition checked_add_u64 := checked_add (2 ^ 64).
Definition checked_mul_u64 := checked_mul (2 ^ 64).

(** [u32::try_from], [u16::try_from], ... of an unsigned value. *)
Definition try_from_unsigned (bound a : Z) : option Z :=
  if a <? bound then Some a else None.

Section checked.
Implicit Types a b c bound : Z.

Lemma checked_add_Some bound a b c :
  checked_add bound a b = Some c <-> c = a + b /\ a + b < bound.
Proof. unfold checked_add. destruct (Z.ltb_spec (a + b) bound); naive_solver lia. Qed.

Lemma checked_mul_Some bound a b c :
  checked_mul bound a b = Some c <-> c = a * b /\ a * b < bound.
Proof. unfold checked_mul. destruct (Z.ltb_spec (a * b) bound); naive_solver lia. Qed.

Lemma checked_sub_Some a b c :
  checked_sub a b = Some c <-> c = a - b /\ b <= a.
Proof. unfold checked_sub. destruct (Z.leb_spec b a); naive_solver lia. Qed.

Lemma try_from_unsigned_Some bound a b :
  try_from_unsigned bound a = Some b <-> b = a /\ a < bound.
Proof. unfold try_from_unsigned. destruct (Z.ltb_spec a bound); naive_solver lia. Qed.
End checked.

(** ** Lists as arrays *)

(** [slice.len()]. *)
Abbreviation len l := (Z.of_nat (length l)).

(** [iter().position(p)]. *)
Fixpoint position {A : Type} (p : A -> bool) (l : list A) : option nat :=
  match l with
  | [] => None
  | x :: l => if p x then Some 0%nat else S <$> position p l
  end.

(** [iter().find_map(f)]. *)
Fixpoint find_map {A B : Type} (f : A -> option B) (l : list A) : option B :=
  match l with
  | [] => None
  | x :: l => match f x with Some b => Some b | None => find_map f l end
  end.

(** [iter().find(p)]. *)
Fixpoint find_first {A : Type} (p : A -> bool) (l : list A) : option A :=
  match l with
  | [] => None
  | x :: l => if p x then Some x else find_first p l
  end.

(** [iter().flatten()] over an array of options. *)
Fixpoint flatten {A : Type} (l : list (option A)) : list A :=
  match l with
  | [] => []
  | Some x :: l => x :: flatten l
  | None :: l => flatten l
  end.

(** [contains]. *)
Definition contains {A : Type} `{EqDecision A} (x : A) (l : list A) : bool :=
  bool_decide (x ∈ l).

Section array_lemmas.
Context {A : Type}.
Implicit Types (l : list A) (p : A -> bool) (i : nat).

Lemma position_Some p l i :
  position p l = Some i <->
  exists x, l !! i = Some x /\ p x = true /\
    forall j y, (j < i)%nat -> l !! j = Some y -> p y = false.
Proof.
  revert i. induction l as [|x l IH]; intros i; simpl.
  { split; [done|]. intros (y & Hy & _). by rewrite lookup_nil in Hy. }
  destruct (p x) eqn:Hp.
  - split.
    + intros [= <-]. exists x. split_and!; [done|done|]. intros; lia.
    + intros (y & Hy & Hpy & Hlt). destruct i as [|i]; [done|].
      assert (p x = false); [|congruence]. by apply (Hlt 0%nat); [lia|].
  - rewrite fmap_Some. split.
    + intros (j & (y & Hy & Hpy & Hlt)%IH & ->). exists y.
      split_and!; [done|done|]. intros [|k] z Hk Hz; simpl in Hz.
      * by injection Hz as ->.
      * eapply Hlt; [|done]. lia.
    + intros (y & Hy & Hpy & Hlt). destruct i as [|i]; [injection Hy as ->; congruence|].
      exists i. split; [|done]. apply IH. exists y. split_and!; [done|done|].
      intros j z Hj Hz. apply (Hlt (S j)); [lia|done].
Qed.

Lemma position_None p l :
  position p l = None <-> Forall (fun x => p x = false) l.
Proof.
  induction l as [|x l IH]; simpl.
  { split; [constructor|done]. }
  rewrite Forall_cons. destruct (p x); [naive_solver|].
  rewrite fmap_None, IH. naive_solver.
Qed.

Lemma position_lt p l i : position p l = Some i -> (i < length l)%nat.
Proof. intros (x & Hx & _)%position_Some. by eapply lookup_lt_Some. Qed.

Lemma find_map_Some {B} (f : A -> option B) l b :
  find_map f l = Some b -> exists x, x ∈ l /\ f x = Some b.
Proof.
  induction l as [|x l IH]; simpl; [done|].
  destruct (f x) eqn:Hf.
  - intros [= ->]. exists x. split; [by left|done].
  - intros (y & ? & ?)%IH. exists y. split; [by right|done].
Qed.

Lemma find_map_None {B} (f : A -> option B) l :
  find_map f l = None <-> Forall (fun x => f x = None) l.
Proof.
  induction l as [|x l IH]; simpl; [split; [constructor|done]|].
  rewrite Forall_cons. destruct (f x); naive_solver.
Qed.

Lemma elem_of_flatten (os : list (option A)) x :
  x ∈ flatten os <-> Some x ∈ os.
Proof.
  induction os as [|[y|] os IH]; simpl; rewrite ?elem_of_nil, ?elem_of_cons; [done|..].
  - rewrite IH. naive_solver.
  - rewrite IH. naive_solver.
Qed.

Lemma flatten_app (os1 os2 : list (option A)) :
  flatten (os1 ++ os2) = flatten os1 ++ flatten os2.
Proof. induction os1 as [|[x|] os1 IH]; simpl; [done| |]; by rewrite IH. Qed.

Lemma length_flatten (os : list (option A)) :
  (length (flatten os) <= length os)%nat.
Proof. induction os as [|[x|] os IH]; simpl; lia. Qed.

Lemma contains_true `{EqDecision A} x l : contains x l = true <-> x ∈ l.
Proof. apply bool_decide_eq_true. Qed.

Lemma contains_false `{EqDecision A} x l : contains x l = false <-> x ∉ l.
Proof. apply bool_decide_eq_false. Qed.
End array_lemmas.

(** ** Automation *)

Create HintDb wyr discriminated.
#[export] Hint Constants Opaque : wyr.

(** Case analysis on the first [match] or [if] of a hypothesis. *)
Ltac destruct_match_in H :=
  match type of H with
  | context [match ?x with _ => _ end] =>
      lazymatch x with
      | context [match _ with _ => _ end] => fail
      | _ => let E := fresh "E" in destruct x eqn:E
      end
  end.

(** Turn a successful run of a [let!]/[reject_if!] chain into its facts. *)
Ltac res_step :=
  match goal with
  | H : Err _ = Ok _ |- _ => discriminate H
  | H : Panic = Ok _ |- _ => discriminate H
  | H : Ok _ = Err _ |- _ => discriminate H
  | H : Ok _ = Ok _ |- _ => injection H as H
  | H : res_bind _ _ = Ok _ |- _ =>
      let a := fresh "a" in let H1 := fresh "H" in
      apply res_bind_Ok in H as (a & H1 & H); cbv beta in H
  | H : ok_or _ _ = Ok _ |- _ => apply ok_or_Ok in H
  | H : or_panic _ = Ok _ |- _ => apply or_panic_Ok in H
  | H : (if ?b then Err _ else _) = Ok _ |- _ =>
      let E := fresh "E" in destruct b eqn:E; [discriminate H|]
  | H : (if ?b then _ else Err _) = Ok _ |- _ =>
      let E := fresh "E" in destruct b eqn:E; [|discriminate H]
  | H : (if ?b then _ else Panic) = Ok _ |- _ =>
      let E := fresh "E" in destruct b eqn:E; [|discriminate H]
  end.

(** Boolean tests of the code as propositions. *)
Ltac bool_prop :=
  repeat match goal with
  | H : (_ && _)%bool = true |- _ => apply andb_true_iff in H as [? ?]
  | H : (_ || _)%bool = false |- _ => apply orb_false_iff in H as [? ?]
  | H : (_ && _)%bool = false |- _ => apply andb_false_iff in H
  | H : (_ || _)%bool = true |- _ => apply orb_true_iff in H
  | H : negb _ = true |- _ => apply negb_true_iff in H
  | H : negb _ = false |- _ => apply negb_false_iff in H
  | H : (_ =? _) = true |- _ => apply Z.eqb_eq in H
  | H : (_ =? _) = false |- _ => apply Z.eqb_neq in H
  | H : (_ <? _) = true |- _ => apply Z.ltb_lt in H
  | H : (_ <? _) = false |- _ => apply Z.ltb_ge in H
  | H : (_ <=? _) = true |- _ => apply Z.leb_le in H
  | H : (_ <=? _) = false |- _ => apply Z.leb_gt in H
  | H : (_ >? _) = true |- _ => apply Z.gtb_lt in H
  | H : (_ >? _) = false |- _ => rewrite Z.gtb_ltb in H
  | H : (_ >=? _) = true |- _ => apply Z.geb_le in H
  | H : (_ >=? _) = false |- _ => rewrite Z.geb_leb in H
  | H : bool_decide _ = true |- _ => apply bool_decide_eq_true in H
  | H : bool_decide _ = false |- _ => apply bool_decide_eq_false in H
  | H : contains _ _ = true |- _ => apply contains_true in H
  | H : contains _ _ = false |- _ => apply contains_false in H
  | H : ~ (_ <> _) |- _ => apply dec_stable in H
  end.

Ltac res_inv := repeat res_step; bool_prop.

(** Split the conjunctions one sees, without unfolding definitions. *)
Ltac split_conj := repeat match goal with |- _ /\ _ => split end.

(** ** Arithmetic that overflows

    Plain [-] on an unsigned type panics when overflow checks are compiled in
    (debug and test builds) and wraps when they are not (release builds).
    Definitions that depend on it take the build's setting as a parameter. *)
Definition sub_unsigned {E} (overflow_checks : bool) (bound a b : Z) : res E Z :=
  if b <=? a then Ok (a - b)
  else if overflow_checks then Panic else Ok ((a - b) mod bound).

Definition add_unsigned {E} (overflow_checks : bool) (bound a b : Z) : res E Z :=
  if a + b <? bound then Ok (a + b)
  else if overflow_checks then Panic else Ok ((a + b) mod bound).

Lemma sub_unsigned_le {E} oc bound a b : b <= a -> sub_unsigned (E:=E) oc bound a b = Ok (a - b).
Proof. intros. unfold sub_unsigned. by destruct (Z.leb_spec b a); [|lia]. Qed.

Lemma add_unsigned_lt {E} oc bound a b :
  a + b < bound -> add_unsigned (E:=E) oc bound a b = Ok (a + b).
Proof. intros. unfold add_unsigned. by destruct (Z.ltb_spec (a + b) bound); [|lia]. Qed.

Lemma checked_add_u64_ok a b : a + b < 2 ^ 64 -> checked_add_u64 a b = Some (a + b).
Proof. intros. by apply checked_add_Some. Qed.

Lemma checked_mul_u64_ok a b : a * b < 2 ^ 64 -> checked_mul_u64 a b = Some (a * b).
Proof. intros. by apply checked_mul_Some. Qed.

(** Case analysis on the integer tests of the goal, dropping the impossible
    outcomes as soon as they appear. *)
Ltac bool_cases :=
  repeat match goal with
  | |- context [?a <? ?b] => destruct (Z.ltb_spec a b); try (exfalso; lia)
  | |- context [?a <=? ?b] => destruct (Z.leb_spec a b); try (exfalso; lia)
  | |- context [?a >? ?b] => destruct (Z.gtb_spec a b); try (exfalso; lia)
  | |- context [?a >=? ?b] => rewrite (Z.geb_leb a b)
  | |- context [?a =? ?b] => destruct (Z.eqb_spec a b); try (exfalso; lia)
  | |- context [bool_decide ?P] =>
      first [ rewrite (bool_decide_eq_true_2 P) by first [done | lia]
            | rewrite (bool_decide_eq_false_2 P) by first [done | lia | tauto] ]
  end; simpl.

(** Unchecked [a + b] and [a - b] on [u64] and [usize], where the code relies on
    the result to fit in every build: anything else is [Panic]. *)
Definition plus {E} (a b : Z) : res E Z := or_panic (checked_add_u64 a b).
Definition minus {E} (a b : Z) : res E Z := or_panic (checked_sub a b).

Lemma plus_Ok {E} a b c : @plus E a b = Ok c <-> c = a + b /\ a + b < 2 ^ 64.
Proof. unfold plus. rewrite or_panic_Ok. apply checked_add_Some. Qed.

Lemma plus_np {E} a b : a + b < 2 ^ 64 -> @plus E a b <> Panic.
Proof. intros. unfold plus. by rewrite checked_add_u64_ok. Qed.

Lemma minus_Ok {E} a b c : @minus E a b = Ok c <-> c = a - b /\ b <= a.
Proof. unfold minus. rewrite or_panic_Ok. apply checked_sub_Some. Qed.

Lemma minus_np {E} a b : b <= a -> @minus E a b <> Panic.
Proof. intros. unfold minus. by rewrite (proj2 (checked_sub_Some a b (a - b))). Qed.

Lemma gtb_false a b : a <= b -> (a >? b) = false.
Proof. intros. destruct (Z.gtb_spec a b); [lia|done]. Qed.
