(* ===== verification/Bytes.v ===== *)
(** * Byte buffers and little-endian fields

    Byte slices are lists of [Z] whose elements are below 256 ([bytes_ok]).
    This file holds the slice operations the codecs of the repository use
    ([get(a..b)], [copy_from_slice] into [out[a..b]], [fill]), the
    [from_le_bytes]/[to_le_bytes] conversions, and the lemmas by which a field
    read from a written buffer is computed ([buf_simpl]) and by which two
    buffers that agree field by field are equal ([agree]). *)

From Stdlib Require Import String Ascii.
From stdpp Require Import base tactics option list list_numbers.
From Stdlib Require Import ZArith Lia.
From S2P Require Import Prelude.

Definition bytes_ok (bs : list Z) : Prop := Forall in_u8 bs.

#[global] Instance bytes_ok_dec bs : Decision (bytes_ok bs).
Proof. unfold bytes_ok. apply _. Defined.

(** The bytes of an ASCII literal. *)
Fixpoint literal (s : string) : list Z :=
  match s with
  | EmptyString => []
  | String c s => Z.of_nat (nat_of_ascii c) :: literal s
  end.

#[global] Arguments literal s%_string.

(** [uN::from_le_bytes] and [uN::to_le_bytes]. *)
Fixpoint of_le (bs : list Z) : Z :=
  match bs with
  | [] => 0
  | b :: bs => b + 2 ^ 8 * of_le bs
  end.

Fixpoint to_le (n : nat) (v : Z) : list Z :=
  match n with
  | O => []
  | S n => v mod 2 ^ 8 :: to_le n (v / 2 ^ 8)
  end.

(** [slice.get(a..b)]. *)
Definition get_range {A} (bs : list A) (a b : Z) : option (list A) :=
  if (0 <=? a) && (a <=? b) && (b <=? len bs)
  then Some (take (Z.to_nat (b - a)) (drop (Z.to_nat a) bs))
  else None.

(** [slice.get(a..)]. *)
Definition get_from {A} (bs : list A) (a : Z) : option (list A) :=
  get_range bs a (len bs).

(** [slice.get_mut(a..a + vs.len())?.copy_from_slice(vs)]. *)
Definition put_range {A} (bs : list A) (a : Z) (vs : list A) : option (list A) :=
  if (0 <=? a) && (a + len vs <=? len bs)
  then Some (take (Z.to_nat a) bs ++ vs ++ drop (Z.to_nat (a + len vs)) bs)
  else None.

(** [slice.get(i)] for a [usize] index. *)
Definition get_at {A} (bs : list A) (i : Z) : option A :=
  if 0 <=? i then bs !! Z.to_nat i else None.

Definition get_le (n : nat) (bs : list Z) (a : Z) : option Z :=
  of_le <$> get_range bs a (a + Z.of_nat n).

Definition put_le (n : nat) (bs : list Z) (a v : Z) : option (list Z) :=
  put_range bs a (to_le n v).

(** [out[..n].fill(0)]. *)
Definition fill_zero (bs : list Z) (n : Z) : option (list Z) :=
  put_range bs 0 (replicate (Z.to_nat n) 0).

(** ** Little-endian conversions *)

Lemma length_to_le n v : length (to_le n v) = n.
Proof. revert v. induction n; intros; simpl; auto. Qed.

Lemma to_le_bytes_ok n v : bytes_ok (to_le n v).
Proof.
  revert v. induction n as [|n IH]; intros v; simpl; constructor; [|apply IH].
  apply Z.mod_pos_bound. lia.
Qed.

Lemma of_le_bound bs : bytes_ok bs -> 0 <= of_le bs < 2 ^ (8 * len bs).
Proof.
  induction 1 as [|b bs Hb _ IH]; simpl length; simpl of_le; [lia|].
  replace (8 * Z.of_nat (S (length bs))) with (8 + 8 * len bs) by lia.
  rewrite Z.pow_add_r by lia. unfold in_u8 in Hb. nia.
Qed.

Lemma of_le_to_le n v : 0 <= v -> of_le (to_le n v) = v mod 2 ^ (8 * Z.of_nat n).
Proof.
  revert v. induction n as [|n IH]; intros v Hv; simpl to_le; simpl of_le.
  { by rewrite Z.mod_1_r. }
  rewrite IH by (apply Z.div_pos; lia).
  replace (8 * Z.of_nat (S n)) with (8 + 8 * Z.of_nat n) by lia.
  rewrite Z.pow_add_r by lia. rewrite Z.rem_mul_r; lia.
Qed.

Lemma of_le_to_le_small n v :
  0 <= v < 2 ^ (8 * Z.of_nat n) -> of_le (to_le n v) = v.
Proof. intros. rewrite of_le_to_le by lia. by apply Z.mod_small. Qed.

Lemma to_le_of_le bs : bytes_ok bs -> to_le (length bs) (of_le bs) = bs.
Proof.
  induction 1 as [|b bs Hb _ IH]; [done|].
  cbn [length to_le of_le]. unfold in_u8 in Hb.
  replace (b + 2 ^ 8 * of_le bs) with (of_le bs * 2 ^ 8 + b) by lia.
  rewrite Z.add_comm, Z.mod_add by lia. rewrite Z.mod_small by lia.
  rewrite Z.div_add by lia. rewrite Z.div_small by lia.
  by rewrite Z.add_0_l, IH.
Qed.

Lemma to_le_zero n : to_le n 0 = replicate n 0.
Proof. induction n as [|n IH]; simpl; [done|]. by rewrite Z.mod_0_l, Z.div_0_l, IH by lia. Qed.

(** ** Ranges *)

Section ranges.
Context {A : Type}.
Implicit Types (bs vs : list A) (a b c : Z).

Lemma get_range_Some bs a b vs :
  get_range bs a b = Some vs <->
  0 <= a /\ a <= b /\ b <= len bs /\
  vs = take (Z.to_nat (b - a)) (drop (Z.to_nat a) bs).
Proof.
  unfold get_range.
  destruct (Z.leb_spec 0 a), (Z.leb_spec a b), (Z.leb_spec b (len bs)); simpl;
    (split; [intros [= <-]; auto | intros (?&?&?&->); auto with lia]); lia.
Qed.

Lemma get_range_is_Some bs a b :
  is_Some (get_range bs a b) <-> 0 <= a <= b /\ b <= len bs.
Proof.
  split.
  - intros [vs (?&?&?&?)%get_range_Some]. lia.
  - intros. eexists. apply get_range_Some. split_and!; try lia. done.
Qed.

Lemma length_get_range bs a b vs : get_range bs a b = Some vs -> len vs = b - a.
Proof. intros (?&?&?&->)%get_range_Some. rewrite length_take, length_drop. lia. Qed.

Lemma lookup_get_range bs a b vs (i : nat) :
  get_range bs a b = Some vs -> Z.of_nat i < b - a ->
  vs !! i = bs !! (Z.to_nat a + i)%nat.
Proof.
  intros (?&?&?&->)%get_range_Some ?.
  rewrite lookup_take_lt by lia. by rewrite lookup_drop.
Qed.

(** Ranges depend only on the bytes they cover. *)
Lemma get_range_ext bs1 bs2 a b :
  length bs1 = length bs2 ->
  (forall i, a <= Z.of_nat i < b -> bs1 !! i = bs2 !! i) ->
  get_range bs1 a b = get_range bs2 a b.
Proof.
  intros Hlen Hi. unfold get_range. rewrite Hlen.
  destruct (Z.leb_spec 0 a), (Z.leb_spec a b), (Z.leb_spec b (len bs2)); simpl; try done.
  f_equal. apply list_eq. intros i.
  destruct (decide (i < Z.to_nat (b - a))%nat).
  - rewrite !lookup_take_lt, !lookup_drop by lia. apply Hi. lia.
  - by rewrite !lookup_take_ge by lia.
Qed.

Lemma put_range_Some bs a vs bs' :
  put_range bs a vs = Some bs' <->
  0 <= a /\ a + len vs <= len bs /\
  bs' = take (Z.to_nat a) bs ++ vs ++ drop (Z.to_nat (a + len vs)) bs.
Proof.
  unfold put_range.
  destruct (Z.leb_spec 0 a), (Z.leb_spec (a + len vs) (len bs)); simpl;
    (split; [intros [= <-]; auto | intros (?&?&->); auto with lia]); lia.
Qed.

Lemma put_range_is_Some bs a vs :
  is_Some (put_range bs a vs) <-> 0 <= a /\ a + len vs <= len bs.
Proof.
  split.
  - intros [bs' (?&?&?)%put_range_Some]. lia.
  - intros. eexists. apply put_range_Some. split_and!; try lia. done.
Qed.

Lemma length_put_range bs a vs bs' :
  put_range bs a vs = Some bs' -> length bs' = length bs.
Proof.
  intros (?&?&->)%put_range_Some.
  rewrite !length_app, length_take, length_drop. lia.
Qed.

Lemma lookup_put_range bs a vs bs' (i : nat) :
  put_range bs a vs = Some bs' ->
  bs' !! i = if decide (a <= Z.of_nat i < a + len vs)
             then vs !! (i - Z.to_nat a)%nat else bs !! i.
Proof.
  intros (?&?&->)%put_range_Some. case_decide.
  - rewrite lookup_app_r by (rewrite length_take; lia).
    rewrite length_take, lookup_app_l by lia. f_equal. lia.
  - destruct (decide (Z.of_nat i < a)).
    + rewrite lookup_app_l by (rewrite length_take; lia). by rewrite lookup_take_lt by lia.
    + rewrite lookup_app_r by (rewrite length_take; lia).
      rewrite length_take, lookup_app_r by lia. rewrite lookup_drop. f_equal. lia.
Qed.

Lemma get_put_same bs a vs bs' :
  put_range bs a vs = Some bs' -> get_range bs' a (a + len vs) = Some vs.
Proof.
  intros H. pose proof (length_put_range _ _ _ _ H) as Hl.
  apply put_range_Some in H as (?&?&->).
  apply get_range_Some. split_and!; [lia|lia|lia|].
  rewrite drop_app_length' by (rewrite length_take; lia).
  replace (Z.to_nat (a + len vs - a)) with (length vs) by lia.
  by rewrite take_app_length.
Qed.

Lemma get_put_other bs a vs bs' b c :
  put_range bs a vs = Some bs' -> c <= a \/ a + len vs <= b ->
  get_range bs' b c = get_range bs b c.
Proof.
  intros H Hd. apply get_range_ext; [by eapply length_put_range|].
  intros i Hi. rewrite (lookup_put_range _ _ _ _ _ H).
  rewrite decide_False; [done|lia].
Qed.

(** A buffer in which a range is replaced by what it already holds. *)
Lemma put_range_id bs a vs :
  get_range bs a (a + len vs) = Some vs -> put_range bs a vs = Some bs.
Proof.
  intros (?&?&?&Hvs)%get_range_Some. apply put_range_Some.
  split_and!; [lia|lia|].
  rewrite Hvs at 1. replace (Z.to_nat (a + len vs - a)) with (length vs) by lia.
  replace (Z.to_nat (a + len vs)) with (Z.to_nat a + length vs)%nat by lia.
  by rewrite <-drop_drop, !take_drop.
Qed.

Lemma get_range_full bs : get_range bs 0 (len bs) = Some bs.
Proof.
  apply get_range_Some. split_and!; [lia|lia|lia|].
  change (Z.to_nat 0) with 0%nat. rewrite drop_0. symmetry. apply take_ge. lia.
Qed.

Lemma get_range_split bs a b c vs :
  get_range bs a c = Some vs -> a <= b <= c ->
  exists v1 v2, get_range bs a b = Some v1 /\ get_range bs b c = Some v2 /\ vs = v1 ++ v2.
Proof.
  intros (?&?&?&->)%get_range_Some ?.
  eexists _, _. split_and!.
  - apply get_range_Some. split_and!; [lia|lia|lia|reflexivity].
  - apply get_range_Some. split_and!; [lia|lia|lia|reflexivity].
  - replace (Z.to_nat (c - a)) with (Z.to_nat (b - a) + Z.to_nat (c - b))%nat by lia.
    rewrite <-take_take_drop. f_equal. rewrite drop_drop. do 2 f_equal. lia.
Qed.

(** Two buffers agree on a range. *)
Definition agree bs1 bs2 a b : Prop := get_range bs1 a b = get_range bs2 a b.

Lemma agree_join bs1 bs2 a b c :
  length bs1 = length bs2 -> 0 <= a <= b -> b <= c -> c <= len bs1 ->
  agree bs1 bs2 a b -> agree bs1 bs2 b c -> agree bs1 bs2 a c.
Proof.
  unfold agree. intros Hl Hab Hbc Hc H1 H2.
  destruct (proj2 (get_range_is_Some bs1 a c)) as [v1 Hv1]; [lia|].
  destruct (proj2 (get_range_is_Some bs2 a c)) as [v2 Hv2]; [lia|].
  destruct (get_range_split _ _ b _ _ Hv1) as (x1 & y1 & ? & ? & ->); [lia|].
  destruct (get_range_split _ _ b _ _ Hv2) as (x2 & y2 & ? & ? & ->); [lia|].
  congruence.
Qed.

Lemma agree_full bs1 bs2 :
  length bs1 = length bs2 -> agree bs1 bs2 0 (len bs1) -> bs1 = bs2.
Proof.
  unfold agree. intros Hl. rewrite get_range_full, Hl, get_range_full. congruence.
Qed.
End ranges.

(** ** Fields of a buffer *)

Lemma bytes_ok_get_range bs a b vs : bytes_ok bs -> get_range bs a b = Some vs -> bytes_ok vs.
Proof. intros Hok (?&?&?&->)%get_range_Some. by apply Forall_take, Forall_drop. Qed.

Lemma bytes_ok_put_range bs a vs bs' :
  bytes_ok bs -> bytes_ok vs -> put_range bs a vs = Some bs' -> bytes_ok bs'.
Proof.
  intros Hok Hvs (?&?&->)%put_range_Some. unfold bytes_ok.
  rewrite !Forall_app. split_and!; [by apply Forall_take|done|by apply Forall_drop].
Qed.

Lemma bytes_ok_replicate_0 n : bytes_ok (replicate n 0).
Proof. apply Forall_replicate. unfold in_u8. lia. Qed.

Lemma get_le_is_Some n bs a :
  is_Some (get_le n bs a) <-> 0 <= a /\ a + Z.of_nat n <= len bs.
Proof. unfold get_le. rewrite fmap_is_Some, get_range_is_Some. lia. Qed.

Lemma get_le_bound n bs a v :
  bytes_ok bs -> get_le n bs a = Some v -> 0 <= v < 2 ^ (8 * Z.of_nat n).
Proof.
  unfold get_le. intros Hok (vs & Hvs & ->)%fmap_Some.
  pose proof (of_le_bound vs (bytes_ok_get_range _ _ _ _ Hok Hvs)).
  rewrite (length_get_range _ _ _ _ Hvs) in H. by replace (a + Z.of_nat n - a) with (Z.of_nat n) in H by lia.
Qed.

Lemma get_le_range n bs a v :
  bytes_ok bs -> get_le n bs a = Some v ->
  get_range bs a (a + Z.of_nat n) = Some (to_le n v).
Proof.
  unfold get_le. intros Hok (vs & Hvs & ->)%fmap_Some. rewrite Hvs. f_equal.
  assert (length vs = n) as <- by (apply length_get_range in Hvs; lia).
  symmetry. apply to_le_of_le. by eapply bytes_ok_get_range.
Qed.

Lemma put_le_is_Some n bs a v :
  is_Some (put_le n bs a v) <-> 0 <= a /\ a + Z.of_nat n <= len bs.
Proof. unfold put_le. by rewrite put_range_is_Some, length_to_le. Qed.

Lemma length_put_le n bs a v bs' : put_le n bs a v = Some bs' -> length bs' = length bs.
Proof. apply length_put_range. Qed.

Lemma bytes_ok_put_le n bs a v bs' :
  bytes_ok bs -> put_le n bs a v = Some bs' -> bytes_ok bs'.
Proof. intros ?. apply bytes_ok_put_range; [done|]. apply to_le_bytes_ok. Qed.

Lemma get_put_le_same n bs a v bs' :
  put_le n bs a v = Some bs' -> 0 <= v < 2 ^ (8 * Z.of_nat n) -> get_le n bs' a = Some v.
Proof.
  unfold put_le, get_le. intros H Hv. apply get_put_same in H.
  rewrite length_to_le in H. rewrite H. simpl. by rewrite of_le_to_le_small.
Qed.

Lemma get_put_le_other n m bs a v bs' b :
  put_le n bs a v = Some bs' -> b + Z.of_nat m <= a \/ a + Z.of_nat n <= b ->
  get_le m bs' b = get_le m bs b.
Proof.
  unfold put_le, get_le. intros H Hd. f_equal.
  eapply get_put_other; [done|]. rewrite length_to_le. lia.
Qed.

Lemma get_range_put_le_other n bs a v bs' b c :
  put_le n bs a v = Some bs' -> c <= a \/ a + Z.of_nat n <= b ->
  get_range bs' b c = get_range bs b c.
Proof. unfold put_le. intros H Hd. eapply get_put_other; [done|]. rewrite length_to_le. lia. Qed.

Lemma get_le_put_range_other m bs a vs bs' b :
  put_range bs a vs = Some bs' -> b + Z.of_nat m <= a \/ a + len vs <= b ->
  get_le m bs' b = get_le m bs b.
Proof. unfold get_le. intros H Hd. f_equal. by eapply get_put_other. Qed.

Lemma get_at_lookup {A} (bs : list A) i x :
  get_at bs i = Some x <-> 0 <= i /\ bs !! Z.to_nat i = Some x.
Proof. unfold get_at. destruct (Z.leb_spec 0 i); naive_solver lia. Qed.

Lemma get_at_is_Some {A} (bs : list A) i : is_Some (get_at bs i) <-> 0 <= i < len bs.
Proof.
  unfold get_at. destruct (Z.leb_spec 0 i).
  - rewrite lookup_lt_is_Some. lia.
  - split; [by intros []|lia].
Qed.

Lemma bytes_ok_get_at bs i b : bytes_ok bs -> get_at bs i = Some b -> in_u8 b.
Proof. intros Hok [_ H]%get_at_lookup. by eapply Forall_lookup_1. Qed.

(** A zero-filled range reads as zero. *)
Lemma fill_zero_Some bs n bs' :
  fill_zero bs n = Some bs' -> 0 <= n ->
  n <= len bs /\ length bs' = length bs /\
  forall a b, 0 <= a <= b -> b <= n ->
    get_range bs' a b = Some (replicate (Z.to_nat (b - a)) 0).
Proof.
  unfold fill_zero. intros H Hn.
  pose proof (length_put_range _ _ _ _ H). pose proof (get_put_same _ _ _ _ H) as Hs.
  apply put_range_Some in H as (_ & Hle & _). rewrite length_replicate in Hle, Hs.
  split_and!; [lia|done|]. intros a b Ha Hb.
  apply get_range_Some in Hs as (_ & _ & _ & Hs).
  apply get_range_Some. split_and!; [lia|lia|lia|].
  change (Z.to_nat 0) with 0%nat in Hs. rewrite drop_0 in Hs.
  replace (Z.to_nat (0 + Z.of_nat (Z.to_nat n) - 0)) with (Z.to_nat n) in Hs by lia.
  assert (replicate (Z.to_nat (b - a)) 0 =
    take (Z.to_nat (b - a)) (drop (Z.to_nat a) (replicate (Z.to_nat n) 0))) as ->.
  { rewrite drop_replicate, take_replicate. f_equal. lia. }
  rewrite Hs. rewrite skipn_firstn_comm, firstn_firstn. f_equal. lia.
Qed.

Lemma of_le_replicate_0 n : of_le (replicate n 0) = 0.
Proof. induction n as [|n IH]; simpl; [done|]. rewrite IH. lia. Qed.

#[export] Hint Resolve to_le_bytes_ok bytes_ok_replicate_0 : wyr.
#[export] Hint Resolve bytes_ok_get_range bytes_ok_put_range bytes_ok_put_le : wyr.

(** ** Prefixes: the message a codec wrote into a longer buffer *)

Lemma get_range_take {A} (bs : list A) n a b :
  b <= n -> n <= len bs -> get_range (take (Z.to_nat n) bs) a b = get_range bs a b.
Proof.
  intros Hb Hn. unfold get_range. rewrite length_take.
  replace (b <=? Z.of_nat (Z.to_nat n `min` length bs)) with (b <=? len bs);
    [|destruct (Z.leb_spec b (len bs)), (Z.leb_spec b (Z.of_nat (Z.to_nat n `min` length bs))); lia].
  destruct (Z.leb_spec 0 a), (Z.leb_spec a b); simpl; try done.
  destruct (Z.leb_spec b (len bs)); [|done]. f_equal.
  rewrite skipn_firstn_comm, firstn_firstn. f_equal. lia.
Qed.

Lemma get_le_take m bs n a :
  a + Z.of_nat m <= n -> n <= len bs -> get_le m (take (Z.to_nat n) bs) a = get_le m bs a.
Proof. intros. unfold get_le. by rewrite get_range_take. Qed.

(** Agreement of two buffers on an integer field. *)
Lemma agree_le n bs1 bs2 a v :
  bytes_ok bs1 -> bytes_ok bs2 ->
  get_le n bs1 a = Some v -> get_le n bs2 a = Some v -> agree bs1 bs2 a (a + Z.of_nat n).
Proof. intros ?? H1 H2. unfold agree. by rewrite (get_le_range n _ _ v), (get_le_range n _ _ v). Qed.

(** ** Symbolic execution of codecs

    [buf_write] runs the next write of the goal, leaving the equation and the
    length of the new buffer; [buf_read] computes the fields of written
    buffers from those equations. *)

Ltac buf_len :=
  repeat match goal with
  | H : length ?x = length ?y |- _ => first [rewrite H in * |- | fail 1]; revert H
  end; intros.

Ltac buf_lia :=
  rewrite ?length_to_le, ?length_replicate in *; simpl length in *; lia.

Ltac buf_write :=
  match goal with
  | |- context [put_le ?n ?bs ?a ?v] =>
      let bs' := fresh "out" in let H := fresh "Hput" in
      destruct (put_le n bs a v) as [bs'|] eqn:H;
      [ pose proof (length_put_le _ _ _ _ _ H)
      | exfalso; apply eq_None_not_Some in H; apply H, put_le_is_Some; buf_lia ]
  | |- context [put_range ?bs ?a ?vs] =>
      let bs' := fresh "out" in let H := fresh "Hput" in
      destruct (put_range bs a vs) as [bs'|] eqn:H;
      [ pose proof (length_put_range _ _ _ _ H)
      | exfalso; apply eq_None_not_Some in H; apply H, put_range_is_Some; buf_lia ]
  end; cbn [ok_or or_panic res_bind].

Ltac buf_read_step :=
  match goal with
  | H : put_le ?n ?bs ?a ?v = Some ?bs' |- context [get_le ?m ?bs' ?b] =>
      first [ rewrite (get_put_le_same n bs a v bs' H) by lia
            | rewrite (get_put_le_other n m bs a v bs' b H) by lia ]
  | H : put_range ?bs ?a ?vs = Some ?bs' |- context [get_le ?m ?bs' ?b] =>
      rewrite (get_le_put_range_other m bs a vs bs' b H) by buf_lia
  | H : put_le ?n ?bs ?a ?v = Some ?bs' |- context [get_range ?bs' ?b ?c] =>
      rewrite (get_range_put_le_other n bs a v bs' b c H) by lia
  | H : put_range ?bs ?a ?vs = Some ?bs' |- context [get_range ?bs' ?b ?c] =>
      first [ rewrite (get_put_other bs a vs bs' b c H) by buf_lia
            | replace c with (a + len vs) by buf_lia; rewrite (get_put_same bs a vs bs' H) ]
  end.

Ltac buf_read := repeat buf_read_step.

(** Extend an agreement by one more region. *)
Lemma agree_snoc {A} (bs1 bs2 : list A) b c :
  agree bs1 bs2 0 b -> agree bs1 bs2 b c ->
  length bs1 = length bs2 -> 0 <= b <= c -> c <= len bs1 -> agree bs1 bs2 0 c.
Proof. intros. eapply agree_join; [done| | | |done|done]; lia. Qed.

Lemma agree_Some {A} (bs1 bs2 : list A) a b vs :
  get_range bs1 a b = Some vs -> get_range bs2 a b = Some vs -> agree bs1 bs2 a b.
Proof. unfold agree. congruence. Qed.

(** Absence of panics: every indexing operation of a chain is in range, by the
    size tests passed so far. *)
Ltac no_panic_step :=
  match goal with
  | |- Ok _ <> Panic => discriminate
  | |- Err _ <> Panic => discriminate
  | |- ok_or _ _ <> Panic => apply ok_or_not_panic
  | |- or_panic (get_le _ _ _) <> Panic => apply or_panic_not_panic, get_le_is_Some
  | |- or_panic (get_range _ _ _) <> Panic => apply or_panic_not_panic, get_range_is_Some
  | |- res_bind _ _ <> Panic =>
      apply res_bind_not_panic; [|let a := fresh "a" in let H := fresh "H" in intros a H]
  | |- (if ?b then _ else _) <> Panic => let E := fresh "E" in destruct b eqn:E
  end.
Ltac no_panic := repeat no_panic_step.

(** ** Bytewise order on slices ([<[u8] as Ord>::cmp]) *)

Fixpoint bytes_cmp (xs ys : list Z) : comparison :=
  match xs, ys with
  | [], [] => Eq
  | [], _ :: _ => Lt
  | _ :: _, [] => Gt
  | x :: xs, y :: ys =>
      match x ?= y with
      | Eq => bytes_cmp xs ys
      | c => c
      end
  end.

Definition bytes_ltb (xs ys : list Z) : bool :=
  match bytes_cmp xs ys with Lt => true | _ => false end.
Definition bytes_geb (xs ys : list Z) : bool := negb (bytes_ltb xs ys).
Definition bytes_lt (xs ys : list Z) : Prop := bytes_cmp xs ys = Lt.

#[global] Instance bytes_lt_dec : RelDecision bytes_lt.
Proof. unfold bytes_lt. intros xs ys. apply _. Defined.

Lemma bytes_ltb_lt xs ys : bytes_ltb xs ys = true <-> bytes_lt xs ys.
Proof. unfold bytes_ltb, bytes_lt. by destruct (bytes_cmp xs ys). Qed.

Lemma bytes_cmp_eq xs ys : bytes_cmp xs ys = Eq <-> xs = ys.
Proof.
  revert ys. induction xs as [|x xs IH]; intros [|y ys]; simpl; try done.
  destruct (Z.compare_spec x y); [|split; [done|intros; simplify_eq; lia]..].
  subst. rewrite IH. naive_solver.
Qed.

Lemma bytes_cmp_antisym xs ys : bytes_cmp ys xs = CompOpp (bytes_cmp xs ys).
Proof.
  revert ys. induction xs as [|x xs IH]; intros [|y ys]; simpl; try done.
  rewrite (Z.compare_antisym x y). destruct (x ?= y); simpl; auto.
Qed.

Lemma bytes_cmp_gt xs ys : bytes_cmp xs ys = Gt <-> bytes_lt ys xs.
Proof.
  unfold bytes_lt. rewrite (bytes_cmp_antisym xs ys). by destruct (bytes_cmp xs ys).
Qed.

#[global] Instance bytes_lt_trans : Transitive bytes_lt.
Proof.
  unfold bytes_lt. intros xs. induction xs as [|x xs IH]; intros [|y ys] [|z zs]; simpl; try done.
  destruct (Z.compare_spec x y), (Z.compare_spec y z); try done; subst; intros ? ?.
  - rewrite Z.compare_refl. by eapply IH.
  - by rewrite (proj2 (Z.compare_lt_iff _ _)).
  - by rewrite (proj2 (Z.compare_lt_iff _ _)).
  - by rewrite (proj2 (Z.compare_lt_iff x z)) by lia.
Qed.

#[global] Instance bytes_lt_irrefl : Irreflexive bytes_lt.
Proof. unfold bytes_lt. intros xs. unfold complement. by rewrite (proj2 (bytes_cmp_eq xs xs)). Qed.

Lemma bytes_lt_trichotomy xs ys : bytes_lt xs ys \/ xs = ys \/ bytes_lt ys xs.
Proof.
  destruct (bytes_cmp xs ys) eqn:E.
  - right; left. by apply bytes_cmp_eq.
  - by left.
  - right; right. by apply bytes_cmp_gt.
Qed.

Lemma get_range_app_r {A} (xs ys : list A) a b :
  0 <= a -> get_range (xs ++ ys) (len xs + a) (len xs + b) = get_range ys a b.
Proof.
  intros. unfold get_range. rewrite length_app.
  replace (0 <=? len xs + a) with true by (symmetry; apply Z.leb_le; lia).
  replace (0 <=? a) with true by (symmetry; apply Z.leb_le; lia).
  replace (len xs + a <=? len xs + b) with (a <=? b)
    by (destruct (Z.leb_spec a b), (Z.leb_spec (len xs + a) (len xs + b)); lia).
  replace (len xs + b <=? Z.of_nat (length xs + length ys)) with (b <=? len ys)
    by (destruct (Z.leb_spec b (len ys)),
          (Z.leb_spec (len xs + b) (Z.of_nat (length xs + length ys))); lia).
  destruct (a <=? b) eqn:?, (b <=? len ys); simpl; try done. bool_prop. f_equal.
  replace (Z.to_nat (len xs + a)) with (length xs + Z.to_nat a)%nat by lia.
  rewrite drop_app_add. f_equal. lia.
Qed.

Lemma get_range_app_l {A} (xs ys : list A) a b :
  b <= len xs -> get_range (xs ++ ys) a b = get_range xs a b.
Proof.
  intros. rewrite <-(get_range_take (xs ++ ys) (len xs)) by (rewrite ?length_app; lia).
  by rewrite Nat2Z.id, take_app_length.
Qed.

Lemma get_le_app_r n xs ys a : 0 <= a -> get_le n (xs ++ ys) (len xs + a) = get_le n ys a.
Proof.
  intros. unfold get_le. replace (len xs + a + Z.of_nat n) with (len xs + (a + Z.of_nat n)) by lia.
  by rewrite get_range_app_r.
Qed.

Lemma get_le_app_l n xs ys a :
  a + Z.of_nat n <= len xs -> get_le n (xs ++ ys) a = get_le n xs a.
Proof. intros. unfold get_le. by rewrite get_range_app_l. Qed.

Lemma get_le_to_le n v : 0 <= v < 2 ^ (8 * Z.of_nat n) -> get_le n (to_le n v) 0 = Some v.
Proof.
  intros. unfold get_le. replace (0 + Z.of_nat n) with (len (to_le n v)) by (rewrite length_to_le; lia).
  rewrite get_range_full. simpl. by rewrite of_le_to_le_small.
Qed.

Lemma get_range_middle {A} (pre cur rest : list A) :
  get_range (pre ++ cur ++ rest) (len pre) (len pre + len cur) = Some cur.
Proof.
  replace (len pre) with (len pre + 0) at 1 by lia. rewrite get_range_app_r by lia.
  rewrite get_range_app_l by lia. apply get_range_full.
Qed.

(** A range replaced by one of the same length. *)
Lemma put_range_middle {A} (pre cur rest vs : list A) :
  length cur = length vs -> put_range (pre ++ cur ++ rest) (len pre) vs = Some (pre ++ vs ++ rest).
Proof.
  intros Hl. apply put_range_Some. rewrite !length_app. split_conj; [lia..|].
  rewrite Nat2Z.id, take_app_length. do 2 f_equal. rewrite <-Nat2Z.inj_add, Nat2Z.id, drop_app_add.
  by rewrite <-Hl, drop_app_length.
Qed.

(** Two adjacent writes are one. *)
Lemma put_range_app {A} (bs : list A) a xs ys bs1 bs2 :
  put_range bs a xs = Some bs1 -> put_range bs1 (a + len xs) ys = Some bs2 ->
  put_range bs a (xs ++ ys) = Some bs2.
Proof.
  intros H1 H2. pose proof (length_put_range _ _ _ _ H1). pose proof (length_put_range _ _ _ _ H2).
  pose proof (proj1 (put_range_Some _ _ _ _) H1) as (? & ? & _).
  pose proof (proj1 (put_range_Some _ _ _ _) H2) as (? & ? & _).
  destruct (proj2 (put_range_is_Some bs a (xs ++ ys))) as [bs3 Hb3]; [rewrite length_app; lia|].
  rewrite Hb3. f_equal. apply list_eq. intros i.
  rewrite (lookup_put_range _ _ _ _ _ Hb3), (lookup_put_range _ _ _ _ _ H2),
    (lookup_put_range _ _ _ _ _ H1), length_app.
  repeat case_decide; try lia; try done.
  - rewrite lookup_app_r by lia. f_equal. lia.
  - rewrite lookup_app_l by lia. done.
Qed.

Lemma put_range_nil {A} (bs : list A) a : 0 <= a <= len bs -> put_range bs a [] = Some bs.
Proof.
  intros. apply put_range_Some. simpl. rewrite Z.add_0_r, take_drop. split_and!; [lia..|done].
Qed.

Lemma get_range_take_nat {A} (l : list A) i :
  (i <= length l)%nat -> get_range l 0 (Z.of_nat i) = Some (take i l).
Proof. intros. apply get_range_Some. split_conj; try lia. f_equal. lia. Qed.

Lemma get_from_app {A} (pre rest : list A) : get_from (pre ++ rest) (len pre) = Some rest.
Proof.
  unfold get_from. rewrite length_app, Nat2Z.inj_add. rewrite <-(Z.add_0_r (len pre)) at 1.
  rewrite get_range_app_r by lia. apply get_range_full.
Qed.

Lemma get_prefix {A} (s rest : list A) : get_range (s ++ rest) 0 (len s) = Some s.
Proof. rewrite get_range_app_l by lia. apply get_range_full. Qed.

(** ** Rings *)

Lemma mod_range a k : 0 < k -> 0 <= a mod k < k.
Proof. intros. by apply Z.mod_pos_bound. Qed.

(** Two places within one turn of a ring are distinct. *)
Lemma ring_injective k p i j :
  0 < k -> 0 <= i < k -> 0 <= j < k -> (p + i) mod k = (p + j) mod k -> i = j.
Proof.
  intros Hk Hi Hj H. pose proof (Z.div_mod (p + i) k ltac:(lia)). pose proof (Z.div_mod (p + j) k ltac:(lia)).
  assert (i - j = k * ((p + i) / k - (p + j) / k)) as Hd by lia.
  assert (-1 < (p + i) / k - (p + j) / k < 1) by nia. nia.
Qed.

Lemma get_at_put {A} (l l' : list A) k x :
  put_range l k [x] = Some l' -> 0 <= k /\ length l' = length l /\
  get_at l' k = Some x /\ forall q, q <> k -> get_at l' q = get_at l q.
Proof.
  intros H. pose proof (length_put_range _ _ _ _ H) as Hlen. pose proof H as Hp.
  apply put_range_Some in Hp as (? & ? & _). split_conj; [done|done| |].
  - unfold get_at. rewrite (proj2 (Z.leb_le 0 k)) by done. rewrite (lookup_put_range _ _ _ _ _ H).
    destruct (decide _) as [?|Hn]; [|exfalso; apply Hn; simpl; lia].
    by replace (Z.to_nat k - Z.to_nat k)%nat with 0%nat by lia.
  - intros q Hq. unfold get_at. destruct (Z.leb_spec 0 q); [|done]. rewrite (lookup_put_range _ _ _ _ _ H).
    destruct (decide _) as [Hin|?]; [|done]. simpl in Hin. lia.
Qed.

(** Adjacent ranges join. *)
Lemma range_join (l x y : list Z) a b c : get_range l a b = Some x -> get_range l b c = Some y -> get_range l a c = Some (x ++ y).
Proof.
  intros (A1 & A2 & A3 & ->)%get_range_Some (B1 & B2 & B3 & ->)%get_range_Some. apply get_range_Some. split_and!; [lia..|].
  replace (Z.to_nat (c - a)) with (Z.to_nat (b - a) + Z.to_nat (c - b))%nat by lia. rewrite <-take_take_drop, drop_drop. by repeat f_equal; lia.
Qed.
