(* ===== verification/Layout.v ===== *)
(** * Records of fixed layout

    A record is written down once, as the list of its fields in order.  [render]
    gives its bytes.  [reads bs fs a] says that in [bs], from [a] on, every field reads
    as the list says: this holds of the rendered bytes ([render_reads]) and of no
    others ([reads_render]).
    The codecs of the device protocols meet these lists from both sides. *)

From stdpp Require Import base tactics option list list_numbers.
From Stdlib Require Import ZArith Lia.
From S2P Require Import Prelude Bytes.

Inductive field :=
| Int (width : nat) (value : Z)
| Raw (bytes : list Z).

Definition field_bytes (f : field) : list Z := match f with Int n v => to_le n v | Raw bs => bs end.
Definition width (f : field) : nat := match f with Int n _ => n | Raw bs => length bs end.
Definition render (fs : list field) : list Z := mjoin (field_bytes <$> fs).
Definition zeros (n : nat) : field := Raw (replicate n 0).

(** Values fit their widths. *)
Definition field_ok (f : field) : Prop :=
  match f with Int n v => 0 <= v < 2 ^ (8 * Z.of_nat n) | Raw bs => bytes_ok bs end.

Definition size (fs : list field) : nat := sum_list (width <$> fs).

Lemma length_field_bytes f : length (field_bytes f) = width f.
Proof. destruct f; cbn; [apply length_to_le|done]. Qed.

Lemma render_cons f fs : render (f :: fs) = field_bytes f ++ render fs.
Proof. done. Qed.
Lemma size_cons f fs : size (f :: fs) = (width f + size fs)%nat.
Proof. done. Qed.
Lemma length_render fs : length (render fs) = size fs.
Proof. induction fs as [|f fs IH]; [done|]. by rewrite render_cons, size_cons, length_app, length_field_bytes, IH. Qed.

Lemma render_bytes_ok fs : Forall field_ok fs -> bytes_ok (render fs).
Proof.
  induction 1 as [|f fs Hf _ IH]; [constructor|]. apply Forall_app. split; [|done].
  destruct f; [apply to_le_bytes_ok|done].
Qed.

(** Every field reads back from [offset] on. *)
Fixpoint reads (bs : list Z) (fs : list field) (offset : Z) : Prop :=
  match fs with
  | [] => True
  | f :: fs =>
      match f with
      | Int n v => get_le n bs offset = Some v
      | Raw r => get_range bs offset (offset + len r) = Some r
      end /\ reads bs fs (offset + Z.of_nat (width f))
  end.

Lemma reads_from bs fs : forall offset, bytes_ok bs -> 0 <= offset -> reads bs fs offset ->
  len bs = offset + Z.of_nat (size fs) -> drop (Z.to_nat offset) bs = render fs.
Proof.
  induction fs as [|f fs IH]; intros offset Hb Ho Hr Hl.
  { apply drop_ge. cbn in Hl. lia. }
  rewrite size_cons in Hl. rewrite render_cons. destruct Hr as [Hf Hr]. specialize (IH (offset + Z.of_nat (width f)) Hb ltac:(lia) Hr ltac:(lia)). rewrite <-IH.
  rewrite <-(take_drop (width f) (drop (Z.to_nat offset) bs)), drop_drop. f_equal; [|f_equal; lia].
  destruct f as [n v|r]; cbn [width field_bytes] in *.
  - unfold get_le in Hf. apply fmap_Some in Hf as (r & (_ & _ & Hle & ->)%get_range_Some & ->).
    replace (Z.to_nat (offset + Z.of_nat n - offset)) with n in * by lia.
    transitivity (to_le (length (take n (drop (Z.to_nat offset) bs))) (of_le (take n (drop (Z.to_nat offset) bs)))).
    + symmetry. apply to_le_of_le. by apply Forall_take, Forall_drop.
    + f_equal. rewrite length_take, length_drop. lia.
  - apply get_range_Some in Hf as (_ & _ & _ & Hf). rewrite Hf at 2. f_equal. lia.
Qed.

Lemma reads_render bs fs : bytes_ok bs -> length bs = size fs -> reads bs fs 0 -> bs = render fs.
Proof. intros Hb Hl Hr. apply (reads_from bs fs 0); [done|done|done|lia]. Qed.

Lemma reads_after fs : forall pre, Forall field_ok fs -> reads (pre ++ render fs) fs (len pre).
Proof.
  induction fs as [|f fs IH]; intros pre Hok; [done|]. apply Forall_cons in Hok as [Hf Hok]. cbn [reads].
  assert (get_range (pre ++ render (f :: fs)) (len pre) (len pre + Z.of_nat (width f)) = Some (field_bytes f)) as Hr.
  { apply get_range_Some. rewrite render_cons, !length_app, length_field_bytes. split_and!; [lia..|].
    rewrite drop_app_length' by lia. rewrite take_app_length' by (rewrite length_field_bytes; lia). done. }
  split.
  - destruct f as [n v|r]; [|exact Hr]. unfold get_le. cbn [width] in Hr. rewrite Hr. cbn. f_equal. by apply of_le_to_le_small.
  - rewrite render_cons, (assoc_L (++)). replace (len pre + Z.of_nat (width f)) with (len (pre ++ field_bytes f)); [by apply IH|].
    rewrite length_app, length_field_bytes. lia.
Qed.

(** The fields of a rendered record read back. *)
Lemma render_reads fs : Forall field_ok fs -> reads (render fs) fs 0.
Proof. apply (reads_after fs []). Qed.

(** ** Access by index, as the record codecs write it

    [uN::from_le_bytes(bytes[a..a + n].try_into().unwrap())] and
    [output[a..a + n].copy_from_slice(&value.to_le_bytes())]: out of range they panic. *)

Section access.
Context {E : Type}.
Definition get16 (bytes : list Z) (offset : Z) : res E Z := or_panic (get_le 2 bytes offset).
Definition get32 (bytes : list Z) (offset : Z) : res E Z := or_panic (get_le 4 bytes offset).
Definition get64 (bytes : list Z) (offset : Z) : res E Z := or_panic (get_le 8 bytes offset).
Definition put16 (output : list Z) (offset value : Z) : res E (list Z) := or_panic (put_le 2 output offset value).
Definition put32 (output : list Z) (offset value : Z) : res E (list Z) := or_panic (put_le 4 output offset value).
Definition put64 (output : list Z) (offset value : Z) : res E (list Z) := or_panic (put_le 8 output offset value).
(** [&bytes[a..b]] and [output[a..].copy_from_slice(vs)] *)
Definition slice (bytes : list Z) (a b : Z) : res E (list Z) := or_panic (get_range bytes a b).
Definition splice (output : list Z) (a : Z) (vs : list Z) : res E (list Z) := or_panic (put_range output a vs).
End access.
(** [.iter().any(|value| *value != 0)] *)
Definition any_nonzero (bytes : list Z) : bool := existsb (fun b => negb (b =? 0)) bytes.
(** [output.fill(0)] *)
Definition zeroed (output : list Z) : list Z := replicate (length output) 0.

Lemma any_nonzero_false bs : any_nonzero bs = false <-> bs = replicate (length bs) 0.
Proof.
  induction bs as [|b bs IH]; [done|]. cbn. destruct (Z.eqb_spec b 0) as [->|Hb]; cbn.
  - rewrite IH. split; [congruence|]. intros [=]. done.
  - split; [done|]. by intros [= ->].
Qed.

(** * Codecs of fixed records, as a contract

    [Exact encode parse layout valid proper] is what a record codec promises: it
    writes exactly the valid messages, each as its layout says, and reads back exactly
    the proper ones among them, those whose values fit their fields and have one
    spelling.  The device protocols discharge it; what follows from it is proved once. *)

Class Exact {M E : Type} (encode : M -> list Z -> res E (list Z)) (parse : list Z -> res E M)
    (layout : M -> list field) (valid proper : M -> Prop) : Prop := {
  (** A valid message is written as its layout, whatever the buffer held. *)
  encode_layout m output : valid m -> length output = size (layout m) -> encode m output = Ok (render (layout m));
  (** Nothing else is written. *)
  encode_valid m output written : encode m output = Ok written -> valid m /\ length output = size (layout m);
  encode_no_panic m output : encode m output <> Panic;
  (** What is accepted is the layout of a valid message. *)
  parse_sound bytes m : bytes_ok bytes -> parse bytes = Ok m -> valid m /\ proper m /\ bytes = render (layout m);
  (** And all of those are accepted. *)
  parse_complete m : valid m -> proper m -> parse (render (layout m)) = Ok m;
  parse_no_panic bytes : parse bytes <> Panic;
  proper_fits m : proper m -> Forall field_ok (layout m) }.

Section consequences.
Context {M E : Type} (encode : M -> list Z -> res E (list Z)) (parse : list Z -> res E M).
Context (layout : M -> list field) (valid proper : M -> Prop) {exact : Exact encode parse layout valid proper}.

Lemma exact_round_trip m output written : proper m -> encode m output = Ok written -> parse written = Ok m.
Proof.
  intros Hok He. destruct (encode_valid _ _ _ He) as [Hv Hl]. rewrite (encode_layout _ _ Hv Hl) in He. injection He as <-.
  by apply parse_complete.
Qed.

Lemma exact_canonical bytes m output : bytes_ok bytes -> parse bytes = Ok m -> length output = length bytes -> encode m output = Ok bytes.
Proof.
  intros Hb Hp Hl. destruct (parse_sound _ _ Hb Hp) as (Hv & _ & ->). apply encode_layout; [done|]. by rewrite Hl, length_render.
Qed.
End consequences.

(** ** Discharging it *)

(** The writer's side, from how it treats a wrong size, a message that fails [check], and
    any other. *)
Section writer.
Context {M E : Type} (encode : M -> list Z -> res E (list Z)) (layout : M -> list field).
Context (check : M -> res E unit) (wire_size : M -> Z).
Hypothesis layout_size : forall m, Z.of_nat (size (layout m)) = wire_size m.
Hypothesis check_total : forall m, check m <> Panic.
Hypothesis refuses_size : forall m output, len output <> wire_size m -> exists e, encode m output = Err e.
Hypothesis refuses_message : forall m output e, len output = wire_size m -> check m = Err e -> encode m output = Err e.
Hypothesis writes : forall m output, check m = Ok tt -> length output = size (layout m) -> encode m output = Ok (render (layout m)).

Lemma writer_cases m output :
  match encode m output with
  | Ok _ => check m = Ok tt /\ length output = size (layout m)
  | Err _ => True
  | Panic => False
  end.
Proof.
  destruct (decide (len output = wire_size m)) as [Hl|Hl]; [|by destruct (refuses_size m output Hl) as [e ->]].
  destruct (check m) as [[]|e|] eqn:Hc; [|by rewrite (refuses_message _ _ _ Hl Hc)|by apply check_total in Hc].
  assert (length output = size (layout m)) as Hs by (rewrite <-layout_size in Hl; lia). by rewrite writes.
Qed.
Lemma writer_valid m output written : encode m output = Ok written -> check m = Ok tt /\ length output = size (layout m).
Proof. intros H. pose proof (writer_cases m output) as Hw. by rewrite H in Hw. Qed.
Lemma writer_total m output : encode m output <> Panic.
Proof. intros H. pose proof (writer_cases m output) as Hw. by rewrite H in Hw. Qed.
End writer.

(** A list of 32 bytes, spelled out. *)
Lemma thirty_two (l : list Z) : length l = 32%nat -> exists a0 a1 a2 a3 a4 a5 a6 a7 a8 a9 a10 a11 a12 a13 a14 a15 a16 a17 a18 a19 a20 a21 a22 a23 a24 a25 a26 a27 a28 a29 a30 a31,
  l = [a0; a1; a2; a3; a4; a5; a6; a7; a8; a9; a10; a11; a12; a13; a14; a15; a16; a17; a18; a19; a20; a21; a22; a23; a24; a25; a26; a27; a28; a29; a30; a31].
Proof. intros H. do 33 (destruct l as [|? l]; try discriminate H). by repeat eexists. Qed.

(** ** Writing into the front of a larger buffer *)

(** What is beyond the written part stays as it is. *)
Lemma splice_app {E} (w t vs : list Z) a w' : splice (E:=E) w a vs = Ok w' -> splice (E:=E) (w ++ t) a vs = Ok (w' ++ t).
Proof.
  unfold splice. intros (Ha & Hl & ->)%or_panic_Ok%put_range_Some. apply or_panic_Ok, put_range_Some. rewrite length_app. split_and!; [lia..|].
  rewrite take_app_le, drop_app_le by lia. by rewrite <-!(assoc_L (++)).
Qed.
Lemma put16_app {E} (w t : list Z) a v w' : put16 (E:=E) w a v = Ok w' -> put16 (E:=E) (w ++ t) a v = Ok (w' ++ t).
Proof. apply splice_app. Qed.
Lemma put32_app {E} (w t : list Z) a v w' : put32 (E:=E) w a v = Ok w' -> put32 (E:=E) (w ++ t) a v = Ok (w' ++ t).
Proof. apply splice_app. Qed.
Lemma put64_app {E} (w t : list Z) a v w' : put64 (E:=E) w a v = Ok w' -> put64 (E:=E) (w ++ t) a v = Ok (w' ++ t).
Proof. apply splice_app. Qed.

(** A writer that has run on the front runs in front of [t]. *)
Ltac written_before t :=
  repeat match goal with
  | H : splice _ _ _ = Ok _ |- _ => apply (splice_app _ t) in H; rewrite H; clear H
  | H : put16 _ _ _ = Ok _ |- _ => apply (put16_app _ t) in H; rewrite H; clear H
  | H : put32 _ _ _ = Ok _ |- _ => apply (put32_app _ t) in H; rewrite H; clear H
  | H : put64 _ _ _ = Ok _ |- _ => apply (put64_app _ t) in H; rewrite H; clear H
  | |- context [res_bind (Ok _) _] => cbn [res_bind]
  end.

Lemma get_le_in_range n bs a v : bytes_ok bs -> get_le n bs a = Some v -> 0 <= v < 2 ^ (8 * Z.of_nat n).
Proof.
  intros Hb (r & Hr & ->)%fmap_Some. pose proof (length_get_range _ _ _ _ Hr) as Hl. apply get_range_Some in Hr as (_ & _ & _ & Hr).
  replace (Z.of_nat n) with (len r) by lia. apply of_le_bound. rewrite Hr. by apply Forall_take, Forall_drop.
Qed.

Lemma reads_in_range bs fs : forall offset, bytes_ok bs -> reads bs fs offset -> Forall field_ok fs.
Proof.
  induction fs as [|f fs IH]; intros offset Hb Hr; [constructor|]. destruct Hr as [Hf Hr]. constructor; [|by eapply IH].
  destruct f as [n v|r]; [by eapply get_le_in_range|]. apply get_range_Some in Hf as (_ & _ & _ & ->). by apply Forall_take, Forall_drop.
Qed.

(** Soundness of a reader, field by field. *)
Lemma reads_sound bs fs : bytes_ok bs -> length bs = size fs -> reads bs fs 0 -> Forall field_ok fs /\ bs = render fs.
Proof. intros Hb Hl Hr. split; [by eapply reads_in_range|by apply reads_render]. Qed.

Lemma res_bind_assoc {E A B C} (c : res E A) (k : A -> res E B) (l : B -> res E C) :
  res_bind (res_bind c k) l = res_bind c (fun a => res_bind (k a) l).
Proof. by destruct c. Qed.

(** Run a reader on bytes whose fields are known: tests compute, or a hypothesis
    [_ = true] or [_ = false] settles them. *)
Ltac accept_step :=
  match goal with
  | H : get_le ?n ?bs ?a' = Some ?v |- res_bind (or_panic (get_le ?n ?bs ?a)) _ = _ =>
      unify a a'; rewrite (H : get_le n bs a = Some v); cbn [or_panic res_bind]
  | H : get_range ?bs ?a' ?b' = Some ?v |- res_bind (or_panic (get_range ?bs ?a ?b)) _ = _ =>
      unify a a'; unify b b'; rewrite (H : get_range bs a b = Some v); cbn [or_panic res_bind]
  | H : get_range ?bs ?a' ?b' = Some ?v |- res_bind (ok_or _ (get_range ?bs ?a ?b)) _ = _ =>
      unify a a'; unify b b'; rewrite (H : get_range bs a b = Some v); cbn [ok_or res_bind]
  | H : ?c = Some _ |- res_bind (or_panic ?c) _ = _ => rewrite H; cbn [or_panic res_bind]
  | |- res_bind (Ok _) _ = _ => cbn [res_bind]
  | |- res_bind (ok_or _ _) _ = _ => cbn [ok_or]
  | |- res_bind (if ?c then _ else _) _ = _ => first [change c with false | change c with true | decide_by_hyp c]; cbv iota
  | |- (if ?c then _ else _) = _ => first [change c with false | change c with true | decide_by_hyp c]; cbv iota
  | |- res_bind (res_bind _ _) _ = _ => rewrite res_bind_assoc
  | H : ?c' = Ok _ |- res_bind ?c _ = _ => change c with c'; rewrite H; cbn [res_bind]
  end
with decide_by_hyp c :=
  match goal with H : ?b = ?v |- _ =>
    lazymatch v with true => idtac | false => idtac end;
    match c with context [b] => rewrite H end;
    try lazymatch goal with |- context [if ?d then _ else _] => first [change d with false | change d with true] end
  end.
(** Forget that the bytes are the rendered ones. *)
Ltac known_fields :=
  match goal with Hok : Forall field_ok ?fs |- context [render ?fs] =>
    let Hr := fresh "Hr" in let bs := fresh "bs" in
    pose proof (render_reads fs Hok) as Hr; revert Hr; generalize (render fs); intros bs Hr; clear Hok;
    cbn [reads app zeros] in Hr; repeat match goal with H : _ /\ _ |- _ => destruct H end
  end.
Ltac accept := cbv zeta; repeat (accept_step; cbv iota zeta); try reflexivity.

(** Take an accepting run of a reader apart, one case for each message. *)
Ltac record_step :=
  match goal with
  | _ => res_step
  | H : (if ?c then _ else _) = Ok _ |- _ => let E := fresh "E" in destruct c eqn:E
  end.
Ltac record_cases := repeat record_step; bool_prop; subst.
(** The fields were read where the layout has them. *)
Ltac read_back := apply reads_sound; [assumption| |cbn [reads app]; repeat split; assumption].
