(* ===== verification/Utf8.v ===== *)
(** * UTF-8 text, as the Rust standard library defines it

    [from_utf8] validates and decodes a byte slice into Unicode scalar values
    ([core::str::from_utf8] followed by [chars]); [encode_utf8] is
    [char::encode_utf8]; [str_get] is [str::get(a..b)], which is [None] off a
    character boundary.  The theorems are the two inverse laws: decoding is
    exactly the inverse of encoding on lists of scalar values, so a [&str] and
    its list of [char]s determine each other. *)

From stdpp Require Import base tactics option list list_numbers.
From Stdlib Require Import ZArith Lia.
From S2P Require Import Prelude Bytes.

(** A [char]: a Unicode scalar value. *)
Definition is_scalar (c : Z) : bool :=
  ((0 <=? c) && (c <? 55296)) || ((57344 <=? c) && (c <=? 1114111)).

Definition in_range (lo hi b : Z) : bool := (lo <=? b) && (b <=? hi).

(** [0x80..=0xbf] *)
Definition is_cont (b : Z) : bool := in_range 128 191 b.

Definition cont_bits (b : Z) : Z := b - 128.

(** [char::len_utf8]. *)
Definition len_utf8 (c : Z) : Z :=
  if c <? 128 then 1 else if c <? 2048 then 2 else if c <? 65536 then 3 else 4.

(** [char::encode_utf8]. *)
Definition encode_utf8 (c : Z) : list Z :=
  if c <? 128 then [c]
  else if c <? 2048 then [192 + c / 64; 128 + c mod 64]
  else if c <? 65536 then [224 + c / 4096; 128 + (c / 64) mod 64; 128 + c mod 64]
  else [240 + c / 262144; 128 + (c / 4096) mod 64; 128 + (c / 64) mod 64; 128 + c mod 64].

(** The admitted second byte of a three- and a four-byte sequence. *)
Definition second3 (b0 b1 : Z) : bool :=
  if b0 =? 224 then in_range 160 191 b1
  else if b0 =? 237 then in_range 128 159 b1
  else is_cont b1.

Definition second4 (b0 b1 : Z) : bool :=
  if b0 =? 240 then in_range 144 191 b1
  else if b0 =? 244 then in_range 128 143 b1
  else is_cont b1.

(** [core::str::from_utf8(bs).ok().map(|s| s.chars().collect())]. *)
Fixpoint from_utf8 (bs : list Z) : option (list Z) :=
  match bs with
  | [] => Some []
  | b0 :: r0 =>
      if b0 <? 128 then cons b0 <$> from_utf8 r0
      else if in_range 194 223 b0 then
        match r0 with
        | b1 :: r1 =>
            if is_cont b1
            then cons ((b0 - 192) * 64 + cont_bits b1) <$> from_utf8 r1
            else None
        | _ => None
        end
      else if in_range 224 239 b0 then
        match r0 with
        | b1 :: b2 :: r2 =>
            if second3 b0 b1 && is_cont b2
            then cons ((b0 - 224) * 4096 + cont_bits b1 * 64 + cont_bits b2) <$> from_utf8 r2
            else None
        | _ => None
        end
      else if in_range 240 244 b0 then
        match r0 with
        | b1 :: b2 :: b3 :: r3 =>
            if second4 b0 b1 && is_cont b2 && is_cont b3
            then cons ((b0 - 240) * 262144 + cont_bits b1 * 4096 + cont_bits b2 * 64
                       + cont_bits b3) <$> from_utf8 r3
            else None
        | _ => None
        end
      else None
  end.

Definition is_utf8 (bs : list Z) : bool := bool_decide (is_Some (from_utf8 bs)).

(** The bytes of a sequence of [char]s. *)
Fixpoint encode_all (cs : list Z) : list Z :=
  match cs with
  | [] => []
  | c :: cs => encode_utf8 c ++ encode_all cs
  end.

(** [str::is_char_boundary] on the bytes of a [str]. *)
Definition is_char_boundary (bs : list Z) (i : Z) : bool :=
  (i =? 0) || (i =? len bs) ||
  match get_at bs i with
  | Some b => negb (is_cont b)
  | None => false
  end.

(** [str::get(a..b)]. *)
Definition str_get (bs : list Z) (a b : Z) : option (list Z) :=
  if is_char_boundary bs a && is_char_boundary bs b then get_range bs a b else None.

(** ** Encoding *)

Ltac utf8_cases :=
  repeat match goal with
  | |- context [?a <? ?b] => destruct (Z.ltb_spec a b); try (exfalso; lia)
  | |- context [?a <=? ?b] => destruct (Z.leb_spec a b); try (exfalso; lia)
  | |- context [?a =? ?b] => destruct (Z.eqb_spec a b); try (exfalso; lia)
  end.

Lemma length_encode_utf8 c : len (encode_utf8 c) = len_utf8 c.
Proof. unfold encode_utf8, len_utf8. by repeat case_match. Qed.

Lemma len_utf8_bound c : 1 <= len_utf8 c <= 4.
Proof. unfold len_utf8. repeat case_match; lia. Qed.

Lemma is_scalar_spec c :
  is_scalar c = true <-> 0 <= c < 55296 \/ 57344 <= c <= 1114111.
Proof. unfold is_scalar. utf8_cases; simpl; split; intros; try done; try lia. Qed.

Lemma encode_utf8_bytes_ok c : is_scalar c = true -> bytes_ok (encode_utf8 c).
Proof.
  rewrite is_scalar_spec. intros Hc. unfold encode_utf8, bytes_ok, in_u8.
  repeat case_match; bool_prop; repeat constructor; Z.div_mod_to_equations; lia.
Qed.

Lemma encode_all_app cs1 cs2 : encode_all (cs1 ++ cs2) = encode_all cs1 ++ encode_all cs2.
Proof. induction cs1 as [|c cs1 IH]; simpl; [done|]. by rewrite IH, app_assoc. Qed.

Lemma encode_all_bytes_ok cs :
  Forall (fun c => is_scalar c = true) cs -> bytes_ok (encode_all cs).
Proof.
  induction 1 as [|c cs Hc _ IH]; simpl; [constructor|].
  apply Forall_app. split; [by apply encode_utf8_bytes_ok|done].
Qed.

Lemma length_encode_all_le cs : len cs <= len (encode_all cs).
Proof.
  induction cs as [|c cs IH]; simpl; [lia|].
  rewrite length_app. pose proof (length_encode_utf8 c). pose proof (len_utf8_bound c). lia.
Qed.

(** ** Decoding inverts encoding *)

(** Base-64 digits of a scalar value, so that the rest is linear arithmetic. *)
Lemma digits2 c : c = c / 64 * 64 + c mod 64 /\ 0 <= c mod 64 < 64.
Proof. Z.div_mod_to_equations. lia. Qed.

Lemma digits3 c :
  c = c / 4096 * 4096 + (c / 64) mod 64 * 64 + c mod 64 /\
  0 <= c mod 64 < 64 /\ 0 <= (c / 64) mod 64 < 64.
Proof.
  pose proof (digits2 c). pose proof (digits2 (c / 64)) as H'.
  rewrite Z.div_div in H' by lia. change (64 * 64) with 4096 in H'. lia.
Qed.

Lemma digits4 c :
  c = c / 262144 * 262144 + (c / 4096) mod 64 * 4096 + (c / 64) mod 64 * 64 + c mod 64 /\
  0 <= c mod 64 < 64 /\ 0 <= (c / 64) mod 64 < 64 /\ 0 <= (c / 4096) mod 64 < 64.
Proof.
  pose proof (digits3 c). pose proof (digits2 (c / 4096)) as H'.
  rewrite Z.div_div in H' by lia. change (4096 * 64) with 262144 in H'. lia.
Qed.

Lemma from_utf8_encode c bs :
  is_scalar c = true -> from_utf8 (encode_utf8 c ++ bs) = cons c <$> from_utf8 bs.
Proof.
  rewrite is_scalar_spec. intros Hc. unfold encode_utf8, cont_bits.
  destruct (Z.ltb_spec c 128).
  { simpl. by destruct (Z.ltb_spec c 128); [|lia]. }
  destruct (Z.ltb_spec c 2048); [|destruct (Z.ltb_spec c 65536)].
  - pose proof (digits2 c) as Hd. revert Hd.
    generalize (c / 64) (c mod 64). intros x y [-> ?].
    cbn [app from_utf8]. unfold is_cont, in_range.
    utf8_cases; simpl; try lia. do 2 f_equal. unfold cont_bits. lia.
  - pose proof (digits3 c) as Hd. revert Hd.
    generalize (c / 4096) ((c / 64) mod 64) (c mod 64). intros x y z (-> & ? & ?).
    cbn [app from_utf8]. unfold second3, is_cont, in_range.
    utf8_cases; simpl; try lia; do 2 f_equal; unfold cont_bits; lia.
  - pose proof (digits4 c) as Hd. revert Hd.
    generalize (c / 262144) ((c / 4096) mod 64) ((c / 64) mod 64) (c mod 64).
    intros x y z w (-> & ? & ? & ?).
    cbn [app from_utf8]. unfold second4, is_cont, in_range.
    utf8_cases; simpl; try lia; do 2 f_equal; unfold cont_bits; lia.
Qed.

Lemma from_utf8_encode_all_app cs bs :
  Forall (fun c => is_scalar c = true) cs ->
  from_utf8 (encode_all cs ++ bs) = app cs <$> from_utf8 bs.
Proof.
  induction 1 as [|c cs Hc _ IH]; simpl.
  { by destruct (from_utf8 bs). }
  rewrite <-app_assoc, from_utf8_encode, IH by done. by destruct (from_utf8 bs).
Qed.

Lemma from_utf8_encode_all cs :
  Forall (fun c => is_scalar c = true) cs -> from_utf8 (encode_all cs) = Some cs.
Proof.
  intros H. rewrite <-(app_nil_r (encode_all cs)), from_utf8_encode_all_app by done.
  simpl. by rewrite app_nil_r.
Qed.

(** One decoding step consumes the encoding of the scalar it returns. *)
Lemma encode2 b0 b1 c :
  in_range 194 223 b0 = true -> is_cont b1 = true ->
  c = (b0 - 192) * 64 + cont_bits b1 ->
  is_scalar c = true /\ encode_utf8 c = [b0; b1].
Proof.
  unfold in_range, is_cont, in_range, cont_bits. intros ? ? Hc. bool_prop.
  assert (128 <= c < 2048) by lia. split; [apply is_scalar_spec; lia|].
  unfold encode_utf8. utf8_cases; try lia.
  assert (c / 64 = b0 - 192) as -> by (rewrite Hc; Z.div_mod_to_equations; lia).
  assert (c mod 64 = b1 - 128) as -> by (rewrite Hc; Z.div_mod_to_equations; lia).
  repeat f_equal; lia.
Qed.

Lemma encode3 b0 b1 b2 c :
  in_range 224 239 b0 = true -> second3 b0 b1 = true -> is_cont b2 = true ->
  c = (b0 - 224) * 4096 + cont_bits b1 * 64 + cont_bits b2 ->
  is_scalar c = true /\ encode_utf8 c = [b0; b1; b2].
Proof.
  unfold second3, in_range, is_cont, in_range, cont_bits. intros ? H ? Hc.
  assert (128 <= b1 <= 191 /\ (b0 = 224 -> 160 <= b1) /\ (b0 = 237 -> b1 <= 159)) as ?.
  { revert H. utf8_cases; simpl; lia. }
  clear H. bool_prop.
  assert (2048 <= c < 65536) by lia.
  assert (c < 55296 \/ 57344 <= c) by lia.
  split; [apply is_scalar_spec; lia|].
  unfold encode_utf8. utf8_cases; try lia.
  pose proof (digits3 c). assert (c / 4096 = b0 - 224) as Hx
    by (rewrite Hc; Z.div_mod_to_equations; lia).
  rewrite Hx in *. repeat f_equal; lia.
Qed.

Lemma encode4 b0 b1 b2 b3 c :
  in_range 240 244 b0 = true -> second4 b0 b1 = true -> is_cont b2 = true -> is_cont b3 = true ->
  c = (b0 - 240) * 262144 + cont_bits b1 * 4096 + cont_bits b2 * 64 + cont_bits b3 ->
  is_scalar c = true /\ encode_utf8 c = [b0; b1; b2; b3].
Proof.
  unfold second4, in_range, is_cont, in_range, cont_bits. intros ? H ? ? Hc.
  assert (128 <= b1 <= 191 /\ (b0 = 240 -> 144 <= b1) /\ (b0 = 244 -> b1 <= 143)) as ?.
  { revert H. utf8_cases; simpl; lia. }
  clear H. bool_prop.
  assert (65536 <= c <= 1114111) by lia.
  split; [apply is_scalar_spec; lia|].
  unfold encode_utf8. utf8_cases; try lia.
  pose proof (digits4 c). assert (c / 262144 = b0 - 240) as Hx
    by (rewrite Hc; Z.div_mod_to_equations; lia).
  rewrite Hx in *. repeat f_equal; lia.
Qed.

Lemma from_utf8_inv (n : nat) bs cs :
  (length bs <= n)%nat -> bytes_ok bs -> from_utf8 bs = Some cs ->
  encode_all cs = bs /\ Forall (fun c => is_scalar c = true) cs.
Proof.
  revert bs cs. induction n as [|n IH]; intros bs cs Hn Hok H.
  { destruct bs; [|simpl in Hn; lia]. by injection H as <-. }
  destruct bs as [|b0 r0]; [by injection H as <-|].
  cbn [from_utf8] in H. apply Forall_cons in Hok as [Hb0 Hok]. unfold in_u8 in Hb0.
  destruct (Z.ltb_spec b0 128).
  { apply fmap_Some in H as (cs' & H & ->). apply IH in H as [<- ?]; [|simpl in Hn; lia|done].
    split; [simpl|constructor; [apply is_scalar_spec; lia|done]].
    unfold encode_utf8. by destruct (Z.ltb_spec b0 128); [|lia]. }
  destruct (in_range 194 223 b0) eqn:E2; [|destruct (in_range 224 239 b0) eqn:E3;
    [|destruct (in_range 240 244 b0) eqn:E4; [|done]]].
  - destruct r0 as [|b1 r1]; [done|]. destruct (is_cont b1) eqn:?; [|done].
    apply fmap_Some in H as (cs' & H & ->).
    apply Forall_cons in Hok as [_ Hok].
    apply IH in H as [<- ?]; [|simpl in Hn; lia|done].
    edestruct (encode2 b0 b1) as [? He]; [done..|].
    simpl encode_all. rewrite He. split; [done|by constructor].
  - destruct r0 as [|b1 [|b2 r2]]; [done..|].
    destruct (second3 b0 b1 && is_cont b2) eqn:?; [|done]. bool_prop.
    apply fmap_Some in H as (cs' & H & ->).
    apply Forall_cons in Hok as [_ [_ Hok]%Forall_cons].
    apply IH in H as [<- ?]; [|simpl in Hn; lia|done].
    edestruct (encode3 b0 b1 b2) as [? He]; [done..|].
    simpl encode_all. rewrite He. split; [done|by constructor].
  - destruct r0 as [|b1 [|b2 [|b3 r3]]]; [done..|].
    destruct (second4 b0 b1 && is_cont b2 && is_cont b3) eqn:?; [|done]. bool_prop.
    apply fmap_Some in H as (cs' & H & ->).
    apply Forall_cons in Hok as [_ [_ [_ Hok]%Forall_cons]%Forall_cons].
    apply IH in H as [<- ?]; [|simpl in Hn; lia|done].
    edestruct (encode4 b0 b1 b2 b3) as [? He]; [done..|].
    simpl encode_all. rewrite He. split; [done|by constructor].
Qed.

(** Valid text is the encoding of exactly one list of scalar values. *)
Lemma from_utf8_spec bs cs :
  bytes_ok bs ->
  from_utf8 bs = Some cs <-> encode_all cs = bs /\ Forall (fun c => is_scalar c = true) cs.
Proof.
  intros Hok. split.
  - by apply (from_utf8_inv (length bs)).
  - intros [<- ?]. by apply from_utf8_encode_all.
Qed.

(** ** Boundaries *)

(** A list of [char]s. *)
Definition scalars (cs : list Z) : Prop := Forall (fun c => is_scalar c = true) cs.

Lemma encode_lead c : is_scalar c = true -> exists b bs, encode_utf8 c = b :: bs /\ is_cont b = false.
Proof.
  intros Hc. apply is_scalar_spec in Hc. unfold encode_utf8, is_cont, in_range.
  assert (forall k, 0 < k -> 0 <= c / k) as Hd by (intros; apply Z.div_pos; lia).
  pose proof (Hd 64 ltac:(lia)). pose proof (Hd 4096 ltac:(lia)). pose proof (Hd 262144 ltac:(lia)).
  repeat case_match; bool_prop; eexists _, _; (split; [reflexivity|]); bool_cases; done.
Qed.

Lemma boundary cs1 cs2 :
  scalars cs2 -> is_char_boundary (encode_all (cs1 ++ cs2)) (len (encode_all cs1)) = true.
Proof.
  intros H2. unfold is_char_boundary. rewrite encode_all_app. destruct H2 as [|c cs2 Hc _].
  { cbn [encode_all]. rewrite app_nil_r, Z.eqb_refl. by rewrite orb_true_r. }
  destruct (encode_lead c Hc) as (b & bs & Henc & Hb). cbn [encode_all]. rewrite Henc.
  unfold get_at. rewrite (proj2 (Z.leb_le 0 _)) by lia. rewrite Nat2Z.id. cbn [app].
  rewrite list_lookup_middle by done. by rewrite Hb, orb_true_r.
Qed.

(** [str::get] between two characters. *)
Lemma str_get_middle cs1 cs2 cs3 :
  scalars cs2 -> scalars cs3 ->
  str_get (encode_all (cs1 ++ cs2 ++ cs3)) (len (encode_all cs1)) (len (encode_all cs1) + len (encode_all cs2)) =
  Some (encode_all cs2).
Proof.
  intros H2 H3. unfold str_get. rewrite boundary by (by apply Forall_app).
  rewrite <-Nat2Z.inj_add, <-length_app, <-encode_all_app, (app_assoc cs1), boundary by done. cbn [andb].
  rewrite !encode_all_app, <-app_assoc, length_app, Nat2Z.inj_add. apply get_range_middle.
Qed.
