(* ===== verification/StreamProto.v ===== *)
(** * WRST v1 stream records (crates/wyrmroot-stream-proto/src/lib.rs)

    The DATA record codec: [encode_data] writes one record into a caller
    buffer, [decode_data] accepts exactly one complete record. *)

From stdpp Require Import base tactics option list list_numbers.
From Stdlib Require Import ZArith Lia.
From S2P Require Import Prelude Bytes.

Module StreamProto.

Definition HEADER_BYTES : Z := 24.
Definition MAX_PAYLOAD_BYTES : Z := 1024.
Definition MAX_RECORD_BYTES : Z := HEADER_BYTES + MAX_PAYLOAD_BYTES.
(** [*b"WRST"] *)
Definition MAGIC : list Z := [87; 82; 83; 84].
Definition MAJOR : Z := 1.
Definition MINOR : Z := 0.
Definition DATA : Z := 1.

Inductive Error :=
| TooShort | Magic | Version | HeaderBytes | MessageType | Flags
| PayloadTooLarge | SizeMismatch | Reserved.

#[global] Instance Error_eq_dec : EqDecision Error.
Proof. solve_decision. Defined.

(** A validated DATA payload. *)
Record Data := { payload : list Z }.

(** Direct indexing: out of range panics. *)
Definition get_u16 {E} (bytes : list Z) (offset : Z) : res E Z :=
  or_panic (get_le 2 bytes offset).
Definition get_u32 {E} (bytes : list Z) (offset : Z) : res E Z :=
  or_panic (get_le 4 bytes offset).
Definition put_u16 {E} (bytes : list Z) (offset value : Z) : res E (list Z) :=
  or_panic (put_le 2 bytes offset value).
Definition put_u32 {E} (bytes : list Z) (offset value : Z) : res E (list Z) :=
  or_panic (put_le 4 bytes offset value).

(** [encode_data(payload, output)]: the returned size and the buffer after the
    call. *)
Definition encode_data (payload output : list Z) : res Error (Z * list Z) :=
  reject_if! len payload >? MAX_PAYLOAD_BYTES with PayloadTooLarge;;
  let! size := ok_or SizeMismatch (checked_add_u64 HEADER_BYTES (len payload)) in
  reject_if! len output <? size with SizeMismatch;;
  let! output := or_panic (fill_zero output size) in
  let! output := or_panic (put_range output 0 MAGIC) in
  let! output := put_u16 output 4 MAJOR in
  let! output := put_u16 output 6 MINOR in
  let! output := put_u16 output 8 HEADER_BYTES in
  let! output := put_u16 output 10 DATA in
  let! output := put_u32 output 16 (len payload) in
  let! output := or_panic (put_range output HEADER_BYTES payload) in
  Ok (size, output).

Definition decode_data (bytes : list Z) : res Error Data :=
  reject_if! len bytes <? HEADER_BYTES with TooShort;;
  let! magic := or_panic (get_range bytes 0 4) in
  reject_if! bool_decide (magic <> MAGIC) with Magic;;
  let! major := get_u16 bytes 4 in
  let! minor := get_u16 bytes 6 in
  reject_if! negb (major =? MAJOR) || negb (minor =? MINOR) with Version;;
  let! header_bytes := get_u16 bytes 8 in
  reject_if! negb (header_bytes =? HEADER_BYTES) with HeaderBytes;;
  let! message_type := get_u16 bytes 10 in
  reject_if! negb (message_type =? DATA) with MessageType;;
  let! flags := get_u32 bytes 12 in
  reject_if! negb (flags =? 0) with Flags;;
  let! payload := get_u32 bytes 16 in
  reject_if! payload >? MAX_PAYLOAD_BYTES with PayloadTooLarge;;
  let! reserved := get_u32 bytes 20 in
  reject_if! negb (reserved =? 0) with Reserved;;
  let! end_ := ok_or SizeMismatch (checked_add_u64 HEADER_BYTES payload) in
  reject_if! negb (end_ =? len bytes) with SizeMismatch;;
  let! body := or_panic (get_range bytes HEADER_BYTES end_) in
  Ok {| payload := body |}.

(** ** What a written record looks like *)

Definition record_of (p out : list Z) : Prop :=
  get_range out 0 4 = Some MAGIC /\
  get_le 2 out 4 = Some MAJOR /\ get_le 2 out 6 = Some MINOR /\
  get_le 2 out 8 = Some HEADER_BYTES /\ get_le 2 out 10 = Some DATA /\
  get_le 4 out 12 = Some 0 /\ get_le 4 out 16 = Some (len p) /\
  get_le 4 out 20 = Some 0 /\
  get_range out HEADER_BYTES (HEADER_BYTES + len p) = Some p.

Lemma encode_data_spec p output :
  len p <= MAX_PAYLOAD_BYTES -> HEADER_BYTES + len p <= len output ->
  exists out, encode_data p output = Ok (HEADER_BYTES + len p, out) /\
    length out = length output /\ record_of p out /\
    agree out output (HEADER_BYTES + len p) (len output).
Proof.
  unfold encode_data, MAX_PAYLOAD_BYTES, HEADER_BYTES. intros Hp Hout.
  destruct (Z.gtb_spec (len p) 1024); [lia|].
  assert (checked_add_u64 24 (len p) = Some (24 + len p)) as ->
    by (apply checked_add_Some; lia).
  cbn [ok_or res_bind]. destruct (Z.ltb_spec (len output) (24 + len p)); [lia|].
  destruct (fill_zero output (24 + len p)) as [out0|] eqn:Hfill; cycle 1.
  { exfalso. apply eq_None_not_Some in Hfill.
    apply Hfill, put_range_is_Some. buf_lia. }
  pose proof (get_put_other _ _ _ _ (24 + len p) (len output) Hfill) as Hrest.
  apply fill_zero_Some in Hfill as (_ & Hlen & Hz); [|lia].
  unfold MAGIC, MAJOR, MINOR, DATA, put_u16, put_u32. cbn [or_panic res_bind].
  do 7 buf_write.
  eexists. split_and!; [reflexivity|congruence|..].
  - unfold record_of, MAGIC, MAJOR, MINOR, DATA, HEADER_BYTES.
    split_and!; buf_read; try reflexivity;
      unfold get_le; rewrite Hz by lia; reflexivity.
  - unfold agree. buf_read. apply Hrest. right. buf_lia.
Qed.

(** [decode_data] accepts exactly the well-formed records. *)
Lemma decode_data_spec bytes p :
  decode_data bytes = Ok {| payload := p |} <->
  record_of p bytes /\ len bytes = HEADER_BYTES + len p /\ len p <= MAX_PAYLOAD_BYTES.
Proof.
  unfold decode_data, record_of, get_u16, get_u32. split.
  - intros H. res_inv. apply checked_add_Some in H8 as [-> ?].
    pose proof (length_get_range _ _ _ _ H9). simplify_eq.
    assert (len p = a5) as <- by lia. auto 15 with lia.
  - intros ((Hm & H4 & H6 & H8 & H10 & H12 & H16 & H20 & Hp) & Hl & Hmax).
    destruct (Z.ltb_spec (len bytes) HEADER_BYTES); [lia|].
    rewrite Hm, H4, H6, H8, H10, H12, H16, H20. simpl.
    destruct (Z.gtb_spec (len p) MAX_PAYLOAD_BYTES); [lia|].
    assert (checked_add_u64 HEADER_BYTES (len p) = Some (HEADER_BYTES + len p)) as ->.
    { apply checked_add_Some. unfold HEADER_BYTES, MAX_PAYLOAD_BYTES in *. lia. }
    simpl. rewrite Hl, Z.eqb_refl. simpl. by rewrite Hp.
Qed.

Lemma record_of_bytes_ok p bytes : record_of p bytes -> bytes_ok bytes -> bytes_ok p.
Proof. intros (_&_&_&_&_&_&_&_&Hp) Hok. by eapply bytes_ok_get_range. Qed.

Lemma encode_data_bytes_ok p output size out :
  bytes_ok output -> bytes_ok p -> encode_data p output = Ok (size, out) -> bytes_ok out.
Proof.
  intros Hok Hp He. unfold encode_data, put_u16, put_u32, fill_zero in He. res_inv. subst.
  assert (bytes_ok MAGIC) by (by apply (bool_decide_unpack _)).
  repeat match goal with
  | H : put_le _ ?b _ _ = Some _, H' : bytes_ok ?b |- _ => apply (bytes_ok_put_le _ _ _ _ _ H') in H
  | H : put_range ?b _ _ = Some _, H' : bytes_ok ?b |- _ =>
      apply (bytes_ok_put_range _ _ _ _ H') in H; [|by auto using bytes_ok_replicate_0]
  end.
  done.
Qed.

(** The record determines the bytes. *)
Lemma record_of_inj p out bytes :
  len bytes = HEADER_BYTES + len p -> HEADER_BYTES + len p <= len out ->
  bytes_ok out -> bytes_ok bytes -> record_of p out -> record_of p bytes ->
  take (Z.to_nat (HEADER_BYTES + len p)) out = bytes.
Proof.
  unfold record_of, HEADER_BYTES. intros Hl Hle Ho Hb.
  rewrite <-(get_range_take out (24 + len p) 0 4), <-(get_range_take out (24 + len p) 24),
    <-!(get_le_take _ out (24 + len p)) by lia.
  set (rec := take _ out). assert (len rec = 24 + len p) by (unfold rec; rewrite length_take; lia).
  assert (bytes_ok rec) by by apply Forall_take.
  intros (?&?&?&?&?&?&?&?&?) (?&?&?&?&?&?&?&?&?).
  apply agree_full; [lia|]. rewrite H.
  eapply (agree_snoc _ _ 24); [|eapply agree_Some; done|lia..].
  eapply (agree_snoc _ _ 20); [|eapply (agree_le 4); done|lia..].
  eapply (agree_snoc _ _ 16); [|eapply (agree_le 4); done|lia..].
  eapply (agree_snoc _ _ 12); [|eapply (agree_le 4); done|lia..].
  eapply (agree_snoc _ _ 10); [|eapply (agree_le 2); done|lia..].
  eapply (agree_snoc _ _ 8); [|eapply (agree_le 2); done|lia..].
  eapply (agree_snoc _ _ 6); [|eapply (agree_le 2); done|lia..].
  eapply (agree_snoc _ _ 4); [|eapply (agree_le 2); done|lia..].
  eapply agree_Some; done.
Qed.

(** ** Properties *)

(** every payload of at most 1024 bytes survives the trip: encoding it into
    a buffer with room returns the exact record size, decoding that prefix
    returns the payload, and the rest of the buffer is untouched. *)
Theorem wrst_round_trip (p output : list Z) :
  len p <= MAX_PAYLOAD_BYTES -> HEADER_BYTES + len p <= len output ->
  exists out, encode_data p output = Ok (HEADER_BYTES + len p, out) /\
    decode_data (take (Z.to_nat (HEADER_BYTES + len p)) out) = Ok {| payload := p |} /\
    length out = length output /\
    agree out output (HEADER_BYTES + len p) (len output).
Proof.
  intros Hp Hout. destruct (encode_data_spec p output Hp Hout) as (out & He & Hl & Hr & Ha).
  exists out. split_and!; [done| |done|done].
  apply decode_data_spec. unfold record_of, HEADER_BYTES in *.
  split; [|rewrite length_take; lia].
  rewrite !get_range_take, !get_le_take by lia. done.
Qed.

Lemma wrst_round_trip_witness :
  len [1; 2; 3] <= MAX_PAYLOAD_BYTES /\
  HEADER_BYTES + len [1; 2; 3] <= len (replicate 40 7) /\
  exists out, encode_data [1; 2; 3] (replicate 40 7) = Ok (27, out) /\
    decode_data (take 27 out) = Ok {| payload := [1; 2; 3] |}.
Proof.
  split; [done|]. split; [done|].
  destruct (wrst_round_trip [1; 2; 3] (replicate 40 7)) as (out & He & Hd & _); [done|done|].
  exists out. split; [exact He|exact Hd].
Defined.

(** WRST records are canonical: a datagram that decodes is, byte for byte,
    what [encode_data] writes for its payload, so no two datagrams decode to
    the same payload. *)
Theorem wrst_canonical (bytes output : list Z) (d : Data) :
  bytes_ok bytes -> bytes_ok output -> decode_data bytes = Ok d -> len bytes <= len output ->
  exists out, encode_data (payload d) output = Ok (len bytes, out) /\
    take (length bytes) out = bytes.
Proof.
  intros Hok Hout. destruct d as [p]. rewrite decode_data_spec. simpl.
  intros (Hr & Hl & Hmax) Hle.
  destruct (encode_data_spec p output) as (out & He & Hlen & Hr' & _); [done|lia|].
  exists out. rewrite Hl. split; [done|].
  apply encode_data_bytes_ok in He; [|done|by apply (record_of_bytes_ok p bytes)].
  replace (length bytes) with (Z.to_nat (HEADER_BYTES + len p)) by lia.
  apply record_of_inj; [lia|unfold HEADER_BYTES in *; lia|done..].
Qed.

Lemma wrst_canonical_witness :
  let bytes := MAGIC ++ [1; 0; 0; 0; 24; 0; 1; 0; 0; 0; 0; 0; 2; 0; 0; 0; 0; 0; 0; 0; 104; 105] in
  decode_data bytes = Ok {| payload := [104; 105] |} /\
  exists out, encode_data [104; 105] (replicate 30 0) = Ok (26, out) /\ take 26 out = bytes.
Proof.
  intros bytes. assert (decode_data bytes = Ok {| payload := [104; 105] |}) as Hd by done.
  split; [done|].
  destruct (wrst_canonical bytes (replicate 30 0) {| payload := [104; 105] |}) as (out & He & Ht).
  - by apply (bool_decide_unpack _).
  - apply bytes_ok_replicate_0.
  - exact Hd.
  - done.
  - exists out. split; [exact He|exact Ht].
Defined.

(** Neither codec function panics, whatever the datagram, the payload and
    the output buffer are: every index the code uses is in range. *)
Theorem wrst_no_panic (bytes p output : list Z) :
  decode_data bytes <> Panic /\ encode_data p output <> Panic.
Proof.
  split.
  - unfold decode_data, get_u16, get_u32. no_panic; bool_prop; unfold HEADER_BYTES in *; lia.
  - destruct (Z.gtb_spec (len p) MAX_PAYLOAD_BYTES) as [Hp|Hp].
    { unfold encode_data. by destruct (Z.gtb_spec (len p) MAX_PAYLOAD_BYTES); [|lia]. }
    destruct (Z.ltb_spec (len output) (HEADER_BYTES + len p)) as [Hs|Hs]; cycle 1.
    { by destruct (encode_data_spec p output) as (out & -> & _). }
    unfold encode_data, checked_add_u64, checked_add.
    destruct (len p >? MAX_PAYLOAD_BYTES); [done|].
    destruct (HEADER_BYTES + len p <? 2 ^ 64); [|done]. simpl.
    by destruct (Z.ltb_spec (len output) (HEADER_BYTES + len p)); [|lia].
Qed.

End StreamProto.
