(* ===== verification/RegistryProto.v ===== *)
(** * The WRRG v1 registry protocol (crates/wyrmroot-registry-proto/src/lib.rs)

    Data types, parser and encoders of the registry datagrams, and the
    decimal correlation environment.  An encoder returns the size and the
    buffer after the call; on [Err] the caller discards the buffer, so the
    model does not return it.  [oc] says whether overflow checks are compiled
    in; only the page-shape arithmetic depends on it. *)

From stdpp Require Import base tactics option list list_numbers.
From Stdlib Require Import ZArith Lia.
From S2P Require Import Prelude Bytes Utf8.

Module RegistryProto.

Definition HEADER_BYTES : Z := 64.
Definition MAX_SERVICES : Z := 32.
Definition MAX_SERVICE_NAME_BYTES : Z := 128.
Definition MAX_PROTOCOL_VERSIONS : Z := 4.
Definition MAX_OUTSTANDING_PER_CLIENT : Z := 16.
Definition MAX_CLIENT_REPLAY : Z := 32.
Definition MAX_PUBLICATION_REPLAY : Z := 8.
Definition MAX_PENDING_WATCHES : Z := 32.
Definition SERVICE_LIST_PREFIX_BYTES : Z := 80.
Definition SERVICE_LIST_RECORD_BYTES : Z := 168.
Definition MAX_SERVICE_LIST_RECORDS : Z := 2.
Definition MAX_SERVICE_LIST_PAGES : Z := 16.
Definition CORRELATION_ENVIRONMENT_COUNT : Z := 3.
Definition MAX_CORRELATION_ENVIRONMENT_BYTES : Z := 64.
(** ["WYR_REGISTRY_GENERATION="], ["WYR_REGISTRY_ENDPOINT_ID="],
    ["WYR_REGISTRY_ENDPOINT_GENERATION="], as bytes. *)
Definition REGISTRY_GENERATION_ENV : list Z :=
  [87;89;82;95;82;69;71;73;83;84;82;89;95;71;69;78;69;82;65;84;73;79;78;61].
Definition ENDPOINT_ID_ENV : list Z :=
  [87;89;82;95;82;69;71;73;83;84;82;89;95;69;78;68;80;79;73;78;84;95;73;68;61].
Definition ENDPOINT_GENERATION_ENV : list Z :=
  [87;89;82;95;82;69;71;73;83;84;82;89;95;69;78;68;80;79;73;78;84;95;71;69;78;69;82;65;84;73;79;78;61].
(** [*b"WRRG"] *)
Definition MAGIC : list Z := [87; 82; 82; 71].
Definition MAJOR : Z := 1.
Definition MINOR : Z := 0.

Inductive Error :=
| WrongSize | WrongMagic | UnsupportedVersion | UnknownMessageType | NonzeroFlags
| NonzeroReserved | WrongHandleCount | ZeroIdentity | WrongEndpointScope | InvalidScope
| InvalidServiceName | InvalidProtocolId | InvalidVersionList | NoncanonicalVersions
| ArithmeticOverflow | InvalidCorrelationEnvironment | InvalidServiceList | InvalidErrorCode.

Inductive MessageType :=
| MtInstallPublication | MtInstallClient | MtPublish | MtPublished | MtRetire | MtRetired
| MtLookupConnect | MtConnectOffer | MtConnected | MtEnumerate | MtServiceList | MtWatch
| MtGenerationChanged | MtCancel | MtCancelled | MtError.

#[global] Instance Error_eq_dec : EqDecision Error.
Proof. solve_decision. Defined.
#[global] Instance MessageType_eq_dec : EqDecision MessageType.
Proof. solve_decision. Defined.

(** [self as u32] *)
Definition message_type_code (t : MessageType) : Z :=
  match t with
  | MtInstallPublication => 1 | MtInstallClient => 2 | MtPublish => 3 | MtPublished => 4
  | MtRetire => 5 | MtRetired => 6 | MtLookupConnect => 7 | MtConnectOffer => 8
  | MtConnected => 9 | MtEnumerate => 10 | MtServiceList => 11 | MtWatch => 12
  | MtGenerationChanged => 13 | MtCancel => 14 | MtCancelled => 15 | MtError => 16
  end.

(** [MessageType::parse] *)
Definition message_type_parse (value : Z) : res Error MessageType :=
  match value with
  | 1 => Ok MtInstallPublication | 2 => Ok MtInstallClient | 3 => Ok MtPublish
  | 4 => Ok MtPublished | 5 => Ok MtRetire | 6 => Ok MtRetired | 7 => Ok MtLookupConnect
  | 8 => Ok MtConnectOffer | 9 => Ok MtConnected | 10 => Ok MtEnumerate
  | 11 => Ok MtServiceList | 12 => Ok MtWatch | 13 => Ok MtGenerationChanged
  | 14 => Ok MtCancel | 15 => Ok MtCancelled | 16 => Ok MtError
  | _ => Err UnknownMessageType
  end.

Record Header := mkHeader {
  message_type : MessageType;
  registry_generation : Z;
  endpoint_id : Z;
  endpoint_generation : Z;
  transaction_id : Z }.

Record ParsedHeader := mkParsedHeader {
  ph_header : Header;
  declared_size : Z;
  declared_handle_count : Z }.

Record DecodedHeader := mkDecodedHeader {
  dh_major : Z; dh_minor : Z;
  dh_message_type : option MessageType;
  dh_flags : Z; dh_declared_size : Z; dh_declared_handle_count : Z;
  dh_registry_generation : Z; dh_endpoint_id : Z; dh_endpoint_generation : Z;
  dh_transaction_id : Z; dh_reserved : Z }.

Record ProtocolVersion := mkVersion { major : Z; minor : Z }.
Definition default_version : ProtocolVersion := mkVersion 0 0.

#[global] Instance ProtocolVersion_eq_dec : EqDecision ProtocolVersion.
Proof. solve_decision. Defined.

(** The derived [Ord]: lexicographic in field order. *)
Definition version_ltb (a b : ProtocolVersion) : bool :=
  (major a <? major b) || ((major a =? major b) && (minor a <? minor b)).
Definition version_geb (a b : ProtocolVersion) : bool := negb (version_ltb a b).

Inductive EnumerationScope := ScopeNone | BootstrapMetadata.
#[global] Instance EnumerationScope_eq_dec : EqDecision EnumerationScope.
Proof. solve_decision. Defined.

(** A borrowed, four-bytes-per-entry version table. *)
Record VersionList := mkVersionList { vl_bytes : list Z }.

Record InstallPublication := mkInstallPublication {
  ip_endpoint_id : Z; ip_endpoint_generation : Z; ip_supervisor_role_id : Z;
  ip_publication_id : Z; ip_service_generation : Z; ip_protocol_id : Z;
  ip_versions : VersionList; ip_service_name : list Z }.

Record InstallClient := mkInstallClient {
  ic_endpoint_id : Z; ic_endpoint_generation : Z; ic_client_id : Z;
  ic_client_generation : Z; ic_scope : EnumerationScope }.

Record Lookup := mkLookup {
  lk_protocol_id : Z; lk_version : ProtocolVersion; lk_service_name : list Z }.

Record Watch := mkWatch {
  wt_protocol_id : Z; wt_last_observed_generation : Z; wt_service_name : list Z }.

Record ServiceListRecord := mkServiceListRecord {
  sr_protocol_id : Z; sr_service_generation : Z;
  sr_versions : list ProtocolVersion; sr_version_count : Z; sr_service_name : list Z }.

Record ServiceListPage := mkServiceListPage {
  pg_bytes : list Z; pg_page_index : Z; pg_page_count : Z;
  pg_record_count : Z; pg_total_count : Z }.

Inductive ErrorCode :=
| EcMalformedRequest | EcCorrelationMismatch | EcWrongEndpointKind | EcTransactionLive
| EcTransactionReplay | EcOutstandingLimit | EcCapacity | EcNotPublished
| EcUnsupportedVersion | EcEnumerationDenied | EcUnknownTransaction | EcInvalidState
| EcForwardFailed.

Definition error_code_code (c : ErrorCode) : Z :=
  match c with
  | EcMalformedRequest => 1 | EcCorrelationMismatch => 2 | EcWrongEndpointKind => 3
  | EcTransactionLive => 4 | EcTransactionReplay => 5 | EcOutstandingLimit => 6
  | EcCapacity => 7 | EcNotPublished => 8 | EcUnsupportedVersion => 9
  | EcEnumerationDenied => 10 | EcUnknownTransaction => 11 | EcInvalidState => 12
  | EcForwardFailed => 13
  end.

(** [ErrorCode::parse] *)
Definition error_code_parse (value : Z) : res Error ErrorCode :=
  match value with
  | 1 => Ok EcMalformedRequest | 2 => Ok EcCorrelationMismatch | 3 => Ok EcWrongEndpointKind
  | 4 => Ok EcTransactionLive | 5 => Ok EcTransactionReplay | 6 => Ok EcOutstandingLimit
  | 7 => Ok EcCapacity | 8 => Ok EcNotPublished | 9 => Ok EcUnsupportedVersion
  | 10 => Ok EcEnumerationDenied | 11 => Ok EcUnknownTransaction | 12 => Ok EcInvalidState
  | 13 => Ok EcForwardFailed
  | _ => Err InvalidErrorCode
  end.

Inductive Message :=
| MInstallPublication (v : InstallPublication)
| MInstallClient (v : InstallClient)
| MPublish | MPublished | MRetire | MRetired
| MLookupConnect (v : Lookup)
| MConnectOffer (v : Lookup)
| MConnected | MEnumerate
| MServiceList (v : ServiceListPage)
| MWatch (v : Watch)
| MGenerationChanged (service_generation : Z)
| MCancel (target_transaction_id : Z)
| MCancelled (target_transaction_id : Z)
| MError (code : ErrorCode).

Record ParsedMessage := mkParsedMessage { pm_header : Header; pm_message : Message }.

(** ** Field access *)

Definition get_u16 (bytes : list Z) (offset : Z) : option Z :=
  match checked_add_u64 offset 2 with
  | Some _ => get_le 2 bytes offset
  | None => None
  end.
Definition get_u64 (bytes : list Z) (offset : Z) : option Z :=
  match checked_add_u64 offset 8 with
  | Some _ => get_le 8 bytes offset
  | None => None
  end.
Definition read_u16 (bytes : list Z) (offset : Z) : res Error Z :=
  ok_or WrongSize (get_u16 bytes offset).
Definition read_u32 (bytes : list Z) (offset : Z) : res Error Z :=
  let! _ := ok_or ArithmeticOverflow (checked_add_u64 offset 4) in
  ok_or WrongSize (get_le 4 bytes offset).
Definition read_u64 (bytes : list Z) (offset : Z) : res Error Z :=
  let! _ := ok_or ArithmeticOverflow (checked_add_u64 offset 8) in
  ok_or WrongSize (get_le 8 bytes offset).
Definition put_u16 (bytes : list Z) (offset value : Z) : res Error (list Z) :=
  let! _ := ok_or ArithmeticOverflow (checked_add_u64 offset 2) in
  ok_or WrongSize (put_le 2 bytes offset value).
Definition put_u32 (bytes : list Z) (offset value : Z) : res Error (list Z) :=
  let! _ := ok_or ArithmeticOverflow (checked_add_u64 offset 4) in
  ok_or WrongSize (put_le 4 bytes offset value).
Definition put_u64 (bytes : list Z) (offset value : Z) : res Error (list Z) :=
  let! _ := ok_or ArithmeticOverflow (checked_add_u64 offset 8) in
  ok_or WrongSize (put_le 8 bytes offset value).

(** [VersionList::len], [get] and [contains]. *)
Definition version_list_len (v : VersionList) : Z := len (vl_bytes v) / 4.
Definition version_list_is_empty (v : VersionList) : bool := bool_decide (vl_bytes v = []).
Definition version_list_get (v : VersionList) (index : Z) : option ProtocolVersion :=
  match checked_mul_u64 index 4 with
  | None => None
  | Some offset =>
      match get_u16 (vl_bytes v) offset, get_u16 (vl_bytes v) (offset + 2) with
      | Some mj, Some mn => Some (mkVersion mj mn)
      | _, _ => None
      end
  end.
Definition version_list_contains (v : VersionList) (version : ProtocolVersion) : bool :=
  existsb (fun i => bool_decide (version_list_get v (Z.of_nat i) = Some version))
    (seq 0 (Z.to_nat (version_list_len v))).

Definition require_size (bytes : list Z) (expected : Z) : res Error unit :=
  if len bytes =? expected then Ok tt else Err WrongSize.
Definition require_handles (actual expected : Z) : res Error unit :=
  if actual =? expected then Ok tt else Err WrongHandleCount.
Definition exact_header (bytes : list Z) (handles : Z) (value : Message) : res Error Message :=
  let! _ := require_handles handles 0 in
  let! _ := require_size bytes HEADER_BYTES in
  Ok value.

(** ** Validators *)

Definition is_ascii_lowercase (b : Z) : bool := in_range 97 122 b.
Definition is_ascii_digit (b : Z) : bool := in_range 48 57 b.

Definition validate_name (name : list Z) : res Error unit :=
  match name with
  | [] => Err InvalidServiceName
  | first :: rest =>
      reject_if! (len name >? MAX_SERVICE_NAME_BYTES) || negb (is_ascii_lowercase first)
        with InvalidServiceName;;
      reject_if! negb (forallb (fun byte =>
          is_ascii_lowercase byte || is_ascii_digit byte || (byte =? 46) || (byte =? 45)) rest)
        with InvalidServiceName;;
      Ok tt
  end.

Fixpoint validate_versions_windows (versions : list ProtocolVersion) : res Error unit :=
  match versions with
  | a :: ((b :: _) as rest) =>
      reject_if! version_geb a b with NoncanonicalVersions;;
      validate_versions_windows rest
  | _ => Ok tt
  end.

Definition validate_versions (versions : list ProtocolVersion) : res Error unit :=
  reject_if! bool_decide (versions = []) || (len versions >? MAX_PROTOCOL_VERSIONS)
    with InvalidVersionList;;
  validate_versions_windows versions.

(** The loop [for index in from..from + count] of [validate_version_list]. *)
Fixpoint validate_version_list_from (versions : VersionList) (count : nat) (index : Z)
    (previous : option ProtocolVersion) : res Error unit :=
  match count with
  | O => Ok tt
  | S count =>
      let! current := ok_or InvalidVersionList (version_list_get versions index) in
      reject_if! match previous with Some value => version_geb value current | None => false end
        with NoncanonicalVersions;;
      validate_version_list_from versions count (index + 1) (Some current)
  end.
Definition validate_version_list (versions : VersionList) : res Error unit :=
  validate_version_list_from versions (Z.to_nat (version_list_len versions)) 0 None.

(** [u16::div_ceil(2)] *)
Definition div_ceil2 (n : Z) : Z := n / 2 + n mod 2.

Definition validate_page_shape (oc : bool) (page_index page_count total_count record_count : Z)
    : res Error unit :=
  let expected_pages := if total_count =? 0 then 1 else div_ceil2 total_count in
  let! expected_records :=
    if total_count =? 0 then Ok 0
    else
      let! next := add_unsigned oc (2 ^ 16) page_index 1 in
      if next <? page_count then Ok 2
      else
        let! previous_pages := sub_unsigned oc (2 ^ 16) page_count 1 in
        let! doubled :=
          if 2 * previous_pages <? 2 ^ 16 then Ok (2 * previous_pages)
          else if oc then Panic else Ok ((2 * previous_pages) mod 2 ^ 16) in
        sub_unsigned oc (2 ^ 16) total_count doubled in
  reject_if! negb (page_count =? expected_pages) || negb (record_count =? expected_records)
    with InvalidServiceList;;
  Ok tt.

(** ** Parsing *)

Definition is_supervisor_type (t : MessageType) : bool :=
  match t with
  | MtInstallPublication | MtInstallClient => true
  | _ => false
  end.

Definition parse_header (bytes : list Z) : res Error ParsedHeader :=
  reject_if! len bytes <? HEADER_BYTES with WrongSize;;
  let! magic := or_panic (get_range bytes 0 4) in
  reject_if! bool_decide (magic <> MAGIC) with WrongMagic;;
  let! v4 := read_u16 bytes 4 in
  let! v6 := if v4 =? MAJOR then read_u16 bytes 6 else Ok MINOR in
  reject_if! negb (v4 =? MAJOR) || negb (v6 =? MINOR) with UnsupportedVersion;;
  let! type_code := read_u32 bytes 8 in
  let! message_type := message_type_parse type_code in
  let! flags := read_u32 bytes 12 in
  reject_if! negb (flags =? 0) with NonzeroFlags;;
  let! declared_size := read_u32 bytes 16 in
  reject_if! negb (declared_size =? len bytes) || (declared_size <? HEADER_BYTES)
    with WrongSize;;
  let! declared_handles := read_u32 bytes 20 in
  let! generation := read_u64 bytes 24 in
  let! id := read_u64 bytes 32 in
  let! id_generation := read_u64 bytes 40 in
  let! transaction := read_u64 bytes 48 in
  let header := mkHeader message_type generation id id_generation transaction in
  let! reserved := read_u64 bytes 56 in
  reject_if! negb (reserved =? 0) with NonzeroReserved;;
  reject_if! (registry_generation header =? 0) || (transaction_id header =? 0)
    with ZeroIdentity;;
  reject_if!
    (if is_supervisor_type message_type
     then negb (endpoint_id header =? 0) || negb (endpoint_generation header =? 0)
     else (endpoint_id header =? 0) || (endpoint_generation header =? 0))
    with WrongEndpointScope;;
  Ok (mkParsedHeader header declared_size declared_handles).

Definition decode_header (bytes : list Z) : res Error DecodedHeader :=
  reject_if! len bytes <? HEADER_BYTES with WrongSize;;
  let! magic := or_panic (get_range bytes 0 4) in
  reject_if! bool_decide (magic <> MAGIC) with WrongMagic;;
  let! transaction := read_u64 bytes 48 in
  reject_if! transaction =? 0 with ZeroIdentity;;
  let! mj := read_u16 bytes 4 in
  let! mn := read_u16 bytes 6 in
  let! type_code := read_u32 bytes 8 in
  let! flags := read_u32 bytes 12 in
  let! size := read_u32 bytes 16 in
  let! handles := read_u32 bytes 20 in
  let! generation := read_u64 bytes 24 in
  let! id := read_u64 bytes 32 in
  let! id_generation := read_u64 bytes 40 in
  let! reserved := read_u64 bytes 56 in
  Ok (mkDecodedHeader mj mn
        (match message_type_parse type_code with Ok t => Some t | _ => None end)
        flags size handles generation id id_generation transaction reserved).

Definition parse_install_publication (bytes : list Z) : res Error InstallPublication :=
  reject_if! len bytes <? 124 with WrongSize;;
  let! r84 := read_u32 bytes 84 in
  let! r116 := if r84 =? 0 then read_u32 bytes 116 else Ok 0 in
  reject_if! negb (r84 =? 0) || negb (r116 =? 0) with NonzeroReserved;;
  let! count := read_u16 bytes 112 in
  let! name_len := read_u16 bytes 114 in
  reject_if! negb (in_range 1 MAX_PROTOCOL_VERSIONS count) with InvalidVersionList;;
  let! version_bytes := ok_or ArithmeticOverflow (checked_mul_u64 count 4) in
  let! versions_end := ok_or ArithmeticOverflow (checked_add_u64 120 version_bytes) in
  let! total := ok_or ArithmeticOverflow (checked_add_u64 versions_end name_len) in
  reject_if! negb (total =? len bytes) with WrongSize;;
  let! table := or_panic (get_range bytes 120 versions_end) in
  let versions := mkVersionList table in
  let! _ := validate_version_list versions in
  let! service_name := or_panic (get_from bytes versions_end) in
  let! _ := validate_name service_name in
  let! id := read_u64 bytes 64 in
  let! generation := read_u64 bytes 72 in
  let! role := read_u32 bytes 80 in
  let! publication := read_u64 bytes 88 in
  let! service_generation := read_u64 bytes 96 in
  let! protocol := read_u64 bytes 104 in
  let value := mkInstallPublication id generation role publication service_generation
                 protocol versions service_name in
  reject_if! (ip_endpoint_id value =? 0) || (ip_endpoint_generation value =? 0)
      || (ip_supervisor_role_id value =? 0) || (ip_publication_id value =? 0)
      || (ip_service_generation value =? 0) with ZeroIdentity;;
  reject_if! ip_protocol_id value =? 0 with InvalidProtocolId;;
  Ok value.

Definition parse_install_client (bytes : list Z) : res Error InstallClient :=
  let! scope_code := read_u32 bytes 96 in
  let! scope := match scope_code with
                | 0 => Ok ScopeNone
                | 1 => Ok BootstrapMetadata
                | _ => Err InvalidScope
                end in
  let! r100 := read_u32 bytes 100 in
  reject_if! negb (r100 =? 0) with NonzeroReserved;;
  let! id := read_u64 bytes 64 in
  let! generation := read_u64 bytes 72 in
  let! client := read_u64 bytes 80 in
  let! client_generation := read_u64 bytes 88 in
  let value := mkInstallClient id generation client client_generation scope in
  reject_if! (ic_endpoint_id value =? 0) || (ic_endpoint_generation value =? 0)
      || (ic_client_id value =? 0) || (ic_client_generation value =? 0) with ZeroIdentity;;
  Ok value.

Definition parse_lookup (bytes : list Z) : res Error Lookup :=
  reject_if! len bytes <? 81 with WrongSize;;
  let! name_len := read_u16 bytes 76 in
  let! r78 := read_u16 bytes 78 in
  if negb (r78 =? 0) || negb (len bytes =? 80 + name_len) then
    let! again := read_u16 bytes 78 in
    Err (if negb (again =? 0) then NonzeroReserved else WrongSize)
  else
  let! protocol := read_u64 bytes 64 in
  reject_if! protocol =? 0 with InvalidProtocolId;;
  let! service_name := or_panic (get_from bytes 80) in
  let! _ := validate_name service_name in
  let! mj := read_u16 bytes 72 in
  let! mn := read_u16 bytes 74 in
  Ok (mkLookup protocol (mkVersion mj mn) service_name).

Definition parse_watch (bytes : list Z) : res Error Watch :=
  reject_if! len bytes <? 89 with WrongSize;;
  let! name_len := read_u16 bytes 80 in
  let! r82 := read_u16 bytes 82 in
  let! r84 := if r82 =? 0 then read_u32 bytes 84 else Ok 0 in
  reject_if! negb (r82 =? 0) || negb (r84 =? 0) with NonzeroReserved;;
  reject_if! negb (len bytes =? 88 + name_len) with WrongSize;;
  let! protocol := read_u64 bytes 64 in
  reject_if! protocol =? 0 with InvalidProtocolId;;
  let! service_name := or_panic (get_from bytes 88) in
  let! _ := validate_name service_name in
  let! generation := read_u64 bytes 72 in
  Ok (mkWatch protocol generation service_name).

(** The four version slots of one service-list record. *)
Fixpoint check_record_versions (bytes : list Z) (base version_count : Z) (slots : nat)
    (version : Z) (previous : option ProtocolVersion) : res Error unit :=
  match slots with
  | O => Ok tt
  | S slots =>
      let! mj := read_u16 bytes (base + 24 + version * 4) in
      let! mn := read_u16 bytes (base + 26 + version * 4) in
      let value := mkVersion mj mn in
      if version <? version_count then
        reject_if! match previous with Some prior => version_geb prior value | None => false end
          with NoncanonicalVersions;;
        check_record_versions bytes base version_count slots (version + 1) (Some value)
      else
        reject_if! bool_decide (value <> default_version) with InvalidServiceList;;
        check_record_versions bytes base version_count slots (version + 1) previous
  end.

(** The record loop of [parse_service_list], [count] records from [index]. *)
Fixpoint check_records (bytes : list Z) (count : nat) (index : Z) (previous : option (list Z))
    : res Error unit :=
  match count with
  | O => Ok tt
  | S count =>
      let base := SERVICE_LIST_PREFIX_BYTES + index * SERVICE_LIST_RECORD_BYTES in
      let! protocol := read_u64 bytes base in
      let! generation := read_u64 bytes (base + 8) in
      let! name_len := read_u16 bytes (base + 16) in
      let! version_count := or_panic (get_at bytes (base + 18)) in
      let! b19 := if negb (protocol =? 0) && negb (generation =? 0)
                  then or_panic (get_at bytes (base + 19)) else Ok 0 in
      let! r20 := if negb (protocol =? 0) && negb (generation =? 0) && (b19 =? 0)
                  then read_u32 bytes (base + 20) else Ok 0 in
      reject_if! (protocol =? 0) || (generation =? 0) || negb (b19 =? 0) || negb (r20 =? 0)
          || negb (in_range 1 MAX_PROTOCOL_VERSIONS version_count)
          || negb (in_range 1 MAX_SERVICE_NAME_BYTES name_len) with InvalidServiceList;;
      let! _ := check_record_versions bytes base version_count
                  (Z.to_nat MAX_PROTOCOL_VERSIONS) 0 None in
      let! name := or_panic (get_range bytes (base + 40) (base + 40 + name_len)) in
      let! _ := validate_name name in
      let! padding := or_panic (get_range bytes (base + 40 + name_len)
                                  (base + SERVICE_LIST_RECORD_BYTES)) in
      reject_if! existsb (fun byte => negb (byte =? 0)) padding
          || match previous with Some prior => bytes_geb prior name | None => false end
        with InvalidServiceList;;
      check_records bytes count (index + 1) (Some name)
  end.

Definition parse_service_list (oc : bool) (bytes : list Z) : res Error ServiceListPage :=
  reject_if! negb (len bytes =? SERVICE_LIST_PREFIX_BYTES)
      && negb (len bytes =? SERVICE_LIST_PREFIX_BYTES + SERVICE_LIST_RECORD_BYTES)
      && negb (len bytes =? SERVICE_LIST_PREFIX_BYTES + 2 * SERVICE_LIST_RECORD_BYTES)
    with WrongSize;;
  let! page_index := read_u16 bytes 64 in
  let! page_count := read_u16 bytes 66 in
  let! record_count := read_u16 bytes 68 in
  let! total_count := read_u16 bytes 70 in
  let! r72 := read_u32 bytes 72 in
  let! r76 := if r72 =? 0 then read_u32 bytes 76 else Ok 0 in
  reject_if! negb (r72 =? 0) || negb (r76 =? 0) with NonzeroReserved;;
  reject_if! (record_count >? MAX_SERVICE_LIST_RECORDS)
      || (page_count >? MAX_SERVICE_LIST_PAGES) || (total_count >? MAX_SERVICES)
      || (page_count =? 0) || (page_index >=? page_count)
      || negb (len bytes =? SERVICE_LIST_PREFIX_BYTES + record_count * SERVICE_LIST_RECORD_BYTES)
    with InvalidServiceList;;
  let! _ := validate_page_shape oc page_index page_count total_count record_count in
  let! _ := check_records bytes (Z.to_nat record_count) 0 None in
  Ok (mkServiceListPage bytes page_index page_count record_count total_count).

Definition parse_message (oc : bool) (message_type : MessageType) (bytes : list Z)
    (received_handle_count : Z) : res Error Message :=
  match message_type with
  | MtInstallPublication =>
      let! _ := require_handles received_handle_count 1 in
      let! v := parse_install_publication bytes in
      Ok (MInstallPublication v)
  | MtInstallClient =>
      let! _ := require_handles received_handle_count 1 in
      let! _ := require_size bytes 104 in
      let! v := parse_install_client bytes in
      Ok (MInstallClient v)
  | MtPublish => exact_header bytes received_handle_count MPublish
  | MtPublished => exact_header bytes received_handle_count MPublished
  | MtRetire => exact_header bytes received_handle_count MRetire
  | MtRetired => exact_header bytes received_handle_count MRetired
  | MtLookupConnect =>
      let! _ := require_handles received_handle_count 1 in
      let! v := parse_lookup bytes in
      Ok (MLookupConnect v)
  | MtConnectOffer =>
      let! _ := require_handles received_handle_count 1 in
      let! v := parse_lookup bytes in
      Ok (MConnectOffer v)
  | MtConnected => exact_header bytes received_handle_count MConnected
  | MtEnumerate => exact_header bytes received_handle_count MEnumerate
  | MtServiceList =>
      let! _ := require_handles received_handle_count 0 in
      let! v := parse_service_list oc bytes in
      Ok (MServiceList v)
  | MtWatch =>
      let! _ := require_handles received_handle_count 0 in
      let! v := parse_watch bytes in
      Ok (MWatch v)
  | MtGenerationChanged =>
      let! _ := require_handles received_handle_count 0 in
      let! _ := require_size bytes 72 in
      let! generation := read_u64 bytes 64 in
      Ok (MGenerationChanged generation)
  | MtCancel | MtCancelled =>
      let! _ := require_handles received_handle_count 0 in
      let! _ := require_size bytes 72 in
      let! target := read_u64 bytes 64 in
      reject_if! target =? 0 with ZeroIdentity;;
      Ok (match message_type with MtCancel => MCancel target | _ => MCancelled target end)
  | MtError =>
      let! _ := require_handles received_handle_count 0 in
      let! _ := require_size bytes 72 in
      let! r68 := read_u32 bytes 68 in
      reject_if! negb (r68 =? 0) with NonzeroReserved;;
      let! code_value := read_u32 bytes 64 in
      let! code := error_code_parse code_value in
      Ok (MError code)
  end.

Definition parse (oc : bool) (bytes : list Z) (received_handle_count : Z)
    : res Error ParsedMessage :=
  let! framing := parse_header bytes in
  reject_if! negb (declared_handle_count framing =? received_handle_count)
    with WrongHandleCount;;
  let header := ph_header framing in
  let! message := parse_message oc (message_type header) bytes received_handle_count in
  Ok (mkParsedMessage header message).

(** [ServiceListPage::record] and [version]. *)
Fixpoint read_versions (bytes : list Z) (base : Z) (count : nat) (version : Z)
    : option (list ProtocolVersion) :=
  match count with
  | O => Some []
  | S count =>
      match get_u16 bytes (base + 24 + version * 4), get_u16 bytes (base + 26 + version * 4) with
      | Some mj, Some mn => cons (mkVersion mj mn) <$> read_versions bytes base count (version + 1)
      | _, _ => None
      end
  end.

Definition page_record (p : ServiceListPage) (index : Z) : option ServiceListRecord :=
  if index >=? pg_record_count p then None
  else
    let base := SERVICE_LIST_PREFIX_BYTES + index * SERVICE_LIST_RECORD_BYTES in
    match get_u16 (pg_bytes p) (base + 16), get_at (pg_bytes p) (base + 18) with
    | Some name_len, Some version_count =>
        match read_versions (pg_bytes p) base
                (Z.to_nat (version_count `min` MAX_PROTOCOL_VERSIONS)) 0 with
        | Some versions =>
            match get_u64 (pg_bytes p) base, get_u64 (pg_bytes p) (base + 8),
                  get_range (pg_bytes p) (base + 40) (base + 40 + name_len) with
            | Some protocol, Some generation, Some name =>
                Some (mkServiceListRecord protocol generation
                        (versions ++ replicate (4 - length versions) default_version)
                        version_count name)
            | _, _, _ => None
            end
        | None => None
        end
    | _, _ => None
    end.

Definition page_version (p : ServiceListPage) (record version : Z) : option ProtocolVersion :=
  if record >=? pg_record_count p then None
  else
    let base := SERVICE_LIST_PREFIX_BYTES + record * SERVICE_LIST_RECORD_BYTES in
    match get_at (pg_bytes p) (base + 18) with
    | Some count =>
        if version >=? count then None
        else
          match get_u16 (pg_bytes p) (base + 24 + version * 4),
                get_u16 (pg_bytes p) (base + 26 + version * 4) with
          | Some mj, Some mn => Some (mkVersion mj mn)
          | _, _ => None
          end
    | None => None
    end.

(** ** Encoding *)

Definition encode_header (header : Header) (handles total_size : Z) (out : list Z)
    : res Error (list Z) :=
  reject_if! (len out <? total_size) || (total_size <? HEADER_BYTES) with WrongSize;;
  reject_if! (registry_generation header =? 0) || (transaction_id header =? 0)
    with ZeroIdentity;;
  let supervisor := is_supervisor_type (message_type header) in
  reject_if! negb (Bool.eqb supervisor
      ((endpoint_id header =? 0) && (endpoint_generation header =? 0))) with WrongEndpointScope;;
  let! out := or_panic (fill_zero out total_size) in
  let! out := or_panic (put_range out 0 MAGIC) in
  let! out := put_u16 out 4 MAJOR in
  let! out := put_u16 out 6 MINOR in
  let! out := put_u32 out 8 (message_type_code (message_type header)) in
  let! size32 := ok_or WrongSize (try_from_unsigned (2 ^ 32) total_size) in
  let! out := put_u32 out 16 size32 in
  let! handles32 := ok_or WrongHandleCount (try_from_unsigned (2 ^ 32) handles) in
  let! out := put_u32 out 20 handles32 in
  let! out := put_u64 out 24 (registry_generation header) in
  let! out := put_u64 out 32 (endpoint_id header) in
  let! out := put_u64 out 40 (endpoint_generation header) in
  let! out := put_u64 out 48 (transaction_id header) in
  Ok out.

Definition encode_empty (header : Header) (out : list Z) : res Error (Z * list Z) :=
  reject_if! negb (match message_type header with
                   | MtPublish | MtPublished | MtRetire | MtRetired
                   | MtConnected | MtEnumerate => true
                   | _ => false
                   end) with UnknownMessageType;;
  let! out := encode_header header 0 HEADER_BYTES out in
  Ok (HEADER_BYTES, out).

Definition encode_generation_changed (header : Header) (generation : Z) (out : list Z)
    : res Error (Z * list Z) :=
  reject_if! bool_decide (message_type header <> MtGenerationChanged) with UnknownMessageType;;
  let! out := encode_header header 0 72 out in
  let! out := put_u64 out 64 generation in
  Ok (72, out).

Definition encode_cancel (header : Header) (target : Z) (out : list Z)
    : res Error (Z * list Z) :=
  reject_if! negb (match message_type header with MtCancel | MtCancelled => true | _ => false end)
      || (target =? 0) with ZeroIdentity;;
  let! out := encode_header header 0 72 out in
  let! out := put_u64 out 64 target in
  Ok (72, out).

Definition encode_error (header : Header) (code : ErrorCode) (out : list Z)
    : res Error (Z * list Z) :=
  reject_if! bool_decide (message_type header <> MtError) with UnknownMessageType;;
  let! out := encode_header header 0 72 out in
  let! out := put_u32 out 64 (error_code_code code) in
  Ok (72, out).

(** The version slots of one record ([take(count)] of the version array). *)
Fixpoint put_versions (out : list Z) (base : Z) (versions : list ProtocolVersion) (version : Z)
    : res Error (list Z) :=
  match versions with
  | [] => Ok out
  | value :: versions =>
      let! out := put_u16 out (base + version * 4) (major value) in
      let! out := put_u16 out (base + 2 + version * 4) (minor value) in
      put_versions out base versions (version + 1)
  end.

(** The record loop of [encode_service_list]. *)
Fixpoint put_records (out : list Z) (records : list ServiceListRecord) (index : Z)
    (previous : option (list Z)) : res Error (list Z) :=
  match records with
  | [] => Ok out
  | record :: records =>
      reject_if! (sr_protocol_id record =? 0) || (sr_service_generation record =? 0)
        with InvalidServiceList;;
      let! _ := validate_name (sr_service_name record) in
      let count := sr_version_count record in
      let! versions := ok_or InvalidVersionList (get_range (sr_versions record) 0 count) in
      let! _ := validate_versions versions in
      reject_if! match previous with
                 | Some name => bytes_geb name (sr_service_name record)
                 | None => false
                 end with InvalidServiceList;;
      let base := SERVICE_LIST_PREFIX_BYTES + index * SERVICE_LIST_RECORD_BYTES in
      let! out := put_u64 out base (sr_protocol_id record) in
      let! out := put_u64 out (base + 8) (sr_service_generation record) in
      let! out := put_u16 out (base + 16) (len (sr_service_name record)) in
      let! out := or_panic (put_range out (base + 18) [sr_version_count record]) in
      let! out := put_versions out (base + 24) (take (Z.to_nat count) (sr_versions record)) 0 in
      let! out := or_panic (put_range out (base + 40) (sr_service_name record)) in
      put_records out records (index + 1) (Some (sr_service_name record))
  end.

Definition encode_service_list (oc : bool) (header : Header)
    (page_index page_count total_count : Z) (records : list ServiceListRecord) (out : list Z)
    : res Error (Z * list Z) :=
  reject_if! bool_decide (message_type header <> MtServiceList)
      || (len records >? MAX_SERVICE_LIST_RECORDS)
      || (page_count =? 0) || (page_count >? MAX_SERVICE_LIST_PAGES)
      || (page_index >=? page_count) || (total_count >? MAX_SERVICES)
    with InvalidServiceList;;
  let! _ := validate_page_shape oc page_index page_count total_count (len records) in
  let size := SERVICE_LIST_PREFIX_BYTES + len records * SERVICE_LIST_RECORD_BYTES in
  let! out := encode_header header 0 size out in
  let! out := put_u16 out 64 page_index in
  let! out := put_u16 out 66 page_count in
  let! out := put_u16 out 68 (len records) in
  let! out := put_u16 out 70 total_count in
  let! out := put_records out records 0 None in
  Ok (size, out).

Definition encode_lookup (header : Header) (lookup : Lookup) (out : list Z)
    : res Error (Z * list Z) :=
  reject_if! negb (match message_type header with
                   | MtLookupConnect | MtConnectOffer => true
                   | _ => false
                   end) || (lk_protocol_id lookup =? 0) with InvalidProtocolId;;
  let! _ := validate_name (lk_service_name lookup) in
  let! size := ok_or ArithmeticOverflow (checked_add_u64 80 (len (lk_service_name lookup))) in
  let! out := encode_header header 1 size out in
  let! out := put_u64 out 64 (lk_protocol_id lookup) in
  let! out := put_u16 out 72 (major (lk_version lookup)) in
  let! out := put_u16 out 74 (minor (lk_version lookup)) in
  let! out := put_u16 out 76 (len (lk_service_name lookup)) in
  let! out := or_panic (put_range out 80 (lk_service_name lookup)) in
  Ok (size, out).

Definition encode_watch (header : Header) (watch : Watch) (out : list Z)
    : res Error (Z * list Z) :=
  reject_if! bool_decide (message_type header <> MtWatch) || (wt_protocol_id watch =? 0)
    with InvalidProtocolId;;
  let! _ := validate_name (wt_service_name watch) in
  let! size := ok_or ArithmeticOverflow (checked_add_u64 88 (len (wt_service_name watch))) in
  let! out := encode_header header 0 size out in
  let! out := put_u64 out 64 (wt_protocol_id watch) in
  let! out := put_u64 out 72 (wt_last_observed_generation watch) in
  let! out := put_u16 out 80 (len (wt_service_name watch)) in
  let! out := or_panic (put_range out 88 (wt_service_name watch)) in
  Ok (size, out).

Definition encode_install_publication (header : Header)
    (endpoint_id endpoint_generation supervisor_role_id publication_id service_generation
     protocol_id : Z) (versions : list ProtocolVersion) (name out : list Z)
    : res Error (Z * list Z) :=
  reject_if! bool_decide (message_type header <> MtInstallPublication)
      || (endpoint_id =? 0) || (endpoint_generation =? 0) || (supervisor_role_id =? 0)
      || (publication_id =? 0) || (service_generation =? 0) || (protocol_id =? 0)
    with ZeroIdentity;;
  let! _ := validate_name name in
  let! _ := validate_versions versions in
  let! version_bytes := ok_or ArithmeticOverflow (checked_mul_u64 (len versions) 4) in
  let! head := ok_or ArithmeticOverflow (checked_add_u64 120 version_bytes) in
  let! size := ok_or ArithmeticOverflow (checked_add_u64 head (len name)) in
  let! out := encode_header header 1 size out in
  let! out := put_u64 out 64 endpoint_id in
  let! out := put_u64 out 72 endpoint_generation in
  let! out := put_u32 out 80 supervisor_role_id in
  let! out := put_u64 out 88 publication_id in
  let! out := put_u64 out 96 service_generation in
  let! out := put_u64 out 104 protocol_id in
  let! out := put_u16 out 112 (len versions) in
  let! out := put_u16 out 114 (len name) in
  let! out := put_versions out 120 versions 0 in
  let name_offset := 120 + len versions * 4 in
  let! out := or_panic (put_range out name_offset name) in
  Ok (size, out).

Definition encode_install_client (header : Header) (install : InstallClient) (out : list Z)
    : res Error (Z * list Z) :=
  reject_if! bool_decide (message_type header <> MtInstallClient)
      || (ic_endpoint_id install =? 0) || (ic_endpoint_generation install =? 0)
      || (ic_client_id install =? 0) || (ic_client_generation install =? 0) with ZeroIdentity;;
  let! out := encode_header header 1 104 out in
  let! out := put_u64 out 64 (ic_endpoint_id install) in
  let! out := put_u64 out 72 (ic_endpoint_generation install) in
  let! out := put_u64 out 80 (ic_client_id install) in
  let! out := put_u64 out 88 (ic_client_generation install) in
  let! out := put_u32 out 96 (match ic_scope install with
                              | ScopeNone => 0
                              | BootstrapMetadata => 1
                              end) in
  Ok (104, out).

End RegistryProto.
