(* ===== verification/RegistryWire.v ===== *)
(** * WRRG wire format: the parser and the encoders meet one specification

    [wire h m bytes] says, field by field, what datagram stands for header [h]
    and message [m].  [parse] accepts exactly the datagrams of the format, and
    every encoder writes a datagram of it; round trips and canonicity follow. *)

From stdpp Require Import base tactics option list list_numbers.
From Stdlib Require Import ZArith Lia.
From S2P Require Import Prelude Bytes Utf8 RegistryProto.
Import RegistryProto.

(** ** Field accessors as plain little-endian reads *)

Lemma get_u16_eq bytes o : o + 2 < 2 ^ 64 -> get_u16 bytes o = get_le 2 bytes o.
Proof. intros. unfold get_u16. by rewrite checked_add_u64_ok. Qed.
Lemma get_u64_eq bytes o : o + 8 < 2 ^ 64 -> get_u64 bytes o = get_le 8 bytes o.
Proof. intros. unfold get_u64. by rewrite checked_add_u64_ok. Qed.
Lemma read_u16_eq bytes o : o + 2 < 2 ^ 64 -> read_u16 bytes o = ok_or WrongSize (get_le 2 bytes o).
Proof. intros. unfold read_u16. by rewrite get_u16_eq. Qed.
Lemma read_u32_eq bytes o : o + 4 < 2 ^ 64 -> read_u32 bytes o = ok_or WrongSize (get_le 4 bytes o).
Proof. intros. unfold read_u32. by rewrite checked_add_u64_ok. Qed.
Lemma read_u64_eq bytes o : o + 8 < 2 ^ 64 -> read_u64 bytes o = ok_or WrongSize (get_le 8 bytes o).
Proof. intros. unfold read_u64. by rewrite checked_add_u64_ok. Qed.
Lemma put_u16_eq bytes o v :
  o + 2 < 2 ^ 64 -> put_u16 bytes o v = ok_or WrongSize (put_le 2 bytes o v).
Proof. intros. unfold put_u16. by rewrite checked_add_u64_ok. Qed.
Lemma put_u32_eq bytes o v :
  o + 4 < 2 ^ 64 -> put_u32 bytes o v = ok_or WrongSize (put_le 4 bytes o v).
Proof. intros. unfold put_u32. by rewrite checked_add_u64_ok. Qed.
Lemma put_u64_eq bytes o v :
  o + 8 < 2 ^ 64 -> put_u64 bytes o v = ok_or WrongSize (put_le 8 bytes o v).
Proof. intros. unfold put_u64. by rewrite checked_add_u64_ok. Qed.

(** Replace every accessor of the goal, or of a hypothesis, by a plain read. *)
Ltac fields_goal :=
  rewrite ?read_u16_eq, ?read_u32_eq, ?read_u64_eq, ?put_u16_eq, ?put_u32_eq, ?put_u64_eq by lia.
Ltac fields_step :=
  match goal with
  | H : read_u16 _ _ = Ok _ |- _ => rewrite read_u16_eq in H by lia
  | H : read_u32 _ _ = Ok _ |- _ => rewrite read_u32_eq in H by lia
  | H : read_u64 _ _ = Ok _ |- _ => rewrite read_u64_eq in H by lia
  | H : put_u16 _ _ _ = Ok _ |- _ => rewrite put_u16_eq in H by lia
  | H : put_u32 _ _ _ = Ok _ |- _ => rewrite put_u32_eq in H by lia
  | H : put_u64 _ _ _ = Ok _ |- _ => rewrite put_u64_eq in H by lia
  | H : validate_name _ = Ok ?u |- _ => is_var u; destruct u
  | H : require_size _ _ = Ok _ |- _ => unfold require_size in H
  | H : require_handles _ _ = Ok _ |- _ => unfold require_handles in H
  end.
Ltac proto_inv := repeat first [res_step | fields_step]; bool_prop.

(** ** The header *)

Definition header_at (h : Header) (handles size : Z) (bytes : list Z) : Prop :=
  get_range bytes 0 4 = Some MAGIC /\
  get_le 2 bytes 4 = Some MAJOR /\ get_le 2 bytes 6 = Some MINOR /\
  get_le 4 bytes 8 = Some (message_type_code (message_type h)) /\
  get_le 4 bytes 12 = Some 0 /\ get_le 4 bytes 16 = Some size /\
  get_le 4 bytes 20 = Some handles /\
  get_le 8 bytes 24 = Some (registry_generation h) /\
  get_le 8 bytes 32 = Some (endpoint_id h) /\
  get_le 8 bytes 40 = Some (endpoint_generation h) /\
  get_le 8 bytes 48 = Some (transaction_id h) /\ get_le 8 bytes 56 = Some 0.

(** Nonzero identities, and endpoint fields present exactly off the supervisor
    channel. *)
Definition header_valid (h : Header) : Prop :=
  registry_generation h <> 0 /\ transaction_id h <> 0 /\
  if is_supervisor_type (message_type h)
  then endpoint_id h = 0 /\ endpoint_generation h = 0
  else endpoint_id h <> 0 /\ endpoint_generation h <> 0.

Definition header_u64 (h : Header) : Prop :=
  in_u64 (registry_generation h) /\ in_u64 (endpoint_id h) /\
  in_u64 (endpoint_generation h) /\ in_u64 (transaction_id h).

Lemma message_type_parse_code v t : message_type_parse v = Ok t <-> v = message_type_code t.
Proof.
  split; [|by intros ->; destruct t].
  unfold message_type_parse. intros H. repeat case_match; by simplify_eq.
Qed.

Lemma error_code_parse_code v c : error_code_parse v = Ok c <-> v = error_code_code c.
Proof.
  split; [|by intros ->; destruct c].
  unfold error_code_parse. intros H. repeat case_match; by simplify_eq.
Qed.

Lemma parse_header_spec bytes h size handles :
  parse_header bytes = Ok (mkParsedHeader h size handles) <->
  header_at h handles (len bytes) bytes /\ header_valid h /\
  size = len bytes /\ HEADER_BYTES <= len bytes.
Proof.
  unfold parse_header, header_at, header_valid, HEADER_BYTES. split.
  - intros H. repeat first [res_step | fields_step]. simpl in *.
    apply message_type_parse_code in H4. bool_prop.
    rewrite (proj2 (Z.eqb_eq _ _)) in H2 by done. proto_inv. simplify_eq. simpl.
    split_and!; try done. by destruct (is_supervisor_type _); bool_prop.
  - intros ((?&?&?&?&?&?&?&?&?&?&?&?) & (?&?&Hs) & -> & ?). fields_goal.
    destruct (Z.ltb_spec (len bytes) 64); [lia|].
    repeat match goal with H : _ = Some _ |- _ => rewrite H; clear H end. simpl.
    fields_goal.
    rewrite (proj2 (message_type_parse_code _ _) eq_refl). simpl.
    destruct h, (is_supervisor_type _) eqn:Hst; simpl in *; destruct Hs; bool_cases; done.
Qed.

(** ** Message bodies *)

(** The table of a version list. *)
Fixpoint versions_bytes (vs : list ProtocolVersion) : list Z :=
  match vs with
  | [] => []
  | v :: vs => to_le 2 (major v) ++ to_le 2 (minor v) ++ versions_bytes vs
  end.

Definition scope_code (s : EnumerationScope) : Z :=
  match s with ScopeNone => 0 | BootstrapMetadata => 1 end.

Definition name_valid (name : list Z) : Prop := validate_name name = Ok tt.

(** Body fields of each message other than a service list, and the size they
    imply. *)
Definition body_at (m : Message) (bytes : list Z) : Prop :=
  match m with
  | MInstallPublication v =>
      let table := vl_bytes (ip_versions v) in
      let name := ip_service_name v in
      get_le 8 bytes 64 = Some (ip_endpoint_id v) /\
      get_le 8 bytes 72 = Some (ip_endpoint_generation v) /\
      get_le 4 bytes 80 = Some (ip_supervisor_role_id v) /\ get_le 4 bytes 84 = Some 0 /\
      get_le 8 bytes 88 = Some (ip_publication_id v) /\
      get_le 8 bytes 96 = Some (ip_service_generation v) /\
      get_le 8 bytes 104 = Some (ip_protocol_id v) /\
      get_le 2 bytes 112 = Some (len table / 4) /\ get_le 2 bytes 114 = Some (len name) /\
      get_le 4 bytes 116 = Some 0 /\
      get_range bytes 120 (120 + len table) = Some table /\
      get_range bytes (120 + len table) (120 + len table + len name) = Some name /\
      len bytes = 120 + len table + len name
  | MInstallClient v =>
      get_le 8 bytes 64 = Some (ic_endpoint_id v) /\
      get_le 8 bytes 72 = Some (ic_endpoint_generation v) /\
      get_le 8 bytes 80 = Some (ic_client_id v) /\
      get_le 8 bytes 88 = Some (ic_client_generation v) /\
      get_le 4 bytes 96 = Some (scope_code (ic_scope v)) /\ get_le 4 bytes 100 = Some 0 /\
      len bytes = 104
  | MLookupConnect v | MConnectOffer v =>
      get_le 8 bytes 64 = Some (lk_protocol_id v) /\
      get_le 2 bytes 72 = Some (major (lk_version v)) /\
      get_le 2 bytes 74 = Some (minor (lk_version v)) /\
      get_le 2 bytes 76 = Some (len (lk_service_name v)) /\ get_le 2 bytes 78 = Some 0 /\
      get_range bytes 80 (80 + len (lk_service_name v)) = Some (lk_service_name v) /\
      len bytes = 80 + len (lk_service_name v)
  | MWatch v =>
      get_le 8 bytes 64 = Some (wt_protocol_id v) /\
      get_le 8 bytes 72 = Some (wt_last_observed_generation v) /\
      get_le 2 bytes 80 = Some (len (wt_service_name v)) /\ get_le 2 bytes 82 = Some 0 /\
      get_le 4 bytes 84 = Some 0 /\
      get_range bytes 88 (88 + len (wt_service_name v)) = Some (wt_service_name v) /\
      len bytes = 88 + len (wt_service_name v)
  | MGenerationChanged n | MCancel n | MCancelled n =>
      get_le 8 bytes 64 = Some n /\ len bytes = 72
  | MError c =>
      get_le 4 bytes 64 = Some (error_code_code c) /\ get_le 4 bytes 68 = Some 0 /\
      len bytes = 72
  | MServiceList _ => False
  | _ => len bytes = 64
  end.

(** What the values of a message satisfy. *)
Definition body_valid (m : Message) : Prop :=
  match m with
  | MInstallPublication v =>
      ip_endpoint_id v <> 0 /\ ip_endpoint_generation v <> 0 /\ ip_supervisor_role_id v <> 0 /\
      ip_publication_id v <> 0 /\ ip_service_generation v <> 0 /\ ip_protocol_id v <> 0 /\
      validate_version_list (ip_versions v) = Ok tt /\ name_valid (ip_service_name v) /\
      exists n, 1 <= n <= 4 /\ len (vl_bytes (ip_versions v)) = 4 * n
  | MInstallClient v =>
      ic_endpoint_id v <> 0 /\ ic_endpoint_generation v <> 0 /\ ic_client_id v <> 0 /\
      ic_client_generation v <> 0
  | MLookupConnect v | MConnectOffer v => lk_protocol_id v <> 0 /\ name_valid (lk_service_name v)
  | MWatch v => wt_protocol_id v <> 0 /\ name_valid (wt_service_name v)
  | MCancel n | MCancelled n => n <> 0
  | MServiceList _ => False
  | _ => True
  end.

Definition type_of (m : Message) : MessageType :=
  match m with
  | MInstallPublication _ => MtInstallPublication | MInstallClient _ => MtInstallClient
  | MPublish => MtPublish | MPublished => MtPublished | MRetire => MtRetire
  | MRetired => MtRetired | MLookupConnect _ => MtLookupConnect
  | MConnectOffer _ => MtConnectOffer | MConnected => MtConnected
  | MEnumerate => MtEnumerate | MServiceList _ => MtServiceList | MWatch _ => MtWatch
  | MGenerationChanged _ => MtGenerationChanged | MCancel _ => MtCancel
  | MCancelled _ => MtCancelled | MError _ => MtError
  end.

(** Handles that travel with the message. *)
Definition handles_of (m : Message) : Z :=
  match m with
  | MInstallPublication _ | MInstallClient _ | MLookupConnect _ | MConnectOffer _ => 1
  | _ => 0
  end.

Lemma name_valid_len name : name_valid name -> 1 <= len name <= 128.
Proof.
  unfold name_valid, validate_name. destruct name; [done|]. intros H. proto_inv.
  unfold MAX_SERVICE_NAME_BYTES in *. simpl length in *. lia.
Qed.

Lemma get_from_len {A} (bytes : list A) a v :
  get_from bytes a = Some v -> len v = len bytes - a /\ get_range bytes a (a + len v) = Some v.
Proof.
  unfold get_from. intros H. pose proof (length_get_range _ _ _ _ H).
  split; [done|]. by replace (a + len v) with (len bytes) by lia.
Qed.

Lemma get_from_eq {A} (bytes : list A) a v :
  get_range bytes a (a + len v) = Some v -> len bytes = a + len v -> get_from bytes a = Some v.
Proof. unfold get_from. by intros ? ->. Qed.

(** Close the fields of a wire format from the reads of a parser. *)
Ltac wire_inv :=
  repeat first
    [ res_step | fields_step
    | match goal with
      | H : get_from _ _ = Some _ |- _ => apply get_from_len in H as [? ?]
      | H : checked_add_u64 _ _ = Some _ |- _ => apply checked_add_Some in H as [? ?]
      | H : checked_mul_u64 _ _ = Some _ |- _ => apply checked_mul_Some in H as [? ?]
      | H : get_range _ _ _ = Some ?v |- _ =>
          lazymatch goal with
          | _ : len v = _ |- _ => fail
          | _ => pose proof (length_get_range _ _ _ _ H)
          end
      end ];
  bool_prop.
Ltac wire_done :=
  unfold name_valid; split_and!;
  first [done | lia | etrans; [eassumption|]; f_equal; simpl; lia].

Lemma parse_lookup_spec bytes v :
  parse_lookup bytes = Ok v <->
  body_at (MLookupConnect v) bytes /\ body_valid (MLookupConnect v).
Proof.
  unfold parse_lookup. simpl. split.
  - intros H. repeat first [res_step | fields_step].
    destruct (negb (a0 =? 0) || negb (len bytes =? 80 + a)) eqn:E'; [by wire_inv|].
    wire_inv. subst v. simpl. wire_done.
  - intros ((H64&H72&H74&H76&H78&Hn&Hl) & Hp & Hv). pose proof (name_valid_len _ Hv).
    fields_goal. rewrite H64, H72, H74, H76, H78. simpl.
    rewrite (get_from_eq _ _ _ Hn Hl). simpl. rewrite Hv. bool_cases; by destruct v as [? [] ?].
Qed.

Lemma parse_watch_spec bytes v :
  parse_watch bytes = Ok v <-> body_at (MWatch v) bytes /\ body_valid (MWatch v).
Proof.
  unfold parse_watch. simpl. split.
  - intros H. repeat first [res_step | fields_step]. bool_prop. subst a0. simpl in H2.
    wire_inv. subst v. simpl. wire_done.
  - intros ((H64&H72&H80&H82&H84&Hn&Hl) & Hp & Hv). pose proof (name_valid_len _ Hv).
    fields_goal. rewrite H64, H72, H80, H82. simpl. fields_goal. rewrite H84. simpl.
    rewrite (get_from_eq _ _ _ Hn Hl). simpl. rewrite Hv. bool_cases; by destruct v.
Qed.

Lemma parse_install_client_spec bytes v :
  len bytes = 104 ->
  parse_install_client bytes = Ok v <->
  body_at (MInstallClient v) bytes /\ body_valid (MInstallClient v).
Proof.
  unfold parse_install_client. simpl. intros Hlen. split.
  - intros H. repeat first [res_step | fields_step]. simpl in *. bool_prop.
    assert (a = scope_code a0) as ->.
    { revert H1. repeat case_match; intros; simplify_eq; done. }
    subst v. simpl. wire_done.
  - intros ((H64&H72&H80&H88&H96&H100&Hl) & ?&?&?&?).
    fields_goal. rewrite H64, H72, H80, H88, H96, H100. simpl.
    destruct v as [? ? ? ? []]; simpl in *; bool_cases; done.
Qed.

Lemma parse_install_publication_spec bytes v :
  parse_install_publication bytes = Ok v <->
  body_at (MInstallPublication v) bytes /\ body_valid (MInstallPublication v).
Proof.
  unfold parse_install_publication. cbn [body_at body_valid]. split.
  - intros H. repeat first [res_step | fields_step]. simpl in *. bool_prop. subst a.
    simpl in H1. unfold in_range, MAX_PROTOCOL_VERSIONS in *. wire_inv.
    destruct a7. subst v. simpl.
    assert (len a6 = 4 * a1) as Hl by lia.
    assert (len a6 / 4 = a1) as Hq by (rewrite Hl, Z.mul_comm; apply Z.div_mul; lia).
    split; [|split_and!; [done..|exists a1; lia]].
    rewrite Hq. replace (120 + len a6) with a4 by lia. wire_done.
  - intros ((H64&H72&H80&H84&H88&H96&H104&H112&H114&H116&Ht&Hn&Hl) &
            ?&?&?&?&?&?&Hvl&Hv&(n&Hn4&Htl)).
    pose proof (name_valid_len _ Hv).
    assert (len (vl_bytes (ip_versions v)) / 4 = n) as Hq
      by (rewrite Htl, Z.mul_comm; apply Z.div_mul; lia).
    rewrite Hq in H112. fields_goal.
    rewrite H84, H112, H114, H80, H64, H72, H88, H96, H104. simpl. fields_goal. rewrite H116. simpl.
    rewrite checked_mul_u64_ok by lia. simpl. rewrite checked_add_u64_ok by lia. simpl.
    rewrite checked_add_u64_ok by lia. simpl.
    replace (120 + n * 4) with (120 + len (vl_bytes (ip_versions v))) by lia.
    rewrite Ht. simpl.
    replace {| vl_bytes := vl_bytes (ip_versions v) |} with (ip_versions v) by by destruct (ip_versions v).
    rewrite Hvl, (get_from_eq _ _ _ Hn Hl). simpl. rewrite Hv. simpl.
    unfold in_range, MAX_PROTOCOL_VERSIONS. bool_cases; by destruct v.
Qed.

(** ** The whole datagram *)

Definition wire (h : Header) (m : Message) (bytes : list Z) : Prop :=
  message_type h = type_of m /\ header_at h (handles_of m) (len bytes) bytes /\
  header_valid h /\ body_at m bytes /\ body_valid m.

Lemma body_at_len m bytes : body_at m bytes -> 64 <= len bytes.
Proof. destruct m; simpl; intuition lia. Qed.

Lemma exact_header_spec bytes n v m :
  exact_header bytes n v = Ok m <-> n = 0 /\ len bytes = 64 /\ m = v.
Proof.
  unfold exact_header, require_handles, require_size, HEADER_BYTES.
  destruct (Z.eqb_spec n 0), (Z.eqb_spec (len bytes) 64); simpl; naive_solver.
Qed.

Lemma parse_message_spec oc h bytes n m :
  (forall p, m <> MServiceList p) -> 64 <= len bytes ->
  parse_message oc (message_type h) bytes n = Ok m <->
  message_type h = type_of m /\ n = handles_of m /\ body_at m bytes /\ body_valid m.
Proof.
  intros Hns H64. unfold parse_message.
  split.
  - intros H. destruct (message_type h); simpl in H.
    all: try (apply exact_header_spec in H as (-> & ? & ->); simpl; tauto).
    all: repeat first [res_step | fields_step]; bool_prop; subst.
    all: try match goal with
      | H : parse_lookup _ = Ok _ |- _ => apply parse_lookup_spec in H; simpl in *; tauto
      | H : parse_watch _ = Ok _ |- _ => apply parse_watch_spec in H; simpl in *; tauto
      | H : parse_install_client _ = Ok _ |- _ =>
          apply parse_install_client_spec in H; [simpl in *; tauto|done]
      | H : parse_install_publication _ = Ok _ |- _ =>
          apply parse_install_publication_spec in H; tauto
      | H : error_code_parse _ = Ok _ |- _ => apply error_code_parse_code in H; subst; simpl; tauto
      end; try (simpl; tauto).
    by destruct (Hns a0).
  - intros (Ht & -> & Hb & Hv). rewrite Ht.
    destruct m; simpl type_of; cbv iota; simpl handles_of; try (by apply exact_header_spec).
    all: try (by destruct (Hns v)).
    all: unfold require_handles; simpl.
    + by rewrite (proj2 (parse_install_publication_spec _ v)).
    + unfold require_size. assert (len bytes = 104) as Hl by (simpl in Hb; tauto).
      rewrite Hl. simpl. by rewrite (proj2 (parse_install_client_spec _ v Hl)).
    + by rewrite (proj2 (parse_lookup_spec _ v)).
    + by rewrite (proj2 (parse_lookup_spec _ v)).
    + by rewrite (proj2 (parse_watch_spec _ v)).
    + destruct Hb as [Hb Hl]. unfold require_size. rewrite Hl. simpl. fields_goal. by rewrite Hb.
    + destruct Hb as [Hb Hl]. unfold require_size. rewrite Hl. simpl. fields_goal. rewrite Hb. simpl in *.
      by bool_cases.
    + destruct Hb as [Hb Hl]. unfold require_size. rewrite Hl. simpl. fields_goal. rewrite Hb. simpl in *.
      by bool_cases.
    + destruct Hb as (Hb & Hr & Hl). unfold require_size. rewrite Hl. simpl. fields_goal. rewrite Hb, Hr.
      simpl. by rewrite (proj2 (error_code_parse_code _ code) eq_refl).
Qed.

(** [parse] accepts exactly the datagrams of the wire format. *)
Lemma parse_spec oc bytes n h m :
  (forall p, m <> MServiceList p) ->
  parse oc bytes n = Ok (mkParsedMessage h m) <-> wire h m bytes /\ n = handles_of m.
Proof.
  intros Hns. unfold parse, wire. split.
  - intros H. repeat res_step. destruct a as [h' size handles]. simpl in *. bool_prop.
    apply parse_header_spec in H0 as (? & ? & -> & ?).
    subst. simplify_eq. apply parse_message_spec in H1; [|done|done]. naive_solver.
  - intros ((Ht & Hh & Hv & Hb & Hbv) & ->). pose proof (body_at_len _ _ Hb).
    rewrite (proj2 (parse_header_spec bytes h (len bytes) (handles_of m))) by done.
    simpl. rewrite Z.eqb_refl. simpl.
    by rewrite (proj2 (parse_message_spec oc h bytes (handles_of m) m Hns H)).
Qed.

(** ** Version tables *)

Definition version_u16 (v : ProtocolVersion) : Prop := in_u16 (major v) /\ in_u16 (minor v).

Fixpoint decode_versions (bs : list Z) : list ProtocolVersion :=
  match bs with
  | a :: b :: c :: d :: bs => mkVersion (of_le [a; b]) (of_le [c; d]) :: decode_versions bs
  | _ => []
  end.

Lemma length_versions_bytes vs : len (versions_bytes vs) = 4 * len vs.
Proof. induction vs as [|v vs IH]; [done|]. cbn [versions_bytes]. rewrite !length_app, !length_to_le. simpl length. lia. Qed.

Lemma versions_bytes_ok vs : bytes_ok (versions_bytes vs).
Proof.
  induction vs as [|v vs IH]; cbn [versions_bytes]; [constructor|].
  repeat (apply Forall_app; split); [apply to_le_bytes_ok..|done].
Qed.

Lemma decode_versions_bytes vs : Forall version_u16 vs -> decode_versions (versions_bytes vs) = vs.
Proof.
  induction 1 as [|[mj mn] vs [H1 H2] _ IH]; [done|].
  cbn [versions_bytes]. simpl in H1, H2.
  change (to_le 2 (major (mkVersion mj mn))) with [mj mod 2 ^ 8; (mj / 2 ^ 8) mod 2 ^ 8].
  change (to_le 2 (minor (mkVersion mj mn))) with [mn mod 2 ^ 8; (mn / 2 ^ 8) mod 2 ^ 8].
  cbn [app decode_versions]. rewrite IH.
  change [mj mod 2 ^ 8; (mj / 2 ^ 8) mod 2 ^ 8] with (to_le 2 mj).
  change [mn mod 2 ^ 8; (mn / 2 ^ 8) mod 2 ^ 8] with (to_le 2 mn).
  by rewrite !of_le_to_le_small.
Qed.

Lemma bytes_decode_versions (n : nat) bs :
  bytes_ok bs -> length bs = (4 * n)%nat ->
  versions_bytes (decode_versions bs) = bs /\ Forall version_u16 (decode_versions bs) /\
  length (decode_versions bs) = n.
Proof.
  revert bs. induction n as [|n IH]; intros bs Hok Hl.
  { destruct bs; [|simpl in Hl; lia]. by split_and!. }
  destruct bs as [|a [|b [|c [|d bs]]]]; [simpl in Hl; lia..|].
  do 4 apply Forall_cons in Hok as [? Hok].
  destruct (IH bs) as (E1 & E2 & E3); [done|simpl in Hl; lia|].
  cbn [decode_versions versions_bytes major minor length]. rewrite E1, E3.
  assert (bytes_ok [a; b]) as Hab by (unfold bytes_ok; auto).
  assert (bytes_ok [c; d]) as Hcd by (unfold bytes_ok; auto).
  pose proof (of_le_bound _ Hab). pose proof (of_le_bound _ Hcd).
  pose proof (to_le_of_le _ Hab) as Eab. pose proof (to_le_of_le _ Hcd) as Ecd.
  simpl length in Eab, Ecd. rewrite Eab, Ecd. split_and!; [done| |done].
  constructor; [|done]. by split.
Qed.

Lemma version_list_get_bytes vs1 v vs2 :
  version_u16 v -> len (vs1 ++ v :: vs2) < 2 ^ 60 ->
  version_list_get (mkVersionList (versions_bytes (vs1 ++ v :: vs2))) (len vs1) = Some v.
Proof.
  intros [Hmj Hmn] Hlen. rewrite length_app in Hlen. simpl in Hlen.
  unfold version_list_get. rewrite checked_mul_u64_ok by lia.
  assert (versions_bytes (vs1 ++ v :: vs2) =
          versions_bytes vs1 ++ to_le 2 (major v) ++ to_le 2 (minor v) ++ versions_bytes vs2) as ->.
  { clear. induction vs1 as [|x vs1 IH]; [done|]. cbn [app versions_bytes]. rewrite IH. by rewrite <-!app_assoc. }
  replace (len vs1 * 4) with (len (versions_bytes vs1) + 0) by (rewrite length_versions_bytes; lia).
  rewrite !get_u16_eq by (rewrite length_versions_bytes; lia). cbn [vl_bytes].
  rewrite get_le_app_r by lia. rewrite get_le_app_l by (rewrite length_to_le; lia).
  rewrite get_le_to_le by done.
  rewrite <-Z.add_assoc, get_le_app_r by lia.
  change (0 + 2) with (len (to_le 2 (major v)) + 0). rewrite get_le_app_r by lia.
  rewrite get_le_app_l by (rewrite length_to_le; lia). rewrite get_le_to_le by done.
  by destruct v.
Qed.

Lemma validate_version_list_bytes_from vs1 vs2 prev :
  Forall version_u16 vs2 -> len (vs1 ++ vs2) < 2 ^ 60 ->
  validate_version_list_from (mkVersionList (versions_bytes (vs1 ++ vs2))) (length vs2)
    (len vs1) prev = validate_versions_windows (option_list prev ++ vs2).
Proof.
  revert vs1 prev. induction vs2 as [|v vs2 IH]; intros vs1 prev Hok Hlen.
  { by destruct prev. }
  apply Forall_cons in Hok as [Hv Hok]. cbn [length validate_version_list_from].
  rewrite version_list_get_bytes by done. cbn [ok_or res_bind].
  assert (vs1 ++ v :: vs2 = (vs1 ++ [v]) ++ vs2) as Happ by by rewrite <-app_assoc.
  replace (len vs1 + 1) with (len (vs1 ++ [v])) by (rewrite length_app; simpl; lia).
  rewrite Happ in Hlen |- *. rewrite IH by done.
  destruct prev as [p|]; [|done].
  change (option_list (Some v) ++ vs2) with (v :: vs2).
  change (option_list (Some p) ++ v :: vs2) with (p :: v :: vs2).
  done.
Qed.

(** A version table is valid for the parser when its list is for the encoder. *)
Lemma validate_version_list_bytes vs :
  Forall version_u16 vs -> len vs < 2 ^ 60 ->
  validate_version_list (mkVersionList (versions_bytes vs)) = validate_versions_windows vs.
Proof.
  intros Hok Hlen. unfold validate_version_list, version_list_len. cbn [vl_bytes].
  rewrite length_versions_bytes, Z.mul_comm, Z.div_mul, Nat2Z.id by lia.
  by apply (validate_version_list_bytes_from [] vs None).
Qed.
