(* ===== verification/RegistryCodec.v ===== *)
(** * WRRG encoders meet the wire format; round trips

    [encode_message] dispatches to the encoder of each message type; every
    datagram it writes is a datagram of [wire], so [parse] returns what was
    encoded, and every datagram [parse] accepts is the one the encoders write. *)

From stdpp Require Import base tactics option list list_numbers.
From Stdlib Require Import ZArith Lia.
From S2P Require Import Prelude Bytes Utf8 RegistryProto RegistryWire.
Import RegistryProto.

(** ** Buffers being written *)

Definition zero_body (size : Z) (out : list Z) : Prop :=
  forall a b, 64 <= a <= b -> b <= size ->
    get_range out a b = Some (replicate (Z.to_nat (b - a)) 0).

Lemma zero_body_le size out n a :
  zero_body size out -> 64 <= a -> a + Z.of_nat n <= size -> get_le n out a = Some 0.
Proof. intros Hz ??. unfold get_le. rewrite Hz by lia. simpl. by rewrite of_le_replicate_0. Qed.

Lemma header_at_put h handles size out a vs out' :
  put_range out a vs = Some out' -> 64 <= a ->
  header_at h handles size out -> header_at h handles size out'.
Proof.
  unfold header_at. intros Hp Ha.
  by rewrite (get_put_other _ _ _ _ 0 4 Hp), !(fun n b => get_le_put_range_other n _ _ _ _ b Hp) by lia.
Qed.

Lemma header_at_put_le h handles size out n a v out' :
  put_le n out a v = Some out' -> 64 <= a ->
  header_at h handles size out -> header_at h handles size out'.
Proof. apply header_at_put. Qed.

Lemma header_at_take h handles size out :
  64 <= size <= len out -> header_at h handles size out ->
  header_at h handles size (take (Z.to_nat size) out).
Proof. unfold header_at. intros ?. by rewrite get_range_take, !get_le_take by lia. Qed.

Lemma message_type_code_bound t : 1 <= message_type_code t <= 16.
Proof. by destruct t. Qed.

(** Run the next write, and carry [bytes_ok] through the writes done. *)
Ltac proto_write := fields_goal; buf_write.
Ltac bytes_ok_puts :=
  repeat match goal with
  | H : put_le _ ?b _ _ = Some _, H' : bytes_ok ?b |- _ =>
      apply (bytes_ok_put_le _ _ _ _ _ H') in H
  | H : put_range ?b _ ?vs = Some _, H' : bytes_ok ?b |- _ =>
      apply (bytes_ok_put_range _ _ _ _ H') in H; [|by first [assumption | apply (bool_decide_unpack _)]]
  end.

Lemma encode_header_spec h handles size out :
  header_valid h -> header_u64 h -> 64 <= size <= len out -> size < 2 ^ 32 ->
  0 <= handles < 2 ^ 32 ->
  exists out', encode_header h handles size out = Ok out' /\ length out' = length out /\
    header_at h handles size out' /\ zero_body size out' /\
    agree out' out size (len out) /\ (bytes_ok out -> bytes_ok out').
Proof.
  intros (Hg & Ht & Hs) (?&?&?&?) Hsize H32 Hh. unfold in_u64 in *.
  pose proof (message_type_code_bound (message_type h)).
  unfold encode_header, HEADER_BYTES.
  replace (negb (Bool.eqb _ _)) with false; cycle 1.
  { destruct (is_supervisor_type _); destruct Hs; by bool_cases. }
  bool_cases; try done.
  destruct (fill_zero out size) as [out0|] eqn:Hfill; cycle 1.
  { exfalso. apply eq_None_not_Some in Hfill. apply Hfill, put_range_is_Some. buf_lia. }
  pose proof (get_put_other _ _ _ _ size (len out) Hfill) as Hrest.
  pose proof (fun H => bytes_ok_put_range _ _ _ _ H (bytes_ok_replicate_0 _) Hfill) as Hok.
  apply fill_zero_Some in Hfill as (_ & Hlen & Hz); [|lia].
  cbn [or_panic res_bind]. unfold try_from_unsigned, MAGIC, MAJOR, MINOR.
  do 4 proto_write. bool_cases; try done. do 6 proto_write.
  eexists. split_and!; [reflexivity|congruence|..].
  - unfold header_at, MAGIC, MAJOR, MINOR. split_and!; buf_read; try done; unfold get_le; rewrite Hz by lia; reflexivity.
  - intros a b Hab Hb. buf_read. apply Hz; lia.
  - unfold agree. buf_read. apply Hrest. right. buf_lia.
  - intros Hb. apply Hok in Hb. bytes_ok_puts. done.
Qed.

(** The result of an encoder: a datagram of the format in the first [size]
    bytes, the rest of the buffer as it was. *)
Definition written (h : Header) (m : Message) (size : Z) (output out : list Z) : Prop :=
  length out = length output /\ wire h m (take (Z.to_nat size) out) /\
  agree out output size (len output) /\ (bytes_ok output -> bytes_ok out).

(** Values of the types the Rust fields have. *)
Definition body_types (m : Message) : Prop :=
  match m with
  | MInstallPublication v =>
      in_u64 (ip_endpoint_id v) /\ in_u64 (ip_endpoint_generation v) /\
      in_u32 (ip_supervisor_role_id v) /\ in_u64 (ip_publication_id v) /\
      in_u64 (ip_service_generation v) /\ in_u64 (ip_protocol_id v) /\
      bytes_ok (vl_bytes (ip_versions v))
  | MInstallClient v =>
      in_u64 (ic_endpoint_id v) /\ in_u64 (ic_endpoint_generation v) /\
      in_u64 (ic_client_id v) /\ in_u64 (ic_client_generation v)
  | MLookupConnect v | MConnectOffer v =>
      in_u64 (lk_protocol_id v) /\ version_u16 (lk_version v)
  | MWatch v => in_u64 (wt_protocol_id v) /\ in_u64 (wt_last_observed_generation v)
  | MGenerationChanged n | MCancel n | MCancelled n => in_u64 n
  | _ => True
  end.

Lemma name_valid_bytes_ok name : name_valid name -> bytes_ok name.
Proof.
  unfold name_valid, validate_name. destruct name as [|b name]; [done|]. intros H. proto_inv.
  unfold is_ascii_lowercase, is_ascii_digit, in_range in *. bool_prop.
  constructor; [unfold in_u8; lia|].
  apply Forall_forall. intros x Hx. rewrite forallb_forall in E0.
  specialize (E0 x (proj1 (list_elem_of_In _ _) Hx)). unfold in_u8. lia.
Qed.

Ltac header_chain :=
  repeat first
    [ eassumption
    | eapply header_at_put_le; [eassumption|lia|]
    | eapply header_at_put; [eassumption|lia|] ].

(** Field goals of a written body: skip the prefix, run the writes back, and
    read zeros where nothing was written. *)
Ltac body_fields size :=
  rewrite ?(fun n => get_le_take n _ size), ?(get_range_take _ size) by lia;
  buf_read; first [done | eapply zero_body_le; [eassumption|lia|lia] | idtac].

Lemma written_intro h m size output out :
  length out = length output -> 64 <= size <= len output ->
  message_type h = type_of m -> header_valid h -> body_valid m ->
  header_at h (handles_of m) size out ->
  (len (take (Z.to_nat size) out) = size -> body_at m (take (Z.to_nat size) out)) ->
  agree out output size (len output) -> (bytes_ok output -> bytes_ok out) ->
  written h m size output out.
Proof.
  intros Hl Hs ? ? ? Hh Hb ? ?.
  assert (len (take (Z.to_nat size) out) = size) as Hlt by (rewrite length_take; lia).
  split; [done|]. split; [|done]. unfold wire. rewrite Hlt. split_and!; [done| |done|by apply Hb|done].
  apply header_at_take; [lia|done].
Qed.

(** Finish an encoder proof after its writes. *)
Ltac encoder_done size :=
  eexists; split; [reflexivity|];
  apply written_intro;
    [ congruence | lia | done | done | done | header_chain
    | let Hlt := fresh in intros Hlt; cbn [body_at]; try split_and!; body_fields size; try lia
    | unfold agree in *; buf_read; assumption
    | let Hb := fresh "Hb" in intros Hb;
      match goal with H : bytes_ok _ -> bytes_ok _ |- _ => apply H in Hb end;
      bytes_ok_puts; done ].

Lemma put_versions_spec vs out base k :
  0 <= base + k * 4 -> 0 <= k ->
  base + k * 4 + len (versions_bytes vs) <= len out -> len out < 2 ^ 63 ->
  put_versions out base vs k = or_panic (put_range out (base + k * 4) (versions_bytes vs)).
Proof.
  revert out k. induction vs as [|v vs IH]; intros out k H0 Hk Hfit Hmax.
  { simpl. by rewrite put_range_nil by (simpl in Hfit; lia). }
  rewrite length_versions_bytes in Hfit. simpl length in Hfit.
  cbn [put_versions versions_bytes]. do 2 proto_write.
  rewrite IH by (rewrite ?length_versions_bytes; lia).
  destruct (proj2 (put_range_is_Some out1 (base + (k + 1) * 4) (versions_bytes vs))) as [out2 Hv];
    [rewrite length_versions_bytes; lia|].
  rewrite Hv. unfold put_le in Hput, Hput0.
  enough (put_range out (base + k * 4)
    (to_le 2 (major v) ++ to_le 2 (minor v) ++ versions_bytes vs) = Some out2) as -> by done.
  eapply put_range_app; [done|]. rewrite length_to_le.
  replace (base + k * 4 + Z.of_nat 2) with (base + 2 + k * 4) by lia.
  eapply put_range_app; [done|]. rewrite length_to_le. rewrite <-Hv. f_equal. lia.
Qed.

Section encoders.
Context (h : Header) (output : list Z) (Hvalid : header_valid h) (Hu64 : header_u64 h).

Lemma encode_empty_spec m :
  message_type h = type_of m ->
  match m with
  | MPublish | MPublished | MRetire | MRetired | MConnected | MEnumerate => True
  | _ => False
  end -> 64 <= len output ->
  exists out, encode_empty h output = Ok (64, out) /\ written h m 64 output out.
Proof.
  intros Ht Hm Hsize. unfold encode_empty, HEADER_BYTES.
  replace (negb _) with false by (rewrite Ht; by destruct m).
  edestruct (encode_header_spec h 0 64 output)
    as (out1 & -> & Hl & Hh & Hz & Ha & Hok); [done|done|lia|lia|lia|]. cbn [res_bind].
  destruct m; try done; encoder_done 64.
Qed.

Lemma encode_generation_changed_spec n :
  message_type h = MtGenerationChanged -> in_u64 n -> 72 <= len output ->
  exists out, encode_generation_changed h n output = Ok (72, out) /\
    written h (MGenerationChanged n) 72 output out.
Proof.
  intros Ht ? Hsize. unfold in_u64 in *. unfold encode_generation_changed. bool_cases.
  edestruct (encode_header_spec h 0 72 output)
    as (out1 & -> & Hl & Hh & Hz & Ha & Hok); [done|done|lia|lia|lia|]. cbn [res_bind].
  proto_write. encoder_done 72.
Qed.

Lemma encode_cancel_spec n m :
  m = MCancel n \/ m = MCancelled n ->
  message_type h = type_of m -> body_valid m -> in_u64 n -> 72 <= len output ->
  exists out, encode_cancel h n output = Ok (72, out) /\ written h m 72 output out.
Proof.
  intros Hm Ht Hbv ? Hsize. unfold in_u64 in *. unfold encode_cancel.
  assert (n <> 0) by by destruct Hm; subst.
  replace (negb _) with false by (rewrite Ht; by destruct Hm; subst). bool_cases.
  edestruct (encode_header_spec h 0 72 output)
    as (out1 & -> & Hl & Hh & Hz & Ha & Hok); [done|done|lia|lia|lia|]. cbn [res_bind].
  proto_write. destruct Hm; subst; encoder_done 72.
Qed.

Lemma encode_error_spec c :
  message_type h = MtError -> 72 <= len output ->
  exists out, encode_error h c output = Ok (72, out) /\ written h (MError c) 72 output out.
Proof.
  intros Ht Hsize. unfold encode_error. bool_cases.
  assert (1 <= error_code_code c <= 13) by by destruct c.
  edestruct (encode_header_spec h 0 72 output)
    as (out1 & -> & Hl & Hh & Hz & Ha & Hok); [done|done|lia|lia|lia|]. cbn [res_bind].
  proto_write. encoder_done 72.
Qed.

Lemma encode_lookup_spec v m :
  m = MLookupConnect v \/ m = MConnectOffer v -> message_type h = type_of m ->
  body_valid m -> body_types m -> 80 + len (lk_service_name v) <= len output ->
  exists out, encode_lookup h v output = Ok (80 + len (lk_service_name v), out) /\
    written h m (80 + len (lk_service_name v)) output out.
Proof.
  intros Hm Ht Hbv Hbt Hsize.
  assert (lk_protocol_id v <> 0 /\ name_valid (lk_service_name v)) as [Hp Hn] by by destruct Hm; subst.
  assert (in_u64 (lk_protocol_id v) /\ version_u16 (lk_version v)) as [? [? ?]] by by destruct Hm; subst.
  pose proof (name_valid_len _ Hn). pose proof (name_valid_bytes_ok _ Hn). unfold in_u64, in_u16 in *.
  unfold encode_lookup.
  replace (negb _) with false by (destruct Hm; subst; by rewrite Ht).
  bool_cases. rewrite Hn. simpl. rewrite checked_add_u64_ok by lia. simpl.
  edestruct (encode_header_spec h 1 (80 + len (lk_service_name v)) output)
    as (out1 & -> & Hl & Hh & Hz & Ha & Hok); [done|done|lia|lia|lia|]. cbn [res_bind].
  do 5 proto_write. destruct Hm; subst m; encoder_done (80 + len (lk_service_name v)).
Qed.

Lemma encode_watch_spec v :
  message_type h = MtWatch -> body_valid (MWatch v) -> body_types (MWatch v) ->
  88 + len (wt_service_name v) <= len output ->
  exists out, encode_watch h v output = Ok (88 + len (wt_service_name v), out) /\
    written h (MWatch v) (88 + len (wt_service_name v)) output out.
Proof.
  intros Ht Hbv [? ?] Hsize. destruct (Hbv) as [? Hn].
  pose proof (name_valid_len _ Hn). pose proof (name_valid_bytes_ok _ Hn). unfold in_u64 in *.
  unfold encode_watch. bool_cases. rewrite Hn. simpl. rewrite checked_add_u64_ok by lia. simpl.
  edestruct (encode_header_spec h 0 (88 + len (wt_service_name v)) output)
    as (out1 & -> & Hl & Hh & Hz & Ha & Hok); [done|done|lia|lia|lia|]. cbn [res_bind].
  do 4 proto_write. encoder_done (88 + len (wt_service_name v)).
Qed.

Lemma encode_install_client_spec v :
  message_type h = MtInstallClient -> body_valid (MInstallClient v) ->
  body_types (MInstallClient v) -> 104 <= len output ->
  exists out, encode_install_client h v output = Ok (104, out) /\
    written h (MInstallClient v) 104 output out.
Proof.
  intros Ht Hbv (?&?&?&?) Hsize. destruct (Hbv) as (?&?&?&?). unfold in_u64 in *.
  unfold encode_install_client. bool_cases.
  edestruct (encode_header_spec h 1 104 output)
    as (out1 & -> & Hl & Hh & Hz & Ha & Hok); [done|done|lia|lia|lia|]. cbn [res_bind].
  fold (scope_code (ic_scope v)). assert (0 <= scope_code (ic_scope v) <= 1) by by destruct (ic_scope v).
  do 5 proto_write. encoder_done 104.
Qed.

Lemma encode_install_publication_spec v :
  message_type h = MtInstallPublication -> body_valid (MInstallPublication v) ->
  body_types (MInstallPublication v) -> len output < 2 ^ 63 ->
  let size := 120 + len (vl_bytes (ip_versions v)) + len (ip_service_name v) in
  size <= len output ->
  exists out,
    encode_install_publication h (ip_endpoint_id v) (ip_endpoint_generation v)
      (ip_supervisor_role_id v) (ip_publication_id v) (ip_service_generation v)
      (ip_protocol_id v) (decode_versions (vl_bytes (ip_versions v))) (ip_service_name v) output
      = Ok (size, out) /\ written h (MInstallPublication v) size output out.
Proof.
  intros Ht Hbv (?&?&?&?&?&?&Htb) Hmax size Hsize. subst size.
  destruct (Hbv) as (?&?&?&?&?&?&Hvl&Hn&n&Hn4&Htl).
  pose proof (name_valid_len _ Hn). pose proof (name_valid_bytes_ok _ Hn).
  unfold in_u64, in_u32 in *.
  destruct (bytes_decode_versions (Z.to_nat n) (vl_bytes (ip_versions v))) as (Hb & Hu & Hln);
    [done|lia|].
  remember (decode_versions (vl_bytes (ip_versions v))) as vs eqn:Evs. clear Evs.
  assert (validate_versions vs = Ok tt) as Hvs.
  { unfold validate_versions, MAX_PROTOCOL_VERSIONS.
    rewrite bool_decide_eq_false_2 by (intros ->; simpl in Hln; lia).
    destruct (Z.gtb_spec (len vs) 4); [lia|]. simpl orb. cbv iota.
    rewrite <-validate_version_list_bytes, Hb by (done || lia). by destruct (ip_versions v). }
  unfold encode_install_publication. bool_cases.
  rewrite Hn. simpl. rewrite Hvs. simpl.
  rewrite checked_mul_u64_ok by lia. simpl. rewrite !checked_add_u64_ok by lia. simpl.
  rewrite !checked_add_u64_ok by lia. simpl.
  replace (120 + len vs * 4 + len (ip_service_name v))
    with (120 + len (vl_bytes (ip_versions v)) + len (ip_service_name v)) by lia.
  edestruct (encode_header_spec h 1
    (120 + len (vl_bytes (ip_versions v)) + len (ip_service_name v)) output)
    as (out1 & -> & Hl & Hh & Hz & Ha & Hok); [done|done|lia|lia|lia|]. cbn [res_bind].
  do 8 proto_write. rewrite put_versions_spec by (rewrite ?Hb; lia). rewrite Hb.
  change (120 + 0 * 4) with 120. do 2 proto_write.
  replace (120 + len vs * 4) with (120 + len (vl_bytes (ip_versions v))) in Hput8 by lia.
  assert (len vs = len (vl_bytes (ip_versions v)) / 4) as Hq.
  { rewrite Htl, Z.mul_comm, Z.div_mul by lia. lia. }
  encoder_done (120 + len (vl_bytes (ip_versions v)) + len (ip_service_name v)). by rewrite Hq.
Qed.

End encoders.

(** ** All encoders at once *)

(** The records a page shows. *)
Definition page_records (p : ServiceListPage) : list ServiceListRecord := omap (page_record p) (seqZ 0 (pg_record_count p)).

(** The encoder the library offers for each kind of message; a page is written from
    its records. *)
Definition encode_message (oc : bool) (h : Header) (m : Message) (output : list Z) : res Error (Z * list Z) :=
  match m with
  | MInstallPublication v =>
      encode_install_publication h (ip_endpoint_id v) (ip_endpoint_generation v)
        (ip_supervisor_role_id v) (ip_publication_id v) (ip_service_generation v)
        (ip_protocol_id v) (decode_versions (vl_bytes (ip_versions v))) (ip_service_name v) output
  | MInstallClient v => encode_install_client h v output
  | MLookupConnect v | MConnectOffer v => encode_lookup h v output
  | MWatch v => encode_watch h v output
  | MGenerationChanged n => encode_generation_changed h n output
  | MCancel n | MCancelled n => encode_cancel h n output
  | MError c => encode_error h c output
  | MServiceList p =>
      encode_service_list oc h (pg_page_index p) (pg_page_count p) (pg_total_count p) (page_records p) output
  | _ => encode_empty h output
  end.

Definition message_size (m : Message) : Z :=
  match m with
  | MInstallPublication v => 120 + len (vl_bytes (ip_versions v)) + len (ip_service_name v)
  | MInstallClient _ => 104
  | MLookupConnect v | MConnectOffer v => 80 + len (lk_service_name v)
  | MWatch v => 88 + len (wt_service_name v)
  | MGenerationChanged _ | MCancel _ | MCancelled _ | MError _ => 72
  | _ => 64
  end.

Lemma encode_message_spec oc h m output :
  header_valid h -> header_u64 h -> message_type h = type_of m ->
  body_valid m -> body_types m -> message_size m <= len output -> len output < 2 ^ 63 ->
  exists out, encode_message oc h m output = Ok (message_size m, out) /\
    written h m (message_size m) output out.
Proof.
  intros Hv Hu Ht Hbv Hbt Hs Hmax.
  destruct m; cbn [encode_message message_size type_of] in *; try done;
    first [ by apply encode_install_publication_spec | by apply encode_install_client_spec
          | by apply encode_empty_spec | by apply encode_watch_spec
          | by apply encode_generation_changed_spec | by apply encode_error_spec
          | eapply encode_lookup_spec; eauto; fail
          | eapply encode_cancel_spec; eauto; fail ].
Qed.

(** ** The format determines the datagram *)

Lemma body_at_size m bytes : body_at m bytes -> len bytes = message_size m.
Proof. destruct m; cbn [body_at message_size]; tauto. Qed.

(** Extend an agreement of two buffers by the fields that follow it. *)
Ltac agree_step :=
  match goal with
  | H : agree ?b1 ?b2 0 ?a, H1 : get_le ?n ?b1 ?a = Some ?v, H2 : get_le ?n ?b2 ?a = Some ?v |- _ =>
      let c := eval cbv in (a + Z.of_nat n) in
      assert (agree b1 b2 0 c);
      [ apply (agree_snoc _ _ a c H); [refine (agree_le n b1 b2 a v _ _ H1 H2); assumption|..]; lia | clear H H1 H2 ]
  | H : agree ?b1 ?b2 0 ?a, H1 : get_range ?b1 ?a ?c = Some ?v,
    H2 : get_range ?b2 ?a ?c = Some ?v |- _ =>
      assert (agree b1 b2 0 c);
      [ eapply agree_snoc; [exact H|by apply (agree_Some _ _ _ _ v)|..];
        pose proof (length_get_range _ _ _ _ H1);
        pose proof (proj1 (get_range_is_Some b1 a c) (ltac:(by eexists))); lia
      | clear H H1 H2 ]
  end.

Lemma wire_inj h m b1 b2 :
  bytes_ok b1 -> bytes_ok b2 -> wire h m b1 -> wire h m b2 -> b1 = b2.
Proof.
  intros Hok1 Hok2 (_ & Hh1 & _ & Hb1 & _) (_ & Hh2 & _ & Hb2 & _).
  pose proof (body_at_size _ _ Hb1) as Hl1. pose proof (body_at_size _ _ Hb2) as Hl2.
  pose proof (body_at_len _ _ Hb1).
  assert (len b1 = len b2) as Hl by congruence. rewrite Hl in Hh1.
  assert (length b1 = length b2) by lia. apply agree_full; [done|].
  assert (agree b1 b2 0 0) as Ha.
  { unfold agree, get_range. change (0 + 0) with 0. bool_cases. done. }
  destruct Hh1 as (?&?&?&?&?&?&?&?&?&?&?&?), Hh2 as (?&?&?&?&?&?&?&?&?&?&?&?).
  repeat agree_step.
  destruct m; cbn [body_at message_size] in *; destruct_and?; try done; rewrite Hl1;
    repeat agree_step; done.
Qed.

Lemma wire_types h m bytes :
  bytes_ok bytes -> wire h m bytes -> header_u64 h /\ body_types m.
Proof.
  intros Hok (_ & Hh & _ & Hb & _). split.
  - destruct Hh as (?&?&?&?&?&?&?&?&?&?&?&?).
    split_and!; by eapply (get_le_bound 8).
  - destruct m; cbn [body_at body_types] in *; destruct_and?; try done; try split_and!;
      first [by eapply (get_le_bound 8) | by eapply (get_le_bound 4)
            | split; by eapply (get_le_bound 2) | by eapply bytes_ok_get_range].
Qed.

Lemma parse_message_type oc t bytes n m : parse_message oc t bytes n = Ok m -> type_of m = t.
Proof.
  unfold parse_message, exact_header. intros H.
  destruct t; repeat res_step; subst; done.
Qed.

Lemma parse_type oc bytes n h m :
  parse oc bytes n = Ok (mkParsedMessage h m) -> type_of m = message_type h.
Proof.
  unfold parse. intros H. repeat res_step. simplify_eq.
  by eapply parse_message_type.
Qed.

(** Whatever the encoder of a message other than a page writes, [parse] gives back;
    the bytes of the buffer after the datagram are left as they were. *)
Lemma message_round_trip oc h m output :
  header_valid h -> header_u64 h -> message_type h = type_of m ->
  body_valid m -> body_types m -> message_size m <= len output -> len output < 2 ^ 63 ->
  exists out, encode_message oc h m output = Ok (message_size m, out) /\
    parse oc (take (Z.to_nat (message_size m)) out) (handles_of m)
      = Ok (mkParsedMessage h m) /\
    length out = length output /\ agree out output (message_size m) (len output).
Proof.
  intros ??????? . destruct (encode_message_spec oc h m output) as (out & He & Hl & Hw & Ha & _);
    [done..|].
  exists out. split_and!; [done| |done|done].
  apply parse_spec; [|done]. by intros p ->.
Qed.

(** the format is canonical: a datagram [parse] accepts (other than a
    service list) is byte for byte what the encoder of its message writes for
    the header and message returned. *)
Theorem wrrg_canonical oc bytes n h m output :
  bytes_ok bytes -> bytes_ok output -> len bytes <= len output -> len output < 2 ^ 63 ->
  message_type h <> MtServiceList ->
  parse oc bytes n = Ok (mkParsedMessage h m) ->
  exists out, encode_message oc h m output = Ok (len bytes, out) /\
    take (length bytes) out = bytes.
Proof.
  intros Hok Hok' Hlen Hmax Hns Hp.
  assert (forall p, m <> MServiceList p) as Hm.
  { intros p ->. apply parse_type in Hp. simpl in Hp. congruence. }
  apply parse_spec in Hp as [Hw _]; [|done].
  destruct (wire_types _ _ _ Hok Hw) as [? ?]. destruct (Hw) as (? & _ & ? & Hb & ?).
  pose proof (body_at_size _ _ Hb) as Hsize.
  destruct (encode_message_spec oc h m output) as (out & He & Hl & Hw' & Ha & Hout);
    [done..|lia|done|].
  exists out. rewrite Hsize. split; [done|]. rewrite <-Hsize, Nat2Z.id in Hw'.
  eapply wire_inj; [|done|done|done]. by apply Forall_take, Hout.
Qed.

(** A lookup of service ["a"], protocol 17, version 1.0. *)
Definition sample_header : Header := mkHeader MtLookupConnect 7 1 1 50.
Definition sample_message : Message := MLookupConnect (mkLookup 17 (mkVersion 1 0) [97]).
Definition sample_bytes : list Z :=
  match encode_message false sample_header sample_message (replicate 81 0) with
  | Ok (_, out) => out
  | _ => []
  end.

Lemma wrrg_canonical_witness :
  exists out, encode_message false sample_header sample_message (replicate 90 0) = Ok (81, out) /\
    take (length sample_bytes) out = sample_bytes.
Proof.
  apply (wrrg_canonical false sample_bytes 1 sample_header sample_message (replicate 90 0)).
  - apply (bool_decide_unpack _). vm_compute. exact I.
  - apply bytes_ok_replicate_0.
  - vm_compute. discriminate.
  - vm_compute. reflexivity.
  - discriminate.
  - vm_compute. reflexivity.
Defined.

(** ** Absence of panics *)

Section no_panic.
Implicit Types (bytes : list Z) (o : Z).

Lemma read_u16_np bytes o : read_u16 bytes o <> Panic.
Proof. apply ok_or_not_panic. Qed.
Lemma read_u32_np bytes o : read_u32 bytes o <> Panic.
Proof. unfold read_u32. no_panic. Qed.
Lemma read_u64_np bytes o : read_u64 bytes o <> Panic.
Proof. unfold read_u64. no_panic. Qed.
Lemma read_u16_bound bytes o v : bytes_ok bytes -> read_u16 bytes o = Ok v -> in_u16 v.
Proof.
  unfold read_u16, get_u16. intros Hok H. res_inv. case_match; [|done].
  by apply (get_le_bound 2 bytes o v Hok).
Qed.
Lemma validate_name_np name : validate_name name <> Panic.
Proof. unfold validate_name. destruct name; no_panic. Qed.
Lemma require_size_np bytes n : require_size bytes n <> Panic.
Proof. unfold require_size. no_panic. Qed.
Lemma require_handles_np n k : require_handles n k <> Panic.
Proof. unfold require_handles. no_panic. Qed.

Lemma validate_version_list_from_np vs count index prev :
  validate_version_list_from vs count index prev <> Panic.
Proof.
  revert index prev. induction count as [|count IH]; intros index prev; simpl; [done|].
  no_panic. apply IH.
Qed.
Lemma validate_version_list_np vs : validate_version_list vs <> Panic.
Proof. apply validate_version_list_from_np. Qed.

Lemma check_record_versions_np bytes base count slots version prev :
  check_record_versions bytes base count slots version prev <> Panic.
Proof.
  revert version prev. induction slots as [|slots IH]; intros version prev; simpl; [done|].
  no_panic; first [apply read_u16_np | apply IH].
Qed.

Lemma validate_page_shape_np index count total records :
  validate_page_shape false index count total records <> Panic.
Proof. unfold validate_page_shape, sub_unsigned, add_unsigned. cbv zeta. no_panic. Qed.

Lemma message_type_parse_np v : message_type_parse v <> Panic.
Proof. unfold message_type_parse. repeat case_match; done. Qed.
Lemma error_code_parse_np v : error_code_parse v <> Panic.
Proof. unfold error_code_parse. repeat case_match; done. Qed.
End no_panic.

#[export] Hint Resolve read_u16_np read_u32_np read_u64_np validate_name_np require_size_np
  require_handles_np validate_version_list_np check_record_versions_np validate_page_shape_np
  message_type_parse_np error_code_parse_np : wyr.

(** Run [no_panic], the library's no-panic facts, then arithmetic for the
    slices. *)
Ltac proto_np :=
  no_panic; try (by auto with wyr); bool_prop;
  repeat match goal with
  | H : ok_or _ _ = Ok _ |- _ => apply ok_or_Ok in H
  | H : checked_add_u64 _ _ = Some _ |- _ => apply checked_add_Some in H as [? ?]
  | H : checked_mul_u64 _ _ = Some _ |- _ => apply checked_mul_Some in H as [? ?]
  end.

Lemma get_at_np {E A} (bs : list A) i : 0 <= i < len bs -> or_panic (E:=E) (get_at bs i) <> Panic.
Proof. intros. by apply or_panic_not_panic, get_at_is_Some. Qed.

Lemma check_records_np bytes count index prev :
  0 <= index -> 80 + (index + Z.of_nat count) * 168 <= len bytes ->
  check_records bytes count index prev <> Panic.
Proof.
  revert index prev. induction count as [|count IH]; intros index prev Hi Hl; [done|].
  cbn [check_records]. unfold SERVICE_LIST_PREFIX_BYTES, SERVICE_LIST_RECORD_BYTES,
    MAX_SERVICE_NAME_BYTES, in_range in *.
  proto_np; try (apply get_at_np; lia); try (split; lia).
  apply IH; lia.
Qed.

Lemma parse_header_np bytes : parse_header bytes <> Panic.
Proof. unfold parse_header, HEADER_BYTES. cbv zeta. proto_np; lia. Qed.

Lemma parse_lookup_np bytes : parse_lookup bytes <> Panic.
Proof. unfold parse_lookup, get_from. proto_np; lia. Qed.

Lemma parse_watch_np bytes : parse_watch bytes <> Panic.
Proof. unfold parse_watch, get_from. proto_np; lia. Qed.

Lemma parse_install_client_np bytes : parse_install_client bytes <> Panic.
Proof. unfold parse_install_client. cbv zeta. proto_np; repeat case_match; done. Qed.

Lemma parse_install_publication_np bytes :
  bytes_ok bytes -> parse_install_publication bytes <> Panic.
Proof.
  intros Hok. unfold parse_install_publication, get_from, in_range. cbv zeta. proto_np.
  all: match goal with H : read_u16 _ 114 = Ok _ |- _ =>
    apply (read_u16_bound _ _ _ Hok) in H; unfold in_u16 in H end; lia.
Qed.

Lemma parse_service_list_np bytes : bytes_ok bytes -> parse_service_list false bytes <> Panic.
Proof.
  intros Hok. unfold parse_service_list. proto_np.
  apply check_records_np; [lia|].
  match goal with H : read_u16 bytes 68 = Ok _ |- _ =>
    apply (read_u16_bound _ _ _ Hok) in H end.
  unfold in_u16, SERVICE_LIST_PREFIX_BYTES, SERVICE_LIST_RECORD_BYTES in *. lia.
Qed.

(** in a release build [parse] returns [Ok] or [Err] on every byte string,
    with any handle count: no index is out of range and nothing else panics. *)
Theorem wrrg_parse_no_panic bytes n : bytes_ok bytes -> parse false bytes n <> Panic.
Proof.
  intros Hok. unfold parse. proto_np; [apply parse_header_np|].
  unfold parse_message, exact_header. destruct (message_type _); proto_np.
  all: first [ apply parse_lookup_np | apply parse_watch_np | apply parse_install_client_np
             | by apply parse_install_publication_np | by apply parse_service_list_np ].
Qed.

Lemma wrrg_parse_no_panic_witness : parse false sample_bytes 1 <> Panic.
Proof.
  apply (wrrg_parse_no_panic sample_bytes 1). apply (bool_decide_unpack _). vm_compute. exact I.
Defined.

(** ** Two inputs the two sides of the protocol treat differently *)

(** A page that claims one service in five pages and is the last of them:
    [total_count - 2 * (page_count - 1)] is negative. *)
Definition hostile_page : list Z :=
  match encode_header (mkHeader MtServiceList 1 1 1 1) 0 80 (replicate 80 0) with
  | Ok out => take 64 out ++ to_le 2 4 ++ to_le 2 5 ++ to_le 2 0 ++ to_le 2 1 ++ replicate 8 0
  | _ => []
  end.

(** The page-shape subtraction runs before the page count is compared: with
    overflow checks compiled in (debug and test builds) this datagram stops the
    receiver; without them it is refused. *)
Lemma hostile_page_overflows :
  parse true hostile_page 0 = Panic /\ parse false hostile_page 0 = Err InvalidServiceList.
Proof. split; vm_compute; reflexivity. Qed.

Definition half_endpoint_bytes : list Z :=
  match encode_header (mkHeader MtPublish 7 0 3 1) 0 64 (replicate 64 0) with
  | Ok out => out
  | _ => []
  end.

(** [encode_header] accepts a header that names half an endpoint; [parse]
    refuses the datagram it writes. *)
Lemma half_endpoint_header :
  encode_header (mkHeader MtPublish 7 0 3 1) 0 64 (replicate 64 0) = Ok half_endpoint_bytes /\
  parse false half_endpoint_bytes 0 = Err WrongEndpointScope.
Proof. split; vm_compute; reflexivity. Qed.
