(* ===== verification/RegistryPages.v ===== *)
(** * WRRG pages of the service list, and the round trip of every encoder

    A page is written from its records and read back as a view of the datagram, whose
    accessors give the records again.  With the other messages ([RegistryCodec]) this
    is the round trip of the whole protocol. *)

From stdpp Require Import base tactics option list list_numbers.
From Stdlib Require Import ZArith Lia.
From S2P Require Import Prelude Bytes Utf8 RegistryProto RegistryWire RegistryCodec.
Import RegistryProto.

(** ** What a page may hold *)

(** [total] services come two to a page, the last page with the rest; no services are
    one empty page. *)
Definition page_shape (index count total records : Z) : Prop :=
  0 <= index < count /\ 0 <= total <= MAX_SERVICES /\
  (if total =? 0 then count = 1 /\ records = 0 else count = (total + 1) / 2 /\ records = Z.min 2 (total - 2 * index)).

Definition record_valid (r : ServiceListRecord) : Prop :=
  sr_protocol_id r <> 0 /\ sr_service_generation r <> 0 /\ name_valid (sr_service_name r) /\
  1 <= sr_version_count r <= MAX_PROTOCOL_VERSIONS /\
  validate_versions (take (Z.to_nat (sr_version_count r)) (sr_versions r)) = Ok tt.
(** Values of the Rust types. *)
Definition record_types (r : ServiceListRecord) : Prop :=
  in_u64 (sr_protocol_id r) /\ in_u64 (sr_service_generation r) /\ length (sr_versions r) = 4%nat /\ Forall version_u16 (sr_versions r).

(** The names increase, from [previous] on. *)
Fixpoint names_increase (previous : option (list Z)) (rs : list ServiceListRecord) : Prop :=
  match rs with
  | [] => True
  | r :: rs =>
      match previous with Some name => bytes_lt name (sr_service_name r) | None => True end /\
      names_increase (Some (sr_service_name r)) rs
  end.

(** The unused slots of a version array do not travel. *)
Definition used_versions (r : ServiceListRecord) : list ProtocolVersion := take (Z.to_nat (sr_version_count r)) (sr_versions r).
Definition slots (r : ServiceListRecord) : list ProtocolVersion :=
  used_versions r ++ replicate (4 - length (used_versions r)) default_version.
Definition normal (r : ServiceListRecord) : ServiceListRecord :=
  mkServiceListRecord (sr_protocol_id r) (sr_service_generation r) (slots r) (sr_version_count r) (sr_service_name r).

Lemma page_shape_accepted oc index count total records :
  page_shape index count total records -> validate_page_shape oc index count total records = Ok tt.
Proof.
  intros (Hi & Ht & Hs). unfold validate_page_shape, div_ceil2, add_unsigned, sub_unsigned, MAX_SERVICES in *. cbv zeta.
  destruct (Z.eqb_spec total 0) as [->|Hn].
  { destruct Hs as [-> ->]. done. }
  destruct Hs as [-> ->]. assert ((total + 1) / 2 = total / 2 + total mod 2) as Hc.
  { pose proof (Z.div_mod total 2 ltac:(lia)). pose proof (Z.mod_pos_bound total 2 ltac:(lia)). pose proof (Z.div_mod (total + 1) 2 ltac:(lia)).
    pose proof (Z.mod_pos_bound (total + 1) 2 ltac:(lia)). lia. }
  rewrite Hc in *. pose proof (Z.div_mod total 2 ltac:(lia)). pose proof (Z.mod_pos_bound total 2 ltac:(lia)).
  clear Hc. set (q := total / 2) in *. set (m := total mod 2) in *. clearbody q m.
  rewrite (proj2 (Z.ltb_lt (index + 1) (2 ^ 16))) by lia. cbn [res_bind]. destruct (Z.ltb_spec (index + 1) (q + m)) as [Hl|Hl]; cbn [res_bind].
  - rewrite Z.eqb_refl, (proj2 (Z.eqb_eq _ _)) by lia. done.
  - rewrite (proj2 (Z.leb_le 1 (q + m))) by lia. cbn [res_bind]. rewrite (proj2 (Z.ltb_lt (2 * (q + m - 1)) (2 ^ 16))) by lia. cbn [res_bind].
    rewrite (proj2 (Z.leb_le (2 * (q + m - 1)) total)) by lia. cbn [res_bind]. rewrite Z.eqb_refl, (proj2 (Z.eqb_eq _ _)) by lia. done.
Qed.

(** ** A record in the datagram *)

Definition base_of (index : Z) : Z := 80 + index * 168.
Definition record_at (r : ServiceListRecord) (base : Z) (bytes : list Z) : Prop :=
  get_le 8 bytes base = Some (sr_protocol_id r) /\ get_le 8 bytes (base + 8) = Some (sr_service_generation r) /\
  get_le 2 bytes (base + 16) = Some (len (sr_service_name r)) /\ get_range bytes (base + 18) (base + 19) = Some [sr_version_count r] /\
  get_range bytes (base + 19) (base + 24) = Some (replicate 5 0) /\
  get_range bytes (base + 24) (base + 40) = Some (versions_bytes (slots r)) /\
  get_range bytes (base + 40) (base + 40 + len (sr_service_name r)) = Some (sr_service_name r) /\
  get_range bytes (base + 40 + len (sr_service_name r)) (base + 168) = Some (replicate (128 - length (sr_service_name r)) 0).
Fixpoint records_at (rs : list ServiceListRecord) (index : Z) (bytes : list Z) : Prop :=
  match rs with
  | [] => True
  | r :: rs => record_at r (base_of index) bytes /\ records_at rs (index + 1) bytes
  end.

(** Parts of ranges that agree. *)
Lemma agree_part (b1 b2 : list Z) a b c d x : agree b1 b2 a b -> 0 <= a -> a <= c <= d -> d <= b -> b <= len b1 ->
  get_range b1 c d = Some x -> get_range b2 c d = Some x.
Proof.
  unfold agree. intros Ha H0 Hcd Hd Hl Hx. destruct (proj2 (get_range_is_Some b1 a b) ltac:(lia)) as [v Hv]. rewrite Hv in Ha. symmetry in Ha.
  destruct (get_range_split _ a c b v Hv) as (v1 & v2 & H1 & H2 & ->); [lia|]. destruct (get_range_split _ a c b _ Ha) as (w1 & w2 & G1 & G2 & Hw); [lia|].
  destruct (get_range_split _ c d b v2 H2) as (v3 & v4 & H3 & H4 & ->); [lia|]. destruct (get_range_split _ c d b _ G2) as (w3 & w4 & G3 & G4 & ->); [lia|].
  pose proof (length_get_range _ _ _ _ H1). pose proof (length_get_range _ _ _ _ G1). pose proof (length_get_range _ _ _ _ H3). pose proof (length_get_range _ _ _ _ G3).
  apply app_inj_1 in Hw as [_ Hw]; [|lia]. apply app_inj_1 in Hw as [-> _]; [|lia]. congruence.
Qed.
(** A record depends on its bytes only. *)
Lemma record_at_agree r base b1 b2 : agree b1 b2 base (base + 168) -> 0 <= base -> base + 168 <= len b1 -> 1 <= len (sr_service_name r) <= 128 ->
  record_at r base b1 -> record_at r base b2.
Proof.
  intros Ha H0 Hl Hn (H1 & H2 & H3 & H4 & H5 & H6 & H7 & H8). unfold record_at, get_le in *. change (Z.of_nat 8) with 8 in *. change (Z.of_nat 2) with 2 in *.
  assert (forall c d x, base <= c <= d -> d <= base + 168 -> get_range b1 c d = Some x -> get_range b2 c d = Some x) as Hpart by (intros; eapply agree_part; eauto).
  apply fmap_Some in H1 as (x1 & H1 & ->), H2 as (x2 & H2 & ->), H3 as (x3 & H3 & E3).
  split_and!; [rewrite (Hpart base (base + 8) x1) by (done || lia)|rewrite (Hpart (base + 8) (base + 8 + 8) x2) by (done || lia)
    |rewrite (Hpart (base + 16) (base + 16 + 2) x3) by (done || lia); rewrite E3|apply Hpart; (done || lia)..]; done.
Qed.

(** ** Writing the records *)

Lemma used_versions_length r : record_valid r -> record_types r -> len (used_versions r) = sr_version_count r /\ (length (slots r) = 4)%nat.
Proof.
  intros (_ & _ & _ & Hc & _) (_ & _ & H4 & _). unfold slots. rewrite length_app, length_replicate. unfold used_versions, MAX_PROTOCOL_VERSIONS in *. rewrite length_take. lia.
Qed.
Lemma default_versions_bytes n : versions_bytes (replicate n default_version) = replicate (4 * n) 0.
Proof. induction n as [|n IH]; [done|]. replace (4 * S n)%nat with (4 + 4 * n)%nat by lia. rewrite replicate_add. cbn [replicate versions_bytes]. by rewrite IH. Qed.
Lemma versions_bytes_app xs ys : versions_bytes (xs ++ ys) = versions_bytes xs ++ versions_bytes ys.
Proof. induction xs as [|x xs IH]; [done|]. cbn [app versions_bytes]. by rewrite IH, <-!(assoc_L (++)). Qed.

(** Zeros from [a] to [b]. *)
Definition blank (out : list Z) (a b : Z) : Prop := forall c d, a <= c <= d -> d <= b -> get_range out c d = Some (replicate (Z.to_nat (d - c)) 0).

Lemma put_record r out base : record_valid r -> record_types r -> 0 <= base -> base + 168 <= len out -> len out < 2 ^ 63 -> blank out base (base + 168) ->
  exists out', (let! out := put_u64 out base (sr_protocol_id r) in
      let! out := put_u64 out (base + 8) (sr_service_generation r) in
      let! out := put_u16 out (base + 16) (len (sr_service_name r)) in
      let! out := or_panic (put_range out (base + 18) [sr_version_count r]) in
      let! out := put_versions out (base + 24) (used_versions r) 0 in
      or_panic (put_range out (base + 40) (sr_service_name r))) = Ok out' /\
    length out' = length out /\ record_at r base out' /\
    (forall c d, d <= base \/ base + 168 <= c -> agree out' out c d) /\ (bytes_ok out -> bytes_ok out').
Proof.
  intros Hv Ht H0 Hl Hmax Hz. destruct (used_versions_length r Hv Ht) as [Hu Hs]. destruct Hv as (_ & _ & Hn & Hc & _). destruct Ht as (Hp & Hg & _ & _).
  pose proof (name_valid_len _ Hn). pose proof (name_valid_bytes_ok _ Hn). unfold in_u64, MAX_PROTOCOL_VERSIONS in *. pose proof (length_versions_bytes (used_versions r)) as Hvb.
  do 4 proto_write. rewrite put_versions_spec by lia. replace (base + 24 + 0 * 4) with (base + 24) by lia. do 2 proto_write.
  eexists. split; [reflexivity|]. split; [congruence|]. split; [|split].
  - unfold record_at. split_and!; buf_read; try done.
    + rewrite Hz by lia. do 2 f_equal. lia.
    + unfold slots. rewrite versions_bytes_app, default_versions_bytes. apply (range_join _ _ _ _ (base + 24 + len (versions_bytes (used_versions r)))); buf_read; [done|].
      rewrite Hz by lia. do 2 f_equal. lia.
    + rewrite Hz by lia. do 2 f_equal. lia.
  - intros c d Hcd. unfold agree. buf_read. done.
  - intros Hb. pose proof (versions_bytes_ok (used_versions r)). assert (bytes_ok [sr_version_count r]) by (constructor; [unfold in_u8; lia|constructor]).
    bytes_ok_puts. done.
Qed.

Definition records_ok (rs : list ServiceListRecord) : Prop := Forall record_valid rs /\ Forall record_types rs.

Lemma record_name_len r : record_valid r -> 1 <= len (sr_service_name r) <= 128.
Proof. intros (_ & _ & Hn & _). by apply name_valid_len. Qed.
Lemma get_used_versions r : record_valid r -> record_types r -> get_range (sr_versions r) 0 (sr_version_count r) = Some (used_versions r).
Proof.
  intros (_ & _ & _ & Hc & _) (_ & _ & H4 & _). unfold MAX_PROTOCOL_VERSIONS in *. apply get_range_Some. rewrite Z.sub_0_r. split_and!; [lia..|done].
Qed.

Lemma records_at_agree rs : forall index b1 b2, records_ok rs -> 0 <= index -> base_of (index + len rs) <= len b1 ->
  agree b1 b2 (base_of index) (base_of (index + len rs)) -> records_at rs index b1 -> records_at rs index b2.
Proof.
  unfold base_of. induction rs as [|r rs IH]; intros index b1 b2 [Hv Ht] Hi Hl Ha H; [done|]. cbn [length] in *. apply Forall_cons in Hv as [Hv Hvs], Ht as [Ht Hts].
  pose proof (record_name_len _ Hv). destruct (proj2 (get_range_is_Some b1 (80 + index * 168) (80 + (index + Z.of_nat (S (length rs))) * 168)) ltac:(lia)) as [v Hall].
  destruct H as [Hr Hrs]. unfold agree in Ha. rewrite Hall in Ha. symmetry in Ha. split.
  - apply (record_at_agree r _ b1); unfold base_of; try done; try lia. destruct (get_range_split _ _ (80 + index * 168 + 168) _ _ Hall) as (x & y & Hx & _); [lia|].
    eapply agree_Some; [exact Hx|]. by apply (agree_part b1 b2 (80 + index * 168) (80 + (index + Z.of_nat (S (length rs))) * 168)); [eapply agree_Some|lia..|].
  - apply (IH (index + 1) b1); [done|lia|lia| |done]. destruct (get_range_split _ _ (80 + (index + 1) * 168) _ _ Hall) as (x & y & _ & Hy & _); [lia|].
    replace (index + 1 + len rs) with (index + Z.of_nat (S (length rs))) by lia. eapply agree_Some; [exact Hy|].
    by apply (agree_part b1 b2 (80 + index * 168) (80 + (index + Z.of_nat (S (length rs))) * 168)); [eapply agree_Some|lia..|].
Qed.

Lemma put_records_spec rs : forall out index previous, records_ok rs -> names_increase previous rs -> 0 <= index ->
  base_of (index + len rs) <= len out -> len out < 2 ^ 63 -> blank out (base_of index) (base_of (index + len rs)) ->
  exists out', put_records out rs index previous = Ok out' /\ length out' = length out /\ records_at rs index out' /\
    (forall c d, d <= base_of index \/ base_of (index + len rs) <= c -> agree out' out c d) /\ (bytes_ok out -> bytes_ok out').
Proof.
  induction rs as [|r rs IH]; intros out index previous [Hv Ht] Hinc Hi Hl Hmax Hz; [by exists out|].
  apply Forall_cons in Hv as [Hv Hvs], Ht as [Ht Hts]. destruct Hinc as [Hprev Hinc]. cbn [length] in *. unfold base_of in *.
  destruct (put_record r out (80 + index * 168) Hv Ht) as (out1 & Hput & Hl1 & Hr1 & Ha1 & Hb1); [lia|lia|done|intros c d Hcd Hd; apply Hz; lia|].
  destruct (IH out1 (index + 1) (Some (sr_service_name r))) as (out2 & Hput2 & Hl2 & Hr2 & Ha2 & Hb2); [done|done|lia|lia|lia| |].
  { intros c d Hcd Hd. rewrite (Ha1 c d) by lia. apply Hz; lia. }
  exists out2. split; [|split; [congruence|split; [split|split]]].
  - cbn [put_records]. destruct (Hv) as (Hp & Hg & Hn & Hc & Hvs'). rewrite (proj2 (Z.eqb_neq _ _) Hp), (proj2 (Z.eqb_neq _ _) Hg). cbn [orb].
    rewrite Hn. cbn [res_bind]. rewrite (get_used_versions r) by done. cbn [ok_or res_bind]. fold (used_versions r) in Hvs'. rewrite Hvs'. cbn [res_bind].
    replace (match previous with Some name => bytes_geb name (sr_service_name r) | None => false end) with false.
    2: { destruct previous as [name|]; [|done]. unfold bytes_geb. by rewrite (proj2 (bytes_ltb_lt _ _) Hprev). }
    unfold SERVICE_LIST_PREFIX_BYTES, SERVICE_LIST_RECORD_BYTES. fold (used_versions r). revert Hput. rewrite <-Hput2. clear.
    repeat match goal with |- context [res_bind ?c _] => destruct c; cbn [res_bind]; try discriminate end. by intros [= ->].
  - apply (record_at_agree r _ out1); unfold base_of; try lia; [|by apply record_name_len|done]. symmetry. apply Ha2. lia.
  - by replace (index + 1) with (index + 1) by lia.
  - intros c d Hcd. unfold agree in *. rewrite Ha2 by lia. apply Ha1. lia.
  - auto.
Qed.

(** ** Reading a record *)

Lemma versions_read vs : forall bytes a, Forall version_u16 vs -> get_range bytes a (a + len (versions_bytes vs)) = Some (versions_bytes vs) ->
  forall k v, vs !! k = Some v -> get_le 2 bytes (a + 4 * Z.of_nat k) = Some (major v) /\ get_le 2 bytes (a + 4 * Z.of_nat k + 2) = Some (minor v).
Proof.
  induction vs as [|w vs IH]; intros bytes a Hok Hr k v Hk; [done|]. apply Forall_cons in Hok as [[Hmj Hmn] Hok].
  pose proof (length_versions_bytes vs) as Hl. pose proof (length_versions_bytes (w :: vs)) as Hlw. cbn [length] in Hlw. rewrite Hlw in Hr. cbn [versions_bytes] in Hr.
  destruct (get_range_split _ a (a + 2) _ _ Hr) as (x & y & Hx & Hy & Hxy); [lia|]. destruct (get_range_split _ (a + 2) (a + 4) _ _ Hy) as (z & t & Hz & Ht & ->); [lia|].
  pose proof (length_get_range _ _ _ _ Hx). pose proof (length_get_range _ _ _ _ Hz).
  apply app_inj_1 in Hxy as [<- Hxy]; [|rewrite length_to_le; lia]. apply app_inj_1 in Hxy as [<- <-]; [|rewrite length_to_le; lia]. destruct k as [|k].
  - injection Hk as ->. unfold get_le. rewrite Z.mul_0_r, Z.add_0_r. change (Z.of_nat 2) with 2. rewrite Hx. replace (a + 2 + 2) with (a + 4) by lia. rewrite Hz.
    cbn [fmap option_fmap option_map]. by rewrite !of_le_to_le_small.
  - replace (a + 4 * Z.of_nat (S k)) with (a + 4 + 4 * Z.of_nat k) by lia. apply IH; [done| |done].
    by replace (a + 4 + len (versions_bytes vs)) with (a + 4 * Z.of_nat (S (length vs))) by lia.
Qed.

(** The slots of a record, read one by one. *)
Definition slots_at (vs : list ProtocolVersion) (base : Z) (bytes : list Z) : Prop :=
  forall k v, vs !! k = Some v -> get_le 2 bytes (base + 24 + Z.of_nat k * 4) = Some (major v) /\ get_le 2 bytes (base + 26 + Z.of_nat k * 4) = Some (minor v).

Lemma default_u16 : version_u16 default_version.
Proof. by split. Qed.
Lemma slots_u16 r : record_types r -> Forall version_u16 (slots r).
Proof. intros (_ & _ & _ & H). apply Forall_app. split; [by apply Forall_take|apply Forall_replicate, default_u16]. Qed.
Lemma record_slots r base bytes : record_valid r -> record_types r -> record_at r base bytes -> slots_at (slots r) base bytes.
Proof.
  intros Hv Ht (_ & _ & _ & _ & _ & Hs & _) k v Hk. destruct (used_versions_length r Hv Ht) as [_ H4].
  destruct (versions_read (slots r) bytes (base + 24)) with (k := k) (v := v) as [H1 H2]; [by apply slots_u16| |done|].
  { rewrite length_versions_bytes, H4. by replace (base + 24 + 4 * Z.of_nat 4) with (base + 40) by lia. }
  replace (base + 24 + Z.of_nat k * 4) with (base + 24 + 4 * Z.of_nat k) by lia. by replace (base + 26 + Z.of_nat k * 4) with (base + 24 + 4 * Z.of_nat k + 2) by lia.
Qed.

Lemma check_slots bytes base vs count : slots_at vs base bytes -> 0 <= base < 2 ^ 63 -> length vs = 4%nat ->
  (forall k, (count <= k)%nat -> (k < 4)%nat -> vs !! k = Some default_version) -> (count <= 4)%nat ->
  forall n version previous, (version + n = 4)%nat -> validate_versions_windows (option_list previous ++ take (count - version) (drop version vs)) = Ok tt ->
  check_record_versions bytes base (Z.of_nat count) n (Z.of_nat version) previous = Ok tt.
Proof.
  intros Hs Hb H4 Hd Hc n. induction n as [|n IH]; intros version previous Hn Hw; [done|]. cbn [check_record_versions].
  destruct (lookup_lt_is_Some_2 vs version) as [v Hv]; [lia|]. destruct (Hs _ _ Hv) as [H1 H2]. fields_goal. rewrite H1, H2. cbn [ok_or res_bind].
  replace (mkVersion (major v) (minor v)) with v by by destruct v. destruct (Z.ltb_spec (Z.of_nat version) (Z.of_nat count)) as [Hlt|Hge].
  - rewrite (drop_S _ _ _ Hv) in Hw. replace (count - version)%nat with (S (count - S version)) in Hw by lia. cbn [take] in Hw.
    replace (Z.of_nat version + 1) with (Z.of_nat (S version)) by lia. destruct previous as [p|]; cbn [option_list app] in Hw.
    + change (option_list (Some p)) with [p] in Hw. cbn [app validate_versions_windows] in Hw. destruct (version_geb p v); [done|]. by apply IH; [lia|].
    + by apply IH; [lia|].
  - assert (v = default_version) as -> by (rewrite (Hd version) in Hv by lia; congruence). rewrite bool_decide_eq_false_2 by (intros H; by apply H). replace (Z.of_nat version + 1) with (Z.of_nat (S version)) by lia.
    apply IH; [lia|]. replace (count - S version)%nat with 0%nat by lia. replace (count - version)%nat with 0%nat in Hw by lia. done.
Qed.

Lemma validate_versions_sorted vs : validate_versions vs = Ok tt -> validate_versions_windows vs = Ok tt.
Proof. unfold validate_versions. by destruct (_ || _). Qed.
Lemma record_versions_accepted r base bytes : record_valid r -> record_types r -> record_at r base bytes -> 0 <= base < 2 ^ 63 ->
  check_record_versions bytes base (sr_version_count r) 4 0 None = Ok tt.
Proof.
  intros Hv Ht Hr Hb. destruct (used_versions_length r Hv Ht) as [Hu H4]. pose proof (record_slots _ _ _ Hv Ht Hr) as Hs. destruct Hv as (_ & _ & _ & Hc & Hvs).
  unfold MAX_PROTOCOL_VERSIONS in *. replace (sr_version_count r) with (Z.of_nat (length (used_versions r))) by lia.
  assert (forall k, (length (used_versions r) <= k)%nat -> (k < 4)%nat -> slots r !! k = Some default_version) as Hd.
  { intros k H1 H2. unfold slots. rewrite lookup_app_r by lia. apply lookup_replicate. split; [done|lia]. }
  apply (check_slots bytes base (slots r) (length (used_versions r)) Hs Hb H4 Hd ltac:(lia) 4 0 None); [done|].
  rewrite Nat.sub_0_r, drop_0. cbn [option_list app]. unfold slots. rewrite take_app_length. by apply validate_versions_sorted.
Qed.

Lemma get_at_range (bytes : list Z) a x : get_range bytes a (a + 1) = Some [x] -> get_at bytes a = Some x.
Proof.
  intros (H0 & _ & Hl & Hx)%get_range_Some. apply get_at_lookup. split; [done|]. replace (Z.to_nat (a + 1 - a)) with 1%nat in Hx by lia.
  destruct (drop (Z.to_nat a) bytes) as [|y l] eqn:Hd; [done|]. injection Hx as ->. rewrite <-(Nat.add_0_r (Z.to_nat a)), <-lookup_drop. by rewrite Hd.
Qed.

Lemma existsb_zeros n : existsb (fun byte => negb (byte =? 0)) (replicate n 0) = false.
Proof. by induction n. Qed.

(** Read the fields of a record, its reserved bytes included. *)
Lemma record_reserved r base bytes : record_at r base bytes -> get_at bytes (base + 18) = Some (sr_version_count r) /\
  get_at bytes (base + 19) = Some 0 /\ get_le 4 bytes (base + 20) = Some 0.
Proof.
  intros (_ & _ & _ & Hc & Hz & _). split; [apply get_at_range; by replace (base + 18 + 1) with (base + 19) by lia|].
  destruct (get_range_split _ (base + 19) (base + 19 + 1) _ _ Hz) as (x & y & Hx & Hy & Hxy); [lia|].
  pose proof (length_get_range _ _ _ _ Hx). destruct x as [|x [|]]; cbn [length] in *; try lia. injection Hxy as <- <-. split; [by apply get_at_range|].
  unfold get_le. change (Z.of_nat 4) with 4. replace (base + 20) with (base + 19 + 1) by lia. replace (base + 19 + 1 + 4) with (base + 24) by lia. by rewrite Hy.
Qed.

Lemma check_records_accepts rs : forall bytes index previous, records_ok rs -> names_increase previous rs -> 0 <= index ->
  base_of (index + len rs) <= len bytes -> len bytes < 2 ^ 63 -> records_at rs index bytes -> check_records bytes (length rs) index previous = Ok tt.
Proof.
  induction rs as [|r rs IH]; intros bytes index previous [Hv Ht] Hinc Hi Hl Hmax Hr; [done|]. apply Forall_cons in Hv as [Hv Hvs], Ht as [Ht Hts].
  destruct Hinc as [Hprev Hinc], Hr as [Hr Hrs]. unfold base_of in *. cbn [length check_records] in *. unfold SERVICE_LIST_PREFIX_BYTES, SERVICE_LIST_RECORD_BYTES.
  pose proof (record_name_len _ Hv) as Hnl. destruct (record_reserved _ _ _ Hr) as (Hc & Hz1 & Hz2). pose proof (record_versions_accepted _ _ _ Hv Ht Hr ltac:(lia)) as Hvc.
  destruct Hv as (Hp & Hg & Hn & Hcn & _), Hr as (H1 & H2 & H3 & _ & _ & _ & H7 & H8). fields_goal. rewrite H1, H2, H3, Hc, Hz1, Hz2. cbn [ok_or or_panic res_bind].
  rewrite (proj2 (Z.eqb_neq _ _) Hp), (proj2 (Z.eqb_neq _ _) Hg). cbn [negb andb orb res_bind]. rewrite Z.eqb_refl. cbn [negb andb orb res_bind]. rewrite Z.eqb_refl.
  unfold in_range, MAX_PROTOCOL_VERSIONS, MAX_SERVICE_NAME_BYTES in *. rewrite !(proj2 (Z.leb_le _ _)) by lia. cbn [negb andb orb res_bind].
  change (Z.to_nat 4) with 4%nat. rewrite Hvc. cbn [res_bind]. rewrite H7. cbn [or_panic res_bind]. rewrite Hn. cbn [res_bind]. rewrite H8. cbn [or_panic res_bind].
  rewrite existsb_zeros. cbn [orb]. replace (match previous with Some name => bytes_geb name (sr_service_name r) | None => false end) with false.
  2: { destruct previous as [name|]; [|done]. unfold bytes_geb. by rewrite (proj2 (bytes_ltb_lt _ _) Hprev). }
  apply IH; [done|done|lia|lia|done|done].
Qed.

(** ** The accessors of a page *)

Lemma read_versions_spec bytes base vs : slots_at vs base bytes -> 0 <= base < 2 ^ 63 -> length vs = 4%nat ->
  forall n k, (k + n <= 4)%nat -> read_versions bytes base n (Z.of_nat k) = Some (take n (drop k vs)).
Proof.
  intros Hs Hb H4 n. induction n as [|n IH]; intros k Hk; [done|]. cbn [read_versions]. destruct (lookup_lt_is_Some_2 vs k) as [v Hv]; [lia|].
  destruct (Hs _ _ Hv) as [H1 H2]. rewrite !get_u16_eq, H1, H2 by lia. replace (Z.of_nat k + 1) with (Z.of_nat (S k)) by lia. rewrite IH by lia.
  rewrite (drop_S _ _ _ Hv). cbn. by destruct v.
Qed.

Lemma record_read r bytes index p : record_valid r -> record_types r -> record_at r (base_of index) bytes -> 0 <= base_of index < 2 ^ 63 ->
  pg_bytes p = bytes -> index < pg_record_count p -> page_record p index = Some (normal r).
Proof.
  intros Hv Ht Hr Hb Hp Hi. destruct (record_reserved _ _ _ Hr) as (Hc & _). pose proof (record_slots _ _ _ Hv Ht Hr) as Hs. destruct (used_versions_length r Hv Ht) as [Hu H4].
  unfold page_record, SERVICE_LIST_PREFIX_BYTES, SERVICE_LIST_RECORD_BYTES. fold (base_of index). rewrite Hp. destruct (Z.geb_spec index (pg_record_count p)); [lia|].
  destruct Hv as (_ & _ & _ & Hcn & _), Hr as (H1 & H2 & H3 & _ & _ & _ & H7 & _). unfold MAX_PROTOCOL_VERSIONS in *.
  rewrite get_u16_eq, H3, Hc by lia. rewrite Z.min_l by lia. rewrite (read_versions_spec bytes _ (slots r) Hs Hb H4 _ 0) by lia.
  rewrite !get_u64_eq, H1, H2, H7 by lia. rewrite drop_0.
  assert (take (Z.to_nat (sr_version_count r)) (slots r) = used_versions r) as ->; [|done].
  unfold slots. replace (Z.to_nat (sr_version_count r)) with (length (used_versions r)) by lia. by rewrite take_app_length.
Qed.

Lemma version_read r bytes index p j : record_valid r -> record_types r -> record_at r (base_of index) bytes -> 0 <= base_of index < 2 ^ 63 ->
  pg_bytes p = bytes -> index < pg_record_count p -> page_version p index (Z.of_nat j) = used_versions r !! j.
Proof.
  intros Hv Ht Hr Hb Hp Hi. destruct (record_reserved _ _ _ Hr) as (Hc & _). pose proof (record_slots _ _ _ Hv Ht Hr) as Hs. destruct (used_versions_length r Hv Ht) as [Hu H4].
  unfold page_version, SERVICE_LIST_PREFIX_BYTES, SERVICE_LIST_RECORD_BYTES. fold (base_of index). rewrite Hp. destruct (Z.geb_spec index (pg_record_count p)); [lia|].
  rewrite Hc. destruct (Z.geb_spec (Z.of_nat j) (sr_version_count r)) as [Hj|Hj]; [symmetry; apply lookup_ge_None_2; lia|].
  destruct (lookup_lt_is_Some_2 (used_versions r) j) as [v Hj']; [lia|]. destruct (Hs j v) as [H1 H2]; [unfold slots; by rewrite lookup_app_l by lia|].
  destruct Hv as (_ & _ & _ & Hcn & _). unfold MAX_PROTOCOL_VERSIONS in *. rewrite !get_u16_eq, H1, H2, Hj' by lia. by destruct v.
Qed.

Lemma records_read rs : forall index bytes p k r, records_ok rs -> records_at rs index bytes -> 0 <= index -> base_of (index + len rs) < 2 ^ 63 ->
  pg_bytes p = bytes -> index + len rs <= pg_record_count p -> rs !! k = Some r ->
  page_record p (index + Z.of_nat k) = Some (normal r) /\ forall j : nat, page_version p (index + Z.of_nat k) (Z.of_nat j) = used_versions r !! j.
Proof.
  unfold base_of. induction rs as [|r0 rs IH]; intros index bytes p k r [Hv Ht] Hr Hi Hb Hp Hc Hk; [done|]. apply Forall_cons in Hv as [Hv Hvs], Ht as [Ht Hts].
  destruct Hr as [Hr Hrs]. cbn [length] in *. destruct k as [|k].
  - injection Hk as <-. rewrite Z.add_0_r. split; [|intros j]; [apply (record_read _ bytes)|apply (version_read _ bytes)]; unfold base_of; (done || lia).
  - replace (index + Z.of_nat (S k)) with (index + 1 + Z.of_nat k) by lia. apply (IH _ bytes); (done || lia).
Qed.

(** ** A page, written and read *)

Definition page_size (records : list ServiceListRecord) : Z := 80 + len records * 168.

Lemma page_shape_bounds index count total records : page_shape index count total records ->
  records <= 2 /\ count <= 16 /\ 0 <= total <= 32 /\ 0 <= index < count.
Proof.
  unfold page_shape, MAX_SERVICES. intros (Hi & Ht & Hs). destruct (Z.eqb_spec total 0); [lia|]. destruct Hs as [-> ->].
  pose proof (Z.div_mod (total + 1) 2 ltac:(lia)). pose proof (Z.mod_pos_bound (total + 1) 2 ltac:(lia)). lia.
Qed.

Lemma header_at_agree h handles size b1 b2 : 64 <= len b1 -> agree b1 b2 0 64 -> header_at h handles size b1 -> header_at h handles size b2.
Proof.
  intros Hl Ha. assert (forall c d x, 0 <= c <= d -> d <= 64 -> get_range b1 c d = Some x -> get_range b2 c d = Some x) as Hpart by (intros; eapply agree_part; eauto; lia).
  assert (forall n c x, 0 <= c -> c + Z.of_nat n <= 64 -> get_le n b1 c = Some x -> get_le n b2 c = Some x) as Hle.
  { intros n c x H0 H1. unfold get_le. intros (v & Hv & ->)%fmap_Some. by rewrite (Hpart _ _ v) by (done || lia). }
  unfold header_at. intros (?&?&?&?&?&?&?&?&?&?&?&?). split_and!; first [apply Hpart; [lia|lia|done]|apply Hle; [lia|lia|done]].
Qed.

Lemma encode_service_list_spec oc h index count total records output : header_valid h -> header_u64 h -> message_type h = MtServiceList ->
  page_shape index count total (len records) -> records_ok records -> names_increase None records -> page_size records <= len output -> len output < 2 ^ 63 ->
  exists out, encode_service_list oc h index count total records output = Ok (page_size records, out) /\ length out = length output /\
    agree out output (page_size records) (len output) /\ header_at h 0 (page_size records) out /\ records_at records 0 out /\
    get_le 2 out 64 = Some index /\ get_le 2 out 66 = Some count /\ get_le 2 out 68 = Some (len records) /\ get_le 2 out 70 = Some total /\
    get_le 4 out 72 = Some 0 /\ get_le 4 out 76 = Some 0.
Proof.
  intros Hh Hu Ht Hs Hr Hn Hsize Hmax. pose proof (page_shape_accepted oc _ _ _ _ Hs) as Hshape. unfold page_size in *.
  destruct (page_shape_bounds _ _ _ _ Hs) as (Hr2 & Hc16 & Ht32 & Hi).
  unfold encode_service_list, MAX_SERVICE_LIST_RECORDS, MAX_SERVICE_LIST_PAGES, MAX_SERVICES, SERVICE_LIST_PREFIX_BYTES, SERVICE_LIST_RECORD_BYTES.
  rewrite Hshape. bool_cases. cbn [orb res_bind].
  edestruct (encode_header_spec h 0 (80 + len records * 168) output) as (out1 & -> & Hl & Hh1 & Hz & Ha & _); [done|done|lia|lia|lia|]. cbn [res_bind].
  do 4 proto_write.
  destruct (put_records_spec records out3 0 None) as (out4 & -> & Hlo & Hro & Hao & _); unfold base_of in *; [done|done|lia|lia|lia| |].
  { intros c d Hc Hd. buf_read. apply Hz; lia. }
  cbn [res_bind]. exists out4. split; [done|]. split; [lia|].
  assert (forall n c, 64 <= c -> c + Z.of_nat n <= 80 -> get_le n out4 c = get_le n out3 c) as Hle.
  { intros n' c H7 H8. unfold get_le. f_equal. apply Hao. lia. }
  split; [|split; [|split; [done|]]].
  - unfold agree in *. rewrite Hao by lia. buf_read. done.
  - apply (header_at_agree h 0 _ out3); [lia|symmetry; apply Hao; lia|header_chain].
  - rewrite !Hle by lia. split_and!; buf_read; try done; by apply (zero_body_le _ _ _ _ Hz); lia.
Qed.

(** The page [parse] returns for a datagram written from [records]. *)
Definition page_of (index count total : Z) (records : list ServiceListRecord) (bytes : list Z) : ServiceListPage :=
  mkServiceListPage bytes index count (len records) total.

Lemma page_parsed oc h index count total records bytes : header_valid h -> message_type h = MtServiceList ->
  page_shape index count total (len records) -> records_ok records -> names_increase None records -> len bytes = page_size records ->
  header_at h 0 (page_size records) bytes -> records_at records 0 bytes ->
  get_le 2 bytes 64 = Some index -> get_le 2 bytes 66 = Some count -> get_le 2 bytes 68 = Some (len records) -> get_le 2 bytes 70 = Some total ->
  get_le 4 bytes 72 = Some 0 -> get_le 4 bytes 76 = Some 0 ->
  parse oc bytes 0 = Ok (mkParsedMessage h (MServiceList (page_of index count total records bytes))).
Proof.
  intros Hh Ht Hs Hr Hn Hl Hhd Hra H64 H66 H68 H70 H72 H76. pose proof (page_shape_accepted oc _ _ _ _ Hs) as Hshape.
  destruct (page_shape_bounds _ _ _ _ Hs) as (Hr2 & Hc16 & Ht32 & Hi). unfold page_size in *. unfold parse.
  rewrite (proj2 (parse_header_spec bytes h (len bytes) 0)) by (rewrite Hl; unfold HEADER_BYTES; split_and!; (done || lia)).
  cbn [res_bind declared_handle_count ph_header]. rewrite Z.eqb_refl. cbn [negb]. rewrite Ht. cbn [parse_message]. unfold require_handles. rewrite Z.eqb_refl. cbn [negb res_bind].
  unfold parse_service_list, MAX_SERVICE_LIST_RECORDS, MAX_SERVICE_LIST_PAGES, MAX_SERVICES, SERVICE_LIST_PREFIX_BYTES, SERVICE_LIST_RECORD_BYTES.
  fields_goal. rewrite H64, H66, H68, H70, H72. cbn [ok_or res_bind]. rewrite Z.eqb_refl, H76. cbn [ok_or res_bind]. rewrite Z.eqb_refl. rewrite Hshape.
  rewrite Nat2Z.id, (check_records_accepts records bytes 0 None) by (unfold base_of; done || lia). rewrite Hl. cbn [negb orb res_bind].
  bool_cases; done.
Qed.

(** ** Every encoder *)

(** What a sender hands to an encoder: the fields of a message, or a page as its
    records. *)
Inductive Outgoing :=
| OMessage (m : Message)
| OPage (index count total : Z) (records : list ServiceListRecord).

Definition encode_outgoing (oc : bool) (h : Header) (o : Outgoing) (output : list Z) : res Error (Z * list Z) :=
  match o with
  | OMessage m => encode_message oc h m output
  | OPage index count total records => encode_service_list oc h index count total records output
  end.
Definition outgoing_type (o : Outgoing) : MessageType := match o with OMessage m => type_of m | OPage _ _ _ _ => MtServiceList end.
Definition outgoing_handles (o : Outgoing) : Z := match o with OMessage m => handles_of m | OPage _ _ _ _ => 0 end.
Definition outgoing_size (o : Outgoing) : Z := match o with OMessage m => message_size m | OPage _ _ _ records => page_size records end.
Definition outgoing_valid (o : Outgoing) : Prop :=
  match o with
  | OMessage m => body_valid m
  | OPage index count total records => page_shape index count total (len records) /\ Forall record_valid records /\ names_increase None records
  end.
Definition outgoing_types (o : Outgoing) : Prop := match o with OMessage m => body_types m | OPage _ _ _ records => Forall record_types records end.

(** What the receiver sees: the message itself, or a page whose accessors give the
    records sent. *)
Definition shows (m : Message) (o : Outgoing) : Prop :=
  match o with
  | OMessage sent => m = sent
  | OPage index count total records =>
      exists p, m = MServiceList p /\ pg_page_index p = index /\ pg_page_count p = count /\ pg_total_count p = total /\ pg_record_count p = len records /\
        forall k : nat, page_record p (Z.of_nat k) = normal <$> records !! k /\
          forall r, records !! k = Some r -> forall j : nat, page_version p (Z.of_nat k) (Z.of_nat j) = used_versions r !! j
  end.

Lemma page_round_trip oc h index count total records output : header_valid h -> header_u64 h -> message_type h = MtServiceList ->
  outgoing_valid (OPage index count total records) -> Forall record_types records -> page_size records <= len output -> len output < 2 ^ 63 ->
  exists out m, encode_service_list oc h index count total records output = Ok (page_size records, out) /\
    parse oc (take (Z.to_nat (page_size records)) out) 0 = Ok (mkParsedMessage h m) /\ shows m (OPage index count total records) /\
    length out = length output /\ agree out output (page_size records) (len output).
Proof.
  intros Hh Hu Ht (Hs & Hv & Hn) Hty Hsize Hmax. assert (records_ok records) as Hok by done. destruct (page_shape_bounds _ _ _ _ Hs) as (Hr2 & _).
  destruct (encode_service_list_spec oc h index count total records output) as (out & He & Hl & Ha & Hhd & Hra & H64 & H66 & H68 & H70 & H72 & H76); [done..|].
  unfold page_size in *. set (size := 80 + len records * 168) in *. set (bytes := take (Z.to_nat size) out).
  assert (len bytes = size) as Hlb by (unfold bytes; rewrite length_take; lia).
  assert (records_at records 0 bytes) as Hrb.
  { apply (records_at_agree _ _ out); unfold base_of; [done|lia|lia| |done]. unfold agree, bytes. rewrite get_range_take by lia. done. }
  exists out, (MServiceList (page_of index count total records bytes)). split; [done|]. split; [|split; [|done]].
  - apply page_parsed; try done; [apply header_at_take; [lia|done]|unfold bytes; rewrite get_le_take by lia; done..].
  - exists (page_of index count total records bytes). split_and!; [done..|]. intros k. destruct (records !! k) as [r|] eqn:Hk.
    + destruct (records_read records 0 bytes (page_of index count total records bytes) k r) as [H1 H2]; [done|done|lia|unfold base_of; lia|done|cbn; lia|done|].
      split; [done|]. by intros r' [= <-].
    + split; [|done]. apply lookup_ge_None in Hk. unfold page_record. cbn [pg_record_count page_of]. destruct (Z.geb_spec (Z.of_nat k) (len records)); [done|lia].
Qed.

(** C24: whatever a WRRG encoder was given, pages of the service list included, [parse]
    gives back: the same header, and the same message, or a page with the same shape
    whose accessors return the records sent (the unused slots of a version array do not
    travel and read as the default version).  The encoder succeeds on every valid value
    the buffer has room for and leaves the bytes after the datagram as they were. *)
Theorem wrrg_round_trip oc h o output :
  header_valid h -> header_u64 h -> message_type h = outgoing_type o -> outgoing_valid o -> outgoing_types o ->
  outgoing_size o <= len output -> len output < 2 ^ 63 ->
  exists out m, encode_outgoing oc h o output = Ok (outgoing_size o, out) /\
    parse oc (take (Z.to_nat (outgoing_size o)) out) (outgoing_handles o) = Ok (mkParsedMessage h m) /\ shows m o /\
    length out = length output /\ agree out output (outgoing_size o) (len output).
Proof.
  destruct o as [m|index count total records]; intros Hh Hu Ht Hv Hty Hs Hmax.
  - destruct (message_round_trip oc h m output) as (out & He & Hp & Hl & Ha); [done..|]. by exists out, m.
  - by apply page_round_trip.
Qed.

(** The second of two pages: three services, the last called ["b"]. *)
Definition sample_record : ServiceListRecord :=
  mkServiceListRecord 17 2 [mkVersion 1 0; mkVersion 1 1; mkVersion 9 9; mkVersion 9 9] 2 [98].
Lemma wrrg_round_trip_witness :
  exists out m, encode_outgoing true (mkHeader MtServiceList 7 1 1 50) (OPage 1 2 3 [sample_record]) (replicate 250 7) = Ok (248, out) /\
    parse true (take 248 out) 0 = Ok (mkParsedMessage (mkHeader MtServiceList 7 1 1 50) m) /\ shows m (OPage 1 2 3 [sample_record]) /\
    length out = 250%nat /\ agree out (replicate 250 7) 248 250.
Proof.
  apply (wrrg_round_trip true (mkHeader MtServiceList 7 1 1 50) (OPage 1 2 3 [sample_record]) (replicate 250 7)).
  - by repeat split.
  - by repeat split.
  - done.
  - split; [by repeat split|]. split; [|done]. constructor; [by repeat split|constructor].
  - constructor; [|constructor]. split_and!; [done..|]. by repeat constructor.
  - vm_compute. discriminate.
  - vm_compute. reflexivity.
Defined.
