(* ===== verification/Correlation.v ===== *)
(** * Decimal numbers and the registry correlation environment

    [decimal], [parse_decimal], [CorrelationEnvironment] and
    [parse_correlation_environment] of
    crates/wyrmroot-registry-proto/src/lib.rs: how a launched process is told
    its registry generation and endpoint through three environment strings. *)

From stdpp Require Import base tactics option list list_numbers.
From Stdlib Require Import ZArith Lia.
From S2P Require Import Prelude Bytes Utf8 RegistryProto.
Import RegistryProto.

Module Correlation.

Record Correlation := mkCorrelation {
  co_registry_generation : Z; co_endpoint_id : Z; co_endpoint_generation : Z }.

Record CorrelationEnvironment := mkEnvironment {
  ce_bytes : list (list Z); ce_lengths : list Z }.

(** The loop [while value != 0] that fills [reversed: [u8; 20]]: a digit past
    the twentieth is an index out of range. *)
Fixpoint reversed_digits (room : nat) (value : Z) : option (list Z) :=
  if value =? 0 then Some []
  else match room with
       | O => None
       | S room => cons (48 + value mod 10) <$> reversed_digits room (value / 10)
       end.

(** The count and the buffer after the call. *)
Definition decimal (value : Z) (output : list Z) : res Error (Z * list Z) :=
  reject_if! value =? 0 with InvalidCorrelationEnvironment;;
  let! reversed := or_panic (reversed_digits 20 value) in
  reject_if! len output <? len reversed with InvalidCorrelationEnvironment;;
  let! output := or_panic (put_range output 0 (rev reversed)) in
  Ok (len reversed, output).

Fixpoint fold_decimal (current : Z) (digits : list Z) : res Error Z :=
  match digits with
  | [] => Ok current
  | digit :: digits =>
      let! next := ok_or InvalidCorrelationEnvironment
        (match checked_mul_u64 current 10 with
         | Some current => checked_add_u64 current (digit - 48)
         | None => None
         end) in
      fold_decimal next digits
  end.

Definition parse_decimal (value : list Z) : res Error Z :=
  reject_if! bool_decide (value = []) || bool_decide (head value = Some 48)
      || negb (forallb is_ascii_digit value) with InvalidCorrelationEnvironment;;
  fold_decimal 0 value.

(** [CorrelationEnvironment::write] *)
Definition environment_write (env : CorrelationEnvironment) (index : nat) (prefix : list Z)
    (number : Z) : res Error CorrelationEnvironment :=
  let! output := ok_or InvalidCorrelationEnvironment (ce_bytes env !! index) in
  let! output := or_panic (put_range output 0 prefix) in
  let! tail := or_panic (get_from output (len prefix)) in
  let! written := decimal number tail in
  let! output := or_panic (put_range output (len prefix) (snd written)) in
  let! size := ok_or InvalidCorrelationEnvironment
                   (try_from_unsigned (2 ^ 8) (len prefix + fst written)) in
  assert! (index <? length (ce_lengths env))%nat;;
  Ok (mkEnvironment (<[index := output]> (ce_bytes env)) (<[index := size]> (ce_lengths env))).

(** [CorrelationEnvironment::new] *)
Definition environment_new (c : Correlation) : res Error CorrelationEnvironment :=
  reject_if! (co_registry_generation c =? 0) || (co_endpoint_id c =? 0)
      || (co_endpoint_generation c =? 0) with InvalidCorrelationEnvironment;;
  let value := mkEnvironment
    (replicate (Z.to_nat CORRELATION_ENVIRONMENT_COUNT)
       (replicate (Z.to_nat MAX_CORRELATION_ENVIRONMENT_BYTES) 0))
    (replicate (Z.to_nat CORRELATION_ENVIRONMENT_COUNT) 0) in
  let! value := environment_write value 0 REGISTRY_GENERATION_ENV (co_registry_generation c) in
  let! value := environment_write value 1 ENDPOINT_ID_ENV (co_endpoint_id c) in
  let! value := environment_write value 2 ENDPOINT_GENERATION_ENV (co_endpoint_generation c) in
  Ok value.

(** [CorrelationEnvironment::entry] *)
Definition environment_entry (env : CorrelationEnvironment) (index : nat) : option (list Z) :=
  match ce_lengths env !! index, ce_bytes env !! index with
  | Some length, Some bytes =>
      match get_range bytes 0 length with
      | Some text => if is_utf8 text then Some text else None
      | None => None
      end
  | _, _ => None
  end.

(** [str::strip_prefix] *)
Fixpoint strip_prefix (prefix text : list Z) : option (list Z) :=
  match prefix, text with
  | [], _ => Some text
  | p :: prefix, t :: text => if p =? t then strip_prefix prefix text else None
  | _ :: _, [] => None
  end.

Definition parse_entry (entries : list (list Z)) (index : nat) (prefix : list Z) : res Error Z :=
  let! entry := or_panic (entries !! index) in
  let! text := ok_or InvalidCorrelationEnvironment (strip_prefix prefix entry) in
  parse_decimal text.

Definition parse_correlation_environment (entries : list (list Z)) : res Error Correlation :=
  reject_if! negb (len entries =? CORRELATION_ENVIRONMENT_COUNT)
    with InvalidCorrelationEnvironment;;
  let! generation := parse_entry entries 0 REGISTRY_GENERATION_ENV in
  let! id := parse_entry entries 1 ENDPOINT_ID_ENV in
  let! endpoint_generation := parse_entry entries 2 ENDPOINT_GENERATION_ENV in
  Ok (mkCorrelation generation id endpoint_generation).

Example new_small :
  exists env, environment_new (mkCorrelation 9 12 305) = Ok env /\
  environment_entry env 2 = Some (ENDPOINT_GENERATION_ENV ++ [51; 48; 53]).
Proof. eexists. split; vm_compute; reflexivity. Qed.

(** ** Decimal notation *)

Definition decimal_value (digits : list Z) : Z :=
  fold_left (fun acc d => acc * 10 + (d - 48)) digits 0.

(** The canonical numeral of a nonzero number. *)
Definition numeral (digits : list Z) : Prop :=
  digits <> [] /\ head digits <> Some 48 /\ Forall (fun d => 48 <= d <= 57) digits.

Lemma decimal_value_snoc ds d : decimal_value (ds ++ [d]) = decimal_value ds * 10 + (d - 48).
Proof. unfold decimal_value. by rewrite fold_left_app. Qed.

Lemma numeral_snoc ds d : numeral (ds ++ [d]) -> ds = [] \/ numeral ds.
Proof.
  intros (_ & Hh & Hd). destruct ds as [|x ds]; [by left|right].
  apply Forall_app in Hd as [Hd _]. by split_and!.
Qed.

Lemma numeral_bound ds : numeral ds -> 10 ^ (len ds - 1) <= decimal_value ds.
Proof.
  induction ds as [|d ds IH] using rev_ind; intros Hn; [by destruct Hn|].
  rewrite decimal_value_snoc, length_app. cbn [length].
  destruct (numeral_snoc _ _ Hn) as [->|Hn'].
  - destruct Hn as (_ & Hh & Hd). apply Forall_cons in Hd as [Hd _].
    change (10 ^ (Z.of_nat (length (@nil Z) + 1) - 1)) with 1. change (decimal_value []) with 0.
    destruct (Z.eqb_spec d 48); [subst; done|lia].
  - specialize (IH Hn'). destruct Hn as (_ & _ & Hd). apply Forall_app in Hd as [_ Hd].
    apply Forall_cons in Hd as [Hd _].
    assert (1 <= len ds) by (destruct Hn' as [? _]; destruct ds; simpl; [done|lia]).
    replace (Z.of_nat (length ds + 1) - 1) with (Z.succ (len ds - 1)) by lia.
    rewrite Z.pow_succ_r by lia. lia.
Qed.

(** The digit loop recovers the numeral of every number that fits the array. *)
Lemma reversed_digits_numeral room ds :
  numeral ds -> (length ds <= room)%nat ->
  reversed_digits room (decimal_value ds) = Some (rev ds).
Proof.
  revert room. induction ds as [|d ds IH] using rev_ind; intros room Hn Hr; [by destruct Hn|].
  pose proof (numeral_bound _ Hn) as Hb. rewrite length_app in Hr, Hb. simpl length in Hr, Hb.
  assert (0 < 10 ^ (Z.of_nat (length ds + 1) - 1)) by (apply Z.pow_pos_nonneg; lia).
  destruct room as [|room]; [lia|]. cbn [reversed_digits].
  destruct (Z.eqb_spec (decimal_value (ds ++ [d])) 0); [lia|].
  pose proof Hn as (_ & _ & Hd). apply Forall_app in Hd as [_ Hd].
  apply Forall_cons in Hd as [Hd _].
  rewrite decimal_value_snoc, (Z.add_comm (_ * 10)).
  rewrite Z.mod_add, Z.div_add, Z.mod_small, Z.div_small, Z.add_0_l by lia.
  replace (48 + (d - 48)) with d by lia. rewrite rev_unit.
  destruct (numeral_snoc _ _ Hn) as [->|Hn']; [|by rewrite IH by (done || lia)].
  by destruct room.
Qed.

Lemma reversed_digits_total room v :
  0 < v < 10 ^ Z.of_nat room ->
  exists ds, numeral ds /\ v = decimal_value ds /\ (length ds <= room)%nat.
Proof.
  revert v. induction room as [|room IH]; intros v Hv; [simpl in Hv; lia|].
  rewrite Nat2Z.inj_succ, Z.pow_succ_r in Hv by lia.
  pose proof (Z.div_mod v 10 ltac:(lia)). pose proof (Z.mod_pos_bound v 10 ltac:(lia)).
  destruct (Z.eq_dec (v / 10) 0) as [Hz|Hz].
  - exists [48 + v mod 10]. split_and!; [|unfold decimal_value; simpl; lia|simpl; lia].
    split_and!; [done|simpl; intros [=]; lia|]. constructor; [lia|done].
  - destruct (IH (v / 10)) as (ds & (Hne & Hh & Hd) & Hv' & Hl).
    { split; [|apply Z.div_lt_upper_bound; lia].
      pose proof (Z.div_pos v 10 ltac:(lia) ltac:(lia)). lia. }
    exists (ds ++ [48 + v mod 10]). split_and!.
    + split_and!; [by destruct ds|by destruct ds|].
      apply Forall_app. split; [done|]. constructor; [lia|done].
    + rewrite decimal_value_snoc, <-Hv'. lia.
    + rewrite length_app. simpl. lia.
Qed.

Lemma fold_left_decimal_mono acc ds :
  0 <= acc -> Forall (fun d => 48 <= d <= 57) ds ->
  acc <= fold_left (fun acc d => acc * 10 + (d - 48)) ds acc.
Proof.
  intros Ha Hd. revert acc Ha. induction Hd as [|d ds Hd _ IH]; intros acc Ha; simpl; [lia|].
  etrans; [|apply IH]; lia.
Qed.

(** [try_fold] with checked arithmetic computes the value of the numeral, and
    fails exactly when it does not fit 64 bits. *)
Lemma fold_decimal_spec acc ds v :
  0 <= acc < 2 ^ 64 -> Forall (fun d => 48 <= d <= 57) ds ->
  fold_decimal acc ds = Ok v <->
  v = fold_left (fun acc d => acc * 10 + (d - 48)) ds acc /\ v < 2 ^ 64.
Proof.
  intros Ha Hd. revert acc Ha. induction Hd as [|d ds Hd Hds IH]; intros acc Ha; simpl.
  { naive_solver lia. }
  unfold checked_mul_u64, checked_mul.
  destruct (Z.ltb_spec (acc * 10) (2 ^ 64)).
  - unfold checked_add_u64, checked_add.
    destruct (Z.ltb_spec (acc * 10 + (d - 48)) (2 ^ 64)); simpl; [apply IH; lia|].
    split; [done|]. intros [-> Hv].
    pose proof (fold_left_decimal_mono (acc * 10 + (d - 48)) ds ltac:(lia) Hds). lia.
  - simpl. split; [done|]. intros [-> Hv].
    pose proof (fold_left_decimal_mono (acc * 10 + (d - 48)) ds ltac:(lia) Hds). lia.
Qed.

Lemma parse_decimal_spec text v :
  parse_decimal text = Ok v <-> numeral text /\ v = decimal_value text /\ v < 2 ^ 64.
Proof.
  unfold parse_decimal, numeral. split.
  - intros H. res_inv.
    match goal with H : forallb _ _ = true |- _ => rename H into Hall end.
    rewrite forallb_forall in Hall.
    assert (Forall (fun d => 48 <= d <= 57) text) as Hd.
    { apply Forall_forall. intros x Hx%list_elem_of_In%Hall.
      unfold is_ascii_digit, in_range in Hx. bool_prop. lia. }
    apply fold_decimal_spec in H; [|lia|done]. naive_solver.
  - intros ((Hne & Hh & Hd) & Hv & Hlt).
    rewrite !bool_decide_eq_false_2 by done.
    replace (forallb is_ascii_digit text) with true; simpl.
    + by apply fold_decimal_spec; [lia|done|].
    + symmetry. apply forallb_forall. intros x Hx%list_elem_of_In.
      rewrite Forall_forall in Hd. specialize (Hd x Hx).
      unfold is_ascii_digit, in_range. bool_cases. done.
Qed.

Lemma decimal_spec ds output :
  numeral ds -> decimal_value ds < 2 ^ 64 -> len ds <= len output ->
  exists output', decimal (decimal_value ds) output = Ok (len ds, output') /\
    put_range output 0 ds = Some output'.
Proof.
  intros Hn Hv Hl. pose proof (numeral_bound _ Hn) as Hb. unfold decimal.
  assert (0 < 10 ^ (len ds - 1)).
  { apply Z.pow_pos_nonneg; [lia|]. destruct Hn as [? _]. destruct ds; simpl; [done|lia]. }
  assert (len ds <= 20).
  { destruct (Z.le_gt_cases (len ds) 20) as [?|Hgt]; [done|].
    pose proof (Z.pow_le_mono_r 10 20 (len ds - 1) ltac:(lia) ltac:(lia)). lia. }
  rewrite reversed_digits_numeral by (done || lia).
  destruct (Z.eqb_spec (decimal_value ds) 0); [lia|]. cbn [or_panic res_bind].
  rewrite length_rev, rev_involutive.
  destruct (Z.ltb_spec (len output) (len ds)); [lia|].
  destruct (proj2 (put_range_is_Some output 0 ds)) as [output' Ho]; [lia|].
  rewrite Ho. simpl. eauto.
Qed.

(** Only the numeral of a number parses as it. *)
Lemma parse_decimal_value ds t :
  numeral ds -> 0 < decimal_value ds < 2 ^ 64 ->
  parse_decimal t = Ok (decimal_value ds) <-> t = ds.
Proof.
  intros Hn Hv. rewrite parse_decimal_spec. split.
  - intros (Hn' & He & _).
    pose proof (reversed_digits_numeral (length t `max` length ds) t Hn' ltac:(lia)) as H1.
    pose proof (reversed_digits_numeral (length t `max` length ds) ds Hn ltac:(lia)) as H2.
    rewrite <-He, H2 in H1. injection H1 as H1.
    apply (f_equal (@rev Z)) in H1. by rewrite !rev_involutive in H1.
  - intros ->. split_and!; [done|done|lia].
Qed.

(** The decimal printer and parser are inverse, and the parser accepts only
    what the printer writes: for every number of [1 .. 2^64) there is exactly
    one text [parse_decimal] maps to it, and it is the one [decimal] writes. *)
Theorem decimal_bijection value :
  0 < value < 2 ^ 64 ->
  exists text, (forall t, parse_decimal t = Ok value <-> t = text) /\ len text <= 20 /\
    forall output, len text <= len output ->
      exists output', decimal value output = Ok (len text, output') /\
        put_range output 0 text = Some output'.
Proof.
  intros Hv. destruct (reversed_digits_total 20 value) as (ds & Hn & -> & Hl); [simpl; lia|].
  exists ds. split_and!; [|lia|].
  - intros t. by apply parse_decimal_value.
  - intros output Ho. apply decimal_spec; [done|lia|done].
Qed.

Lemma decimal_bijection_witness :
  exists text, (forall t, parse_decimal t = Ok 305 <-> t = text) /\ len text <= 20 /\
    forall output, len text <= len output ->
      exists output', decimal 305 output = Ok (len text, output') /\
        put_range output 0 text = Some output'.
Proof. apply (decimal_bijection 305). lia. Defined.

(** ** The environment *)

Lemma strip_prefix_spec prefix text rest :
  strip_prefix prefix text = Some rest <-> text = prefix ++ rest.
Proof.
  revert text. induction prefix as [|p prefix IH]; intros text; simpl; [naive_solver|].
  destruct text as [|t text]; [naive_solver|].
  destruct (Z.eqb_spec p t) as [->|]; [rewrite IH|]; naive_solver.
Qed.

(** A slot that holds the text of one variable. *)
Definition slot_holds (env : CorrelationEnvironment) (index : nat) (text : list Z) : Prop :=
  exists bytes, ce_bytes env !! index = Some bytes /\
    ce_lengths env !! index = Some (len text) /\ get_range bytes 0 (len text) = Some text.

Definition shape (env : CorrelationEnvironment) : Prop :=
  length (ce_lengths env) = 3%nat /\ length (ce_bytes env) = 3%nat /\
  Forall (fun bytes => length bytes = 64%nat) (ce_bytes env).

Lemma environment_write_spec env index prefix ds :
  shape env -> (index < 3)%nat -> len prefix <= 44 -> numeral ds -> decimal_value ds < 2 ^ 64 ->
  len ds <= 20 ->
  exists env', environment_write env index prefix (decimal_value ds) = Ok env' /\ shape env' /\
    slot_holds env' index (prefix ++ ds) /\
    forall j text, j <> index -> slot_holds env j text -> slot_holds env' j text.
Proof.
  intros (Hl & Hb & Hf) Hi Hp Hn Hv Hds. unfold environment_write.
  destruct (lookup_lt_is_Some_2 (ce_bytes env) index) as [bytes Hbytes]; [lia|].
  pose proof (Forall_lookup_1 _ _ _ _ Hf Hbytes) as H64. cbv beta in H64. rewrite Hbytes. simpl.
  buf_write. unfold get_from.
  destruct (proj2 (get_range_is_Some out (len prefix) (len out))) as [tail Ht]; [lia|].
  rewrite Ht. simpl. pose proof (length_get_range _ _ _ _ Ht).
  destruct (decimal_spec ds tail Hn Hv) as (tail' & -> & Htail); [lia|]. simpl.
  pose proof (length_put_range _ _ _ _ Htail). buf_write.
  unfold try_from_unsigned. bool_cases. simpl.
  rewrite (proj2 (Nat.ltb_lt _ _)) by lia. eexists. split; [done|].
  assert (put_range bytes 0 (prefix ++ tail') = Some out0) as Hall
    by (eapply put_range_app; [done|]; by rewrite Z.add_0_l).
  apply put_range_Some in Hall as (_ & _ & Hall), Htail as (_ & _ & Htail). simpl in Hall, Htail.
  split_and!; simpl.
  - split_and!; simpl; [by rewrite length_insert..|]. apply Forall_insert; [done|]. simpl. lia.
  - exists out0. simpl. rewrite !list_lookup_insert_eq by lia.
    rewrite length_app, Nat2Z.inj_add. split_and!; [done|done|].
    rewrite Hall, Htail, <-!app_assoc, (app_assoc prefix ds).
    rewrite <-Nat2Z.inj_add, <-length_app, get_range_app_l by lia. apply get_range_full.
  - intros j text Hj (b & ? & ? & ?). exists b. simpl. by rewrite !list_lookup_insert_ne.
Qed.

Lemma ascii_is_utf8 text : Forall (fun b => 0 <= b < 128) text -> is_utf8 text = true.
Proof.
  intros H. unfold is_utf8. apply bool_decide_eq_true.
  assert (encode_all text = text /\ Forall (fun c => is_scalar c = true) text) as [He Hs].
  { induction H as [|b text Hb _ [IH1 IH2]]; [done|]. simpl. rewrite IH1. split.
    - unfold encode_utf8. by bool_cases.
    - constructor; [|done]. unfold is_scalar. by bool_cases. }
  rewrite <-He. exists text. by apply from_utf8_encode_all.
Qed.

Lemma slot_entry env index text :
  Forall (fun b => 0 <= b < 128) text -> slot_holds env index text ->
  environment_entry env index = Some text.
Proof.
  intros Ha (b & Hb & Hl & Ht). unfold environment_entry. by rewrite Hb, Hl, Ht, ascii_is_utf8.
Qed.

Definition prefix_at (index : nat) : list Z :=
  match index with
  | 0%nat => REGISTRY_GENERATION_ENV
  | 1%nat => ENDPOINT_ID_ENV
  | _ => ENDPOINT_GENERATION_ENV
  end.

Lemma prefix_ascii index : Forall (fun b => 0 <= b < 128) (prefix_at index).
Proof. apply (bool_decide_unpack _). by destruct index as [|[|]]; vm_compute. Qed.

Lemma prefix_len index : len (prefix_at index) <= 44.
Proof. by destruct index as [|[|]]; vm_compute. Qed.

Lemma entry_ascii index ds : numeral ds -> Forall (fun b => 0 <= b < 128) (prefix_at index ++ ds).
Proof.
  intros (_ & _ & Hd). apply Forall_app. split; [apply prefix_ascii|].
  eapply Forall_impl; [done|]. simpl. lia.
Qed.

Lemma decimal_text v :
  0 < v < 2 ^ 64 ->
  exists ds, numeral ds /\ v = decimal_value ds /\ len ds <= 20 /\
    forall t, parse_decimal t = Ok v <-> t = ds.
Proof.
  intros Hv. destruct (reversed_digits_total 20 v) as (ds & Hn & -> & Hl); [simpl; lia|].
  exists ds. split_and!; [done|done|lia|]. intros t. by apply parse_decimal_value.
Qed.

Lemma parse_entry_spec entries index prefix v ds :
  (forall t, parse_decimal t = Ok v <-> t = ds) ->
  parse_entry entries index prefix = Ok v <-> entries !! index = Some (prefix ++ ds).
Proof.
  intros Hd. unfold parse_entry. split.
  - intros H. repeat res_step. apply strip_prefix_spec in H1. apply Hd in H. by subst.
  - intros ->. simpl. rewrite (proj2 (strip_prefix_spec _ _ ds) eq_refl). simpl. by apply Hd.
Qed.

Lemma parse_environment_spec v0 v1 v2 d0 d1 d2 entries :
  (forall t, parse_decimal t = Ok v0 <-> t = d0) ->
  (forall t, parse_decimal t = Ok v1 <-> t = d1) ->
  (forall t, parse_decimal t = Ok v2 <-> t = d2) ->
  parse_correlation_environment entries = Ok (mkCorrelation v0 v1 v2) <->
  entries = [prefix_at 0 ++ d0; prefix_at 1 ++ d1; prefix_at 2 ++ d2].
Proof.
  intros U0 U1 U2. unfold parse_correlation_environment. split.
  - intros H. res_inv. simplify_eq.
    repeat match goal with H : parse_entry _ _ _ = Ok _ |- _ =>
      first [ apply (parse_entry_spec _ _ _ _ _ U0) in H | apply (parse_entry_spec _ _ _ _ _ U1) in H
            | apply (parse_entry_spec _ _ _ _ _ U2) in H ] end.
    destruct entries as [|e0 [|e1 [|e2 [|]]]]; unfold CORRELATION_ENVIRONMENT_COUNT in *;
      simpl in *; try (done || lia). congruence.
  - intros ->. simpl.
    rewrite (proj2 (parse_entry_spec _ _ _ _ _ U0)) by done. simpl.
    rewrite (proj2 (parse_entry_spec _ _ _ _ _ U1)) by done. simpl.
    by rewrite (proj2 (parse_entry_spec _ _ _ _ _ U2)) by done.
Qed.

(** The environment carries the correlation: the three strings
    [CorrelationEnvironment::new] builds from nonzero identities are what
    [parse_correlation_environment] reads them back from, and they are the only
    strings it reads those identities from. *)
Theorem correlation_round_trip generation id endpoint_generation :
  0 < generation < 2 ^ 64 -> 0 < id < 2 ^ 64 -> 0 < endpoint_generation < 2 ^ 64 ->
  let c := mkCorrelation generation id endpoint_generation in
  exists env e0 e1 e2, environment_new c = Ok env /\
    environment_entry env 0 = Some e0 /\ environment_entry env 1 = Some e1 /\
    environment_entry env 2 = Some e2 /\
    forall entries, parse_correlation_environment entries = Ok c <-> entries = [e0; e1; e2].
Proof.
  intros H0 H1 H2 c.
  destruct (decimal_text _ H0) as (d0 & N0 & V0 & L0 & U0).
  destruct (decimal_text _ H1) as (d1 & N1 & V1 & L1 & U1).
  destruct (decimal_text _ H2) as (d2 & N2 & V2 & L2 & U2).
  unfold environment_new. subst c. simpl co_registry_generation. simpl co_endpoint_id.
  simpl co_endpoint_generation. bool_cases. rewrite V0, V1, V2.
  match goal with |- context [environment_write ?e 0] => set (env0 := e) end.
  assert (shape env0) as S0 by (split_and!; [done..|repeat constructor]).
  destruct (environment_write_spec env0 0 (prefix_at 0) d0) as (env1 & E1 & S1 & W0 & _);
    [done|lia|apply prefix_len|done|lia|done|].
  simpl prefix_at in E1. rewrite E1. simpl.
  destruct (environment_write_spec env1 1 (prefix_at 1) d1) as (env2 & E2 & S2 & W1 & K1);
    [done|lia|apply prefix_len|done|lia|done|].
  simpl prefix_at in E2. rewrite E2. simpl.
  destruct (environment_write_spec env2 2 (prefix_at 2) d2) as (env3 & E3 & S3 & W2 & K2);
    [done|lia|apply prefix_len|done|lia|done|].
  simpl prefix_at in E3. rewrite E3. simpl.
  exists env3, (prefix_at 0 ++ d0), (prefix_at 1 ++ d1), (prefix_at 2 ++ d2).
  split_and!; [done| | | |]; try (apply slot_entry; [by apply entry_ascii|auto]).
  intros entries. rewrite <-V0, <-V1, <-V2. by apply parse_environment_spec.
Qed.

Lemma correlation_round_trip_witness :
  exists env e0 e1 e2, environment_new (mkCorrelation 9 12 (2 ^ 64 - 1)) = Ok env /\
    environment_entry env 0 = Some e0 /\ environment_entry env 1 = Some e1 /\
    environment_entry env 2 = Some e2 /\
    forall entries, parse_correlation_environment entries = Ok (mkCorrelation 9 12 (2 ^ 64 - 1)) <->
      entries = [e0; e1; e2].
Proof. apply (correlation_round_trip 9 12 (2 ^ 64 - 1)); lia. Defined.

End Correlation.
