(* ===== verification/Registry.v ===== *)
(** * The bootstrap registry (userspace/registryd/src/lib.rs)

    [RegistryState] and every operation on it.  A method with [&mut self] is a
    state transformer [M A]: it returns the state it leaves behind together
    with [Ok], [Err] or [Panic], so that the state after an error is the one
    the Rust code leaves.  [debug_assert!]s are modelled as checks that panic;
    that none of them fires is part of the theorems of [RegistryInv].  Array
    indices and counters are [nat], identities and transactions are [u64]
    values in [Z]. *)

From stdpp Require Import base tactics option list list_numbers.
From Stdlib Require Import ZArith Lia.
From S2P Require Import Prelude Bytes Utf8 RegistryProto.
Import RegistryProto.

Module Registry.

Definition MAX_CLIENTS : nat := 32.
Definition MAX_ISSUED_ENDPOINT_IDS : nat := 128.
Definition MAX_ISSUED_PUBLICATION_IDS : nat := 64.
Definition MAX_ISSUED_CLIENT_IDS : nat := 64.

Inductive EndpointKind := KPublication | KClient.

Record EndpointIdentity := mkIdentity { id : Z; id_generation : Z }.
#[global] Instance EndpointIdentity_eq_dec : EqDecision EndpointIdentity.
Proof. solve_decision. Defined.

Record InstalledEndpoint := mkInstalledEndpoint {
  ie_identity : EndpointIdentity; ie_handle : Z; ie_kind : EndpointKind }.

Record ForwardOffer := mkForwardOffer {
  fo_publication : EndpointIdentity; fo_publication_handle : Z;
  fo_service_generation : Z; fo_client_transaction : Z }.

Record ServiceMetadata := mkServiceMetadata {
  md_name : list Z; md_name_len : Z; md_protocol_id : Z;
  md_versions : list ProtocolVersion; md_version_count : Z; md_service_generation : Z }.

Inductive RegistryError :=
| RZeroIdentity | RWrongRegistryGeneration | RDuplicateEndpoint | RDuplicatePublication
| RDuplicateClient | RDuplicateService | RStaleServiceGeneration | RCapacity
| RUnknownEndpoint | RWrongEndpointGeneration | RNotPublished | RUnsupportedVersion
| REnumerationDenied | RTransactionLive | RTransactionReplay | ROutstandingLimit
| RWrongEndpointKind | RUnknownTransaction | RInvalidState.

Record WatchNotification := mkWatchNotification {
  wn_client : EndpointIdentity; wn_client_handle : Z;
  wn_transaction_id : Z; wn_service_generation : Z }.

Record WatchNotifications := mkWatchNotifications {
  wns_entries : list (option WatchNotification); wns_len : nat }.

Definition notifications_new : WatchNotifications :=
  mkWatchNotifications (replicate (Z.to_nat MAX_PENDING_WATCHES) None) 0.

Definition notifications_push (n : WatchNotifications) (x : WatchNotification)
    : res RegistryError WatchNotifications :=
  assert! (wns_len n <? length (wns_entries n))%nat;;
  Ok (mkWatchNotifications (<[wns_len n := Some x]> (wns_entries n)) (S (wns_len n))).

Definition notifications_get (n : WatchNotifications) (index : nat) : option WatchNotification :=
  match wns_entries n !! index with Some (Some x) => Some x | _ => None end.

Inductive WatchDisposition := Immediate (service_generation : Z) | Pending.

Record PublishOutcome := mkPublishOutcome {
  po_service_generation : Z; po_notifications : WatchNotifications }.
Record PublishTicket := mkPublishTicket {
  pt_endpoint : EndpointIdentity; pt_transaction : Z }.
Record RetireOutcome := mkRetireOutcome {
  ro_registry_handle : Z; ro_service_generation : Z; ro_notifications : WatchNotifications }.
Record PeerCloseOutcome := mkPeerCloseOutcome {
  pc_handle : Z; pc_kind : EndpointKind; pc_notifications : WatchNotifications }.
Record EnumerationTicket := mkEnumerationTicket {
  et_client : EndpointIdentity; et_transaction : Z; et_total_count : Z; et_page_count : Z }.

(** ** [Replay<N>]: the ring of completed transactions; [N] is the length of
    [entries]. *)

Record Replay := mkReplay { entries : list Z; start : nat; rlen : nat }.

Definition replay_new (N : nat) : Replay := mkReplay (replicate N 0) 0 0.

Definition replay_contains (r : Replay) (value : Z) : bool :=
  existsb (fun index =>
    bool_decide (entries r !! ((start r + index) mod length (entries r))%nat = Some value))
    (seq 0 (rlen r)).

Definition replay_push (r : Replay) (value : Z) : Replay :=
  let N := length (entries r) in
  if (rlen r <? N)%nat
  then mkReplay (<[((start r + rlen r) mod N)%nat := value]> (entries r)) (start r) (S (rlen r))
  else mkReplay (<[start r := value]> (entries r)) ((start r + 1) mod N)%nat (rlen r).

(** ** Publications, slots, clients, watches *)

Inductive PublicationPhase := Installed | Published.
#[global] Instance PublicationPhase_eq_dec : EqDecision PublicationPhase.
Proof. solve_decision. Defined.

Record Publication := mkPublication {
  p_endpoint : EndpointIdentity; p_handle : Z; role_id : Z; publication_id : Z;
  service_generation : Z; protocol_id : Z; versions : list ProtocolVersion;
  version_count : Z; phase : PublicationPhase; live_transaction : Z; p_replay : Replay }.

Definition supports (p : Publication) (version : ProtocolVersion) : bool :=
  contains version (take (Z.to_nat (version_count p)) (versions p)).

Record ServiceSlot := mkServiceSlot {
  s_name : list Z; s_name_len : Z; last_generation : Z; active : option Publication }.

(** [ServiceSlot::name], [PendingWatch::name], [ServiceMetadata::name]: the
    bytes of the array up to its length field (at most the array's length, by
    the invariant). *)
Definition slot_name (s : ServiceSlot) : list Z := take (Z.to_nat (s_name_len s)) (s_name s).
Definition metadata_name (m : ServiceMetadata) : list Z :=
  take (Z.to_nat (md_name_len m)) (md_name m).

Definition metadata (s : ServiceSlot) : option ServiceMetadata :=
  match active s with
  | None => None
  | Some publication =>
      if bool_decide (phase publication <> Published) then None
      else Some (mkServiceMetadata (s_name s) (s_name_len s) (protocol_id publication)
                   (versions publication) (version_count publication)
                   (service_generation publication))
  end.

Record Client := mkClient {
  c_endpoint : EndpointIdentity; c_handle : Z; client_id : Z; scope : EnumerationScope;
  live_transactions : list Z; live_count : nat; c_replay : Replay }.

Definition client_live (c : Client) : list Z := take (live_count c) (live_transactions c).

(** [Client::reserve] *)
Definition reserve (c : Client) (transaction : Z) : res RegistryError Client :=
  reject_if! transaction =? 0 with RZeroIdentity;;
  reject_if! replay_contains (c_replay c) transaction with RTransactionReplay;;
  reject_if! contains transaction (client_live c) with RTransactionLive;;
  reject_if! (live_count c =? length (live_transactions c))%nat with ROutstandingLimit;;
  assert! (live_count c <? length (live_transactions c))%nat;;
  Ok (mkClient (c_endpoint c) (c_handle c) (client_id c) (scope c)
        (<[live_count c := transaction]> (live_transactions c)) (S (live_count c)) (c_replay c)).

(** [Client::complete] *)
Definition complete (c : Client) (transaction : Z) : res RegistryError Client :=
  match position (fun value => value =? transaction) (client_live c) with
  | None => Ok c
  | Some index =>
      let live_count := (live_count c - 1)%nat in
      let! moved := or_panic (live_transactions c !! live_count) in
      Ok (mkClient (c_endpoint c) (c_handle c) (client_id c) (scope c)
            (<[live_count := 0]> (<[index := moved]> (live_transactions c))) live_count
            (replay_push (c_replay c) transaction))
  end.

Definition publication_reserve (p : Publication) (transaction : Z)
    : res RegistryError Publication :=
  reject_if! transaction =? 0 with RZeroIdentity;;
  reject_if! live_transaction p =? transaction with RTransactionLive;;
  reject_if! replay_contains (p_replay p) transaction with RTransactionReplay;;
  reject_if! negb (live_transaction p =? 0) with ROutstandingLimit;;
  Ok (mkPublication (p_endpoint p) (p_handle p) (role_id p) (publication_id p)
        (service_generation p) (protocol_id p) (versions p) (version_count p) (phase p)
        transaction (p_replay p)).

(** With the [debug_assert_eq!]. *)
Definition publication_complete (p : Publication) (transaction : Z)
    : res RegistryError Publication :=
  assert! live_transaction p =? transaction;;
  Ok (mkPublication (p_endpoint p) (p_handle p) (role_id p) (publication_id p)
        (service_generation p) (protocol_id p) (versions p) (version_count p) (phase p)
        0 (replay_push (p_replay p) transaction)).

(** [publication.phase = PublicationPhase::Published] *)
Definition set_published (p : Publication) : Publication :=
  mkPublication (p_endpoint p) (p_handle p) (role_id p) (publication_id p)
    (service_generation p) (protocol_id p) (versions p) (version_count p) Published
    (live_transaction p) (p_replay p).

Record PendingWatch := mkPendingWatch {
  w_client : EndpointIdentity; w_client_handle : Z; w_transaction : Z; w_protocol_id : Z;
  w_last_generation : Z; w_name : list Z; w_name_len : Z }.
Definition watch_name (w : PendingWatch) : list Z := take (Z.to_nat (w_name_len w)) (w_name w).

Record RegistryState := mkState {
  r_generation : Z;
  services : list (option ServiceSlot);
  clients : list (option Client);
  watches : list (option PendingWatch);
  issued_endpoint_ids : list Z; issued_endpoint_count : nat;
  issued_publication_ids : list Z; issued_publication_count : nat;
  issued_client_ids : list Z; issued_client_count : nat }.

Definition set_services (s : RegistryState) (v : list (option ServiceSlot)) : RegistryState :=
  mkState (r_generation s) v (clients s) (watches s)
    (issued_endpoint_ids s) (issued_endpoint_count s)
    (issued_publication_ids s) (issued_publication_count s)
    (issued_client_ids s) (issued_client_count s).
Definition set_clients (s : RegistryState) (v : list (option Client)) : RegistryState :=
  mkState (r_generation s) (services s) v (watches s)
    (issued_endpoint_ids s) (issued_endpoint_count s)
    (issued_publication_ids s) (issued_publication_count s)
    (issued_client_ids s) (issued_client_count s).
Definition set_watches (s : RegistryState) (v : list (option PendingWatch)) : RegistryState :=
  mkState (r_generation s) (services s) (clients s) v
    (issued_endpoint_ids s) (issued_endpoint_count s)
    (issued_publication_ids s) (issued_publication_count s)
    (issued_client_ids s) (issued_client_count s).

(** ** The state and error monad of the methods *)

Definition M (A : Type) : Type := RegistryState -> RegistryState * res RegistryError A.

#[global] Instance M_ret : MRet M := fun A a s => (s, Ok a).
#[global] Instance M_bind : MBind M := fun A B k c s =>
  match c s with
  | (s', Ok a) => k a s'
  | (s', Err e) => (s', Err e)
  | (s', Panic) => (s', Panic)
  end.
Definition fail_with {A} (e : RegistryError) : M A := fun s => (s, Err e).
(** A value computed from the state, without changing it ([&self]). *)
Definition reads {A} (f : RegistryState -> res RegistryError A) : M A := fun s => (s, f s).
Definition modify (f : RegistryState -> RegistryState) : M unit := fun s => (f s, Ok tt).
(** [self.array[index]] with bounds and [unwrap] checked. *)
Definition client_at (index : nat) : M Client :=
  reads (fun s => or_panic (match clients s !! index with Some (Some c) => Some c | _ => None end)).
Definition slot_at (index : nat) : M ServiceSlot :=
  reads (fun s => or_panic (match services s !! index with Some (Some x) => Some x | _ => None end)).
Definition set_client (index : nat) (c : option Client) : M unit :=
  modify (fun s => set_clients s (<[index := c]> (clients s))).
Definition set_slot (index : nat) (x : option ServiceSlot) : M unit :=
  modify (fun s => set_services s (<[index := x]> (services s))).
Definition set_watch (index : nat) (w : option PendingWatch) : M unit :=
  modify (fun s => set_watches s (<[index := w]> (watches s))).
Definition with_active (x : ServiceSlot) (p : option Publication) : ServiceSlot :=
  mkServiceSlot (s_name x) (s_name_len x) (last_generation x) p.
(** [self.services[index].as_mut().unwrap().active.as_mut().unwrap()] *)
Definition publication_at (index : nat) : M Publication :=
  x ← slot_at index; reads (fun _ => or_panic (active x)).
Definition set_publication (index : nat) (p : option Publication) : M unit :=
  x ← slot_at index; set_slot index (Some (with_active x p)).
(** Methods of [Client] and the publication helpers applied in place. *)
Definition client_reserve (index : nat) (transaction : Z) : M unit :=
  c ← client_at index; c' ← reads (fun _ => reserve c transaction); set_client index (Some c').
Definition client_complete (index : nat) (transaction : Z) : M unit :=
  c ← client_at index; c' ← reads (fun _ => complete c transaction); set_client index (Some c').
Definition reserve_publication (index : nat) (transaction : Z) : M unit :=
  p ← publication_at index; p' ← reads (fun _ => publication_reserve p transaction);
  set_publication index (Some p').
Definition complete_publication (index : nat) (transaction : Z) : M unit :=
  p ← publication_at index; p' ← reads (fun _ => publication_complete p transaction);
  set_publication index (Some p').

(** ** Queries *)

(** [RegistryState::new] *)
Definition registry_new (generation : Z) : res RegistryError RegistryState :=
  reject_if! generation =? 0 with RZeroIdentity;;
  Ok (mkState generation (replicate (Z.to_nat MAX_SERVICES) None) (replicate MAX_CLIENTS None)
        (replicate (Z.to_nat MAX_PENDING_WATCHES) None)
        (replicate MAX_ISSUED_ENDPOINT_IDS 0) 0 (replicate MAX_ISSUED_PUBLICATION_IDS 0) 0
        (replicate MAX_ISSUED_CLIENT_IDS 0) 0).

Definition is_published (x : ServiceSlot) : bool := bool_decide (is_Some (metadata x)).

Definition published_count (s : RegistryState) : nat :=
  length (filter (fun x => is_published x = true) (flatten (services s))).
Definition pending_watch_count (s : RegistryState) : nat := length (flatten (watches s)).

Definition installed_endpoint (s : RegistryState) (index : nat) : option InstalledEndpoint :=
  let publications := flatten ((fun x : ServiceSlot =>
      (fun p => mkInstalledEndpoint (p_endpoint p) (p_handle p) KPublication) <$> active x)
    <$> flatten (services s)) in
  let clients := (fun c => mkInstalledEndpoint (c_endpoint c) (c_handle c) KClient)
    <$> flatten (clients s) in
  (publications ++ clients) !! index.

Definition publication_index (endpoint : EndpointIdentity) (s : RegistryState)
    : res RegistryError nat :=
  let! index := ok_or RUnknownEndpoint (position (fun slot : option ServiceSlot =>
      match slot with
      | Some x => match active x with
                  | Some publication => id (p_endpoint publication) =? id endpoint
                  | None => false
                  end
      | None => false
      end) (services s)) in
  let! publication := or_panic (match services s !! index with
                                | Some (Some x) => active x
                                | _ => None
                                end) in
  reject_if! bool_decide (p_endpoint publication <> endpoint) with RWrongEndpointGeneration;;
  Ok index.

Definition client_index (endpoint : EndpointIdentity) (s : RegistryState)
    : res RegistryError nat :=
  let! index := ok_or RUnknownEndpoint (position (fun client : option Client =>
      match client with
      | Some c => id (c_endpoint c) =? id endpoint
      | None => false
      end) (clients s)) in
  let! client := or_panic (match clients s !! index with Some (Some c) => Some c | _ => None end) in
  reject_if! bool_decide (c_endpoint client <> endpoint) with RWrongEndpointGeneration;;
  Ok index.

Definition current_generation (s : RegistryState) (protocol : Z) (name : list Z) : Z :=
  default 0 (find_map (fun x =>
    match active x with
    | None => None
    | Some publication =>
        if bool_decide (slot_name x = name) && (protocol_id publication =? protocol)
             && bool_decide (phase publication = Published)
        then Some (service_generation publication) else None
    end) (flatten (services s))).

(** [min_by] keeps the first of equal minima. *)
Fixpoint min_by_name (best : option ServiceSlot) (l : list ServiceSlot) : option ServiceSlot :=
  match l with
  | [] => best
  | x :: l =>
      min_by_name (match best with
                   | Some b => if bytes_ltb (slot_name x) (slot_name b) then Some x else Some b
                   | None => Some x
                   end) l
  end.

(** The loop [for _ in 0..=target], [rounds = target + 1]. *)
Fixpoint nth_canonical_from (values : list (option ServiceSlot)) (rounds : nat)
    (previous : option (list Z)) (selected : option ServiceSlot) : option ServiceSlot :=
  match rounds with
  | O => selected
  | S rounds =>
      match min_by_name None
              (filter (fun x => is_published x &&
                 match previous with
                 | None => true
                 | Some name => bytes_ltb name (slot_name x)
                 end = true) (flatten values)) with
      | None => None
      | Some x => nth_canonical_from values rounds (Some (slot_name x)) (Some x)
      end
  end.
Definition nth_canonical (values : list (option ServiceSlot)) (target : nat)
    : option ServiceSlot :=
  nth_canonical_from values (S target) None None.

Definition validate_install (generation : Z) (endpoint : EndpointIdentity) (handle : Z)
    (s : RegistryState) : res RegistryError unit :=
  reject_if! negb (generation =? r_generation s) with RWrongRegistryGeneration;;
  reject_if! (id endpoint =? 0) || (id_generation endpoint =? 0) || (handle =? 0)
    with RZeroIdentity;;
  Ok tt.

(** [self.issued_ids[..self.issued_count].contains(&id)] *)
Definition issued (ids : list Z) (count : nat) : list Z := take count ids.

Definition validate_fresh_endpoint_id (value : Z) (s : RegistryState) : res RegistryError unit :=
  reject_if! contains value (issued (issued_endpoint_ids s) (issued_endpoint_count s))
    with RDuplicateEndpoint;;
  reject_if! (issued_endpoint_count s =? MAX_ISSUED_ENDPOINT_IDS)%nat with RCapacity;;
  Ok tt.

Definition record_endpoint_id (value : Z) : M unit :=
  ok ← reads (fun s => assert! (issued_endpoint_count s <? length (issued_endpoint_ids s))%nat;;
                       Ok tt);
  modify (fun s => mkState (r_generation s) (services s) (clients s) (watches s)
    (<[issued_endpoint_count s := value]> (issued_endpoint_ids s)) (S (issued_endpoint_count s))
    (issued_publication_ids s) (issued_publication_count s)
    (issued_client_ids s) (issued_client_count s)).

Definition record_publication_id (value : Z) : M unit :=
  ok ← reads (fun s =>
    assert! (issued_publication_count s <? length (issued_publication_ids s))%nat;; Ok tt);
  modify (fun s => mkState (r_generation s) (services s) (clients s) (watches s)
    (issued_endpoint_ids s) (issued_endpoint_count s)
    (<[issued_publication_count s := value]> (issued_publication_ids s))
    (S (issued_publication_count s))
    (issued_client_ids s) (issued_client_count s)).

Definition record_client_id (value : Z) : M unit :=
  ok ← reads (fun s => assert! (issued_client_count s <? length (issued_client_ids s))%nat;; Ok tt);
  modify (fun s => mkState (r_generation s) (services s) (clients s) (watches s)
    (issued_endpoint_ids s) (issued_endpoint_count s)
    (issued_publication_ids s) (issued_publication_count s)
    (<[issued_client_count s := value]> (issued_client_ids s)) (S (issued_client_count s))).

(** ** Installation *)

(** [name[..v.len()].copy_from_slice(v)] into a zeroed array. *)
Definition name_array (v : list Z) : res RegistryError (list Z) :=
  or_panic (put_range (replicate (Z.to_nat MAX_SERVICE_NAME_BYTES) 0) 0 v).

(** The loop over [versions.iter_mut().enumerate().take(list.len())]. *)
Fixpoint copy_versions (target : list ProtocolVersion) (source : VersionList) (index : Z)
    : res RegistryError (list ProtocolVersion) :=
  match target with
  | [] => Ok []
  | slot :: target =>
      if index <? version_list_len source then
        let! version := or_panic (version_list_get source index) in
        let! rest := copy_versions target source (index + 1) in
        Ok (version :: rest)
      else Ok (slot :: target)
  end.

Definition free_or_matching_slot (install : InstallPublication) (s : RegistryState)
    : res RegistryError nat :=
  match position (fun slot : option ServiceSlot =>
          match slot with
          | Some x => bool_decide (slot_name x = ip_service_name install)
          | None => false
          end) (services s) with
  | Some index =>
      let! slot := or_panic (match services s !! index with Some (Some x) => Some x | _ => None end) in
      reject_if! bool_decide (is_Some (active slot)) with RDuplicateService;;
      reject_if! ip_service_generation install <=? last_generation slot
        with RStaleServiceGeneration;;
      Ok index
  | None =>
      ok_or RCapacity (position (fun slot => bool_decide (slot = None)) (services s))
  end.

Definition install_publication (registry_generation handle : Z) (install : InstallPublication)
    : M unit :=
  let endpoint := mkIdentity (ip_endpoint_id install) (ip_endpoint_generation install) in
  _ ← reads (validate_install registry_generation endpoint handle);
  _ ← reads (validate_fresh_endpoint_id (id endpoint));
  _ ← reads (fun s =>
    reject_if! contains (ip_publication_id install)
        (issued (issued_publication_ids s) (issued_publication_count s))
      with RDuplicatePublication;;
    reject_if! (issued_publication_count s =? MAX_ISSUED_PUBLICATION_IDS)%nat with RCapacity;;
    Ok tt);
  index ← reads (free_or_matching_slot install);
  name ← reads (fun _ => name_array (ip_service_name install));
  versions ← reads (fun _ =>
    copy_versions (replicate (Z.to_nat MAX_PROTOCOL_VERSIONS) default_version)
      (ip_versions install) 0);
  _ ← set_slot index (Some (mkServiceSlot name (len (ip_service_name install) mod 2 ^ 8)
    (ip_service_generation install)
    (Some (mkPublication endpoint handle (ip_supervisor_role_id install)
             (ip_publication_id install) (ip_service_generation install)
             (ip_protocol_id install) versions
             (version_list_len (ip_versions install) mod 2 ^ 8) Installed 0
             (replay_new (Z.to_nat MAX_PUBLICATION_REPLAY))))));
  _ ← record_endpoint_id (id endpoint);
  record_publication_id (ip_publication_id install).

Definition install_client (registry_generation handle : Z) (install : InstallClient) : M unit :=
  let endpoint := mkIdentity (ic_endpoint_id install) (ic_endpoint_generation install) in
  _ ← reads (validate_install registry_generation endpoint handle);
  _ ← reads (validate_fresh_endpoint_id (id endpoint));
  _ ← reads (fun s =>
    reject_if! contains (ic_client_id install)
        (issued (issued_client_ids s) (issued_client_count s)) with RDuplicateClient;;
    reject_if! (issued_client_count s =? MAX_ISSUED_CLIENT_IDS)%nat with RCapacity;;
    Ok tt);
  index ← reads (fun s =>
    ok_or RCapacity (position (fun client => bool_decide (client = None)) (clients s)));
  _ ← set_client index (Some (mkClient endpoint handle (ic_client_id install) (ic_scope install)
    (replicate (Z.to_nat MAX_OUTSTANDING_PER_CLIENT) 0) 0
    (replay_new (Z.to_nat MAX_CLIENT_REPLAY))));
  _ ← record_endpoint_id (id endpoint);
  record_client_id (ic_client_id install).

(** ** Notification of watches *)

Definition watch_matches (protocol : Z) (name : list Z) (generation : Z) (w : PendingWatch) : bool :=
  (w_protocol_id w =? protocol) && bool_decide (watch_name w = name)
  && negb (w_last_generation w =? generation).

(** The loop [for index in 0..self.watches.len()], from [index], [count] to go. *)
Fixpoint notify_from (protocol : Z) (name : list Z) (generation : Z) (index count : nat)
    (notifications : WatchNotifications) : M WatchNotifications :=
  match count with
  | O => mret notifications
  | S count =>
      watch ← reads (fun s => or_panic (watches s !! index));
      match watch with
      | None => notify_from protocol name generation (S index) count notifications
      | Some watch =>
          if watch_matches protocol name generation watch then
            found ← reads (fun s => match client_index (w_client watch) s with
                                    | Ok i => Ok (Some i)
                                    | Err _ => Ok None
                                    | Panic => Panic
                                    end);
            notifications ←
              match found with
              | Some client_index =>
                  _ ← client_complete client_index (w_transaction watch);
                  reads (fun _ => notifications_push notifications
                    (mkWatchNotification (w_client watch) (w_client_handle watch)
                       (w_transaction watch) generation))
              | None => mret notifications
              end;
            _ ← set_watch index None;
            notify_from protocol name generation (S index) count notifications
          else notify_from protocol name generation (S index) count notifications
      end
  end.

Definition notify (protocol : Z) (name : list Z) (generation : Z) : M WatchNotifications :=
  n ← reads (fun s => Ok (length (watches s)));
  notify_from protocol name generation 0 n notifications_new.

(** ** Publication endpoints *)

Definition prepare_publish (endpoint : EndpointIdentity) (transaction : Z) : M PublishTicket :=
  index ← reads (publication_index endpoint);
  _ ← reserve_publication index transaction;
  publication ← publication_at index;
  if bool_decide (phase publication <> Installed) then
    _ ← complete_publication index transaction;
    fail_with RInvalidState
  else mret (mkPublishTicket endpoint transaction).

Definition commit_publish (ticket : PublishTicket) : M PublishOutcome :=
  index ← reads (publication_index (pt_endpoint ticket));
  publication ← publication_at index;
  if negb (live_transaction publication =? pt_transaction ticket)
     || bool_decide (phase publication <> Installed)
  then fail_with RInvalidState
  else
    _ ← set_publication index (Some (set_published publication));
    let generation := service_generation publication in
    _ ← complete_publication index (pt_transaction ticket);
    publication ← publication_at index;
    let protocol := protocol_id publication in
    slot ← slot_at index;
    notifications ← notify protocol (slot_name slot) generation;
    mret (mkPublishOutcome generation notifications).

Definition publish (endpoint : EndpointIdentity) (transaction : Z) : M PublishOutcome :=
  ticket ← prepare_publish endpoint transaction;
  commit_publish ticket.

Definition retire (endpoint : EndpointIdentity) (transaction : Z) : M RetireOutcome :=
  index ← reads (publication_index endpoint);
  _ ← reserve_publication index transaction;
  _ ← complete_publication index transaction;
  publication ← publication_at index;
  _ ← set_publication index None;
  slot ← slot_at index;
  notifications ← notify (protocol_id publication) (slot_name slot) 0;
  mret (mkRetireOutcome (p_handle publication) (service_generation publication) notifications).

(** ** Client endpoints *)

(** The published slot a lookup selects. *)
Definition lookup_publication (s : RegistryState) (request : Lookup) : option Publication :=
  find_map (fun x =>
    match active x with
    | None => None
    | Some publication =>
        if bool_decide (phase publication = Published)
             && (protocol_id publication =? lk_protocol_id request)
             && bool_decide (slot_name x = lk_service_name request)
        then Some publication else None
    end) (flatten (services s)).

Definition lookup_result (s : RegistryState) (transaction : Z) (request : Lookup)
    : res RegistryError ForwardOffer :=
  let! publication := ok_or RNotPublished (lookup_publication s request) in
  if supports publication (lk_version request)
  then Ok (mkForwardOffer (p_endpoint publication) (p_handle publication)
             (service_generation publication) transaction)
  else Err RUnsupportedVersion.

Definition lookup (client : EndpointIdentity) (transaction : Z) (request : Lookup)
    : M ForwardOffer :=
  client_index ← reads (client_index client);
  _ ← client_reserve client_index transaction;
  result ← reads (fun s => Ok (lookup_result s transaction request));
  _ ← client_complete client_index transaction;
  reads (fun _ => result).

Definition watch (client : EndpointIdentity) (transaction : Z) (request : Watch)
    : M WatchDisposition :=
  client_index ← reads (client_index client);
  _ ← client_reserve client_index transaction;
  current ← reads (fun s =>
    Ok (current_generation s (wt_protocol_id request) (wt_service_name request)));
  if negb (current =? wt_last_observed_generation request) then
    _ ← client_complete client_index transaction;
    mret (Immediate current)
  else
    per_client ← reads (fun s =>
      Ok (length (filter (fun w => w_client w = client) (flatten (watches s)))));
    free ← reads (fun s => Ok (position (fun w => bool_decide (w = None)) (watches s)));
    match free with
    | None =>
        _ ← client_complete client_index transaction;
        fail_with RCapacity
    | Some index =>
        if (per_client =? Z.to_nat MAX_OUTSTANDING_PER_CLIENT)%nat then
          _ ← client_complete client_index transaction;
          fail_with RCapacity
        else
          name ← reads (fun _ => name_array (wt_service_name request));
          c ← client_at client_index;
          _ ← set_watch index (Some (mkPendingWatch client (c_handle c) transaction
                (wt_protocol_id request) (wt_last_observed_generation request) name
                (len (wt_service_name request) mod 2 ^ 8)));
          mret Pending
    end.

Definition cancel (client : EndpointIdentity) (transaction target : Z) : M unit :=
  client_index ← reads (client_index client);
  _ ← client_reserve client_index transaction;
  target_index ← reads (fun s => Ok (position (fun w : option PendingWatch =>
      match w with
      | Some w => bool_decide (w_client w = client) && (w_transaction w =? target)
      | None => false
      end) (watches s)));
  match target_index with
  | Some target_index =>
      _ ← set_watch target_index None;
      _ ← client_complete client_index target;
      client_complete client_index transaction
  | None =>
      _ ← client_complete client_index transaction;
      fail_with RUnknownTransaction
  end.

(** With the [debug_assert!] on the page count. *)
Definition enumerate_begin (client : EndpointIdentity) (transaction : Z) : M EnumerationTicket :=
  index ← reads (client_index client);
  c ← client_at index;
  if bool_decide (scope c <> BootstrapMetadata) then
    _ ← client_reserve index transaction;
    _ ← client_complete index transaction;
    fail_with REnumerationDenied
  else
    _ ← client_reserve index transaction;
    total_count ← reads (fun s => Ok (Z.of_nat (published_count s) mod 2 ^ 16));
    let page_count := if total_count =? 0 then 1 else div_ceil2 total_count in
    _ ← reads (fun _ => assert! page_count <=? MAX_SERVICE_LIST_PAGES;; Ok tt);
    mret (mkEnumerationTicket client transaction total_count page_count).

Definition enumeration_record (ticket : EnumerationTicket) (index : nat)
    : M (option ServiceMetadata) :=
  client_index ← reads (client_index (et_client ticket));
  c ← client_at client_index;
  if negb (contains (et_transaction ticket) (client_live c)) then fail_with RUnknownTransaction
  else
    reads (fun s => Ok (match nth_canonical (services s) index with
                        | Some x => metadata x
                        | None => None
                        end)).

Definition enumeration_complete (ticket : EnumerationTicket) : M unit :=
  index ← reads (client_index (et_client ticket));
  c ← client_at index;
  if negb (contains (et_transaction ticket) (client_live c)) then fail_with RUnknownTransaction
  else client_complete index (et_transaction ticket).

Definition complete_transaction (endpoint : EndpointIdentity) (kind : EndpointKind)
    (transaction : Z) : M unit :=
  match kind with
  | KClient =>
      index ← reads (client_index endpoint);
      _ ← client_reserve index transaction;
      client_complete index transaction
  | KPublication =>
      index ← reads (publication_index endpoint);
      _ ← reserve_publication index transaction;
      complete_publication index transaction
  end.

Definition peer_closed (endpoint : EndpointIdentity) : M PeerCloseOutcome :=
  found ← reads (fun s => match publication_index endpoint s with
                          | Ok i => Ok (Some i)
                          | Err _ => Ok None
                          | Panic => Panic
                          end);
  match found with
  | Some index =>
      publication ← publication_at index;
      _ ← set_publication index None;
      slot ← slot_at index;
      notifications ← notify (protocol_id publication) (slot_name slot) 0;
      mret (mkPeerCloseOutcome (p_handle publication) KPublication notifications)
  | None =>
      index ← reads (client_index endpoint);
      client ← client_at index;
      _ ← set_client index None;
      _ ← modify (fun s => set_watches s ((fun w : option PendingWatch =>
            match w with
            | Some w => if bool_decide (w_client w = endpoint) then None else Some w
            | None => None
            end) <$> watches s));
      mret (mkPeerCloseOutcome (c_handle client) KClient notifications_new)
  end.

End Registry.
