(* ===== verification/RegistryReplay.v ===== *)
(** * Transaction windows of the registry

    The ring [Replay<N>] refines the list of the last [N] completed
    transactions, oldest first; [Client::reserve] and [complete] refine a set of
    live transactions over it. *)

From stdpp Require Import base tactics option list list_numbers sorting.
From Stdlib Require Import ZArith Lia.
From S2P Require Import Prelude Bytes Utf8 RegistryProto Registry.
Import RegistryProto Registry.

(** The last [n] elements. *)
Definition last_n {A} (n : nat) (l : list A) : list A := drop (length l - n) l.

Definition replay_wf (N : nat) (r : Replay) : Prop :=
  length (entries r) = N /\ (start r < N)%nat /\ (rlen r <= N)%nat.

(** What the ring stands for. *)
Definition replay_list (r : Replay) : list Z :=
  (fun i => entries r !!! ((start r + i) mod length (entries r))%nat) <$> seq 0 (rlen r).

Lemma wrap_mod (N a b : nat) :
  (a < N)%nat -> (b <= N)%nat ->
  ((a + b) mod N = if decide (a + b < N) then a + b else a + b - N)%nat.
Proof.
  intros Ha Hb. case_decide; [by apply Nat.mod_small|].
  replace (a + b)%nat with (a + b - N + 1 * N)%nat at 1 by lia.
  rewrite Nat.Div0.mod_add. apply Nat.mod_small. lia.
Qed.

Lemma length_replay_list r : length (replay_list r) = rlen r.
Proof. unfold replay_list. by rewrite length_fmap, length_seq. Qed.

Lemma lookup_replay_list r i :
  (i < rlen r)%nat ->
  replay_list r !! i = Some (entries r !!! ((start r + i) mod length (entries r))%nat).
Proof. intros. unfold replay_list. rewrite list_lookup_fmap, lookup_seq_lt by lia. done. Qed.

Lemma replay_new_wf N : (0 < N)%nat -> replay_wf N (replay_new N).
Proof. intros. split_and!; simpl; [apply length_replicate|lia|lia]. Qed.

Lemma replay_push_wf N r v : replay_wf N r -> replay_wf N (replay_push r v).
Proof.
  intros (Hl & Hs & Hn). unfold replay_push. rewrite Hl.
  destruct (Nat.ltb_spec (rlen r) N); split_and!; simpl; rewrite ?length_insert; try lia.
  apply Nat.mod_upper_bound. lia.
Qed.

Lemma replay_list_push N r v :
  replay_wf N r -> replay_list (replay_push r v) = last_n N (replay_list r ++ [v]).
Proof.
  intros (Hl & Hs & Hn). unfold last_n. rewrite length_app, length_replay_list. simpl length.
  unfold replay_push. rewrite Hl. apply list_eq. intros i. rewrite lookup_drop.
  destruct (Nat.ltb_spec (rlen r) N).
  - destruct (decide (i < S (rlen r))%nat); cycle 1.
    { rewrite !lookup_ge_None_2; [done|..];
        rewrite ?length_app, ?length_replay_list; simpl; lia. }
    rewrite lookup_replay_list by (simpl; lia). simpl. rewrite length_insert, Hl.
    replace (rlen r + 1 - N + i)%nat with i by lia. rewrite !wrap_mod by lia.
    destruct (decide (i = rlen r)) as [->|].
    + rewrite list_lookup_total_insert_eq by (case_decide; lia).
      by rewrite lookup_app_r, length_replay_list, Nat.sub_diag by (rewrite length_replay_list; lia).
    + rewrite list_lookup_total_insert_ne by (repeat case_decide; lia).
      rewrite lookup_app_l, lookup_replay_list, Hl, wrap_mod
        by (rewrite ?length_replay_list; lia). done.
  - assert (rlen r = N) as Hr by lia.
    destruct (decide (i < N)%nat); cycle 1.
    { rewrite !lookup_ge_None_2; [done|..];
        rewrite ?length_app, ?length_replay_list; simpl; lia. }
    rewrite lookup_replay_list by (simpl; lia). simpl. rewrite length_insert, Hl, Hr.
    replace (N + 1 - N + i)%nat with (S i) by lia.
    rewrite Nat.Div0.add_mod_idemp_l, <-Nat.add_assoc, !wrap_mod by lia.
    destruct (decide (i = N - 1)%nat) as [->|].
    + rewrite decide_False by lia. replace (start r + (1 + (N - 1)) - N)%nat with (start r) by lia.
      rewrite list_lookup_total_insert_eq by lia.
      rewrite lookup_app_r by (rewrite length_replay_list; lia).
      by replace (S (N - 1) - length (replay_list r))%nat with 0%nat
        by (rewrite length_replay_list; lia).
    + rewrite list_lookup_total_insert_ne by (case_decide; lia).
      rewrite lookup_app_l, lookup_replay_list, Hl, wrap_mod
        by (rewrite ?length_replay_list; lia). done.
Qed.

Lemma replay_contains_list N r v :
  replay_wf N r -> replay_contains r v = contains v (replay_list r).
Proof.
  intros (Hl & Hs & Hn). apply eq_true_iff_eq.
  unfold replay_contains. rewrite existsb_exists, contains_true. split.
  - intros (i & Hi%in_seq & He). bool_prop.
    apply list_elem_of_lookup. exists i. rewrite lookup_replay_list by lia.
    f_equal. by apply list_lookup_total_correct.
  - intros (i & Hi)%list_elem_of_lookup.
    assert (i < rlen r)%nat by (apply lookup_lt_Some in Hi; by rewrite length_replay_list in Hi).
    exists i. split; [apply in_seq; lia|]. apply bool_decide_eq_true.
    rewrite lookup_replay_list in Hi by done. injection Hi as <-.
    apply list_lookup_lookup_total_lt. apply Nat.mod_upper_bound. lia.
Qed.

Lemma elem_of_last_n {A} n (l : list A) x : x ∈ last_n n l -> x ∈ l.
Proof.
  unfold last_n. rewrite !list_elem_of_lookup. intros [i Hi]. rewrite lookup_drop in Hi. eauto.
Qed.

Lemma last_n_all {A} n (l : list A) : (length l <= n)%nat -> last_n n l = l.
Proof. intros. unfold last_n. by replace (length l - n)%nat with 0%nat by lia. Qed.

Lemma last_n_last_n_app {A} n (l k : list A) : last_n n (last_n n l ++ k) = last_n n (l ++ k).
Proof.
  unfold last_n. rewrite !length_app, length_drop.
  destruct (decide (length l <= n)%nat).
  { replace (length l - n)%nat with 0%nat by lia. by rewrite Nat.sub_0_r, drop_0. }
  rewrite <-(drop_app_le l k (length l - n)) by lia. rewrite drop_drop. f_equal. lia.
Qed.

(** whatever is pushed into a [Replay<N>] ring, [contains] answers for
    exactly the last [N] values pushed: nothing newer is missed and nothing
    older is remembered. *)
Theorem replay_window (N : nat) (values : list Z) (v : Z) :
  (0 < N)%nat ->
  replay_contains (fold_left replay_push values (replay_new N)) v = true <->
  v ∈ last_n N values.
Proof.
  intros HN.
  assert (replay_wf N (fold_left replay_push values (replay_new N)) /\
    replay_list (fold_left replay_push values (replay_new N)) = last_n N values) as [Hw Hl].
  { induction values as [|x values [IHw IHl]] using rev_ind.
    { split; [by apply replay_new_wf|done]. }
    rewrite fold_left_app. simpl. split; [by apply replay_push_wf|].
    rewrite (replay_list_push N), IHl by done. apply last_n_last_n_app. }
  by rewrite (replay_contains_list N), contains_true, Hl.
Qed.

Lemma replay_window_witness :
  replay_contains (fold_left replay_push [5; 6; 7] (replay_new 2)) 6 = true <->
  6 ∈ last_n 2 [5; 6; 7].
Proof. apply (replay_window 2). lia. Defined.

(** ** Live transactions of a client *)

(** [swap_remove] by hand: overwrite with the last element, drop the last. *)
Lemma swap_remove_Permutation {A} (l : list A) (i n : nat) t m :
  l !! i = Some t -> l !! n = Some m -> length l = S n ->
  t :: take n (<[i := m]> l) ≡ₚ l.
Proof.
  intros Hi Hn Hl.
  assert (l = take n l ++ [m]) as Hsplit.
  { rewrite <-(take_S_r _ _ m) by done. symmetry. apply take_ge. lia. }
  destruct (decide (i = n)) as [->|Hne].
  - rewrite Hn in Hi. injection Hi as ->. rewrite take_insert_ge by lia.
    rewrite Hsplit at 2. apply Permutation_cons_append.
  - assert (i < n)%nat by (apply lookup_lt_Some in Hi; lia).
    assert (take n l !! i = Some t) as Ht by by rewrite lookup_take_lt by lia.
    rewrite take_insert_lt by lia. rewrite insert_take_drop by (rewrite length_take; lia).
    transitivity (take n l ++ [m]); [|by rewrite <-Hsplit].
    rewrite <-Permutation_cons_append. rewrite <-(take_drop_middle _ _ _ Ht) at 3.
    rewrite <-!Permutation_middle. apply perm_swap.
Qed.

Definition client_wf (c : Client) : Prop :=
  length (live_transactions c) = 16%nat /\ (live_count c <= 16)%nat /\
  replay_wf 32 (c_replay c) /\ NoDup (client_live c) /\
  Forall (fun t => t <> 0) (client_live c) /\
  (forall t, t ∈ client_live c -> t ∉ replay_list (c_replay c)).

(** Same client, other transactions. *)
Definition same_client (c c' : Client) : Prop :=
  c_endpoint c' = c_endpoint c /\ c_handle c' = c_handle c /\ client_id c' = client_id c /\
  scope c' = scope c.

Lemma length_client_live c : client_wf c -> length (client_live c) = live_count c.
Proof. intros (? & ? & _). unfold client_live. rewrite length_take. lia. Qed.

Lemma reserve_Ok c t c' :
  client_wf c -> reserve c t = Ok c' ->
  client_wf c' /\ same_client c c' /\ client_live c' = client_live c ++ [t] /\
  c_replay c' = c_replay c /\ t <> 0 /\ t ∉ client_live c /\ t ∉ replay_list (c_replay c).
Proof.
  intros (Hl & Hn & Hr & Hd & Hz & Hx) H. unfold reserve in H. res_inv. subst c'.
  rewrite (replay_contains_list 32) in * by done. bool_prop.
  assert (live_count c < 16)%nat by (apply Nat.eqb_neq in E2; lia).
  assert (take (S (live_count c)) (<[live_count c := t]> (live_transactions c)) =
          client_live c ++ [t]) as Hlive.
  { rewrite (take_S_r _ _ t) by (apply list_lookup_insert_eq; lia).
    by rewrite take_insert_ge by lia. }
  split_and!; try done.
  unfold client_wf. simpl. unfold client_live at 1 2 3. simpl. rewrite Hlive.
  split_and!; [by rewrite length_insert|lia|done|..].
  - apply NoDup_app. split_and!; [done| |apply NoDup_singleton].
    intros x Hx1 ->%list_elem_of_singleton. done.
  - apply Forall_app. split; [done|]. by constructor.
  - intros x [Hx1| ->%list_elem_of_singleton]%elem_of_app; [by apply Hx|done].
Qed.

Lemma reserve_not_panic c t : client_wf c -> reserve c t <> Panic.
Proof.
  intros (Hl & Hn & _). unfold reserve. no_panic; try done.
  apply Nat.ltb_ge in E3. apply Nat.eqb_neq in E2. lia.
Qed.

Lemma complete_live c t :
  client_wf c -> t ∈ client_live c ->
  exists c', complete c t = Ok c' /\ client_wf c' /\ same_client c c' /\
    t :: client_live c' ≡ₚ client_live c /\
    replay_list (c_replay c') = last_n 32 (replay_list (c_replay c) ++ [t]).
Proof.
  intros Hc Ht. pose proof (length_client_live c Hc) as Hlen.
  destruct Hc as (Hl & Hn & Hr & Hd & Hz & Hx). unfold complete.
  destruct (position _ (client_live c)) as [i|] eqn:Hp; cycle 1.
  { apply position_None in Hp. rewrite Forall_forall in Hp. specialize (Hp t Ht). bool_prop. done. }
  apply position_Some in Hp as (x & Hi & Hxt & _). bool_prop. subst x.
  pose proof (lookup_lt_Some _ _ _ Hi) as Hilt.
  destruct (lookup_lt_is_Some_2 (live_transactions c) (live_count c - 1)) as [m Hm]; [lia|].
  rewrite Hm. cbn [or_panic res_bind].
  assert (t :: take (live_count c - 1)
     (<[(live_count c - 1)%nat:=0]> (<[i:=m]> (live_transactions c))) ≡ₚ client_live c) as Hperm.
  { rewrite take_insert_ge by lia.
    transitivity (t :: take (live_count c - 1) (<[i:=m]> (client_live c))).
    - unfold client_live. rewrite <-take_insert_lt by lia. by rewrite take_take, Nat.min_l by lia.
    - apply swap_remove_Permutation; [done| |lia].
      unfold client_live. by rewrite lookup_take_lt by lia. }
  eexists. split; [done|]. split_and!; try done; [|by apply replay_list_push].
  assert (NoDup (t :: take (live_count c - 1)
     (<[(live_count c - 1)%nat:=0]> (<[i:=m]> (live_transactions c))))) as Hd' by by rewrite Hperm.
  apply NoDup_cons in Hd' as [Hnt Hd'].
  unfold client_wf, client_live at 1 2 3. simpl.
  split_and!; [by rewrite !length_insert|lia|by apply replay_push_wf|done|..].
  - rewrite <-Hperm in Hz. by apply Forall_cons in Hz as [_ ?].
  - intros y Hy Hy'. rewrite (replay_list_push 32) in Hy' by done.
    apply elem_of_last_n, elem_of_app in Hy' as [Hy'| ->%list_elem_of_singleton]; [|done].
    eapply Hx; [|done]. rewrite <-Hperm. by right.
Qed.

Lemma complete_not_live c t : t ∉ client_live c -> complete c t = Ok c.
Proof.
  intros Ht. unfold complete. destruct (position _ _) as [i|] eqn:Hp; [|done].
  apply position_Some in Hp as (x & Hi & Hxt & _). bool_prop. subst x.
  destruct Ht. by apply list_elem_of_lookup_2 in Hi.
Qed.

(** A request that is answered at once: the live transactions are as before,
    in order, and the window ends with the transaction. *)
Lemma reserve_complete c t c1 :
  client_wf c -> reserve c t = Ok c1 ->
  exists c2, complete c1 t = Ok c2 /\ client_wf c2 /\ same_client c c2 /\
    client_live c2 ≡ₚ client_live c /\
    replay_list (c_replay c2) = last_n 32 (replay_list (c_replay c) ++ [t]).
Proof.
  intros Hc H1. destruct (reserve_Ok _ _ _ Hc H1) as (Hw & Hs & Hl & Hr & _).
  destruct (complete_live c1 t Hw) as (c2 & H2 & Hw2 & Hs2 & Hp & Hr2).
  { rewrite Hl. apply elem_of_app. right. by apply list_elem_of_singleton. }
  exists c2. split_and!; [done|done| | |by rewrite Hr2, Hr].
  - unfold same_client in *. naive_solver congruence.
  - rewrite Hl in Hp. rewrite <-Permutation_cons_append in Hp. by apply Permutation_cons_inv in Hp.
Qed.
