(* ===== verification/RegistryInv.v ===== *)
(** * The registry invariant

    [wf] is the invariant of [RegistryState]: array shapes, distinct service
    names, endpoint identities that are unique and recorded as issued, and
    pending watches that belong to a live transaction of an installed client
    and whose observed generation is the current one.  Every operation
    preserves it and, from a state that satisfies it, none panics. *)

From stdpp Require Import base tactics option list list_numbers sorting.
From Stdlib Require Import ZArith Lia.
From S2P Require Import Prelude Bytes Utf8 RegistryProto Registry RegistryReplay.
Import RegistryProto Registry.

Implicit Types (SV : list (option ServiceSlot)) (C : list (option Client))
  (W : list (option PendingWatch)) (s : RegistryState).

(** ** The invariant, part by part *)

Definition publication_wf (p : Publication) : Prop :=
  length (versions p) = 4%nat /\ 0 <= version_count p <= 4 /\ replay_wf 8 (p_replay p).

Definition slot_wf (x : ServiceSlot) : Prop :=
  length (s_name x) = 128%nat /\ 0 <= s_name_len x <= 128 /\
  forall p, active x = Some p -> publication_wf p /\ service_generation p = last_generation x.

Definition services_ok (SV : list (option ServiceSlot)) : Prop :=
  length SV = 32%nat /\ (forall i x, SV !! i = Some (Some x) -> slot_wf x) /\
  forall i j x y, SV !! i = Some (Some x) -> SV !! j = Some (Some y) ->
    slot_name x = slot_name y -> i = j.

Definition clients_ok (C : list (option Client)) : Prop :=
  length C = 32%nat /\ forall i c, C !! i = Some (Some c) -> client_wf c.

(** Where an endpoint id is installed: a service slot or a client slot. *)
Definition holder (SV : list (option ServiceSlot)) (C : list (option Client))
    (k : nat + nat) (n : Z) : Prop :=
  match k with
  | inl i => exists x p, SV !! i = Some (Some x) /\ active x = Some p /\ id (p_endpoint p) = n
  | inr i => exists c, C !! i = Some (Some c) /\ id (c_endpoint c) = n
  end.

Definition ids_ok (SV : list (option ServiceSlot)) (C : list (option Client)) (E : list Z) : Prop :=
  (forall k k' n, holder SV C k n -> holder SV C k' n -> k = k') /\
  forall k n, holder SV C k n -> n ∈ E.

Definition watch_wf (C : list (option Client)) (w : PendingWatch) : Prop :=
  length (w_name w) = 128%nat /\ 0 <= w_name_len w <= 128 /\
  exists i c, C !! i = Some (Some c) /\ c_endpoint c = w_client w /\
    c_handle c = w_client_handle w /\ w_transaction w ∈ client_live c.

Definition watches_ok (C : list (option Client)) (W : list (option PendingWatch)) : Prop :=
  length W = 32%nat /\ (forall i w, W !! i = Some (Some w) -> watch_wf C w) /\
  forall i j w v, W !! i = Some (Some w) -> W !! j = Some (Some v) ->
    w_client w = w_client v -> w_transaction w = w_transaction v -> i = j.

Definition endpoints_issued (s : RegistryState) : list Z :=
  issued (issued_endpoint_ids s) (issued_endpoint_count s).

Definition issued_ok (s : RegistryState) : Prop :=
  length (issued_endpoint_ids s) = MAX_ISSUED_ENDPOINT_IDS /\
  (issued_endpoint_count s <= MAX_ISSUED_ENDPOINT_IDS)%nat /\
  length (issued_publication_ids s) = MAX_ISSUED_PUBLICATION_IDS /\
  (issued_publication_count s <= MAX_ISSUED_PUBLICATION_IDS)%nat /\
  length (issued_client_ids s) = MAX_ISSUED_CLIENT_IDS /\
  (issued_client_count s <= MAX_ISSUED_CLIENT_IDS)%nat /\
  NoDup (endpoints_issued s).

Record wf_core (s : RegistryState) : Prop := {
  wf_services : services_ok (services s);
  wf_clients : clients_ok (clients s);
  wf_ids : ids_ok (services s) (clients s) (endpoints_issued s);
  wf_watches : watches_ok (clients s) (watches s);
  wf_issued : issued_ok s }.

(** No pending watch has a generation other than the current one: there is no
    notification left to send. *)
Definition current_ok (s : RegistryState) : Prop :=
  forall i w, watches s !! i = Some (Some w) ->
    w_last_generation w = current_generation s (w_protocol_id w) (watch_name w).

Definition wf (s : RegistryState) : Prop := wf_core s /\ current_ok s.

(** ** Lookup of endpoints *)

Lemma client_index_Ok_1 e s i :
  client_index e s = Ok i -> exists c, clients s !! i = Some (Some c) /\ c_endpoint c = e.
Proof.
  unfold client_index. intros H. res_inv. subst.
  match goal with H : or_panic _ = Ok _ |- _ => apply or_panic_Ok in H | H : _ = Some _ |- _ => idtac end.
  repeat case_match; simplify_eq; eauto.
Qed.

Lemma client_index_not_panic e s : client_index e s <> Panic.
Proof.
  unfold client_index. no_panic. apply ok_or_Ok, position_Some in H as (x & Hx & Hp & _).
  rewrite Hx. destruct x; [|done]. by apply or_panic_not_panic.
Qed.

Lemma client_index_Ok_2 e s i c :
  ids_ok (services s) (clients s) (endpoints_issued s) ->
  clients s !! i = Some (Some c) -> c_endpoint c = e -> client_index e s = Ok i.
Proof.
  intros [Hinj _] Hi He. unfold client_index.
  destruct (position _ (clients s)) as [j|] eqn:Hp; cycle 1.
  { apply position_None in Hp. rewrite Forall_lookup in Hp. specialize (Hp _ _ Hi).
    simpl in Hp. bool_prop. by subst. }
  apply position_Some in Hp as (x & Hx & Hid & _). destruct x as [d|]; [|done]. bool_prop.
  assert (inr j = inr i :> nat + nat) as [= ->].
  { eapply Hinj; [by exists d|exists c]. by subst. }
  simpl. rewrite Hx. simplify_eq. simpl. by rewrite bool_decide_eq_false_2 by auto.
Qed.

Lemma publication_index_Ok_1 e s i :
  publication_index e s = Ok i ->
  exists x p, services s !! i = Some (Some x) /\ active x = Some p /\ p_endpoint p = e.
Proof.
  unfold publication_index. intros H. res_inv. subst.
  match goal with H : or_panic _ = Ok _ |- _ => apply or_panic_Ok in H | H : _ = Some _ |- _ => idtac end.
  repeat case_match; simplify_eq; eauto.
Qed.

Lemma publication_index_not_panic e s : publication_index e s <> Panic.
Proof.
  unfold publication_index. no_panic. apply ok_or_Ok, position_Some in H as (x & Hx & Hp & _).
  rewrite Hx. destruct x as [x|]; [|done]. destruct (active x); [|done]. by apply or_panic_not_panic.
Qed.

Lemma publication_index_Ok_2 e s i x p :
  ids_ok (services s) (clients s) (endpoints_issued s) ->
  services s !! i = Some (Some x) -> active x = Some p -> p_endpoint p = e ->
  publication_index e s = Ok i.
Proof.
  intros [Hinj _] Hi Ha He. unfold publication_index.
  destruct (position _ (services s)) as [j|] eqn:Hp; cycle 1.
  { apply position_None in Hp. rewrite Forall_lookup in Hp. specialize (Hp _ _ Hi).
    simpl in Hp. rewrite Ha in Hp. bool_prop. by subst. }
  apply position_Some in Hp as (y & Hy & Hid & _). destruct y as [y|]; [|done].
  destruct (active y) as [q|] eqn:Hq; [|done]. bool_prop.
  assert (inl j = inl i :> nat + nat) as [= ->].
  { eapply Hinj; [by exists y, q|exists x, p]. by subst. }
  simpl. rewrite Hy. simplify_eq. rewrite Ha. simpl. by rewrite bool_decide_eq_false_2 by auto.
Qed.

(** ** The current generation of a service *)

Definition cg (SV : list (option ServiceSlot)) (protocol : Z) (name : list Z) : Z :=
  default 0 (find_map (fun x =>
    match active x with
    | None => None
    | Some p =>
        if bool_decide (slot_name x = name) && (protocol_id p =? protocol)
             && bool_decide (phase p = Published)
        then Some (service_generation p) else None
    end) (flatten SV)).

(** The generation one slot publishes for a protocol. *)
Definition slot_gen (x : ServiceSlot) (protocol : Z) : Z :=
  match active x with
  | Some p => if (protocol_id p =? protocol) && bool_decide (phase p = Published)
              then service_generation p else 0
  | None => 0
  end.

Lemma elem_of_flatten_lookup {A} (l : list (option A)) x :
  x ∈ flatten l <-> exists i, l !! i = Some (Some x).
Proof. by rewrite elem_of_flatten, list_elem_of_lookup. Qed.

Lemma cg_at SV protocol i x :
  services_ok SV -> SV !! i = Some (Some x) -> cg SV protocol (slot_name x) = slot_gen x protocol.
Proof.
  intros (_ & _ & Hn) Hi. unfold cg. destruct (find_map _ _) as [g|] eqn:Hf; simpl.
  - apply find_map_Some in Hf as (y & (j & Hj)%elem_of_flatten_lookup & Hg).
    destruct (active y) as [p|] eqn:Hp; [|done].
    destruct (bool_decide (slot_name y = slot_name x)) eqn:Hs; [|done]. bool_prop.
    assert (j = i) as -> by by eapply Hn. rewrite Hi in Hj. injection Hj as ->.
    unfold slot_gen. rewrite Hp. simpl in Hg. by destruct (_ && _); simplify_eq.
  - apply find_map_None in Hf. rewrite Forall_forall in Hf.
    specialize (Hf x (proj2 (elem_of_flatten_lookup _ _) (ex_intro _ _ Hi))).
    unfold slot_gen. destruct (active x); [|done].
    rewrite bool_decide_eq_true_2 in Hf by done. simpl in Hf. by destruct (_ && _).
Qed.

Lemma cg_none SV protocol name :
  (forall i x, SV !! i = Some (Some x) -> slot_name x <> name) -> cg SV protocol name = 0.
Proof.
  intros Hn. unfold cg. destruct (find_map _ _) as [g|] eqn:Hf; [|done]. simpl.
  apply find_map_Some in Hf as (y & (j & Hj)%elem_of_flatten_lookup & Hg).
  destruct (active y); [|done]. rewrite bool_decide_eq_false_2 in Hg by by eapply Hn. done.
Qed.

Lemma slot_by_name SV name :
  (exists i x, SV !! i = Some (Some x) /\ slot_name x = name) \/
  (forall i x, SV !! i = Some (Some x) -> slot_name x <> name).
Proof.
  destruct (position (fun s : option ServiceSlot =>
    match s with Some x => bool_decide (slot_name x = name) | None => false end) SV) as [i|] eqn:Hp.
  - left. apply position_Some in Hp as (s & Hs & Hn & _). destruct s as [x|]; [|done].
    bool_prop. eauto.
  - right. apply position_None in Hp. rewrite Forall_lookup in Hp. intros i x Hx Hn.
    specialize (Hp _ _ Hx). simpl in Hp. bool_prop. done.
Qed.

(** Replacing a slot changes the generations of its name only. *)
Lemma cg_update SV i x x' protocol name :
  services_ok SV -> services_ok (<[i := Some x']> SV) ->
  SV !! i = Some (Some x) -> slot_name x' = slot_name x ->
  cg (<[i := Some x']> SV) protocol name =
  if decide (name = slot_name x) then slot_gen x' protocol else cg SV protocol name.
Proof.
  intros HS HS' Hi Hname. pose proof (lookup_lt_Some _ _ _ Hi) as Hlt. case_decide as Hd.
  - subst name. rewrite <-Hname. eapply cg_at; [done|]. by apply list_lookup_insert_eq.
  - destruct (slot_by_name SV name) as [(j & y & Hj & <-)|Hno].
    + assert (i <> j) by (intros ->; congruence).
      rewrite (cg_at SV _ j y HS Hj). apply (cg_at _ _ j); [done|]. by rewrite list_lookup_insert_ne.
    + rewrite (cg_none SV) by done. apply cg_none. intros j y Hj.
      destruct (decide (i = j)) as [<-|].
      * rewrite list_lookup_insert_eq in Hj by done. injection Hj as <-. congruence.
      * rewrite list_lookup_insert_ne in Hj by done. by eapply Hno.
Qed.

(** ** Updates that keep the invariant *)

Lemma insert_Some_inv {A} (l : list (option A)) i j (y : option A) x :
  <[i := y]> l !! j = Some (Some x) ->
  (i = j /\ y = Some x /\ (i < length l)%nat) \/ (i <> j /\ l !! j = Some (Some x)).
Proof. intros [(?&?&?)|[? ?]]%list_lookup_insert_Some; naive_solver. Qed.

Lemma ids_ok_mono SV C E SV' C' E' :
  (forall k n, holder SV' C' k n -> holder SV C k n) -> (forall n, n ∈ E -> n ∈ E') ->
  ids_ok SV C E -> ids_ok SV' C' E'.
Proof. intros Hh HE [H1 H2]. split; [intros k k' n ??; eapply H1; eauto | eauto]. Qed.

Lemma ids_ok_fresh SV C E SV' C' E' k0 n0 :
  n0 ∉ E -> n0 ∈ E' -> (forall n, n ∈ E -> n ∈ E') ->
  (forall k n, holder SV' C' k n -> holder SV C k n \/ k = k0 /\ n = n0) ->
  ids_ok SV C E -> ids_ok SV' C' E'.
Proof.
  intros Hf Hin HE Hh [H1 H2]. split.
  - intros k k' n [Hk|[-> ->]]%Hh [Hk'|[-> ?]]%Hh; [by eapply H1| | |done].
    + subst n. by apply H2 in Hk.
    + by apply H2 in Hk'.
  - intros k n [Hk|[-> ->]]%Hh; [by eapply HE, H2|done].
Qed.

(** A client changes its transactions, keeping those the watches refer to. *)
Lemma wf_core_set_client s i c c' :
  wf_core s -> clients s !! i = Some (Some c) -> same_client c c' -> client_wf c' ->
  (forall j w, watches s !! j = Some (Some w) -> w_client w = c_endpoint c ->
     w_transaction w ∈ client_live c') ->
  wf_core (set_clients s (<[i := Some c']> (clients s))).
Proof.
  intros [Hs [Hcl Hcw] Hi [Hwl [Hww Hwu]] Hiss] Hc (He & Hh & _) Hw' Hlive.
  assert (forall k n, holder (services s) (<[i := Some c']> (clients s)) k n ->
                      holder (services s) (clients s) k n) as Hhold.
  { intros [j|j] n; [done|]. intros (d & Hd & Hn).
    apply insert_Some_inv in Hd as [(-> & [= ->] & _)|[_ Hd]]; [|by exists d].
    exists c. split; [done|]. congruence. }
  split; simpl; [done| | | |done].
  - split; [by rewrite length_insert|]. intros j d [(-> & [= ->] & _)|[_ Hd]]%insert_Some_inv; eauto.
  - eapply ids_ok_mono; [exact Hhold|done|done].
  - split_and!; [done| |done]. intros j w Hj.
    destruct (Hww j w Hj) as (? & ? & k & d & Hd & Hde & Hdh & Hdt).
    do 2 (split; [done|]).
    destruct (decide (i = k)) as [<-|].
    + rewrite Hc in Hd. injection Hd as <-. exists i, c'.
      rewrite list_lookup_insert_eq by by eapply lookup_lt_Some.
      split_and!; [done|congruence|congruence|]. by eapply Hlive.
    + exists k, d. by rewrite list_lookup_insert_ne.
Qed.

Lemma current_ok_set_clients s C : current_ok s -> current_ok (set_clients s C).
Proof. done. Qed.

(** A watch is dropped. *)
Lemma watches_ok_drop C W i : watches_ok C W -> watches_ok C (<[i := None]> W).
Proof.
  intros (Hl & Hw & Hu). split_and!; [by rewrite length_insert| |].
  - intros j w [(_ & [=] & _)|[_ H]]%insert_Some_inv. eauto.
  - intros j k w v [(_ & [=] & _)|[_ H1]]%insert_Some_inv [(_ & [=] & _)|[_ H2]]%insert_Some_inv.
    eauto.
Qed.

Lemma wf_core_drop_watch s i : wf_core s -> wf_core (set_watches s (<[i := None]> (watches s))).
Proof. intros []. split; [done..| |done]. by apply watches_ok_drop. Qed.

(** A service slot changes its publication, keeping name and generation. *)
Lemma services_ok_update SV i x x' :
  services_ok SV -> SV !! i = Some (Some x) -> slot_name x' = slot_name x -> slot_wf x' ->
  services_ok (<[i := Some x']> SV).
Proof.
  intros (Hl & Hw & Hn) Hi Hname Hw'. split_and!; [by rewrite length_insert| |].
  - intros j y [(-> & [= ->] & _)|[_ H]]%insert_Some_inv; eauto.
  - intros j k y z [(-> & [= ->] & _)|[Hj H1]]%insert_Some_inv
      [(<- & [= ->] & _)|[Hk H2]]%insert_Some_inv Hyz; [done|..|by eapply Hn].
    + destruct Hk. eapply Hn; [done..|congruence].
    + destruct Hj. eapply Hn; [done..|congruence].
Qed.

Lemma wf_core_set_slot s i x x' :
  wf_core s -> services s !! i = Some (Some x) -> slot_name x' = slot_name x -> slot_wf x' ->
  (forall p', active x' = Some p' ->
     exists p, active x = Some p /\ p_endpoint p' = p_endpoint p) ->
  wf_core (set_services s (<[i := Some x']> (services s))).
Proof.
  intros [Hs Hc Hi Hw Hiss] Hx Hname Hwf Hpub. split; simpl; [|done| |done|done].
  - by eapply services_ok_update.
  - eapply ids_ok_mono; [|done|done]. intros [j|j] n; [|done].
    intros (y & p & [(-> & [= ->] & _)|[_ Hy]]%insert_Some_inv & Hp & Hn); [|by exists y, p].
    destruct (Hpub p Hp) as (q & Hq & He). exists x, q. split_and!; [done|done|congruence].
Qed.

(** ** Running the state monad *)

(** [x ← reads f; k] and friends reduce by computation; these are the
    equations for the array accesses. *)
Section run.
Context (s : RegistryState).

Lemma run_client_at i c : clients s !! i = Some (Some c) -> client_at i s = (s, Ok c).
Proof. intros H. unfold client_at, reads. by rewrite H. Qed.

Lemma run_slot_at i x : services s !! i = Some (Some x) -> slot_at i s = (s, Ok x).
Proof. intros H. unfold slot_at, reads. by rewrite H. Qed.

Lemma run_publication_at i x p :
  services s !! i = Some (Some x) -> active x = Some p -> publication_at i s = (s, Ok p).
Proof.
  intros H Hp. unfold publication_at, mbind, M_bind. rewrite (run_slot_at _ _ H).
  unfold reads. by rewrite Hp.
Qed.

Lemma run_set_publication i x p :
  services s !! i = Some (Some x) ->
  set_publication i p s = (set_services s (<[i := Some (with_active x p)]> (services s)), Ok tt).
Proof. intros H. unfold set_publication, mbind, M_bind. by rewrite (run_slot_at _ _ H). Qed.

Lemma run_client_reserve i c t :
  clients s !! i = Some (Some c) ->
  client_reserve i t s = match reserve c t with
                         | Ok c' => (set_clients s (<[i := Some c']> (clients s)), Ok tt)
                         | Err e => (s, Err e)
                         | Panic => (s, Panic)
                         end.
Proof.
  intros H. unfold client_reserve, mbind, M_bind. rewrite (run_client_at _ _ H).
  unfold reads. by destruct (reserve c t).
Qed.

Lemma run_client_complete i c t c' :
  clients s !! i = Some (Some c) -> complete c t = Ok c' ->
  client_complete i t s = (set_clients s (<[i := Some c']> (clients s)), Ok tt).
Proof.
  intros H Hc. unfold client_complete, mbind, M_bind. rewrite (run_client_at _ _ H).
  unfold reads. by rewrite Hc.
Qed.

Lemma run_reserve_publication i x p t :
  services s !! i = Some (Some x) -> active x = Some p ->
  reserve_publication i t s =
    match publication_reserve p t with
    | Ok p' => (set_services s (<[i := Some (with_active x (Some p'))]> (services s)), Ok tt)
    | Err e => (s, Err e)
    | Panic => (s, Panic)
    end.
Proof.
  intros H Hp. unfold reserve_publication, mbind, M_bind. rewrite (run_publication_at _ _ _ H Hp).
  unfold reads. destruct (publication_reserve p t); [|done|done]. by rewrite (run_set_publication _ _ _ H).
Qed.

Lemma run_complete_publication i x p t p' :
  services s !! i = Some (Some x) -> active x = Some p -> publication_complete p t = Ok p' ->
  complete_publication i t s =
    (set_services s (<[i := Some (with_active x (Some p'))]> (services s)), Ok tt).
Proof.
  intros H Hp Hc. unfold complete_publication, mbind, M_bind.
  rewrite (run_publication_at _ _ _ H Hp). unfold reads. rewrite Hc.
  by rewrite (run_set_publication _ _ _ H).
Qed.
End run.

Lemma set_clients_twice s C C' : set_clients (set_clients s C) C' = set_clients s C'.
Proof. done. Qed.
Lemma set_services_twice s SV SV' : set_services (set_services s SV) SV' = set_services s SV'.
Proof. done. Qed.

(** ** Requests answered at once *)

(** The client after its transaction [t] was reserved and completed. *)
Definition answered (c : Client) (t : Z) (c2 : Client) : Prop :=
  exists c1, reserve c t = Ok c1 /\ complete c1 t = Ok c2.

Lemma wf_answered s i c t c2 :
  wf s -> clients s !! i = Some (Some c) -> answered c t c2 ->
  wf (set_clients s (<[i := Some c2]> (clients s))).
Proof.
  intros [Hw Hcur] Hi (c1 & H1 & H2). split; [|by apply current_ok_set_clients].
  destruct (reserve_complete c t c1) as (c2' & H2' & Hw2 & Hs2 & Hp & _);
    [by eapply wf_clients|done|].
  rewrite H2' in H2. injection H2 as ->.
  eapply wf_core_set_client; [done..|]. intros j w Hj He.
  destruct (wf_watches _ Hw) as (_ & Hww & _). destruct (Hww j w Hj) as (_ & _ & k & d & Hd & Hde & _ & Ht).
  assert (inr k = inr i :> nat + nat) as [= ->].
  { eapply (wf_ids _ Hw); [by exists d|exists c]. split; [done|]. congruence. }
  rewrite Hi in Hd. injection Hd as <-. by rewrite Hp.
Qed.

(** ** Notification *)

Definition note_of (generation : Z) (w : PendingWatch) : WatchNotification :=
  mkWatchNotification (w_client w) (w_client_handle w) (w_transaction w) generation.

(** The pending watches a change to [generation] concerns, in slot order, and
    the watch table without them. *)
Definition matched (protocol : Z) (name : list Z) (generation : Z)
    (W : list (option PendingWatch)) : list WatchNotification :=
  note_of generation <$>
    filter (fun w => watch_matches protocol name generation w = true) (flatten W).

Definition swept (protocol : Z) (name : list Z) (generation : Z) (w : option PendingWatch)
    : option PendingWatch :=
  match w with
  | Some w => if watch_matches protocol name generation w then None else Some w
  | None => None
  end.

(** The notification array holds [L]. *)
Definition notes (n : WatchNotifications) (L : list WatchNotification) : Prop :=
  wns_entries n = (Some <$> L) ++ replicate (32 - length L) None /\
  wns_len n = length L /\ (length L <= 32)%nat.

Lemma notes_new : notes notifications_new [].
Proof. split_and!; simpl; [done|done|lia]. Qed.

Lemma notes_push n L x :
  notes n L -> (length L < 32)%nat ->
  exists n', notifications_push n x = Ok n' /\ notes n' (L ++ [x]).
Proof.
  intros (He & Hl & _) Hlt. unfold notifications_push. rewrite He, Hl.
  rewrite (proj2 (Nat.ltb_lt _ _)) by (rewrite length_app, length_fmap, length_replicate; lia).
  eexists. split; [done|]. unfold notes. simpl. rewrite length_app. simpl.
  split_and!; [|lia|lia].
  rewrite insert_app_r_alt, length_fmap, Nat.sub_diag by (rewrite length_fmap; lia).
  replace (32 - length L)%nat with (1 + (32 - (length L + 1)))%nat by lia.
  simpl. by rewrite fmap_app, <-app_assoc.
Qed.

Lemma notifications_get_notes n L i : notes n L -> notifications_get n i = L !! i.
Proof.
  intros (He & _). unfold notifications_get. rewrite He.
  destruct (decide (i < length L)%nat).
  - rewrite lookup_app_l, list_lookup_fmap by (rewrite length_fmap; lia).
    by destruct (lookup_lt_is_Some_2 L i l) as [x ->].
  - rewrite lookup_app_r by (rewrite length_fmap; lia). rewrite (lookup_ge_None_2 L) by lia.
    destruct (replicate _ _ !! _) as [o|] eqn:Ho; [|done].
    by apply lookup_replicate in Ho as [-> _].
Qed.

(** The clients after the transactions of the notifications [L] completed. *)
Definition clients_after (L : list WatchNotification) C C' : Prop :=
  length C' = length C /\
  (forall i, C !! i = Some None -> C' !! i = Some None) /\
  forall i c, C !! i = Some (Some c) ->
    exists c', C' !! i = Some (Some c') /\ same_client c c' /\
      forall t, t ∈ client_live c' <->
        t ∈ client_live c /\ Forall (fun n => wn_client n = c_endpoint c -> wn_transaction_id n <> t) L.

Lemma same_client_refl c : same_client c c.
Proof. done. Qed.

Lemma same_client_trans c1 c2 c3 : same_client c1 c2 -> same_client c2 c3 -> same_client c1 c3.
Proof. unfold same_client. naive_solver congruence. Qed.

Lemma clients_after_nil C : clients_after [] C C.
Proof.
  split_and!; [done|done|]. intros i c Hc. exists c. split_and!; [done|done|].
  intros t. intuition.
Qed.

Lemma clients_after_trans L1 L2 C1 C2 C3 :
  clients_after L1 C1 C2 -> clients_after L2 C2 C3 -> clients_after (L1 ++ L2) C1 C3.
Proof.
  intros (Hl1 & Hn1 & H1) (Hl2 & Hn2 & H2). split_and!; [congruence|eauto|].
  intros i c Hc. destruct (H1 i c Hc) as (c2 & Hc2 & Hs2 & Ht2).
  destruct (H2 i c2 Hc2) as (c3 & Hc3 & Hs3 & Ht3). exists c3.
  split_and!; [done|by eapply same_client_trans|]. intros t.
  rewrite Ht3, Ht2, Forall_app. destruct Hs2 as [-> _]. intuition.
Qed.

Lemma clients_after_complete C i c c' x :
  C !! i = Some (Some c) -> client_wf c -> same_client c c' ->
  wn_transaction_id x :: client_live c' ≡ₚ client_live c -> wn_client x = c_endpoint c ->
  (forall j d, C !! j = Some (Some d) -> c_endpoint d = c_endpoint c -> j = i) ->
  clients_after [x] C (<[i := Some c']> C).
Proof.
  intros Hi (_ & _ & _ & Hnd & _) Hs Hp Hx Hu. pose proof (lookup_lt_Some _ _ _ Hi).
  split_and!; [by rewrite length_insert| |].
  - intros j Hj. rewrite list_lookup_insert_ne; [done|]. intros ->. congruence.
  - intros j d Hd. destruct (decide (i = j)) as [<-|Hne].
    + rewrite Hi in Hd. injection Hd as <-. exists c'. rewrite list_lookup_insert_eq by done.
      split_and!; [done|done|]. intros t. rewrite Forall_singleton.
      rewrite <-Hp in Hnd |- *. apply NoDup_cons in Hnd as [Hnd _].
      rewrite elem_of_cons. split.
      * intros Ht. split; [by right|]. intros _ <-. done.
      * intros ([->|Ht] & Hn); [by destruct Hn|done].
    + exists d. rewrite list_lookup_insert_ne by done. split_and!; [done|done|].
      intros t. rewrite Forall_singleton. split; [|by intros (? & _)].
      intros Ht. split; [done|]. intros He. destruct Hne. symmetry.
      eapply Hu; [done|congruence].
Qed.

(** What [notify] leaves alone. *)
Definition only_clients_watches (s s' : RegistryState) : Prop :=
  s' = set_watches (set_clients s (clients s')) (watches s').

Lemma swept_matched_cons_keep protocol name g w W :
  match w with Some w => watch_matches protocol name g w = false | None => True end ->
  swept protocol name g w = w /\
  matched protocol name g (w :: W) = matched protocol name g W.
Proof.
  unfold swept, matched. destruct w as [w|]; simpl; [|done]. intros Hm. rewrite Hm. split; [done|].
  rewrite filter_cons, decide_False; [done|congruence].
Qed.

(** One matching watch: its transaction completes and it leaves the table. *)
Lemma notify_one s index w :
  wf_core s -> watches s !! index = Some (Some w) ->
  exists k c c', client_index (w_client w) s = Ok k /\ clients s !! k = Some (Some c) /\
    complete c (w_transaction w) = Ok c' /\
    wf_core (set_watches (set_clients s (<[k := Some c']> (clients s)))
               (<[index := None]> (watches s))) /\
    forall g, clients_after [note_of g w] (clients s) (<[k := Some c']> (clients s)).
Proof.
  intros Hw Hi. pose proof (wf_watches _ Hw) as (_ & Hww & Hwu).
  destruct (Hww _ _ Hi) as (_ & _ & k & c & Hk & He & Hh & Ht).
  pose proof (proj2 (wf_clients _ Hw) _ _ Hk) as Hcw.
  destruct (complete_live c _ Hcw Ht) as (c' & Hc' & Hw' & Hs' & Hp & _).
  exists k, c, c'. split_and!; [|done|done| |].
  - eapply client_index_Ok_2; [apply Hw|done|done].
  - pose proof (wf_core_drop_watch s index Hw) as Hd.
    change (wf_core (set_clients (set_watches s (<[index:=None]> (watches s)))
      (<[k:=Some c']> (clients (set_watches s (<[index:=None]> (watches s))))))).
    eapply wf_core_set_client; [done|done|done|done|]. simpl.
    intros j v [(_ & [=] & _)|[Hne Hj]]%insert_Some_inv Hv.
    destruct (Hww _ _ Hj) as (_ & _ & k' & d & Hd' & Hde & _ & Hvt).
    assert (inr k' = inr k :> nat + nat) as [= ->].
    { eapply (wf_ids _ Hw); [by exists d|exists c]. split; [done|]. congruence. }
    rewrite Hk in Hd'. injection Hd' as <-.
    rewrite <-Hp in Hvt. apply elem_of_cons in Hvt as [Hvt|Hvt]; [|done].
    destruct Hne. eapply Hwu; [done|done|congruence|done].
  - intros g. eapply clients_after_complete; [done|done|done|done|done|].
    intros j d Hd Hde. assert (inr j = inr k :> nat + nat) as [= ->]; [|done].
    eapply (wf_ids _ Hw); [by exists d|exists c]. split; [done|]. congruence.
Qed.

Lemma notify_from_spec protocol name g count : forall index n L s,
  wf_core s -> (index + count = 32)%nat -> notes n L -> (length L <= index)%nat ->
  exists s' n', notify_from protocol name g index count n s = (s', Ok n') /\ wf_core s' /\
    only_clients_watches s s' /\
    watches s' = take index (watches s) ++ (swept protocol name g <$> drop index (watches s)) /\
    notes n' (L ++ matched protocol name g (drop index (watches s))) /\
    clients_after (matched protocol name g (drop index (watches s))) (clients s) (clients s').
Proof.
  induction count as [|count IH]; intros index n L s Hw Hsum Hn HL; cbn [notify_from].
  { pose proof (wf_watches _ Hw) as (Hl & _). rewrite drop_ge by lia.
    exists s, n. rewrite take_ge, !app_nil_r by (simpl; lia).
    split_and!; try done; [by destruct s|apply clients_after_nil]. }
  pose proof (wf_watches _ Hw) as (Hl & _).
  destruct (lookup_lt_is_Some_2 (watches s) index) as [w Hi]; [lia|].
  rewrite (drop_S _ _ _ Hi). unfold mbind, M_bind, reads. rewrite Hi. cbn [or_panic].
  assert (match w with Some w => watch_matches protocol name g w = false | None => True end \/
    exists v, w = Some v /\ watch_matches protocol name g v = true) as [Hkeep|(v & -> & Hm)].
  { destruct w as [v|]; [|by left]. destruct (watch_matches _ _ _ v) eqn:E; eauto. }
  - destruct (IH (Datatypes.S index) n L s Hw) as (s' & n' & Hrun & Hw' & Ho & HW & HN & HC);
      [lia|done|lia|].
    destruct (swept_matched_cons_keep protocol name g w (drop (Datatypes.S index) (watches s)) Hkeep)
      as [Hsw Hma].
    exists s', n'. rewrite fmap_cons, Hsw, Hma. split_and!; try done.
    + destruct w as [v|]; [by rewrite Hkeep|done].
    + rewrite HW, (take_S_r _ _ _ Hi). by rewrite <-app_assoc.
  - rewrite Hm. destruct (notify_one s index v Hw Hi) as (k & c & c' & Hci & Hk & Hcc & Hw1 & HC1).
    rewrite Hci. rewrite (run_client_complete _ _ _ _ _ Hk Hcc).
    destruct (notes_push n L (note_of g v) Hn) as (n1 & Hp & Hn1); [lia|].
    unfold note_of in Hp. rewrite Hp. unfold set_watch, modify.
    set (s1 := set_watches _ _) in *.
    destruct (IH (Datatypes.S index) n1 (L ++ [note_of g v]) s1 Hw1)
      as (s' & n' & Hrun & Hw' & Ho & HW & HN & HC);
      [lia|done|rewrite length_app; simpl; lia|].
    assert (drop (Datatypes.S index) (watches s1) = drop (Datatypes.S index) (watches s)) as Hdrop
      by (apply drop_insert_lt; lia).
    rewrite Hdrop in *.
    assert (matched protocol name g (Some v :: drop (Datatypes.S index) (watches s)) =
      [note_of g v] ++ matched protocol name g (drop (Datatypes.S index) (watches s))) as ->.
    { unfold matched. simpl. by rewrite filter_cons, decide_True by done. }
    exists s', n'. rewrite app_assoc. split_and!; try done.
    + rewrite HW. simpl watches. rewrite fmap_cons. simpl. rewrite Hm.
      rewrite (take_S_r _ _ None) by (apply list_lookup_insert_eq; lia).
      rewrite take_insert_ge by lia. by rewrite <-app_assoc.
    + eapply clients_after_trans; [apply HC1|done].
Qed.

Lemma notify_spec protocol name g s :
  wf_core s ->
  exists s' n, notify protocol name g s = (s', Ok n) /\ wf_core s' /\
    only_clients_watches s s' /\ watches s' = swept protocol name g <$> watches s /\
    notes n (matched protocol name g (watches s)) /\
    clients_after (matched protocol name g (watches s)) (clients s) (clients s').
Proof.
  intros Hw. pose proof (wf_watches _ Hw) as (Hl & _).
  destruct (notify_from_spec protocol name g 32 0 notifications_new [] s Hw)
    as (s' & n & H & ?); [done|apply notes_new|simpl; lia|].
  exists s', n. unfold notify, mbind, M_bind, reads. rewrite Hl, H. by rewrite drop_0 in *.
Qed.

(** A publication starts or stops: the slot changes, the watches it concerns
    are notified, and the remaining ones are up to date. *)
Lemma change_and_notify s i x p x' g :
  wf s -> services s !! i = Some (Some x) -> active x = Some p ->
  slot_name x' = slot_name x -> slot_wf x' ->
  (forall p', active x' = Some p' -> p_endpoint p' = p_endpoint p) ->
  (forall protocol, slot_gen x' protocol = if decide (protocol = protocol_id p) then g else 0) ->
  let s1 := set_services s (<[i := Some x']> (services s)) in
  exists s' n, notify (protocol_id p) (slot_name x') g s1 = (s', Ok n) /\ wf s' /\
    only_clients_watches s1 s' /\
    watches s' = swept (protocol_id p) (slot_name x) g <$> watches s /\
    notes n (matched (protocol_id p) (slot_name x) g (watches s)) /\
    clients_after (matched (protocol_id p) (slot_name x) g (watches s)) (clients s) (clients s').
Proof.
  intros [Hw Hcur] Hi Hp Hname Hxw Hpub Hgen s1.
  assert (wf_core s1) as Hw1 by (eapply wf_core_set_slot; eauto).
  rewrite Hname. destruct (notify_spec (protocol_id p) (slot_name x) g s1 Hw1)
    as (s' & n & Hrun & Hw' & Ho & HW & HN & HC).
  exists s', n. split_and!; try done. split; [done|].
  intros j w Hj. rewrite HW, list_lookup_fmap in Hj.
  destruct (watches s1 !! j) as [[v|]|] eqn:Hv; simplify_eq/=.
  destruct (watch_matches _ _ _ v) eqn:Hm; simplify_eq. pose proof (Hcur j w Hv) as Hlast.
  change (current_generation s' (w_protocol_id w) (watch_name w)) with
    (cg (services s') (w_protocol_id w) (watch_name w)).
  change (current_generation s (w_protocol_id w) (watch_name w)) with
    (cg (services s) (w_protocol_id w) (watch_name w)) in Hlast.
  rewrite Ho. simpl services. pose proof (wf_services _ Hw) as Hs.
  rewrite (cg_update _ i x x'); [|done|apply (wf_services _ Hw1)|done|done].
  case_decide as Hn; [|done]. rewrite Hgen. rewrite Hn, (cg_at _ _ i x) in Hlast by done.
  case_decide as Hpr.
  - unfold watch_matches in Hm. rewrite Hpr, Z.eqb_refl, Hn, bool_decide_eq_true_2 in Hm by done.
    simpl in Hm. by bool_prop.
  - rewrite Hlast. unfold slot_gen. rewrite Hp. by destruct (Z.eqb_spec (protocol_id p) (w_protocol_id w)).
Qed.

(** ** Publication transactions *)

Definition same_publication (p p' : Publication) : Prop :=
  p_endpoint p' = p_endpoint p /\ p_handle p' = p_handle p /\ protocol_id p' = protocol_id p /\
  service_generation p' = service_generation p /\ versions p' = versions p /\
  version_count p' = version_count p /\ publication_id p' = publication_id p.

Lemma publication_reserve_Ok p t p' :
  publication_reserve p t = Ok p' ->
  same_publication p p' /\ phase p' = phase p /\ live_transaction p' = t /\ t <> 0 /\
  p_replay p' = p_replay p /\ live_transaction p = 0.
Proof. unfold publication_reserve. intros H. res_inv. by subst. Qed.

Lemma publication_reserve_not_panic p t : publication_reserve p t <> Panic.
Proof. unfold publication_reserve. no_panic. Qed.

Lemma publication_complete_Ok p t :
  live_transaction p = t ->
  exists p', publication_complete p t = Ok p' /\ same_publication p p' /\ phase p' = phase p /\
    live_transaction p' = 0 /\ p_replay p' = replay_push (p_replay p) t.
Proof.
  intros <-. unfold publication_complete. rewrite Z.eqb_refl. eexists. by split_and!.
Qed.

Lemma publication_wf_same p p' :
  publication_wf p -> same_publication p p' -> replay_wf 8 (p_replay p') -> publication_wf p'.
Proof. unfold publication_wf, same_publication. naive_solver congruence. Qed.

Lemma slot_wf_with_active x p p' :
  slot_wf x -> active x = Some p -> same_publication p p' -> replay_wf 8 (p_replay p') ->
  slot_wf (with_active x (Some p')).
Proof.
  intros (Hl & Hn & Ha) Hp Hs Hr. destruct (Ha p Hp) as [Hpw Hg].
  split_and!; simpl; [done|lia|lia|]. intros q [= <-].
  split; [by eapply publication_wf_same|]. destruct Hs as (_ & _ & _ & -> & _). done.
Qed.

Lemma slot_wf_retired x : slot_wf x -> slot_wf (with_active x None).
Proof. intros (Hl & Hn & _). split_and!; simpl; [done|lia|lia|done]. Qed.

Lemma wf_set_publication s i x p p' :
  wf s -> services s !! i = Some (Some x) -> active x = Some p -> same_publication p p' ->
  replay_wf 8 (p_replay p') -> phase p' = phase p ->
  wf (set_services s (<[i := Some (with_active x (Some p'))]> (services s))).
Proof.
  intros [Hw Hcur] Hi Hp Hs Hr Hph.
  assert (slot_wf (with_active x (Some p'))) as Hxw.
  { eapply slot_wf_with_active; [|done..]. by eapply (wf_services _ Hw). }
  assert (wf_core (set_services s (<[i := Some (with_active x (Some p'))]> (services s)))) as Hw'.
  { eapply wf_core_set_slot; [done|done|done|done|]. simpl. intros q [= <-].
    exists p. split; [done|]. apply Hs. }
  split; [done|]. intros j w Hj. simpl in Hj. rewrite (Hcur j w Hj).
  change (cg (services s) (w_protocol_id w) (watch_name w) =
    cg (<[i:=Some (with_active x (Some p'))]> (services s)) (w_protocol_id w) (watch_name w)).
  rewrite (cg_update _ i x); [|apply Hw|apply (wf_services _ Hw')|done|done].
  case_decide as Hn; [|done]. rewrite Hn, (cg_at _ _ i x); [|apply Hw|done].
  unfold slot_gen. simpl. rewrite Hp, Hph. destruct Hs as (_ & _ & -> & -> & _). done.
Qed.

Lemma publication_at_wf s i x p :
  wf s -> services s !! i = Some (Some x) -> active x = Some p -> replay_wf 8 (p_replay p).
Proof.
  intros [Hw _] Hi Hp. destruct (wf_services _ Hw) as (_ & Hx & _).
  destruct (Hx _ _ Hi) as (_ & _ & Ha). by destruct (Ha _ Hp) as [(_ & _ & ?) _].
Qed.

(** ** Every operation preserves the invariant and does not panic *)

Definition good {A} (r : RegistryState * res RegistryError A) : Prop :=
  wf (fst r) /\ snd r <> Panic.

(** Destruct the endpoint lookup that starts an operation. *)
Ltac start_client e s :=
  let i := fresh "i" in let c := fresh "c" in let Hi := fresh "Hi" in let He := fresh "He" in
  let Hci := fresh "Hci" in
  destruct (client_index e s) as [i| |] eqn:Hci;
  [ destruct (client_index_Ok_1 _ _ _ Hci) as (c & Hi & He)
  | by split | by destruct (client_index_not_panic e s) ].

Ltac start_publication e s :=
  let i := fresh "i" in let x := fresh "x" in let p := fresh "p" in
  let Hi := fresh "Hi" in let Hp := fresh "Hp" in let He := fresh "He" in
  let Hpi := fresh "Hpi" in
  destruct (publication_index e s) as [i| |] eqn:Hpi;
  [ destruct (publication_index_Ok_1 _ _ _ Hpi) as (x & p & Hi & Hp & He)
  | by split | by destruct (publication_index_not_panic e s) ].

Lemma lookup_insert_client s i c c' :
  clients s !! i = Some (Some c) ->
  clients (set_clients s (<[i := Some c']> (clients s))) !! i = Some (Some c').
Proof. intros H. simpl. apply list_lookup_insert_eq. by eapply lookup_lt_Some. Qed.

Lemma lookup_insert_slot s i x x' :
  services s !! i = Some (Some x) ->
  services (set_services s (<[i := Some x']> (services s))) !! i = Some (Some x').
Proof. intros H. simpl. apply list_lookup_insert_eq. by eapply lookup_lt_Some. Qed.
