(* ===== verification/RegistryOps.v ===== *)
(** * Every registry operation preserves the invariant

    One lemma per operation of [Registry]: from a state that satisfies [wf], it
    returns [Ok] or [Err], never a panic, in a state that satisfies [wf]. *)

From stdpp Require Import base tactics option list list_numbers sorting sets.
From Stdlib Require Import ZArith Lia.
From S2P Require Import Prelude Bytes Utf8 RegistryProto Registry RegistryReplay RegistryInv.
Import RegistryProto Registry.

Implicit Types (s : RegistryState) (e : EndpointIdentity) (t : Z).

Lemma client_at_wf s i c : wf s -> clients s !! i = Some (Some c) -> client_wf c.
Proof. intros [Hw _]. apply (wf_clients _ Hw). Qed.

Lemma slot_at_wf s i x : wf s -> services s !! i = Some (Some x) -> slot_wf x.
Proof. intros [Hw _]. destruct (wf_services _ Hw) as (_ & H & _). apply H. Qed.

(** ** Requests a client gets an answer to at once *)

Lemma run_answer s i c t :
  wf s -> clients s !! i = Some (Some c) ->
  (exists err, reserve c t = Err err /\ client_reserve i t s = (s, Err err)) \/
  (exists c1 c2, answered c t c2 /\ reserve c t = Ok c1 /\
    client_reserve i t s = (set_clients s (<[i := Some c1]> (clients s)), Ok tt) /\
    client_complete i t (set_clients s (<[i := Some c1]> (clients s)))
      = (set_clients s (<[i := Some c2]> (clients s)), Ok tt)).
Proof.
  intros [Hw _] Hi. pose proof (proj2 (wf_clients _ Hw) _ _ Hi) as Hc.
  rewrite (run_client_reserve _ _ _ _ Hi).
  destruct (reserve c t) as [c1|e|] eqn:H1; [right|left; eauto|by destruct (reserve_not_panic c t Hc)].
  destruct (reserve_complete c t c1 Hc H1) as (c2 & H2 & _).
  exists c1, c2. split_and!; [by exists c1|done|done|].
  rewrite (run_client_complete _ _ _ _ _ (lookup_insert_client _ _ _ _ Hi) H2).
  rewrite set_clients_twice. simpl. by rewrite list_insert_insert_eq.
Qed.

(** The same for the one transaction of a publication endpoint. *)
Lemma run_answer_publication s i x p t :
  wf s -> services s !! i = Some (Some x) -> active x = Some p ->
  (exists err, publication_reserve p t = Err err /\ reserve_publication i t s = (s, Err err)) \/
  (exists p1 p2, publication_reserve p t = Ok p1 /\ phase p1 = phase p /\
    same_publication p p2 /\ phase p2 = phase p /\ replay_wf 8 (p_replay p2) /\
    let s1 := set_services s (<[i := Some (with_active x (Some p1))]> (services s)) in
    reserve_publication i t s = (s1, Ok tt) /\
    complete_publication i t s1 =
      (set_services s (<[i := Some (with_active x (Some p2))]> (services s)), Ok tt)).
Proof.
  intros Hw Hi Hp. rewrite (run_reserve_publication _ _ _ _ _ Hi Hp).
  destruct (publication_reserve p t) as [p1|err|] eqn:H1; [right|left; eauto|
    by destruct (publication_reserve_not_panic p t)].
  destruct (publication_reserve_Ok _ _ _ H1) as (Hs1 & Hph1 & Hl1 & _ & Hr1 & _).
  destruct (publication_complete_Ok p1 t Hl1) as (p2 & H2 & Hs2 & Hph2 & _ & Hr2).
  pose proof (publication_at_wf _ _ _ _ Hw Hi Hp) as Hr.
  exists p1, p2. split_conj; [done|done| |congruence| |cbv zeta; split; [done|]].
  - unfold same_publication in *. naive_solver congruence.
  - rewrite Hr2, Hr1. by apply replay_push_wf.
  - rewrite (run_complete_publication _ i (with_active x (Some p1)) p1 t p2);
      [|by apply (lookup_insert_slot s i x)|done|done].
    rewrite set_services_twice. simpl. by rewrite list_insert_insert_eq.
Qed.

Lemma lookup_good s e t request : wf s -> good (lookup e t request s).
Proof.
  intros Hw. unfold lookup, mbind, M_bind, reads. start_client e s.
  destruct (run_answer s i c t Hw Hi) as [(err & _ & ->)|(c1 & c2 & Ha & _ & -> & ->)]; [by split|].
  split; [by eapply wf_answered|]. simpl. unfold lookup_result.
  destruct (lookup_publication _ _); [|done]. simpl. by destruct (supports _ _).
Qed.

Lemma enumeration_record_good s ticket index : wf s -> good (enumeration_record ticket index s).
Proof.
  intros Hw. unfold enumeration_record, mbind, M_bind, reads. start_client (et_client ticket) s.
  rewrite (run_client_at _ _ _ Hi). by destruct (contains _ _).
Qed.

Lemma complete_transaction_good s e kind t : wf s -> good (complete_transaction e kind t s).
Proof.
  intros Hw. destruct kind; unfold complete_transaction, mbind, M_bind, reads.
  - start_publication e s.
    destruct (run_answer_publication s i x p t Hw Hi Hp)
      as [(err & _ & ->)|(p1 & p2 & _ & _ & Hs2 & Hph2 & Hr2 & -> & ->)]; [by split|].
    split; [|done]. by eapply wf_set_publication.
  - start_client e s.
    destruct (run_answer s i c t Hw Hi) as [(err & _ & ->)|(c1 & c2 & Ha & _ & -> & ->)]; [by split|].
    split; [by eapply wf_answered|done].
Qed.

(** ** Long-lived transactions *)

(** Reserving keeps the invariant. *)
Lemma wf_reserved s i c t c1 :
  wf s -> clients s !! i = Some (Some c) -> reserve c t = Ok c1 ->
  wf (set_clients s (<[i := Some c1]> (clients s))).
Proof.
  intros [Hw Hcur] Hi H1. split; [|done].
  destruct (reserve_Ok c t c1) as (Hw1 & Hs1 & Hl1 & _); [by eapply wf_clients|done|].
  eapply wf_core_set_client; [done..|]. intros j w Hj He. rewrite Hl1. apply elem_of_app. left.
  destruct (wf_watches _ Hw) as (_ & Hww & _).
  destruct (Hww j w Hj) as (_ & _ & k & d & Hd & Hde & _ & Ht).
  assert (inr k = inr i :> nat + nat) as [= ->].
  { eapply (wf_ids _ Hw); [by exists d|exists c]. split; [done|]. congruence. }
  rewrite Hi in Hd. by injection Hd as <-.
Qed.

Lemma published_count_bound s : services_ok (services s) -> (published_count s <= 32)%nat.
Proof.
  intros (Hl & _). unfold published_count.
  etrans; [apply length_filter|]. etrans; [apply length_flatten|]. lia.
Qed.

Lemma div_ceil2_bound n : 0 <= n <= 32 -> div_ceil2 n <= 16.
Proof.
  intros. unfold div_ceil2. pose proof (Z.div_mod n 2 ltac:(lia)).
  pose proof (Z.mod_pos_bound n 2 ltac:(lia)). lia.
Qed.

Lemma enumerate_begin_good s e t : wf s -> good (enumerate_begin e t s).
Proof.
  intros Hw. unfold enumerate_begin, mbind, M_bind, reads. start_client e s.
  rewrite (run_client_at _ _ _ Hi).
  destruct (run_answer s i c t Hw Hi) as [(err & _ & Hr)|(c1 & c2 & Ha & H1 & Hr & Hc)].
  - by destruct (bool_decide _); rewrite Hr.
  - destruct (bool_decide _).
    + rewrite Hr, Hc. split; [by eapply wf_answered|done].
    + rewrite Hr. pose proof (wf_reserved _ _ _ _ _ Hw Hi H1) as Hw1.
      pose proof (published_count_bound _ (wf_services _ (proj1 Hw1))) as Hb.
      set (n := Z.of_nat _ mod _). assert (0 <= n <= 32) as Hn.
      { subst n. rewrite Z.mod_small by lia. lia. }
      pose proof (div_ceil2_bound n Hn). unfold MAX_SERVICE_LIST_PAGES.
      rewrite (proj2 (Z.leb_le _ 16)) by (destruct (n =? 0); lia). by split.
Qed.

(** A live transaction that no watch refers to completes. *)
Lemma wf_completed s i c t c' :
  wf s -> clients s !! i = Some (Some c) -> t ∈ client_live c -> complete c t = Ok c' ->
  (forall j w, watches s !! j = Some (Some w) -> w_client w = c_endpoint c -> w_transaction w <> t) ->
  wf (set_clients s (<[i := Some c']> (clients s))).
Proof.
  intros [Hw Hcur] Hi Ht H1 Hno. split; [|done].
  destruct (complete_live c t) as (c2 & H2 & Hw2 & Hs2 & Hp & _); [by eapply wf_clients|done|].
  rewrite H1 in H2. injection H2 as <-.
  eapply wf_core_set_client; [done..|]. intros j w Hj He.
  destruct (wf_watches _ Hw) as (_ & Hww & _).
  destruct (Hww j w Hj) as (_ & _ & k & d & Hd & Hde & _ & Hwt).
  assert (inr k = inr i :> nat + nat) as [= ->].
  { eapply (wf_ids _ Hw); [by exists d|exists c]. split; [done|]. congruence. }
  rewrite Hi in Hd. injection Hd as <-. rewrite <-Hp in Hwt.
  apply elem_of_cons in Hwt as [Hwt|Hwt]; [|done]. by destruct (Hno j w Hj He).
Qed.

(** No pending watch of the ticket's client carries the ticket's transaction
    (the registry hands out no such ticket; see [ticket_unwatched] below). *)
Definition unwatched s e t : Prop :=
  forall j w, watches s !! j = Some (Some w) -> w_client w = e -> w_transaction w <> t.

Lemma enumeration_complete_good s ticket :
  wf s -> unwatched s (et_client ticket) (et_transaction ticket) ->
  good (enumeration_complete ticket s).
Proof.
  intros Hw Hu. unfold enumeration_complete, mbind, M_bind, reads. start_client (et_client ticket) s.
  rewrite (run_client_at _ _ _ Hi).
  destruct (contains _ _) eqn:Ht; simpl; [|by split]. bool_prop.
  destruct (complete_live c (et_transaction ticket)) as (c' & Hc' & _);
    [by eapply client_at_wf|done|].
  rewrite (run_client_complete _ _ _ _ _ Hi Hc'). split; [|done].
  eapply wf_completed; [done..|]. rewrite He. apply Hu.
Qed.

Lemma name_array_spec v :
  len v <= 128 ->
  exists a, name_array v = Ok a /\ length a = 128%nat /\
    0 <= len v mod 2 ^ 8 <= 128 /\ take (Z.to_nat (len v mod 2 ^ 8)) a = v.
Proof.
  intros Hv. unfold name_array, MAX_SERVICE_NAME_BYTES.
  destruct (proj2 (put_range_is_Some (replicate (Z.to_nat 128) 0) 0 v)) as [a Ha].
  { rewrite length_replicate. lia. }
  exists a. rewrite Ha. split; [done|]. split.
  { apply length_put_range in Ha. by rewrite length_replicate in Ha. }
  rewrite Z.mod_small by lia. split; [lia|]. rewrite Nat2Z.id.
  apply put_range_Some in Ha as (_ & _ & ->). simpl. by rewrite take_app_length.
Qed.

(** A transaction that could be reserved is not a watch's. *)
Lemma reserved_unwatched s i c t c1 :
  wf s -> clients s !! i = Some (Some c) -> reserve c t = Ok c1 -> unwatched s (c_endpoint c) t.
Proof.
  intros [Hw _] Hi H1 k v Hk Hv Ht.
  destruct (reserve_Ok c t c1) as (_ & _ & _ & _ & _ & Hnew & _); [by eapply wf_clients|done|].
  destruct (wf_watches _ Hw) as (_ & Hww & _).
  destruct (Hww k v Hk) as (_ & _ & m & d & Hd & Hde & _ & Hvt).
  assert (inr m = inr i :> nat + nat) as [= ->].
  { eapply (wf_ids _ Hw); [by exists d|exists c]. split; [done|]. congruence. }
  rewrite Hi in Hd. injection Hd as <-. congruence.
Qed.

(** A pending watch is added for a transaction the client just reserved. *)
Lemma wf_add_watch s i c t c1 j w :
  wf s -> clients s !! i = Some (Some c) -> reserve c t = Ok c1 ->
  watches s !! j = Some None ->
  w_client w = c_endpoint c -> w_client_handle w = c_handle c -> w_transaction w = t ->
  length (w_name w) = 128%nat -> 0 <= w_name_len w <= 128 ->
  w_last_generation w = current_generation s (w_protocol_id w) (watch_name w) ->
  wf (set_watches (set_clients s (<[i := Some c1]> (clients s))) (<[j := Some w]> (watches s))).
Proof.
  intros Hwf Hi H1 Hj Hwc Hwh Hwt Hl Hn Hg.
  pose proof (wf_reserved _ _ _ _ _ Hwf Hi H1) as [[Hs Hc Hid (HWl & HWw & HWu) Hiss] Hcur].
  destruct (reserve_Ok c t c1) as (Hw1 & (Hse & Hsh & _) & Hl1 & _ & _ & Hnew & _);
    [by eapply client_at_wf|done|].
  simpl in *.
  pose proof (reserved_unwatched _ _ _ _ _ Hwf Hi H1) as Hfresh.
  split.
  - split; simpl; [done..| |done]. unfold watches_ok; split_conj; [by rewrite length_insert| |].
    + intros k v [(-> & [= ->] & _)|[_ Hk]]%insert_Some_inv; [|by eapply HWw].
      do 2 (split; [done|]). exists i, c1. split_conj.
      * apply list_lookup_insert_eq. by eapply lookup_lt_Some.
      * congruence.
      * congruence.
      * rewrite Hl1, Hwt. apply elem_of_app. right. by apply list_elem_of_singleton.
    + intros k k' v v' [(-> & [= ->] & _)|[Hk Hv]]%insert_Some_inv
        [(<- & [= ->] & _)|[Hk' Hv']]%insert_Some_inv He Ht; [done|..|by eapply HWu].
      * destruct (Hfresh _ _ Hv'); congruence.
      * destruct (Hfresh _ _ Hv); congruence.
  - intros k v [(-> & [= ->] & _)|[_ Hk]]%insert_Some_inv; [done|by apply (Hcur k)].
Qed.

Lemma watch_good s e t request :
  wf s -> len (wt_service_name request) <= 128 -> good (watch e t request s).
Proof.
  intros Hw Hlen. unfold watch, mbind, M_bind, reads. start_client e s.
  destruct (run_answer s i c t Hw Hi) as [(err & _ & ->)|(c1 & c2 & Ha & H1 & -> & Hcomp)]; [by split|].
  simpl. change (current_generation (set_clients s (<[i:=Some c1]> (clients s))))
    with (current_generation s).
  destruct (Z.eqb_spec (current_generation s (wt_protocol_id request) (wt_service_name request))
              (wt_last_observed_generation request)) as [Hcur|Hcur]; simpl.
  2: { rewrite Hcomp. split; [by eapply wf_answered|done]. }
  destruct (position _ (watches s)) as [j|] eqn:Hp.
  2: { rewrite Hcomp. split; [by eapply wf_answered|done]. }
  destruct (_ =? _)%nat.
  { rewrite Hcomp. split; [by eapply wf_answered|done]. }
  destruct (name_array_spec _ Hlen) as (a & -> & Hal & Hn & Hname).
  rewrite (lookup_insert_client _ _ _ c1 Hi). cbn [or_panic].
  apply position_Some in Hp as (o & Hj & Ho & _). bool_prop. subst o.
  destruct (reserve_Ok c t c1) as (_ & (_ & Hh & _) & _);
    [by eapply client_at_wf|done|].
  split; [|done]. simpl. eapply wf_add_watch; try done. simpl.
  unfold watch_name. simpl. by rewrite Hname.
Qed.

(** Completing the target leaves the cancelling transaction live. *)
Lemma cancel_step c t c1 target d :
  client_wf c -> reserve c t = Ok c1 -> target ∈ client_live c1 -> target <> t ->
  complete c1 target = Ok d ->
  c_endpoint d = c_endpoint c /\ t ∈ client_live d /\ exists d', complete d t = Ok d'.
Proof.
  intros Hc H1 Hin Hne Hd. destruct (reserve_Ok c t c1 Hc H1) as (Hw1 & (Hse & _) & Hl1 & _).
  destruct (complete_live c1 target Hw1 Hin) as (d' & Hd' & Hw2 & (Hse' & _) & Hp & _).
  rewrite Hd in Hd'. injection Hd' as <-.
  assert (t ∈ client_live d) as Ht.
  { assert (t ∈ target :: client_live d) as [->|?]%elem_of_cons; [|done|done].
    rewrite Hp, Hl1. apply elem_of_app. right. by apply list_elem_of_singleton. }
  split_conj; [congruence|done|].
  destruct (complete_live d t Hw2 Ht) as (d'' & ? & _). eauto.
Qed.

Lemma cancel_good s e t target : wf s -> good (cancel e t target s).
Proof.
  intros Hw. unfold cancel, mbind, M_bind, reads. start_client e s.
  destruct (run_answer s i c t Hw Hi) as [(err & _ & ->)|(c1 & c2 & Ha & H1 & -> & Hcomp)]; [by split|].
  simpl. destruct (position _ (watches s)) as [j|] eqn:Hp.
  2: { rewrite Hcomp. split; [by eapply wf_answered|done]. }
  apply position_Some in Hp as (o & Hj & Ho & _). destruct o as [w|]; [|done]. bool_prop.
  pose proof (wf_reserved _ _ _ _ _ Hw Hi H1) as Hw1.
  destruct (notify_one _ j w (proj1 Hw1) Hj) as (k & d & d' & Hk & Hd & Hdd & Hw2 & _).
  assert (k = i) as ->.
  { rewrite H in Hk. erewrite (client_index_Ok_2 e _ i c1) in Hk; [congruence|apply Hw1| |].
    - by apply (lookup_insert_client s i c).
    - destruct (reserve_Ok c t c1 (client_at_wf _ _ _ Hw Hi) H1) as (_ & (Hse & _) & _).
      congruence. }
  rewrite (lookup_insert_client s i c c1 Hi) in Hd. injection Hd as <-.
  unfold set_watch, modify. rewrite H0 in *.
  set (s2 := set_watches _ _).
  rewrite (run_client_complete s2 i c1 target d');
    [|by apply (lookup_insert_client s i c)|done].
  set (s3 := set_clients s2 _).
  assert (wf s3) as Hw3.
  { split; [exact Hw2|]. intros m v [(_ & [=] & _)|[_ Hm]]%insert_Some_inv. by apply (proj2 Hw m). }
  assert (clients s3 !! i = Some (Some d')) as Hd3 by (eapply lookup_insert_client;
    by apply (lookup_insert_client s i c)).
  pose proof (proj2 (wf_clients _ (proj1 Hw3)) _ _ Hd3) as Hdw.
  pose proof (reserved_unwatched _ _ _ _ _ Hw Hi H1) as Hu.
  destruct (cancel_step c t c1 target d') as (Hse & Ht & d'' & Hd'').
  { exact (client_at_wf _ _ _ Hw Hi). }
  { done. }
  { destruct (wf_watches _ (proj1 Hw1)) as (_ & Hww & _).
    destruct (Hww j w Hj) as (_ & _ & m & d & Hm & Hme & _ & Hwt).
    assert (inr m = inr i :> nat + nat) as [= ->].
    { eapply (wf_ids _ (proj1 Hw1)); [by exists d|exists c1].
      split; [by apply (lookup_insert_client s i c)|].
      destruct (reserve_Ok c t c1 (client_at_wf _ _ _ Hw Hi) H1) as (_ & (Hse & _) & _).
      congruence. }
    rewrite (lookup_insert_client s i c c1 Hi) in Hm. injection Hm as <-. by rewrite H0 in Hwt. }
  { intros ->. by destruct (Hu j w Hj); congruence. }
  { done. }
  rewrite (run_client_complete s3 i d' t d'' Hd3 Hd'').
  split; [|done]. eapply wf_completed; [done|done|done|done|].
  intros m v [(_ & [=] & _)|[_ Hm]]%insert_Some_inv Hv. eapply Hu; [done|congruence].
Qed.

(** ** Publication endpoints *)

Lemma set_slot_twice s i a b :
  set_services (set_services s (<[i := a]> (services s)))
    (<[i := b]> (services (set_services s (<[i := a]> (services s))))) =
  set_services s (<[i := b]> (services s)).
Proof. rewrite set_services_twice. simpl. by rewrite list_insert_insert_eq. Qed.

(** Reserving the publication's transaction keeps the invariant. *)
Lemma wf_reserved_publication s i x p t p1 :
  wf s -> services s !! i = Some (Some x) -> active x = Some p ->
  publication_reserve p t = Ok p1 ->
  wf (set_services s (<[i := Some (with_active x (Some p1))]> (services s))).
Proof.
  intros Hw Hi Hp H1.
  destruct (publication_reserve_Ok _ _ _ H1) as (Hs1 & Hph1 & _ & _ & Hr1 & _).
  eapply wf_set_publication; [done..| |done]. rewrite Hr1. by eapply publication_at_wf.
Qed.

Lemma prepare_publish_good s e t : wf s -> good (prepare_publish e t s).
Proof.
  intros Hw. unfold prepare_publish, mbind, M_bind, reads. start_publication e s.
  destruct (run_answer_publication s i x p t Hw Hi Hp)
    as [(err & _ & ->)|(p1 & p2 & H1 & Hph1 & Hs2 & Hph2 & Hr2 & -> & Hc)]; [by split|].
  rewrite (run_publication_at _ i (with_active x (Some p1)) p1);
    [|by apply (lookup_insert_slot s i x)|done].
  destruct (bool_decide _).
  - rewrite Hc. split; [by eapply wf_set_publication|done].
  - split; [by eapply wf_reserved_publication|done].
Qed.

(** The generations a slot shows once its publication is published, or gone. *)
Lemma slot_gen_published x p protocol :
  phase p = Published ->
  slot_gen (with_active x (Some p)) protocol =
  if decide (protocol = protocol_id p) then service_generation p else 0.
Proof.
  intros Hph. unfold slot_gen. simpl. rewrite Hph.
  destruct (Z.eqb_spec (protocol_id p) protocol); case_decide; simplify_eq/=; done.
Qed.

(** [commit_publish], when the ticket is the publication's: the slot is
    published and the watches for its name and protocol are notified. *)
Lemma commit_publish_run s ticket i x p :
  wf s -> publication_index (pt_endpoint ticket) s = Ok i ->
  services s !! i = Some (Some x) -> active x = Some p ->
  live_transaction p = pt_transaction ticket -> phase p = Installed ->
  exists s' n p', commit_publish ticket s = (s', Ok (mkPublishOutcome (service_generation p) n)) /\
    wf s' /\ same_publication p p' /\ phase p' = Published /\
    only_clients_watches
      (set_services s (<[i := Some (with_active x (Some p'))]> (services s))) s' /\
    watches s' = swept (protocol_id p) (slot_name x) (service_generation p) <$> watches s /\
    notes n (matched (protocol_id p) (slot_name x) (service_generation p) (watches s)) /\
    clients_after (matched (protocol_id p) (slot_name x) (service_generation p) (watches s))
      (clients s) (clients s').
Proof.
  intros Hw Hpi Hi Hp Hl Hph. unfold commit_publish, mbind, M_bind, reads. rewrite Hpi.
  rewrite (run_publication_at _ _ _ _ Hi Hp), Hl, Z.eqb_refl.
  rewrite bool_decide_eq_false_2 by (intros H; by apply H). cbn [negb orb]. cbv beta.
  rewrite (run_set_publication _ _ _ _ Hi).
  destruct (publication_complete_Ok (set_published p) (pt_transaction ticket) Hl)
    as (p2 & H2 & Hs2 & Hph2 & _ & Hr2).
  rewrite (run_complete_publication _ i (with_active x (Some (set_published p))) (set_published p)
             (pt_transaction ticket) p2); [|by apply (lookup_insert_slot s i x)|done|done].
  rewrite set_slot_twice. change (with_active (with_active x (Some (set_published p))) (Some p2))
    with (with_active x (Some p2)).
  rewrite (run_publication_at _ i (with_active x (Some p2)) p2);
    [|by apply (lookup_insert_slot s i x)|done].
  rewrite (run_slot_at _ i (with_active x (Some p2))); [|by apply (lookup_insert_slot s i x)].
  assert (same_publication p p2) as Hs by exact Hs2.
  pose proof Hs as (_ & _ & Hpr & Hsg & _). rewrite Hpr.
  destruct (change_and_notify s i x p (with_active x (Some p2)) (service_generation p))
    as (s' & n & -> & Hw' & Ho & HW & HN & HC); try done.
  - eapply slot_wf_with_active; [by eapply slot_at_wf|done|done|].
    rewrite Hr2. apply replay_push_wf. exact (publication_at_wf _ _ _ _ Hw Hi Hp).
  - intros q [= <-]. apply Hs.
  - intros protocol. rewrite slot_gen_published by done. by rewrite Hpr, Hsg.
  - exists s', n, p2. done.
Qed.

Lemma commit_publish_good s ticket : wf s -> good (commit_publish ticket s).
Proof.
  intros Hw. pose proof (commit_publish_run s ticket) as Hrun.
  destruct (publication_index (pt_endpoint ticket) s) as [i|err|] eqn:Hpi.
  - destruct (publication_index_Ok_1 _ _ _ Hpi) as (x & p & Hi & Hp & He).
    destruct (Z.eqb_spec (live_transaction p) (pt_transaction ticket)) as [Hl|Hl].
    + destruct (decide (phase p = Installed)) as [Hph|Hph].
      * destruct (Hrun i x p Hw) as (s' & n & p' & -> & ? & _); [done..|]. by split.
      * unfold commit_publish, mbind, M_bind, reads. rewrite Hpi, (run_publication_at _ _ _ _ Hi Hp).
        rewrite (bool_decide_eq_true_2 (phase p <> Installed)), orb_true_r by done. by split.
    + unfold commit_publish, mbind, M_bind, reads. rewrite Hpi, (run_publication_at _ _ _ _ Hi Hp).
      rewrite (proj2 (Z.eqb_neq _ _) Hl). by split.
  - unfold commit_publish, mbind, M_bind, reads. rewrite Hpi. by split.
  - by destruct (publication_index_not_panic (pt_endpoint ticket) s).
Qed.

Lemma good_bind {A B} (c : M A) (k : A -> M B) s :
  good (c s) -> (forall a s', wf s' -> good (k a s')) -> good (mbind k c s).
Proof.
  unfold mbind, M_bind. destruct (c s) as [s' [a|err|]]; intros [Hw Hp] Hk; simpl in *;
    [by apply Hk|by split|done].
Qed.

Lemma publish_good s e t : wf s -> good (publish e t s).
Proof.
  intros Hw. apply good_bind; [by apply prepare_publish_good|]. intros. by apply commit_publish_good.
Qed.

(** The end of [retire] and of [peer_closed] on a publication. *)
Lemma unpublish_run s i x p :
  wf s -> services s !! i = Some (Some x) -> active x = Some p ->
  exists s' n,
    notify (protocol_id p) (slot_name x) 0
      (set_services s (<[i := Some (with_active x None)]> (services s))) = (s', Ok n) /\ wf s' /\
    only_clients_watches (set_services s (<[i := Some (with_active x None)]> (services s))) s' /\
    watches s' = swept (protocol_id p) (slot_name x) 0 <$> watches s /\
    notes n (matched (protocol_id p) (slot_name x) 0 (watches s)) /\
    clients_after (matched (protocol_id p) (slot_name x) 0 (watches s)) (clients s) (clients s').
Proof.
  intros Hw Hi Hp. apply (change_and_notify s i x p (with_active x None) 0); try done.
  - apply slot_wf_retired. by eapply slot_at_wf.
  - intros protocol. unfold slot_gen. simpl. by case_decide.
Qed.

Lemma retire_good s e t : wf s -> good (retire e t s).
Proof.
  intros Hw. unfold retire, mbind, M_bind, reads. start_publication e s.
  destruct (run_answer_publication s i x p t Hw Hi Hp)
    as [(err & _ & ->)|(p1 & p2 & H1 & Hph1 & Hs2 & Hph2 & Hr2 & -> & ->)]; [by split|].
  pose proof (wf_set_publication _ _ _ _ _ Hw Hi Hp Hs2 Hr2 Hph2) as Hw2.
  pose proof (lookup_insert_slot s i x (with_active x (Some p2)) Hi) as Hi2.
  rewrite (run_publication_at _ i (with_active x (Some p2)) p2 Hi2) by done.
  rewrite (run_set_publication _ i (with_active x (Some p2)) None Hi2).
  rewrite (run_slot_at _ i (with_active (with_active x (Some p2)) None));
    [|by apply (lookup_insert_slot _ i (with_active x (Some p2)))].
  destruct (unpublish_run _ i _ p2 Hw2 Hi2) as (s' & n & Hn & Hw' & _); [done|].
  unfold slot_name in *. simpl in *. rewrite Hn. by split.
Qed.

(** A client leaves, and its watches with it. *)
Lemma wf_client_gone s i c e :
  wf s -> clients s !! i = Some (Some c) -> c_endpoint c = e ->
  wf (set_watches (set_clients s (<[i := None]> (clients s)))
    ((fun w : option PendingWatch =>
        match w with
        | Some w => if bool_decide (w_client w = e) then None else Some w
        | None => None
        end) <$> watches s)).
Proof.
  intros [[Hs [Hcl Hcw] Hid (HWl & HWw & HWu) Hiss] Hcur] Hi He.
  set (W := fmap _ _).
  assert (forall j w, W !! j = Some (Some w) ->
            watches s !! j = Some (Some w) /\ w_client w <> e) as HW.
  { intros j w Hj. unfold W in Hj. rewrite list_lookup_fmap in Hj.
    destruct (watches s !! j) as [[v|]|]; simplify_eq/=. case_bool_decide; by simplify_eq. }
  split; [split; simpl; [done| | | |done]|].
  - split; [by rewrite length_insert|]. intros j d [(_ & [=] & _)|[_ Hd]]%insert_Some_inv. eauto.
  - eapply ids_ok_mono; [|done|done]. intros [j|j] n; [done|].
    intros (d & [(_ & [=] & _)|[_ Hd]]%insert_Some_inv & Hn). by exists d.
  - unfold watches_ok. split_conj; [unfold W; by rewrite length_fmap| |].
    + intros j w (Hj & Hne)%HW. destruct (HWw j w Hj) as (? & ? & k & d & Hd & Hde & Hdh & Hdt).
      do 2 (split; [done|]). exists k, d. rewrite list_lookup_insert_ne; [done|].
      intros ->. congruence.
    + intros j k w v (Hj & _)%HW (Hk & _)%HW. by eapply HWu.
  - intros j w (Hj & _)%HW. by apply (Hcur j).
Qed.

Lemma peer_closed_good s e : wf s -> good (peer_closed e s).
Proof.
  intros Hw. unfold peer_closed, mbind, M_bind, reads.
  destruct (publication_index e s) as [i|err|] eqn:Hpi;
    [|clear err Hpi|by destruct (publication_index_not_panic e s)].
  - destruct (publication_index_Ok_1 _ _ _ Hpi) as (x & p & Hi & Hp & _).
    rewrite (run_publication_at _ _ _ _ Hi Hp), (run_set_publication _ _ _ _ Hi).
    rewrite (run_slot_at _ i (with_active x None)); [|by apply (lookup_insert_slot s i x)].
    destruct (unpublish_run s i x p Hw Hi Hp) as (s' & n & Hn & Hw' & _).
    unfold slot_name in *. simpl in *. rewrite Hn. by split.
  - start_client e s. rewrite (run_client_at _ _ _ Hi). split; [|done]. simpl.
    by apply wf_client_gone with (c := c).
Qed.

(** ** Installation *)

(** Requests as the protocol parser delivers them. *)
Definition install_ok (install : InstallPublication) : Prop :=
  len (ip_service_name install) <= 128 /\ version_list_len (ip_versions install) <= 4.

Lemma version_list_get_in v i :
  0 <= i < version_list_len v -> len (vl_bytes v) < 2 ^ 63 -> is_Some (version_list_get v i).
Proof.
  unfold version_list_len, version_list_get. intros Hi Hb.
  pose proof (Z.div_mod (len (vl_bytes v)) 4 ltac:(lia)).
  pose proof (Z.mod_pos_bound (len (vl_bytes v)) 4 ltac:(lia)).
  rewrite checked_mul_u64_ok by lia. unfold get_u16. rewrite !checked_add_u64_ok by lia.
  destruct (proj2 (get_le_is_Some 2 (vl_bytes v) (i * 4))) as [? ->]; [lia|].
  destruct (proj2 (get_le_is_Some 2 (vl_bytes v) (i * 4 + 2))) as [? ->]; [lia|]. by eexists.
Qed.

Lemma version_list_len_small v : version_list_len v <= 4 -> len (vl_bytes v) < 2 ^ 63.
Proof.
  unfold version_list_len. intros. pose proof (Z.div_mod (len (vl_bytes v)) 4 ltac:(lia)).
  pose proof (Z.mod_pos_bound (len (vl_bytes v)) 4 ltac:(lia)). lia.
Qed.

Lemma copy_versions_spec target source index :
  0 <= index -> version_list_len source <= 4 ->
  exists vs, copy_versions target source index = Ok vs /\ length vs = length target.
Proof.
  intros Hi Hs. revert index Hi. induction target as [|v target IH]; intros index Hi; simpl; [eauto|].
  destruct (Z.ltb_spec index (version_list_len source)); [|eauto].
  destruct (version_list_get_in source index) as [x ->]; [lia|by apply version_list_len_small|].
  destruct (IH (index + 1)) as (vs & -> & Hl); [lia|]. simpl. eexists. split; [done|]. simpl. lia.
Qed.

Lemma cg_insert (SV : list (option ServiceSlot)) i x' protocol name :
  services_ok SV -> services_ok (<[i := Some x']> SV) -> (i < length SV)%nat ->
  (forall x, SV !! i = Some (Some x) -> slot_name x = slot_name x') ->
  cg (<[i := Some x']> SV) protocol name =
  if decide (name = slot_name x') then slot_gen x' protocol else cg SV protocol name.
Proof.
  intros HS HS' Hlt Hname. case_decide as Hd.
  - subst name. eapply cg_at; [done|]. by apply list_lookup_insert_eq.
  - destruct (slot_by_name SV name) as [(j & y & Hj & <-)|Hno].
    + assert (i <> j) by (intros ->; naive_solver congruence).
      rewrite (cg_at SV _ j y HS Hj). apply (cg_at _ _ j); [done|]. by rewrite list_lookup_insert_ne.
    + rewrite (cg_none SV) by done. apply cg_none.
      intros j y [(-> & [= ->] & _)|[_ Hj]]%insert_Some_inv; [congruence|by eapply Hno].
Qed.

Lemma services_ok_insert (SV : list (option ServiceSlot)) i x' :
  services_ok SV -> slot_wf x' ->
  (forall j y, SV !! j = Some (Some y) -> slot_name y = slot_name x' -> j = i) ->
  services_ok (<[i := Some x']> SV).
Proof.
  intros (Hl & Hw & Hn) Hw' Hu. unfold services_ok. split_conj; [by rewrite length_insert| |].
  - intros j y [(-> & [= ->] & _)|[_ H]]%insert_Some_inv; eauto.
  - intros j k y z [(-> & [= ->] & _)|[Hj H1]]%insert_Some_inv
      [(<- & [= ->] & _)|[Hk H2]]%insert_Some_inv Hyz; [done|..|by eapply Hn].
    + symmetry. by eapply Hu.
    + by eapply Hu.
Qed.

(** The slot an installation goes to: unused, or the retired one of its name. *)
Lemma free_or_matching_slot_Ok install s i :
  services_ok (services s) -> free_or_matching_slot install s = Ok i ->
  (i < length (services s))%nat /\
  (forall j y, services s !! j = Some (Some y) -> slot_name y = ip_service_name install -> j = i) /\
  (forall y, services s !! i = Some (Some y) -> slot_name y = ip_service_name install /\
     active y = None /\ last_generation y < ip_service_generation install).
Proof.
  intros (Hl & _ & Hn) H. unfold free_or_matching_slot in H.
  destruct (position _ (services s)) as [k|] eqn:Hp.
  - apply position_Some in Hp as (o & Hk & Ho & _). destruct o as [x|]; [|done].
    rewrite Hk in H. simpl in H. res_inv. subst k.
    assert (active x = None) as Ha by by apply eq_None_not_Some.
    split_conj; [by eapply lookup_lt_Some| |].
    + intros j y Hj Hy. eapply Hn; [done..|congruence].
    + intros y Hy. rewrite Hk in Hy. by injection Hy as <-.
  - apply position_None in Hp. rewrite Forall_lookup in Hp. res_inv.
    apply position_Some in H as (o & Hi & Ho & _). bool_prop. subst o.
    split_conj; [by eapply lookup_lt_Some| |].
    + intros j y Hj Hy. specialize (Hp _ _ Hj). simpl in Hp. by bool_prop.
    + intros y Hy. congruence.
Qed.

Lemma free_or_matching_slot_not_panic install s : free_or_matching_slot install s <> Panic.
Proof.
  unfold free_or_matching_slot. destruct (position _ (services s)) as [k|] eqn:Hp;
    [|apply ok_or_not_panic].
  apply position_Some in Hp as (o & Hk & Ho & _). destruct o as [x|]; [|done].
  rewrite Hk. simpl. no_panic.
Qed.

Lemma issued_snoc ids count v :
  (count < length ids)%nat -> issued (<[count := v]> ids) (S count) = issued ids count ++ [v].
Proof.
  intros. unfold issued. rewrite (take_S_r _ _ v) by by apply list_lookup_insert_eq.
  by rewrite take_insert_ge by lia.
Qed.

(** The slot and state an installation of a publication creates. *)
Definition installed_slot (install : InstallPublication) (handle : Z) (name : list Z)
    (vs : list ProtocolVersion) : ServiceSlot :=
  mkServiceSlot name (len (ip_service_name install) mod 2 ^ 8) (ip_service_generation install)
    (Some (mkPublication (mkIdentity (ip_endpoint_id install) (ip_endpoint_generation install))
             handle (ip_supervisor_role_id install) (ip_publication_id install)
             (ip_service_generation install) (ip_protocol_id install) vs
             (version_list_len (ip_versions install) mod 2 ^ 8) Installed 0
             (replay_new (Z.to_nat MAX_PUBLICATION_REPLAY)))).

Definition with_publication s i x install : RegistryState :=
  mkState (r_generation s) (<[i := Some x]> (services s)) (clients s) (watches s)
    (<[issued_endpoint_count s := ip_endpoint_id install]> (issued_endpoint_ids s))
    (S (issued_endpoint_count s))
    (<[issued_publication_count s := ip_publication_id install]> (issued_publication_ids s))
    (S (issued_publication_count s)) (issued_client_ids s) (issued_client_count s).

Lemma validate_fresh_Ok v s u :
  validate_fresh_endpoint_id v s = Ok u ->
  v ∉ endpoints_issued s /\ issued_endpoint_count s <> MAX_ISSUED_ENDPOINT_IDS.
Proof. unfold validate_fresh_endpoint_id. intros H. res_inv. by apply Nat.eqb_neq in E0. Qed.

Lemma validate_fresh_not_panic v s : validate_fresh_endpoint_id v s <> Panic.
Proof. unfold validate_fresh_endpoint_id. no_panic. Qed.

Lemma validate_install_not_panic g e h s : validate_install g e h s <> Panic.
Proof. unfold validate_install. no_panic. Qed.

Lemma install_publication_run s g handle install :
  wf s -> install_ok install ->
  (exists err, install_publication g handle install s = (s, Err err)) \/
  (exists i name vs,
     let x := installed_slot install handle name vs in
     install_publication g handle install s = (with_publication s i x install, Ok tt) /\
     g = r_generation s /\ handle <> 0 /\ ip_endpoint_id install <> 0 /\
     free_or_matching_slot install s = Ok i /\ slot_name x = ip_service_name install /\
     slot_wf x /\ ip_endpoint_id install ∉ endpoints_issued s /\
     (ip_publication_id install ∉ issued (issued_publication_ids s) (issued_publication_count s) /\
      copy_versions (replicate (Z.to_nat MAX_PROTOCOL_VERSIONS) default_version) (ip_versions install) 0 = Ok vs) /\
     (issued_endpoint_count s < MAX_ISSUED_ENDPOINT_IDS)%nat /\
     (issued_publication_count s < MAX_ISSUED_PUBLICATION_IDS)%nat).
Proof.
  intros [Hw _] [Hlen Hv]. pose proof (wf_issued _ Hw) as (He1 & He2 & Hp1 & Hp2 & _).
  unfold install_publication, mbind, M_bind, reads. cbv beta.
  destruct (validate_install _ _ _ s) as [u|err|] eqn:Hval;
    [|by left; eauto|by destruct (validate_install_not_panic _ _ _ _ Hval)].
  destruct (validate_fresh_endpoint_id _ s) as [u'|err|] eqn:Hf;
    [|by left; eauto|by destruct (validate_fresh_not_panic _ _ Hf)].
  apply validate_fresh_Ok in Hf as [Hf Hcap]. simpl in Hf.
  destruct (contains (ip_publication_id install) _) eqn:Hdup; [by left; eauto|].
  destruct (Nat.eqb_spec (issued_publication_count s) MAX_ISSUED_PUBLICATION_IDS); [by left; eauto|].
  destruct (free_or_matching_slot install s) as [i|err|] eqn:Hslot;
    [|by left; eauto|by destruct (free_or_matching_slot_not_panic _ _ Hslot)].
  destruct (name_array_spec _ Hlen) as (name & -> & Hnl & Hn & Hname).
  destruct (copy_versions_spec (replicate (Z.to_nat MAX_PROTOCOL_VERSIONS) default_version)
    (ip_versions install) 0) as (vs & Hcopy & Hvs); [lia|done|]. rewrite Hcopy.
  right. exists i, name, vs. cbv zeta. unfold validate_install in Hval. res_inv.
  unfold set_slot, record_endpoint_id, record_publication_id, modify, mbind, M_bind, reads. simpl.
  rewrite (proj2 (Nat.ltb_lt _ _)) by lia. simpl.
  rewrite (proj2 (Nat.ltb_lt _ _)) by lia. split_conj; try done; [|lia|lia].
  assert (0 <= version_list_len (ip_versions install)) by (apply Z.div_pos; lia).
  unfold slot_wf. split_conj; simpl; [done|lia|lia|]. intros p [= <-]. split; [|done].
  unfold publication_wf. simpl. rewrite Z.mod_small by lia.
  split_conj; [done|lia|lia|]. apply replay_new_wf. vm_compute. lia.
Qed.

Lemma wf_with_publication s i x install :
  wf s -> free_or_matching_slot install s = Ok i -> slot_name x = ip_service_name install ->
  slot_wf x -> (exists p, active x = Some p /\ phase p = Installed /\
                 id (p_endpoint p) = ip_endpoint_id install) ->
  ip_endpoint_id install ∉ endpoints_issued s ->
  (issued_endpoint_count s < MAX_ISSUED_ENDPOINT_IDS)%nat ->
  (issued_publication_count s < MAX_ISSUED_PUBLICATION_IDS)%nat ->
  wf (with_publication s i x install).
Proof.
  intros [[Hs Hc Hid Hww Hiss] Hcur] Hslot Hname Hxw (p & Hp & Hph & Hpid) Hf He Hpub.
  destruct (free_or_matching_slot_Ok _ _ _ Hs Hslot) as (Hlt & Hu & Hold).
  destruct Hiss as (He1 & He2 & Hp1 & Hp2 & Hc1 & Hc2 & Hnd).
  assert (services_ok (<[i := Some x]> (services s))) as Hs'.
  { apply services_ok_insert; [done|done|]. intros j y Hj Hy. eapply Hu; [done|congruence]. }
  assert (endpoints_issued (with_publication s i x install) =
          endpoints_issued s ++ [ip_endpoint_id install]) as HE.
  { apply issued_snoc. lia. }
  split; [split; simpl; [done|done| |done|]|].
  - rewrite HE. apply (ids_ok_fresh (services s) (clients s) (endpoints_issued s) _ _ _
      (inl i) (ip_endpoint_id install)); [done|set_solver|set_solver| |done].
    intros [j|j] n; [|by left].
    intros (y & q & [(-> & [= ->] & _)|[_ Hy]]%insert_Some_inv & Hq & Hn).
    + right. split; [done|]. congruence.
    + left. by exists y, q.
  - unfold issued_ok. rewrite HE. simpl. rewrite !length_insert. split_conj; try done.
    apply NoDup_app. split_conj; [done| |apply NoDup_singleton].
    intros n Hn ->%list_elem_of_singleton. done.
  - intros j w Hj. rewrite (Hcur j w Hj).
    change (cg (services s) (w_protocol_id w) (watch_name w) =
      cg (<[i := Some x]> (services s)) (w_protocol_id w) (watch_name w)).
    rewrite cg_insert; [|done|done|done|].
    2: { intros y Hy. rewrite Hname. by apply Hold. }
    case_decide as Hn; [|done].
    assert (slot_gen x (w_protocol_id w) = 0) as ->.
    { unfold slot_gen. rewrite Hp, Hph. by rewrite andb_false_r. }
    destruct (slot_by_name (services s) (watch_name w)) as [(k & y & Hk & Hy)|Hno]; [|by apply cg_none].
    assert (k = i) as -> by (eapply Hu; [done|congruence]).
    rewrite <-Hy, (cg_at _ _ i y) by done. unfold slot_gen.
    by destruct (Hold y Hk) as (_ & -> & _).
Qed.

Lemma install_publication_good s g handle install :
  wf s -> install_ok install -> good (install_publication g handle install s).
Proof.
  intros Hw Hok.
  destruct (install_publication_run s g handle install Hw Hok)
    as [(err & ->)|(i & name & vs & -> & _ & _ & _ & ? & ? & ? & ? & _ & ? & ?)]; [by split|].
  split; [|done]. apply wf_with_publication; try done. by eexists.
Qed.

Definition installed_client (install : InstallClient) (handle : Z) : Client :=
  mkClient (mkIdentity (ic_endpoint_id install) (ic_endpoint_generation install)) handle
    (ic_client_id install) (ic_scope install)
    (replicate (Z.to_nat MAX_OUTSTANDING_PER_CLIENT) 0) 0
    (replay_new (Z.to_nat MAX_CLIENT_REPLAY)).

Definition with_client s i handle install : RegistryState :=
  mkState (r_generation s) (services s)
    (<[i := Some (installed_client install handle)]> (clients s)) (watches s)
    (<[issued_endpoint_count s := ic_endpoint_id install]> (issued_endpoint_ids s))
    (S (issued_endpoint_count s)) (issued_publication_ids s) (issued_publication_count s)
    (<[issued_client_count s := ic_client_id install]> (issued_client_ids s))
    (S (issued_client_count s)).

Lemma install_client_run s g handle install :
  wf s ->
  (exists err, install_client g handle install s = (s, Err err)) \/
  (exists i, install_client g handle install s = (with_client s i handle install, Ok tt) /\
     g = r_generation s /\ handle <> 0 /\ ic_endpoint_id install <> 0 /\
     clients s !! i = Some None /\ ic_endpoint_id install ∉ endpoints_issued s /\
     (issued_endpoint_count s < MAX_ISSUED_ENDPOINT_IDS)%nat /\
     (issued_client_count s < MAX_ISSUED_CLIENT_IDS)%nat).
Proof.
  intros [Hw _]. pose proof (wf_issued _ Hw) as (He1 & He2 & _ & _ & Hc1 & Hc2 & _).
  unfold install_client, mbind, M_bind, reads. cbv beta.
  destruct (validate_install _ _ _ s) as [u|err|] eqn:Hval;
    [|by left; eauto|by destruct (validate_install_not_panic _ _ _ _ Hval)].
  destruct (validate_fresh_endpoint_id _ s) as [u'|err|] eqn:Hf;
    [|by left; eauto|by destruct (validate_fresh_not_panic _ _ Hf)].
  apply validate_fresh_Ok in Hf as [Hf Hcap]. simpl in Hf.
  destruct (contains (ic_client_id install) _) eqn:Hdup; [by left; eauto|].
  destruct (Nat.eqb_spec (issued_client_count s) MAX_ISSUED_CLIENT_IDS); [by left; eauto|].
  destruct (position _ (clients s)) as [i|] eqn:Hpos; [|by left; eauto]. simpl.
  apply position_Some in Hpos as (o & Hi & Ho & _). bool_prop. subst o.
  right. exists i. unfold validate_install in Hval. res_inv.
  unfold set_client, record_endpoint_id, record_client_id, modify, mbind, M_bind, reads. simpl.
  rewrite (proj2 (Nat.ltb_lt _ _)) by lia. simpl.
  rewrite (proj2 (Nat.ltb_lt _ _)) by lia. split_conj; try done; lia.
Qed.

Lemma installed_client_wf install handle : client_wf (installed_client install handle).
Proof.
  unfold client_wf, client_live. simpl. split_conj; [done|lia| |by constructor..|].
  - apply replay_new_wf. vm_compute. lia.
  - intros t Ht. by apply elem_of_nil in Ht.
Qed.

Lemma wf_with_client s i handle install :
  wf s -> clients s !! i = Some None -> ic_endpoint_id install ∉ endpoints_issued s ->
  (issued_endpoint_count s < MAX_ISSUED_ENDPOINT_IDS)%nat ->
  (issued_client_count s < MAX_ISSUED_CLIENT_IDS)%nat ->
  wf (with_client s i handle install).
Proof.
  intros [[Hs [Hcl Hcw] Hid (HWl & HWw & HWu) Hiss] Hcur] Hi Hf He Hcc.
  destruct Hiss as (He1 & He2 & Hp1 & Hp2 & Hc1 & Hc2 & Hnd).
  assert (endpoints_issued (with_client s i handle install) =
          endpoints_issued s ++ [ic_endpoint_id install]) as HE.
  { apply issued_snoc. lia. }
  split; [split; simpl; [done| | | |]|done].
  - split; [by rewrite length_insert|].
    intros j c [(-> & [= <-] & _)|[_ Hj]]%insert_Some_inv; [apply installed_client_wf|eauto].
  - rewrite HE. apply (ids_ok_fresh (services s) (clients s) (endpoints_issued s) _ _ _
      (inr i) (ic_endpoint_id install)); [done|set_solver|set_solver| |done].
    intros [j|j] n; [by left|].
    intros (c & [(-> & [= <-] & _)|[_ Hc]]%insert_Some_inv & Hn); [by right|left; by exists c].
  - unfold watches_ok. split_conj; [done| |done]. intros j w Hj.
    destruct (HWw j w Hj) as (? & ? & k & c & Hk & Hrest). do 2 (split; [done|]).
    exists k, c. rewrite list_lookup_insert_ne; [done|]. intros ->. congruence.
  - unfold issued_ok. rewrite HE. simpl. rewrite !length_insert. split_conj; try done.
    apply NoDup_app. split_conj; [done| |apply NoDup_singleton].
    intros n Hn ->%list_elem_of_singleton. done.
Qed.

Lemma install_client_good s g handle install :
  wf s -> good (install_client g handle install s).
Proof.
  intros Hw. destruct (install_client_run s g handle install Hw)
    as [(err & ->)|(i & -> & _ & _ & _ & ? & ? & ? & ?)]; [by split|].
  split; [by apply wf_with_client|done].
Qed.
