(* ===== verification/RegistryThms.v ===== *)
(** * What the registry guarantees

    Requests as a step relation on [RegistryState]; the invariant by induction
    on reachability; what is monotone along every run (issued identities,
    service generations); the functional behaviour of lookup, publication,
    closing and enumeration. *)

From stdpp Require Import base tactics option list list_numbers relations sorting sets.
From Stdlib Require Import ZArith Lia.
From S2P Require Import Prelude Bytes Utf8 RegistryProto Registry RegistryReplay RegistryInv.
From S2P Require Import RegistryOps.
Import RegistryProto Registry.

(** ** Requests and runs *)

Inductive Request :=
| ReqInstallPublication (generation handle : Z) (install : InstallPublication)
| ReqInstallClient (generation handle : Z) (install : InstallClient)
| ReqPreparePublish (e : EndpointIdentity) (t : Z)
| ReqCommitPublish (ticket : PublishTicket)
| ReqPublish (e : EndpointIdentity) (t : Z)
| ReqRetire (e : EndpointIdentity) (t : Z)
| ReqLookup (e : EndpointIdentity) (t : Z) (request : Lookup)
| ReqWatch (e : EndpointIdentity) (t : Z) (request : Watch)
| ReqCancel (e : EndpointIdentity) (t target : Z)
| ReqEnumerateBegin (e : EndpointIdentity) (t : Z)
| ReqEnumerationRecord (ticket : EnumerationTicket) (index : nat)
| ReqEnumerationComplete (ticket : EnumerationTicket)
| ReqCompleteTransaction (e : EndpointIdentity) (kind : EndpointKind) (t : Z)
| ReqPeerClosed (e : EndpointIdentity).

Definition forget {A} (c : M A) : M unit := _ ← c; mret tt.

Definition perform (request : Request) : M unit :=
  match request with
  | ReqInstallPublication g h install => install_publication g h install
  | ReqInstallClient g h install => install_client g h install
  | ReqPreparePublish e t => forget (prepare_publish e t)
  | ReqCommitPublish ticket => forget (commit_publish ticket)
  | ReqPublish e t => forget (publish e t)
  | ReqRetire e t => forget (retire e t)
  | ReqLookup e t request => forget (lookup e t request)
  | ReqWatch e t request => forget (watch e t request)
  | ReqCancel e t target => cancel e t target
  | ReqEnumerateBegin e t => forget (enumerate_begin e t)
  | ReqEnumerationRecord ticket index => forget (enumeration_record ticket index)
  | ReqEnumerationComplete ticket => enumeration_complete ticket
  | ReqCompleteTransaction e kind t => complete_transaction e kind t
  | ReqPeerClosed e => forget (peer_closed e)
  end.

(** What callers guarantee: names and version tables are those the parser
    accepts; an enumeration ticket is completed while no watch of its client
    was given its transaction (the registry loop completes a ticket before it
    reads the next request). *)
Definition request_ok (s : RegistryState) (request : Request) : Prop :=
  match request with
  | ReqInstallPublication _ _ install => install_ok install
  | ReqWatch _ _ request => len (wt_service_name request) <= 128
  | ReqEnumerationComplete ticket => unwatched s (et_client ticket) (et_transaction ticket)
  | _ => True
  end.

(** One request, whatever its outcome. *)
Definition step (s s' : RegistryState) : Prop :=
  exists request, request_ok s request /\ s' = fst (perform request s).

Inductive reachable : RegistryState -> Prop :=
| reachable_new generation s : registry_new generation = Ok s -> reachable s
| reachable_step s s' : reachable s -> step s s' -> reachable s'.

Lemma good_forget {A} (c : M A) s : good (c s) -> good (forget c s).
Proof. intros H. apply good_bind; [done|]. intros a s' Hw. by split. Qed.

Lemma perform_good s request : wf s -> request_ok s request -> good (perform request s).
Proof.
  intros Hw Hok. destruct request; simpl in *; try apply good_forget.
  - by apply install_publication_good.
  - by apply install_client_good.
  - by apply prepare_publish_good.
  - by apply commit_publish_good.
  - by apply publish_good.
  - by apply retire_good.
  - by apply lookup_good.
  - by apply watch_good.
  - by apply cancel_good.
  - by apply enumerate_begin_good.
  - by apply enumeration_record_good.
  - by apply enumeration_complete_good.
  - by apply complete_transaction_good.
  - by apply peer_closed_good.
Qed.

Lemma lookup_replicate_None {A} n i (x : A) : replicate n None !! i = Some (Some x) -> False.
Proof. intros [? _]%lookup_replicate. done. Qed.

Lemma wf_empty s :
  services s = replicate 32 None -> clients s = replicate 32 None ->
  watches s = replicate 32 None -> issued_ok s -> wf s.
Proof.
  intros Hs Hc Hw Hi.
  assert (forall i x, services s !! i = Some (Some x) -> False) as Hs'
    by (intros i x; rewrite Hs; apply lookup_replicate_None).
  assert (forall i x, clients s !! i = Some (Some x) -> False) as Hc'
    by (intros i x; rewrite Hc; apply lookup_replicate_None).
  assert (forall i x, watches s !! i = Some (Some x) -> False) as Hw'
    by (intros i x; rewrite Hw; apply lookup_replicate_None).
  split; [split; [| | | |done]|intros i w ?; by destruct (Hw' i w)].
  - split; [by rewrite Hs, length_replicate|]. split; naive_solver.
  - split; [by rewrite Hc, length_replicate|naive_solver].
  - split; [intros [i|i] k n|intros [i|i] n]; simpl; naive_solver.
  - split; [by rewrite Hw, length_replicate|]. split; naive_solver.
Qed.

Lemma registry_new_wf g s : registry_new g = Ok s -> wf s.
Proof.
  unfold registry_new. intros H. res_inv. subst s. apply wf_empty; [done..|].
  unfold issued_ok, endpoints_issued. simpl. split_conj; try (done || lia). by constructor.
Qed.

Lemma reachable_wf s : reachable s -> wf s.
Proof.
  induction 1 as [g s H|s s' _ IH (request & Hok & ->)]; [by eapply registry_new_wf|].
  by apply perform_good.
Qed.

(** C1: every state the registry can reach, by any sequence of requests with
    any outcomes, satisfies the invariant, and no request panics in it: array
    indices, [unwrap]s and debug assertions all hold. *)
Theorem registry_safe s request :
  reachable s -> request_ok s request ->
  wf s /\ wf (fst (perform request s)) /\ snd (perform request s) <> Panic.
Proof.
  intros Hr Hok. pose proof (reachable_wf _ Hr) as Hw. split; [done|]. by apply perform_good.
Qed.

(** ** What non-installing requests never touch *)

(** A computation keeps an observation of the state. *)
Definition keeps {A B} (f : RegistryState -> B) (c : M A) : Prop :=
  forall s, f (fst (c s)) = f s.

Section keeps.
Context {B : Type} (f : RegistryState -> B).

Lemma keeps_ret {A} (a : A) : keeps f (mret a).
Proof. done. Qed.
Lemma keeps_reads {A} (g : RegistryState -> res RegistryError A) : keeps f (reads g).
Proof. done. Qed.
Lemma keeps_fail {A} e : keeps f (fail_with (A:=A) e).
Proof. done. Qed.
Lemma keeps_bind {A C} (c : M A) (k : A -> M C) :
  keeps f c -> (forall a, keeps f (k a)) -> keeps f (mbind k c).
Proof.
  intros Hc Hk s. unfold mbind, M_bind. specialize (Hc s).
  destruct (c s) as [s' [a|e|]]; simpl in *; [|done|done]. by rewrite Hk.
Qed.
Lemma keeps_forget {A} (c : M A) : keeps f c -> keeps f (forget c).
Proof. intros. by apply keeps_bind. Qed.

(** The primitive writes an observation has to be independent of. *)
Record frame : Prop := {
  frame_client : forall i c, keeps f (set_client i c);
  frame_watch : forall i w, keeps f (set_watch i w);
  frame_watches : forall h, keeps f (modify (fun s => set_watches s (h s)));
  frame_publication : forall i p, keeps f (set_publication i p) }.

Ltac keeps_step :=
  match goal with
  | |- keeps _ (mbind _ _) => apply keeps_bind; [|intros ?]
  | |- keeps _ (mret _) => apply keeps_ret
  | |- keeps _ (reads _) => apply keeps_reads
  | |- keeps _ (fail_with _) => apply keeps_fail
  | |- keeps _ (match ?x with _ => _ end) => destruct x
  | |- keeps _ (forget _) => apply keeps_forget
  end.

Lemma frame_perform request :
  frame ->
  match request with
  | ReqInstallPublication _ _ _ | ReqInstallClient _ _ _ => False
  | _ => True
  end -> keeps f (perform request).
Proof.
  intros [Hc Hw HW Hp] Hr.
  assert (forall i t, keeps f (client_reserve i t)) by (intros; unfold client_reserve, client_at; repeat keeps_step; done).
  assert (forall i t, keeps f (client_complete i t)) by (intros; unfold client_complete, client_at; repeat keeps_step; done).
  assert (forall i, keeps f (publication_at i)) by (intros; unfold publication_at, slot_at; repeat keeps_step; done).
  assert (forall i t, keeps f (reserve_publication i t)) by (intros; unfold reserve_publication; repeat keeps_step; done).
  assert (forall i t, keeps f (complete_publication i t)) by (intros; unfold complete_publication; repeat keeps_step; done).
  assert (forall protocol name g count index n,
    keeps f (notify_from protocol name g index count n)).
  { intros protocol name g count. induction count as [|count IH]; intros index n; simpl;
      repeat keeps_step; auto. }
  assert (forall protocol name g, keeps f (notify protocol name g))
    by (intros; unfold notify; repeat keeps_step; done).
  assert (forall ticket, keeps f (commit_publish ticket))
    by (intros; unfold commit_publish, slot_at; cbv zeta; repeat keeps_step; done).
  assert (forall e t, keeps f (prepare_publish e t))
    by (intros; unfold prepare_publish; repeat keeps_step; done).
  destruct request; simpl; try done; repeat keeps_step; try done.
  all: unfold publish, retire, lookup, watch, cancel, enumerate_begin, enumeration_record,
    enumeration_complete, complete_transaction, peer_closed, slot_at, client_at; cbv zeta;
    repeat keeps_step; auto.
Qed.
End keeps.

(** ** Identities are issued once, generations only grow *)

Definition is_install (request : Request) : bool :=
  match request with
  | ReqInstallPublication _ _ _ | ReqInstallClient _ _ _ => true
  | _ => false
  end.

(** The endpoint id a request installs. *)
Definition installs (request : Request) (n : Z) : Prop :=
  match request with
  | ReqInstallPublication _ _ install => ip_endpoint_id install = n
  | ReqInstallClient _ _ install => ic_endpoint_id install = n
  | _ => False
  end.

Lemma keeps_set_publication {B} (f : RegistryState -> B) i p :
  (forall s x, services s !! i = Some (Some x) ->
     f (set_services s (<[i := Some (with_active x p)]> (services s))) = f s) ->
  keeps f (set_publication i p).
Proof.
  intros H s. unfold set_publication, slot_at, mbind, M_bind, reads.
  destruct (services s !! i) as [[x|]|] eqn:Hx; [|done|done]. by apply H.
Qed.

Lemma endpoints_frame : frame endpoints_issued.
Proof. split; try done. intros i p. by apply keeps_set_publication. Qed.

(** Name and last generation of every slot. *)
Definition slot_generations (s : RegistryState) : list (option (list Z * Z)) :=
  fmap (M:=option) (fun x => (slot_name x, last_generation x)) <$> services s.

Lemma slot_generations_frame : frame slot_generations.
Proof.
  split; try done. intros i p. apply keeps_set_publication. intros s x Hx.
  unfold slot_generations. simpl. rewrite list_fmap_insert. simpl.
  apply list_insert_id. rewrite list_lookup_fmap, Hx. done.
Qed.

Lemma perform_issued s request :
  wf s -> request_ok s request ->
  exists l, endpoints_issued (fst (perform request s)) = endpoints_issued s ++ l.
Proof.
  intros Hw Hok. pose proof (wf_issued _ (proj1 Hw)) as (He1 & _).
  destruct (is_install request) eqn:Hi; cycle 1.
  { exists []. rewrite app_nil_r. apply frame_perform; [apply endpoints_frame|by destruct request]. }
  destruct request; try done; simpl.
  - destruct (install_publication_run s generation handle install Hw Hok)
      as [(err & ->)|(i & name & vs & -> & Hrest)]; [by exists []; rewrite app_nil_r|].
    eexists. apply issued_snoc. lia.
  - destruct (install_client_run s generation handle install Hw)
      as [(err & ->)|(i & -> & Hrest)]; [by exists []; rewrite app_nil_r|].
    eexists. apply issued_snoc. lia.
Qed.

Lemma reachable_rtc s s' : reachable s -> rtc step s s' -> reachable s'.
Proof. intros Hr Hs. induction Hs; [done|]. by eauto using reachable_step. Qed.

Lemma issued_forever s s' n :
  reachable s -> rtc step s s' -> n ∈ endpoints_issued s -> n ∈ endpoints_issued s'.
Proof.
  intros Hr Hs. revert Hr. induction Hs as [|s s1 s2 Hstep _ IH]; intros Hr Hn; [done|].
  apply IH; [by eapply reachable_step|]. destruct Hstep as (request & Hok & ->).
  destruct (perform_issued s request (reachable_wf _ Hr) Hok) as [l ->]. set_solver.
Qed.

Lemma install_records s request n :
  wf s -> request_ok s request -> installs request n -> snd (perform request s) = Ok tt ->
  n ∉ endpoints_issued s /\ n ∈ endpoints_issued (fst (perform request s)).
Proof.
  intros Hw Hok Hn Hrun. pose proof (wf_issued _ (proj1 Hw)) as (He1 & _).
  destruct request; try done; simpl in *; subst n.
  - destruct (install_publication_run s generation handle install Hw Hok)
      as [(err & Heq)|(i & name & vs & Heq & _ & _ & _ & _ & _ & _ & Hf & _ & Hlt & _)];
      rewrite Heq in *; [done|]. split; [done|].
    change (ip_endpoint_id install ∈ issued (<[issued_endpoint_count s := ip_endpoint_id install]>
      (issued_endpoint_ids s)) (S (issued_endpoint_count s))).
    rewrite issued_snoc by lia. set_solver.
  - destruct (install_client_run s generation handle install Hw)
      as [(err & Heq)|(i & Heq & _ & _ & _ & _ & Hf & Hlt & _)]; rewrite Heq in *; [done|].
    split; [done|].
    change (ic_endpoint_id install ∈ issued (<[issued_endpoint_count s := ic_endpoint_id install]>
      (issued_endpoint_ids s)) (S (issued_endpoint_count s))).
    rewrite issued_snoc by lia. set_solver.
Qed.

(** an endpoint id is given to one endpoint for the life of the registry:
    once an installation with it succeeded, then after any further requests
    (closing the endpoint included) every installation that names it again is
    refused. *)
Theorem endpoint_id_issued_once s0 r1 n s r2 :
  reachable s0 -> request_ok s0 r1 -> installs r1 n -> snd (perform r1 s0) = Ok tt ->
  rtc step (fst (perform r1 s0)) s -> request_ok s r2 -> installs r2 n ->
  exists err, snd (perform r2 s) = Err err.
Proof.
  intros Hr Hok1 Hn1 Hrun Hs Hok2 Hn2. pose proof (reachable_wf _ Hr) as Hw.
  destruct (install_records s0 r1 n Hw Hok1 Hn1 Hrun) as [_ Hin].
  assert (reachable (fst (perform r1 s0))) as Hr1 by (eapply reachable_step; [done|by exists r1]).
  pose proof (issued_forever _ _ _ Hr1 Hs Hin) as Hin'.
  pose proof (reachable_wf _ (reachable_rtc _ _ Hr1 Hs)) as Hws.
  destruct (snd (perform r2 s)) as [[]|err|] eqn:Hrun2; [|eauto|].
  - by destruct (install_records s r2 n Hws Hok2 Hn2 Hrun2) as [Hnew _].
  - by destruct (perform_good s r2 Hws Hok2).
Qed.

(** Slots stay, keep their name, and their last generation does not decrease. *)
Definition generations_le (s s' : RegistryState) : Prop :=
  forall i x, services s !! i = Some (Some x) ->
    exists x', services s' !! i = Some (Some x') /\ slot_name x' = slot_name x /\
      last_generation x <= last_generation x'.

Lemma generations_le_same s s' : slot_generations s' = slot_generations s -> generations_le s s'.
Proof.
  unfold slot_generations. intros Heq i x Hx.
  assert ((fmap (M:=option) (fun x => (slot_name x, last_generation x)) <$> services s') !! i =
    Some (Some (slot_name x, last_generation x))) as H
    by by rewrite Heq, list_lookup_fmap, Hx.
  rewrite list_lookup_fmap in H. destruct (services s' !! i) as [[x'|]|]; simplify_eq/=.
  exists x'. split_conj; [done|done|lia].
Qed.

Lemma perform_generations s request :
  wf s -> request_ok s request -> generations_le s (fst (perform request s)).
Proof.
  intros Hw Hok. destruct (is_install request) eqn:Hi; cycle 1.
  { apply generations_le_same, frame_perform; [apply slot_generations_frame|by destruct request]. }
  assert (generations_le s s) as Hid by (intros i x Hx; exists x; split_conj; [done|done|lia]).
  destruct request; try done; simpl.
  - destruct (install_publication_run s generation handle install Hw Hok)
      as [(err & ->)|(i & name & vs & -> & _ & _ & _ & Hslot & Hname & _)]; [done|].
    destruct (free_or_matching_slot_Ok _ _ _ (wf_services _ (proj1 Hw)) Hslot) as (Hlt & _ & Hold).
    intros j x Hx. simpl. destruct (decide (i = j)) as [<-|].
    + rewrite list_lookup_insert_eq by done. eexists. split; [done|]. rewrite Hname.
      destruct (Hold x Hx) as (-> & _ & ?). split; [done|]. simpl. lia.
    + rewrite list_lookup_insert_ne by done. exists x. split_conj; [done|done|lia].
  - destruct (install_client_run s generation handle install Hw)
      as [(err & ->)|(i & -> & _)]; done.
Qed.

Lemma run_generations s s' : reachable s -> rtc step s s' -> generations_le s s'.
Proof.
  intros Hr Hs. revert Hr. induction Hs as [s|s s1 s2 Hstep _ IH]; intros Hr.
  { intros i x Hx. exists x. split_conj; [done|done|lia]. }
  assert (reachable s1) as Hr1 by by eapply reachable_step.
  destruct Hstep as (request & Hok & ->). intros i x Hx.
  destruct (perform_generations s request (reachable_wf _ Hr) Hok i x Hx) as (x1 & Hx1 & Hn1 & Hg1).
  destruct (IH Hr1 i x1 Hx1) as (x2 & Hx2 & Hn2 & Hg2). exists x2.
  split_conj; [done|congruence|lia].
Qed.

(** the generations of a service strictly increase: when a publication of
    a service name is installed after an earlier one of the same name, with
    any requests in between, its generation is greater. *)
Theorem service_generation_increases s0 g1 h1 i1 s g2 h2 i2 :
  reachable s0 -> install_ok i1 -> snd (install_publication g1 h1 i1 s0) = Ok tt ->
  rtc step (fst (install_publication g1 h1 i1 s0)) s ->
  install_ok i2 -> ip_service_name i2 = ip_service_name i1 ->
  snd (install_publication g2 h2 i2 s) = Ok tt ->
  ip_service_generation i1 < ip_service_generation i2.
Proof.
  intros Hr Hok1 Hrun1 Hs Hok2 Hname Hrun2. pose proof (reachable_wf _ Hr) as Hw.
  assert (reachable (fst (install_publication g1 h1 i1 s0))) as Hr1.
  { eapply reachable_step; [done|]. by exists (ReqInstallPublication g1 h1 i1). }
  pose proof (reachable_wf _ (reachable_rtc _ _ Hr1 Hs)) as Hws.
  pose proof (run_generations _ _ Hr1 Hs) as Hgen.
  destruct (install_publication_run s0 g1 h1 i1 Hw Hok1)
    as [(err & Heq)|(i & name & vs & Heq & _ & _ & _ & Hslot & Hn1 & _)]; rewrite Heq in *; [done|].
  destruct (free_or_matching_slot_Ok _ _ _ (wf_services _ (proj1 Hw)) Hslot) as (Hlt & _ & _).
  destruct (Hgen i (installed_slot i1 h1 name vs)) as (x & Hx & Hxn & Hxg).
  { simpl. by apply list_lookup_insert_eq. }
  destruct (install_publication_run s g2 h2 i2 Hws Hok2)
    as [(err & Heq2)|(j & name2 & vs2 & Heq2 & _ & _ & _ & Hslot2 & _)]; rewrite Heq2 in *; [done|].
  destruct (free_or_matching_slot_Ok _ _ _ (wf_services _ (proj1 Hws)) Hslot2) as (_ & Hu & Hold).
  assert (i = j) as -> by (eapply Hu; [done|congruence]).
  destruct (Hold x Hx) as (_ & _ & ?). simpl in Hxg. lia.
Qed.

(** ** Lookup *)

Lemma lookup_publication_spec s request p :
  services_ok (services s) ->
  lookup_publication s request = Some p <->
  exists j x, services s !! j = Some (Some x) /\ active x = Some p /\ phase p = Published /\
    slot_name x = lk_service_name request /\ protocol_id p = lk_protocol_id request.
Proof.
  intros (_ & _ & Hn). unfold lookup_publication. split.
  - intros (x & (j & Hj)%elem_of_flatten_lookup & Hx)%find_map_Some.
    destruct (active x) as [q|] eqn:Hq; [|done].
    destruct (_ && _) eqn:Hc; [|done]. injection Hx as ->. bool_prop. eauto 10.
  - intros (j & x & Hj & Hp & Hph & Hname & Hpr).
    destruct (find_map _ _) as [q|] eqn:Hf.
    + apply find_map_Some in Hf as (y & (k & Hk)%elem_of_flatten_lookup & Hy).
      destruct (active y) as [q'|] eqn:Hq'; [|done].
      destruct (_ && _) eqn:Hc; [|done]. injection Hy as ->. bool_prop.
      assert (k = j) as -> by (eapply Hn; [done..|congruence]). congruence.
    + apply find_map_None in Hf. rewrite Forall_forall in Hf.
      specialize (Hf x (proj2 (elem_of_flatten_lookup _ _) (ex_intro _ _ Hj))).
      rewrite Hp, Hph, Hname, Hpr, Z.eqb_refl, !bool_decide_eq_true_2 in Hf by done. done.
Qed.

(** A transaction a client may start now. *)
Definition fresh_transaction (c : Client) (t : Z) : Prop :=
  t <> 0 /\ t ∉ client_live c /\ t ∉ replay_list (c_replay c) /\ (length (client_live c) < 16)%nat.

Lemma reserve_fresh c t : client_wf c -> fresh_transaction c t -> exists c1, reserve c t = Ok c1.
Proof.
  intros Hc (Hz & Hl & Hr & Hn). rewrite (length_client_live c Hc) in Hn.
  destruct Hc as (Hlen & _ & Hrw & _). unfold reserve.
  rewrite (replay_contains_list 32), Hlen by done.
  rewrite (proj2 (contains_false _ _) Hr), (proj2 (contains_false _ _) Hl).
  rewrite (proj2 (Z.eqb_neq _ _) Hz), (proj2 (Nat.eqb_neq _ _)), (proj2 (Nat.ltb_lt _ _)) by lia. eauto.
Qed.

Lemma reserve_stale c t :
  client_wf c -> t <> 0 -> t ∈ replay_list (c_replay c) -> reserve c t = Err RTransactionReplay.
Proof.
  intros (_ & _ & Hrw & _) Hz Hr. unfold reserve. rewrite (replay_contains_list 32) by done.
  by rewrite (proj2 (contains_true _ _) Hr), (proj2 (Z.eqb_neq _ _) Hz).
Qed.

(** The run of a lookup with a fresh transaction. *)
Lemma lookup_run s e t request i c :
  wf s -> clients s !! i = Some (Some c) -> c_endpoint c = e -> fresh_transaction c t ->
  exists c', lookup e t request s =
      (set_clients s (<[i := Some c']> (clients s)), lookup_result s t request) /\
    same_client c c' /\ client_wf c' /\ client_live c' ≡ₚ client_live c /\
    replay_list (c_replay c') = last_n 32 (replay_list (c_replay c) ++ [t]).
Proof.
  intros Hw Hi He Hf. pose proof (client_at_wf _ _ _ Hw Hi) as Hc.
  destruct (reserve_fresh c t Hc Hf) as [c1 H1].
  destruct (reserve_complete c t c1 Hc H1) as (c2 & H2 & Hw2 & Hs2 & Hp2 & Hr2).
  exists c2. split; [|done]. unfold lookup, mbind, M_bind, reads.
  rewrite (client_index_Ok_2 e s i c (wf_ids _ (proj1 Hw)) Hi He).
  destruct (run_answer s i c t Hw Hi) as [(err & He1 & _)|(c1' & c2' & (c1'' & Ha1 & Ha2) & H1' & -> & ->)];
    [congruence|].
  rewrite H1 in Ha1. injection Ha1 as <-. rewrite H2 in Ha2. injection Ha2 as <-. done.
Qed.

(** C27: lookup answers exactly from what is published: with a transaction the
    client may start, it returns an offer if and only if the named service is
    published with the protocol and supports the version, the offer is that
    publication's endpoint, handle and generation, services and watches are
    unchanged, and the transaction is spent: repeating it is refused as a
    replay. *)
Theorem lookup_correct s e t request i c :
  reachable s -> clients s !! i = Some (Some c) -> c_endpoint c = e -> fresh_transaction c t ->
  let s' := fst (lookup e t request s) in
  (forall o, snd (lookup e t request s) = Ok o <->
     exists j x p, services s !! j = Some (Some x) /\ active x = Some p /\
       phase p = Published /\ slot_name x = lk_service_name request /\
       protocol_id p = lk_protocol_id request /\
       lk_version request ∈ take (Z.to_nat (version_count p)) (versions p) /\
       o = mkForwardOffer (p_endpoint p) (p_handle p) (service_generation p) t) /\
  services s' = services s /\ watches s' = watches s /\
  forall request', snd (lookup e t request' s') = Err RTransactionReplay.
Proof.
  intros Hr Hi He Hf s'. pose proof (reachable_wf _ Hr) as Hw.
  destruct (lookup_run s e t request i c Hw Hi He Hf) as (c' & Hrun & Hs & Hcw & _ & Hrep).
  subst s'. rewrite Hrun. simpl. split_conj; [|done|done|].
  - intros o. unfold lookup_result. pose proof (wf_services _ (proj1 Hw)) as Hsv. split.
    + intros H. destruct (lookup_publication s request) as [p|] eqn:Hp; [|done]. simpl in H.
      destruct (supports p (lk_version request)) eqn:Hv; [|done]. injection H as <-.
      apply lookup_publication_spec in Hp as (j & x & ? & ? & ? & ? & ?); [|done].
      unfold supports in Hv. bool_prop. eauto 20.
    + intros (j & x & p & ? & ? & ? & ? & ? & Hv & ->).
      rewrite (proj2 (lookup_publication_spec s request p Hsv)) by eauto 10. simpl.
      unfold supports. by rewrite (proj2 (contains_true _ _) Hv).
  - intros request'.
    assert (wf (set_clients s (<[i:=Some c']> (clients s)))) as Hw'.
    { pose proof (lookup_good s e t request Hw) as [Hg _]. by rewrite Hrun in Hg. }
    pose proof (lookup_insert_client s i c c' Hi) as Hi'. destruct Hs as (Hse & _).
    unfold lookup, mbind, M_bind, reads.
    rewrite (client_index_Ok_2 e _ i c' (wf_ids _ (proj1 Hw')) Hi'), (run_client_reserve _ _ _ _ Hi')
      by congruence.
    rewrite reserve_stale; [done|done|apply Hf|]. rewrite Hrep.
    unfold last_n. rewrite length_app, drop_app_le by (simpl; lia).
    apply elem_of_app. right. by apply list_elem_of_singleton.
Qed.

(** ** Publication and retirement *)

(** publishing tells every watch it concerns, once: a committed
    publication makes its generation the current one of its name and protocol,
    returns one notification for each pending watch with that name and
    protocol and another generation, in table order, completes those watches'
    transactions and removes exactly those watches; every watch that stays
    pending has observed the generation that is current. *)
Theorem publish_notifies s ticket i x p :
  reachable s -> publication_index (pt_endpoint ticket) s = Ok i ->
  services s !! i = Some (Some x) -> active x = Some p ->
  live_transaction p = pt_transaction ticket -> phase p = Installed ->
  let g := service_generation p in
  exists s' n, commit_publish ticket s = (s', Ok (mkPublishOutcome g n)) /\
    current_generation s' (protocol_id p) (slot_name x) = g /\
    (forall k, notifications_get n k = matched (protocol_id p) (slot_name x) g (watches s) !! k) /\
    watches s' = swept (protocol_id p) (slot_name x) g <$> watches s /\
    clients_after (matched (protocol_id p) (slot_name x) g (watches s)) (clients s) (clients s') /\
    forall j w, watches s' !! j = Some (Some w) ->
      w_last_generation w = current_generation s' (w_protocol_id w) (watch_name w).
Proof.
  intros Hr Hpi Hi Hp Hl Hph g. pose proof (reachable_wf _ Hr) as Hw.
  destruct (commit_publish_run s ticket i x p Hw Hpi Hi Hp Hl Hph)
    as (s' & n & p' & Hrun & Hw' & Hs & Hph' & Ho & HW & HN & HC).
  exists s', n. split_conj; try done; [| |apply Hw'].
  - assert (services s' !! i = Some (Some (with_active x (Some p')))) as Hi'
      by (rewrite Ho; by apply (lookup_insert_slot s i x)).
    change (slot_name x) with (slot_name (with_active x (Some p'))).
    change (cg (services s') (protocol_id p) (slot_name (with_active x (Some p'))) = g).
    rewrite (cg_at _ _ i _ (wf_services _ (proj1 Hw')) Hi'), slot_gen_published by done.
    destruct Hs as (_ & _ & -> & -> & _). by rewrite decide_True.
  - intros k. by apply notifications_get_notes.
Qed.

(** closing a publication's endpoint withdraws the service: its handle is
    returned to be closed, the name and protocol have no current generation
    any more, the watches that had seen one are notified with generation 0,
    and no lookup finds the endpoint again. *)
Theorem publication_closed s e i x p :
  reachable s -> publication_index e s = Ok i ->
  services s !! i = Some (Some x) -> active x = Some p ->
  exists s' n, peer_closed e s = (s', Ok (mkPeerCloseOutcome (p_handle p) KPublication n)) /\
    current_generation s' (protocol_id p) (slot_name x) = 0 /\
    (forall k, notifications_get n k = matched (protocol_id p) (slot_name x) 0 (watches s) !! k) /\
    (forall t request o, lookup_result s' t request = Ok o -> id (fo_publication o) <> id e).
Proof.
  intros Hr Hpi Hi Hp. pose proof (reachable_wf _ Hr) as Hw.
  destruct (publication_index_Ok_1 _ _ _ Hpi) as (x0 & p0 & Hi0 & Hp0 & He).
  assert (x0 = x) as -> by congruence. assert (p0 = p) as -> by congruence.
  destruct (unpublish_run s i x p Hw Hi Hp) as (s' & n & Hn & Hw' & Ho & HW & HN & HC).
  exists s', n. split_conj.
  - unfold peer_closed, mbind, M_bind, reads. rewrite Hpi.
    rewrite (run_publication_at _ _ _ _ Hi Hp), (run_set_publication _ _ _ _ Hi).
    rewrite (run_slot_at _ i (with_active x None)); [|by apply (lookup_insert_slot s i x)].
    change (slot_name (with_active x None)) with (slot_name x). by rewrite Hn.
  - assert (services s' !! i = Some (Some (with_active x None))) as Hi'
      by (rewrite Ho; by apply (lookup_insert_slot s i x)).
    change (cg (services s') (protocol_id p) (slot_name (with_active x None)) = 0).
    by rewrite (cg_at _ _ i _ (wf_services _ (proj1 Hw')) Hi').
  - intros k. by apply notifications_get_notes.
  - intros t request o H Hid. unfold lookup_result in H.
    destruct (lookup_publication s' request) as [q|] eqn:Hq; [|done]. simpl in H.
    apply lookup_publication_spec in Hq as (j & y & Hj & Hy & _); [|apply Hw'].
    destruct (supports _ _); [|done]. injection H as <-. simpl in Hid.
    rewrite Ho in Hj. simpl in Hj. apply insert_Some_inv in Hj as [(_ & [= <-] & _)|[Hne Hj]]; [done|].
    destruct Hne. destruct (wf_ids _ (proj1 Hw)) as [Hinj _].
    assert (inl i = inl j :> nat + nat) as [= ->]; [|done].
    eapply (Hinj _ _ (id e)); [exists x, p|exists y, q]; naive_solver congruence.
Qed.

(** Closing a client removes it and everything pending for it: its handle
    is returned, its endpoint is unknown, no watch of it is left, and services
    and other clients' watches are untouched. *)
Theorem client_closed s e i c :
  reachable s -> clients s !! i = Some (Some c) -> c_endpoint c = e ->
  exists s', peer_closed e s = (s', Ok (mkPeerCloseOutcome (c_handle c) KClient notifications_new)) /\
    services s' = services s /\ clients s' = <[i := None]> (clients s) /\
    client_index e s' = Err RUnknownEndpoint /\
    forall j w, watches s' !! j = Some (Some w) <->
      watches s !! j = Some (Some w) /\ w_client w <> e.
Proof.
  intros Hr Hi He. pose proof (reachable_wf _ Hr) as Hw. destruct (wf_ids _ (proj1 Hw)) as [Hinj _].
  eexists. split_conj.
  - unfold peer_closed, mbind, M_bind, reads.
    destruct (publication_index e s) as [k|err|] eqn:Hpi;
      [exfalso| |by destruct (publication_index_not_panic e s)].
    { destruct (publication_index_Ok_1 _ _ _ Hpi) as (x & p & Hk & Hp & Hpe).
      assert (inl k = inr i :> nat + nat); [|done].
      eapply (Hinj _ _ (id e)); [exists x, p|exists c]; naive_solver congruence. }
    by rewrite (client_index_Ok_2 e s i c (wf_ids _ (proj1 Hw)) Hi He), (run_client_at _ _ _ Hi).
  - done.
  - done.
  - unfold client_index. simpl. destruct (position _ _) as [k|] eqn:Hp; [|done]. exfalso.
    apply position_Some in Hp as (o & Hk & Ho & _). destruct o as [d|]; [|done]. bool_prop.
    apply insert_Some_inv in Hk as [(_ & [=] & _)|[Hne Hk]].
    assert (inr k = inr i :> nat + nat) as [= ->]; [|done].
    eapply (Hinj _ _ (id e)); [exists d|exists c]; naive_solver congruence.
  - intros j w. simpl. rewrite list_lookup_fmap.
    destruct (watches s !! j) as [[v|]|]; simpl; [case_bool_decide|..]; naive_solver.
Qed.

(** ** Enumeration *)

Definition name_le (x y : ServiceSlot) : Prop := ~ bytes_lt (slot_name y) (slot_name x).
Definition name_lt (x y : ServiceSlot) : Prop := bytes_lt (slot_name x) (slot_name y).

#[global] Instance name_le_dec : RelDecision name_le.
Proof. unfold name_le. intros x y. apply _. Defined.

#[global] Instance name_le_trans : Transitive name_le.
Proof.
  unfold name_le. intros x y z Hxy Hyz Hzx.
  destruct (bytes_lt_trichotomy (slot_name y) (slot_name z)) as [H|[H|H]]; [|congruence|done].
  apply Hxy. by transitivity (slot_name z).
Qed.

#[global] Instance name_le_total : Total name_le.
Proof.
  unfold name_le. intros x y.
  destruct (bytes_lt_trichotomy (slot_name x) (slot_name y)) as [H|[H|H]].
  - left. intros H'. eapply bytes_lt_irrefl. by transitivity (slot_name x).
  - left. rewrite H. apply bytes_lt_irrefl.
  - right. intros H'. eapply bytes_lt_irrefl. by transitivity (slot_name y).
Qed.

(** The minimum is in the list and nothing is below it. *)
Lemma min_by_name_spec best l m :
  min_by_name best l = Some m ->
  m ∈ option_list best ++ l /\ forall y, y ∈ option_list best ++ l -> name_le m y.
Proof.
  revert best. induction l as [|x l IH]; intros best; simpl.
  { intros ->. simpl. split; [set_solver|]. intros y ->%list_elem_of_singleton.
    apply bytes_lt_irrefl. }
  destruct best as [b|]; [|intros H%IH; exact H].
  destruct (bytes_ltb (slot_name x) (slot_name b)) eqn:Hlt; intros [H1 H2]%IH; simpl in *;
    (split; [set_solver|]); intros y Hy.
  - apply bytes_ltb_lt in Hlt. apply elem_of_cons in Hy as [->|Hy]; [|apply H2; set_solver].
    transitivity x; [apply H2; set_solver|]. intros H'. eapply bytes_lt_irrefl.
    by transitivity (slot_name x).
  - apply elem_of_cons in Hy as [->|[->|Hy]%elem_of_cons]; [apply H2; set_solver| |apply H2; set_solver].
    transitivity b; [apply H2; set_solver|]. unfold name_le. rewrite <-bytes_ltb_lt. congruence.
Qed.

Lemma min_by_name_None best l : min_by_name best l = None -> best = None /\ l = [].
Proof.
  revert best. induction l as [|x l IH]; intros best; simpl; [done|].
  intros [H _]%IH. by destruct best as [b|]; [destruct (bytes_ltb _ _)|].
Qed.

Lemma min_by_name_first l x L : l ≡ₚ x :: L -> Forall (name_lt x) L -> min_by_name None l = Some x.
Proof.
  intros Hp HL. destruct (min_by_name None l) as [m|] eqn:Hm.
  - apply min_by_name_spec in Hm as [Hin Hmin]. simpl in *. rewrite Hp in Hin.
    apply elem_of_cons in Hin as [->|Hin]; [done|].
    rewrite Forall_forall in HL. destruct (Hmin x); [rewrite Hp; set_solver|]. by apply HL.
  - apply min_by_name_None in Hm as [_ ->]. by apply Permutation_nil_cons in Hp.
Qed.

Lemma sorted_strict L :
  StronglySorted name_le L -> NoDup (slot_name <$> L) -> StronglySorted name_lt L.
Proof.
  induction 1 as [|x L HL IH Hx]; simpl; [constructor|]. intros [Hn Hnd]%NoDup_cons.
  constructor; [by apply IH|]. rewrite Forall_forall in Hx |- *. intros y Hy.
  destruct (bytes_lt_trichotomy (slot_name x) (slot_name y)) as [H|[H|H]]; [done| |].
  - destruct Hn. rewrite H. by apply list_elem_of_fmap_2.
  - by destruct (Hx y Hy).
Qed.

Lemma names_NoDup (SV : list (option ServiceSlot)) :
  (forall i j x y, SV !! i = Some (Some x) -> SV !! j = Some (Some y) ->
     slot_name x = slot_name y -> i = j) -> NoDup (slot_name <$> flatten SV).
Proof.
  induction SV as [|[x|] SV IH]; intros H; simpl; [constructor| |].
  - constructor.
    + intros (y & Hy & (i & Hi)%elem_of_flatten_lookup)%list_elem_of_fmap.
      by specialize (H 0%nat (S i) x y eq_refl Hi Hy).
    + apply IH. intros i j y z Hi Hj Hyz. by injection (H (S i) (S j) y z Hi Hj Hyz).
  - apply IH. intros i j y z Hi Hj Hyz. by injection (H (S i) (S j) y z Hi Hj Hyz).
Qed.

Lemma name_lt_trans x y z : name_lt x y -> name_lt y z -> name_lt x z.
Proof. unfold name_lt. intros. by transitivity (slot_name y). Qed.

Lemma filter_all {A} (P : A -> Prop) `{!forall x, Decision (P x)} l : Forall P l -> filter P l = l.
Proof. induction 1 as [|x l Hx _ IH]; [done|]. by rewrite filter_cons_True, IH. Qed.

Lemma NoDup_fmap_filter {A B} (f : A -> B) (P : A -> Prop) `{!forall x, Decision (P x)} l :
  NoDup (f <$> l) -> NoDup (f <$> filter P l).
Proof.
  induction l as [|x l IH]; [done|]. rewrite filter_cons, fmap_cons, NoDup_cons. intros [Hx Hl].
  case_decide; [|by apply IH]. rewrite fmap_cons, NoDup_cons. split; [|by apply IH].
  intros (y & Hy & [_ Hin]%list_elem_of_filter)%list_elem_of_fmap. destruct Hx.
  rewrite Hy. by apply list_elem_of_fmap_2.
Qed.

Lemma filter_above (L : list ServiceSlot) k p :
  StronglySorted name_lt L -> L !! k = Some p ->
  filter (fun x => bytes_ltb (slot_name p) (slot_name x) = true) L = drop (S k) L.
Proof.
  intros HL. revert k. induction HL as [|x L HL IH Hx]; intros k Hk; [done|].
  destruct k as [|k]; simpl in *.
  - injection Hk as ->. rewrite filter_cons_False by (rewrite bytes_ltb_lt; apply bytes_lt_irrefl).
    rewrite drop_0. apply filter_all. eapply Forall_impl; [done|]. intros y. by rewrite bytes_ltb_lt.
  - rewrite filter_cons_False; [by apply IH|]. rewrite bytes_ltb_lt. intros H.
    rewrite Forall_forall in Hx. apply list_elem_of_lookup_2, Hx in Hk.
    eapply bytes_lt_irrefl. by transitivity (slot_name x).
Qed.

Section canonical.
Context (values : list (option ServiceSlot)) (L : list ServiceSlot).
Context (HL : StronglySorted name_lt L).
Context (HP : L ≡ₚ filter (fun x => is_published x = true) (flatten values)).

(** The [k]-th slot, given the [k-1]-th. *)
Lemma next_published k prev :
  match k with O => prev = None | S k' => exists p, L !! k' = Some p /\ prev = Some (slot_name p) end ->
  min_by_name None (filter (fun x => is_published x &&
    match prev with Some name => bytes_ltb name (slot_name x) | None => true end = true)
    (flatten values)) = L !! k.
Proof.
  intros Hk.
  assert (filter (fun x => is_published x &&
    match prev with Some name => bytes_ltb name (slot_name x) | None => true end = true)
    (flatten values) ≡ₚ drop k L) as Hf.
  { destruct k as [|k].
    - subst prev. rewrite drop_0, HP. erewrite list_filter_iff; [reflexivity|].
      intros x. by rewrite andb_true_r.
    - destruct Hk as (p & Hp & ->). rewrite <-(filter_above L k p HL Hp), HP, list_filter_filter.
      erewrite list_filter_iff; [reflexivity|]. intros x. rewrite andb_true_iff. tauto. }
  destruct (L !! k) as [x|] eqn:Hx.
  - apply (min_by_name_first _ x (drop (S k) L)); [by rewrite Hf, (drop_S _ _ _ Hx)|].
    rewrite <-(take_drop k L), (drop_S _ _ _ Hx) in HL.
    apply StronglySorted_app_1_r, StronglySorted_cons in HL. by apply HL.
  - rewrite drop_ge in Hf by by apply lookup_ge_None. symmetry in Hf. by apply Permutation_nil in Hf as ->.
Qed.

Lemma nth_canonical_from_sorted rounds : forall k prev selected,
  match k with O => prev = None | S k' => exists p, L !! k' = Some p /\ prev = Some (slot_name p) end ->
  nth_canonical_from values (S rounds) prev selected = L !! (k + rounds)%nat.
Proof.
  induction rounds as [|rounds IH]; intros k prev selected Hk.
  - cbn [nth_canonical_from]. rewrite (next_published k prev Hk), Nat.add_0_r. by destruct (L !! k).
  - change (nth_canonical_from values (S (S rounds)) prev selected) with
      (match min_by_name None (filter (fun x => is_published x &&
         match prev with Some name => bytes_ltb name (slot_name x) | None => true end = true)
         (flatten values)) with
       | None => None
       | Some x => nth_canonical_from values (S rounds) (Some (slot_name x)) (Some x)
       end).
    rewrite (next_published k prev Hk). destruct (L !! k) as [x|] eqn:Hx.
    + rewrite (IH (S k)); [f_equal; lia|eauto].
    + symmetry. apply lookup_ge_None in Hx. apply lookup_ge_None. lia.
Qed.
End canonical.

Lemma canonical_listing s :
  wf s ->
  exists L, L ≡ₚ filter (fun x => is_published x = true) (flatten (services s)) /\
    StronglySorted name_lt L /\ length L = published_count s /\
    forall target, nth_canonical (services s) target = L !! target.
Proof.
  intros [Hw _]. destruct (wf_services _ Hw) as (_ & _ & Hn).
  set (l := filter (fun x => is_published x = true) (flatten (services s))).
  exists (merge_sort name_le l). pose proof (merge_sort_Permutation name_le l) as HP.
  assert (StronglySorted name_lt (merge_sort name_le l)) as HL.
  { apply sorted_strict; [apply StronglySorted_merge_sort; apply _|].
    rewrite HP. by apply NoDup_fmap_filter, names_NoDup. }
  split_conj; [done|done|by rewrite HP|]. intros target.
  exact (nth_canonical_from_sorted _ _ HL HP target 0 None None eq_refl).
Qed.

(** enumeration walks the published services in name order: in a reachable
    state, the records [0, 1, 2, ...] of an enumeration are the published
    slots, each exactly once, in strictly increasing order of their names, and
    then nothing. *)
Theorem enumeration_canonical s :
  reachable s ->
  exists L, L ≡ₚ filter (fun x => is_published x = true) (flatten (services s)) /\
    StronglySorted name_lt L /\ length L = published_count s /\
    forall target, nth_canonical (services s) target = L !! target.
Proof. intros Hr. by apply canonical_listing, reachable_wf. Qed.

(** ** A concrete run *)

Definition demo_start : RegistryState :=
  match registry_new 7 with Ok s => s | _ => mkState 0 [] [] [] [] 0 [] 0 [] 0 end.
Definition demo_state (requests : list Request) : RegistryState :=
  fold_left (fun s r => fst (perform r s)) requests demo_start.

Fixpoint requests_ok (requests : list Request) (s : RegistryState) : Prop :=
  match requests with
  | [] => True
  | r :: requests => request_ok s r /\ requests_ok requests (fst (perform r s))
  end.

Lemma demo_reachable requests : requests_ok requests (demo_state []) -> reachable (demo_state requests).
Proof.
  assert (reachable demo_start) as H by (eapply (reachable_new 7); reflexivity).
  change (demo_state []) with demo_start. unfold demo_state. revert H. generalize demo_start.
  induction requests as [|r requests IH]; intros s Hs; simpl; [intros _; exact Hs|]. intros [Hr Hrest].
  apply IH; [|done]. eapply reachable_step; [done|by exists r].
Qed.

Definition demo_client : InstallClient := mkInstallClient 1 1 5 1 BootstrapMetadata.
(** Service ["a"], protocol 17, version 1.0, generation 4. *)
Definition demo_publication : InstallPublication :=
  mkInstallPublication 2 1 1 9 4 17 (mkVersionList [1; 0; 0; 0]) [97].
Definition demo_next : InstallPublication :=
  mkInstallPublication 3 1 1 10 5 17 (mkVersionList [1; 0; 0; 0]) [97].
Definition demo_requests : list Request :=
  [ReqInstallClient 7 100 demo_client; ReqInstallPublication 7 200 demo_publication;
   ReqWatch (mkIdentity 1 1) 50 (mkWatch 17 0 [97])].
Definition demo_prepared : list Request := demo_requests ++ [ReqPreparePublish (mkIdentity 2 1) 60].
Definition demo_published : list Request :=
  demo_prepared ++ [ReqCommitPublish (mkPublishTicket (mkIdentity 2 1) 60)].
Definition demo_lookup : Lookup := mkLookup 17 (mkVersion 1 0) [97].

Lemma demo_ok : requests_ok demo_published (demo_state []).
Proof. repeat split; vm_compute; discriminate. Qed.
Lemma demo_prepared_ok : requests_ok demo_prepared (demo_state []).
Proof. repeat split; vm_compute; discriminate. Qed.

Lemma registry_safe_witness :
  let r := ReqLookup (mkIdentity 1 1) 51 demo_lookup in
  let s := demo_state demo_published in
  wf s /\ wf (fst (perform r s)) /\ snd (perform r s) <> Panic.
Proof. apply registry_safe; [exact (demo_reachable _ demo_ok)|exact I]. Defined.

(** The client closes; its endpoint id stays spent. *)
Lemma endpoint_id_issued_once_witness :
  exists err, snd (perform (ReqInstallClient 7 101 (mkInstallClient 1 2 6 1 ScopeNone))
    (fst (perform (ReqPeerClosed (mkIdentity 1 1))
      (fst (perform (ReqInstallClient 7 100 demo_client) (demo_state [])))))) = Err err.
Proof.
  apply (endpoint_id_issued_once (demo_state []) (ReqInstallClient 7 100 demo_client) 1).
  - apply (demo_reachable []). exact I.
  - exact I.
  - reflexivity.
  - vm_compute. reflexivity.
  - eapply rtc_once. exists (ReqPeerClosed (mkIdentity 1 1)). split; [exact I|reflexivity].
  - exact I.
  - reflexivity.
Defined.

Lemma service_generation_increases_witness :
  ip_service_generation demo_publication < ip_service_generation demo_next.
Proof.
  apply (service_generation_increases (demo_state []) 7 200 demo_publication
    (fst (perform (ReqPeerClosed (mkIdentity 2 1))
       (fst (install_publication 7 200 demo_publication (demo_state []))))) 7 201 demo_next).
  - apply (demo_reachable []). exact I.
  - split; vm_compute; discriminate.
  - vm_compute. reflexivity.
  - eapply rtc_once. exists (ReqPeerClosed (mkIdentity 2 1)). split; [exact I|reflexivity].
  - split; vm_compute; discriminate.
  - reflexivity.
  - vm_compute. reflexivity.
Defined.

(** Entry [i] of an array of options, for evaluation. *)
Definition entry {A} (d : A) (l : list (option A)) (i : nat) : A :=
  match l !! i with Some (Some x) => x | _ => d end.
Definition no_client : Client := mkClient (mkIdentity 0 0) 0 0 ScopeNone [] 0 (replay_new 1).
Definition no_slot : ServiceSlot := mkServiceSlot [] 0 0 None.
Definition no_publication : Publication :=
  mkPublication (mkIdentity 0 0) 0 0 0 0 0 [] 0 Installed 0 (replay_new 1).
Definition slot_publication (x : ServiceSlot) : Publication := default no_publication (active x).

Lemma lookup_correct_witness :
  exists o, snd (lookup (mkIdentity 1 1) 51 demo_lookup (demo_state demo_published)) = Ok o /\
    (exists j x p, services (demo_state demo_published) !! j = Some (Some x) /\ active x = Some p /\
       phase p = Published /\ slot_name x = lk_service_name demo_lookup /\
       protocol_id p = lk_protocol_id demo_lookup /\
       lk_version demo_lookup ∈ take (Z.to_nat (version_count p)) (versions p) /\
       o = mkForwardOffer (p_endpoint p) (p_handle p) (service_generation p) 51).
Proof.
  eexists. split; [vm_compute; reflexivity|].
  eapply (lookup_correct (demo_state demo_published) (mkIdentity 1 1) 51 demo_lookup 0
    (entry no_client (clients (demo_state demo_published)) 0)).
  - exact (demo_reachable _ demo_ok).
  - vm_compute. reflexivity.
  - vm_compute. reflexivity.
  - repeat split; try (apply (bool_decide_unpack _); vm_compute; exact I).
  - vm_compute. reflexivity.
Defined.

Lemma publish_notifies_witness :
  exists s' n, commit_publish (mkPublishTicket (mkIdentity 2 1) 60) (demo_state demo_prepared)
      = (s', Ok (mkPublishOutcome 4 n)) /\
    notifications_get n 0 = Some (mkWatchNotification (mkIdentity 1 1) 100 50 4) /\
    notifications_get n 1 = None.
Proof.
  destruct (publish_notifies (demo_state demo_prepared) (mkPublishTicket (mkIdentity 2 1) 60) 0
    (entry no_slot (services (demo_state demo_prepared)) 0)
    (slot_publication (entry no_slot (services (demo_state demo_prepared)) 0)))
    as (s' & n & Hrun & _ & Hn & _).
  - exact (demo_reachable _ demo_prepared_ok).
  - vm_compute. reflexivity.
  - vm_compute. reflexivity.
  - vm_compute. reflexivity.
  - vm_compute. reflexivity.
  - vm_compute. reflexivity.
  - exists s', n. split; [exact Hrun|]. split; rewrite Hn; vm_compute; reflexivity.
Defined.

Lemma publication_closed_witness :
  exists s' n, peer_closed (mkIdentity 2 1) (demo_state demo_published)
      = (s', Ok (mkPeerCloseOutcome 200 KPublication n)) /\
    current_generation s' 17 [97] = 0.
Proof.
  destruct (publication_closed (demo_state demo_published) (mkIdentity 2 1) 0
    (entry no_slot (services (demo_state demo_published)) 0)
    (slot_publication (entry no_slot (services (demo_state demo_published)) 0)))
    as (s' & n & Hrun & Hcur & _).
  - exact (demo_reachable _ demo_ok).
  - vm_compute. reflexivity.
  - vm_compute. reflexivity.
  - vm_compute. reflexivity.
  - exists s', n. split; [exact Hrun|exact Hcur].
Defined.

Lemma client_closed_witness :
  exists s', peer_closed (mkIdentity 1 1) (demo_state demo_requests)
      = (s', Ok (mkPeerCloseOutcome 100 KClient notifications_new)) /\
    client_index (mkIdentity 1 1) s' = Err RUnknownEndpoint.
Proof.
  destruct (client_closed (demo_state demo_requests) (mkIdentity 1 1) 0
    (entry no_client (clients (demo_state demo_requests)) 0)) as (s' & Hrun & _ & _ & Hi & _).
  - apply demo_reachable. repeat split; vm_compute; discriminate.
  - vm_compute. reflexivity.
  - vm_compute. reflexivity.
  - exists s'. split; [exact Hrun|exact Hi].
Defined.

Lemma enumeration_canonical_witness :
  exists L, L ≡ₚ filter (fun x => is_published x = true)
      (flatten (services (demo_state demo_published))) /\
    StronglySorted name_lt L /\ length L = 1%nat /\
    forall target, nth_canonical (services (demo_state demo_published)) target = L !! target.
Proof. apply (enumeration_canonical (demo_state demo_published)). exact (demo_reachable _ demo_ok). Defined.
