(* ===== verification/Bootfs.v ===== *)
(** * The boot archive (crates/wyrmroot-bootfs/src)

    Canonical paths (path.rs), the zero-copy [cpio newc] parser (archive.rs)
    and the deterministic builder (builder.rs).  A borrowed slice is the list of
    its bytes.  Loops that consume the archive run on fuel; running out would be
    [Panic], and [BootfsThms] shows the fuel given always suffices.  [usize] has
    64 bits, so [usize::try_from] of a [u64] always succeeds. *)

From stdpp Require Import base tactics option list list_numbers sorting.
From Stdlib Require Import ZArith Lia.
From S2P Require Import Prelude Bytes Utf8.

Module Bootfs.

(** ** limits.rs, lib.rs *)

Record BootfsLimits := mkLimits {
  max_archive_bytes : Z; max_records : Z; max_encoded_name_bytes : Z }.
Definition WYR0_LIMITS : BootfsLimits := mkLimits (32 * 1024 * 1024) 4096 4096.
Definition MAX_ARCHIVE_BYTES : Z := max_archive_bytes WYR0_LIMITS.
Definition MAX_RECORDS : Z := max_records WYR0_LIMITS.
Definition MAX_ENCODED_NAME_BYTES : Z := max_encoded_name_bytes WYR0_LIMITS.
(** [b"070701"] *)
Definition NEWC_MAGIC : list Z := [48; 55; 48; 55; 48; 49].

(** ** path.rs *)

Inductive ArchivePathError :=
| EmptyPath | AbsolutePath | EmptyComponent | CurrentDirectoryComponent
| ParentDirectoryComponent | NulByte | Backslash | PathTooLong | ReservedTrailerName.

(** [b"TRAILER!!!"] *)
Definition TRAILER_NAME : list Z := [84; 82; 65; 73; 76; 69; 82; 33; 33; 33].

Definition validate_component (component : list Z) : res ArchivePathError unit :=
  match component with
  | [] => Err EmptyComponent
  | [46] => Err CurrentDirectoryComponent
  | [46; 46] => Err ParentDirectoryComponent
  | _ => Ok tt
  end.

(** The loop over [bytes.iter().copied().enumerate()], from [index]; [rest] is
    what is left to visit. *)
Fixpoint validate_bytes (bytes rest : list Z) (index component_start : Z)
    : res ArchivePathError Z :=
  match rest with
  | [] => Ok component_start
  | byte :: rest =>
      match byte with
      | 0 => Err NulByte
      | 92 => Err Backslash
      | 47 =>
          let! component := or_panic (get_range bytes component_start index) in
          let! _ := validate_component component in
          validate_bytes bytes rest (index + 1) (index + 1)
      | _ => validate_bytes bytes rest (index + 1) component_start
      end
  end.

Definition validate_archive_path (bytes : list Z) : res ArchivePathError unit :=
  reject_if! bool_decide (bytes = []) with EmptyPath;;
  reject_if! len bytes >=? MAX_ENCODED_NAME_BYTES with PathTooLong;;
  reject_if! bool_decide (bytes = TRAILER_NAME) with ReservedTrailerName;;
  let! first := or_panic (get_at bytes 0) in
  reject_if! first =? 47 with AbsolutePath;;
  let! component_start := validate_bytes bytes bytes 0 0 in
  let! component := or_panic (get_from bytes component_start) in
  let! _ := validate_component component in
  Ok tt.

(** [ArchivePath::new]: the validated bytes. *)
Definition archive_path_new (bytes : list Z) : res ArchivePathError (list Z) :=
  let! _ := validate_archive_path bytes in Ok bytes.

(** [ArchivePath::matches] *)
Definition archive_path_matches (path candidate : list Z) : res ArchivePathError bool :=
  let! _ := validate_archive_path candidate in Ok (bool_decide (path = candidate)).

(** ** archive.rs *)

Definition HEADER_SIZE : Z := 110.

Inductive ParseError :=
| TruncatedHeader (offset : Z) | InvalidMagic (offset : Z) | InvalidNumeric (offset : Z)
| SizeOverflow (offset : Z) | InvalidNameSize (offset : Z) | TruncatedName (offset : Z)
| InvalidName (offset : Z) | TruncatedData (offset : Z) | TruncatedPadding (offset : Z)
| InvalidPadding (offset : Z) | InvalidTrailer (offset : Z) | DuplicateName (offset : Z)
| UnsortedName (offset : Z) | InvalidMetadata (offset : Z) | UnsupportedFileType (offset : Z)
| UnsupportedPermissions (offset : Z) | InvalidPath (offset : Z) | ArchiveTooLarge (offset : Z)
| TooManyRecords (offset : Z) | NameTooLarge (offset : Z) | TrailingBytes (offset : Z).

Inductive LookupError := LInvalidPath (e : ArchivePathError) | LNotFound.

Record Entry := mkEntry {
  e_name : list Z; e_data : list Z; e_path : list Z; e_executable : bool }.

Record ArchiveRecord := mkRecord {
  r_start : Z; r_next : Z; r_name : list Z; r_data : list Z; r_path : option (list Z);
  r_executable : bool; r_is_trailer : bool }.

(** [value.checked_add(3).map(|aligned| aligned & !3)] *)
Definition align4 (value : Z) : option Z :=
  (fun aligned => Z.land aligned (Z.lnot 3)) <$> checked_add_u64 value 3.

Definition hex_digit_value (byte : Z) : option Z :=
  if in_range 48 57 byte then Some (byte - 48)
  else if in_range 97 102 byte then Some (byte - 97 + 10)
  else if in_range 65 70 byte then Some (byte - 65 + 10)
  else None.

Fixpoint hex_field_from (field : list Z) (offset value : Z) : res ParseError Z :=
  match field with
  | [] => Ok value
  | byte :: field =>
      let! digit := ok_or (InvalidNumeric offset) (hex_digit_value byte) in
      let! value := ok_or (SizeOverflow offset)
        (match checked_mul_u64 value 16 with
         | Some current => checked_add_u64 current digit
         | None => None
         end) in
      hex_field_from field offset value
  end.
Definition hex_field (field : list Z) (offset : Z) : res ParseError Z :=
  hex_field_from field offset 0.

(** [hex_field(&header[a..a + 8], start + a)?] *)
Definition header_field (header : list Z) (start a : Z) : res ParseError Z :=
  let! field := or_panic (get_range header a (a + 8)) in
  hex_field field (start + a).

Definition check_archive_length (byte_len : Z) : res ParseError unit :=
  if byte_len >? MAX_ARCHIVE_BYTES then Err (ArchiveTooLarge MAX_ARCHIVE_BYTES) else Ok tt.

Definition nonzero (byte : Z) : bool := negb (byte =? 0).

Definition parse_record (bytes : list Z) (start : Z) : res ParseError ArchiveRecord :=
  let! header := ok_or (TruncatedHeader start) (get_from bytes start) in
  reject_if! len header <? HEADER_SIZE with TruncatedHeader start;;
  let! magic := or_panic (get_range header 0 6) in
  reject_if! bool_decide (magic <> NEWC_MAGIC) with InvalidMagic start;;
  let! ino := header_field header start 6 in
  let! mode := header_field header start 14 in
  let! uid := header_field header start 22 in
  let! gid := header_field header start 30 in
  let! nlink := header_field header start 38 in
  let! mtime := header_field header start 46 in
  let! filesize := header_field header start 54 in
  let! devmajor := header_field header start 62 in
  let! devminor := header_field header start 70 in
  let! rdevmajor := header_field header start 78 in
  let! rdevminor := header_field header start 86 in
  let! namesize := header_field header start 94 in
  let! check := header_field header start 102 in
  reject_if! namesize >? MAX_ENCODED_NAME_BYTES with NameTooLarge (start + 94);;
  reject_if! namesize =? 0 with InvalidNameSize (start + 94);;
  let! name_start := ok_or (SizeOverflow start) (checked_add_u64 start HEADER_SIZE) in
  let! name_end := ok_or (SizeOverflow (start + 94)) (checked_add_u64 name_start namesize) in
  let! name_with_nul := ok_or (TruncatedName name_start) (get_range bytes name_start name_end) in
  let! name := or_panic (get_range name_with_nul 0 (len name_with_nul - 1)) in
  reject_if! bool_decide (last name_with_nul <> Some 0) || contains 0 name
    with InvalidName name_start;;
  let! data_start := ok_or (SizeOverflow name_end) (align4 name_end) in
  let! padding := ok_or (TruncatedPadding name_end) (get_range bytes name_end data_start) in
  reject_if! existsb nonzero padding with InvalidPadding name_end;;
  let! data_end := ok_or (SizeOverflow data_start) (checked_add_u64 data_start filesize) in
  let! data := ok_or (TruncatedData data_start) (get_range bytes data_start data_end) in
  let! next := ok_or (SizeOverflow data_end) (align4 data_end) in
  reject_if! next >? len bytes with TruncatedPadding data_end;;
  let! tail := or_panic (get_range bytes data_end next) in
  reject_if! existsb nonzero tail with InvalidPadding data_end;;
  if bool_decide (name = TRAILER_NAME) then
    reject_if! existsb nonzero
        [ino; mode; uid; gid; nlink; mtime; filesize; devmajor; devminor; rdevmajor; rdevminor;
         check] with InvalidTrailer start;;
    Ok (mkRecord start next name data None false true)
  else
  reject_if! existsb nonzero
      [ino; uid; gid; mtime; devmajor; devminor; rdevmajor; rdevminor; check]
      || negb (nlink =? 1) with InvalidMetadata start;;
  (* 0o170000 and 0o100000 *)
  reject_if! negb (Z.land mode 61440 =? 32768) with UnsupportedFileType start;;
  let! executable :=
    (* 0o100444 and 0o100555 *)
    match mode with
    | 33060 => Ok false
    | 33133 => Ok true
    | _ => Err (UnsupportedPermissions start)
    end in
  let! path := map_err (fun _ => InvalidPath start) (archive_path_new name) in
  Ok (mkRecord start next name data (Some path) executable false).

(** The loop of [Archive::new]. *)
Fixpoint scan (bytes : list Z) (fuel : nat) (cursor : Z) (previous_name : option (list Z))
    (record_count : Z) : res ParseError unit :=
  match fuel with
  | O => Panic
  | S fuel =>
      let! record := parse_record bytes cursor in
      let cursor := r_next record in
      let record_count := record_count + 1 in
      reject_if! negb (r_is_trailer record) && (record_count >? MAX_RECORDS)
        with TooManyRecords (r_start record);;
      if r_is_trailer record then
        reject_if! negb (cursor =? len bytes) with TrailingBytes cursor;;
        Ok tt
      else
      let! _ := match previous_name with
                | Some previous =>
                    match bytes_cmp (r_name record) previous with
                    | Eq => Err (DuplicateName (r_start record))
                    | Lt => Err (UnsortedName (r_start record))
                    | Gt => Ok tt
                    end
                | None => Ok tt
                end in
      scan bytes fuel cursor (Some (r_name record)) record_count
  end.

(** [Archive::new]: the archive is the bytes it accepted. *)
Definition archive_new (bytes : list Z) : res ParseError (list Z) :=
  let! _ := check_archive_length (len bytes) in
  let! _ := scan bytes (S (length bytes)) 0 None 0 in
  Ok bytes.

(** [Entries::next]: the entry and the cursor after it; [None] ends the
    iteration. *)
Definition entries_next (bytes : list Z) (cursor : Z) : option (Entry * Z) :=
  match parse_record bytes cursor with
  | Ok record =>
      if r_is_trailer record then None
      else match r_path record with
           | Some path =>
               Some (mkEntry (r_name record) (r_data record) path (r_executable record),
                     r_next record)
           | None => None
           end
  | _ => None
  end.

Fixpoint entries_from (bytes : list Z) (fuel : nat) (cursor : Z) : list Entry :=
  match fuel with
  | O => []
  | S fuel =>
      match entries_next bytes cursor with
      | Some (entry, cursor) => entry :: entries_from bytes fuel cursor
      | None => []
      end
  end.
Definition archive_entries (archive : list Z) : list Entry :=
  entries_from archive (S (length archive)) 0.

(** [Archive::lookup] *)
Definition lookup (archive query : list Z) : res LookupError Entry :=
  let! canonical_query := map_err LInvalidPath (archive_path_new query) in
  ok_or LNotFound (find_first (fun entry => bool_decide (e_name entry = canonical_query))
                     (archive_entries archive)).

(** ** builder.rs *)

(** The builder itself returns the first seven; the product builders of wyr1.rs
    and r1.rs return the rest. *)
Inductive BuildError :=
| BEmptyArtifact | BInvalidPath | BNameTooLong | BRecordLimit | BDuplicatePath
| BArchiveTooLarge | BAllocationFailure
| WrongC1Marker | InvalidC1DeviceManifest | C1DriverIdentityMismatch | InvalidE6LaunchPolicy
| E6WyrmshIdentityMismatch | E6HelloIdentityMismatch | InvalidR1LaunchPolicy
| R1PolicyIdentityMismatch | InvalidR1GateConfiguration | R1ProbeIdentityMismatch
| R1UnacceptedTopology | InvalidE7LaunchPolicy | E7ArtifactIdentityMismatch
| InvalidE7MalformedElf | InvalidE8LaunchPolicy | E8ArtifactIdentityMismatch
| InvalidE8MalformedElf | InvalidFLaunchPolicy | FWyrmshIdentityMismatch
| FPayloadIdentityMismatch.

Inductive FileMode := ReadOnly | Executable.
(** [0o100444], [0o100555] *)
Definition newc_mode (m : FileMode) : Z :=
  match m with ReadOnly => 33060 | Executable => 33133 end.

Record BuilderEntry := mkBuilderEntry { b_path : list Z; b_data : list Z; b_mode : FileMode }.
Record Builder := mkBuilder { b_entries : list BuilderEntry }.
Definition builder_new : Builder := mkBuilder [].

Definition checked_u32 (value : Z) : res BuildError Z :=
  ok_or BArchiveTooLarge (try_from_unsigned (2 ^ 32) value).
Definition ensure_archive_size (total : Z) : res BuildError unit :=
  if total >? MAX_ARCHIVE_BYTES then Err BArchiveTooLarge else Ok tt.
Definition builder_align4 (value : Z) : res BuildError Z := ok_or BArchiveTooLarge (align4 value).

Definition record_size (name data : list Z) : res BuildError Z :=
  let! namesize := ok_or BArchiveTooLarge (checked_add_u64 (len name) 1) in
  let! _ := checked_u32 namesize in
  let! _ := checked_u32 (len data) in
  let! name_end := ok_or BArchiveTooLarge
    (match checked_add_u64 HEADER_SIZE (len name) with
     | Some value => checked_add_u64 value 1
     | None => None
     end) in
  let! data_start := builder_align4 name_end in
  let! data_end := ok_or BArchiveTooLarge (checked_add_u64 data_start (len data)) in
  builder_align4 data_end.

(** [b"0123456789abcdef"] *)
Definition HEX_DIGITS : list Z := [48;49;50;51;52;53;54;55;56;57;97;98;99;100;101;102].
(** [write_hex] into an eight-byte field. *)
Definition write_hex (value : Z) : list Z :=
  (fun index : nat =>
     let shift := 4 * (7 - Z.of_nat index) in
     default 0 (HEX_DIGITS !! Z.to_nat (Z.land (Z.shiftr value shift) 15))) <$> seq 0 8.

Definition pad4 (output : list Z) : list Z :=
  output ++ replicate (Z.to_nat (Z.land (4 - Z.land (len output) 3) 3)) 0.

Definition write_record (output name data : list Z) (mode inode nlink : Z)
    : res BuildError (list Z) :=
  let! size := ok_or BArchiveTooLarge (checked_add_u64 (len name) 1) in
  let! namesize := checked_u32 size in
  let! filesize := checked_u32 (len data) in
  let header := NEWC_MAGIC ++ write_hex inode ++ write_hex mode ++ write_hex 0 ++ write_hex 0
    ++ write_hex nlink ++ write_hex 0 ++ write_hex filesize ++ write_hex 0 ++ write_hex 0
    ++ write_hex 0 ++ write_hex 0 ++ write_hex namesize ++ write_hex 0 in
  let output := output ++ header in
  let output := output ++ name in
  let output := output ++ [0] in
  let output := pad4 output in
  let output := output ++ data in
  Ok (pad4 output).

Section alloc.
(** Whether the allocator grants a request for [additional] more elements. *)
Context (try_reserve : Z -> bool).

Definition fallibly_reserve (additional : Z) : res BuildError unit :=
  if try_reserve additional then Ok tt else Err BAllocationFailure.

(** [Builder::add] *)
Definition add (b : Builder) (path data : list Z) (mode : FileMode) : res BuildError Builder :=
  reject_if! len (b_entries b) =? MAX_RECORDS with BRecordLimit;;
  let! encoded_name_size := ok_or BNameTooLong (checked_add_u64 (len path) 1) in
  reject_if! encoded_name_size >? MAX_ENCODED_NAME_BYTES with BNameTooLong;;
  let! path := map_err (fun _ => BInvalidPath) (archive_path_new path) in
  let! _ := fallibly_reserve 1 in
  Ok (mkBuilder (b_entries b ++ [mkBuilderEntry path data mode])).

Definition path_le (x y : BuilderEntry) : Prop := ~ bytes_lt (b_path y) (b_path x).
#[global] Instance path_le_dec : RelDecision path_le.
Proof. unfold path_le. intros x y. apply _. Defined.

(** The sizing loop of [build]. *)
Fixpoint total_size (entries : list BuilderEntry) (total : Z) (previous : option (list Z))
    : res BuildError Z :=
  match entries with
  | [] => Ok total
  | entry :: entries =>
      reject_if! bool_decide (previous = Some (b_path entry)) with BDuplicatePath;;
      let! size := record_size (b_path entry) (b_data entry) in
      let! total := ok_or BArchiveTooLarge (checked_add_u64 total size) in
      let! _ := ensure_archive_size total in
      total_size entries total (Some (b_path entry))
  end.

(** The writing loop of [build]. *)
Fixpoint write_records (output : list Z) (entries : list BuilderEntry) : res BuildError (list Z) :=
  match entries with
  | [] => Ok output
  | entry :: entries =>
      let! output := write_record output (b_path entry) (b_data entry) (newc_mode (b_mode entry)) 0 1 in
      write_records output entries
  end.

(** [Builder::build].  [sort_unstable_by] on distinct keys has one result, that
    of any sort; equal keys are refused by the loop that follows. *)
Definition build (b : Builder) : res BuildError (list Z) :=
  let! _ := fallibly_reserve (len (b_entries b)) in
  let entries := merge_sort path_le (b_entries b) in
  let! trailer := record_size TRAILER_NAME [] in
  let! total := total_size entries trailer None in
  let! _ := fallibly_reserve total in
  let! output := write_records [] entries in
  let! output := write_record output TRAILER_NAME [] 0 0 0 in
  assert! len output =? total;;
  Ok output.
End alloc.

End Bootfs.
