(* ===== verification/BootfsThms.v ===== *)
(** * The boot archive: paths, parser and builder are correct

    What a canonical path is; the parser terminates without a panic on any
    bytes and an archive it accepts is a strictly sorted sequence of entries
    that lookup searches exactly; what the builder writes, the parser reads
    back. *)

From stdpp Require Import base tactics option list list_numbers sorting sets.
From Stdlib Require Import ZArith Lia.
From S2P Require Import Prelude Bytes Utf8 Bootfs.
Import Bootfs.

(** ** Numbers *)

Lemma align4_spec v : 0 <= v -> v + 3 < 2 ^ 64 -> align4 v = Some ((v + 3) / 4 * 4).
Proof.
  intros Hv Hb. unfold align4. rewrite checked_add_u64_ok by done. simpl. f_equal.
  rewrite <-Z.ldiff_land. change 3 with (Z.ones 2) at 2. rewrite Z.ldiff_ones_r by lia.
  rewrite Z.shiftr_div_pow2, Z.shiftl_mul_pow2 by lia. done.
Qed.

Lemma align4_bounds v : (v + 3) / 4 * 4 - 3 <= v <= (v + 3) / 4 * 4.
Proof. pose proof (Z.div_mod (v + 3) 4 ltac:(lia)). pose proof (Z.mod_pos_bound (v + 3) 4 ltac:(lia)). lia. Qed.

Lemma align4_Some v a : 0 <= v -> align4 v = Some a -> a = (v + 3) / 4 * 4 /\ v + 3 < 2 ^ 64.
Proof.
  intros Hv H. assert (v + 3 < 2 ^ 64) as Hb.
  { unfold align4 in H. destruct (checked_add_u64 v 3) eqn:E; [|done].
    by apply checked_add_Some in E as [_ ?]. }
  rewrite align4_spec in H by done. by injection H as <-.
Qed.

Lemma hex_digit_round d : 0 <= d < 16 -> hex_digit_value (default 0 (HEX_DIGITS !! Z.to_nat d)) = Some d.
Proof.
  intros Hd. assert (d = 0 \/ d = 1 \/ d = 2 \/ d = 3 \/ d = 4 \/ d = 5 \/ d = 6 \/ d = 7 \/ d = 8 \/
    d = 9 \/ d = 10 \/ d = 11 \/ d = 12 \/ d = 13 \/ d = 14 \/ d = 15) as H by lia.
  repeat (destruct H as [->|H]; [reflexivity|]). by subst.
Qed.

Lemma length_write_hex v : length (write_hex v) = 8%nat.
Proof. done. Qed.

Lemma nibble v k : 0 <= k -> Z.land (Z.shiftr v (4 * k)) 15 = v / 16 ^ k mod 16.
Proof.
  intros. change 15 with (Z.ones 4). rewrite Z.land_ones, Z.shiftr_div_pow2 by lia.
  by rewrite Z.pow_mul_r by lia.
Qed.

(** Eight hexadecimal digits, most significant first. *)
Lemma write_hex_nibbles v :
  0 <= v ->
  write_hex v = (fun k => default 0 (HEX_DIGITS !! Z.to_nat (v / 16 ^ k mod 16))) <$> [7;6;5;4;3;2;1;0].
Proof.
  intros Hv. change [7;6;5;4;3;2;1;0] with ((fun i => 7 - Z.of_nat i) <$> seq 0 8).
  rewrite <-list_fmap_compose. apply list_fmap_ext. intros i x [-> Hx]%lookup_seq.
  unfold compose. by rewrite nibble by lia.
Qed.

Lemma hex_field_write_hex v offset : 0 <= v < 2 ^ 32 -> hex_field (write_hex v) offset = Ok v.
Proof.
  intros Hv. rewrite write_hex_nibbles by lia. unfold hex_field.
  assert (forall k, 0 <= v / 16 ^ k mod 16 < 16) as Hd by (intros; apply Z.mod_pos_bound; lia).
  cbn [fmap list_fmap].
  assert (forall k cur rest, 0 <= cur < 2 ^ 28 ->
    hex_field_from (default 0 (HEX_DIGITS !! Z.to_nat (v / 16 ^ k mod 16)) :: rest) offset cur =
    hex_field_from rest offset (cur * 16 + v / 16 ^ k mod 16)) as Hstep.
  { intros k cur rest Hc. cbn [hex_field_from]. rewrite hex_digit_round by apply Hd. cbn [ok_or res_bind].
    specialize (Hd k). rewrite checked_mul_u64_ok by lia. by rewrite checked_add_u64_ok by lia. }
  assert (forall k k', 0 <= k -> k' = k + 1 ->
    v / 16 ^ k = v / 16 ^ k' * 16 + v / 16 ^ k mod 16) as Hq.
  { intros k k' Hk ->. rewrite Z.pow_add_r, <-Z.div_div by lia. change (16 ^ 1) with 16.
    rewrite (Z.mul_comm _ 16). apply Z.div_mod. lia. }
  assert (v / 16 ^ 8 = 0) as H8 by (apply Z.div_small; lia).
  assert (forall k, 1 <= k -> 0 <= v / 16 ^ k < 2 ^ 28) as Hb.
  { intros k Hk. split; [apply Z.div_pos; lia|]. apply Z.div_lt_upper_bound; [lia|].
    pose proof (Z.pow_le_mono_r 16 1 k ltac:(lia) Hk). lia. }
  rewrite Hstep by lia.
  replace (0 * 16 + v / 16 ^ 7 mod 16) with (v / 16 ^ 7)
    by (pose proof (Hq 7 8 ltac:(lia) ltac:(lia)); lia).
  rewrite Hstep by (apply Hb; lia). rewrite <-(Hq 6 7) by lia.
  rewrite Hstep by (apply Hb; lia). rewrite <-(Hq 5 6) by lia.
  rewrite Hstep by (apply Hb; lia). rewrite <-(Hq 4 5) by lia.
  rewrite Hstep by (apply Hb; lia). rewrite <-(Hq 3 4) by lia.
  rewrite Hstep by (apply Hb; lia). rewrite <-(Hq 2 3) by lia.
  rewrite Hstep by (apply Hb; lia). rewrite <-(Hq 1 2) by lia.
  rewrite Hstep by (apply Hb; lia). rewrite <-(Hq 0 1) by lia.
  cbn [hex_field_from]. by rewrite Z.pow_0_r, Z.div_1_r.
Qed.

(** ** Canonical paths *)

(** The components of a path: its bytes between separators. *)
Fixpoint components (bytes : list Z) : list (list Z) :=
  match bytes with
  | [] => [[]]
  | b :: bytes =>
      match components bytes with
      | c :: cs => if b =? 47 then [] :: c :: cs else (b :: c) :: cs
      | [] => []
      end
  end.

Definition good_component (c : list Z) : Prop := c <> [] /\ c <> [46] /\ c <> [46; 46].

Definition canonical_path (bytes : list Z) : Prop :=
  0 < len bytes < 4096 /\ bytes <> TRAILER_NAME /\ 0 ∉ bytes /\ 92 ∉ bytes /\
  Forall good_component (components bytes).

Lemma components_cons bytes : exists c cs, components bytes = c :: cs.
Proof. induction bytes as [|b bytes (c & cs & IH)]; simpl; [eauto|]. rewrite IH. case_match; eauto. Qed.

Lemma components_app cur rest :
  47 ∉ cur -> components (cur ++ 47 :: rest) = cur :: components rest.
Proof.
  induction cur as [|b cur IH]; intros Hn; simpl.
  - destruct (components_cons rest) as (c & cs & ->). done.
  - apply not_elem_of_cons in Hn as [Hb Hn]. rewrite IH by done.
    by destruct (Z.eqb_spec b 47).
Qed.

Lemma components_no_slash cur : 47 ∉ cur -> components cur = [cur].
Proof.
  induction cur as [|b cur IH]; intros Hn; simpl; [done|].
  apply not_elem_of_cons in Hn as [Hb Hn]. rewrite IH by done. by destruct (Z.eqb_spec b 47).
Qed.

Lemma validate_component_spec c : validate_component c = Ok tt <-> good_component c.
Proof.
  unfold good_component, validate_component.
  repeat case_match; subst; split; try done; intros; naive_solver.
Qed.

Lemma validate_component_np c : validate_component c <> Panic.
Proof. unfold validate_component. repeat case_match; done. Qed.

(** The loop and the check of the last component after it. *)
Definition validate_rest (bytes rest : list Z) (index component_start : Z)
    : res ArchivePathError unit :=
  let! component_start := validate_bytes bytes rest index component_start in
  let! component := or_panic (get_from bytes component_start) in
  let! _ := validate_component component in
  Ok tt.

(** One byte of the loop, by what the byte is. *)
Lemma validate_bytes_cons bytes b rest index start :
  validate_bytes bytes (b :: rest) index start =
  if b =? 0 then Err NulByte
  else if b =? 92 then Err Backslash
  else if b =? 47 then
    let! component := or_panic (get_range bytes start index) in
    let! _ := validate_component component in
    validate_bytes bytes rest (index + 1) (index + 1)
  else validate_bytes bytes rest (index + 1) start.
Proof.
  cbn [validate_bytes].
  destruct (Z.eqb_spec b 0) as [->|H0]; [done|]. destruct (Z.eqb_spec b 92) as [->|H92]; [done|].
  destruct (Z.eqb_spec b 47) as [->|H47]; [done|].
  repeat (case_match; try done).
Qed.

Lemma validate_rest_spec bytes rest : forall pre cur index start,
  bytes = pre ++ cur ++ rest -> 47 ∉ cur -> start = len pre -> index = start + len cur ->
  validate_rest bytes rest index start <> Panic /\
  (validate_rest bytes rest index start = Ok tt <->
   0 ∉ rest /\ 92 ∉ rest /\ Forall good_component (components (cur ++ rest))).
Proof.
  unfold validate_rest. induction rest as [|b rest IH]; intros pre cur index start Hb Hcur -> ->.
  { cbn [validate_bytes res_bind]. unfold get_from.
    replace (len bytes) with (len pre + len cur) by (subst; rewrite app_nil_r, length_app; lia).
    subst. rewrite get_range_middle. cbn [or_panic res_bind].
    rewrite app_nil_r, components_no_slash, Forall_singleton, <-validate_component_spec by done.
    pose proof (validate_component_np cur).
    destruct (validate_component cur) as [[]| |] eqn:E; simpl; split; try done; set_solver. }
  rewrite validate_bytes_cons. destruct (Z.eqb_spec b 0) as [->|H0]; [split; [done|]; simpl; set_solver|].
  destruct (Z.eqb_spec b 92) as [->|H92]; [split; [done|]; simpl; set_solver|].
  destruct (Z.eqb_spec b 47) as [->|H47].
  - rewrite Hb, get_range_middle, <-Hb. cbn [or_panic res_bind].
    rewrite components_app, Forall_cons, <-validate_component_spec by done.
    pose proof (validate_component_np cur).
    destruct (validate_component cur) as [[]| |] eqn:E; simpl; [|naive_solver..].
    destruct (IH (pre ++ cur ++ [47]) [] (len pre + len cur + 1) (len pre + len cur + 1)) as [IH1 IH2].
    { by rewrite Hb, <-!app_assoc. }
    { set_solver. }
    { rewrite !length_app. simpl. lia. }
    { simpl. lia. }
    split; [done|]. rewrite IH2. set_solver.
  - destruct (IH pre (cur ++ [b]) (len pre + len cur + 1) (len pre)) as [IH1 IH2].
    { by rewrite Hb, <-!app_assoc. }
    { set_solver. }
    { done. }
    { rewrite length_app. simpl. lia. }
    split; [done|]. rewrite IH2, <-app_assoc. simpl. set_solver.
Qed.

Lemma validate_archive_path_spec bytes :
  validate_archive_path bytes <> Panic /\
  (validate_archive_path bytes = Ok tt <-> canonical_path bytes).
Proof.
  unfold validate_archive_path, canonical_path, MAX_ENCODED_NAME_BYTES. simpl max_encoded_name_bytes.
  destruct bytes as [|b bytes]; [split; [done|]; simpl; split; [done|lia]|].
  rewrite bool_decide_eq_false_2 by done. set (all := b :: bytes).
  assert (0 < len all) by (simpl; lia).
  destruct (Z.geb_spec (len all) 4096) as [|Hlen]; [split; [done|]; split; [done|lia]|].
  case_bool_decide as Ht; [split; [done|]; split; [done|]; by intros (_ & ? & _)|].
  change (get_at all 0) with (Some b). cbn [or_panic res_bind].
  destruct (validate_rest_spec all all [] [] 0 0) as [Hnp Hiff]; [done|set_solver|done|done|].
  simpl app in Hiff.
  unfold validate_rest in *.
  destruct (Z.eqb_spec b 47) as [->|Hb].
  - split; [done|]. split; [done|]. intros (_ & _ & _ & _ & Hc). exfalso. revert Hc.
    simpl. destruct (components_cons bytes) as (c & cs & ->). simpl.
    intros [[Hc _] _]%Forall_cons. done.
  - split; [done|]. rewrite Hiff. split; [intros (? & ? & ?)|intros (_ & _ & ? & ? & ?)]; try done.
Qed.

Lemma archive_path_new_spec bytes :
  archive_path_new bytes <> Panic /\
  forall p, archive_path_new bytes = Ok p <-> p = bytes /\ canonical_path bytes.
Proof.
  unfold archive_path_new. destruct (validate_archive_path_spec bytes) as [Hnp Hiff].
  destruct (validate_archive_path bytes) as [[]| |] eqn:E; simpl; split; try done.
  - intros p. split; [intros [= <-]; naive_solver|intros [-> _]; done].
  - intros p. naive_solver.
Qed.

(** [ArchivePath::new] accepts exactly the canonical paths: non-empty, below
    4096 bytes, not the trailer name, without NUL or backslash, and every
    component between separators non-empty and neither [.] nor [..]; it returns
    the bytes unchanged and never indexes out of range. *)
Theorem archive_path_canonical bytes :
  archive_path_new bytes <> Panic /\
  forall p, archive_path_new bytes = Ok p <-> p = bytes /\ canonical_path bytes.
Proof. apply archive_path_new_spec. Qed.

(** ** Records *)

Definition align (v : Z) : Z := (v + 3) / 4 * 4.

Lemma align_bounds v : v <= align v <= v + 3.
Proof. unfold align. pose proof (align4_bounds v). lia. Qed.

Lemma mod4_add a b : a mod 4 = 0 -> b mod 4 = 0 -> (a + b) mod 4 = 0.
Proof. intros Ha Hb. by rewrite (Z.add_mod a b), Ha, Hb by lia. Qed.

Lemma align_mod v : align v mod 4 = 0.
Proof. unfold align. apply Z.mod_mul. lia. Qed.

Lemma align_add v n : v mod 4 = 0 -> align (v + n) = v + align n.
Proof.
  intros Hv. unfold align. pose proof (Z.div_mod v 4 ltac:(lia)).
  replace (v + n + 3) with ((n + 3) + v / 4 * 4) by lia. rewrite Z.div_add by lia. lia.
Qed.

Definition padding (n : Z) : list Z := replicate (Z.to_nat (align n - n)) 0.

Lemma length_padding n : len (padding n) = align n - n.
Proof. unfold padding. rewrite length_replicate. pose proof (align_bounds n). lia. Qed.

Lemma padding_zero n : existsb nonzero (padding n) = false.
Proof. unfold padding. induction (Z.to_nat _); simpl; [done|]. done. Qed.

Lemma pad4_spec out : pad4 out = out ++ padding (len out).
Proof.
  unfold pad4, padding. do 3 f_equal. unfold align.
  change 3 with (Z.ones 2) at 1 2. rewrite !Z.land_ones by lia. change (2 ^ 2) with 4.
  pose proof (Z.div_mod (len out) 4 ltac:(lia)). pose proof (Z.mod_pos_bound (len out) 4 ltac:(lia)).
  pose proof (Z.div_mod (len out + 3) 4 ltac:(lia)).
  pose proof (Z.mod_pos_bound (len out + 3) 4 ltac:(lia)).
  destruct (Z.eq_dec (len out mod 4) 0) as [Hz|Hz].
  - rewrite Hz. change ((4 - 0) mod 4) with 0. lia.
  - rewrite Z.mod_small by lia. lia.
Qed.

Definition record_header (mode nlink filesize namesize : Z) : list Z :=
  NEWC_MAGIC ++ write_hex 0 ++ write_hex mode ++ write_hex 0 ++ write_hex 0
    ++ write_hex nlink ++ write_hex 0 ++ write_hex filesize ++ write_hex 0 ++ write_hex 0
    ++ write_hex 0 ++ write_hex 0 ++ write_hex namesize ++ write_hex 0.

(** The bytes of one record. *)
Definition record_bytes (name data : list Z) (mode nlink : Z) : list Z :=
  record_header mode nlink (len data) (len name + 1) ++ (name ++ [0])
    ++ padding (110 + len name + 1) ++ data ++ padding (len data).

Definition record_length (name data : list Z) : Z := align (110 + len name + 1) + align (len data).

Lemma length_record_header mode nlink filesize namesize :
  length (record_header mode nlink filesize namesize) = 110%nat.
Proof. done. Qed.

Lemma length_record_bytes name data mode nlink :
  len (record_bytes name data mode nlink) = record_length name data.
Proof.
  unfold record_bytes, record_length. rewrite !length_app, length_record_header. simpl length.
  pose proof (length_padding (110 + len name + 1)). pose proof (length_padding (len data)). lia.
Qed.

Lemma record_length_mod name data : record_length name data mod 4 = 0.
Proof. apply mod4_add; apply align_mod. Qed.

Lemma padding_add v n : v mod 4 = 0 -> padding (v + n) = padding n.
Proof. intros Hv. unfold padding. rewrite align_add by done. do 2 f_equal. lia. Qed.

Lemma write_record_spec output name data mode nlink :
  len output mod 4 = 0 -> len name + 1 < 2 ^ 32 -> len data < 2 ^ 32 ->
  write_record output name data mode 0 nlink = Ok (output ++ record_bytes name data mode nlink).
Proof.
  intros Ho Hn Hd. unfold write_record, checked_u32, try_from_unsigned.
  rewrite checked_add_u64_ok by lia. cbn [ok_or res_bind].
  destruct (Z.ltb_spec (len name + 1) (2 ^ 32)); [|lia]. cbn [ok_or res_bind].
  destruct (Z.ltb_spec (len data) (2 ^ 32)); [|lia]. cbn [ok_or res_bind]. cbv zeta.
  fold (record_header mode nlink (len data) (len name + 1)).
  set (h := record_header _ _ _ _). assert (length h = 110%nat) as Hh by done.
  rewrite !pad4_spec. f_equal. unfold record_bytes. fold h.
  assert (len (((output ++ h) ++ name) ++ [0]) = len output + (110 + len name + 1)) as Hl1
    by (rewrite !length_app, Hh; simpl length; lia).
  rewrite Hl1, padding_add by done.
  assert (len (((((output ++ h) ++ name) ++ [0]) ++ padding (110 + len name + 1)) ++ data) =
    len output + align (110 + len name + 1) + len data) as Hl2.
  { pose proof (length_padding (110 + len name + 1)).
    rewrite (length_app _ data), (length_app _ (padding _)). lia. }
  rewrite Hl2, (padding_add (len output + align (110 + len name + 1)))
    by (apply mod4_add; [done|apply align_mod]).
  by rewrite <-!app_assoc.
Qed.

Lemma record_size_spec name data :
  len name < 2 ^ 31 -> len data < 2 ^ 32 -> record_size name data = Ok (record_length name data).
Proof.
  intros Hn Hd. unfold record_size, checked_u32, try_from_unsigned, builder_align4, HEADER_SIZE.
  rewrite checked_add_u64_ok by lia. cbn [ok_or res_bind].
  destruct (Z.ltb_spec (len name + 1) (2 ^ 32)); [|lia]. cbn [ok_or res_bind].
  destruct (Z.ltb_spec (len data) (2 ^ 32)); [|lia]. cbn [ok_or res_bind].
  rewrite checked_add_u64_ok by lia. rewrite checked_add_u64_ok by lia. cbn [ok_or res_bind].
  rewrite align4_spec by lia. cbn [ok_or res_bind]. fold (align (110 + len name + 1)).
  pose proof (align_bounds (110 + len name + 1)).
  rewrite checked_add_u64_ok by lia. cbn [ok_or res_bind]. rewrite align4_spec by lia.
  cbn [ok_or]. fold (align (align (110 + len name + 1) + len data)).
  by rewrite align_add by apply align_mod.
Qed.

(** A slice, by the pieces around it. *)
Lemma get_range_at {A} (pre cur rest bytes : list A) a b :
  bytes = pre ++ cur ++ rest -> a = len pre -> b = len pre + len cur ->
  get_range bytes a b = Some cur.
Proof. intros -> -> ->. apply get_range_middle. Qed.

Lemma header_field_at mode nlink filesize namesize rest start :
  let h := record_header mode nlink filesize namesize ++ rest in
  0 <= mode < 2 ^ 32 -> 0 <= nlink < 2 ^ 32 -> 0 <= filesize < 2 ^ 32 -> 0 <= namesize < 2 ^ 32 ->
  header_field h start 14 = Ok mode /\ header_field h start 38 = Ok nlink /\
  header_field h start 54 = Ok filesize /\ header_field h start 94 = Ok namesize /\
  Forall (fun a => header_field h start a = Ok 0) [6; 22; 30; 46; 62; 70; 78; 86; 102].
Proof.
  intros h Hm Hn Hf Hs.
  assert (forall a v, a + 8 <= 110 -> 0 <= v < 2 ^ 32 ->
    get_range (record_header mode nlink filesize namesize) a (a + 8) = Some (write_hex v) ->
    header_field h start a = Ok v) as Hat.
  { intros a v Ha Hv Hg. unfold header_field, h. rewrite get_range_app_l, Hg by done.
    cbn [or_panic res_bind]. by apply hex_field_write_hex. }
  split_conj; try (apply Hat; [lia|lia|reflexivity]).
  repeat constructor; apply Hat; (lia || reflexivity).
Qed.

(** Every check of [parse_record] up to the metadata, on a written record. *)
Lemma parse_record_written pre post name data mode nlink :
  len pre mod 4 = 0 -> len pre + record_length name data + len post < 2 ^ 62 ->
  len name < 4096 -> len data < 2 ^ 32 -> 0 ∉ name ->
  0 <= mode < 2 ^ 32 -> 0 <= nlink < 2 ^ 32 ->
  parse_record (pre ++ record_bytes name data mode nlink ++ post) (len pre) =
  (let start := len pre in let next := start + record_length name data in
   if bool_decide (name = TRAILER_NAME) then
     reject_if! existsb nonzero [0; mode; 0; 0; nlink; 0; len data; 0; 0; 0; 0; 0]
       with InvalidTrailer start;;
     Ok (mkRecord start next name data None false true)
   else
   reject_if! negb (nlink =? 1) with InvalidMetadata start;;
   reject_if! negb (Z.land mode 61440 =? 32768) with UnsupportedFileType start;;
   let! executable :=
     match mode with
     | 33060 => Ok false
     | 33133 => Ok true
     | _ => Err (UnsupportedPermissions start)
     end in
   let! path := map_err (fun _ => InvalidPath start) (archive_path_new name) in
   Ok (mkRecord start next name data (Some path) executable false)).
Proof.
  intros Hpre Hsize Hname Hdata Hnul Hmode Hnlink.
  set (bytes := pre ++ record_bytes name data mode nlink ++ post).
  assert (len bytes = len pre + record_length name data + len post) as Hlen.
  { unfold bytes. rewrite !length_app. pose proof (length_record_bytes name data mode nlink). lia. }
  pose proof (align_bounds (110 + len name + 1)) as Hb1. pose proof (align_bounds (len data)) as Hb2.
  unfold record_length in *. set (h := record_header mode nlink (len data) (len name + 1)).
  assert (bytes = pre ++ h ++ (name ++ [0]) ++ padding (110 + len name + 1) ++ data
            ++ padding (len data) ++ post) as Hflat.
  { unfold bytes, record_bytes. fold h. by rewrite <-!app_assoc. }
  assert (get_from bytes (len pre) = Some (h ++ (name ++ [0]) ++ padding (110 + len name + 1) ++ data
            ++ padding (len data) ++ post)) as Hfrom.
  { unfold get_from. apply (get_range_at pre _ []); [by rewrite app_nil_r|done|].
    rewrite Hflat, length_app. lia. }
  destruct (header_field_at mode nlink (len data) (len name + 1) ((name ++ [0])
    ++ padding (110 + len name + 1) ++ data ++ padding (len data) ++ post) (len pre))
    as (H14 & H38 & H54 & H94 & Hz); [lia..|]. fold h in H14, H38, H54, H94, Hz.
  rewrite !Forall_cons in Hz. destruct Hz as (H6 & H22 & H30 & H46 & H62 & H70 & H78 & H86 & H102 & _).
  unfold parse_record. rewrite Hfrom. cbn [ok_or res_bind].
  destruct (Z.ltb_spec (len (h ++ (name ++ [0]) ++ padding (110 + len name + 1) ++ data ++
    padding (len data) ++ post)) HEADER_SIZE) as [Hlt|_].
  { rewrite length_app in Hlt. assert (length h = 110%nat) by done. unfold HEADER_SIZE in Hlt. lia. }
  change (get_range (h ++ _) 0 6) with (get_range (NEWC_MAGIC ++ drop 6 (h ++ (name ++ [0]) ++
    padding (110 + len name + 1) ++ data ++ padding (len data) ++ post)) 0 6).
  rewrite get_range_app_l by (simpl; lia). change 6 with (len NEWC_MAGIC) at 1.
  rewrite get_range_full. cbn [or_panic res_bind]. rewrite bool_decide_eq_false_2 by (intros H; by apply H).
  rewrite H6, H14, H22, H30, H38, H46, H54, H62, H70, H78, H86, H94, H102. cbn [res_bind].
  unfold MAX_ENCODED_NAME_BYTES. simpl max_encoded_name_bytes.
  destruct (Z.gtb_spec (len name + 1) 4096); [lia|]. destruct (Z.eqb_spec (len name + 1) 0); [lia|].
  unfold HEADER_SIZE. rewrite checked_add_u64_ok by lia. cbn [ok_or res_bind].
  rewrite checked_add_u64_ok by lia. cbn [ok_or res_bind].
  assert (length h = 110%nat) as Hh by done.
  rewrite (get_range_at (pre ++ h) (name ++ [0]) (padding (110 + len name + 1) ++ data
    ++ padding (len data) ++ post));
    [|by rewrite Hflat, <-!app_assoc|rewrite length_app; lia|rewrite !length_app; simpl length; lia].
  cbn [ok_or res_bind].
  rewrite (get_range_at [] name [0]); [|done|done|rewrite length_app; simpl length; lia].
  cbn [or_panic res_bind]. rewrite last_snoc, bool_decide_eq_false_2 by (intros Hx; by apply Hx).
  rewrite (proj2 (contains_false _ _) Hnul). cbn [orb].
  replace (len pre + 110 + (len name + 1)) with (len pre + (110 + len name + 1)) by lia.
  rewrite align4_spec by lia. fold (align (len pre + (110 + len name + 1))).
  rewrite align_add by done. cbn [ok_or res_bind].
  pose proof (length_padding (110 + len name + 1)) as Hp1.
  pose proof (length_padding (len data)) as Hp2.
  rewrite (get_range_at (pre ++ h ++ name ++ [0]) (padding (110 + len name + 1)) (data
    ++ padding (len data) ++ post));
    [|by rewrite Hflat, <-!app_assoc|rewrite !length_app; simpl length; lia
     |rewrite !length_app; simpl length; lia].
  cbn [ok_or res_bind]. rewrite padding_zero. rewrite checked_add_u64_ok by lia. cbn [ok_or res_bind].
  rewrite (get_range_at (pre ++ h ++ (name ++ [0]) ++ padding (110 + len name + 1)) data
    (padding (len data) ++ post));
    [|by rewrite Hflat, <-!app_assoc|rewrite !length_app; simpl length; lia
     |rewrite !length_app; simpl length; lia].
  cbn [ok_or res_bind]. rewrite align4_spec by lia.
  fold (align (len pre + align (110 + len name + 1) + len data)).
  rewrite (align_add (len pre + align (110 + len name + 1))) by (apply mod4_add; [done|apply align_mod]). cbn [ok_or res_bind].
  destruct (Z.gtb_spec (len pre + align (110 + len name + 1) + align (len data)) (len bytes)); [lia|].
  rewrite (get_range_at (pre ++ h ++ (name ++ [0]) ++ padding (110 + len name + 1) ++ data)
    (padding (len data)) post);
    [|by rewrite Hflat, <-!app_assoc|rewrite !length_app; simpl length; lia
     |rewrite !length_app; simpl length; lia].
  cbn [or_panic res_bind]. rewrite padding_zero. cbv zeta.
  replace (len pre + align (110 + len name + 1) + align (len data)) with
    (len pre + (align (110 + len name + 1) + align (len data))) by lia.
  done.
Qed.

(** ** Whole archives *)

Definition entry_bytes (e : BuilderEntry) : list Z :=
  record_bytes (b_path e) (b_data e) (newc_mode (b_mode e)) 1.
Definition trailer_bytes : list Z := record_bytes TRAILER_NAME [] 0 0.
Fixpoint archive_bytes (es : list BuilderEntry) : list Z :=
  match es with
  | [] => trailer_bytes
  | e :: es => entry_bytes e ++ archive_bytes es
  end.

(** What the parser is to report for an entry given to the builder. *)
Definition entry_of (e : BuilderEntry) : Entry :=
  mkEntry (b_path e) (b_data e) (b_path e) (match b_mode e with Executable => true | ReadOnly => false end).

Definition entry_ok (e : BuilderEntry) : Prop :=
  canonical_path (b_path e) /\ len (b_data e) < 2 ^ 32.

Definition path_lt (x y : BuilderEntry) : Prop := bytes_lt (b_path x) (b_path y).

Lemma canonical_path_new bytes : canonical_path bytes -> archive_path_new bytes = Ok bytes.
Proof.
  intros H. unfold archive_path_new.
  by rewrite (proj2 (proj2 (validate_archive_path_spec bytes))).
Qed.

Lemma parse_entry_written pre post e :
  entry_ok e -> len pre mod 4 = 0 -> len (pre ++ entry_bytes e ++ post) < 2 ^ 62 ->
  parse_record (pre ++ entry_bytes e ++ post) (len pre) =
  Ok (mkRecord (len pre) (len (pre ++ entry_bytes e)) (b_path e) (b_data e) (Some (b_path e))
        (e_executable (entry_of e)) false).
Proof.
  intros [Hc Hd] Hpre Hlen. rewrite !length_app in Hlen.
  pose proof (length_record_bytes (b_path e) (b_data e) (newc_mode (b_mode e)) 1) as Hl.
  fold (entry_bytes e) in Hl. pose proof Hc as (? & Ht & H0 & _).
  unfold entry_bytes. rewrite parse_record_written; [|done|lia|lia|done|done| |lia].
  2: { destruct (b_mode e); simpl; lia. }
  cbv zeta. rewrite bool_decide_eq_false_2 by done. simpl negb. cbv iota.
  rewrite canonical_path_new by done. fold (entry_bytes e). rewrite length_app, Nat2Z.inj_add, Hl.
  unfold entry_of. destruct (b_mode e); reflexivity.
Qed.

Lemma parse_trailer_written pre :
  len pre mod 4 = 0 -> len (pre ++ trailer_bytes) < 2 ^ 62 ->
  parse_record (pre ++ trailer_bytes) (len pre) =
  Ok (mkRecord (len pre) (len (pre ++ trailer_bytes)) TRAILER_NAME [] None false true).
Proof.
  intros Hpre Hlen. rewrite length_app in Hlen |- *.
  pose proof (length_record_bytes TRAILER_NAME [] 0 0) as Hl. fold trailer_bytes in Hl.
  rewrite <-(app_nil_r trailer_bytes) at 1. unfold trailer_bytes at 1.
  rewrite parse_record_written; [|done|simpl length; lia|simpl; lia|simpl; lia| |lia|lia].
  - cbv zeta. rewrite bool_decide_eq_true_2 by done. cbn [existsb orb].
    change (existsb nonzero _) with false. cbv iota. rewrite Nat2Z.inj_add, Hl. done.
  - apply (bool_decide_unpack _). vm_compute. exact I.
Qed.

Lemma entry_bytes_length e : len (entry_bytes e) mod 4 = 0 /\ 110 < len (entry_bytes e).
Proof.
  unfold entry_bytes. rewrite length_record_bytes. split; [apply record_length_mod|].
  unfold record_length. pose proof (align_bounds (110 + len (b_path e) + 1)).
  pose proof (align_bounds (len (b_data e))). lia.
Qed.

Lemma archive_bytes_length es : len es < len (archive_bytes es).
Proof.
  induction es as [|e es IH]; [reflexivity|]. cbn [archive_bytes].
  rewrite length_app. pose proof (entry_bytes_length e). simpl length. lia.
Qed.

(** Scanning and iterating over what follows [pre]. *)
Lemma scan_written es : forall pre fuel prev count,
  Forall entry_ok es -> StronglySorted path_lt es ->
  match prev with Some p => Forall (fun e => bytes_lt p (b_path e)) es | None => True end ->
  len pre mod 4 = 0 -> len (pre ++ archive_bytes es) < 2 ^ 62 ->
  (length es < fuel)%nat -> count + len es <= 4096 ->
  scan (pre ++ archive_bytes es) fuel (len pre) prev count = Ok tt /\
  entries_from (pre ++ archive_bytes es) fuel (len pre) = entry_of <$> es.
Proof.
  induction es as [|e es IH]; intros pre fuel prev count Hok Hsort Hprev Hpre Hlen Hfuel Hcount;
    (destruct fuel as [|fuel]; [lia|]); cbn [scan entries_from archive_bytes] in *; unfold entries_next.
  { rewrite parse_trailer_written by done. cbn [res_bind r_next r_is_trailer r_start r_name].
    rewrite Z.eqb_refl. done. }
  apply Forall_cons in Hok as [He Hok]. apply StronglySorted_cons in Hsort as [Hlt Hsort].
  rewrite parse_entry_written by done. cbn [res_bind r_next r_is_trailer r_start r_name r_path].
  unfold MAX_RECORDS. simpl max_records. cbn [length] in *.
  destruct (Z.gtb_spec (count + 1) 4096); [lia|]. cbn [negb andb].
  rewrite (app_assoc pre) in Hlen |- *. destruct (entry_bytes_length e) as [Hm _].
  destruct (IH (pre ++ entry_bytes e) fuel (Some (b_path e)) (count + 1)) as [IH1 IH2]; try done.
  - rewrite length_app, Nat2Z.inj_add. by apply mod4_add.
  - lia.
  - lia.
  - rewrite IH1, IH2. split; [|done].
    destruct prev as [p|]; [|done]. apply Forall_cons in Hprev as [Hp _].
    apply bytes_cmp_gt in Hp. by rewrite Hp.
Qed.

(** ** The builder *)

Fixpoint entries_length (es : list BuilderEntry) : Z :=
  match es with
  | [] => 0
  | e :: es => len (entry_bytes e) + entries_length es
  end.

Lemma entries_length_nonneg es : 0 <= entries_length es.
Proof. induction es; simpl; lia. Qed.

Lemma archive_bytes_size es : len (archive_bytes es) = entries_length es + len trailer_bytes.
Proof. induction es as [|e es IH]; cbn [archive_bytes entries_length]; [lia|]. rewrite length_app. lia. Qed.

Lemma entry_bytes_size e : len (entry_bytes e) = record_length (b_path e) (b_data e).
Proof. unfold entry_bytes. by rewrite length_record_bytes. Qed.

Lemma ensure_archive_size_spec total u :
  ensure_archive_size total = Ok u <-> total <= MAX_ARCHIVE_BYTES.
Proof.
  unfold ensure_archive_size. destruct (Z.gtb_spec total MAX_ARCHIVE_BYTES); destruct u;
    split; try done; intros; lia.
Qed.

(** No two neighbours with one path. *)
Fixpoint distinct_from (previous : option (list Z)) (es : list BuilderEntry) : Prop :=
  match es with
  | [] => True
  | e :: es => previous <> Some (b_path e) /\ distinct_from (Some (b_path e)) es
  end.

Lemma record_size_Ok e n :
  canonical_path (b_path e) -> record_size (b_path e) (b_data e) = Ok n ->
  len (b_data e) < 2 ^ 32 /\ n = len (entry_bytes e).
Proof.
  intros (Hc & _) H.
  assert (len (b_data e) < 2 ^ 32) as Hd.
  { unfold record_size, checked_u32, try_from_unsigned in H. repeat res_step.
    destruct (Z.ltb_spec (len (b_data e)) (2 ^ 32)); [done|]. by simplify_eq. }
  rewrite record_size_spec in H by lia. injection H as <-.
  split; [done|]. by rewrite entry_bytes_size.
Qed.

Lemma total_size_spec es : forall total previous t,
  Forall (fun e => canonical_path (b_path e)) es -> 0 <= total <= MAX_ARCHIVE_BYTES ->
  total_size es total previous = Ok t <->
  distinct_from previous es /\ Forall entry_ok es /\ t = total + entries_length es /\
  t <= MAX_ARCHIVE_BYTES.
Proof.
  assert (MAX_ARCHIVE_BYTES < 2 ^ 62) as Hmax by done. revert Hmax.
  generalize ensure_archive_size_spec. generalize MAX_ARCHIVE_BYTES. intros bound Hens Hbound.
  induction es as [|e es IH]; intros total previous t Hc Htot; cbn [total_size entries_length distinct_from].
  { split; [intros [= <-]; split_conj; try done; lia|intros (_ & _ & -> & _); f_equal; lia]. }
  apply Forall_cons in Hc as [Hce Hc]. pose proof (entries_length_nonneg es) as Hnn.
  pose proof (entry_bytes_length e) as [_ Hle]. split.
  - intros H. res_inv.
    match goal with H : record_size _ _ = Ok _ |- _ => apply (record_size_Ok e _ Hce) in H as [Hd ->] end.
    match goal with H : checked_add_u64 _ _ = Some _ |- _ => apply checked_add_Some in H as [-> _] end.
    match goal with H : ensure_archive_size _ = Ok _ |- _ => apply Hens in H end.
    apply IH in H as (? & ? & -> & ?); [|done|lia].
    split_conj; try done; [by constructor|lia].
  - intros ((Hne & Hdist) & Hok & -> & Hmax). apply Forall_cons in Hok as [[_ Hd] Hok].
    rewrite bool_decide_eq_false_2 by done. destruct Hce as (? & _).
    rewrite record_size_spec, <-entry_bytes_size by lia. cbn [res_bind].
    rewrite checked_add_u64_ok by lia. cbn [ok_or res_bind].
    rewrite (proj2 (Hens (total + len (entry_bytes e)) tt)) by lia. cbn [res_bind].
    apply IH; [done|lia|]. split_conj; try done; lia.
Qed.

Lemma write_records_spec es : forall output,
  Forall entry_ok es -> len output mod 4 = 0 ->
  exists out, write_records output es = Ok out /\ out ++ trailer_bytes = output ++ archive_bytes es /\
    len out mod 4 = 0.
Proof.
  induction es as [|e es IH]; intros output Hok Ho; cbn [write_records archive_bytes]; [eauto|].
  apply Forall_cons in Hok as [[(? & _) Hd] Hok].
  rewrite write_record_spec by lia. cbn [res_bind]. fold (entry_bytes e).
  destruct (IH (output ++ entry_bytes e)) as (out & -> & He & Hm); [done| |].
  - rewrite length_app, Nat2Z.inj_add. apply mod4_add; [done|apply entry_bytes_length].
  - exists out. by rewrite <-app_assoc in He.
Qed.

#[global] Instance path_le_trans : Transitive path_le.
Proof.
  unfold path_le. intros x y z Hxy Hyz Hzx.
  destruct (bytes_lt_trichotomy (b_path y) (b_path z)) as [H|[H|H]]; [|congruence|done].
  apply Hxy. by transitivity (b_path z).
Qed.

#[global] Instance path_le_total : Total path_le.
Proof.
  unfold path_le. intros x y.
  destruct (bytes_lt_trichotomy (b_path x) (b_path y)) as [H|[H|H]].
  - left. intros H'. eapply bytes_lt_irrefl. by transitivity (b_path x).
  - left. rewrite H. apply bytes_lt_irrefl.
  - right. intros H'. eapply bytes_lt_irrefl. by transitivity (b_path y).
Qed.

(** In sorted order, distinct neighbours are distinct everywhere. *)
Lemma sorted_distinct es previous :
  StronglySorted path_le es ->
  match previous with Some p => Forall (fun e => ~ bytes_lt (b_path e) p) es | None => True end ->
  distinct_from previous es <->
  StronglySorted path_lt es /\
  match previous with Some p => Forall (fun e => bytes_lt p (b_path e)) es | None => True end.
Proof.
  intros Hs. revert previous. induction Hs as [|e es Hs IH He]; intros previous Hprev; simpl.
  { split; [|done]. intros _. split; [constructor|by destruct previous]. }
  rewrite IH by (eapply Forall_impl; [done|]; by intros ?). rewrite StronglySorted_cons. split.
  - intros (Hne & Hsort & Hlt). split; [by split|]. destruct previous as [p|]; [|done].
    apply Forall_cons in Hprev as [Hp _].
    assert (bytes_lt p (b_path e)) as Hpe.
    { destruct (bytes_lt_trichotomy p (b_path e)) as [?|[->|?]]; done. }
    constructor; [done|]. eapply Forall_impl; [done|]. intros x Hx. by transitivity (b_path e).
  - intros ((Hlt & Hsort) & Hp). split_conj; [|done|done]. intros ->.
    apply Forall_cons in Hp as [Hp _]. by apply bytes_lt_irrefl in Hp.
Qed.

(** The states a builder can be in. *)
Definition builder_ok (b : Builder) : Prop :=
  Forall (fun e => canonical_path (b_path e)) (b_entries b) /\ len (b_entries b) <= 4096.

Lemma add_ok try_reserve b path data mode b' :
  builder_ok b -> add try_reserve b path data mode = Ok b' ->
  builder_ok b' /\ b_entries b' = b_entries b ++ [mkBuilderEntry path data mode].
Proof.
  intros [Hc Hn] H. unfold add in H. repeat res_step. subst b'. simpl.
  assert (a0 = path /\ canonical_path path) as [-> Hp].
  { destruct (archive_path_new path) as [p|e|] eqn:Hnew; simpl in *; simplify_eq.
    by apply archive_path_new_spec in Hnew as [-> ?]. }
  split; [|done]. unfold MAX_RECORDS in *. simpl max_records in *. bool_prop.
  split; simpl; [apply Forall_app; split; [done|by constructor]|]. rewrite length_app. simpl. lia.
Qed.

Lemma sorted_nodup es : StronglySorted path_lt es -> NoDup (b_path <$> es).
Proof.
  induction 1 as [|e es _ IH He]; simpl; [constructor|]. constructor; [|done].
  intros (x & Hx & Hin)%list_elem_of_fmap. rewrite Forall_forall in He.
  specialize (He x Hin). unfold path_lt in He. rewrite Hx in He. by apply bytes_lt_irrefl in He.
Qed.

Lemma nodup_sorted es :
  StronglySorted path_le es -> NoDup (b_path <$> es) -> StronglySorted path_lt es.
Proof.
  induction 1 as [|e es Hes IH He]; simpl; [constructor|]. intros [Hn Hnd]%NoDup_cons.
  constructor; [by apply IH|]. rewrite Forall_forall in He |- *. intros y Hy.
  destruct (bytes_lt_trichotomy (b_path e) (b_path y)) as [H|[H|H]]; [done| |].
  - destruct Hn. rewrite H. by apply list_elem_of_fmap_2.
  - by destruct (He y Hy).
Qed.

Lemma sorted_nodup_iff es :
  NoDup (b_path <$> es) <-> StronglySorted path_lt (merge_sort path_le es).
Proof.
  rewrite <-(merge_sort_Permutation path_le es) at 1. split; [|apply sorted_nodup].
  apply nodup_sorted, StronglySorted_merge_sort; apply _.
Qed.

Definition sorted_entries (b : Builder) : list BuilderEntry := merge_sort path_le (b_entries b).

(** When the allocator grants what is asked, [build] succeeds exactly on
    distinct paths and a total within the limit, and writes the records in
    path order. *)
Lemma build_spec try_reserve b out :
  builder_ok b ->
  build try_reserve b = Ok out <->
  StronglySorted path_lt (sorted_entries b) /\ Forall entry_ok (sorted_entries b) /\
  out = archive_bytes (sorted_entries b) /\ len out <= MAX_ARCHIVE_BYTES /\
  try_reserve (len (b_entries b)) = true /\ try_reserve (len out) = true.
Proof.
  intros [Hc _]. unfold build, fallibly_reserve. fold (sorted_entries b).
  assert (Forall (fun e => canonical_path (b_path e)) (sorted_entries b)) as Hc'.
  { unfold sorted_entries. by rewrite merge_sort_Permutation. }
  assert (StronglySorted path_le (sorted_entries b)) as Hs by (apply StronglySorted_merge_sort; apply _).
  assert (len trailer_bytes = 124) as Htr by reflexivity.
  assert (record_size TRAILER_NAME [] = Ok (len trailer_bytes)) as -> by reflexivity.
  pose proof (archive_bytes_size (sorted_entries b)) as Hsize.
  assert (124 <= MAX_ARCHIVE_BYTES) as Hm by done.
  assert (forall t, total_size (sorted_entries b) (len trailer_bytes) None = Ok t <->
    StronglySorted path_lt (sorted_entries b) /\ Forall entry_ok (sorted_entries b) /\
    t = len (archive_bytes (sorted_entries b)) /\ t <= MAX_ARCHIVE_BYTES) as Htotal.
  { intros t. rewrite total_size_spec, (sorted_distinct _ None Hs I) by (done || lia).
    rewrite Hsize, Z.add_comm. tauto. }
  destruct (try_reserve (len (b_entries b))); cbn [res_bind]; [|naive_solver].
  split.
  - intros H. res_step. apply Htotal in H0 as (Hsort & Hok & -> & Hmax).
    destruct (try_reserve _) eqn:Hres in H; [|done]. cbn [res_bind] in H.
    destruct (write_records_spec (sorted_entries b) [] Hok) as (o & Ho & Heq & Hmod); [done|].
    rewrite Ho in H. cbn [res_bind] in H. rewrite write_record_spec in H by (done || simpl; lia).
    cbn [res_bind] in H. fold trailer_bytes in H. rewrite Heq in H. simpl in H.
    destruct (_ =? _); [|done]. injection H as <-.
    split_conj; done.
  - intros (Hsort & Hok & -> & Hmax & _ & Hres).
    rewrite (proj2 (Htotal (len (archive_bytes (sorted_entries b))))) by done.
    cbn [res_bind]. rewrite Hres. cbn [res_bind].
    destruct (write_records_spec (sorted_entries b) [] Hok) as (o & -> & Heq & Hmod); [done|].
    cbn [res_bind]. rewrite write_record_spec by (done || simpl; lia). cbn [res_bind].
    fold trailer_bytes. rewrite Heq. simpl app. by rewrite Z.eqb_refl.
Qed.

(** C7: what the builder writes, the parser reads back: for any files added
    under canonical paths, [build] succeeds exactly when the paths are distinct,
    every file fits a 32-bit size, the archive fits 32 MiB and memory is
    granted; then [Archive::new] accepts the bytes, and iterating the archive
    yields exactly the added files, with their contents and modes, in order of
    their paths. *)
Theorem bootfs_round_trip try_reserve b :
  builder_ok b ->
  (forall n, try_reserve n = true) ->
  (is_ok (build try_reserve b) = true <->
   NoDup (b_path <$> b_entries b) /\ Forall (fun e => len (b_data e) < 2 ^ 32) (b_entries b) /\
   len (archive_bytes (sorted_entries b)) <= MAX_ARCHIVE_BYTES) /\
  forall out, build try_reserve b = Ok out ->
    archive_new out = Ok out /\
    exists files, files ≡ₚ b_entries b /\ archive_entries out = entry_of <$> files /\
      StronglySorted path_lt files.
Proof.
  intros Hb Hres. pose proof (build_spec try_reserve b) as Hspec. pose proof Hb as [Hc Hn].
  pose proof (merge_sort_Permutation path_le (b_entries b)) as HP. fold (sorted_entries b) in HP.
  split.
  - rewrite sorted_nodup_iff. fold (sorted_entries b).
    assert (Forall entry_ok (sorted_entries b) <->
            Forall (fun e => len (b_data e) < 2 ^ 32) (b_entries b)) as <-.
    { rewrite HP. unfold entry_ok. rewrite Forall_and. tauto. }
    split.
    + destruct (build try_reserve b) as [out| |] eqn:Hbuild; try done. intros _.
      destruct (proj1 (Hspec out Hb) eq_refl) as (? & ? & -> & ? & _). done.
    + intros (? & ? & ?). rewrite (proj2 (Hspec (archive_bytes (sorted_entries b)) Hb)); [done|].
      by split_conj.
  - intros out Hbuild. apply Hspec in Hbuild as (Hsort & Hok & -> & Hmax & _); [|done].
    pose proof (archive_bytes_length (sorted_entries b)) as Hlt.
    pose proof (Permutation_length HP) as Hlen.
    destruct (scan_written (sorted_entries b) [] (S (length (archive_bytes (sorted_entries b)))) None 0)
      as [Hscan Hent]; try done; [|lia|lia|].
    { simpl. assert (MAX_ARCHIVE_BYTES < 2 ^ 62) by done. lia. }
    simpl app in *. change (len []) with 0 in *.
    split; [|by exists (sorted_entries b)].
    unfold archive_new, check_archive_length.
    destruct (Z.gtb_spec (len (archive_bytes (sorted_entries b))) MAX_ARCHIVE_BYTES); [lia|].
    cbn [res_bind]. by rewrite Hscan.
Qed.

(** ** Hostile archives *)

Lemma hex_field_from_np field : forall offset value, hex_field_from field offset value <> Panic.
Proof. induction field as [|b field IH]; intros; simpl; [done|]. no_panic. apply IH. Qed.

Lemma header_field_np header start a :
  0 <= a -> a + 8 <= len header -> header_field header start a <> Panic.
Proof.
  intros. unfold header_field. no_panic; [lia|]. apply hex_field_from_np.
Qed.

Lemma archive_path_map_err_np name (e : ArchivePathError -> ParseError) :
  map_err e (archive_path_new name) <> Panic.
Proof.
  destruct (archive_path_new_spec name) as [Hnp _]. by destruct (archive_path_new name).
Qed.

(** A record that parses lies inside the archive and takes at least its header
    and a name. *)
Lemma parse_record_next bytes start r :
  0 <= start -> parse_record bytes start = Ok r ->
  r_start r = start /\ start + HEADER_SIZE < r_next r <= len bytes /\
  (r_is_trailer r = false -> r_path r = Some (r_name r) /\ canonical_path (r_name r)).
Proof.
  intros Hs H. unfold parse_record in H. repeat res_step.
  repeat match goal with
  | H : checked_add_u64 _ _ = Some _ |- _ => apply checked_add_Some in H as [-> ?]
  | H : get_range _ _ _ = Some ?v |- _ =>
      lazymatch goal with
      | _ : len v = _ |- _ => fail
      | _ => pose proof (length_get_range _ _ _ _ H); pose proof (proj1 (get_range_is_Some _ _ _) (ex_intro _ _ H))
      end
  end. bool_prop. unfold HEADER_SIZE in *.
  match goal with H : align4 (start + _ + _) = Some _ |- _ => apply align4_Some in H as [-> ?]; [|lia] end.
  match goal with H : align4 (_ + _) = Some _ |- _ => apply align4_Some in H as [-> ?]; [|lia] end.
  set (next := (_ + 3) / 4 * 4) in H.
  assert (start + 110 < next <= len bytes) as Hnext.
  { subst next. match goal with H : (?v + 3) / 4 * 4 <= len bytes |- _ =>
      pose proof (align4_bounds v) end. lia. }
  destruct (bool_decide _); res_inv.
  { by subst r. }
  match goal with H : map_err _ (archive_path_new ?n) = Ok ?p |- _ =>
    destruct (archive_path_new n) as [q| |] eqn:Hnew; simpl in H; simplify_eq end.
  by apply archive_path_new_spec in Hnew as [-> ?].
Qed.

Lemma parse_record_np bytes start : 0 <= start -> parse_record bytes start <> Panic.
Proof.
  intros Hs. unfold parse_record, HEADER_SIZE, get_from. no_panic.
  all: bool_prop; try (apply header_field_np; lia); try lia.
  all: repeat match goal with H : ok_or _ _ = Ok _ |- _ => apply ok_or_Ok in H end.
  all: repeat match goal with
    | H : checked_add_u64 _ _ = Some _ |- _ => apply checked_add_Some in H as [-> ?]
    end.
  - match goal with H : get_range bytes (start + 110) _ = Some _ |- _ =>
      pose proof (length_get_range _ _ _ _ H);
      pose proof (proj1 (get_range_is_Some _ _ _) (ex_intro _ _ H)) end. lia.
  - repeat match goal with H : get_range bytes _ _ = Some _ |- _ =>
      pose proof (proj1 (get_range_is_Some _ _ _) (ex_intro _ _ H)); clear H end.
    match goal with H : align4 (_ + _) = Some ?n |- 0 <= ?v <= ?n /\ _ =>
      apply align4_Some in H as [-> ?]; [|lia]; pose proof (align4_bounds v) end. lia.
  - repeat case_match; done.
  - apply archive_path_map_err_np.
Qed.

(** What is left to visit bounds the fuel: each record moves the cursor on. *)
Lemma scan_np bytes : forall fuel cursor previous count,
  0 <= cursor <= len bytes -> (Z.to_nat (len bytes - cursor) < fuel)%nat ->
  scan bytes fuel cursor previous count <> Panic.
Proof.
  induction fuel as [|fuel IH]; intros cursor previous count Hc Hf; [lia|].
  simpl. apply res_bind_not_panic; [apply parse_record_np; lia|]. intros r Hr.
  apply parse_record_next in Hr as (_ & [? ?] & _); [|lia]. unfold HEADER_SIZE in *.
  destruct (negb _ && _); [done|]. destruct (r_is_trailer r); [by destruct (negb _)|].
  apply res_bind_not_panic; [by repeat case_match|]. intros _ _. apply IH; lia.
Qed.

Definition e_lt (e1 e2 : Entry) : Prop := bytes_lt (e_name e1) (e_name e2).

(** The entries [Entries::next] yields from the cursor of an accepting scan. *)
Lemma scan_entries bytes : forall fuel cursor previous count,
  0 <= cursor -> 0 <= count <= MAX_RECORDS -> scan bytes fuel cursor previous count = Ok tt ->
  let es := entries_from bytes fuel cursor in
  StronglySorted e_lt es /\
  Forall (fun e => e_path e = e_name e /\ canonical_path (e_name e)) es /\
  Forall (fun e => match previous with Some p => bytes_lt p (e_name e) | None => True end) es /\
  count + len es <= MAX_RECORDS.
Proof.
  induction fuel as [|fuel IH]; intros cursor previous count Hc Hcount H; [done|].
  cbn [scan entries_from] in *. unfold entries_next.
  destruct (parse_record bytes cursor) as [r| |] eqn:Hr; cbn [res_bind] in H; try done.
  apply parse_record_next in Hr as (_ & [? ?] & Hname); [|done]. unfold HEADER_SIZE in *.
  destruct (r_is_trailer r); cbn [negb andb] in *.
  { split_conj; try constructor. simpl. lia. }
  destruct Hname as [-> Hcanon]; [done|]. destruct (Z.gtb_spec (count + 1) MAX_RECORDS); [done|].
  destruct (match previous with Some _ => _ | None => _ end) as [[]| |] eqn:Hprev;
    cbn [res_bind] in H; try done.
  apply IH in H as (Hsort & Hall & Hlt & Hlen); [|lia..]. cbv zeta.
  split_conj.
  - by constructor.
  - by constructor.
  - destruct previous as [p|]; [|by apply Forall_true].
    assert (bytes_lt p (r_name r)) as Hp.
    { apply bytes_cmp_gt. by destruct (bytes_cmp (r_name r) p). }
    constructor; [done|]. eapply Forall_impl; [exact Hlt|]. intros e ?. simpl. by transitivity (r_name r).
  - cbn [length]. cbv zeta in Hlen. lia.
Qed.

Lemma find_first_Some {A} (p : A -> bool) l x :
  find_first p l = Some x -> x ∈ l /\ p x = true.
Proof.
  induction l as [|y l IH]; simpl; [done|]. destruct (p y) eqn:E.
  - intros [= <-]. split; [left|done].
  - intros [? ?]%IH. split; [by right|done].
Qed.

Lemma find_first_None {A} (p : A -> bool) l x :
  find_first p l = None -> x ∈ l -> p x = false.
Proof.
  induction l as [|y l IH]; simpl; [by inversion 2|]. destruct (p y) eqn:E; [done|].
  intros H [->|?]%elem_of_cons; [done|]. by apply IH.
Qed.

Lemma e_lt_unique es e1 e2 :
  StronglySorted e_lt es -> e1 ∈ es -> e2 ∈ es -> e_name e1 = e_name e2 -> e1 = e2.
Proof.
  induction 1 as [|e es _ IH He]; [by inversion 1|]. rewrite Forall_forall in He.
  intros [->|H1]%elem_of_cons [->|H2]%elem_of_cons Heq; [done| | |by apply IH].
  - specialize (He _ H2). unfold e_lt in He. rewrite Heq in He. by apply bytes_lt_irrefl in He.
  - specialize (He _ H1). unfold e_lt in He. rewrite <-Heq in He. by apply bytes_lt_irrefl in He.
Qed.

(** [Archive::new] answers on every byte string, hostile ones included: its
    record loop ends within one round per byte and no slice in it is out of
    bounds.  It never accepts more than 32 MiB, or more than 4096 entries. *)
Theorem archive_new_total bytes :
  archive_new bytes <> Panic /\
  forall archive, archive_new bytes = Ok archive ->
    archive = bytes /\ len bytes <= MAX_ARCHIVE_BYTES /\
    len (archive_entries archive) <= MAX_RECORDS.
Proof.
  unfold archive_new, check_archive_length. destruct (Z.gtb_spec (len bytes) MAX_ARCHIVE_BYTES); [done|].
  cbn [res_bind]. pose proof (scan_np bytes (S (length bytes)) 0 None 0) as Hnp.
  destruct (scan bytes _ 0 None 0) as [[]| |] eqn:Hscan; cbn [res_bind].
  - split; [done|]. intros ? [= <-]. split_conj; [done|done|].
    apply scan_entries in Hscan as (_ & _ & _ & ?); [|lia|done]. done.
  - done.
  - destruct Hnp; [lia|lia|done].
Qed.

(** C26: an accepted archive is a map from canonical paths to files: iterating it
    yields entries in strictly increasing path order, each under its own
    canonical path, and [Archive::lookup] of a query returns an entry exactly
    when it is one of them and carries that path, [InvalidPath] exactly on a
    query that is not a canonical path, and [NotFound] exactly on a canonical
    path none of them has. *)
Theorem archive_lookup bytes archive query :
  archive_new bytes = Ok archive ->
  let es := archive_entries archive in
  StronglySorted e_lt es /\
  Forall (fun e => e_path e = e_name e /\ canonical_path (e_name e)) es /\
  (forall e, lookup archive query = Ok e <-> e ∈ es /\ e_name e = query) /\
  (lookup archive query = Err LNotFound <-> canonical_path query /\ query ∉ (e_name <$> es)) /\
  ((exists err, lookup archive query = Err (LInvalidPath err)) <-> ~ canonical_path query) /\
  lookup archive query <> Panic.
Proof.
  unfold archive_new. intros H. res_step. res_step. destruct a0. injection H as <-.
  apply scan_entries in H1 as (Hsort & Hall & _ & _); [|lia|done]. cbv zeta.
  fold (archive_entries bytes) in Hsort, Hall. split; [done|]. split; [done|].
  unfold lookup. destruct (archive_path_new_spec query) as [Hnp Hiff].
  destruct (archive_path_new query) as [q|err|] eqn:Hq; cbn [map_err res_bind]; [| |done].
  - destruct (proj1 (Hiff q) eq_refl) as [-> Hcanon].
    destruct (find_first _ _) as [e|] eqn:Hfind; cbn [ok_or].
    + apply find_first_Some in Hfind as [Hin Hname%bool_decide_eq_true]. split_conj; try done.
      * intros e'. split; [by intros [= <-]|]. intros [Hin' Hname']. f_equal.
        eapply e_lt_unique; [done..|congruence].
      * split; [done|]. intros [_ Hn]. destruct Hn. rewrite <-Hname. by apply list_elem_of_fmap_2.
      * split; [by intros [? ?]|done].
    + split_conj; try done.
      * intros e. split; [done|]. intros [Hin Hname].
        by apply (find_first_None _ _ e Hfind), bool_decide_eq_false in Hin.
      * split; [|done]. intros _. split; [done|]. intros (e & -> & Hin)%list_elem_of_fmap.
        by apply (find_first_None _ _ e Hfind), bool_decide_eq_false in Hin.
      * split; [by intros [? ?]|done].
  - assert (~ canonical_path query) as Hn.
    { intros Hc. by discriminate (proj2 (Hiff query) (conj eq_refl Hc)). }
    split_conj; try done.
    + intros e. split; [done|]. intros [Hin <-]. rewrite Forall_forall in Hall.
      by destruct (Hall e Hin) as [_ ?].
    + split; [done|]. by intros [? _].
    + split; [done|]. by exists err.
Qed.

(** ** Witnesses *)

(** Two files, added out of order: ["b"] and ["a/x"]. *)
Definition sample_builder : Builder :=
  mkBuilder [mkBuilderEntry [98] [1; 2; 3] ReadOnly; mkBuilderEntry [97; 47; 120] [7] Executable].
Definition sample_archive : list Z := archive_bytes (sorted_entries sample_builder).

Lemma bootfs_round_trip_witness :
  builder_ok sample_builder /\ build (fun _ => true) sample_builder = Ok sample_archive /\
  archive_new sample_archive = Ok sample_archive.
Proof.
  assert (builder_ok sample_builder) as Hok by (split; [|done]; repeat constructor; try done; by apply (bool_decide_unpack _)).
  assert (build (fun _ => true) sample_builder = Ok sample_archive) as Hb by (vm_compute; reflexivity).
  destruct (bootfs_round_trip (fun _ => true) sample_builder) as [_ Hrt]; [done|done|].
  destruct (Hrt sample_archive Hb) as [Hnew _]. by split_conj.
Defined.

Lemma archive_lookup_witness :
  archive_new sample_archive = Ok sample_archive /\
  lookup sample_archive [97; 47; 120] =
    Ok (mkEntry [97; 47; 120] [7] [97; 47; 120] true) /\
  lookup sample_archive [99] = Err LNotFound /\
  StronglySorted e_lt (archive_entries sample_archive).
Proof.
  assert (archive_new sample_archive = Ok sample_archive) as Hnew by (vm_compute; reflexivity).
  destruct (archive_lookup sample_archive sample_archive [97; 47; 120]) as (Hs & _); [done|].
  split_conj; [done|vm_compute; reflexivity|vm_compute; reflexivity|done].
Defined.
