(* ===== verification/Elf.v ===== *)
(** * The static ELF planner (crates/wyrmroot-loader/src/elf.rs)

    The bounded parser of untrusted executables.  An image is the list of its
    bytes.  The caller's [output] slice is a list that [plan] writes by index;
    it is returned with the plan, and on an error it holds nothing the caller
    reads.  An unchecked [+] or [-] whose result does not fit is [Panic], and so
    is an index out of range. *)

From stdpp Require Import base tactics option list list_numbers sorting.
From Stdlib Require Import ZArith Lia.
From S2P Require Import Prelude Bytes.

Module Elf.

Definition PAGE_SIZE : Z := 4096.
Definition MAX_ELF_BYTES : Z := 16 * 1024 * 1024.
Definition MAX_PROGRAM_HEADERS : Z := 16.
Definition MAX_LOAD_SEGMENTS : Z := 8.
Definition MAX_MAPPED_IMAGE_BYTES : Z := 32 * 1024 * 1024.
Definition USER_END_EXCLUSIVE : Z := 0x0000800000000000.
Definition STACK_TOP : Z := 0x00007fffffff0000.
Definition STACK_BYTES : Z := 128 * 1024.
Definition STACK_GUARD_BYTES : Z := PAGE_SIZE.
Definition STACK_BOTTOM : Z := STACK_TOP - STACK_BYTES.
Definition STACK_GUARD_START : Z := STACK_BOTTOM - STACK_GUARD_BYTES.

Definition ELF_HEADER_BYTES : Z := 64.
Definition PROGRAM_HEADER_BYTES : Z := 56.
Definition ET_EXEC : Z := 2.
Definition EM_X86_64 : Z := 62.
Definition EV_CURRENT : Z := 1.
Definition PT_LOAD : Z := 1.
Definition PT_PHDR : Z := 6.
Definition PT_GNU_STACK : Z := 0x6474e551.
Definition PF_X : Z := 1.
Definition PF_W : Z := 2.
Definition PF_R : Z := 4.
Definition PF_RW : Z := Z.lor PF_R PF_W.
Definition PF_RX : Z := Z.lor PF_R PF_X.
(** [b"\x7fELF"] *)
Definition ELF_MAGIC : list Z := [127; 69; 76; 70].

Inductive SegmentProtection := Read | ReadWrite | ReadExecute.
#[global] Instance SegmentProtection_eq_dec : EqDecision SegmentProtection.
Proof. solve_decision. Defined.

Record LoadSegment := mkSegment {
  header_index : Z; file_offset : Z; file_size : Z; memory_size : Z; virtual_address : Z;
  mapping_start : Z; mapping_size : Z; leading_bytes : Z; protection : SegmentProtection }.

Record ElfLoadPlan := mkPlan { entry : Z; segments : list LoadSegment; mapped_bytes : Z }.

Inductive ElfError :=
| ImageSize | HeaderTruncated | BadMagic | UnsupportedClass (v : Z)
| UnsupportedDataEncoding (v : Z) | UnsupportedIdentVersion (v : Z) | UnsupportedOsAbi (v : Z)
| UnsupportedAbiVersion (v : Z) | UnsupportedElfType (v : Z) | UnsupportedMachine (v : Z)
| UnsupportedElfVersion (v : Z) | UnsupportedElfFlags (v : Z) | InvalidElfHeaderSize (v : Z)
| InvalidProgramHeaderSize (v : Z) | MissingProgramHeaders | TooManyProgramHeaders (n : Z)
| ProgramHeaderTableOverflow | ProgramHeaderTableTruncated
| ProgramHeaderTableOverlapsElfHeader | ProgramHeaderTableMisaligned
| UnsupportedProgramHeaderType (index header_type : Z) | DuplicateProgramHeaderType (t : Z)
| UnknownSegmentFlags (index flags : Z) | InvalidStackHeader (index : Z)
| InvalidPhdrHeader (index : Z) | TooManyLoadSegments (n : Z)
| OutputTooSmall (required supplied : Z) | EmptyLoadSegment (index : Z)
| FileSizeExceedsMemorySize (index : Z) | SegmentFileRangeOverflow (index : Z)
| SegmentFileRangeTruncated (index : Z) | SegmentVirtualRangeOverflow (index : Z)
| SegmentMappingRangeOverflow (index : Z) | InvalidSegmentAlignment (index alignment : Z)
| SegmentAlignmentBelowPolicy (index alignment : Z)
| SegmentAddressAlignmentMismatch (index : Z) | SegmentVirtualRangeOutsidePolicy (index : Z)
| SegmentOverlapsInitialStack (index : Z) | WritableExecutableSegment (index : Z)
| UnsupportedSegmentProtection (index flags : Z)
| OverlappingVirtualSegments (first second : Z)
| OverlappingVirtualMappingRanges (first second : Z) | MappedImageLimit | ZeroEntryPoint
| EntryPointOutsideExecutableSegment.

Record Header := mkHeader { h_entry : Z; program_offset : Z; program_count : Z }.

(** [u16::from_le_bytes(bytes[offset..offset + 2].try_into().unwrap())], ... *)
Definition get_u16 (bytes : list Z) (offset : Z) : res ElfError Z := or_panic (get_le 2 bytes offset).
Definition get_u32 (bytes : list Z) (offset : Z) : res ElfError Z := or_panic (get_le 4 bytes offset).
Definition get_u64 (bytes : list Z) (offset : Z) : res ElfError Z := or_panic (get_le 8 bytes offset).

(** [value as u16] *)
Definition as_u16 (value : Z) : Z := value mod 2 ^ 16.

Definition memory_end (s : LoadSegment) : res ElfError Z := plus (virtual_address s) (memory_size s).
Definition mapping_end (s : LoadSegment) : res ElfError Z := plus (mapping_start s) (mapping_size s).

(** [value.is_power_of_two()]: one bit is set. *)
Definition is_power_of_two (value : Z) : bool :=
  (0 <? value) && (Z.land value (value - 1) =? 0).

Definition align_up (value alignment : Z) : res ElfError (option Z) :=
  let! mask := minus alignment 1 in
  Ok ((fun sum => Z.land sum (Z.lnot mask)) <$> checked_add_u64 value mask).

Definition parse_header (image : list Z) : res ElfError Header :=
  reject_if! bool_decide (image = []) || (len image >? MAX_ELF_BYTES) with ImageSize;;
  let! bytes := ok_or HeaderTruncated (get_range image 0 ELF_HEADER_BYTES) in
  let! magic := or_panic (get_range bytes 0 4) in
  reject_if! bool_decide (magic <> ELF_MAGIC) with BadMagic;;
  let! b4 := or_panic (get_at bytes 4) in
  reject_if! negb (b4 =? 2) with UnsupportedClass b4;;
  let! b5 := or_panic (get_at bytes 5) in
  reject_if! negb (b5 =? 1) with UnsupportedDataEncoding b5;;
  let! b6 := or_panic (get_at bytes 6) in
  reject_if! negb (b6 =? 1) with UnsupportedIdentVersion b6;;
  let! b7 := or_panic (get_at bytes 7) in
  reject_if! negb (b7 =? 0) with UnsupportedOsAbi b7;;
  let! b8 := or_panic (get_at bytes 8) in
  reject_if! negb (b8 =? 0) with UnsupportedAbiVersion b8;;
  let! elf_type := get_u16 bytes 16 in
  reject_if! negb (elf_type =? ET_EXEC) with UnsupportedElfType elf_type;;
  let! machine := get_u16 bytes 18 in
  reject_if! negb (machine =? EM_X86_64) with UnsupportedMachine machine;;
  let! version := get_u32 bytes 20 in
  reject_if! negb (version =? EV_CURRENT) with UnsupportedElfVersion version;;
  let! flags := get_u32 bytes 48 in
  reject_if! negb (flags =? 0) with UnsupportedElfFlags flags;;
  let! header_size := get_u16 bytes 52 in
  reject_if! negb (header_size =? ELF_HEADER_BYTES) with InvalidElfHeaderSize header_size;;
  let! program_size := get_u16 bytes 54 in
  reject_if! negb (program_size =? PROGRAM_HEADER_BYTES) with InvalidProgramHeaderSize program_size;;
  let! program_count := get_u16 bytes 56 in
  reject_if! program_count =? 0 with MissingProgramHeaders;;
  reject_if! program_count >? MAX_PROGRAM_HEADERS with TooManyProgramHeaders program_count;;
  let! program_offset := get_u64 bytes 32 in
  reject_if! program_offset <? ELF_HEADER_BYTES with ProgramHeaderTableOverlapsElfHeader;;
  reject_if! negb (Z.land program_offset 7 =? 0) with ProgramHeaderTableMisaligned;;
  let! table_bytes :=
    ok_or ProgramHeaderTableOverflow (checked_mul_u64 program_count PROGRAM_HEADER_BYTES) in
  let! table_end := ok_or ProgramHeaderTableOverflow (checked_add_u64 program_offset table_bytes) in
  reject_if! table_end >? len image with ProgramHeaderTableTruncated;;
  let! entry := get_u64 bytes 24 in
  Ok (mkHeader entry program_offset program_count).

Definition program_header (image : list Z) (header : Header) (index : Z) : res ElfError (list Z) :=
  let! offset := ok_or ProgramHeaderTableOverflow (checked_mul_u64 index PROGRAM_HEADER_BYTES) in
  let! start := ok_or ProgramHeaderTableOverflow (checked_add_u64 (program_offset header) offset) in
  let! end_ := plus start PROGRAM_HEADER_BYTES in
  ok_or ProgramHeaderTableTruncated (get_range image start end_).

Definition parse_load_segment (image ph : list Z) (index : Z) : res ElfError LoadSegment :=
  let! flags := get_u32 ph 4 in
  reject_if! negb (Z.land flags (Z.lnot (Z.lor (Z.lor PF_R PF_W) PF_X)) =? 0)
    with UnknownSegmentFlags index flags;;
  reject_if! negb (Z.land flags PF_W =? 0) && negb (Z.land flags PF_X =? 0)
    with WritableExecutableSegment index;;
  let! protection :=
    if flags =? PF_R then Ok Read
    else if flags =? PF_RW then Ok ReadWrite
    else if flags =? PF_RX then Ok ReadExecute
    else Err (UnsupportedSegmentProtection index flags) in
  let! file_offset := get_u64 ph 8 in
  let! virtual_address := get_u64 ph 16 in
  let! file_size := get_u64 ph 32 in
  let! memory_size := get_u64 ph 40 in
  let! alignment := get_u64 ph 48 in
  reject_if! memory_size =? 0 with EmptyLoadSegment index;;
  reject_if! file_size >? memory_size with FileSizeExceedsMemorySize index;;
  let! file_end := ok_or (SegmentFileRangeOverflow index) (checked_add_u64 file_offset file_size) in
  reject_if! file_end >? len image with SegmentFileRangeTruncated index;;
  let! memory_end :=
    ok_or (SegmentVirtualRangeOverflow index) (checked_add_u64 virtual_address memory_size) in
  reject_if! negb (is_power_of_two alignment) with InvalidSegmentAlignment index alignment;;
  reject_if! alignment <? PAGE_SIZE with SegmentAlignmentBelowPolicy index alignment;;
  let! mask := minus alignment 1 in
  reject_if! negb (Z.land file_offset mask =? Z.land virtual_address mask)
    with SegmentAddressAlignmentMismatch index;;
  let mapping_start := Z.land virtual_address (Z.lnot (PAGE_SIZE - 1)) in
  let! aligned := align_up memory_end PAGE_SIZE in
  let! mapping_end := ok_or (SegmentMappingRangeOverflow index) aligned in
  let! mapping_size :=
    ok_or (SegmentMappingRangeOverflow index) (checked_sub mapping_end mapping_start) in
  reject_if! (mapping_start <? PAGE_SIZE) || (mapping_end >? USER_END_EXCLUSIVE)
    with SegmentVirtualRangeOutsidePolicy index;;
  reject_if! (mapping_start <? STACK_TOP) && (STACK_GUARD_START <? mapping_end)
    with SegmentOverlapsInitialStack index;;
  let! leading_bytes := minus virtual_address mapping_start in
  Ok (mkSegment index file_offset file_size memory_size virtual_address mapping_start mapping_size
        leading_bytes protection).

(** [segments.windows(2)], first window first. *)
Fixpoint validate_nonoverlap (segments : list LoadSegment) : res ElfError unit :=
  match segments with
  | first :: (second :: _) as rest =>
      let! first_end := memory_end first in
      reject_if! virtual_address second <? first_end
        with OverlappingVirtualSegments (header_index first) (header_index second);;
      let! first_map_end := mapping_end first in
      reject_if! mapping_start second <? first_map_end
        with OverlappingVirtualMappingRanges (header_index first) (header_index second);;
      validate_nonoverlap rest
  | _ => Ok tt
  end.

(** [get_u64(ph, o) != v || rest]: the reads stop at the first difference. *)
Definition differs (ph : list Z) (offset value : Z) (rest : res ElfError bool) : res ElfError bool :=
  let! v := get_u64 ph offset in if negb (v =? value) then Ok true else rest.

Definition validate_stack_header (ph : list Z) (index : Z) : res ElfError unit :=
  let! flags := get_u32 ph 4 in
  let! bad :=
    if negb (flags =? Z.lor PF_R PF_W) then Ok true
    else differs ph 8 0 (differs ph 16 0 (differs ph 24 0 (differs ph 32 0
           (differs ph 40 0 (Ok false))))) in
  reject_if! bad with InvalidStackHeader index;;
  Ok tt.

Definition validate_phdr_header (ph : list Z) (header : Header) (index image_len : Z)
    : res ElfError unit :=
  let! table_bytes := or_panic (checked_mul_u64 (program_count header) PROGRAM_HEADER_BYTES) in
  let expected_offset := program_offset header in
  let expected_size := table_bytes in
  let! file_end := ok_or (InvalidPhdrHeader index) (checked_add_u64 expected_offset expected_size) in
  let! flags := get_u32 ph 4 in
  let! bad :=
    if negb (flags =? PF_R) then Ok true
    else differs ph 8 expected_offset (differs ph 32 expected_size (differs ph 40 expected_size
           (Ok (file_end >? image_len)))) in
  reject_if! bad with InvalidPhdrHeader index;;
  Ok tt.

(** The loop of [required_segment_count] over the indices left.  The named
    unsupported types ([PT_INTERP], [PT_DYNAMIC], ...) and the wildcard return
    the same error. *)
Fixpoint count_segments (image : list Z) (header : Header) (indices : list Z) (count : Z)
    (saw_phdr saw_stack : bool) : res ElfError Z :=
  match indices with
  | [] => Ok count
  | index :: indices =>
      let! ph := program_header image header index in
      let! header_type := get_u32 ph 0 in
      if header_type =? PT_LOAD then
        let count := count + 1 in
        reject_if! count >? MAX_LOAD_SEGMENTS with TooManyLoadSegments count;;
        count_segments image header indices count saw_phdr saw_stack
      else if header_type =? PT_PHDR then
        reject_if! saw_phdr with DuplicateProgramHeaderType PT_PHDR;;
        let! _ := validate_phdr_header ph header (as_u16 index) (len image) in
        count_segments image header indices count true saw_stack
      else if header_type =? PT_GNU_STACK then
        reject_if! saw_stack with DuplicateProgramHeaderType PT_GNU_STACK;;
        let! _ := validate_stack_header ph (as_u16 index) in
        count_segments image header indices count saw_phdr true
      else Err (UnsupportedProgramHeaderType (as_u16 index) header_type)
  end.

(** [0..header.program_count] *)
Definition header_indices (header : Header) : list Z := seqZ 0 (program_count header).

Definition required_segment_count (image : list Z) : res ElfError Z :=
  let! header := parse_header image in
  let! count := count_segments image header (header_indices header) 0 false false in
  reject_if! count =? 0 with MissingProgramHeaders;;
  Ok count.

(** [output[len] = segment] *)
Definition store (output : list LoadSegment) (at_ : Z) (segment : LoadSegment)
    : res ElfError (list LoadSegment) := or_panic (put_range output at_ [segment]).

(** The loop of [plan]: the output, how much of it is used, and the bytes mapped. *)
Fixpoint collect_segments (image : list Z) (header : Header) (indices : list Z)
    (output : list LoadSegment) (used mapped_bytes : Z)
    : res ElfError (list LoadSegment * Z * Z) :=
  match indices with
  | [] => Ok (output, used, mapped_bytes)
  | index :: indices =>
      let! ph := program_header image header index in
      let! header_type := get_u32 ph 0 in
      if negb (header_type =? PT_LOAD) then
        collect_segments image header indices output used mapped_bytes
      else
      let! segment := parse_load_segment image ph (as_u16 index) in
      let! mapped_bytes :=
        ok_or MappedImageLimit (checked_add_u64 mapped_bytes (mapping_size segment)) in
      reject_if! mapped_bytes >? MAX_MAPPED_IMAGE_BYTES with MappedImageLimit;;
      let! output := store output used segment in
      collect_segments image header indices output (used + 1) mapped_bytes
  end.

(** The order of the sort key [(segment.mapping_start, segment.header_index)]. *)
Definition segment_le (x y : LoadSegment) : Prop :=
  mapping_start x < mapping_start y \/
  (mapping_start x = mapping_start y /\ header_index x <= header_index y).
#[global] Instance segment_le_dec : RelDecision segment_le.
Proof. unfold segment_le. intros x y. apply _. Defined.

(** [iter().any] with the test of [plan]: it stops at the first hit. *)
Fixpoint any_executable_holds (entry : Z) (segments : list LoadSegment) : res ElfError bool :=
  match segments with
  | [] => Ok false
  | segment :: segments =>
      if bool_decide (protection segment = ReadExecute) && (entry >=? virtual_address segment) then
        let! end_ := memory_end segment in
        if entry <? end_ then Ok true else any_executable_holds entry segments
      else any_executable_holds entry segments
  end.

(** [plan]: with the load plan, what the caller's slice holds afterwards.  The
    keys of [sort_unstable_by_key] are distinct, so its result is that of any
    sort. *)
Definition plan (image : list Z) (output : list LoadSegment)
    : res ElfError (ElfLoadPlan * list LoadSegment) :=
  let! required := required_segment_count image in
  reject_if! len output <? required with OutputTooSmall required (len output);;
  let! header := parse_header image in
  let! '(output, used, mapped_bytes) :=
    collect_segments image header (header_indices header) output 0 0 in
  let! prefix := or_panic (get_range output 0 used) in
  let sorted := merge_sort segment_le prefix in
  let! output := or_panic (put_range output 0 sorted) in
  let! _ := validate_nonoverlap sorted in
  reject_if! h_entry header =? 0 with ZeroEntryPoint;;
  let! found := any_executable_holds (h_entry header) sorted in
  reject_if! negb found with EntryPointOutsideExecutableSegment;;
  Ok (mkPlan (h_entry header) sorted mapped_bytes, output).

End Elf.
