(* ===== verification/ElfThms.v ===== *)
(** * The ELF planner is safe and its plans are sound

    [plan] answers without a panic on every image; a plan it returns places the
    image's loadable segments on pairwise disjoint page ranges of the user
    address space, away from the initial stack and its guard page. *)

From stdpp Require Import base tactics option list list_numbers sorting.
From Stdlib Require Import ZArith Lia.
From S2P Require Import Prelude Bytes Elf.
Import Elf.

(** ** Pages and powers of two *)

Definition page_floor (v : Z) : Z := v / PAGE_SIZE * PAGE_SIZE.
Definition page_ceil (v : Z) : Z := (v + (PAGE_SIZE - 1)) / PAGE_SIZE * PAGE_SIZE.

Lemma land_not_mask v k : 0 <= k -> Z.land v (Z.lnot (2 ^ k - 1)) = v / 2 ^ k * 2 ^ k.
Proof.
  intros Hk. rewrite <-Z.ldiff_land. replace (2 ^ k - 1) with (Z.ones k) by (rewrite Z.ones_equiv; lia).
  by rewrite Z.ldiff_ones_r, Z.shiftr_div_pow2, Z.shiftl_mul_pow2 by lia.
Qed.

Lemma page_floor_spec v : Z.land v (Z.lnot (PAGE_SIZE - 1)) = page_floor v.
Proof. exact (land_not_mask v 12 ltac:(lia)). Qed.

Lemma page_floor_bounds v : page_floor v <= v < page_floor v + PAGE_SIZE.
Proof.
  unfold page_floor, PAGE_SIZE. pose proof (Z.div_mod v 4096 ltac:(lia)).
  pose proof (Z.mod_pos_bound v 4096 ltac:(lia)). lia.
Qed.

Lemma page_ceil_bounds v : v <= page_ceil v < v + PAGE_SIZE.
Proof.
  unfold page_ceil, PAGE_SIZE. change (4096 - 1) with 4095. pose proof (Z.div_mod (v + 4095) 4096 ltac:(lia)).
  pose proof (Z.mod_pos_bound (v + 4095) 4096 ltac:(lia)). lia.
Qed.

Lemma align_up_page v r :
  align_up v PAGE_SIZE = Ok r ->
  r = if v + (PAGE_SIZE - 1) <? 2 ^ 64 then Some (page_ceil v) else None.
Proof.
  unfold align_up. cbn. intros [= <-]. unfold checked_add_u64, checked_add.
  change (v + 4095 <? 2 ^ 64) with (v + (PAGE_SIZE - 1) <? 2 ^ 64).
  destruct (_ <? _); [|done]. simpl. f_equal. exact (page_floor_spec (v + 4095)).
Qed.

Lemma is_power_of_two_spec v : is_power_of_two v = true -> exists k, 0 <= k /\ v = 2 ^ k.
Proof.
  unfold is_power_of_two. intros [Hv%Z.ltb_lt Hl%Z.eqb_eq]%andb_true_iff.
  exists (Z.log2 v). split; [apply Z.log2_nonneg|].
  destruct (Z.log2_spec v Hv) as [Hlo Hhi]. destruct (Z.eq_dec v (2 ^ Z.log2 v)) as [|Hne]; [done|].
  assert (Z.log2 (v - 1) = Z.log2 v) as Hlog by (apply Z.log2_unique; [apply Z.log2_nonneg|lia]).
  assert (0 < 2 ^ Z.log2 v) by (apply Z.pow_pos_nonneg; [lia|apply Z.log2_nonneg]).
  assert (Z.testbit (Z.land v (v - 1)) (Z.log2 v) = true) as Hbit.
  { rewrite Z.land_spec, (Z.bit_log2 v) by lia. rewrite <-Hlog, Z.bit_log2 by lia. done. }
  by rewrite Hl, Z.bits_0 in Hbit.
Qed.

(** Agreement below a power of two at least the page size is agreement below
    the page size. *)
Lemma same_page_offset a b v :
  is_power_of_two v = true -> PAGE_SIZE <= v -> Z.land a (v - 1) = Z.land b (v - 1) ->
  a mod PAGE_SIZE = b mod PAGE_SIZE.
Proof.
  intros (k & Hk & ->)%is_power_of_two_spec Hp H.
  replace (2 ^ k - 1) with (Z.ones k) in H by (rewrite Z.ones_equiv; lia).
  rewrite !Z.land_ones in H by lia.
  assert (12 <= k) as Hk12.
  { apply Z.nlt_ge. intros Hlt. pose proof (Z.pow_le_mono_r 2 k 11 ltac:(lia) ltac:(lia)).
    unfold PAGE_SIZE in Hp. lia. }
  assert (forall x, x mod PAGE_SIZE = (x mod 2 ^ k) mod PAGE_SIZE) as Hmod.
  { intros x. apply Znumtheory.Zmod_div_mod; [done|lia|].
    exists (2 ^ (k - 12)). change PAGE_SIZE with (2 ^ 12). rewrite <-Z.pow_add_r by lia. f_equal. lia. }
  rewrite (Hmod a), (Hmod b), H. done.
Qed.

(** ** Fields *)

Lemma get_u64_range bs o v : bytes_ok bs -> get_u64 bs o = Ok v -> 0 <= v < 2 ^ 64.
Proof. intros Hok H. apply or_panic_Ok in H. by apply (get_le_bound 8 bs o). Qed.

Lemma get_u32_range bs o v : bytes_ok bs -> get_u32 bs o = Ok v -> 0 <= v < 2 ^ 32.
Proof. intros Hok H. apply or_panic_Ok in H. by apply (get_le_bound 4 bs o). Qed.

Lemma get_u16_range bs o v : bytes_ok bs -> get_u16 bs o = Ok v -> 0 <= v < 2 ^ 16.
Proof. intros Hok H. apply or_panic_Ok in H. by apply (get_le_bound 2 bs o). Qed.

(** ** The file header *)

Lemma elf_header_spec image h :
  bytes_ok image -> parse_header image = Ok h ->
  0 < program_count h <= MAX_PROGRAM_HEADERS /\ ELF_HEADER_BYTES <= program_offset h /\
  program_offset h + PROGRAM_HEADER_BYTES * program_count h <= len image <= MAX_ELF_BYTES /\
  0 <= h_entry h < 2 ^ 64.
Proof.
  intros Hok H. unfold parse_header in H. res_inv.
  repeat match goal with
  | H : checked_add_u64 _ _ = Some _ |- _ => apply checked_add_Some in H as [-> ?]
  | H : checked_mul_u64 _ _ = Some _ |- _ => apply checked_mul_Some in H as [-> ?]
  | H : get_range image _ _ = Some ?b |- _ => assert (bytes_ok b) by (by eapply bytes_ok_get_range); clear H
  | H : get_u64 _ _ = Ok _ |- _ => apply get_u64_range in H; [|done]
  | H : get_u16 _ 56 = Ok _ |- _ => apply get_u16_range in H; [|done]
  end. subst h. simpl. unfold PROGRAM_HEADER_BYTES in *. lia.
Qed.

Lemma elf_header_np image : parse_header image <> Panic.
Proof.
  unfold parse_header, ELF_HEADER_BYTES, get_u16, get_u32, get_u64.
  repeat (no_panic_step || match goal with
    | |- or_panic (get_at _ _) <> Panic => apply or_panic_not_panic, get_at_is_Some end).
  all: repeat match goal with
    | H : ok_or _ (get_range _ _ _) = Ok _ |- _ => apply ok_or_Ok, length_get_range in H end.
  all: simpl; lia.
Qed.

Lemma program_header_spec image h index ph :
  bytes_ok image -> program_header image h index = Ok ph -> bytes_ok ph /\ len ph = PROGRAM_HEADER_BYTES.
Proof.
  intros Hok H. unfold program_header in H. res_inv. apply plus_Ok in H2 as [-> _].
  split; [by eapply bytes_ok_get_range|]. apply length_get_range in H. lia.
Qed.

Lemma program_header_np image h index :
  parse_header image = Ok h -> bytes_ok image -> 0 <= index < program_count h ->
  program_header image h index <> Panic.
Proof.
  intros Hh Hok Hi. destruct (elf_header_spec image h Hok Hh) as (? & ? & ? & ?).
  unfold program_header. no_panic. apply ok_or_Ok, checked_mul_Some in H3 as [-> _].
  apply ok_or_Ok, checked_add_Some in H4 as [-> _]. apply plus_np.
  unfold PROGRAM_HEADER_BYTES, MAX_ELF_BYTES in *. lia.
Qed.

(** ** One segment *)

Definition prot_flags (p : SegmentProtection) : Z :=
  match p with Read => PF_R | ReadWrite => PF_RW | ReadExecute => PF_RX end.

(** [s] carries the fields of the program header [ph]. *)
Definition describes (ph : list Z) (s : LoadSegment) : Prop :=
  get_u32 ph 4 = Ok (prot_flags (protection s)) /\ get_u64 ph 8 = Ok (file_offset s) /\
  get_u64 ph 16 = Ok (virtual_address s) /\ get_u64 ph 32 = Ok (file_size s) /\
  get_u64 ph 40 = Ok (memory_size s).

Definition map_end (s : LoadSegment) : Z := mapping_start s + mapping_size s.

(** [s] can be loaded: its bytes are in the image, it fills whole pages of the
    user address space and keeps off the stack and its guard. *)
Definition placed (image : list Z) (s : LoadSegment) : Prop :=
  0 <= file_offset s /\ 0 <= file_size s <= memory_size s /\ 0 < memory_size s /\
  file_offset s + file_size s <= len image /\
  mapping_start s = page_floor (virtual_address s) /\
  map_end s = page_ceil (virtual_address s + memory_size s) /\
  leading_bytes s = virtual_address s - mapping_start s /\
  file_offset s mod PAGE_SIZE = leading_bytes s /\
  PAGE_SIZE <= mapping_start s /\ map_end s <= USER_END_EXCLUSIVE /\
  (STACK_TOP <= mapping_start s \/ map_end s <= STACK_GUARD_START).

Lemma mod_floor v : v mod PAGE_SIZE = v - page_floor v.
Proof. unfold page_floor, PAGE_SIZE. pose proof (Z.div_mod v 4096 ltac:(lia)). lia. Qed.

Lemma parse_load_segment_spec image ph index s :
  bytes_ok ph -> parse_load_segment image ph index = Ok s ->
  header_index s = index /\ describes ph s /\ placed image s.
Proof.
  intros Hok H. unfold parse_load_segment in H. repeat res_step. bool_prop.
  repeat match goal with
  | H : checked_add_u64 _ _ = Some _ |- _ => apply checked_add_Some in H as [-> ?]
  | H : checked_sub _ _ = Some _ |- _ => apply checked_sub_Some in H as [-> ?]
  | H : minus _ _ = Ok _ |- _ => apply minus_Ok in H as [-> ?]
  | H : align_up _ _ = Ok _ |- _ => apply align_up_page in H; subst
  | H : get_u64 _ _ = Ok ?v |- _ =>
      lazymatch goal with _ : 0 <= v < _ |- _ => fail | _ => pose proof (get_u64_range _ _ _ Hok H) end
  | H : (if _ then Some _ else None) = Some _ |- _ => destruct (_ <? _) in H; [|done]; injection H as <-
  end.
  rewrite page_floor_spec in *. simpl. split; [done|].
  split.
  - unfold describes; simpl. split; [|done].
    repeat (destruct (_ =? _) eqn:? in H1; [bool_prop; injection H1 as <-; subst; done|]). done.
  - unfold placed, map_end; simpl.
    pose proof (page_floor_bounds a2). pose proof (page_ceil_bounds (a2 + a4)).
    split_conj; try done; try lia.
    rewrite <-mod_floor. eapply same_page_offset; [done|lia|done].
Qed.

Lemma placed_ends image s :
  placed image s -> virtual_address s + memory_size s <= map_end s /\ mapping_start s < map_end s /\
  virtual_address s + memory_size s < 2 ^ 64 /\ map_end s < 2 ^ 64 /\
  memory_end s = Ok (virtual_address s + memory_size s) /\ mapping_end s = Ok (map_end s).
Proof.
  intros (? & ? & ? & ? & Hs & He & ? & ? & ? & ? & ?).
  pose proof (page_floor_bounds (virtual_address s)).
  pose proof (page_ceil_bounds (virtual_address s + memory_size s)).
  assert (USER_END_EXCLUSIVE < 2 ^ 64) by done.
  split_conj; try lia; apply plus_Ok; fold (map_end s); lia.
Qed.

Lemma parse_load_segment_np image ph index :
  bytes_ok ph -> len ph = PROGRAM_HEADER_BYTES -> parse_load_segment image ph index <> Panic.
Proof.
  unfold PROGRAM_HEADER_BYTES. intros Hok Hlen. unfold parse_load_segment.
  repeat (no_panic_step || match goal with
    | |- get_u64 _ _ <> Panic => unfold get_u64
    | |- get_u32 _ _ <> Panic => unfold get_u32
    | |- minus _ _ <> Panic => apply minus_np end); try lia.
  - bool_prop. unfold PAGE_SIZE in *. lia.
  - unfold align_up. done.
  - rewrite page_floor_spec. apply page_floor_bounds.
Qed.

(** ** The program header table *)

(** The type field of header [index]. *)
Definition type_of (image : list Z) (h : Header) (index : Z) : option Z :=
  match program_header image h index with
  | Ok ph => match get_u32 ph 0 with Ok t => Some t | _ => None end
  | _ => None
  end.
Definition is_load (image : list Z) (h : Header) (index : Z) : bool :=
  bool_decide (type_of image h index = Some PT_LOAD).

(** [s] is what the planner made of the loadable header [index]. *)
Definition loads (image : list Z) (h : Header) (index : Z) (s : LoadSegment) : Prop :=
  exists ph, program_header image h index = Ok ph /\ header_index s = as_u16 index /\
    describes ph s /\ placed image s.

Definition total_mapping (ss : list LoadSegment) : Z := foldr Z.add 0 (mapping_size <$> ss).

Lemma type_of_spec image h index ph t :
  program_header image h index = Ok ph -> get_u32 ph 0 = Ok t -> type_of image h index = Some t.
Proof. intros H1 H2. unfold type_of. by rewrite H1, H2. Qed.

(** An accepted table: at most eight loadable headers, and nothing else but one
    optional [PT_PHDR] and one optional [PT_GNU_STACK]. *)
Lemma count_segments_spec image h : forall indices count p s n,
  count_segments image h indices count p s = Ok n ->
  n = count + len (List.filter (is_load image h) indices) /\ (count <= MAX_LOAD_SEGMENTS -> n <= MAX_LOAD_SEGMENTS) /\
  Forall (fun i => exists t, type_of image h i = Some t /\ (t = PT_LOAD \/ t = PT_PHDR \/ t = PT_GNU_STACK)) indices.
Proof.
  induction indices as [|i indices IH]; intros count p s n H; cbn [count_segments] in H.
  { injection H as ->. simpl. split_conj; [lia|done|constructor]. }
  repeat res_step. pose proof (type_of_spec _ _ _ _ _ H0 H1) as Ht.
  cbn [List.filter]. unfold is_load at 1. rewrite Ht.
  destruct (Z.eqb_spec a0 PT_LOAD) as [->|Hn1].
  { rewrite bool_decide_eq_true_2 by done. res_inv. apply IH in H as (-> & Hle & HF).
    cbn [length]. split_conj; [lia|intros; apply Hle; lia|constructor; eauto]. }
  rewrite bool_decide_eq_false_2 by (intros [= ->]; done).
  destruct (Z.eqb_spec a0 PT_PHDR) as [->|Hn2].
  { res_inv. apply IH in H as (? & ? & ?). split_conj; [done|done|constructor; eauto]. }
  destruct (Z.eqb_spec a0 PT_GNU_STACK) as [->|]; [|done].
  res_inv. apply IH in H as (? & ? & ?). split_conj; [done|done|constructor; eauto].
Qed.

Lemma put_one {A} (l l' : list A) k x :
  put_range l k [x] = Some l' -> 0 <= k /\ k < len l /\
  l' = take (Z.to_nat k) l ++ x :: drop (S (Z.to_nat k)) l.
Proof.
  intros H. apply put_range_Some in H as (? & ? & ->). simpl in *.
  split_conj; [lia|lia|]. repeat f_equal. lia.
Qed.

Lemma collect_segments_spec image h : forall indices output used mapped output' used' mapped',
  bytes_ok image -> 0 <= used <= len output ->
  collect_segments image h indices output used mapped = Ok (output', used', mapped') ->
  exists ss, Forall2 (loads image h) (List.filter (is_load image h) indices) ss /\
    take (Z.to_nat used') output' = take (Z.to_nat used) output ++ ss /\
    length output' = length output /\ used' = used + len ss /\ used' <= len output' /\
    mapped' = mapped + total_mapping ss /\
    (mapped <= MAX_MAPPED_IMAGE_BYTES -> mapped' <= MAX_MAPPED_IMAGE_BYTES).
Proof.
  induction indices as [|i indices IH]; intros output used mapped output' used' mapped' Hok Hu H;
    cbn [collect_segments] in H.
  { injection H as -> -> ->. exists []. cbn. rewrite app_nil_r. split_conj; try done; try lia. }
  repeat res_step. pose proof (type_of_spec _ _ _ _ _ H0 H1) as Ht.
  cbn [List.filter]. unfold is_load at 1. rewrite Ht.
  destruct (Z.eqb_spec a0 PT_LOAD) as [->|Hn1]; cbn [negb] in H.
  2:{ rewrite bool_decide_eq_false_2 by (intros [= ->]; done). by apply IH in H. }
  rewrite bool_decide_eq_true_2 by done. res_inv.
  apply checked_add_Some in H3 as [-> _]. unfold store in H4. apply or_panic_Ok, put_one in H4 as (? & ? & ->).
  destruct (program_header_spec _ _ _ _ Hok H0) as [Hph _].
  apply parse_load_segment_spec in H2 as (? & ? & ?); [|done].
  apply IH in H as (ss & HF & Htake & Hlen & -> & Hle & -> & Hmax); [|done|].
  2:{ rewrite length_app. simpl. rewrite length_take, length_drop. lia. }
  exists (a0 :: ss). unfold total_mapping. cbn [fmap list_fmap foldr length].
  split_conj.
  - constructor; [|done]. exists a. done.
  - rewrite Htake. rewrite take_app_ge by (rewrite length_take; lia).
    rewrite length_take, Nat.min_l by lia.
    replace (Z.to_nat (used + 1) - Z.to_nat used)%nat with 1%nat by lia. simpl. by rewrite <-app_assoc.
  - rewrite Hlen, length_app. simpl. rewrite length_take, length_drop. lia.
  - lia.
  - lia.
  - unfold total_mapping. lia.
  - intros. apply Hmax. lia.
Qed.

(** ** Order and overlap *)

Definition before (s1 s2 : LoadSegment) : Prop := map_end s1 <= mapping_start s2.

Lemma validate_nonoverlap_spec image ss :
  Forall (placed image) ss ->
  validate_nonoverlap ss <> Panic /\ (validate_nonoverlap ss = Ok tt -> StronglySorted before ss).
Proof.
  intros Hall. induction Hall as [|s1 ss Hs1 Hss IH]; [split; [done|constructor]|].
  destruct ss as [|s2 ss]; [split; [done|repeat constructor]|].
  destruct IH as [IHnp IHs]. destruct (placed_ends _ _ Hs1) as (? & ? & ? & ? & Hm1 & Hm2).
  cbn [validate_nonoverlap]. rewrite Hm1, Hm2. cbn [res_bind].
  destruct (Z.ltb_spec (virtual_address s2) (virtual_address s1 + memory_size s1)); [done|].
  destruct (Z.ltb_spec (mapping_start s2) (map_end s1)); [done|].
  split; [done|]. intros HS%IHs. constructor; [done|]. constructor; [done|].
  apply StronglySorted_inv in HS as [_ HF]. eapply Forall_impl; [exact HF|]. unfold before. intros s3 ?.
  apply Forall_inv, placed_ends in Hss. lia.
Qed.

(** The entry lies in the bytes an executable segment loads. *)
Definition executable_at (entry : Z) (s : LoadSegment) : Prop :=
  protection s = ReadExecute /\ virtual_address s <= entry < virtual_address s + memory_size s.

Lemma any_executable_holds_spec image entry ss :
  Forall (placed image) ss ->
  exists b, any_executable_holds entry ss = Ok b /\ (b = true <-> Exists (executable_at entry) ss).
Proof.
  intros Hall. induction Hall as [|s ss Hs Hss (b & Hb & IH)]; cbn [any_executable_holds].
  { exists false. split; [done|]. split; [done|]. by intros ?%Exists_nil. }
  destruct (placed_ends _ _ Hs) as (_ & _ & _ & _ & -> & _). rewrite Hb. cbn [res_bind].
  assert (forall P : Prop, (P <-> executable_at entry s \/ Exists (executable_at entry) ss) ->
          P <-> Exists (executable_at entry) (s :: ss)) as Hc by (intros P ->; by rewrite Exists_cons).
  destruct (bool_decide (protection s = ReadExecute)) eqn:E1; bool_prop;
    destruct (Z.geb_spec entry (virtual_address s)); cbn [andb];
    try destruct (Z.ltb_spec entry (virtual_address s + memory_size s));
    (eexists; split; [done|]; apply Hc; rewrite ?IH; unfold executable_at; split; [auto|]; 
     intros [?|?]; [|done]; naive_solver lia).
Qed.

#[global] Instance segment_le_total : Total segment_le.
Proof. intros x y. unfold segment_le. lia. Qed.
#[global] Instance segment_le_trans : Transitive segment_le.
Proof. intros x y z. unfold segment_le. lia. Qed.

Lemma total_mapping_perm ss ss' : ss ≡ₚ ss' -> total_mapping ss = total_mapping ss'.
Proof. unfold total_mapping. induction 1; cbn [fmap list_fmap foldr]; lia. Qed.

Lemma loads_placed image h indices ss :
  Forall2 (loads image h) indices ss -> Forall (placed image) ss.
Proof. induction 1 as [|? ? ? ? (? & ? & ? & ? & ?)]; constructor; done. Qed.

Lemma required_segment_count_spec image n :
  required_segment_count image = Ok n ->
  exists h, parse_header image = Ok h /\
    n = len (List.filter (is_load image h) (header_indices h)) /\ 0 < n <= MAX_LOAD_SEGMENTS /\
    Forall (fun i => exists t, type_of image h i = Some t /\
      (t = PT_LOAD \/ t = PT_PHDR \/ t = PT_GNU_STACK)) (header_indices h).
Proof.
  unfold required_segment_count. intros H. res_inv.
  apply count_segments_spec in H1 as (? & Hle & ?). exists a. assert (0 <= MAX_LOAD_SEGMENTS) by done.
  subst. split_conj; try done; lia.
Qed.

Lemma plan_sound image output p output' :
  bytes_ok image -> plan image output = Ok (p, output') ->
  exists h ss, parse_header image = Ok h /\ entry p = h_entry h /\ entry p <> 0 /\
    Forall2 (loads image h) (List.filter (is_load image h) (header_indices h)) ss /\
    segments p ≡ₚ ss /\ StronglySorted before (segments p) /\
    0 < len (segments p) <= MAX_LOAD_SEGMENTS /\
    mapped_bytes p = total_mapping (segments p) /\ mapped_bytes p <= MAX_MAPPED_IMAGE_BYTES /\
    Exists (executable_at (entry p)) (segments p) /\
    length output' = length output /\ take (length (segments p)) output' = segments p.
Proof.
  intros Hok H. unfold plan in H. apply res_bind_Ok in H as (n & Hn & H).
  apply required_segment_count_spec in Hn as (h & Hh & -> & Hcount & _).
  res_step. rewrite Hh in H. cbn [res_bind] in H.
  apply res_bind_Ok in H as ([[out used] mapped] & Hcol & H).
  apply collect_segments_spec in Hcol as (ss & HF & Htake & Hlen & -> & Hle & -> & Hmax); [|done|lia].
  pose proof (Forall2_length _ _ _ HF) as Hlss.
  assert (get_range out 0 (0 + len ss) = Some ss) as Hg.
  { apply get_range_Some. split_conj; try lia. simpl in *. by rewrite Z.sub_0_r, drop_0. }
  cbv beta iota in H. rewrite Hg in H. cbn [or_panic res_bind] in H.
  pose proof (merge_sort_Permutation segment_le ss) as HP. set (sorted := merge_sort segment_le ss) in *.
  assert (Forall (placed image) sorted) as Hpl by (rewrite HP; by eapply loads_placed).
  apply res_bind_Ok in H as (out' & Hput & H). apply or_panic_Ok in Hput.
  apply res_bind_Ok in H as ([] & Hval & H). res_step.
  destruct (any_executable_holds_spec image (h_entry h) sorted Hpl) as (b & Hb & Hex).
  rewrite Hb in H. cbn [res_bind] in H. res_inv. subst p output'. cbn [entry segments mapped_bytes].
  assert (length sorted = length ss) as Hls by (by rewrite HP).
  pose proof (total_mapping_perm _ _ HP). pose proof (Forall2_length _ _ _ HF).
  exists h, ss. split_conj; try done; try lia.
  - by apply (validate_nonoverlap_spec image).
  - apply Hmax. done.
  - by apply Hex.
  - apply length_put_range in Hput. lia.
  - apply put_range_Some in Hput as (? & ? & ->). simpl. by rewrite take_app_length.
Qed.

(** C3: a plan the loader accepts is sound.  Its segments are exactly the
    loadable headers of the image, each with the offsets, sizes and permissions
    the header names (never writable and executable at once), its file bytes
    inside the image, on whole pages within the user address space that avoid
    the initial stack and its guard page.  They are at most eight, sorted, on
    pairwise disjoint page ranges of at most 32 MiB in total, and the entry
    point is inside an executable one. *)
Theorem elf_plan_sound image output p output' :
  bytes_ok image -> plan image output = Ok (p, output') ->
  exists h ss, parse_header image = Ok h /\ entry p = h_entry h /\ entry p <> 0 /\
    Forall2 (loads image h) (List.filter (is_load image h) (header_indices h)) ss /\
    segments p ≡ₚ ss /\ StronglySorted before (segments p) /\
    0 < len (segments p) <= MAX_LOAD_SEGMENTS /\
    mapped_bytes p = total_mapping (segments p) /\ mapped_bytes p <= MAX_MAPPED_IMAGE_BYTES /\
    Exists (executable_at (entry p)) (segments p) /\
    length output' = length output /\ take (length (segments p)) output' = segments p.
Proof. apply plan_sound. Qed.

(** ** Hostile images *)

Lemma differs_np ph offset value rest :
  0 <= offset -> offset + 8 <= len ph -> rest <> Panic -> differs ph offset value rest <> Panic.
Proof.
  intros. unfold differs, get_u64. no_panic; [lia|]. by destruct (negb _).
Qed.

Lemma validate_stack_header_np ph index :
  len ph = PROGRAM_HEADER_BYTES -> validate_stack_header ph index <> Panic.
Proof.
  unfold PROGRAM_HEADER_BYTES. intros. unfold validate_stack_header, get_u32. no_panic; [lia|].
  repeat (apply differs_np; [lia|lia|]). done.
Qed.

Lemma validate_phdr_header_np ph h index n :
  len ph = PROGRAM_HEADER_BYTES -> 0 <= program_count h <= MAX_PROGRAM_HEADERS ->
  validate_phdr_header ph h index n <> Panic.
Proof.
  unfold PROGRAM_HEADER_BYTES, MAX_PROGRAM_HEADERS. intros.
  unfold validate_phdr_header, get_u32, PROGRAM_HEADER_BYTES.
  rewrite checked_mul_u64_ok by lia. cbn [or_panic res_bind]. no_panic; [lia|].
  repeat (apply differs_np; [lia|lia|]). done.
Qed.

Lemma count_segments_np image h : forall indices count p s,
  bytes_ok image -> parse_header image = Ok h -> Forall (fun i => 0 <= i < program_count h) indices ->
  count_segments image h indices count p s <> Panic.
Proof.
  intros indices count p s Hok Hh. destruct (elf_header_spec image h Hok Hh) as (? & _).
  revert count p s. induction indices as [|i indices IH]; intros count p s Hi; cbn [count_segments]; [done|].
  apply Forall_cons in Hi as [Hi His].
  apply res_bind_not_panic; [by apply program_header_np|]. intros ph Hph.
  destruct (program_header_spec _ _ _ _ Hok Hph) as [_ Hl].
  apply res_bind_not_panic; [unfold get_u32; no_panic; unfold PROGRAM_HEADER_BYTES in *; lia|].
  intros t _. no_panic; auto using validate_stack_header_np.
  apply validate_phdr_header_np; [done|lia].
Qed.

Lemma collect_segments_np image h : forall indices output used mapped,
  bytes_ok image -> parse_header image = Ok h -> Forall (fun i => 0 <= i < program_count h) indices ->
  0 <= used -> used + len (List.filter (is_load image h) indices) <= len output ->
  collect_segments image h indices output used mapped <> Panic.
Proof.
  induction indices as [|i indices IH]; intros output used mapped Hok Hh Hi Hu Hroom;
    cbn [collect_segments]; [done|]. apply Forall_cons in Hi as [Hi His].
  apply res_bind_not_panic; [by apply program_header_np|]. intros ph Hph.
  destruct (program_header_spec _ _ _ _ Hok Hph) as [Hphok Hl].
  apply res_bind_not_panic; [unfold get_u32; no_panic; unfold PROGRAM_HEADER_BYTES in *; lia|].
  intros t Ht. pose proof (type_of_spec _ _ _ _ _ Hph Ht) as Htype.
  cbn [List.filter] in Hroom. unfold is_load at 1 in Hroom. rewrite Htype in Hroom.
  destruct (Z.eqb_spec t PT_LOAD) as [->|Hne]; cbn [negb].
  - rewrite bool_decide_eq_true_2 in Hroom by done. cbn [length] in Hroom.
    no_panic; [by apply parse_load_segment_np| |].
    + unfold store. apply or_panic_not_panic, put_range_is_Some. simpl. lia.
    + apply IH; try done; [lia|]. unfold store in H1. apply or_panic_Ok, length_put_range in H1. lia.
  - rewrite bool_decide_eq_false_2 in Hroom by (intros [= ->]; done). by apply IH.
Qed.

Lemma header_indices_range h : Forall (fun i => 0 <= i < program_count h) (header_indices h).
Proof. apply Forall_forall. intros i Hi%elem_of_seqZ. lia. Qed.

Lemma required_segment_count_np image : bytes_ok image -> required_segment_count image <> Panic.
Proof.
  intros Hok. unfold required_segment_count. apply res_bind_not_panic; [apply elf_header_np|]. intros h Hh.
  no_panic. apply count_segments_np; [done..|]. apply header_indices_range.
Qed.

Lemma plan_np image output : bytes_ok image -> plan image output <> Panic.
Proof.
  intros Hok. unfold plan.
  apply res_bind_not_panic; [by apply required_segment_count_np|]. intros n Hn.
  apply required_segment_count_spec in Hn as (h & Hh & -> & _ & _).
  destruct (Z.ltb_spec (len output) (len (List.filter (is_load image h) (header_indices h)))); [done|].
  rewrite Hh. cbn [res_bind]. apply res_bind_not_panic.
  { apply collect_segments_np; try done. apply header_indices_range. }
  intros [[out used] mapped] Hcol.
  apply collect_segments_spec in Hcol as (ss & HF & Htake & _ & -> & Hle & _); [|done|lia].
  assert (get_range out 0 (0 + len ss) = Some ss) as ->.
  { apply get_range_Some. split_conj; try lia. simpl in *. by rewrite Z.sub_0_r, drop_0. }
  cbn [or_panic res_bind].
  pose proof (merge_sort_Permutation segment_le ss) as HP. set (sorted := merge_sort segment_le ss) in *.
  assert (Forall (placed image) sorted) as Hpl by (rewrite HP; by eapply loads_placed).
  assert (length sorted = length ss) as Hls by (by rewrite HP).
  destruct (validate_nonoverlap_spec image sorted Hpl) as [Hval _].
  destruct (any_executable_holds_spec image (h_entry h) sorted Hpl) as (b & Hb & _).
  rewrite Hb. no_panic; [|done..]. apply or_panic_not_panic, put_range_is_Some. lia.
Qed.

(** the planner answers on every image, however malformed: no index is out
    of range and no unchecked addition or subtraction leaves its type.  The
    number of segments it asks room for is between one and eight. *)
Theorem elf_plan_total image output :
  bytes_ok image ->
  plan image output <> Panic /\ required_segment_count image <> Panic /\
  forall n, required_segment_count image = Ok n -> 0 < n <= MAX_LOAD_SEGMENTS.
Proof.
  intros Hok. split_conj; [by apply plan_np|by apply required_segment_count_np|].
  by intros n (h & _ & _ & ? & _)%required_segment_count_spec.
Qed.

(** ** Witnesses *)

(** An executable of one read-only and one executable page, entered at its
    second byte. *)
Definition sample_phdr (flags offset vaddr filesz memsz : Z) : list Z :=
  to_le 4 PT_LOAD ++ to_le 4 flags ++ to_le 8 offset ++ to_le 8 vaddr ++ to_le 8 0
  ++ to_le 8 filesz ++ to_le 8 memsz ++ to_le 8 4096.
Definition sample_image : list Z :=
  ELF_MAGIC ++ [2; 1; 1] ++ replicate 9 0 ++ to_le 2 ET_EXEC ++ to_le 2 EM_X86_64 ++ to_le 4 1
  ++ to_le 8 0x400001 ++ to_le 8 64 ++ replicate 12 0 ++ to_le 2 64 ++ to_le 2 56 ++ to_le 2 2
  ++ replicate 6 0 ++ sample_phdr PF_RX 0 0x400000 176 176 ++ sample_phdr PF_R 64 0x200040 112 8192.
Definition sample_slot : LoadSegment := mkSegment 0 0 0 0 0 0 0 0 Read.
Definition sample_output : list LoadSegment := replicate 8 sample_slot.
Definition sample_plan : ElfLoadPlan :=
  mkPlan 0x400001
    [mkSegment 1 64 112 8192 0x200040 0x200000 12288 64 Read;
     mkSegment 0 0 176 176 0x400000 0x400000 4096 0 ReadExecute] 16384.
Definition sample_output' : list LoadSegment := segments sample_plan ++ replicate 6 sample_slot.

Lemma elf_plan_sound_witness :
  plan sample_image sample_output = Ok (sample_plan, sample_output') /\
  StronglySorted before (segments sample_plan).
Proof.
  assert (plan sample_image sample_output = Ok (sample_plan, sample_output')) as H by (vm_compute; reflexivity).
  split; [done|]. assert (bytes_ok sample_image) as Hok by (by apply (bool_decide_unpack _)).
  destruct (elf_plan_sound sample_image sample_output sample_plan sample_output' Hok H)
    as (h & ss & _ & _ & _ & _ & _ & Hs & _). done.
Defined.

Lemma elf_plan_total_witness :
  bytes_ok sample_image /\ plan sample_image [] <> Panic.
Proof.
  assert (bytes_ok sample_image) as Hok by (by apply (bool_decide_unpack _)).
  split; [done|]. apply (elf_plan_total sample_image [] Hok).
Defined.
