(* ===== verification/Startup.v ===== *)
(** * The native startup block (crates/wyrmroot-runtime/src/startup.rs)

    The parser a launched process runs on the block of argument, environment
    and auxiliary vectors at its initial stack pointer.  Loops over the block
    run on fuel, and running out of it is [Panic]; so is an index out of range,
    a failed [expect] or an unchecked addition or subtraction that overflows. *)

From stdpp Require Import base tactics option list list_numbers.
From Stdlib Require Import ZArith Lia.
From S2P Require Import Prelude Bytes Utf8.

Module Startup.

Definition STARTUP_ABI_V1 : Z := 1.
Definition STARTUP_ABI_V2 : Z := 2.
Definition STARTUP_BLOCK_SIZE : Z := 4096.
Definition STARTUP_BLOCK_V2_SIZE : Z := 20 * 1024.
Definition AUXILIARY_VECTOR_TERMINATOR : Z * Z := (0, 0).
Definition WORD_SIZE : Z := 8.

Record StartupRegisters := mkRegisters { startup_argument0 : Z; startup_argument1 : Z }.

Record StartupBlock := mkBlock {
  bytes : list Z; address : Z; version : Z; bootstrap_channel : Z; argv_offset : Z; argc : Z;
  envp_offset : Z; envc : Z; auxv_offset : Z; auxc : Z }.

Inductive StartupError :=
| UnsupportedVersion | InvalidBootstrapChannelHandle | MisalignedStack | WrongBlockSize
| AddressOverflow | VectorOverflow | MissingVectorTerminator | MissingAuxiliaryTerminator
| StringPointerOutOfRange | UnterminatedString | InvalidUtf8 | ArgumentLimit | EnvironmentLimit
| StringBytesExceeded | NoncanonicalStringLayout | InvalidEnvironment | DuplicateEnvironment.

Definition startup_error_exit_code (error : StartupError) : Z :=
  Z.lor 0x57000000
    match error with
    | UnsupportedVersion => 1 | InvalidBootstrapChannelHandle => 2 | MisalignedStack => 3
    | WrongBlockSize => 4 | AddressOverflow => 5 | VectorOverflow => 6
    | MissingVectorTerminator => 7 | MissingAuxiliaryTerminator => 8
    | StringPointerOutOfRange => 9 | UnterminatedString => 10 | InvalidUtf8 => 11
    | ArgumentLimit => 12 | EnvironmentLimit => 13 | StringBytesExceeded => 14
    | NoncanonicalStringLayout => 15 | InvalidEnvironment => 16 | DuplicateEnvironment => 17
    end.

Definition startup_block_size (version : Z) : res StartupError Z :=
  match version with
  | 1 => Ok STARTUP_BLOCK_SIZE
  | 2 => Ok STARTUP_BLOCK_V2_SIZE
  | _ => Err UnsupportedVersion
  end.

Definition read_word (bytes : list Z) (offset : Z) : option Z :=
  match checked_add_u64 offset WORD_SIZE with
  | Some end_ => of_le <$> get_range bytes offset end_
  | None => None
  end.

Definition advance_words (offset count : Z) : option Z :=
  match checked_mul_u64 count WORD_SIZE with
  | Some size => checked_add_u64 offset size
  | None => None
  end.

Definition word_at (bytes : list Z) (offset index : Z) : res StartupError Z :=
  let! offset := ok_or VectorOverflow (advance_words offset index) in
  ok_or VectorOverflow (read_word bytes offset).

Definition require_word (bytes : list Z) (offset expected : Z) (error : StartupError)
    : res StartupError unit :=
  if bool_decide (read_word bytes offset = Some expected) then Ok tt else Err error.

(** [tail.iter().position(|byte| *byte == 0)] *)
Definition nul_position (tail : list Z) : option Z :=
  Z.of_nat <$> position (fun byte => byte =? 0) tail.

Definition validate_string (bytes : list Z) (start end_ pointer : Z) : res StartupError unit :=
  reject_if! (pointer <? start) || (pointer >=? end_) with StringPointerOutOfRange;;
  let! offset := minus pointer start in
  let! tail := or_panic (get_from bytes offset) in
  let! nul := ok_or UnterminatedString (nul_position tail) in
  let! text := or_panic (get_range tail 0 nul) in
  if is_utf8 text then Ok tt else Err InvalidUtf8.

Fixpoint scan_auxiliary_vector_loop (fuel : nat) (bytes : list Z) (count current : Z)
    : res StartupError Z :=
  match fuel with
  | O => Panic
  | S fuel =>
      let! kind := ok_or MissingAuxiliaryTerminator (read_word bytes current) in
      let! value_offset := ok_or VectorOverflow (checked_add_u64 current WORD_SIZE) in
      let! value := ok_or MissingAuxiliaryTerminator (read_word bytes value_offset) in
      if bool_decide ((kind, value) = AUXILIARY_VECTOR_TERMINATOR) then Ok count
      else
      let! count := ok_or VectorOverflow (checked_add_u64 count 1) in
      let! current := ok_or VectorOverflow (checked_add_u64 value_offset WORD_SIZE) in
      scan_auxiliary_vector_loop fuel bytes count current
  end.
Definition scan_auxiliary_vector (bytes : list Z) (offset : Z) : res StartupError Z :=
  scan_auxiliary_vector_loop (S (length bytes)) bytes 0 offset.

Fixpoint scan_null_terminated_vector_loop (fuel : nat) (bytes : list Z) (count current : Z)
    : res StartupError (Z * Z) :=
  match fuel with
  | O => Panic
  | S fuel =>
      let! word := ok_or MissingVectorTerminator (read_word bytes current) in
      if word =? 0 then
        let! after := ok_or VectorOverflow (checked_add_u64 current WORD_SIZE) in
        Ok (count, after)
      else
      let! count := ok_or VectorOverflow (checked_add_u64 count 1) in
      let! current := ok_or VectorOverflow (checked_add_u64 current WORD_SIZE) in
      scan_null_terminated_vector_loop fuel bytes count current
  end.
Definition scan_null_terminated_vector (bytes : list Z) (offset : Z) : res StartupError (Z * Z) :=
  scan_null_terminated_vector_loop (S (length bytes)) bytes 0 offset.

Definition is_ascii_uppercase (byte : Z) : bool := in_range 65 90 byte.
Definition is_ascii_digit (byte : Z) : bool := in_range 48 57 byte.

(** The test on a name: [name[0]] and [name[1..]] are read only if it is not
    empty. *)
Definition bad_name (name : list Z) : bool :=
  match name with
  | [] => true
  | first :: rest =>
      (len name >? 64) || negb (is_ascii_uppercase first || (first =? 95))
      || negb (forallb (fun byte => is_ascii_uppercase byte || is_ascii_digit byte || (byte =? 95)) rest)
  end.

Definition environment_name (value : list Z) : res StartupError (list Z) :=
  let! equals := ok_or InvalidEnvironment (position (fun byte => byte =? 61) value) in
  let! name := or_panic (get_range value 0 (Z.of_nat equals)) in
  reject_if! bad_name name with InvalidEnvironment;;
  Ok name.

Definition string_slice (bytes : list Z) (address pointer : Z) : res StartupError (list Z) :=
  let! offset := ok_or StringPointerOutOfRange (checked_sub pointer address) in
  let! tail := ok_or StringPointerOutOfRange (get_from bytes offset) in
  let! nul := ok_or UnterminatedString (nul_position tail) in
  or_panic (get_range tail 0 nul).

(** The cursor after the string, and [*total] after the call. *)
Definition validate_canonical_v2_string (bytes : list Z) (address vector_offset index cursor total : Z)
    : res StartupError (Z * Z) :=
  let! pointer := word_at bytes vector_offset index in
  let! expected := ok_or AddressOverflow (checked_add_u64 address cursor) in
  reject_if! negb (pointer =? expected) with NoncanonicalStringLayout;;
  let! tail := ok_or StringPointerOutOfRange (get_from bytes cursor) in
  let! nul := ok_or UnterminatedString (nul_position tail) in
  let! text := or_panic (get_range tail 0 nul) in
  reject_if! negb (is_utf8 text) with InvalidUtf8;;
  let! consumed := ok_or VectorOverflow (checked_add_u64 nul 1) in
  let! total := ok_or VectorOverflow (checked_add_u64 total nul) in
  let! cursor := ok_or VectorOverflow (checked_add_u64 cursor consumed) in
  Ok (cursor, total).

(** [for index in indices { cursor = validate_canonical_v2_string(...)?; }] *)
Fixpoint validate_canonical_strings (bytes : list Z) (address vector_offset : Z)
    (indices : list Z) (cursor total : Z) : res StartupError (Z * Z) :=
  match indices with
  | [] => Ok (cursor, total)
  | index :: indices =>
      let! '(cursor, total) :=
        validate_canonical_v2_string bytes address vector_offset index cursor total in
      validate_canonical_strings bytes address vector_offset indices cursor total
  end.

Fixpoint scan_auxiliary_vector_end_loop (fuel : nat) (bytes : list Z) (current : Z)
    : res StartupError Z :=
  match fuel with
  | O => Panic
  | S fuel =>
      let! kind := ok_or MissingAuxiliaryTerminator (read_word bytes current) in
      let! value_offset := plus current WORD_SIZE in
      let! value := ok_or MissingAuxiliaryTerminator (read_word bytes value_offset) in
      let! current := ok_or VectorOverflow (checked_add_u64 current (2 * WORD_SIZE)) in
      if bool_decide ((kind, value) = AUXILIARY_VECTOR_TERMINATOR) then Ok current
      else scan_auxiliary_vector_end_loop fuel bytes current
  end.
Definition scan_auxiliary_vector_end (bytes : list Z) (offset : Z) : res StartupError Z :=
  scan_auxiliary_vector_end_loop (S (length bytes)) bytes offset.

(** The inner loop over [0..index] of the duplicate check. *)
Fixpoint reject_duplicates (bytes : list Z) (address envp_offset : Z) (name : list Z)
    (previous : list Z) : res StartupError unit :=
  match previous with
  | [] => Ok tt
  | p :: previous =>
      let! pointer := word_at bytes envp_offset p in
      let! value := string_slice bytes address pointer in
      let! other := environment_name value in
      reject_if! bool_decide (other = name) with DuplicateEnvironment;;
      reject_duplicates bytes address envp_offset name previous
  end.

Fixpoint validate_environment (bytes : list Z) (address envp_offset : Z) (indices : list Z)
    : res StartupError unit :=
  match indices with
  | [] => Ok tt
  | index :: indices =>
      let! pointer := word_at bytes envp_offset index in
      let! value := string_slice bytes address pointer in
      let! name := environment_name value in
      let! _ := reject_duplicates bytes address envp_offset name (seqZ 0 index) in
      validate_environment bytes address envp_offset indices
  end.

Definition validate_v2_layout (bytes : list Z)
    (address argc argv_offset envc envp_offset auxv_offset : Z) : res StartupError unit :=
  reject_if! negb (in_range 1 64 argc) with ArgumentLimit;;
  reject_if! envc >? 64 with EnvironmentLimit;;
  let! cursor := scan_auxiliary_vector_end bytes auxv_offset in
  let! '(cursor, string_bytes) :=
    validate_canonical_strings bytes address argv_offset (seqZ 0 argc) cursor 0 in
  let! '(cursor, string_bytes) :=
    validate_canonical_strings bytes address envp_offset (seqZ 0 envc) cursor string_bytes in
  reject_if! string_bytes >? 16 * 1024 with StringBytesExceeded;;
  validate_environment bytes address envp_offset (seqZ 0 envc).

(** [for index in indices { validate_string(..., word_at(...)?)?; }] *)
Fixpoint validate_strings (bytes : list Z) (address block_end vector_offset : Z) (indices : list Z)
    : res StartupError unit :=
  match indices with
  | [] => Ok tt
  | index :: indices =>
      let! pointer := word_at bytes vector_offset index in
      let! _ := validate_string bytes address block_end pointer in
      validate_strings bytes address block_end vector_offset indices
  end.

(** [StartupBlock::parse] *)
Definition parse (registers : StartupRegisters) (address : Z) (bytes : list Z)
    : res StartupError StartupBlock :=
  let! block_size := startup_block_size (startup_argument1 registers) in
  reject_if! startup_argument0 registers =? 0 with InvalidBootstrapChannelHandle;;
  reject_if! negb (address mod 16 =? 0) with MisalignedStack;;
  reject_if! negb (len bytes =? block_size) with WrongBlockSize;;
  let! block_end := ok_or AddressOverflow (checked_add_u64 address block_size) in
  let! argc := ok_or VectorOverflow (read_word bytes 0) in
  let argv_offset := WORD_SIZE in
  let! argv_after := ok_or VectorOverflow (advance_words argv_offset argc) in
  let! _ := require_word bytes argv_after 0 MissingVectorTerminator in
  let! envp_offset := ok_or VectorOverflow (checked_add_u64 argv_after WORD_SIZE) in
  let! '(envc, auxv_offset) := scan_null_terminated_vector bytes envp_offset in
  let! auxc := scan_auxiliary_vector bytes auxv_offset in
  let! _ := validate_strings bytes address block_end argv_offset (seqZ 0 argc) in
  let! _ := validate_strings bytes address block_end envp_offset (seqZ 0 envc) in
  let! _ :=
    if startup_argument1 registers =? STARTUP_ABI_V2 then
      validate_v2_layout bytes address argc argv_offset envc envp_offset auxv_offset
    else Ok tt in
  Ok (mkBlock bytes address (startup_argument1 registers) (startup_argument0 registers)
        argv_offset argc envp_offset envc auxv_offset auxc).

(** [StartupBlock::string_at]: the error type is that of its callers' results,
    and never used. *)
Definition string_at (self : StartupBlock) (pointer : Z) : res StartupError (list Z) :=
  let! start := minus pointer (address self) in
  let! tail := or_panic (get_from (bytes self) start) in
  let! nul := or_panic (nul_position tail) in
  or_panic (get_range tail 0 nul).

(** [StartupBlock::arg], [StartupBlock::env] *)
Definition string_of_vector (self : StartupBlock) (count vector_offset index : Z)
    : res StartupError (option (list Z)) :=
  if index >=? count then Ok None
  else match word_at (bytes self) vector_offset index with
       | Ok pointer => let! s := string_at self pointer in Ok (Some s)
       | Err _ => Ok None
       | Panic => Panic
       end.
Definition arg (self : StartupBlock) (index : Z) : res StartupError (option (list Z)) :=
  string_of_vector self (argc self) (argv_offset self) index.
Definition env (self : StartupBlock) (index : Z) : res StartupError (option (list Z)) :=
  string_of_vector self (envc self) (envp_offset self) index.

(** [StartupBlock::aux] *)
Definition aux (self : StartupBlock) (index : Z) : res StartupError (option (Z * Z)) :=
  if index >=? auxc self then Ok None
  else
  match checked_mul_u64 index 2 with
  | None => Ok None
  | Some words =>
  match advance_words (auxv_offset self) words with
  | None => Ok None
  | Some offset =>
  match read_word (bytes self) offset with
  | None => Ok None
  | Some kind =>
      let! value_offset := plus offset WORD_SIZE in
      match read_word (bytes self) value_offset with
      | None => Ok None
      | Some value => Ok (Some (kind, value))
      end
  end end end.

Section native.
(** The bytes at an address, for a length: [core::slice::from_raw_parts]. *)
Context (from_raw_parts : Z -> Z -> list Z).

Definition with_native_startup {R} (registers : StartupRegisters) (address : Z)
    (use_block : StartupBlock -> R) : res StartupError R :=
  let! block_size := startup_block_size (startup_argument1 registers) in
  reject_if! startup_argument0 registers =? 0 with InvalidBootstrapChannelHandle;;
  reject_if! negb (address mod 16 =? 0) with MisalignedStack;;
  let! _ := ok_or AddressOverflow (checked_add_u64 address block_size) in
  let! block := parse registers address (from_raw_parts address block_size) in
  Ok (use_block block).
End native.

End Startup.
