(* ===== verification/Image.v ===== *)
(** * Materialization and startup-block plans (crates/wyrmroot-loader/src/image.rs)

    How a load segment becomes a memory object, and the writers of the startup
    block the launched process parses ([Startup]).  A [&str] is the list of its
    bytes.  The block a writer fills is passed and returned; a range out of it
    or an unchecked addition that overflows is [Panic]. *)

From stdpp Require Import base tactics option list list_numbers.
From Stdlib Require Import ZArith Lia.
From S2P Require Import Prelude Bytes Utf8 Elf Startup.

Module Image.

Definition STARTUP_PAGE_ADDRESS : Z := Elf.STACK_TOP - Elf.PAGE_SIZE.
Definition INITIAL_STACK_POINTER : Z := STARTUP_PAGE_ADDRESS.
Definition STARTUP_V2_BLOCK_BYTES : Z := 5 * Elf.PAGE_SIZE.
Definition STARTUP_V2_BLOCK_ADDRESS : Z := Elf.STACK_TOP - STARTUP_V2_BLOCK_BYTES.

Record MaterializationPlan := mkMaterialization {
  object_size : Z; source_offset : Z; source_size : Z; destination_offset : Z;
  child_address : Z; m_protection : Elf.SegmentProtection }.

(** [impl From<LoadSegment> for MaterializationPlan] *)
Definition from_segment (segment : Elf.LoadSegment) : MaterializationPlan :=
  mkMaterialization (Elf.mapping_size segment) (Elf.file_offset segment) (Elf.file_size segment)
    (Elf.leading_bytes segment) (Elf.mapping_start segment) (Elf.protection segment).

Record StackPlan := mkStack {
  s_object_size : Z; s_child_address : Z; startup_page_offset : Z; stack_pointer : Z }.
Definition INITIAL_STACK : StackPlan :=
  mkStack Elf.STACK_BYTES (Elf.STACK_TOP - Elf.STACK_BYTES) (Elf.STACK_BYTES - Elf.PAGE_SIZE)
    INITIAL_STACK_POINTER.

Inductive StartupBlockError :=
| PageSize | EmptyDisplayPath | DisplayPathContainsNul | DisplayPathTooLong | PointerOverflow
| TooManyArguments | TooManyEnvironmentEntries | StringBytesExceeded | InvalidEnvironment
| DuplicateEnvironment | Argv0Mismatch | StringContainsNul.

Definition put_u64 (bytes : list Z) (offset value : Z) : res StartupBlockError (list Z) :=
  or_panic (put_le 8 bytes offset value).

(** [bytes[a..a + vs.len()].copy_from_slice(vs)] *)
Definition copy_from_slice (bytes : list Z) (a : Z) (vs : list Z)
    : res StartupBlockError (list Z) := or_panic (put_range bytes a vs).

(** [slice.fill(0)] *)
Definition fill (bytes : list Z) : list Z := replicate (length bytes) 0.

(** [FIXED_WORDS * WORD_BYTES] *)
Definition STRING_OFFSET : Z := 6 * 8.

Definition write_startup_block (page : list Z) (page_address : Z) (display_path : list Z)
    : res StartupBlockError (list Z) :=
  reject_if! negb (len page =? Elf.PAGE_SIZE) with PageSize;;
  reject_if! bool_decide (display_path = []) with EmptyDisplayPath;;
  reject_if! contains 0 display_path with DisplayPathContainsNul;;
  let! string_end := ok_or DisplayPathTooLong
    (match checked_add_u64 STRING_OFFSET (len display_path) with
     | Some end_ => checked_add_u64 end_ 1
     | None => None
     end) in
  reject_if! string_end >? len page with DisplayPathTooLong;;
  let! argv0 := ok_or PointerOverflow (checked_add_u64 page_address STRING_OFFSET) in
  let page := fill page in
  let! page := put_u64 page 0 1 in
  let! page := put_u64 page 8 argv0 in
  copy_from_slice page STRING_OFFSET display_path.

(** [environment_name]: the name before the first [=]. *)
Definition environment_name (value : list Z) : res StartupBlockError (list Z) :=
  let! equals := ok_or InvalidEnvironment (position (fun byte => byte =? 61) value) in
  let! name := or_panic (get_range value 0 (Z.of_nat equals)) in
  reject_if! Startup.bad_name name with InvalidEnvironment;;
  Ok name.

(** [environment_name(other).ok() == Some(name)] *)
Definition has_name (name other : list Z) : bool :=
  match environment_name other with Ok n => bool_decide (n = name) | _ => false end.

(** The loop over [environment.iter().enumerate()]; [previous] is
    [environment[..index]]. *)
Fixpoint validate_environment (previous rest : list (list Z)) : res StartupBlockError unit :=
  match rest with
  | [] => Ok tt
  | value :: rest =>
      let! name := environment_name value in
      reject_if! existsb (has_name name) previous with DuplicateEnvironment;;
      validate_environment (previous ++ [value]) rest
  end.

(** [try_fold(0usize, |sum, value| sum.checked_add(value.len()))] from [sum]. *)
Fixpoint total_len (sum : Z) (values : list (list Z)) : option Z :=
  match values with
  | [] => Some sum
  | value :: values =>
      match checked_add_u64 sum (len value) with Some sum => total_len sum values | None => None end
  end.

Record StartupBlockV2Plan := mkV2Plan {
  block_address : Z; argv : list (list Z); environment : list (list Z); string_start : Z }.

Definition MAX_ARGV : Z := 64.
Definition MAX_ENVIRONMENT : Z := 64.
Definition MAX_STRING_BYTES : Z := 16 * 1024.

(** [a.checked_add(b)] on the result of a chain of checked additions. *)
Definition and_add (a : option Z) (b : Z) : option Z :=
  match a with Some a => checked_add_u64 a b | None => None end.

(** [StartupBlockV2Plan::new] *)
Definition v2_plan_new (block_len block_address : Z) (path : list Z)
    (argv environment : list (list Z)) : res StartupBlockError StartupBlockV2Plan :=
  reject_if! negb (block_len =? STARTUP_V2_BLOCK_BYTES) with PageSize;;
  reject_if! bool_decide (argv = []) || (len argv >? MAX_ARGV) with TooManyArguments;;
  reject_if! len environment >? MAX_ENVIRONMENT with TooManyEnvironmentEntries;;
  let! argv0 := or_panic (get_at argv 0) in
  reject_if! bool_decide (argv0 <> path) with Argv0Mismatch;;
  reject_if! bool_decide (path = []) || contains 0 path with
    (if bool_decide (path = []) then EmptyDisplayPath else DisplayPathContainsNul);;
  reject_if! existsb (contains 0) (drop 1 argv ++ environment) with StringContainsNul;;
  let! aggregate_string_bytes := ok_or StringBytesExceeded (total_len 0 (argv ++ environment)) in
  reject_if! aggregate_string_bytes >? MAX_STRING_BYTES with StringBytesExceeded;;
  let! encoded_string_bytes := ok_or StringBytesExceeded
    (and_add (checked_add_u64 aggregate_string_bytes (len argv)) (len environment)) in
  let! _ := validate_environment [] environment in
  let! vector_words := ok_or StringBytesExceeded
    (and_add (and_add (and_add (checked_add_u64 1 (len argv)) 1) (len environment)) (1 + 2)) in
  let! string_start := ok_or StringBytesExceeded (checked_mul_u64 vector_words 8) in
  let! string_end := plus string_start encoded_string_bytes in
  reject_if! string_end >? block_len with StringBytesExceeded;;
  let! _ := ok_or PointerOverflow (checked_add_u64 block_address string_end) in
  Ok (mkV2Plan block_address argv environment string_start).

(** The loops [for value in self.argv] and [for value in self.environment] of
    [write]: the block and the two offsets after them. *)
Fixpoint write_strings (address : Z) (values : list (list Z)) (block : list Z)
    (word_offset string_offset : Z) : res StartupBlockError (list Z * Z * Z) :=
  match values with
  | [] => Ok (block, word_offset, string_offset)
  | value :: values =>
      let! pointer := plus address string_offset in
      let! block := put_u64 block word_offset pointer in
      let! block := copy_from_slice block string_offset value in
      write_strings address values block (word_offset + 8) (string_offset + (len value + 1))
  end.

(** [StartupBlockV2Plan::write] *)
Definition v2_plan_write (self : StartupBlockV2Plan) (block : list Z)
    : res StartupBlockError (list Z) :=
  assert! len block =? STARTUP_V2_BLOCK_BYTES;;
  let block := fill block in
  let! block := put_u64 block 0 (len (argv self)) in
  let! '(block, word_offset, string_offset) :=
    write_strings (block_address self) (argv self) block 8 (string_start self) in
  let word_offset := word_offset + 8 in
  let! '(block, word_offset, string_offset) :=
    write_strings (block_address self) (environment self) block word_offset string_offset in
  Ok block.

Definition write_startup_block_v2 (block : list Z) (block_address : Z) (path : list Z)
    (argv environment : list (list Z)) : res StartupBlockError (list Z) :=
  let! plan := v2_plan_new (len block) block_address path argv environment in
  v2_plan_write plan block.

End Image.
