(* ===== verification/StartupThms.v ===== *)
(** * What the loader writes on the stack, the process reads back

    The startup block of [Image] (loader) and its parser [Startup] (runtime):
    the block's layout, the writers produce it, the parser recovers the argument
    and environment strings from it, and the parser is safe on every block. *)

From stdpp Require Import base tactics option list list_numbers sorting.
From Stdlib Require Import ZArith Lia.
From S2P Require Import Prelude Bytes Utf8 Elf ElfThms Startup Image.

(** ** The layout *)

(** Words, then NUL-terminated strings. *)
Definition le_words (ws : list Z) : list Z := concat (to_le 8 <$> ws).
Definition cstrings (ss : list (list Z)) : list Z := concat ((fun s => s ++ [0]) <$> ss).

(** Where the strings [ss] start, when the first is at [address + cursor]. *)
Fixpoint pointers (address cursor : Z) (ss : list (list Z)) : list Z :=
  match ss with
  | [] => []
  | s :: ss => address + cursor :: pointers address (cursor + (len s + 1)) ss
  end.

(** [argc], [argv], NULL, [envp], NULL, and the terminal auxiliary pair. *)
Definition vector_words (address start : Z) (argv env : list (list Z)) : list Z :=
  len argv :: pointers address start argv ++
  0 :: pointers address (start + len (cstrings argv)) env ++ [0; 0; 0].

Definition strings_at (argv env : list (list Z)) : Z := 8 * (5 + len argv + len env).

(** The canonical block of [size] bytes at [address]. *)
Definition block_image (size address : Z) (argv env : list (list Z)) : list Z :=
  le_words (vector_words address (strings_at argv env) argv env) ++ cstrings (argv ++ env)
  ++ replicate (Z.to_nat (size - strings_at argv env - len (cstrings (argv ++ env)))) 0.

Lemma length_le_words ws : len (le_words ws) = 8 * len ws.
Proof.
  induction ws as [|w ws IH]; [done|]. change (le_words (w :: ws)) with (to_le 8 w ++ le_words ws).
  rewrite length_app, length_to_le. cbn [length]. lia.
Qed.

Lemma le_words_app ws ws' : le_words (ws ++ ws') = le_words ws ++ le_words ws'.
Proof. unfold le_words. by rewrite fmap_app, concat_app. Qed.

Lemma cstrings_app ss ss' : cstrings (ss ++ ss') = cstrings ss ++ cstrings ss'.
Proof. unfold cstrings. by rewrite fmap_app, concat_app. Qed.

Lemma cstrings_cons s ss : cstrings (s :: ss) = s ++ 0 :: cstrings ss.
Proof. unfold cstrings. simpl. by rewrite <-app_assoc. Qed.

Lemma length_cstrings_cons s ss : len (cstrings (s :: ss)) = len s + 1 + len (cstrings ss).
Proof. rewrite cstrings_cons, length_app. simpl. lia. Qed.

Lemma length_pointers address ss : forall cursor, length (pointers address cursor ss) = length ss.
Proof. induction ss as [|s ss IH]; intros; simpl; [done|]. by rewrite IH. Qed.

Lemma length_vector_words address start argv env :
  len (vector_words address start argv env) = 5 + len argv + len env.
Proof. unfold vector_words. cbn [length]. rewrite length_app. cbn [length]. rewrite length_app, !length_pointers. cbn [length]. lia. Qed.

Lemma pointers_range address ss : forall cursor,
  Forall (fun p => address + cursor <= p < address + cursor + len (cstrings ss)) (pointers address cursor ss).
Proof.
  induction ss as [|s ss IH]; intros cursor; cbn [pointers]; constructor.
  - rewrite length_cstrings_cons. lia.
  - eapply Forall_impl; [apply IH|]. intros p. rewrite length_cstrings_cons. simpl. lia.
Qed.

(** A word of the vector part. *)
Lemma read_word_le ws tail (i : nat) w :
  Forall in_u64 ws -> 8 * len ws < 2 ^ 64 -> ws !! i = Some w ->
  Startup.read_word (le_words ws ++ tail) (8 * Z.of_nat i) = Some w.
Proof.
  intros Hok Hb Hi. pose proof (lookup_lt_Some _ _ _ Hi). unfold Startup.read_word, Startup.WORD_SIZE.
  rewrite checked_add_u64_ok by lia.
  rewrite <-(take_drop_middle _ _ _ Hi). rewrite le_words_app, <-app_assoc.
  change (le_words (w :: drop (S i) ws)) with (to_le 8 w ++ le_words (drop (S i) ws)). rewrite <-app_assoc.
  assert (8 * Z.of_nat i = len (le_words (take i ws)) + 0) as ->
    by (rewrite length_le_words, length_take; lia).
  rewrite <-Z.add_assoc, get_range_app_r by lia. rewrite get_range_app_l by (rewrite ?length_to_le; lia).
  change (0 + 8) with (len (to_le 8 w)). rewrite get_range_full.
  change (of_le <$> Some (to_le 8 w)) with (Some (of_le (to_le 8 w))). f_equal. apply of_le_to_le_small. rewrite Forall_forall in Hok. apply Hok. by eapply list_elem_of_lookup_2.
Qed.

(** A NUL-terminated string inside a block. *)
Definition string_here (bytes : list Z) (offset : Z) (s : list Z) : Prop :=
  exists pre rest, bytes = pre ++ s ++ 0 :: rest /\ len pre = offset /\ 0 ∉ s.

Lemma nul_position_at s rest : 0 ∉ s -> Startup.nul_position (s ++ 0 :: rest) = Some (len s).
Proof.
  intros Hn. unfold Startup.nul_position. rewrite (proj2 (position_Some _ _ (length s))); [done|].
  exists 0. rewrite list_lookup_middle by done. split_conj; [done|done|].
  intros j y Hj. rewrite lookup_app_l by done. intros Hy%list_elem_of_lookup_2.
  apply Z.eqb_neq. by intros ->.
Qed.

Lemma string_here_read bytes offset s :
  string_here bytes offset s ->
  exists rest, get_from bytes offset = Some (s ++ 0 :: rest) /\
    Startup.nul_position (s ++ 0 :: rest) = Some (len s) /\
    get_range (s ++ 0 :: rest) 0 (len s) = Some s /\ 0 <= offset /\ offset + len s < len bytes.
Proof.
  intros (pre & rest & -> & <- & Hn). exists rest.
  rewrite get_from_app, nul_position_at, get_prefix by done. rewrite !length_app. cbn [length].
  split_conj; try done; lia.
Qed.

Lemma cstrings_here ss : forall bytes pre rest address,
  bytes = pre ++ cstrings ss ++ rest -> Forall (fun s => 0 ∉ s) ss ->
  Forall2 (fun p s => string_here bytes (p - address) s) (pointers address (len pre) ss) ss.
Proof.
  induction ss as [|s ss IH]; intros bytes pre rest address Hb Hn; cbn [pointers]; constructor.
  - apply Forall_cons in Hn as [Hs _]. exists pre, (cstrings ss ++ rest).
    split_conj; [|lia|done]. by rewrite Hb, cstrings_cons, <-app_assoc.
  - apply Forall_cons in Hn as [_ Hn].
    replace (len pre + (len s + 1)) with (len (pre ++ s ++ [0])) by (rewrite !length_app; simpl; lia).
    apply (IH _ _ rest); [|done]. rewrite Hb, cstrings_cons. by rewrite <-!app_assoc.
Qed.

(** ** The writers *)

Lemma put_in_zeros (xs ys vs : list Z) (n : nat) :
  (length vs <= n)%nat ->
  put_range (xs ++ replicate n 0 ++ ys) (len xs) vs =
  Some (xs ++ vs ++ replicate (n - length vs) 0 ++ ys).
Proof.
  intros Hn. unfold put_range. rewrite !length_app, length_replicate.
  destruct (Z.leb_spec 0 (len xs)); [|lia].
  destruct (Z.leb_spec (len xs + len vs) (Z.of_nat (length xs + (n + length ys)))); [|lia]. cbn [andb].
  rewrite Nat2Z.id, take_app_length. do 3 f_equal.
  replace (Z.to_nat (len xs + len vs)) with (length xs + length vs)%nat by lia.
  rewrite drop_app_add, drop_app_le by (by rewrite length_replicate). by rewrite drop_replicate.
Qed.

Lemma write_strings_spec address : forall values W (g : nat) S_ (r : nat) wo so,
  wo = len W -> so = len W + Z.of_nat g + len S_ -> 8 * len values <= Z.of_nat g ->
  len (cstrings values) <= Z.of_nat r -> address + so + len (cstrings values) < 2 ^ 64 ->
  Image.write_strings address values (W ++ replicate g 0 ++ S_ ++ replicate r 0) wo so =
  Ok (W ++ le_words (pointers address so values) ++ replicate (g - 8 * length values) 0
      ++ (S_ ++ cstrings values) ++ replicate (r - length (cstrings values)) 0,
      wo + 8 * len values, so + len (cstrings values)).
Proof.
  induction values as [|v values IH]; intros W g S_ r wo so -> Hso Hg Hr Ha.
  { cbn. rewrite !Z.add_0_r, !Nat.sub_0_r, app_nil_r. done. }
  rewrite length_cstrings_cons in Hr, Ha. cbn [length] in Hg. cbn [Image.write_strings pointers].
  rewrite (proj2 (plus_Ok address so (address + so))) by lia. cbn [res_bind].
  unfold Image.put_u64, put_le. rewrite put_in_zeros by (rewrite length_to_le; lia). cbn [or_panic res_bind].
  rewrite length_to_le. unfold Image.copy_from_slice.
  replace (W ++ to_le 8 (address + so) ++ replicate (g - 8) 0 ++ S_ ++ replicate r 0)
    with ((W ++ to_le 8 (address + so) ++ replicate (g - 8) 0 ++ S_) ++ replicate r 0 ++ [])
    by (by rewrite app_nil_r, <-!app_assoc).
  replace so with (len (W ++ to_le 8 (address + so) ++ replicate (g - 8) 0 ++ S_)) at 2
    by (rewrite !length_app, length_to_le, length_replicate; lia).
  rewrite put_in_zeros by lia. cbn [or_panic res_bind]. rewrite app_nil_r, <-!app_assoc.
  replace (r - length v)%nat with (S (r - length v - 1))%nat by lia. cbn [replicate].
  replace (W ++ to_le 8 (address + so) ++ replicate (g - 8) 0 ++ S_ ++ v ++ 0 :: replicate (r - length v - 1) 0)
    with ((W ++ to_le 8 (address + so)) ++ replicate (g - 8) 0 ++ (S_ ++ v ++ [0]) ++ replicate (r - length v - 1) 0)
    by (by rewrite <-!app_assoc).
  rewrite IH; [| | |lia|lia|lia].
  - change (le_words (address + so :: ?l)) with (to_le 8 (address + so) ++ le_words l).
    rewrite cstrings_cons, <-!app_assoc. cbn [length app]. rewrite length_app. cbn [length].
    replace (g - 8 - 8 * length values)%nat with (g - 8 * S (length values))%nat by lia.
    replace (r - length v - 1 - length (cstrings values))%nat
      with (r - (length v + S (length (cstrings values))))%nat by lia.
    f_equal. f_equal; [f_equal; lia|lia].
  - rewrite length_app, length_to_le. lia.
  - rewrite !length_app, length_to_le. cbn [length]. lia.
Qed.

(** ** Environment names *)

(** The name an entry [NAME=VALUE] binds. *)
Definition env_name (value : list Z) : option (list Z) :=
  match position (fun byte => byte =? 61) value with
  | Some i => if Startup.bad_name (take i value) then None else Some (take i value)
  | None => None
  end.

(** Every entry binds a name, each once. *)
Definition valid_env (env : list (list Z)) : Prop :=
  exists names, env_name <$> env = Some <$> names /\ NoDup names.

Lemma loader_environment_name value :
  Image.environment_name value =
  match env_name value with Some n => Ok n | None => Err Image.InvalidEnvironment end.
Proof.
  unfold Image.environment_name, env_name. destruct (position _ value) as [i|] eqn:Hi; [|done].
  apply position_lt in Hi. cbn [ok_or res_bind]. rewrite get_range_take_nat by lia. cbn.
  by destruct (Startup.bad_name _).
Qed.

Lemma runtime_environment_name value :
  Startup.environment_name value =
  match env_name value with Some n => Ok n | None => Err Startup.InvalidEnvironment end.
Proof.
  unfold Startup.environment_name, env_name. destruct (position _ value) as [i|] eqn:Hi; [|done].
  apply position_lt in Hi. cbn [ok_or res_bind]. rewrite get_range_take_nat by lia. cbn.
  by destruct (Startup.bad_name _).
Qed.

Lemma has_name_spec name prev pnames :
  env_name <$> prev = Some <$> pnames -> existsb (Image.has_name name) prev = true <-> name ∈ pnames.
Proof.
  revert pnames. induction prev as [|v prev IH]; intros [|n pnames] H; try done; simpl.
  { split; [done|]. by intros ?%elem_of_nil. }
  injection H as Hv H. rewrite orb_true_iff, (IH pnames H), elem_of_cons.
  unfold Image.has_name. rewrite loader_environment_name, Hv, bool_decide_eq_true. naive_solver.
Qed.

Lemma validate_environment_spec rest : forall prev pnames,
  env_name <$> prev = Some <$> pnames ->
  Image.validate_environment prev rest <> Panic /\
  (Image.validate_environment prev rest = Ok tt <->
   exists names, env_name <$> rest = Some <$> names /\ NoDup names /\ forall n, n ∈ names -> n ∉ pnames).
Proof.
  induction rest as [|v rest IH]; intros prev pnames Hp; cbn [Image.validate_environment].
  { split; [done|]. split; [|done]. intros _. exists []. split_conj; [done|constructor|]. by intros n ?%elem_of_nil. }
  rewrite loader_environment_name. destruct (env_name v) as [name|] eqn:Hv; cbn [res_bind].
  2:{ split; [done|]. split; [done|]. intros ([|n names] & H & _); [done|]. injection H as H _. congruence. }
  pose proof (has_name_spec name prev pnames Hp) as Hdup.
  destruct (existsb (Image.has_name name) prev).
  { split; [done|]. split; [done|]. intros ([|n names] & H & _ & Hn); [done|]. injection H as Hn' _.
    exfalso. apply (Hn n); [left|]. rewrite Hv in Hn'. injection Hn' as <-. by apply Hdup. }
  destruct (IH (prev ++ [v]) (pnames ++ [name])) as [Hnp Hiff].
  { rewrite !fmap_app, Hp. simpl. by rewrite Hv. }
  split; [done|]. rewrite Hiff. split.
  - intros (names & Hr & Hnd & Hfresh). exists (name :: names). rewrite fmap_cons, Hv, Hr.
    split_conj; [done| |].
    + constructor; [|done]. intros Hin. destruct (Hfresh name Hin). apply elem_of_app. right. by left.
    + intros n [->|Hin]%elem_of_cons; [intros ?%Hdup; done|].
      intros Hp'. apply (Hfresh n Hin). apply elem_of_app. by left.
  - intros ([|n names] & H & Hnd & Hfresh); [done|]. injection H as Hn H. rewrite Hv in Hn. injection Hn as <-.
    apply NoDup_cons in Hnd as [Hni Hnd]. exists names. split_conj; [done|done|].
    intros m Hm [Hin|Heq%list_elem_of_singleton]%elem_of_app; [|by subst].
    apply (Hfresh m); [by right|done].
Qed.

Lemma validate_environment_valid env :
  Image.validate_environment [] env <> Panic /\ (Image.validate_environment [] env = Ok tt <-> valid_env env).
Proof.
  destruct (validate_environment_spec env [] [] eq_refl) as [Hnp Hiff]. split; [done|].
  rewrite Hiff. unfold valid_env. split; [naive_solver|]. intros (names & ? & ?). exists names.
  split_conj; try done. by intros n _ ?%elem_of_nil.
Qed.

(** ** What the writers accept and write *)

Definition string_bytes (ss : list (list Z)) : Z := foldr (fun s n => len s + n) 0 ss.

Lemma string_bytes_app ss ss' : string_bytes (ss ++ ss') = string_bytes ss + string_bytes ss'.
Proof. induction ss as [|s ss IH]; [done|]. unfold string_bytes in *. cbn [app foldr]. rewrite IH. lia. Qed.

Lemma string_bytes_nonneg ss : 0 <= string_bytes ss.
Proof. induction ss as [|s ss IH]; [done|]. unfold string_bytes in *. cbn [foldr]. lia. Qed.

Lemma length_cstrings ss : len (cstrings ss) = string_bytes ss + len ss.
Proof.
  induction ss as [|s ss IH]; [done|]. rewrite length_cstrings_cons, IH. unfold string_bytes.
  cbn [foldr length]. lia.
Qed.

Lemma total_len_spec ss : forall sum t,
  Image.total_len sum ss = Some t <-> t = sum + string_bytes ss /\ (ss = [] \/ sum + string_bytes ss < 2 ^ 64).
Proof.
  induction ss as [|s ss IH]; intros sum t; cbn [Image.total_len].
  { unfold string_bytes. cbn [foldr]. rewrite Z.add_0_r. naive_solver. }
  pose proof (string_bytes_nonneg ss). unfold string_bytes in *. cbn [foldr]. unfold checked_add_u64, checked_add.
  destruct (Z.ltb_spec (sum + len s) (2 ^ 64)).
  - rewrite IH, Z.add_assoc. split; [|naive_solver].
    intros [-> [->|?]]; [|naive_solver]. cbn. rewrite Z.add_0_r. split; [done|]. right. done.
  - split; [done|]. intros [_ [?|?]]; [done|lia].
Qed.

(** The arguments of a v2 block. *)
Definition valid_v2 (address : Z) (path : list Z) (argv env : list (list Z)) : Prop :=
  len argv <= 64 /\ len env <= 64 /\ head argv = Some path /\ path <> [] /\
  Forall (fun s => 0 ∉ s) (argv ++ env) /\ string_bytes (argv ++ env) <= 16 * 1024 /\ valid_env env /\
  address + strings_at argv env + len (cstrings (argv ++ env)) < 2 ^ 64.

Lemma existsb_nul ss : existsb (contains 0) ss = false <-> Forall (fun s => 0 ∉ s) ss.
Proof.
  induction ss as [|s ss IH]; simpl; [split; [constructor|done]|].
  rewrite orb_false_iff, IH, Forall_cons. by rewrite contains_false.
Qed.

Lemma v2_room argv env :
  len argv <= 64 -> len env <= 64 -> string_bytes (argv ++ env) <= 16 * 1024 ->
  strings_at argv env + len (cstrings (argv ++ env)) <= Image.STARTUP_V2_BLOCK_BYTES.
Proof.
  intros. unfold strings_at. rewrite length_cstrings, length_app.
  change Image.STARTUP_V2_BLOCK_BYTES with 20480. lia.
Qed.

Lemma and_add_Some o b c :
  Image.and_add o b = Some c <-> exists a, o = Some a /\ c = a + b /\ a + b < 2 ^ 64.
Proof. unfold Image.and_add. destruct o; [|naive_solver]. unfold checked_add_u64. rewrite checked_add_Some. naive_solver. Qed.

Lemma v2_plan_new_sound block_len address path argv env p :
  Image.v2_plan_new block_len address path argv env = Ok p ->
  block_len = Image.STARTUP_V2_BLOCK_BYTES /\ valid_v2 address path argv env /\
  p = Image.mkV2Plan address argv env (strings_at argv env).
Proof.
  unfold Image.v2_plan_new, Image.MAX_ARGV, Image.MAX_ENVIRONMENT, Image.MAX_STRING_BYTES. intros H.
  res_inv. destruct argv as [|arg0 argv]; [done|].
  repeat match goal with
  | H : Image.total_len _ _ = Some _ |- _ => apply total_len_spec in H as [-> _]
  | H : Image.and_add _ _ = Some _ |- _ => apply and_add_Some in H as (? & H & -> & ?)
  | H : checked_add_u64 _ _ = Some _ |- _ => apply checked_add_Some in H as [-> ?]
  | H : checked_mul_u64 _ _ = Some _ |- _ => apply checked_mul_Some in H as [-> ?]
  | H : plus _ _ = Ok _ |- _ => apply plus_Ok in H as [-> ?]
  | H : Image.validate_environment [] env = Ok ?u |- _ =>
      destruct u; apply (validate_environment_valid env) in H
  | H : existsb (contains 0) _ = false |- _ => apply existsb_nul in H
  | H : get_at _ _ = Some _ |- _ => injection H as H
  | H : negb (bool_decide _) = false |- _ => apply negb_false_iff in H
  end. subst.
  assert (strings_at (path :: argv) env = (1 + len (path :: argv) + 1 + len env + 3) * 8) as Hat
    by (unfold strings_at; lia).
  split_conj; try done.
  - unfold valid_v2. rewrite length_cstrings, !length_app. split_conj; try done; try lia.
    by constructor.
  - f_equal. lia.
Qed.

Lemma v2_plan_new_complete address path argv env :
  0 <= address -> valid_v2 address path argv env ->
  Image.v2_plan_new Image.STARTUP_V2_BLOCK_BYTES address path argv env =
  Ok (Image.mkV2Plan address argv env (strings_at argv env)).
Proof.
  intros Haddr (Ha & He & Hh & Hpath & Hnul & Hbytes & Henv & Hend).
  pose proof (v2_room argv env Ha He Hbytes) as Hroom.
  destruct argv as [|a argv]; [done|]. injection Hh as ->.
  rewrite length_cstrings, length_app in Hend, Hroom. unfold strings_at in *.
  pose proof (string_bytes_nonneg ((path :: argv) ++ env)).
  pose proof Hnul as [Hp Hrest]%Forall_cons.
  assert (Image.STARTUP_V2_BLOCK_BYTES = 20480) as Hsize by done.
  unfold Image.v2_plan_new, Image.MAX_ARGV, Image.MAX_ENVIRONMENT, Image.MAX_STRING_BYTES.
  rewrite Z.eqb_refl, (bool_decide_eq_false_2 (path :: argv = [])) by done. cbn [negb orb].
  rewrite (gtb_false (len (path :: argv))), (gtb_false (len env)) by done.
  change (get_at (path :: argv) 0) with (Some path). cbn [or_panic res_bind].
  rewrite (bool_decide_eq_false_2 (path <> path)) by (intros Hx; by apply Hx).
  rewrite (bool_decide_eq_false_2 (path = [])), (proj2 (contains_false 0 path)) by done. cbn [orb].
  change (drop 1 (path :: argv)) with argv. rewrite (proj2 (existsb_nul (argv ++ env))) by done.
  rewrite (proj2 (total_len_spec ((path :: argv) ++ env) 0 (string_bytes ((path :: argv) ++ env))))
    by (split; [done|right; lia]).
  cbn [ok_or res_bind]. rewrite gtb_false by done.
  unfold Image.and_add. rewrite !checked_add_u64_ok by lia. cbn [ok_or res_bind].
  rewrite (proj2 (proj2 (validate_environment_valid env)) Henv). cbn [res_bind].
  rewrite checked_mul_u64_ok by lia. cbn [ok_or res_bind].
  set (start := (1 + _ + _ + _ + _) * 8). replace (8 * _) with start by (subst start; lia).
  set (total := string_bytes _ + _ + _). rewrite (proj2 (plus_Ok start total (start + total))) by (subst start total; lia).
  cbn [res_bind]. rewrite gtb_false by (subst start total; lia).
  rewrite checked_add_u64_ok by (subst start total; lia). done.
Qed.

Lemma v2_plan_new_np block_len address path argv env :
  Image.v2_plan_new block_len address path argv env <> Panic.
Proof.
  unfold Image.v2_plan_new, Image.MAX_ARGV, Image.MAX_ENVIRONMENT, Image.MAX_STRING_BYTES. no_panic.
  - destruct argv; [done|]. by apply or_panic_not_panic.
  - apply validate_environment_valid.
  - bool_prop. apply ok_or_Ok, total_len_spec in H0 as [-> _].
    apply ok_or_Ok, and_add_Some in H1 as (? & (-> & ?)%checked_add_Some & -> & ?).
    apply ok_or_Ok, checked_mul_Some in H4 as [-> ?].
    repeat (apply ok_or_Ok in H3 || apply and_add_Some in H3 as (? & H3 & -> & ?)).
    apply checked_add_Some in H3 as [-> ?]. apply plus_np. lia.
Qed.

Lemma le_words_zeros n : le_words (replicate n 0) = replicate (8 * n) 0.
Proof.
  induction n as [|n IH]; [done|]. change (le_words (replicate (S n) 0)) with (to_le 8 0 ++ le_words (replicate n 0)).
  rewrite IH, to_le_zero, <-replicate_add. f_equal. lia.
Qed.

(** What the vector part and the strings look like after both loops. *)
Lemma block_image_eq size address argv env :
  block_image size address argv env =
  to_le 8 (len argv) ++ le_words (pointers address (strings_at argv env) argv) ++ replicate 8 0
  ++ le_words (pointers address (strings_at argv env + len (cstrings argv)) env) ++ replicate 24 0
  ++ cstrings argv ++ cstrings env
  ++ replicate (Z.to_nat (size - strings_at argv env - len (cstrings (argv ++ env)))) 0.
Proof.
  unfold block_image, vector_words.
  set (ps := pointers _ _ argv). set (es := pointers _ _ env).
  change (len argv :: ps ++ 0 :: es ++ [0; 0; 0]) with ([len argv] ++ ps ++ [0] ++ es ++ [0; 0; 0]).
  rewrite !le_words_app, cstrings_app.
  change (le_words [len argv]) with (to_le 8 (len argv) ++ []). rewrite app_nil_r.
  change (le_words [0]) with (replicate 8 0). change (le_words [0; 0; 0]) with (replicate 24 0).
  by rewrite <-!app_assoc.
Qed.

Lemma v2_plan_write_spec address argv env block :
  len block = Image.STARTUP_V2_BLOCK_BYTES ->
  strings_at argv env + len (cstrings (argv ++ env)) <= Image.STARTUP_V2_BLOCK_BYTES ->
  address + strings_at argv env + len (cstrings (argv ++ env)) < 2 ^ 64 ->
  Image.v2_plan_write (Image.mkV2Plan address argv env (strings_at argv env)) block =
  Ok (block_image Image.STARTUP_V2_BLOCK_BYTES address argv env).
Proof.
  intros Hlen Hroom Hend. unfold Image.v2_plan_write. cbn [Image.argv Image.block_address Image.environment Image.string_start].
  rewrite Hlen, Z.eqb_refl. unfold Image.fill, Image.put_u64, put_le.
  rewrite block_image_eq. rewrite cstrings_app, length_app in Hroom, Hend |- *. set (size := Image.STARTUP_V2_BLOCK_BYTES) in *.
  assert (8 <= len block) by (rewrite Hlen; done).
  pose proof (put_in_zeros [] [] (to_le 8 (len argv)) (length block)) as Hput.
  rewrite length_to_le, !app_nil_r in Hput. cbn [app length] in Hput. change (Z.of_nat 0) with 0 in Hput.
  rewrite Hput by lia. cbn [or_panic res_bind]. clear Hput.
  pose proof (length_app argv env) as Hla. unfold strings_at in *.
  set (start := 8 * (5 + len argv + len env)) in *.
  replace (replicate (length block - 8) 0)
    with (replicate (Z.to_nat (start - 8)) 0 ++ [] ++ replicate (Z.to_nat (size - start)) 0)
    by (cbn [app]; rewrite <-replicate_add; f_equal; lia).
  rewrite write_strings_spec; [| |rewrite length_to_le; cbn [length]; lia|lia..]; [|by rewrite length_to_le].
  cbn [res_bind app]. 
  replace (Z.to_nat (start - 8) - 8 * length argv)%nat with (8 + (Z.to_nat (start - 8) - 8 * length argv - 8))%nat by lia.
  rewrite replicate_add.
  set (W := to_le 8 (len argv) ++ le_words (pointers address start argv) ++ replicate 8 0).
  set (g := (Z.to_nat (start - 8) - 8 * length argv - 8)%nat).
  match goal with |- context [Image.write_strings _ env ?b _ _] =>
    replace b with (W ++ replicate g 0 ++ cstrings argv ++ replicate (Z.to_nat (size - start) - length (cstrings argv)) 0)
      by (subst W; by rewrite <-!app_assoc) end.
  assert (len W = 8 + 8 * len argv + 8) as HW.
  { subst W. rewrite !length_app, length_to_le, length_replicate.
    pose proof (length_le_words (pointers address start argv)) as Hp. rewrite length_pointers in Hp. lia. }
  rewrite write_strings_spec; [|lia..]. cbn [res_bind]. subst W. rewrite <-!app_assoc.
  replace (g - 8 * length env)%nat with 24%nat by lia. do 8 f_equal. f_equal. lia.
Qed.

Lemma write_startup_block_v2_spec block address path argv env :
  0 <= address ->
  Image.write_startup_block_v2 block address path argv env <> Panic /\
  forall out, Image.write_startup_block_v2 block address path argv env = Ok out <->
    len block = Image.STARTUP_V2_BLOCK_BYTES /\ valid_v2 address path argv env /\
    out = block_image Image.STARTUP_V2_BLOCK_BYTES address argv env.
Proof.
  intros Haddr. unfold Image.write_startup_block_v2.
  assert (len block = Image.STARTUP_V2_BLOCK_BYTES -> valid_v2 address path argv env ->
    Image.v2_plan_write (Image.mkV2Plan address argv env (strings_at argv env)) block =
    Ok (block_image Image.STARTUP_V2_BLOCK_BYTES address argv env)) as Hwrite.
  { intros Hlen (? & ? & _ & _ & _ & ? & _ & ?). apply v2_plan_write_spec; [done|by apply v2_room|done]. }
  destruct (Image.v2_plan_new (len block) address path argv env) as [p|e|] eqn:Hp; cbn [res_bind].
  - apply v2_plan_new_sound in Hp as (Hlen & Hv & ->). rewrite (Hwrite Hlen Hv). naive_solver.
  - split; [done|]. intros out. split; [done|]. intros (Hlen & Hv & _).
    rewrite Hlen, v2_plan_new_complete in Hp by done. done.
  - by apply v2_plan_new_np in Hp.
Qed.

(** The arguments of a v1 block. *)
Definition valid_v1 (address : Z) (path : list Z) : Prop :=
  path <> [] /\ 0 ∉ path /\ 48 + len path + 1 <= Elf.PAGE_SIZE /\ address + 48 < 2 ^ 64.

Lemma write_v1_image page address path :
  len page = Elf.PAGE_SIZE -> 48 + len path + 1 <= Elf.PAGE_SIZE ->
  (let! page1 := Image.put_u64 (Image.fill page) 0 1 in
   let! page2 := Image.put_u64 page1 8 (address + 48) in
   Image.copy_from_slice page2 48 path) = Ok (block_image Elf.PAGE_SIZE address [path] []).
Proof.
  intros Hlen Hroom. unfold Image.put_u64, put_le, Image.fill, Image.copy_from_slice.
  change Elf.PAGE_SIZE with 4096 in *.
  pose proof (put_in_zeros [] [] (to_le 8 1) (length page)) as H1.
  rewrite length_to_le, !app_nil_r in H1. cbn [app length] in H1. change (Z.of_nat 0) with 0 in H1.
  rewrite H1 by lia. cbn [or_panic res_bind].
  pose proof (put_in_zeros (to_le 8 1) [] (to_le 8 (address + 48)) (length page - 8)) as H2.
  rewrite !length_to_le, !app_nil_r in H2. change (Z.of_nat 8) with 8 in H2.
  rewrite H2 by lia. cbn [or_panic res_bind].
  replace (length page - 8 - 8)%nat with (32 + (length page - 48))%nat by lia. rewrite replicate_add.
  pose proof (put_in_zeros (to_le 8 1 ++ to_le 8 (address + 48) ++ replicate 32 0) [] path (length page - 48)) as H3.
  rewrite !app_nil_r, !length_app, !length_to_le, length_replicate in H3.
  change (Z.of_nat (8 + (8 + 32))) with 48 in H3. rewrite <-!app_assoc in H3. rewrite H3 by lia.
  cbn [or_panic]. rewrite block_image_eq. unfold strings_at. cbn [pointers app]. rewrite length_cstrings_cons.
  change (cstrings []) with (@nil Z). rewrite cstrings_cons. change (cstrings []) with (@nil Z).
  change (len [path]) with 1. change (@length (list Z) []) with 0%nat. change (@length Z []) with 0%nat.
  change (8 * (5 + 1 + Z.of_nat 0)) with 48.
  change (le_words [address + 48]) with (to_le 8 (address + 48) ++ []). change (le_words []) with (@nil Z).
  rewrite app_nil_r, !app_nil_l. replace (replicate 32 0) with (replicate 8 0 ++ replicate 24 0) by done.
  rewrite <-!app_assoc. do 7 f_equal.
  replace (length page - 48 - length path)%nat with (S (Z.to_nat (4096 - 48 - (len path + 1 + Z.of_nat 0)))) by lia.
  done.
Qed.

Lemma write_startup_block_spec page address path :
  0 <= address ->
  Image.write_startup_block page address path <> Panic /\
  forall out, Image.write_startup_block page address path = Ok out <->
    len page = Elf.PAGE_SIZE /\ valid_v1 address path /\
    out = block_image Elf.PAGE_SIZE address [path] [].
Proof.
  intros Haddr. unfold Image.write_startup_block, valid_v1. change Image.STRING_OFFSET with 48.
  destruct (Z.eqb_spec (len page) Elf.PAGE_SIZE) as [Hlen|Hlen]; cbn [negb]; [|naive_solver].
  destruct (bool_decide_reflect (path = [])); [naive_solver|].
  destruct (contains 0 path) eqn:Hnul; bool_prop; [naive_solver|].
  destruct (checked_add_u64 48 (len path)) as [e|] eqn:He.
  2:{ assert (48 + len path + 1 <= Elf.PAGE_SIZE -> False) as Hbig.
      { intros. unfold Elf.PAGE_SIZE in *. rewrite checked_add_u64_ok in He by lia. done. }
      cbn. naive_solver. }
  apply checked_add_Some in He as [-> He].
  destruct (checked_add_u64 (48 + len path) 1) as [e|] eqn:He'.
  2:{ assert (48 + len path + 1 <= Elf.PAGE_SIZE -> False) as Hbig.
      { intros. unfold Elf.PAGE_SIZE in *. rewrite checked_add_u64_ok in He' by lia. done. }
      cbn. naive_solver. }
  apply checked_add_Some in He' as [-> He']. cbn [ok_or res_bind]. rewrite Hlen.
  destruct (Z.gtb_spec (48 + len path + 1) Elf.PAGE_SIZE); [split; [done|]; naive_solver lia|].
  destruct (checked_add_u64 address 48) as [e|] eqn:Ha.
  2:{ split; [done|]. intros out. split; [done|]. intros (_ & (_ & _ & _ & ?) & _).
      by rewrite checked_add_u64_ok in Ha. }
  apply checked_add_Some in Ha as [-> Ha]. cbn [ok_or res_bind].
  rewrite write_v1_image by done. naive_solver.
Qed.

(** ** The parser on a canonical block *)

Section canonical.
Context (size address : Z) (argv env : list (list Z)).
Context (Hsize : 0 <= size < 2 ^ 32).
Context (Haddr : 0 < address /\ address + size < 2 ^ 64).
Context (Hroom : strings_at argv env + len (cstrings (argv ++ env)) <= size).
Context (Hnul : Forall (fun s => 0 ∉ s) (argv ++ env)).
Context (Hutf : Forall (fun s => is_utf8 s = true) (argv ++ env)).

Let block := block_image size address argv env.
Let start := strings_at argv env.
Let ws := vector_words address start argv env.
Let argp := pointers address start argv.
Let envp := pointers address (start + len (cstrings argv)) env.

Lemma block_length : len block = size.
Proof.
  subst block. unfold block_image. rewrite !length_app, length_replicate.
  pose proof (length_le_words (vector_words address (strings_at argv env) argv env)) as H.
  rewrite length_vector_words in H. unfold strings_at in *. lia.
Qed.

Lemma start_eq : start = 8 * len ws.
Proof. subst ws. rewrite length_vector_words. done. Qed.

Lemma pointers_ok :
  Forall (fun p => address < p < address + size) argp /\ Forall (fun p => address < p < address + size) envp.
Proof.
  rewrite cstrings_app, length_app in Hroom. subst argp envp start.
  assert (0 < strings_at argv env) by (unfold strings_at; lia).
  split; (eapply Forall_impl; [apply pointers_range|]); intros p; simpl; lia.
Qed.

Lemma words_ok : Forall in_u64 ws.
Proof.
  destruct pointers_ok as [Ha He]. unfold strings_at in *.
  subst ws. unfold vector_words. fold start. fold argp. fold envp.
  assert (forall l, Forall (fun p => address < p < address + size) l -> Forall in_u64 l) as Hl.
  { intros l Hl. eapply Forall_impl; [done|]. unfold in_u64. simpl. lia. }
  constructor; [unfold in_u64; pose proof (length_cstrings (argv ++ env)); lia|].
  apply Forall_app. split; [by apply Hl|]. constructor; [done|].
  apply Forall_app. split; [by apply Hl|]. by repeat constructor.
Qed.

Lemma word_read (i : nat) w :
  ws !! i = Some w -> Startup.read_word block (8 * Z.of_nat i) = Some w.
Proof.
  intros Hi. subst block. unfold block_image. fold start. fold ws. apply read_word_le; [apply words_ok| |done].
  rewrite <-start_eq. lia.
Qed.

Lemma word_at_read (o i : nat) w :
  ws !! (o + i)%nat = Some w -> Startup.word_at block (8 * Z.of_nat o) (Z.of_nat i) = Ok w.
Proof.
  intros Hi. pose proof (lookup_lt_Some _ _ _ Hi). pose proof start_eq.
  unfold Startup.word_at, Startup.advance_words, Startup.WORD_SIZE.
  rewrite checked_mul_u64_ok, checked_add_u64_ok by lia. cbn [ok_or res_bind].
  replace (8 * Z.of_nat o + Z.of_nat i * 8) with (8 * Z.of_nat (o + i)) by lia. by rewrite (word_read _ w).
Qed.

Lemma ws_arg (i : nat) : (i < length argv)%nat -> ws !! (1 + i)%nat = argp !! i.
Proof. intros Hi. subst ws. unfold vector_words. simpl. by rewrite lookup_app_l by (by rewrite length_pointers). Qed.

Lemma ws_argv_end : ws !! (1 + length argv)%nat = Some 0.
Proof. subst ws. unfold vector_words. simpl. by rewrite list_lookup_middle by (by rewrite length_pointers). Qed.

Lemma ws_tail (i : nat) : ws !! (2 + length argv + i)%nat = (envp ++ [0; 0; 0]) !! i.
Proof.
  subst ws. unfold vector_words. simpl.
  rewrite lookup_app_r by (rewrite length_pointers; lia).
  rewrite length_pointers. by replace (S (length argv + i) - length argv)%nat with (S i) by lia.
Qed.

(** The strings, found at their pointers. *)
Lemma args_here : Forall2 (fun p s => string_here block (p - address) s) argp argv.
Proof.
  apply Forall_app in Hnul as [Ha _]. subst argp block.
  replace start with (len (le_words (vector_words address (strings_at argv env) argv env)))
    by (rewrite length_le_words, length_vector_words; done).
  eapply cstrings_here; [|done]. unfold block_image. rewrite cstrings_app, <-app_assoc. done.
Qed.

Lemma envs_here : Forall2 (fun p s => string_here block (p - address) s) envp env.
Proof.
  apply Forall_app in Hnul as [_ He]. subst envp block.
  replace (start + len (cstrings argv))
    with (len (le_words (vector_words address (strings_at argv env) argv env) ++ cstrings argv))
    by (rewrite length_app, Nat2Z.inj_add, length_le_words, length_vector_words; done).
  eapply cstrings_here; [|done]. unfold block_image. rewrite cstrings_app, <-!app_assoc. done.
Qed.

(** A vector of pointers to the strings [ss], from word [o] of the block. *)
Definition vector_here (o : nat) (ps : list Z) (ss : list (list Z)) : Prop :=
  (forall i p, ps !! i = Some p -> Startup.word_at block (8 * Z.of_nat o) (Z.of_nat i) = Ok p) /\
  Forall (fun p => address < p < address + size) ps /\
  Forall2 (fun p s => string_here block (p - address) s) ps ss /\
  Forall (fun s => is_utf8 s = true) ss.

Lemma argv_here : vector_here 1 argp argv.
Proof.
  apply Forall_app in Hutf as [Ha _]. unfold vector_here. split_conj; [|apply pointers_ok|apply args_here|done].
  intros i p Hi. apply word_at_read. rewrite ws_arg; [done|].
  apply lookup_lt_Some in Hi. subst argp. by rewrite length_pointers in Hi.
Qed.

Lemma env_here : vector_here (2 + length argv) envp env.
Proof.
  apply Forall_app in Hutf as [_ He]. unfold vector_here. split_conj; [|apply pointers_ok|apply envs_here|done].
  intros i p Hi. apply word_at_read. rewrite ws_tail. by apply lookup_app_l_Some.
Qed.

Lemma validate_strings_here o ps ss :
  vector_here o ps ss ->
  Startup.validate_strings block address (address + size) (8 * Z.of_nat o) (seqZ 0 (len ss)) = Ok tt.
Proof.
  intros (Hw & Hr & Hs & Hu). pose proof (Forall2_length _ _ _ Hs) as Hlen.
  assert (Forall (fun i => 0 <= i < len ss) (seqZ 0 (len ss))) as Hi.
  { apply Forall_forall. intros i Hi%elem_of_seqZ. lia. }
  induction Hi as [|i js Hi _ IH]; cbn [Startup.validate_strings]; [done|].
  destruct (lookup_lt_is_Some_2 ps (Z.to_nat i)) as [p Hp]; [lia|].
  destruct (Forall2_lookup_l _ _ _ _ _ Hs Hp) as (s & Hsi & Hsh).
  pose proof (Forall_lookup_1 _ _ _ _ Hr Hp) as Hpr. pose proof (Forall_lookup_1 _ _ _ _ Hu Hsi) as Hsu.
  destruct (string_here_read _ _ _ Hsh) as (rest & Hg & Hn & Ht & _).
  replace i with (Z.of_nat (Z.to_nat i)) at 1 by lia. rewrite (Hw _ _ Hp). cbn [res_bind].
  unfold Startup.validate_string. simpl in Hpr, Hsu.
  destruct (Z.ltb_spec p address), (Z.geb_spec p (address + size)); try lia. cbn [orb].
  rewrite (proj2 (minus_Ok p address (p - address))) by lia. cbn [res_bind].
  rewrite Hg. cbn [or_panic res_bind]. rewrite Hn. cbn [ok_or res_bind]. rewrite Ht. cbn [or_panic res_bind].
  rewrite Hsu. cbn [res_bind]. exact IH.
Qed.

(** One canonical string at the cursor. *)
Lemma validate_canonical_here o (i : Z) cursor total p s :
  Startup.word_at block (8 * Z.of_nat o) i = Ok p -> p = address + cursor ->
  string_here block cursor s -> is_utf8 s = true -> 0 <= total <= size ->
  Startup.validate_canonical_v2_string block address (8 * Z.of_nat o) i cursor total =
  Ok (cursor + (len s + 1), total + len s).
Proof.
  intros Hw -> Hs Hu Ht. destruct (string_here_read _ _ _ Hs) as (rest & Hg & Hn & Hr & ? & Hlt).
  rewrite block_length in Hlt. unfold Startup.validate_canonical_v2_string. rewrite Hw. cbn [res_bind].
  rewrite checked_add_u64_ok by lia. cbn [ok_or res_bind]. rewrite Z.eqb_refl. cbn [negb].
  rewrite Hg. cbn [ok_or res_bind]. rewrite Hn. cbn [ok_or res_bind]. rewrite Hr. cbn [or_panic res_bind].
  rewrite Hu. cbn [negb]. do 3 (rewrite checked_add_u64_ok by lia; cbn [ok_or res_bind]). done.
Qed.

Lemma validate_canonical_strings_here (o : nat) ss : forall (k : nat) cursor total pre post,
  (forall i p, pointers address cursor ss !! i = Some p ->
    Startup.word_at block (8 * Z.of_nat o) (Z.of_nat (k + i)) = Ok p) ->
  block = pre ++ cstrings ss ++ post -> len pre = cursor ->
  Forall (fun s => 0 ∉ s) ss -> Forall (fun s => is_utf8 s = true) ss ->
  0 <= total -> total + string_bytes ss <= size ->
  Startup.validate_canonical_strings block address (8 * Z.of_nat o) (seqZ (Z.of_nat k) (len ss)) cursor total =
  Ok (cursor + len (cstrings ss), total + string_bytes ss).
Proof.
  induction ss as [|s ss IH]; intros k cursor total pre post Hw Hb Hpre Hn Hu Ht Hmax.
  { cbn. by rewrite !Z.add_0_r. }
  apply Forall_cons in Hn as [Hns Hn]. apply Forall_cons in Hu as [Hus Hu].
  pose proof (string_bytes_nonneg ss). change (string_bytes (s :: ss)) with (len s + string_bytes ss) in *.
  rewrite seqZ_cons by (cbn [length]; lia). cbn [Startup.validate_canonical_strings].
  replace (Z.of_nat k) with (Z.of_nat (k + 0)) at 1 by lia.
  rewrite (validate_canonical_here o _ cursor total (address + cursor) s); [|by apply Hw|done| |done|lia].
  2:{ exists pre, (cstrings ss ++ post). rewrite Hb, cstrings_cons, <-app_assoc. done. }
  cbn [res_bind]. rewrite length_cstrings_cons.
  replace (Z.succ (Z.of_nat k)) with (Z.of_nat (S k)) by lia.
  replace (Z.pred (len (s :: ss))) with (len ss) by (cbn [length]; lia).
  rewrite (IH (S k) _ _ (pre ++ s ++ [0]) post); [f_equal; f_equal; lia| | | |done|done|lia|lia].
  - intros i p Hi. replace (S k + i)%nat with (k + S i)%nat by lia. by apply Hw.
  - by rewrite Hb, cstrings_cons, <-!app_assoc.
  - rewrite !length_app. cbn [length]. lia.
Qed.

(** Reading the environment back. *)
Lemma string_slice_here p s :
  address < p -> string_here block (p - address) s -> Startup.string_slice block address p = Ok s.
Proof.
  intros Hp Hs. destruct (string_here_read _ _ _ Hs) as (rest & Hg & Hn & Hr & _).
  unfold Startup.string_slice. rewrite (proj2 (checked_sub_Some p address (p - address))) by lia.
  cbn [ok_or res_bind]. rewrite Hg. cbn [ok_or res_bind]. rewrite Hn. cbn [ok_or res_bind]. by rewrite Hr.
Qed.

Lemma entry_read o ps ss (i : nat) s :
  vector_here o ps ss -> ss !! i = Some s ->
  exists p, Startup.word_at block (8 * Z.of_nat o) (Z.of_nat i) = Ok p /\
    Startup.string_slice block address p = Ok s.
Proof.
  intros (Hw & Hr & Hs & _) Hi. destruct (Forall2_lookup_r _ _ _ _ _ Hs Hi) as (p & Hp & Hsh).
  exists p. split; [by apply Hw|]. pose proof (Forall_lookup_1 _ _ _ _ Hr Hp) as Hpr. simpl in Hpr.
  apply string_slice_here; [lia|done].
Qed.

Lemma reject_duplicates_here o ps ss name names : forall idx : list Z,
  vector_here o ps ss ->
  Forall (fun j => exists i n, j = Z.of_nat i /\ names !! i = Some n /\ n <> name) idx ->
  env_name <$> ss = Some <$> names ->
  Startup.reject_duplicates block address (8 * Z.of_nat o) name idx = Ok tt.
Proof.
  intros idx Hv Hidx Hnames. induction Hidx as [|j idx (i & n & -> & Hn & Hne) _ IH];
    cbn [Startup.reject_duplicates]; [done|].
  assert (exists s, ss !! i = Some s /\ env_name s = Some n) as (s & Hs & Hsn).
  { assert ((env_name <$> ss) !! i = Some (Some n)) as H by (by rewrite Hnames, list_lookup_fmap, Hn).
    apply list_lookup_fmap_Some in H as (s & ? & ?). by exists s. }
  destruct (entry_read _ _ _ _ _ Hv Hs) as (p & -> & Hp). cbn [res_bind]. rewrite Hp. cbn [res_bind].
  rewrite runtime_environment_name, Hsn. cbn [res_bind]. by rewrite bool_decide_eq_false_2.
Qed.

Lemma validate_environment_here o ps ss :
  vector_here o ps ss -> valid_env ss ->
  Startup.validate_environment block address (8 * Z.of_nat o) (seqZ 0 (len ss)) = Ok tt.
Proof.
  intros Hv (names & Hnames & Hnd).
  assert (Forall (fun j => 0 <= j < len ss) (seqZ 0 (len ss))) as Hj.
  { apply Forall_forall. intros j Hj%elem_of_seqZ. lia. }
  induction Hj as [|j js Hj _ IH]; cbn [Startup.validate_environment]; [done|].
  assert (length names = length ss) as Hln by (rewrite <-(length_fmap Some names), <-Hnames, length_fmap; done).
  destruct (lookup_lt_is_Some_2 ss (Z.to_nat j)) as [s Hs]; [lia|].
  destruct (lookup_lt_is_Some_2 names (Z.to_nat j)) as [n Hn]; [lia|].
  assert (env_name s = Some n) as Hsn.
  { assert ((env_name <$> ss) !! Z.to_nat j = (Some <$> names) !! Z.to_nat j) as H by (by rewrite Hnames).
    rewrite !list_lookup_fmap, Hs, Hn in H. by injection H. }
  destruct (entry_read _ _ _ _ _ Hv Hs) as (p & Hw & Hp). rewrite Z2Nat.id in Hw by lia. rewrite Hw. cbn [res_bind].
  rewrite Hp. cbn [res_bind]. rewrite runtime_environment_name, Hsn. cbn [res_bind].
  rewrite (reject_duplicates_here o ps ss n names); [exact IH|done| |done].
  apply Forall_forall. intros k Hk%elem_of_seqZ.
  destruct (lookup_lt_is_Some_2 names (Z.to_nat k)) as [m Hm]; [lia|].
  exists (Z.to_nat k), m. split_conj; [lia|done|]. intros ->.
  pose proof (NoDup_lookup _ _ _ _ Hnd Hm Hn). lia.
Qed.

(** The scans stop at the terminators. *)
Lemma scan_vector_here (n : nat) : forall (fuel k : nat) (count : Z),
  (n < fuel)%nat -> 0 <= count -> count + Z.of_nat n < 2 ^ 32 ->
  (forall i, (i < n)%nat -> exists p, ws !! (k + i)%nat = Some p /\ p <> 0) -> ws !! (k + n)%nat = Some 0 ->
  Startup.scan_null_terminated_vector_loop fuel block count (8 * Z.of_nat k) =
  Ok (count + Z.of_nat n, 8 * Z.of_nat (k + n + 1)).
Proof.
  induction n as [|n IH]; intros [|fuel] k count Hf Hc Hb Hp Hz; try lia;
    cbn [Startup.scan_null_terminated_vector_loop]; unfold Startup.WORD_SIZE.
  - rewrite Nat.add_0_r in Hz. pose proof (lookup_lt_Some _ _ _ Hz). pose proof start_eq.
    rewrite (word_read _ _ Hz). cbn [ok_or res_bind]. rewrite Z.eqb_refl, checked_add_u64_ok by lia.
    cbn [ok_or res_bind]. f_equal. f_equal; lia.
  - destruct (Hp 0%nat) as (p & Hpk & Hne); [lia|]. rewrite Nat.add_0_r in Hpk.
    pose proof (lookup_lt_Some _ _ _ Hpk). pose proof start_eq.
    rewrite (word_read _ _ Hpk). cbn [ok_or res_bind]. rewrite (proj2 (Z.eqb_neq p 0)) by done.
    rewrite checked_add_u64_ok by lia. cbn [ok_or res_bind]. rewrite checked_add_u64_ok by lia.
    cbn [ok_or res_bind]. replace (8 * Z.of_nat k + 8) with (8 * Z.of_nat (S k)) by lia.
    rewrite IH; [f_equal; f_equal; lia|lia|lia|lia| |].
    + intros i Hi. destruct (Hp (S i)) as (q & Hq & ?); [lia|]. exists q.
      by replace (S k + i)%nat with (k + S i)%nat by lia.
    + by replace (S k + n)%nat with (k + S n)%nat by lia.
Qed.

Lemma aux_words (k : nat) :
  k = (3 + length argv + length env)%nat -> ws !! k = Some 0 /\ ws !! S k = Some 0.
Proof.
  assert (forall i : nat, ws !! (2 + length argv + (length env + i))%nat = [0; 0; 0] !! i) as H.
  { intros i. rewrite ws_tail, lookup_app_r by (subst envp; rewrite length_pointers; lia).
    f_equal. subst envp. rewrite length_pointers. lia. }
  intros ->. split; [rewrite <-(H 1%nat) at 1|rewrite <-(H 2%nat) at 1]; (try f_equal); lia || done.
Qed.

Lemma scan_auxiliary_here :
  let at_ := 8 * Z.of_nat (3 + length argv + length env) in
  Startup.scan_auxiliary_vector block at_ = Ok 0 /\
  Startup.scan_auxiliary_vector_end block at_ = Ok start.
Proof.
  destruct (aux_words _ eq_refl) as [H0 H1]. cbv zeta. set (k := (3 + length argv + length env)%nat) in *.
  pose proof (lookup_lt_Some _ _ _ H1). pose proof start_eq as Hs.
  pose proof (word_read _ _ H0) as Hr0. pose proof (word_read _ _ H1) as Hr1.
  replace (8 * Z.of_nat (S k)) with (8 * Z.of_nat k + 8) in Hr1 by lia.
  unfold Startup.scan_auxiliary_vector, Startup.scan_auxiliary_vector_end.
  cbn [Startup.scan_auxiliary_vector_loop Startup.scan_auxiliary_vector_end_loop]. unfold Startup.WORD_SIZE.
  rewrite Hr0. cbn [ok_or res_bind]. rewrite checked_add_u64_ok by lia.
  rewrite (proj2 (plus_Ok (8 * Z.of_nat k) 8 (8 * Z.of_nat k + 8))) by lia. cbn [ok_or res_bind].
  rewrite Hr1. cbn [ok_or res_bind].
  rewrite !bool_decide_eq_true_2 by done. split; [done|]. rewrite checked_add_u64_ok by lia.
  cbn [ok_or res_bind]. f_equal. subst k. unfold start, strings_at. lia.
Qed.

Lemma validate_v2_here :
  1 <= len argv <= 64 -> len env <= 64 -> string_bytes (argv ++ env) <= 16 * 1024 -> valid_env env ->
  Startup.validate_v2_layout block address (len argv) 8 (len env) (8 * Z.of_nat (2 + length argv))
    (8 * Z.of_nat (3 + length argv + length env)) = Ok tt.
Proof.
  intros Ha He Hsb Hv. unfold Startup.validate_v2_layout, in_range.
  destruct (Z.leb_spec 1 (len argv)), (Z.leb_spec (len argv) 64); try lia. cbn [andb negb].
  rewrite gtb_false by done. rewrite (proj2 scan_auxiliary_here). cbn [res_bind].
  destruct argv_here as (Hwa & _ & _ & Hua), env_here as (Hwe & _ & _ & Hue).
  pose proof Hnul as [Hna Hne]%Forall_app. rewrite string_bytes_app in Hsb.
  pose proof (string_bytes_nonneg argv). pose proof (string_bytes_nonneg env).
  pose proof (length_cstrings (argv ++ env)) as Hcl. rewrite string_bytes_app in Hcl.
  assert (0 <= start) by (subst start; unfold strings_at; lia). fold start in Hroom.
  set (W := le_words ws). set (Z0 := replicate (Z.to_nat (size - start - len (cstrings (argv ++ env)))) 0).
  assert (block = W ++ (cstrings argv ++ cstrings env) ++ Z0) as Hb
    by (subst block; unfold block_image; by rewrite <-cstrings_app).
  assert (len W = start) as HW by (subst W; rewrite length_le_words; by rewrite start_eq).
  pose proof (validate_canonical_strings_here 1 argv 0 start 0 W (cstrings env ++ Z0)) as Hca.
  change (8 * Z.of_nat 1) with 8 in Hca. change (Z.of_nat 0) with 0 in Hca.
  rewrite Hca; [|exact Hwa|by rewrite Hb, <-!app_assoc|done|done|done|lia|lia]. cbn [res_bind].
  pose proof (validate_canonical_strings_here (2 + length argv) env 0 (start + len (cstrings argv))
    (0 + string_bytes argv) (W ++ cstrings argv) Z0) as Hce. change (Z.of_nat 0) with 0 in Hce.
  rewrite Hce; [|exact Hwe|by rewrite Hb, <-!app_assoc|rewrite length_app; lia|done|done|lia|lia].
  cbn [res_bind]. rewrite gtb_false by lia. by eapply validate_environment_here, Hv; apply env_here.
Qed.

Lemma parse_written registers :
  Startup.startup_argument0 registers <> 0 -> address mod 16 = 0 ->
  Startup.startup_block_size (Startup.startup_argument1 registers) = Ok size ->
  (Startup.startup_argument1 registers = Startup.STARTUP_ABI_V2 ->
    1 <= len argv <= 64 /\ len env <= 64 /\ string_bytes (argv ++ env) <= 16 * 1024 /\ valid_env env) ->
  Startup.parse registers address block =
  Ok (Startup.mkBlock block address (Startup.startup_argument1 registers) (Startup.startup_argument0 registers)
        8 (len argv) (8 * Z.of_nat (2 + length argv)) (len env) (8 * Z.of_nat (3 + length argv + length env)) 0).
Proof.
  intros Hh Hm Hsz Hv2. unfold Startup.parse. rewrite Hsz. cbn [res_bind].
  rewrite (proj2 (Z.eqb_neq _ 0) Hh), Hm, block_length, (Z.eqb_refl size), checked_add_u64_ok by lia.
  cbn [Z.eqb negb ok_or res_bind]. pose proof start_eq as Hs. pose proof (length_vector_words address start argv env) as Hlw.
  fold ws in Hlw. pose proof (word_read 0 (len argv) eq_refl) as Hw0. change (8 * Z.of_nat 0) with 0 in Hw0.
  rewrite Hw0. cbn [ok_or res_bind]. unfold Startup.advance_words, Startup.WORD_SIZE.
  rewrite checked_mul_u64_ok, checked_add_u64_ok by lia. cbn [ok_or res_bind].
  unfold Startup.require_word. replace (8 + len argv * 8) with (8 * Z.of_nat (1 + length argv)) by lia.
  rewrite (word_read _ _ ws_argv_end), bool_decide_eq_true_2 by done. cbn [res_bind].
  rewrite checked_add_u64_ok by lia. cbn [ok_or res_bind].
  replace (8 * Z.of_nat (1 + length argv) + 8) with (8 * Z.of_nat (2 + length argv)) by lia.
  unfold Startup.scan_null_terminated_vector. rewrite (scan_vector_here (length env)); [|..].
  - rewrite Z.add_0_l. cbn [res_bind]. replace (2 + length argv + length env + 1)%nat with (3 + length argv + length env)%nat by lia.
    rewrite (proj1 scan_auxiliary_here). cbn [res_bind].
    pose proof (validate_strings_here _ _ _ argv_here) as Hva. change (8 * Z.of_nat 1) with 8 in Hva.
    rewrite Hva. cbn [res_bind].
    rewrite (validate_strings_here _ _ _ env_here). cbn [res_bind].
    destruct (Z.eqb_spec (Startup.startup_argument1 registers) Startup.STARTUP_ABI_V2) as [E|]; [|done].
    destruct (Hv2 E) as (? & ? & ? & ?). by rewrite validate_v2_here.
  - pose proof block_length. lia.
  - lia.
  - lia.
  - intros i Hi. rewrite ws_tail. destruct (lookup_lt_is_Some_2 envp i) as [q Hq].
    { subst envp. by rewrite length_pointers. }
    exists q. rewrite lookup_app_l by (by eapply lookup_lt_Some). split; [done|].
    destruct pointers_ok as [_ He]. pose proof (Forall_lookup_1 _ _ _ _ He Hq) as Hr. simpl in Hr. lia.
  - rewrite ws_tail. rewrite lookup_app_r by (subst envp; rewrite length_pointers; lia).
    subst envp. rewrite length_pointers, Nat.sub_diag. done.
Qed.

Lemma string_of_vector_here self o ps ss i :
  Startup.bytes self = block -> Startup.address self = address -> vector_here o ps ss -> 0 <= i ->
  Startup.string_of_vector self (len ss) (8 * Z.of_nat o) i = Ok (get_at ss i).
Proof.
  intros Hb Ha Hv Hi. unfold Startup.string_of_vector, get_at. rewrite (proj2 (Z.leb_le 0 i)) by done.
  destruct (Z.geb_spec i (len ss)).
  { by rewrite lookup_ge_None_2 by lia. }
  destruct (lookup_lt_is_Some_2 ss (Z.to_nat i)) as [s Hs]; [lia|]. rewrite Hs, Hb.
  destruct Hv as (Hw & Hr & Hsh & _). destruct (Forall2_lookup_r _ _ _ _ _ Hsh Hs) as (p & Hp & Hh).
  pose proof (Forall_lookup_1 _ _ _ _ Hr Hp) as Hpr. simpl in Hpr.
  replace i with (Z.of_nat (Z.to_nat i)) by lia. rewrite (Hw _ _ Hp).
  destruct (string_here_read _ _ _ Hh) as (rest & Hg & Hn & Ht & _).
  unfold Startup.string_at. rewrite Ha, Hb, (proj2 (minus_Ok p address (p - address))) by lia. cbn [res_bind].
  rewrite Hg. cbn [or_panic res_bind]. rewrite Hn. cbn [or_panic res_bind]. by rewrite Ht.
Qed.

Lemma accessors_written self :
  self = Startup.mkBlock block address (Startup.version self) (Startup.bootstrap_channel self)
           8 (len argv) (8 * Z.of_nat (2 + length argv)) (len env) (8 * Z.of_nat (3 + length argv + length env)) 0 ->
  forall i, 0 <= i -> Startup.arg self i = Ok (get_at argv i) /\ Startup.env self i = Ok (get_at env i) /\
    Startup.aux self i = Ok None.
Proof.
  intros -> i Hi. unfold Startup.arg, Startup.env, Startup.aux. cbn [Startup.argc Startup.argv_offset
    Startup.envc Startup.envp_offset Startup.auxc]. split_conj.
  - apply (string_of_vector_here _ 1 argp argv); [done|done|apply argv_here|done].
  - apply (string_of_vector_here _ (2 + length argv) envp env); [done|done|apply env_here|done].
  - by destruct (Z.geb_spec i 0); [|lia].
Qed.
End canonical.

(** What the process sees of a block: its argument and environment strings, and
    no auxiliary entries. *)
Definition reads (self : Startup.StartupBlock) (argv env : list (list Z)) : Prop :=
  Startup.argc self = len argv /\ Startup.envc self = len env /\ Startup.auxc self = 0 /\
  forall i, 0 <= i -> Startup.arg self i = Ok (get_at argv i) /\ Startup.env self i = Ok (get_at env i) /\
    Startup.aux self i = Ok None.

(** The strings with their NUL terminators. *)
Definition terminated_bytes (ss : list (list Z)) : Z := string_bytes ss + len ss.

(** C9: the v2 startup block of a launched job survives the trip from loader to
    process.  [write_startup_block_v2] never panics, and refuses strings of more
    than 16 KiB.  Strings that stay within 16 KiB together with their NUL
    terminators are written exactly when the block has its fixed size and they
    satisfy the other v2 rules; then, with a nonzero bootstrap handle and an aligned
    address, the process's [StartupBlock::parse] accepts the block and its accessors
    return exactly the argument and environment strings that were written. *)
Theorem startup_v2_round_trip block address path argv env registers out :
  0 < address -> address + Image.STARTUP_V2_BLOCK_BYTES < 2 ^ 64 -> address mod 16 = 0 ->
  Forall (fun s => is_utf8 s = true) (argv ++ env) ->
  Startup.startup_argument0 registers <> 0 ->
  Startup.startup_argument1 registers = Startup.STARTUP_ABI_V2 ->
  Image.write_startup_block_v2 block address path argv env <> Panic /\
  (string_bytes (argv ++ env) > 16 * 1024 -> is_ok (Image.write_startup_block_v2 block address path argv env) = false) /\
  (terminated_bytes (argv ++ env) <= 16 * 1024 ->
   (is_ok (Image.write_startup_block_v2 block address path argv env) = true <->
    len block = Image.STARTUP_V2_BLOCK_BYTES /\ valid_v2 address path argv env) /\
   (Image.write_startup_block_v2 block address path argv env = Ok out ->
    exists self, Startup.parse registers address out = Ok self /\ reads self argv env)).
Proof.
  intros Ha Hb Hal Hutf Hh Hver.
  destruct (write_startup_block_v2_spec block address path argv env) as [Hnp Hspec]; [lia|].
  assert (is_ok (Image.write_startup_block_v2 block address path argv env) = true <->
    len block = Image.STARTUP_V2_BLOCK_BYTES /\ valid_v2 address path argv env) as Hok.
  { split.
    - destruct (Image.write_startup_block_v2 block address path argv env) as [o| |] eqn:E; try done.
      intros _. by destruct (proj1 (Hspec o) eq_refl) as (? & ? & _).
    - intros [Hl Hv]. by rewrite (proj2 (Hspec _) (conj Hl (conj Hv eq_refl))). }
  split; [done|]. split.
  { intros Hlong. destruct (is_ok _); [|done]. destruct (proj1 Hok eq_refl) as [_ Hv]. destruct Hv as (_ & _ & _ & _ & _ & Hbytes & _). lia. }
  intros _. split; [done|].
  intros (Hl & Hv & ->)%Hspec. destruct Hv as (Hla & Hle & Hhd & _ & Hnul & Hbytes & Henv & _).
  assert (1 <= len argv) by (destruct argv; [done|cbn [length]; lia]).
  assert (0 <= Image.STARTUP_V2_BLOCK_BYTES < 2 ^ 32) as Hsz by done.
  eexists. split.
  - apply parse_written; try done; [by apply v2_room|by rewrite Hver].
  - unfold reads. cbn [Startup.argc Startup.envc Startup.auxc]. split_conj; [done..|].
    apply (accessors_written Image.STARTUP_V2_BLOCK_BYTES address argv env); try done. by apply v2_room.
Qed.

(** The same for the single-page v1 block of the first process:
    [write_startup_block] succeeds exactly on a nonempty NUL-free path that fits
    the page, and [StartupBlock::parse] reads back that path as the only
    argument, with no environment. *)
Theorem startup_v1_round_trip page address path registers out :
  0 < address -> address + Elf.PAGE_SIZE < 2 ^ 64 -> address mod 16 = 0 -> is_utf8 path = true ->
  Startup.startup_argument0 registers <> 0 ->
  Startup.startup_argument1 registers = Startup.STARTUP_ABI_V1 ->
  Image.write_startup_block page address path <> Panic /\
  (is_ok (Image.write_startup_block page address path) = true <->
   len page = Elf.PAGE_SIZE /\ valid_v1 address path) /\
  (Image.write_startup_block page address path = Ok out ->
   exists self, Startup.parse registers address out = Ok self /\ reads self [path] []).
Proof.
  intros Ha Hb Hal Hutf Hh Hver.
  destruct (write_startup_block_spec page address path) as [Hnp Hspec]; [lia|]. split_conj; [done| |].
  { split.
    - destruct (Image.write_startup_block page address path) as [o| |] eqn:E; try done.
      intros _. by destruct (proj1 (Hspec o) eq_refl) as (? & ? & _).
    - intros [Hl Hv]. by rewrite (proj2 (Hspec _) (conj Hl (conj Hv eq_refl))). }
  intros (Hl & (Hne & Hnul & Hfit & _) & ->)%Hspec.
  assert (strings_at [path] [] + len (cstrings ([path] ++ [])) <= Elf.PAGE_SIZE) as Hroom.
  { rewrite length_cstrings. unfold string_bytes. cbn [app foldr length]. unfold strings_at. cbn [length]. lia. }
  assert (0 <= Elf.PAGE_SIZE < 2 ^ 32) as Hsz by done.
  assert (Forall (fun s => 0 ∉ s) ([path] ++ [])) by (by repeat constructor).
  assert (Forall (fun s => is_utf8 s = true) ([path] ++ [])) by (by repeat constructor).
  eexists. split.
  - apply parse_written; try done; by rewrite Hver.
  - unfold reads. cbn [Startup.argc Startup.envc Startup.auxc]. split_conj; [done..|].
    by apply (accessors_written Elf.PAGE_SIZE address [path] []).
Qed.

(** ** Materialization *)

(** The memory object of a segment can be filled and mapped. *)
Definition materializable (image : list Z) (m : Image.MaterializationPlan) : Prop :=
  0 <= Image.destination_offset m /\
  Image.destination_offset m + Image.source_size m <= Image.object_size m /\
  0 <= Image.source_offset m /\ Image.source_offset m + Image.source_size m <= len image /\
  Image.child_address m mod Elf.PAGE_SIZE = 0 /\ Image.object_size m mod Elf.PAGE_SIZE = 0 /\
  (Image.child_address m + Image.object_size m <=
     Image.s_child_address Image.INITIAL_STACK - Elf.STACK_GUARD_BYTES \/
   Image.s_child_address Image.INITIAL_STACK + Image.s_object_size Image.INITIAL_STACK <= Image.child_address m).

Lemma placed_materializable image s : placed image s -> materializable image (Image.from_segment s).
Proof.
  intros H. pose proof (placed_ends _ _ H) as (Hend & _). unfold map_end in *.
  destruct H as (? & ? & ? & ? & Hs & He & Hl & _ & _ & _ & Hst). unfold map_end in *.
  pose proof (page_floor_bounds (Elf.virtual_address s)).
  assert (forall v, page_floor v mod Elf.PAGE_SIZE = 0) as Hf by (intros; by apply Z.mod_mul).
  assert (forall v, page_ceil v mod Elf.PAGE_SIZE = 0) as Hc by (intros; by apply Z.mod_mul).
  unfold materializable. cbn [Image.from_segment Image.destination_offset Image.source_size Image.object_size
    Image.source_offset Image.child_address]. split_conj; try lia.
  - by rewrite Hs.
  - replace (Elf.mapping_size s) with (page_ceil (Elf.virtual_address s + Elf.memory_size s) - Elf.mapping_start s) by lia.
    by rewrite Hs, Zminus_mod, Hf, Hc.
  - change (Image.s_child_address Image.INITIAL_STACK - Elf.STACK_GUARD_BYTES) with Elf.STACK_GUARD_START.
    change (Image.s_child_address Image.INITIAL_STACK + Image.s_object_size Image.INITIAL_STACK) with Elf.STACK_TOP.
    lia.
Qed.

(** C31: the memory objects the loader makes of an accepted image are safe to
    fill and map: each copy of file bytes stays inside the image and inside its
    object, objects are whole pages at page addresses, apart from each other and
    from the initial stack with its guard page. *)
Theorem materialization_sound image output p output' :
  bytes_ok image -> Elf.plan image output = Ok (p, output') ->
  let ms := Image.from_segment <$> Elf.segments p in
  Forall (materializable image) ms /\
  StronglySorted (fun m1 m2 => Image.child_address m1 + Image.object_size m1 <= Image.child_address m2) ms.
Proof.
  intros Hok H. apply plan_sound in H as (h & ss & _ & _ & _ & HF & HP & HS & _); [|done]. cbv zeta.
  assert (Forall (placed image) (Elf.segments p)) as Hp by (rewrite HP; by eapply loads_placed).
  split.
  - apply Forall_fmap. eapply Forall_impl; [exact Hp|]. intros s. apply placed_materializable.
  - clear -HS. induction HS as [|s ss _ IH Hs]; simpl; constructor; [done|]. by apply Forall_fmap.
Qed.

(** ** Witnesses *)

#[global] Instance StartupBlockError_eq_dec : EqDecision Image.StartupBlockError.
Proof. solve_decision. Defined.

Definition sample_argv : list (list Z) := [[47; 97]; [195; 169]].
Definition sample_env : list (list Z) := [[65; 61; 49]].
Definition sample_address : Z := 0x7fffffff0000.
Definition sample_registers (version : Z) : Startup.StartupRegisters := Startup.mkRegisters 77 version.
Definition sample_input (size : Z) : list Z := replicate (Z.to_nat size) 255.
Definition sample_block : list Z := block_image Image.STARTUP_V2_BLOCK_BYTES sample_address sample_argv sample_env.
Definition sample_page : list Z := block_image Elf.PAGE_SIZE sample_address [[47; 97]] [].

Lemma sample_block_written :
  Image.write_startup_block_v2 (sample_input 20480) sample_address [47; 97] sample_argv sample_env = Ok sample_block.
Proof. apply (bool_decide_unpack _). vm_compute. exact I. Qed.

Lemma sample_page_written :
  Image.write_startup_block (sample_input 4096) sample_address [47; 97] = Ok sample_page.
Proof. apply (bool_decide_unpack _). vm_compute. exact I. Qed.

Lemma startup_v2_round_trip_witness :
  exists self, Startup.parse (sample_registers 2) sample_address sample_block = Ok self /\ reads self sample_argv sample_env.
Proof.
  destruct (startup_v2_round_trip (sample_input 20480) sample_address [47; 97] sample_argv sample_env
    (sample_registers 2) sample_block) as (_ & _ & H); [reflexivity|reflexivity|reflexivity| |discriminate|reflexivity|].
  - by apply (bool_decide_unpack _).
  - destruct H as [_ H]; [vm_compute; discriminate|]. exact (H sample_block_written).
Defined.

Lemma startup_v1_round_trip_witness :
  exists self, Startup.parse (sample_registers 1) sample_address sample_page = Ok self /\ reads self [[47; 97]] [].
Proof.
  destruct (startup_v1_round_trip (sample_input 4096) sample_address [47; 97] (sample_registers 1) sample_page)
    as (_ & _ & H); [reflexivity|reflexivity|reflexivity|reflexivity|discriminate|reflexivity|].
  exact (H sample_page_written).
Defined.

Lemma materialization_sound_witness :
  Elf.plan sample_image sample_output = Ok (sample_plan, sample_output') /\
  Forall (materializable sample_image) (Image.from_segment <$> Elf.segments sample_plan).
Proof.
  assert (Elf.plan sample_image sample_output = Ok (sample_plan, sample_output')) as H by (vm_compute; reflexivity).
  assert (bytes_ok sample_image) as Hok by (by apply (bool_decide_unpack _)).
  destruct (materialization_sound sample_image sample_output sample_plan sample_output' Hok H) as [Hm _].
  by split.
Defined.
