(* ===== verification/StartupSafety.v ===== *)
(** * The startup parser on arbitrary blocks

    [StartupBlock::parse] answers on every block without a panic, its scans
    within one step per byte; the accessors of a block it accepts never panic
    and return valid text. *)

From stdpp Require Import base tactics option list list_numbers.
From Stdlib Require Import ZArith Lia.
From S2P Require Import Prelude Bytes Utf8 Startup StartupThms.
Import Startup.

Lemma read_word_Some bs o w :
  0 <= o -> read_word bs o = Some w -> o + 8 <= len bs.
Proof.
  intros Ho. unfold read_word, WORD_SIZE. unfold checked_add_u64, checked_add.
  destruct (_ <? _); [|done]. intros (v & Hv & _)%fmap_Some. apply get_range_Some in Hv. lia.
Qed.

Lemma read_word_nonneg bs o w : bytes_ok bs -> read_word bs o = Some w -> 0 <= w.
Proof.
  intros Hok. unfold read_word. destruct (checked_add_u64 o WORD_SIZE); [|done].
  intros (v & Hv & ->)%fmap_Some. by apply of_le_bound, (bytes_ok_get_range bs o z).
Qed.

Lemma word_at_Ok bs o i w : word_at bs o i = Ok w -> read_word bs (o + i * 8) = Some w.
Proof.
  unfold word_at, advance_words, WORD_SIZE. intros H. res_inv.
  destruct (checked_mul_u64 i 8) eqn:Hm; [|done]. apply checked_mul_Some in Hm as [-> _].
  by apply checked_add_Some in H0 as [-> _].
Qed.

Lemma word_at_np bs o i : word_at bs o i <> Panic.
Proof. unfold word_at. no_panic. Qed.

Lemma nul_position_Some tail n : nul_position tail = Some n -> 0 <= n < len tail.
Proof. unfold nul_position. intros (i & Hi & ->)%fmap_Some. apply position_lt in Hi. lia. Qed.

(** The text before a NUL has none. *)
Lemma nul_position_text tail n s :
  nul_position tail = Some n -> get_range tail 0 n = Some s -> 0 ∉ s.
Proof.
  unfold nul_position. intros (i & Hi & ->)%fmap_Some Hs.
  apply position_Some in Hi as (x & Hx & _ & Hbefore). pose proof (lookup_lt_Some _ _ _ Hx).
  rewrite get_range_take_nat in Hs by lia. injection Hs as <-.
  intros (j & Hj)%list_elem_of_lookup. apply lookup_take_Some in Hj as [Hj Hlt].
  by specialize (Hbefore j 0 Hlt Hj).
Qed.

Lemma environment_name_np value : environment_name value <> Panic.
Proof. rewrite runtime_environment_name. by destruct (env_name value). Qed.

Lemma string_slice_np bs address pointer : string_slice bs address pointer <> Panic.
Proof.
  unfold string_slice. no_panic. apply ok_or_Ok in H1. apply nul_position_Some in H1. lia.
Qed.

Lemma validate_string_np bs start end_ pointer :
  end_ <= start + len bs -> validate_string bs start end_ pointer <> Panic.
Proof.
  intros He. unfold validate_string, get_from. repeat (no_panic_step || (apply minus_np)); bool_prop; try lia.
  - apply minus_Ok in H as [-> ?]. lia.
  - apply ok_or_Ok, nul_position_Some in H1. lia.
Qed.

Lemma validate_canonical_v2_string_np bs address o i cursor total :
  validate_canonical_v2_string bs address o i cursor total <> Panic.
Proof.
  unfold validate_canonical_v2_string. no_panic; [apply word_at_np|].
  apply ok_or_Ok, nul_position_Some in H2. lia.
Qed.

Lemma validate_canonical_strings_np bs address o : forall indices cursor total,
  validate_canonical_strings bs address o indices cursor total <> Panic.
Proof.
  induction indices as [|i indices IH]; intros; cbn [validate_canonical_strings]; [done|].
  apply res_bind_not_panic; [apply validate_canonical_v2_string_np|]. intros [c t] _. apply IH.
Qed.

Lemma reject_duplicates_np bs address o name : forall idx, reject_duplicates bs address o name idx <> Panic.
Proof.
  induction idx as [|j idx IH]; cbn [reject_duplicates]; [done|].
  no_panic; auto using word_at_np, string_slice_np, environment_name_np.
Qed.

Lemma validate_environment_np bs address o : forall idx, validate_environment bs address o idx <> Panic.
Proof.
  induction idx as [|j idx IH]; cbn [validate_environment]; [done|].
  no_panic; auto using word_at_np, string_slice_np, environment_name_np, reject_duplicates_np.
Qed.

Lemma validate_strings_np bs address end_ o : forall idx,
  end_ <= address + len bs -> validate_strings bs address end_ o idx <> Panic.
Proof.
  induction idx as [|j idx IH]; intros; cbn [validate_strings]; [done|].
  no_panic; auto using word_at_np, validate_string_np.
Qed.

(** Each round of a scan reads a word further on. *)
Lemma scan_null_np bs : forall fuel count current,
  0 <= current -> (Z.to_nat (len bs - current) < fuel)%nat ->
  scan_null_terminated_vector_loop fuel bs count current <> Panic /\
  forall c a, scan_null_terminated_vector_loop fuel bs count current = Ok (c, a) -> 0 <= a.
Proof.
  induction fuel as [|fuel IH]; intros count current Hc Hf; [lia|]. cbn [scan_null_terminated_vector_loop].
  destruct (read_word bs current) as [w|] eqn:Hr; cbn [ok_or res_bind]; [|done].
  apply read_word_Some in Hr; [|done]. unfold WORD_SIZE, checked_add_u64, checked_add.
  destruct (w =? 0).
  - destruct (current + 8 <? 2 ^ 64); cbn; [|done]. split; [done|]. intros c a [= _ <-]. lia.
  - destruct (count + 1 <? 2 ^ 64); cbn [ok_or res_bind]; [|done].
    destruct (current + 8 <? 2 ^ 64); cbn [ok_or res_bind]; [|done]. apply IH; lia.
Qed.

Lemma scan_aux_np bs : forall fuel count current,
  0 <= current -> (Z.to_nat (len bs - current) < fuel)%nat ->
  scan_auxiliary_vector_loop fuel bs count current <> Panic.
Proof.
  induction fuel as [|fuel IH]; intros count current Hc Hf; [lia|]. cbn [scan_auxiliary_vector_loop].
  destruct (read_word bs current) as [k|] eqn:Hr; cbn [ok_or res_bind]; [|done].
  apply read_word_Some in Hr; [|done]. unfold WORD_SIZE. no_panic.
  apply ok_or_Ok, checked_add_Some in H as [-> _]. apply ok_or_Ok, checked_add_Some in H2 as [-> _].
  apply IH; lia.
Qed.

Lemma scan_aux_end_np bs : len bs < 2 ^ 32 -> forall fuel current,
  0 <= current -> (Z.to_nat (len bs - current) < fuel)%nat ->
  scan_auxiliary_vector_end_loop fuel bs current <> Panic.
Proof.
  intros Hb. induction fuel as [|fuel IH]; intros current Hc Hf; [lia|]. cbn [scan_auxiliary_vector_end_loop].
  destruct (read_word bs current) as [k|] eqn:Hr; cbn [ok_or res_bind]; [|done].
  apply read_word_Some in Hr; [|done]. unfold WORD_SIZE. no_panic; [apply plus_np; lia|].
  apply ok_or_Ok, checked_add_Some in H1 as [-> _]. apply IH; lia.
Qed.

Lemma validate_v2_layout_np bs address c o e eo ao :
  len bs < 2 ^ 32 -> 0 <= ao -> validate_v2_layout bs address c o e eo ao <> Panic.
Proof.
  intros Hb Ha. unfold validate_v2_layout. destruct (negb _); [done|]. destruct (_ >? _); [done|].
  apply res_bind_not_panic; [apply scan_aux_end_np; lia|]. intros cursor _.
  apply res_bind_not_panic; [apply validate_canonical_strings_np|]. intros [c1 t1] _.
  apply res_bind_not_panic; [apply validate_canonical_strings_np|]. intros [c2 t2] _.
  destruct (_ >? _); [done|]. apply validate_environment_np.
Qed.

Lemma startup_block_size_Ok v n : startup_block_size v = Ok n -> 0 < n < 2 ^ 32.
Proof.
  unfold startup_block_size, STARTUP_BLOCK_SIZE, STARTUP_BLOCK_V2_SIZE.
  intros H. repeat case_match; try done; injection H as <-; lia.
Qed.

Lemma parse_np registers address bs :
  bytes_ok bs -> 0 <= address -> parse registers address bs <> Panic.
Proof.
  intros Hok Ha. unfold parse. apply res_bind_not_panic; [unfold startup_block_size; by repeat case_match|].
  intros size Hsize%startup_block_size_Ok.
  destruct (_ =? 0); [done|]. destruct (negb _); [done|]. destruct (negb (len bs =? size)) eqn:Hlen; [done|]. bool_prop.
  apply res_bind_not_panic; [apply ok_or_not_panic|]. intros end_ Hend%ok_or_Ok.
  apply checked_add_Some in Hend as [-> _].
  apply res_bind_not_panic; [apply ok_or_not_panic|]. intros argc Hargc%ok_or_Ok.
  apply read_word_nonneg in Hargc; [|done].
  apply res_bind_not_panic; [apply ok_or_not_panic|]. intros after Hafter%ok_or_Ok.
  assert (0 <= after).
  { unfold advance_words, WORD_SIZE in Hafter. destruct (checked_mul_u64 argc 8) eqn:Hm; [|done].
    apply checked_mul_Some in Hm as [-> _]. apply checked_add_Some in Hafter as [-> _]. lia. }
  apply res_bind_not_panic; [unfold require_word; by destruct (bool_decide _)|]. intros _ _.
  apply res_bind_not_panic; [apply ok_or_not_panic|]. intros envp Henvp%ok_or_Ok.
  apply checked_add_Some in Henvp as [-> _]. unfold WORD_SIZE.
  destruct (scan_null_np bs (S (length bs)) 0 (after + 8)) as [Hnp Hres]; [lia|lia|].
  apply res_bind_not_panic; [done|]. intros [envc auxo] Hauxo%Hres.
  apply res_bind_not_panic; [apply scan_aux_np; lia|]. intros auxc _.
  apply res_bind_not_panic; [apply validate_strings_np; lia|]. intros _ _.
  apply res_bind_not_panic; [apply validate_strings_np; lia|]. intros _ _.
  apply res_bind_not_panic; [|done]. destruct (_ =? _); [|done]. apply validate_v2_layout_np; lia.
Qed.

(** ** The accessors of an accepted block *)

(** Word [i] of the vector at [o] points to text inside the block. *)
Definition text_at (bs : list Z) (address o i : Z) (s : list Z) : Prop :=
  exists p tail nul, word_at bs o i = Ok p /\ address <= p /\ get_from bs (p - address) = Some tail /\
    nul_position tail = Some nul /\ get_range tail 0 nul = Some s /\ is_utf8 s = true /\ 0 ∉ s.

Lemma validate_strings_Ok bs address end_ o idx :
  validate_strings bs address end_ o idx = Ok tt -> forall i, i ∈ idx -> exists s, text_at bs address o i s.
Proof.
  induction idx as [|j idx IH]; intros H i Hi; [by apply elem_of_nil in Hi|].
  cbn [validate_strings] in H. res_step. res_step. apply elem_of_cons in Hi as [->|Hi]; [|by apply IH].
  unfold validate_string in H1. res_step. repeat res_step. bool_prop.
  apply minus_Ok in H2 as [-> ?]. exists a4, a, a2, a3. split_conj; try done; try lia.
  by eapply nul_position_text.
Qed.

Lemma string_of_vector_text self count o i :
  0 <= i -> (forall j, j ∈ seqZ 0 count -> exists s, text_at (bytes self) (address self) o j s) ->
  (i < count -> exists s, string_of_vector self count o i = Ok (Some s) /\ is_utf8 s = true /\ 0 ∉ s) /\
  (count <= i -> string_of_vector self count o i = Ok None).
Proof.
  intros Hi Hall. unfold string_of_vector. destruct (Z.geb_spec i count); split; try lia; [done|]. intros _.
  destruct (Hall i) as (s & p & tail & nul & Hw & Hp & Hg & Hn & Hr & Hu & H0); [apply elem_of_seqZ; lia|].
  exists s. split_conj; [|done|done]. rewrite Hw. unfold string_at.
  rewrite (proj2 (minus_Ok p (address self) (p - address self))) by lia. cbn [res_bind].
  rewrite Hg. cbn [or_panic res_bind]. rewrite Hn. cbn [or_panic res_bind]. by rewrite Hr.
Qed.

Lemma aux_np self i : len (bytes self) < 2 ^ 32 -> 0 <= auxv_offset self -> 0 <= i -> aux self i <> Panic.
Proof.
  intros Hb Ho Hi. unfold aux. destruct (_ >=? _); [done|].
  destruct (checked_mul_u64 i 2) as [w|] eqn:Hw; [|done]. apply checked_mul_Some in Hw as [-> _].
  unfold advance_words, WORD_SIZE. destruct (checked_mul_u64 (i * 2) 8) as [n|] eqn:Hn; [|done].
  apply checked_mul_Some in Hn as [-> _]. destruct (checked_add_u64 _ _) as [o|] eqn:E; [|done].
  apply checked_add_Some in E as [-> _].
  destruct (read_word _ _) as [k|] eqn:Hk; [|done]. apply read_word_Some in Hk; [|lia].
  apply res_bind_not_panic; [apply plus_np; lia|]. intros v _. by destruct (read_word _ v).
Qed.

(** What an accepted block satisfies. *)
Lemma parse_Ok registers addr bs self :
  bytes_ok bs -> parse registers addr bs = Ok self ->
  bytes self = bs /\ address self = addr /\ len bs < 2 ^ 32 /\ 0 <= auxv_offset self /\
  (forall j, j ∈ seqZ 0 (argc self) -> exists s, text_at bs addr (argv_offset self) j s) /\
  (forall j, j ∈ seqZ 0 (envc self) -> exists s, text_at bs addr (envp_offset self) j s).
Proof.
  intros Hok H. unfold parse in H.
  apply res_bind_Ok in H as (size & Hsize%startup_block_size_Ok & H). do 3 res_step. bool_prop.
  apply res_bind_Ok in H as (end_ & _ & H).
  apply res_bind_Ok in H as (argc0 & Hargc%ok_or_Ok & H). apply read_word_nonneg in Hargc; [|done].
  apply res_bind_Ok in H as (after & Hafter%ok_or_Ok & H).
  assert (0 <= after).
  { unfold advance_words, WORD_SIZE in Hafter. destruct (checked_mul_u64 argc0 8) eqn:Hm; [|done].
    apply checked_mul_Some in Hm as [-> _]. apply checked_add_Some in Hafter as [-> _]. lia. }
  apply res_bind_Ok in H as ([] & _ & H).
  apply res_bind_Ok in H as (eo & Heo%ok_or_Ok & H). apply checked_add_Some in Heo as [-> _]. unfold WORD_SIZE in *.
  apply res_bind_Ok in H as ([envc0 ao] & Hscan & H).
  apply (scan_null_np bs) in Hscan; [|lia|lia].
  apply res_bind_Ok in H as (auxc0 & _ & H).
  apply res_bind_Ok in H as ([] & Hva & H). apply res_bind_Ok in H as ([] & Hve & H).
  apply res_bind_Ok in H as ([] & _ & H). injection H as <-. cbn.
  split_conj; try done; [lia| |]; by eapply validate_strings_Ok.
Qed.

(** C36: a process may use whatever startup block it is given.
    [StartupBlock::parse] answers on every block and register pair without a
    panic, its vector scans ending within one step per byte.  On a block it
    accepts, [arg] and [env] return valid UTF-8 without NUL bytes below their
    counts and [None] from there on, and no accessor panics. *)
Theorem startup_parse_safe registers address bs :
  bytes_ok bs -> 0 <= address ->
  parse registers address bs <> Panic /\
  forall self, parse registers address bs = Ok self -> forall i, 0 <= i ->
    ((i < argc self -> exists s, arg self i = Ok (Some s) /\ is_utf8 s = true /\ 0 ∉ s) /\
     (argc self <= i -> arg self i = Ok None)) /\
    ((i < envc self -> exists s, env self i = Ok (Some s) /\ is_utf8 s = true /\ 0 ∉ s) /\
     (envc self <= i -> env self i = Ok None)) /\
    aux self i <> Panic.
Proof.
  intros Hok Ha. split; [by apply parse_np|]. intros self H i Hi.
  apply parse_Ok in H as (Hb & Had & Hlen & Hao & Hargs & Henvs); [|done].
  subst bs address.
  destruct (string_of_vector_text self (argc self) (argv_offset self) i Hi Hargs) as [? ?].
  destruct (string_of_vector_text self (envc self) (envp_offset self) i Hi Henvs) as [? ?].
  split_conj; try done. by apply aux_np.
Qed.

(** ** Witnesses *)

Lemma startup_parse_safe_witness :
  bytes_ok (replicate 4096 255) /\ parse (mkRegisters 77 1) 4096 (replicate 4096 255) <> Panic.
Proof.
  assert (bytes_ok (replicate 4096 255)) as Hok by (by apply Forall_replicate).
  split; [done|]. by apply (startup_parse_safe (mkRegisters 77 1) 4096 (replicate 4096 255) Hok).
Defined.
