(* ===== verification/Shell.v ===== *)
(** * Shell lines and commands (crates/wyrmroot-wyrmsh-core/src/{parser,command}.rs)

    The word splitter with its quotes and escapes, and the classification of a
    line's words as a command.  The splitter's two fixed arrays are threaded
    through: a call returns the parser it leaves behind with its result, whether
    that is [Ok] or [Err].  A [&str] is the list of its bytes. *)

From Stdlib Require Import String Ascii.
From stdpp Require Import base tactics option list list_numbers.
From Stdlib Require Import ZArith Lia.
From S2P Require Import Prelude Bytes Utf8 Bootfs.

Module Shell.

(** ** parser.rs *)

Definition MAX_LINE_BYTES : Z := 4096.
Definition MAX_ARGUMENTS : Z := 64.

Inductive ParseError :=
| LineTooLong | InvalidUtf8 | Nul | TooManyArguments | OutputTooLong | TrailingBackslash
| UnsupportedEscape (byte : Z) | UnterminatedSingleQuote | UnterminatedDoubleQuote.

Record ArgRange := mkRange { range_start : Z; range_end : Z }.

Record Arguments := mkArguments { text : list Z; ranges : list ArgRange }.

Definition arguments_len (self : Arguments) : Z := len (ranges self).
Definition arguments_is_empty (self : Arguments) : bool := bool_decide (length (ranges self) = 0%nat).
Definition arguments_get (self : Arguments) (index : Z) : option (list Z) :=
  match get_at (ranges self) index with
  | Some range => str_get (text self) (range_start range) (range_end range)
  | None => None
  end.
(** [Arguments::iter], collected: [expect] is [Panic]. *)
Fixpoint collect {E A} (items : list (res E A)) : res E (list A) :=
  match items with
  | [] => Ok []
  | item :: items => let! a := item in let! l := collect items in Ok (a :: l)
  end.
Definition arguments_iter (self : Arguments) : res ParseError (list (list Z)) :=
  collect ((fun range => or_panic (str_get (text self) (range_start range) (range_end range)))
             <$> ranges self).
Definition arguments_tail (self : Arguments) : Arguments :=
  mkArguments (text self) (default [] (get_from (ranges self) 1)).

Inductive Quote := QNone | QSingle | QDouble.

Record Parser := mkParser { scratch : list Z; p_ranges : list ArgRange }.
Definition parser_new : Parser :=
  mkParser (replicate (Z.to_nat MAX_LINE_BYTES) 0) (replicate (Z.to_nat MAX_ARGUMENTS) (mkRange 0 0)).

Definition ascii_whitespace (byte : Z) : bool :=
  (byte =? 32) || (byte =? 9) || (byte =? 10) || (byte =? 13) || (byte =? 11) || (byte =? 12).

(** The locals of [parse] that its loop updates, with the parser. *)
Record Scan := mkScan {
  parser : Parser; used : Z; count : Z; start : option Z; quote : Quote }.

Definition set_start (s : Scan) (v : option Z) : Scan := mkScan (parser s) (used s) (count s) v (quote s).
Definition set_quote (s : Scan) (v : Quote) : Scan := mkScan (parser s) (used s) (count s) (start s) v.

(** [Parser::put] *)
Definition put (s : Scan) (byte : Z) : Scan * res ParseError unit :=
  match put_range (scratch (parser s)) (used s) [byte] with
  | Some scratch =>
      (mkScan (mkParser scratch (p_ranges (parser s))) (used s + 1) (count s) (start s) (quote s), Ok tt)
  | None => (s, Err OutputTooLong)
  end.

(** [self.ranges[count] = ArgRange { start: begin, end: used }; count += 1] *)
Definition end_argument (s : Scan) (begin : Z) : Scan * res ParseError unit :=
  match put_range (p_ranges (parser s)) (count s) [mkRange begin (used s)] with
  | Some ranges =>
      (mkScan (mkParser (scratch (parser s)) ranges) (used s) (count s + 1) (start s) (quote s), Ok tt)
  | None => (s, Panic)
  end.

(** Continue on [Ok]; otherwise return what came out. *)
Definition and_then (r : Scan * res ParseError unit) (k : Scan -> Scan * res ParseError unit)
    : Scan * res ParseError unit :=
  match r with (s, Ok _) => k s | _ => r end.

(** The escapes of a double-quoted string. *)
Definition double_quote_escape (next : Z) : option Z :=
  if (next =? 92) || (next =? 34) then Some next
  else if next =? 110 then Some 10
  else if next =? 114 then Some 13
  else if next =? 116 then Some 9
  else None.

(** The loop of [parse] on the bytes from the cursor on. *)
Fixpoint scan_line (rest : list Z) (s : Scan) {struct rest} : Scan * res ParseError unit :=
  match rest with
  | [] => (s, Ok tt)
  | byte :: rest =>
      if match quote s with QNone => ascii_whitespace byte | _ => false end then
        match start s with
        | Some begin => and_then (end_argument (set_start s None) begin) (scan_line rest)
        | None => scan_line rest s
        end
      else
      if match start s with None => count s =? MAX_ARGUMENTS | Some _ => false end
      then (s, Err TooManyArguments)
      else
      let s := match start s with None => set_start s (Some (used s)) | Some _ => s end in
      match quote s with
      | QNone =>
          if byte =? 39 then scan_line rest (set_quote s QSingle)
          else if byte =? 34 then scan_line rest (set_quote s QDouble)
          else if byte =? 92 then
            match rest with
            | next :: rest => and_then (put s next) (scan_line rest)
            | [] => (s, Err TrailingBackslash)
            end
          else and_then (put s byte) (scan_line rest)
      | QSingle =>
          if byte =? 39 then scan_line rest (set_quote s QNone)
          else and_then (put s byte) (scan_line rest)
      | QDouble =>
          if byte =? 34 then scan_line rest (set_quote s QNone)
          else if byte =? 92 then
            match rest with
            | next :: rest =>
                match double_quote_escape next with
                | Some decoded => and_then (put s decoded) (scan_line rest)
                | None => (s, Err (UnsupportedEscape next))
                end
            | [] => (s, Err TrailingBackslash)
            end
          else and_then (put s byte) (scan_line rest)
      end
  end.

(** [Parser::parse] *)
Definition parse (self : Parser) (line : list Z) : Parser * res ParseError Arguments :=
  if len line >? MAX_LINE_BYTES then (self, Err LineTooLong)
  else if negb (is_utf8 line) then (self, Err InvalidUtf8)
  else if contains 0 line then (self, Err Nul)
  else
  let '(s, r) := scan_line line (mkScan self 0 0 None QNone) in
  match r with
  | Err e => (parser s, Err e)
  | Panic => (parser s, Panic)
  | Ok _ =>
  match quote s with
  | QSingle => (parser s, Err UnterminatedSingleQuote)
  | QDouble => (parser s, Err UnterminatedDoubleQuote)
  | QNone =>
  let '(s, r) := match start s with Some begin => end_argument s begin | None => (s, Ok tt) end in
  (parser s,
   let! _ := r in
   let! text := or_panic (get_range (scratch (parser s)) 0 (used s)) in
   reject_if! negb (is_utf8 text) with InvalidUtf8;;
   let! ranges := or_panic (get_range (p_ranges (parser s)) 0 (count s)) in
   reject_if! existsb (fun range => bool_decide (str_get text (range_start range) (range_end range) = None)) ranges
     with InvalidUtf8;;
   Ok (mkArguments text ranges))
  end
  end.

(** ** command.rs *)

Definition MAX_PATH_BYTES : Z := 256.

Inductive CommandName :=
| CHelp | CEcho | CClear | CExit | CShutdown | CServices | CTasks | CStatus | CRun | CSpawn
| CWait | CTerminate.

Inductive Arity := Exact (n : Z) | AtLeast (n : Z).

Record CommandSpec := mkSpec {
  c_name : CommandName; spelling : list Z; usage : list Z; arity : Arity }.

Definition COMMANDS : list CommandSpec :=
  [ mkSpec CHelp (literal "help") (literal "help") (Exact 0);
    mkSpec CEcho (literal "echo") (literal "echo [args...]") (AtLeast 0);
    mkSpec CClear (literal "clear") (literal "clear") (Exact 0);
    mkSpec CExit (literal "exit") (literal "exit") (Exact 0);
    mkSpec CShutdown (literal "shutdown") (literal "shutdown") (Exact 0);
    mkSpec CServices (literal "services") (literal "services") (Exact 0);
    mkSpec CTasks (literal "tasks") (literal "tasks") (Exact 0);
    mkSpec CStatus (literal "status") (literal "status") (Exact 0);
    mkSpec CRun (literal "run") (literal "run <bootfs-path> [args...]") (AtLeast 1);
    mkSpec CSpawn (literal "spawn") (literal "spawn <bootfs-path> [args...]") (AtLeast 1);
    mkSpec CWait (literal "wait") (literal "wait <job-id>") (Exact 1);
    mkSpec CTerminate (literal "terminate") (literal "terminate <job-id>") (Exact 1) ].

Inductive JobIdError := Noncanonical | JobOverflow.

Inductive UsageError :=
| UnknownCommand | ArgumentCount (command : CommandName) (actual : Z) | InvalidPath
| InvalidJobId (e : JobIdError).

Inductive Command :=
| Empty | Help | Echo (args : Arguments) | Clear | Exit | Shutdown | Services | Tasks | Status
| Run (path : list Z) (argv : Arguments) | Spawn (path : list Z) (argv : Arguments)
| Wait (id : Z) | Terminate (id : Z).

(** [path.split('/')] *)
Fixpoint split_slash (bytes : list Z) : list (list Z) :=
  match bytes with
  | [] => [[]]
  | b :: bytes =>
      match split_slash bytes with
      | c :: cs => if b =? 47 then [] :: c :: cs else (b :: c) :: cs
      | [] => []
      end
  end.

(** [matches!(part, "" | "." | "..")] *)
Definition bad_part (part : list Z) : bool :=
  match part with [] | [46] | [46; 46] => true | _ => false end.

Definition validate_path (path : list Z) : res UsageError unit :=
  if bool_decide (path = []) || (len path >? MAX_PATH_BYTES)
     || negb (forallb (fun byte => byte <? 128) path) || contains 0 path || contains 92 path
     || bool_decide (path = Bootfs.TRAILER_NAME) || existsb bad_part (split_slash path)
  then Err InvalidPath else Ok tt.

Definition is_ascii_digit (byte : Z) : bool := in_range 48 57 byte.

(** The loop of [parse_job_id]. *)
Fixpoint fold_job_id (id : Z) (bytes : list Z) : res JobIdError Z :=
  match bytes with
  | [] => Ok id
  | byte :: bytes =>
      let! id := ok_or JobOverflow
        (match checked_mul_u64 id 10 with
         | Some n => checked_add_u64 n (byte - 48)
         | None => None
         end) in
      fold_job_id id bytes
  end.

Definition parse_job_id (value : list Z) : res JobIdError Z :=
  reject_if! negb (match head value with Some first => in_range 49 57 first | None => false end)
             || negb (forallb is_ascii_digit value) with Noncanonical;;
  let! id := fold_job_id 0 value in
  if id =? 0 then Err Noncanonical else Ok id.

Definition arity_holds (a : Arity) (n : Z) : bool :=
  match a with Exact m => n =? m | AtLeast m => n >=? m end.

(** [Arguments::command] *)
Definition command (self : Arguments) : res UsageError Command :=
  match arguments_get self 0 with
  | None => Ok Empty
  | Some name =>
      let! spec := ok_or UnknownCommand (find_first (fun spec => bool_decide (spelling spec = name)) COMMANDS) in
      let operands := arguments_tail self in
      reject_if! negb (arity_holds (arity spec) (arguments_len operands))
        with ArgumentCount (c_name spec) (arguments_len operands);;
      match c_name spec with
      | CHelp => Ok Help
      | CEcho => Ok (Echo operands)
      | CClear => Ok Clear
      | CExit => Ok Exit
      | CShutdown => Ok Shutdown
      | CServices => Ok Services
      | CTasks => Ok Tasks
      | CStatus => Ok Status
      | CRun =>
          let! path := ok_or InvalidPath (arguments_get operands 0) in
          let! _ := validate_path path in Ok (Run path operands)
      | CSpawn =>
          let! path := ok_or InvalidPath (arguments_get operands 0) in
          let! _ := validate_path path in Ok (Spawn path operands)
      | CWait =>
          let! value := ok_or (InvalidJobId Noncanonical) (arguments_get operands 0) in
          let! id := map_err InvalidJobId (parse_job_id value) in Ok (Wait id)
      | CTerminate =>
          let! value := ok_or (InvalidJobId Noncanonical) (arguments_get operands 0) in
          let! id := map_err InvalidJobId (parse_job_id value) in Ok (Terminate id)
      end
  end.

End Shell.
