(* ===== verification/ShellThms.v ===== *)
(** * The shell's word splitter and commands are correct

    The splitter works on bytes in two fixed arrays; its specification [words]
    works on characters and lists.  The two agree on every line, quoting is
    inverted by splitting, and a line's words denote the command the shell
    classifies them as. *)

From Stdlib Require Import String.
From stdpp Require Import base tactics option list list_numbers.
From Stdlib Require Import ZArith Lia.
From S2P Require Import Prelude Bytes Utf8 Correlation Bootfs BootfsThms Shell.
Import Shell.

(** ** Specification: words of a line of characters *)

(** [cs] is what is left of the line, [cur] the word begun, [done] the words
    before it. *)
Fixpoint words (cs : list Z) (q : Quote) (cur : option (list Z)) (done : list (list Z))
    : res ParseError (list (list Z)) :=
  match cs with
  | [] =>
      match q with
      | QSingle => Err UnterminatedSingleQuote
      | QDouble => Err UnterminatedDoubleQuote
      | QNone => Ok (done ++ option_list cur)
      end
  | c :: cs =>
      if match q with QNone => ascii_whitespace c | _ => false end then
        words cs q None (done ++ option_list cur)
      else if match cur with None => len done =? MAX_ARGUMENTS | Some _ => false end then
        Err TooManyArguments
      else
      let w := default [] cur in
      let plain := words cs q (Some (w ++ [c])) done in
      match q with
      | QNone =>
          if c =? 39 then words cs QSingle (Some w) done
          else if c =? 34 then words cs QDouble (Some w) done
          else if c =? 92 then
            match cs with
            | n :: cs => words cs q (Some (w ++ [n])) done
            | [] => Err TrailingBackslash
            end
          else plain
      | QSingle => if c =? 39 then words cs QNone (Some w) done else plain
      | QDouble =>
          if c =? 34 then words cs QNone (Some w) done
          else if c =? 92 then
            match cs with
            | n :: cs =>
                match double_quote_escape n with
                | Some d => words cs q (Some (w ++ [d])) done
                | None => Err (UnsupportedEscape (hd 0 (encode_utf8 n)))
                end
            | [] => Err TrailingBackslash
            end
          else plain
      end
  end.

(** The bytes and the ranges of some words laid end to end. *)
Definition layout (ws : list (list Z)) : list Z := encode_all (concat ws).
Fixpoint word_ranges (offset : Z) (ws : list (list Z)) : list ArgRange :=
  match ws with
  | [] => []
  | w :: ws => mkRange offset (offset + len (encode_all w)) :: word_ranges (offset + len (encode_all w)) ws
  end.

Lemma layout_app ws ws' : layout (ws ++ ws') = layout ws ++ layout ws'.
Proof. unfold layout. by rewrite concat_app, encode_all_app. Qed.

Lemma layout_singleton w : layout [w] = encode_all w.
Proof. unfold layout. simpl. by rewrite app_nil_r. Qed.

Lemma word_ranges_app ws : forall offset ws',
  word_ranges offset (ws ++ ws') = word_ranges offset ws ++ word_ranges (offset + len (layout ws)) ws'.
Proof.
  induction ws as [|w ws IH]; intros offset ws'; simpl.
  - by rewrite Z.add_0_r.
  - rewrite IH. do 3 f_equal. unfold layout. simpl. rewrite encode_all_app, length_app. lia.
Qed.

Lemma length_word_ranges ws : forall offset, length (word_ranges offset ws) = length ws.
Proof. induction ws as [|w ws IH]; intros; simpl; [done|]. by rewrite IH. Qed.

(** ** The byte loop follows the characters *)

(** The loop state [s] has split off [done] and holds the bytes [cur]. *)
Record follows (s : Scan) (q : Quote) (cur : option (list Z)) (done : list (list Z)) : Prop := {
  f_scratch : length (scratch (parser s)) = Z.to_nat MAX_LINE_BYTES;
  f_ranges : length (p_ranges (parser s)) = Z.to_nat MAX_ARGUMENTS;
  f_quote : quote s = q;
  f_used : used s = len (layout done ++ default [] cur);
  f_text : take (Z.to_nat (used s)) (scratch (parser s)) = layout done ++ default [] cur;
  f_count : count s = len done;
  f_done : take (Z.to_nat (count s)) (p_ranges (parser s)) = word_ranges 0 done;
  f_start : start s = (fun _ => len (layout done)) <$> cur;
  f_limit : len done + len (option_list cur) <= MAX_ARGUMENTS }.

(** Storing one more byte, or one more range, after a known prefix. *)
Lemma put_range_snoc {A} (l : list A) (k : Z) x pre :
  0 <= k -> take (Z.to_nat k) l = pre -> len pre = k -> k < len l ->
  exists l', put_range l k [x] = Some l' /\ length l' = length l /\
    take (Z.to_nat (k + 1)) l' = pre ++ [x].
Proof.
  intros Hk Hpre Hlen Hroom.
  destruct (proj2 (put_range_is_Some l k [x])) as [l' Hl']; [simpl; lia|].
  exists l'. split; [done|]. split; [by eapply length_put_range|].
  apply put_range_Some in Hl' as (_ & _ & ->). simpl. rewrite Hpre.
  rewrite take_app_ge by lia. replace (Z.to_nat (k + 1) - length pre)%nat with 1%nat by lia. done.
Qed.

Lemma put_follows s q b done byte :
  follows s q (Some b) done -> used s < MAX_LINE_BYTES ->
  exists s', put s byte = (s', Ok tt) /\ follows s' q (Some (b ++ [byte])) done /\ used s' = used s + 1.
Proof.
  intros [Hs Hr Hq Hu Ht Hc Hd Hst Hl] Hroom. unfold MAX_LINE_BYTES in *. simpl in Hu, Ht.
  destruct (put_range_snoc (scratch (parser s)) (used s) byte _ ltac:(lia) Ht ltac:(lia) ltac:(lia))
    as (l' & Hput & Hlen & Htake).
  eexists. unfold put. rewrite Hput. split; [done|]. split; [|done].
  split; cbn [parser scratch p_ranges quote used count start]; try done.
  - by rewrite Hlen.
  - simpl. rewrite Hu, !length_app. simpl. lia.
  - simpl. rewrite Htake. by rewrite <-app_assoc.
Qed.

(** A byte outside ASCII is always text. *)
Lemma scan_high_byte s byte rest begin :
  128 <= byte -> start s = Some begin ->
  scan_line (byte :: rest) s = and_then (put s byte) (scan_line rest).
Proof.
  intros Hb Hst. cbn [scan_line]. rewrite Hst.
  assert (ascii_whitespace byte = false) as -> by (unfold ascii_whitespace; bool_cases; done).
  repeat match goal with |- context [byte =? ?k] => rewrite (proj2 (Z.eqb_neq byte k)) by lia end.
  by destruct (quote s).
Qed.

Lemma scan_high s q b done : forall bs rest,
  Forall (fun x => 128 <= x) bs -> follows s q (Some b) done -> used s + len bs <= MAX_LINE_BYTES ->
  exists s', scan_line (bs ++ rest) s = scan_line rest s' /\ follows s' q (Some (b ++ bs)) done /\
    used s' = used s + len bs.
Proof.
  intros bs rest Hbs. revert s b. induction Hbs as [|x bs Hx _ IH]; intros s b Hf Hroom.
  { exists s. rewrite app_nil_r. split_conj; try done. simpl. lia. }
  cbn [length] in Hroom. destruct (put_follows s q b done x Hf ltac:(lia)) as (s1 & Hput & Hf1 & Hu1).
  destruct (IH s1 (b ++ [x]) Hf1 ltac:(lia)) as (s2 & Hs2 & Hf2 & Hu2). exists s2.
  cbn [app]. rewrite (scan_high_byte s x _ (len (layout done))) by (done || by apply Hf).
  rewrite Hput. cbn [and_then]. rewrite Hs2, <-app_assoc in *. split_conj; [done|done|]. cbn [length]. lia.
Qed.

Lemma encode_cases c :
  is_scalar c = true ->
  (c < 128 /\ encode_utf8 c = [c]) \/
  (128 <= c /\ exists b bs, encode_utf8 c = b :: bs /\ 128 <= b /\ Forall (fun x => 128 <= x) bs).
Proof.
  intros Hs. apply is_scalar_spec in Hs. unfold encode_utf8.
  destruct (Z.ltb_spec c 128); [by left|right]. split; [done|].
  assert (forall a, 0 <= a mod 64) as Hm by (intros; apply Z.mod_pos_bound; lia).
  assert (forall k, 0 < k -> 0 <= c / k) as Hd by (intros; apply Z.div_pos; lia).
  pose proof (Hm c). pose proof (Hm (c / 64)). pose proof (Hm (c / 4096)).
  pose proof (Hd 64 ltac:(lia)). pose proof (Hd 4096 ltac:(lia)). pose proof (Hd 262144 ltac:(lia)).
  repeat case_match; eexists _, _; (split; [done|]); (split; [lia|repeat constructor; lia]).
Qed.

Lemma encode_all_nul cs : Forall (fun c => is_scalar c = true) cs -> 0 ∈ encode_all cs -> 0 ∈ cs.
Proof.
  induction 1 as [|c cs Hc _ IH]; cbn [encode_all]; [done|]. rewrite elem_of_app, elem_of_cons.
  intros [H|H]; [left|right; by apply IH].
  destruct (encode_cases c Hc) as [[_ Henc]|(_ & b & bs & Henc & Hb & Hbs)]; rewrite Henc in H.
  - by apply list_elem_of_singleton in H.
  - apply elem_of_cons in H as [<-|H]; [lia|]. rewrite Forall_forall in Hbs. specialize (Hbs 0 H). lia.
Qed.

Lemma begin_follows s q done :
  follows s q None done -> len done < MAX_ARGUMENTS -> follows (set_start s (Some (used s))) q (Some []) done.
Proof.
  intros [Hs Hr Hq Hu Ht Hc Hd Hst Hl] Hroom. simpl in *.
  split; cbn [set_start parser used count start quote]; try done.
  - simpl. by rewrite Hu, app_nil_r.
  - simpl. lia.
Qed.

Lemma end_follows s q w done :
  follows s q (Some (encode_all w)) done ->
  exists s', end_argument (set_start s None) (len (layout done)) = (s', Ok tt) /\ follows s' q None (done ++ [w]).
Proof.
  intros [Hs Hr Hq Hu Ht Hc Hd Hst Hl]. unfold MAX_ARGUMENTS in *. simpl in *.
  destruct (put_range_snoc (p_ranges (parser s)) (count s) (mkRange (len (layout done)) (used s))
    (word_ranges 0 done)) as (l' & Hput & Hlen & Htake);
    [lia|done|rewrite length_word_ranges; lia|lia|].
  eexists. unfold end_argument, set_start. cbn [parser p_ranges scratch used count quote start]. rewrite Hput.
  split; [done|]. split; cbn [parser scratch p_ranges quote used count start]; try done.
  - by rewrite Hlen.
  - simpl. by rewrite layout_app, layout_singleton, app_nil_r.
  - simpl. by rewrite layout_app, layout_singleton, app_nil_r.
  - rewrite Hc, length_app. simpl. lia.
  - rewrite Htake, word_ranges_app. cbn [word_ranges]. repeat f_equal. rewrite Hu, length_app. lia.
  - rewrite length_app. simpl. unfold MAX_ARGUMENTS. lia.
Qed.

(** One character of text. *)
Lemma put_char s q w done n b bs rest :
  follows s q (Some (encode_all w)) done -> is_scalar n = true -> encode_utf8 n = b :: bs ->
  used s + len (b :: bs) <= MAX_LINE_BYTES ->
  exists s', and_then (put s b) (scan_line (bs ++ rest)) = scan_line rest s' /\
    follows s' q (Some (encode_all (w ++ [n]))) done /\ used s' = used s + len (b :: bs).
Proof.
  intros Hf Hn Henc Hroom. cbn [length] in Hroom.
  destruct (put_follows s q _ done b Hf ltac:(lia)) as (s1 & Hput & Hf1 & Hu1).
  assert (Forall (fun x => 128 <= x) bs) as Hbs.
  { destruct (encode_cases n Hn) as [[_ He]|(_ & b' & bs' & He & _ & H)]; rewrite Henc in He; by injection He as -> ->. }
  destruct (scan_high s1 q _ done bs rest Hbs Hf1 ltac:(lia)) as (s2 & Hs2 & Hf2 & Hu2).
  exists s2. rewrite Hput. cbn [and_then]. split_conj; [done| |cbn [length]; lia].
  rewrite encode_all_app. cbn [encode_all]. rewrite Henc, app_nil_r. by rewrite <-app_assoc in Hf2.
Qed.

(** What the loop's result says about the words. *)
Definition outcome (r : Scan * res ParseError unit) (ws : res ParseError (list (list Z))) : Prop :=
  match r with
  | (s, Ok _) =>
      match quote s with
      | QSingle => ws = Err UnterminatedSingleQuote
      | QDouble => ws = Err UnterminatedDoubleQuote
      | QNone => exists cur done, ws = Ok (done ++ option_list cur) /\
          follows s QNone (encode_all <$> cur) done
      end
  | (_, Err e) => ws = Err e
  | (_, Panic) => False
  end.

Definition spaces (q : Quote) (c : Z) : bool := match q with QNone => ascii_whitespace c | _ => false end.

(** Induction hypothesis of the simulation: it holds on shorter lines. *)
Definition simulates (n : nat) : Prop := forall cs q cur done s,
  (length cs <= n)%nat -> Forall (fun c => is_scalar c = true) cs ->
  follows s q (encode_all <$> cur) done -> used s + len (encode_all cs) <= MAX_LINE_BYTES ->
  outcome (scan_line (encode_all cs) s) (words cs q cur done).

Lemma set_quote_follows s q q' cur done : follows s q cur done -> follows (set_quote s q') q' cur done.
Proof. intros [Hs Hr Hq Hu Ht Hc Hd Hst Hl]. by split. Qed.

Lemma double_quote_escape_ascii n d : double_quote_escape n = Some d -> n < 128 /\ 0 <= d < 128.
Proof. unfold double_quote_escape. intros H. repeat case_match; try done; bool_prop; simplify_eq; lia. Qed.

Lemma ascii_char d : 0 <= d < 128 -> is_scalar d = true /\ encode_utf8 d = [d].
Proof.
  intros Hd. split; [apply is_scalar_spec; lia|]. unfold encode_utf8. by destruct (Z.ltb_spec d 128); [|lia].
Qed.

Lemma words_high c cs q w done :
  128 <= c -> words (c :: cs) q (Some w) done = words cs q (Some (w ++ [c])) done.
Proof.
  intros Hc. cbn [words].
  assert (ascii_whitespace c = false) as -> by (unfold ascii_whitespace; bool_cases; done).
  repeat match goal with |- context [c =? ?k] => rewrite (proj2 (Z.eqb_neq c k)) by lia end.
  by destruct q.
Qed.

Section step.
Context (n : nat) (IH : simulates n) (s : Scan) (q : Quote) (w : list Z) (done : list (list Z)).
Context (Hf : follows s q (Some (encode_all w)) done).

(** A character stored as it is. *)
Lemma scan_put c b bs cs :
  (length cs <= n)%nat -> Forall (fun c => is_scalar c = true) (c :: cs) -> encode_utf8 c = b :: bs ->
  used s + len (encode_all (c :: cs)) <= MAX_LINE_BYTES ->
  outcome (and_then (put s b) (scan_line (bs ++ encode_all cs))) (words cs q (Some (w ++ [c])) done).
Proof.
  intros Hn [Hc Hcs]%Forall_cons Henc Hroom. cbn [encode_all] in Hroom. rewrite length_app, Henc in Hroom.
  destruct (put_char s q w done c b bs (encode_all cs) Hf Hc Henc) as (s' & Hs' & Hf' & Hu'); [lia|].
  rewrite Hs'. apply IH; [done|done|done|]. lia.
Qed.

(** A backslash outside quotes. *)
Lemma scan_escape cs :
  (length cs <= n)%nat -> Forall (fun c => is_scalar c = true) cs -> used s + len (encode_all cs) <= MAX_LINE_BYTES ->
  outcome
    (match encode_all cs with
     | next :: rest => and_then (put s next) (scan_line rest)
     | [] => (s, Err TrailingBackslash)
     end)
    (match cs with m :: cs => words cs q (Some (w ++ [m])) done | [] => Err TrailingBackslash end).
Proof.
  intros Hn Hcs Hroom. destruct cs as [|m cs]; [done|].
  destruct (encode_utf8 m) as [|b bs] eqn:Henc.
  { apply Forall_cons in Hcs as [Hm _]. destruct (encode_cases m Hm) as [[_ ?]|(_ & ? & ? & ? & _)]; congruence. }
  pose proof (scan_put m b bs cs) as Hput. cbn [length encode_all] in *. rewrite Henc in *. cbn [app].
  apply Hput; [lia|done|done|done].
Qed.

(** A backslash in double quotes. *)
Lemma scan_escape_double cs :
  (length cs <= n)%nat -> Forall (fun c => is_scalar c = true) cs -> used s + len (encode_all cs) <= MAX_LINE_BYTES ->
  outcome
    (match encode_all cs with
     | next :: rest =>
         match double_quote_escape next with
         | Some decoded => and_then (put s decoded) (scan_line rest)
         | None => (s, Err (UnsupportedEscape next))
         end
     | [] => (s, Err TrailingBackslash)
     end)
    (match cs with
     | m :: cs =>
         match double_quote_escape m with
         | Some d => words cs q (Some (w ++ [d])) done
         | None => Err (UnsupportedEscape (hd 0 (encode_utf8 m)))
         end
     | [] => Err TrailingBackslash
     end).
Proof.
  intros Hn Hcs Hroom. destruct cs as [|m cs]; [done|]. apply Forall_cons in Hcs as [Hm Hcs].
  cbn [encode_all length] in *. rewrite length_app in Hroom.
  destruct (encode_cases m Hm) as [[Hml Hm']|(Hmg & b & bs & Hm' & Hbl & _)]; rewrite Hm' in *; cbn [app hd].
  - destruct (double_quote_escape m) as [d|] eqn:Hd; [|done].
    apply double_quote_escape_ascii in Hd as [_ Hd]. destruct (ascii_char d Hd) as [Hds Hed].
    apply (scan_put d d [] cs); [lia|by constructor|done|]. cbn [encode_all]. rewrite Hed, length_app.
    cbn [length] in *. lia.
  - assert (forall x, 128 <= x -> double_quote_escape x = None) as Hno
      by (intros x Hx; unfold double_quote_escape; bool_cases; done).
    by rewrite !Hno.
Qed.

(** Text, quotes and escapes, once a word has begun. *)
Lemma scan_text c cs :
  (length cs <= n)%nat -> Forall (fun c => is_scalar c = true) (c :: cs) -> spaces q c = false ->
  used s + len (encode_all (c :: cs)) <= MAX_LINE_BYTES ->
  outcome (scan_line (encode_all (c :: cs)) s) (words (c :: cs) q (Some w) done).
Proof.
  intros Hn Hccs Hsp Hroom. pose proof (f_quote _ _ _ _ Hf) as Hq. pose proof (f_start _ _ _ _ Hf) as Hst.
  pose proof (scan_put c) as Hput. pose proof Hccs as [Hc Hcs]%Forall_cons.
  assert (used s + len (encode_all cs) <= MAX_LINE_BYTES) as Hroom'
    by (cbn [encode_all] in Hroom; rewrite length_app in Hroom; lia).
  assert (forall q', outcome (scan_line (encode_all cs) (set_quote s q')) (words cs q' (Some w) done)) as Hquote.
  { intros q'. apply IH; [done|done|by eapply set_quote_follows|done]. }
  destruct (encode_cases c Hc) as [[Hlt Henc]|(Hge & b & bs & Henc & Hb & Hbs)].
  - specialize (Hput c [] cs Hn Hccs Henc Hroom). cbn [encode_all words]. rewrite Henc.
    cbn [app scan_line]. rewrite Hq, Hst. cbn [fmap option_fmap option_map default]. fold (spaces q c).
    rewrite Hsp, Hq. pose proof (scan_escape cs Hn Hcs Hroom'). pose proof (scan_escape_double cs Hn Hcs Hroom').
    destruct q; repeat (destruct (_ =? _)); done || apply Hquote.
  - rewrite words_high by done. cbn [encode_all]. rewrite Henc. cbn [app].
    rewrite (scan_high_byte s b _ (len (layout done))) by done. by apply Hput.
Qed.
End step.

(** A line that begins a word is scanned as if the word had begun. *)
Lemma scan_begin s byte rest :
  start s = None -> spaces (quote s) byte = false -> count s <> MAX_ARGUMENTS ->
  scan_line (byte :: rest) s = scan_line (byte :: rest) (set_start s (Some (used s))).
Proof.
  intros Hst Hsp Hc. cbn [scan_line]. cbn [set_start start quote]. fold (spaces (quote s) byte).
  rewrite Hst, Hsp, (proj2 (Z.eqb_neq _ _) Hc). done.
Qed.

(** The first byte of a character is white space only if the character is. *)
Lemma encode_first q c :
  is_scalar c = true -> exists b bs, encode_utf8 c = b :: bs /\ spaces q b = spaces q c.
Proof.
  intros Hc. destruct (encode_cases c Hc) as [[Hlt Henc]|(Hge & b & bs & Henc & Hb & _)]; [by exists c, []|].
  exists b, bs. split; [done|].
  assert (forall x, 128 <= x -> ascii_whitespace x = false) as Hw by (intros x Hx; unfold ascii_whitespace; bool_cases; done).
  unfold spaces. destruct q; [|done|done]. by rewrite !Hw.
Qed.

Lemma words_begin c cs q done :
  spaces q c = false -> len done <> MAX_ARGUMENTS ->
  words (c :: cs) q None done = words (c :: cs) q (Some []) done.
Proof.
  intros Hsp Hl. cbn [words]. fold (spaces q c). by rewrite Hsp, (proj2 (Z.eqb_neq _ _) Hl).
Qed.

Lemma scan_space n c cs q cur done s :
  simulates n -> (length cs <= n)%nat -> Forall (fun c => is_scalar c = true) (c :: cs) -> spaces q c = true ->
  follows s q (encode_all <$> cur) done -> used s + len (encode_all (c :: cs)) <= MAX_LINE_BYTES ->
  outcome (scan_line (encode_all (c :: cs)) s) (words (c :: cs) q cur done).
Proof.
  intros IH Hn [Hc Hcs]%Forall_cons Hsp Hf Hroom. cbn [encode_all] in Hroom. rewrite length_app in Hroom.
  pose proof (f_quote _ _ _ _ Hf) as Hq. pose proof (f_start _ _ _ _ Hf) as Hst.
  assert (encode_utf8 c = [c]) as Henc.
  { apply ascii_char. unfold spaces, ascii_whitespace in Hsp. destruct q; [|done|done]. bool_prop. lia. }
  cbn [words encode_all]. rewrite Henc in *. cbn [app scan_line]. rewrite Hq. fold (spaces q c). rewrite Hsp, Hst.
  destruct cur as [w|]; cbn [fmap option_fmap option_map option_list] in *.
  - destruct (end_follows s q w done Hf) as (s' & -> & Hf'). cbn [and_then]. apply IH; [done|done|done|].
    pose proof (f_used _ _ _ _ Hf') as Hu'. pose proof (f_used _ _ _ _ Hf) as Hu. simpl in Hu, Hu'.
    rewrite layout_app, layout_singleton, app_nil_r in Hu'. lia.
  - rewrite app_nil_r. apply IH; [done|done|done|lia].
Qed.

Lemma scan_words n : simulates n.
Proof.
  induction n as [|n IH]; intros cs q cur done s Hn Hcs Hf Hroom.
  all: pose proof (f_quote _ _ _ _ Hf) as Hq; pose proof (f_start _ _ _ _ Hf) as Hst.
  all: destruct cs as [|c cs];
    [cbn [encode_all scan_line words outcome]; rewrite Hq; destruct q; [by exists cur, done|done|done]|].
  { simpl in Hn. lia. }
  cbn [length] in Hn. destruct (spaces q c) eqn:Hsp; [apply (scan_space n); done || lia|].
  destruct cur as [w|]; [apply (scan_text n); done || lia|].
  pose proof Hcs as [Hc _]%Forall_cons. destruct (encode_first q c Hc) as (b & bs & Henc & Hspb).
  rewrite Hsp, <-Hq in Hspb. pose proof (f_count _ _ _ _ Hf) as Hcount.
  destruct (Z.eq_dec (len done) MAX_ARGUMENTS) as [Hfull|Hfull].
  - cbn [words encode_all]. rewrite Henc. cbn [app scan_line]. fold (spaces q c). fold (spaces (quote s) b).
    rewrite Hsp, Hspb, Hst, Hcount, Hfull. done.
  - rewrite words_begin by done.
    assert (scan_line (encode_all (c :: cs)) s = scan_line (encode_all (c :: cs)) (set_start s (Some (used s)))) as ->.
    { cbn [encode_all]. rewrite Henc. cbn [app]. apply scan_begin; [done|done|lia]. }
    apply (scan_text n); [done| |lia|done|done|done]. apply begin_follows; [done|].
    pose proof (f_limit _ _ _ _ Hf). lia.
Qed.

(** ** The argument view *)

(** The view of the words [ws]. *)
Definition view (ws : list (list Z)) : Arguments := mkArguments (layout ws) (word_ranges 0 ws).

Lemma view_get ws : forall pre i,
  scalars (concat (pre ++ ws)) ->
  (r ← get_at (word_ranges (len (layout pre)) ws) i; str_get (layout (pre ++ ws)) (range_start r) (range_end r)) =
  encode_all <$> get_at ws i.
Proof.
  induction ws as [|w ws IH]; intros pre i Hsc.
  { unfold get_at. cbn [word_ranges]. by destruct (0 <=? i). }
  destruct (Z.eq_dec i 0) as [->|Hi].
  - change (get_at (word_ranges (len (layout pre)) (w :: ws)) 0)
      with (Some (mkRange (len (layout pre)) (len (layout pre) + len (encode_all w)))).
    change (get_at (w :: ws) 0) with (Some w). cbn [mbind option_bind fmap option_fmap option_map range_start range_end].
    unfold str_get, layout. rewrite concat_app in *. cbn [concat] in *. unfold scalars in Hsc.
    apply Forall_app in Hsc as [Hpre [Hw Hws]%Forall_app].
    rewrite (boundary (concat pre) (w ++ concat ws)) by (apply Forall_app; by split).
    assert (len (encode_all (concat pre)) + len (encode_all w) = len (encode_all (concat pre ++ w))) as ->
      by (rewrite encode_all_app, length_app; lia).
    rewrite (app_assoc (concat pre) w), boundary by done. cbn [andb].
    rewrite !encode_all_app, <-app_assoc, length_app.
    replace (len (encode_all (concat pre))) with (len (encode_all (concat pre)) + 0) at 1 by lia.
    rewrite Nat2Z.inj_add, get_range_app_r by lia. rewrite get_range_app_l by lia. apply get_range_full.
  - assert (forall A (x : A) l, get_at (x :: l) i = get_at l (i - 1)) as Hshift.
    { intros A x l. unfold get_at. destruct (Z.leb_spec 0 i), (Z.leb_spec 0 (i - 1)); try lia; [|done].
      by replace (Z.to_nat i) with (S (Z.to_nat (i - 1))) by lia. }
    cbn [word_ranges]. rewrite !Hshift.
    specialize (IH (pre ++ [w]) (i - 1)). rewrite <-app_assoc in IH.
    rewrite (layout_app pre [w]), layout_singleton, length_app, Nat2Z.inj_add in IH. by apply IH.
Qed.

Lemma arguments_get_view ws i :
  scalars (concat ws) -> arguments_get (view ws) i = encode_all <$> get_at ws i.
Proof.
  intros Hsc. pose proof (view_get ws [] i Hsc) as H. cbn [app] in H. rewrite <-H.
  unfold arguments_get, view. cbn [text ranges]. change (len (layout [])) with 0.
  by destruct (get_at (word_ranges 0 ws) i).
Qed.

Lemma view_iter ws : forall pre,
  scalars (concat (pre ++ ws)) ->
  collect (E := ParseError) ((fun r => or_panic (str_get (layout (pre ++ ws)) (range_start r) (range_end r)))
    <$> word_ranges (len (layout pre)) ws) = Ok (encode_all <$> ws).
Proof.
  induction ws as [|w ws IH]; intros pre Hsc; [done|].
  pose proof (view_get (w :: ws) pre 0 Hsc) as Hget.
  cbn [word_ranges fmap list_fmap collect].
  change (get_at (word_ranges (len (layout pre)) (w :: ws)) 0)
    with (Some (mkRange (len (layout pre)) (len (layout pre) + len (encode_all w)))) in Hget.
  change (get_at (w :: ws) 0) with (Some w) in Hget. cbn [mbind option_bind fmap option_fmap option_map] in Hget.
  rewrite Hget. cbn [or_panic res_bind]. specialize (IH (pre ++ [w])). rewrite <-app_assoc in IH.
  rewrite (layout_app pre [w]), layout_singleton, length_app, Nat2Z.inj_add in IH. cbn [app] in IH.
  rewrite IH by done. done.
Qed.

(** ** Whole lines *)

Definition parser_ok (p : Parser) : Prop :=
  length (scratch p) = Z.to_nat MAX_LINE_BYTES /\ length (p_ranges p) = Z.to_nat MAX_ARGUMENTS.

(** The words of a line, or why it has none. *)
Definition line_words (line : list Z) : res ParseError (list (list Z)) :=
  if len line >? MAX_LINE_BYTES then Err LineTooLong
  else match from_utf8 line with
       | None => Err InvalidUtf8
       | Some cs => if contains 0 line then Err Nul else words cs QNone None []
       end.

(** Words hold characters of the line. *)
Lemma words_scalars (n : nat) : forall cs q cur done ws,
  (length cs <= n)%nat -> scalars cs -> scalars (concat (done ++ option_list cur)) ->
  words cs q cur done = Ok ws -> scalars (concat ws).
Proof.
  induction n as [|n IH]; intros cs q cur done ws Hn Hcs Hacc H.
  all: destruct cs as [|c cs]; [cbn [words] in H; destruct q; try done; by injection H as <-|].
  { simpl in Hn. lia. }
  cbn [length] in Hn. unfold scalars in Hcs. apply Forall_cons in Hcs as [Hc Hcs].
  assert (forall x, is_scalar x = true -> scalars (concat (done ++ [default [] cur ++ [x]]))) as Hput.
  { intros x Hx. unfold scalars in *. rewrite concat_app in *. cbn [concat]. rewrite app_nil_r.
    apply Forall_app in Hacc as [Hd Hcur]. apply Forall_app. split; [done|]. apply Forall_app. split; [|by constructor].
    destruct cur; simpl in *; [by rewrite app_nil_r in Hcur|constructor]. }
  assert (scalars (concat (done ++ [default [] cur]))) as Hkeep.
  { unfold scalars in *. destruct cur; simpl in *; [done|]. rewrite app_nil_r in Hacc.
    rewrite concat_app. simpl. by rewrite !app_nil_r. }
  cbn [words] in H.
  destruct (match q with QNone => _ | _ => false end); [eapply (IH cs q None (done ++ option_list cur)); [lia|done| |exact H]; simpl; by rewrite app_nil_r|].
  destruct (match cur with Some _ => false | None => _ end); [done|].
  assert (forall q' x, words cs q' (Some (default [] cur ++ [x])) done = Ok ws -> is_scalar x = true -> scalars (concat ws)) as Hplain.
  { intros q' x Hx Hsx. eapply (IH cs q' (Some (default [] cur ++ [x])) done); [lia|done|by apply (Hput x)|exact Hx]. }
  assert (forall q', words cs q' (Some (default [] cur)) done = Ok ws -> scalars (concat ws)) as Hq.
  { intros q' Hx. eapply (IH cs q' (Some (default [] cur)) done); [lia|done|exact Hkeep|exact Hx]. }
  destruct q; repeat (destruct (_ =? _)); try (by eapply Hq); try (by eapply Hplain).
  - destruct cs as [|m cs]; [done|]. apply Forall_cons in Hcs as [Hm Hcs]. cbn [length] in Hn.
    eapply (IH cs QNone (Some (default [] cur ++ [m])) done); [lia|done|by apply (Hput m)|exact H].
  - destruct cs as [|m cs]; [done|]. apply Forall_cons in Hcs as [Hm Hcs]. cbn [length] in Hn.
    destruct (double_quote_escape m) as [d|] eqn:Hd; [|done].
    apply double_quote_escape_ascii in Hd as [_ Hd]. destruct (ascii_char d Hd) as [Hds _].
    eapply (IH cs QDouble (Some (default [] cur ++ [d])) done); [lia|done|by apply (Hput d)|exact H].
Qed.

Lemma layout_utf8 ws : scalars (concat ws) -> is_utf8 (layout ws) = true.
Proof. intros Hsc. apply bool_decide_eq_true. exists (concat ws). by apply from_utf8_encode_all. Qed.

Lemma ranges_valid ws :
  scalars (concat ws) ->
  existsb (fun r => bool_decide (str_get (layout ws) (range_start r) (range_end r) = None)) (word_ranges 0 ws) = false.
Proof.
  intros Hsc. apply not_true_iff_false. intros (r & Hr & Hn%bool_decide_eq_true)%existsb_exists.
  apply list_elem_of_In, list_elem_of_lookup in Hr as [i Hi].
  pose proof (view_get ws [] (Z.of_nat i) Hsc) as Hget. cbn [app] in Hget. change (len (layout [])) with 0 in Hget.
  unfold get_at in Hget. rewrite (proj2 (Z.leb_le 0 (Z.of_nat i))), Nat2Z.id, Hi in Hget by lia. cbn in Hget.
  pose proof (lookup_lt_Some _ _ _ Hi) as Hlt. rewrite length_word_ranges in Hlt.
  destruct (lookup_lt_is_Some_2 ws i Hlt) as [w Hw]. rewrite Hw, Hn in Hget. done.
Qed.

(** The argument still open at the end of the line is closed. *)
Lemma close_last s cur done :
  follows s QNone (encode_all <$> cur) done ->
  exists s', (match start s with Some begin => end_argument s begin | None => (s, Ok tt) end) = (s', Ok tt) /\
    parser_ok (parser s') /\
    get_range (scratch (parser s')) 0 (used s') = Some (layout (done ++ option_list cur)) /\
    get_range (p_ranges (parser s')) 0 (count s') = Some (word_ranges 0 (done ++ option_list cur)).
Proof.
  intros Hf. rewrite (f_start _ _ _ _ Hf).
  assert (forall s0, follows s0 QNone None (done ++ option_list cur) ->
    parser_ok (parser s0) /\
    get_range (scratch (parser s0)) 0 (used s0) = Some (layout (done ++ option_list cur)) /\
    get_range (p_ranges (parser s0)) 0 (count s0) = Some (word_ranges 0 (done ++ option_list cur))) as Hdone.
  { intros s0 [Hs Hr Hq Hu Ht Hc Hd _ Hl]. simpl in *. rewrite app_nil_r in *.
    pose proof (f_equal length Ht) as Hlt. rewrite length_take in Hlt.
    pose proof (f_equal length Hd) as Hld. rewrite length_take, length_word_ranges in Hld. unfold MAX_ARGUMENTS in *.
    split; [done|]. rewrite Hu, Hc in *. rewrite !Nat2Z.id in *. rewrite !get_range_take_nat by lia.
    by rewrite Ht, Hd. }
  destruct cur as [w|]; cbn [fmap option_fmap option_map option_list] in *.
  - destruct (end_follows s QNone w done Hf) as (s' & Hs' & Hf').
    unfold end_argument, set_start in *. cbn [parser p_ranges used count start quote] in Hs'.
    destruct (put_range _ _ _) as [l'|]; [|done]. eexists. split; [done|].
    injection Hs' as <-. apply Hdone in Hf'. done.
  - exists s. split; [done|]. apply Hdone. by rewrite app_nil_r.
Qed.

(** The arrays keep their sizes on every path. *)
Lemma put_keeps s byte : parser_ok (parser s) -> parser_ok (parser (fst (put s byte))).
Proof.
  intros [Hs Hr]. unfold put. destruct (put_range _ _ _) eqn:E; [|done]. split; [|done].
  cbn. by rewrite (length_put_range _ _ _ _ E).
Qed.

Lemma end_argument_keeps s begin : parser_ok (parser s) -> parser_ok (parser (fst (end_argument s begin))).
Proof.
  intros [Hs Hr]. unfold end_argument. destruct (put_range _ _ _) eqn:E; [|done]. split; [done|].
  cbn. by rewrite (length_put_range _ _ _ _ E).
Qed.

Lemma and_then_keeps r k :
  parser_ok (parser (fst r)) -> (forall s, parser_ok (parser s) -> parser_ok (parser (fst (k s)))) ->
  parser_ok (parser (fst (and_then r k))).
Proof. intros Hr Hk. destruct r as [s [[]| |]]; [by apply Hk|done|done]. Qed.

Lemma scan_keeps (n : nat) : forall rest s,
  (length rest <= n)%nat -> parser_ok (parser s) -> parser_ok (parser (fst (scan_line rest s))).
Proof.
  induction n as [|n IH]; intros [|b rest] s Hn Hs; simpl in Hn; try lia; [done|done|].
  assert (forall s, parser_ok (parser s) -> parser_ok (parser (fst (scan_line rest s)))) as Hrest
    by (intros; apply IH; [lia|done]).
  cbn [scan_line]. destruct (match quote s with QNone => _ | _ => false end).
  { destruct (start s); [|by apply Hrest]. apply and_then_keeps; [by apply end_argument_keeps|done]. }
  destruct (match start s with Some _ => false | None => _ end); [done|].
  set (s1 := match start s with Some _ => s | None => _ end).
  assert (parser_ok (parser s1)) as Hs1 by (subst s1; by destruct (start s)).
  assert (forall x l, (length l <= n)%nat -> parser_ok (parser (fst (and_then (put s1 x) (scan_line l))))) as Hput.
  { intros x l Hl. apply and_then_keeps; [by apply put_keeps|]. intros. by apply IH. }
  destruct (quote s1); repeat (destruct (_ =? _)); try (by apply Hrest); try (apply Hput; lia);
    destruct rest as [|m rest]; try done; simpl in Hn; [apply Hput; lia|].
  destruct (double_quote_escape m); [apply Hput; lia|done].
Qed.

Lemma parse_keeps p line : parser_ok p -> parser_ok (fst (parse p line)).
Proof.
  intros Hp. unfold parse. destruct (_ >? _); [done|]. destruct (negb _); [done|]. destruct (contains 0 line); [done|].
  pose proof (scan_keeps (length line) line (mkScan p 0 0 None QNone) (le_n _) Hp) as Hk.
  destruct (scan_line _ _) as [s [u|e|]]; [|done|done]. cbn [fst] in Hk. destruct (quote s); [|done|done].
  assert (parser_ok (parser (fst (match start s with Some begin => end_argument s begin | None => (s, Ok tt) end)))) as Hk'
    by (destruct (start s); [by apply end_argument_keeps|done]).
  by destruct (match start s with Some begin => _ | None => _ end).
Qed.

(** What [parse] returns is the view of the line's words. *)
Lemma parse_refines p line :
  parser_ok p -> bytes_ok line ->
  line_words line <> Panic /\
  (forall ws, line_words line = Ok ws -> scalars (concat ws) /\ len ws <= MAX_ARGUMENTS) /\
  snd (parse p line) =
    match line_words line with Ok ws => Ok (view ws) | Err e => Err e | Panic => Panic end.
Proof.
  intros Hp Hok. unfold parse, line_words. destruct (Z.gtb_spec (len line) MAX_LINE_BYTES); [done|].
  destruct (from_utf8 line) as [cs|] eqn:Hcs.
  2:{ assert (is_utf8 line = false) as -> by (apply bool_decide_eq_false; rewrite Hcs; by intros [? ?]). done. }
  assert (is_utf8 line = true) as -> by (apply bool_decide_eq_true; by rewrite Hcs). cbn [negb].
  destruct (contains 0 line); [done|]. apply from_utf8_spec in Hcs as [<- Hsc]; [|done].
  assert (outcome (scan_line (encode_all cs) (mkScan p 0 0 None QNone)) (words cs QNone None [])) as Hout.
  { apply (scan_words (length cs)); [lia|done| |simpl; lia]. destruct Hp. by split. }
  destruct (scan_line _ _) as [s [[]|e|]]; cbn [outcome] in Hout; [|by rewrite Hout|done].
  destruct (quote s); [|by rewrite Hout..]. destruct Hout as (cur & done & Hws & Hf).
  assert (scalars (concat (done ++ option_list cur))) as Hsw
    by (eapply (words_scalars (length cs) cs QNone None []); [lia|done|constructor|done]).
  destruct (close_last s cur done Hf) as (s' & -> & _ & Htext & Hranges). cbn [snd res_bind]. rewrite Hws.
  split_conj; [done| |].
  - intros ws [= <-]. split; [done|]. rewrite length_app. pose proof (f_limit _ _ _ _ Hf).
    destruct cur; simpl in *; lia.
  - rewrite Htext. cbn [or_panic res_bind]. rewrite layout_utf8 by done. cbn [negb].
    rewrite Hranges. cbn [or_panic res_bind]. by rewrite ranges_valid.
Qed.

(** [a] is a view of the texts [ts]. *)
Definition shows (a : Arguments) (ts : list (list Z)) : Prop :=
  Forall2 (fun r t => str_get (text a) (range_start r) (range_end r) = Some t) (ranges a) ts.

Lemma view_shows ws : scalars (concat ws) -> shows (view ws) (encode_all <$> ws).
Proof.
  intros Hsc. apply Forall2_same_length_lookup_2; cbn [view text ranges].
  { by rewrite length_word_ranges, length_fmap. }
  intros i r t Hr Ht. pose proof (view_get ws [] (Z.of_nat i) Hsc) as Hget.
  cbn [app] in Hget. change (len (layout [])) with 0 in Hget. unfold get_at in Hget.
  rewrite (proj2 (Z.leb_le 0 (Z.of_nat i))), Nat2Z.id, Hr in Hget by lia. cbn [mbind option_bind] in Hget.
  by rewrite Hget, <-list_lookup_fmap.
Qed.

(** C29: the splitter computes the words of a line.  Whatever the parser's arrays
    hold from earlier lines, [Parser::parse] returns a view of exactly the words
    the character-level specification gives, through [get] and [iter], or the
    error it gives; it never panics, never exceeds 64 arguments, and its own
    later checks (the scratch size, the UTF-8 of the unescaped text and of every
    argument) never fail. *)
Theorem shell_parse_correct p line :
  parser_ok p -> bytes_ok line ->
  parser_ok (fst (parse p line)) /\ line_words line <> Panic /\
  match line_words line with
  | Ok ws => exists args, snd (parse p line) = Ok args /\ len ws <= MAX_ARGUMENTS /\
      arguments_len args = len ws /\ arguments_iter args = Ok (encode_all <$> ws) /\
      shows args (encode_all <$> ws) /\ forall i, arguments_get args i = encode_all <$> get_at ws i
  | Err e => snd (parse p line) = Err e
  | Panic => False
  end.
Proof.
  intros Hp Hok. destruct (parse_refines p line Hp Hok) as (Hnp & Hws & Hsnd).
  split; [by apply parse_keeps|]. split; [done|].
  destruct (line_words line) as [ws|e|]; [|done|done]. destruct (Hws ws eq_refl) as [Hsc Hlen].
  exists (view ws). split_conj; [done|done| | | |].
  - unfold arguments_len, view. cbn [ranges]. by rewrite length_word_ranges.
  - exact (view_iter ws [] Hsc).
  - by apply view_shows.
  - intros i. by apply arguments_get_view.
Qed.

(** ** Quoting *)

Definition special (c : Z) : bool := ascii_whitespace c || (c =? 39) || (c =? 34) || (c =? 92).
Definition quote_char (c : Z) : list Z := if special c then [92; c] else [c].
(** A word as one writes it on a line: special characters escaped, the empty
    word in quotes. *)
Definition quote_word (w : list Z) : list Z :=
  match w with [] => [39; 39] | _ => concat (quote_char <$> w) end.
Definition quote_line (ws : list (list Z)) : list Z := concat ((fun w => quote_word w ++ [32]) <$> ws).

Lemma words_plain c cs w done :
  words (quote_char c ++ cs) QNone (Some w) done = words cs QNone (Some (w ++ [c])) done.
Proof.
  unfold quote_char, special. destruct (_ || _ || _ || _) eqn:E.
  - cbn [app words]. done.
  - apply orb_false_iff in E as [[[Hw H39]%orb_false_iff H34]%orb_false_iff H92].
    cbn [app words]. by rewrite Hw, H39, H34, H92.
Qed.

Lemma words_chars w' : forall cs w done,
  words (concat (quote_char <$> w') ++ cs) QNone (Some w) done = words cs QNone (Some (w ++ w')) done.
Proof.
  induction w' as [|c w' IH]; intros cs w done; cbn [fmap list_fmap concat app]; [by rewrite app_nil_r|].
  rewrite <-app_assoc, words_plain, IH. by rewrite <-app_assoc.
Qed.

Lemma words_quoted w cs done :
  len done < MAX_ARGUMENTS -> words (quote_word w ++ cs) QNone None done = words cs QNone (Some w) done.
Proof.
  intros Hl. assert ((len done =? MAX_ARGUMENTS) = false) as Hne by (apply Z.eqb_neq; lia).
  destruct w as [|c w].
  - cbn [quote_word app words]. change (ascii_whitespace 39) with false. by rewrite Hne.
  - unfold quote_word. cbn [fmap list_fmap concat]. rewrite <-app_assoc.
    assert (forall rest, words (quote_char c ++ rest) QNone None done = words (quote_char c ++ rest) QNone (Some []) done) as Hbegin.
    { intros rest. unfold quote_char, special. destruct (ascii_whitespace c) eqn:Hw; cbn [orb].
      - cbn [app words]. change (ascii_whitespace 92) with false. by rewrite Hne.
      - destruct (_ || _ || _); cbn [app words]; [change (ascii_whitespace 92) with false|]; by rewrite ?Hw, Hne. }
    rewrite Hbegin, words_plain. apply words_chars.
Qed.

Lemma words_quote_line ws : forall done,
  len done + len ws <= MAX_ARGUMENTS -> words (quote_line ws) QNone None done = Ok (done ++ ws).
Proof.
  induction ws as [|w ws IH]; intros done Hl; [cbn; by rewrite app_nil_r|].
  unfold quote_line in *. cbn [fmap list_fmap concat length] in *. rewrite <-app_assoc.
  rewrite words_quoted by lia. cbn [app words]. change (ascii_whitespace 32) with true. cbn [option_list].
  rewrite IH by (rewrite length_app; simpl; lia). by rewrite <-app_assoc.
Qed.

Lemma scalars_special c : special c = true -> is_scalar c = true.
Proof. unfold special, ascii_whitespace. intros H. apply is_scalar_spec. bool_prop. lia. Qed.

Lemma quote_line_chars (P : Z -> Prop) ws :
  P 92 -> P 39 -> P 32 -> Forall P (concat ws) -> Forall P (quote_line ws).
Proof.
  intros H92 H39 H32. unfold quote_line. induction ws as [|w ws IH]; [done|]. cbn [concat fmap list_fmap].
  intros [Hw Hws]%Forall_app. apply Forall_app. split; [|by apply IH]. apply Forall_app. split; [|by constructor].
  destruct Hw as [|c w Hc Hw]; [by repeat constructor|]. unfold quote_word.
  assert (forall c, P c -> Forall P (quote_char c)) as Hq by (intros x Hx; unfold quote_char; destruct (special x); by repeat constructor).
  cbn [fmap list_fmap concat]. apply Forall_app. split; [by apply Hq|]. clear Hc.
  induction Hw; cbn [fmap list_fmap concat]; [constructor|]. apply Forall_app. split; [by apply Hq|done].
Qed.

(** quoting is inverted by splitting: for any at most 64 words of NUL-free
    text, quotes, backslashes and white space included, the line that escapes
    them splits into exactly those words, if it fits 4096 bytes. *)
Theorem shell_quote_round_trip p ws :
  parser_ok p -> scalars (concat ws) -> 0 ∉ concat ws -> len ws <= MAX_ARGUMENTS ->
  len (encode_all (quote_line ws)) <= MAX_LINE_BYTES ->
  exists args, snd (parse p (encode_all (quote_line ws))) = Ok args /\ arguments_iter args = Ok (encode_all <$> ws).
Proof.
  intros Hp Hsc H0 Hlen Hroom.
  assert (scalars (quote_line ws)) as Hq by (by apply quote_line_chars).
  assert (bytes_ok (encode_all (quote_line ws))) as Hok by (by apply encode_all_bytes_ok).
  assert (line_words (encode_all (quote_line ws)) = Ok ws) as Hlw.
  { unfold line_words. rewrite gtb_false by done. rewrite from_utf8_encode_all by done.
    assert (contains 0 (encode_all (quote_line ws)) = false) as ->; [|by rewrite words_quote_line].
    apply contains_false. intros Hin. apply encode_all_nul in Hin; [|done].
    assert (Forall (fun c => c <> 0) (quote_line ws)) as Hne.
    { apply quote_line_chars; [done..|]. apply Forall_forall. by intros x Hx ->. }
    rewrite Forall_forall in Hne. by apply (Hne 0 Hin). }
  destruct (parse_refines p _ Hp Hok) as (_ & _ & ->). rewrite Hlw.
  exists (view ws). split; [done|]. exact (view_iter ws [] Hsc).
Qed.

(** ** Commands *)

Lemma shows_get a ts i : shows a ts -> 0 <= i -> arguments_get a i = get_at ts i.
Proof.
  intros H Hi. unfold arguments_get, get_at. rewrite (proj2 (Z.leb_le 0 i)) by done.
  destruct (ranges a !! Z.to_nat i) as [r|] eqn:Hr.
  - by destruct (Forall2_lookup_l _ _ _ _ _ H Hr) as (t & -> & ->).
  - apply lookup_ge_None in Hr. rewrite (Forall2_length _ _ _ H) in Hr. symmetry. by apply lookup_ge_None.
Qed.

Lemma shows_tail a t ts : shows a (t :: ts) -> shows (arguments_tail a) ts.
Proof.
  unfold shows, arguments_tail. intros H. inversion H as [|r t' rs ts' Hr Hrs E1 E2]; subst.
  cbn [text ranges]. assert (get_from (r :: rs) 1 = Some rs) as ->; [|done].
  change (r :: rs) with ([r] ++ rs). change 1 with (len [r]). apply get_from_app.
Qed.

(** The paths a command line may name: short ASCII archive paths. *)
Definition shell_path (path : list Z) : Prop :=
  len path <= MAX_PATH_BYTES /\ Forall (fun b => b < 128) path /\ canonical_path path.
(** The decimal numeral of a nonzero 64-bit number. *)
Definition job_id (t : list Z) (id : Z) : Prop :=
  Correlation.numeral t /\ id = Correlation.decimal_value t /\ id < 2 ^ 64.

(** What the words of a line ask for. *)
Inductive denotes : list (list Z) -> Command -> Prop :=
| d_empty : denotes [] Empty
| d_help : denotes [literal "help"] Help
| d_echo args a : shows a args -> denotes (literal "echo" :: args) (Echo a)
| d_clear : denotes [literal "clear"] Clear
| d_exit : denotes [literal "exit"] Exit
| d_shutdown : denotes [literal "shutdown"] Shutdown
| d_services : denotes [literal "services"] Services
| d_tasks : denotes [literal "tasks"] Tasks
| d_status : denotes [literal "status"] Status
| d_run path args a : shell_path path -> shows a (path :: args) ->
    denotes (literal "run" :: path :: args) (Run path a)
| d_spawn path args a : shell_path path -> shows a (path :: args) ->
    denotes (literal "spawn" :: path :: args) (Spawn path a)
| d_wait t id : job_id t id -> denotes [literal "wait"; t] (Wait id)
| d_terminate t id : job_id t id -> denotes [literal "terminate"; t] (Terminate id).

Lemma split_slash_components path : split_slash path = components path.
Proof. induction path as [|b path IH]; [done|]. cbn [split_slash components]. by rewrite IH. Qed.

Lemma bad_part_spec part : bad_part part = false <-> good_component part.
Proof.
  unfold bad_part, good_component. destruct (decide (part = [])) as [->|]; [naive_solver|].
  destruct (decide (part = [46])) as [->|]; [naive_solver|].
  destruct (decide (part = [46; 46])) as [->|]; [naive_solver|]. split; [done|]. intros _.
  repeat case_match; try done; simplify_eq.
Qed.

Lemma existsb_false {A} (f : A -> bool) l : existsb f l = false <-> Forall (fun x => f x = false) l.
Proof. induction l as [|x l IH]; simpl; [done|]. by rewrite orb_false_iff, IH, Forall_cons. Qed.

Lemma forallb_ascii path : forallb (fun byte => byte <? 128) path = true <-> Forall (fun b => b < 128) path.
Proof. induction path as [|b path IH]; simpl; [done|]. by rewrite andb_true_iff, IH, Z.ltb_lt, Forall_cons. Qed.

Lemma validate_path_spec path :
  validate_path path <> Panic /\ (validate_path path = Ok tt <-> shell_path path).
Proof.
  unfold validate_path. split; [by destruct (_ || _)|].
  assert (forall b : bool, (if b then Err InvalidPath else Ok tt) = Ok (E := UsageError) tt <-> b = false) as Hb
    by (by intros []).
  rewrite Hb, !orb_false_iff, !bool_decide_eq_false, negb_false_iff, !contains_false, existsb_false.
  rewrite split_slash_components. unfold shell_path, canonical_path, MAX_PATH_BYTES.
  setoid_rewrite bad_part_spec.
  rewrite forallb_ascii.
  split.
  - intros ((((((Hne & Hl) & Ha) & H0) & H92) & Ht) & Hc). rewrite Z.gtb_ltb in Hl. bool_prop.
    split_conj; try done; try lia. destruct path; [done|]. simpl. lia.
  - intros (Hl & Ha & (Hne & Hlt) & Ht & H0 & H92 & Hc). split_conj; try done; [by intros ->|].
    by rewrite gtb_false.
Qed.

Lemma fold_job_id_decimal bytes : forall id v,
  fold_job_id id bytes <> Panic /\ (fold_job_id id bytes = Ok v <-> Correlation.fold_decimal id bytes = Ok v).
Proof.
  induction bytes as [|b bytes IH]; intros id v; cbn [fold_job_id Correlation.fold_decimal].
  { split; [done|]. naive_solver. }
  destruct (match checked_mul_u64 id 10 with Some n => _ | None => None end) as [id'|]; cbn; [apply IH|done].
Qed.

Lemma forallb_digits bytes : forallb is_ascii_digit bytes = true <-> Forall (fun d => 48 <= d <= 57) bytes.
Proof.
  induction bytes as [|b bytes IH]; simpl; [done|]. rewrite andb_true_iff, IH, Forall_cons.
  unfold is_ascii_digit, in_range. by rewrite andb_true_iff, !Z.leb_le.
Qed.

Lemma numeral_first t :
  Correlation.numeral t <->
  (match head t with Some first => in_range 49 57 first | None => false end) = true /\
  forallb is_ascii_digit t = true.
Proof.
  rewrite forallb_digits. unfold Correlation.numeral, in_range. destruct t as [|d t]; cbn [head]; [naive_solver|].
  rewrite andb_true_iff, !Z.leb_le, !Forall_cons. split.
  - intros (_ & Hh & Hd & Ht). assert (d <> 48) by (intros ->; done). split_conj; done || lia.
  - intros ((? & ?) & ? & ?). split_conj; try done; try lia. intros [=]. lia.
Qed.

Lemma parse_job_id_spec t id :
  parse_job_id t <> Panic /\ (parse_job_id t = Ok id <-> job_id t id).
Proof.
  unfold parse_job_id, job_id. pose proof (numeral_first t) as Hnum.
  revert Hnum. generalize (match head t with Some first => in_range 49 57 first | None => false end).
  generalize (forallb is_ascii_digit t). intros b2 b1 Hnum.
  destruct b1, b2; cbn [negb orb]; try (split; [done|]; split; [done|]; intros (Hn & _); apply Hnum in Hn; naive_solver).
  assert (Correlation.numeral t) as Hn by (by apply Hnum).
  destruct (fold_job_id_decimal t 0 id) as [Hnp _].
  assert (forall v, fold_job_id 0 t = Ok v <-> v = Correlation.decimal_value t /\ v < 2 ^ 64) as Hf.
  { intros v. destruct (fold_job_id_decimal t 0 v) as [_ ->]. destruct Hn as (_ & _ & Hd).
    by apply Correlation.fold_decimal_spec. }
  pose proof (Correlation.numeral_bound t Hn) as Hb.
  assert (0 < 10 ^ (len t - 1)) by (apply Z.pow_pos_nonneg; [lia|]; destruct Hn as [? _]; destruct t; [done|simpl; lia]).
  destruct (fold_job_id 0 t) as [v| |]; cbn [res_bind]; [|naive_solver|done].
  destruct (proj1 (Hf v) eq_refl) as [-> Hlt]. rewrite (proj2 (Z.eqb_neq _ 0)) by lia. split; [done|]. naive_solver.
Qed.

(** The twelve spellings are distinct, and each finds its entry. *)
Lemma find_spelling name spec :
  find_first (fun spec => bool_decide (spelling spec = name)) COMMANDS = Some spec ->
  spec ∈ COMMANDS /\ spelling spec = name.
Proof. intros [H1 H2%bool_decide_eq_true]%find_first_Some. done. Qed.

(** Operands that [run] and [spawn], [wait] and [terminate] require. *)
Lemma path_operand ops ts (mk : list Z -> Arguments -> Command) r :
  shows ops ts -> 1 <= len ts ->
  r = (let! path := ok_or InvalidPath (arguments_get ops 0) in let! _ := validate_path path in Ok (mk path ops)) ->
  exists path args, ts = path :: args /\ r <> Panic /\
    (forall c, r = Ok c <-> shell_path path /\ c = mk path ops).
Proof.
  intros Hs Hl ->. destruct ts as [|path args]; [simpl in Hl; lia|]. exists path, args. split; [done|].
  rewrite (shows_get _ _ _ Hs) by lia. change (get_at (path :: args) 0) with (Some path). cbn [ok_or res_bind].
  destruct (validate_path_spec path) as [Hnp Hiff].
  destruct (validate_path path) as [[]|e|]; cbn [res_bind]; [| |done]; naive_solver.
Qed.

Lemma job_operand ops ts (mk : Z -> Command) r :
  shows ops ts -> len ts = 1 ->
  r = (let! value := ok_or (InvalidJobId Noncanonical) (arguments_get ops 0) in
       let! id := map_err InvalidJobId (parse_job_id value) in Ok (mk id)) ->
  exists t, ts = [t] /\ r <> Panic /\ (forall c, r = Ok c <-> exists id, job_id t id /\ c = mk id).
Proof.
  intros Hs Hl ->. destruct ts as [|t [|? ?]]; simpl in Hl; try lia. exists t. split; [done|].
  rewrite (shows_get _ _ _ Hs) by lia. change (get_at [t] 0) with (Some t). cbn [ok_or res_bind].
  pose proof (parse_job_id_spec t) as Hspec.
  destruct (parse_job_id t) as [id|e|] eqn:E; cbn [map_err res_bind].
  - split; [done|]. intros c. split.
    + intros [= <-]. exists id. split; [|done]. by apply (Hspec id).
    + intros (id' & Hid & ->). apply (Hspec id') in Hid. by injection Hid as ->.
  - split; [done|]. intros c. split; [done|]. intros (id & Hid & _). by apply (Hspec id) in Hid.
  - by destruct (Hspec 0) as [? _].
Qed.

(** A fixed command with no operands. *)
Ltac fixed_command ts :=
  destruct ts; [|split; [done|]; split; [done|]; intros [? Hd]; by inversion Hd];
  split; [done|]; split; [intros ? [= <-]; constructor|]; intros _; by eexists.

Ltac path_command Ht mk :=
  match type of Ht with shows ?ops ?ts =>
    destruct (Z.geb_spec (len ts) 1) as [Hl|Hl]; cbn [negb];
    [|split; [done|]; split; [done|]; intros [? Hd]; inversion Hd; subst; simpl in Hl; lia];
    destruct (path_operand ops ts mk _ Ht Hl eq_refl) as (path & args & -> & Hnp & Hiff);
    split; [done|]; split; [by intros c [? ->]%Hiff; constructor|];
    intros [c Hd]; exists (mk path ops); apply Hiff; split; [by inversion Hd|done]
  end.

Ltac job_command Ht mk :=
  match type of Ht with shows ?ops ?ts =>
    destruct (Z.eqb_spec (len ts) 1) as [Hl|Hl]; cbn [negb];
    [|split; [done|]; split; [done|]; intros [? Hd]; inversion Hd; subst; simpl in Hl; lia];
    destruct (job_operand ops ts mk _ Ht Hl eq_refl) as (t & -> & Hnp & Hiff);
    split; [done|]; split; [by intros c (id & ? & ->)%Hiff; constructor|];
    intros [c Hd]; inversion Hd as [| | | | | | | | | | |? id|? id]; subst; exists (mk id); apply Hiff; by exists id
  end.

(** C30: a line is classified as what its words say, and refused otherwise: for
    any view of words, [Arguments::command] returns a command exactly when the
    words denote one (the right name and number of operands, a short ASCII
    archive path for [run] and [spawn], a nonzero decimal 64-bit job id for
    [wait] and [terminate]), and what it returns is what they denote. *)
Theorem shell_command_correct a ts :
  shows a ts ->
  command a <> Panic /\ (forall c, command a = Ok c -> denotes ts c) /\
  ((exists c, denotes ts c) -> exists c, command a = Ok c).
Proof.
  intros Ha. unfold command. rewrite (shows_get _ _ _ Ha) by lia.
  destruct ts as [|name ts].
  { cbn. split; [done|]. split; [intros c [= <-]; constructor|eauto]. }
  change (get_at (name :: ts) 0) with (Some name). cbv beta iota.
  pose proof (shows_tail _ _ _ Ha) as Ht. set (ops := arguments_tail a) in *.
  assert (arguments_len ops = len ts) as -> by (unfold arguments_len; by rewrite (Forall2_length _ _ _ Ht)).
  destruct (find_first _ _) as [spec|] eqn:Hfind; cbn [ok_or res_bind].
  2:{ split; [done|]. split; [done|]. intros [c Hd]. inversion Hd; subst; vm_compute in Hfind; discriminate. }
  apply find_spelling in Hfind as [Hin <-]. unfold COMMANDS in Hin.
  repeat (apply elem_of_cons in Hin as [->|Hin]); [..|by apply elem_of_nil in Hin];
    cbn [arity arity_holds c_name spelling]; clear Ha.
  all: try (fixed_command ts).
  - destruct (Z.geb_spec (len ts) 0); [|lia]. cbn [negb]. split; [done|].
    split; [intros c [= <-]; by constructor|]. intros _. by eexists.
  - path_command Ht Run.
  - path_command Ht Spawn.
  - job_command Ht Wait.
  - job_command Ht Terminate.
Qed.

(** ** Witnesses *)

Lemma parser_new_ok : parser_ok parser_new.
Proof. by split. Qed.

Definition sample_line : list Z := literal "run 'a b'/c \x".

Lemma shell_parse_correct_witness :
  line_words sample_line = Ok [literal "run"; literal "a b/c"; literal "x"] /\
  exists args, snd (parse parser_new sample_line) = Ok args /\
    arguments_iter args = Ok [literal "run"; literal "a b/c"; literal "x"].
Proof.
  assert (line_words sample_line = Ok [literal "run"; literal "a b/c"; literal "x"]) as Hw by (vm_compute; reflexivity).
  split; [done|]. assert (bytes_ok sample_line) as Hok by (by apply (bool_decide_unpack _)).
  destruct (shell_parse_correct parser_new sample_line parser_new_ok Hok) as (_ & _ & H). rewrite Hw in H.
  destruct H as (args & Hargs & _ & _ & Hiter & _). exists args. split; [done|]. exact Hiter.
Defined.

Definition sample_words : list (list Z) := [literal "it's"; []; [233; 32; 92]].

Lemma shell_quote_round_trip_witness :
  exists args, snd (parse parser_new (encode_all (quote_line sample_words))) = Ok args /\
    arguments_iter args = Ok (encode_all <$> sample_words).
Proof.
  apply (shell_quote_round_trip parser_new sample_words parser_new_ok).
  - by apply (bool_decide_unpack _).
  - by apply (bool_decide_unpack _).
  - done.
  - done.
Defined.

Definition sample_arguments : Arguments := view [literal "wait"; literal "12"].

Lemma shell_command_correct_witness :
  shows sample_arguments [literal "wait"; literal "12"] /\ command sample_arguments = Ok (Wait 12) /\
  denotes [literal "wait"; literal "12"] (Wait 12).
Proof.
  assert (shows sample_arguments [literal "wait"; literal "12"]) as Hs
    by (repeat constructor; vm_compute; reflexivity).
  assert (command sample_arguments = Ok (Wait 12)) as Hc by (vm_compute; reflexivity).
  split_conj; [done|done|]. by apply (shell_command_correct sample_arguments _ Hs).
Defined.
