(* ===== verification/History.v ===== *)
(** * Command history (crates/wyrmroot-wyrmsh-core/src/history.rs)

    A ring of at most 32 entries over a 16 KiB ring of bytes.  [HistoryThms] shows
    it is a list of lines that drops its oldest elements to make room. *)

From stdpp Require Import base tactics option list list_numbers.
From Stdlib Require Import ZArith Lia.
From S2P Require Import Prelude Bytes.

Module History.

Definition MAX_LINE_BYTES : Z := 4096.
Definition MAX_HISTORY_ENTRIES : Z := 32.
Definition HISTORY_ARENA_BYTES : Z := 16 * 1024.

Record Entry := mkEntry { e_start : Z; e_len : Z }.

Record History := mkHistory {
  arena : list Z; entries : list Entry; head : Z; h_len : Z; h_bytes : Z; write : Z }.

Definition history_new : History :=
  mkHistory (replicate (Z.to_nat HISTORY_ARENA_BYTES) 0)
    (replicate (Z.to_nat MAX_HISTORY_ENTRIES) (mkEntry 0 0)) 0 0 0 0.

Definition history_len (h : History) : Z := h_len h.
Definition history_bytes (h : History) : Z := h_bytes h.

(** No method returns an error: the error type has no values. *)
Notation result := (res Empty_set).

(** [self.entries[(self.head + index) % MAX_HISTORY_ENTRIES]] *)
Definition entry_at (h : History) (index : Z) : result Entry :=
  let! position := plus (head h) index in
  or_panic (get_at (entries h) (position mod MAX_HISTORY_ENTRIES)).

(** [self.arena[(start + offset) % HISTORY_ARENA_BYTES]] *)
Definition arena_at (h : History) (start offset : Z) : result Z :=
  let! position := plus start offset in
  or_panic (get_at (arena h) (position mod HISTORY_ARENA_BYTES)).

(** [line.iter().enumerate().all(...)] from [offset]: it stops at a difference. *)
Fixpoint all_equal (h : History) (start offset : Z) (line : list Z) : result bool :=
  match line with
  | [] => Ok true
  | byte :: line =>
      let! stored := arena_at h start offset in
      if stored =? byte then all_equal h start (offset + 1) line else Ok false
  end.

Definition entry_equals (h : History) (index : Z) (line : list Z) : result bool :=
  let! entry := entry_at h index in
  if negb (e_len entry =? len line) then Ok false
  else all_equal h (e_start entry) 0 line.

Definition evict_oldest (h : History) : result History :=
  let! entry := or_panic (get_at (entries h) (head h)) in
  let! bytes := minus (h_bytes h) (e_len entry) in
  let! next := plus (head h) 1 in
  let! count := minus (h_len h) 1 in
  Ok (mkHistory (arena h) (entries h) (next mod MAX_HISTORY_ENTRIES) count bytes (write h)).

(** [while self.len == MAX_HISTORY_ENTRIES || self.bytes + line.len() > HISTORY_ARENA_BYTES] *)
Fixpoint make_room (fuel : nat) (h : History) (line_len : Z) : result History :=
  match fuel with
  | O => Panic
  | S fuel =>
      let! total := plus (h_bytes h) line_len in
      if (h_len h =? MAX_HISTORY_ENTRIES) || (total >? HISTORY_ARENA_BYTES) then
        let! h := evict_oldest h in make_room fuel h line_len
      else Ok h
  end.

(** [for &byte in line { self.arena[self.write] = byte; ... }]: the arena and
    the write position after it. *)
Fixpoint write_line (arena : list Z) (write : Z) (line : list Z) : result (list Z * Z) :=
  match line with
  | [] => Ok (arena, write)
  | byte :: line =>
      let! arena := or_panic (put_range arena write [byte]) in
      let! next := plus write 1 in
      write_line arena (next mod HISTORY_ARENA_BYTES) line
  end.

(** [value as u16] *)
Definition as_u16 (value : Z) : Z := value mod 2 ^ 16.

Definition push (h : History) (line : list Z) : result History :=
  if bool_decide (line = []) || (len line >? HISTORY_ARENA_BYTES) then Ok h
  else
  let! same :=
    if negb (h_len h =? 0) then
      let! last := minus (h_len h) 1 in entry_equals h last line
    else Ok false in
  if same then Ok h
  else
  let! h := make_room (S (Z.to_nat MAX_HISTORY_ENTRIES)) h (len line) in
  let start := write h in
  let! '(arena, write) := write_line (arena h) (write h) line in
  let! position := plus (head h) (h_len h) in
  let slot := position mod MAX_HISTORY_ENTRIES in
  let! entries := or_panic (put_range (entries h) slot [mkEntry (as_u16 start) (as_u16 (len line))]) in
  let! count := plus (h_len h) 1 in
  let! bytes := plus (h_bytes h) (len line) in
  Ok (mkHistory arena entries (head h) count bytes write).

(** The bytes of [output[..len].iter_mut().enumerate()] from [offset] on. *)
Fixpoint read_entry (h : History) (start offset : Z) (n : nat) : result (list Z) :=
  match n with
  | O => Ok []
  | S n =>
      let! byte := arena_at h start offset in
      let! rest := read_entry h start (offset + 1) n in
      Ok (byte :: rest)
  end.

(** [History::copy_entry]: the length and the output after the call. *)
Definition copy_entry (h : History) (index : Z) (output : list Z) : result (Z * list Z) :=
  let! entry := entry_at h index in
  let! _ := or_panic (get_range output 0 (e_len entry)) in
  let! line := read_entry h (e_start entry) 0 (Z.to_nat (e_len entry)) in
  let! output := or_panic (put_range output 0 line) in
  Ok (e_len entry, output).

End History.
