(* ===== verification/HistoryThms.v ===== *)
(** * The history ring is a bounded list of lines

    The representation of a list of lines by the two rings, kept by every
    operation, and the refinement it gives. *)

From stdpp Require Import base tactics option list list_numbers.
From Stdlib Require Import ZArith Lia.
From S2P Require Import Prelude Bytes History.
Import History.

(** ** Specification *)

(** Drop the oldest lines until one of [n] bytes fits. *)
Fixpoint fit (n : Z) (lines : list (list Z)) : list (list Z) :=
  if (len lines =? MAX_HISTORY_ENTRIES) || (len (concat lines) + n >? HISTORY_ARENA_BYTES) then
    match lines with [] => [] | _ :: lines => fit n lines end
  else lines.

(** What the history holds, oldest first, after one more line. *)
Definition spec_push (lines : list (list Z)) (line : list Z) : list (list Z) :=
  if bool_decide (line = []) || (len line >? HISTORY_ARENA_BYTES) then lines
  else if bool_decide (last lines = Some line) then lines
  else fit (len line) lines ++ [line].

(** ** Representation *)

(** Line [i] of the history starts at byte [base + offset lines i] of an
    unbounded tape, of which the arena is the last 16 KiB. *)
Definition offset (lines : list (list Z)) (i : nat) : Z := len (concat (take i lines)).

Record rep (h : History) (base : Z) (lines : list (list Z)) : Prop := {
  r_base : 0 <= base;
  r_arena : len (arena h) = HISTORY_ARENA_BYTES;
  r_entries : len (entries h) = MAX_HISTORY_ENTRIES;
  r_head : 0 <= head h < MAX_HISTORY_ENTRIES;
  r_len : h_len h = len lines;
  r_max : len lines <= MAX_HISTORY_ENTRIES;
  r_bytes : h_bytes h = len (concat lines);
  r_fits : len (concat lines) <= HISTORY_ARENA_BYTES;
  r_write : write h = (base + len (concat lines)) mod HISTORY_ARENA_BYTES;
  r_tape : forall k b, concat lines !! k = Some b ->
    get_at (arena h) ((base + Z.of_nat k) mod HISTORY_ARENA_BYTES) = Some b;
  r_index : forall i line, lines !! i = Some line ->
    get_at (entries h) ((head h + Z.of_nat i) mod MAX_HISTORY_ENTRIES) =
    Some (mkEntry ((base + offset lines i) mod HISTORY_ARENA_BYTES) (len line)) }.

(** ** Reading *)

Lemma offset_lookup lines i line j b :
  lines !! i = Some line -> line !! j = Some b ->
  concat lines !! (Z.to_nat (offset lines i) + j)%nat = Some b /\ offset lines i + len line <= len (concat lines).
Proof.
  intros Hi Hj. unfold offset. rewrite Nat2Z.id. pose proof (take_drop_middle _ _ _ Hi) as Hl.
  set (pre := take i lines) in *. clearbody pre. rewrite <-Hl, concat_app. cbn [concat].
  rewrite lookup_app_r by lia. replace (length (concat pre) + j - length (concat pre))%nat with j by lia.
  rewrite lookup_app_l by (by eapply lookup_lt_Some). split; [done|]. rewrite !length_app. lia.
Qed.

(** The line of entry [i], byte by byte. *)
Lemma ring_entry_read h base lines i line :
  rep h base lines -> lines !! i = Some line ->
  entry_at h (Z.of_nat i) = Ok (mkEntry ((base + offset lines i) mod HISTORY_ARENA_BYTES) (len line)) /\
  forall j b, line !! j = Some b ->
    arena_at h ((base + offset lines i) mod HISTORY_ARENA_BYTES) (Z.of_nat j) = Ok b.
Proof.
  intros Hr Hi. pose proof (lookup_lt_Some _ _ _ Hi). pose proof (r_max _ _ _ Hr). pose proof (r_head _ _ _ Hr).
  unfold MAX_HISTORY_ENTRIES in *. split.
  - unfold entry_at. rewrite (proj2 (plus_Ok (head h) (Z.of_nat i) (head h + Z.of_nat i))) by lia. cbn [res_bind].
    by rewrite (r_index _ _ _ Hr i line Hi).
  - intros j b Hj. destruct (offset_lookup lines i line j b Hi Hj) as [Hc Hb].
    pose proof (lookup_lt_Some _ _ _ Hj). pose proof (r_fits _ _ _ Hr). unfold arena_at.
    assert (0 <= offset lines i) by (unfold offset; lia).
    set (o := offset lines i) in *. unfold HISTORY_ARENA_BYTES in *.
    pose proof (mod_range (base + o) (16 * 1024) ltac:(lia)).
    rewrite (proj2 (plus_Ok _ (Z.of_nat j) ((base + o) mod (16 * 1024) + Z.of_nat j))) by lia. cbn [res_bind].
    rewrite Zplus_mod_idemp_l.
    pose proof (r_tape _ _ _ Hr _ _ Hc) as Htape. unfold HISTORY_ARENA_BYTES in Htape.
    replace (base + o + Z.of_nat j) with (base + Z.of_nat (Z.to_nat o + j)) by lia. by rewrite Htape.
Qed.

Lemma read_entry_spec h start line : forall off,
  (forall j b, line !! j = Some b -> arena_at h start (off + Z.of_nat j) = Ok b) ->
  read_entry h start off (length line) = Ok line.
Proof.
  induction line as [|b line IH]; intros off H; cbn [length read_entry]; [done|].
  pose proof (H 0%nat b eq_refl) as H0. rewrite Z.add_0_r in H0. rewrite H0. cbn [res_bind].
  rewrite IH; [done|]. intros j x Hj. replace (off + 1 + Z.of_nat j) with (off + Z.of_nat (S j)) by lia. by apply H.
Qed.

Lemma all_equal_spec h start line : forall off line',
  (forall j b, line !! j = Some b -> arena_at h start (off + Z.of_nat j) = Ok b) -> length line = length line' ->
  all_equal h start off line' = Ok (bool_decide (line = line')).
Proof.
  induction line as [|b line IH]; intros off [|b' line'] H Hl; try done; cbn [all_equal].
  pose proof (H 0%nat b eq_refl) as H0. rewrite Z.add_0_r in H0. rewrite H0. cbn [res_bind].
  destruct (Z.eqb_spec b b') as [->|Hne].
  - rewrite IH; [| |by injection Hl].
    + f_equal. apply bool_decide_ext. naive_solver.
    + intros j x Hj. replace (off + 1 + Z.of_nat j) with (off + Z.of_nat (S j)) by lia. by apply H.
  - rewrite bool_decide_eq_false_2; [done|]. naive_solver.
Qed.

Lemma entry_equals_spec h base lines i line line' :
  rep h base lines -> lines !! i = Some line ->
  entry_equals h (Z.of_nat i) line' = Ok (bool_decide (line = line')).
Proof.
  intros Hr Hi. destruct (ring_entry_read h base lines i line Hr Hi) as [He Hb]. unfold entry_equals. rewrite He.
  cbn [res_bind e_len e_start]. destruct (Z.eqb_spec (len line) (len line')) as [Hl|Hl]; cbn [negb].
  - apply all_equal_spec; [done|lia].
  - rewrite bool_decide_eq_false_2; [done|]. by intros ->.
Qed.

Lemma copy_entry_spec h base lines i line output :
  rep h base lines -> lines !! i = Some line -> len line <= len output ->
  copy_entry h (Z.of_nat i) output = Ok (len line, line ++ drop (length line) output).
Proof.
  intros Hr Hi Hl. destruct (ring_entry_read h base lines i line Hr Hi) as [He Hb]. unfold copy_entry. rewrite He.
  cbn [res_bind e_len e_start]. rewrite get_range_take_nat by lia. cbn [or_panic res_bind].
  rewrite Nat2Z.id, read_entry_spec by done. cbn [res_bind].
  unfold put_range. rewrite (proj2 (Z.leb_le 0 0)), (proj2 (Z.leb_le _ _)) by lia. cbn [andb or_panic res_bind].
  rewrite Z.add_0_l, Nat2Z.id. done.
Qed.

(** ** Eviction *)

Lemma evict_spec h base l lines :
  rep h base (l :: lines) -> exists h', evict_oldest h = Ok h' /\ rep h' (base + len l) lines.
Proof.
  intros Hr. destruct Hr as [Hb Ha He Hh Hl Hm Hy Hf Hw Ht Hx]. cbn [concat length] in *. rewrite length_app in *.
  pose proof (Hx 0%nat l eq_refl) as H0. rewrite Z.add_0_r, Z.mod_small in H0 by lia.
  unfold evict_oldest. rewrite H0. cbn [or_panic res_bind e_len].
  unfold MAX_HISTORY_ENTRIES, HISTORY_ARENA_BYTES in *.
  rewrite (proj2 (minus_Ok _ _ (h_bytes h - len l))) by lia. cbn [res_bind].
  rewrite (proj2 (plus_Ok _ _ (head h + 1))) by lia. cbn [res_bind].
  rewrite (proj2 (minus_Ok _ _ (h_len h - 1))) by lia. cbn [res_bind].
  eexists. split; [done|]. split; cbn [arena entries head h_len h_bytes write]; try done; try lia.
  - by apply (mod_range _ 32).
  - unfold MAX_HISTORY_ENTRIES. lia.
  - unfold HISTORY_ARENA_BYTES. lia.
  - rewrite Hw. unfold HISTORY_ARENA_BYTES. f_equal. lia.
  - intros k b Hk. unfold HISTORY_ARENA_BYTES. replace (base + len l + Z.of_nat k) with (base + Z.of_nat (length l + k)) by lia.
    apply Ht. rewrite lookup_app_r by lia. by replace (length l + k - length l)%nat with k by lia.
  - intros i line Hi. unfold MAX_HISTORY_ENTRIES, HISTORY_ARENA_BYTES. rewrite Zplus_mod_idemp_l.
    replace (head h + 1 + Z.of_nat i) with (head h + Z.of_nat (S i)) by lia. rewrite (Hx (S i) line Hi).
    do 3 f_equal. unfold offset. cbn [take concat]. rewrite length_app. lia.
Qed.

Lemma make_room_spec n : 0 < n <= HISTORY_ARENA_BYTES -> forall lines fuel h base,
  rep h base lines -> (length lines < fuel)%nat ->
  exists h' base', make_room fuel h n = Ok h' /\ rep h' base' (fit n lines) /\
    len (fit n lines) < MAX_HISTORY_ENTRIES /\ len (concat (fit n lines)) + n <= HISTORY_ARENA_BYTES.
Proof.
  intros Hn. induction lines as [|l lines IH]; intros [|fuel] h base Hr Hf; simpl in Hf; try lia;
    pose proof (r_bytes _ _ _ Hr) as Hy; pose proof (r_len _ _ _ Hr) as Hl; pose proof (r_fits _ _ _ Hr);
    pose proof (r_max _ _ _ Hr); cbn [make_room fit]; unfold HISTORY_ARENA_BYTES in Hn, H;
    rewrite (proj2 (plus_Ok (h_bytes h) n (h_bytes h + n))) by lia; cbn [res_bind]; rewrite Hl, Hy.
  - rewrite gtb_false by (unfold HISTORY_ARENA_BYTES; simpl in *; lia). cbn. exists h, base. split_conj; try done.
    change (0 + n <= 16 * 1024). lia.
  - destruct (_ || _) eqn:E.
    + destruct (evict_spec h base l lines Hr) as (h1 & -> & Hr1). cbn [res_bind].
      destruct (IH fuel h1 _ Hr1 ltac:(lia)) as (h2 & b2 & ? & ? & ? & ?). by exists h2, b2.
    + bool_prop. exists h, base. split_conj; try done; lia.
Qed.

(** ** Writing *)

Lemma write_line_spec line : forall a p,
  len a = HISTORY_ARENA_BYTES -> 0 <= p -> len line <= HISTORY_ARENA_BYTES ->
  exists a', write_line a (p mod HISTORY_ARENA_BYTES) line = Ok (a', (p + len line) mod HISTORY_ARENA_BYTES) /\
    length a' = length a /\
    (forall j b, line !! j = Some b -> get_at a' ((p + Z.of_nat j) mod HISTORY_ARENA_BYTES) = Some b) /\
    (forall q, (forall j, (j < length line)%nat -> q <> (p + Z.of_nat j) mod HISTORY_ARENA_BYTES) ->
      get_at a' q = get_at a q).
Proof.
  unfold HISTORY_ARENA_BYTES. induction line as [|b line IH]; intros a p Ha Hp Hl; cbn [write_line length].
  { exists a. rewrite Z.add_0_r. done. }
  pose proof (mod_range p (16 * 1024) ltac:(lia)).
  destruct (proj2 (put_range_is_Some a (p mod (16 * 1024)) [b])) as [a1 Ha1]; [simpl; lia|].
  rewrite Ha1. cbn [or_panic res_bind]. destruct (get_at_put _ _ _ _ Ha1) as (_ & Hlen1 & Hsame & Hother).
  rewrite (proj2 (plus_Ok _ 1 (p mod (16 * 1024) + 1))) by lia. cbn [res_bind]. unfold HISTORY_ARENA_BYTES.
  rewrite Zplus_mod_idemp_l. cbn [length] in Hl.
  destruct (IH a1 (p + 1)) as (a2 & Hw & Hlen2 & Hin & Hout); [lia|lia|lia|]. exists a2. rewrite Hw.
  split_conj; [f_equal; f_equal; f_equal; lia|lia| |].
  - intros [|j] x Hx.
    + injection Hx as <-. rewrite Z.add_0_r, Hout; [done|]. intros j Hj Heq.
      replace p with (p + 0) in Heq at 1 by lia. rewrite <-Z.add_assoc in Heq.
      apply ring_injective in Heq; lia.
    + replace (p + Z.of_nat (S j)) with (p + 1 + Z.of_nat j) by lia. by apply Hin.
  - intros q Hq. rewrite Hout, Hother; [done| |].
    + intros ->. apply (Hq 0%nat); [lia|]. by rewrite Z.add_0_r.
    + intros j Hj ->. apply (Hq (S j)); [lia|]. f_equal. lia.
Qed.

Lemma as_u16_small v : 0 <= v <= HISTORY_ARENA_BYTES -> as_u16 v = v.
Proof. unfold HISTORY_ARENA_BYTES, as_u16. intros. apply Z.mod_small. lia. Qed.

Lemma offset_snoc lines x i : (i <= length lines)%nat -> offset (lines ++ [x]) i = offset lines i.
Proof. intros. unfold offset. by rewrite take_app_le. Qed.

(** A line stored in a ring with room for it. *)
Lemma store_spec h base lines line a w es :
  rep h base lines -> line <> [] -> len lines < MAX_HISTORY_ENTRIES ->
  len (concat lines) + len line <= HISTORY_ARENA_BYTES ->
  write_line (arena h) (write h) line = Ok (a, w) ->
  put_range (entries h) ((head h + h_len h) mod MAX_HISTORY_ENTRIES) [mkEntry (as_u16 (write h)) (as_u16 (len line))] = Some es ->
  rep (mkHistory a es (head h) (h_len h + 1) (h_bytes h + len line) w) base (lines ++ [line]).
Proof.
  intros [Hb Ha He Hh Hl Hm Hy Hf Hw Ht Hx] Hne Hroom Hfits Hwl Hput.
  destruct (get_at_put _ _ _ _ Hput) as (_ & Hlen & Hsame & Hother).
  destruct (write_line_spec line (arena h) (base + len (concat lines))) as (a' & Hw' & Hla & Hin & Hout); [done|lia|lia|].
  rewrite <-Hw, Hwl in Hw'. injection Hw' as <- ->.
  assert (len (concat (lines ++ [line])) = len (concat lines) + len line) as Hcat
    by (rewrite concat_app, length_app; cbn [concat]; rewrite app_nil_r; lia).
  split; cbn [arena entries head h_len h_bytes write]; try done; try lia.
  - rewrite length_app. simpl. lia.
  - rewrite length_app. simpl. lia.
  - rewrite Hcat. f_equal. lia.
  - intros k b Hk. rewrite concat_app in Hk. cbn [concat] in Hk. rewrite app_nil_r in Hk.
    apply lookup_app_Some in Hk as [Hk|[Hge Hk]].
    + rewrite Hout; [by apply Ht|]. intros j Hj Heq. pose proof (lookup_lt_Some _ _ _ Hk).
      rewrite <-Z.add_assoc in Heq. unfold HISTORY_ARENA_BYTES in *. apply ring_injective in Heq; lia.
    + replace (base + Z.of_nat k) with (base + len (concat lines) + Z.of_nat (k - length (concat lines))) by lia.
      by apply Hin.
  - intros i x Hi. unfold MAX_HISTORY_ENTRIES in *. apply lookup_app_Some in Hi as [Hi|[Hge Hi]].
    + pose proof (lookup_lt_Some _ _ _ Hi). rewrite offset_snoc by lia. rewrite Hother; [by apply Hx|].
      rewrite Hl. intros Heq. apply ring_injective in Heq; lia.
    + destruct (i - length lines)%nat eqn:Hz; [|done]. injection Hi as <-.
      replace (head h + Z.of_nat i) with (head h + h_len h) by lia. rewrite Hsame.
      rewrite offset_snoc by lia. unfold offset. rewrite take_ge by lia.
      assert (0 <= write h < HISTORY_ARENA_BYTES) by (rewrite Hw; by apply mod_range).
      rewrite !as_u16_small by lia. by rewrite Hw.
Qed.

Lemma push_spec h base lines line :
  rep h base lines -> exists h' base', push h line = Ok h' /\ rep h' base' (spec_push lines line).
Proof.
  intros Hr. unfold push, spec_push. destruct (bool_decide_reflect (line = [])) as [|Hne]; cbn [orb]; [by exists h, base|].
  destruct (Z.gtb_spec (len line) HISTORY_ARENA_BYTES); [by exists h, base|].
  pose proof (r_len _ _ _ Hr) as Hl. pose proof (r_max _ _ _ Hr) as Hm.
  assert ((if negb (h_len h =? 0) then let! last := minus (h_len h) 1 in entry_equals h last line else Ok false)
    = Ok (bool_decide (last lines = Some line))) as ->.
  { rewrite Hl. destruct (Z.eqb_spec (len lines) 0) as [Hz|Hz]; cbn [negb].
    - destruct lines; [done|simpl in Hz; lia].
    - rewrite (proj2 (minus_Ok (len lines) 1 (len lines - 1))) by lia. cbn [res_bind].
      destruct (lookup_lt_is_Some_2 lines (length lines - 1)) as [x Hx]; [lia|].
      replace (len lines - 1) with (Z.of_nat (length lines - 1)) by lia.
      rewrite (entry_equals_spec h base lines _ x line Hr Hx). f_equal. apply bool_decide_ext.
      rewrite last_lookup. replace (pred (length lines)) with (length lines - 1)%nat by lia. rewrite Hx. naive_solver. }
  cbn [res_bind]. destruct (bool_decide _); [by exists h, base|].
  assert (0 < len line) by (destruct line; [done|simpl; lia]).
  destruct (make_room_spec (len line) ltac:(lia) lines (S (Z.to_nat MAX_HISTORY_ENTRIES)) h base Hr)
    as (h1 & b1 & -> & Hr1 & Hroom & Hfits); [unfold MAX_HISTORY_ENTRIES in *; lia|]. cbn [res_bind].
  pose proof Hr1 as [Hb Ha He Hh Hl1 Hm1 Hy Hf Hw _ _].
  destruct (write_line_spec line (arena h1) (b1 + len (concat (fit (len line) lines)))) as (a & Hwl & _); [done|lia|lia|].
  rewrite <-Hw in Hwl. rewrite Hwl. cbn [res_bind].
  unfold MAX_HISTORY_ENTRIES, HISTORY_ARENA_BYTES in *.
  rewrite (proj2 (plus_Ok (head h1) (h_len h1) (head h1 + h_len h1))) by lia. cbn [res_bind].
  pose proof (mod_range (head h1 + h_len h1) 32 ltac:(lia)).
  destruct (proj2 (put_range_is_Some (entries h1) ((head h1 + h_len h1) mod 32)
    [mkEntry (as_u16 (write h1)) (as_u16 (len line))])) as [es Hes]; [simpl; lia|].
  rewrite Hes. cbn [or_panic res_bind].
  rewrite (proj2 (plus_Ok (h_len h1) 1 (h_len h1 + 1))) by lia. cbn [res_bind].
  rewrite (proj2 (plus_Ok (h_bytes h1) (len line) (h_bytes h1 + len line))) by lia. cbn [res_bind].
  eexists _, b1. split; [done|]. by apply store_spec.
Qed.

Lemma rep_new : rep history_new 0 [].
Proof.
  split; try done; intros [|k]; done.
Qed.

(** ** Refinement *)

(** A session: the lines are submitted one after the other. *)
Fixpoint push_all (h : History) (lines : list (list Z)) : result History :=
  match lines with
  | [] => Ok h
  | line :: lines => let! h := push h line in push_all h lines
  end.

Lemma push_all_spec submitted : forall h base lines,
  rep h base lines ->
  exists h' base', push_all h submitted = Ok h' /\ rep h' base' (fold_left spec_push submitted lines).
Proof.
  induction submitted as [|line submitted IH]; intros h base lines Hr; [by exists h, base|].
  destruct (push_spec h base lines line Hr) as (h1 & b1 & Hp & Hr1). cbn [push_all fold_left]. rewrite Hp. by apply (IH h1 b1).
Qed.

(** C25: after any sequence of submitted lines the ring of bytes holds exactly
    the lines of the specification, which ignores an empty line, one over
    16 KiB and one equal to its predecessor, and drops the oldest lines only
    until the new one fits; no submission panics, the two counters are the
    number of lines and of bytes kept, at most 32 and 16 KiB, and
    [copy_entry] gives back each kept line and touches nothing after it. *)
Theorem history_refines (submitted : list (list Z)) :
  exists h, push_all history_new submitted = Ok h /\
  let kept := fold_left spec_push submitted [] in
  history_len h = len kept /\ history_bytes h = len (concat kept) /\
  history_len h <= MAX_HISTORY_ENTRIES /\ history_bytes h <= HISTORY_ARENA_BYTES /\
  forall i line output, kept !! i = Some line -> len line <= len output ->
    copy_entry h (Z.of_nat i) output = Ok (len line, line ++ drop (length line) output).
Proof.
  destruct (push_all_spec submitted history_new 0 [] rep_new) as (h & base & Hp & Hr). exists h. split; [done|].
  unfold history_len, history_bytes. pose proof Hr as [_ _ _ _ Hl Hm Hy Hf _ _ _]. split_conj; try done; try lia.
  intros i line output. by apply (copy_entry_spec h base).
Qed.
