(* ===== verification/StateM.v ===== *)
(** * State transformers with errors

    A method with [&mut self] returns the state it leaves behind together with
    its outcome, also when that is an error: [SM S E A].  [wp c Q R s] says that
    [c] run from [s] does not panic and ends in [Q] with a value or in [R] with
    an error; the rules below compute it along the code. *)

From stdpp Require Import base tactics option list.
From Stdlib Require Import ZArith Lia.
From S2P Require Import Prelude.

Definition SM (S E A : Type) : Type := S -> S * res E A.

Section state_monad.
Context {S E : Type}.

#[global] Instance SM_ret : MRet (SM S E) := fun A a s => (s, Ok a).
#[global] Instance SM_bind : MBind (SM S E) := fun A B k c s =>
  match c s with
  | (s', Ok a) => k a s'
  | (s', Err e) => (s', Err e)
  | (s', Panic) => (s', Panic)
  end.

(** [return Err(e)] *)
Definition throw {A} (e : E) : SM S E A := fun s => (s, Err e).
(** A value read from the state ([&self]). *)
Definition gets {A} (f : S -> A) : SM S E A := fun s => (s, Ok (f s)).
Definition modify (f : S -> S) : SM S E unit := fun s => (f s, Ok tt).

(** ** Weakest preconditions *)

Definition wp {A} (c : SM S E A) (Q : A -> S -> Prop) (R : E -> S -> Prop) (s : S) : Prop :=
  match c s with
  | (s', Ok a) => Q a s'
  | (s', Err e) => R e s'
  | (_, Panic) => False
  end.

Lemma wp_ret {A} (a : A) Q R s : Q a s -> wp (mret a) Q R s.
Proof. done. Qed.

Lemma wp_throw {A} (e : E) (Q : A -> S -> Prop) R s : R e s -> wp (throw e) Q R s.
Proof. done. Qed.

Lemma wp_gets {A} (f : S -> A) Q R s : Q (f s) s -> wp (gets f) Q R s.
Proof. done. Qed.

Lemma wp_modify f Q R s : Q tt (f s) -> wp (modify f) Q R s.
Proof. done. Qed.

Lemma wp_bind {A B} (c : SM S E A) (k : A -> SM S E B) Q R s :
  wp c (fun a s' => wp (k a) Q R s') R s -> wp (c ≫= k) Q R s.
Proof. unfold wp, mbind, SM_bind. destruct (c s) as [s' [a|e|]]; done. Qed.

(** The rule of consequence, with what is known of the results. *)
Lemma wp_mono {A} (c : SM S E A) (Q Q' : A -> S -> Prop) (R R' : E -> S -> Prop) s :
  wp c Q R s -> (forall a s', Q a s' -> Q' a s') -> (forall e s', R e s' -> R' e s') -> wp c Q' R' s.
Proof. unfold wp. destruct (c s) as [s' [a|e|]]; auto. Qed.

(** What [wp] gives for the run itself. *)
Lemma wp_run {A} (c : SM S E A) Q R s :
  wp c Q R s -> exists s' r, c s = (s', r) /\
    ((exists a, r = Ok a /\ Q a s') \/ (exists e, r = Err e /\ R e s')).
Proof. unfold wp. destruct (c s) as [s' [a|e|]]; naive_solver. Qed.

End state_monad.

#[export] Hint Resolve wp_ret wp_throw wp_gets wp_modify : wyr.

(** Enter the first statement of a [do]-block. *)
Ltac wp_step :=
  match goal with
  | |- wp (mbind _ _) _ _ _ => apply wp_bind
  | |- wp (mret _) _ _ _ => apply wp_ret
  | |- wp (gets _) _ _ _ => apply wp_gets; cbv beta
  | |- wp (modify _) _ _ _ => apply wp_modify; cbv beta
  | |- wp (throw _) _ _ _ => apply wp_throw
  end.
