(* ===== verification/Uart.v ===== *)
(** * The 16550 UART core (crates/wyrmroot-uart16550-core/src/lib.rs)

    The policy of the COM2 driver over an injected register adapter.  The
    [ByteRegisterIo] trait is a class; a device may return any byte at any time
    and keep any state.  The methods of [Uart16550] are state transformers; an
    index out of range or an addition that overflows is [Panic]. *)

From stdpp Require Import base tactics option list list_numbers.
From Stdlib Require Import ZArith Lia.
From S2P Require Import Prelude Bytes StateM.

Module Uart.

Definition COM2_PIO_BASE : Z := 0x2f8.
Definition RING_CAPACITY : Z := 4096.
Definition TX_FIFO_CAPACITY : nat := 16.
Definition DRAIN_LIMIT : nat := 256.

Definition RBR_THR_DLL : Z := 0.
Definition IER_DLM : Z := 1.
Definition IIR_FCR : Z := 2.
Definition LCR : Z := 3.
Definition MCR : Z := 4.
Definition LSR : Z := 5.
Definition MSR : Z := 6.

Definition LCR_8N1 : Z := 3.
Definition LCR_DLAB : Z := 128.
Definition FCR_ENABLE_AND_CLEAR : Z := 7.
Definition MCR_OUT2_RTS_DTR : Z := 11.
Definition IER_RDI_RLSI : Z := 5.
Definition IER_THRI : Z := 2.

Definition IIR_NO_INTERRUPT : Z := 1.
Definition IIR_CAUSE_MASK : Z := 14.
Definition IIR_MSI : Z := 0.
Definition IIR_THRI : Z := 2.
Definition IIR_RDI : Z := 4.
Definition IIR_RLSI : Z := 6.
Definition IIR_RX_TIMEOUT : Z := 12.

Definition LSR_DR : Z := 1.
Definition LSR_OE : Z := 2.
Definition LSR_PE : Z := 4.
Definition LSR_FE : Z := 8.
Definition LSR_BI : Z := 16.
Definition LSR_TEMT : Z := 64.

(** [value & mask != 0] *)
Definition has (value mask : Z) : bool := negb (Z.land value mask =? 0).

(** [trait ByteRegisterIo] *)
Class ByteRegisterIo (I : Type) := {
  io_read : I -> Z -> I * Z;
  io_write : I -> Z -> Z -> I }.

Inductive CoreError := DrainLimit | UnknownInterruptCause (iir : Z).
Inductive CoreState := Reset | Quiesced | Active | Failed (error : CoreError).
#[global] Instance CoreError_eq_dec : EqDecision CoreError.
Proof. solve_decision. Defined.
#[global] Instance CoreState_eq_dec : EqDecision CoreState.
Proof. solve_decision. Defined.

Record ErrorCounters := mkErrorCounters {
  hardware_overrun : Z; parity : Z; framing : Z; break_indication : Z;
  rx_software_overrun_bytes : Z; unexpected_modem_status : Z }.
Definition counters_default : ErrorCounters := mkErrorCounters 0 0 0 0 0 0.

Record InterruptWork := mkWork { causes : Z; received : Z; transmitted : Z }.
Definition work_default : InterruptWork := mkWork 0 0 0.

(** [saturating_add(1)] on [u32] and [u16]. *)
Definition bump32 (v : Z) : Z := Z.min (2 ^ 32 - 1) (v + 1).
Definition bump16 (v : Z) : Z := Z.min (2 ^ 16 - 1) (v + 1).

(** ** The byte ring *)

Record Ring := mkRing { bytes : list Z; head : Z; tail : Z; r_len : Z }.

Definition ring_new : Ring := mkRing (replicate (Z.to_nat RING_CAPACITY) 0) 0 0 0.
Definition is_empty (r : Ring) : bool := r_len r =? 0.
Definition is_full (r : Ring) : bool := r_len r =? RING_CAPACITY.
Definition ring_len (r : Ring) : Z := r_len r.

(** No method of the ring returns an error. *)
Notation result := (res Empty_set).

Definition push (r : Ring) (byte : Z) : result (Ring * bool) :=
  if is_full r then Ok (r, false)
  else
  let! bytes := or_panic (put_range (bytes r) (tail r) [byte]) in
  let! next := plus (tail r) 1 in
  let! count := plus (r_len r) 1 in
  Ok (mkRing bytes (head r) (next mod RING_CAPACITY) count, true).

Definition pop (r : Ring) : result (Ring * option Z) :=
  if is_empty r then Ok (r, None)
  else
  let! byte := or_panic (get_at (bytes r) (head r)) in
  let! next := plus (head r) 1 in
  let! count := minus (r_len r) 1 in
  Ok (mkRing (bytes r) (next mod RING_CAPACITY) (tail r) count, Some byte).

(** The loop of [copy_to] and [copy_from]: [n] bytes from [position] on. *)
Fixpoint copy_bytes (r : Ring) (position : Z) (n : nat) : result (list Z) :=
  match n with
  | O => Ok []
  | S n =>
      let! byte := or_panic (get_at (bytes r) (position mod RING_CAPACITY)) in
      let! next := plus position 1 in
      let! rest := copy_bytes r next n in
      Ok (byte :: rest)
  end.

Definition copy_to (r : Ring) (output : list Z) : result (Z * list Z) :=
  let count := Z.min (r_len r) (len output) in
  let! copied := copy_bytes r (head r) (Z.to_nat count) in
  let! output := or_panic (put_range output 0 copied) in
  Ok (count, output).

Definition copy_from (r : Ring) (offset : Z) (output : list Z) : result (Z * list Z) :=
  if offset >=? r_len r then Ok (0, output)
  else
  let! rest := minus (r_len r) offset in
  let count := Z.min rest (len output) in
  let! start := plus (head r) offset in
  let! copied := copy_bytes r start (Z.to_nat count) in
  let! output := or_panic (put_range output 0 copied) in
  Ok (count, output).

Definition discard (r : Ring) (count : Z) : result (Ring * Z) :=
  let count := Z.min count (r_len r) in
  let! next := plus (head r) count in
  let! rest := minus (r_len r) count in
  Ok (mkRing (bytes r) (next mod RING_CAPACITY) (tail r) rest, count).

(** ** The core *)

Section uart.
Context {I : Type} `{!ByteRegisterIo I}.

Record Uart16550 := mkUart {
  io : I; rx : Ring; tx : Ring; u_state : CoreState; errors : ErrorCounters }.

Definition uart_new (io : I) : Uart16550 := mkUart io ring_new ring_new Reset counters_default.

Definition with_io (u : Uart16550) (io : I) : Uart16550 := mkUart io (rx u) (tx u) (u_state u) (errors u).
Definition with_rx (u : Uart16550) (r : Ring) : Uart16550 := mkUart (io u) r (tx u) (u_state u) (errors u).
Definition with_tx (u : Uart16550) (r : Ring) : Uart16550 := mkUart (io u) (rx u) r (u_state u) (errors u).
Definition with_state (u : Uart16550) (s : CoreState) : Uart16550 := mkUart (io u) (rx u) (tx u) s (errors u).
Definition with_errors (u : Uart16550) (e : ErrorCounters) : Uart16550 := mkUart (io u) (rx u) (tx u) (u_state u) e.

Abbreviation M := (SM Uart16550 CoreError).

(** [self.io.read(offset)], [self.io.write(offset, value)] *)
Definition read (offset : Z) : M Z := fun u =>
  let '(io, value) := io_read (io u) offset in (with_io u io, Ok value).
Definition write (offset value : Z) : M unit := modify (fun u => with_io u (io_write (io u) offset value)).

(** A method call on one of the rings. *)
Definition on_rx {A} (f : Ring -> result (Ring * A)) : M A := fun u =>
  match f (rx u) with
  | Ok (r, a) => (with_rx u r, Ok a)
  | _ => (u, Panic)
  end.
Definition on_tx {A} (f : Ring -> result (Ring * A)) : M A := fun u =>
  match f (tx u) with
  | Ok (r, a) => (with_tx u r, Ok a)
  | _ => (u, Panic)
  end.

Definition state (u : Uart16550) : CoreState := u_state u.
Definition error_counters (u : Uart16550) : ErrorCounters := errors u.
Definition rx_len (u : Uart16550) : Z := ring_len (rx u).
Definition tx_len (u : Uart16550) : Z := ring_len (tx u).

Definition transport_empty : M bool :=
  lsr ← read LSR; mret (has lsr LSR_TEMT).
Definition dequeue_rx : M (option Z) := on_rx pop.
Definition copy_rx (u : Uart16550) (output : list Z) : result (Z * list Z) := copy_to (rx u) output.
Definition copy_rx_from (u : Uart16550) (offset : Z) (output : list Z) : result (Z * list Z) :=
  copy_from (rx u) offset output.
Definition discard_rx (count : Z) : M Z := on_rx (fun r => discard r count).

(** [fail]: it returns the error to raise. *)
Definition fail (error : CoreError) : M CoreError :=
  _ ← write IER_DLM 0;
  _ ← modify (fun u => with_state u (Failed error));
  mret error.

Definition account_line_status (lsr : Z) : M unit := modify (fun u =>
  let e := errors u in
  with_errors u (mkErrorCounters
    (if has lsr LSR_OE then bump32 (hardware_overrun e) else hardware_overrun e)
    (if has lsr LSR_PE then bump32 (parity e) else parity e)
    (if has lsr LSR_FE then bump32 (framing e) else framing e)
    (if has lsr LSR_BI then bump32 (break_indication e) else break_indication e)
    (rx_software_overrun_bytes e) (unexpected_modem_status e))).

(** [self.errors.rx_software_overrun_bytes = ....saturating_add(1)] *)
Definition count_overrun : M unit := modify (fun u =>
  let e := errors u in
  with_errors u (mkErrorCounters (hardware_overrun e) (parity e) (framing e) (break_indication e)
    (bump32 (rx_software_overrun_bytes e)) (unexpected_modem_status e))).
Definition count_modem_status : M unit := modify (fun u =>
  let e := errors u in
  with_errors u (mkErrorCounters (hardware_overrun e) (parity e) (framing e) (break_indication e)
    (rx_software_overrun_bytes e) (bump32 (unexpected_modem_status e)))).

(** The body of [stale_drain]'s loop, [n] more times, and what follows it. *)
Fixpoint stale_drain_loop (n : nat) : M unit :=
  match n with
  | O =>
      iir ← read IIR_FCR;
      if has iir IIR_NO_INTERRUPT then mret tt
      else error ← fail DrainLimit; throw error
  | S n =>
      lsr ← read LSR;
      _ ← account_line_status lsr;
      _ ← (if has lsr LSR_DR then _ ← read RBR_THR_DLL; mret tt else mret tt);
      _ ← read MSR;
      iir ← read IIR_FCR;
      if has iir IIR_NO_INTERRUPT then mret tt else stale_drain_loop n
  end.
Definition stale_drain : M unit := stale_drain_loop DRAIN_LIMIT.

Definition initialize_quiesced : M unit :=
  _ ← write IER_DLM 0;
  _ ← write LCR LCR_DLAB;
  _ ← write RBR_THR_DLL 1;
  _ ← write IER_DLM 0;
  _ ← write LCR LCR_8N1;
  _ ← write IIR_FCR FCR_ENABLE_AND_CLEAR;
  _ ← write MCR MCR_OUT2_RTS_DTR;
  _ ← modify (fun u => with_rx u ring_new);
  _ ← modify (fun u => with_tx u ring_new);
  _ ← modify (fun u => with_state u Quiesced);
  stale_drain.

Definition activate_interrupts : M unit :=
  s ← gets u_state;
  if bool_decide (s = Quiesced) then
    empty ← gets (fun u => is_empty (tx u));
    let ier := if (empty : bool) then IER_RDI_RLSI else Z.lor IER_RDI_RLSI IER_THRI in
    _ ← write IER_DLM ier;
    modify (fun u => with_state u Active)
  else mret tt.

Definition disable_interrupts : M unit :=
  _ ← write IER_DLM 0;
  modify (fun u => with_state u Quiesced).

Definition interrupts_disabled : M bool :=
  ier ← read IER_DLM; mret (ier =? 0).

(** [for &byte in bytes { if !self.tx.push(byte) { break; } count += 1; }] *)
Fixpoint enqueue_loop (bytes : list Z) (count : Z) : M Z :=
  match bytes with
  | [] => mret count
  | byte :: bytes =>
      pushed ← on_tx (fun r => push r byte);
      if (pushed : bool) then enqueue_loop bytes (count + 1) else mret count
  end.

Definition enqueue_tx (bytes : list Z) : M Z :=
  was_empty ← gets (fun u => is_empty (tx u));
  count ← enqueue_loop bytes 0;
  s ← gets u_state;
  _ ← (if negb (count =? 0) && was_empty && bool_decide (s = Active)
       then write IER_DLM (Z.lor IER_RDI_RLSI IER_THRI) else mret tt);
  mret count.

Definition receive_one (work : InterruptWork) : M InterruptWork :=
  byte ← read RBR_THR_DLL;
  pushed ← on_rx (fun r => push r byte);
  _ ← (if negb pushed then count_overrun else mret tt);
  mret (mkWork (causes work) (bump16 (received work)) (transmitted work)).

Definition handle_line_status (work : InterruptWork) : M InterruptWork :=
  lsr ← read LSR;
  _ ← account_line_status lsr;
  if has lsr LSR_DR then receive_one work else mret work.

(** The body of [drain_receive]'s loop, [n] more times; the code after the loop
    is the body once more, failing where it would receive. *)
Fixpoint drain_receive_loop (n : nat) (work : InterruptWork) : M InterruptWork :=
  lsr ← read LSR;
  _ ← account_line_status lsr;
  if negb (has lsr LSR_DR) then mret work
  else
  match n with
  | O => error ← fail DrainLimit; throw error
  | S n => work ← receive_one work; drain_receive_loop n work
  end.
Definition drain_receive : InterruptWork -> M InterruptWork := drain_receive_loop DRAIN_LIMIT.

(** [for _ in 0..TX_FIFO_CAPACITY] *)
Fixpoint fill_loop (n : nat) (work : InterruptWork) : M InterruptWork :=
  match n with
  | O => mret work
  | S n =>
      popped ← on_tx pop;
      match popped with
      | None => mret work
      | Some byte =>
          _ ← write RBR_THR_DLL byte;
          fill_loop n (mkWork (causes work) (received work) (bump16 (transmitted work)))
      end
  end.

Definition fill_transmit (work : InterruptWork) : M InterruptWork :=
  work ← fill_loop TX_FIFO_CAPACITY work;
  empty ← gets (fun u => is_empty (tx u));
  _ ← (if (empty : bool) then write IER_DLM IER_RDI_RLSI else mret tt);
  mret work.

(** [match iir & IIR_CAUSE_MASK { ... }] *)
Definition service_cause (iir : Z) (work : InterruptWork) : M InterruptWork :=
  let cause := Z.land iir IIR_CAUSE_MASK in
  if cause =? IIR_RLSI then handle_line_status work
  else if (cause =? IIR_RDI) || (cause =? IIR_RX_TIMEOUT) then drain_receive work
  else if cause =? IIR_THRI then fill_transmit work
  else if cause =? IIR_MSI then
    _ ← read MSR; _ ← count_modem_status; mret work
  else error ← fail (UnknownInterruptCause iir); throw error.

(** The body of [handle_interrupt]'s loop, [n] more times; the code after the
    loop reads [IIR] once more and fails where the body would serve a cause. *)
Fixpoint interrupt_loop (n : nat) (work : InterruptWork) : M InterruptWork :=
  iir ← read IIR_FCR;
  if has iir IIR_NO_INTERRUPT then mret work
  else
  match n with
  | O => error ← fail DrainLimit; throw error
  | S n =>
      work ← service_cause iir (mkWork (bump16 (causes work)) (received work) (transmitted work));
      interrupt_loop n work
  end.

Definition handle_interrupt : M InterruptWork :=
  s ← gets u_state;
  if negb (bool_decide (s = Active)) then mret work_default
  else interrupt_loop DRAIN_LIMIT work_default.

End uart.
Arguments Uart16550 : clear implicits.

End Uart.
