(* ===== verification/UartThms.v ===== *)
(** * The UART core refines two bounded queues

    The rings are queues; every call of the core, on a device that answers
    anything, is a step of a specification on queues; the interrupt-enable
    register always is what the core's state says; and each call makes a bounded
    number of register accesses. *)

From stdpp Require Import base tactics option list list_numbers.
From Stdlib Require Import ZArith Lia.
From S2P Require Import Prelude Bytes StateM Uart.
Import Uart.

(** ** Rings are queues *)

Record holds (r : Ring) (q : list Z) : Prop := {
  h_size : len (bytes r) = RING_CAPACITY;
  h_head : 0 <= head r < RING_CAPACITY;
  h_len : r_len r = len q;
  h_max : len q <= RING_CAPACITY;
  h_tail : tail r = (head r + len q) mod RING_CAPACITY;
  h_bytes : forall i b, q !! i = Some b ->
    get_at (bytes r) ((head r + Z.of_nat i) mod RING_CAPACITY) = Some b }.

Lemma holds_new : holds ring_new [].
Proof. split; try done; intros [|k]; done. Qed.

Lemma holds_is_empty r q : holds r q -> is_empty r = bool_decide (q = []).
Proof.
  intros H. unfold is_empty. rewrite (h_len _ _ H). destruct q; [done|].
  rewrite bool_decide_eq_false_2 by done. apply Z.eqb_neq. simpl. lia.
Qed.

Lemma push_full r q b : holds r q -> len q = RING_CAPACITY -> push r b = Ok (r, false).
Proof. intros H Hq. unfold push, is_full. by rewrite (h_len _ _ H), Hq, Z.eqb_refl. Qed.

Lemma push_room r q b :
  holds r q -> len q < RING_CAPACITY -> exists r', push r b = Ok (r', true) /\ holds r' (q ++ [b]).
Proof.
  intros [Hs Hh Hl Hm Ht Hb] Hq. unfold push, is_full. rewrite Hl.
  rewrite (proj2 (Z.eqb_neq _ _)) by lia. unfold RING_CAPACITY in *.
  pose proof (mod_range (head r + len q) 4096 ltac:(lia)).
  destruct (proj2 (put_range_is_Some (bytes r) (tail r) [b])) as [bs Hput]; [simpl; lia|].
  rewrite Hput. destruct (get_at_put _ _ _ _ Hput) as (_ & Hlen & Hsame & Hother). cbn [or_panic res_bind].
  rewrite (proj2 (plus_Ok (tail r) 1 (tail r + 1))) by lia. cbn [res_bind].
  rewrite (proj2 (plus_Ok (len q) 1 (len q + 1))) by lia. cbn [res_bind].
  eexists. split; [done|]. split; unfold RING_CAPACITY; cbn [bytes head tail r_len]; rewrite ?length_app; cbn [length]; try lia.
  - rewrite Ht, Zplus_mod_idemp_l. f_equal. lia.
  - intros i x Hi. apply lookup_app_Some in Hi as [Hi|[Hge Hi]].
    + pose proof (lookup_lt_Some _ _ _ Hi). rewrite Hother; [by apply Hb|].
      rewrite Ht. intros Heq. apply ring_injective in Heq; lia.
    + destruct (i - length q)%nat eqn:Hz; [|done]. injection Hi as <-.
      replace (head r + Z.of_nat i) with (head r + len q) by lia. by rewrite <-Ht.
Qed.

Lemma discard_spec r q n :
  holds r q -> 0 <= n ->
  exists r', discard r n = Ok (r', Z.min n (len q)) /\ holds r' (drop (Z.to_nat (Z.min n (len q))) q).
Proof.
  intros [Hs Hh Hl Hm Ht Hb] Hn. unfold discard. rewrite Hl. unfold RING_CAPACITY in *.
  set (k := Z.min n (len q)). assert (0 <= k <= len q) by lia.
  rewrite (proj2 (plus_Ok (head r) k (head r + k))) by lia. cbn [res_bind].
  rewrite (proj2 (minus_Ok (len q) k (len q - k))) by lia. cbn [res_bind].
  eexists. split; [done|].
  split; unfold RING_CAPACITY; cbn [bytes head tail r_len]; rewrite ?length_drop; try lia.
  - by apply mod_range.
  - rewrite Ht, Zplus_mod_idemp_l. f_equal. lia.
  - intros i b Hi. rewrite lookup_drop in Hi. rewrite Zplus_mod_idemp_l.
    replace (head r + k + Z.of_nat i) with (head r + Z.of_nat (Z.to_nat k + i)) by lia. by apply Hb.
Qed.

Lemma pop_empty r : holds r [] -> pop r = Ok (r, None).
Proof. intros H. unfold pop. by rewrite (holds_is_empty _ _ H). Qed.

Lemma pop_cons r b q : holds r (b :: q) -> exists r', pop r = Ok (r', Some b) /\ holds r' q.
Proof.
  intros H. destruct (discard_spec r (b :: q) 1 H ltac:(lia)) as (r' & Hd & Hr').
  destruct H as [Hs Hh Hl Hm Ht Hb]. simpl in Hm.
  replace (Z.min 1 (len (b :: q))) with 1 in * by (simpl; lia).
  exists r'. split; [|done]. unfold pop, is_empty. unfold discard in Hd.
  rewrite Hl in *. rewrite (proj2 (Z.eqb_neq _ _)) by (simpl; lia).
  pose proof (Hb 0%nat b eq_refl) as H0. rewrite Z.add_0_r, Z.mod_small in H0 by done. rewrite H0. cbn [or_panic res_bind].
  replace (Z.min 1 (len (b :: q))) with 1 in Hd by (simpl; lia).
  destruct (plus (head r) 1) as [n| |]; cbn [res_bind] in *; try done.
  destruct (minus _ 1); cbn [res_bind] in *; try done. by injection Hd as <-.
Qed.

Lemma copy_bytes_spec r q : holds r q -> forall n i, (i + n <= length q)%nat ->
  copy_bytes r (head r + Z.of_nat i) n = Ok (take n (drop i q)).
Proof.
  intros H. pose proof (h_head _ _ H). pose proof (h_max _ _ H). unfold RING_CAPACITY in *.
  induction n as [|n IH]; intros i Hi; [done|]. cbn [copy_bytes].
  destruct (lookup_lt_is_Some_2 q i) as [b Hb]; [lia|].
  rewrite (h_bytes _ _ H _ _ Hb). cbn [or_panic res_bind].
  rewrite (proj2 (plus_Ok _ 1 (head r + Z.of_nat (S i)))) by lia. cbn [res_bind].
  rewrite IH by lia. by rewrite (drop_S _ _ _ Hb).
Qed.

(** [copy_from] reads the queue from an offset, [copy_to] from its front. *)
Lemma copy_from_spec r q offset output :
  holds r q -> 0 <= offset ->
  copy_from r offset output =
  let copied := take (length output) (drop (Z.to_nat offset) q) in
  Ok (len copied, copied ++ drop (length copied) output).
Proof.
  intros H Ho. pose proof (h_head _ _ H). pose proof (h_max _ _ H). unfold copy_from.
  rewrite (h_len _ _ H), Z.geb_leb. unfold RING_CAPACITY in *. destruct (Z.leb_spec (len q) offset) as [Hl|Hl].
  { rewrite drop_ge by lia. by rewrite take_nil. }
  rewrite (proj2 (minus_Ok (len q) offset (len q - offset))) by lia. cbn [res_bind].
  rewrite (proj2 (plus_Ok (head r) offset (head r + offset))) by lia. cbn [res_bind].
  set (n := Z.to_nat (Z.min (len q - offset) (len output))).
  replace offset with (Z.of_nat (Z.to_nat offset)) at 1 by lia.
  rewrite (copy_bytes_spec r q H n (Z.to_nat offset)) by lia. cbn [res_bind].
  assert (take n (drop (Z.to_nat offset) q) = take (length output) (drop (Z.to_nat offset) q)) as ->.
  { destruct (decide (len q - offset <= len output)); [|f_equal; lia].
    rewrite !take_ge; rewrite ?length_drop; lia || done. }
  set (copied := take (length output) (drop (Z.to_nat offset) q)).
  assert (len copied = Z.min (len q - offset) (len output)) as Hc
    by (unfold copied; rewrite length_take, length_drop; lia).
  unfold put_range. rewrite (proj2 (Z.leb_le 0 0)), (proj2 (Z.leb_le _ _)) by lia. cbn [andb or_panic res_bind].
  rewrite Z.add_0_l, Nat2Z.id. cbn. by rewrite Hc.
Qed.

Lemma copy_to_spec r q output :
  holds r q -> copy_to r output =
  let copied := take (length output) q in Ok (len copied, copied ++ drop (length copied) output).
Proof.
  intros H. pose proof (copy_from_spec r q 0 output H ltac:(lia)) as Hf. change (drop (Z.to_nat 0) q) with q in Hf. cbv zeta in Hf |- *. rewrite <-Hf.
  unfold copy_to, copy_from. rewrite (h_len _ _ H), Z.geb_leb. pose proof (h_head _ _ H). unfold RING_CAPACITY in *.
  rewrite (proj2 (plus_Ok (head r) 0 (head r))) by lia. rewrite (proj2 (minus_Ok (len q) 0 (len q))) by lia.
  cbn [res_bind]. destruct (Z.leb_spec (len q) 0) as [Hl|Hl]; [|done].
  replace (Z.min (len q) (len output)) with 0 by lia.
  change (Z.to_nat 0) with 0%nat. cbn [copy_bytes res_bind]. by rewrite put_range_nil by lia.
Qed.

(** ** Observing a device *)

Inductive Access := Rd (offset value : Z) | Wr (offset value : Z).

(** Any device, with the accesses made to it so far. *)
Record Traced (I : Type) := mkTraced { dev : I; log : list Access }.
Arguments mkTraced {I} _ _.
Arguments dev {I} _.
Arguments log {I} _.

#[global] Instance traced_io {I} `{!ByteRegisterIo I} : ByteRegisterIo (Traced I) := {
  io_read d offset :=
    let '(next, value) := io_read (dev d) offset in (mkTraced next (log d ++ [Rd offset value]), value);
  io_write d offset value := mkTraced (io_write (dev d) offset value) (log d ++ [Wr offset value]) }.

(** Bytes taken from the receive register and given to the transmit register,
    in order. *)
Definition taken (evs : list Access) : list Z :=
  omap (fun a => match a with Rd 0 v => Some v | _ => None end) evs.
Definition given (evs : list Access) : list Z :=
  omap (fun a => match a with Wr 0 v => Some v | _ => None end) evs.

(** Reads of the interrupt-identification register that indicated a cause. *)
Definition indicated (evs : list Access) : list Z :=
  omap (fun a => match a with Rd 2 v => if has v IIR_NO_INTERRUPT then None else Some v | _ => None end) evs.

(** The line-control and interrupt-enable registers of a 16550: offset 1 is the
    latter unless the former's divisor-latch bit is set. *)
Record Regs := mkRegs { lcr : Z; ier : Z }.
Definition dlab (r : Regs) : bool := has (lcr r) LCR_DLAB.
Definition observe (r : Regs) (a : Access) : Regs :=
  match a with
  | Wr 3 v => mkRegs v (ier r)
  | Wr 1 v => if dlab r then r else mkRegs (lcr r) v
  | _ => r
  end.
Definition registers (r : Regs) (evs : list Access) : Regs := fold_left observe evs r.

(** ** Specification *)

Record Queues := mkQueues { q_rx : list Z; q_tx : list Z; q_dropped : Z; q_state : CoreState }.
Definition queues_new : Queues := mkQueues [] [] 0 Reset.

Inductive Op :=
| Initialize | Activate | Disable | IsDisabled | TransportEmpty | Enqueue (bytes : list Z)
| Interrupt | Dequeue | Discard (count : nat) | Copy (offset : nat) (output : list Z).

Inductive Value :=
| VUnit | VBool (b : bool) | VCount (n : Z) | VByte (b : option Z) | VWork (w : InterruptWork)
| VCopy (n : Z) (output : list Z).

Definition cap : nat := Z.to_nat RING_CAPACITY.

(** What the receive queue keeps of its old contents and the new bytes. *)
Definition keep (q : list Z) : list Z := take cap q.
Definition excess (q : list Z) : Z := len (drop cap q).
Definition sat32 (v : Z) : Z := Z.min (2 ^ 32 - 1) v.
Definition sat16 (v : Z) : Z := Z.min (2 ^ 16 - 1) v.

(** The accesses of a call that only quiesces. *)
Definition init_writes : list Access :=
  [Wr 1 0; Wr 3 128; Wr 0 1; Wr 1 0; Wr 3 3; Wr 2 7; Wr 4 11].

(** A call [op] that made the accesses [evs] and returned [r] takes the queues
    [q] to [q']. *)
Inductive call (q : Queues) : Op -> res CoreError Value -> list Access -> Queues -> Prop :=
| call_initialize evs :
    call q Initialize (Ok VUnit) (init_writes ++ evs) (mkQueues [] [] (q_dropped q) Quiesced)
| call_initialize_fails evs :
    call q Initialize (Err DrainLimit) (init_writes ++ evs) (mkQueues [] [] (q_dropped q) (Failed DrainLimit))
| call_activate :
    q_state q = Quiesced ->
    call q Activate (Ok VUnit) [Wr 1 (if bool_decide (q_tx q = []) then 5 else 7)]
      (mkQueues (q_rx q) (q_tx q) (q_dropped q) Active)
| call_activate_ignored :
    q_state q <> Quiesced -> call q Activate (Ok VUnit) [] q
| call_disable :
    call q Disable (Ok VUnit) [Wr 1 0] (mkQueues (q_rx q) (q_tx q) (q_dropped q) Quiesced)
| call_is_disabled v :
    call q IsDisabled (Ok (VBool (v =? 0))) [Rd 1 v] q
| call_transport_empty v :
    call q TransportEmpty (Ok (VBool (Z.testbit v 6))) [Rd 5 v] q
| call_enqueue bs fitting evs :
    fitting = take (cap - length (q_tx q)) bs ->
    evs = (if bool_decide (q_state q = Active /\ q_tx q = [] /\ bs <> []) then [Wr 1 7] else []) ->
    call q (Enqueue bs) (Ok (VCount (len fitting))) evs
      (mkQueues (q_rx q) (q_tx q ++ fitting) (q_dropped q) (q_state q))
| call_interrupt_ignored :
    q_state q <> Active -> call q Interrupt (Ok (VWork work_default)) [] q
| call_interrupt evs t :
    q_state q = Active -> q_tx q = given evs ++ t ->
    call q Interrupt
      (Ok (VWork (mkWork (sat16 (len (indicated evs))) (sat16 (len (taken evs))) (sat16 (len (given evs)))))) evs
      (mkQueues (keep (q_rx q ++ taken evs)) t
        (sat32 (q_dropped q + excess (q_rx q ++ taken evs))) Active)
| call_interrupt_fails evs e t :
    q_state q = Active -> q_tx q = given evs ++ t ->
    call q Interrupt (Err e) evs
      (mkQueues (keep (q_rx q ++ taken evs)) t
        (sat32 (q_dropped q + excess (q_rx q ++ taken evs))) (Failed e))
| call_dequeue :
    call q Dequeue (Ok (VByte (list.head (q_rx q)))) []
      (mkQueues (list.tail (q_rx q)) (q_tx q) (q_dropped q) (q_state q))
| call_discard n :
    call q (Discard n) (Ok (VCount (Z.min (Z.of_nat n) (len (q_rx q))))) []
      (mkQueues (drop n (q_rx q)) (q_tx q) (q_dropped q) (q_state q))
| call_copy offset output copied :
    copied = take (length output) (drop offset (q_rx q)) ->
    call q (Copy offset output) (Ok (VCopy (len copied) (copied ++ drop (length copied) output))) [] q.

(** ** Runs *)

Section runs.
Context {I : Type} `{!ByteRegisterIo I}.
Abbreviation U := (Uart16550 (Traced I)).
Abbreviation call_of := (SM U CoreError Value).
Implicit Types (u : U) (q : Queues) (op : Op) (evs : list Access).

(** A call of the core as an operation of the specification. *)
Definition pure {A} (c : U -> result A) : SM U CoreError A := fun u =>
  match c u with Ok a => (u, Ok a) | _ => (u, Panic) end.

Definition exec (op : Op) : call_of :=
  match op with
  | Initialize => _ ← initialize_quiesced; mret VUnit
  | Activate => _ ← activate_interrupts; mret VUnit
  | Disable => _ ← disable_interrupts; mret VUnit
  | IsDisabled => b ← interrupts_disabled; mret (VBool b)
  | TransportEmpty => b ← transport_empty; mret (VBool b)
  | Enqueue bs => n ← enqueue_tx bs; mret (VCount n)
  | Interrupt => w ← handle_interrupt; mret (VWork w)
  | Dequeue => b ← dequeue_rx; mret (VByte b)
  | Discard n => k ← discard_rx (Z.of_nat n); mret (VCount k)
  | Copy offset output =>
      c ← pure (fun u => copy_rx_from u (Z.of_nat offset) output); mret (VCopy c.1 c.2)
  end.

(** A sequence of calls: for each, what it returned and the accesses it made. *)
Fixpoint run (u : U) (ops : list Op) : U * list (Op * res CoreError Value * list Access) :=
  match ops with
  | [] => (u, [])
  | op :: ops =>
      let '(u1, r) := exec op u in
      let evs := drop (length (log (io u))) (log (io u1)) in
      let '(u2, history) := run u1 ops in (u2, (op, r, evs) :: history)
  end.

(** The queues after a history of calls. *)
Inductive calls : Queues -> list (Op * res CoreError Value * list Access) -> Queues -> Prop :=
| calls_nil q : calls q [] q
| calls_cons q op r evs q1 history q2 :
    call q op r evs q1 -> calls q1 history q2 -> calls q ((op, r, evs) :: history) q2.

(** The value of the interrupt-enable register the core's state asks for. *)
Definition enabled (s : CoreState) (t : list Z) (i : Z) : Prop :=
  match s with
  | Reset => True
  | Quiesced | Failed _ => i = 0
  | Active => i = if bool_decide (t = []) then 5 else 7
  end.

(** At most this many register accesses per call. *)
Definition access_bound (op : Op) : Z :=
  match op with
  | Initialize => 7 + 256 * 4 + 2
  | Interrupt => 256 * 514 + 2
  | Activate | Disable | IsDisabled | TransportEmpty | Enqueue _ => 1
  | Dequeue | Discard _ | Copy _ _ => 0
  end.

Definition overruns (u : U) : Z := rx_software_overrun_bytes (errors u).

(** *** The invariant between calls *)

Record inv (r0 : Regs) (u : U) (q : Queues) : Prop := {
  i_rx : holds (rx u) (q_rx q);
  i_tx : holds (tx u) (q_tx q);
  i_dropped : overruns u = q_dropped q;
  i_range : 0 <= q_dropped q < 2 ^ 32;
  i_state : u_state u = q_state q;
  i_dlab : dlab (registers r0 (log (io u))) = false;
  i_ier : enabled (q_state q) (q_tx q) (ier (registers r0 (log (io u)))) }.

(** *** While an interrupt is served: since state [u0] with queues [q0], at most
    [n] accesses were made and [w] is the work so far.  [settled]: the
    interrupt-enable register already reflects the transmit queue. *)

Record serving (r0 : Regs) (u0 : U) (q0 : Queues) (settled : bool) (n : nat)
    (w : InterruptWork) (evs : list Access) (t : list Z) (u : U) : Prop := {
  s_log : log (io u) = log (io u0) ++ evs;
  s_count : (length evs <= n)%nat;
  s_rx : holds (rx u) (keep (q_rx q0 ++ taken evs));
  s_tx : holds (tx u) t;
  s_sent : q_tx q0 = given evs ++ t;
  s_dropped : overruns u = sat32 (q_dropped q0 + excess (q_rx q0 ++ taken evs));
  s_state : u_state u = Active;
  s_causes : causes w = sat16 (len (indicated evs));
  s_received : received w = sat16 (len (taken evs));
  s_transmitted : transmitted w = sat16 (len (given evs));
  s_dlab : dlab (registers r0 (log (io u))) = false;
  s_ier : if settled then enabled Active t (ier (registers r0 (log (io u))))
          else t <> [] -> ier (registers r0 (log (io u))) = 7 }.

Lemma sat_bump v k : 0 <= k -> v = sat32 k -> bump32 v = sat32 (k + 1).
Proof. unfold bump32, sat32. lia. Qed.
Lemma sat_bump16 v k : 0 <= k -> v = sat16 k -> bump16 v = sat16 (k + 1).
Proof. unfold bump16, sat16. lia. Qed.

Lemma registers_snoc r0 evs a : registers r0 (evs ++ [a]) = observe (registers r0 evs) a.
Proof. unfold registers. by rewrite fold_left_app. Qed.

Lemma taken_snoc evs a : taken (evs ++ [a]) = taken evs ++ taken [a].
Proof. apply omap_app. Qed.
Lemma given_snoc evs a : given (evs ++ [a]) = given evs ++ given [a].
Proof. apply omap_app. Qed.

Lemma indicated_snoc evs a : indicated (evs ++ [a]) = indicated evs ++ indicated [a].
Proof. apply omap_app. Qed.

Section serving.
Context (r0 : Regs) (u0 : U) (q0 : Queues) (H0 : inv r0 u0 q0) (Hact : q_state q0 = Active).
Abbreviation Serving := (serving r0 u0 q0).

(** A read of a register other than the receive buffer. *)
Lemma serving_read_any offset b n w evs t u Q R :
  offset <> 0 -> Serving b n w evs t u ->
  (forall v w' u', received w' = received w -> transmitted w' = transmitted w ->
    causes w' = sat16 (len (indicated (evs ++ [Rd offset v]))) ->
    Serving b (S n) w' (evs ++ [Rd offset v]) t u' -> Q v u') ->
  wp (read offset) Q R u.
Proof.
  intros Ho [] HQ. unfold wp, read. cbn [io_read traced_io]. destruct (io_read _ offset) as [d v].
  eapply (HQ v (mkWork _ _ _)); [done..|].
  assert (taken [Rd offset v] = []) as Ht by (by destruct offset).
  split; cbn [io rx tx u_state errors with_io log causes received transmitted];
    rewrite ?taken_snoc, ?given_snoc, ?Ht, ?app_nil_r; try done.
  - by rewrite s_log0, app_assoc.
  - rewrite length_app. simpl. lia.
  - by rewrite registers_snoc.
  - by rewrite registers_snoc.
Qed.

Lemma work_eta w w' :
  causes w = causes w' -> received w = received w' -> transmitted w = transmitted w' -> w = w'.
Proof. destruct w, w'. cbn. by intros -> -> ->. Qed.

Lemma serving_read offset b n w evs t u Q R :
  offset <> 0 -> offset <> 2 -> Serving b n w evs t u ->
  (forall v u', Serving b (S n) w (evs ++ [Rd offset v]) t u' -> Q v u') -> wp (read offset) Q R u.
Proof.
  intros Ho Ho2 HS HQ. eapply serving_read_any; [done..|]. intros v w' u' Hr Ht Hc HS'. apply HQ.
  replace w with w'; [done|]. apply work_eta; [|done..]. rewrite Hc, (s_causes _ _ _ _ _ _ _ _ _ HS).
  rewrite indicated_snoc. replace (indicated [Rd offset v]) with (@nil Z); [by rewrite app_nil_r|].
  destruct offset as [|[| |]|]; try done. by destruct p.
Qed.

(** The read that starts a round. *)
Lemma serving_iir b n w evs t u Q R :
  Serving b n w evs t u ->
  (forall v w' u', Serving b (S n) w' (evs ++ [Rd 2 v]) t u' ->
    w' = (if has v IIR_NO_INTERRUPT then w else mkWork (bump16 (causes w)) (received w) (transmitted w)) ->
    Q v u') -> wp (read IIR_FCR) Q R u.
Proof.
  intros HS HQ. eapply serving_read_any; [done..|]. intros v w' u' Hr Ht Hc HS'. apply (HQ v w'); [done|].
  pose proof (s_causes _ _ _ _ _ _ _ _ _ HS) as Hw.
  rewrite indicated_snoc, length_app in Hc.
  assert (indicated [Rd IIR_FCR v] = if has v IIR_NO_INTERRUPT then [] else [v]) as Hi
    by (unfold indicated; cbn; by destruct (has v IIR_NO_INTERRUPT)).
  rewrite Hi in Hc. destruct (has v IIR_NO_INTERRUPT); apply work_eta; try done; rewrite Hc; cbn [causes length].
  - rewrite Hw. f_equal. lia.
  - rewrite (sat_bump16 _ (len (indicated evs)) ltac:(lia) Hw). f_equal. lia.
Qed.

Lemma serving_weaken b n m w evs t u : Serving b n w evs t u -> (n <= m)%nat -> Serving b m w evs t u.
Proof. intros [] ?. split; try done. lia. Qed.

Lemma serving_errors b n w evs t u e :
  Serving b n w evs t u -> rx_software_overrun_bytes e = overruns u -> Serving b n w evs t (with_errors u e).
Proof. intros [] He. split; try done. by rewrite <-s_dropped0. Qed.

(** One byte more in the receive queue, or one more dropped. *)
Lemma keep_snoc (q : list Z) b :
  (len (keep q) = RING_CAPACITY -> keep (q ++ [b]) = keep q /\ excess (q ++ [b]) = excess q + 1) /\
  (len (keep q) < RING_CAPACITY -> keep (q ++ [b]) = keep q ++ [b] /\ excess (q ++ [b]) = excess q).
Proof.
  unfold keep, excess. replace RING_CAPACITY with (Z.of_nat cap) by done.
  rewrite length_take. generalize cap as c. intros c. split; intros Hl.
  - assert (c <= length q)%nat by lia. rewrite take_app_le, drop_app_le by done. split; [done|].
    rewrite length_app. simpl. lia.
  - assert (length q < c)%nat by lia. rewrite !length_drop, length_app. simpl.
    rewrite !take_ge by (rewrite ?length_app; simpl; lia). split; [done|lia].
Qed.

Lemma excess_pos (q : list Z) : 0 <= excess q.
Proof. unfold excess. lia. Qed.

Lemma serving_receive b n w evs t u R :
  Serving b n w evs t u ->
  wp (receive_one w) (fun w' u' => exists v, Serving b (S n) w' (evs ++ [Rd 0 v]) t u') R u.
Proof.
  intros HS. pose proof HS as [Hlog Hc Hrx Htx Hsent Hdrop Hst Hca Hrec Htr Hdl Hier]. unfold receive_one. wp_step.
  unfold wp at 1, read. cbn [io_read traced_io]. destruct (io_read _ RBR_THR_DLL) as [d v]. wp_step.
  set (u1 := with_io u _).
  assert (Hbase : forall r' e', holds r' (keep (q_rx q0 ++ taken (evs ++ [Rd 0 v]))) ->
    rx_software_overrun_bytes e' = sat32 (q_dropped q0 + excess (q_rx q0 ++ taken (evs ++ [Rd 0 v]))) ->
    Serving b (S n) (mkWork (causes w) (bump16 (received w)) (transmitted w)) (evs ++ [Rd 0 v]) t
      (with_errors (with_rx u1 r') e')).
  { intros r' e' Hr' He'. unfold u1. split; cbn [io rx tx u_state errors with_io with_rx with_errors log received transmitted];
      rewrite ?given_snoc, ?indicated_snoc, ?app_nil_r; try done.
    - by rewrite Hlog, app_assoc.
    - rewrite length_app. simpl. lia.
    - rewrite taken_snoc, length_app. cbn. rewrite (sat_bump16 _ (len (taken evs)) ltac:(lia) Hrec). f_equal. lia.
    - by rewrite registers_snoc.
    - by rewrite registers_snoc. }
  rewrite taken_snoc, app_assoc in Hbase. cbn [taken omap list_omap] in Hbase.
  destruct (keep_snoc (q_rx q0 ++ taken evs) v) as [Hfull Hroom].
  pose proof (h_max _ _ Hrx). pose proof (i_range _ _ _ H0). pose proof (excess_pos (q_rx q0 ++ taken evs)).
  destruct (decide (len (keep (q_rx q0 ++ taken evs)) = RING_CAPACITY)) as [He|He].
  - destruct (Hfull He) as [Hk Hx]. rewrite Hk, Hx in Hbase.
    unfold wp at 1, on_rx. cbn [rx u1 with_io]. rewrite (push_full _ _ v Hrx He). cbn [negb]. repeat wp_step.
    exists v. apply Hbase; [done|]. cbn. rewrite Z.add_assoc. apply sat_bump; [lia|done].
  - destruct (Hroom ltac:(lia)) as [Hk Hx]. rewrite Hk, Hx in Hbase.
    destruct (push_room _ _ v Hrx) as (r' & Hp & Hr'); [lia|].
    unfold wp at 1, on_rx. cbn [rx u1 with_io]. rewrite Hp. cbn [negb]. repeat wp_step.
    exists v. by apply (Hbase r' (errors u)).
Qed.

(** How a call ends after [fail]. *)
Definition failed (n : nat) (e : CoreError) (u : U) : Prop :=
  exists evs t, log (io u) = log (io u0) ++ evs /\ (length evs <= n)%nat /\ q_tx q0 = given evs ++ t /\
  inv r0 u (mkQueues (keep (q_rx q0 ++ taken evs)) t
    (sat32 (q_dropped q0 + excess (q_rx q0 ++ taken evs))) (Failed e)).

Lemma failed_weaken n m e u : failed n e u -> (n <= m)%nat -> failed m e u.
Proof. intros (evs & t & ? & ? & ?) ?. exists evs, t. split_conj; try tauto. lia. Qed.

Lemma observe_ier r v : dlab r = false -> observe r (Wr 1 v) = mkRegs (lcr r) v.
Proof. intros H. cbn. by rewrite H. Qed.

Lemma serving_fail {A} b n w evs t u e (Q : A -> U -> Prop) :
  Serving b n w evs t u -> wp (error ← fail e; throw error) Q (failed (S n)) u.
Proof.
  intros [Hlog Hc Hrx Htx Hsent Hdrop Hst Hca Hrec Htr Hdl Hier]. unfold fail, write. repeat wp_step.
  exists (evs ++ [Wr 1 0]), t. rewrite taken_snoc, given_snoc, !app_nil_r. cbn [io with_io with_state log io_write traced_io].
  split_conj; [by rewrite Hlog, app_assoc|rewrite length_app; simpl; lia|done|].
  split; cbn [rx tx u_state with_io with_state q_rx q_tx q_dropped q_state io log enabled io_write traced_io]; try done.
  - pose proof (i_range _ _ _ H0). pose proof (excess_pos (q_rx q0 ++ taken evs)). unfold sat32. lia.
  - rewrite registers_snoc, observe_ier by done. done.
  - rewrite registers_snoc, observe_ier by done. done.
Qed.

(** The outcome of serving one cause: [k] accesses more, one more when it fails. *)
Abbreviation serves k n c u :=
  (wp c (fun w' u' => exists evs' t', Serving true (n + k) w' evs' t' u') (failed (n + k + 1)) u).

Lemma serving_lsr {A} n w evs t u (k : Z -> SM U CoreError A) Q R :
  Serving true n w evs t u ->
  (forall lsr u', Serving true (S n) w (evs ++ [Rd 5 lsr]) t u' -> wp (k lsr) Q R u') ->
  wp (lsr ← read LSR; _ ← account_line_status lsr; k lsr) Q R u.
Proof.
  intros HS Hk. wp_step. eapply serving_read; [| |done|]; [done..|]. intros v u' HS'. unfold account_line_status.
  repeat wp_step. apply Hk. by apply serving_errors.
Qed.

Lemma serving_line_status n w evs t u : Serving true n w evs t u -> serves 2 n (handle_line_status w) u.
Proof.
  intros HS. unfold handle_line_status. apply (serving_lsr _ _ _ _ _ _ _ _ HS). intros lsr u' HS'.
  destruct (has lsr LSR_DR).
  - eapply wp_mono; [exact (serving_receive _ _ _ _ _ _ (fun _ _ => False) HS')| |done].
    intros w' u2 [v Hv]. eexists _, _. apply (serving_weaken _ _ _ _ _ _ _ Hv). lia.
  - wp_step. eexists _, _. apply (serving_weaken _ _ _ _ _ _ _ HS'). lia.
Qed.

Lemma serving_drain k : forall n w evs t u,
  Serving true n w evs t u -> serves (2 * k + 1) n (drain_receive_loop k w) u.
Proof.
  induction k as [|k IH]; intros n w evs t u HS; cbn [drain_receive_loop];
    apply (serving_lsr _ _ _ _ _ _ _ _ HS); intros lsr u' HS'; destruct (has lsr LSR_DR); cbn [negb].
  - eapply wp_mono; [by apply (serving_fail _ _ _ _ _ _ DrainLimit (fun (_ : InterruptWork) _ => False) HS')|done|].
    intros e u2 Hf. apply (failed_weaken _ _ _ _ Hf). lia.
  - wp_step. eexists _, _. apply (serving_weaken _ _ _ _ _ _ _ HS'). lia.
  - wp_step. eapply wp_mono; [exact (serving_receive _ _ _ _ _ _ (fun _ _ => False) HS')| |done].
    intros w' u2 [v Hv]. eapply wp_mono; [by apply (IH _ _ _ _ _ Hv)| |]; cbv beta.
    + intros w2 u3 (evs' & t' & HS3). eexists _, _. apply (serving_weaken _ _ _ _ _ _ _ HS3). lia.
    + intros e u3 Hf. apply (failed_weaken _ _ _ _ Hf). lia.
  - wp_step. eexists _, _. apply (serving_weaken _ _ _ _ _ _ _ HS'). lia.
Qed.

Lemma serving_unsettled n w evs t u : Serving true n w evs t u -> Serving false n w evs t u.
Proof. intros []. split; try done. intros Hne. cbn in s_ier0. by rewrite bool_decide_eq_false_2 in s_ier0. Qed.

Lemma serving_fill k : forall n w evs t u R,
  Serving false n w evs t u ->
  wp (fill_loop k w) (fun w' u' => exists evs' t', Serving false (n + k) w' evs' t' u') R u.
Proof.
  induction k as [|k IH]; intros n w evs t u R HS; cbn [fill_loop].
  { wp_step. eexists _, _. apply (serving_weaken _ _ _ _ _ _ _ HS). lia. }
  pose proof HS as [Hlog Hc Hrx Htx Hsent Hdrop Hst Hca Hrec Htr Hdl Hier]. wp_step. unfold wp at 1, on_tx. destruct t as [|b t].
  - rewrite (pop_empty _ Htx). wp_step. eexists _, _. apply (serving_weaken _ n); [|lia]. by destruct HS.
  - destruct (pop_cons _ _ _ Htx) as (r' & -> & Hr'). unfold write. repeat wp_step.
    eapply wp_mono; [apply (IH (S n) _ (evs ++ [Wr 0 b]) t _ R)| |done].
    + split; cbn [io rx tx u_state errors with_io with_tx log causes received transmitted io_write traced_io];
        rewrite ?taken_snoc, ?given_snoc, ?indicated_snoc, ?app_nil_r; try done.
      * by rewrite Hlog, app_assoc.
      * rewrite length_app. simpl. lia.
      * by rewrite Hsent, <-app_assoc.
      * rewrite length_app. cbn. rewrite (sat_bump16 _ (len (given evs)) ltac:(lia) Htr). f_equal. lia.
      * by rewrite registers_snoc.
      * rewrite registers_snoc. cbn. intros _. by apply Hier.
    + cbv beta. intros w' u' (evs' & t' & HS'). eexists _, _. apply (serving_weaken _ _ _ _ _ _ _ HS'). lia.
Qed.

Lemma serving_transmit n w evs t u : Serving true n w evs t u -> serves 17 n (fill_transmit w) u.
Proof.
  intros HS. unfold fill_transmit. wp_step.
  eapply wp_mono; [by apply (serving_fill TX_FIFO_CAPACITY n w evs t u), serving_unsettled| |done].
  cbv beta. unfold TX_FIFO_CAPACITY. intros w' u' (evs' & t' & HS').
  pose proof HS' as [Hlog Hc Hrx Htx Hsent Hdrop Hst Hca Hrec Htr Hdl Hier]. repeat wp_step.
  rewrite (holds_is_empty _ _ Htx). destruct (bool_decide_reflect (t' = [])) as [->|Hne].
  - unfold write. repeat wp_step. exists (evs' ++ [Wr 1 5]), [].
    split; cbn [io rx tx u_state errors with_io log io_write traced_io];
      rewrite ?taken_snoc, ?given_snoc, ?indicated_snoc, ?app_nil_r; try done.
    + by rewrite Hlog, app_assoc.
    + rewrite length_app. simpl. lia.
    + by rewrite <-(app_nil_r (given evs')).
    + by rewrite registers_snoc, observe_ier.
    + by rewrite registers_snoc, observe_ier.
  - repeat wp_step. exists evs', t'. apply (serving_weaken _ (n + 16)); [|lia]. split; try done. cbn.
    rewrite bool_decide_eq_false_2 by done. by apply Hier.
Qed.

Lemma serves_weaken k m n c u : serves k n c u -> (k <= m)%nat -> serves m n c u.
Proof.
  intros H Hk. eapply wp_mono; [exact H| |]; cbv beta.
  - intros w' u' (evs' & t' & HS'). eexists _, _. apply (serving_weaken _ _ _ _ _ _ _ HS'). lia.
  - intros e u' Hf. apply (failed_weaken _ _ _ _ Hf). lia.
Qed.

(** One cause: at most one full drain of the receive buffer. *)
Lemma serving_cause iir n w evs t u : Serving true n w evs t u -> serves 513 n (service_cause iir w) u.
Proof.
  intros HS. unfold service_cause.
  destruct (_ =? IIR_RLSI); [apply (serves_weaken 2); [by eapply serving_line_status|lia]|].
  destruct (_ || _); [apply (serves_weaken (2 * DRAIN_LIMIT + 1)); [by eapply serving_drain|unfold DRAIN_LIMIT; lia]|].
  destruct (_ =? IIR_THRI); [apply (serves_weaken 17); [by eapply serving_transmit|lia]|].
  destruct (_ =? IIR_MSI).
  - wp_step. eapply serving_read; [| |done|]; [done..|]. intros v u' HS'. unfold count_modem_status. repeat wp_step.
    eexists _, _. apply (serving_weaken _ (S n)); [|lia]. by apply serving_errors.
  - eapply wp_mono; [exact (serving_fail _ _ _ _ _ _ (UnknownInterruptCause iir) (fun (_ : InterruptWork) _ => False) HS)|done|].
    intros e u2 Hf. apply (failed_weaken _ _ _ _ Hf). lia.
Qed.

Lemma serving_loop k : forall n w evs t u,
  Serving true n w evs t u -> serves (514 * k + 1) n (interrupt_loop k w) u.
Proof.
  induction k as [|k IH]; intros n w evs t u HS; cbn [interrupt_loop]; wp_step;
    eapply serving_iir; try done; intros v w' u' HS' Hw'; destruct (has v IIR_NO_INTERRUPT); subst w'.
  - wp_step. eexists _, _. apply (serving_weaken _ _ _ _ _ _ _ HS'). lia.
  - eapply wp_mono; [exact (serving_fail _ _ _ _ _ _ DrainLimit (fun (_ : InterruptWork) _ => False) HS')|done|].
    intros e u2 Hf. apply (failed_weaken _ _ _ _ Hf). lia.
  - wp_step. eexists _, _. apply (serving_weaken _ _ _ _ _ _ _ HS'). lia.
  - wp_step. eapply wp_mono; [exact (serving_cause v _ _ _ _ _ HS')| |]; cbv beta.
    + intros w2 u2 (evs2 & t2 & HS2). eapply wp_mono; [exact (IH _ _ _ _ _ HS2)| |]; cbv beta.
      * intros w3 u3 (evs3 & t3 & HS3). eexists _, _. apply (serving_weaken _ _ _ _ _ _ _ HS3). lia.
      * intros e u3 Hf. apply (failed_weaken _ _ _ _ Hf). lia.
    + intros e u2 Hf. apply (failed_weaken _ _ _ _ Hf). lia.
Qed.

End serving.

(** *** Each call *)

Section exec.
Context (r0 : Regs) (u0 : U) (q0 : Queues) (H0 : inv r0 u0 q0).

(** The call [op] that ended in [u] with [r] is a step of the specification. *)
Definition stepped (op : Op) (r : res CoreError Value) (u : U) : Prop :=
  exists evs q, log (io u) = log (io u0) ++ evs /\ len evs <= access_bound op /\
    call q0 op r evs q /\ inv r0 u q.

Abbreviation steps op := (wp (exec op) (fun v => stepped op (Ok v)) (fun e => stepped op (Err e)) u0).

Lemma drain_limit : Z.of_nat DRAIN_LIMIT = 256.
Proof. done. Qed.

Lemma exec_interrupt : steps Interrupt.
Proof.
  unfold exec, handle_interrupt. repeat wp_step. rewrite (i_state _ _ _ H0).
  destruct (bool_decide_reflect (q_state q0 = Active)) as [Ha|Hn]; cbn [negb].
  - assert (serving r0 u0 q0 true 0 work_default [] (q_tx q0) u0) as HS.
    { destruct H0 as [Hrx Htx Hd Hr Hs Hdl Hi]. pose proof (h_max _ _ Hrx) as Hm.
      assert (length (q_rx q0) <= cap)%nat by (unfold cap; lia).
      split; try done; rewrite ?app_nil_r; cbn [given taken omap list_omap]; try done.
      - unfold keep. by rewrite take_ge.
      - unfold excess, sat32. rewrite drop_ge by done. simpl. lia.
      - by rewrite Hs.
      - by rewrite Ha in Hi. }
    eapply wp_mono; [exact (serving_loop r0 u0 q0 H0 DRAIN_LIMIT _ _ _ _ _ HS)| |]; cbv beta.
    + intros w u (evs & t & [Hlog Hc Hrx Htx Hsent Hdrop Hst Hca Hrec Htr Hdl Hier]). wp_step.
      pose proof (i_range _ _ _ H0). pose proof (excess_pos (q_rx q0 ++ taken evs)).
      exists evs. eexists. split_conj; [done|cbn [access_bound]; pose proof drain_limit; lia| |].
      * rewrite (work_eta w (mkWork _ _ _) Hca Hrec Htr). by constructor.
      * split; try done. cbn. unfold sat32. lia.
    + intros e u (evs & t & Hlog & Hc & Hsent & Hinv). exists evs. eexists.
      split_conj; [done|cbn [access_bound]; pose proof drain_limit; lia|by constructor|done].
  - repeat wp_step. exists [], q0. rewrite app_nil_r. split_conj; [done|simpl; lia|by constructor|done].
Qed.

(** The queues and registers of a state reached by reads alone. *)
Definition drained (u1 : U) (n : nat) (u : U) : Prop :=
  exists evs, log (io u) = log (io u1) ++ evs /\ (length evs <= n)%nat /\
    registers r0 (log (io u)) = registers r0 (log (io u1)) /\
    rx u = rx u1 /\ tx u = tx u1 /\ u_state u = u_state u1 /\ overruns u = overruns u1.

Lemma drained_weaken u1 n m u : drained u1 n u -> (n <= m)%nat -> drained u1 m u.
Proof. intros (evs & ? & ? & ?) ?. exists evs. split_conj; try tauto. lia. Qed.

Lemma drained_read u1 n u offset Q R :
  drained u1 n u -> (forall v u', drained u1 (S n) u' -> Q v u') -> wp (read offset) Q R u.
Proof.
  intros (evs & Hl & Hn & Hr & ? & ? & ? & ?) HQ. unfold wp, read. cbn [io_read traced_io].
  destruct (io_read _ offset) as [d v]. apply HQ. exists (evs ++ [Rd offset v]).
  cbn [io rx tx u_state with_io log]. rewrite Hl, length_app, <-Hr, Hl, <-!app_assoc. split_conj; try done; [simpl; lia|].
  by rewrite app_assoc, registers_snoc.
Qed.

Lemma drained_errors u1 n u e :
  drained u1 n u -> rx_software_overrun_bytes e = overruns u -> drained u1 n (with_errors u e).
Proof. intros (evs & ? & ? & ? & ? & ? & ? & Ho) He. exists evs. unfold overruns in *. cbn. by rewrite He, <-Ho. Qed.

Definition drain_failed (u1 : U) (n : nat) (e : CoreError) (u : U) : Prop :=
  e = DrainLimit /\ exists u', drained u1 n u' /\ u = with_state (with_io u' (io_write (io u') 1 0)) (Failed DrainLimit).

Lemma stale_drain_spec u1 k : forall n u,
  drained u1 n u ->
  wp (stale_drain_loop k) (fun _ => drained u1 (n + 4 * k + 1)) (drain_failed u1 (n + 4 * k + 1)) u.
Proof.
  induction k as [|k IH]; intros n u Hu; cbn [stale_drain_loop]; wp_step; eapply drained_read; try done; intros v u2 H2.
  - destruct (has v _); [wp_step; by apply (drained_weaken _ _ _ _ H2); lia|]. unfold fail, write. repeat wp_step.
    split; [done|]. exists u2. split; [apply (drained_weaken _ _ _ _ H2); lia|done].
  - unfold account_line_status. repeat wp_step.
    match goal with |- context [with_errors u2 ?e] =>
      pose proof (drained_errors u1 (S n) u2 e H2 eq_refl) as H3; generalize dependent (with_errors u2 e) end.
    clear H2. intros u3 H3.
    assert (wp (if has v LSR_DR then _ ← read RBR_THR_DLL; mret tt else mret tt)
      (fun _ => drained u1 (S (S n))) (drain_failed u1 (n + 4 * S k + 1)) u3) as Hd.
    { destruct (has v LSR_DR); [|wp_step; apply (drained_weaken _ _ _ _ H3); lia].
      wp_step. eapply drained_read; [done|]. intros v4 u4 H4. by wp_step. }
    eapply wp_mono; [exact Hd| |done]. cbv beta. intros _ u4 H4. wp_step. eapply drained_read; [done|]. intros v5 u5 H5.
    wp_step. eapply drained_read; [done|]. intros v6 u6 H6. destruct (has v6 _).
    + wp_step. apply (drained_weaken _ _ _ _ H6). lia.
    + eapply wp_mono; [exact (IH _ _ H6)| |]; cbv beta.
      * intros _ u7 H7. apply (drained_weaken _ _ _ _ H7). lia.
      * intros e u7 (-> & u8 & H8 & ->). split; [done|]. exists u8. split; [|done]. apply (drained_weaken _ _ _ _ H8). lia.
Qed.

Lemma has_testbit v k : 0 <= k -> has v (2 ^ k) = Z.testbit v k.
Proof.
  intros Hk. unfold has. destruct (Z.testbit v k) eqn:Hb.
  - apply negb_true_iff, Z.eqb_neq. intros Hz. assert (Z.testbit (Z.land v (2 ^ k)) k = true) as H.
    { by rewrite Z.land_spec, Hb, Z.pow2_bits_true. }
    by rewrite Hz, Z.bits_0 in H.
  - apply negb_false_iff, Z.eqb_eq, Z.bits_inj'. intros j Hj. rewrite Z.land_spec, Z.bits_0.
    destruct (decide (j = k)) as [->|Hne]; [by rewrite Hb|]. rewrite Z.pow2_bits_false by done. apply andb_false_r.
Qed.

Lemma exec_initialize : steps Initialize.
Proof.
  unfold exec, initialize_quiesced, write. repeat wp_step. set (u1 := with_state _ Quiesced).
  destruct H0 as [Hrx Htx Hd Hr Hs Hdl Hi].
  assert (log (io u1) = log (io u0) ++ init_writes) as Hlog by (cbn; by rewrite <-!app_assoc).
  assert (registers r0 (log (io u1)) = mkRegs 3 0) as Hregs.
  { rewrite Hlog. unfold registers in *. rewrite fold_left_app. cbn [fold_left init_writes observe].
    by rewrite Hdl. }
  assert (drained u1 0 u1) as H1 by (exists []; by rewrite app_nil_r). pose proof drain_limit as Hlim.
  eapply wp_mono; [exact (stale_drain_spec u1 DRAIN_LIMIT _ _ H1)| |]; cbv beta.
  - intros _ u (evs & Hl & Hn & Hrg & Hrx' & Htx' & Hst & Ho). wp_step. exists (init_writes ++ evs). eexists.
    split_conj; [by rewrite Hl, Hlog, app_assoc|rewrite length_app; simpl; lia|by constructor|].
    split; cbn [q_rx q_tx q_dropped q_state enabled]; rewrite ?Hrg, ?Hregs, ?Hrx', ?Htx', ?Hst, ?Ho; try done; apply holds_new.
  - intros e u (-> & u' & (evs & Hl & Hn & Hrg & Hrx' & Htx' & Hst & Ho) & ->). exists (init_writes ++ evs ++ [Wr 1 0]). eexists.
    split_conj; [cbn; by rewrite Hl, Hlog, <-!app_assoc|rewrite !length_app; simpl; lia|by constructor|].
    split; cbn [q_rx q_tx q_dropped q_state enabled rx tx u_state io with_state with_io io_write traced_io log];
      rewrite ?registers_snoc, ?Hrg, ?Hregs, ?Hrx', ?Htx', ?Hst; try done; try apply holds_new.
    change (overruns u' = q_dropped q0). by rewrite Ho.
Qed.

Lemma exec_activate : steps Activate.
Proof.
  unfold exec, activate_interrupts, write. repeat wp_step. destruct H0 as [Hrx Htx Hd Hr Hs Hdl Hi]. rewrite Hs.
  destruct (bool_decide_reflect (q_state q0 = Quiesced)) as [Ha|Hn]; repeat wp_step.
  - rewrite (holds_is_empty _ _ Htx). set (v := if bool_decide (q_tx q0 = []) then 5 else 7).
    exists [Wr 1 v]. eexists. split_conj; [done|done|by constructor|].
    split; cbn [q_rx q_tx q_dropped q_state enabled rx tx u_state io with_state with_io io_write traced_io log]; try done.
    + by rewrite registers_snoc, observe_ier.
    + by rewrite registers_snoc, observe_ier.
  - exists [], q0. rewrite app_nil_r. split_conj; [done|done|by constructor|done].
Qed.

Lemma exec_disable : steps Disable.
Proof.
  unfold exec, disable_interrupts, write. repeat wp_step. destruct H0 as [Hrx Htx Hd Hr Hs Hdl Hi].
  exists [Wr 1 0]. eexists. split_conj; [done|done|by constructor|].
  split; cbn [q_rx q_tx q_dropped q_state enabled rx tx u_state io with_state with_io io_write traced_io log]; try done.
  - by rewrite registers_snoc, observe_ier.
  - by rewrite registers_snoc, observe_ier.
Qed.

(** One read changes nothing. *)
Lemma exec_read offset (f : Z -> bool) op :
  1 <= access_bound op -> (forall v, call q0 op (Ok (VBool (f v))) [Rd offset v] q0) ->
  wp (v ← read offset; mret (f v)) (fun b => stepped op (Ok (VBool b))) (fun e => stepped op (Err e)) u0.
Proof.
  intros Hb Hc. destruct H0 as [Hrx Htx Hd Hr Hs Hdl Hi]. wp_step. unfold wp at 1, read. cbn [io_read traced_io].
  destruct (io_read _ offset) as [d v]. wp_step. exists [Rd offset v], q0. split_conj; [done|done|apply Hc|].
  split; try done; cbn [io with_io log]; by rewrite registers_snoc.
Qed.

Lemma exec_is_disabled : steps IsDisabled.
Proof.
  unfold exec. wp_step. eapply wp_mono; [exact (exec_read 1 (fun v => v =? 0) IsDisabled ltac:(done) (call_is_disabled q0))| |done].
  cbv beta. intros b u Hu. by wp_step.
Qed.

Lemma exec_transport_empty : steps TransportEmpty.
Proof.
  unfold exec. wp_step. eapply wp_mono; [apply (exec_read 5 (fun v => has v LSR_TEMT) TransportEmpty ltac:(done))| |done].
  - intros v. pose proof (has_testbit v 6 ltac:(done)) as Hv. change (2 ^ 6) with LSR_TEMT in Hv. rewrite Hv. constructor.
  - cbv beta. intros b u Hu. by wp_step.
Qed.

(** A call on the receive queue alone. *)
Lemma exec_rx {A} (f : Ring -> result (Ring * A)) (g : A -> Value) op r a (q : list Z) :
  f (rx u0) = Ok (r, a) -> holds r q -> access_bound op = 0 ->
  call q0 op (Ok (g a)) [] (mkQueues q (q_tx q0) (q_dropped q0) (q_state q0)) ->
  wp (a ← on_rx f; mret (g a)) (fun v => stepped op (Ok v)) (fun e => stepped op (Err e)) u0.
Proof.
  intros Hf Hq Hb Hc. destruct H0. wp_step. unfold wp at 1, on_rx. rewrite Hf. wp_step.
  exists []. eexists. rewrite app_nil_r. split_conj; [done|by rewrite Hb|exact Hc|by split].
Qed.

Lemma exec_dequeue : steps Dequeue.
Proof.
  unfold exec, dequeue_rx. pose proof (i_rx _ _ _ H0) as Hrx. pose proof (call_dequeue q0) as Hc.
  destruct (q_rx q0) as [|b q].
  - by apply (exec_rx pop VByte Dequeue (rx u0) None []); [apply pop_empty| | |].
  - destruct (pop_cons _ _ _ Hrx) as (r & Hp & Hr). by apply (exec_rx pop VByte Dequeue r (Some b) q).
Qed.

Lemma exec_discard n : steps (Discard n).
Proof.
  unfold exec, discard_rx. pose proof (i_rx _ _ _ H0) as Hrx.
  destruct (discard_spec _ _ (Z.of_nat n) Hrx) as (r & Hp & Hr); [lia|].
  eapply (exec_rx _ VCount (Discard n) r); [exact Hp| |done|].
  - replace (drop (Z.to_nat _) (q_rx q0)) with (drop n (q_rx q0)) in Hr; [exact Hr|].
    destruct (decide (n <= length (q_rx q0))%nat); [f_equal; lia|]. rewrite !drop_ge; lia || done.
  - constructor.
Qed.

Lemma exec_copy offset output : steps (Copy offset output).
Proof.
  unfold exec. wp_step. unfold wp at 1, pure, copy_rx_from.
  rewrite (copy_from_spec _ _ _ output (i_rx _ _ _ H0)) by lia. rewrite Nat2Z.id. cbv zeta iota beta. wp_step.
  exists [], q0. rewrite app_nil_r. split_conj; [done|done|by constructor|done].
Qed.

(** The bytes that fit, and nothing else, enter the transmit queue. *)
Lemma enqueue_spec bs : forall u t n R,
  holds (tx u) t ->
  wp (enqueue_loop bs n) (fun k u' => exists r', u' = with_tx u r' /\
    let fitting := take (cap - length t) bs in k = n + len fitting /\ holds r' (t ++ fitting)) R u.
Proof.
  induction bs as [|b bs IH]; intros u t n R Ht; cbn [enqueue_loop].
  { wp_step. exists (tx u). rewrite take_nil, app_nil_r. split_conj; [by destruct u|simpl; lia|done]. }
  wp_step. unfold wp at 1, on_tx. pose proof (h_max _ _ Ht). unfold cap.
  destruct (decide (len t = RING_CAPACITY)) as [He|He].
  - rewrite (push_full _ _ b Ht He). wp_step. exists (tx u).
    replace (Z.to_nat RING_CAPACITY - length t)%nat with 0%nat by lia. cbn [take]. rewrite app_nil_r.
    split_conj; [by destruct u|simpl; lia|done].
  - destruct (push_room _ _ b Ht ltac:(lia)) as (r' & -> & Hr').
    eapply wp_mono; [exact (IH (with_tx u r') (t ++ [b]) (n + 1) R Hr')| |done]. cbv beta.
    intros k u' (r2 & -> & -> & Hr2). exists r2. unfold cap in *. rewrite length_app in *. cbn [length] in *.
    replace (Z.to_nat RING_CAPACITY - length t)%nat with (S (Z.to_nat RING_CAPACITY - (length t + 1)))%nat by lia.
    cbn [take]. rewrite <-app_assoc in Hr2. split_conj; [done|simpl; lia|done].
Qed.

Lemma take_cap_cons (b : Z) bs : take (cap - length (@nil Z)) (b :: bs) = b :: take (pred cap) bs.
Proof. unfold cap, RING_CAPACITY. rewrite Nat.sub_0_r. by destruct (Z.to_nat 4096) eqn:E. Qed.

Lemma exec_enqueue bs : steps (Enqueue bs).
Proof.
  destruct H0 as [Hrx Htx Hd Hr Hs Hdl Hi]. unfold exec, enqueue_tx, write. repeat wp_step.
  rewrite (holds_is_empty _ _ Htx).
  eapply wp_mono; [exact (enqueue_spec bs u0 (q_tx q0) 0 (fun _ _ => False) Htx)| |done]. cbv beta.
  set (fitting := take (cap - length (q_tx q0)) bs). intros k u (r & -> & -> & Hr2). repeat wp_step.
  cbn [u_state with_tx]. rewrite Hs, Z.add_0_l.
  assert (negb (len fitting =? 0) && bool_decide (q_tx q0 = []) && bool_decide (q_state q0 = Active) =
    bool_decide (q_state q0 = Active /\ q_tx q0 = [] /\ bs <> [])) as ->.
  { destruct (bool_decide_reflect (q_tx q0 = [])) as [He|]; rewrite ?andb_false_r; cbn [andb];
      [|rewrite bool_decide_eq_false_2 by tauto; done]. rewrite andb_true_r.
    destruct (bool_decide_reflect (q_state q0 = Active)); rewrite ?andb_false_r, ?andb_true_r;
      [|rewrite bool_decide_eq_false_2 by tauto; done].
    unfold fitting. rewrite He. destruct bs; [by rewrite take_nil, bool_decide_eq_false_2 by tauto|].
    rewrite bool_decide_eq_true_2 by done.
    by rewrite take_cap_cons. }
  assert (enabled (q_state q0) (q_tx q0 ++ fitting)
    (if bool_decide (q_state q0 = Active /\ q_tx q0 = [] /\ bs <> []) then 7 else ier (registers r0 (log (io u0))))) as Hen.
  { destruct (bool_decide_reflect (q_state q0 = Active /\ q_tx q0 = [] /\ bs <> [])) as [(Ha & He & Hb)|Hn].
    - rewrite Ha, He. cbn. unfold fitting. rewrite He. destruct bs; [done|]. by rewrite take_cap_cons.
    - destruct (q_state q0) eqn:Hst; try done. cbn in *. rewrite Hi.
      destruct (q_tx q0); [|done]. cbn [app]. unfold fitting. destruct bs; [by rewrite take_nil|]. naive_solver. }
  pose proof (call_enqueue q0 bs fitting _ eq_refl eq_refl) as Hcall.
  destruct (bool_decide (q_state q0 = Active /\ q_tx q0 = [] /\ bs <> [])); repeat wp_step; eexists _, _.
  - split_conj; [done|done|exact Hcall|].
    split; cbn [q_rx q_tx q_dropped q_state rx tx u_state io with_tx with_io io_write traced_io log]; try done.
    + by rewrite registers_snoc, observe_ier.
    + by rewrite registers_snoc, observe_ier.
  - split_conj; [by rewrite app_nil_r|done|exact Hcall|by split].
Qed.

Lemma exec_steps op : steps op.
Proof.
  destruct op; [apply exec_initialize|apply exec_activate|apply exec_disable|apply exec_is_disabled|
    apply exec_transport_empty|apply exec_enqueue|apply exec_interrupt|apply exec_dequeue|apply exec_discard|apply exec_copy].
Qed.

End exec.

(** *** Runs *)

Abbreviation within c := (len c.2 <= access_bound c.1.1).

Lemma run_calls r0 ops : forall u q, inv r0 u q ->
  exists q', calls q (run u ops).2 q' /\ inv r0 (run u ops).1 q' /\ Forall (fun c => within c) (run u ops).2.
Proof.
  induction ops as [|op ops IH]; intros u q Hu; cbn [run].
  { exists q. by split; [constructor|split; [|constructor]]. }
  destruct (wp_run _ _ _ _ (exec_steps r0 u q Hu op)) as (u1 & r & -> & Hr).
  assert (stepped r0 u q op r u1) as (evs & q1 & Hlog & Hn & Hcall & Hu1) by naive_solver.
  destruct (IH u1 q1 Hu1) as (q2 & Hcalls & Hu2 & Hb). destruct (run u1 ops) as [u2 history].
  rewrite Hlog, drop_app_length. exists q2. split_conj; [by econstructor|done|by constructor].
Qed.

Lemma inv_new r0 (io : I) : dlab r0 = false -> inv r0 (uart_new (mkTraced io [])) queues_new.
Proof. intros. split; try done; apply holds_new. Qed.

(** C8: whatever the device answers, a sequence of calls on a new core is a run
    of two queues of at most 4096 bytes: bytes leave the transmit queue only by
    being written to the transmit register, in order; bytes read from the
    receive register in an interrupt enter the receive queue in order, the
    newest being dropped and counted when it is full; nothing panics; the
    lengths, copies and counters the core reports are those of the queues. *)
Theorem uart_refines_queues (io : I) (ops : list Op) :
  let '(u, history) := run (uart_new (mkTraced io [])) ops in
  exists q, calls queues_new history q /\
  state u = q_state q /\ rx_software_overrun_bytes (error_counters u) = q_dropped q /\
  rx_len u = len (q_rx q) /\ tx_len u = len (q_tx q) /\ rx_len u <= RING_CAPACITY /\ tx_len u <= RING_CAPACITY /\
  forall output, copy_rx u output =
    let copied := take (length output) (q_rx q) in Ok (len copied, copied ++ drop (length copied) output).
Proof.
  destruct (run_calls (mkRegs 0 0) ops _ _ (inv_new (mkRegs 0 0) io eq_refl)) as (q & Hc & [Hrx Htx Hd Hr Hs Hdl Hi] & _).
  destruct (run _ ops) as [u history]. exists q. unfold rx_len, tx_len, ring_len. cbn [fst snd] in *.
  rewrite (h_len _ _ Hrx), (h_len _ _ Htx). split_conj; try done.
  - apply (h_max _ _ Hrx).
  - apply (h_max _ _ Htx).
  - intros output. by apply copy_to_spec.
Qed.

(** on a 16550 whose divisor latch is not open when the core is created, the
    interrupt-enable register after any sequence of calls is zero when the core
    is quiesced or has failed, and when it is active enables the receive and
    line-status interrupts, and the transmit interrupt exactly while bytes wait
    to be sent. *)
Theorem uart_interrupt_enable (io : I) (r0 : Regs) (ops : list Op) :
  dlab r0 = false ->
  let u := (run (uart_new (mkTraced io [])) ops).1 in
  let registers := registers r0 (log (Uart.io u)) in
  dlab registers = false /\
  match state u with
  | Reset => True
  | Quiesced | Failed _ => ier registers = 0
  | Active => ier registers = if tx_len u =? 0 then IER_RDI_RLSI else Z.lor IER_RDI_RLSI IER_THRI
  end.
Proof.
  intros Hd0. destruct (run_calls r0 ops _ _ (inv_new r0 io Hd0)) as (q & _ & [Hrx Htx Hd Hr Hs Hdl Hi] & _).
  cbv zeta. split; [done|]. unfold state. rewrite Hs. destruct (q_state q); try done.
  cbn [enabled] in Hi. rewrite Hi. change (tx_len ?u =? 0) with (is_empty (tx u)). by rewrite (holds_is_empty _ _ Htx).
Qed.

(** C40: no call makes more register accesses than its bound, 131586 for a
    call that serves an interrupt, however the device behaves: the drains end. *)
Theorem uart_accesses_bounded (io : I) (ops : list Op) :
  Forall (fun '(op, _, evs) => len evs <= access_bound op) (run (uart_new (mkTraced io [])) ops).2.
Proof.
  destruct (run_calls (mkRegs 0 0) ops _ _ (inv_new (mkRegs 0 0) io eq_refl)) as (_ & _ & _ & Hb).
  eapply Forall_impl; [exact Hb|]. by intros [[op r] evs].
Qed.

End runs.

(** A device that raises one transmitter interrupt. *)
#[local] Instance idle_device : ByteRegisterIo nat := {
  io_read n offset := (S n, if (offset =? 2) && (n =? 3)%nat then 2 else if offset =? 2 then 1 else 0);
  io_write n _ _ := n }.

Definition sample_ops : list Op := [Initialize; Enqueue [72; 105]; Activate; Interrupt; Enqueue [10]].

Lemma uart_interrupt_enable_witness :
  dlab (mkRegs 0 0) = false /\
  ier (registers (mkRegs 0 0) (log (io (run (uart_new (mkTraced 0%nat [])) sample_ops).1))) = 7.
Proof.
  split; [reflexivity|].
  pose proof (uart_interrupt_enable 0%nat (mkRegs 0 0) sample_ops eq_refl) as [_ H]. revert H.
  vm_compute. done.
Defined.

(** The first write of [initialize_quiesced] reaches the divisor latch and not
    the interrupt-enable register when the latch is open on entry. *)
Lemma open_latch_keeps_ier : registers (mkRegs LCR_DLAB 5) init_writes = mkRegs LCR_8N1 5.
Proof. reflexivity. Qed.
