(* ===== verification/Restart.v ===== *)
(** * Restart supervision (crates/wyrmroot-runtime/src/supervision/restart.rs)

    The finite restart policy of one supervised peer.  Every method is a state
    transformer: an error keeps the changes made before it, as the observed time
    and the history of the source are kept.  [admit_recovery] alone works on a
    copy that an error discards. *)

From stdpp Require Import base tactics option list list_numbers.
From Stdlib Require Import ZArith Lia.
From S2P Require Import Prelude StateM.

Module Restart.

Definition RESTART_HISTORY_CAPACITY : nat := 4.

Record SupervisionPolicy := mkPolicy {
  max_attempts : Z; backoff_ns : Z; restart_window_ns : Z;
  ready_timeout_ns : Z; cleanup_timeout_ns : Z }.

Definition WYR0_I_SUPERVISION_POLICY : SupervisionPolicy :=
  mkPolicy 4 25000000 2000000000 1000000000 1000000000.

Inductive TerminalDisposition :=
| NormalExit (code : Z) | AuthorizedTermination | TaskGroupTeardown | UnhandledException.

Inductive AttemptFailure :=
| CreationFailed | StartFailed | ExitBeforeReady (d : TerminalDisposition) | MalformedReady
| DuplicateReady | ReadinessFailedAfterExit | WrongTransactionReady | PeerClosedBeforeReady
| WaitFailed | ExitQueryFailed | ReadyTimeout | ExitAfterReady (d : TerminalDisposition)
| Cancelled.

Inductive CleanupAction := CloseUnpublished | TerminateTaskGroup | CloseTerminal.
Inductive CleanupDisposition := Complete | CleanupFailed.

#[global] Instance TerminalDisposition_eq_dec : EqDecision TerminalDisposition.
Proof. solve_decision. Defined.
#[global] Instance AttemptFailure_eq_dec : EqDecision AttemptFailure.
Proof. solve_decision. Defined.
#[global] Instance CleanupAction_eq_dec : EqDecision CleanupAction.
Proof. solve_decision. Defined.
#[global] Instance CleanupDisposition_eq_dec : EqDecision CleanupDisposition.
Proof. solve_decision. Defined.

Record AttemptRecord := mkRecord {
  attempt : Z; generation : Z; transaction_id : Z; started_at_ns : Z; terminal_at_ns : Z;
  failure : AttemptFailure; cleanup : CleanupDisposition }.

Record RestartHistory := mkHistory { records : list (option AttemptRecord); h_len : nat }.

Definition history_new : RestartHistory := mkHistory (replicate RESTART_HISTORY_CAPACITY None) 0.
Definition history_is_empty (h : RestartHistory) : bool := (h_len h =? 0)%nat.
(** [&self.records[..self.len()]] *)
Definition as_slice {E} (h : RestartHistory) : res E (list (option AttemptRecord)) :=
  if (h_len h <=? length (records h))%nat then Ok (take (h_len h) (records h)) else Panic.

Inductive RestartState :=
| Stopped
| Starting (attempt generation transaction_id deadline_ns : Z)
| AwaitingReady (attempt generation transaction_id deadline_ns : Z)
| Ready (attempt generation transaction_id : Z)
| CleaningUp (attempt generation transaction_id : Z) (failure : AttemptFailure)
    (action : CleanupAction) (classified_at_ns deadline_ns : Z) (retry : bool)
| Backoff (next_attempt next_generation deadline_ns : Z)
| PermanentFailure (final_failure : AttemptFailure) (cleanup : CleanupDisposition).

#[global] Instance RestartState_eq_dec : EqDecision RestartState.
Proof. solve_decision. Defined.

Inductive RestartTransitionError :=
| InvalidPolicy | ZeroIdentity | InvalidState | StaleGeneration | TransactionMismatch
| DeadlineNotReached | DeadlineExpired | DeadlineMismatch | TimeRegression
| GenerationNotAdvanced | AttemptFailed (f : AttemptFailure) | ArithmeticOverflow
| HistoryExhausted.

Record RestartSupervisor := mkSupervisor {
  policy : SupervisionPolicy; r_state : RestartState; history : RestartHistory;
  episode_started_at_ns : Z; attempt_started_at_ns : Z; last_observed_ns : Z; last_generation : Z }.

Definition with_state (s : RestartSupervisor) (x : RestartState) : RestartSupervisor :=
  mkSupervisor (policy s) x (history s) (episode_started_at_ns s) (attempt_started_at_ns s)
    (last_observed_ns s) (last_generation s).
Definition with_history (s : RestartSupervisor) (h : RestartHistory) : RestartSupervisor :=
  mkSupervisor (policy s) (r_state s) h (episode_started_at_ns s) (attempt_started_at_ns s)
    (last_observed_ns s) (last_generation s).
Definition with_time (s : RestartSupervisor) (now : Z) : RestartSupervisor :=
  mkSupervisor (policy s) (r_state s) (history s) (episode_started_at_ns s) (attempt_started_at_ns s)
    now (last_generation s).
Definition with_episode (s : RestartSupervisor) (now : Z) : RestartSupervisor :=
  mkSupervisor (policy s) (r_state s) (history s) now (attempt_started_at_ns s)
    (last_observed_ns s) (last_generation s).
Definition with_attempt (s : RestartSupervisor) (now generation : Z) : RestartSupervisor :=
  mkSupervisor (policy s) (r_state s) (history s) (episode_started_at_ns s) now
    (last_observed_ns s) generation.

Definition supervisor_new (policy : SupervisionPolicy) : res RestartTransitionError RestartSupervisor :=
  reject_if! (max_attempts policy =? 0)
    || (max_attempts policy >? Z.of_nat RESTART_HISTORY_CAPACITY)
    || (backoff_ns policy =? 0) || (restart_window_ns policy =? 0)
    || (ready_timeout_ns policy =? 0) || (cleanup_timeout_ns policy =? 0)
  with InvalidPolicy;;
  Ok (mkSupervisor policy Stopped history_new 0 0 0 0).

(** ** Checks *)

Definition validate_identity (generation transaction_id : Z) : res RestartTransitionError unit :=
  if (generation =? 0) || (transaction_id =? 0) then Err ZeroIdentity else Ok tt.

Definition validate_event_identity (generation transaction_id current_generation current_transaction : Z)
    : res RestartTransitionError unit :=
  let! _ := validate_identity generation transaction_id in
  reject_if! negb (generation =? current_generation) with StaleGeneration;;
  reject_if! negb (transaction_id =? current_transaction) with TransactionMismatch;;
  Ok tt.

Definition checked_deadline (now_ns duration_ns : Z) : res RestartTransitionError Z :=
  ok_or ArithmeticOverflow (checked_add_u64 now_ns duration_ns).

Definition validate_deadline (expected_deadline_ns current_deadline_ns : Z) : res RestartTransitionError unit :=
  if expected_deadline_ns =? current_deadline_ns then Ok tt else Err DeadlineMismatch.

Definition require_reached (now_ns deadline_ns : Z) : res RestartTransitionError unit :=
  if now_ns <? deadline_ns then Err DeadlineNotReached else Ok tt.

Definition active_identity (state : RestartState) : option (Z * Z) :=
  match state with
  | Starting _ g t _ | AwaitingReady _ g t _ | Ready _ g t | CleaningUp _ g t _ _ _ _ _ => Some (g, t)
  | _ => None
  end.

(** ** Transitions *)

Abbreviation M := (SM RestartSupervisor RestartTransitionError).

(** A check that does not touch the state. *)
Definition try {A} (c : res RestartTransitionError A) : M A := fun s => (s, c).
Definition set_state (x : RestartState) : M unit := modify (fun s => with_state s x).

Definition observe_time (now_ns : Z) : M unit :=
  last ← gets last_observed_ns;
  if now_ns <? last then throw TimeRegression else modify (fun s => with_time s now_ns).

(** [RestartHistory::push] on [self.history]: the slot is written before the
    length is checked. *)
Definition history_push (record : AttemptRecord) : M unit :=
  h ← gets history;
  if (h_len h <? length (records h))%nat then
    _ ← modify (fun s => with_history s (mkHistory (<[h_len h := Some record]> (records h)) (h_len h)));
    if (h_len h + 1 <? 256)%nat then
      modify (fun s => with_history s (mkHistory (records (history s)) (h_len h + 1)))
    else throw ArithmeticOverflow
  else throw HistoryExhausted.

Definition identity_error_or_invalid_state (generation transaction_id : Z) : M unit :=
  s ← gets r_state;
  match active_identity s with
  | Some (current_generation, current_transaction) =>
      _ ← try (validate_event_identity generation transaction_id current_generation current_transaction);
      throw InvalidState
  | None => throw InvalidState
  end.

Definition enter_cleanup (now_ns : Z) (failure : AttemptFailure) (action : CleanupAction) (retry : bool) : M unit :=
  s ← gets r_state;
  match s with
  | Starting a g t _ | AwaitingReady a g t _ | Ready a g t =>
      timeout ← gets (fun s => cleanup_timeout_ns (policy s));
      deadline_ns ← try (checked_deadline now_ns timeout);
      set_state (CleaningUp a g t failure action now_ns deadline_ns retry)
  | _ => throw InvalidState
  end.

Definition finish_cleanup (now_ns : Z) (failure : AttemptFailure) (requested : CleanupDisposition) : M unit :=
  s ← gets r_state;
  match s with
  | CleaningUp a g t current_failure _ classified_at_ns deadline_ns retry =>
      if negb (bool_decide (failure = current_failure)) then throw InvalidState
      else
      let cleanup :=
        if bool_decide (requested = Complete) && (now_ns >=? deadline_ns) then CleanupFailed else requested in
      started ← gets attempt_started_at_ns;
      _ ← history_push (mkRecord a g t started classified_at_ns failure cleanup);
      if bool_decide (cleanup = CleanupFailed) then set_state (PermanentFailure failure cleanup)
      else if negb retry then set_state Stopped
      else
      match checked_add (2 ^ 8) a 1 with
      | None => throw ArithmeticOverflow
      | Some next_attempt =>
          p ← gets policy;
          if next_attempt >? max_attempts p then set_state (PermanentFailure failure cleanup)
          else
          match checked_add_u64 g 1 with
          | None => set_state (PermanentFailure failure cleanup)
          | Some next_generation =>
              deadline_ns ← try (checked_deadline now_ns (backoff_ns p));
              episode ← gets episode_started_at_ns;
              window_end ← try (checked_deadline episode (restart_window_ns p));
              if deadline_ns >? window_end then set_state (PermanentFailure failure cleanup)
              else set_state (Backoff next_attempt next_generation deadline_ns)
          end
      end
  | _ => throw InvalidState
  end.

Definition current_failure : M AttemptFailure :=
  s ← gets r_state;
  match s with
  | CleaningUp _ _ _ failure _ _ _ _ => mret failure
  | _ => throw InvalidState
  end.

Definition last_failure : M AttemptFailure :=
  h ← gets history;
  match h_len h with
  | O => throw InvalidState
  | S index =>
      slice ← try (as_slice h);
      entry ← try (or_panic (slice !! index));
      match entry with
      | Some record => mret (failure record)
      | None => throw InvalidState
      end
  end.

Definition begin (now_ns generation transaction_id : Z) : M unit :=
  s ← gets r_state;
  match s with
  | Stopped =>
      _ ← try (validate_identity generation transaction_id);
      last ← gets last_generation;
      if generation <=? last then throw GenerationNotAdvanced
      else
      p ← gets policy;
      deadline_ns ← try (checked_deadline now_ns (ready_timeout_ns p));
      _ ← observe_time now_ns;
      _ ← modify (fun s => with_history s history_new);
      _ ← modify (fun s => with_episode s now_ns);
      _ ← modify (fun s => with_attempt s now_ns generation);
      set_state (Starting 1 generation transaction_id deadline_ns)
  | _ => throw InvalidState
  end.

Definition child_started (generation transaction_id now_ns : Z) : M unit :=
  s ← gets r_state;
  match s with
  | Starting a current_generation current_transaction deadline_ns =>
      _ ← try (validate_event_identity generation transaction_id current_generation current_transaction);
      _ ← observe_time now_ns;
      if now_ns >=? deadline_ns then
        _ ← enter_cleanup now_ns ReadyTimeout TerminateTaskGroup true;
        throw (AttemptFailed ReadyTimeout)
      else set_state (AwaitingReady a generation transaction_id deadline_ns)
  | _ => throw InvalidState
  end.

Definition ready (generation transaction_id now_ns : Z) : M unit :=
  s ← gets r_state;
  match s with
  | AwaitingReady a current_generation current_transaction deadline_ns =>
      _ ← try (validate_identity generation transaction_id);
      if negb (generation =? current_generation) then throw StaleGeneration
      else
      _ ← observe_time now_ns;
      if negb (transaction_id =? current_transaction) then
        _ ← enter_cleanup now_ns WrongTransactionReady TerminateTaskGroup true;
        throw (AttemptFailed WrongTransactionReady)
      else if now_ns >=? deadline_ns then
        _ ← enter_cleanup now_ns ReadyTimeout TerminateTaskGroup true;
        throw (AttemptFailed ReadyTimeout)
      else set_state (Ready a generation transaction_id)
  | _ => identity_error_or_invalid_state generation transaction_id
  end.

(** The [match failure] of [fail_attempt]: which failures a state admits. *)
Definition admits (s : RestartState) (failure : AttemptFailure) : bool :=
  match failure, s with
  | (CreationFailed | StartFailed), Starting _ _ _ _ => true
  | (MalformedReady | WrongTransactionReady | PeerClosedBeforeReady), AwaitingReady _ _ _ _ => true
  | DuplicateReady, Ready _ _ _ => true
  | (ReadinessFailedAfterExit | WaitFailed | ExitQueryFailed), (AwaitingReady _ _ _ _ | Ready _ _ _) => true
  | _, _ => false
  end.

Definition fail_attempt (generation transaction_id now_ns : Z) (failure : AttemptFailure) : M unit :=
  s ← gets r_state;
  let proceed current_generation current_transaction action : M unit :=
    _ ← try (validate_event_identity generation transaction_id current_generation current_transaction);
    _ ← observe_time now_ns;
    s ← gets r_state;
    if negb (admits s failure) then throw InvalidState
    else
    let action :=
      match failure with
      | ExitQueryFailed | ReadinessFailedAfterExit => CloseTerminal
      | _ => action
      end in
    enter_cleanup now_ns failure action true in
  match s with
  | Starting _ g t _ => proceed g t CloseUnpublished
  | AwaitingReady _ g t _ => proceed g t TerminateTaskGroup
  | Ready _ g t => proceed g t TerminateTaskGroup
  | _ => identity_error_or_invalid_state generation transaction_id
  end.

(** [let mut candidate = *self; ...; candidate.fail_attempt(...)?; *self = candidate;] *)
Definition try_candidate (generation transaction_id now_ns : Z) (failure : AttemptFailure) : M unit := fun s =>
  let candidate :=
    with_state (with_episode (with_history s history_new) now_ns) (Ready 1 generation transaction_id) in
  match fail_attempt generation transaction_id now_ns failure candidate with
  | (candidate, Ok _) => (candidate, Ok tt)
  | (_, Err e) => (s, Err e)
  | (_, Panic) => (s, Panic)
  end.

Definition admit_recovery (generation transaction_id now_ns : Z) (failure : AttemptFailure) : M unit :=
  s ← gets r_state;
  match s with
  | Ready _ current_generation current_transaction =>
      _ ← try (validate_event_identity generation transaction_id current_generation current_transaction);
      p ← gets policy;
      _ ← try (checked_deadline now_ns (restart_window_ns p));
      try_candidate generation transaction_id now_ns failure
  | _ => throw InvalidState
  end.

Definition retire_active_fail_closed (generation transaction_id now_ns : Z) (failure : AttemptFailure)
    (cleanup : CleanupDisposition) : M unit :=
  s ← gets r_state;
  match s with
  | Starting a current_generation current_transaction _
  | AwaitingReady a current_generation current_transaction _
  | Ready a current_generation current_transaction =>
      _ ← try (validate_event_identity generation transaction_id current_generation current_transaction);
      _ ← observe_time now_ns;
      started ← gets attempt_started_at_ns;
      _ ← history_push (mkRecord a generation transaction_id started now_ns failure cleanup);
      set_state (PermanentFailure failure cleanup)
  | _ => identity_error_or_invalid_state generation transaction_id
  end.

Definition terminal (generation transaction_id now_ns : Z) (disposition : TerminalDisposition) : M unit :=
  s ← gets r_state;
  let proceed current_generation current_transaction (was_ready : bool) : M unit :=
    _ ← try (validate_event_identity generation transaction_id current_generation current_transaction);
    _ ← observe_time now_ns;
    let failure := if was_ready then ExitAfterReady disposition else ExitBeforeReady disposition in
    let retry := negb (was_ready && bool_decide (disposition = NormalExit 0)) in
    enter_cleanup now_ns failure CloseTerminal retry in
  match s with
  | Starting _ g t _ | AwaitingReady _ g t _ => proceed g t false
  | Ready _ g t => proceed g t true
  | _ => identity_error_or_invalid_state generation transaction_id
  end.

Definition deadline_elapsed (generation transaction_id expected_deadline_ns now_ns : Z) : M unit :=
  s ← gets r_state;
  let proceed current_generation current_transaction deadline_ns (finish : M unit) : M unit :=
    _ ← try (validate_event_identity generation transaction_id current_generation current_transaction);
    _ ← try (validate_deadline expected_deadline_ns deadline_ns);
    _ ← observe_time now_ns;
    _ ← try (require_reached now_ns deadline_ns);
    finish in
  match s with
  | Starting _ g t deadline_ns =>
      proceed g t deadline_ns (enter_cleanup now_ns ReadyTimeout CloseUnpublished true)
  | AwaitingReady _ g t deadline_ns =>
      proceed g t deadline_ns (enter_cleanup now_ns ReadyTimeout TerminateTaskGroup true)
  | CleaningUp _ g t failure _ _ deadline_ns _ =>
      proceed g t deadline_ns (finish_cleanup now_ns failure CleanupFailed)
  | _ => throw InvalidState
  end.

Definition cancel (generation transaction_id now_ns : Z) : M unit :=
  s ← gets r_state;
  let proceed current_generation current_transaction action : M unit :=
    _ ← try (validate_event_identity generation transaction_id current_generation current_transaction);
    _ ← observe_time now_ns;
    enter_cleanup now_ns Cancelled action false in
  match s with
  | Starting _ g t _ => proceed g t CloseUnpublished
  | AwaitingReady _ g t _ | Ready _ g t => proceed g t TerminateTaskGroup
  | _ => identity_error_or_invalid_state generation transaction_id
  end.

(** [cleanup_complete] and [cleanup_failed] differ in the disposition. *)
Definition confirm_cleanup (generation transaction_id now_ns : Z) (requested : CleanupDisposition) : M unit :=
  s ← gets r_state;
  match s with
  | CleaningUp _ current_generation current_transaction _ _ _ _ _ =>
      _ ← try (validate_event_identity generation transaction_id current_generation current_transaction);
      _ ← observe_time now_ns;
      failure ← current_failure;
      finish_cleanup now_ns failure requested
  | _ => identity_error_or_invalid_state generation transaction_id
  end.
Definition cleanup_complete (generation transaction_id now_ns : Z) : M unit :=
  confirm_cleanup generation transaction_id now_ns Complete.
Definition cleanup_failed (generation transaction_id now_ns : Z) : M unit :=
  confirm_cleanup generation transaction_id now_ns CleanupFailed.

Definition start_replacement (now_ns generation transaction_id : Z) : M unit :=
  s ← gets r_state;
  match s with
  | Backoff next_attempt next_generation deadline_ns =>
      _ ← try (validate_identity generation transaction_id);
      if negb (generation =? next_generation) then throw StaleGeneration
      else
      _ ← observe_time now_ns;
      _ ← try (require_reached now_ns deadline_ns);
      p ← gets policy;
      episode ← gets episode_started_at_ns;
      window_end ← try (checked_deadline episode (restart_window_ns p));
      if now_ns >? window_end then
        final_failure ← last_failure;
        set_state (PermanentFailure final_failure Complete)
      else
      deadline_ns ← try (checked_deadline now_ns (ready_timeout_ns p));
      _ ← modify (fun s => with_attempt s now_ns generation);
      set_state (Starting next_attempt generation transaction_id deadline_ns)
  | _ => throw InvalidState
  end.

End Restart.
