(* ===== verification/RestartThms.v ===== *)
(** * Restart supervision is bounded and orderly

    Every event, accepted or refused, keeps the invariant below and none
    panics; an episode makes at most [max_attempts] attempts, spaced by the
    backoff and inside the window, and ends after a bounded number of
    transitions. *)

From stdpp Require Import base tactics option list list_numbers.
From Stdlib Require Import ZArith Lia.
From S2P Require Import Prelude StateM Restart.
Import Restart.

(** ** Events *)

Inductive Event :=
| Begin (now generation transaction : Z)
| ChildStarted (generation transaction now : Z)
| ReadyReceived (generation transaction now : Z)
| AttemptFails (generation transaction now : Z) (failure : AttemptFailure)
| AdmitRecovery (generation transaction now : Z) (failure : AttemptFailure)
| RetireFailClosed (generation transaction now : Z) (failure : AttemptFailure) (cleanup : CleanupDisposition)
| Terminal (generation transaction now : Z) (disposition : TerminalDisposition)
| DeadlineElapsed (generation transaction expected now : Z)
| Cancel (generation transaction now : Z)
| CleanupCompleted (generation transaction now : Z)
| CleanupFails (generation transaction now : Z)
| StartReplacement (now generation transaction : Z).

Definition exec (e : Event) : SM RestartSupervisor RestartTransitionError unit :=
  match e with
  | Begin now g t => begin now g t
  | ChildStarted g t now => child_started g t now
  | ReadyReceived g t now => ready g t now
  | AttemptFails g t now f => fail_attempt g t now f
  | AdmitRecovery g t now f => admit_recovery g t now f
  | RetireFailClosed g t now f c => retire_active_fail_closed g t now f c
  | Terminal g t now d => terminal g t now d
  | DeadlineElapsed g t expected now => deadline_elapsed g t expected now
  | Cancel g t now => cancel g t now
  | CleanupCompleted g t now => cleanup_complete g t now
  | CleanupFails g t now => cleanup_failed g t now
  | StartReplacement now g t => start_replacement now g t
  end.

(** An event that opens an episode. *)
Definition opens (e : Event) : bool :=
  match e with Begin _ _ _ | AdmitRecovery _ _ _ _ => true | _ => false end.

(** ** The invariant *)

(** The ring of records holds [l], oldest first. *)
Record kept (h : RestartHistory) (l : list AttemptRecord) : Prop := {
  k_len : h_len h = length l;
  k_max : (length l <= RESTART_HISTORY_CAPACITY)%nat;
  k_records : records h = (Some <$> l) ++ replicate (RESTART_HISTORY_CAPACITY - length l) None }.

(** The deadlines of the episode do not fit in 64 bits any more. *)
Definition overflowed (s : RestartSupervisor) : Prop :=
  2 ^ 64 <= last_observed_ns s + backoff_ns (policy s) \/
  2 ^ 64 <= episode_started_at_ns s + restart_window_ns (policy s).

(** Attempt [a] of generation [g] is the current one and [l] its predecessors. *)
Record current (s : RestartSupervisor) (l : list AttemptRecord) (a g : Z) : Prop := {
  c_attempt : 1 <= a <= max_attempts (policy s);
  c_generation : g = last_generation s;
  c_started : attempt_started_at_ns s <= last_observed_ns s;
  c_window : 1 < a -> attempt_started_at_ns s <= episode_started_at_ns s + restart_window_ns (policy s);
  c_backoff : forall r, last l = Some r -> attempt r < a ->
    terminal_at_ns r + backoff_ns (policy s) <= attempt_started_at_ns s }.

(** What the state of the machine says about the current attempt. *)
Definition phase_ok (s : RestartSupervisor) (l : list AttemptRecord) (a g : Z) : Prop :=
  match r_state s with
  | Stopped | PermanentFailure _ _ => True
  | Starting a' g' _ deadline | AwaitingReady a' g' _ deadline =>
      a' = a /\ g' = g /\ current s l a g /\ len l = a - 1 /\
      deadline = attempt_started_at_ns s + ready_timeout_ns (policy s)
  | Ready a' g' _ => a' = a /\ g' = g /\ current s l a g /\ len l = a - 1
  | CleaningUp a' g' _ _ _ classified deadline _ =>
      a' = a /\ g' = g /\ current s l a g /\
      attempt_started_at_ns s <= classified <= last_observed_ns s /\
      deadline = classified + cleanup_timeout_ns (policy s) /\
      (len l = a - 1 \/ a <= len l /\ overflowed s)
  | Backoff next_attempt next_generation deadline =>
      next_attempt = a + 1 /\ next_generation = g + 1 /\ 1 <= a /\ next_attempt <= max_attempts (policy s) /\
      g = last_generation s /\ len l = a /\
      deadline <= episode_started_at_ns s + restart_window_ns (policy s) /\
      forall r, last l = Some r -> terminal_at_ns r + backoff_ns (policy s) <= deadline
  end.

(** The records of an episode: attempts are numbered from one, their
    generations are consecutive, and a replacement started no earlier than the
    backoff after its predecessor ended. *)
Record records_ok (s : RestartSupervisor) (l : list AttemptRecord) (a g : Z) : Prop := {
  r_record : forall i r, l !! i = Some r ->
    attempt r = Z.min (Z.of_nat i + 1) a /\ generation r = g - a + attempt r /\
    started_at_ns r <= terminal_at_ns r <= last_observed_ns s /\ 1 <= attempt r;
  r_spaced : forall i r r', l !! i = Some r -> l !! S i = Some r' -> attempt r < attempt r' ->
    terminal_at_ns r + backoff_ns (policy s) <= started_at_ns r' }.

Definition policy_ok (p : SupervisionPolicy) : Prop :=
  1 <= max_attempts p <= Z.of_nat RESTART_HISTORY_CAPACITY /\
  1 <= backoff_ns p /\ 1 <= restart_window_ns p /\ 1 <= ready_timeout_ns p /\ 1 <= cleanup_timeout_ns p.

Definition wf (s : RestartSupervisor) : Prop :=
  policy_ok (policy s) /\
  exists l a g, kept (history s) l /\ 0 <= g <= last_generation s /\ a <= max_attempts (policy s) /\
    records_ok s l a g /\ phase_ok s l a g.

(** ** Progress *)

(** Transitions left in the episode, at most. *)
Definition measure (p : SupervisionPolicy) (x : RestartState) : Z :=
  match x with
  | Stopped | PermanentFailure _ _ => 0
  | Starting a _ _ _ => 5 * (max_attempts p - a) + 4
  | AwaitingReady a _ _ _ => 5 * (max_attempts p - a) + 3
  | Ready a _ _ => 5 * (max_attempts p - a) + 2
  | CleaningUp a _ _ _ _ _ _ _ => 5 * (max_attempts p - a) + 1
  | Backoff a _ _ => 5 * (max_attempts p - a) + 5
  end.

(** An event either leaves the phase alone or brings the episode nearer its end. *)
Definition advances (s s' : RestartSupervisor) : Prop :=
  policy s' = policy s /\
  (r_state s' = r_state s \/ 0 <= measure (policy s) (r_state s') < measure (policy s) (r_state s)).

Abbreviation always c P s := (wp c (fun _ => P) (fun _ => P) s).

Section rules.
Implicit Types (s : RestartSupervisor) (P : RestartSupervisor -> Prop).

Lemma always_try {A B} (c : res RestartTransitionError A) (k : A -> SM _ _ B) P s :
  c <> Panic -> P s -> (forall a, c = Ok a -> always (k a) P s) -> always (a ← try c; k a) P s.
Proof. intros Hp Hs Hk. wp_step. unfold wp at 1, try. destruct c; [by apply Hk|done|done]. Qed.

Lemma validate_identity_np g t : validate_identity g t <> Panic.
Proof. unfold validate_identity. by case_match. Qed.

Lemma validate_event_np g t g' t' : validate_event_identity g t g' t' <> Panic.
Proof.
  unfold validate_event_identity, validate_identity. repeat case_match; done.
Qed.

Lemma checked_deadline_np now d : checked_deadline now d <> Panic.
Proof. apply ok_or_not_panic. Qed.

Lemma checked_deadline_Ok now d x : checked_deadline now d = Ok x <-> x = now + d /\ now + d < 2 ^ 64.
Proof. unfold checked_deadline. rewrite ok_or_Ok. apply checked_add_Some. Qed.

Lemma checked_deadline_Err now d e : checked_deadline now d = Err e -> 2 ^ 64 <= now + d.
Proof.
  unfold checked_deadline, checked_add_u64, checked_add. destruct (Z.ltb_spec (now + d) (2 ^ 64)); [done|lia].
Qed.

Lemma validate_event_Ok g t g' t' u : validate_event_identity g t g' t' = Ok u -> g = g' /\ t = t' /\ g <> 0.
Proof. unfold validate_event_identity, validate_identity. intros. res_inv. lia. Qed.
End rules.

#[export] Hint Resolve validate_identity_np validate_event_np checked_deadline_np : wyr.

(** ** Each event keeps the invariant *)

Definition safe (s0 s : RestartSupervisor) : Prop := wf s /\ advances s0 s.
(** [s] is [s0] with the time or bookkeeping of a refused event. *)
Definition same (s0 s : RestartSupervisor) : Prop := policy s = policy s0 /\ r_state s = r_state s0.

Lemma same_safe s0 s : same s0 s -> wf s -> safe s0 s.
Proof. intros [? ?] ?. split; [done|]. split; [done|by left]. Qed.

Lemma wf_time s now : wf s -> last_observed_ns s <= now -> wf (with_time s now).
Proof.
  intros (Hp & l & a & g & Hk & Hg & Hmx & [Hr Hs] & Hph) Hnow. split; [done|]. exists l, a, g. split_conj; try done; try (cbn; lia).
  - split; [|done]. intros i r Hi. destruct (Hr i r Hi) as (? & ? & ?). cbn. lia.
  - unfold phase_ok in *. cbn [r_state with_time]. destruct (r_state s); try done.
    + destruct Hph as (? & ? & [] & ? & ?). split_conj; try done. split; try done. cbn. lia.
    + destruct Hph as (? & ? & [] & ? & ?). split_conj; try done. split; try done. cbn. lia.
    + destruct Hph as (? & ? & [] & ?). split_conj; try done. split; try done. cbn. lia.
    + destruct Hph as (? & ? & [] & ? & ? & Hl). split_conj; try done; cbn; try lia.
      * split; try done. cbn. lia.
      * destruct Hl as [|[? Ho]]; [by left|]. right. split; [done|]. unfold overflowed in *. cbn. lia.
Qed.

(** Every event with a time: refused when it regresses. *)
Lemma always_observe {A} s0 s now (k : SM _ _ A) :
  same s0 s -> wf s ->
  (last_observed_ns s <= now -> wf (with_time s now) -> always k (safe s0) (with_time s now)) ->
  always (_ ← observe_time now; k) (safe s0) s.
Proof.
  intros Hs Hw Hk. wp_step. unfold observe_time. repeat wp_step.
  destruct (Z.ltb_spec now (last_observed_ns s)); wp_step.
  - by apply same_safe.
  - apply Hk; [lia|]. by apply wf_time.
Qed.

Lemma always_check {A B} s0 s (c : res RestartTransitionError A) (k : A -> SM _ _ B) :
  same s0 s -> wf s -> c <> Panic -> (forall a, c = Ok a -> always (k a) (safe s0) s) ->
  always (a ← try c; k a) (safe s0) s.
Proof. intros. by apply always_try; [|apply same_safe|]. Qed.

Lemma always_refuse {A} s0 s (e : RestartTransitionError) :
  same s0 s -> wf s -> always (throw (A:=A) e) (safe s0) s.
Proof. intros. wp_step. by apply same_safe. Qed.

Lemma always_identity s0 s g t :
  same s0 s -> wf s -> always (identity_error_or_invalid_state g t) (safe s0) s.
Proof.
  intros Hs Hw. unfold identity_error_or_invalid_state. repeat wp_step.
  destruct (active_identity _) as [[g' t']|]; [|by apply always_refuse].
  apply always_check; [done|done|apply validate_event_np|]. intros ? _. by apply always_refuse.
Qed.

(** The attempt that is being retired, seen from each phase it can be in. *)
Definition attempt_of (x : RestartState) : option (Z * Z * Z) :=
  match x with
  | Starting a g t _ | AwaitingReady a g t _ | Ready a g t => Some (a, g, t)
  | _ => None
  end.

Lemma active_phase s l a g x :
  phase_ok s l a g -> attempt_of (r_state s) = Some x -> x.1.1 = a /\ x.1.2 = g /\ current s l a g /\ len l = a - 1.
Proof. unfold phase_ok, attempt_of. destruct (r_state s); naive_solver. Qed.

Lemma active_measure p x y : attempt_of x = Some y -> 5 * (max_attempts p - y.1.1) + 2 <= measure p x.
Proof. destruct x; intros [= <-]; cbn; lia. Qed.

Lemma current_state s l a g x : current s l a g -> current (with_state s x) l a g.
Proof. by intros []. Qed.
Lemma records_state s l a g x : records_ok s l a g -> records_ok (with_state s x) l a g.
Proof. by intros []. Qed.

Lemma enter_cleanup_safe {A} s0 s now f action retry (k : unit -> SM _ _ A) :
  same s0 s -> wf s -> now = last_observed_ns s ->
  (forall s', safe s0 s' -> always (k tt) (safe s0) s') ->
  always (u ← enter_cleanup now f action retry; k u) (safe s0) s.
Proof.
  intros Hsame Hw -> Hk. pose proof Hsame as [Hsp Hss]. pose proof (same_safe _ _ Hsame Hw) as Hrefuse. pose proof Hw as (Hp & l & a & g & Hkept & Hg & Hmx & Hrec & Hph).
  unfold enter_cleanup. wp_step. wp_step. wp_step.
  destruct (attempt_of (r_state s)) as [x|] eqn:Hx; last by (destruct (r_state s); try done; wp_step).
  destruct (active_phase _ _ _ _ _ Hph Hx) as (Ha & Hg' & Hc & Hl).
  assert (forall d, d = last_observed_ns s + cleanup_timeout_ns (policy s) ->
    safe s0 (with_state s (CleaningUp a g x.2 f action (last_observed_ns s) d retry))) as Hsafe.
  { intros d Hd. split; [split; [done|]; exists l, a, g; split_conj; try done; try (cbn; lia)|].
    - by apply records_state.
    - pose proof (c_started _ _ _ _ Hc). unfold phase_ok. cbn [r_state with_state].
      split_conj; try done; try (cbn; lia). by apply current_state.
    - split; [done|]. right. cbn [r_state with_state measure]. rewrite <-Hss. pose proof (active_measure (policy s0) _ _ Hx).
      rewrite <-Hsp in *. pose proof (c_attempt _ _ _ _ Hc). lia. }
  destruct (r_state s) eqn:Hst; try done; injection Hx as <-; cbn in Ha, Hg'; subst;
    repeat wp_step; unfold wp at 1, try;
    (destruct (checked_deadline _ _) as [d|e|] eqn:Hd; [|done|by apply checked_deadline_np in Hd]);
    apply checked_deadline_Ok in Hd as [-> _]; unfold set_state; wp_step; by apply Hk, Hsafe.
Qed.

(** [enter_cleanup] as the last step, or before reporting the failure. *)
Lemma enter_cleanup_last s0 s now f action retry :
  same s0 s -> wf s -> now = last_observed_ns s -> always (enter_cleanup now f action retry) (safe s0) s.
Proof.
  intros Hs Hw Hn. pose proof (enter_cleanup_safe s0 s now f action retry mret Hs Hw Hn ltac:(intros; by apply wp_ret)) as H.
  unfold wp, mbind, SM_bind in H. unfold wp. by destruct (enter_cleanup _ _ _ _ s) as [s' [[]| |]].
Qed.

Lemma enter_cleanup_throw {A} s0 s now f action retry e :
  same s0 s -> wf s -> now = last_observed_ns s ->
  always (_ ← enter_cleanup now f action retry; throw (A:=A) e) (safe s0) s.
Proof. intros. by apply enter_cleanup_safe. Qed.

(** *** The history *)

Lemma wp_push s l r Q R :
  kept (history s) l ->
  (forall h', kept h' (l ++ [r]) -> Q tt (with_history s h')) -> R HistoryExhausted s -> wp (history_push r) Q R s.
Proof.
  intros [Hl Hm Hr] HQ HR. unfold history_push. repeat wp_step. rewrite Hr, length_app, length_fmap, length_replicate, Hl.
  unfold RESTART_HISTORY_CAPACITY in *. destruct (Nat.ltb_spec (length l) (length l + (4 - length l))); [|by wp_step].
  repeat wp_step. rewrite (proj2 (Nat.ltb_lt (length l + 1) 256)) by lia. wp_step. apply (HQ (mkHistory _ _)).
  split; cbn [h_len records history with_history]; rewrite ?length_app; cbn [length]; [done|unfold RESTART_HISTORY_CAPACITY; lia|].
  unfold RESTART_HISTORY_CAPACITY. rewrite insert_app_r_alt by (rewrite length_fmap; lia).
  rewrite length_fmap, Nat.sub_diag, fmap_app, <-app_assoc. f_equal.
  by replace (4 - length l)%nat with (S (4 - (length l + 1))) by lia.
Qed.

Lemma records_push s h l a g r :
  records_ok s l a g -> current s l a g -> len l = a - 1 \/ a <= len l ->
  attempt r = a -> generation r = g -> started_at_ns r = attempt_started_at_ns s ->
  attempt_started_at_ns s <= terminal_at_ns r <= last_observed_ns s ->
  records_ok (with_history s h) (l ++ [r]) a g.
Proof.
  intros [Hr Hs] [] Hl Ha Hg Hst Ht. split.
  - intros i x Hi. apply lookup_app_Some in Hi as [Hi|[Hge Hi]]; [by apply Hr|].
    destruct (i - length l)%nat eqn:E; [|done]. injection Hi as <-. cbn. lia.
  - intros i x y Hx Hy Hlt. cbn. apply lookup_app_Some in Hy as [Hy|[Hge Hy]].
    + rewrite lookup_app_l in Hx by (apply lookup_lt_Some in Hy; lia). by apply (Hs i).
    + destruct (S i - length l)%nat eqn:E; [|done]. injection Hy as <-.
      rewrite lookup_app_l in Hx by lia. rewrite Hst. apply c_backoff0; [|lia].
      rewrite last_lookup. by replace (pred (length l)) with i by lia.
Qed.

Lemma finish_cleanup_safe s0 s now f requested :
  same s0 s -> wf s -> now = last_observed_ns s -> always (finish_cleanup now f requested) (safe s0) s.
Proof.
  intros Hsame Hw ->. pose proof (same_safe _ _ Hsame Hw) as Hrefuse. destruct Hsame as [Hsp Hss].
  pose proof Hw as (Hp & l & a & g & Hkept & Hg & Hmx & Hrec & Hph). unfold finish_cleanup. wp_step. wp_step.
  destruct (r_state s) as [| | | |a' g' t f' action classified deadline retry| |] eqn:Hst; try by wp_step.
  unfold phase_ok in Hph. rewrite Hst in Hph. destruct Hph as (-> & -> & Hc & Htimes & Hdl & Hl).
  destruct (negb _); [by wp_step|]. set (cl := if _ && _ then CleanupFailed else requested).
  repeat wp_step. apply (wp_push s l); [done| |done]. intros h' Hk'.
  set (r := mkRecord a g t (attempt_started_at_ns s) classified f cl) in *.
  assert (records_ok (with_history s h') (l ++ [r]) a g) as Hrec' by (apply records_push; try done; destruct Hl; tauto).
  assert (forall x, (x = Stopped \/ exists f c, x = PermanentFailure f c) -> safe s0 (with_state (with_history s h') x)) as Hend.
  { intros x Hx. split; [split; [done|]; exists (l ++ [r]), a, g; split_conj; try done; try (cbn; lia)|].
    - by apply records_state.
    - by destruct Hx as [->|(? & ? & ->)].
    - split; [done|]. right. cbn [r_state with_state]. rewrite <-Hss. pose proof (c_attempt _ _ _ _ Hc). rewrite <-Hsp.
      destruct Hx as [->|(? & ? & ->)]; cbn; lia. }
  assert (overflowed s -> safe s0 (with_history s h')) as Hover.
  { intros Ho. apply same_safe; [split; cbn; congruence|]. split; [done|]. exists (l ++ [r]), a, g. split_conj; try done; try (cbn; lia).
    unfold phase_ok. cbn [r_state with_history]. rewrite Hst. rewrite length_app. cbn [length].
    destruct Hc. split_conj; try done; try (cbn; lia).
    - split; try done. intros x Hx. rewrite last_snoc in Hx. injection Hx as <-. cbn. lia.
    - right. split; [destruct Hl; lia|done]. }
  cbv beta. destruct (bool_decide (cl = CleanupFailed)); [unfold set_state; wp_step; apply Hend; eauto|].
  destruct (negb retry); [unfold set_state; wp_step; apply Hend; eauto|].
  pose proof (c_attempt _ _ _ _ Hc) as Ha. destruct Hp as (Hmax & Hp'). unfold RESTART_HISTORY_CAPACITY in Hmax.
  unfold checked_add at 1. rewrite (proj2 (Z.ltb_lt _ _)) by lia. repeat wp_step. cbn [policy with_history].
  destruct (Z.gtb_spec (a + 1) (max_attempts (policy s))); [unfold set_state; wp_step; apply Hend; eauto|].
  destruct (checked_add_u64 g 1) as [g1|] eqn:Hg1; [|unfold set_state; wp_step; apply Hend; eauto].
  apply checked_add_Some in Hg1 as [-> _]. cbn [last_observed_ns with_history].
  wp_step. unfold wp at 1, try. unfold overflowed in Hover.
  destruct (checked_deadline _ (backoff_ns _)) as [d|e|] eqn:Hd;
    [|apply Hover; left; by eapply checked_deadline_Err|by apply checked_deadline_np in Hd].
  repeat wp_step. cbn [episode_started_at_ns with_history]. unfold wp at 1, try.
  destruct (checked_deadline _ (restart_window_ns _)) as [w|e|] eqn:He;
    [|apply Hover; right; by eapply checked_deadline_Err|by apply checked_deadline_np in He].
  apply checked_deadline_Ok in Hd as [-> Hd]. apply checked_deadline_Ok in He as [-> He].
  match goal with |- context [?x >? ?y] => destruct (Z.gtb_spec x y) end; unfold set_state; wp_step; [apply Hend; eauto|].
  split; [split; [done|]; exists (l ++ [r]), a, g; split_conj; try done; try (cbn; lia)|].
  - by apply records_state.
  - unfold phase_ok. cbn [r_state with_state with_history policy last_generation episode_started_at_ns].
    rewrite length_app. cbn [length]. destruct Hc. split_conj; try done; try lia.
    + destruct Hl as [|[? Ho]]; [lia|]. unfold overflowed in Ho. lia.
    + intros x Hx. rewrite last_snoc in Hx. injection Hx as <-. cbn. lia.
  - split; [done|]. right. cbn [r_state with_state measure]. rewrite <-Hss, <-Hsp. cbn. lia.
Qed.

(** *** Events of an open episode *)

Lemma same_refl s : same s s.
Proof. done. Qed.
Lemma same_time s now : same s (with_time s now).
Proof. done. Qed.
#[local] Hint Resolve same_refl same_time : wyr.

Ltac enter :=
  wp_step; wp_step;
  match goal with |- context [r_state ?s] => destruct (r_state s) as [|? ? ? ?|? ? ? ?|? ? ?|? ? ? ? ? ? ? ?|? ? ?|? ?] eqn:Hst end.
Ltac refuse := first [by apply always_refuse; [apply same_refl|] | by apply always_identity; [apply same_refl|]].
(** The identity check and the clock, which every event of an attempt passes. *)
Ltac admit_event Hid Hle Hw' :=
  apply always_check; [apply same_refl|done|eauto with wyr|]; intros [] Hid; apply validate_event_Ok in Hid as (-> & -> & Hid);
  apply always_observe; [apply same_refl|done|]; intros Hle Hw'.

(** The phase changes within an attempt. *)
Lemma phase_safe s now x :
  wf (with_time s now) -> attempt_of x = attempt_of (r_state s) -> is_Some (attempt_of x) ->
  (forall l a g, phase_ok (with_time s now) l a g -> phase_ok (with_state (with_time s now) x) l a g) ->
  measure (policy s) x < measure (policy s) (r_state s) ->
  safe s (with_state (with_time s now) x).
Proof.
  intros (Hp & l & a & g & Hk & Hg & Hmx & Hr & Hph) Hx [y Hy] Hstep Hm. split; [split; [done|]; exists l, a, g; split_conj; try done; try (cbn in *; lia)|].
  - by apply records_state.
  - by apply Hstep.
  - split; [done|]. right. split; [|done]. cbn [r_state with_state]. pose proof (active_measure (policy s) _ _ Hy).
    rewrite Hx in Hy. destruct (active_phase _ _ _ _ y Hph Hy) as (? & _ & Hc & _). pose proof (c_attempt _ _ _ _ Hc) as Ha.
    cbn [policy with_time] in Ha. lia.
Qed.

Lemma child_started_safe s g t now : wf s -> always (child_started g t now) (safe s) s.
Proof.
  intros Hw. unfold child_started. enter; try refuse. admit_event Hid Hle Hw'.
  destruct (now >=? _); [by apply enter_cleanup_throw|]. unfold set_state. wp_step. apply phase_safe; try done.
  - by rewrite Hst.
  - intros l a g. unfold phase_ok. cbn [r_state with_time with_state]. rewrite Hst. naive_solver eauto using current_state.
  - rewrite Hst. cbn. lia.
Qed.

Lemma ready_safe s g t now : wf s -> always (ready g t now) (safe s) s.
Proof.
  intros Hw. unfold ready. enter; try refuse.
  apply always_check; [done|done|eauto with wyr|]. intros [] _.
  destruct (Z.eqb_spec g generation0) as [->|]; cbn [negb]; [|refuse].
  apply always_observe; [done|done|]. intros Hle Hw'.
  destruct (Z.eqb_spec t transaction_id0) as [->|]; cbn [negb]; [|by apply enter_cleanup_throw].
  destruct (now >=? _); [by apply enter_cleanup_throw|]. unfold set_state. wp_step. apply phase_safe; try done.
  - by rewrite Hst.
  - intros l a g. unfold phase_ok. cbn [r_state with_time with_state]. rewrite Hst. naive_solver eauto using current_state.
  - rewrite Hst. cbn. lia.
Qed.

Lemma fail_attempt_safe s g t now f : wf s -> always (fail_attempt g t now f) (safe s) s.
Proof.
  intros Hw. unfold fail_attempt. enter; cbv zeta; try refuse; admit_event Hid Hle Hw'; repeat wp_step;
    (destruct (negb _); [by apply always_refuse|by apply enter_cleanup_last]).
Qed.

Lemma terminal_safe s g t now d : wf s -> always (terminal g t now d) (safe s) s.
Proof.
  intros Hw. unfold terminal. enter; cbv zeta; try refuse; admit_event Hid Hle Hw'; by apply enter_cleanup_last.
Qed.

Lemma cancel_safe s g t now : wf s -> always (cancel g t now) (safe s) s.
Proof.
  intros Hw. unfold cancel. enter; cbv zeta; try refuse; admit_event Hid Hle Hw'; by apply enter_cleanup_last.
Qed.

Lemma deadline_safe s g t d now : wf s -> always (deadline_elapsed g t d now) (safe s) s.
Proof.
  intros Hw. unfold deadline_elapsed. enter; cbv zeta; try refuse;
    (apply always_check; [done|done|eauto with wyr|]; intros [] _;
     apply always_check; [done|done|unfold validate_deadline; by case_match|]; intros [] _;
     apply always_observe; [done|done|]; intros Hle Hw';
     apply always_check; [done|done|unfold require_reached; by case_match|]; intros [] _);
    first [by apply enter_cleanup_last|by apply finish_cleanup_safe].
Qed.

Lemma confirm_safe s g t now c : wf s -> always (confirm_cleanup g t now c) (safe s) s.
Proof.
  intros Hw. unfold confirm_cleanup. enter; try refuse. admit_event Hid Hle Hw'. unfold current_failure. repeat wp_step.
  cbn [r_state with_time]. rewrite Hst. wp_step. by apply finish_cleanup_safe.
Qed.

Lemma retire_active_safe s now f c a g t :
  wf (with_time s now) -> attempt_of (r_state s) = Some (a, g, t) ->
  always (started ← gets attempt_started_at_ns;
          _ ← history_push (mkRecord a g t started now f c); set_state (PermanentFailure f c)) (safe s) (with_time s now).
Proof.
  intros Hw Hx. pose proof Hw as (Hp & l & a' & g' & Hkept & Hg & Hmx & Hrec & Hph).
  destruct (active_phase _ _ _ _ _ Hph Hx) as (Ha & Hg' & Hc & Hl). cbn in Ha, Hg'. subst a' g'. repeat wp_step.
  apply (wp_push (with_time s now) l); [done| |by apply same_safe]. intros h' Hk'. unfold set_state. wp_step.
  pose proof (c_started _ _ _ _ Hc). pose proof (c_attempt _ _ _ _ Hc). cbn in *. split.
  - split; [done|]. eexists (l ++ [_]), a, g. split_conj; [exact Hk'|cbn; lia|cbn; lia|cbn; lia| |done].
    apply records_state, records_push; try done; try (by left); cbn; lia.
  - split; [done|]. right. pose proof (active_measure (policy s) _ _ Hx). cbn in *. lia.
Qed.

Lemma retire_safe s g t now f c : wf s -> always (retire_active_fail_closed g t now f c) (safe s) s.
Proof.
  intros Hw. unfold retire_active_fail_closed. enter; try refuse; admit_event Hid Hle Hw';
    apply retire_active_safe; by rewrite ?Hst.
Qed.

Lemma last_failure_wp s l (Q : AttemptFailure -> _ -> Prop) R :
  kept (history s) l -> l <> [] -> (forall f, Q f s) -> wp last_failure Q R s.
Proof.
  intros [Hl Hm Hr] Hne HQ. unfold last_failure. repeat wp_step. rewrite Hl.
  destruct (length l) as [|n] eqn:E; [by destruct l|]. repeat wp_step. unfold wp at 1, try, as_slice.
  rewrite Hl, Hr, length_app, length_fmap, length_replicate, E. rewrite (proj2 (Nat.leb_le _ _)) by lia.
  rewrite take_app_length' by (by rewrite length_fmap). wp_step. unfold wp at 1, try. rewrite list_lookup_fmap.
  destruct (lookup_lt_is_Some_2 l n) as [x ->]; [lia|]. cbn. apply HQ.
Qed.

Lemma start_replacement_safe s now g t : wf s -> always (start_replacement now g t) (safe s) s.
Proof.
  intros Hw. unfold start_replacement. enter; try refuse.
  apply always_check; [done|done|eauto with wyr|]. intros [] _.
  match goal with |- context [g =? ?x] => destruct (Z.eqb_spec g x) as [->|] end; cbn [negb]; [|refuse].
  apply always_observe; [done|done|]. intros Hle Hw'.
  apply always_check; [done|done|unfold require_reached; by case_match|]. intros [] Hreach.
  do 4 wp_step. apply always_check; [done|done|eauto with wyr|]. intros w Hwin. cbn [policy episode_started_at_ns with_time] in Hwin.
  apply checked_deadline_Ok in Hwin as [-> Hwin].
  pose proof Hw' as (Hp & l & a & g & Hkept & Hg & Hmx & Hrec & Hph).
  pose proof Hph as Hph'. unfold phase_ok in Hph'. cbn [r_state with_time] in Hph'. rewrite Hst in Hph'.
  destruct Hph' as (-> & -> & Ha & Hmax & Hgen & Hl & Hdl & Hlast). cbn [policy with_time last_generation episode_started_at_ns] in *.
  match goal with |- context [?x >? ?y] => destruct (Z.gtb_spec x y) end.
  - wp_step. apply (last_failure_wp _ l); [done|destruct l; [simpl in Hl; lia|done]|]. intros f. unfold set_state. wp_step.
    split; [split; [done|]; exists l, a, g; split_conj; try done; try (cbn in *; lia); by apply records_state|].
    split; [done|]. right. rewrite Hst. cbn. lia.
  - apply always_check; [done|done|eauto with wyr|]. intros d Hd. apply checked_deadline_Ok in Hd as [-> Hd].
    unfold set_state. repeat wp_step. unfold require_reached in Hreach. destruct (Z.ltb_spec now deadline_ns) as [|Hreached]; [done|].
    split.
    + split; [done|]. exists l, (a + 1), (g + 1). split_conj; try (cbn in *; lia); [done| |].
      * destruct Hrec as [Hr1 Hr2]. split; [|done]. intros i r Hi. destruct (Hr1 i r Hi) as (? & ? & ?).
        apply lookup_lt_Some in Hi. cbn in *. lia.
      * unfold phase_ok. cbn [r_state with_state]. split_conj; try done; [|cbn; lia].
        split; cbn; try lia. intros r Hr _. specialize (Hlast r Hr). lia.
    + split; [done|]. right. rewrite Hst. cbn. lia.
Qed.

(** *** Events that open an episode *)

Lemma kept_new : kept history_new [].
Proof. by split; [|unfold RESTART_HISTORY_CAPACITY; simpl; lia|]. Qed.

Definition opened (s s' : RestartSupervisor) : Prop := wf s' /\ policy s' = policy s.

Lemma begin_wf s now g t : 0 <= g -> wf s -> always (begin now g t) (opened s) s.
Proof.
  intros Hg0 Hw. unfold begin. enter; try (by wp_step). apply always_try; [eauto with wyr|done|]. intros [] _. do 2 wp_step.
  destruct (Z.leb_spec g (last_generation s)); [by wp_step|]. do 2 wp_step.
  apply always_try; [eauto with wyr|done|]. intros d Hd. apply checked_deadline_Ok in Hd as [-> _].
  wp_step. unfold observe_time. repeat wp_step. destruct (Z.ltb_spec now (last_observed_ns s)); [by wp_step|].
  unfold set_state. repeat wp_step. destruct Hw as (Hp & _). pose proof Hp as [Hmax1 _]. split; [|done]. split; [done|]. exists [], 1, g.
  split_conj; try (cbn; lia); [apply kept_new|by split|].
  unfold phase_ok. cbn [r_state with_state]. split_conj; try done.
  destruct Hp. split; cbn; try lia. done.
Qed.

Lemma admit_recovery_wf s g t now f : wf s -> always (admit_recovery g t now f) (opened s) s.
Proof.
  intros Hw. unfold admit_recovery. enter; try (by wp_step). apply always_try; [eauto with wyr|done|]. intros [] Hid.
  apply validate_event_Ok in Hid as (-> & -> & _).
  do 2 wp_step. apply always_try; [eauto with wyr|done|]. intros w _. unfold wp, try_candidate.
  set (c := with_state _ _).
  assert (wf c) as Hc.
  { destruct Hw as (Hp & l & a & g & _ & Hg & _ & _ & Hph). unfold phase_ok in Hph. rewrite Hst in Hph.
    destruct Hph as (-> & -> & [Ha -> Hs _ _] & _). pose proof Hp as [Hmax1 _]. split; [done|]. exists [], 1, (last_generation s).
    split_conj; try (cbn; lia); [apply kept_new|by split|]. unfold phase_ok. cbn. destruct Hp.
    split_conj; try done. split; cbn; try lia. done. }
  match goal with |- context [fail_attempt ?g ?t _ _ _] =>
    pose proof (fail_attempt_safe c g t now f Hc) as H end.
  unfold wp in H. destruct (fail_attempt _ _ _ _ c) as [c' [[]|e|]]; [by destruct H as [? [? _]]|done|done].
Qed.

(** ** Runs *)

Lemma exec_safe s e : wf s -> opens e = false -> always (exec e) (safe s) s.
Proof.
  intros Hw He. destruct e; try done; cbn [exec]; [by apply child_started_safe|by apply ready_safe|by apply fail_attempt_safe|
    by apply retire_safe|by apply terminal_safe|by apply deadline_safe|by apply cancel_safe|by apply confirm_safe|
    by apply confirm_safe|by apply start_replacement_safe].
Qed.

(** Identities are unsigned. *)
Definition event_ok (e : Event) : bool := match e with Begin _ g _ => 0 <=? g | _ => true end.

Lemma exec_wf s e : wf s -> event_ok e = true -> always (exec e) (opened s) s.
Proof.
  intros Hw He. destruct (opens e) eqn:Ho.
  - destruct e; try done; [apply begin_wf; [by apply Z.leb_le|done]|by apply admit_recovery_wf].
  - pose proof (exec_safe s e Hw Ho) as H. eapply wp_mono; [exact H| |]; cbv beta; intros ? s' [? [? _]]; done.
Qed.

Definition policy_unsigned (p : SupervisionPolicy) : bool :=
  (0 <=? max_attempts p) && (0 <=? backoff_ns p) && (0 <=? restart_window_ns p) &&
  (0 <=? ready_timeout_ns p) && (0 <=? cleanup_timeout_ns p).

(** The supervisor after an event, whether it was accepted or refused. *)
Definition after (s : RestartSupervisor) (e : Event) : RestartSupervisor := (exec e s).1.

Inductive reachable (p : SupervisionPolicy) : RestartSupervisor -> Prop :=
| reachable_new s : policy_unsigned p = true -> supervisor_new p = Ok s -> reachable p s
| reachable_event s e : reachable p s -> event_ok e = true -> reachable p (after s e).

Lemma always_after s e P : always (exec e) P s -> P (after s e) /\ (exec e s).2 <> Panic.
Proof. unfold wp, after. by destruct (exec e s) as [s' [[]|err|]]. Qed.

Lemma new_wf p s : policy_unsigned p = true -> supervisor_new p = Ok s -> wf s /\ policy s = p.
Proof.
  unfold policy_unsigned, supervisor_new. intros Hu H. res_inv. subst s. unfold RESTART_HISTORY_CAPACITY in *.
  split; [|done]. split; [unfold policy_ok, RESTART_HISTORY_CAPACITY; cbn; lia|].
  exists [], 0, 0. split_conj; try (cbn; lia); [apply kept_new|by split].
Qed.

Lemma episodes_wf p s : reachable p s -> wf s /\ policy s = p.
Proof.
  induction 1 as [s Hu Hn|s e _ [IH <-] He]; [by apply new_wf|]. by apply (always_after s e), exec_wf.
Qed.

Lemma kept_slice {E} h l : kept h l -> as_slice (E:=E) h = Ok (Some <$> l).
Proof.
  intros [Hl Hm Hr]. unfold as_slice. rewrite Hl, Hr, length_app, length_fmap, length_replicate.
  rewrite (proj2 (Nat.leb_le _ _)) by lia. by rewrite take_app_length' by (by rewrite length_fmap).
Qed.

(** ** Theorems *)

(** C14: in every reachable supervisor no event panics, the history is the list
    of the episode's attempts: numbered from one without gaps, a number repeated
    only with its generation, never beyond the policy's maximum, each ended no
    earlier than it started, and each replacement started at least the backoff
    after its predecessor ended.  The attempt in progress is within the maximum, its
    READY deadline is the timeout after its start, and a replacement is started
    or scheduled within the restart window. *)
Theorem restart_orderly (p : SupervisionPolicy) (s : RestartSupervisor) :
  reachable p s ->
  (forall e, event_ok e = true -> (exec e s).2 <> Panic) /\
  (exists l : list AttemptRecord, as_slice (E:=Empty_set) (history s) = Ok (Some <$> l) /\
   (length l <= RESTART_HISTORY_CAPACITY)%nat /\
   (forall i r, l !! i = Some r -> 1 <= attempt r <= Z.min (Z.of_nat i + 1) (max_attempts p) /\
      started_at_ns r <= terminal_at_ns r <= last_observed_ns s) /\
   (forall i r r', l !! i = Some r -> l !! S i = Some r' ->
      generation r' - generation r = attempt r' - attempt r /\ 0 <= attempt r' - attempt r <= 1 /\
      (attempt r < attempt r' -> terminal_at_ns r + backoff_ns p <= started_at_ns r'))) /\
  match r_state s with
  | Starting a g _ deadline | AwaitingReady a g _ deadline =>
      1 <= a <= max_attempts p /\ g = last_generation s /\
      deadline = attempt_started_at_ns s + ready_timeout_ns p /\
      (1 < a -> attempt_started_at_ns s <= episode_started_at_ns s + restart_window_ns p)
  | Ready a g _ | CleaningUp a g _ _ _ _ _ _ => 1 <= a <= max_attempts p /\ g = last_generation s
  | Backoff a g deadline =>
      1 < a <= max_attempts p /\ g = last_generation s + 1 /\
      deadline <= episode_started_at_ns s + restart_window_ns p
  | _ => True
  end.
Proof.
  intros Hr. destruct (episodes_wf p s Hr) as [Hw <-]. split; [|split].
  - intros e He. by apply (always_after s e (opened s)), exec_wf.
  - destruct Hw as (Hp & l & a & g & Hk & Hg & Hmx & [Hrec Hsp] & _). exists l.
    split_conj; [by apply kept_slice|by apply (k_max _ _ Hk)| |].
    + intros i r Hi. destruct (Hrec i r Hi) as (? & ? & ?). lia.
    + intros i r r' Hi Hi'. destruct (Hrec i r Hi) as (? & ? & ?). destruct (Hrec (S i) r' Hi') as (? & ? & ?).
      split_conj; [lia..|]. by apply (Hsp i).
  - destruct Hw as (Hp & l & a & g & Hk & Hg & Hmx & Hrec & Hph). unfold phase_ok in Hph.
    destruct (r_state s); try done.
    + destruct Hph as (-> & -> & [] & ? & ->). split_conj; try done; lia.
    + destruct Hph as (-> & -> & [] & ? & ->). split_conj; try done; lia.
    + destruct Hph as (-> & -> & [] & ?). split_conj; try done; lia.
    + destruct Hph as (-> & -> & [] & ?). split_conj; try done; lia.
    + destruct Hph as (-> & -> & ? & ? & -> & ? & ? & _). split_conj; lia.
Qed.

(** How often a sequence of events changes the phase. *)
Fixpoint changes (s : RestartSupervisor) (es : list Event) : Z :=
  match es with
  | [] => 0
  | e :: es =>
      (if bool_decide (r_state (after s e) = r_state s) then 0 else 1) + changes (after s e) es
  end.

Lemma measure_range s : wf s -> 0 <= measure (policy s) (r_state s) <= 5 * max_attempts (policy s).
Proof.
  intros ([Hm _] & l & a & g & _ & _ & _ & _ & Hph). unfold phase_ok, measure in *. destruct (r_state s); try lia;
    destruct Hph as (-> & -> & H); try (destruct H as [[] _]; lia); lia.
Qed.

Lemma changes_bound es : forall s, wf s -> forallb (fun e => negb (opens e)) es = true ->
  changes s es <= measure (policy s) (r_state s).
Proof.
  induction es as [|e es IH]; intros s Hw He; cbn [changes].
  { by apply measure_range. }
  cbn in He. apply andb_true_iff in He as [He Hes]. apply negb_true_iff in He.
  destruct (always_after s e _ (exec_safe s e Hw He)) as [[Hw' [Hp Hadv]] _].
  specialize (IH _ Hw' Hes). rewrite Hp in IH. destruct (bool_decide_reflect (r_state (after s e) = r_state s)) as [Heq|Hne].
  - rewrite Heq in IH. lia.
  - destruct Hadv; [done|lia].
Qed.

Lemma permanent_stays s e f c : wf s -> r_state s = PermanentFailure f c -> r_state (after s e) = r_state s.
Proof.
  intros Hw Hs. destruct (opens e) eqn:Ho.
  - destruct e; try done; unfold after, exec, begin, admit_recovery, mbind, SM_bind, gets; cbv beta; by rewrite Hs.
  - destruct (always_after s e _ (exec_safe s e Hw Ho)) as [[_ [_ [H|H]]] _]; [done|]. rewrite Hs in H. cbn in H. lia.
Qed.

(** C32: an episode ends: however events arrive, the phase changes at most five
    times per attempt before a new episode is opened, so at most twenty times
    under any valid policy; and a permanent failure is final, whatever follows. *)
Theorem restart_episode_ends (p : SupervisionPolicy) (s : RestartSupervisor) :
  reachable p s ->
  (forall es, forallb (fun e => negb (opens e)) es = true ->
     changes s es <= 5 * max_attempts p <= 20) /\
  (forall e f c, r_state s = PermanentFailure f c -> r_state (after s e) = r_state s).
Proof.
  intros Hr. destruct (episodes_wf p s Hr) as [Hw <-]. split.
  - intros es Hes. pose proof (changes_bound es s Hw Hes). pose proof (measure_range s Hw).
    destruct Hw as ([Hm _] & _). unfold RESTART_HISTORY_CAPACITY in Hm. lia.
  - intros e f c. by apply permanent_stays.
Qed.

(** ** A run: a crash, its cleanup, the backoff and the replacement. *)

Definition crash_run : list Event :=
  [Begin 10 1 7; ChildStarted 1 7 20; ReadyReceived 1 7 30; Terminal 1 7 40 UnhandledException;
   CleanupCompleted 1 7 50; StartReplacement 25000050 2 8].

Definition run (s : RestartSupervisor) (es : list Event) : RestartSupervisor := fold_left after es s.

Lemma reachable_run p es : forall s, reachable p s -> forallb event_ok es = true -> reachable p (run s es).
Proof.
  induction es as [|e es IH]; intros s Hs He; [done|]. cbn in He. apply andb_true_iff in He as [? ?].
  apply IH; [by constructor|done].
Qed.

Definition sample_supervisor : RestartSupervisor :=
  mkSupervisor WYR0_I_SUPERVISION_POLICY Stopped history_new 0 0 0 0.

Lemma restart_orderly_witness :
  reachable WYR0_I_SUPERVISION_POLICY (run sample_supervisor crash_run) /\
  r_state (run sample_supervisor crash_run) = Starting 2 2 8 1025000050 /\
  25000050 <= 10 + 2000000000.
Proof.
  assert (reachable WYR0_I_SUPERVISION_POLICY (run sample_supervisor crash_run)) as Hr
    by (apply reachable_run; [apply reachable_new; reflexivity|reflexivity]).
  split; [exact Hr|]. split; [reflexivity|].
  destruct (restart_orderly _ _ Hr) as (_ & _ & H).
  assert (r_state (run sample_supervisor crash_run) = Starting 2 2 8 1025000050) as E by reflexivity.
  rewrite E in H. destruct H as (_ & _ & _ & H). specialize (H eq_refl). vm_compute in H. vm_compute. exact H.
Defined.

Lemma restart_episode_ends_witness :
  reachable WYR0_I_SUPERVISION_POLICY (run sample_supervisor crash_run) /\
  changes (run sample_supervisor crash_run) [Cancel 2 8 25000060; CleanupCompleted 2 8 25000070] <= 20.
Proof.
  assert (reachable WYR0_I_SUPERVISION_POLICY (run sample_supervisor crash_run)) as Hr
    by (apply reachable_run; [apply reachable_new; reflexivity|reflexivity]).
  split; [exact Hr|].
  destruct (restart_episode_ends _ _ Hr) as [H _].
  specialize (H [Cancel 2 8 25000060; CleanupCompleted 2 8 25000070] eq_refl). exact (Z.le_trans _ _ _ (proj1 H) (proj2 H)).
Defined.

(** Confirming a cleanup whose deadlines do not fit in 64 bits fails, and the
    attempt is recorded again each time. *)
Lemma overflow_records_twice :
  let s := mkSupervisor WYR0_I_SUPERVISION_POLICY
    (CleaningUp 1 1 7 StartFailed CloseUnpublished 18446744072700000000 18446744073700000000 true)
    history_new 18446744072600000000 18446744072600000000 18446744072700000000 1 in
  let '(s1, r1) := cleanup_complete 1 7 18446744073690000000 s in
  let '(s2, r2) := cleanup_complete 1 7 18446744073690000000 s1 in
  r1 = Err ArithmeticOverflow /\ r2 = Err ArithmeticOverflow /\ h_len (history s2) = 2%nat.
Proof. vm_compute. done. Qed.
