(* ===== verification/Accounting.v ===== *)
(** * Resource accounting (crates/wyrmroot-runtime/src/bounded_accounting.rs)

    The controller's ledger of admitted resources.  A fixed array indexed by a
    resource or a peer is a vector with its index type, so that an access needs
    no bound check; the transaction and replay arrays, whose indices are data,
    are lists and an index out of range is [Panic].  Every method checks before
    it writes: an error returns no ledger, and the caller keeps the old one. *)

From stdpp Require Import base tactics option list list_numbers fin vector.
From Stdlib Require Import ZArith Lia.
From S2P Require Import Prelude Restart.

Module Accounting.

Definition MAX_ACCOUNTED_PEERS : nat := 4.
Definition MAX_LIVE_TRANSACTIONS_PER_PEER : nat := 4.
Definition MAX_REPLAY_ENTRIES_PER_PEER : nat := 8.

Inductive EnforcementClass := Kernel | Wyrmroot | Future.
#[global] Instance EnforcementClass_eq_dec : EqDecision EnforcementClass.
Proof. solve_decision. Defined.

Inductive AccountedResource :=
| LiveProcessGenerations | InFlightTransactions | CompletedReplayEntries | RetainedMessages
| RetainedPayloadBytes | DelegatedHandles | SharedMemoryObjects | SharedMemoryBytes | MappedBytes
| WaitOperations | Events | Timers | RestartHistoryRecords.
#[global] Instance AccountedResource_eq_dec : EqDecision AccountedResource.
Proof. solve_decision. Defined.

Definition COUNT : nat := 13.

Definition ALL : list AccountedResource :=
  [LiveProcessGenerations; InFlightTransactions; CompletedReplayEntries; RetainedMessages;
   RetainedPayloadBytes; DelegatedHandles; SharedMemoryObjects; SharedMemoryBytes; MappedBytes;
   WaitOperations; Events; Timers; RestartHistoryRecords].

Definition index (r : AccountedResource) : fin COUNT :=
  match r with
  | LiveProcessGenerations => 0%fin | InFlightTransactions => 1%fin | CompletedReplayEntries => 2%fin
  | RetainedMessages => 3%fin | RetainedPayloadBytes => 4%fin | DelegatedHandles => 5%fin
  | SharedMemoryObjects => 6%fin | SharedMemoryBytes => 7%fin | MappedBytes => 8%fin
  | WaitOperations => 9%fin | Events => 10%fin | Timers => FS 10%fin
  | RestartHistoryRecords => FS (FS 10%fin)
  end.

Definition managed (r : AccountedResource) : bool :=
  match r with
  | LiveProcessGenerations | InFlightTransactions | CompletedReplayEntries | RestartHistoryRecords => true
  | _ => false
  end.

(** [[u64; COUNT]], read and written by resource. *)
Definition Counters := vec Z COUNT.
Definition at_ (c : Counters) (r : AccountedResource) : Z := c !!! index r.
Definition put (c : Counters) (r : AccountedResource) (v : Z) : Counters := vinsert (index r) v c.
Definition zeros : Counters := vreplicate COUNT 0.

Record ResourceBudget := mkBudget {
  b_resource : AccountedResource; per_peer : Z; b_aggregate : Z; enforcement : EnforcementClass }.

(** [const fn budget] *)
Definition budget_entry (resource : AccountedResource) (per_peer aggregate : Z) : ResourceBudget :=
  mkBudget resource per_peer aggregate Wyrmroot.

Definition WYR0_I_RESOURCE_BUDGETS : vec ResourceBudget COUNT :=
  [# budget_entry LiveProcessGenerations 1 4; budget_entry InFlightTransactions 4 16;
     budget_entry CompletedReplayEntries 8 32; budget_entry RetainedMessages 8 32;
     budget_entry RetainedPayloadBytes 4096 16384; budget_entry DelegatedHandles 8 32;
     budget_entry SharedMemoryObjects 2 8; budget_entry SharedMemoryBytes 8192 32768;
     budget_entry MappedBytes 16384 65536; budget_entry WaitOperations 4 16;
     budget_entry Events 2 8; budget_entry Timers 2 8; budget_entry RestartHistoryRecords 4 16].

Inductive AccountingError :=
| ControllerIdExhausted | InvalidBudgetPolicy | InvalidPeer | ZeroGeneration | ZeroTransaction
| PeerAlreadyActive | PeerInactive | GenerationNotAdvanced | StaleGeneration | EmptyReservation
| ManagedResource (r : AccountedResource) | PerPeerLimit (r : AccountedResource)
| AggregateLimit (r : AccountedResource) | CounterOverflow | CounterUnderflow | TokenOriginMismatch
| TokenAlreadyPublished | TokenAlreadyReleased | DuplicateTransaction | ReplayedTransaction
| TransactionCapacity | TransactionTokenInactive | TransactionNotLive | KernelChannelEnvelope
| EpisodeStillActive | RestartHistoryMismatch | TerminalRecordMissing | CleanupIncomplete
| OutstandingGenerationResource (r : AccountedResource).

(** What a peer can mint directly is not contained yet. *)
Inductive GenericContainmentGap :=
| PeerCreatedMemoryObjects | PeerCreatedChannels | PeerCreatedEvents | PeerCreatedTimers
| PeerHandleTableEntries | PeerCreatedMappings | PeerInitiatedWaits | TaskGroupResourceAndCpuQuotas.
Definition gap_enforcement (_ : GenericContainmentGap) : EnforcementClass := Future.

(** ** Requests and tokens *)

Record ReservationRequest := mkRequest { q_amounts : Counters }.
Definition request_empty : ReservationRequest := mkRequest zeros.
Definition request_add (q : ReservationRequest) (resource : AccountedResource) (amount : Z)
    : res AccountingError ReservationRequest :=
  reject_if! managed resource with ManagedResource resource;;
  let! next := ok_or CounterOverflow (checked_add_u64 (at_ (q_amounts q) resource) amount) in
  Ok (mkRequest (put (q_amounts q) resource next)).
Definition request_amount (q : ReservationRequest) (resource : AccountedResource) : Z :=
  at_ (q_amounts q) resource.
Definition request_is_empty (q : ReservationRequest) : bool :=
  forallb (fun amount => amount =? 0) (q_amounts q).

Inductive ReservationState := Reserved | Published | Released.
#[global] Instance ReservationState_eq_dec : EqDecision ReservationState.
Proof. solve_decision. Defined.

Record ReservationToken := mkToken {
  t_controller : Z; t_peer : Z; t_generation : Z; t_amounts : Counters; t_state : ReservationState }.
Record TransactionToken := mkTransaction {
  x_controller : Z; x_peer : Z; x_generation : Z; x_id : Z; x_active : bool }.
Record GenerationRetirement := mkRetirement { released : Counters; preserved_restart_history : Z }.

(** ** The ledger *)

Record PeerAccounting := mkPeer {
  active : bool; p_generation : Z; counters : Counters; live_transactions : list Z; replay : list Z;
  replay_len : Z; replay_next : Z; last_history_generation : Z; terminal_generation : Z;
  terminal_cleanup_complete : bool }.

Definition peer_new : PeerAccounting :=
  mkPeer false 0 zeros (replicate MAX_LIVE_TRANSACTIONS_PER_PEER 0)
    (replicate MAX_REPLAY_ENTRIES_PER_PEER 0) 0 0 0 0 false.

(** [self.replay[..len].contains(&transaction_id)] *)
Definition replay_contains (p : PeerAccounting) (transaction_id : Z) : res AccountingError bool :=
  assert! (replay_len p <=? len (replay p));;
  Ok (contains transaction_id (take (Z.to_nat (replay_len p)) (replay p))).

Record ReadinessAccounting := mkAccounting {
  controller_id : Z; budgets : vec ResourceBudget COUNT;
  peers : vec PeerAccounting MAX_ACCOUNTED_PEERS; aggregate : Counters }.

Abbreviation result := (res AccountingError).

Definition budget (a : ReadinessAccounting) (r : AccountedResource) : ResourceBudget := budgets a !!! index r.
Definition peer_at (a : ReadinessAccounting) (i : fin MAX_ACCOUNTED_PEERS) : PeerAccounting := peers a !!! i.
(** The two writes most methods end with. *)
Definition commit (a : ReadinessAccounting) (i : fin MAX_ACCOUNTED_PEERS) (p : PeerAccounting) (total : Counters)
    : ReadinessAccounting :=
  mkAccounting (controller_id a) (budgets a) (vinsert i p (peers a)) total.
Definition with_counters (p : PeerAccounting) (c : Counters) : PeerAccounting :=
  mkPeer (active p) (p_generation p) c (live_transactions p) (replay p) (replay_len p) (replay_next p)
    (last_history_generation p) (terminal_generation p) (terminal_cleanup_complete p).
Definition with_live (p : PeerAccounting) (l : list Z) : PeerAccounting :=
  mkPeer (active p) (p_generation p) (counters p) l (replay p) (replay_len p) (replay_next p)
    (last_history_generation p) (terminal_generation p) (terminal_cleanup_complete p).

Definition saturating_mul_u64 (x y : Z) : Z := Z.min (2 ^ 64 - 1) (x * y).

(** One round of the loop of [with_budgets]. *)
Definition budget_invalid (position : nat) (policy : ResourceBudget) : bool :=
  negb (fin_to_nat (index (b_resource policy)) =? position)%nat
  || (per_peer policy =? 0) || (b_aggregate policy =? 0) || (per_peer policy >? b_aggregate policy)
  || (b_aggregate policy >? saturating_mul_u64 (per_peer policy) (Z.of_nat MAX_ACCOUNTED_PEERS))
  || negb (bool_decide (enforcement policy = Wyrmroot)).

(** [allocate_controller_id]: the counter's value, and the counter after. *)
Definition allocate_controller_id (next : Z) : result (Z * Z) :=
  let! after := ok_or ControllerIdExhausted (checked_add_u64 next 1) in Ok (next, after).

(** [with_budgets], given the process-wide counter of controllers. *)
Definition with_budgets (next_controller : Z) (budgets : vec ResourceBudget COUNT)
    : result (ReadinessAccounting * Z) :=
  reject_if! existsb id (imap budget_invalid budgets) with InvalidBudgetPolicy;;
  let limit r := per_peer (budgets !!! index r) in
  reject_if! negb (limit LiveProcessGenerations =? 1)
    || (limit InFlightTransactions >? Z.of_nat MAX_LIVE_TRANSACTIONS_PER_PEER)
    || (limit CompletedReplayEntries >? Z.of_nat MAX_REPLAY_ENTRIES_PER_PEER)
    || (limit RestartHistoryRecords >? 4) with InvalidBudgetPolicy;;
  let! '(controller_id, next_controller) := allocate_controller_id next_controller in
  Ok (mkAccounting controller_id budgets (vreplicate MAX_ACCOUNTED_PEERS peer_new) zeros, next_controller).

Definition accounting_new (next_controller : Z) : result (ReadinessAccounting * Z) :=
  with_budgets next_controller WYR0_I_RESOURCE_BUDGETS.

Definition checked_admit (current amount limit : Z) (over_limit : AccountingError) : result Z :=
  let! next := ok_or CounterOverflow (checked_add_u64 current amount) in
  if next >? limit then Err over_limit else Ok next.

Definition peer_index (peer : Z) : result (fin MAX_ACCOUNTED_PEERS) :=
  match decide (Z.to_nat peer < MAX_ACCOUNTED_PEERS)%nat with
  | left H => Ok (nat_to_fin H)
  | right _ => Err InvalidPeer
  end.

Definition validate_generation (a : ReadinessAccounting) (peer generation : Z) : result (fin MAX_ACCOUNTED_PEERS) :=
  reject_if! generation =? 0 with ZeroGeneration;;
  let! i := peer_index peer in
  let state := peer_at a i in
  reject_if! negb (active state) with PeerInactive;;
  reject_if! negb (generation =? p_generation state) with StaleGeneration;;
  Ok i.

Definition validate_reservation_token (a : ReadinessAccounting) (token : ReservationToken) : result unit :=
  reject_if! negb (t_controller token =? controller_id a) with TokenOriginMismatch;;
  reject_if! bool_decide (t_state token = Released) with TokenAlreadyReleased;;
  let! _ := validate_generation a (t_peer token) (t_generation token) in Ok tt.

Definition validate_transaction_token (a : ReadinessAccounting) (token : TransactionToken)
    : result (fin MAX_ACCOUNTED_PEERS) :=
  reject_if! negb (x_controller token =? controller_id a) with TokenOriginMismatch;;
  reject_if! negb (x_active token) with TransactionTokenInactive;;
  validate_generation a (x_peer token) (x_generation token).

(** ** Operations *)

Definition begin_generation (a : ReadinessAccounting) (peer generation : Z) : result ReadinessAccounting :=
  reject_if! generation =? 0 with ZeroGeneration;;
  let! i := peer_index peer in
  let current := peer_at a i in
  reject_if! active current with PeerAlreadyActive;;
  reject_if! generation <=? p_generation current with GenerationNotAdvanced;;
  let resource := LiveProcessGenerations in
  let! total := checked_admit (at_ (aggregate a) resource) 1 (b_aggregate (budget a resource))
                  (AggregateLimit resource) in
  let history := at_ (counters current) RestartHistoryRecords in
  let counters := put (put zeros RestartHistoryRecords history) resource 1 in
  let state :=
    mkPeer true generation counters (replicate MAX_LIVE_TRANSACTIONS_PER_PEER 0)
      (replicate MAX_REPLAY_ENTRIES_PER_PEER 0) 0 0 (last_history_generation current) 0 false in
  Ok (commit a i state (put (aggregate a) resource total)).

(** The loop of [reserve] over the remaining resources. *)
Fixpoint reserve_loop (a : ReadinessAccounting) (request : ReservationRequest) (rs : list AccountedResource)
    (next_peer next_aggregate : Counters) : result (Counters * Counters) :=
  match rs with
  | [] => Ok (next_peer, next_aggregate)
  | resource :: rs =>
      let amount := request_amount request resource in
      if amount =? 0 then reserve_loop a request rs next_peer next_aggregate
      else
      reject_if! managed resource with ManagedResource resource;;
      let policy := budget a resource in
      let! mine := checked_admit (at_ next_peer resource) amount (per_peer policy) (PerPeerLimit resource) in
      let next_peer := put next_peer resource mine in
      let! all := checked_admit (at_ next_aggregate resource) amount (b_aggregate policy)
                    (AggregateLimit resource) in
      let next_aggregate := put next_aggregate resource all in
      reserve_loop a request rs next_peer next_aggregate
  end.

Definition reserve (a : ReadinessAccounting) (peer generation : Z) (request : ReservationRequest)
    : result (ReadinessAccounting * ReservationToken) :=
  reject_if! request_is_empty request with EmptyReservation;;
  let! i := validate_generation a peer generation in
  let! '(next_peer, next_aggregate) := reserve_loop a request ALL (counters (peer_at a i)) (aggregate a) in
  Ok (commit a i (with_counters (peer_at a i) next_peer) next_aggregate,
      mkToken (controller_id a) peer generation (q_amounts request) Reserved).

Definition with_token_state (t : ReservationToken) (s : ReservationState) : ReservationToken :=
  mkToken (t_controller t) (t_peer t) (t_generation t) (t_amounts t) s.

Definition publish (a : ReadinessAccounting) (token : ReservationToken) : result ReservationToken :=
  let! _ := validate_reservation_token a token in
  match t_state token with
  | Reserved => Ok (with_token_state token Published)
  | Published => Err TokenAlreadyPublished
  | Released => Err TokenAlreadyReleased
  end.

(** The loop of [release]. *)
Fixpoint release_loop (amounts : Counters) (rs : list AccountedResource) (next_peer next_aggregate : Counters)
    : result (Counters * Counters) :=
  match rs with
  | [] => Ok (next_peer, next_aggregate)
  | resource :: rs =>
      let amount := at_ amounts resource in
      let! mine := ok_or CounterUnderflow (checked_sub (at_ next_peer resource) amount) in
      let! all := ok_or CounterUnderflow (checked_sub (at_ next_aggregate resource) amount) in
      release_loop amounts rs (put next_peer resource mine) (put next_aggregate resource all)
  end.

Definition release (a : ReadinessAccounting) (token : ReservationToken)
    : result (ReadinessAccounting * ReservationToken) :=
  let! _ := validate_reservation_token a token in
  reject_if! bool_decide (t_state token = Released) with TokenAlreadyReleased;;
  let! i := validate_generation a (t_peer token) (t_generation token) in
  let! '(next_peer, next_aggregate) := release_loop (t_amounts token) ALL (counters (peer_at a i)) (aggregate a) in
  Ok (commit a i (with_counters (peer_at a i) next_peer) next_aggregate, with_token_state token Released).

Definition begin_transaction (a : ReadinessAccounting) (peer generation transaction_id : Z)
    : result (ReadinessAccounting * TransactionToken) :=
  reject_if! transaction_id =? 0 with ZeroTransaction;;
  let! i := validate_generation a peer generation in
  let state := peer_at a i in
  reject_if! contains transaction_id (live_transactions state) with DuplicateTransaction;;
  let! replayed := replay_contains state transaction_id in
  reject_if! replayed with ReplayedTransaction;;
  let! live_slot := ok_or TransactionCapacity (position (fun c => c =? 0) (live_transactions state)) in
  let resource := InFlightTransactions in
  let policy := budget a resource in
  let! next_peer := checked_admit (at_ (counters state) resource) 1 (per_peer policy) (PerPeerLimit resource) in
  let! next_aggregate := checked_admit (at_ (aggregate a) resource) 1 (b_aggregate policy) (AggregateLimit resource) in
  let state := with_counters state (put (counters state) resource next_peer) in
  let state := with_live state (<[live_slot := transaction_id]> (live_transactions state)) in
  Ok (commit a i state (put (aggregate a) resource next_aggregate),
      mkTransaction (controller_id a) peer generation transaction_id true).

Definition deactivate (t : TransactionToken) : TransactionToken :=
  mkTransaction (x_controller t) (x_peer t) (x_generation t) (x_id t) false.

Definition complete_transaction (a : ReadinessAccounting) (token : TransactionToken)
    : result (ReadinessAccounting * TransactionToken) :=
  let! i := validate_transaction_token a token in
  let state := peer_at a i in
  let! slot := ok_or TransactionNotLive (position (fun c => c =? x_id token) (live_transactions state)) in
  let R := CompletedReplayEntries in
  let F := InFlightTransactions in
  let capacity := per_peer (budget a R) in
  let grows := replay_len state <? capacity in
  let! next_peer_replay :=
    if grows then checked_admit (at_ (counters state) R) 1 (per_peer (budget a R)) (PerPeerLimit R)
    else Ok (at_ (counters state) R) in
  let! next_aggregate_replay :=
    if grows then checked_admit (at_ (aggregate a) R) 1 (b_aggregate (budget a R)) (AggregateLimit R)
    else Ok (at_ (aggregate a) R) in
  let! next_peer_in_flight := ok_or CounterUnderflow (checked_sub (at_ (counters state) F) 1) in
  let! next_aggregate_in_flight := ok_or CounterUnderflow (checked_sub (at_ (aggregate a) F) 1) in
  let replay_slot := replay_next state in
  assert! (replay_slot <? len (replay state));;
  assert! negb (capacity =? 0);;
  let! next_len := (if grows then or_panic (checked_add (2 ^ 8) (replay_len state) 1) else Ok (replay_len state)) in
  let state :=
    mkPeer (active state) (p_generation state)
      (put (put (counters state) F next_peer_in_flight) R next_peer_replay)
      (<[slot := 0]> (live_transactions state))
      (<[Z.to_nat replay_slot := x_id token]> (replay state)) next_len
      (((replay_slot + 1) mod capacity) mod 2 ^ 8)
      (last_history_generation state) (terminal_generation state) (terminal_cleanup_complete state) in
  Ok (commit a i state (put (put (aggregate a) F next_aggregate_in_flight) R next_aggregate_replay),
      deactivate token).

Definition abort_transaction (a : ReadinessAccounting) (token : TransactionToken)
    : result (ReadinessAccounting * TransactionToken) :=
  let! i := validate_transaction_token a token in
  let state := peer_at a i in
  let! slot := ok_or TransactionNotLive (position (fun c => c =? x_id token) (live_transactions state)) in
  let resource := InFlightTransactions in
  let! next_peer := ok_or CounterUnderflow (checked_sub (at_ (counters state) resource) 1) in
  let! next_aggregate := ok_or CounterUnderflow (checked_sub (at_ (aggregate a) resource) 1) in
  let state := with_live state (<[slot := 0]> (live_transactions state)) in
  let state := with_counters state (put (counters state) resource next_peer) in
  Ok (commit a i state (put (aggregate a) resource next_aggregate), deactivate token).

Definition record_restart_history (a : ReadinessAccounting) (peer generation : Z) (record : Restart.AttemptRecord)
    : result ReadinessAccounting :=
  let! i := validate_generation a peer generation in
  let state := peer_at a i in
  let resource := RestartHistoryRecords in
  let! expected_attempt := ok_or CounterOverflow (checked_add_u64 (at_ (counters state) resource) 1) in
  reject_if! negb (Restart.generation record =? generation)
    || negb (Restart.attempt record =? expected_attempt)
    || (generation <=? last_history_generation state) with RestartHistoryMismatch;;
  let policy := budget a resource in
  let! next_peer := checked_admit (at_ (counters state) resource) 1 (per_peer policy) (PerPeerLimit resource) in
  let! next_aggregate := checked_admit (at_ (aggregate a) resource) 1 (b_aggregate policy) (AggregateLimit resource) in
  let state :=
    mkPeer (active state) (p_generation state) (put (counters state) resource next_peer)
      (live_transactions state) (replay state) (replay_len state) (replay_next state) generation generation
      (bool_decide (Restart.cleanup record = Restart.Complete)) in
  Ok (commit a i state (put (aggregate a) resource next_aggregate)).

(** The resources that may be left over at retirement. *)
Definition retained (r : AccountedResource) : bool :=
  match r with
  | LiveProcessGenerations | CompletedReplayEntries | RestartHistoryRecords => true
  | _ => false
  end.

(** The first loop of [retire_generation]. *)
Fixpoint outstanding_loop (c : Counters) (rs : list AccountedResource) : result unit :=
  match rs with
  | [] => Ok tt
  | resource :: rs =>
      reject_if! negb (retained resource) && negb (at_ c resource =? 0) with OutstandingGenerationResource resource;;
      outstanding_loop c rs
  end.

(** The second loop of [retire_generation]. *)
Fixpoint retire_loop (released : Counters) (rs : list AccountedResource) (next_aggregate : Counters) : result Counters :=
  match rs with
  | [] => Ok next_aggregate
  | resource :: rs =>
      if bool_decide (resource = RestartHistoryRecords) then retire_loop released rs next_aggregate
      else
      let! all := ok_or CounterUnderflow (checked_sub (at_ next_aggregate resource) (at_ released resource)) in
      retire_loop released rs (put next_aggregate resource all)
  end.

Definition retire_generation (a : ReadinessAccounting) (peer generation : Z)
    : result (ReadinessAccounting * GenerationRetirement) :=
  let! i := validate_generation a peer generation in
  let state := peer_at a i in
  reject_if! negb (terminal_generation state =? generation) with TerminalRecordMissing;;
  reject_if! negb (terminal_cleanup_complete state) with CleanupIncomplete;;
  let! _ := outstanding_loop (counters state) ALL in
  let history := at_ (counters state) RestartHistoryRecords in
  let released := put (counters state) RestartHistoryRecords 0 in
  let! next_aggregate := retire_loop released ALL (aggregate a) in
  let state :=
    mkPeer false (p_generation state) (put zeros RestartHistoryRecords history)
      (replicate MAX_LIVE_TRANSACTIONS_PER_PEER 0) (replicate MAX_REPLAY_ENTRIES_PER_PEER 0) 0 0
      (last_history_generation state) 0 false in
  Ok (commit a i state next_aggregate, mkRetirement released history).

Definition finish_restart_episode (a : ReadinessAccounting) (peer : Z) : result (ReadinessAccounting * Z) :=
  let! i := peer_index peer in
  let state := peer_at a i in
  reject_if! active state with EpisodeStillActive;;
  let resource := RestartHistoryRecords in
  let history := at_ (counters state) resource in
  let! next_aggregate := ok_or CounterUnderflow (checked_sub (at_ (aggregate a) resource) history) in
  let state :=
    mkPeer (active state) (p_generation state) (put (counters state) resource 0) (live_transactions state)
      (replay state) (replay_len state) (replay_next state) 0 (terminal_generation state)
      (terminal_cleanup_complete state) in
  Ok (commit a i state (put (aggregate a) resource next_aggregate), history).

Definition peer_count (a : ReadinessAccounting) (peer : Z) (resource : AccountedResource) : option Z :=
  match peer_index peer with
  | Ok i => Some (at_ (counters (peer_at a i)) resource)
  | _ => None
  end.
Definition aggregate_count (a : ReadinessAccounting) (resource : AccountedResource) : Z :=
  at_ (aggregate a) resource.

(** [validate_kernel_channel_envelope]; the two limits are the kernel's. *)
Definition validate_kernel_channel_envelope (DW_CHANNEL_MAX_PAYLOAD DW_CHANNEL_MAX_HANDLES : Z)
    (payload_bytes handles : Z) : result unit :=
  if (payload_bytes >? DW_CHANNEL_MAX_PAYLOAD) || (handles >? DW_CHANNEL_MAX_HANDLES)
  then Err KernelChannelEnvelope else Ok tt.
Definition kernel_channel_enforcement : EnforcementClass := Kernel.

End Accounting.
