(* ===== verification/AccountingThms.v ===== *)
(** * The ledger balances

    The ledger together with the tokens it has handed out: every counter is
    what the live tokens say, every total is the sum over the peers, nothing
    exceeds its budget, and what was admitted can always be given back. *)

From stdpp Require Import base tactics option list list_numbers fin vector sorting.
From Stdlib Require Import ZArith Lia.
From S2P Require Import Prelude Bytes Restart Accounting.
Import Accounting.

(** ** Counters and sums *)

#[global] Instance index_inj : Inj (=) (=) index.
Proof. intros [] [] H; by vm_compute in H. Qed.

Lemma at_put c r r' v : at_ (put c r v) r' = if decide (r = r') then v else at_ c r'.
Proof.
  unfold at_, put. destruct (decide (r = r')) as [->|Hne]; [apply vlookup_insert|].
  apply vlookup_insert_ne. by intros ?%index_inj.
Qed.

Lemma at_put_same c r v : at_ (put c r v) r = v.
Proof. rewrite at_put. by destruct (decide _). Qed.

Lemma at_put_other c r r' v : r <> r' -> at_ (put c r v) r' = at_ c r'.
Proof. intros. rewrite at_put. by destruct (decide _). Qed.

Lemma at_zeros r : at_ zeros r = 0.
Proof. unfold at_, zeros. apply vlookup_replicate. Qed.

Lemma elem_of_ALL r : r ∈ ALL.
Proof. destruct r; unfold ALL; rewrite !elem_of_cons; tauto. Qed.

Lemma ALL_position k r : ALL !! k = Some r -> fin_to_nat (index r) = k.
Proof. do 13 (destruct k as [|k]; [by intros [= <-]|]). done. Qed.

(** Every place of a counter array belongs to a resource. *)
Lemma index_position (c : Counters) k x : vec_to_list c !! k = Some x -> exists r, at_ c r = x.
Proof.
  intros Hk. pose proof (lookup_lt_Some _ _ _ Hk) as Hlt. rewrite length_vec_to_list in Hlt.
  destruct (lookup_lt_is_Some_2 ALL k) as [r Hr]; [done|]. exists r. apply vlookup_lookup.
  by rewrite (ALL_position k r Hr).
Qed.

Fixpoint sum (l : list Z) : Z := match l with [] => 0 | x :: l => x + sum l end.

Lemma sum_app l k : sum (l ++ k) = sum l + sum k.
Proof. induction l; simpl; lia. Qed.

Lemma sum_insert l i x y : l !! i = Some x -> sum (<[i := y]> l) = sum l - x + y.
Proof.
  revert i. induction l as [|z l IH]; intros [|i] H; simpl in *; try done.
  - injection H as ->. lia.
  - rewrite (IH i) by done. lia.
Qed.

Lemma sum_nonneg l : Forall (fun x => 0 <= x) l -> 0 <= sum l.
Proof. induction 1; simpl; lia. Qed.

Lemma sum_elem l x : Forall (fun x => 0 <= x) l -> x ∈ l -> x <= sum l.
Proof.
  induction 1 as [|y l Hy Hl IH]; intros Hx; [by apply elem_of_nil in Hx|]. simpl. pose proof (sum_nonneg l Hl).
  apply elem_of_cons in Hx as [->|Hx]; [lia|]. specialize (IH Hx). lia.
Qed.

Lemma sum_zero l : Forall (fun x => 0 <= x) l -> sum l = 0 -> Forall (fun x => x = 0) l.
Proof.
  intros Hl Hs. apply Forall_forall. intros x Hx. pose proof (sum_elem l x Hl Hx).
  rewrite Forall_forall in Hl. specialize (Hl x Hx). lia.
Qed.

Lemma elem_of_bfilter {A} (f : A -> bool) l x : x ∈ List.filter f l <-> x ∈ l /\ f x = true.
Proof. rewrite !list_elem_of_In. apply filter_In. Qed.

(** ** Tokens of a peer *)

(** The token or transaction of [peer] concerns entry [i]. *)
Definition on (i : fin MAX_ACCOUNTED_PEERS) (peer : Z) : bool := (Z.to_nat peer =? fin_to_nat i)%nat.

Lemma peer_index_Ok peer i : peer_index peer = Ok i <-> on i peer = true.
Proof.
  unfold peer_index, on. rewrite Nat.eqb_eq. destruct (decide _) as [H|H]; split; intros He.
  - injection He as <-. by rewrite fin_to_nat_to_fin.
  - f_equal. apply (inj fin_to_nat). by rewrite fin_to_nat_to_fin.
  - done.
  - pose proof (fin_to_nat_lt i). lia.
Qed.

Lemma on_unique i j peer : on i peer = true -> on j peer = true -> i = j.
Proof. unfold on. rewrite !Nat.eqb_eq. intros H1 H2. apply (inj fin_to_nat). congruence. Qed.

Definition unreleased (t : ReservationToken) : bool := bool_decide (t_state t <> Released).
Definition held (i : fin MAX_ACCOUNTED_PEERS) (t : ReservationToken) : bool := unreleased t && on i (t_peer t).
Definition running (i : fin MAX_ACCOUNTED_PEERS) (x : TransactionToken) : bool := x_active x && on i (x_peer x).

(** What the live tokens of a peer amount to. *)
Definition owed (i : fin MAX_ACCOUNTED_PEERS) (r : AccountedResource) (tokens : list ReservationToken) : Z :=
  sum (map (fun t => if held i t then at_ (t_amounts t) r else 0) tokens).

(** The transactions a peer has in flight. *)
Definition in_flight (i : fin MAX_ACCOUNTED_PEERS) (txs : list TransactionToken) : list Z :=
  map x_id (List.filter (running i) txs).

Lemma owed_snoc i r tokens t :
  owed i r (tokens ++ [t]) = owed i r tokens + if held i t then at_ (t_amounts t) r else 0.
Proof. unfold owed. rewrite map_app, sum_app. simpl. lia. Qed.

Lemma owed_insert i r tokens k t t' :
  tokens !! k = Some t ->
  owed i r (<[k := t']> tokens) =
  owed i r tokens - (if held i t then at_ (t_amounts t) r else 0) + (if held i t' then at_ (t_amounts t') r else 0).
Proof.
  intros Hk. unfold owed. rewrite list_fmap_insert. apply sum_insert. by rewrite list_lookup_fmap, Hk.
Qed.

Lemma in_flight_snoc i txs x :
  in_flight i (txs ++ [x]) = in_flight i txs ++ if running i x then [x_id x] else [].
Proof. unfold in_flight. rewrite List.filter_app, map_app. cbn. by destruct (running i x). Qed.

Lemma in_flight_stop i txs k x x' :
  txs !! k = Some x -> running i x = true -> running i x' = false ->
  in_flight i txs ≡ₚ x_id x :: in_flight i (<[k := x']> txs).
Proof.
  unfold in_flight. intros Hk Hx Hx'. revert k Hk. induction txs as [|y l IH]; intros [|k] Hk; try done; cbn in *.
  - injection Hk as ->. by rewrite Hx, Hx'.
  - destruct (running i y); cbn; [|by apply IH]. rewrite (IH k) by done. apply Permutation_swap.
Qed.

Lemma in_flight_other i txs k x x' :
  txs !! k = Some x -> running i x = false -> running i x' = false -> in_flight i (<[k := x']> txs) = in_flight i txs.
Proof.
  unfold in_flight. intros Hk Hx Hx'. revert k Hk. induction txs as [|y l IH]; intros [|k] Hk; try done; cbn in *.
  - injection Hk as ->. by rewrite Hx, Hx'.
  - destruct (running i y); cbn; [f_equal|]; by apply IH.
Qed.

Lemma elem_of_in_flight i txs x : x ∈ txs -> running i x = true -> x_id x ∈ in_flight i txs.
Proof. intros. unfold in_flight. apply list_elem_of_fmap. exists x. split; [done|]. by apply elem_of_bfilter. Qed.

(** ** The invariant *)

Record budgets_ok (b : vec ResourceBudget COUNT) : Prop := {
  bo_positive : forall r, 1 <= per_peer (b !!! index r) <= b_aggregate (b !!! index r);
  bo_aggregate : forall r, b_aggregate (b !!! index r) <= 4 * per_peer (b !!! index r);
  bo_process : per_peer (b !!! index LiveProcessGenerations) = 1;
  bo_live : per_peer (b !!! index InFlightTransactions) <= 4;
  bo_replay : per_peer (b !!! index CompletedReplayEntries) <= 8 }.

(** The replay array is a ring of the last [capacity] completed transactions. *)
Record replay_ok (capacity : Z) (p : PeerAccounting) (done_ : list Z) : Prop := {
  rp_size : len (replay p) = 8;
  rp_len : replay_len p = Z.min (len done_) capacity;
  rp_next : replay_next p = len done_ mod capacity;
  rp_entry : forall k x, done_ !! k = Some x -> len done_ - capacity <= Z.of_nat k ->
    replay p !! Z.to_nat (Z.of_nat k mod capacity) = Some x }.

Record peer_ok (b : vec ResourceBudget COUNT) (tokens : list ReservationToken) (txs : list TransactionToken)
    (i : fin MAX_ACCOUNTED_PEERS) (p : PeerAccounting) : Prop := {
  po_range : forall r, 0 <= at_ (counters p) r <= per_peer (b !!! index r);
  po_owed : forall r, managed r = false -> at_ (counters p) r = owed i r tokens;
  po_slots : length (live_transactions p) = 4%nat;
  po_live : List.filter (fun x => negb (x =? 0)) (live_transactions p) ≡ₚ in_flight i txs;
  po_nodup : NoDup (in_flight i txs);
  po_flight : at_ (counters p) InFlightTransactions = len (in_flight i txs);
  po_process : at_ (counters p) LiveProcessGenerations = if active p then 1 else 0;
  po_generation : 0 <= p_generation p /\ (active p = true -> p_generation p <> 0);
  po_inactive : active p = false -> forall r, r <> RestartHistoryRecords -> at_ (counters p) r = 0;
  po_window : at_ (counters p) CompletedReplayEntries = replay_len p;
  po_replay : exists done_, replay_ok (per_peer (b !!! index CompletedReplayEntries)) p done_;
  po_tokens : forall t, t ∈ tokens -> held i t = true -> active p = true /\ t_generation t = p_generation p;
  po_txs : forall x, x ∈ txs -> running i x = true ->
    active p = true /\ x_generation x = p_generation p /\ x_id x <> 0 }.

Record World := mkWorld {
  ledger : ReadinessAccounting; tokens : list ReservationToken; txs : list TransactionToken }.

Definition total (a : ReadinessAccounting) (r : AccountedResource) : Z :=
  sum (map (fun p => at_ (counters p) r) (peers a)).

Record token_ok (a : ReadinessAccounting) (t : ReservationToken) : Prop := {
  to_controller : t_controller t = controller_id a;
  to_amounts : forall r, 0 <= at_ (t_amounts t) r;
  to_managed : forall r, managed r = true -> at_ (t_amounts t) r = 0;
  to_some : exists r, at_ (t_amounts t) r <> 0;
  to_peer : exists i, on i (t_peer t) = true }.

Record transaction_ok (a : ReadinessAccounting) (x : TransactionToken) : Prop := {
  xo_controller : x_controller x = controller_id a;
  xo_peer : exists i, on i (x_peer x) = true }.

Record world_ok (w : World) : Prop := {
  w_budgets : budgets_ok (budgets (ledger w));
  w_total : forall r, at_ (aggregate (ledger w)) r = total (ledger w) r;
  w_aggregate : forall r, at_ (aggregate (ledger w)) r <= b_aggregate (budget (ledger w) r);
  w_peers : forall i, peer_ok (budgets (ledger w)) (tokens w) (txs w) i (peer_at (ledger w) i);
  w_tokens : Forall (token_ok (ledger w)) (tokens w);
  w_txs : Forall (transaction_ok (ledger w)) (txs w) }.

(** ** One peer changes *)

Lemma total_commit a i p c r :
  total (commit a i p c) r = total a r - at_ (counters (peer_at a i)) r + at_ (counters p) r.
Proof.
  unfold total, commit. cbn [peers]. rewrite vec_to_list_insert, list_fmap_insert. apply sum_insert.
  rewrite list_lookup_fmap. unfold peer_at. by rewrite (proj1 (vlookup_lookup (peers a) i _) eq_refl).
Qed.

Lemma peer_commit_same a i p c : peer_at (commit a i p c) i = p.
Proof. unfold peer_at. cbn. apply vlookup_insert. Qed.

Lemma peer_commit_other a i j p c : i <> j -> peer_at (commit a i p c) j = peer_at a j.
Proof. intros. unfold peer_at. cbn. by apply vlookup_insert_ne. Qed.

Lemma total_nonneg w r i : world_ok w -> 0 <= at_ (counters (peer_at (ledger w) i)) r <= total (ledger w) r.
Proof.
  intros Hw. split; [apply (po_range _ _ _ _ _ (w_peers _ Hw i))|]. unfold total. apply sum_elem.
  - apply Forall_forall. intros x Hx. apply list_elem_of_fmap in Hx as (p & -> & Hp).
    apply list_elem_of_lookup in Hp as [k Hk]. pose proof (lookup_lt_Some _ _ _ Hk) as Hlt. rewrite length_vec_to_list in Hlt.
    pose proof (po_range _ _ _ _ _ (w_peers _ Hw (nat_to_fin Hlt)) r) as [H _]. unfold peer_at in H.
    rewrite <-(fin_to_nat_to_fin _ _ Hlt) in Hk. apply vlookup_lookup in Hk. by rewrite Hk in H.
  - apply list_elem_of_fmap. exists (peer_at (ledger w) i). split; [done|]. unfold peer_at.
    apply list_elem_of_lookup. exists (fin_to_nat i). by apply vlookup_lookup.
Qed.

(** A step that changes peer [i], with the tokens of other peers untouched. *)
Lemma world_step w i p c tokens' txs' :
  world_ok w ->
  (forall r, at_ c r = at_ (aggregate (ledger w)) r - at_ (counters (peer_at (ledger w) i)) r + at_ (counters p) r) ->
  (forall r, at_ c r <= b_aggregate (budget (ledger w) r)) ->
  peer_ok (budgets (ledger w)) tokens' txs' i p ->
  (forall j, j <> i -> peer_ok (budgets (ledger w)) tokens' txs' j (peer_at (ledger w) j)) ->
  Forall (token_ok (ledger w)) tokens' -> Forall (transaction_ok (ledger w)) txs' ->
  world_ok (mkWorld (commit (ledger w) i p c) tokens' txs').
Proof.
  intros Hw Hc Hagg Hp Hother Ht Hx. split; cbn [ledger tokens txs]; try done.
  - apply (w_budgets _ Hw).
  - intros r. rewrite total_commit, <-(w_total _ Hw r). by apply Hc.
  - intros j. destruct (decide (i = j)) as [<-|Hne].
    + by rewrite peer_commit_same.
    + rewrite peer_commit_other by done. by apply Hother.
  - eapply Forall_impl; [exact Ht|]. by intros t [].
  - eapply Forall_impl; [exact Hx|]. by intros t [].
Qed.

(** ** The pieces the operations share *)

Lemma peer_ok_frame b toks xs toks' xs' j p :
  peer_ok b toks xs j p ->
  (forall r, owed j r toks' = owed j r toks) -> in_flight j xs' = in_flight j xs ->
  (forall t, t ∈ toks' -> held j t = true ->
     exists t0, t0 ∈ toks /\ held j t0 = true /\ t_generation t = t_generation t0) ->
  (forall x, x ∈ xs' -> running j x = true -> x ∈ xs) ->
  peer_ok b toks' xs' j p.
Proof.
  intros [] Ho Hf Ht Hx. split; rewrite ?Hf; try done.
  - intros r Hr. rewrite Ho. by apply po_owed0.
  - intros t Hin Hh. destruct (Ht t Hin Hh) as (t0 & Hin0 & Hh0 & ->). by apply po_tokens0.
  - intros x Hin Hr. by apply po_txs0; [apply Hx|].
Qed.

Lemma elem_of_snoc {A} (l : list A) x y : x ∈ l ++ [y] <-> x ∈ l \/ x = y.
Proof. rewrite elem_of_app, list_elem_of_singleton. done. Qed.

Lemma elem_of_insert {A} (l : list A) k x y : x ∈ <[k := y]> l -> x = y \/ x ∈ l.
Proof.
  intros [i Hi]%list_elem_of_lookup. destruct (decide (i = k)) as [->|Hne].
  - destruct (decide (k < length l)%nat).
    + rewrite list_lookup_insert_eq in Hi by done. injection Hi as ->. by left.
    + apply lookup_lt_Some in Hi. rewrite length_insert in Hi. lia.
  - rewrite list_lookup_insert_ne in Hi by done. right. apply list_elem_of_lookup. by exists i.
Qed.

Lemma validate_generation_Ok a peer g i :
  validate_generation a peer g = Ok i <->
  g <> 0 /\ on i peer = true /\ active (peer_at a i) = true /\ p_generation (peer_at a i) = g.
Proof.
  unfold validate_generation. split.
  - intros H. destruct (Z.eqb_spec g 0); [done|]. res_inv. subst. apply peer_index_Ok in H0. bool_prop.
    destruct (active _); [|done]. by split_conj.
  - intros (Hg & Hi & Ha & Hp). rewrite (proj2 (Z.eqb_neq g 0)) by done.
    rewrite (proj2 (peer_index_Ok peer i) Hi). cbn [res_bind]. by rewrite Ha, Hp, Z.eqb_refl.
Qed.

Lemma checked_admit_Ok current amount limit e n :
  checked_admit current amount limit e = Ok n <-> n = current + amount /\ n < 2 ^ 64 /\ n <= limit.
Proof.
  unfold checked_admit. rewrite res_bind_Ok. split.
  - intros (x & H & Hn). apply ok_or_Ok in H. apply checked_add_Some in H as [-> ?].
    destruct (Z.gtb_spec (current + amount) limit); [done|]. injection Hn as <-. lia.
  - intros (-> & ? & ?). exists (current + amount). split; [by apply ok_or_Ok, checked_add_Some|].
    by destruct (Z.gtb_spec (current + amount) limit); [lia|].
Qed.

Lemma admits_np current amount limit e : checked_admit current amount limit e <> Panic.
Proof. unfold checked_admit. apply res_bind_not_panic; [apply ok_or_not_panic|]. intros. by case_match. Qed.

(** *** The loops over all resources *)

Lemma ALL_nodup : NoDup ALL.
Proof. apply (bool_decide_unpack _). by vm_compute. Qed.

Lemma reserve_loop_spec a q rs : NoDup rs -> forall np na np' na',
  reserve_loop a q rs np na = Ok (np', na') ->
  forall r, let d := if decide (r ∈ rs) then request_amount q r else 0 in
    at_ np' r = at_ np r + d /\ at_ na' r = at_ na r + d /\
    (d <> 0 -> managed r = false /\ at_ np' r <= per_peer (budget a r) /\ at_ na' r <= b_aggregate (budget a r)).
Proof.
  induction 1 as [|r0 rs Hnin Hnd IH]; intros np na np' na' H r; cbn [reserve_loop] in H.
  { injection H as <- <-. rewrite decide_False by apply not_elem_of_nil. cbv zeta. split_conj; [lia..|done]. }
  assert (forall np na, reserve_loop a q rs np na = Ok (np', na') -> r = r0 -> at_ np' r = at_ np r /\ at_ na' r = at_ na r) as Hskip.
  { intros np1 na1 H1 ->. destruct (IH _ _ _ _ H1 r0) as (-> & -> & _). destruct (decide (r0 ∈ rs)); [done|lia]. }
  destruct (Z.eqb_spec (request_amount q r0) 0) as [Hz|Hz].
  - destruct (IH _ _ _ _ H r) as (Hp & Ha & Hlim). destruct (decide (r = r0)) as [->|Hne].
    + destruct (Hskip _ _ H eq_refl) as [-> ->]. rewrite decide_True by (by left). cbn. lia.
    + rewrite (decide_ext (r ∈ r0 :: rs) (r ∈ rs)) by (rewrite elem_of_cons; tauto). done.
  - destruct (managed r0) eqn:Hman; [done|]. apply res_bind_Ok in H as (mine & Hmine & H).
    apply res_bind_Ok in H as (all & Hall & H). apply checked_admit_Ok in Hmine as (Hmine & _ & Hl1).
    apply checked_admit_Ok in Hall as (Hall & _ & Hl2). destruct (decide (r = r0)) as [->|Hne].
    + destruct (Hskip _ _ H eq_refl) as [-> ->]. rewrite decide_True by (by left). rewrite !at_put_same. cbn. by split_conj.
    + destruct (IH _ _ _ _ H r) as (Hp & Ha & Hlim). rewrite !at_put_other in Hp, Ha by done.
      rewrite (decide_ext (r ∈ r0 :: rs) (r ∈ rs)) by (rewrite elem_of_cons; tauto). by rewrite Hp, Ha in *.
Qed.

Lemma release_loop_spec am rs : NoDup rs -> forall np na,
  (forall r, r ∈ rs -> at_ am r <= at_ np r /\ at_ am r <= at_ na r) ->
  exists np' na', release_loop am rs np na = Ok (np', na') /\
  forall r, let d := if decide (r ∈ rs) then at_ am r else 0 in at_ np' r = at_ np r - d /\ at_ na' r = at_ na r - d.
Proof.
  induction 1 as [|r0 rs Hnin Hnd IH]; intros np na Hle; cbn [release_loop].
  { exists np, na. split; [done|]. intros r. rewrite decide_False by apply not_elem_of_nil. cbv zeta. lia. }
  destruct (Hle r0) as [H1 H2]; [by left|].
  rewrite (proj2 (checked_sub_Some (at_ np r0) (at_ am r0) _)) by done. cbn [ok_or res_bind].
  rewrite (proj2 (checked_sub_Some (at_ na r0) (at_ am r0) _)) by done. cbn [ok_or res_bind].
  destruct (IH (put np r0 (at_ np r0 - at_ am r0)) (put na r0 (at_ na r0 - at_ am r0))) as (np' & na' & -> & Hspec).
  { intros r Hr. assert (r0 <> r) by (by intros ->). rewrite !at_put_other by done. apply Hle. by right. }
  exists np', na'. split; [done|]. intros r. destruct (Hspec r) as [-> ->]. destruct (decide (r = r0)) as [->|Hne].
  - rewrite !at_put_same, decide_False, decide_True by (done || by left). lia.
  - rewrite !at_put_other by done. by rewrite (decide_ext (r ∈ r0 :: rs) (r ∈ rs)) by (rewrite elem_of_cons; tauto).
Qed.

(** *** Slots and rings *)

Lemma nonzero_fill l k x :
  l !! k = Some 0 -> x <> 0 ->
  List.filter (fun x => negb (x =? 0)) (<[k := x]> l) ≡ₚ x :: List.filter (fun x => negb (x =? 0)) l.
Proof.
  intros Hk Hx. revert k Hk. induction l as [|y l IH]; intros [|k] Hk; try done; cbn in *.
  - injection Hk as ->. by rewrite (proj2 (Z.eqb_neq x 0)).
  - destruct (y =? 0); cbn; [by apply IH|]. rewrite (IH k) by done. apply Permutation_swap.
Qed.

Lemma nonzero_clear l k x :
  l !! k = Some x -> x <> 0 ->
  List.filter (fun x => negb (x =? 0)) l ≡ₚ x :: List.filter (fun x => negb (x =? 0)) (<[k := 0]> l).
Proof.
  intros Hk Hx. rewrite <-(nonzero_fill (<[k := 0]> l) k x); [|by rewrite list_lookup_insert_eq by (by eapply lookup_lt_Some)|done].
  by rewrite list_insert_insert_eq, list_insert_id.
Qed.

Lemma replay_new cap p :
  1 <= cap -> len (replay p) = 8 -> replay_len p = 0 -> replay_next p = 0 -> replay_ok cap p [].
Proof. intros ? ? Hl Hn. split; [done|rewrite Hl; simpl; lia|by rewrite Hn|by intros [|k]]. Qed.

Lemma replay_push cap p p' xs x :
  1 <= cap <= 8 -> replay_ok cap p xs ->
  replay p' = <[Z.to_nat (replay_next p) := x]> (replay p) ->
  replay_len p' = (if replay_len p <? cap then replay_len p + 1 else replay_len p) ->
  replay_next p' = ((replay_next p + 1) mod cap) mod 2 ^ 8 ->
  replay_ok cap p' (xs ++ [x]).
Proof.
  intros Hcap [Hs Hl Hn He] Hr Hl' Hn'. pose proof (Z.mod_pos_bound (len xs) cap ltac:(lia)) as Hpos.
  split; rewrite ?Hr, ?length_insert, ?length_app; cbn [length]; [done| | |].
  - rewrite Hl', Hl. destruct (Z.ltb_spec (Z.min (len xs) cap) cap); lia.
  - rewrite Hn', Hn, Zplus_mod_idemp_l. pose proof (Z.mod_pos_bound (len xs + 1) cap ltac:(lia)).
    rewrite (Z.mod_small _ (2 ^ 8)) by lia. f_equal. lia.
  - intros k y Hk Hrange. rewrite Hn. apply lookup_app_Some in Hk as [Hk|[Hge Hk]].
    + pose proof (lookup_lt_Some _ _ _ Hk). rewrite list_lookup_insert_ne; [apply He; [done|lia]|]. intros Heq.
      pose proof (Z.mod_pos_bound (Z.of_nat k) cap ltac:(lia)).
      assert (len xs mod cap = Z.of_nat k mod cap) as Hm by lia.
      set (b := len xs + 1 - cap). replace (len xs) with (b + (cap - 1)) in Hm by lia.
      replace (Z.of_nat k) with (b + (Z.of_nat k - b)) in Hm by lia. apply ring_injective in Hm; lia.
    + destruct (k - length xs)%nat eqn:E; [|done]. injection Hk as <-.
      replace (Z.of_nat k) with (len xs) by lia. apply list_lookup_insert_eq. lia.
Qed.

Lemma replay_contains_spec cap p xs x :
  1 <= cap <= 8 -> replay_ok cap p xs ->
  replay_contains p x = Ok (contains x (drop (length xs - Z.to_nat cap) xs)).
Proof.
  intros Hcap [Hs Hl Hn He]. unfold replay_contains. rewrite (proj2 (Z.leb_le _ _)) by lia. f_equal.
  apply bool_decide_ext. rewrite Hl, !list_elem_of_lookup. split.
  - intros [j Hj]. apply lookup_take_Some in Hj as [Hj Hlt].
    (* slot [j] was last written for the completion congruent to it *)
    set (n := length xs) in *.
    destruct (decide (Z.of_nat n <= cap)) as [Hsmall|Hbig].
    + exists j. rewrite lookup_drop. replace (n - Z.to_nat cap + j)%nat with j by lia.
      destruct (lookup_lt_is_Some_2 xs j) as [y Hy]; [unfold n in *; lia|].
      pose proof (He j y Hy ltac:(lia)) as Hr. rewrite Z.mod_small, Nat2Z.id in Hr by lia. congruence.
    + set (k := Z.of_nat n - 1 - (Z.of_nat n - 1 - Z.of_nat j) mod cap).
      pose proof (Z.mod_pos_bound (Z.of_nat n - 1 - Z.of_nat j) cap ltac:(lia)).
      assert (k mod cap = Z.of_nat j) as Hk.
      { unfold k. rewrite Zminus_mod_idemp_r. replace (Z.of_nat n - 1 - (Z.of_nat n - 1 - Z.of_nat j)) with (Z.of_nat j) by lia.
        apply Z.mod_small. lia. }
      destruct (lookup_lt_is_Some_2 xs (Z.to_nat k)) as [y Hy]; [unfold n in *; lia|].
      pose proof (He _ y Hy ltac:(lia)) as Hr. rewrite Z2Nat.id, Hk, Nat2Z.id in Hr by lia.
      exists (Z.to_nat k - (n - Z.to_nat cap))%nat. rewrite lookup_drop.
      replace (n - Z.to_nat cap + (Z.to_nat k - (n - Z.to_nat cap)))%nat with (Z.to_nat k) by lia. congruence.
  - intros [j Hj]. rewrite lookup_drop in Hj. set (k := (length xs - Z.to_nat cap + j)%nat) in *.
    pose proof (lookup_lt_Some _ _ _ Hj). pose proof (He k x Hj ltac:(lia)) as Hr.
    pose proof (Z.mod_pos_bound (Z.of_nat k) cap ltac:(lia)).
    exists (Z.to_nat (Z.of_nat k mod cap)). apply lookup_take_Some. split; [done|].
    destruct (decide (len xs <= cap)); [rewrite Z.mod_small by lia; lia|lia].
Qed.

(** ** Every operation keeps the books *)

(** The amounts of a request are unsigned. *)
Definition request_ok (q : ReservationRequest) : Prop := forall r, 0 <= request_amount q r.

(** Conditions on the counters alone, for an operation that changes only them. *)
Lemma peer_ok_counters b toks xs i p c :
  peer_ok b toks xs i p -> active p = true ->
  (forall r, 0 <= at_ c r <= per_peer (b !!! index r)) ->
  (forall r, managed r = false -> at_ c r = at_ (counters p) r) ->
  (forall r, managed r = true -> r <> RestartHistoryRecords -> at_ c r = at_ (counters p) r) ->
  peer_ok b toks xs i (with_counters p c).
Proof.
  intros [] Ha Hr Hu Hm. split; cbn [counters with_counters live_transactions active p_generation replay_len]; try done.
  - intros r Hman. rewrite Hu by done. by apply po_owed0.
  - by rewrite Hm.
  - by rewrite Hm.
  - by rewrite Ha.
  - by rewrite Hm.
  - destruct po_replay0 as [xs0 []]. by exists xs0.
Qed.

Section operations.
Context (w : World) (Hw : world_ok w).
Abbreviation L := (ledger w).
Abbreviation P := (peer_at (ledger w)).

Lemma unheld_inactive i t : t ∈ tokens w -> active (P i) = false -> held i t = false.
Proof.
  intros Ht Ha. destruct (held i t) eqn:Hh; [|done]. destruct (po_tokens _ _ _ _ _ (w_peers _ Hw i) t Ht Hh). congruence.
Qed.

Lemma begin_generation_ok peer g a' :
  0 <= g -> begin_generation L peer g = Ok a' -> world_ok (mkWorld a' (tokens w) (txs w)).
Proof.
  intros Hg H. unfold begin_generation in H. destruct (Z.eqb_spec g 0); [done|]. res_inv. subst a'. rename a into i.
 
  pose proof (w_peers _ Hw i) as Hp. pose proof (w_budgets _ Hw) as Hb.
  apply checked_admit_Ok in H1 as (-> & _ & Hlim). pose proof (po_inactive _ _ _ _ _ Hp E) as Hz.
  assert (in_flight i (txs w) = []) as Hnone.
  { pose proof (po_flight _ _ _ _ _ Hp) as Hf. rewrite Hz in Hf by done. by destruct (in_flight i (txs w)). }
  set (history := at_ (counters (P i)) RestartHistoryRecords).
  set (c := put (put zeros RestartHistoryRecords history) LiveProcessGenerations 1).
  assert (forall r, at_ c r = if decide (r = LiveProcessGenerations) then 1 else at_ (counters (P i)) r) as Hc.
  { intros r. unfold c, history. rewrite !at_put, at_zeros. destruct (decide (LiveProcessGenerations = r)) as [<-|];
      [by rewrite decide_True|]. rewrite (decide_False (P := r = _)) by congruence.
    destruct (decide (RestartHistoryRecords = r)) as [<-|]; [done|]. rewrite Hz; congruence. }
  apply world_step; try done.
  - intros r. rewrite at_put, Hc. destruct (decide (LiveProcessGenerations = r)) as [<-|].
    + rewrite decide_True by done. rewrite Hz by done. lia.
    + rewrite decide_False by congruence. lia.
  - intros r. rewrite at_put. destruct (decide _) as [<-|]; [done|]. apply (w_aggregate _ Hw).
  - split; cbn [counters active live_transactions replay replay_len p_generation]; rewrite ?Hnone; try done;
      try (rewrite Hc, decide_False by done; by rewrite Hz).
    + intros r. rewrite Hc. destruct (decide _) as [->|]; [|apply (po_range _ _ _ _ _ Hp)].
      rewrite (bo_process _ Hb). lia.
    + intros r Hr. rewrite Hc. rewrite decide_False by (by intros ->). by apply (po_owed _ _ _ _ _ Hp).
    + constructor.
    + exists []. apply replay_new; try done. apply (bo_positive _ Hb CompletedReplayEntries).
    + intros t Ht Hh. by rewrite (unheld_inactive i t Ht E) in Hh.
    + intros x Hx Hr. exfalso. pose proof (elem_of_in_flight i (txs w) x Hx Hr) as Hin. rewrite Hnone in Hin. by apply elem_of_nil in Hin.
  - intros j Hj. apply (w_peers _ Hw).
  - apply (w_tokens _ Hw).
  - apply (w_txs _ Hw).
Qed.

Lemma request_is_empty_spec q : request_is_empty q = false -> exists r, request_amount q r <> 0.
Proof.
  unfold request_is_empty, request_amount. intros H.
  destruct (decide (Forall (fun r => at_ (q_amounts q) r = 0) ALL)) as [Hall|Hn].
  - exfalso. assert (forallb (fun amount => amount =? 0) (q_amounts q) = true); [|congruence].
    apply forallb_forall. intros x Hx. apply list_elem_of_In, list_elem_of_lookup in Hx as [k Hk]. apply Z.eqb_eq.
    destruct (index_position (q_amounts q) k x Hk) as [r <-]. rewrite Forall_forall in Hall. apply Hall, elem_of_ALL.
  - apply not_Forall_Exists, Exists_exists in Hn as (r & _ & Hr); [by exists r|]. intros r. apply _.
Qed.

Lemma reserve_ok peer g q a' t :
  request_ok q -> reserve L peer g q = Ok (a', t) -> world_ok (mkWorld a' (tokens w ++ [t]) (txs w)).
Proof.
  intros Hq H. unfold reserve in H. destruct (request_is_empty q) eqn:Hemp; [done|].
  apply res_bind_Ok in H as (i & Hi & H). apply res_bind_Ok in H as ([np na] & Hloop & H). injection H as <- <-.
  apply validate_generation_Ok in Hi as (Hg & Hon & Ha & Hgen). pose proof (w_peers _ Hw i) as Hp.
  pose proof (reserve_loop_spec L q ALL ALL_nodup _ _ _ _ Hloop) as Hs. cbv zeta in Hs.
  assert (forall r, at_ np r = at_ (counters (P i)) r + request_amount q r /\
    at_ na r = at_ (aggregate L) r + request_amount q r /\
    (request_amount q r <> 0 -> managed r = false /\ at_ np r <= per_peer (budget L r) /\ at_ na r <= b_aggregate (budget L r))) as Hs'.
  { intros r. specialize (Hs r). rewrite decide_True in Hs by apply elem_of_ALL. exact Hs. }
  clear Hs. set (t := mkToken _ _ _ _ _).
  assert (forall r, managed r = true -> request_amount q r = 0) as Hman.
  { intros r Hr. destruct (decide (request_amount q r = 0)) as [|Hne]; [done|].
    destruct (proj2 (proj2 (Hs' r)) Hne). congruence. }
  apply world_step; try done.
  - intros r. destruct (Hs' r) as (H1 & H2 & _). cbn. lia.
  - intros r. destruct (Hs' r) as (H1 & H2 & H3). pose proof (w_aggregate _ Hw r).
    destruct (decide (request_amount q r = 0)); [lia|]. by apply H3.
  - assert (held i t = true) as Hheld by (unfold held; cbn; by rewrite Hon).
    split; cbn [counters with_counters live_transactions active p_generation replay_len]; try apply Hp.
    + intros r. destruct (Hs' r) as (H1 & H2 & H3). pose proof (po_range _ _ _ _ _ Hp r). pose proof (Hq r).
      destruct (decide (request_amount q r = 0)); [lia|]. split; [lia|]. by apply H3.
    + intros r Hr. rewrite owed_snoc, Hheld, <-(po_owed _ _ _ _ _ Hp r Hr). apply Hs'.
    + rewrite (proj1 (Hs' _)), Hman, Z.add_0_r by done. apply Hp.
    + rewrite (proj1 (Hs' _)), Hman, Z.add_0_r by done. apply Hp.
    + rewrite Ha. done.
    + rewrite (proj1 (Hs' _)), Hman, Z.add_0_r by done. apply Hp.
    + destruct (po_replay _ _ _ _ _ Hp) as [xs []]. by exists xs.
    + intros t' [Ht| ->]%elem_of_snoc Hh; [by apply (po_tokens _ _ _ _ _ Hp)|]. by cbn.
  - intros j Hj. assert (held j t = false) as Hheld.
    { unfold held. cbn. destruct (on j peer) eqn:E; [|apply andb_false_r]. by destruct Hj; apply (on_unique _ _ peer). }
    apply (peer_ok_frame _ (tokens w) (txs w)); [apply (w_peers _ Hw)| |done| |done].
    + intros r. rewrite owed_snoc, Hheld. lia.
    + intros t' [Ht| ->]%elem_of_snoc Hh; [by exists t'|congruence].
  - apply Forall_app. split; [apply (w_tokens _ Hw)|]. constructor; [|done]. split; cbn; try done.
    + by apply request_is_empty_spec.
    + by exists i.
  - apply (w_txs _ Hw).
Qed.

(** A token that stays with its peer: published, or already released. *)
Lemma publish_ok k t t' :
  tokens w !! k = Some t -> publish L t = Ok t' -> world_ok (mkWorld L (<[k := t']> (tokens w)) (txs w)).
Proof.
  intros Hk H. unfold publish in H. apply res_bind_Ok in H as ([] & Hv & H).
  assert (t' = with_token_state t Published /\ t_state t = Reserved) as [-> Hst] by (destruct (t_state t); naive_solver).
  assert (forall j, held j (with_token_state t Published) = held j t) as Hheld
    by (intros j; unfold held, unreleased; cbn; by rewrite Hst).
  destruct Hw as [Hb Ht Hag Hps Htk Htx]. split; cbn [ledger tokens txs]; try done.
  - intros j. apply (peer_ok_frame _ (tokens w) (txs w)); [apply Hps| |done| |done].
    + intros r. rewrite (owed_insert j r _ _ _ _ Hk), Hheld. cbn. lia.
    + intros t0 [->|Hin]%elem_of_insert Hh; [|by exists t0]. exists t. split_conj; [|by rewrite <-Hheld|done].
      by eapply list_elem_of_lookup_2.
  - apply Forall_insert; [done|]. destruct (Forall_lookup_1 _ _ _ _ Htk Hk). by split.
Qed.

(** A token in the pool that was not released: its peer is alive in its generation. *)
Lemma token_valid k t :
  tokens w !! k = Some t -> unreleased t = true ->
  exists i, held i t = true /\ token_ok L t /\ validate_generation L (t_peer t) (t_generation t) = Ok i /\
    validate_reservation_token L t = Ok tt.
Proof.
  intros Hk Hu. pose proof (Forall_lookup_1 _ _ _ _ (w_tokens _ Hw) Hk) as Ht. pose proof Ht as [Hc _ _ _ [i Hi]]. exists i.
  assert (held i t = true) as Hh by (unfold held; by rewrite Hu, Hi).
  destruct (po_tokens _ _ _ _ _ (w_peers _ Hw i) t (list_elem_of_lookup_2 _ _ _ Hk) Hh) as [Ha Hg].
  assert (validate_generation L (t_peer t) (t_generation t) = Ok i) as Hv.
  { apply validate_generation_Ok. rewrite Hg. split_conj; try done. by apply (po_generation _ _ _ _ _ (w_peers _ Hw i)). }
  split_conj; try done. unfold validate_reservation_token. unfold unreleased in Hu. bool_prop.
  rewrite Hc, Z.eqb_refl, bool_decide_eq_false_2 by done. cbn [negb]. by rewrite Hv.
Qed.

Lemma release_ok k t :
  tokens w !! k = Some t -> unreleased t = true ->
  exists a', release L t = Ok (a', with_token_state t Released) /\
    world_ok (mkWorld a' (<[k := with_token_state t Released]> (tokens w)) (txs w)).
Proof.
  intros Hk Hu. destruct (token_valid k t Hk Hu) as (i & Hh & Ht & Hv & Hvt). unfold release. rewrite Hvt. cbn [res_bind].
  unfold unreleased in Hu. bool_prop. rewrite bool_decide_eq_false_2, Hv by done. cbn [res_bind].
  pose proof (w_peers _ Hw i) as Hp. pose proof Ht as [Hctl Hnn Hmz _ _].
  set (t' := with_token_state t Released). assert (forall j, held j t' = false) as Hheld' by done.
  assert (forall r, managed r = false -> 0 <= owed i r (<[k := t']> (tokens w))) as Howed.
  { intros r _. apply sum_nonneg, Forall_forall. intros x Hx. apply list_elem_of_fmap in Hx as (t0 & -> & H0).
    apply elem_of_insert in H0 as [->|H0]; [by rewrite Hheld'|]. case_match; [|done].
    by apply (proj1 (Forall_forall _ _) (w_tokens _ Hw) t0 H0). }
  assert (forall r, managed r = false -> at_ (counters (P i)) r = owed i r (<[k := t']> (tokens w)) + at_ (t_amounts t) r) as Hrel.
  { intros r Hr. rewrite (po_owed _ _ _ _ _ Hp r Hr), (owed_insert i r _ _ _ _ Hk), Hh, Hheld'. lia. }
  assert (forall r, at_ (t_amounts t) r <= at_ (counters (P i)) r) as Hle.
  { intros r. destruct (managed r) eqn:Hr.
    - rewrite Hmz by done. apply (po_range _ _ _ _ _ Hp).
    - rewrite Hrel by done. specialize (Howed r Hr). lia. }
  destruct (release_loop_spec (t_amounts t) ALL ALL_nodup (counters (P i)) (aggregate L)) as (np & na & -> & Hs).
  { intros r _. split; [apply Hle|]. rewrite (w_total _ Hw r). pose proof (total_nonneg w r i Hw). specialize (Hle r). lia. }
  cbn [res_bind]. eexists. split; [done|]. assert (forall r, at_ np r = at_ (counters (P i)) r - at_ (t_amounts t) r /\
    at_ na r = at_ (aggregate L) r - at_ (t_amounts t) r) as Hs'.
  { intros r. specialize (Hs r). rewrite decide_True in Hs by apply elem_of_ALL. exact Hs. }
  apply world_step; try done.
  - intros r. cbn [counters with_counters]. destruct (Hs' r) as [-> ->]. lia.
  - intros r. destruct (Hs' r) as [_ ->]. pose proof (w_aggregate _ Hw r). specialize (Hnn r). lia.
  - destruct (po_tokens _ _ _ _ _ Hp t (list_elem_of_lookup_2 _ _ _ Hk) Hh) as [Ha Hg].
    split; cbn [counters with_counters live_transactions active p_generation replay_len]; try apply Hp.
    + intros r. destruct (Hs' r) as [-> _]. pose proof (po_range _ _ _ _ _ Hp r). specialize (Hle r). specialize (Hnn r). lia.
    + intros r Hr. destruct (Hs' r) as [-> _]. rewrite Hrel by done. lia.
    + rewrite (proj1 (Hs' _)), Hmz, Z.sub_0_r by done. apply Hp.
    + rewrite (proj1 (Hs' _)), Hmz, Z.sub_0_r by done. apply Hp.
    + by rewrite Ha.
    + rewrite (proj1 (Hs' _)), Hmz, Z.sub_0_r by done. apply Hp.
    + destruct (po_replay _ _ _ _ _ Hp) as [xs []]. by exists xs.
    + intros t0 [->|H0]%elem_of_insert Hh0; [by rewrite Hheld' in Hh0|]. by apply (po_tokens _ _ _ _ _ Hp).
  - intros j Hj. assert (held j t = false) as Hne.
    { unfold held in *. destruct (on j (t_peer t)) eqn:E; [|apply andb_false_r]. apply andb_true_iff in Hh as [_ Hon].
      by destruct Hj; apply (on_unique _ _ (t_peer t)). }
    apply (peer_ok_frame _ (tokens w) (txs w)); [apply (w_peers _ Hw)| |done| |done].
    + intros r. rewrite (owed_insert j r _ _ _ _ Hk), Hne, Hheld'. lia.
    + intros t0 [->|H0]%elem_of_insert Hh0; [by rewrite Hheld' in Hh0|by exists t0].
  - apply Forall_insert; [apply (w_tokens _ Hw)|]. destruct Ht. by split.
  - apply (w_txs _ Hw).
Qed.

(** *** Transactions *)

Lemma begin_transaction_ok peer g id a' x :
  begin_transaction L peer g id = Ok (a', x) -> world_ok (mkWorld a' (tokens w) (txs w ++ [x])).
Proof.
  intros H. unfold begin_transaction in H. destruct (Z.eqb_spec id 0) as [|Hid]; [done|].
  apply res_bind_Ok in H as (i & Hi & H). apply validate_generation_Ok in Hi as (Hg & Hon & Ha & Hgen). cbv zeta in H.
  destruct (contains id _) eqn:Hdup; [done|]. apply res_bind_Ok in H as (rep & _ & H). destruct rep; [done|].
  apply res_bind_Ok in H as (slot & Hslot & H). apply res_bind_Ok in H as (mine & Hmine & H).
  apply res_bind_Ok in H as (all & Hall & H). injection H as <- <-.
  apply ok_or_Ok, position_Some in Hslot as (z & Hz & Hz0 & _). apply checked_admit_Ok in Hmine as (Hmine & _ & Hl1).
  apply checked_admit_Ok in Hall as (Hall & _ & Hl2). bool_prop. subst z. pose proof (w_peers _ Hw i) as Hp.
  set (x := mkTransaction _ _ _ _ _). assert (running i x = true) as Hrun by done.
  assert (id ∉ in_flight i (txs w)) as Hnin.
  { intros Hin. rewrite <-(po_live _ _ _ _ _ Hp) in Hin. apply elem_of_bfilter in Hin as [Hin _]. done. }
  apply world_step; try done.
  - intros r. cbn [counters with_counters with_live]. rewrite !at_put. destruct (decide _) as [<-|]; lia.
  - intros r. rewrite at_put. destruct (decide _) as [<-|]; [done|]. apply (w_aggregate _ Hw).
  - split; cbn [counters with_counters with_live live_transactions active p_generation replay_len]; try apply Hp;
      rewrite ?in_flight_snoc, ?Hrun.
    + intros r. rewrite at_put. destruct (decide _) as [<-|]; [|apply Hp]. pose proof (po_range _ _ _ _ _ Hp InFlightTransactions).
      cbn in *. lia.
    + intros r Hr. rewrite at_put_other by (by intros <-). by apply Hp.
    + rewrite length_insert. apply Hp.
    + rewrite nonzero_fill by done. rewrite (po_live _ _ _ _ _ Hp). apply Permutation_cons_append.
    + apply NoDup_app. split; [apply Hp|]. split; [|apply NoDup_singleton].
      intros y Hy ->%list_elem_of_singleton. done.
    + rewrite at_put_same, length_app, Hmine, (po_flight _ _ _ _ _ Hp). simpl. lia.
    + rewrite at_put_other by done. apply Hp.
    + by rewrite Ha.
    + rewrite at_put_other by done. apply Hp.
    + destruct (po_replay _ _ _ _ _ Hp) as [xs []]. by exists xs.
    + intros y [Hy| ->]%elem_of_snoc Hr; [by apply Hp|]. by cbn.
  - intros j Hj. assert (running j x = false) as Hne.
    { unfold running. cbn. destruct (on j peer) eqn:E; [|done]. by destruct Hj; apply (on_unique _ _ peer). }
    apply (peer_ok_frame _ (tokens w) (txs w)); [apply (w_peers _ Hw)|done| | |].
    + by rewrite in_flight_snoc, Hne, app_nil_r.
    + intros t Ht Hh. by exists t.
    + intros y [Hy| ->]%elem_of_snoc Hr; [done|congruence].
  - apply (w_tokens _ Hw).
  - apply Forall_app. split; [apply (w_txs _ Hw)|]. constructor; [|done]. by split; [|exists i].
Qed.

(** A transaction that is in flight is found in its peer's slots. *)
Lemma transaction_valid k x :
  txs w !! k = Some x -> x_active x = true ->
  exists i slot, running i x = true /\ validate_transaction_token L x = Ok i /\
    position (fun c => c =? x_id x) (live_transactions (P i)) = Some slot /\
    live_transactions (P i) !! slot = Some (x_id x) /\
    1 <= at_ (counters (P i)) InFlightTransactions /\ x_id x <> 0 /\ active (P i) = true.
Proof.
  intros Hk Hact. pose proof (Forall_lookup_1 _ _ _ _ (w_txs _ Hw) Hk) as [Hc [i Hi]].
  assert (running i x = true) as Hr by (unfold running; by rewrite Hact, Hi). pose proof (w_peers _ Hw i) as Hp.
  pose proof (list_elem_of_lookup_2 _ _ _ Hk) as Hin. destruct (po_txs _ _ _ _ _ Hp x Hin Hr) as (Ha & Hg & Hid).
  pose proof (elem_of_in_flight i _ _ Hin Hr) as Hfl.
  assert (1 <= at_ (counters (P i)) InFlightTransactions) as Hone.
  { rewrite (po_flight _ _ _ _ _ Hp). destruct (in_flight i (txs w)); [by apply elem_of_nil in Hfl|simpl; lia]. }
  rewrite <-(po_live _ _ _ _ _ Hp) in Hfl. apply elem_of_bfilter in Hfl as [Hfl _].
  destruct (position (fun c => c =? x_id x) (live_transactions (P i))) as [slot|] eqn:Hs.
  - exists i, slot. apply position_Some in Hs as Hs'. destruct Hs' as (y & Hy & Heq & _). bool_prop. subst y.
    split_conj; try done. unfold validate_transaction_token. rewrite Hc, Z.eqb_refl, Hact. cbn [negb].
    apply validate_generation_Ok. rewrite Hg. split_conj; try done. by apply (po_generation _ _ _ _ _ Hp).
  - apply position_None in Hs. rewrite Forall_forall in Hs. specialize (Hs _ Hfl). cbn in Hs. by rewrite Z.eqb_refl in Hs.
Qed.

(** A transaction leaves its slot: what its peer must look like afterwards. *)
Lemma transaction_ends k x i slot p :
  txs w !! k = Some x -> running i x = true -> live_transactions (P i) !! slot = Some (x_id x) ->
  x_id x <> 0 -> active p = active (P i) -> p_generation p = p_generation (P i) -> active (P i) = true ->
  live_transactions p = <[slot := 0]> (live_transactions (P i)) ->
  (forall r, 0 <= at_ (counters p) r <= per_peer (budget L r)) ->
  at_ (counters p) InFlightTransactions = at_ (counters (P i)) InFlightTransactions - 1 ->
  (forall r, managed r = false \/ r = LiveProcessGenerations -> at_ (counters p) r = at_ (counters (P i)) r) ->
  at_ (counters p) CompletedReplayEntries = replay_len p ->
  (exists xs, replay_ok (per_peer (budget L CompletedReplayEntries)) p xs) ->
  (forall j, j <> i -> peer_ok (budgets L) (tokens w) (<[k := deactivate x]> (txs w)) j (P j)) /\
  peer_ok (budgets L) (tokens w) (<[k := deactivate x]> (txs w)) i p.
Proof.
  intros Hk Hr Hslot Hid Ha Hg Hact Hl Hrange Hfl Hsame Hwin Hrep. pose proof (w_peers _ Hw i) as Hp.
  assert (forall j, running j (deactivate x) = false) as Hoff by done.
  pose proof (in_flight_stop i _ _ _ _ Hk Hr (Hoff i)) as Hperm. split.
  - intros j Hj. assert (running j x = false) as Hne.
    { unfold running in *. apply andb_true_iff in Hr as [_ Hon]. destruct (on j (x_peer x)) eqn:E; [|apply andb_false_r].
      by destruct Hj; apply (on_unique _ _ (x_peer x)). }
    apply (peer_ok_frame _ (tokens w) (txs w)); [apply (w_peers _ Hw)|done| | |].
    + by rewrite (in_flight_other j _ _ _ _ Hk Hne).
    + intros t Ht Hh. by exists t.
    + intros y [->|Hy]%elem_of_insert Hy'; [by rewrite Hoff in Hy'|done].
  - pose proof (po_nodup _ _ _ _ _ Hp) as Hnd. rewrite Hperm in Hnd. apply NoDup_cons in Hnd as [_ Hnd].
    split; rewrite ?Ha, ?Hg, ?Hl; try done.
    + intros r Hm. rewrite Hsame by (by left). by apply Hp.
    + rewrite length_insert. apply Hp.
    + apply (Permutation_cons_inv (a := x_id x)). rewrite <-nonzero_clear by done. by rewrite (po_live _ _ _ _ _ Hp).
    + rewrite Hfl, (po_flight _ _ _ _ _ Hp), Hperm. simpl. lia.
    + rewrite Hsame by (by right). apply Hp.
    + apply Hp.
    + by rewrite Hact.
    + intros t Ht Hh. by apply Hp.
    + intros y [->|Hy]%elem_of_insert Hy'; [by rewrite Hoff in Hy'|]. by apply Hp.
Qed.

Lemma aggregate_covers r i : at_ (counters (P i)) r <= at_ (aggregate L) r.
Proof. rewrite (w_total _ Hw r). apply (total_nonneg w r i Hw). Qed.

Lemma transaction_kept k x :
  txs w !! k = Some x -> Forall (transaction_ok L) (<[k := deactivate x]> (txs w)).
Proof.
  intros Hk. apply Forall_insert; [apply (w_txs _ Hw)|].
  destruct (Forall_lookup_1 _ _ _ _ (w_txs _ Hw) Hk). by split.
Qed.

Lemma abort_ok k x :
  txs w !! k = Some x -> x_active x = true ->
  exists a', abort_transaction L x = Ok (a', deactivate x) /\
    world_ok (mkWorld a' (tokens w) (<[k := deactivate x]> (txs w))).
Proof.
  intros Hk Hact. destruct (transaction_valid k x Hk Hact) as (i & slot & Hr & Hv & Hpos & Hslot & Hone & Hid & Ha).
  pose proof (aggregate_covers InFlightTransactions i). pose proof (w_peers _ Hw i) as Hp.
  unfold abort_transaction. rewrite Hv. cbn [res_bind]. rewrite Hpos. cbn [ok_or res_bind].
  rewrite (proj2 (checked_sub_Some (at_ (counters (P i)) InFlightTransactions) 1 _)) by done.
  rewrite (proj2 (checked_sub_Some (at_ (aggregate L) InFlightTransactions) 1 _)) by (split; [done|lia]).
  cbn [ok_or res_bind]. eexists. split; [done|]. set (p := with_counters _ _).
  destruct (transaction_ends k x i slot p) as [Hothers Hmine]; try done; unfold p; cbn [counters with_counters with_live].
  - intros r. unfold budget. rewrite at_put. destruct (decide _) as [<-|]; [|apply Hp].
    pose proof (po_range _ _ _ _ _ Hp InFlightTransactions). lia.
  - by rewrite at_put_same.
  - intros r Hr'. rewrite at_put_other; [done|]. intros <-. naive_solver.
  - rewrite at_put_other by done. apply Hp.
  - destruct (po_replay _ _ _ _ _ Hp) as [xs []]. by exists xs.
  - apply world_step; try done; [..|apply (w_tokens _ Hw)|by apply transaction_kept].
    + intros r. cbn [counters with_counters with_live]. rewrite !at_put. destruct (decide _) as [<-|]; lia.
    + intros r. rewrite at_put. pose proof (w_aggregate _ Hw r). destruct (decide _) as [<-|]; lia.
Qed.

(** Admission of one more completed transaction to the replay window: the
    peer's share always suffices, the total may not. *)
Lemma replay_admission i :
  let R := CompletedReplayEntries in
  let cap := per_peer (budget L R) in
  let more := if replay_len (P i) <? cap then 1 else 0 in
  1 <= cap <= 8 /\ 0 <= replay_len (P i) <= cap /\ at_ (counters (P i)) R = replay_len (P i) /\
  (if replay_len (P i) <? cap then checked_admit (at_ (counters (P i)) R) 1 cap (PerPeerLimit R)
   else Ok (at_ (counters (P i)) R)) = Ok (replay_len (P i) + more) /\
  let admitted :=
    if replay_len (P i) <? cap then checked_admit (at_ (aggregate L) R) 1 (b_aggregate (budget L R)) (AggregateLimit R)
    else Ok (at_ (aggregate L) R) in
  (admitted = Err (AggregateLimit R) \/
   admitted = Ok (at_ (aggregate L) R + more) /\ at_ (aggregate L) R + more <= b_aggregate (budget L R)).
Proof.
  cbv zeta. pose proof (w_peers _ Hw i) as Hp. pose proof (w_budgets _ Hw) as Hb.
  pose proof (bo_positive _ Hb CompletedReplayEntries) as Hpos. pose proof (bo_replay _ Hb) as Hcap.
  pose proof (bo_aggregate _ Hb CompletedReplayEntries) as Hag. pose proof (w_aggregate _ Hw CompletedReplayEntries) as Hlim.
  destruct (po_replay _ _ _ _ _ Hp) as [xs [_ Hlen _ _]]. pose proof (po_window _ _ _ _ _ Hp) as Hwin.
  change (budgets L !!! index CompletedReplayEntries) with (budget L CompletedReplayEntries) in *. rewrite Hwin.
  set (cap := per_peer (budget L CompletedReplayEntries)) in *. split_conj; [lia..|done| |].
  - destruct (Z.ltb_spec (replay_len (P i)) cap); [apply checked_admit_Ok; lia|f_equal; lia].
  - destruct (Z.ltb_spec (replay_len (P i)) cap); [|right; split; [f_equal; lia|lia]].
    destruct (decide (at_ (aggregate L) CompletedReplayEntries + 1 <= b_aggregate (budget L CompletedReplayEntries))) as [Hle|Hgt].
    + right. split; [|done]. apply checked_admit_Ok. lia.
    + left. unfold checked_admit. rewrite checked_add_u64_ok by lia. cbn [ok_or res_bind].
      by match goal with |- context [?x >? ?y] => destruct (Z.gtb_spec x y); [|lia] end.
Qed.

Lemma complete_ok k x :
  txs w !! k = Some x -> x_active x = true ->
  complete_transaction L x = Err (AggregateLimit CompletedReplayEntries) \/
  exists a', complete_transaction L x = Ok (a', deactivate x) /\
    world_ok (mkWorld a' (tokens w) (<[k := deactivate x]> (txs w))).
Proof.
  intros Hk Hact. destruct (transaction_valid k x Hk Hact) as (i & slot & Hr & Hv & Hpos & Hslot & Hone & Hid & Ha).
  pose proof (aggregate_covers InFlightTransactions i). pose proof (w_peers _ Hw i) as Hp.
  destruct (po_replay _ _ _ _ _ Hp) as [xs Hrep]. pose proof Hrep as [Hsize _ Hnext _].
  destruct (replay_admission i) as (Hcap & Hlen & Hwin & Hmine & Htot). unfold complete_transaction.
  change (budgets L !!! index CompletedReplayEntries) with (budget L CompletedReplayEntries) in *.
  rewrite Hv. cbn [res_bind]. rewrite Hpos. cbn [ok_or res_bind]. rewrite Hmine. cbn [res_bind].
  destruct Htot as [->|[-> Hlim]]; [by left|]. right. cbn [res_bind].
  rewrite (proj2 (checked_sub_Some (at_ (counters (P i)) InFlightTransactions) 1 _)) by done.
  rewrite (proj2 (checked_sub_Some (at_ (aggregate L) InFlightTransactions) 1 _)) by (split; [done|lia]).
  set (cap := per_peer (budget L CompletedReplayEntries)) in *. set (grows := replay_len (P i) <? cap) in *.
  pose proof (Z.mod_pos_bound (len xs) cap ltac:(lia)).
  cbn [ok_or res_bind]. rewrite (proj2 (Z.ltb_lt _ _)) by lia. rewrite (proj2 (Z.eqb_neq cap 0)) by lia. cbn [negb].
  assert ((if grows then or_panic (checked_add (2 ^ 8) (replay_len (P i)) 1) else Ok (replay_len (P i))) =
    @Ok AccountingError _ (if grows then replay_len (P i) + 1 else replay_len (P i))) as ->.
  { destruct grows; [|done]. by rewrite (proj2 (checked_add_Some _ _ _ (replay_len (P i) + 1))) by lia. }
  cbn [res_bind]. eexists. split; [done|]. set (p := mkPeer _ _ _ _ _ _ _ _ _ _).
  assert (replay_ok cap p (xs ++ [x_id x])) as Hrep' by (by apply (replay_push cap (P i) p xs (x_id x)); [lia|..]).
  destruct (transaction_ends k x i slot p) as [Hothers Hself]; try done; unfold p; cbn [counters replay_len].
  - intros r. rewrite !at_put. pose proof (po_range _ _ _ _ _ Hp r) as Hrng.
    change (budgets L !!! index r) with (budget L r) in Hrng.
    destruct (decide _) as [<-|]; [|destruct (decide _) as [<-|]; [lia|done]]. fold cap.
    unfold grows. destruct (Z.ltb_spec (replay_len (P i)) cap); lia.
  - by rewrite at_put_other, at_put_same.
  - intros r Hr'. rewrite !at_put_other; [done|..]; intros <-; naive_solver.
  - rewrite at_put_same. destruct grows; lia.
  - by exists (xs ++ [x_id x]).
  - apply world_step; try done; [..|apply (w_tokens _ Hw)|by apply transaction_kept].
    + intros r. cbn [counters]. rewrite !at_put. destruct (decide _) as [<-|]; [lia|]. destruct (decide _) as [<-|]; lia.
    + intros r. rewrite !at_put. pose proof (w_aggregate _ Hw r). destruct (decide _) as [<-|]; [done|].
      destruct (decide _) as [<-|]; lia.
Qed.

(** *** Restart history and retirement *)

Lemma record_ok peer g record a' :
  record_restart_history L peer g record = Ok a' -> world_ok (mkWorld a' (tokens w) (txs w)).
Proof.
  intros H. unfold record_restart_history in H. apply res_bind_Ok in H as (i & Hi & H).
  apply validate_generation_Ok in Hi as (Hg & Hon & Ha & Hgen). cbv zeta in H. apply res_bind_Ok in H as (n & _ & H).
  destruct (_ || _); [done|]. apply res_bind_Ok in H as (mine & Hmine & H). apply res_bind_Ok in H as (all & Hall & H).
  injection H as <-. apply checked_admit_Ok in Hmine as (Hmine & _ & Hl1). apply checked_admit_Ok in Hall as (Hall & _ & Hl2).
  pose proof (w_peers _ Hw i) as Hp.
  apply world_step; try done; [| | |intros; apply (w_peers _ Hw)|apply (w_tokens _ Hw)|apply (w_txs _ Hw)].
  - intros r. cbn [counters]. rewrite !at_put. destruct (decide _) as [<-|]; lia.
  - intros r. rewrite at_put. destruct (decide _) as [<-|]; [done|]. apply (w_aggregate _ Hw).
  - assert (peer_ok (budgets L) (tokens w) (txs w) i
      (with_counters (P i) (put (counters (P i)) RestartHistoryRecords mine))) as [? ? ? ? ? ? ? ? ? ? [xs []] ? ?].
    { apply peer_ok_counters; try done.
      - intros r. rewrite at_put. destruct (decide _) as [<-|]; [|apply Hp].
        pose proof (po_range _ _ _ _ _ Hp RestartHistoryRecords). unfold budget in *. lia.
      - intros r Hr. rewrite at_put_other; [done|]. by intros <-.
      - intros r _ Hr. by rewrite at_put_other. }
    split; try done. by exists xs.
Qed.

Lemma outstanding_spec c rs u r :
  outstanding_loop c rs = Ok u -> r ∈ rs -> retained r = false -> at_ c r = 0.
Proof.
  induction rs as [|r0 rs IH]; intros H Hin Hr; [by apply elem_of_nil in Hin|]. cbn in H.
  destruct (negb (retained r0) && negb (at_ c r0 =? 0)) eqn:E; [done|].
  apply elem_of_cons in Hin as [->|Hin]; [|by apply IH]. rewrite Hr in E. cbn in E. bool_prop. done.
Qed.

Lemma retire_loop_spec am rs : NoDup rs -> forall na,
  (forall r, r ∈ rs -> at_ am r <= at_ na r) ->
  exists na', retire_loop am rs na = Ok na' /\
  forall r, at_ na' r = at_ na r - if decide (r ∈ rs /\ r <> RestartHistoryRecords) then at_ am r else 0.
Proof.
  induction 1 as [|r0 rs Hnin Hnd IH]; intros na Hle; cbn [retire_loop].
  { exists na. split; [done|]. intros r. rewrite decide_False by (intros [Hr _]; by apply elem_of_nil in Hr). lia. }
  destruct (bool_decide_reflect (r0 = RestartHistoryRecords)) as [->|Hne].
  - destruct (IH na) as (na' & -> & Hs); [intros; apply Hle; by right|]. exists na'. split; [done|]. intros r. rewrite Hs.
    f_equal. f_equal. apply decide_ext. rewrite elem_of_cons. naive_solver.
  - rewrite (proj2 (checked_sub_Some (at_ na r0) (at_ am r0) _)) by (split; [done|apply Hle; by left]). cbn [ok_or res_bind].
    destruct (IH (put na r0 (at_ na r0 - at_ am r0))) as (na' & -> & Hs).
    { intros r Hr. rewrite at_put_other by (by intros ->). apply Hle. by right. }
    exists na'. split; [done|]. intros r. rewrite Hs, at_put. destruct (decide (r0 = r)) as [<-|Hn].
    + rewrite decide_False, decide_True; [lia|by split; [left|]|by intros [? _]].
    + f_equal. rewrite (decide_ext (r ∈ rs /\ _) (r ∈ r0 :: rs /\ r <> RestartHistoryRecords)); [done|].
      rewrite elem_of_cons. naive_solver.
Qed.

(** Without anything owed, no token of the peer is unreleased. *)
Lemma none_held i t :
  (forall r, managed r = false -> at_ (counters (P i)) r = 0) -> t ∈ tokens w -> held i t = false.
Proof.
  intros Hz Ht. destruct (held i t) eqn:Hh; [|done]. exfalso. pose proof (w_tokens _ Hw) as Hall. rewrite Forall_forall in Hall.
  destruct (Hall t Ht) as [_ Hnn Hmz [r Hr] _]. destruct (managed r) eqn:Hman; [by rewrite Hmz in Hr|].
  specialize (Hz r Hman). rewrite (po_owed _ _ _ _ _ (w_peers _ Hw i) r Hman) in Hz. apply Hr.
  assert (Forall (fun x => x = 0) (map (fun t => if held i t then at_ (t_amounts t) r else 0) (tokens w))) as H.
  { apply sum_zero; [|done]. apply Forall_forall. intros x Hx. apply list_elem_of_fmap in Hx as (t0 & -> & H0).
    case_match; [by apply Hall|done]. }
  rewrite Forall_forall in H. apply H, list_elem_of_fmap. exists t. by rewrite Hh.
Qed.

Lemma retire_ok peer g i :
  validate_generation L peer g = Ok i ->
  (forall r, retained r = false -> at_ (counters (P i)) r = 0) ->
  exists na, retire_loop (put (counters (P i)) RestartHistoryRecords 0) ALL (aggregate L) = Ok na /\
  let history := at_ (counters (P i)) RestartHistoryRecords in
  world_ok (mkWorld (commit L i (mkPeer false (p_generation (P i)) (put zeros RestartHistoryRecords history)
      (replicate MAX_LIVE_TRANSACTIONS_PER_PEER 0) (replicate MAX_REPLAY_ENTRIES_PER_PEER 0) 0 0
      (last_history_generation (P i)) 0 false) na) (tokens w) (txs w)).
Proof.
  intros Hi Hz. apply validate_generation_Ok in Hi as (Hg & Hon & Ha & Hgen). pose proof (w_peers _ Hw i) as Hp.
  assert (forall r, managed r = false -> at_ (counters (P i)) r = 0) as Hfree by (intros [] ?; try done; by apply Hz).
  assert (in_flight i (txs w) = []) as Hnone.
  { pose proof (po_flight _ _ _ _ _ Hp) as Hf. rewrite Hz in Hf by done. by destruct (in_flight i (txs w)). }
  destruct (retire_loop_spec (put (counters (P i)) RestartHistoryRecords 0) ALL ALL_nodup (aggregate L)) as (na & -> & Hs).
  { intros r _. rewrite at_put. pose proof (aggregate_covers r i). pose proof (po_range _ _ _ _ _ Hp r). destruct (decide _); lia. }
  exists na. split; [done|]. cbv zeta. set (c := put zeros _ _).
  assert (forall r, at_ na r = at_ (aggregate L) r - at_ (counters (P i)) r + at_ c r) as Hna.
  { intros r. rewrite Hs. unfold c. rewrite !at_put, at_zeros. destruct (decide (RestartHistoryRecords = r)) as [<-|Hne].
    - rewrite decide_False by tauto. lia.
    - rewrite decide_True by (split; [apply elem_of_ALL|congruence]). lia. }
  assert (forall r, r <> RestartHistoryRecords -> at_ c r = 0) as Hc0
    by (intros r Hr; unfold c; by rewrite at_put_other, at_zeros by congruence).
  assert (forall r, 0 <= at_ c r <= at_ (counters (P i)) r) as Hcr.
  { intros r. pose proof (po_range _ _ _ _ _ Hp r). destruct (decide (r = RestartHistoryRecords)) as [->|]; [|rewrite Hc0 by done; lia].
    unfold c. rewrite at_put_same. lia. }
  apply world_step; try done; [| |intros; apply (w_peers _ Hw)|apply (w_tokens _ Hw)|apply (w_txs _ Hw)].
  - intros r. rewrite Hna. pose proof (w_aggregate _ Hw r). specialize (Hcr r). lia.
  - split; cbn [counters active live_transactions replay replay_len p_generation]; rewrite ?Hnone; try done.
    + intros r. pose proof (po_range _ _ _ _ _ Hp r). specialize (Hcr r). lia.
    + intros r Hr. rewrite Hc0 by (by intros ->). rewrite <-(po_owed _ _ _ _ _ Hp r Hr). by rewrite Hfree.
    + constructor.
    + split; [apply Hp|done].
    + exists []. apply replay_new; try done. apply (bo_positive _ (w_budgets _ Hw) CompletedReplayEntries).
    + intros t Ht Hh. by rewrite (none_held i t Hfree Ht) in Hh.
    + intros x Hx Hr. pose proof (elem_of_in_flight i (txs w) x Hx Hr) as Hin. rewrite Hnone in Hin. by apply elem_of_nil in Hin.
Qed.

Lemma finish_ok peer i :
  on i peer = true -> active (P i) = false ->
  exists a' n, finish_restart_episode L peer = Ok (a', n) /\ world_ok (mkWorld a' (tokens w) (txs w)).
Proof.
  intros Hon Ha. pose proof (w_peers _ Hw i) as Hp. unfold finish_restart_episode.
  rewrite (proj2 (peer_index_Ok peer i) Hon). cbn [res_bind]. rewrite Ha. pose proof (aggregate_covers RestartHistoryRecords i).
  rewrite (proj2 (checked_sub_Some (at_ (aggregate L) RestartHistoryRecords) _ _)) by (split; [done|lia]).
  cbn [ok_or res_bind]. eexists _, _. split; [done|]. rewrite <-Ha.
  pose proof (po_range _ _ _ _ _ Hp RestartHistoryRecords).
  apply world_step; try done; [| | |intros; apply (w_peers _ Hw)|apply (w_tokens _ Hw)|apply (w_txs _ Hw)].
  - intros r. cbn [counters]. rewrite !at_put. destruct (decide _) as [<-|]; lia.
  - intros r. rewrite at_put. pose proof (w_aggregate _ Hw r). destruct (decide _) as [<-|]; lia.
  - split; cbn [counters active live_transactions replay replay_len p_generation]; try apply Hp.
    + intros r. rewrite at_put. destruct (decide _) as [<-|]; [|apply Hp].
      pose proof (bo_positive _ (w_budgets _ Hw) RestartHistoryRecords). lia.
    + intros r Hr. rewrite at_put_other by (by intros <-). by apply Hp.
    + rewrite at_put_other by done. apply Hp.
    + rewrite at_put_other by done. apply Hp.
    + intros Hi r Hr. rewrite at_put_other by congruence. by apply Hp.
    + rewrite at_put_other by done. apply Hp.
    + destruct (po_replay _ _ _ _ _ Hp) as [xs []]. by exists xs.
Qed.
End operations.

(** ** Runs *)

Inductive Op :=
| BeginGeneration (peer generation : Z)
| Reserve (peer generation : Z) (request : ReservationRequest)
| Publish (k : nat)
| Release (k : nat)
| BeginTransaction (peer generation transaction : Z)
| CompleteTransaction (k : nat)
| AbortTransaction (k : nat)
| RecordHistory (peer generation : Z) (record : Restart.AttemptRecord)
| Retire (peer generation : Z)
| FinishEpisode (peer : Z).

(** An operation on the ledger; tokens are named by their place in the pool. *)
Definition step (w : World) (op : Op) : res AccountingError World :=
  match op with
  | BeginGeneration p g => let! a := begin_generation (ledger w) p g in Ok (mkWorld a (tokens w) (txs w))
  | Reserve p g q => let! '(a, t) := reserve (ledger w) p g q in Ok (mkWorld a (tokens w ++ [t]) (txs w))
  | Publish k =>
      match tokens w !! k with
      | Some t => let! t := publish (ledger w) t in Ok (mkWorld (ledger w) (<[k := t]> (tokens w)) (txs w))
      | None => Ok w
      end
  | Release k =>
      match tokens w !! k with
      | Some t => let! '(a, t) := release (ledger w) t in Ok (mkWorld a (<[k := t]> (tokens w)) (txs w))
      | None => Ok w
      end
  | BeginTransaction p g id => let! '(a, x) := begin_transaction (ledger w) p g id in Ok (mkWorld a (tokens w) (txs w ++ [x]))
  | CompleteTransaction k =>
      match txs w !! k with
      | Some x => let! '(a, x) := complete_transaction (ledger w) x in Ok (mkWorld a (tokens w) (<[k := x]> (txs w)))
      | None => Ok w
      end
  | AbortTransaction k =>
      match txs w !! k with
      | Some x => let! '(a, x) := abort_transaction (ledger w) x in Ok (mkWorld a (tokens w) (<[k := x]> (txs w)))
      | None => Ok w
      end
  | RecordHistory p g r => let! a := record_restart_history (ledger w) p g r in Ok (mkWorld a (tokens w) (txs w))
  | Retire p g => let! '(a, _) := retire_generation (ledger w) p g in Ok (mkWorld a (tokens w) (txs w))
  | FinishEpisode p => let! '(a, _) := finish_restart_episode (ledger w) p in Ok (mkWorld a (tokens w) (txs w))
  end.

(** Generations and amounts are unsigned. *)
Definition op_ok (op : Op) : Prop :=
  match op with
  | BeginGeneration _ g => 0 <= g
  | Reserve _ _ q => request_ok q
  | _ => True
  end.

Definition keeps (c : res AccountingError World) : Prop :=
  match c with Ok w => world_ok w | Err _ => True | Panic => False end.

Lemma peer_index_np peer : peer_index peer <> Panic.
Proof. unfold peer_index. by case_match. Qed.
Lemma validate_np a peer g : validate_generation a peer g <> Panic.
Proof.
  unfold validate_generation. case_match; [done|]. apply res_bind_not_panic; [apply peer_index_np|]. intros. by repeat case_match.
Qed.

Lemma holds_bind {A} (c : res AccountingError A) k :
  c <> Panic -> (forall a, c = Ok a -> keeps (k a)) -> keeps (res_bind c k).
Proof. destruct c; naive_solver. Qed.

Lemma reserve_loop_np a q rs : forall np na, reserve_loop a q rs np na <> Panic.
Proof.
  induction rs as [|r rs IH]; intros np na; cbn [reserve_loop]; [done|]. repeat (case_match; try done).
  apply res_bind_not_panic; [apply admits_np|]. intros. apply res_bind_not_panic; [apply admits_np|]. intros. apply IH.
Qed.

Lemma outstanding_np c rs : outstanding_loop c rs <> Panic.
Proof. induction rs; cbn; [done|]. by case_match. Qed.

Lemma step_keeps w op : world_ok w -> op_ok op -> keeps (step w op).
Proof.
  intros Hw Hop. destruct op as [p g|p g q|k|k|p g id|k|k|p g r|p g|p]; cbn [step].
  - apply holds_bind; [|intros a Ha; by eapply begin_generation_ok]. unfold begin_generation. case_match; [done|].
    apply res_bind_not_panic; [apply peer_index_np|]. intros i _. repeat (case_match; [done|]).
    apply res_bind_not_panic; [apply admits_np|done].
  - apply holds_bind; [|intros [a t] Ha; by eapply reserve_ok]. unfold reserve. case_match; [done|].
    apply res_bind_not_panic; [apply validate_np|]. intros i _. apply res_bind_not_panic; [apply reserve_loop_np|by intros []].
  - destruct (tokens w !! k) as [t|] eqn:Hk; [|done]. apply holds_bind; [|intros t' Ht'; by eapply publish_ok].
    unfold publish. apply res_bind_not_panic; [|intros; by case_match]. unfold validate_reservation_token.
    repeat (case_match; [done|]). apply res_bind_not_panic; [apply validate_np|done].
  - destruct (tokens w !! k) as [t|] eqn:Hk; [|done]. destruct (unreleased t) eqn:Hu.
    + by destruct (release_ok w Hw k t Hk Hu) as (a' & -> & ?).
    + unfold unreleased in Hu. apply bool_decide_eq_false, dec_stable in Hu. unfold release, validate_reservation_token.
      case_match; [done|]. by rewrite bool_decide_eq_true_2.
  - apply holds_bind; [|intros [a x] Ha; by eapply begin_transaction_ok]. unfold begin_transaction. case_match; [done|].
    apply res_bind_not_panic; [apply validate_np|]. intros i _. case_match; [done|]. apply res_bind_not_panic.
    + destruct (po_replay _ _ _ _ _ (w_peers _ Hw i)) as [xs [Hs Hl _ _]]. unfold replay_contains.
      pose proof (bo_replay _ (w_budgets _ Hw)). by rewrite (proj2 (Z.leb_le _ _)) by lia.
    + intros b _. case_match; [done|]. apply res_bind_not_panic; [apply ok_or_not_panic|]. intros s _.
      apply res_bind_not_panic; [apply admits_np|]. intros. apply res_bind_not_panic; [apply admits_np|done].
  - destruct (txs w !! k) as [x|] eqn:Hk; [|done]. destruct (x_active x) eqn:Hx.
    + destruct (complete_ok w Hw k x Hk Hx) as [->|(a' & -> & ?)]; done.
    + unfold complete_transaction, validate_transaction_token. case_match; [done|]. by rewrite Hx.
  - destruct (txs w !! k) as [x|] eqn:Hk; [|done]. destruct (x_active x) eqn:Hx.
    + by destruct (abort_ok w Hw k x Hk Hx) as (a' & -> & ?).
    + unfold abort_transaction, validate_transaction_token. case_match; [done|]. by rewrite Hx.
  - apply holds_bind; [|intros a Ha; by eapply record_ok]. unfold record_restart_history.
    apply res_bind_not_panic; [apply validate_np|]. intros i _. apply res_bind_not_panic; [apply ok_or_not_panic|]. intros n _.
    case_match; [done|]. apply res_bind_not_panic; [apply admits_np|]. intros. by apply res_bind_not_panic; [apply admits_np|].
  - unfold retire_generation. destruct (validate_generation (ledger w) p g) as [i|e|] eqn:Hv; [|done|by apply validate_np in Hv].
    cbn [res_bind]. repeat (case_match; [done|]). destruct (outstanding_loop _ ALL) as [u|e|] eqn:Ho; [|done|by apply outstanding_np in Ho].
    cbn [res_bind]. destruct (retire_ok w Hw p g i Hv) as (na & -> & ?); [|done].
    intros r Hr. eapply outstanding_spec; [done|apply elem_of_ALL|done].
  - unfold finish_restart_episode. destruct (peer_index p) as [i|e|] eqn:Hi; [|done|by apply peer_index_np in Hi]. cbn [res_bind].
    destruct (active (peer_at (ledger w) i)) eqn:Ha; [done|]. apply peer_index_Ok in Hi.
    destruct (finish_ok w Hw p i Hi Ha) as (a' & n & Hf & Hok). unfold finish_restart_episode in Hf.
    rewrite (proj2 (peer_index_Ok p i) Hi) in Hf. cbn [res_bind] in Hf. rewrite Ha in Hf. by rewrite Hf.
Qed.

(** A ledger of valid budgets, then any operations; one that fails changes nothing. *)
Inductive reachable (b : vec ResourceBudget COUNT) : World -> Prop :=
| reachable_new n a n' :
    (forall r, 0 <= per_peer (b !!! index r)) -> with_budgets n b = Ok (a, n') -> reachable b (mkWorld a [] [])
| reachable_step w op w' : reachable b w -> op_ok op -> step w op = Ok w' -> reachable b w'.

Lemma budgets_checked (b : vec ResourceBudget COUNT) r :
  existsb id (imap budget_invalid b) = false -> budget_invalid (fin_to_nat (index r)) (b !!! index r) = false.
Proof.
  intros H. destruct (budget_invalid _ _) eqn:E; [|done]. rewrite <-H. symmetry. apply existsb_exists. exists true. split; [|done].
  apply list_elem_of_In, list_elem_of_lookup. exists (fin_to_nat (index r)). rewrite list_lookup_imap.
  by rewrite (proj1 (vlookup_lookup b (index r) _) eq_refl), <-E.
Qed.

Lemma new_ok n b a n' :
  (forall r, 0 <= per_peer (b !!! index r)) -> with_budgets n b = Ok (a, n') -> world_ok (mkWorld a [] []).
Proof.
  intros Hu H. unfold with_budgets in H. destruct (existsb _ _) eqn:Hb; [done|]. cbv zeta in H.
  destruct (_ || _) eqn:Hlim; [done|]. apply res_bind_Ok in H as ([c n1] & Hc & H). injection H as <- <-. bool_prop.
  assert (budgets_ok b) as Hbo.
  { assert (forall r, 1 <= per_peer (b !!! index r) <= b_aggregate (b !!! index r) /\
      b_aggregate (b !!! index r) <= 4 * per_peer (b !!! index r)) as Hr.
    { intros r. pose proof (budgets_checked b r Hb) as Hr. specialize (Hu r).
      unfold budget_invalid, saturating_mul_u64, MAX_ACCOUNTED_PEERS in Hr. bool_prop. lia. }
    unfold MAX_LIVE_TRANSACTIONS_PER_PEER, MAX_REPLAY_ENTRIES_PER_PEER in *. split; [intros r; apply Hr..|done|lia|lia]. }
  assert (forall r, total (mkAccounting c b (vreplicate MAX_ACCOUNTED_PEERS peer_new) zeros) r = 0) as Htot.
  { intros r. unfold total. cbn [peers]. change (vec_to_list _) with (replicate MAX_ACCOUNTED_PEERS peer_new).
    cbn [replicate MAX_ACCOUNTED_PEERS map sum counters peer_new]. by rewrite !at_zeros. }
  split; cbn [ledger tokens txs budgets aggregate]; try done.
  - intros r. rewrite Htot. apply at_zeros.
  - intros r. rewrite at_zeros. unfold budget. cbn. pose proof (bo_positive _ Hbo r). lia.
  - intros i. match goal with |- peer_ok _ _ _ _ ?p => assert (p = peer_new) as -> by apply (vlookup_replicate MAX_ACCOUNTED_PEERS) end.
    split; cbn [counters peer_new active live_transactions p_generation replay_len]; rewrite ?at_zeros; try done.
    + intros r. rewrite at_zeros. pose proof (bo_positive _ Hbo r). lia.
    + intros r _. apply at_zeros.
    + constructor.
    + intros _ r _. apply at_zeros.
    + exists []. apply replay_new; try done. apply (bo_positive _ Hbo CompletedReplayEntries).
    + intros t Ht. by apply elem_of_nil in Ht.
    + intros t Ht. by apply elem_of_nil in Ht.
Qed.

(** Every operation ends by writing one peer and the totals. *)
Definition one_peer (a a' : ReadinessAccounting) : Prop := a' = a \/ exists i p c, a' = commit a i p c.

Lemma step_one_peer w op w' : step w op = Ok w' -> one_peer (ledger w) (ledger w').
Proof.
  intros H. destruct op; cbn [step] in H; try case_match; res_inv; repeat case_match; res_inv; subst; cbn [ledger]; try (by left);
    match goal with H : _ = Ok _ |- _ => revert H end;
    unfold begin_generation, reserve, release, begin_transaction, complete_transaction, abort_transaction,
      record_restart_history, retire_generation, finish_restart_episode;
    intros; repeat (res_inv; subst; repeat case_match; simplify_eq); right; by eexists _, _, _.
Qed.

Lemma reachable_ok b w : reachable b w -> world_ok w /\ budgets (ledger w) = b.
Proof.
  induction 1 as [n a n' Hu Ha|w op w' _ [IH <-] Hop Hs].
  - split; [by eapply new_ok|]. unfold with_budgets in Ha. res_inv. case_match. res_inv. by subst.
  - pose proof (step_keeps w op IH Hop) as Hk. rewrite Hs in Hk. split; [done|].
    by destruct (step_one_peer w op w' Hs) as [->|(i & p & c & ->)].
Qed.

Lemma total_peers a r : total a r = sum (omap (fun peer => peer_count a peer r) [0; 1; 2; 3]).
Proof. destruct a as [c b ps ag]. unfold total. cbn [peers]. by inv_vec ps. Qed.

Lemma outstanding_none c rs :
  (forall r, retained r = false -> at_ c r = 0) -> outstanding_loop c rs = Ok tt.
Proof.
  intros Hz. induction rs as [|r rs IH]; [done|]. cbn [outstanding_loop]. destruct (retained r) eqn:Hr; [done|].
  by rewrite Hz, Z.eqb_refl.
Qed.

(** Nothing held and nothing in flight leaves only what retirement keeps. *)
Lemma idle_counters w i :
  world_ok w -> (forall t, t ∈ tokens w -> held i t = false) -> in_flight i (txs w) = [] ->
  forall r, retained r = false -> at_ (counters (peer_at (ledger w) i)) r = 0.
Proof.
  intros Hw Ht Hx r Hr. pose proof (w_peers _ Hw i) as Hp. destruct (managed r) eqn:Hm.
  - destruct r; try done. by rewrite (po_flight _ _ _ _ _ Hp), Hx.
  - rewrite (po_owed _ _ _ _ _ Hp r Hm). unfold owed. clear -Ht. induction (tokens w) as [|t l IH]; [done|]. cbn.
    rewrite Ht by (by left). apply IH. intros t' Ht'. apply Ht. by right.
Qed.

(** C5: The ledger is conserved.  Whatever operations have run against it since
    it was created, each total is the sum of the four peers' counts and within
    its aggregate budget; each peer's count is within the peer's budget, is
    exactly what the peer's unreleased reservation tokens add up to, and counts
    the peer's active transaction tokens, whose identifiers differ; a retired
    peer owes nothing but restart history; and no further operation panics. *)
Theorem accounting_conserved b w :
  reachable b w ->
  (forall r, aggregate_count (ledger w) r = sum (omap (fun peer => peer_count (ledger w) peer r) [0; 1; 2; 3]) /\
     0 <= aggregate_count (ledger w) r <= b_aggregate (b !!! index r)) /\
  (forall i, let p := peer_at (ledger w) i in
     (forall r, 0 <= at_ (counters p) r <= per_peer (b !!! index r)) /\
     (forall r, managed r = false -> at_ (counters p) r = owed i r (tokens w)) /\
     at_ (counters p) InFlightTransactions = len (in_flight i (txs w)) /\ NoDup (in_flight i (txs w)) /\
     (active p = false -> forall r, r <> RestartHistoryRecords -> at_ (counters p) r = 0)) /\
  (forall op, op_ok op -> step w op <> Panic).
Proof.
  intros [Hw <-]%reachable_ok. split_conj.
  - intros r. unfold aggregate_count. rewrite <-total_peers. split; [apply (w_total _ Hw)|].
    pose proof (aggregate_covers w Hw r 0%fin). pose proof (po_range _ _ _ _ _ (w_peers _ Hw 0%fin) r).
    pose proof (w_aggregate _ Hw r). unfold budget in *. lia.
  - intros i. pose proof (w_peers _ Hw i) as []. by split_conj.
  - intros op Hop Hs. pose proof (step_keeps w op Hw Hop) as Hk. by rewrite Hs in Hk.
Qed.

(** C33: What was admitted can always be given back, and only once.  In any
    reachable ledger an unreleased reservation is released, an active
    transaction is aborted, and it completes unless the total budget of replay
    entries is used up; a released reservation and an ended transaction are
    refused; and an active peer with its terminal record filed, its cleanup
    complete and no token left is retired. *)
Theorem accounting_gives_back b w :
  reachable b w ->
  (forall k t, tokens w !! k = Some t ->
     if unreleased t then exists w', step w (Release k) = Ok w'
     else step w (Release k) = Err TokenAlreadyReleased) /\
  (forall k x, txs w !! k = Some x ->
     if x_active x then
       (exists w', step w (AbortTransaction k) = Ok w') /\
       ((exists w', step w (CompleteTransaction k) = Ok w') \/
        step w (CompleteTransaction k) = Err (AggregateLimit CompletedReplayEntries))
     else step w (AbortTransaction k) = Err TransactionTokenInactive /\
          step w (CompleteTransaction k) = Err TransactionTokenInactive) /\
  (forall peer g i, validate_generation (ledger w) peer g = Ok i ->
     terminal_generation (peer_at (ledger w) i) = g -> terminal_cleanup_complete (peer_at (ledger w) i) = true ->
     (forall t, t ∈ tokens w -> held i t = false) -> in_flight i (txs w) = [] ->
     exists w', step w (Retire peer g) = Ok w').
Proof.
  intros [Hw _]%reachable_ok. split_conj.
  - intros k t Hk. cbn [step]. rewrite Hk. destruct (unreleased t) eqn:Hu.
    + destruct (release_ok w Hw k t Hk Hu) as (a' & -> & _). by eexists.
    + apply bool_decide_eq_false, dec_stable in Hu. unfold release, validate_reservation_token.
      rewrite (to_controller _ _ (Forall_lookup_1 _ _ _ _ (w_tokens _ Hw) Hk)), Z.eqb_refl.
      by rewrite bool_decide_eq_true_2.
  - intros k x Hk. cbn [step]. rewrite Hk. destruct (x_active x) eqn:Hx; split.
    + destruct (abort_ok w Hw k x Hk Hx) as (a' & -> & _). by eexists.
    + destruct (complete_ok w Hw k x Hk Hx) as [->|(a' & -> & _)]; [by right|left; by eexists].
    + unfold abort_transaction, validate_transaction_token.
      by rewrite (xo_controller _ _ (Forall_lookup_1 _ _ _ _ (w_txs _ Hw) Hk)), Z.eqb_refl, Hx.
    + unfold complete_transaction, validate_transaction_token.
      by rewrite (xo_controller _ _ (Forall_lookup_1 _ _ _ _ (w_txs _ Hw) Hk)), Z.eqb_refl, Hx.
  - intros peer g i Hv Hg Hc Ht Hx. cbn [step]. unfold retire_generation. rewrite Hv. cbn [res_bind].
    rewrite Hg, Z.eqb_refl, Hc. cbn [negb]. pose proof (idle_counters w i Hw Ht Hx) as Hz.
    rewrite outstanding_none by done. destruct (retire_ok w Hw peer g i Hv Hz) as (na & -> & _). by eexists.
Qed.

(** ** A run *)

Definition sample_request : ReservationRequest := mkRequest (put zeros Events 2).

Fixpoint run_ops (w : World) (ops : list Op) : res AccountingError World :=
  match ops with [] => Ok w | op :: ops => let! w := step w op in run_ops w ops end.

Lemma ledger_run b w ops w' : reachable b w -> Forall op_ok ops -> run_ops w ops = Ok w' -> reachable b w'.
Proof.
  intros Hw Hops. revert w Hw. induction Hops as [|op ops Hop _ IH]; intros w Hw; cbn [run_ops]; [by intros [= <-]|].
  intros (w1 & Hs & Hr)%res_bind_Ok. apply (IH w1); [|done]. by eapply reachable_step.
Qed.

Definition sample_ops : list Op := [BeginGeneration 2 7; Reserve 2 7 sample_request; BeginTransaction 2 7 41].

Definition sample_ledger : ReadinessAccounting :=
  mkAccounting 1 WYR0_I_RESOURCE_BUDGETS (vreplicate MAX_ACCOUNTED_PEERS peer_new) zeros.

Definition sample_world : World :=
  Eval vm_compute in default (mkWorld sample_ledger [] [])
    (match run_ops (mkWorld sample_ledger [] []) sample_ops with Ok w => Some w | _ => None end).

Lemma sample_reachable : reachable WYR0_I_RESOURCE_BUDGETS sample_world.
Proof.
  apply (ledger_run _ (mkWorld sample_ledger [] []) sample_ops).
  - apply (reachable_new _ 1 _ 2); [intros r; by destruct r|vm_compute; reflexivity].
  - repeat constructor; try done. intros r. by destruct r.
  - vm_compute. reflexivity.
Qed.

Lemma accounting_conserved_witness :
  reachable WYR0_I_RESOURCE_BUDGETS sample_world /\
  aggregate_count (ledger sample_world) Events = 2 /\
  aggregate_count (ledger sample_world) Events = sum (omap (fun peer => peer_count (ledger sample_world) peer Events) [0; 1; 2; 3]).
Proof.
  split; [exact sample_reachable|]. split; [by vm_compute|].
  exact (proj1 (proj1 (accounting_conserved _ _ sample_reachable) Events)).
Defined.

Lemma accounting_gives_back_witness :
  reachable WYR0_I_RESOURCE_BUDGETS sample_world /\ (exists w', step sample_world (Release 0) = Ok w').
Proof.
  split; [exact sample_reachable|].
  exact (proj1 (accounting_gives_back _ _ sample_reachable) 0%nat _ eq_refl).
Defined.
