(* ===== verification/Input.v ===== *)
(** * Terminal input (crates/wyrmroot-wyrmsh-core/src/input.rs, input/unicode_format.rs)

    The incremental decoder of the bytes a terminal sends: UTF-8 text, control
    bytes, escape sequences, control strings and bracketed paste.  A call
    returns the decoder after it and one event; an index out of range, which
    the code does not guard against, is [Panic]. *)

From stdpp Require Import base tactics option list list_numbers.
From Stdlib Require Import ZArith Lia.
From S2P Require Import Prelude Bytes Utf8.

Module Input.

(** [char::is_control]: general category Cc. *)
Definition is_control (ch : Z) : bool := in_range 0 0x1f ch || in_range 0x7f 0x9f ch.

(** General categories Cf, Zl and Zp. *)
Definition is_format_or_line_separator (ch : Z) : bool :=
  (ch =? 0x00ad) || in_range 0x0600 0x0605 ch || (ch =? 0x061c) || (ch =? 0x06dd) || (ch =? 0x070f)
  || in_range 0x0890 0x0891 ch || (ch =? 0x08e2) || (ch =? 0x180e) || in_range 0x200b 0x200f ch
  || in_range 0x202a 0x202e ch || in_range 0x2060 0x2064 ch || in_range 0x2066 0x206f ch
  || (ch =? 0xfeff) || in_range 0xfff9 0xfffb ch || (ch =? 0x110bd) || (ch =? 0x110cd)
  || in_range 0x13430 0x1343f ch || in_range 0x1bca0 0x1bca3 ch || in_range 0x1d173 0x1d17a ch
  || (ch =? 0xe0001) || in_range 0xe0020 0xe007f ch || (ch =? 0x2028) || (ch =? 0x2029).

Definition is_printable_scalar (ch : Z) : bool := negb (is_control ch) && negb (is_format_or_line_separator ch).

Inductive InputError :=
| InvalidUtf8 | IncompleteUtf8 | IncompleteEscape | UnsupportedControl | UnsupportedEscape | EscapeTooLong.
#[global] Instance InputError_eq_dec : EqDecision InputError.
Proof. solve_decision. Defined.

(** [NoEvent] is [InputEvent::None]. *)
Inductive InputEvent :=
| NoEvent | Insert (ch : Z) | Left | Right | Home | End | Delete | Backspace | Up | Down | Submit | Cancel | Eof
| Rejected (e : InputError).
#[global] Instance InputEvent_eq_dec : EqDecision InputEvent.
Proof. solve_decision. Defined.

(** [NoEscape] is [Escape::None], [ControlString] is [Escape::String]. *)
Inductive Escape :=
| NoEscape | Start | Intermediate | Csi | DiscardStart | DiscardIntermediate | DiscardCsi
| DiscardNestedCsi (paste_matched : Z) | DiscardSs3 | ControlString (osc escaped : bool) | Paste (matched : Z).
#[global] Instance Escape_eq_dec : EqDecision Escape.
Proof. solve_decision. Defined.

Record InputDecoder := mkDecoder {
  utf8 : list Z; utf8_len : Z; utf8_need : Z; escape_bytes : list Z; escape_len : Z; escape : Escape;
  suppress_lf : bool }.

Definition decoder_new : InputDecoder := mkDecoder (replicate 4 0) 0 0 (replicate 12 0) 0 NoEscape false.

(** Assignments. *)
Definition with_utf8 (d : InputDecoder) (bytes : list Z) (n need : Z) : InputDecoder :=
  mkDecoder bytes n need (escape_bytes d) (escape_len d) (escape d) (suppress_lf d).
Definition no_utf8 (d : InputDecoder) : InputDecoder := with_utf8 d (utf8 d) 0 0.
Definition with_escape (d : InputDecoder) (e : Escape) : InputDecoder :=
  mkDecoder (utf8 d) (utf8_len d) (utf8_need d) (escape_bytes d) (escape_len d) e (suppress_lf d).
Definition with_stored (d : InputDecoder) (bytes : list Z) (n : Z) : InputDecoder :=
  mkDecoder (utf8 d) (utf8_len d) (utf8_need d) bytes n (escape d) (suppress_lf d).
Definition with_suppress (d : InputDecoder) (b : bool) : InputDecoder :=
  mkDecoder (utf8 d) (utf8_len d) (utf8_need d) (escape_bytes d) (escape_len d) (escape d) b.

Definition is_pending (d : InputDecoder) : bool := negb (utf8_len d =? 0) || negb (bool_decide (escape d = NoEscape)).
Definition pending_bytes (d : InputDecoder) : Z := utf8_len d + escape_len d.

Definition reset (d : InputDecoder) : InputDecoder := mkDecoder (utf8 d) 0 0 (escape_bytes d) 0 NoEscape false.

Definition finish (d : InputDecoder) : InputDecoder * InputEvent :=
  let result :=
    if negb (utf8_len d =? 0) then Rejected IncompleteUtf8
    else if negb (bool_decide (escape d = NoEscape)) then Rejected IncompleteEscape
    else NoEvent in
  (reset d, result).

Notation result := (res Empty_set (InputDecoder * InputEvent)).

(** [self.escape_bytes[0] = 27] *)
Definition begin_escape (d : InputDecoder) : res Empty_set InputDecoder :=
  let! bytes := or_panic (put_range (escape_bytes d) 0 [27]) in
  Ok (with_stored (with_escape d Start) bytes 1).
Definition end_escape (d : InputDecoder) : InputDecoder := with_stored (with_escape d NoEscape) (escape_bytes d) 0.
(** The escape state [e], with the stored bytes forgotten. *)
Definition forget (d : InputDecoder) (e : Escape) : InputDecoder := with_stored (with_escape d e) (escape_bytes d) 0.

(** The bytes that open a control string: [\]], [P], [X], [^] and [_]. *)
Definition opens_string (byte : Z) : bool := contains byte [93; 80; 88; 94; 95].

(** [self.escape == Escape::DiscardStart] *)
Definition discard_start_byte (d : InputDecoder) (byte : Z) : InputDecoder :=
  if byte =? 27 then d
  else if byte =? 91 then with_escape d (DiscardNestedCsi 0)
  else if byte =? 79 then with_escape d DiscardSs3
  else if opens_string byte then with_escape d (ControlString (byte =? 93) false)
  else if in_range 0x20 0x2f byte then with_escape d DiscardIntermediate
  else if in_range 0x30 0x7e byte then end_escape d
  else d.

(** ["200~"] *)
Definition PASTE_START : list Z := [50; 48; 48; 126].
(** ["\x1b[201~"] *)
Definition PASTE_END : list Z := [27; 91; 50; 48; 49; 126].

(** How much of [PASTE_START] a discarded control sequence has matched after one
    more byte; [u8::MAX] when it cannot match any more. *)
Definition paste_next (paste_matched byte : Z) : res Empty_set Z :=
  let! matches :=
    if paste_matched <? len PASTE_START then
      let! c := or_panic (get_at PASTE_START paste_matched) in Ok (byte =? c)
    else Ok false in
  if (matches : bool) then or_panic (checked_add (2 ^ 8) paste_matched 1) else Ok 255.

(** [if let Escape::DiscardNestedCsi { paste_matched } = self.escape] *)
Definition nested_csi_byte (d : InputDecoder) (paste_matched byte : Z) : res Empty_set InputDecoder :=
  if byte =? 27 then Ok (with_escape d DiscardStart)
  else
  let! next := paste_next paste_matched byte in
  if in_range 0x40 0x7e byte then
    let d := end_escape d in
    Ok (if next =? len PASTE_START then with_escape d (Paste 0) else d)
  else Ok (with_escape d (DiscardNestedCsi next)).

(** The event of a complete control sequence. *)
Definition csi_event (sequence : list Z) : InputEvent :=
  if decide (sequence = [65]) then Up
  else if decide (sequence = [66]) then Down
  else if decide (sequence = [67]) then Right
  else if decide (sequence = [68]) then Left
  else if decide (sequence = [72] \/ sequence = [49; 126]) then Home
  else if decide (sequence = [70] \/ sequence = [52; 126]) then End
  else if decide (sequence = [51; 126]) then Delete
  else Rejected UnsupportedEscape.

(** The final [match self.escape] of [escape_byte]. *)
Definition stored_escape_byte (d : InputDecoder) (byte : Z) : result :=
  match escape d with
  | Start =>
      Ok (if byte =? 91 then (with_escape d Csi, NoEvent)
          else if byte =? 79 then (forget d DiscardSs3, Rejected UnsupportedEscape)
          else if opens_string byte then (forget d (ControlString (byte =? 93) false), Rejected UnsupportedEscape)
          else if in_range 0x20 0x2f byte then (with_escape d Intermediate, NoEvent)
          else (end_escape d, Rejected UnsupportedEscape))
  | Intermediate =>
      Ok (if in_range 0x20 0x2f byte then (d, NoEvent)
          else if in_range 0x30 0x7e byte then (end_escape d, Rejected UnsupportedEscape)
          else (forget d DiscardIntermediate, Rejected UnsupportedEscape))
  | Csi =>
      if in_range 0x40 0x7e byte then
        let! sequence := or_panic (get_range (escape_bytes d) 2 (escape_len d)) in
        let event := csi_event sequence in
        let d := end_escape d in
        Ok (if decide (sequence = PASTE_START) then with_escape d (Paste 0) else d, event)
      else if in_range 0x20 0x3f byte then Ok (d, NoEvent)
      else Ok (forget d DiscardCsi, Rejected UnsupportedEscape)
  | _ => Ok (d, NoEvent)
  end.

(** The storage of [escape_byte] is full: the rest of the sequence is discarded. *)
Definition escape_too_long (d : InputDecoder) (byte : Z) : InputDecoder :=
  let e := if bool_decide (escape d = Intermediate) then DiscardIntermediate else DiscardCsi in
  let d := forget d e in
  let final_byte :=
    if bool_decide (e = DiscardIntermediate) then in_range 0x30 0x7e byte else in_range 0x40 0x7e byte in
  if final_byte then end_escape d else d.

Definition escape_byte (d : InputDecoder) (byte : Z) : result :=
  match escape d with
  | DiscardStart => Ok (discard_start_byte d byte, NoEvent)
  | DiscardNestedCsi paste_matched => let! d := nested_csi_byte d paste_matched byte in Ok (d, NoEvent)
  | DiscardIntermediate =>
      Ok (if byte =? 27 then with_escape d DiscardStart
          else if in_range 0x30 0x7e byte then end_escape d else d, NoEvent)
  | DiscardCsi | DiscardSs3 =>
      Ok (if byte =? 27 then with_escape d DiscardStart
          else if in_range 0x40 0x7e byte then end_escape d else d, NoEvent)
  | _ =>
      if byte =? 27 then let! d := begin_escape d in Ok (d, Rejected IncompleteEscape)
      else if escape_len d =? len (escape_bytes d) then Ok (escape_too_long d byte, Rejected EscapeTooLong)
      else
      let! bytes := or_panic (put_range (escape_bytes d) (escape_len d) [byte]) in
      let! n := plus (escape_len d) 1 in
      stored_escape_byte (with_stored d bytes n) byte
  end.

(** [if self.utf8_len != 0]: a byte of a character begun before. *)
Definition continue_utf8 (d : InputDecoder) (byte : Z) : result :=
  if negb (in_range 0x80 0xbf byte) then
    let d := no_utf8 d in
    let! d := if byte =? 27 then begin_escape d else Ok d in
    Ok (d, Rejected InvalidUtf8)
  else
  let! bytes := or_panic (put_range (utf8 d) (utf8_len d) [byte]) in
  let! n := plus (utf8_len d) 1 in
  let d := with_utf8 d bytes n (utf8_need d) in
  if negb (n =? utf8_need d) then Ok (d, NoEvent)
  else
  let! text := or_panic (get_range (utf8 d) 0 n) in
  let scalar := chars ← from_utf8 text; head chars in
  Ok (no_utf8 d,
      match scalar with
      | Some ch => if is_printable_scalar ch then Insert ch else Rejected UnsupportedControl
      | None => Rejected InvalidUtf8
      end).

(** The final [match byte] of [feed]. *)
Definition plain_byte (d : InputDecoder) (byte : Z) : result :=
  if byte =? 27 then let! d := begin_escape d in Ok (d, NoEvent)
  else if (byte =? 8) || (byte =? 127) then Ok (d, Backspace)
  else if byte =? 4 then Ok (d, Eof)
  else if (byte =? 13) || (byte =? 10) then Ok (d, Submit)
  else if byte =? 9 then Ok (d, Insert 32)
  else if in_range 0x20 0x7e byte then Ok (d, Insert byte)
  else if in_range 0xc2 0xf4 byte then
    let! bytes := or_panic (put_range (utf8 d) 0 [byte]) in
    let need := if byte <? 0xe0 then 2 else if byte <? 0xf0 then 3 else 4 in
    Ok (with_utf8 d bytes 1 need, NoEvent)
  else if in_range 0 0x1f byte then Ok (d, Rejected UnsupportedControl)
  else Ok (d, Rejected InvalidUtf8).

(** How much of [PASTE_END] the paste has matched after one more byte. *)
Definition paste_end_next (matched byte : Z) : res Empty_set Z :=
  let! expected := or_panic (get_at PASTE_END matched) in
  if byte =? expected then plus matched 1
  else let! first := or_panic (get_at PASTE_END 0) in Ok (if byte =? first then 1 else 0).

Definition feed (d : InputDecoder) (byte : Z) : result :=
  if byte =? 3 then Ok (reset d, Cancel)
  else if suppress_lf d && (byte =? 10) then Ok (with_suppress d false, NoEvent)
  else
  let d := with_suppress d (byte =? 13) in
  match escape d with
  | ControlString osc escaped =>
      Ok (if osc && (byte =? 7) || escaped && (byte =? 92) then end_escape d
          else with_escape d (ControlString osc (byte =? 27)), NoEvent)
  | Paste matched =>
      let! next := paste_end_next matched byte in
      Ok (if next =? len PASTE_END then end_escape d else with_escape d (Paste next), NoEvent)
  | e =>
      if ((byte =? 13) || (byte =? 10)) && is_pending d then
        let error := if negb (utf8_len d =? 0) then IncompleteUtf8 else IncompleteEscape in
        Ok (end_escape (no_utf8 d), Rejected error)
      else if negb (bool_decide (e = NoEscape)) then escape_byte d byte
      else if negb (utf8_len d =? 0) then continue_utf8 d byte
      else plain_byte d byte
  end.

(** A run of the decoder over [bytes]: the events, in order. *)
Fixpoint feed_all (d : InputDecoder) (bytes : list Z) : res Empty_set (InputDecoder * list InputEvent) :=
  match bytes with
  | [] => Ok (d, [])
  | byte :: bytes =>
      let! '(d, event) := feed d byte in
      let! '(d, events) := feed_all d bytes in
      Ok (d, event :: events)
  end.

End Input.
