(* ===== verification/InputThms.v ===== *)
(** * The input decoder

    The decoder never indexes out of its two small buffers, hands on only
    printable characters, and takes everything up to the end marker of a
    bracketed paste without an event.  Typed text comes out as it went in. *)

From stdpp Require Import base tactics option list list_numbers.
From Stdlib Require Import ZArith Lia.
From S2P Require Import Prelude Bytes Utf8 Input.
Import Input.

(** ** Invariant *)

Definition escape_ok (e : Escape) (n : Z) : Prop :=
  match e with
  | Start => n = 1
  | Intermediate | Csi => 2 <= n <= 12
  | DiscardNestedCsi m => n = 0 /\ (0 <= m <= 3 \/ m = 255)
  | Paste m => n = 0 /\ 0 <= m <= 5
  | _ => n = 0
  end.

Record decoder_ok (d : InputDecoder) : Prop := {
  do_utf8 : len (utf8 d) = 4;
  do_bytes : bytes_ok (utf8 d);
  do_stored : len (escape_bytes d) = 12;
  do_escape : escape_ok (escape d) (escape_len d);
  do_text : utf8_len d = 0 \/ escape d = NoEscape /\ 1 <= utf8_len d < utf8_need d /\ utf8_need d <= 4 }.

(** An event of the decoder: characters are printable scalar values. *)
Definition event_ok (e : InputEvent) : Prop :=
  match e with Insert ch => is_scalar ch = true /\ is_printable_scalar ch = true | _ => True end.

Definition fed (r : res Empty_set (InputDecoder * InputEvent)) : Prop :=
  match r with Ok (d, e) => decoder_ok d /\ event_ok e | _ => False end.

Lemma new_decoder_ok : decoder_ok decoder_new.
Proof. split; try done; [apply bytes_ok_replicate_0|by left]. Qed.

Lemma reset_ok d : decoder_ok d -> decoder_ok (reset d).
Proof. intros []. split; try done. by left. Qed.

Lemma end_escape_ok d : decoder_ok d -> decoder_ok (end_escape d).
Proof. intros [? ? ? ? Ht]. split; try done. destruct Ht as [|[]]; [by left|by right]. Qed.

Lemma no_utf8_ok d : decoder_ok d -> decoder_ok (no_utf8 d).
Proof. intros []. split; try done. by left. Qed.

Lemma with_suppress_ok d b : decoder_ok d -> decoder_ok (with_suppress d b).
Proof. by intros []. Qed.

(** Only the escape state changes, to one without stored bytes. *)
Lemma with_escape_ok d e :
  decoder_ok d -> utf8_len d = 0 -> escape_ok e (escape_len d) -> decoder_ok (with_escape d e).
Proof. intros [] ? ?. split; try done. by left. Qed.

Lemma forget_ok d e : decoder_ok d -> utf8_len d = 0 -> escape_ok e 0 -> decoder_ok (forget d e).
Proof. intros [] ? ?. split; try done. by left. Qed.

Lemma begin_escape_Ok d :
  decoder_ok d -> utf8_len d = 0 ->
  exists d', begin_escape d = Ok d' /\ decoder_ok d' /\ d' = with_stored (with_escape d Start) (27 :: tail (escape_bytes d)) 1.
Proof.
  intros [Hu Hb Hs He Ht] H0. unfold begin_escape. destruct (escape_bytes d) as [|x l] eqn:E; [done|].
  unfold put_range. cbn [length] in Hs. rewrite (proj2 (Z.leb_le 0 0)), (proj2 (Z.leb_le _ _)) by (simpl; lia).
  cbn [andb or_panic res_bind]. eexists. split; [done|]. change (Z.to_nat (0 + len [27])) with 1%nat. split; [|done].
  split; cbn; try done. by left.
Qed.

(** ** Every byte is taken *)

Ltac fed_done := cbn [fed event_ok]; split; [|done].

Lemma opens_string_spec byte : opens_string byte = true -> 80 <= byte <= 95.
Proof. unfold opens_string. intros H. apply contains_true in H. rewrite !elem_of_cons, elem_of_nil in H. lia. Qed.

#[local] Hint Resolve end_escape_ok with_escape_ok forget_ok : decoder.

Lemma paste_next_Ok m byte :
  0 <= m <= 3 \/ m = 255 ->
  exists next, paste_next m byte = Ok next /\ (0 <= next <= 3 \/ next = 255 \/ next = 4 /\ byte = 126).
Proof.
  intros Hm. assert (m = 0 \/ m = 1 \/ m = 2 \/ m = 3 \/ m = 255) as [->|[->|[->|[->| ->]]]] by lia;
    match goal with |- exists _, ?x = _ /\ _ => let y := eval cbv -[Z.eqb] in x in change x with y end;
    repeat case_match; bool_prop; eexists; (split; [done|]); lia.
Qed.

Lemma nested_csi_ok d m byte :
  decoder_ok d -> utf8_len d = 0 -> escape d = DiscardNestedCsi m ->
  exists d', nested_csi_byte d m byte = Ok d' /\ decoder_ok d'.
Proof.
  intros Hd Hu He. pose proof (do_escape _ Hd) as Hm. rewrite He in Hm. destruct Hm as [Hn Hm]. unfold nested_csi_byte.
  destruct (Z.eqb_spec byte 27); [eexists; split; [done|]; by apply with_escape_ok|].
  destruct (paste_next_Ok m byte Hm) as (next & -> & Hnext). cbn [res_bind].
  destruct (in_range _ _ byte) eqn:Hb; eexists; (split; [done|]).
  - case_match; [|by apply end_escape_ok]. apply with_escape_ok; [by apply end_escape_ok|done|done].
  - apply with_escape_ok; [done..|]. split; [done|]. destruct Hnext as [?|[?|[_ ->]]]; [lia|lia|done].
Qed.

Lemma csi_event_ok l : event_ok (csi_event l).
Proof. unfold csi_event. by repeat case_decide. Qed.

(** One more byte is stored: the three states that store. *)
Lemma stored_escape_ok d bytes byte :
  decoder_ok d -> utf8_len d = 0 -> len bytes = 12 -> escape_len d < 12 ->
  escape d = Start \/ escape d = Intermediate \/ escape d = Csi ->
  fed (stored_escape_byte (with_stored d bytes (escape_len d + 1)) byte).
Proof.
  intros Hd Hu Hb Hn He. assert (forall e n, escape_ok e n -> decoder_ok (with_stored (with_escape d e) bytes n)) as Hset.
  { intros e n Hok. destruct Hd. split; try done. by left. }
  unfold stored_escape_byte. cbn [escape with_stored]. pose proof (do_escape _ Hd) as Hs.
  destruct He as [E|[E|E]]; rewrite E in *; cbn [escape_ok] in Hs.
  - repeat case_match; fed_done; apply Hset; cbn; lia.
  - repeat case_match; fed_done; try (apply Hset; cbn; lia). destruct d; cbn in *; subst. apply Hset. cbn. lia.
  - case_match.
    + destruct (proj2 (get_range_is_Some bytes 2 (escape_len d + 1))) as [l Hl]; [lia|].
      cbn [escape_bytes escape_len with_stored]. rewrite Hl. cbn [or_panic res_bind]. split; [|apply csi_event_ok].
      case_decide; by apply Hset.
    + case_match; fed_done; [|by apply Hset]. destruct d; cbn in *; subst. apply Hset. cbn. lia.
Qed.

Lemma escape_too_long_ok d byte : decoder_ok d -> utf8_len d = 0 -> decoder_ok (escape_too_long d byte).
Proof.
  intros Hd Hu. unfold escape_too_long. cbv zeta. assert (decoder_ok (forget d
    (if bool_decide (escape d = Intermediate) then DiscardIntermediate else DiscardCsi))) as Hf.
  { apply forget_ok; [done..|]. by case_bool_decide. }
  match goal with |- decoder_ok (if ?b then _ else _) => destruct b end; [by apply end_escape_ok|done].
Qed.

Lemma discard_start_ok d byte :
  decoder_ok d -> utf8_len d = 0 -> escape_len d = 0 -> decoder_ok (discard_start_byte d byte).
Proof.
  intros Hd Hu Hn. unfold discard_start_byte.
  repeat case_match; try done; first [by apply end_escape_ok|apply with_escape_ok; [done..|cbn; lia]].
Qed.

(** The states in which [feed] calls [escape_byte]. *)
Definition in_escape (e : Escape) : bool :=
  match e with NoEscape | ControlString _ _ | Paste _ => false | _ => true end.

Lemma escape_byte_ok d byte : decoder_ok d -> in_escape (escape d) = true -> fed (escape_byte d byte).
Proof.
  intros Hd Hne. assert (utf8_len d = 0) as Hu by (destruct (do_text _ Hd) as [|[E _]]; [done|by rewrite E in Hne]).
  pose proof (do_escape _ Hd) as He. pose proof (do_stored _ Hd) as Hs.
  assert (escape d = Start \/ escape d = Intermediate \/ escape d = Csi ->
    fed (if byte =? 27 then let! d := begin_escape d in Ok (d, Rejected IncompleteEscape)
      else if escape_len d =? len (escape_bytes d) then Ok (escape_too_long d byte, Rejected EscapeTooLong)
      else let! bytes := or_panic (put_range (escape_bytes d) (escape_len d) [byte]) in
           let! n := plus (escape_len d) 1 in stored_escape_byte (with_stored d bytes n) byte)) as Hstore.
  { intros Hst. case_match; [destruct (begin_escape_Ok d Hd Hu) as (d' & -> & ? & _); by fed_done|].
    destruct (Z.eqb_spec (escape_len d) (len (escape_bytes d))); [fed_done; by apply escape_too_long_ok|].
    assert (1 <= escape_len d <= 12) as Hn by (destruct Hst as [E|[E|E]]; rewrite E in He; cbn in He; lia).
    destruct (proj2 (put_range_is_Some (escape_bytes d) (escape_len d) [byte])) as [bytes Hb]; [simpl; lia|].
    rewrite Hb. cbn [or_panic res_bind]. rewrite (proj2 (plus_Ok _ _ _)) by (split; [done|lia]). cbn [res_bind].
    apply length_put_range in Hb. apply stored_escape_ok; try done; lia. }
  unfold escape_byte. destruct (escape d) eqn:E; cbn [escape_ok] in He; try (by apply Hstore; auto); try done.
  - fed_done. by apply discard_start_ok.
  - fed_done. repeat case_match; try done; first [by apply end_escape_ok|by apply with_escape_ok].
  - fed_done. repeat case_match; try done; first [by apply end_escape_ok|by apply with_escape_ok].
  - destruct (nested_csi_ok d paste_matched byte Hd Hu E) as (d' & -> & ?). by fed_done.
  - fed_done. repeat case_match; try done; first [by apply end_escape_ok|by apply with_escape_ok].
Qed.

Lemma insert_scalar bs ch :
  bytes_ok bs -> (cs ← from_utf8 bs; head cs) = Some ch -> is_scalar ch = true.
Proof.
  intros Hb (cs & Hcs & Hh)%bind_Some. apply from_utf8_spec in Hcs as [_ Hsc]; [|done].
  destruct cs as [|c cs]; [done|]. injection Hh as ->. by apply Forall_cons in Hsc as [? _].
Qed.

Lemma continue_ok d byte :
  decoder_ok d -> in_u8 byte -> escape d = NoEscape -> utf8_len d <> 0 -> fed (continue_utf8 d byte).
Proof.
  intros Hd Hb He Hn. destruct (do_text _ Hd) as [|(_ & Hl & H4)]; [done|]. unfold continue_utf8.
  destruct (in_range 0x80 0xbf byte) eqn:Hr; cbn [negb].
  - destruct (proj2 (put_range_is_Some (utf8 d) (utf8_len d) [byte])) as [bytes Hp].
    { rewrite (do_utf8 _ Hd). simpl. lia. }
    assert (bytes_ok bytes) as Hok.
    { eapply bytes_ok_put_range; [apply (do_bytes _ Hd)| |done]. by apply Forall_singleton. }
    assert (len bytes = 4) as H by (rewrite (length_put_range _ _ _ _ Hp); apply (do_utf8 _ Hd)).
    rewrite Hp. cbn [or_panic res_bind]. rewrite (proj2 (plus_Ok _ _ _)) by (split; [done|lia]). cbn [res_bind utf8_need with_utf8].
    assert (forall n need, n = 0 \/ 1 <= n < need /\ need <= 4 -> decoder_ok (with_utf8 d bytes n need)) as Hset.
    { intros n need Hnn. destruct Hd. split; try done. cbn. destruct Hnn as [|[]]; [by left|by right]. }
    destruct (Z.eqb_spec (utf8_len d + 1) (utf8_need d)); cbn [negb]; [|fed_done; apply Hset; lia].
    cbn [utf8 with_utf8]. destruct (proj2 (get_range_is_Some bytes 0 (utf8_len d + 1))) as [text Ht]; [lia|].
    rewrite Ht. cbn [or_panic res_bind fed]. split; [by apply (Hset 0 0); left|].
    case_match eqn:Hch; [|done]. case_match; [|done]. split; [|done].
    eapply insert_scalar; [|exact Hch]. by eapply bytes_ok_get_range.
  - destruct (byte =? 27); [|fed_done; by apply no_utf8_ok].
    destruct (begin_escape_Ok (no_utf8 d)) as (d' & -> & ? & _); [by apply no_utf8_ok|done|]. by fed_done.
Qed.

Lemma plain_ok d byte :
  decoder_ok d -> in_u8 byte -> escape d = NoEscape -> utf8_len d = 0 -> fed (plain_byte d byte).
Proof.
  intros Hd Hb He Hn. unfold plain_byte.
  destruct (byte =? 27); [destruct (begin_escape_Ok d Hd Hn) as (d' & -> & ? & _); by fed_done|].
  do 4 (case_match; [by fed_done|]). destruct (in_range 0x20 0x7e byte) eqn:Hr.
  { split; [done|]. unfold in_range in Hr. bool_prop. cbn [event_ok]. unfold is_scalar, is_printable_scalar, is_control,
      is_format_or_line_separator, in_range. split; bool_cases; try done; lia. }
  destruct (in_range 0xc2 0xf4 byte); [|case_match; by fed_done].
  destruct (proj2 (put_range_is_Some (utf8 d) 0 [byte])) as [bytes Hp]; [rewrite (do_utf8 _ Hd); simpl; lia|].
  rewrite Hp. cbn [or_panic res_bind]. fed_done. destruct Hd as [Hu Hok Hs He' _]. split; try done; cbn.
  - by rewrite (length_put_range _ _ _ _ Hp).
  - eapply bytes_ok_put_range; [done| |done]. by apply Forall_singleton.
  - right. split; [done|]. repeat case_match; lia.
Qed.

Lemma paste_end_next_spec m byte :
  0 <= m <= 5 ->
  paste_end_next m byte = Ok (if bool_decide (get_at PASTE_END m = Some byte) then m + 1 else if byte =? 27 then 1 else 0).
Proof.
  intros Hm. unfold paste_end_next. assert (m = 0 \/ m = 1 \/ m = 2 \/ m = 3 \/ m = 4 \/ m = 5) as Hc by lia.
  destruct (get_at PASTE_END m) as [c|] eqn:E; [|by destruct_or?; subst; vm_compute in E].
  cbn [or_panic res_bind]. destruct (Z.eqb_spec byte c) as [->|].
  - rewrite bool_decide_eq_true_2 by done. apply plus_Ok. lia.
  - by rewrite bool_decide_eq_false_2 by congruence.
Qed.

Lemma feed_ok d byte : decoder_ok d -> in_u8 byte -> fed (feed d byte).
Proof.
  intros Hd Hb. unfold feed. case_match; [fed_done; by apply reset_ok|].
  case_match; [fed_done; by apply with_suppress_ok|]. set (d1 := with_suppress d (byte =? 13)).
  assert (decoder_ok d1) as H1 by (by apply with_suppress_ok). cbv zeta.
  assert (in_escape (escape d1) = true \/ escape d1 = NoEscape -> fed
    (if ((byte =? 13) || (byte =? 10)) && is_pending d1 then
        Ok (end_escape (no_utf8 d1), Rejected (if negb (utf8_len d1 =? 0) then IncompleteUtf8 else IncompleteEscape))
      else if negb (bool_decide (escape d1 = NoEscape)) then escape_byte d1 byte
      else if negb (utf8_len d1 =? 0) then continue_utf8 d1 byte else plain_byte d1 byte)) as Hplain.
  { intros He. case_match; [fed_done; by apply end_escape_ok, no_utf8_ok|].
    destruct (bool_decide_reflect (escape d1 = NoEscape)) as [E|E]; cbn [negb].
    - destruct (Z.eqb_spec (utf8_len d1) 0); cbn [negb]; [by apply plain_ok|by apply continue_ok].
    - apply escape_byte_ok; [done|]. by destruct He. }
  destruct (escape d1) eqn:E; try (by apply Hplain; first [by left|by right]).
  - clear Hplain. fed_done. assert (utf8_len d1 = 0) by (destruct (do_text _ H1) as [|[]]; congruence).
    pose proof (do_escape _ H1) as Hn. rewrite E in Hn. case_match; [by apply end_escape_ok|by apply with_escape_ok].
  - clear Hplain. assert (utf8_len d1 = 0) by (destruct (do_text _ H1) as [|[]]; congruence).
    pose proof (do_escape _ H1) as Hn. rewrite E in Hn. destruct Hn as [Hn Hm].
    rewrite paste_end_next_spec by done. cbn [res_bind]. fed_done. change (len PASTE_END) with 6.
    match goal with |- context [?next =? 6] => assert (0 <= next <= 6) by (repeat case_match; lia); destruct (Z.eqb_spec next 6) end;
      [by apply end_escape_ok|]. apply with_escape_ok; [done|done|]. split; [done|lia].
Qed.

(** ** Runs *)

Lemma feed_all_app bs1 : forall d bs2,
  feed_all d (bs1 ++ bs2) =
  (let! '(d, es1) := feed_all d bs1 in let! '(d, es2) := feed_all d bs2 in Ok (d, es1 ++ es2)).
Proof.
  induction bs1 as [|b bs1 IH]; intros d bs2; cbn [app feed_all res_bind].
  - by destruct (feed_all d bs2) as [[]| |].
  - destruct (feed d b) as [[d1 e]| |]; [|done..]. cbn [res_bind]. rewrite IH.
    destruct (feed_all d1 bs1) as [[d2 es]| |]; [|done..]. cbn [res_bind]. by destruct (feed_all d2 bs2) as [[]| |].
Qed.

Lemma feed_all_ok bs : forall d,
  decoder_ok d -> bytes_ok bs ->
  exists d' es, feed_all d bs = Ok (d', es) /\ decoder_ok d' /\ Forall event_ok es /\ length es = length bs.
Proof.
  induction bs as [|b bs IH]; intros d Hd Hb; [by exists d, []|]. apply Forall_cons in Hb as [Hb Hbs].
  pose proof (feed_ok d b Hd Hb) as Hf. cbn [feed_all]. destruct (feed d b) as [[d1 e]| |]; [|done..]. destruct Hf as [Hd1 He]. cbn [res_bind].
  destruct (IH d1 Hd1 Hbs) as (d' & es & -> & ? & ? & ?). exists d', (e :: es). cbn. auto.
Qed.

(** *** Text *)

(** Nothing is pending. *)
Record idle (d : InputDecoder) : Prop := {
  id_ok : decoder_ok d; id_escape : escape d = NoEscape; id_utf8 : utf8_len d = 0 }.

Definition character (text : list Z) : InputEvent :=
  match (cs ← from_utf8 text; head cs) with
  | Some ch => if is_printable_scalar ch then Insert ch else Rejected UnsupportedControl
  | None => Rejected InvalidUtf8
  end.

Lemma feed_continue d b :
  escape d = NoEscape -> utf8_len d <> 0 -> is_cont b = true -> feed d b = continue_utf8 (with_suppress d false) b.
Proof.
  intros He Hn Hc. unfold is_cont, in_range in Hc. bool_prop. unfold feed.
  rewrite (proj2 (Z.eqb_neq b 3)), (proj2 (Z.eqb_neq b 10)), andb_false_r, (proj2 (Z.eqb_neq b 13)) by lia. cbn.
  by rewrite He, (proj2 (Z.eqb_neq _ _) Hn).
Qed.

(** The continuation bytes of a character. *)
Lemma feed_tail bs : forall d pre rest,
  decoder_ok d -> escape d = NoEscape -> utf8 d = pre ++ rest -> utf8_len d = len pre -> 1 <= len pre ->
  utf8_need d = len pre + len bs -> len pre + len bs <= 4 -> bs <> [] -> Forall (fun b => is_cont b = true) bs ->
  exists d', feed_all d bs = Ok (d', replicate (length bs - 1) NoEvent ++ [character (pre ++ bs)]) /\ idle d'.
Proof.
  induction bs as [|b bs IH]; intros d pre rest Hd He Hu Hl Hpre Hneed H4 Hne Hc; [done|].
  apply Forall_cons in Hc as [Hb Hc]. pose proof (do_utf8 _ Hd) as Hsz. rewrite Hu, length_app in Hsz. cbn [length] in *.
  destruct rest as [|x rest]; [simpl in Hsz; lia|]. cbn [feed_all]. rewrite feed_continue by (try done; lia).
  assert (in_u8 b) as Hb8 by (unfold is_cont, in_range in Hb; bool_prop; unfold in_u8; lia).
  pose proof (continue_ok (with_suppress d false) b (with_suppress_ok _ _ Hd) Hb8 He ltac:(cbn; lia)) as Hok. revert Hok.
  unfold continue_utf8. change (in_range 128 191 b) with (is_cont b). rewrite Hb. cbn [negb utf8 utf8_len utf8_need with_suppress].
  rewrite Hu, Hl. assert (put_range (pre ++ x :: rest) (len pre) [b] = Some (pre ++ b :: rest)) as ->.
  { apply put_range_Some. rewrite length_app. cbn [length]. split_conj; [lia..|].
    rewrite Nat2Z.id, take_app_length. cbn. f_equal. f_equal. change 1 with (Z.of_nat 1). rewrite <-Nat2Z.inj_add, Nat2Z.id.
    by rewrite drop_app_add. }
  cbn [or_panic res_bind]. rewrite (proj2 (plus_Ok _ _ _)) by (split; [done|lia]). cbn [res_bind].
  destruct bs as [|b' bs].
  - cbn [length utf8_need with_utf8]. rewrite Hneed, (proj2 (Z.eqb_eq (len pre + 1) _)) by (cbn [length]; lia). cbn [negb utf8 with_utf8].
    assert (get_range (pre ++ b :: rest) 0 (len pre + 1) = Some (pre ++ [b])) as ->.
    { apply get_range_Some. rewrite length_app. cbn [length]. split_conj; [lia..|].
      change (Z.to_nat 0) with 0%nat. rewrite drop_0, Z.sub_0_r. change 1 with (Z.of_nat 1).
      rewrite <-Nat2Z.inj_add, Nat2Z.id. by rewrite take_app_add. }
    cbn [or_panic res_bind fed feed_all]. intros [Hok _]. eexists. split; [done|]. by split.
  - cbn [utf8_need with_utf8]. rewrite Hneed, (proj2 (Z.eqb_neq (len pre + 1) _)) by (cbn [length]; lia). cbn [negb fed res_bind]. intros [Hok _].
    destruct (IH _ (pre ++ [b]) rest Hok) as (d' & Hd' & Hi); try done.
    + cbn [utf8 with_utf8]. by rewrite <-app_assoc.
    + cbn [utf8_len with_utf8]. rewrite length_app. simpl. lia.
    + rewrite length_app. simpl. lia.
    + cbn [utf8_need with_utf8]. rewrite length_app. cbn [length] in *. lia.
    + rewrite length_app. cbn [length] in *. lia.
    + rewrite Hd'. cbn [res_bind length]. rewrite <-app_assoc. cbn [app Nat.sub]. rewrite Nat.sub_0_r.
      by exists d'.
Qed.

Definition need (b0 : Z) : Z := if b0 <? 0xe0 then 2 else if b0 <? 0xf0 then 3 else 4.

(** A character beyond ASCII: a lead byte that announces its continuation. *)
Lemma encode_shape c :
  is_scalar c = true -> 128 <= c ->
  exists b0 bs, encode_utf8 c = b0 :: bs /\ bs <> [] /\ 0xc2 <= b0 <= 0xf4 /\ need b0 = 1 + len bs /\
    len bs <= 3 /\ Forall (fun b => is_cont b = true) bs.
Proof.
  rewrite is_scalar_spec. intros Hs Hc. unfold encode_utf8, need, is_cont, in_range. rewrite (proj2 (Z.ltb_ge c 128)) by lia.
  destruct (Z.ltb_spec c 2048); [|destruct (Z.ltb_spec c 65536)]; eexists _, _; (split; [reflexivity|]); (split; [done|]).
  - pose proof (digits2 c). split_conj; [lia|lia|bool_cases; lia|simpl; lia|]. repeat constructor; bool_cases; done.
  - pose proof (digits3 c). split_conj; [lia|lia|bool_cases; lia|simpl; lia|]. repeat constructor; bool_cases; done.
  - pose proof (digits4 c). split_conj; [lia|lia|bool_cases; lia|simpl; lia|]. repeat constructor; bool_cases; done.
Qed.

Lemma is_printable_range c : is_printable_scalar c = true -> c < 0 \/ 32 <= c <= 126 \/ 160 <= c.
Proof.
  unfold is_printable_scalar, is_control, in_range. intros [H _]%andb_true_iff. apply negb_true_iff, orb_false_iff in H as [H1 H2].
  bool_prop. lia.
Qed.

Lemma feed_lead d b0 :
  idle d -> 0xc2 <= b0 <= 0xf4 ->
  feed d b0 = Ok (with_utf8 (with_suppress d false) (b0 :: tail (utf8 d)) 1 (need b0), NoEvent).
Proof.
  intros [Hd He Hu] Hb. unfold feed, plain_byte. cbn [escape with_suppress]. rewrite He.
  rewrite (proj2 (Z.eqb_neq b0 3)), (proj2 (Z.eqb_neq b0 10)), (proj2 (Z.eqb_neq b0 13)), andb_false_r by lia.
  cbn [orb andb]. rewrite bool_decide_eq_true_2 by done. cbn [negb utf8_len with_suppress]. rewrite Hu. cbn [Z.eqb negb].
  unfold in_range. rewrite (proj2 (Z.eqb_neq b0 27)), (proj2 (Z.eqb_neq b0 8)), (proj2 (Z.eqb_neq b0 127)),
    (proj2 (Z.eqb_neq b0 4)), (proj2 (Z.eqb_neq b0 9)) by lia. cbn [orb].
  rewrite (proj2 (Z.leb_gt b0 126)), andb_false_r, (proj2 (Z.leb_le 194 b0)), (proj2 (Z.leb_le b0 244)) by lia. cbn [andb].
  cbn [utf8 with_suppress]. pose proof (do_utf8 _ Hd) as H4. destruct (utf8 d) as [|x l]; [done|]. cbn [length] in H4.
  assert (put_range (x :: l) 0 [b0] = Some (b0 :: l)) as ->; [|done].
  apply put_range_Some. cbn [length]. split_conj; [lia|simpl; lia|done].
Qed.

(** A printable character is one [Insert], after its last byte. *)
Lemma feed_char d c :
  idle d -> is_scalar c = true -> is_printable_scalar c = true ->
  exists d', feed_all d (encode_utf8 c) = Ok (d', replicate (length (encode_utf8 c) - 1) NoEvent ++ [Insert c]) /\ idle d'.
Proof.
  intros Hi Hs Hp. pose proof (is_printable_range c Hp) as Hr. apply is_scalar_spec in Hs as Hs'.
  destruct (Z.ltb_spec c 128) as [Hlt|Hge].
  - unfold encode_utf8. rewrite (proj2 (Z.ltb_lt c 128)) by done. destruct Hi as [Hd He Hu].
    exists (with_suppress d false). split; [|by split; [apply with_suppress_ok|..]].
    cbn [feed_all length Nat.sub replicate app]. unfold feed, plain_byte. cbn [escape with_suppress]. rewrite He.
    rewrite (proj2 (Z.eqb_neq c 3)), (proj2 (Z.eqb_neq c 10)), (proj2 (Z.eqb_neq c 13)), andb_false_r by lia.
    cbn [orb andb]. rewrite bool_decide_eq_true_2 by done. cbn [negb utf8_len with_suppress]. rewrite Hu. cbn [Z.eqb negb].
    unfold in_range. rewrite (proj2 (Z.eqb_neq c 27)), (proj2 (Z.eqb_neq c 8)), (proj2 (Z.eqb_neq c 127)),
      (proj2 (Z.eqb_neq c 4)), (proj2 (Z.eqb_neq c 9)), (proj2 (Z.leb_le 32 c)), (proj2 (Z.leb_le c 126)) by lia. done.
  - destruct (encode_shape c Hs Hge) as (b0 & bs & E & Hne & Hb0 & Hneed & H3 & Hc).
    pose proof (do_utf8 _ (id_ok _ Hi)) as H4. destruct (utf8 d) as [|x l] eqn:Hul; [done|]. cbn [length] in H4.
    destruct (feed_tail bs (with_utf8 (with_suppress d false) (b0 :: l) 1 (need b0)) [b0] l) as (d' & Hd' & Hi'); try done.
    + destruct Hi as [[? Hb ? ? ?] He Hu]. split; try done; cbn [utf8 with_utf8 escape utf8_len utf8_need with_suppress].
      * rewrite Hul in Hb. apply Forall_cons in Hb as [_ Hb]. apply Forall_cons. split; [unfold in_u8; lia|done].
      * right. split; [done|]. destruct bs; [done|]. cbn [length] in *. lia.
    + apply Hi.
    + simpl. lia.
    + exists d'. split; [|done]. rewrite E. cbn [feed_all]. rewrite feed_lead, Hul by done. cbn [res_bind tail]. rewrite Hd'.
      cbn [res_bind app length]. unfold character. rewrite <-E, <-(app_nil_r (encode_utf8 c)), from_utf8_encode by done.
      cbn [from_utf8 fmap option_fmap option_map mbind option_bind head]. rewrite Hp.
      destruct bs; [done|]. cbn [length Nat.sub app replicate]. by rewrite Nat.sub_0_r.
Qed.

Lemma idle_new : idle decoder_new.
Proof. split; try done. apply new_decoder_ok. Qed.

(** The characters an event stream inserts. *)
Definition inserted (es : list InputEvent) : list Z :=
  omap (fun e => match e with Insert c => Some c | _ => None end) es.

(** *** Paste *)

(** What follows the first end marker, if there is one. *)
Fixpoint strip (prefix bs : list Z) : option (list Z) :=
  match prefix, bs with
  | [], _ => Some bs
  | p :: prefix, b :: bs => if p =? b then strip prefix bs else None
  | _, [] => None
  end.

Fixpoint after_paste (bs : list Z) : option (list Z) :=
  match bs with
  | [] => None
  | b :: rest =>
      match strip PASTE_END bs with Some rest => Some rest | None => after_paste rest end
  end.

(** The decoder while it discards a paste, [m] bytes of the marker matched. *)
Definition pasting (d : InputDecoder) (m : Z) (lf : bool) : InputDecoder :=
  mkDecoder (utf8 d) 0 (utf8_need d) (escape_bytes d) 0 (Paste m) lf.
Definition resumed (d : InputDecoder) : InputDecoder :=
  mkDecoder (utf8 d) 0 (utf8_need d) (escape_bytes d) 0 NoEscape false.

Lemma after_paste_match m b bs :
  0 <= m <= 4 -> get_at PASTE_END m = Some b ->
  after_paste (take (Z.to_nat m) PASTE_END ++ b :: bs) = after_paste (take (Z.to_nat (m + 1)) PASTE_END ++ bs).
Proof.
  intros Hm Hb. assert (m = 0 \/ m = 1 \/ m = 2 \/ m = 3 \/ m = 4) as Hc by lia.
  destruct Hc as [->|[->|[->|[->| ->]]]]; vm_compute in Hb; by injection Hb as <-.
Qed.

Lemma after_paste_skip x bs : x <> 27 -> after_paste (x :: bs) = after_paste bs.
Proof. intros Hx. cbn [after_paste strip PASTE_END]. by rewrite (proj2 (Z.eqb_neq 27 x)) by congruence. Qed.

Lemma after_paste_mismatch m b bs :
  0 <= m <= 5 -> get_at PASTE_END m <> Some b ->
  after_paste (take (Z.to_nat m) PASTE_END ++ b :: bs) =
  if b =? 27 then after_paste (take 1 PASTE_END ++ bs) else after_paste bs.
Proof.
  intros Hm Hb. assert (after_paste (b :: bs) = if b =? 27 then after_paste (take 1 PASTE_END ++ bs) else after_paste bs) as Hend.
  { destruct (Z.eqb_spec b 27) as [->|]; [done|]. by apply after_paste_skip. }
  assert (m = 0 \/ m = 1 \/ m = 2 \/ m = 3 \/ m = 4 \/ m = 5) as Hc by lia. rewrite <-Hend.
  destruct Hc as [->|[->|[->|[->|[->| ->]]]]];
    match type of Hb with Some ?c <> _ => idtac | ?x <> _ => let y := eval vm_compute in x in change x with y in Hb end;
    match goal with |- after_paste (take ?n _ ++ _) = _ => let k := eval vm_compute in (take n PASTE_END) in change (take n PASTE_END) with k end;
    cbn [app]; [done|..];
    match goal with |- after_paste (27 :: ?l) = _ =>
      change (after_paste (27 :: l)) with (match strip PASTE_END (27 :: l) with Some rest => Some rest | None => after_paste l end) end;
    cbn [strip PASTE_END]; rewrite ?Z.eqb_refl;
    match goal with |- context [?c =? b] => rewrite (proj2 (Z.eqb_neq c b)) by congruence end; by rewrite ?after_paste_skip by done.
Qed.

Lemma feed_pasting d m lf b :
  0 <= m <= 5 -> (lf = true -> m = 0) -> b <> 3 ->
  exists d', feed (pasting d m lf) b = Ok (d', NoEvent) /\
  if bool_decide (get_at PASTE_END m = Some b) then
    if m =? 5 then d' = resumed d else d' = pasting d (m + 1) false
  else exists lf', d' = pasting d (if b =? 27 then 1 else 0) lf' /\ (lf' = true -> b <> 27).
Proof.
  intros Hm Hlf Hb. unfold feed. rewrite (proj2 (Z.eqb_neq b 3)) by done. cbn [suppress_lf pasting].
  destruct (lf && (b =? 10)) eqn:E.
  - apply andb_true_iff in E as [-> ->%Z.eqb_eq]. rewrite Hlf by done. eexists. split; [done|]. cbn. by exists false.
  - cbn [escape with_suppress pasting]. rewrite paste_end_next_spec by done. cbn [res_bind]. eexists. split; [done|].
    change (len PASTE_END) with 6. destruct (bool_decide_reflect (get_at PASTE_END m = Some b)) as [He|He].
    + assert (b <> 13) as H13 by (intros ->; assert (m = 0 \/ m = 1 \/ m = 2 \/ m = 3 \/ m = 4 \/ m = 5) as Hc by lia;
        destruct_or?; subst; vm_compute in He; done).
      destruct (Z.eqb_spec m 5) as [->|]; [|rewrite (proj2 (Z.eqb_neq (m + 1) 6)) by lia];
        cbn; by rewrite (proj2 (Z.eqb_neq b 13)).
    + assert ((if b =? 27 then 1 else 0) =? 6 = false) as -> by (by case_match). exists (b =? 13). split; [done|].
      by intros ->%Z.eqb_eq.
Qed.

(** The decoder drops a paste up to its first end marker and goes on after it. *)
Lemma feed_paste bs : forall d m lf,
  0 <= m <= 5 -> (lf = true -> m = 0) -> 3 ∉ bs ->
  match after_paste (take (Z.to_nat m) PASTE_END ++ bs) with
  | Some rest =>
      exists n, feed_all (pasting d m lf) bs =
        (let! '(d, es) := feed_all (resumed d) rest in Ok (d, replicate n NoEvent ++ es)) /\ (n + length rest = length bs)%nat
  | None => exists m' lf', feed_all (pasting d m lf) bs = Ok (pasting d m' lf', replicate (length bs) NoEvent)
  end.
Proof.
  induction bs as [|b bs IH]; intros d m lf Hm Hlf H3.
  { assert (after_paste (take (Z.to_nat m) PASTE_END ++ []) = None) as ->; [|by eexists _, _].
    assert (m = 0 \/ m = 1 \/ m = 2 \/ m = 3 \/ m = 4 \/ m = 5) as Hc by lia. by destruct_or?; subst. }
  apply not_elem_of_cons in H3 as [Hb H3]. destruct (feed_pasting d m lf b Hm Hlf) as (d' & Hf & Hd'); [done|].
  cbn [feed_all]. rewrite Hf. cbn [res_bind].
  destruct (bool_decide_reflect (get_at PASTE_END m = Some b)) as [He|He].
  - destruct (Z.eqb_spec m 5) as [->|].
    + vm_compute in He. injection He as <-. subst d'. change (after_paste _) with (Some bs). exists 1%nat. split; [|done].
      by destruct (feed_all (resumed d) bs) as [[]| |].
    + rewrite after_paste_match by (done || lia). subst d'. specialize (IH d (m + 1) false ltac:(lia) ltac:(done) H3).
      destruct (after_paste _).
      * destruct IH as (n' & -> & Hn). exists (S n'). split; [|cbn; lia]. by destruct (feed_all (resumed d) l) as [[]| |].
      * destruct IH as (m' & lf' & ->). by exists m', lf'.
  - rewrite after_paste_mismatch by done. destruct Hd' as (lf' & -> & Hlf').
    specialize (IH d (if b =? 27 then 1 else 0) lf' ltac:(case_match; lia)
      ltac:(intros ?; destruct (Z.eqb_spec b 27); [naive_solver|done]) H3).
    assert ((if b =? 27 then after_paste (take 1 PASTE_END ++ bs) else after_paste bs) =
      after_paste (take (Z.to_nat (if b =? 27 then 1 else 0)) PASTE_END ++ bs)) as -> by (by case_match).
    destruct (after_paste _).
    + destruct IH as (n' & -> & Hn). exists (S n'). split; [|cbn; lia]. by destruct (feed_all (resumed d) l) as [[]| |].
    + destruct IH as (m' & lf'' & ->). by exists m', lf''.
Qed.

(** Bracketed paste opens with [ESC [ 200 ~], which is refused as an escape. *)
Definition paste_open : list Z := 27 :: 91 :: PASTE_START.
Definition opening : list InputEvent := [NoEvent; NoEvent; NoEvent; NoEvent; NoEvent; Rejected UnsupportedEscape].

Lemma feed_open d :
  idle d -> exists bytes, feed_all d paste_open = Ok (pasting (with_stored d bytes 0) 0 false, opening).
Proof.
  intros [[_ _ Hs _ _] He Hu]. destruct d as [u ul un eb el e lf]. cbn in *. subst.
  assert (length eb = 12%nat) as H12 by lia. clear Hs. do 12 (destruct eb as [|? eb]; [done|]). destruct eb; [|done]. eexists. destruct lf; vm_compute; reflexivity.
Qed.

Lemma idle_pending d : decoder_ok d -> is_pending d = false <-> idle d.
Proof.
  intros Hd. unfold is_pending. rewrite orb_false_iff, !negb_false_iff, Z.eqb_eq, bool_decide_eq_true.
  split; [intros []; by split|by intros []].
Qed.

(** ** Theorems *)

(** the decoder takes any bytes: no byte makes it panic, each gives one
    event, every character it reports is a printable scalar value, it stores at
    most twelve bytes, Ctrl-C abandons whatever is pending, and the end of the
    stream reports exactly whether something was. *)
Theorem decoder_safe (bytes : list Z) :
  bytes_ok bytes ->
  exists d events, feed_all decoder_new bytes = Ok (d, events) /\ length events = length bytes /\
  (forall ch, Insert ch ∈ events -> is_scalar ch = true /\ is_printable_scalar ch = true) /\
  0 <= pending_bytes d <= 12 /\
  (exists d', feed d 3 = Ok (d', Cancel) /\ is_pending d' = false) /\
  is_pending (finish d).1 = false /\ ((finish d).2 = NoEvent <-> is_pending d = false).
Proof.
  intros Hb. destruct (feed_all_ok bytes decoder_new new_decoder_ok Hb) as (d & es & Hf & Hd & Hes & Hl).
  exists d, es. split_conj; try done.
  - intros ch Hin. rewrite Forall_forall in Hes. exact (Hes _ Hin).
  - unfold pending_bytes. destruct Hd as [_ _ _ He Ht]. destruct (escape d), Ht as [|(? & ? & ?)]; cbn in *; try done; lia.
  - unfold pending_bytes. destruct Hd as [_ _ _ He Ht]. destruct (escape d), Ht as [|(? & ? & ?)]; cbn in *; try done; lia.
  - by exists (reset d).
  - unfold finish, is_pending. cbn [snd]. destruct (utf8_len d =? 0), (bool_decide (escape d = NoEscape)); done.
Qed.

Lemma decoder_safe_witness :
  bytes_ok [104; 195; 169; 27; 91; 65] /\
  exists d events, feed_all decoder_new [104; 195; 169; 27; 91; 65] = Ok (d, events) /\ length events = 6%nat.
Proof.
  split; [by apply (bool_decide_unpack _)|].
  destruct (decoder_safe [104; 195; 169; 27; 91; 65]) as (d & es & H & Hl & _); [by apply (bool_decide_unpack _)|].
  by exists d, es.
Defined.

(** bracketed paste is discarded.  From any decoder with nothing pending,
    the bytes after the opening sequence give no event up to the first end
    marker among them, wherever it is; the bytes after the marker are decoded
    from a decoder with nothing pending again, and without a marker the decoder
    stays in the paste.  Only Ctrl-C would break it off. *)
Theorem paste_discarded (before : list Z) (d : InputDecoder) (events : list InputEvent) (bytes : list Z) :
  bytes_ok before -> feed_all decoder_new before = Ok (d, events) -> is_pending d = false -> 3 ∉ bytes ->
  match after_paste bytes with
  | Some rest =>
      exists d' n, is_pending d' = false /\ (n + length rest = length bytes)%nat /\
      feed_all d (paste_open ++ bytes) =
      (let! '(d, more) := feed_all d' rest in Ok (d, opening ++ replicate n NoEvent ++ more))
  | None =>
      exists d', is_pending d' = true /\
      feed_all d (paste_open ++ bytes) = Ok (d', opening ++ replicate (length bytes) NoEvent)
  end.
Proof.
  intros Hb Hf Hp H3. destruct (feed_all_ok before decoder_new new_decoder_ok Hb) as (d1 & es & Hf' & Hd & _).
  rewrite Hf in Hf'. injection Hf' as <- <-. apply idle_pending in Hp; [|done].
  destruct (feed_open d Hp) as [stored Ho]. rewrite feed_all_app, Ho. cbn [res_bind].
  pose proof (feed_paste bytes (with_stored d stored 0) 0 false ltac:(lia) ltac:(done) H3) as H. cbn [Z.to_nat take app] in H.
  change (take (Z.to_nat 0) PASTE_END ++ bytes) with bytes in H. destruct (after_paste bytes) as [rest|].
  - destruct H as (n & -> & Hn). eexists (resumed (with_stored d stored 0)), n. split_conj; [done..|].
    by destruct (feed_all _ rest) as [[]| |].
  - destruct H as (m' & lf & ->). eexists. split; [|done]. unfold is_pending. by rewrite bool_decide_eq_false_2.
Qed.

Lemma paste_discarded_witness :
  is_pending decoder_new = false /\ after_paste ([114; 109; 13; 10] ++ PASTE_END ++ [120]) = Some [120] /\
  exists d' n, is_pending d' = false /\ (n + 1 = 11)%nat /\
  feed_all decoder_new (paste_open ++ [114; 109; 13; 10] ++ PASTE_END ++ [120]) =
  (let! '(d, more) := feed_all d' [120] in Ok (d, opening ++ replicate n NoEvent ++ more)).
Proof.
  split; [done|]. split; [done|].
  apply (paste_discarded [] decoder_new [] ([114; 109; 13; 10] ++ PASTE_END ++ [120])); [constructor|done|done|].
  apply (bool_decide_unpack _). by vm_compute.
Defined.
