(* ===== verification/Editor.v ===== *)
(** * Line editor (crates/wyrmroot-wyrmsh-core/src/editor.rs, redraw.rs)

    The editor keeps the line as UTF-8 in a fixed array with a byte cursor, a
    saved draft while the history is browsed, and the history itself; [Redraw]
    emits the one-row frame of a line piecewise.  A [&str] is its bytes, a
    [char] a scalar value; the [expect]s and the slice bounds of the code are
    [Panic]. *)

From stdpp Require Import base tactics option list list_numbers.
From Stdlib Require Import ZArith Lia.
From S2P Require Import Prelude Bytes Utf8 History Input.

(** [text.chars()] and [text.char_indices()] of a [&str]. *)
Definition chars (text : list Z) : list Z := default [] (from_utf8 text).
Fixpoint indices (i : Z) (cs : list Z) : list (Z * Z) :=
  match cs with
  | [] => []
  | c :: cs => (i, c) :: indices (i + len_utf8 c) cs
  end.
Definition char_indices (text : list Z) : list (Z * Z) := indices 0 (chars text).

(** [slice.copy_within(a..b, dest)] *)
Definition copy_within (l : list Z) (a b dest : Z) : option (list Z) :=
  part ← get_range l a b; put_range l dest part.

Module Redraw.

(** ["\r\x1b[2Kwyrmsh> "] *)
Definition PROMPT_AND_ERASE : list Z := [13; 27; 91; 50; 75; 119; 121; 114; 109; 115; 104; 62; 32].
Definition VISIBLE_SCALARS : Z := 71.

Record Redraw := mkRedraw {
  r_line : list Z; visible_start : Z; visible_end : Z; cursor_back : list Z; cursor_back_len : Z; emitted : Z }.

Notation result := (res Empty_set).

Definition byte_at_scalar (text : list Z) (scalar : Z) : Z :=
  match char_indices text !! Z.to_nat scalar with Some (index, _) => index | None => len text end.

Definition byte_at_scalar_from (text : list Z) (start count : Z) : result Z :=
  let! rest := or_panic (str_get text start (len text)) in
  match char_indices rest !! Z.to_nat count with Some (index, _) => plus start index | None => Ok (len text) end.

(** [b'0' + value as u8] *)
Definition digit (value : Z) : result Z := or_panic (checked_add (2 ^ 8) 48 (value mod 2 ^ 8)).

Definition cursor_back_sequence (columns : Z) : result (list Z * Z) :=
  if columns =? 0 then Ok ([0; 0; 0; 0; 0], 0)
  else if columns >=? 10 then
    let! tens := digit (columns / 10) in
    let! units := digit (columns mod 10) in
    Ok ([27; 91; tens; units; 68], 5)
  else
    let! units := digit columns in
    Ok ([27; 91; units; 68; 0], 4).

(** [usize::saturating_sub] *)
Definition saturating_sub (a b : Z) : Z := Z.max 0 (a - b).

Definition redraw_new (line : list Z) (cursor : Z) : result Redraw :=
  let! before := or_panic (str_get line 0 cursor) in
  let cursor_scalars := len (chars before) in
  let total_scalars := len (chars line) in
  let visible_start_scalar :=
    Z.min (saturating_sub cursor_scalars (VISIBLE_SCALARS / 2)) (saturating_sub total_scalars VISIBLE_SCALARS) in
  let visible_start := byte_at_scalar line visible_start_scalar in
  let! visible_end := byte_at_scalar_from line visible_start VISIBLE_SCALARS in
  let! visible := or_panic (str_get line visible_start visible_end) in
  let visible_scalars := len (chars visible) in
  let! cursor_in_window := minus cursor_scalars visible_start_scalar in
  let! back := minus visible_scalars cursor_in_window in
  let! '(cursor_back, cursor_back_len) := cursor_back_sequence back in
  Ok (mkRedraw line visible_start visible_end cursor_back cursor_back_len 0).

(** The loop of [read]: the output and the bytes written. *)
Fixpoint read_loop (segments : list (list Z)) (skipped written : Z) (output : list Z) : result (list Z * Z) :=
  match segments with
  | [] => Ok (output, written)
  | segment :: segments =>
      if skipped >=? len segment then
        let! skipped := minus skipped (len segment) in read_loop segments skipped written output
      else
      let! source := or_panic (get_range segment skipped (len segment)) in
      let! room := minus (len output) written in
      let count := Z.min (len source) room in
      let! chunk := or_panic (get_range source 0 count) in
      let! output := or_panic (put_range output written chunk) in
      let! written := plus written count in
      if written =? len output then Ok (output, written) else read_loop segments 0 written output
  end.

(** [Redraw::read]: the frame and the output after the call, and its result. *)
Definition read (r : Redraw) (output : list Z) : result (Redraw * list Z * Z) :=
  if bool_decide (output = []) then Ok (r, output, 0)
  else
  let! visible := or_panic (get_range (r_line r) (visible_start r) (visible_end r)) in
  let! back := or_panic (get_range (cursor_back r) 0 (cursor_back_len r)) in
  let! '(output, written) := read_loop [PROMPT_AND_ERASE; visible; back] (emitted r) 0 output in
  let! emitted := plus (emitted r) written in
  Ok (mkRedraw (r_line r) (visible_start r) (visible_end r) (cursor_back r) (cursor_back_len r) emitted,
      output, written).

End Redraw.

Module Editor.

Definition MAX_LINE_BYTES : Z := 4096.

(** [EditError::Input] is [InputRejected]. *)
Inductive EditError := InputRejected (e : Input.InputError) | LineTooLong | UnsupportedCharacter.
Inductive EditOutcome :=
| Unchanged | Changed | Submitted | Cancelled | EofReached | RejectedEdit (e : EditError) | Busy.

Record Editor := mkEditor {
  line_bytes : list Z; e_len : Z; e_cursor : Z; history : History.History; draft : list Z; draft_len : Z;
  draft_cursor : Z; browsing : option Z; submission_pending : bool }.

Definition editor_new : Editor :=
  mkEditor (replicate (Z.to_nat MAX_LINE_BYTES) 0) 0 0 History.history_new
    (replicate (Z.to_nat MAX_LINE_BYTES) 0) 0 0 None false.

Notation result := (res Empty_set).

(** The line and the cursor are assigned together. *)
Definition with_line (e : Editor) (bytes : list Z) (n cursor : Z) : Editor :=
  mkEditor bytes n cursor (history e) (draft e) (draft_len e) (draft_cursor e) (browsing e) (submission_pending e).
Definition with_cursor (e : Editor) (cursor : Z) : Editor := with_line e (line_bytes e) (e_len e) cursor.
Definition with_draft (e : Editor) (bytes : list Z) (n cursor : Z) : Editor :=
  mkEditor (line_bytes e) (e_len e) (e_cursor e) (history e) bytes n cursor (browsing e) (submission_pending e).
Definition with_browsing (e : Editor) (b : option Z) : Editor :=
  mkEditor (line_bytes e) (e_len e) (e_cursor e) (history e) (draft e) (draft_len e) (draft_cursor e) b
    (submission_pending e).
Definition with_pending (e : Editor) (b : bool) : Editor :=
  mkEditor (line_bytes e) (e_len e) (e_cursor e) (history e) (draft e) (draft_len e) (draft_cursor e) (browsing e) b.
Definition with_history (e : Editor) (h : History.History) : Editor :=
  mkEditor (line_bytes e) (e_len e) (e_cursor e) h (draft e) (draft_len e) (draft_cursor e) (browsing e)
    (submission_pending e).

Definition line (e : Editor) : result (list Z) :=
  let! bytes := or_panic (get_range (line_bytes e) 0 (e_len e)) in
  Ok (if is_utf8 bytes then bytes else []).
Definition cursor (e : Editor) : Z := e_cursor e.
Definition history_len (e : Editor) : Z := History.history_len (history e).
Definition history_bytes (e : Editor) : Z := History.history_bytes (history e).

Definition redraw (e : Editor) : result Redraw.Redraw :=
  let! text := line e in Redraw.redraw_new text (e_cursor e).

(** [self.line().get(..self.cursor).expect(...).chars().next_back()] *)
Definition char_before (e : Editor) : result (option Z) :=
  let! text := line e in
  let! before := or_panic (str_get text 0 (e_cursor e)) in
  Ok (last (chars before)).
(** [self.line().get(self.cursor..).expect(...).chars().next()] *)
Definition char_after (e : Editor) : result (option Z) :=
  let! text := line e in
  let! after := or_panic (str_get text (e_cursor e) (len text)) in
  Ok (head (chars after)).

Definition insert (e : Editor) (ch : Z) : result (Editor * EditOutcome) :=
  if negb (Input.is_printable_scalar ch) then Ok (e, RejectedEdit UnsupportedCharacter)
  else
  let bytes := encode_utf8 ch in
  let! room := minus MAX_LINE_BYTES (e_len e) in
  if len bytes >? room then Ok (e, RejectedEdit LineTooLong)
  else
  let! next := plus (e_cursor e) (len bytes) in
  let! l := or_panic (copy_within (line_bytes e) (e_cursor e) (e_len e) next) in
  let! l := or_panic (put_range l (e_cursor e) bytes) in
  let! n := plus (e_len e) (len bytes) in
  Ok (with_line e l n next, Changed).

Definition left (e : Editor) : result (Editor * EditOutcome) :=
  let! c := char_before e in
  match c with
  | None => Ok (e, Unchanged)
  | Some ch => let! cursor := minus (e_cursor e) (len_utf8 ch) in Ok (with_cursor e cursor, Changed)
  end.

Definition right (e : Editor) : result (Editor * EditOutcome) :=
  let! c := char_after e in
  match c with
  | None => Ok (e, Unchanged)
  | Some ch => let! cursor := plus (e_cursor e) (len_utf8 ch) in Ok (with_cursor e cursor, Changed)
  end.

Definition set_cursor (e : Editor) (cursor : Z) : Editor * EditOutcome :=
  if e_cursor e =? cursor then (e, Unchanged) else (with_cursor e cursor, Changed).

Definition delete (e : Editor) : result (Editor * EditOutcome) :=
  let! c := char_after e in
  match c with
  | None => Ok (e, Unchanged)
  | Some ch =>
      let! end_ := plus (e_cursor e) (len_utf8 ch) in
      let! l := or_panic (copy_within (line_bytes e) end_ (e_len e) (e_cursor e)) in
      let! n := minus (e_len e) (len_utf8 ch) in
      Ok (with_line e l n (e_cursor e), Changed)
  end.

Definition backspace (e : Editor) : result (Editor * EditOutcome) :=
  let! c := char_before e in
  match c with
  | None => Ok (e, Unchanged)
  | Some ch =>
      let! start := minus (e_cursor e) (len_utf8 ch) in
      let! l := or_panic (copy_within (line_bytes e) (e_cursor e) (e_len e) start) in
      let! n := minus (e_len e) (len_utf8 ch) in
      Ok (with_line e l n start, Changed)
  end.

(** [self.len = self.history.copy_entry(index, &mut self.line); self.cursor = self.len], at the given age. *)
Definition recall (e : Editor) (age : Z) : result Editor :=
  let e := with_browsing e (Some age) in
  let! newest := minus (history_len e) 1 in
  let! index := minus newest age in
  let! '(n, l) := History.copy_entry (history e) index (line_bytes e) in
  Ok (with_line e l n n).

Definition up (e : Editor) : result (Editor * EditOutcome) :=
  if history_len e =? 0 then Ok (e, Unchanged)
  else
  match browsing e with
  | None =>
      let! bytes := or_panic (get_range (line_bytes e) 0 (e_len e)) in
      let! d := or_panic (put_range (draft e) 0 bytes) in
      let! e := recall (with_draft e d (e_len e) (e_cursor e)) 0 in
      Ok (e, Changed)
  | Some age =>
      let! older := plus age 1 in
      if older <? history_len e then let! e := recall e older in Ok (e, Changed)
      else Ok (e, Unchanged)
  end.

Definition down (e : Editor) : result (Editor * EditOutcome) :=
  match browsing e with
  | None => Ok (e, Unchanged)
  | Some age =>
      if negb (age =? 0) then
        let! next_age := minus age 1 in
        let! e := recall e next_age in
        Ok (e, Changed)
      else
        let! bytes := or_panic (get_range (draft e) 0 (draft_len e)) in
        let! l := or_panic (put_range (line_bytes e) 0 bytes) in
        Ok (with_browsing (with_line e l (draft_len e) (draft_cursor e)) None, Changed)
  end.

Definition clear_draft (e : Editor) : Editor :=
  mkEditor (line_bytes e) 0 0 (history e) (draft e) 0 0 None (submission_pending e).

Definition apply (e : Editor) (event : Input.InputEvent) : result (Editor * EditOutcome) :=
  if submission_pending e then Ok (e, Busy)
  else
  match event with
  | Input.NoEvent => Ok (e, Unchanged)
  | Input.Insert ch => insert e ch
  | Input.Left => left e
  | Input.Right => right e
  | Input.Home => Ok (set_cursor e 0)
  | Input.End => Ok (set_cursor e (e_len e))
  | Input.Delete => delete e
  | Input.Backspace => backspace e
  | Input.Up => up e
  | Input.Down => down e
  | Input.Submit => Ok (with_pending e true, Submitted)
  | Input.Cancel => Ok (clear_draft e, Cancelled)
  | Input.Eof => Ok (e, if e_len e =? 0 then EofReached else Unchanged)
  | Input.Rejected error => Ok (e, RejectedEdit (InputRejected error))
  end.

Definition accept_submission (e : Editor) : result Editor :=
  if negb (submission_pending e) then Ok e
  else
  let! bytes := or_panic (get_range (line_bytes e) 0 (e_len e)) in
  let! h := History.push (history e) bytes in
  Ok (clear_draft (with_pending (with_history e h) false)).

End Editor.
