(* ===== verification/EditorThms.v ===== *)
(** * The editor is a line of characters with a cursor

    The specification keeps the characters before and after the cursor, the
    committed lines and the draft set aside while they are browsed.  The byte
    arrays refine it, and a frame shows the part of it around the cursor. *)

From stdpp Require Import base tactics option list list_numbers.
From Stdlib Require Import ZArith Lia.
From S2P Require Import Prelude Bytes Utf8 History HistoryThms Input InputThms Editor.

Import Editor.

(** ** Specification *)

Record Model := mkModel {
  before : list Z; after : list Z; lines : list (list Z); saved : option (nat * (list Z * list Z)); frozen : bool }.

Definition model_new : Model := mkModel [] [] [] None false.

(** The line as text: its characters and its bytes. *)
Definition text (m : Model) : list Z := before m ++ after m.
Definition bytes (m : Model) : list Z := encode_all (text m).

Definition edit (m : Model) (b a : list Z) : Model := mkModel b a (lines m) (saved m) (frozen m).
Definition cleared (m : Model) : Model := mkModel [] [] (lines m) None (frozen m).

(** The committed line of the given age, the newest being 0, with the cursor at its end. *)
Definition show_line (m : Model) (age : nat) (d : list Z * list Z) : Model :=
  mkModel (chars (default [] (lines m !! (length (lines m) - 1 - age)%nat))) [] (lines m) (Some (age, d)) (frozen m).

Definition spec_apply (m : Model) (event : Input.InputEvent) : Model * EditOutcome :=
  if frozen m then (m, Busy)
  else
  match event with
  | Input.NoEvent => (m, Unchanged)
  | Input.Insert c =>
      if negb (Input.is_printable_scalar c) then (m, RejectedEdit UnsupportedCharacter)
      else if len (bytes m) + len_utf8 c >? MAX_LINE_BYTES then (m, RejectedEdit LineTooLong)
      else (edit m (before m ++ [c]) (after m), Changed)
  | Input.Left =>
      match last (before m) with
      | Some c => (edit m (removelast (before m)) (c :: after m), Changed)
      | None => (m, Unchanged)
      end
  | Input.Right =>
      match after m with
      | c :: a => (edit m (before m ++ [c]) a, Changed)
      | [] => (m, Unchanged)
      end
  | Input.Home => (edit m [] (text m), if decide (before m = []) then Unchanged else Changed)
  | Input.End => (edit m (text m) [], if decide (after m = []) then Unchanged else Changed)
  | Input.Delete =>
      match after m with
      | c :: a => (edit m (before m) a, Changed)
      | [] => (m, Unchanged)
      end
  | Input.Backspace =>
      match before m with
      | [] => (m, Unchanged)
      | b => (edit m (removelast b) (after m), Changed)
      end
  | Input.Up =>
      match lines m, saved m with
      | [], _ => (m, Unchanged)
      | _, None => (show_line m 0 (before m, after m), Changed)
      | _, Some (age, d) =>
          if decide (S age < length (lines m))%nat then (show_line m (S age) d, Changed) else (m, Unchanged)
      end
  | Input.Down =>
      match saved m with
      | None => (m, Unchanged)
      | Some (S age, d) => (show_line m age d, Changed)
      | Some (O, (b, a)) => (mkModel b a (lines m) None (frozen m), Changed)
      end
  | Input.Submit => (mkModel (before m) (after m) (lines m) (saved m) true, Submitted)
  | Input.Cancel => (cleared m, Cancelled)
  | Input.Eof => (m, if decide (text m = []) then EofReached else Unchanged)
  | Input.Rejected e => (m, RejectedEdit (InputRejected e))
  end.

Definition spec_accept (m : Model) : Model :=
  if frozen m then mkModel [] [] (spec_push (lines m) (bytes m)) None false else m.

(** ** Representation *)

(** The first [n] bytes of the array are the text [cs]. *)
Record holds (buffer : list Z) (n : Z) (cs : list Z) : Prop := {
  h_size : len buffer = MAX_LINE_BYTES;
  h_count : n = len (encode_all cs);
  h_text : exists junk, buffer = encode_all cs ++ junk;
  h_scalars : scalars cs }.

Definition good_line (l : list Z) : Prop := exists cs, l = encode_all cs /\ scalars cs /\ len l <= MAX_LINE_BYTES.

Record shows (e : Editor) (m : Model) : Prop := {
  s_line : holds (line_bytes e) (e_len e) (text m);
  s_cursor : e_cursor e = len (encode_all (before m));
  s_draft : len (draft e) = MAX_LINE_BYTES;
  s_history : exists base, HistoryThms.rep (history e) base (lines m);
  s_good : Forall good_line (lines m);
  s_saved : match saved m with
    | None => browsing e = None
    | Some (age, (b, a)) => browsing e = Some (Z.of_nat age) /\ (age < length (lines m))%nat /\
        holds (draft e) (draft_len e) (b ++ a) /\ draft_cursor e = len (encode_all b)
    end;
  s_pending : submission_pending e = frozen m }.

Lemma chars_encode cs : scalars cs -> chars (encode_all cs) = cs.
Proof. intros. unfold chars. by rewrite from_utf8_encode_all. Qed.

Lemma holds_read buffer n cs : holds buffer n cs -> get_range buffer 0 n = Some (encode_all cs).
Proof. intros [_ -> [junk ->] _]. apply get_prefix. Qed.

Lemma holds_bound buffer n cs : holds buffer n cs -> 0 <= n <= MAX_LINE_BYTES.
Proof. intros [Hs -> [junk ->] _]. rewrite length_app in Hs. lia. Qed.

(** Writing a text over the start of an array. *)
Lemma holds_write buffer cs :
  len buffer = MAX_LINE_BYTES -> scalars cs -> len (encode_all cs) <= MAX_LINE_BYTES ->
  holds (encode_all cs ++ drop (length (encode_all cs)) buffer) (len (encode_all cs)) cs.
Proof.
  intros Hb Hs Hl. split; [|done|by eexists|done]. rewrite length_app, length_drop. lia.
Qed.

Lemma put_prefix (buffer vs : list Z) :
  len vs <= len buffer -> put_range buffer 0 vs = Some (vs ++ drop (length vs) buffer).
Proof. intros. apply put_range_Some. split_conj; [lia..|]. by rewrite Z.add_0_l, Nat2Z.id. Qed.

Section editing.
Context (e : Editor) (m : Model) (Hsh : shows e m).

Lemma line_spec : line e = Ok (bytes m).
Proof.
  unfold line. rewrite (holds_read _ _ _ (s_line _ _ Hsh)). cbn [or_panic res_bind]. unfold bytes.
  assert (is_utf8 (encode_all (text m)) = true) as ->; [|done].
  apply bool_decide_eq_true. eexists. apply from_utf8_encode_all, (h_scalars _ _ _ (s_line _ _ Hsh)).
Qed.

Lemma sides_scalars : scalars (before m) /\ scalars (after m).
Proof. apply Forall_app, (h_scalars _ _ _ (s_line _ _ Hsh)). Qed.

Lemma char_before_spec : char_before e = Ok (last (before m)).
Proof.
  destruct sides_scalars as [Hb Ha]. unfold char_before. rewrite line_spec. cbn [res_bind].
  rewrite (s_cursor _ _ Hsh). unfold bytes, text. pose proof (str_get_middle [] (before m) (after m) Hb Ha) as H.
  cbn [app] in H. change (len (encode_all [])) with 0 in H. rewrite Z.add_0_l in H. rewrite H. cbn [or_panic res_bind].
  by rewrite chars_encode.
Qed.

Lemma char_after_spec : char_after e = Ok (head (after m)).
Proof.
  destruct sides_scalars as [Hb Ha]. unfold char_after. rewrite line_spec. cbn [res_bind].
  rewrite (s_cursor _ _ Hsh). unfold bytes, text. pose proof (str_get_middle (before m) (after m) [] Ha ltac:(constructor)) as H.
  rewrite app_nil_r in H. rewrite encode_all_app at 2. rewrite length_app, Nat2Z.inj_add, H. cbn [or_panic res_bind].
  by rewrite chars_encode.
Qed.

(** An edit leaves the history and the draft alone. *)
Lemma edit_shows l n c b a :
  holds l n (b ++ a) -> c = len (encode_all b) -> shows (with_line e l n c) (edit m b a).
Proof. intros Hl Hc. destruct Hsh. by split. Qed.

Lemma cursor_shows b a c :
  b ++ a = text m -> c = len (encode_all b) -> shows (with_cursor e c) (edit m b a).
Proof. intros Ht Hc. apply edit_shows; [|done]. rewrite Ht. apply Hsh. Qed.
End editing.

(** ** Moving bytes *)

(** Room is made for [v] after [p], and [v] written there. *)
Lemma open_gap (p q junk v : list Z) :
  (length v <= length junk)%nat ->
  exists l junk', copy_within (p ++ q ++ junk) (len p) (len p + len q) (len p + len v) = Some l /\
    put_range l (len p) v = Some (p ++ v ++ q ++ junk') /\ (length v + length junk' = length junk)%nat.
Proof.
  intros Hv. unfold copy_within. rewrite get_range_middle. cbn [mbind option_bind].
  set (w := take (length v) (q ++ junk)). set (rest := drop (length v) (q ++ junk)).
  assert (length w = length v) as Hw by (unfold w; rewrite length_take, length_app; lia).
  assert (length rest = length q + length junk - length v)%nat as Hr by (unfold rest; rewrite length_drop, length_app; lia).
  assert (p ++ q ++ junk = (p ++ w) ++ take (length q) rest ++ drop (length q) rest) as ->
    by (rewrite take_drop, <-app_assoc; unfold w, rest; by rewrite take_drop).
  replace (len p + len v) with (len (p ++ w)) by (rewrite length_app; lia).
  rewrite put_range_middle by (rewrite length_take; lia). eexists _, (drop (length q) rest). split; [reflexivity|].
  rewrite <-app_assoc, put_range_middle by done. split; [done|]. rewrite length_drop. lia.
Qed.

(** [v] is taken out from between [p] and [q]. *)
Lemma close_gap (p v q junk : list Z) :
  exists junk', copy_within (p ++ v ++ q ++ junk) (len p + len v) (len p + len v + len q) (len p) = Some (p ++ q ++ junk') /\
    (length junk' = length v + length junk)%nat.
Proof.
  unfold copy_within. pose proof (get_range_middle (p ++ v) q junk) as H. rewrite length_app, Nat2Z.inj_add, <-app_assoc in H.
  rewrite H. cbn [mbind option_bind].
  exists (drop (length q) (v ++ q ++ junk)). rewrite length_drop, !length_app. split; [|lia].
  rewrite <-(take_drop (length q) (v ++ q ++ junk)) at 1. rewrite put_range_middle; [done|].
  rewrite length_take, !length_app. lia.
Qed.

Lemma holds_split buffer n b a :
  holds buffer n (b ++ a) ->
  exists junk, buffer = encode_all b ++ encode_all a ++ junk /\ n = len (encode_all b) + len (encode_all a) /\
    n + len junk = MAX_LINE_BYTES.
Proof.
  intros [Hs Hn [junk ->] _]. rewrite encode_all_app, !length_app in *. exists junk. rewrite <-app_assoc. split_conj; [done|lia..].
Qed.

Lemma holds_join b a junk :
  scalars b -> scalars a -> len (encode_all b) + len (encode_all a) + len junk = MAX_LINE_BYTES ->
  holds (encode_all b ++ encode_all a ++ junk) (len (encode_all b) + len (encode_all a)) (b ++ a).
Proof.
  intros Hb Ha Hl. split; rewrite ?encode_all_app, ?length_app; [lia|lia|exists junk; by rewrite <-app_assoc|by apply Forall_app].
Qed.

Lemma encode_one c : encode_all [c] = encode_utf8 c.
Proof. apply app_nil_r. Qed.

Lemma len_encode_one c : len (encode_all [c]) = len_utf8 c.
Proof. rewrite encode_one. apply length_encode_utf8. Qed.

(** ** One event *)

Definition refines (r : res Empty_set (Editor * EditOutcome)) (s : Model * EditOutcome) : Prop :=
  exists e, r = Ok (e, s.2) /\ shows e s.1.

Lemma insert_refines e m c :
  shows e m -> frozen m = false -> is_scalar c = true ->
  refines (insert e c) (spec_apply m (Input.Insert c)).
Proof.
  intros Hsh Hf Hc. unfold insert, spec_apply. rewrite Hf. destruct (Input.is_printable_scalar c); cbn [negb]; [|by exists e].
  pose proof (s_line _ _ Hsh) as Hl. destruct (sides_scalars _ _ Hsh) as [Hb Ha].
  destruct (holds_split _ _ (before m) (after m) Hl) as (junk & Hbuf & Hn & Hsz).
  rewrite (proj2 (minus_Ok _ _ _)) by (split; [done|lia]). cbn [res_bind]. rewrite length_encode_utf8.
  assert (len (bytes m) = e_len e) as Hby by (symmetry; apply Hl).
  destruct (Z.gtb_spec (len_utf8 c) (MAX_LINE_BYTES - e_len e)); [rewrite (proj2 (Z.gtb_lt _ _)) by lia; by exists e|].
  rewrite gtb_false by lia. pose proof (len_utf8_bound c). pose proof (s_cursor _ _ Hsh) as Hcur.
  rewrite (proj2 (plus_Ok _ _ _)) by (split; [done|unfold MAX_LINE_BYTES in *; lia]). cbn [res_bind].
  destruct (open_gap (encode_all (before m)) (encode_all (after m)) junk (encode_utf8 c)) as (l & junk' & Hcw & Hput & Hj).
  { pose proof (length_encode_utf8 c). lia. }
  rewrite length_encode_utf8 in Hcw. rewrite Hbuf, Hcur, Hn, Hcw. cbn [or_panic res_bind]. rewrite Hput. cbn [or_panic res_bind].
  rewrite (proj2 (plus_Ok _ _ _)) by (split; [done|unfold MAX_LINE_BYTES in *; lia]). cbn [res_bind].
  eexists. split; [done|]. pose proof (length_encode_utf8 c). pose proof (len_encode_one c).
  assert (encode_all (before m ++ [c]) = encode_all (before m) ++ encode_utf8 c) as Henc by (by rewrite encode_all_app, encode_one).
  apply edit_shows; [done| |by rewrite Henc, length_app; lia].
  replace (len (encode_all (before m)) + len (encode_all (after m)) + len_utf8 c)
    with (len (encode_all (before m ++ [c])) + len (encode_all (after m))) by (rewrite Henc, length_app; lia).
  rewrite (app_assoc (encode_all (before m))), <-Henc. apply holds_join; [|done|rewrite Henc, length_app; lia].
  apply Forall_app. split; [done|by constructor].
Qed.

(** The character before the cursor, split off. *)
Lemma before_last (b : list Z) (c : Z) : last b = Some c -> b = removelast b ++ [c].
Proof. intros [l ->]%last_Some. by rewrite (removelast_last l c). Qed.

Lemma left_refines e m :
  shows e m -> frozen m = false -> refines (left e) (spec_apply m Input.Left).
Proof.
  intros Hsh Hf. unfold left, spec_apply. rewrite Hf, (char_before_spec _ _ Hsh). cbn [res_bind].
  destruct (last (before m)) as [c|] eqn:Hlast; [|by exists e]. apply before_last in Hlast as Hb.
  pose proof (s_cursor _ _ Hsh) as Hcur. rewrite Hb, encode_all_app, length_app in Hcur. pose proof (len_encode_one c).
  rewrite (proj2 (minus_Ok _ _ _)) by (split; [done|lia]). cbn [res_bind]. eexists. split; [done|].
  apply cursor_shows; [done| |lia]. unfold text. rewrite Hb at 2. by rewrite <-app_assoc.
Qed.

Lemma right_refines e m :
  shows e m -> frozen m = false -> refines (right e) (spec_apply m Input.Right).
Proof.
  intros Hsh Hf. unfold right, spec_apply. rewrite Hf, (char_after_spec _ _ Hsh). cbn [res_bind].
  destruct (after m) as [|c a] eqn:Ha; cbn [head]; [by exists e|].
  pose proof (holds_bound _ _ _ (s_line _ _ Hsh)) as Hn. rewrite (h_count _ _ _ (s_line _ _ Hsh)) in Hn.
  unfold text in Hn. rewrite encode_all_app, length_app in Hn. pose proof (s_cursor _ _ Hsh) as Hcur. pose proof (len_utf8_bound c).
  rewrite (proj2 (plus_Ok _ _ _)) by (split; [done|unfold MAX_LINE_BYTES in *; lia]). cbn [res_bind]. eexists. split; [done|].
  apply cursor_shows; [done|unfold text; rewrite Ha, <-app_assoc; done|].
  rewrite encode_all_app, length_app. pose proof (len_encode_one c). lia.
Qed.

Lemma delete_refines e m :
  shows e m -> frozen m = false -> refines (delete e) (spec_apply m Input.Delete).
Proof.
  intros Hsh Hf. unfold delete, spec_apply. rewrite Hf, (char_after_spec _ _ Hsh). cbn [res_bind].
  destruct (after m) as [|c a] eqn:Ha; cbn [head]; [by exists e|].
  pose proof (s_line _ _ Hsh) as Hl. destruct (sides_scalars _ _ Hsh) as [Hb Hsa]. unfold text in Hl. rewrite Ha in Hl, Hsa.
  destruct (holds_split _ _ (before m) (c :: a) Hl) as (junk & Hbuf & Hn & Hsz). apply Forall_cons in Hsa as [Hc Hsa].
  cbn [encode_all] in Hbuf, Hn. rewrite length_app in Hn. pose proof (length_encode_utf8 c) as Hec.
  pose proof (s_cursor _ _ Hsh) as Hcur. pose proof (len_utf8_bound c).
  rewrite (proj2 (plus_Ok _ _ _)) by (split; [done|unfold MAX_LINE_BYTES in *; lia]). cbn [res_bind].
  destruct (close_gap (encode_all (before m)) (encode_utf8 c) (encode_all a) junk) as (junk' & Hcw & Hj).
  rewrite Hec in Hcw. rewrite Hbuf, Hcur, <-app_assoc.
  replace (e_len e) with (len (encode_all (before m)) + len_utf8 c + len (encode_all a)) by lia. rewrite Hcw. cbn [or_panic res_bind].
  rewrite (proj2 (minus_Ok _ _ _)) by (split; [done|lia]). cbn [res_bind]. eexists. split; [done|].
  apply edit_shows; [done| |done].
  replace (len (encode_all (before m)) + len_utf8 c + len (encode_all a) - len_utf8 c)
    with (len (encode_all (before m)) + len (encode_all a)) by lia. apply holds_join; [done..|lia].
Qed.

Lemma backspace_refines e m :
  shows e m -> frozen m = false -> refines (backspace e) (spec_apply m Input.Backspace).
Proof.
  intros Hsh Hf. unfold backspace, spec_apply. rewrite Hf, (char_before_spec _ _ Hsh). cbn [res_bind].
  destruct (before m) as [|x b0] eqn:Hb0; [by exists e|]. rewrite <-Hb0.
  destruct (last (before m)) as [c|] eqn:Hlast; [|apply last_None in Hlast; congruence]. apply before_last in Hlast as Hb.
  set (b := removelast (before m)) in *. pose proof (s_line _ _ Hsh) as Hl. destruct (sides_scalars _ _ Hsh) as [Hsb Hsa].
  destruct (holds_split _ _ (before m) (after m) Hl) as (junk & Hbuf & Hn & Hsz).
  pose proof (s_cursor _ _ Hsh) as Hcur. pose proof (len_utf8_bound c). pose proof (length_encode_utf8 c) as Hec.
  rewrite Hb, encode_all_app, encode_one in Hbuf, Hn, Hcur. rewrite length_app in Hn, Hcur.
  rewrite Hb in Hsb. apply Forall_app in Hsb as [Hsb _].
  rewrite (proj2 (minus_Ok _ _ _)) by (split; [done|lia]). cbn [res_bind].
  destruct (close_gap (encode_all b) (encode_utf8 c) (encode_all (after m)) junk) as (junk' & Hcw & Hj).
  rewrite Hbuf, <-app_assoc. replace (e_cursor e) with (len (encode_all b) + len (encode_utf8 c)) by lia.
  replace (e_len e) with (len (encode_all b) + len (encode_utf8 c) + len (encode_all (after m))) by lia.
  replace (len (encode_all b) + len (encode_utf8 c) - len_utf8 c) with (len (encode_all b)) by lia.
  rewrite Hcw. cbn [or_panic res_bind]. rewrite (proj2 (minus_Ok _ _ _)) by (split; [done|lia]). cbn [res_bind].
  eexists. split; [done|]. apply edit_shows; [done| |done].
  replace (len (encode_all b) + len (encode_utf8 c) + len (encode_all (after m)) - len_utf8 c)
    with (len (encode_all b) + len (encode_all (after m))) by lia. apply holds_join; [done..|lia].
Qed.

Lemma set_cursor_refines e m b a c :
  shows e m -> b ++ a = text m -> c = len (encode_all b) ->
  exists e', set_cursor e c = (e', if decide (before m = b) then Unchanged else Changed) /\ shows e' (edit m b a).
Proof.
  intros Hsh Ht Hc. unfold set_cursor. rewrite (s_cursor _ _ Hsh). destruct (Z.eqb_spec (len (encode_all (before m))) c) as [Heq|Hne].
  - assert (before m = b /\ after m = a) as [Hb Ha].
    { unfold text in Ht. subst c. assert (b `prefix_of` before m \/ before m `prefix_of` b) as Hp.
      { apply (prefix_weak_total b (before m) (text m)); [by exists a|by exists (after m)]. }
      assert (before m = b) as Hbb; [|rewrite Hbb in Ht; by simplify_list_eq].
      assert (forall x y : list Z, len (encode_all x) = len (encode_all (x ++ y)) -> y = []) as Hnil.
      { intros x y He. rewrite encode_all_app, length_app in He. destruct y as [|z y]; [done|]. cbn [encode_all] in He.
        rewrite length_app in He. pose proof (length_encode_utf8 z). pose proof (len_utf8_bound z). lia. }
      destruct Hp as [[k Hk]|[k Hk]].
      - rewrite Hk in *. by rewrite (Hnil b k), app_nil_r.
      - rewrite Hk in Heq. by rewrite Hk, (Hnil (before m) k), app_nil_r. }
    subst b a. rewrite decide_True by done. exists e. split; [done|]. by destruct m.
  - rewrite decide_False by (intros <-; congruence). eexists. split; [done|]. by apply cursor_shows.
Qed.

(** *** Browsing *)

Lemma recall_refines e m age b a :
  len (line_bytes e) = MAX_LINE_BYTES -> (exists base, HistoryThms.rep (history e) base (lines m)) ->
  Forall good_line (lines m) -> (age < length (lines m))%nat -> holds (draft e) (draft_len e) (b ++ a) ->
  draft_cursor e = len (encode_all b) -> submission_pending e = frozen m ->
  exists e', recall e (Z.of_nat age) = Ok e' /\ shows e' (show_line m age (b, a)).
Proof.
  intros Hl [base Hrep] Hgood Hage Hd Hdc Hp. unfold recall. cbn [history with_browsing line_bytes].
  unfold history_len, History.history_len. cbn [history with_browsing]. rewrite (r_len _ _ _ Hrep).
  rewrite (proj2 (minus_Ok _ _ _)) by (split; [done|lia]). cbn [res_bind].
  rewrite (proj2 (minus_Ok _ _ _)) by (split; [done|lia]). cbn [res_bind].
  destruct (lookup_lt_is_Some_2 (lines m) (length (lines m) - 1 - age)) as [l Hi]; [lia|].
  pose proof (Forall_lookup_1 _ _ _ _ Hgood Hi) as (cs & -> & Hcs & Hmax).
  replace (len (lines m) - 1 - Z.of_nat age) with (Z.of_nat (length (lines m) - 1 - age)) by lia.
  rewrite (copy_entry_spec _ base (lines m) _ _ _ Hrep Hi) by lia. cbn [res_bind]. eexists. split; [done|].
  unfold show_line. rewrite Hi. cbn [from_option]. unfold id. rewrite chars_encode by done.
  split; cbn [line_bytes e_len e_cursor draft history browsing submission_pending with_line with_browsing before after lines saved frozen draft_len draft_cursor]; try done.
  - unfold text. cbn [before after]. rewrite app_nil_r. by apply holds_write.
  - apply Hd.
  - by exists base.
Qed.

Lemma up_refines e m :
  shows e m -> frozen m = false -> refines (up e) (spec_apply m Input.Up).
Proof.
  intros Hsh Hf. unfold up, spec_apply. rewrite Hf. pose proof Hsh as [Hl Hc Hd [base Hrep] Hg Hs Hp].
  unfold history_len, History.history_len. rewrite (r_len _ _ _ Hrep). pose proof (r_max _ _ _ Hrep) as Hmax.
  destruct (lines m) as [|l0 ls] eqn:Els; [by exists e|]. cbn [length Z.of_nat Z.eqb].
  destruct (saved m) as [[age [b a]]|] eqn:Hsv.
  - destruct Hs as (-> & Hage & Hdr & Hdc).
    rewrite (proj2 (plus_Ok _ _ _)) by (split; [done|cbn [length] in *; unfold History.MAX_HISTORY_ENTRIES in Hmax; lia]). cbn [res_bind].
    replace (Z.of_nat age + 1) with (Z.of_nat (S age)) by lia. case_decide as Hlt.
    + rewrite (proj2 (Z.ltb_lt _ _)) by (cbn [length] in *; lia).
      destruct (recall_refines e m (S age) b a) as (e' & -> & He'); try rewrite Els; try done; [apply Hl|by exists base|]. by exists e'.
    + rewrite (proj2 (Z.ltb_ge _ _)) by (cbn [length] in *; lia). by exists e.
  - rewrite Hs, (holds_read _ _ _ Hl). cbn [or_panic res_bind]. pose proof (holds_bound _ _ _ Hl) as Hn.
    rewrite (h_count _ _ _ Hl) in Hn. rewrite put_prefix by lia. cbn [or_panic res_bind].
    destruct (recall_refines (with_draft e (encode_all (text m) ++ drop (length (encode_all (text m))) (draft e)) (e_len e) (e_cursor e))
      m 0 (before m) (after m)) as (e' & He & He'); try rewrite Els; cbn [length]; try done; [apply Hl|by exists base|lia| |].
    + cbn [draft draft_len with_draft]. rewrite (h_count _ _ _ Hl). apply (holds_write (draft e) (text m)); [done|apply Hl|lia].
    + change (Z.of_nat 0) with 0 in He. rewrite He. by exists e'.
Qed.

Lemma down_refines e m :
  shows e m -> frozen m = false -> refines (down e) (spec_apply m Input.Down).
Proof.
  intros Hsh Hf. unfold down, spec_apply. rewrite Hf. pose proof Hsh as [Hl Hc Hd [base Hrep] Hg Hs Hp].
  destruct (saved m) as [[[|age] [b a]]|] eqn:Hsv.
  - destruct Hs as (-> & Hage & Hdr & Hdc). cbn [Z.of_nat Z.eqb negb]. rewrite (holds_read _ _ _ Hdr). cbn [or_panic res_bind].
    pose proof (holds_bound _ _ _ Hdr) as Hn. rewrite (h_count _ _ _ Hdr) in Hn. rewrite put_prefix by (rewrite (h_size _ _ _ Hl); lia).
    cbn [or_panic res_bind]. eexists. split; [done|]. split;
      cbn [line_bytes e_len e_cursor draft history browsing submission_pending with_line with_browsing before after lines saved frozen fst snd]; try done.
    + rewrite (h_count _ _ _ Hdr). apply (holds_write _ (b ++ a)); [apply Hl|apply Hdr|lia].
    + by exists base.
    + by rewrite Hp.
  - destruct Hs as (-> & Hage & Hdr & Hdc). rewrite (proj2 (Z.eqb_neq _ _)) by lia. cbn [negb].
    rewrite (proj2 (minus_Ok _ _ _)) by (split; [done|lia]). cbn [res_bind]. replace (Z.of_nat (S age) - 1) with (Z.of_nat age) by lia.
    destruct (recall_refines e m age b a) as (e' & -> & He'); try done; [apply Hl|by exists base|lia|]. by exists e'.
  - rewrite Hs. by exists e.
Qed.

(** ** Every event, and the commit of a line *)

Definition event_scalar (event : Input.InputEvent) : bool :=
  match event with Input.Insert c => is_scalar c | _ => true end.

Lemma apply_refines e m event :
  shows e m -> event_scalar event = true -> refines (apply e event) (spec_apply m event).
Proof.
  intros Hsh Hev. unfold apply. rewrite (s_pending _ _ Hsh). destruct (frozen m) eqn:Hf.
  { unfold spec_apply. rewrite Hf. by exists e. }
  destruct event; try (unfold spec_apply; rewrite Hf; by exists e).
  - by apply insert_refines.
  - by apply left_refines.
  - by apply right_refines.
  - unfold spec_apply. rewrite Hf. destruct (set_cursor_refines e m [] (text m) 0 Hsh eq_refl eq_refl) as (e' & -> & He').
    exists e'. split; [|done]. cbn [snd]. by repeat case_decide.
  - unfold spec_apply. rewrite Hf. destruct (set_cursor_refines e m (text m) [] (e_len e) Hsh) as (e' & -> & He').
    + apply app_nil_r.
    + apply (s_line _ _ Hsh).
    + exists e'. split; [|done]. cbn [snd]. assert (before m = text m <-> after m = []) as Hiff.
      { unfold text. split; [|intros ->; by rewrite app_nil_r]. intros H. apply (f_equal length) in H. rewrite length_app in H.
        apply length_zero_iff_nil. lia. }
      repeat case_decide; tauto.
  - by apply delete_refines.
  - by apply backspace_refines.
  - by apply up_refines.
  - by apply down_refines.
  - unfold spec_apply. rewrite Hf. eexists. split; [done|]. destruct Hsh. by split.
  - unfold spec_apply. rewrite Hf. eexists. split; [done|]. destruct Hsh as [[Hsz _ _ _] ? ? ? ? ? ?].
    split; try done. split; [done|done|by eexists|constructor].
  - unfold spec_apply. rewrite Hf. exists e. split; [|done]. cbn [snd]. do 2 f_equal. rewrite (h_count _ _ _ (s_line _ _ Hsh)).
    pose proof (length_encode_all_le (text m)). destruct (text m) as [|c cs]; [done|]. cbn [length] in *. 
    rewrite (proj2 (Z.eqb_neq _ _)) by lia. done.
Qed.

Lemma fit_keeps n ls : forall P, Forall P ls -> Forall P (fit n ls).
Proof.
  induction ls as [|l ls IH]; intros P H; cbn [fit]; repeat case_match; try done. apply IH. by apply Forall_cons in H as [_ ?].
Qed.

Lemma accept_refines e m :
  shows e m -> exists e', accept_submission e = Ok e' /\ shows e' (spec_accept m).
Proof.
  intros Hsh. unfold accept_submission, spec_accept. pose proof Hsh as [Hl Hc Hd [base Hrep] Hg Hs Hp]. rewrite Hp.
  destruct (frozen m) eqn:Hf; cbn [negb]; [|by exists e]. rewrite (holds_read _ _ _ Hl). cbn [or_panic res_bind].
  destruct (push_spec _ base (lines m) (encode_all (text m)) Hrep) as (h & base' & -> & Hrep'). cbn [res_bind].
  eexists. split; [done|]. split; try done.
  - split; [apply Hl|done|by eexists|constructor].
  - by exists base'.
  - cbn [lines]. pose proof (holds_bound _ _ _ Hl) as Hn. rewrite (h_count _ _ _ Hl) in Hn.
    unfold spec_push. destruct (_ || _); [done|]. destruct (bool_decide (last _ = _)); [done|]. apply Forall_app. split; [by apply fit_keeps|].
    apply Forall_singleton. exists (text m). split_conj; [done|apply Hl|unfold bytes; lia].
Qed.

(** ** Runs *)

Inductive Command := Event (event : Input.InputEvent) | Accept.

Fixpoint run_commands (e : Editor) (cmds : list Command) : res Empty_set (Editor * list EditOutcome) :=
  match cmds with
  | [] => Ok (e, [])
  | Event event :: cmds =>
      let! '(e, outcome) := apply e event in
      let! '(e, outcomes) := run_commands e cmds in
      Ok (e, outcome :: outcomes)
  | Accept :: cmds => let! e := accept_submission e in run_commands e cmds
  end.

Fixpoint spec_commands (m : Model) (cmds : list Command) : Model * list EditOutcome :=
  match cmds with
  | [] => (m, [])
  | Event event :: cmds =>
      let '(m, outcome) := spec_apply m event in
      let '(m, outcomes) := spec_commands m cmds in
      (m, outcome :: outcomes)
  | Accept :: cmds => spec_commands (spec_accept m) cmds
  end.

(** [char]s are scalar values. *)
Definition command_ok (c : Command) : Prop := match c with Event event => event_scalar event = true | Accept => True end.

Lemma new_shows : shows editor_new model_new.
Proof.
  split; try done.
  - split; [|done|by eexists|constructor]. cbn [line_bytes editor_new]. by rewrite length_replicate.
  - exists 0. apply rep_new.
Qed.

Lemma run_refines cmds : forall e m,
  shows e m -> Forall command_ok cmds ->
  exists e', run_commands e cmds = Ok (e', (spec_commands m cmds).2) /\ shows e' (spec_commands m cmds).1.
Proof.
  induction cmds as [|[event|] cmds IH]; intros e m Hsh Hok; [by exists e| |]; apply Forall_cons in Hok as [Hc Hok];
    cbn [run_commands spec_commands].
  - destruct (apply_refines e m event Hsh Hc) as (e1 & -> & H1). destruct (spec_apply m event) as [m1 o]. cbn [res_bind fst snd] in *.
    destruct (IH e1 m1 H1 Hok) as (e2 & -> & H2). destruct (spec_commands m1 cmds) as [m2 os]. by exists e2.
  - destruct (accept_refines e m Hsh) as (e1 & -> & H1). cbn [res_bind]. by apply IH.
Qed.

(** ** Typing *)

(** The shell's loop: each byte is decoded and its event applied. *)
Fixpoint type_in (d : Input.InputDecoder) (e : Editor) (bs : list Z) : res Empty_set (Input.InputDecoder * Editor) :=
  match bs with
  | [] => Ok (d, e)
  | b :: bs =>
      let! '(d, event) := Input.feed d b in
      let! '(e, _) := apply e event in
      type_in d e bs
  end.

Fixpoint apply_all (e : Editor) (events : list Input.InputEvent) : res Empty_set Editor :=
  match events with
  | [] => Ok e
  | event :: events => let! '(e, _) := apply e event in apply_all e events
  end.

Lemma type_in_events bs : forall d d' e events,
  Input.feed_all d bs = Ok (d', events) -> type_in d e bs = (let! e' := apply_all e events in Ok (d', e')).
Proof.
  induction bs as [|b bs IH]; intros d d' e events H; cbn [Input.feed_all type_in] in *; [by injection H as <- <-|].
  apply res_bind_Ok in H as ([d1 ev] & -> & H). apply res_bind_Ok in H as ([d2 evs] & Hf & H). injection H as <- <-.
  cbn [res_bind apply_all]. destruct (apply e ev) as [[e1 o]| |]; [|done..]. cbn [res_bind]. by apply IH.
Qed.

Lemma apply_all_app e es1 es2 : apply_all e (es1 ++ es2) = (let! e := apply_all e es1 in apply_all e es2).
Proof.
  revert e. induction es1 as [|ev es1 IH]; intros e; cbn [app apply_all res_bind]; [done|].
  destruct (apply e ev) as [[e1 o]| |]; [|done..]. apply IH.
Qed.

Lemma apply_nothing n e : submission_pending e = false -> apply_all e (replicate n Input.NoEvent) = Ok e.
Proof. intros Hp. induction n as [|n IH]; [done|]. cbn [replicate apply_all]. unfold apply at 1. by rewrite Hp. Qed.

Lemma type_in_text cs : forall d e m,
  idle d -> shows e m -> frozen m = false -> after m = [] -> scalars cs ->
  Forall (fun c => Input.is_printable_scalar c = true) cs -> len (bytes m) + len (encode_all cs) <= MAX_LINE_BYTES ->
  exists d' e', type_in d e (encode_all cs) = Ok (d', e') /\ idle d' /\ shows e' (edit m (before m ++ cs) []).
Proof.
  induction cs as [|c cs IH]; intros d e m Hi Hsh Hf Ha Hs Hp Hl; cbn [encode_all].
  { exists d, e. split_conj; [done..|]. rewrite app_nil_r. destruct m. cbn in *. by subst. }
  apply Forall_cons in Hs as [Hc Hs]. apply Forall_cons in Hp as [Hpc Hp]. cbn [encode_all] in Hl.
  rewrite length_app in Hl. pose proof (length_encode_utf8 c) as Hec.
  destruct (feed_char d c Hi Hc Hpc) as (d1 & Hd1 & Hi1). pose proof (type_in_events _ _ _ e _ Hd1) as Ht.
  rewrite apply_all_app, apply_nothing in Ht by (by rewrite (s_pending _ _ Hsh)). cbn [res_bind apply_all] in Ht.
  destruct (apply_refines e m (Input.Insert c) Hsh Hc) as (e1 & He1 & H1). rewrite He1 in Ht. cbn [res_bind] in Ht.
  unfold spec_apply in H1. rewrite Hf, Hpc, gtb_false in H1 by lia. cbn [negb fst] in H1.
  assert (forall bs1 bs2 d e, type_in d e (bs1 ++ bs2) = (let! '(d, e) := type_in d e bs1 in type_in d e bs2)) as Happ.
  { intros bs1 bs2. induction bs1 as [|b bs1 IHb]; intros d0 e0; [done|]. cbn [app type_in].
    destruct (Input.feed d0 b) as [[d2 ev]| |]; [|done..]. cbn [res_bind]. destruct (apply e0 ev) as [[e2 o]| |]; [|done..]. apply IHb. }
  rewrite Happ, Ht. cbn [res_bind].
  destruct (IH d1 e1 _ Hi1 H1) as (d2 & e2 & Hrun & Hi2 & H2); try done.
  - unfold bytes, text, edit in *. cbn [before after] in *. rewrite Ha, !app_nil_r in *. rewrite encode_all_app, length_app.
    pose proof (len_encode_one c). lia.
  - exists d2, e2. split_conj; [done..|]. cbn [before edit lines saved frozen] in H2. by rewrite <-app_assoc in H2.
Qed.

(** ** Theorems *)

(** C6: the editor is the specification.  For any sequence of events and
    commits, from a fresh editor, no call panics and each has the outcome of the
    line of characters with a cursor; the bytes of the line, the byte cursor,
    the size of the history and whether a submission is pending are those of
    that line, which stays within 4096 bytes. *)
Theorem editor_refines (cmds : list Command) :
  Forall command_ok cmds ->
  let m := (spec_commands model_new cmds).1 in
  exists e, run_commands editor_new cmds = Ok (e, (spec_commands model_new cmds).2) /\
  line e = Ok (bytes m) /\ cursor e = len (encode_all (before m)) /\ len (bytes m) <= MAX_LINE_BYTES /\
  history_len e = len (lines m) /\ history_bytes e = len (concat (lines m)) /\ submission_pending e = frozen m.
Proof.
  intros Hok m. destruct (run_refines cmds editor_new model_new new_shows Hok) as (e & Hrun & Hsh). fold m in Hsh.
  exists e. pose proof Hsh as [Hl Hc _ [base Hr] _ _ Hp]. pose proof (holds_bound _ _ _ Hl) as Hb. rewrite (h_count _ _ _ Hl) in Hb.
  split_conj; try done; [by apply line_spec|apply Hb|apply (r_len _ _ _ Hr)|apply (r_bytes _ _ _ Hr)].
Qed.

Definition sample_commands : list Command :=
  [Event (Input.Insert 104); Event (Input.Insert 233); Event Input.Left; Event Input.Delete; Event Input.Submit; Accept;
   Event (Input.Insert 120); Event Input.Up; Event Input.Down].

Lemma editor_refines_witness :
  Forall command_ok sample_commands /\ text (spec_commands model_new sample_commands).1 = [120] /\
  exists e, run_commands editor_new sample_commands = Ok (e, (spec_commands model_new sample_commands).2).
Proof.
  assert (Forall command_ok sample_commands) as H by (repeat constructor). split; [exact H|]. split; [by vm_compute|].
  destruct (editor_refines sample_commands H) as (e & He & _). by exists e.
Defined.

(** typed text is read back.  Printable text that fits in a line, sent as
    UTF-8 one byte at a time through the decoder into an empty editor, is the
    line, with the cursor after it and nothing left pending. *)
Theorem typed_text_round_trip (cs : list Z) :
  scalars cs -> Forall (fun c => Input.is_printable_scalar c = true) cs -> len (encode_all cs) <= MAX_LINE_BYTES ->
  exists d e, type_in Input.decoder_new editor_new (encode_all cs) = Ok (d, e) /\
  line e = Ok (encode_all cs) /\ cursor e = len (encode_all cs) /\ Input.is_pending d = false.
Proof.
  intros Hs Hp Hl. destruct (type_in_text cs _ _ model_new idle_new new_shows eq_refl eq_refl Hs Hp Hl) as (d & e & Hr & Hi & Hsh).
  exists d, e. split_conj; [done| | |by apply idle_pending; [apply Hi|]].
  - rewrite (line_spec _ _ Hsh). unfold bytes, text. cbn. by rewrite app_nil_r.
  - apply (s_cursor _ _ Hsh).
Qed.

Lemma typed_text_round_trip_witness :
  scalars [99; 233; 8364; 128512] /\
  exists d e, type_in Input.decoder_new editor_new (encode_all [99; 233; 8364; 128512]) = Ok (d, e) /\
    line e = Ok (encode_all [99; 233; 8364; 128512]).
Proof.
  split; [by repeat constructor|].
  destruct (typed_text_round_trip [99; 233; 8364; 128512]) as (d & e & Ht & Hl & _);
    [by repeat constructor|by repeat constructor|by vm_compute|]. exists d, e. split; [exact Ht|exact Hl].
Defined.

(** * The frame of a line

    What a redraw emits, whatever the sizes of the buffers it is read into, and
    the theorems on the editor as a whole. *)


(** ** Specification *)

(** The first visible character: the cursor is centred unless that would leave
    room at either end. *)
Definition window_start (b a : list Z) : nat :=
  Nat.min (length b - 35) (length (b ++ a) - 71).
Definition visible (b a : list Z) : list Z := take 71 (drop (window_start b a) (b ++ a)).
(** How far the cursor is from the end of the visible text. *)
Definition columns_back (b a : list Z) : nat := (length (visible b a) - (length b - window_start b a))%nat.

Definition back_bytes (n : nat) : list Z :=
  if decide (n = 0%nat) then []
  else [27; 91] ++ (if decide (10 <= n)%nat then [48 + Z.of_nat n / 10] else []) ++ [48 + Z.of_nat n mod 10; 68].

Definition frame (b a : list Z) : list Z :=
  Redraw.PROMPT_AND_ERASE ++ encode_all (visible b a) ++ back_bytes (columns_back b a).

(** ** Scalar positions *)

Lemma indices_lookup cs : forall i n,
  indices i cs !! n = (fun c => (i + len (encode_all (take n cs)), c)) <$> cs !! n.
Proof.
  induction cs as [|c cs IH]; intros i [|n]; cbn [indices take encode_all lookup list_lookup]; try done.
  - cbn. by rewrite Z.add_0_r.
  - change (indices (i + len_utf8 c) cs !! n = (fun c0 => (i + len (encode_utf8 c ++ encode_all (take n cs)), c0)) <$> cs !! n).
    rewrite IH. destruct (cs !! n); [|done]. cbn. rewrite length_app. pose proof (length_encode_utf8 c). do 2 f_equal. lia.
Qed.

Lemma char_indices_at cs n :
  scalars cs ->
  match char_indices (encode_all cs) !! n with Some (i, _) => i | None => len (encode_all cs) end = len (encode_all (take n cs)).
Proof.
  intros Hs. unfold char_indices. rewrite chars_encode, indices_lookup by done.
  destruct (cs !! n) eqn:E; cbn; [lia|]. apply lookup_ge_None in E. by rewrite take_ge.
Qed.

Lemma window_spec b a :
  (window_start b a <= length b)%nat /\ (length b - window_start b a <= length (visible b a) <= 71)%nat.
Proof. unfold visible, window_start. rewrite length_take, length_drop, length_app. lia. Qed.

Lemma digit_Ok v : 0 <= v < 10 -> Redraw.digit v = Ok (48 + v).
Proof. intros. unfold Redraw.digit. rewrite Z.mod_small by lia. apply or_panic_Ok, checked_add_Some. lia. Qed.

Lemma cursor_back_spec n :
  (n <= 71)%nat -> exists cb k, Redraw.cursor_back_sequence (Z.of_nat n) = Ok (cb, k) /\ get_range cb 0 k = Some (back_bytes n).
Proof.
  intros Hn. unfold Redraw.cursor_back_sequence, back_bytes. destruct (decide (n = 0%nat)) as [->|Hz]; [by eexists _, _|].
  rewrite (proj2 (Z.eqb_neq _ _)) by lia. rewrite Z.geb_leb. destruct (decide (10 <= n)%nat).
  - rewrite (proj2 (Z.leb_le _ _)) by lia. rewrite !digit_Ok by (Z.div_mod_to_equations; lia). cbn [res_bind]. by eexists _, _.
  - rewrite (proj2 (Z.leb_gt _ _)) by lia. rewrite digit_Ok by lia. cbn [res_bind]. rewrite Z.mod_small by lia. by eexists _, _.
Qed.

(** The three segments of a frame are in place. *)
Record framed (r : Redraw.Redraw) (b a : list Z) : Prop := {
  f_visible : get_range (Redraw.r_line r) (Redraw.visible_start r) (Redraw.visible_end r) = Some (encode_all (visible b a));
  f_back : get_range (Redraw.cursor_back r) 0 (Redraw.cursor_back_len r) = Some (back_bytes (columns_back b a)) }.

Lemma redraw_new_spec b a :
  scalars b -> scalars a -> len (encode_all (b ++ a)) <= MAX_LINE_BYTES ->
  exists r, Redraw.redraw_new (encode_all (b ++ a)) (len (encode_all b)) = Ok r /\ framed r b a /\ Redraw.emitted r = 0.
Proof.
  intros Hb Ha Hmax. assert (scalars (b ++ a)) as Hba by (by apply Forall_app). set (cs := b ++ a) in *. set (s := window_start b a).
  destruct (window_spec b a) as [Hs Hv]. unfold Redraw.redraw_new.
  pose proof (str_get_middle [] b a Hb Ha) as H. cbn [app] in H. change (len (encode_all [])) with 0 in H. rewrite Z.add_0_l in H.
  fold cs in H. rewrite H. clear H. cbn [or_panic res_bind]. rewrite !chars_encode by done.
  assert (Z.min (Redraw.saturating_sub (len b) (Redraw.VISIBLE_SCALARS / 2)) (Redraw.saturating_sub (len cs) Redraw.VISIBLE_SCALARS) =
    Z.of_nat s) as -> by (unfold s, window_start, Redraw.saturating_sub, Redraw.VISIBLE_SCALARS; fold cs; change (71 / 2) with 35; lia).
  assert (Redraw.byte_at_scalar (encode_all cs) (Z.of_nat s) = len (encode_all (take s cs))) as ->
    by (unfold Redraw.byte_at_scalar; rewrite Nat2Z.id; by apply char_indices_at).
  assert (scalars (drop s cs)) as Hd by (by apply Forall_drop). assert (scalars (visible b a)) as Hvis by (by apply Forall_take).
  assert (len (encode_all cs) = len (encode_all (take s cs)) + len (encode_all (drop s cs))) as Hlen
    by (rewrite <-Nat2Z.inj_add, <-length_app, <-encode_all_app; by rewrite take_drop).
  assert (Redraw.byte_at_scalar_from (encode_all cs) (len (encode_all (take s cs))) Redraw.VISIBLE_SCALARS =
    Ok (len (encode_all (take s cs)) + len (encode_all (visible b a)))) as ->.
  { unfold Redraw.byte_at_scalar_from. pose proof (str_get_middle (take s cs) (drop s cs) [] Hd ltac:(constructor)) as H.
    rewrite app_nil_r, take_drop, <-Hlen in H. rewrite H. cbn [or_panic res_bind]. pose proof (char_indices_at (drop s cs) 71 Hd) as H71.
    change (Z.to_nat Redraw.VISIBLE_SCALARS) with 71%nat. destruct (char_indices _ !! _) as [[i c]|].
    - subst i. apply plus_Ok. split; [done|]. unfold visible. fold cs s.
      rewrite <-(take_drop 71 (drop s cs)), encode_all_app, length_app in Hlen at 1. unfold MAX_LINE_BYTES in Hmax. lia.
    - f_equal. rewrite Hlen. unfold visible. fold cs s. by rewrite <-H71. }
  cbn [res_bind].
  assert (get_range (encode_all cs) (len (encode_all (take s cs))) (len (encode_all (take s cs)) + len (encode_all (visible b a))) =
    Some (encode_all (visible b a)) /\
    str_get (encode_all cs) (len (encode_all (take s cs))) (len (encode_all (take s cs)) + len (encode_all (visible b a))) =
    Some (encode_all (visible b a))) as [Hget Hstr].
  { assert (cs = take s cs ++ visible b a ++ drop 71 (drop s cs)) as Hsplit
      by (unfold visible; fold cs s; by rewrite !take_drop). split.
    - rewrite Hsplit at 1. rewrite !encode_all_app. apply get_range_middle.
    - rewrite Hsplit at 1. apply str_get_middle; [done|by apply Forall_drop]. }
  rewrite Hstr. cbn [or_panic res_bind]. rewrite chars_encode by done.
  rewrite (proj2 (minus_Ok (len b) _ _)) by (split; [done|unfold s; lia]). cbn [res_bind].
  rewrite (proj2 (minus_Ok (len (visible b a)) _ _)) by (split; [done|unfold s; lia]). cbn [res_bind].
  replace (len (visible b a) - (len b - Z.of_nat s)) with (Z.of_nat (columns_back b a)) by (unfold columns_back, s; lia).
  destruct (cursor_back_spec (columns_back b a)) as (cb & k & -> & Hcb); [unfold columns_back; lia|]. cbn [res_bind].
  eexists. split; [done|]. by split.
Qed.

(** ** Reading *)

(** The loop copies what is left of the segments to what is left of the output. *)
Lemma read_loop_spec segments : forall skipped (filled room : list Z),
  0 <= skipped <= len (concat segments) -> room <> [] -> len filled + len room < 2 ^ 64 ->
  let rest := drop (Z.to_nat skipped) (concat segments) in
  let count := Nat.min (length rest) (length room) in
  Redraw.read_loop segments skipped (len filled) (filled ++ room) =
  Ok (filled ++ take count rest ++ drop count room, len filled + Z.of_nat count).
Proof.
  induction segments as [|s segments IH]; intros skipped filled room Hs Hr H64; cbn [Redraw.read_loop concat] in *.
  { cbn [concat drop length Nat.min take app]. rewrite drop_nil. cbn. by rewrite Z.add_0_r. }
  rewrite length_app in Hs. rewrite Z.geb_leb. destruct (Z.leb_spec (len s) skipped) as [Hle|Hlt].
  - rewrite (proj2 (minus_Ok _ _ _)) by (split; [done|lia]). cbn [res_bind].
    assert (drop (Z.to_nat skipped) (s ++ concat segments) = drop (Z.to_nat (skipped - len s)) (concat segments)) as ->.
    { rewrite drop_app_ge by lia. f_equal. lia. }
    apply IH; [lia|done..].
  - destruct (proj2 (get_range_is_Some s skipped (len s))) as [src Hsrc]; [lia|]. rewrite Hsrc. cbn [or_panic res_bind].
    apply get_range_Some in Hsrc as (_ & _ & _ & Hsrc).
    rewrite (take_ge (drop _ s)) in Hsrc by (rewrite length_drop; lia). rewrite length_app, Nat2Z.inj_add.
    rewrite (proj2 (minus_Ok _ _ _)) by (split; [done|lia]). cbn [res_bind].
    replace (len filled + len room - len filled) with (len room) by lia.
    replace (Z.min (len src) (len room)) with (Z.of_nat (Nat.min (length src) (length room))) by lia.
    set (k := Nat.min (length src) (length room)). rewrite get_range_take_nat by (unfold k; lia). cbn [or_panic res_bind].
    rewrite <-(take_drop k room) at 1. rewrite put_range_middle by (rewrite !length_take; unfold k; lia). cbn [or_panic res_bind].
    rewrite (proj2 (plus_Ok _ _ _)) by (split; [done|unfold k; lia]). cbn [res_bind].
    rewrite !length_app, length_take, length_drop.
    assert (drop (Z.to_nat skipped) (s ++ concat segments) = src ++ concat segments) as Hrest by (rewrite drop_app_le, Hsrc by lia; done).
    rewrite Hrest, length_app. assert (0 < length src)%nat as Hsl by (rewrite Hsrc, length_drop; lia).
    destruct (Z.eqb_spec (len filled + Z.of_nat k) (Z.of_nat (length filled + (k `min` length src + (length room - k))))) as [He|Hne].
    + assert (k = length room) as Hk by (unfold k in *; lia).
      replace (Nat.min (length src + length (concat segments)) (length room)) with k by (unfold k in *; lia).
      f_equal. f_equal. rewrite take_app_le by (unfold k in *; lia). done.
    + assert (k = length src /\ (length src < length room)%nat) as [Hk Hlr] by (unfold k in *; lia).
      rewrite Hk, take_ge by lia. rewrite (app_assoc filled). pose proof (IH 0 (filled ++ src) (drop (length src) room)) as IH'.
      cbv zeta in IH'. rewrite drop_0, !length_app, length_drop, Nat2Z.inj_add in IH'. rewrite IH'; clear IH'.
      * replace (Nat.min (length src + length (concat segments)) (length room))
          with (length src + Nat.min (length (concat segments)) (length room - length src))%nat by lia.
        rewrite take_app_add, drop_drop, <-!app_assoc. do 2 f_equal. lia.
      * lia.
      * intros Hnil. apply (f_equal length) in Hnil. rewrite length_drop in Hnil. cbn in Hnil. lia.
      * lia.
Qed.

Lemma back_bytes_length n : (length (back_bytes n) <= 5)%nat.
Proof. unfold back_bytes. repeat case_decide; cbn; lia. Qed.

Lemma encode_all_bound cs : (length (encode_all cs) <= 4 * length cs)%nat.
Proof.
  induction cs as [|c cs IH]; [done|]. cbn [encode_all length]. rewrite length_app. pose proof (length_encode_utf8 c).
  pose proof (len_utf8_bound c). lia.
Qed.

Lemma frame_length b a : (length (frame b a) <= 302)%nat.
Proof.
  unfold frame. rewrite !length_app. pose proof (back_bytes_length (columns_back b a)).
  pose proof (encode_all_bound (visible b a)). destruct (window_spec b a) as [_ Hv]. cbn [Redraw.PROMPT_AND_ERASE length]. lia.
Qed.

Lemma read_spec r b a output :
  framed r b a -> 0 <= Redraw.emitted r <= len (frame b a) -> len output < 2 ^ 63 ->
  let rest := drop (Z.to_nat (Redraw.emitted r)) (frame b a) in
  let count := Nat.min (length rest) (length output) in
  exists r', Redraw.read r output = Ok (r', take count rest ++ drop count output, Z.of_nat count) /\
    framed r' b a /\ Redraw.emitted r' = Redraw.emitted r + Z.of_nat count.
Proof.
  intros [Hv Hb] He Ho. cbv zeta. unfold Redraw.read. destruct (bool_decide_reflect (output = [])) as [->|Hne].
  { exists r. cbn [length]. rewrite Nat.min_0_r, take_0, drop_0. cbn. split_conj; [done|by split|lia]. }
  rewrite Hv, Hb. cbn [or_panic res_bind].
  pose proof (read_loop_spec [Redraw.PROMPT_AND_ERASE; encode_all (visible b a); back_bytes (columns_back b a)]
    (Redraw.emitted r) [] output) as Hl. cbv zeta in Hl. cbn [concat] in Hl. rewrite app_nil_r in Hl. fold (frame b a) in Hl.
  cbn [length app] in Hl. change (Z.of_nat 0) with 0 in Hl. rewrite Hl by (try done; lia). cbn [res_bind]. rewrite Z.add_0_l.
  pose proof (frame_length b a). rewrite (proj2 (plus_Ok _ _ _)) by (split; [done|rewrite length_drop; lia]). cbn [res_bind].
  eexists. split; [done|]. by split.
Qed.

(** A frame read into buffers one after the other: the bytes each received. *)
Fixpoint read_all (r : Redraw.Redraw) (buffers : list (list Z)) : res Empty_set (list (list Z)) :=
  match buffers with
  | [] => Ok []
  | buffer :: buffers =>
      let! '(r, output, written) := Redraw.read r buffer in
      let! chunks := read_all r buffers in
      Ok (take (Z.to_nat written) output :: chunks)
  end.

Lemma read_all_spec b a buffers : forall r,
  framed r b a -> 0 <= Redraw.emitted r <= len (frame b a) -> Forall (fun o : list Z => len o < 2 ^ 63) buffers ->
  exists chunks, read_all r buffers = Ok chunks /\
    concat chunks = take (length (concat buffers)) (drop (Z.to_nat (Redraw.emitted r)) (frame b a)).
Proof.
  induction buffers as [|o buffers IH]; intros r Hf He Ho; cbn [read_all concat]; [by exists []|].
  apply Forall_cons in Ho as [Ho Hos]. destruct (read_spec r b a o Hf He Ho) as (r' & -> & Hf' & He'). cbn [res_bind].
  set (rest := drop (Z.to_nat (Redraw.emitted r)) (frame b a)) in *. set (k := Nat.min (length rest) (length o)) in *.
  destruct (IH r' Hf') as (chunks & -> & Hc); [|done|].
  { split; [lia|]. rewrite He'. unfold k, rest. rewrite length_drop. lia. }
  cbn [res_bind]. eexists. split; [done|]. cbn [concat]. rewrite Hc, He', Nat2Z.id, length_app.
  rewrite take_app_le by (rewrite length_take; unfold k; lia). rewrite take_take.
  replace (Nat.min k k) with k by lia. replace (Z.to_nat (Redraw.emitted r + Z.of_nat k)) with (Z.to_nat (Redraw.emitted r) + k)%nat by lia.
  rewrite <-drop_drop. fold rest. destruct (decide (length o <= length rest)%nat) as [Hle|Hgt].
  - assert (k = length o) as -> by (unfold k; lia). by rewrite take_take_drop.
  - assert (k = length rest) as -> by (unfold k; lia). rewrite drop_all, take_nil, app_nil_r, !take_ge by lia. done.
Qed.

(** ** Theorem *)

(** a frame shows the line around the cursor.  After any commands, and
    whatever the sizes of the buffers it is read into, a redraw emits in order
    the bytes of one frame: the prompt on an erased row, at most 71 characters of
    the line that include the cursor's place, and the move back to it.  It never
    splits a character and is at most 302 bytes. *)
Theorem redraw_frame (cmds : list Command) (buffers : list (list Z)) :
  Forall command_ok cmds -> Forall (fun o : list Z => len o < 2 ^ 63) buffers ->
  let m := (spec_commands model_new cmds).1 in
  (exists e outcomes r chunks, run_commands editor_new cmds = Ok (e, outcomes) /\ redraw e = Ok r /\
     read_all r buffers = Ok chunks /\
     concat chunks = take (length (concat buffers)) (frame (before m) (after m))) /\
  (length (frame (before m) (after m)) <= 302)%nat /\
  (window_start (before m) (after m) <= length (before m))%nat /\
  (length (before m) - window_start (before m) (after m) <= length (visible (before m) (after m)) <= 71)%nat.
Proof.
  intros Hok Hbuf m. destruct (window_spec (before m) (after m)) as [Hw Hv]. pose proof (frame_length (before m) (after m)) as Hfl.
  split; [|split_conj; lia].
  destruct (run_refines cmds editor_new model_new new_shows Hok) as (e & Hrun & Hsh). fold m in Hsh.
  destruct (sides_scalars _ _ Hsh) as [Hb Ha]. pose proof (s_line _ _ Hsh) as Hl. pose proof (holds_bound _ _ _ Hl) as Hn.
  rewrite (h_count _ _ _ Hl) in Hn. destruct (redraw_new_spec (before m) (after m) Hb Ha) as (r & Hr & Hf & He); [apply Hn|].
  destruct (read_all_spec (before m) (after m) buffers r Hf) as (chunks & Hc & Hcc); [lia|done|].
  exists e, (spec_commands model_new cmds).2, r, chunks. split_conj; try done.
  - unfold redraw. rewrite (line_spec _ _ Hsh). cbn [res_bind]. rewrite (s_cursor _ _ Hsh). exact Hr.
  - rewrite Hcc, He. by rewrite drop_0.
Qed.

Lemma redraw_frame_witness :
  Forall command_ok sample_commands /\
  exists e outcomes r chunks, run_commands editor_new sample_commands = Ok (e, outcomes) /\ redraw e = Ok r /\
    read_all r [[0; 0; 0]; []; replicate 20 7] = Ok chunks /\
    concat chunks = take 23 (frame [120] []).
Proof.
  assert (Forall command_ok sample_commands) as H by (repeat constructor). split; [exact H|].
  destruct (redraw_frame sample_commands [[0; 0; 0]; []; replicate 20 7] H) as [(e & os & r & ch & H1 & H2 & H3 & H4) _];
    [repeat constructor|]. exists e, os, r, ch. split; [exact H1|]. split; [exact H2|]. split; [exact H3|]. exact H4.
Defined.
