(* ===== verification/Launch.v ===== *)
(** * The launch protocol WRLP (crates/wyrmroot-loader/src/launch.rs)

    The message by which a parent tells a new process what it was given, and the
    READY message by which the process answers.  The kernel's rights and object
    types are the fields of [Abi].  An encoder returns the written size and the
    output; a parser takes the bytes and the metadata of the handles received
    with them. *)

From stdpp Require Import base tactics option list list_numbers.
From Stdlib Require Import ZArith Lia.
From S2P Require Import Prelude Bytes.

(** The kernel interface the protocol names: rights and object types. *)
Class Abi := {
  DW_RIGHT_READ : Z; DW_RIGHT_WRITE : Z; DW_RIGHT_MAP : Z; DW_RIGHT_MODIFY : Z; DW_RIGHT_INSPECT : Z;
  DW_RIGHT_DUPLICATE : Z; DW_RIGHT_TRANSFER : Z; DW_RIGHT_WAIT : Z; DW_RIGHT_RESOURCE : Z;
  DW_OBJECT_TYPE_ADDRESS_REGION : Z; DW_OBJECT_TYPE_CHANNEL : Z; DW_OBJECT_TYPE_MEMORY_OBJECT : Z;
  DW_OBJECT_TYPE_TASK_GROUP : Z }.

Module Launch.

Definition HEADER_BYTES : Z := 40.
Definition INIT0_BYTES : Z := 64.
Definition SUPERVISOR_BYTES : Z := 64.
Definition PROBE_CHILD_BYTES : Z := 48.
Definition DEVICE_COORDINATOR_BYTES : Z := 72.
Definition DEVICE_COORDINATOR_RESOURCE_BYTES : Z := 80.
Definition DEVICE_DRIVER_BYTES : Z := 104.
Definition CONSOLED_BYTES : Z := 128.
Definition WYRMSH_BYTES : Z := 160.
Definition MAX_CAPABILITIES : Z := 6.

(** ["WRLP"] *)
Definition MAGIC : list Z := [87; 82; 76; 80].
Definition MAJOR : Z := 1.
Definition MINOR_V1_0 : Z := 0.
Definition MINOR_V1_1 : Z := 1.
Definition MINOR_V1_2 : Z := 2.
Definition MINOR_V1_3 : Z := 3.
Definition MINOR_V1_4_TEST : Z := 4.
Definition MINOR_V1_5 : Z := 5.
Definition MINOR_V1_6 : Z := 6.
Definition MINOR_V1_7 : Z := 7.
Definition MINOR_V1_8_TEST : Z := 8.
Definition MINOR_V1_9 : Z := 9.
Definition MINOR_V1_10 : Z := 10.
Definition MINOR_V1_11 : Z := 11.
Definition TYPE_INIT : Z := 1.
Definition TYPE_READY : Z := 2.
Definition ROLE_SELF_ROOT : Z := 1.
Definition ROLE_BOOTFS : Z := 2.
Definition ROLE_LOADER_TASK_GROUP : Z := 3.
Definition ROLE_SUPERVISOR_CONTROL : Z := 4.
Definition ROLE_PUBLICATION_AUTHORITY : Z := 5.
Definition ROLE_REGISTRY_CLIENT : Z := 6.
Definition ROLE_LAUNCH_SESSION : Z := 7.
Definition ROLE_STDIN : Z := 8.
Definition ROLE_STDOUT : Z := 9.
Definition ROLE_STDERR : Z := 10.
Definition ROLE_DW1B_PROGRESS_DATA : Z := 11.
Definition ROLE_DEVICE_MANIFEST : Z := 12.
Definition ROLE_DEVICE_CONTROL : Z := 13.
Definition ROLE_RESOURCE_DOMAIN : Z := 14.
Definition ROLE_D6_RESOURCE_DOMAIN : Z := 15.
Definition ROLE_CONSOLE_STATUS : Z := 16.

Inductive LaunchProfile :=
| Init0 | I2Stress | CapabilityController | ProbeChild | Supervisor | SupervisorResourceDomain | EarlyBootStub
| BootstrapRegistry | BootstrapService | RegistryClient | LaunchClient | Consoled | Wyrmsh | JobV2 | JobV2Streams
| Dw1bProgress | DeviceCoordinator | DeviceCoordinatorResourceDomain | DeviceDriver | D6ResourceOwner | Hello.
#[global] Instance LaunchProfile_eq_dec : EqDecision LaunchProfile.
Proof. solve_decision. Defined.

Definition capability_count (p : LaunchProfile) : Z :=
  match p with
  | Init0 | I2Stress | CapabilityController | Supervisor => 3
  | SupervisorResourceDomain => 4
  | D6ResourceOwner => 1
  | ProbeChild | Dw1bProgress => 1
  | BootstrapRegistry | BootstrapService | RegistryClient | LaunchClient => 2
  | Consoled => 3
  | Wyrmsh => 6
  | JobV2Streams => 3
  | DeviceCoordinator => 3
  | DeviceCoordinatorResourceDomain => 4
  | DeviceDriver => 2
  | Hello | EarlyBootStub | JobV2 => 0
  end.

Definition protocol_minor (p : LaunchProfile) : Z :=
  match p with
  | ProbeChild => MINOR_V1_1
  | Supervisor | EarlyBootStub => MINOR_V1_2
  | SupervisorResourceDomain => MINOR_V1_7
  | D6ResourceOwner => MINOR_V1_8_TEST
  | BootstrapRegistry | BootstrapService | RegistryClient | LaunchClient | JobV2 | JobV2Streams => MINOR_V1_3
  | Dw1bProgress => MINOR_V1_4_TEST
  | DeviceCoordinator => MINOR_V1_5
  | DeviceCoordinatorResourceDomain => MINOR_V1_9
  | Consoled => MINOR_V1_10
  | Wyrmsh => MINOR_V1_11
  | DeviceDriver => MINOR_V1_6
  | Init0 | I2Stress | CapabilityController | Hello => MINOR_V1_0
  end.

Definition init_size (p : LaunchProfile) : Z :=
  match p with
  | Wyrmsh => WYRMSH_BYTES
  | Consoled => CONSOLED_BYTES
  | DeviceCoordinator => DEVICE_COORDINATOR_BYTES
  | DeviceCoordinatorResourceDomain => DEVICE_COORDINATOR_RESOURCE_BYTES
  | DeviceDriver => DEVICE_DRIVER_BYTES
  | _ => HEADER_BYTES + capability_count p * 8
  end.

Definition has_loader_authority_trio (p : LaunchProfile) : bool :=
  match p with Init0 | I2Stress | CapabilityController | Supervisor => true | _ => false end.
Definition has_loader_authority_quartet (p : LaunchProfile) : bool :=
  match p with SupervisorResourceDomain => true | _ => false end.
Definition needs_self_root (p : LaunchProfile) : bool :=
  has_loader_authority_trio p || has_loader_authority_quartet p
  || match p with
     | ProbeChild | BootstrapRegistry | BootstrapService | RegistryClient | LaunchClient | DeviceCoordinator
     | DeviceCoordinatorResourceDomain | DeviceDriver | Consoled => true
     | _ => false
     end.
Definition channel_role (p : LaunchProfile) : option Z :=
  match p with
  | BootstrapRegistry => Some ROLE_SUPERVISOR_CONTROL
  | BootstrapService => Some ROLE_PUBLICATION_AUTHORITY
  | RegistryClient => Some ROLE_REGISTRY_CLIENT
  | LaunchClient => Some ROLE_LAUNCH_SESSION
  | Dw1bProgress => Some ROLE_DW1B_PROGRESS_DATA
  | DeviceDriver => Some ROLE_DEVICE_CONTROL
  | _ => None
  end.

Record ParsedMessage := mkParsed { pm_transaction_id : Z; pm_profile : LaunchProfile }.
Record DeviceCoordinatorInit := mkCoordinator { dc_transaction_id : Z; dc_supervisor_generation : Z }.
Record DeviceDriverInit := mkDriver {
  dd_transaction_id : Z; dd_supervisor_generation : Z; role_id : Z; attempt_generation : Z; launch_session : Z;
  endpoint_id : Z; endpoint_generation : Z }.
Record ConsoledInit := mkConsoled {
  ci_transaction_id : Z; ci_registry_generation : Z; ci_registry_endpoint_id : Z;
  ci_registry_endpoint_generation : Z; ci_launch_connection_id : Z; ci_launch_connection_generation : Z }.
Record WyrmshInit := mkWyrmsh {
  wi_transaction_id : Z; wi_registry_generation : Z; wi_registry_endpoint_id : Z;
  wi_registry_endpoint_generation : Z; wi_launch_connection_id : Z; wi_launch_connection_generation : Z;
  console_generation : Z; status_generation : Z; child_generation : Z; outer_launch_transaction : Z }.

Inductive LaunchError :=
| BufferSize | BadMagic | BadVersion | BadType | NonzeroFlags | BadTotalSize | BadCapabilityCount
| ZeroTransaction | TransactionMismatch | NonzeroReserved | BadCapabilityRole (index : Z) | HandleCount
| HandleMetadata (index : Z) | ProfileSpecificEncoderRequired.

Abbreviation result := (res LaunchError).

Definition get_u16 (bytes : list Z) (offset : Z) : result Z := or_panic (get_le 2 bytes offset).
Definition get_u32 (bytes : list Z) (offset : Z) : result Z := or_panic (get_le 4 bytes offset).
Definition get_u64 (bytes : list Z) (offset : Z) : result Z := or_panic (get_le 8 bytes offset).
Definition put_u16 (bytes : list Z) (offset value : Z) : result (list Z) := or_panic (put_le 2 bytes offset value).
Definition put_u32 (bytes : list Z) (offset value : Z) : result (list Z) := or_panic (put_le 4 bytes offset value).
Definition put_u64 (bytes : list Z) (offset value : Z) : result (list Z) := or_panic (put_le 8 bytes offset value).

(** ** Writing *)

Definition write_header (output : list Z) (minor message_type total_size capabilities transaction_id : Z)
    : result (list Z) :=
  let! output := or_panic (put_range output 0 MAGIC) in
  let! output := put_u16 output 4 MAJOR in
  let! output := put_u16 output 6 minor in
  let! output := put_u32 output 8 message_type in
  let! output := put_u32 output 16 total_size in
  let! output := put_u32 output 20 capabilities in
  put_u64 output 24 transaction_id.

(** [for (index, role) in roles.into_iter().enumerate() { put_u32(output, HEADER_BYTES + index * 8, role) }] *)
Fixpoint put_roles (output : list Z) (index : Z) (roles : list Z) : result (list Z) :=
  match roles with
  | [] => Ok output
  | role :: roles =>
      let! output := put_u32 output (HEADER_BYTES + index * 8) role in put_roles output (index + 1) roles
  end.

(** The roles [encode_init_inner] writes, by its chain of tests. *)
Definition write_roles (profile : LaunchProfile) (output : list Z) : result (list Z) :=
  if has_loader_authority_trio profile || has_loader_authority_quartet profile then
    let! output := put_roles output 0 [ROLE_SELF_ROOT; ROLE_BOOTFS; ROLE_LOADER_TASK_GROUP] in
    if has_loader_authority_quartet profile then put_u32 output (HEADER_BYTES + 3 * 8) ROLE_RESOURCE_DOMAIN
    else Ok output
  else if bool_decide (profile = Consoled) then
    put_roles output 0 [ROLE_SELF_ROOT; ROLE_REGISTRY_CLIENT; ROLE_LAUNCH_SESSION]
  else if bool_decide (profile = Wyrmsh) then
    put_roles output 0
      [ROLE_STDIN; ROLE_STDOUT; ROLE_STDERR; ROLE_CONSOLE_STATUS; ROLE_REGISTRY_CLIENT; ROLE_LAUNCH_SESSION]
  else if bool_decide (profile = D6ResourceOwner) then put_u32 output HEADER_BYTES ROLE_D6_RESOURCE_DOMAIN
  else if bool_decide (profile = DeviceCoordinator) || bool_decide (profile = DeviceCoordinatorResourceDomain) then
    let! output := put_roles output 0 [ROLE_SELF_ROOT; ROLE_PUBLICATION_AUTHORITY; ROLE_DEVICE_MANIFEST] in
    if bool_decide (profile = DeviceCoordinatorResourceDomain)
    then put_u32 output (HEADER_BYTES + 3 * 8) ROLE_RESOURCE_DOMAIN
    else Ok output
  else if bool_decide (profile = DeviceDriver) then put_roles output 0 [ROLE_SELF_ROOT; ROLE_DEVICE_CONTROL]
  else if bool_decide (profile = Dw1bProgress) then put_u32 output HEADER_BYTES ROLE_DW1B_PROGRESS_DATA
  else if needs_self_root profile then
    let! output := put_u32 output HEADER_BYTES ROLE_SELF_ROOT in
    match channel_role profile with
    | Some role => put_u32 output (HEADER_BYTES + 8) role
    | None => Ok output
    end
  else if bool_decide (profile = JobV2Streams) then put_roles output 0 [ROLE_STDIN; ROLE_STDOUT; ROLE_STDERR]
  else Ok output.

Definition encode_init_inner (profile : LaunchProfile) (transaction_id : Z) (output : list Z)
    : result (Z * list Z) :=
  let size := init_size profile in
  reject_if! len output <? size with BufferSize;;
  reject_if! transaction_id =? 0 with ZeroTransaction;;
  let! output := or_panic (fill_zero output size) in
  let! output := write_header output (protocol_minor profile) TYPE_INIT size (capability_count profile) transaction_id in
  let! output := write_roles profile output in
  Ok (size, output).

Definition encode_init (profile : LaunchProfile) (transaction_id : Z) (output : list Z) : result (Z * list Z) :=
  match profile with
  | DeviceCoordinator | DeviceCoordinatorResourceDomain | DeviceDriver | Consoled | Wyrmsh =>
      Err ProfileSpecificEncoderRequired
  | _ => encode_init_inner profile transaction_id output
  end.

(** Consecutive 64-bit fields from [offset]. *)
Fixpoint put_fields (output : list Z) (offset : Z) (values : list Z) : result (list Z) :=
  match values with
  | [] => Ok output
  | value :: values => let! output := put_u64 output offset value in put_fields output (offset + 8) values
  end.

Definition encode_device_coordinator_init (transaction_id supervisor_generation : Z) (output : list Z)
    : result (Z * list Z) :=
  reject_if! supervisor_generation =? 0 with ZeroTransaction;;
  let! '(size, output) := encode_init_inner DeviceCoordinator transaction_id output in
  let! output := put_u64 output 64 supervisor_generation in
  Ok (size, output).

Definition encode_device_coordinator_resource_init (transaction_id supervisor_generation : Z) (output : list Z)
    : result (Z * list Z) :=
  reject_if! supervisor_generation =? 0 with ZeroTransaction;;
  let! '(size, output) := encode_init_inner DeviceCoordinatorResourceDomain transaction_id output in
  let! output := put_u64 output 72 supervisor_generation in
  Ok (size, output).

Definition encode_device_driver_init (transaction_id supervisor_generation role_id attempt_generation
    launch_session endpoint_id endpoint_generation : Z) (output : list Z) : result (Z * list Z) :=
  let fields :=
    [supervisor_generation; role_id; attempt_generation; launch_session; endpoint_id; endpoint_generation] in
  reject_if! contains 0 fields with ZeroTransaction;;
  let! '(size, output) := encode_init_inner DeviceDriver transaction_id output in
  let! output := put_fields output 56 fields in
  Ok (size, output).

Definition encode_consoled_init (transaction_id registry_generation registry_endpoint_id
    registry_endpoint_generation launch_connection_id launch_connection_generation : Z) (output : list Z)
    : result (Z * list Z) :=
  let fields :=
    [registry_generation; registry_endpoint_id; registry_endpoint_generation; launch_connection_id;
     launch_connection_generation] in
  reject_if! contains 0 fields with ZeroTransaction;;
  let! '(size, output) := encode_init_inner Consoled transaction_id output in
  let! output := put_fields output 88 fields in
  Ok (size, output).

Definition encode_wyrmsh_init (transaction_id registry_generation registry_endpoint_id
    registry_endpoint_generation launch_connection_id launch_connection_generation console_generation
    status_generation child_generation outer_launch_transaction : Z) (output : list Z) : result (Z * list Z) :=
  let correlations :=
    [registry_generation; registry_endpoint_id; registry_endpoint_generation; launch_connection_id;
     launch_connection_generation; console_generation; status_generation; child_generation;
     outer_launch_transaction] in
  reject_if! contains 0 correlations with ZeroTransaction;;
  let! '(size, output) := encode_init_inner Wyrmsh transaction_id output in
  let! output := put_fields output 88 correlations in
  Ok (size, output).

Definition encode_ready_for_profile (profile : LaunchProfile) (transaction_id : Z) (output : list Z)
    : result (Z * list Z) :=
  reject_if! len output <? HEADER_BYTES with BufferSize;;
  reject_if! transaction_id =? 0 with ZeroTransaction;;
  let! output := or_panic (fill_zero output HEADER_BYTES) in
  let! output := write_header output (protocol_minor profile) TYPE_READY HEADER_BYTES 0 transaction_id in
  Ok (HEADER_BYTES, output).
Definition encode_ready (transaction_id : Z) (output : list Z) : result (Z * list Z) :=
  encode_ready_for_profile Hello transaction_id output.

(** ** Reading *)

(** The fields of [DwReceivedHandleInfoV1]. *)
Record HandleInfo := mkHandle {
  handle : Z; object_type : Z; rights : Z; reserved0 : Z; reserved : list Z }.

Definition parse_header (bytes : list Z) (message_type expected_minor expected_size expected_capabilities : Z)
    : result Z :=
  reject_if! negb (len bytes =? expected_size) with BufferSize;;
  let! magic := or_panic (get_range bytes 0 4) in
  reject_if! negb (bool_decide (magic = MAGIC)) with BadMagic;;
  let! major := get_u16 bytes 4 in
  let! minor := get_u16 bytes 6 in
  reject_if! negb (major =? MAJOR) || negb (minor =? expected_minor) with BadVersion;;
  let! type := get_u32 bytes 8 in
  reject_if! negb (type =? message_type) with BadType;;
  let! flags := get_u32 bytes 12 in
  reject_if! negb (flags =? 0) with NonzeroFlags;;
  let! size := get_u32 bytes 16 in
  reject_if! negb (size =? expected_size) with BadTotalSize;;
  let! capabilities := get_u32 bytes 20 in
  reject_if! negb (capabilities =? expected_capabilities) with BadCapabilityCount;;
  let! transaction_id := get_u64 bytes 24 in
  reject_if! transaction_id =? 0 with ZeroTransaction;;
  let! reserved := get_u64 bytes 32 in
  reject_if! negb (reserved =? 0) with NonzeroReserved;;
  Ok transaction_id.

Definition validate_handle (h : HandleInfo) (object_type_ rights_ index : Z) : result unit :=
  reject_if! (handle h =? 0) || negb (object_type h =? object_type_) || negb (rights h =? rights_)
    || negb (reserved0 h =? 0) || negb (bool_decide (reserved h = [0; 0])) with HandleMetadata index;;
  Ok tt.

Section abi.
Context {abi : Abi}.

Definition SELF_ROOT_RIGHTS : Z := Z.lor (Z.lor DW_RIGHT_MAP DW_RIGHT_MODIFY) DW_RIGHT_INSPECT.
Definition BOOTFS_RIGHTS : Z :=
  Z.lor (Z.lor (Z.lor (Z.lor DW_RIGHT_READ DW_RIGHT_MAP) DW_RIGHT_INSPECT) DW_RIGHT_DUPLICATE) DW_RIGHT_TRANSFER.
Definition LOADER_TASK_GROUP_RIGHTS : Z :=
  Z.lor (Z.lor (Z.lor DW_RIGHT_MODIFY DW_RIGHT_INSPECT) DW_RIGHT_DUPLICATE) DW_RIGHT_TRANSFER.
Definition CHILD_CHANNEL_RIGHTS : Z :=
  Z.lor (Z.lor (Z.lor DW_RIGHT_READ DW_RIGHT_WRITE) DW_RIGHT_WAIT) DW_RIGHT_INSPECT.
Definition CHILD_CHANNEL_TRANSFER_RIGHTS : Z := Z.lor CHILD_CHANNEL_RIGHTS DW_RIGHT_TRANSFER.
Definition DEVICE_MANIFEST_RIGHTS : Z := Z.lor (Z.lor DW_RIGHT_READ DW_RIGHT_MAP) DW_RIGHT_INSPECT.
Definition DEVICE_MANIFEST_TRANSFER_RIGHTS : Z := Z.lor DEVICE_MANIFEST_RIGHTS DW_RIGHT_TRANSFER.
Definition RESOURCE_DOMAIN_CLAIM_RIGHTS : Z := Z.lor DW_RIGHT_RESOURCE DW_RIGHT_INSPECT.
Definition RESOURCE_DOMAIN_CLAIM_TRANSFER_RIGHTS : Z := Z.lor RESOURCE_DOMAIN_CLAIM_RIGHTS DW_RIGHT_TRANSFER.
Definition RESOURCE_DOMAIN_CUSTODY_RIGHTS : Z :=
  Z.lor (Z.lor (Z.lor (Z.lor DW_RIGHT_MODIFY DW_RIGHT_DUPLICATE) DW_RIGHT_TRANSFER) DW_RIGHT_INSPECT)
    DW_RIGHT_RESOURCE.

(** The test on one capability record, and then on its handle. *)
Definition check_capability (bytes : list Z) (handles : list HandleInfo) (index role object_type_ rights_ : Z)
    : result unit :=
  let! found := get_u32 bytes (HEADER_BYTES + index * 8) in
  reject_if! negb (found =? role) with BadCapabilityRole index;;
  let! high := get_u32 bytes (HEADER_BYTES + index * 8 + 4) in
  reject_if! negb (high =? 0) with BadCapabilityRole index;;
  let! h := or_panic (get_at handles index) in
  validate_handle h object_type_ rights_ index.

(** [for (index, (role, object_type, rights)) in expected.into_iter().enumerate()] *)
Fixpoint check_capabilities (bytes : list Z) (handles : list HandleInfo) (index : Z)
    (expected : list (Z * Z * Z)) : result unit :=
  match expected with
  | [] => Ok tt
  | (role, object_type_, rights_) :: expected =>
      let! _ := check_capability bytes handles index role object_type_ rights_ in
      check_capabilities bytes handles (index + 1) expected
  end.

Definition channel (role : Z) : Z * Z * Z := (role, DW_OBJECT_TYPE_CHANNEL, CHILD_CHANNEL_RIGHTS).
Definition self_root : Z * Z * Z := (ROLE_SELF_ROOT, DW_OBJECT_TYPE_ADDRESS_REGION, SELF_ROOT_RIGHTS).

(** Consecutive 64-bit fields from [offset]. *)
Fixpoint get_fields (bytes : list Z) (offset : Z) (n : nat) : result (list Z) :=
  match n with
  | O => Ok []
  | S n =>
      let! value := get_u64 bytes offset in
      let! values := get_fields bytes (offset + 8) n in
      Ok (value :: values)
  end.

(** The capabilities [parse_init] requires, by its chain of tests. *)
Definition read_capabilities (profile : LaunchProfile) (bytes : list Z) (handles : list HandleInfo) : result unit :=
  if has_loader_authority_trio profile || has_loader_authority_quartet profile then
    let! _ := check_capabilities bytes handles 0
      [self_root; (ROLE_BOOTFS, DW_OBJECT_TYPE_MEMORY_OBJECT, BOOTFS_RIGHTS);
       (ROLE_LOADER_TASK_GROUP, DW_OBJECT_TYPE_TASK_GROUP, LOADER_TASK_GROUP_RIGHTS)] in
    if has_loader_authority_quartet profile
    then check_capability bytes handles 3 ROLE_RESOURCE_DOMAIN DW_OBJECT_TYPE_TASK_GROUP RESOURCE_DOMAIN_CUSTODY_RIGHTS
    else Ok tt
  else if bool_decide (profile = Consoled) then
    check_capabilities bytes handles 0 [self_root; channel ROLE_REGISTRY_CLIENT; channel ROLE_LAUNCH_SESSION]
  else if bool_decide (profile = Wyrmsh) then
    let! _ := check_capabilities bytes handles 0
      (map channel [ROLE_STDIN; ROLE_STDOUT; ROLE_STDERR; ROLE_CONSOLE_STATUS; ROLE_REGISTRY_CLIENT; ROLE_LAUNCH_SESSION]) in
    let! correlations := get_fields bytes 88 9 in
    reject_if! contains 0 correlations with ZeroTransaction;;
    Ok tt
  else if bool_decide (profile = D6ResourceOwner) then
    check_capability bytes handles 0 ROLE_D6_RESOURCE_DOMAIN DW_OBJECT_TYPE_TASK_GROUP RESOURCE_DOMAIN_CLAIM_RIGHTS
  else if bool_decide (profile = DeviceCoordinator) || bool_decide (profile = DeviceCoordinatorResourceDomain) then
    let! _ := check_capabilities bytes handles 0
      [self_root; channel ROLE_PUBLICATION_AUTHORITY;
       (ROLE_DEVICE_MANIFEST, DW_OBJECT_TYPE_MEMORY_OBJECT, DEVICE_MANIFEST_RIGHTS)] in
    if bool_decide (profile = DeviceCoordinatorResourceDomain)
    then check_capability bytes handles 3 ROLE_RESOURCE_DOMAIN DW_OBJECT_TYPE_TASK_GROUP RESOURCE_DOMAIN_CLAIM_RIGHTS
    else Ok tt
  else if bool_decide (profile = DeviceDriver) then
    check_capabilities bytes handles 0 [self_root; channel ROLE_DEVICE_CONTROL]
  else if bool_decide (profile = Dw1bProgress) then
    check_capability bytes handles 0 ROLE_DW1B_PROGRESS_DATA DW_OBJECT_TYPE_CHANNEL CHILD_CHANNEL_RIGHTS
  else if needs_self_root profile then
    let! _ := check_capability bytes handles 0 ROLE_SELF_ROOT DW_OBJECT_TYPE_ADDRESS_REGION SELF_ROOT_RIGHTS in
    match channel_role profile with
    | Some role => check_capability bytes handles 1 role DW_OBJECT_TYPE_CHANNEL CHILD_CHANNEL_RIGHTS
    | None => Ok tt
    end
  else if bool_decide (profile = JobV2Streams) then
    check_capabilities bytes handles 0 (map channel [ROLE_STDIN; ROLE_STDOUT; ROLE_STDERR])
  else Ok tt.

Definition parse_init (profile : LaunchProfile) (bytes : list Z) (handles : list HandleInfo) : result ParsedMessage :=
  let! transaction_id :=
    parse_header bytes TYPE_INIT (protocol_minor profile) (init_size profile) (capability_count profile) in
  reject_if! negb (len handles =? capability_count profile) with HandleCount;;
  let! _ := read_capabilities profile bytes handles in
  Ok (mkParsed transaction_id profile).

Definition parse_device_coordinator_init (bytes : list Z) (handles : list HandleInfo) : result DeviceCoordinatorInit :=
  let! parsed := parse_init DeviceCoordinator bytes handles in
  let! supervisor_generation := get_u64 bytes 64 in
  reject_if! supervisor_generation =? 0 with ZeroTransaction;;
  Ok (mkCoordinator (pm_transaction_id parsed) supervisor_generation).

Definition parse_device_coordinator_resource_init (bytes : list Z) (handles : list HandleInfo)
    : result DeviceCoordinatorInit :=
  let! parsed := parse_init DeviceCoordinatorResourceDomain bytes handles in
  let! supervisor_generation := get_u64 bytes 72 in
  reject_if! supervisor_generation =? 0 with ZeroTransaction;;
  Ok (mkCoordinator (pm_transaction_id parsed) supervisor_generation).

Definition parse_consoled_init (bytes : list Z) (handles : list HandleInfo) : result ConsoledInit :=
  let! parsed := parse_init Consoled bytes handles in
  let! fields := get_fields bytes 88 5 in
  reject_if! contains 0 fields with ZeroTransaction;;
  match fields with
  | [a; b; c; d; e] => Ok (mkConsoled (pm_transaction_id parsed) a b c d e)
  | _ => Panic
  end.

Definition parse_wyrmsh_init (bytes : list Z) (handles : list HandleInfo) : result WyrmshInit :=
  let! parsed := parse_init Wyrmsh bytes handles in
  let! fields := get_fields bytes 88 9 in
  match fields with
  | [a; b; c; d; e; f; g; h; i] => Ok (mkWyrmsh (pm_transaction_id parsed) a b c d e f g h i)
  | _ => Panic
  end.

Definition parse_device_driver_init (bytes : list Z) (handles : list HandleInfo) : result DeviceDriverInit :=
  let! parsed := parse_init DeviceDriver bytes handles in
  let! fields := get_fields bytes 56 6 in
  reject_if! contains 0 fields with ZeroTransaction;;
  match fields with
  | [a; b; c; d; e; f] => Ok (mkDriver (pm_transaction_id parsed) a b c d e f)
  | _ => Panic
  end.
End abi.

Definition parse_ready_for_profile (profile : LaunchProfile) (bytes : list Z) (expected_transaction : Z) : result unit :=
  let! transaction_id := parse_header bytes TYPE_READY (protocol_minor profile) HEADER_BYTES 0 in
  reject_if! negb (transaction_id =? expected_transaction) with TransactionMismatch;;
  Ok tt.
Definition parse_ready (bytes : list Z) (expected_transaction : Z) : result unit :=
  parse_ready_for_profile Hello bytes expected_transaction.

End Launch.
