(* ===== verification/LaunchThms.v ===== *)
(** * The launch protocol: what is accepted, and that it is what was sent

    A table of the capabilities of each profile replaces the chains of tests of
    the encoder and the parser; both are shown to follow it. *)

From stdpp Require Import base tactics option list list_numbers.
From Stdlib Require Import ZArith Lia.
From S2P Require Import Prelude Bytes Launch.
Import Launch.

(** ** The table *)

Section tables.
Context {abi : Abi}.

(** What a process of the profile is given: role, object type, exact rights. *)
Definition grants (p : LaunchProfile) : list (Z * Z * Z) :=
  let trio :=
    [self_root; (ROLE_BOOTFS, DW_OBJECT_TYPE_MEMORY_OBJECT, BOOTFS_RIGHTS);
     (ROLE_LOADER_TASK_GROUP, DW_OBJECT_TYPE_TASK_GROUP, LOADER_TASK_GROUP_RIGHTS)] in
  let coordinator :=
    [self_root; channel ROLE_PUBLICATION_AUTHORITY;
     (ROLE_DEVICE_MANIFEST, DW_OBJECT_TYPE_MEMORY_OBJECT, DEVICE_MANIFEST_RIGHTS)] in
  match p with
  | Init0 | I2Stress | CapabilityController | Supervisor => trio
  | SupervisorResourceDomain => trio ++ [(ROLE_RESOURCE_DOMAIN, DW_OBJECT_TYPE_TASK_GROUP, RESOURCE_DOMAIN_CUSTODY_RIGHTS)]
  | ProbeChild => [self_root]
  | BootstrapRegistry => [self_root; channel ROLE_SUPERVISOR_CONTROL]
  | BootstrapService => [self_root; channel ROLE_PUBLICATION_AUTHORITY]
  | RegistryClient => [self_root; channel ROLE_REGISTRY_CLIENT]
  | LaunchClient => [self_root; channel ROLE_LAUNCH_SESSION]
  | Consoled => [self_root; channel ROLE_REGISTRY_CLIENT; channel ROLE_LAUNCH_SESSION]
  | Wyrmsh =>
      map channel [ROLE_STDIN; ROLE_STDOUT; ROLE_STDERR; ROLE_CONSOLE_STATUS; ROLE_REGISTRY_CLIENT; ROLE_LAUNCH_SESSION]
  | JobV2Streams => map channel [ROLE_STDIN; ROLE_STDOUT; ROLE_STDERR]
  | Dw1bProgress => [channel ROLE_DW1B_PROGRESS_DATA]
  | DeviceCoordinator => coordinator
  | DeviceCoordinatorResourceDomain =>
      coordinator ++ [(ROLE_RESOURCE_DOMAIN, DW_OBJECT_TYPE_TASK_GROUP, RESOURCE_DOMAIN_CLAIM_RIGHTS)]
  | DeviceDriver => [self_root; channel ROLE_DEVICE_CONTROL]
  | D6ResourceOwner => [(ROLE_D6_RESOURCE_DOMAIN, DW_OBJECT_TYPE_TASK_GROUP, RESOURCE_DOMAIN_CLAIM_RIGHTS)]
  | EarlyBootStub | JobV2 | Hello => []
  end.

Definition role (g : Z * Z * Z) : Z := g.1.1.
Definition granted (g : Z * Z * Z) (h : HandleInfo) : Prop :=
  handle h <> 0 /\ object_type h = g.1.2 /\ rights h = g.2 /\ reserved0 h = 0 /\ reserved h = [0; 0].

Lemma grants_count p : len (grants p) = capability_count p.
Proof. by destruct p. Qed.

Lemma res_bind_Ok_r {E A} (c : res E A) : res_bind c Ok = c.
Proof. by destruct c. Qed.

Lemma put_roles_app k : forall output i l,
  put_roles output i (l ++ k) = (let! output := put_roles output i l in put_roles output (i + len l) k).
Proof.
  intros output i l. revert output i. induction l as [|r l IH]; intros output i; cbn [app put_roles res_bind length].
  - by rewrite Z.add_0_r.
  - destruct (put_u32 output (HEADER_BYTES + i * 8) r) as [o| |]; [|done..]. cbn [res_bind]. rewrite IH.
    by replace (i + 1 + len l) with (i + Z.of_nat (S (length l))) by lia.
Qed.

Lemma put_roles_one output i r : put_roles output i [r] = put_u32 output (HEADER_BYTES + i * 8) r.
Proof. apply res_bind_Ok_r. Qed.

Lemma put_roles_two output i r r' :
  put_roles output i [r; r'] =
  (let! output := put_u32 output (HEADER_BYTES + i * 8) r in put_u32 output (HEADER_BYTES + (i + 1) * 8) r').
Proof. cbn [put_roles]. destruct (put_u32 _ _ r); [|done..]. apply res_bind_Ok_r. Qed.

(** Encoder and parser follow the table. *)
Lemma write_roles_table p output : write_roles p output = put_roles output 0 (map role (grants p)).
Proof.
  destruct p;
    first [ reflexivity
          | match goal with |- _ = put_roles output 0 (map role (grants ?p)) => exact (res_bind_Ok_r (put_roles output 0 (map role (grants p)))) end
          | exact (eq_sym (put_roles_one output 0 _))
          | exact (eq_sym (put_roles_two output 0 _ _))
          | symmetry; cbn [grants]; rewrite map_app, put_roles_app;
            match goal with |- res_bind (put_roles ?o ?i ?l) _ = ?r => change r with (res_bind (put_roles o i l) (fun o => put_u32 o (HEADER_BYTES + 3 * 8) ROLE_RESOURCE_DOMAIN)) end;
            destruct (put_roles _ _ _); [|done..]; apply put_roles_one ].
Qed.

Lemma check_capabilities_app bytes handles k : forall i l,
  check_capabilities bytes handles i (l ++ k) =
  (let! _ := check_capabilities bytes handles i l in check_capabilities bytes handles (i + len l) k).
Proof.
  intros i l. revert i. induction l as [|[[r t] g] l IH]; intros i; cbn [app check_capabilities res_bind length].
  - by rewrite Z.add_0_r.
  - destruct (check_capability _ _ _ _ _ _); [|done..]. cbn [res_bind]. rewrite IH.
    by replace (i + 1 + len l) with (i + Z.of_nat (S (length l))) by lia.
Qed.

Lemma res_bind_tt {E} (c : res E unit) : (let! _ := c in Ok tt) = c.
Proof. by destruct c as [[]| |]. Qed.

Lemma check_capabilities_one bytes handles i r t g :
  check_capabilities bytes handles i [(r, t, g)] = check_capability bytes handles i r t g.
Proof. apply res_bind_tt. Qed.

Lemma check_capabilities_two bytes handles i r t g r' t' g' :
  check_capabilities bytes handles i [(r, t, g); (r', t', g')] =
  (let! _ := check_capability bytes handles i r t g in check_capability bytes handles (i + 1) r' t' g').
Proof. cbn [check_capabilities]. destruct (check_capability _ _ _ r t g); [|done..]. apply res_bind_tt. Qed.

Definition correlated (p : LaunchProfile) (bytes : list Z) : result unit :=
  match p with
  | Wyrmsh => let! correlations := get_fields bytes 88 9 in reject_if! contains 0 correlations with ZeroTransaction;; Ok tt
  | _ => Ok tt
  end.

Lemma read_capabilities_table p bytes handles :
  read_capabilities p bytes handles =
  (let! _ := check_capabilities bytes handles 0 (grants p) in correlated p bytes).
Proof.
  destruct p; cbn [correlated]; try reflexivity; rewrite res_bind_tt;
    first [ reflexivity
          | match goal with |- _ = check_capabilities _ _ 0 (grants ?p) => exact (res_bind_tt (check_capabilities bytes handles 0 (grants p))) end
          | exact (eq_sym (check_capabilities_one bytes handles 0 _ _ _))
          | exact (eq_sym (check_capabilities_two bytes handles 0 _ _ _ _ _ _))
          | symmetry; cbn [grants]; rewrite check_capabilities_app;
            match goal with |- context [check_capabilities _ _ _ [(_, ?t, ?g)]] =>
            match goal with |- res_bind ?c _ = ?r => change r with (res_bind c (fun _ => check_capability bytes handles 3 ROLE_RESOURCE_DOMAIN t g)) end end;
            destruct (check_capabilities _ _ 0 _); [|done..]; apply check_capabilities_one ].
Qed.

(** ** What is accepted *)

Record header_at (bytes : list Z) (type minor size capabilities transaction : Z) : Prop := {
  ha_size : len bytes = size;
  ha_magic : get_range bytes 0 4 = Some MAGIC;
  ha_major : get_le 2 bytes 4 = Some MAJOR;
  ha_minor : get_le 2 bytes 6 = Some minor;
  ha_type : get_le 4 bytes 8 = Some type;
  ha_flags : get_le 4 bytes 12 = Some 0;
  ha_total : get_le 4 bytes 16 = Some size;
  ha_count : get_le 4 bytes 20 = Some capabilities;
  ha_transaction : get_le 8 bytes 24 = Some transaction;
  ha_nonzero : transaction <> 0;
  ha_reserved : get_le 8 bytes 32 = Some 0 }.

Lemma parse_header_Ok bytes type minor size capabilities transaction :
  parse_header bytes type minor size capabilities = Ok transaction <->
  header_at bytes type minor size capabilities transaction.
Proof.
  unfold parse_header, get_u16, get_u32, get_u64. split.
  - intros H. res_inv. subst. by split.
  - intros [-> Hm H4 H6 H8 H12 H16 H20 H24 Hnz H32]. rewrite Z.eqb_refl. cbn [negb].
    rewrite Hm, H4, H6, H8, H12, H16, H20, H24, H32. cbn [or_panic res_bind]. rewrite bool_decide_eq_true_2 by done.
    rewrite !Z.eqb_refl, (proj2 (Z.eqb_neq transaction 0)) by done. done.
Qed.

Lemma launch_header_np bytes type minor size capabilities :
  40 <= size -> parse_header bytes type minor size capabilities <> Panic.
Proof.
  intros Hs. unfold parse_header, get_u16, get_u32, get_u64. destruct (Z.eqb_spec (len bytes) size); cbn [negb]; [|done].
  no_panic; lia.
Qed.

(** A capability record: the role, and a zero word after it. *)
Definition role_at (bytes : list Z) (index r : Z) : Prop :=
  get_le 4 bytes (HEADER_BYTES + index * 8) = Some r /\ get_le 4 bytes (HEADER_BYTES + index * 8 + 4) = Some 0.

Lemma check_capability_Ok bytes handles i r t g :
  check_capability bytes handles i r t g = Ok tt <->
  role_at bytes i r /\ exists h, get_at handles i = Some h /\ granted (r, t, g) h.
Proof.
  unfold check_capability, get_u32, validate_handle, role_at, granted. split.
  - intros H. res_inv. subst. split; [done|]. eexists. split; [done|]. cbn. by split_conj.
  - intros ((-> & ->) & h & -> & Hh & Ht & Hr & H0 & Hres). cbn [or_panic res_bind]. rewrite !Z.eqb_refl. cbn [negb res_bind].
    rewrite (proj2 (Z.eqb_neq _ _) Hh), Ht, Hr, H0, !Z.eqb_refl, bool_decide_eq_true_2 by done. done.
Qed.

Lemma check_capabilities_Ok bytes handles gs : forall i,
  check_capabilities bytes handles i gs = Ok tt <->
  forall k g, gs !! k = Some g ->
    role_at bytes (i + Z.of_nat k) (role g) /\ exists h, get_at handles (i + Z.of_nat k) = Some h /\ granted g h.
Proof.
  induction gs as [|[[r t] g] gs IH]; intros i; cbn [check_capabilities]; [done|]. rewrite res_bind_Ok. split.
  - intros ([] & H1 & H2) [|k] g' Hk; cbn in Hk.
    + injection Hk as <-. rewrite Z.add_0_r. by apply check_capability_Ok.
    + replace (i + Z.of_nat (S k)) with (i + 1 + Z.of_nat k) by lia. by apply (proj1 (IH (i + 1)) H2).
  - intros H. exists tt. split; [apply check_capability_Ok; rewrite <-(Z.add_0_r i); exact (H 0%nat (r, t, g) eq_refl)|].
    apply IH. intros k g' Hk. replace (i + 1 + Z.of_nat k) with (i + Z.of_nat (S k)) by lia. by apply H.
Qed.

(** Fields from [offset] on. *)
Definition fields_at (bytes : list Z) (offset : Z) (values : list Z) : Prop :=
  forall k v, values !! k = Some v -> get_le 8 bytes (offset + 8 * Z.of_nat k) = Some v.

Lemma get_fields_Ok bytes n : forall offset values,
  get_fields bytes offset n = Ok values <-> length values = n /\ fields_at bytes offset values.
Proof.
  induction n as [|n IH]; intros offset values; cbn [get_fields].
  - split; [intros [= <-]; by split|]. intros [H _]. by destruct values.
  - rewrite res_bind_Ok. split.
    + intros (v & Hv & H). apply res_bind_Ok in H as (vs & Hvs & H). injection H as <-. apply IH in Hvs as [<- Hvs].
      split; [done|]. intros [|k] v' Hk; cbn in Hk.
      * injection Hk as <-. rewrite Z.mul_0_r, Z.add_0_r. by apply or_panic_Ok in Hv.
      * replace (offset + 8 * Z.of_nat (S k)) with (offset + 8 + 8 * Z.of_nat k) by lia. by apply Hvs.
    + intros [Hl Hf]. destruct values as [|v vs]; [done|]. injection Hl as Hl. exists v. split.
      * apply or_panic_Ok. rewrite <-(Z.add_0_r offset). exact (Hf 0%nat v eq_refl).
      * apply res_bind_Ok. exists vs. split; [|done]. apply IH. split; [done|]. intros k v' Hk.
        replace (offset + 8 + 8 * Z.of_nat k) with (offset + 8 * Z.of_nat (S k)) by lia. by apply Hf.
Qed.

Lemma get_fields_np bytes n : forall offset,
  0 <= offset -> offset + 8 * Z.of_nat n <= len bytes -> get_fields bytes offset n <> Panic.
Proof.
  induction n as [|n IH]; intros offset Ho Hn; cbn [get_fields]; [done|].
  apply res_bind_not_panic; [apply or_panic_not_panic, get_le_is_Some; lia|]. intros v _.
  apply res_bind_not_panic; [apply IH; lia|done].
Qed.

Lemma check_capabilities_np bytes handles gs : forall i,
  0 <= i -> HEADER_BYTES + (i + len gs) * 8 <= len bytes -> i + len gs <= len handles ->
  check_capabilities bytes handles i gs <> Panic.
Proof.
  induction gs as [|[[r t] g] gs IH]; intros i Hi Hb Hh; cbn [check_capabilities]; [done|]. cbn [length] in *. unfold HEADER_BYTES in *.
  apply res_bind_not_panic; [|intros _ _; apply IH; unfold HEADER_BYTES; lia]. unfold check_capability, get_u32, HEADER_BYTES.
  apply res_bind_not_panic; [apply or_panic_not_panic, get_le_is_Some; lia|]. intros found _. case_match; [done|].
  apply res_bind_not_panic; [apply or_panic_not_panic, get_le_is_Some; lia|]. intros high _. case_match; [done|].
  apply res_bind_not_panic; [|intros h _; unfold validate_handle; by case_match]. apply or_panic_not_panic.
  unfold get_at. rewrite (proj2 (Z.leb_le 0 i)) by lia. apply lookup_lt_is_Some_2. lia.
Qed.

Lemma init_size_covers p : HEADER_BYTES + capability_count p * 8 <= init_size p <= 160.
Proof. by destruct p. Qed.

(** ** Writing *)

(** Everything outside [[a, b)] is as it was. *)
Definition outside (out out' : list Z) (a b : Z) : Prop :=
  length out' = length out /\ forall x y, y <= a \/ b <= x -> get_range out' x y = get_range out x y.

Lemma outside_le out out' a b n x :
  outside out out' a b -> x + Z.of_nat n <= a \/ b <= x -> get_le n out' x = get_le n out x.
Proof. intros [_ H] Hx. unfold get_le. by rewrite H. Qed.

Lemma outside_trans out out1 out2 a b a' b' :
  outside out out1 a b -> outside out1 out2 a' b' -> a <= a' -> b' <= b -> outside out out2 a b.
Proof. intros [Hl H] [Hl' H'] Ha Hb. split; [congruence|]. intros x y Hxy. rewrite H' by lia. by apply H. Qed.

Lemma put_le_outside n out a v out' : put_le n out a v = Some out' -> outside out out' a (a + Z.of_nat n).
Proof. intros H. split; [by eapply length_put_le|]. intros x y Hxy. by apply (get_range_put_le_other n _ _ _ _ _ _ H). Qed.

Lemma put_roles_spec roles : forall out i,
  0 <= i -> HEADER_BYTES + (i + len roles) * 8 <= len out -> Forall (fun r => 0 <= r < 2 ^ 32) roles ->
  exists out', put_roles out i roles = Ok out' /\
    outside out out' (HEADER_BYTES + i * 8) (HEADER_BYTES + (i + len roles) * 8) /\
    forall k r, roles !! k = Some r ->
      get_le 4 out' (HEADER_BYTES + (i + Z.of_nat k) * 8) = Some r /\
      get_le 4 out' (HEADER_BYTES + (i + Z.of_nat k) * 8 + 4) = get_le 4 out (HEADER_BYTES + (i + Z.of_nat k) * 8 + 4).
Proof.
  induction roles as [|r roles IH]; intros out i Hi Hl Hr; cbn [put_roles].
  { exists out. split; [done|]. by split; [split|]. }
  apply Forall_cons in Hr as [Hr Hrs]. cbn [length] in *. unfold put_u32. unfold HEADER_BYTES in *.
  destruct (put_le 4 out (40 + i * 8) r) as [out1|] eqn:H1; cycle 1.
  { exfalso. apply eq_None_not_Some in H1. apply H1, put_le_is_Some. lia. }
  cbn [or_panic res_bind]. pose proof (put_le_outside _ _ _ _ _ H1) as Ho1. pose proof (length_put_le _ _ _ _ _ H1) as Hl1.
  destruct (IH out1 (i + 1)) as (out' & -> & Ho & Hk); [lia..|done|]. exists out'. split; [done|]. split.
  - split; [rewrite (proj1 Ho); done|]. intros x y Hxy. rewrite (proj2 Ho) by lia. apply Ho1. lia.
  - intros [|k] r' Hr'; cbn in Hr'.
    + injection Hr' as <-. rewrite Z.add_0_r. rewrite !(outside_le _ _ _ _ _ _ Ho) by lia.
      rewrite (get_put_le_same _ _ _ _ _ H1) by lia. split; [done|]. apply (outside_le _ _ _ _ _ _ Ho1). lia.
    + replace (i + Z.of_nat (S k)) with (i + 1 + Z.of_nat k) by lia. destruct (Hk k r' Hr') as [-> ->]. split; [done|].
      apply (outside_le _ _ _ _ _ _ Ho1). lia.
Qed.

Lemma put_fields_spec values : forall out offset,
  0 <= offset -> offset + 8 * len values <= len out -> Forall in_u64 values ->
  exists out', put_fields out offset values = Ok out' /\ outside out out' offset (offset + 8 * len values) /\
    fields_at out' offset values.
Proof.
  induction values as [|v values IH]; intros out offset Ho Hl Hv; cbn [put_fields].
  { exists out. split; [done|]. by split; [split|]. }
  apply Forall_cons in Hv as [Hv Hvs]. cbn [length] in *. unfold put_u64.
  destruct (put_le 8 out offset v) as [out1|] eqn:H1; cycle 1.
  { exfalso. apply eq_None_not_Some in H1. apply H1, put_le_is_Some. lia. }
  cbn [or_panic res_bind]. pose proof (put_le_outside _ _ _ _ _ H1) as Ho1. pose proof (length_put_le _ _ _ _ _ H1) as Hl1.
  destruct (IH out1 (offset + 8)) as (out' & -> & Ho' & Hk); [lia..|done|]. exists out'. split; [done|]. split.
  - split; [rewrite (proj1 Ho'); done|]. intros x y Hxy. rewrite (proj2 Ho') by lia. apply Ho1. lia.
  - intros [|k] v' Hv'; cbn in Hv'.
    + injection Hv' as <-. rewrite Z.mul_0_r, Z.add_0_r, (outside_le _ _ _ _ _ _ Ho') by lia.
      apply (get_put_le_same _ _ _ _ _ H1). unfold in_u64 in Hv. lia.
    + replace (offset + 8 * Z.of_nat (S k)) with (offset + 8 + 8 * Z.of_nat k) by lia. by apply Hk.
Qed.

(** A header written over zeros, at the start of a buffer. *)
Lemma header_written out size type minor caps tx :
  HEADER_BYTES <= size <= 160 -> size <= len out -> 0 <= type < 2 ^ 32 -> 0 <= minor < 2 ^ 16 -> 0 <= caps < 2 ^ 32 ->
  in_u64 tx -> tx <> 0 ->
  exists out0 out', fill_zero out size = Some out0 /\ write_header out0 minor type size caps tx = Ok out' /\
    outside out out' 0 size /\ header_at (take (Z.to_nat size) out') type minor size caps tx /\
    forall a b, HEADER_BYTES <= a <= b -> b <= size -> get_range out' a b = Some (replicate (Z.to_nat (b - a)) 0).
Proof.
  unfold HEADER_BYTES, in_u64. intros Hs Hl Ht Hm Hc Htx Hnz.
  destruct (fill_zero out size) as [out0|] eqn:Hfill; cycle 1.
  { exfalso. apply eq_None_not_Some in Hfill. apply Hfill, put_range_is_Some. rewrite length_replicate. lia. }
  pose proof (fun b c => get_put_other _ _ _ _ b c Hfill) as Hrest. rewrite length_replicate in Hrest.
  apply fill_zero_Some in Hfill as (_ & Hlen & Hz); [|lia]. exists out0.
  unfold write_header, put_u16, put_u32, put_u64, MAGIC, MAJOR. cbn [or_panic res_bind]. do 7 buf_write.
  eexists. split; [done|]. split; [reflexivity|]. split; [|split].
  - split; [congruence|]. intros x y Hxy. assert (y <= 0 \/ size <= x) as Hd by lia. clear Hxy.
    destruct Hd; buf_read; apply Hrest; lia.
  - split; rewrite ?get_range_take, ?get_le_take by lia; unfold MAGIC, MAJOR;
      try (rewrite length_take; lia); try done; buf_read; try reflexivity; unfold get_le; rewrite Hz by lia; reflexivity.
  - intros a b Ha Hb. buf_read. by apply Hz; lia.
Qed.

Lemma roles_small p : Forall (fun r => 0 <= r < 2 ^ 32) (map role (grants p)).
Proof. destruct p; by repeat constructor. Qed.

Lemma protocol_minor_small p : 0 <= protocol_minor p < 2 ^ 16.
Proof. by destruct p. Qed.

(** An INIT message of the profile, without its tail of fields. *)
Record init_at (bytes : list Z) (p : LaunchProfile) (tx : Z) : Prop := {
  ia_header : header_at bytes TYPE_INIT (protocol_minor p) (init_size p) (capability_count p) tx;
  ia_roles : forall k g, grants p !! k = Some g -> role_at bytes (Z.of_nat k) (role g) }.

Lemma encode_inner_spec p tx out :
  in_u64 tx -> tx <> 0 -> init_size p <= len out ->
  exists out', encode_init_inner p tx out = Ok (init_size p, out') /\ outside out out' 0 (init_size p) /\
    init_at (take (Z.to_nat (init_size p)) out') p tx.
Proof.
  intros Htx Hnz Hl. pose proof (init_size_covers p) as Hsz. pose proof (grants_count p) as Hcount.
  destruct (header_written out (init_size p) TYPE_INIT (protocol_minor p) (capability_count p) tx) as
    (out0 & out1 & Hfill & Hw & Ho & Hh & Hzero); try done.
  { clear. by destruct p. }
  { apply protocol_minor_small. }
  { clear. by destruct p. }
  unfold encode_init_inner. rewrite (proj2 (Z.ltb_ge _ _)), (proj2 (Z.eqb_neq _ _) Hnz), Hfill by lia. cbn [or_panic res_bind].
  rewrite Hw. cbn [res_bind]. rewrite write_roles_table. pose proof (proj1 Ho) as Hlen.
  destruct (put_roles_spec (map role (grants p)) out1 0) as (out2 & -> & Ho2 & Hr); [done| |apply roles_small|].
  { rewrite length_map. lia. }
  cbn [res_bind]. rewrite length_map, Hcount, !Z.add_0_l in Ho2. exists out2. pose proof (proj1 Ho2) as Hlen2. split; [done|]. split.
  { apply (outside_trans _ _ _ _ _ _ _ Ho Ho2); unfold HEADER_BYTES in *; lia. }
  split.
  - destruct Hh as [H1 H2 H3 H4 H5 H6 H7 H8 H9 H10 H11]. unfold HEADER_BYTES in *. rewrite length_take in H1.
    rewrite ?get_range_take, ?get_le_take in * by lia. split; rewrite ?get_range_take, ?get_le_take by lia;
      rewrite ?(outside_le _ _ _ _ _ _ Ho2) by lia; try done; [rewrite length_take; lia|]. rewrite (proj2 Ho2) by lia. done.
  - intros k g Hk. unfold role_at. assert (Z.of_nat k < capability_count p) as Hkc by (apply lookup_lt_Some in Hk; lia).
    unfold HEADER_BYTES in *. rewrite !get_le_take by lia. destruct (Hr k (role g)) as [Hrole Hhigh]; [by rewrite list_lookup_fmap, Hk|].
    rewrite Z.add_0_l in Hrole, Hhigh. rewrite Hrole, Hhigh. split; [done|]. unfold get_le. rewrite Hzero by lia.
    replace (Z.to_nat _) with 4%nat by lia. done.
Qed.

Lemma parse_init_accepts p bytes handles tx :
  init_at bytes p tx -> Forall2 granted (grants p) handles -> correlated p bytes = Ok tt ->
  parse_init p bytes handles = Ok (mkParsed tx p).
Proof.
  intros [Hh Hr] Hg Hc. unfold parse_init. rewrite (proj2 (parse_header_Ok _ _ _ _ _ _) Hh). cbn [res_bind].
  rewrite <-(Forall2_length _ _ _ Hg), grants_count, Z.eqb_refl. cbn [negb]. rewrite read_capabilities_table.
  rewrite (proj2 (check_capabilities_Ok bytes handles (grants p) 0)); [cbn [res_bind]; by rewrite Hc|].
  intros k g Hk. rewrite Z.add_0_l. split; [by apply Hr|]. destruct (Forall2_lookup_l _ _ _ _ _ Hg Hk) as (h & Hh' & Hgr).
  exists h. split; [|done]. unfold get_at. rewrite (proj2 (Z.leb_le 0 _)) by lia. by rewrite Nat2Z.id.
Qed.

(** ** Messages *)

(** What an encoder is called with, and what the matching parser returns. *)
Inductive Init :=
| PlainInit (p : LaunchProfile) (tx : Z)
| CoordinatorInit (resource_domain : bool) (i : DeviceCoordinatorInit)
| DriverInit (i : DeviceDriverInit)
| ConsoleInit (i : ConsoledInit)
| ShellInit (i : WyrmshInit).

Definition profile_of (i : Init) : LaunchProfile :=
  match i with
  | PlainInit p _ => p
  | CoordinatorInit rd _ => if rd then DeviceCoordinatorResourceDomain else DeviceCoordinator
  | DriverInit _ => DeviceDriver
  | ConsoleInit _ => Consoled
  | ShellInit _ => Wyrmsh
  end.

Definition encode_message (i : Init) (output : list Z) : result (Z * list Z) :=
  match i with
  | PlainInit p tx => encode_init p tx output
  | CoordinatorInit false (mkCoordinator tx g) => encode_device_coordinator_init tx g output
  | CoordinatorInit true (mkCoordinator tx g) => encode_device_coordinator_resource_init tx g output
  | DriverInit (mkDriver tx a b c d e f) => encode_device_driver_init tx a b c d e f output
  | ConsoleInit (mkConsoled tx a b c d e) => encode_consoled_init tx a b c d e output
  | ShellInit (mkWyrmsh tx a b c d e f g h k) => encode_wyrmsh_init tx a b c d e f g h k output
  end.

Definition parse_message (p : LaunchProfile) (bytes : list Z) (handles : list HandleInfo) : result Init :=
  match p with
  | DeviceCoordinator => let! i := parse_device_coordinator_init bytes handles in Ok (CoordinatorInit false i)
  | DeviceCoordinatorResourceDomain => let! i := parse_device_coordinator_resource_init bytes handles in Ok (CoordinatorInit true i)
  | DeviceDriver => let! i := parse_device_driver_init bytes handles in Ok (DriverInit i)
  | Consoled => let! i := parse_consoled_init bytes handles in Ok (ConsoleInit i)
  | Wyrmsh => let! i := parse_wyrmsh_init bytes handles in Ok (ShellInit i)
  | _ => let! m := parse_init p bytes handles in Ok (PlainInit (pm_profile m) (pm_transaction_id m))
  end.

(** The transaction, and the fields after the capability records with their offset. *)
Definition transaction_of (i : Init) : Z :=
  match i with
  | PlainInit _ tx => tx
  | CoordinatorInit _ i => dc_transaction_id i
  | DriverInit i => dd_transaction_id i
  | ConsoleInit i => ci_transaction_id i
  | ShellInit i => wi_transaction_id i
  end.
Definition tail_of (i : Init) : Z * list Z :=
  match i with
  | PlainInit _ _ => (HEADER_BYTES, [])
  | CoordinatorInit rd i => (if rd then 72 else 64, [dc_supervisor_generation i])
  | DriverInit (mkDriver _ a b c d e f) => (56, [a; b; c; d; e; f])
  | ConsoleInit (mkConsoled _ a b c d e) => (88, [a; b; c; d; e])
  | ShellInit (mkWyrmsh _ a b c d e f g h k) => (88, [a; b; c; d; e; f; g; h; k])
  end.

(** A profile whose INIT has no tail is encoded by [encode_init]. *)
Definition plain (p : LaunchProfile) : bool :=
  match p with DeviceCoordinator | DeviceCoordinatorResourceDomain | DeviceDriver | Consoled | Wyrmsh => false | _ => true end.

Definition init_ok (i : Init) : Prop :=
  in_u64 (transaction_of i) /\ transaction_of i <> 0 /\ Forall in_u64 (tail_of i).2 /\ 0 ∉ (tail_of i).2 /\
  match i with PlainInit p _ => plain p = true | _ => True end.

(** Every encoder is the inner one and then the tail. *)
Lemma encode_message_tail i out :
  init_ok i ->
  encode_message i out =
  (let! '(size, out) := encode_init_inner (profile_of i) (transaction_of i) out in
   let! out := put_fields out (tail_of i).1 (tail_of i).2 in Ok (size, out)).
Proof.
  intros (_ & _ & _ & H0 & Hp). apply contains_false in H0.
  destruct i as [p tx|[] [tx g]|[tx a b c d e f]|[tx a b c d e]|[tx a b c d e f g h k]]; cbn [tail_of snd] in *.
  - cbn [encode_message profile_of transaction_of fst put_fields res_bind].
    assert (encode_init p tx out = encode_init_inner p tx out) as -> by (by destruct p).
    by destruct (encode_init_inner p tx out) as [[]| |].
  - cbn [encode_message]. unfold encode_device_coordinator_resource_init.
    rewrite (proj2 (Z.eqb_neq g 0)) by (intros ->; done). cbn [profile_of transaction_of fst put_fields].
    destruct (encode_init_inner _ _ _) as [[]| |]; [|done..]. cbn [res_bind]. by destruct (put_u64 _ _ _).
  - cbn [encode_message]. unfold encode_device_coordinator_init.
    rewrite (proj2 (Z.eqb_neq g 0)) by (intros ->; done). cbn [profile_of transaction_of fst put_fields].
    destruct (encode_init_inner _ _ _) as [[]| |]; [|done..]. cbn [res_bind]. by destruct (put_u64 _ _ _).
  - cbn [encode_message]. unfold encode_device_driver_init. cbv zeta. by rewrite H0.
  - cbn [encode_message]. unfold encode_consoled_init. cbv zeta. by rewrite H0.
  - cbn [encode_message]. unfold encode_wyrmsh_init. cbv zeta. by rewrite H0.
Qed.

(** The tail starts after the capability records and ends with the message. *)
Lemma tail_fits i :
  (tail_of i).2 <> [] -> HEADER_BYTES + capability_count (profile_of i) * 8 <= (tail_of i).1 /\
    (tail_of i).1 + 8 * len (tail_of i).2 = init_size (profile_of i).
Proof.
  destruct i as [p tx|[] [tx g]|[tx a b c d e f]|[tx a b c d e]|[tx a b c d e f g h k]]; intros Hne; try done; by vm_compute.
Qed.

Lemma tail_keeps p tx out out' a b n :
  outside out out' a b -> HEADER_BYTES + capability_count p * 8 <= a -> init_size p = n -> n <= len out ->
  init_at (take (Z.to_nat n) out) p tx -> init_at (take (Z.to_nat n) out') p tx.
Proof.
  intros Ho Ha <- Hl [[H1 H2 H3 H4 H5 H6 H7 H8 H9 H10 H11] Hr]. pose proof (init_size_covers p). pose proof (proj1 Ho) as Hlen.
  pose proof (grants_count p). assert (0 <= capability_count p) by (clear; by destruct p). unfold HEADER_BYTES in *.
  rewrite length_take in H1. rewrite ?get_range_take, ?get_le_take in * by lia. split; [split|].
  all: rewrite ?get_range_take, ?get_le_take by lia; rewrite ?(outside_le _ _ _ _ _ _ Ho) by lia; try done.
  - rewrite length_take. lia.
  - rewrite (proj2 Ho) by lia. done.
  - intros k g Hk. destruct (Hr k g Hk) as [Hx Hy]. apply lookup_lt_Some in Hk. unfold role_at, HEADER_BYTES in *.
    rewrite !get_le_take in * by lia. rewrite !(outside_le _ _ _ _ _ _ Ho) by lia. done.
Qed.

(** ** Theorems *)

(** The bytes between the roles and the correlations of a console's INIT, which the
    launch contract reserves as zero and the encoder leaves so; [parse_init] does not
    read them. *)
Definition reserved_zero (p : LaunchProfile) (bytes : list Z) : Prop := p = Consoled -> get_range bytes 64 88 = Some (replicate 24 0).

(** C23: exactly the authority of the profile is accepted.  For every profile,
    [parse_init] answers without a panic on any bytes and handles.  What it accepts is
    an INIT message of that profile with a nonzero transaction, the roles those of the
    table in order, and each handle live, of the role's object type, with exactly the
    role's rights and no reserved bits; for the shell the nine correlations are
    nonzero too.  Every such message is accepted whose reserved bytes are zero; nothing
    is claimed of a console's INIT with others. *)
Theorem launch_authority (p : LaunchProfile) (bytes : list Z) (handles : list HandleInfo) :
  parse_init p bytes handles <> Panic /\
  forall msg,
    let authorised := pm_profile msg = p /\ init_at bytes p (pm_transaction_id msg) /\ Forall2 granted (grants p) handles /\
      (p = Wyrmsh -> exists fields, length fields = 9%nat /\ fields_at bytes 88 fields /\ 0 ∉ fields) in
    (parse_init p bytes handles = Ok msg -> authorised) /\
    (authorised -> reserved_zero p bytes -> parse_init p bytes handles = Ok msg).
Proof.
  pose proof (init_size_covers p) as Hsz. pose proof (grants_count p) as Hcount. unfold HEADER_BYTES in *. split.
  - unfold parse_init. assert (0 <= capability_count p) by (clear; by destruct p).
    apply res_bind_not_panic; [apply launch_header_np; lia|]. intros tx [Hl _ _ _ _ _ _ _ _ _ _]%parse_header_Ok.
    destruct (Z.eqb_spec (len handles) (capability_count p)); cbn [negb]; [|done].
    apply res_bind_not_panic; [|done]. rewrite read_capabilities_table.
    apply res_bind_not_panic; [apply check_capabilities_np; unfold HEADER_BYTES; lia|]. intros _ _.
    destruct p; try done. cbn [correlated]. apply res_bind_not_panic; [apply get_fields_np; [lia|rewrite Hl; by vm_compute]|].
    intros fields _. by case_match.
  - intros [tx p']. cbn [pm_profile pm_transaction_id]. split.
    + intros H. unfold parse_init in H. apply res_bind_Ok in H as (tx' & Hh & H). destruct (Z.eqb_spec (len handles) (capability_count p)) as [Hn|]; [|done].
      cbn [negb] in H. rewrite read_capabilities_table in H. apply res_bind_Ok in H as ([] & H & Hok). injection Hok as <- <-.
      apply res_bind_Ok in H as ([] & Hc & Hcor). apply parse_header_Ok in Hh.
      assert (forall k g, grants p !! k = Some g -> role_at bytes (Z.of_nat k) (role g) /\ exists h, handles !! k = Some h /\ granted g h) as Hall.
      { intros k g Hk. destruct (proj1 (check_capabilities_Ok _ _ _ 0) Hc k g Hk) as [Hr (h & Hh' & Hg)]. split; [done|]. exists h.
        unfold get_at in Hh'. rewrite Z.add_0_l, (proj2 (Z.leb_le 0 _)), Nat2Z.id in Hh' by lia. done. }
      split_conj; [done|split; [done|intros; by apply Hall]|..].
      * apply Forall2_same_length_lookup. split; [lia|]. intros k g h Hk Hkh. destruct (Hall k g Hk) as [_ (h' & Hh' & Hg)]. congruence.
      * intros ->. cbn [correlated] in Hcor. apply res_bind_Ok in Hcor as (fields & Hf & Hz). apply get_fields_Ok in Hf as [Hlf Hf].
        exists fields. split_conj; [done..|]. destruct (contains 0 fields) eqn:E; [done|]. by apply contains_false.
    + intros (-> & Hi & Hg & Hw) _. apply parse_init_accepts; [done..|]. destruct p; try done. destruct Hw as (fields & Hl & Hf & Hz); [done|].
      cbn [correlated]. rewrite (proj2 (get_fields_Ok bytes 9 88 fields) (conj Hl Hf)). cbn [res_bind].
      by rewrite (proj2 (contains_false 0 fields) Hz).
Qed.

Lemma parse_message_reads i bytes handles :
  init_ok i -> init_at bytes (profile_of i) (transaction_of i) -> Forall2 granted (grants (profile_of i)) handles ->
  fields_at bytes (tail_of i).1 (tail_of i).2 -> parse_message (profile_of i) bytes handles = Ok i.
Proof.
  intros (_ & _ & _ & H0 & Hp) Hi Hg Hf. pose proof (fun n => proj2 (get_fields_Ok bytes n (tail_of i).1 (tail_of i).2)) as Hget.
  pose proof (proj2 (contains_false 0 (tail_of i).2) H0) as Hc.
  assert (correlated (profile_of i) bytes = Ok tt -> parse_init (profile_of i) bytes handles = Ok (mkParsed (transaction_of i) (profile_of i))) as Hinit
    by (intros; by apply parse_init_accepts).
  destruct i as [p tx|[] [tx g]|[tx a b c d e f]|[tx a b c d e]|[tx a b c d e f g h k]];
    cbn [profile_of transaction_of tail_of fst snd dc_transaction_id dc_supervisor_generation dd_transaction_id ci_transaction_id wi_transaction_id] in *.
  - by destruct p; try done; cbn [parse_message]; rewrite Hinit.
  - cbn [parse_message]. unfold parse_device_coordinator_resource_init, get_u64. rewrite Hinit by done. cbn [res_bind].
    pose proof (Hf 0%nat g eq_refl) as Hx. change (72 + 8 * Z.of_nat 0) with 72 in Hx. rewrite Hx. cbn [or_panic res_bind]. by rewrite (proj2 (Z.eqb_neq g 0)) by (intros ->; done).
  - cbn [parse_message]. unfold parse_device_coordinator_init, get_u64. rewrite Hinit by done. cbn [res_bind].
    pose proof (Hf 0%nat g eq_refl) as Hx. change (64 + 8 * Z.of_nat 0) with 64 in Hx. rewrite Hx. cbn [or_panic res_bind]. by rewrite (proj2 (Z.eqb_neq g 0)) by (intros ->; done).
  - cbn [parse_message]. unfold parse_device_driver_init. rewrite Hinit, (Hget 6%nat) by done. cbn [res_bind]. by rewrite Hc.
  - cbn [parse_message]. unfold parse_consoled_init. rewrite Hinit, (Hget 5%nat) by done. cbn [res_bind]. by rewrite Hc.
  - cbn [parse_message]. unfold parse_wyrmsh_init. rewrite Hinit; [|cbn [correlated]; rewrite (Hget 9%nat) by done; cbn [res_bind]; by rewrite Hc].
    cbn [res_bind]. by rewrite (Hget 9%nat).
Qed.

(** What an encoder writes into a buffer with room. *)
Lemma message_written (i : Init) (output : list Z) :
  init_ok i -> init_size (profile_of i) <= len output ->
  exists out, encode_message i output = Ok (init_size (profile_of i), out) /\
    (forall handles, Forall2 granted (grants (profile_of i)) handles ->
       parse_message (profile_of i) (take (Z.to_nat (init_size (profile_of i))) out) handles = Ok i) /\
    length out = length output /\ agree out output (init_size (profile_of i)) (len output).
Proof.
  intros Hok Hl. pose proof Hok as (Htx & Hnz & Hu & H0 & Hp). rewrite encode_message_tail by done.
  destruct (encode_inner_spec (profile_of i) (transaction_of i) output Htx Hnz Hl) as (out1 & -> & Ho1 & Hi1). cbn [res_bind].
  pose proof (proj1 Ho1) as Hl1. pose proof (init_size_covers (profile_of i)) as Hsz. unfold HEADER_BYTES in Hsz.
  assert (0 <= capability_count (profile_of i)) by (destruct (profile_of i); by vm_compute).
  destruct (decide ((tail_of i).2 = [])) as [Hnil|Hne].
  - rewrite Hnil. cbn [put_fields res_bind]. exists out1. split_conj; [done| |done|].
    + intros handles Hg. apply parse_message_reads; try done. rewrite Hnil. by intros k v Hk.
    + apply Ho1. by right.
  - destruct (tail_fits i Hne) as [Ha Hb]. destruct (put_fields_spec (tail_of i).2 out1 (tail_of i).1) as (out2 & -> & Ho2 & Hf);
      [unfold HEADER_BYTES in *; lia|lia|done|]. cbn [res_bind]. pose proof (proj1 Ho2) as Hl2. rewrite Hb in Ho2.
    exists out2. split_conj; [done| |lia|].
    + intros handles Hg. apply parse_message_reads; try done; [by apply (tail_keeps _ _ out1 out2 _ _ _ Ho2 Ha eq_refl); [lia|]|].
      intros k v Hk. assert (Z.of_nat k < len (tail_of i).2) by (apply lookup_lt_Some in Hk; lia).
      rewrite get_le_take by lia. by apply Hf.
    + unfold agree. rewrite (proj2 Ho2), (proj2 Ho1) by lia. done.
Qed.

(** every INIT message is read back.  What an encoder writes into a buffer
    with room, the parser of the same profile returns, given handles as the
    table grants them; the size is the profile's and the rest of the buffer is
    untouched. *)
Theorem wrlp_round_trip (i : Init) (output : list Z) (handles : list HandleInfo) :
  init_ok i -> init_size (profile_of i) <= len output -> Forall2 granted (grants (profile_of i)) handles ->
  exists out, encode_message i output = Ok (init_size (profile_of i), out) /\
    parse_message (profile_of i) (take (Z.to_nat (init_size (profile_of i))) out) handles = Ok i /\
    length out = length output /\ agree out output (init_size (profile_of i)) (len output).
Proof.
  intros Hok Hl Hg. destruct (message_written i output Hok Hl) as (out & He & Hp & Hlen & Ha). exists out. auto.
Qed.

(** A zero transaction or correlation is refused. *)
Lemma encode_message_refuses i out :
  init_size (profile_of i) <= len out -> transaction_of i = 0 \/ 0 ∈ (tail_of i).2 ->
  match i with PlainInit p _ => plain p = true | _ => True end -> encode_message i out = Err ZeroTransaction.
Proof.
  intros Hl Hz Hp.
  assert (Hin : transaction_of i = 0 -> encode_init_inner (profile_of i) (transaction_of i) out = Err ZeroTransaction).
  { intros ->. unfold encode_init_inner. cbv zeta. destruct (Z.ltb_spec (len out) (init_size (profile_of i))); [lia | done]. }
  destruct (contains 0 (tail_of i).2) eqn:Hc.
  - destruct i as [p tx|[] [tx g]|[tx a b c d e f]|[tx a b c d e]|[tx a b c d e f g h k]]; [done|..];
      cbn [tail_of snd dc_supervisor_generation] in *; cbn [encode_message].
    1,2: assert (g = 0) as -> by (apply contains_true in Hc; inversion Hc; [done | by apply not_elem_of_nil in H1]); done.
    + unfold encode_device_driver_init. cbv zeta. by rewrite Hc.
    + unfold encode_consoled_init. cbv zeta. by rewrite Hc.
    + unfold encode_wyrmsh_init. cbv zeta. by rewrite Hc.
  - destruct Hz as [Hz|Hz]; [|apply contains_true in Hz; congruence]. specialize (Hin Hz).
    destruct i as [p tx|[] [tx g]|[tx a b c d e f]|[tx a b c d e]|[tx a b c d e f g h k]];
      cbn [tail_of snd profile_of transaction_of dc_transaction_id dd_transaction_id ci_transaction_id wi_transaction_id
           dc_supervisor_generation] in *; cbn [encode_message].
    + by destruct p.
    + unfold encode_device_coordinator_resource_init. rewrite Hin. by case_match.
    + unfold encode_device_coordinator_init. rewrite Hin. by case_match.
    + unfold encode_device_driver_init. cbv zeta. by rewrite Hc, Hin.
    + unfold encode_consoled_init. cbv zeta. by rewrite Hc, Hin.
    + unfold encode_wyrmsh_init. cbv zeta. by rewrite Hc, Hin.
Qed.

(** READY, exactly. *)
Lemma parse_ready_Ok p bytes tx :
  parse_ready_for_profile p bytes tx = Ok tt <->
  header_at bytes TYPE_READY (protocol_minor p) HEADER_BYTES 0 tx.
Proof.
  unfold parse_ready_for_profile. rewrite res_bind_Ok. split.
  - intros (tx' & Hh & H). destruct (Z.eqb_spec tx' tx) as [->|]; [|done]. by apply parse_header_Ok.
  - intros H. exists tx. split; [by apply parse_header_Ok|]. by rewrite Z.eqb_refl.
Qed.

Lemma ready_written p tx output :
  in_u64 tx -> tx <> 0 -> HEADER_BYTES <= len output ->
  exists out, encode_ready_for_profile p tx output = Ok (HEADER_BYTES, out) /\
    parse_ready_for_profile p (take (Z.to_nat HEADER_BYTES) out) tx = Ok tt.
Proof.
  intros Htx Hnz Hl.
  destruct (header_written output HEADER_BYTES TYPE_READY (protocol_minor p) 0 tx) as (out0 & out1 & Hf & Hw & _ & Hh & _);
    try done; [apply protocol_minor_small|]. unfold encode_ready_for_profile.
  rewrite (proj2 (Z.ltb_ge _ _)), (proj2 (Z.eqb_neq _ _) Hnz), Hf by lia. cbn [or_panic res_bind]. rewrite Hw. cbn [res_bind].
  exists out1. split; [done|]. by apply parse_ready_Ok.
Qed.

Lemma parse_ready_np p bytes tx : parse_ready_for_profile p bytes tx <> Panic.
Proof.
  unfold parse_ready_for_profile. apply res_bind_not_panic; [by apply launch_header_np|]. intros. by case_match.
Qed.
End tables.

(** ** A concrete interface *)

Definition sample_abi : Abi := {|
  DW_RIGHT_READ := 1; DW_RIGHT_WRITE := 2; DW_RIGHT_MAP := 4; DW_RIGHT_MODIFY := 8; DW_RIGHT_INSPECT := 16;
  DW_RIGHT_DUPLICATE := 32; DW_RIGHT_TRANSFER := 64; DW_RIGHT_WAIT := 128; DW_RIGHT_RESOURCE := 256;
  DW_OBJECT_TYPE_ADDRESS_REGION := 1; DW_OBJECT_TYPE_CHANNEL := 2; DW_OBJECT_TYPE_MEMORY_OBJECT := 3;
  DW_OBJECT_TYPE_TASK_GROUP := 4 |}.

Definition sample_driver : Init := DriverInit (mkDriver 9 1 2 3 4 5 6).
Definition sample_handles : list HandleInfo := [mkHandle 7 1 28 0 [0; 0]; mkHandle 8 2 147 0 [0; 0]].

Lemma wrlp_round_trip_witness :
  init_ok sample_driver /\ init_size (profile_of sample_driver) <= len (replicate 110 5) /\
  exists out, encode_message sample_driver (replicate 110 5) = Ok (104, out) /\
    parse_message (abi := sample_abi) DeviceDriver (take 104 out) sample_handles = Ok sample_driver.
Proof.
  assert (init_ok sample_driver) as Hok.
  { unfold init_ok. split_conj; [done|done|cbn [tail_of sample_driver snd]; repeat (constructor; [unfold in_u64; lia|]); constructor| |done].
    apply (bool_decide_unpack _). by vm_compute. }
  split; [exact Hok|]. split; [by vm_compute|].
  destruct (wrlp_round_trip (abi := sample_abi) sample_driver (replicate 110 5) sample_handles Hok) as (out & He & Hp & _);
    [by vm_compute|by repeat constructor|]. exists out. split; [exact He|exact Hp].
Defined.

(** The 24 bytes between the capability records and the fields of a console
    INIT are written as zero and not read: a message with any of them set is
    accepted as well. *)
Lemma consoled_padding_unread :
  let handles := [mkHandle 7 1 28 0 [0; 0]; mkHandle 8 2 147 0 [0; 0]; mkHandle 9 2 147 0 [0; 0]] in
  exists out, encode_consoled_init 9 1 2 3 4 5 (replicate 128 0) = Ok (128, out) /\
    <[70%nat := 1]> out <> out /\
    parse_consoled_init (abi := sample_abi) (<[70%nat := 1]> out) handles = Ok (mkConsoled 9 1 2 3 4 5).
Proof. eexists. split; [vm_compute; reflexivity|]. split; [by vm_compute|by vm_compute]. Qed.
