(* ===== verification/Supervision.v ===== *)
(** * Supervision of one child (crates/wyrmroot-runtime/src/supervision.rs)

    A parent watches the launch channel and the process of a child it started:
    it waits for READY, for the channel to close and for the process to exit.
    The kernel is a [SupervisionPlatform], a state with three calls; its signal
    bits and record layout are the fields of [SupervisionAbi].  The two loops run
    on fuel, and running out of it is [Panic]. *)

From stdpp Require Import base tactics option list list_numbers.
From Stdlib Require Import ZArith Lia.
From S2P Require Import Prelude Bytes Launch StateM.

Class SupervisionAbi := {
  DW_DEADLINE_INFINITE : Z; DW_SIGNAL_EXITED : Z; DW_SIGNAL_PEER_CLOSED : Z; DW_SIGNAL_READABLE : Z;
  DW_TASK_STATE_EXITED : Z; DW_TASK_TERMINATION_INFO_V1_SIZE : Z; DW_TERMINATION_NORMAL_EXIT : Z }.

Module Supervision.

Record WaitItem := mkItem { i_handle : Z; i_signals : Z }.
Record WaitResult := mkWait { w_index : Z; w_observed : Z }.
Record ReceiveCounts := mkCounts { c_bytes : Z; c_handles : Z }.
Record TerminationInfo := mkInfo {
  info_size : Z; info_version : Z; info_state : Z; info_reason : Z; application_code : Z; exception_type : Z;
  info_detail : Z; fault_address : Z; info_reserved0 : Z; info_reserved : list Z }.

#[global] Instance ReceiveCounts_eq_dec : EqDecision ReceiveCounts.
Proof. solve_decision. Defined.

(** The three native operations.  A receive fills the caller's buffer, which
    keeps its length. *)
Class SupervisionPlatform (P E : Type) := {
  wait_many : P -> list WaitItem -> Z -> P * (E + WaitResult);
  receive_channel : P -> Z -> list Z -> P * (E + ReceiveCounts) * list Z;
  query_task_termination : P -> Z -> P * (E + TerminationInfo);
  receive_keeps_length p channel bytes : length (receive_channel p channel bytes).2 = length bytes }.

Inductive ExitValidationError :=
| InvalidEnvelope | NotExited | NotNormalExit | NonzeroApplicationCode (code : Z) | NonzeroExceptionFields.

(** [DrainDuplicateReady] is [ExitObservedReadinessError::DuplicateReady], and so on for the others. *)
Inductive ExitObservedReadinessError (E : Type) :=
| DrainPlatform (e : E) | DrainInvalidWaitResult | DrainInvalidReadyReceive (c : ReceiveCounts)
| DrainReady (e : Launch.LaunchError) | DrainDuplicateReady.
Arguments DrainPlatform {_}. Arguments DrainInvalidWaitResult {_}. Arguments DrainInvalidReadyReceive {_}.
Arguments DrainReady {_}. Arguments DrainDuplicateReady {_}.

Inductive SupervisionError (E : Type) :=
| UnboundedDeadline | Platform (e : E) | ExitQuery (e : E) | InvalidWaitResult
| InvalidReadyReceive (c : ReceiveCounts) | Ready (e : Launch.LaunchError) | ExitedBeforeReady
| PeerClosedBeforeReady | DuplicateReady | Exit (e : ExitValidationError)
| ExitObservedReadiness (e : ExitObservedReadinessError E).
Arguments UnboundedDeadline {_}. Arguments Platform {_}. Arguments ExitQuery {_}. Arguments InvalidWaitResult {_}.
Arguments InvalidReadyReceive {_}. Arguments Ready {_}. Arguments ExitedBeforeReady {_}.
Arguments PeerClosedBeforeReady {_}. Arguments DuplicateReady {_}. Arguments Exit {_}. Arguments ExitObservedReadiness {_}.

Inductive ObservedSupervisionError (E : Type) :=
| Failed (e : SupervisionError E) | ObservedExitedBeforeReady (info : TerminationInfo)
| ObservedPeerClosedBeforeReady (info : TerminationInfo) | ObservedExit (e : ExitValidationError) (info : TerminationInfo)
| ObservedReadiness (e : ExitObservedReadinessError E) (info : TerminationInfo).
Arguments Failed {_}. Arguments ObservedExitedBeforeReady {_}. Arguments ObservedPeerClosedBeforeReady {_}.
Arguments ObservedExit {_}. Arguments ObservedReadiness {_}.

(** [SupervisionError::process_exit_observed] *)
Definition exit_observed {E} (e : SupervisionError E) : bool :=
  match e with
  | ExitedBeforeReady | PeerClosedBeforeReady | ExitQuery _ | Exit _ | ExitObservedReadiness _ => true
  | _ => false
  end.
(** [ObservedSupervisionError::process_exit_observed] *)
Definition process_exit_observed {E} (e : ObservedSupervisionError E) : bool :=
  match e with
  | Failed PeerClosedBeforeReady => false
  | Failed error => exit_observed error
  | _ => true
  end.

Section supervision.
Context {sabi : SupervisionAbi} {P E : Type} {platform : SupervisionPlatform P E}.

Definition CHANNEL_SIGNALS : Z := Z.lor DW_SIGNAL_READABLE DW_SIGNAL_PEER_CLOSED.

Definition validate_terminal_record (info : TerminationInfo) : res ExitValidationError unit :=
  reject_if! negb (info_size info =? DW_TASK_TERMINATION_INFO_V1_SIZE) || negb (info_version info =? 1)
    || negb (info_reserved0 info =? 0) || negb (bool_decide (info_reserved info = [0; 0; 0])) with InvalidEnvelope;;
  reject_if! negb (info_state info =? DW_TASK_STATE_EXITED) with NotExited;;
  Ok tt.

Definition validate_successful_exit (info : TerminationInfo) : res ExitValidationError unit :=
  let! _ := validate_terminal_record info in
  reject_if! negb (info_reason info =? DW_TERMINATION_NORMAL_EXIT) with NotNormalExit;;
  reject_if! negb (application_code info =? 0) with NonzeroApplicationCode (application_code info);;
  reject_if! negb (exception_type info =? 0) || negb (info_detail info =? 0) || negb (fault_address info =? 0)
    with NonzeroExceptionFields;;
  Ok tt.

Definition into_legacy (e : ObservedSupervisionError E) : SupervisionError E :=
  match e with
  | Failed error => error
  | ObservedExitedBeforeReady info =>
      match validate_successful_exit info with
      | Err error => Exit error
      | _ => ExitedBeforeReady
      end
  | ObservedPeerClosedBeforeReady _ => PeerClosedBeforeReady
  | ObservedExit error _ => Exit error
  | ObservedReadiness error _ => ExitObservedReadiness error
  end.

(** A call on the platform, its error wrapped by [f]. *)
Definition call {X A} (op : P -> P * (E + A)) (f : E -> X) : SM P X A := fun p =>
  match op p with
  | (p, inl e) => (p, Err (f e))
  | (p, inr a) => (p, Ok a)
  end.
(** A receive into [[0; HEADER_BYTES]]: the counts and the bytes. *)
Definition receive {X} (channel : Z) (f : E -> X) : SM P X (ReceiveCounts * list Z) := fun p =>
  match receive_channel p channel (replicate (Z.to_nat Launch.HEADER_BYTES) 0) with
  | (p, inl e, _) => (p, Err (f e))
  | (p, inr counts, bytes) => (p, Ok (counts, bytes))
  end.
(** A pure step with its error mapped. *)
Definition lift {X Y A} (c : res X A) (f : X -> Y) : SM P Y A := fun p =>
  (p, match c with Ok a => Ok a | Err e => Err (f e) | Panic => Panic end).

Definition expected_counts : ReceiveCounts := mkCounts Launch.HEADER_BYTES 0.

Definition has (observed signals : Z) : bool := negb (Z.land observed signals =? 0).

(** [drain_terminal_launch_channel] *)
Fixpoint drain_terminal_launch_channel (fuel : nat) (launch_channel : Z) (profile : Launch.LaunchProfile)
    (transaction_id : Z) (ready : bool) (deadline : Z) : SM P (ExitObservedReadinessError E) bool :=
  match fuel with
  | O => fun p => (p, Panic)
  | S fuel =>
      result ← call (fun p => wait_many p [mkItem launch_channel CHANNEL_SIGNALS] deadline) DrainPlatform;
      if negb (w_index result =? 0) || negb (has (w_observed result) CHANNEL_SIGNALS) then throw DrainInvalidWaitResult
      else
      if has (w_observed result) DW_SIGNAL_READABLE then
        received ← receive launch_channel DrainPlatform;
        let '(counts, bytes) := received in
        if negb (bool_decide (counts = expected_counts)) then throw (DrainInvalidReadyReceive counts)
        else if ready then throw DrainDuplicateReady
        else
        _ ← lift (Launch.parse_ready_for_profile profile bytes transaction_id) DrainReady;
        drain_terminal_launch_channel fuel launch_channel profile transaction_id true deadline
      else mret ready
  end.

(** The rounds of the loops: READY at most once, and the channel closed at most once. *)
Definition DRAIN_ROUNDS : nat := 2.
Definition SUPERVISE_ROUNDS : nat := 3.

Definition finish (info : TerminationInfo) : SM P (ObservedSupervisionError E) TerminationInfo :=
  _ ← lift (validate_successful_exit info) (fun error => ObservedExit error info);
  mret info.

(** The process has exited: its record, and then what the channel still holds. *)
Definition observe_exit (process launch_channel : Z) (profile : Launch.LaunchProfile) (transaction_id deadline : Z)
    (ready monitor_channel : bool) : SM P (ObservedSupervisionError E) TerminationInfo :=
  info ← call (fun p => query_task_termination p process) (fun e => Failed (ExitQuery e));
  _ ← lift (validate_terminal_record info) (fun error => ObservedExit error info);
  if negb monitor_channel then
    if ready then finish info else throw (ObservedPeerClosedBeforeReady info)
  else fun p =>
    match drain_terminal_launch_channel DRAIN_ROUNDS launch_channel profile transaction_id ready deadline p with
    | (p, Ok true) => finish info p
    | (p, Ok false) => (p, Err (ObservedExitedBeforeReady info))
    | (p, Err error) => (p, Err (ObservedReadiness error info))
    | (p, Panic) => (p, Panic)
    end.

Fixpoint supervise_loop (fuel : nat) (process launch_channel : Z) (profile : Launch.LaunchProfile)
    (transaction_id deadline : Z) (ready monitor_channel : bool)
    : SM P (ObservedSupervisionError E) TerminationInfo :=
  match fuel with
  | O => fun p => (p, Panic)
  | S fuel =>
      let channel_item := mkItem launch_channel CHANNEL_SIGNALS in
      let process_item := mkItem process DW_SIGNAL_EXITED in
      let wait_items := if monitor_channel then [channel_item; process_item] else [process_item] in
      result ← call (fun p => wait_many p wait_items deadline) (fun e => Failed (Platform e));
      match get_at wait_items (w_index result) with
      | None => throw (Failed InvalidWaitResult)
      | Some item =>
          if negb (has (w_observed result) (i_signals item)) then throw (Failed InvalidWaitResult)
          else
          if monitor_channel && (w_index result =? 0) then
            if has (w_observed result) DW_SIGNAL_READABLE then
              received ← receive launch_channel (fun e => Failed (Platform e));
              let '(counts, bytes) := received in
              if negb (bool_decide (counts = expected_counts)) then throw (Failed (InvalidReadyReceive counts))
              else if ready then throw (Failed DuplicateReady)
              else
              _ ← lift (Launch.parse_ready_for_profile profile bytes transaction_id) (fun e => Failed (Ready e));
              supervise_loop fuel process launch_channel profile transaction_id deadline true monitor_channel
            else supervise_loop fuel process launch_channel profile transaction_id deadline ready false
          else if negb (w_index result =? 0) && negb (monitor_channel && (w_index result =? 1)) then
            throw (Failed InvalidWaitResult)
          else observe_exit process launch_channel profile transaction_id deadline ready monitor_channel
      end
  end.

Definition supervise_profile_state (process launch_channel : Z) (profile : Launch.LaunchProfile)
    (transaction_id deadline : Z) (ready : bool) : SM P (ObservedSupervisionError E) TerminationInfo :=
  supervise_loop SUPERVISE_ROUNDS process launch_channel profile transaction_id deadline ready true.

(** [.map(|_| ()).map_err(ObservedSupervisionError::into_legacy)] *)
Definition legacy {A} (c : SM P (ObservedSupervisionError E) A) : SM P (SupervisionError E) unit := fun p =>
  match c p with
  | (p, Ok _) => (p, Ok tt)
  | (p, Err e) => (p, Err (into_legacy e))
  | (p, Panic) => (p, Panic)
  end.

Definition supervise_child_profile (process launch_channel : Z) (profile : Launch.LaunchProfile)
    (transaction_id deadline : Z) : SM P (SupervisionError E) unit :=
  if deadline =? DW_DEADLINE_INFINITE then throw UnboundedDeadline
  else legacy (supervise_profile_state process launch_channel profile transaction_id deadline false).

Definition supervise_child (process launch_channel transaction_id deadline : Z) : SM P (SupervisionError E) unit :=
  supervise_child_profile process launch_channel Launch.Hello transaction_id deadline.

Definition supervise_ready_child_profile (process launch_channel : Z) (profile : Launch.LaunchProfile)
    (transaction_id lifetime_deadline : Z) : SM P (ObservedSupervisionError E) TerminationInfo :=
  supervise_profile_state process launch_channel profile transaction_id lifetime_deadline true.

Definition await_child_ready_profile_observed (process launch_channel : Z) (profile : Launch.LaunchProfile)
    (transaction_id deadline : Z) : SM P (ObservedSupervisionError E) unit :=
  if deadline =? DW_DEADLINE_INFINITE then throw (Failed UnboundedDeadline)
  else
  let items := [mkItem launch_channel CHANNEL_SIGNALS; mkItem process DW_SIGNAL_EXITED] in
  result ← call (fun p => wait_many p items deadline) (fun e => Failed (Platform e));
  match get_at items (w_index result) with
  | None => throw (Failed InvalidWaitResult)
  | Some item =>
      if negb (has (w_observed result) (i_signals item)) then throw (Failed InvalidWaitResult)
      else if w_index result =? 1 then
        info ← call (fun p => query_task_termination p process) (fun e => Failed (ExitQuery e));
        _ ← lift (validate_terminal_record info) (fun error => ObservedExit error info);
        throw (ObservedExitedBeforeReady info)
      else if negb (has (w_observed result) DW_SIGNAL_READABLE) then
        terminal ← call (fun p => wait_many p [mkItem process DW_SIGNAL_EXITED] deadline) (fun e => Failed (Platform e));
        if negb (w_index terminal =? 0) || negb (has (w_observed terminal) DW_SIGNAL_EXITED) then
          throw (Failed InvalidWaitResult)
        else
        info ← call (fun p => query_task_termination p process) (fun e => Failed (ExitQuery e));
        _ ← lift (validate_terminal_record info) (fun error => ObservedExit error info);
        throw (ObservedPeerClosedBeforeReady info)
      else
      received ← receive launch_channel (fun e => Failed (Platform e));
      let '(counts, bytes) := received in
      if negb (bool_decide (counts = expected_counts)) then throw (Failed (InvalidReadyReceive counts))
      else
      _ ← lift (Launch.parse_ready_for_profile profile bytes transaction_id) (fun e => Failed (Ready e));
      mret tt
  end.

Definition await_child_ready_profile (process launch_channel : Z) (profile : Launch.LaunchProfile)
    (transaction_id deadline : Z) : SM P (SupervisionError E) unit :=
  legacy (await_child_ready_profile_observed process launch_channel profile transaction_id deadline).
End supervision.

End Supervision.
