(* ===== verification/SupervisionThms.v ===== *)
(** * What the supervision of a child shows

    The calls made on the platform are recorded, newest first, by a platform
    around the platform; the theorems relate the outcome a supervisor returns to
    that record, for every platform. *)

From stdpp Require Import base tactics option list list_numbers.
From Stdlib Require Import ZArith Lia.
From S2P Require Import Prelude Bytes Launch LaunchThms StateM Supervision.
Import Launch Supervision.
Local Open Scope Z_scope.

Section events.
Context {E : Type}.

Inductive Event :=
| Waited (items : list WaitItem) (deadline : Z) (r : E + WaitResult)
| Received (channel : Z) (r : E + ReceiveCounts) (bytes : list Z)
| Queried (process : Z) (r : E + TerminationInfo).
End events.
Arguments Event : clear implicits.

(** A platform that records its calls. *)
Record Watched (P E : Type) := mkWatched { under : P; log : list (Event E) }.
Arguments mkWatched {_ _}. Arguments under {_ _}. Arguments log {_ _}.

#[global] Program Instance watched_platform {P E} `{!SupervisionPlatform P E} : SupervisionPlatform (Watched P E) E := {
  wait_many w items deadline :=
    let '(p, r) := wait_many (under w) items deadline in (mkWatched p (Waited items deadline r :: log w), r);
  receive_channel w channel bytes :=
    let '(p, r, out) := receive_channel (under w) channel bytes in (mkWatched p (Received channel r out :: log w), r, out);
  query_task_termination w process :=
    let '(p, r) := query_task_termination (under w) process in (mkWatched p (Queried process r :: log w), r) }.
Next Obligation.
  intros P E H w channel bytes. cbn. pose proof (receive_keeps_length (under w) channel bytes) as HL.
  by destruct (receive_channel (under w) channel bytes) as [[p r] out].
Qed.

Lemma get_at_first {A} (a : A) l : get_at (a :: l) 0 = Some a.
Proof. done. Qed.
Lemma get_at_second {A} (a b : A) l : get_at (a :: b :: l) 1 = Some b.
Proof. done. Qed.

(** An answer names one of the items of the wait. *)
Lemma get_at_one {A} (a x : A) i : get_at [a] i = Some x -> i = 0 /\ x = a.
Proof.
  unfold get_at. destruct (Z.leb_spec 0 i); [|done]. intros Hl.
  assert (Z.to_nat i = 0)%nat as Hi by (apply lookup_lt_Some in Hl; cbn in Hl; lia).
  rewrite Hi in Hl. cbn in Hl. split; [lia | congruence].
Qed.
Lemma get_at_two {A} (a b x : A) i : get_at [a; b] i = Some x -> (i = 0 /\ x = a) \/ (i = 1 /\ x = b).
Proof.
  unfold get_at. destruct (Z.leb_spec 0 i); [|done]. intros Hl. pose proof (lookup_lt_Some _ _ _ Hl) as Hn. cbn in Hn.
  destruct (Z.to_nat i) as [|[|k]] eqn:Hi; cbn in Hl; [left | right | lia]; split; first [lia | congruence].
Qed.

Section outcome.
Context {sabi : SupervisionAbi} {P E : Type} {platform : SupervisionPlatform P E}.
Context (process launch_channel : Z) (profile : LaunchProfile) (transaction_id deadline : Z).
Implicit Types (es : list (Event E)) (w : Watched P E).

(** A wait answered for the child process with EXITED. *)
Definition exit_signal (ev : Event E) : bool :=
  match ev with
  | Waited items _ (inr r) =>
      match get_at items (w_index r) with
      | Some item => (i_handle item =? process) && has (w_observed r) DW_SIGNAL_EXITED
      | None => false
      end
  | _ => false
  end.
Definition exit_seen es : bool := existsb exit_signal es.

(** A received datagram that is this child's READY: 40 bytes, no handle, the
    profile and the transaction of the launch. *)
Definition is_ready (ev : Event E) : bool :=
  match ev with
  | Received channel (inr counts) bytes =>
      (channel =? launch_channel) && bool_decide (counts = expected_counts)
      && is_ok (parse_ready_for_profile profile bytes transaction_id)
  | _ => false
  end.
Definition is_receive (ev : Event E) : bool := match ev with Received _ _ _ => true | _ => false end.
Definition readies es : list (Event E) := List.filter is_ready es.
Definition receives es : list (Event E) := List.filter is_receive es.

(** The newest answer of the channel is that its peer closed and nothing is
    queued. *)
Fixpoint drained es : bool :=
  match es with
  | [] => false
  | Received _ _ _ :: _ => false
  | Waited items _ (inr r) :: rest =>
      match get_at items (w_index r) with
      | Some item =>
          if (i_handle item =? launch_channel)
          then has (w_observed r) DW_SIGNAL_PEER_CLOSED && negb (has (w_observed r) DW_SIGNAL_READABLE)
          else drained rest
      | None => drained rest
      end
  | _ :: rest => drained rest
  end.

(** Every wait has the caller's deadline and watches the child only. *)
Definition in_bounds (ev : Event E) : bool :=
  match ev with
  | Waited items d _ =>
      (d =? deadline) && forallb (fun i => (i_handle i =? process) || (i_handle i =? launch_channel)) items
  | Received channel _ _ => channel =? launch_channel
  | Queried task _ => task =? process
  end.

(** What is known while the child is watched: [ready] was accepted in this
    record, unless it was before ([before]). *)
Record watching (before ready : bool) (es : list (Event E)) : Prop := mkWatching {
  k_ready : length (readies es) = (if before then 0 else Nat.b2n ready)%nat;
  k_before : before = true -> ready = true;
  k_only : readies es = receives es;
  k_bounds : forallb in_bounds es = true }.

Record completed (before : bool) (info : TerminationInfo) (es : list (Event E)) : Prop := mkCompleted {
  d_ready : length (readies es) = (if before then 0 else 1)%nat;
  d_only : readies es = receives es;
  d_drained : drained es = true;
  d_exit : exit_seen es = true;
  d_info : In (Queried process (inr info)) es;
  d_valid : validate_successful_exit info = Ok tt;
  d_bounds : forallb in_bounds es = true;
  d_calls : (length es <= 5)%nat }.

(** An error says that the exit was observed exactly when it was. *)
Record truthful (e : ObservedSupervisionError E) (es : list (Event E)) : Prop := mkTruthful {
  t_exit : process_exit_observed e = exit_seen es;
  t_legacy : exit_observed (into_legacy e) = exit_seen es;
  t_bounds : forallb in_bounds es = true;
  t_calls : (length es <= 6)%nat }.

Lemma has_channel o :
  has o CHANNEL_SIGNALS = true -> has o DW_SIGNAL_READABLE = false -> has o DW_SIGNAL_PEER_CLOSED = true.
Proof.
  unfold has, CHANNEL_SIGNALS. rewrite Z.land_lor_distr_r, !negb_true_iff, negb_false_iff, !Z.eqb_eq, !Z.eqb_neq.
  intros H1 H2 H3. rewrite H2, H3 in H1. done.
Qed.

(** ** Rules for the calls *)

Lemma wp_wait {X} items d (f : E -> X) Q R w :
  (forall p e, R (f e) (mkWatched p (Waited items d (inl e) :: log w))) ->
  (forall p r, Q r (mkWatched p (Waited items d (inr r) :: log w))) ->
  wp (call (fun w => wait_many w items d) f) Q R w.
Proof. intros HE HQ. unfold wp, call. cbn. destruct (wait_many (under w) items d) as [p [e|r]]; auto. Qed.

Lemma wp_receive {X} channel (f : E -> X) Q R w :
  (forall p e out, R (f e) (mkWatched p (Received channel (inl e) out :: log w))) ->
  (forall p c out, Q (c, out) (mkWatched p (Received channel (inr c) out :: log w))) ->
  wp (receive channel f) Q R w.
Proof.
  intros HE HQ. unfold wp, receive. cbn.
  destruct (receive_channel (under w) channel _) as [[p [e|c]] out]; auto.
Qed.

Lemma wp_query {X} task (f : E -> X) Q R w :
  (forall p e, R (f e) (mkWatched p (Queried task (inl e) :: log w))) ->
  (forall p i, Q i (mkWatched p (Queried task (inr i) :: log w))) ->
  wp (call (fun w => query_task_termination w task) f) Q R w.
Proof. intros HE HQ. unfold wp, call. cbn. destruct (query_task_termination (under w) task) as [p [e|r]]; auto. Qed.

Lemma wp_lift_sup {X Y A} (c : res X A) (f : X -> Y) (Q : A -> Watched P E -> Prop) R w :
  c <> Panic -> (forall a, c = Ok a -> Q a w) -> (forall e, c = Err e -> R (f e) w) -> wp (lift c f) Q R w.
Proof. unfold wp, lift. destruct c; auto. Qed.

(** ** The record as it grows *)

Lemma watching_wait before ready items r es :
  forallb (fun i => (i_handle i =? process) || (i_handle i =? launch_channel)) items = true ->
  watching before ready es -> watching before ready (Waited items deadline r :: es).
Proof. intros Hi []. split; try done. cbn. by rewrite Z.eqb_refl, Hi. Qed.

Lemma watching_query before ready r es : watching before ready es -> watching before ready (Queried process r :: es).
Proof. intros []. split; try done. cbn. by rewrite Z.eqb_refl. Qed.

Lemma watching_ready before bytes es :
  parse_ready_for_profile profile bytes transaction_id = Ok tt ->
  watching before false es -> watching before true (Received launch_channel (inr expected_counts) bytes :: es).
Proof.
  intros Hp [Hr Hb Ho Hi].
  assert (Hy : is_ready (Received launch_channel (inr expected_counts) bytes) = true)
    by (cbn; by rewrite Z.eqb_refl, bool_decide_true, Hp).
  destruct before; [by specialize (Hb eq_refl)|].
  split; try done; [| | cbn; by rewrite Z.eqb_refl]; unfold readies, receives in *; cbn [List.filter]; rewrite Hy; cbn.
  - by rewrite Hr.
  - by rewrite Ho.
Qed.

Lemma bounds_channel signals : forallb (fun i => (i_handle i =? process) || (i_handle i =? launch_channel)) [mkItem launch_channel signals] = true.
Proof. cbn. by rewrite Z.eqb_refl, orb_true_r. Qed.

Lemma bounds_process signals : forallb (fun i => (i_handle i =? process) || (i_handle i =? launch_channel)) [mkItem process signals] = true.
Proof. cbn. by rewrite Z.eqb_refl. Qed.

Lemma bounds_both s1 s2 :
  forallb (fun i => (i_handle i =? process) || (i_handle i =? launch_channel)) [mkItem launch_channel s1; mkItem process s2] = true.
Proof. cbn. by rewrite !Z.eqb_refl, orb_true_r. Qed.

Lemma exit_seen_cons ev es : exit_seen (ev :: es) = exit_signal ev || exit_seen es.
Proof. done. Qed.

(** ** Draining the channel of a child that has exited *)

Lemma drain_spec before info fuel : forall (n : nat) ready w,
  (S (Nat.b2n (negb ready)) <= fuel)%nat -> (length (log w) <= n)%nat ->
  watching before ready (log w) -> exit_seen (log w) = true -> In (Queried process (inr info)) (log w) ->
  wp (drain_terminal_launch_channel fuel launch_channel profile transaction_id ready deadline)
    (fun ready' w' => watching before ready' (log w') /\ drained (log w') = true /\ exit_seen (log w') = true /\
       In (Queried process (inr info)) (log w') /\ (length (log w') <= n + 2 * Nat.b2n (negb ready) + 1)%nat)
    (fun _ w' => exit_seen (log w') = true /\ forallb in_bounds (log w') = true /\
       (length (log w') <= n + 2 * Nat.b2n (negb ready) + 2)%nat) w.
Proof.
  induction fuel as [|fuel IH]; intros n ready w Hf Hn Hw Hx Hq; [lia|]. cbn [drain_terminal_launch_channel].
  assert (Hw1 : forall r, watching before ready (Waited [mkItem launch_channel CHANNEL_SIGNALS] deadline r :: log w))
    by (intros; apply watching_wait; [apply bounds_channel | done]).
  assert (Hx1 : forall ev, exit_seen (ev :: log w) = true) by (intros; by rewrite exit_seen_cons, Hx, orb_true_r).
  wp_step. apply wp_wait; intros p r; [split_conj; [apply Hx1 | apply (k_bounds _ _ _ (Hw1 (inl r))) | cbn; lia]|].
  destruct (Z.eqb_spec (w_index r) 0) as [H0|]; cbn [negb orb];
    [|apply wp_throw; split_conj; [apply Hx1 | apply (k_bounds _ _ _ (Hw1 (inr r))) | cbn; lia]].
  destruct (has (w_observed r) CHANNEL_SIGNALS) eqn:Hc; cbn [negb];
    [|apply wp_throw; split_conj; [apply Hx1 | apply (k_bounds _ _ _ (Hw1 (inr r))) | cbn; lia]].
  destruct (has (w_observed r) DW_SIGNAL_READABLE) eqn:Hr.
  - assert (Hx2 : forall ev ev', exit_seen (ev :: ev' :: log w) = true) by (intros; by rewrite !exit_seen_cons, Hx, !orb_true_r).
    assert (Hb2 : forall c b, forallb in_bounds (Received launch_channel c b :: Waited [mkItem launch_channel CHANNEL_SIGNALS] deadline (inr r) :: log w) = true)
      by (intros; cbn [forallb in_bounds]; rewrite Z.eqb_refl; apply (k_bounds _ _ _ (Hw1 (inr r)))).
    wp_step. apply wp_receive; intros p2 c out; [split_conj; [apply Hx2 | apply Hb2 | cbn; lia]|].
    destruct (bool_decide_reflect (c = expected_counts)) as [->|]; cbn [negb];
      [|apply wp_throw; split_conj; [apply Hx2 | apply Hb2 | cbn; lia]].
    destruct ready; [apply wp_throw; split_conj; [apply Hx2 | apply Hb2 | cbn; lia]|].
    wp_step. apply wp_lift_sup; [apply parse_ready_np | | intros; split_conj; [apply Hx2 | apply Hb2 | cbn; lia]].
    intros [] Hp. eapply wp_mono; [apply (IH (S (S n)) true) | | ].
    + cbn in *; lia.
    + cbn; lia.
    + apply watching_ready; [done | apply Hw1].
    + apply Hx2.
    + by right; right.
    + cbn. intros ? ? (?&?&?&?&?). split_conj; try done. lia.
    + cbn. intros ? ? (?&?&?). split_conj; try done. lia.
  - apply wp_ret. split_conj; [apply Hw1 | | apply Hx1 | by right | cbn; lia].
    cbn [log drained]. rewrite H0, get_at_first. cbn [i_handle]. by rewrite Z.eqb_refl, Hr, has_channel.
Qed.

(** ** The whole observation *)

Lemma finish_spec before info w :
  validate_terminal_record info = Ok tt -> watching before true (log w) -> drained (log w) = true -> exit_seen (log w) = true ->
  In (Queried process (inr info)) (log w) -> (length (log w) <= 5)%nat ->
  wp (finish info) (fun i w' => completed before i (log w')) (fun e w' => truthful e (log w')) w.
Proof.
  intros Ht [Hr Hb Ho Hi] Hd Hx Hq Hl. unfold finish. wp_step. apply wp_lift_sup.
  - unfold validate_successful_exit. rewrite Ht. cbn. by repeat case_match.
  - intros [] Hv. apply wp_ret. by split.
  - intros e _. split; try done. lia.
Qed.

Lemma observe_exit_spec before ready monitor w :
  watching before ready (log w) -> exit_seen (log w) = true -> (monitor = false -> drained (log w) = true) ->
  (length (log w) <= 2 * (if before then 0 else Nat.b2n ready) + (if monitor then 0 else 1) + 1)%nat ->
  wp (observe_exit process launch_channel profile transaction_id deadline ready monitor)
    (fun info w' => completed before info (log w')) (fun e w' => truthful e (log w')) w.
Proof.
  intros Hw Hx Hd Hl.
  assert (Hw1 : forall r, watching before ready (Queried process r :: log w)) by (intros; by apply watching_query).
  assert (Hx1 : forall r, exit_seen (Queried process r :: log w) = true) by done.
  assert (length (log w) <= 4)%nat by (destruct before, ready, monitor; cbn in Hl; lia).
  unfold observe_exit. wp_step. apply wp_query; intros p r.
  { split; [symmetry; apply Hx1 | symmetry; apply Hx1 | apply (k_bounds _ _ _ (Hw1 (inl r))) | cbn; lia]. }
  assert (Hb := k_bounds _ _ _ (Hw1 (inr r))).
  wp_step. apply wp_lift_sup.
  - unfold validate_terminal_record. by repeat case_match.
  - intros [] Hv. destruct monitor; cbn [negb].
    + pose proof (drain_spec before r DRAIN_ROUNDS (S (length (log w))) ready (mkWatched p (Queried process (inr r) :: log w))) as Hdr.
      unfold wp at 1 in Hdr. unfold wp at 1.
      destruct (drain_terminal_launch_channel _ _ _ _ _ _ _) as [w' [[]|e|]].
      * destruct Hdr as (?&?&?&?&?); [unfold DRAIN_ROUNDS; destruct ready; cbn; lia | cbn; lia | apply Hw1 | apply Hx1 | by left|].
        apply (finish_spec before); try done. destruct before, ready; cbn in *; lia.
      * destruct Hdr as (Hw'&?&Hx'&?&?); [unfold DRAIN_ROUNDS; destruct ready; cbn; lia | cbn; lia | apply Hw1 | apply Hx1 | by left|].
        split; [by rewrite Hx' | rewrite Hx'; unfold into_legacy; by destruct (validate_successful_exit r) | apply Hw' | destruct before, ready; cbn in *; lia].
      * destruct Hdr as (Hx'&?&?); [unfold DRAIN_ROUNDS; destruct ready; cbn; lia | cbn; lia | apply Hw1 | apply Hx1 | by left|].
        split; [by rewrite Hx' | by rewrite Hx' | done | destruct before, ready; cbn in *; lia].
      * destruct Hdr; [unfold DRAIN_ROUNDS; destruct ready; cbn; lia | cbn; lia | apply Hw1 | apply Hx1 | by left].
    + destruct ready; [apply (finish_spec before); [done | apply Hw1 | by apply Hd | apply Hx1 | by left | cbn; lia]|].
      apply wp_throw. split; [symmetry; apply Hx1 | symmetry; apply Hx1 | done | cbn; lia].
  - intros e _. split; [symmetry; apply Hx1 | symmetry; apply Hx1 | done | cbn; lia].
Qed.

Hypothesis distinct : process <> launch_channel.

Lemma no_exit_channel s1 rest r d es :
  w_index r = 0 -> exit_seen (Waited (mkItem launch_channel s1 :: rest) d (inr r) :: es) = exit_seen es.
Proof.
  intros H0. rewrite exit_seen_cons. unfold exit_signal. rewrite H0, get_at_first. cbn [i_handle].
  destruct (Z.eqb_spec launch_channel process); [congruence | done].
Qed.

Lemma failed_truthful (e : SupervisionError E) es :
  exit_observed e = false -> exit_seen es = false -> forallb in_bounds es = true -> (length es <= 6)%nat ->
  truthful (Failed e) es.
Proof. intros He Hx Hb Hl. split; try done; cbn; rewrite Hx, ?He; by destruct e. Qed.

(** An answer that is no valid selection does not show the exit either. *)
Lemma no_exit_none items d r es :
  get_at items (w_index r) = None -> exit_seen (Waited items d (inr r) :: es) = exit_seen es.
Proof. intros Hn. rewrite exit_seen_cons. unfold exit_signal. by rewrite Hn. Qed.
Lemma no_exit_signal items d r item es :
  get_at items (w_index r) = Some item -> has (w_observed r) (i_signals item) = false ->
  (i_handle item = process -> i_signals item = DW_SIGNAL_EXITED) ->
  exit_seen (Waited items d (inr r) :: es) = exit_seen es.
Proof.
  intros Hg Hh Hs. rewrite exit_seen_cons. unfold exit_signal. rewrite Hg.
  destruct (Z.eqb_spec (i_handle item) process) as [Hp|]; [|done]. rewrite (Hs Hp) in Hh. by rewrite Hh.
Qed.

Definition wait_items (monitor : bool) : list WaitItem :=
  if monitor then [mkItem launch_channel CHANNEL_SIGNALS; mkItem process DW_SIGNAL_EXITED] else [mkItem process DW_SIGNAL_EXITED].

Lemma wait_items_bounds monitor :
  forallb (fun i => (i_handle i =? process) || (i_handle i =? launch_channel)) (wait_items monitor) = true.
Proof. destruct monitor; [apply bounds_both | apply bounds_process]. Qed.

Lemma wait_items_get monitor i item :
  get_at (wait_items monitor) i = Some item ->
  (monitor = true /\ i = 0 /\ item = mkItem launch_channel CHANNEL_SIGNALS) \/
  (i = Z.b2z monitor /\ item = mkItem process DW_SIGNAL_EXITED).
Proof.
  destruct monitor; cbn; intros H; [apply get_at_two in H | apply get_at_one in H]; naive_solver.
Qed.

Lemma supervise_spec before fuel : forall ready monitor w,
  (1 + Nat.b2n (negb ready) + Nat.b2n monitor <= fuel)%nat ->
  watching before ready (log w) -> exit_seen (log w) = false -> (monitor = false -> drained (log w) = true) ->
  (length (log w) <= 2 * (if before then 0 else Nat.b2n ready) + (if monitor then 0 else 1))%nat ->
  wp (supervise_loop fuel process launch_channel profile transaction_id deadline ready monitor)
    (fun info w' => completed before info (log w')) (fun e w' => truthful e (log w')) w.
Proof.
  induction fuel as [|fuel IH]; intros ready monitor w Hf Hw Hx Hd Hl; [lia|]. cbn [supervise_loop].
  fold (wait_items monitor).
  assert (length (log w) <= 3)%nat by (destruct before, ready, monitor; cbn in Hl; lia).
  assert (Hw1 : forall r, watching before ready (Waited (wait_items monitor) deadline r :: log w))
    by (intros; apply watching_wait; [apply wait_items_bounds | done]).
  wp_step. apply wp_wait; intros p r; [apply failed_truthful; [done | done | apply (k_bounds _ _ _ (Hw1 (inl r))) | cbn; lia]|].
  assert (Hb := k_bounds _ _ _ (Hw1 (inr r))).
  destruct (get_at (wait_items monitor) (w_index r)) as [item|] eqn:Hg;
    [|apply wp_throw, failed_truthful; [done | cbn [log]; by rewrite no_exit_none | done | cbn; lia]].
  destruct (has (w_observed r) (i_signals item)) eqn:Hh; cbn [negb].
  2: { apply wp_throw, failed_truthful; [done | | done | cbn; lia]. cbn [log]. rewrite (no_exit_signal _ _ _ item); try done.
       destruct (wait_items_get _ _ _ Hg) as [(_&_&->)|(_&->)]; cbn; congruence. }
  destruct (wait_items_get _ _ _ Hg) as [(->&H0&->)|(Hi&->)]; cbn [i_signals] in Hh.
  - rewrite H0, Z.eqb_refl. cbn [andb].
    assert (Hx1 : exit_seen (Waited (wait_items true) deadline (inr r) :: log w) = false) by (unfold wait_items; by rewrite no_exit_channel).
    destruct (has (w_observed r) DW_SIGNAL_READABLE) eqn:Hr.
    + assert (Hx2 : forall c b, exit_seen (Received launch_channel c b :: Waited (wait_items true) deadline (inr r) :: log w) = false)
        by (intros; by rewrite exit_seen_cons, Hx1).
      assert (Hb2 : forall c b, forallb in_bounds (Received launch_channel c b :: Waited (wait_items true) deadline (inr r) :: log w) = true)
        by (intros; cbn [forallb in_bounds]; rewrite Z.eqb_refl; apply Hb).
      wp_step. apply wp_receive; intros p2 c out; [apply failed_truthful; [done | apply Hx2 | apply Hb2 | cbn; lia]|].
      destruct (bool_decide_reflect (c = expected_counts)) as [->|]; cbn [negb];
        [|apply wp_throw, failed_truthful; [done | apply Hx2 | apply Hb2 | cbn; lia]].
      destruct ready; [apply wp_throw, failed_truthful; [done | apply Hx2 | apply Hb2 | cbn; lia]|].
      wp_step. apply wp_lift_sup; [apply parse_ready_np | | intros; apply failed_truthful; [done | apply Hx2 | apply Hb2 | cbn; lia]].
      intros [] Hp. apply (IH true true); [cbn in *; lia | by apply watching_ready, Hw1 | apply Hx2 | done | ].
      destruct before; [by specialize (k_before _ _ _ Hw eq_refl) | cbn in *; lia].
    + apply (IH ready false); [cbn in *; lia | apply Hw1 | done | | cbn in *; lia].
      intros _. cbn [log drained]. rewrite Hg. cbn [i_handle]. by rewrite Z.eqb_refl, Hr, has_channel.
  - replace (monitor && (w_index r =? 0)) with false by (destruct monitor; by rewrite Hi).
    replace (negb (w_index r =? 0) && negb (monitor && (w_index r =? 1))) with false by (destruct monitor; by rewrite Hi).
    apply observe_exit_spec; [apply Hw1 | | | cbn [log length]; lia].
    + cbn [log]. rewrite exit_seen_cons. unfold exit_signal. rewrite Hg. cbn [i_handle]. by rewrite Z.eqb_refl, Hh.
    + intros ->. cbn [log drained]. rewrite Hg. cbn [i_handle].
      destruct (Z.eqb_spec process launch_channel); [done|]. by apply Hd.
Qed.

(** ** Waiting for READY only *)

Lemma query_truthful (f : TerminationInfo -> ObservedSupervisionError E) w :
  (forall info, process_exit_observed (f info) = true /\ exit_observed (into_legacy (f info)) = true) ->
  exit_seen (log w) = true -> forallb in_bounds (log w) = true -> (length (log w) <= 3)%nat ->
  wp (info ← call (fun w => query_task_termination w process) (fun e => Failed (ExitQuery e));
      _ ← lift (validate_terminal_record info) (fun error => ObservedExit error info);
      throw (f info)) (fun (_ : unit) _ => False) (fun e w' => truthful e (log w')) w.
Proof.
  intros Hf Hx Hb Hl.
  assert (Hb1 : forall r, forallb in_bounds (Queried process r :: log w) = true) by (intros; cbn; by rewrite Z.eqb_refl).
  assert (Hx1 : forall r, exit_seen (Queried process r :: log w) = true) by done.
  wp_step. apply wp_query; intros p r; [split; [symmetry; apply Hx1 | symmetry; apply Hx1 | apply Hb1 | cbn; lia]|].
  wp_step. apply wp_lift_sup; [unfold validate_terminal_record; by repeat case_match | | ].
  - intros _ _. apply wp_throw. destruct (Hf r) as [H1 H2].
    split; [rewrite H1; symmetry; apply Hx1 | rewrite H2; symmetry; apply Hx1 | apply Hb1 | cbn; lia].
  - intros e _. split; [symmetry; apply Hx1 | symmetry; apply Hx1 | apply Hb1 | cbn; lia].
Qed.

(** READY was accepted: one receive, which is the child's READY, before any exit. *)
Record now_ready (es : list (Event E)) : Prop := mkNowReady {
  n_ready : length (readies es) = 1%nat;
  n_only : readies es = receives es;
  n_alive : exit_seen es = false;
  n_bounds : forallb in_bounds es = true }.

Lemma await_receive w :
  deadline <> DW_DEADLINE_INFINITE -> watching false false (log w) -> exit_seen (log w) = false -> (length (log w) <= 1)%nat ->
  wp (received ← receive launch_channel (fun e => Failed (Platform e));
      let '(counts, bytes) := received in
      if negb (bool_decide (counts = expected_counts)) then throw (Failed (InvalidReadyReceive counts))
      else
      _ ← lift (parse_ready_for_profile profile bytes transaction_id) (fun e => Failed (Ready e));
      mret tt)
    (fun _ w' => now_ready (log w') /\ deadline <> DW_DEADLINE_INFINITE) (fun e w' => truthful e (log w')) w.
Proof.
  intros Hd Hw Hx Hl.
  assert (Hx1 : forall c b, exit_seen (Received launch_channel c b :: log w) = false) by done.
  assert (Hb1 : forall c b, forallb in_bounds (Received launch_channel c b :: log w) = true)
    by (intros; cbn [forallb in_bounds]; rewrite Z.eqb_refl; apply (k_bounds _ _ _ Hw)).
  wp_step. apply wp_receive; intros p c out; [apply failed_truthful; [done | apply Hx1 | apply Hb1 | cbn; lia]|].
  destruct (bool_decide_reflect (c = expected_counts)) as [->|]; cbn [negb];
    [|apply wp_throw, failed_truthful; [done | apply Hx1 | apply Hb1 | cbn; lia]].
  wp_step. apply wp_lift_sup; [apply parse_ready_np | | intros; apply failed_truthful; [done | apply Hx1 | apply Hb1 | cbn; lia]].
  intros [] Hp. apply wp_ret. destruct (watching_ready _ _ _ Hp Hw) as [Hr _ Ho _].
  split; [split; [apply Hr | apply Ho | apply Hx1 | apply Hb1] | done].
Qed.

Lemma await_exit w :
  exit_seen (log w) = false -> forallb in_bounds (log w) = true -> (length (log w) <= 1)%nat ->
  wp (terminal ← call (fun w => wait_many w [mkItem process DW_SIGNAL_EXITED] deadline) (fun e => Failed (Platform e));
      if negb (w_index terminal =? 0) || negb (has (w_observed terminal) DW_SIGNAL_EXITED) then throw (Failed InvalidWaitResult)
      else
      info ← call (fun w => query_task_termination w process) (fun e => Failed (ExitQuery e));
      _ ← lift (validate_terminal_record info) (fun error => ObservedExit error info);
      throw (ObservedPeerClosedBeforeReady info))
    (fun (_ : unit) w' => now_ready (log w') /\ deadline <> DW_DEADLINE_INFINITE) (fun e w' => truthful e (log w')) w.
Proof.
  intros Hx Hb Hl.
  assert (Hb1 : forall r, forallb in_bounds (Waited [mkItem process DW_SIGNAL_EXITED] deadline r :: log w) = true)
    by (intros; cbn; by rewrite !Z.eqb_refl).
  wp_step. apply wp_wait; intros p r; [apply failed_truthful; [done | done | apply Hb1 | cbn; lia]|].
  destruct (Z.eqb_spec (w_index r) 0) as [H0|Hn]; cbn [negb orb].
  2: { apply wp_throw, failed_truthful; [done | | apply Hb1 | cbn; lia]. cbn [log]. rewrite no_exit_none; [done|].
       destruct (get_at _ (w_index r)) eqn:Hg; [|done]. by apply get_at_one in Hg as [? _]. }
  assert (Hg : get_at [mkItem process DW_SIGNAL_EXITED] (w_index r) = Some (mkItem process DW_SIGNAL_EXITED)) by (by rewrite H0).
  destruct (has (w_observed r) DW_SIGNAL_EXITED) eqn:Hh; cbn [negb];
    [|apply wp_throw, failed_truthful; [done | cbn [log]; by erewrite no_exit_signal | apply Hb1 | cbn; lia]].
  eapply wp_mono; [apply query_truthful | done | done]; [done | | apply Hb1 | cbn; lia].
  cbn [log]. rewrite exit_seen_cons. unfold exit_signal. rewrite Hg. cbn [i_handle]. by rewrite Z.eqb_refl, Hh.
Qed.

Lemma await_spec w : log w = [] ->
  wp (await_child_ready_profile_observed process launch_channel profile transaction_id deadline)
    (fun _ w' => now_ready (log w') /\ deadline <> DW_DEADLINE_INFINITE) (fun e w' => truthful e (log w')) w.
Proof.
  intros Hlog. unfold await_child_ready_profile_observed.
  destruct (Z.eqb_spec deadline DW_DEADLINE_INFINITE); [apply wp_throw, failed_truthful; by rewrite ?Hlog; cbn; try lia|].
  fold (wait_items true). cbv zeta.
  assert (Hw0 : watching false false (log w)) by (by rewrite Hlog).
  assert (Hw1 : forall r, watching false false (Waited (wait_items true) deadline r :: log w))
    by (intros; by apply watching_wait; [apply wait_items_bounds|]).
  wp_step. apply wp_wait; intros p r;
    [apply failed_truthful; [done | by rewrite Hlog | apply (k_bounds _ _ _ (Hw1 (inl r))) | rewrite Hlog; cbn; lia]|].
  assert (Hb := k_bounds _ _ _ (Hw1 (inr r))). rewrite Hlog in *.
  destruct (get_at (wait_items true) (w_index r)) as [item|] eqn:Hg;
    [|apply wp_throw, failed_truthful; [done | cbn [log]; by rewrite no_exit_none | done | cbn; lia]].
  destruct (has (w_observed r) (i_signals item)) eqn:Hh; cbn [negb].
  2: { apply wp_throw, failed_truthful; [done | | done | cbn; lia]. cbn [log]. rewrite (no_exit_signal _ _ _ item); try done.
       destruct (wait_items_get _ _ _ Hg) as [(_&_&->)|(_&->)]; cbn; congruence. }
  destruct (wait_items_get _ _ _ Hg) as [(_&Hi&->)|(Hi&->)]; cbn [i_signals Z.b2z] in Hh, Hi; rewrite Hi; cbn [Z.eqb].
  - assert (Hx1 : exit_seen [Waited (wait_items true) deadline (inr r)] = false) by (unfold wait_items; by rewrite no_exit_channel).
    destruct (has (w_observed r) DW_SIGNAL_READABLE) eqn:Hr; cbn [negb].
    + apply await_receive; [done | apply Hw1 | done | cbn; lia].
    + apply await_exit; [done | done | cbn; lia].
  - eapply wp_mono; [apply query_truthful | done | done].
    + intros info. split; [done|]. unfold into_legacy. by destruct (validate_successful_exit info).
    + cbn [log]. rewrite exit_seen_cons. unfold exit_signal. rewrite Hg. cbn [i_handle]. by rewrite Z.eqb_refl, Hh.
    + done.
    + cbn; lia.
Qed.

(** C22: a supervisor of a child whose process and channel are two handles
    makes at most six platform calls and returns.  It succeeds only when the one
    datagram received was the child's READY (none at all, if READY was accepted
    before), the channel was then seen closed and empty, the process was seen
    exited and its record is a normal exit with code zero; its error says that
    the exit was observed exactly when a wait showed it, and the legacy error
    made of it says the same.  No wait has another deadline, no call another
    handle. *)
Theorem supervision_outcome (p : P) (ready : bool) :
  match supervise_profile_state process launch_channel profile transaction_id deadline ready (mkWatched p []) with
  | (w, Ok info) => completed ready info (log w)
  | (w, Err e) => truthful e (log w)
  | (_, Panic) => False
  end.
Proof.
  apply (supervise_spec ready SUPERVISE_ROUNDS ready true (mkWatched p [])); try done.
  - unfold SUPERVISE_ROUNDS. destruct ready; cbn; lia.
  - by destruct ready.
  - cbn; lia.
Qed.

(** waiting for READY returns, never waits without a deadline, and succeeds
    only when exactly one datagram was received, it is the child's READY, and no
    wait had shown the process exited; an error, also the legacy one, says that
    the exit was observed exactly when a wait showed it. *)
Theorem await_outcome (p : P) :
  match await_child_ready_profile process launch_channel profile transaction_id deadline (mkWatched p []) with
  | (w, Ok _) => now_ready (log w) /\ deadline <> DW_DEADLINE_INFINITE
  | (w, Err e) => exit_observed e = exit_seen (log w) /\ forallb in_bounds (log w) = true /\ (length (log w) <= 6)%nat
  | (_, Panic) => False
  end.
Proof.
  pose proof (await_spec (mkWatched p []) eq_refl) as H. unfold wp in H. unfold await_child_ready_profile, legacy.
  destruct (await_child_ready_profile_observed _ _ _ _ _ _) as [w [[]|e|]]; [done | | done].
  by destruct H as [_ H1 H2 H3].
Qed.
End outcome.

(** ** A scripted child *)

Definition sample_supervision_abi : SupervisionAbi := {|
  DW_DEADLINE_INFINITE := 2 ^ 64 - 1; DW_SIGNAL_EXITED := 4; DW_SIGNAL_PEER_CLOSED := 2; DW_SIGNAL_READABLE := 1;
  DW_TASK_STATE_EXITED := 3; DW_TASK_TERMINATION_INFO_V1_SIZE := 80; DW_TERMINATION_NORMAL_EXIT := 1 |}.

(** A platform that answers from a script: the answers of the waits, the
    datagrams and the termination record. *)
Record Script := mkScript { waits : list WaitResult; datagrams : list (list Z); record_of : TerminationInfo }.

#[local] Program Instance script_platform : SupervisionPlatform Script unit := {
  wait_many s _ _ :=
    match waits s with
    | r :: rest => (mkScript rest (datagrams s) (record_of s), inr r)
    | [] => (s, inl tt)
    end;
  receive_channel s _ bytes :=
    match datagrams s with
    | d :: rest => (mkScript (waits s) rest (record_of s), inr (mkCounts (len d) 0), take (length bytes) (d ++ bytes))
    | [] => (s, inl tt, bytes)
    end;
  query_task_termination s _ := (s, inr (record_of s)) }.
Next Obligation.
  intros [ws [|d ds] i] channel bytes; [done|]. cbn. rewrite length_take, length_app. lia.
Qed.

(** The READY of transaction 7 of a Hello child. *)
Definition sample_ready : list Z :=
  match encode_ready_for_profile Hello 7 (replicate 40 0) with Ok out => out.2 | _ => [] end.

Definition clean_exit : TerminationInfo := mkInfo 80 1 3 1 0 0 0 0 0 [0; 0; 0].

(** READY with the peer already closed, then the close alone, then the exit. *)
Definition sample_run : Script :=
  mkScript [mkWait 0 3; mkWait 0 2; mkWait 0 4] [sample_ready] clean_exit.

Lemma supervision_outcome_witness :
  (5 <> 6) /\
  exists w, supervise_profile_state (sabi := sample_supervision_abi) 5 6 Hello 7 1000 false (mkWatched sample_run []) = (w, Ok clean_exit) /\
    completed (sabi := sample_supervision_abi) 5 6 Hello 7 1000 false clean_exit (log w).
Proof.
  split; [lia|]. assert (5 <> 6) as Hd by lia.
  pose proof (supervision_outcome (sabi := sample_supervision_abi) (platform := script_platform) 5 6 Hello 7 1000 Hd sample_run false) as H.
  eexists. split; [vm_compute; reflexivity | exact H].
Defined.

(** The same child, but the process is seen exited while it waits for READY. *)
Lemma await_outcome_witness :
  (5 <> 6) /\
  exists w, await_child_ready_profile (sabi := sample_supervision_abi) 5 6 Hello 7 1000
      (mkWatched (mkScript [mkWait 1 4] [] clean_exit) []) = (w, Err ExitedBeforeReady) /\
    exit_seen (sabi := sample_supervision_abi) (E := unit) 5 (log w) = true.
Proof.
  split; [lia|]. assert (5 <> 6) as Hd by lia.
  pose proof (await_outcome (sabi := sample_supervision_abi) (platform := script_platform) 5 6 Hello 7 1000 Hd
    (mkScript [mkWait 1 4] [] clean_exit)) as H.
  eexists. split; [vm_compute; reflexivity|]. symmetry. exact (proj1 H).
Defined.
