(* ===== verification/Process.v ===== *)
(** * Construction of a process (crates/wyrmroot-loader/src/process.rs)

    The loader builds a child by a sequence of kernel calls and undoes them when
    one fails.  The kernel is a [LoaderPlatform]; what the transaction holds is
    the [Transaction] of the source, and with the platform and the caller's
    [delegated_channels_consumed] flag it is the state of the code.  A [&str] is
    the list of its bytes; the right and protection numbers of the kernel are
    the fields of [Abi] and [ProcessAbi]. *)

From stdpp Require Import base tactics option list list_numbers.
From Stdlib Require Import ZArith Lia.
From S2P Require Import Prelude Bytes Elf Image Launch Correlation StateM.

Class ProcessAbi := {
  DW_RIGHT_EXECUTE : Z; DW_HANDLE_TRANSFER_MOVE : Z;
  DW_MEMORY_PROTECTION_READ : Z; DW_MEMORY_PROTECTION_WRITE : Z; DW_MEMORY_PROTECTION_EXECUTE : Z }.

Module Process.

(** ** Requests *)

Record LoadAuthority := mkAuthority { a_parent_root : Z; a_task_group : Z; a_bootfs : Z }.
Record LoadRequest := mkLoad {
  l_image : list Z; l_display_path : list Z; l_profile : Launch.LaunchProfile; l_transaction_id : Z }.
Record ResourceDomainLoadRequest := mkDomainLoad {
  rd_image : list Z; rd_display_path : list Z; rd_resource_domain : Z; rd_transaction_id : Z }.
Record D6ResourceOwnerLoadRequest := mkOwnerLoad {
  d6_image : list Z; d6_display_path : list Z; d6_resource_domain : Z; d6_transaction_id : Z }.
Record JobLoadRequest := mkJobLoad {
  j_image : list Z; policy_path : list Z; j_argv : list (list Z); j_environment : list (list Z);
  j_streams : list Z; j_transaction_id : Z }.
Record ServiceLoadRequest := mkServiceLoad {
  sv_image : list Z; sv_display_path : list Z; sv_profile : Launch.LaunchProfile; service_channel : Z;
  sv_correlation : option Correlation.CorrelationEnvironment; sv_transaction_id : Z }.
Record LaunchClientLoadRequest := mkClientLoad {
  lc_image : list Z; lc_display_path : list Z; lc_launch_session : Z; lc_arguments : list (list Z);
  lc_correlation : Correlation.CorrelationEnvironment; lc_transaction_id : Z }.
Record ConsoledLoadRequest := mkConsoledLoad {
  cl_image : list Z; cl_display_path : list Z; registry_endpoint : Z; cl_registry_generation : Z;
  cl_registry_endpoint_id : Z; cl_registry_endpoint_generation : Z; launch_endpoint : Z;
  cl_launch_connection_id : Z; cl_launch_connection_generation : Z; cl_transaction_id : Z }.
Record WyrmshCorrelation := mkWyrmshCorrelation {
  wc_registry_generation : Z; wc_registry_endpoint_id : Z; wc_registry_endpoint_generation : Z;
  wc_launch_connection_id : Z; wc_launch_connection_generation : Z; wc_console_generation : Z;
  wc_status_generation : Z; wc_child_generation : Z; wc_outer_launch_transaction : Z }.
Record WyrmshLoadRequest := mkWyrmshLoad {
  ws_image : list Z; ws_stdin : Z; ws_stdout : Z; ws_stderr : Z; ws_console_status : Z; ws_registry_client : Z;
  ws_launch_session : Z; ws_registry_generation : Z; ws_registry_endpoint_id : Z; ws_registry_endpoint_generation : Z;
  ws_launch_connection_id : Z; ws_launch_connection_generation : Z; ws_console_generation : Z; ws_status_generation : Z;
  ws_child_generation : Z; ws_outer_launch_transaction : Z; ws_transaction_id : Z }.
Record DeviceCoordinatorLoadRequest := mkCoordinatorLoad {
  co_image : list Z; co_display_path : list Z; co_publication_endpoint : Z; co_manifest : Z;
  co_supervisor_generation : Z; co_transaction_id : Z }.
Record DeviceCoordinatorResourceLoadRequest := mkCoordinatorResourceLoad {
  cr_image : list Z; cr_display_path : list Z; cr_publication_endpoint : Z; cr_manifest : Z; cr_resource_domain : Z;
  cr_supervisor_generation : Z; cr_transaction_id : Z }.
Record DeviceDriverLoadRequest := mkDriverLoad {
  dr_image : list Z; dr_display_path : list Z; control_endpoint : Z; dr_supervisor_generation : Z; dr_role_id : Z;
  dr_attempt_generation : Z; dr_launch_session : Z; dr_endpoint_id : Z; dr_endpoint_generation : Z;
  dr_transaction_id : Z }.

Inductive StartupSpec := Legacy (path : list Z) | JobV2Spec (path : list Z) (argv environment : list (list Z)).
Inductive StartupMaterialization := LegacyBlock (block : list Z) | JobV2Block (plan : Image.StartupBlockV2Plan).

Record InternalLoadRequest := mkInternal {
  image : list Z; profile : Launch.LaunchProfile; transaction_id : Z; startup : StartupSpec; channels : list Z;
  device_manifest : option Z; supervisor_generation : option Z;
  driver_correlation : option (Z * Z * Z * Z * Z * Z); consoled_correlation : option (Z * Z * Z * Z * Z);
  wyrmsh_correlation : option WyrmshCorrelation; resource_domain : option Z }.

Inductive LoadFault :=
| NoFault | MalformedElf | MalformedStartup | InitCapabilityCount | InitCapabilityType | InitCapabilityRights.
#[global] Instance LoadFault_eq_dec : EqDecision LoadFault.
Proof. solve_decision. Defined.

Record LoadedProcess := mkLoaded { lp_process : Z; lp_launch_channel : Z }.

Inductive LoadStage :=
| ChannelCreate | ChannelReduce | ProcessCreate | MemoryCreate | ParentMaterialize | ParentUnmap | ChildMap
| ThreadCreate | CapabilityDuplicate | InitSend | ThreadStart | SuccessCleanup.

Inductive LoadError (E : Type) :=
| ElfFailed (e : Elf.ElfError) | StartupFailed (e : Image.StartupBlockError) | LaunchFailed (e : Launch.LaunchError)
| PlatformFailed (stage : LoadStage) (cause : E) (rollback_failed : bool).
Arguments ElfFailed {_}. Arguments StartupFailed {_}. Arguments LaunchFailed {_}. Arguments PlatformFailed {_}.

(** The failures of the entry points: the error with one flag per endpoint the
    caller lent. *)
Record ServiceLoadError E := mkServiceError { sv_error : LoadError E; service_channel_consumed : bool }.
Record JobLoadError E := mkJobError { j_error : LoadError E; streams_consumed : bool }.
Record LaunchClientLoadError E := mkClientError { lc_error : LoadError E; launch_session_consumed : bool }.
Record DeviceCoordinatorLoadError E := mkCoordinatorError {
  co_error : LoadError E; publication_endpoint_consumed : bool; manifest_consumed : bool }.
Record DeviceDriverLoadError E := mkDriverError { dr_error : LoadError E; control_endpoint_consumed : bool }.
Record ConsoledLoadError E := mkConsoledError {
  cl_error : LoadError E; registry_endpoint_consumed : bool; launch_endpoint_consumed : bool }.
Record WyrmshLoadError E := mkWyrmshError {
  ws_error : LoadError E; stdin_consumed : bool; stdout_consumed : bool; stderr_consumed : bool;
  console_status_consumed : bool; registry_client_consumed : bool; ws_launch_session_consumed : bool }.
Arguments mkServiceError {_}. Arguments mkJobError {_}. Arguments mkClientError {_}. Arguments mkCoordinatorError {_}.
Arguments mkDriverError {_}. Arguments mkConsoledError {_}. Arguments mkWyrmshError {_}.

(** ** The platform *)

Record ProcessCreateRequest := mkCreate {
  pc_task_group : Z; bootstrap_channel : Z; process_rights : Z; root_rights : Z; child_bootstrap_rights : Z }.
Record ProcessCreateResult := mkCreated { process : Z; root : Z; child_bootstrap : Z }.
Record ParentMapping := mkMapping { pm_address : Z; pm_bytes : Z }.
(** The fields of [DwHandleTransferV1]. *)
Record HandleTransfer := mkTransfer { x_handle : Z; requested_rights : Z; x_operation : Z; x_reserved0 : Z; x_reserved : list Z }.
#[global] Instance ParentMapping_eq_dec : EqDecision ParentMapping.
Proof. solve_decision. Defined.

(** [materialize_parent_with] lends the closure a slice of the destination size;
    a closure that answers [None] panics, and nothing else makes the call do. *)
Class LoaderPlatform (P E : Type) := {
  channel_create : P -> Z -> P * (E + Z * Z);
  duplicate : P -> Z -> Z -> P * (E + Z);
  close : P -> Z -> P * (E + unit);
  process_create : P -> ProcessCreateRequest -> P * (E + ProcessCreateResult);
  memory_create : P -> Z -> Z -> P * (E + Z);
  materialize_parent_with : P -> Z -> Z -> Z -> Z -> Z -> (list Z -> option (list Z)) -> P * res E ParentMapping;
  unmap_parent : P -> Z -> ParentMapping -> P * (E + unit);
  map_child : P -> Z -> Z -> Z -> Z -> Z -> P * (E + unit);
  unmap_child : P -> Z -> Z -> Z -> P * (E + unit);
  thread_create : P -> Z -> Z -> P * (E + Z);
  send_init : P -> Z -> list Z -> list HandleTransfer -> P * (E + unit);
  thread_start : P -> Z -> Z -> Z -> Z -> Z -> P * (E + unit);
  thread_terminate : P -> Z -> P * (E + unit);
  process_terminate : P -> Z -> P * (E + unit);
  materialize_returns p parent_root memory object_size offset size f :
    (forall block : list Z, len block = size -> f block <> None) ->
    (materialize_parent_with p parent_root memory object_size offset size f).2 <> Panic }.

(** ** The transaction *)

(** The ABI versions of image.rs. *)
Definition STARTUP_ABI_VERSION : Z := 1.
Definition STARTUP_ABI_V2 : Z := 2.

Definition MAX_CHILD_RANGES : Z := Elf.MAX_LOAD_SEGMENTS + 1.
Record Range := mkRange { r_address : Z; r_bytes : Z }.

Record Transaction := mkTransaction {
  t_parent_root : Z;
  broad_parent : option Z;
  child_endpoint : option Z;
  parent_channel : option Z;
  t_process : option Z;
  t_root : option Z;
  t_thread : option Z;
  scratch_memory : option Z;
  parent_mapping : option ParentMapping;
  delegated_bootfs : option Z;
  delegated_task_group : option Z;
  delegated_resource_domain : option Z;
  delegated_channels : list (option Z);
  delegated_manifest : option Z;
  ranges : list Range;
  range_count : nat }.

Definition transaction_new (parent_root : Z) : Transaction :=
  mkTransaction parent_root None None None None None None None None None None None
    (replicate (Z.to_nat Launch.MAX_CAPABILITIES) None) None (replicate (Z.to_nat MAX_CHILD_RANGES) (mkRange 0 0)) 0.

(** Assignments to the fields. *)
Definition set_broad_parent (v : option Z) (t : Transaction) : Transaction :=
  mkTransaction (t_parent_root t) v (child_endpoint t) (parent_channel t) (t_process t) (t_root t)
    (t_thread t) (scratch_memory t) (parent_mapping t) (delegated_bootfs t) (delegated_task_group t)
    (delegated_resource_domain t) (delegated_channels t) (delegated_manifest t) (ranges t) (range_count t).
Definition set_child_endpoint (v : option Z) (t : Transaction) : Transaction :=
  mkTransaction (t_parent_root t) (broad_parent t) v (parent_channel t) (t_process t) (t_root t)
    (t_thread t) (scratch_memory t) (parent_mapping t) (delegated_bootfs t) (delegated_task_group t)
    (delegated_resource_domain t) (delegated_channels t) (delegated_manifest t) (ranges t) (range_count t).
Definition set_parent_channel (v : option Z) (t : Transaction) : Transaction :=
  mkTransaction (t_parent_root t) (broad_parent t) (child_endpoint t) v (t_process t) (t_root t)
    (t_thread t) (scratch_memory t) (parent_mapping t) (delegated_bootfs t) (delegated_task_group t)
    (delegated_resource_domain t) (delegated_channels t) (delegated_manifest t) (ranges t) (range_count t).
Definition set_process (v : option Z) (t : Transaction) : Transaction :=
  mkTransaction (t_parent_root t) (broad_parent t) (child_endpoint t) (parent_channel t) v (t_root t)
    (t_thread t) (scratch_memory t) (parent_mapping t) (delegated_bootfs t) (delegated_task_group t)
    (delegated_resource_domain t) (delegated_channels t) (delegated_manifest t) (ranges t) (range_count t).
Definition set_root (v : option Z) (t : Transaction) : Transaction :=
  mkTransaction (t_parent_root t) (broad_parent t) (child_endpoint t) (parent_channel t) (t_process t) v
    (t_thread t) (scratch_memory t) (parent_mapping t) (delegated_bootfs t) (delegated_task_group t)
    (delegated_resource_domain t) (delegated_channels t) (delegated_manifest t) (ranges t) (range_count t).
Definition set_thread (v : option Z) (t : Transaction) : Transaction :=
  mkTransaction (t_parent_root t) (broad_parent t) (child_endpoint t) (parent_channel t) (t_process t)
    (t_root t) v (scratch_memory t) (parent_mapping t) (delegated_bootfs t) (delegated_task_group t)
    (delegated_resource_domain t) (delegated_channels t) (delegated_manifest t) (ranges t) (range_count t).
Definition set_scratch_memory (v : option Z) (t : Transaction) : Transaction :=
  mkTransaction (t_parent_root t) (broad_parent t) (child_endpoint t) (parent_channel t) (t_process t)
    (t_root t) (t_thread t) v (parent_mapping t) (delegated_bootfs t) (delegated_task_group t)
    (delegated_resource_domain t) (delegated_channels t) (delegated_manifest t) (ranges t) (range_count t).
Definition set_parent_mapping (v : option ParentMapping) (t : Transaction) : Transaction :=
  mkTransaction (t_parent_root t) (broad_parent t) (child_endpoint t) (parent_channel t) (t_process t)
    (t_root t) (t_thread t) (scratch_memory t) v (delegated_bootfs t) (delegated_task_group t)
    (delegated_resource_domain t) (delegated_channels t) (delegated_manifest t) (ranges t) (range_count t).
Definition set_delegated_bootfs (v : option Z) (t : Transaction) : Transaction :=
  mkTransaction (t_parent_root t) (broad_parent t) (child_endpoint t) (parent_channel t) (t_process t)
    (t_root t) (t_thread t) (scratch_memory t) (parent_mapping t) v (delegated_task_group t)
    (delegated_resource_domain t) (delegated_channels t) (delegated_manifest t) (ranges t) (range_count t).
Definition set_delegated_task_group (v : option Z) (t : Transaction) : Transaction :=
  mkTransaction (t_parent_root t) (broad_parent t) (child_endpoint t) (parent_channel t) (t_process t)
    (t_root t) (t_thread t) (scratch_memory t) (parent_mapping t) (delegated_bootfs t) v
    (delegated_resource_domain t) (delegated_channels t) (delegated_manifest t) (ranges t) (range_count t).
Definition set_delegated_resource_domain (v : option Z) (t : Transaction) : Transaction :=
  mkTransaction (t_parent_root t) (broad_parent t) (child_endpoint t) (parent_channel t) (t_process t)
    (t_root t) (t_thread t) (scratch_memory t) (parent_mapping t) (delegated_bootfs t)
    (delegated_task_group t) v (delegated_channels t) (delegated_manifest t) (ranges t) (range_count t).
Definition set_delegated_channels (v : list (option Z)) (t : Transaction) : Transaction :=
  mkTransaction (t_parent_root t) (broad_parent t) (child_endpoint t) (parent_channel t) (t_process t)
    (t_root t) (t_thread t) (scratch_memory t) (parent_mapping t) (delegated_bootfs t)
    (delegated_task_group t) (delegated_resource_domain t) v (delegated_manifest t) (ranges t)
    (range_count t).
Definition set_delegated_manifest (v : option Z) (t : Transaction) : Transaction :=
  mkTransaction (t_parent_root t) (broad_parent t) (child_endpoint t) (parent_channel t) (t_process t)
    (t_root t) (t_thread t) (scratch_memory t) (parent_mapping t) (delegated_bootfs t)
    (delegated_task_group t) (delegated_resource_domain t) (delegated_channels t) v (ranges t)
    (range_count t).
Definition set_ranges (v : list Range) (t : Transaction) : Transaction :=
  mkTransaction (t_parent_root t) (broad_parent t) (child_endpoint t) (parent_channel t) (t_process t)
    (t_root t) (t_thread t) (scratch_memory t) (parent_mapping t) (delegated_bootfs t)
    (delegated_task_group t) (delegated_resource_domain t) (delegated_channels t) (delegated_manifest t) v
    (range_count t).
Definition set_range_count (v : nat) (t : Transaction) : Transaction :=
  mkTransaction (t_parent_root t) (broad_parent t) (child_endpoint t) (parent_channel t) (t_process t)
    (t_root t) (t_thread t) (scratch_memory t) (parent_mapping t) (delegated_bootfs t)
    (delegated_task_group t) (delegated_resource_domain t) (delegated_channels t) (delegated_manifest t)
    (ranges t) v.

Section process.
Context {abi : Abi} {pabi : ProcessAbi} {P E : Type} {platform : LoaderPlatform P E}.

Definition CHANNEL_BROAD_RIGHTS : Z :=
  Z.lor (Z.lor (Z.lor (Z.lor (Z.lor DW_RIGHT_READ DW_RIGHT_WRITE) DW_RIGHT_WAIT) DW_RIGHT_DUPLICATE) DW_RIGHT_TRANSFER)
    DW_RIGHT_INSPECT.
Definition CHANNEL_RETAINED_RIGHTS : Z :=
  Z.lor (Z.lor (Z.lor DW_RIGHT_READ DW_RIGHT_WRITE) DW_RIGHT_WAIT) DW_RIGHT_INSPECT.
Definition PROCESS_RIGHTS : Z := Z.lor (Z.lor DW_RIGHT_WAIT DW_RIGHT_MODIFY) DW_RIGHT_INSPECT.
Definition ROOT_RIGHTS : Z := Z.lor (Z.lor (Z.lor DW_RIGHT_MAP DW_RIGHT_MODIFY) DW_RIGHT_INSPECT) DW_RIGHT_TRANSFER.
Definition THREAD_RIGHTS : Z := Z.lor (Z.lor DW_RIGHT_EXECUTE DW_RIGHT_MODIFY) DW_RIGHT_INSPECT.
Definition MEMORY_RIGHTS : Z :=
  Z.lor (Z.lor (Z.lor (Z.lor DW_RIGHT_READ DW_RIGHT_WRITE) DW_RIGHT_EXECUTE) DW_RIGHT_MAP) DW_RIGHT_INSPECT.

(** What the code changes: the platform, the transaction and the caller's flag. *)
Record Loader := mkLoader { plat : P; tx : Transaction; consumed : bool }.
Abbreviation LM X A := (SM Loader X A).

Definition set_tx {X} (f : Transaction -> Transaction) : LM X unit :=
  modify (fun s => mkLoader (plat s) (f (tx s)) (consumed s)).
Definition set_consumed {X} (v : bool) : LM X unit := modify (fun s => mkLoader (plat s) (tx s) v).

(** [platform.op().is_err()] *)
Definition is_err {X A} (op : P -> P * (E + A)) : LM X bool := fun s =>
  let '(p, r) := op (plat s) in (mkLoader p (tx s) (consumed s), Ok match r with inl _ => true | inr _ => false end).

(** ** Rollback *)

(** [while self.range_count != 0] *)
Fixpoint unmap_ranges {X} (root : Z) (count : nat) : LM X bool :=
  match count with
  | O => mret false
  | S count =>
      _ ← set_tx (set_range_count count);
      t ← gets tx;
      match ranges t !! count with
      | None => fun s => (s, Panic)
      | Some range =>
          failed ← is_err (fun p => unmap_child p root (r_address range) (r_bytes range));
          rest ← unmap_ranges root count;
          mret (failed || rest)
      end
  end.

(** [for handle in handles.into_iter().flatten()] *)
Fixpoint close_all {X} (handles : list (option Z)) : LM X bool :=
  match handles with
  | [] => mret false
  | None :: handles => close_all handles
  | Some handle :: handles =>
      failed ← is_err (fun p => close p handle);
      rest ← close_all handles;
      mret (failed || rest)
  end.

Definition rollback {X} : LM X bool :=
  t ← gets tx;
  _ ← set_tx (set_parent_mapping None);
  f1 ← match parent_mapping t with
       | Some mapping => is_err (fun p => unmap_parent p (t_parent_root t) mapping)
       | None => mret false
       end;
  _ ← set_tx (set_root None);
  f2 ← match t_root t with Some root => unmap_ranges root (range_count t) | None => mret false end;
  _ ← set_tx (set_thread None);
  thread_ended ← match t_thread t with
    | Some thread =>
        refused ← is_err (fun p => thread_terminate p thread);
        failed ← is_err (fun p => close p thread);
        mret (Some (negb refused), failed)
    | None => mret (None, false)
    end;
  let '(thread_terminated, f3) := thread_ended in
  f4 ← match t_root t with Some root => is_err (fun p => close p root) | None => mret false end;
  _ ← set_tx (set_process None);
  f5 ← match t_process t with
       | Some process =>
           terminated ← (if bool_decide (thread_terminated = Some true) then mret true
                         else refused ← is_err (fun p => process_terminate p process); mret (negb refused));
           failed ← is_err (fun p => close p process);
           mret (negb terminated || failed)
       | None => mret false
       end;
  _ ← set_tx (fun t => set_scratch_memory None (set_delegated_task_group None
        (set_delegated_resource_domain None (set_delegated_bootfs None t))));
  f6 ← close_all [scratch_memory t; delegated_task_group t; delegated_resource_domain t; delegated_bootfs t];
  _ ← set_tx (set_delegated_channels (replicate (length (delegated_channels t)) None));
  f7 ← close_all (delegated_channels t);
  _ ← set_tx (fun t => set_delegated_manifest None (set_child_endpoint None
        (set_broad_parent None (set_parent_channel None t))));
  f8 ← close_all [delegated_manifest t; child_endpoint t; broad_parent t; parent_channel t];
  mret (f1 || f2 || f3 || f4 || f5 || f6 || f7 || f8).

(** [return Err(fail(platform, &mut transaction, stage, cause))] *)
Definition fail {A} (stage : LoadStage) (cause : E) : LM (LoadError E) A :=
  rollback_failed ← rollback;
  throw (PlatformFailed stage cause rollback_failed).

(** A call whose error ends the load. *)
Definition attempt {A} (stage : LoadStage) (op : P -> P * (E + A)) : LM (LoadError E) A := fun s =>
  match op (plat s) with
  | (p, inr a) => (mkLoader p (tx s) (consumed s), Ok a)
  | (p, inl cause) => fail stage cause (mkLoader p (tx s) (consumed s))
  end.
Definition attempt_materialize (op : P -> P * res E ParentMapping) : LM (LoadError E) ParentMapping := fun s =>
  match op (plat s) with
  | (p, Ok mapping) => (mkLoader p (tx s) (consumed s), Ok mapping)
  | (p, Err cause) => fail ParentMaterialize cause (mkLoader p (tx s) (consumed s))
  | (p, Panic) => (mkLoader p (tx s) (consumed s), Panic)
  end.
(** A pure step with its error mapped. *)
Definition lift {X A} (c : res X A) (f : X -> LoadError E) : LM (LoadError E) A := fun s =>
  (s, match c with Ok a => Ok a | Err e => Err (f e) | Panic => Panic end).
(** [value.ok_or(error)?], which does not roll back. *)
Definition required {A} (value : option A) (error : Launch.LaunchError) : LM (LoadError E) A :=
  match value with Some a => mret a | None => throw (LaunchFailed error) end.

(** ** Test faults *)

(** [slice[a..a + vs.len()].copy_from_slice(vs)] *)
Definition overwrite (bytes : list Z) (a : Z) (vs : list Z) : option (list Z) := put_range bytes a vs.

Definition apply_startup_fault (startup_page : list Z) (fault : LoadFault) : option (list Z) :=
  if bool_decide (fault = MalformedStartup) then overwrite startup_page 0 (to_le 8 2) else Some startup_page.
Definition apply_init_fault (init : list Z) (fault : LoadFault) : option (list Z) :=
  if bool_decide (fault = InitCapabilityCount) then overwrite init 20 (to_le 4 2) else Some init.
Definition apply_capability_fault (transfers : list HandleTransfer) (fault : LoadFault) : list HandleTransfer :=
  match fault, transfers with
  | InitCapabilityType, [a; b; c] => [c; b; a]
  | InitCapabilityRights, first :: rest =>
      mkTransfer (x_handle first) ROOT_RIGHTS (x_operation first) (x_reserved0 first) (x_reserved first) :: rest
  | _, _ => transfers
  end.

Definition native_protection (protection : Elf.SegmentProtection) : Z :=
  match protection with
  | Elf.Read => DW_MEMORY_PROTECTION_READ
  | Elf.ReadWrite => Z.lor DW_MEMORY_PROTECTION_READ DW_MEMORY_PROTECTION_WRITE
  | Elf.ReadExecute => Z.lor DW_MEMORY_PROTECTION_READ DW_MEMORY_PROTECTION_EXECUTE
  end.
Definition transfer (handle rights : Z) : HandleTransfer := mkTransfer handle rights DW_HANDLE_TRANSFER_MOVE 0 [0; 0].
Definition empty_segment : Elf.LoadSegment := Elf.mkSegment 0 0 0 0 0 0 0 0 Elf.Read.

(** ** The parts of [load_process_materialized] *)

(** The INIT message of the request, its length first. *)
Definition encode_request (request : InternalLoadRequest) (init : list Z) : LM (LoadError E) (Z * list Z) :=
  if bool_decide (profile request = Launch.Wyrmsh) then
    c ← required (wyrmsh_correlation request) Launch.ZeroTransaction;
    lift (Launch.encode_wyrmsh_init (transaction_id request) (wc_registry_generation c) (wc_registry_endpoint_id c)
      (wc_registry_endpoint_generation c) (wc_launch_connection_id c) (wc_launch_connection_generation c)
      (wc_console_generation c) (wc_status_generation c) (wc_child_generation c) (wc_outer_launch_transaction c) init)
      LaunchFailed
  else if bool_decide (profile request = Launch.Consoled) then
    c ← required (consoled_correlation request) Launch.ZeroTransaction;
    let '(registry, registry_id, registry_generation, launch_id, launch_generation) := c in
    lift (Launch.encode_consoled_init (transaction_id request) registry registry_id registry_generation launch_id
      launch_generation init) LaunchFailed
  else if bool_decide (profile request = Launch.DeviceCoordinator) then
    generation ← required (supervisor_generation request) Launch.ZeroTransaction;
    lift (Launch.encode_device_coordinator_init (transaction_id request) generation init) LaunchFailed
  else if bool_decide (profile request = Launch.DeviceCoordinatorResourceDomain) then
    generation ← required (supervisor_generation request) Launch.ZeroTransaction;
    lift (Launch.encode_device_coordinator_resource_init (transaction_id request) generation init) LaunchFailed
  else if bool_decide (profile request = Launch.DeviceDriver) then
    c ← required (driver_correlation request) Launch.ZeroTransaction;
    let '(supervisor, role, attempt_, session, endpoint, endpoint_generation) := c in
    lift (Launch.encode_device_driver_init (transaction_id request) supervisor role attempt_ session endpoint
      endpoint_generation init) LaunchFailed
  else lift (Launch.encode_init (profile request) (transaction_id request) init) LaunchFailed.

(** The default [LoaderPlatform::materialize_parent]. *)
Definition materialize_parent (p : P) (parent_root memory object_size destination_offset : Z) (source : list Z)
    : P * res E ParentMapping :=
  materialize_parent_with p parent_root memory object_size destination_offset (len source)
    (fun destination => if len destination =? len source then Some source else None).

(** A mapped object becomes a range of the child: unmapped in the parent, mapped
    in the child, recorded, and its handle closed. *)
Definition hand_over (parent_root child_root memory : Z) (mapping : ParentMapping) (address bytes protection : Z)
    : LM (LoadError E) unit :=
  _ ← set_tx (set_parent_mapping (Some mapping));
  _ ← attempt ParentUnmap (fun p => unmap_parent p parent_root mapping);
  _ ← set_tx (set_parent_mapping None);
  _ ← attempt ChildMap (fun p => map_child p child_root memory address bytes protection);
  t ← gets tx;
  updated ← lift (or_panic (put_range (ranges t) (Z.of_nat (range_count t)) [mkRange address bytes])) LaunchFailed;
  _ ← set_tx (set_ranges updated);
  _ ← set_tx (set_range_count (S (range_count t)));
  _ ← attempt SuccessCleanup (fun p => close p memory);
  set_tx (set_scratch_memory None).

(** [for segment in plan.segments] *)
Fixpoint load_segments (image : list Z) (parent_root child_root : Z) (segments : list Elf.LoadSegment)
    : LM (LoadError E) unit :=
  match segments with
  | [] => mret tt
  | segment :: segments =>
      let m := Image.from_segment segment in
      memory ← attempt MemoryCreate (fun p => memory_create p (Image.object_size m) MEMORY_RIGHTS);
      _ ← set_tx (set_scratch_memory (Some memory));
      source_end ← lift (plus (Image.source_offset m) (Image.source_size m)) ElfFailed;
      source ← lift (or_panic (get_range image (Image.source_offset m) source_end)) ElfFailed;
      mapping ← attempt_materialize (fun p => materialize_parent p parent_root memory (Image.object_size m)
                  (Image.destination_offset m) source);
      _ ← hand_over parent_root child_root memory mapping (Image.child_address m) (Image.object_size m)
            (native_protection (Image.m_protection m));
      load_segments image parent_root child_root segments
  end.

(** The closure that fills the V2 block. *)
Definition fill_v2 (plan : Image.StartupBlockV2Plan) (fault : LoadFault) (block : list Z) : option (list Z) :=
  match Image.v2_plan_write plan block with Ok block => apply_startup_fault block fault | _ => None end.

Definition load_stack (parent_root child_root : Z) (startup : StartupMaterialization) (startup_offset : Z)
    (fault : LoadFault) : LM (LoadError E) unit :=
  let size := Image.s_object_size Image.INITIAL_STACK in
  stack ← attempt MemoryCreate (fun p => memory_create p size MEMORY_RIGHTS);
  _ ← set_tx (set_scratch_memory (Some stack));
  mapping ← attempt_materialize (fun p =>
    match startup with
    | LegacyBlock block => materialize_parent p parent_root stack size startup_offset block
    | JobV2Block plan =>
        materialize_parent_with p parent_root stack size startup_offset Image.STARTUP_V2_BLOCK_BYTES (fill_v2 plan fault)
    end);
  hand_over parent_root child_root stack mapping (Image.s_child_address Image.INITIAL_STACK) size
    (Z.lor DW_MEMORY_PROTECTION_READ DW_MEMORY_PROTECTION_WRITE).

(** [request.channels[index]] *)
Definition channel_at (request : InternalLoadRequest) (index : Z) : LM (LoadError E) Z :=
  lift (or_panic (get_at (channels request) index)) LaunchFailed.

(** [transaction.delegated_channels[index] = Some(handle)], for the handles from
    [index] on. *)
Fixpoint delegate (index : Z) (handles : list Z) : LM (LoadError E) unit :=
  match handles with
  | [] => mret tt
  | handle :: handles =>
      t ← gets tx;
      updated ← lift (or_panic (put_range (delegated_channels t) index [Some handle])) LaunchFailed;
      _ ← set_tx (set_delegated_channels updated);
      delegate (index + 1) handles
  end.

Definition child_channel (handle : Z) : HandleTransfer := transfer handle Launch.CHILD_CHANNEL_RIGHTS.

(** [transfers[..count]] of the array the code fills from its start. *)
Definition first_transfers (count : Z) (filled : list HandleTransfer) : list HandleTransfer :=
  take (Z.to_nat count) (filled ++ replicate (Z.to_nat Launch.MAX_CAPABILITIES - length filled) (mkTransfer 0 0 0 0 [0; 0])).

Definition is_coordinator (p : Launch.LaunchProfile) : bool :=
  match p with Launch.DeviceCoordinator | Launch.DeviceCoordinatorResourceDomain => true | _ => false end.

(** The handles INIT moves, by the chain of tests on the profile. *)
Definition stage_capabilities (authority : LoadAuthority) (request : InternalLoadRequest) (child_root : Z)
    : LM (LoadError E) (list HandleTransfer) :=
  let p := profile request in
  let self_root := transfer child_root Launch.SELF_ROOT_RIGHTS in
  if Launch.has_loader_authority_trio p || Launch.has_loader_authority_quartet p then
    bootfs ← attempt CapabilityDuplicate (fun p => duplicate p (a_bootfs authority) Launch.BOOTFS_RIGHTS);
    _ ← set_tx (set_delegated_bootfs (Some bootfs));
    task_group ← attempt CapabilityDuplicate (fun p => duplicate p (a_task_group authority) Launch.LOADER_TASK_GROUP_RIGHTS);
    _ ← set_tx (set_delegated_task_group (Some task_group));
    let trio := [self_root; transfer bootfs Launch.BOOTFS_RIGHTS; transfer task_group Launch.LOADER_TASK_GROUP_RIGHTS] in
    if Launch.has_loader_authority_quartet p then
      domain ← required (resource_domain request) Launch.HandleCount;
      domain ← attempt CapabilityDuplicate (fun p => duplicate p domain Launch.RESOURCE_DOMAIN_CUSTODY_RIGHTS);
      _ ← set_tx (set_delegated_resource_domain (Some domain));
      mret (first_transfers 4 (trio ++ [transfer domain Launch.RESOURCE_DOMAIN_CUSTODY_RIGHTS]))
    else mret (first_transfers 3 trio)
  else if bool_decide (p = Launch.D6ResourceOwner) then
    domain ← required (resource_domain request) Launch.HandleCount;
    domain ← attempt CapabilityDuplicate (fun p => duplicate p domain Launch.RESOURCE_DOMAIN_CLAIM_TRANSFER_RIGHTS);
    _ ← set_tx (set_delegated_resource_domain (Some domain));
    mret (first_transfers 1 [transfer domain Launch.RESOURCE_DOMAIN_CLAIM_RIGHTS])
  else if bool_decide (p = Launch.Dw1bProgress) then
    channel ← channel_at request 0;
    _ ← delegate 0 [channel];
    mret (first_transfers 1 [child_channel channel])
  else if is_coordinator p then
    manifest ← required (device_manifest request) Launch.HandleCount;
    staged_domain ←
      (if bool_decide (p = Launch.DeviceCoordinatorResourceDomain) then
         domain ← required (resource_domain request) Launch.HandleCount;
         domain ← attempt CapabilityDuplicate (fun p => duplicate p domain Launch.RESOURCE_DOMAIN_CLAIM_TRANSFER_RIGHTS);
         _ ← set_tx (set_delegated_resource_domain (Some domain));
         mret (Some domain)
       else mret None);
    channel ← channel_at request 0;
    _ ← delegate 0 [channel];
    _ ← set_tx (set_delegated_manifest (Some manifest));
    let three := [self_root; child_channel channel; transfer manifest Launch.DEVICE_MANIFEST_RIGHTS] in
    match staged_domain with
    | Some domain => mret (first_transfers 4 (three ++ [transfer domain Launch.RESOURCE_DOMAIN_CLAIM_RIGHTS]))
    | None => mret (first_transfers 3 three)
    end
  else if bool_decide (p = Launch.Wyrmsh) then
    _ ← delegate 0 (channels request);
    mret (first_transfers Launch.MAX_CAPABILITIES (map child_channel (channels request)))
  else if bool_decide (p = Launch.Consoled) then
    _ ← delegate 0 (channels request);
    first ← channel_at request 0;
    second ← channel_at request 1;
    mret (first_transfers 3 [self_root; child_channel first; child_channel second])
  else if bool_decide (is_Some (Launch.channel_role p)) then
    channel ← channel_at request 0;
    _ ← delegate 0 [channel];
    mret (first_transfers 2 [self_root; child_channel channel])
  else if Launch.needs_self_root p then mret (first_transfers 1 [self_root])
  else if bool_decide (p = Launch.JobV2Streams) then
    _ ← delegate 0 (channels request);
    mret (first_transfers 3 (map child_channel (channels request)))
  else mret [].

(** [transaction.delegated_channels.fill(None); transaction.delegated_manifest = None] *)
Definition forget_lent (t : Transaction) : Transaction :=
  set_delegated_manifest None (set_delegated_channels (replicate (length (delegated_channels t)) None) t).

(** INIT is sent; a failed send moved nothing, and the caller keeps what it lent. *)
Definition send (request : InternalLoadRequest) (channel : Z) (init : list Z) (transfers : list HandleTransfer)
    : LM (LoadError E) unit := fun s =>
  match send_init (plat s) channel init transfers with
  | (p, inl cause) => fail InitSend cause (mkLoader p (forget_lent (tx s)) (consumed s))
  | (p, inr _) =>
      (mkLoader p (forget_lent (tx s)) (negb (bool_decide (channels request = []))), Ok tt)
  end.

(** What the transaction still holds after INIT has moved its handles. *)
Definition after_send (request : InternalLoadRequest) (child_root : Z) : LM (LoadError E) unit :=
  let p := profile request in
  _ ← (if bool_decide (p = Launch.DeviceCoordinatorResourceDomain) then set_tx (set_delegated_resource_domain None)
       else mret tt);
  if Launch.needs_self_root p then
    _ ← set_tx (set_root None);
    if Launch.has_loader_authority_trio p || Launch.has_loader_authority_quartet p then
      set_tx (fun t => set_delegated_resource_domain None (set_delegated_task_group None (set_delegated_bootfs None t)))
    else mret tt
  else if bool_decide (p = Launch.D6ResourceOwner) then
    _ ← set_tx (set_delegated_resource_domain None);
    _ ← attempt SuccessCleanup (fun p => close p child_root);
    set_tx (set_root None)
  else
    _ ← attempt SuccessCleanup (fun p => close p child_root);
    set_tx (set_root None).

(** The last close: the thread runs, so its failure ends the process by hand. *)
Definition close_thread (thread process_ channel : Z) : LM (LoadError E) unit := fun s =>
  match close (plat s) thread with
  | (p, inr _) => (mkLoader p (tx s) (consumed s), Ok tt)
  | (p, inl cause) =>
      (refused ← is_err (fun p => process_terminate p process_);
       thread_terminated ← (if negb refused then mret false
                            else refused ← is_err (fun p => thread_terminate p thread); mret (negb refused));
       f1 ← is_err (fun p => close p thread);
       f2 ← is_err (fun p => close p process_);
       f3 ← is_err (fun p => close p channel);
       throw (PlatformFailed SuccessCleanup cause (negb (negb refused || thread_terminated) || f1 || f2 || f3)))
      (mkLoader p (tx s) (consumed s))
  end.

Definition load_process_materialized (authority : LoadAuthority) (request : InternalLoadRequest) (fault : LoadFault)
    (plan : Elf.ElfLoadPlan) (startup : StartupMaterialization) (startup_offset stack_pointer startup_abi : Z)
    : LM (LoadError E) LoadedProcess :=
  encoded ← encode_request request (replicate (Z.to_nat Launch.WYRMSH_BYTES) 0);
  let '(init_len, init) := encoded in
  init ← lift (or_panic (get_range init 0 init_len)) LaunchFailed;
  init ← lift (or_panic (apply_init_fault init fault)) LaunchFailed;
  _ ← set_tx (fun _ => transaction_new (a_parent_root authority));
  ends ← (fun s : Loader => match channel_create (plat s) CHANNEL_BROAD_RIGHTS with
          | (p, inr ends) => (mkLoader p (tx s) (consumed s), Ok ends)
          | (p, inl cause) => (mkLoader p (tx s) (consumed s), Err (PlatformFailed ChannelCreate cause false))
          end);
  let '(broad, child_end) := ends in
  _ ← set_tx (set_broad_parent (Some broad));
  _ ← set_tx (set_child_endpoint (Some child_end));
  channel ← attempt ChannelReduce (fun p => duplicate p broad CHANNEL_RETAINED_RIGHTS);
  _ ← set_tx (set_parent_channel (Some channel));
  _ ← attempt ChannelReduce (fun p => close p broad);
  _ ← set_tx (set_broad_parent None);
  created ← attempt ProcessCreate (fun p => process_create p
              (mkCreate (a_task_group authority) child_end PROCESS_RIGHTS ROOT_RIGHTS CHANNEL_RETAINED_RIGHTS));
  _ ← set_tx (set_child_endpoint None);
  _ ← set_tx (set_process (Some (process created)));
  _ ← set_tx (set_root (Some (root created)));
  _ ← load_segments (image request) (a_parent_root authority) (root created) (Elf.segments plan);
  _ ← load_stack (a_parent_root authority) (root created) startup startup_offset fault;
  thread ← attempt ThreadCreate (fun p => thread_create p (process created) THREAD_RIGHTS);
  _ ← set_tx (set_thread (Some thread));
  transfers ← stage_capabilities authority request (root created);
  _ ← send request channel init (apply_capability_fault transfers fault);
  _ ← after_send request (root created);
  _ ← attempt ThreadStart (fun p => thread_start p thread (Elf.entry plan) stack_pointer (child_bootstrap created) startup_abi);
  _ ← close_thread thread (process created) channel;
  mret (mkLoaded (process created) channel).

Definition load_legacy_process_materialized (authority : LoadAuthority) (request : InternalLoadRequest)
    (display_path : list Z) (fault : LoadFault) (plan : Elf.ElfLoadPlan) : LM (LoadError E) LoadedProcess :=
  block ← lift (Image.write_startup_block (replicate (Z.to_nat Elf.PAGE_SIZE) 0) Image.INITIAL_STACK_POINTER display_path)
            StartupFailed;
  block ← lift (or_panic (apply_startup_fault block fault)) StartupFailed;
  load_process_materialized authority request fault plan (LegacyBlock block)
    (Image.startup_page_offset Image.INITIAL_STACK) (Image.stack_pointer Image.INITIAL_STACK) STARTUP_ABI_VERSION.

Definition load_job_v2_process_materialized (authority : LoadAuthority) (request : InternalLoadRequest)
    (path : list Z) (argv environment : list (list Z)) (fault : LoadFault) (plan : Elf.ElfLoadPlan)
    : LM (LoadError E) LoadedProcess :=
  v2 ← lift (Image.v2_plan_new Image.STARTUP_V2_BLOCK_BYTES Image.STARTUP_V2_BLOCK_ADDRESS path argv environment)
         StartupFailed;
  load_process_materialized authority request fault plan (JobV2Block v2)
    (Image.s_object_size Image.INITIAL_STACK - Image.STARTUP_V2_BLOCK_BYTES) Image.STARTUP_V2_BLOCK_ADDRESS
    STARTUP_ABI_V2.

Definition expected_channels (p : Launch.LaunchProfile) : Z :=
  if bool_decide (p = Launch.Wyrmsh) then Launch.MAX_CAPABILITIES
  else if bool_decide (p = Launch.Consoled) then 2
  else if bool_decide (is_Some (Launch.channel_role p)) || is_coordinator p || bool_decide (p = Launch.DeviceDriver) then 1
  else if bool_decide (p = Launch.JobV2Streams) then 3
  else 0.

Definition load_process_internal (authority : LoadAuthority) (request : InternalLoadRequest) (fault : LoadFault)
    : LM (LoadError E) LoadedProcess :=
  let p := profile request in
  let mismatch (expected given : bool) := negb (Bool.eqb expected given) in
  if negb (len (channels request) =? expected_channels p) then throw (LaunchFailed Launch.HandleCount)
  else if mismatch (is_coordinator p) (bool_decide (is_Some (device_manifest request))) then
    throw (LaunchFailed Launch.HandleCount)
  else if mismatch (bool_decide (p = Launch.DeviceDriver)) (bool_decide (is_Some (driver_correlation request))) then
    throw (LaunchFailed Launch.HandleCount)
  else if mismatch (bool_decide (p = Launch.Consoled)) (bool_decide (is_Some (consoled_correlation request))) then
    throw (LaunchFailed Launch.HandleCount)
  else if mismatch (bool_decide (p = Launch.Wyrmsh)) (bool_decide (is_Some (wyrmsh_correlation request))) then
    throw (LaunchFailed Launch.HandleCount)
  else
  let segments := replicate (Z.to_nat Elf.MAX_LOAD_SEGMENTS) empty_segment in
  if bool_decide (fault = MalformedElf) then
    match Elf.plan (replicate 64 0) segments with
    | Err error => throw (ElfFailed error)
    | _ => fun s => (s, Panic)
    end
  else
  planned ← lift (Elf.plan (image request) segments) ElfFailed;
  let '(plan, _) := planned in
  match startup request with
  | Legacy path => load_legacy_process_materialized authority request path fault plan
  | JobV2Spec path argv environment => load_job_v2_process_materialized authority request path argv environment fault plan
  end.

(** ** Entry points *)

(** A run of [load_process_internal] on the platform, with the local flag it is
    given: the platform, the outcome and the flag. *)
Definition internal (authority : LoadAuthority) (request : InternalLoadRequest) (fault : LoadFault) (p : P)
    : P * res (LoadError E) LoadedProcess * bool :=
  let '(s, r) := load_process_internal authority request fault (mkLoader p (transaction_new 0) false) in
  (plat s, r, consumed s).
(** [.map_err(|error| ...)] with the flag. *)
Definition with_custody {X} (run : P * res (LoadError E) LoadedProcess * bool) (f : LoadError E -> bool -> X)
    : P * res X LoadedProcess :=
  let '(p, r, flag) := run in (p, match r with Ok a => Ok a | Err e => Err (f e flag) | Panic => Panic end).
Definition plain (run : P * res (LoadError E) LoadedProcess * bool) : P * res (LoadError E) LoadedProcess := run.1.

(** A request with every optional part absent. *)
Definition plain_request (image : list Z) (profile : Launch.LaunchProfile) (transaction_id : Z) (startup : StartupSpec)
    (channels : list Z) : InternalLoadRequest :=
  mkInternal image profile transaction_id startup channels None None None None None None.

Definition load_process_with_fault (authority : LoadAuthority) (request : LoadRequest) (fault : LoadFault) (p : P)
    : P * res (LoadError E) LoadedProcess :=
  plain (internal authority (plain_request (l_image request) (l_profile request) (l_transaction_id request)
    (Legacy (l_display_path request)) []) fault p).

Definition load_process (authority : LoadAuthority) (request : LoadRequest) (p : P) : P * res (LoadError E) LoadedProcess :=
  load_process_with_fault authority request NoFault p.

Definition load_resource_domain_process (authority : LoadAuthority) (request : ResourceDomainLoadRequest) (p : P)
    : P * res (LoadError E) LoadedProcess :=
  plain (internal authority (mkInternal (rd_image request) Launch.SupervisorResourceDomain (rd_transaction_id request)
    (Legacy (rd_display_path request)) [] None None None None None (Some (rd_resource_domain request))) NoFault p).

Definition load_d6_resource_owner_process (authority : LoadAuthority) (request : D6ResourceOwnerLoadRequest) (p : P)
    : P * res (LoadError E) LoadedProcess :=
  let authority := mkAuthority (a_parent_root authority) (d6_resource_domain request) (a_bootfs authority) in
  plain (internal authority (mkInternal (d6_image request) Launch.D6ResourceOwner (d6_transaction_id request)
    (Legacy (d6_display_path request)) [] None None None None None (Some (d6_resource_domain request))) NoFault p).

Definition load_job_process (authority : LoadAuthority) (request : JobLoadRequest) (p : P)
    : P * res (JobLoadError E) LoadedProcess :=
  let go profile :=
    with_custody (internal authority (plain_request (j_image request) profile (j_transaction_id request)
      (JobV2Spec (policy_path request) (j_argv request) (j_environment request)) (j_streams request)) NoFault p) mkJobError in
  match length (j_streams request) with
  | 0%nat => go Launch.JobV2
  | 3%nat => go Launch.JobV2Streams
  | _ => (p, Err (mkJobError (LaunchFailed Launch.HandleCount) false))
  end.

(** The environment slots, from the entries of the correlation. *)
Definition correlation_entries (env : Correlation.CorrelationEnvironment) : option (list (list Z)) :=
  mapM (Correlation.environment_entry env) [0; 1; 2]%nat.

Definition load_service_process (authority : LoadAuthority) (request : ServiceLoadRequest) (p : P)
    : P * res (ServiceLoadError E) LoadedProcess :=
  let retains error := (p, Err (mkServiceError error false)) in
  let go startup :=
    with_custody (internal authority (plain_request (sv_image request) (sv_profile request) (sv_transaction_id request)
      startup [service_channel request]) NoFault p) mkServiceError in
  if bool_decide (Launch.channel_role (sv_profile request) = None) then retains (LaunchFailed Launch.HandleCount)
  else if bool_decide (sv_profile request = Launch.BootstrapService) || bool_decide (sv_profile request = Launch.RegistryClient) then
    match sv_correlation request with
    | None => retains (StartupFailed Image.InvalidEnvironment)
    | Some correlation =>
        match correlation_entries correlation with
        | None => retains (StartupFailed Image.InvalidEnvironment)
        | Some environment => go (JobV2Spec (sv_display_path request) [sv_display_path request] environment)
        end
    end
  else
    match sv_correlation request with
    | None => go (Legacy (sv_display_path request))
    | Some _ => retains (StartupFailed Image.TooManyArguments)
    end.

Definition MAX_LAUNCH_CLIENT_ARGUMENTS : Z := 2.

Definition load_launch_client_process (authority : LoadAuthority) (request : LaunchClientLoadRequest) (p : P)
    : P * res (LaunchClientLoadError E) LoadedProcess :=
  let retains error := (p, Err (mkClientError error false)) in
  if lc_launch_session request =? 0 then retains (LaunchFailed Launch.HandleCount)
  else if len (lc_arguments request) >? MAX_LAUNCH_CLIENT_ARGUMENTS then retains (StartupFailed Image.TooManyArguments)
  else
  match correlation_entries (lc_correlation request) with
  | None => retains (StartupFailed Image.InvalidEnvironment)
  | Some environment =>
      with_custody (internal authority (plain_request (lc_image request) Launch.LaunchClient (lc_transaction_id request)
        (JobV2Spec (lc_display_path request) (lc_display_path request :: lc_arguments request) environment)
        [lc_launch_session request]) NoFault p) mkClientError
  end.

(** "system/consoled" *)
Definition CONSOLED_PATH : list Z := [115; 121; 115; 116; 101; 109; 47; 99; 111; 110; 115; 111; 108; 101; 100].
(** "system/wyrmsh" *)
Definition WYRMSH_PATH : list Z := [115; 121; 115; 116; 101; 109; 47; 119; 121; 114; 109; 115; 104].
(** "/system/uart16550d" *)
Definition DRIVER_PATH : list Z := [47; 115; 121; 115; 116; 101; 109; 47; 117; 97; 114; 116; 49; 54; 53; 53; 48; 100].

Definition load_consoled_process (authority : LoadAuthority) (request : ConsoledLoadRequest) (p : P)
    : P * res (ConsoledLoadError E) LoadedProcess :=
  if negb (bool_decide (cl_display_path request = CONSOLED_PATH)) || (registry_endpoint request =? 0)
    || (launch_endpoint request =? 0) || (registry_endpoint request =? launch_endpoint request)
    || contains 0 [cl_registry_generation request; cl_registry_endpoint_id request; cl_registry_endpoint_generation request;
                   cl_launch_connection_id request; cl_launch_connection_generation request]
  then (p, Err (mkConsoledError (LaunchFailed Launch.HandleCount) false false))
  else
  with_custody (internal authority (mkInternal (cl_image request) Launch.Consoled (cl_transaction_id request)
    (Legacy (cl_display_path request)) [registry_endpoint request; launch_endpoint request] None None None
    (Some (cl_registry_generation request, cl_registry_endpoint_id request, cl_registry_endpoint_generation request,
           cl_launch_connection_id request, cl_launch_connection_generation request)) None None) NoFault p)
    (fun error consumed => mkConsoledError error consumed consumed).

(** [channels[..index].contains(handle)] for some index *)
Fixpoint any_repeated (seen handles : list Z) : bool :=
  match handles with
  | [] => false
  | handle :: handles => contains handle seen || any_repeated (seen ++ [handle]) handles
  end.
Definition wyrmsh_custody (error : LoadError E) (consumed : bool) : WyrmshLoadError E :=
  mkWyrmshError error consumed consumed consumed consumed consumed consumed.

Definition load_wyrmsh_process (authority : LoadAuthority) (request : WyrmshLoadRequest) (p : P)
    : P * res (WyrmshLoadError E) LoadedProcess :=
  let channels := [ws_stdin request; ws_stdout request; ws_stderr request; ws_console_status request;
                   ws_registry_client request; ws_launch_session request] in
  if existsb (fun handle => handle =? 0) channels || any_repeated [] channels then
    (p, Err (wyrmsh_custody (LaunchFailed Launch.HandleCount) false))
  else
  let c := mkWyrmshCorrelation (ws_registry_generation request) (ws_registry_endpoint_id request)
    (ws_registry_endpoint_generation request) (ws_launch_connection_id request) (ws_launch_connection_generation request)
    (ws_console_generation request) (ws_status_generation request) (ws_child_generation request)
    (ws_outer_launch_transaction request) in
  if contains 0 [wc_registry_generation c; wc_registry_endpoint_id c; wc_registry_endpoint_generation c;
       wc_launch_connection_id c; wc_launch_connection_generation c; wc_console_generation c; wc_status_generation c;
       wc_child_generation c; wc_outer_launch_transaction c; ws_transaction_id request] then
    (p, Err (wyrmsh_custody (LaunchFailed Launch.ZeroTransaction) false))
  else
  with_custody (internal authority (mkInternal (ws_image request) Launch.Wyrmsh (ws_transaction_id request)
    (JobV2Spec WYRMSH_PATH [WYRMSH_PATH] []) channels None None None None (Some c) None) NoFault p) wyrmsh_custody.

Definition load_device_coordinator_process (authority : LoadAuthority) (request : DeviceCoordinatorLoadRequest) (p : P)
    : P * res (DeviceCoordinatorLoadError E) LoadedProcess :=
  if (co_publication_endpoint request =? co_manifest request) || (co_supervisor_generation request =? 0) then
    (p, Err (mkCoordinatorError (LaunchFailed Launch.HandleCount) false false))
  else
  with_custody (internal authority (mkInternal (co_image request) Launch.DeviceCoordinator (co_transaction_id request)
    (Legacy (co_display_path request)) [co_publication_endpoint request] (Some (co_manifest request))
    (Some (co_supervisor_generation request)) None None None None) NoFault p)
    (fun error consumed => mkCoordinatorError error consumed consumed).

Definition load_device_coordinator_resource_process (authority : LoadAuthority)
    (request : DeviceCoordinatorResourceLoadRequest) (p : P) : P * res (DeviceCoordinatorLoadError E) LoadedProcess :=
  if (cr_publication_endpoint request =? cr_manifest request) || (cr_publication_endpoint request =? cr_resource_domain request)
    || (cr_manifest request =? cr_resource_domain request) || (cr_supervisor_generation request =? 0) then
    (p, Err (mkCoordinatorError (LaunchFailed Launch.HandleCount) false false))
  else
  with_custody (internal authority (mkInternal (cr_image request) Launch.DeviceCoordinatorResourceDomain
    (cr_transaction_id request) (Legacy (cr_display_path request)) [cr_publication_endpoint request]
    (Some (cr_manifest request)) (Some (cr_supervisor_generation request)) None None None
    (Some (cr_resource_domain request))) NoFault p)
    (fun error consumed => mkCoordinatorError error consumed consumed).

Definition load_device_driver_process (authority : LoadAuthority) (request : DeviceDriverLoadRequest) (p : P)
    : P * res (DeviceDriverLoadError E) LoadedProcess :=
  if negb (bool_decide (dr_display_path request = DRIVER_PATH)) || (dr_supervisor_generation request =? 0)
    || (dr_role_id request =? 0) || (dr_attempt_generation request =? 0) || (dr_launch_session request =? 0)
    || (dr_endpoint_id request =? 0) || (dr_endpoint_generation request =? 0) then
    (p, Err (mkDriverError (LaunchFailed Launch.HandleCount) false))
  else
  with_custody (internal authority (mkInternal (dr_image request) Launch.DeviceDriver (dr_transaction_id request)
    (Legacy (dr_display_path request)) [control_endpoint request] None None
    (Some (dr_supervisor_generation request, dr_role_id request, dr_attempt_generation request, dr_launch_session request,
           dr_endpoint_id request, dr_endpoint_generation request)) None None None) NoFault p) mkDriverError.
End process.

End Process.
