(* ===== verification/ProcessThms.v ===== *)
(** * What the construction of a process owns

    Around any platform, a second one keeps books of what the calls that
    succeeded have created, moved and destroyed.  The theorems compare the books
    with what the loader returns: a load either completes or gives everything
    back, and what the caller lent is moved exactly when the loader says so. *)

From stdpp Require Import base tactics option list list_numbers gmultiset.
From Stdlib Require Import ZArith Lia.
From S2P Require Import Prelude Bytes Elf ElfThms Image StartupThms Launch LaunchThms Correlation StateM Process.

Import Launch Process.
Local Open Scope Z_scope.

(** The handles the loader's process can name and must dispose of, the objects
    mapped in it, the ranges of the child, whether the child was created, ended or started,
    whether a handle was closed or moved that was not held, and what INIT
    carried. *)
Record Books := mkBooks {
  live : gmultiset Z; mapped : list ParentMapping; placed : gmultiset (Z * Z); created : bool; ended : bool;
  started : bool; stray : bool; sent : option (list Z * list HandleTransfer) }.

Definition acquire (hs : gmultiset Z) (b : Books) : Books :=
  mkBooks (hs ⊎ live b) (mapped b) (placed b) (created b) (ended b) (started b) (stray b) (sent b).
Definition dispose (gone : gmultiset Z) (b : Books) : Books :=
  mkBooks (live b ∖ gone) (mapped b) (placed b) (created b) (ended b) (started b) (stray b || negb (bool_decide (gone ⊆ live b)))
    (sent b).
Definition create_child (b : Books) : Books :=
  mkBooks (live b) (mapped b) (placed b) true (ended b) (started b) (stray b) (sent b).
Definition end_child (b : Books) : Books := mkBooks (live b) (mapped b) (placed b) (created b) true (started b) (stray b) (sent b).

Record Ledger (P : Type) := mkLedger { under : P; books : Books }.
Arguments mkLedger {_}. Arguments under {_}. Arguments books {_}.

(** A call that succeeded is entered in the books. *)
Definition enter {P E A} (f : A -> Books -> Books) (op : P -> P * (E + A)) (l : Ledger P) : Ledger P * (E + A) :=
  match op (under l) with
  | (p, inr a) => (mkLedger p (f a (books l)), inr a)
  | (p, inl e) => (mkLedger p (books l), inl e)
  end.
Definition enter_mapping {P E} (op : P -> P * res E ParentMapping) (l : Ledger P) : Ledger P * res E ParentMapping :=
  match op (under l) with
  | (p, Ok m) =>
      let b := books l in
      (mkLedger p (mkBooks (live b) (m :: mapped b) (placed b) (created b) (ended b) (started b) (stray b) (sent b)), Ok m)
  | (p, r) => (mkLedger p (books l), r)
  end.

(** The new process takes the bootstrap channel with it; INIT takes the handles
    it transfers. *)
#[global] Program Instance ledger_platform {P E} `{!LoaderPlatform P E} : LoaderPlatform (Ledger P) E := {
  channel_create l rights := enter (fun ends => acquire {[+ ends.1; ends.2 +]}) (fun p => channel_create p rights) l;
  duplicate l h rights := enter (fun h' => acquire {[+ h' +]}) (fun p => duplicate p h rights) l;
  close l h := enter (fun _ => dispose {[+ h +]}) (fun p => close p h) l;
  process_create l r :=
    enter (fun c b => create_child (acquire {[+ process c; root c +]} (dispose {[+ bootstrap_channel r +]} b))) (fun p => process_create p r) l;
  memory_create l bytes rights := enter (fun h => acquire {[+ h +]}) (fun p => memory_create p bytes rights) l;
  materialize_parent_with l parent_root memory size offset n f :=
    enter_mapping (fun p => materialize_parent_with p parent_root memory size offset n f) l;
  unmap_parent l parent_root m :=
    enter (fun _ b => mkBooks (live b) (list_difference (mapped b) [m]) (placed b) (created b) (ended b) (started b) (stray b) (sent b))
      (fun p => unmap_parent p parent_root m) l;
  map_child l child_root memory address bytes protection :=
    enter (fun _ b => mkBooks (live b) (mapped b) ({[+ (address, bytes) +]} ⊎ placed b) (created b) (ended b) (started b) (stray b) (sent b))
      (fun p => map_child p child_root memory address bytes protection) l;
  unmap_child l child_root address bytes :=
    enter (fun _ b => mkBooks (live b) (mapped b) (placed b ∖ {[+ (address, bytes) +]}) (created b) (ended b) (started b) (stray b) (sent b))
      (fun p => unmap_child p child_root address bytes) l;
  thread_create l process_ rights := enter (fun h => acquire {[+ h +]}) (fun p => thread_create p process_ rights) l;
  send_init l channel bytes transfers :=
    enter (fun _ b =>
        let b := dispose (list_to_set_disj (map x_handle transfers)) b in
        mkBooks (live b) (mapped b) (placed b) (created b) (ended b) (started b) (stray b) (Some (bytes, transfers)))
      (fun p => send_init p channel bytes transfers) l;
  thread_start l thread entry stack_pointer argument abi :=
    enter (fun _ b => mkBooks (live b) (mapped b) (placed b) (created b) (ended b) true (stray b) (sent b))
      (fun p => thread_start p thread entry stack_pointer argument abi) l;
  thread_terminate l thread := enter (fun _ => end_child) (fun p => thread_terminate p thread) l;
  process_terminate l process_ := enter (fun _ => end_child) (fun p => process_terminate p process_) l }.
Next Obligation.
  intros P E H l parent_root memory size offset n f Hf. unfold enter_mapping.
  pose proof (materialize_returns (under l) parent_root memory size offset n f Hf) as Hr.
  by destruct (materialize_parent_with (under l) parent_root memory size offset n f) as [p [m|e|]].
Qed.

Section custody.
Context {abi : Abi} {pabi : ProcessAbi} {P E : Type} {platform : LoaderPlatform P E}.
Abbreviation L := (Loader (P := Ledger P)).
Implicit Types (s : L) (b : Books) (t : Transaction).

Definition books_of (s : L) : Books := books (plat s).
(** The state after a call, with new books. *)
Definition after (s : L) (p : P) (b : Books) : L := mkLoader (mkLedger p b) (tx s) (consumed s).

(** ** Rules for the calls *)

Lemma wp_is_err {X A} (f : A -> Books -> Books) (op : P -> P * (E + A)) (Q : bool -> L -> Prop) (R : X -> L -> Prop) s :
  (forall p, Q true (after s p (books_of s))) -> (forall p a, Q false (after s p (f a (books_of s)))) ->
  wp (is_err (fun l => enter f op l)) Q R s.
Proof. intros H1 H2. unfold wp, is_err, enter. destruct (op (under (plat s))) as [p [e|a]]; [apply H1 | apply H2]. Qed.

Lemma wp_set_tx {X} f (Q : unit -> L -> Prop) (R : X -> L -> Prop) s :
  Q tt (mkLoader (plat s) (f (tx s)) (consumed s)) -> wp (set_tx f) Q R s.
Proof. done. Qed.

Lemma wp_lift {X A} (c : res X A) f (Q : A -> L -> Prop) (R : LoadError E -> L -> Prop) s :
  c <> Panic -> (forall a, c = Ok a -> Q a s) -> (forall e, c = Err e -> R (f e) s) -> wp (lift c f) Q R s.
Proof. unfold wp, lift. destruct c; auto. Qed.

(** ** Handles held by the transaction *)

Definition mopt (o : option Z) : gmultiset Z := match o with Some h => {[+ h +]} | None => ∅ end.

Definition mopts (hs : list (option Z)) : gmultiset Z := foldr (fun o m => mopt o ⊎ m) ∅ hs.

(** In the order of the rollback. *)
Definition held (t : Transaction) : gmultiset Z :=
  mopts [t_thread t; t_root t; t_process t; scratch_memory t; delegated_task_group t; delegated_resource_domain t;
         delegated_bootfs t; child_endpoint t; broad_parent t; parent_channel t].

Lemma mopts_nil : mopts [] = ∅.
Proof. done. Qed.

Lemma mopts_cons o hs : mopts (o :: hs) = mopt o ⊎ mopts hs.
Proof. done. Qed.

Lemma mopts_app hs ks : mopts (hs ++ ks) = mopts hs ⊎ mopts ks.
Proof.
  induction hs as [|o hs IH]; cbn [app]; [by rewrite mopts_nil, (left_id_L ∅ (⊎))|].
  rewrite !mopts_cons, IH. apply (assoc_L (⊎)).
Qed.

Lemma mopts_none hs : Forall (fun o => o = None) hs -> mopts hs = ∅.
Proof. induction 1 as [|o hs -> _ IH]; [done|]. rewrite mopts_cons, IH. cbn [mopt]. by rewrite (left_id_L ∅ (⊎)). Qed.

Definition pair_of (r : Range) : Z * Z := (r_address r, r_bytes r).
Definition child_ranges (t : Transaction) : gmultiset (Z * Z) :=
  list_to_set_disj (pair_of <$> take (range_count t) (ranges t)).

Section rest.
(** What of the caller's handles is still in the books, and the books before the
    rollback. *)
Context (rest : gmultiset Z) (b0 : Books).

(** The books agree with the transaction. *)
Record owns (t : Transaction) (b : Books) : Prop := mkOwns {
  o_live : live b = held t ⊎ rest;
  o_mapped : mapped b = option_list (parent_mapping t);
  o_placed : is_Some (t_root t) -> placed b = child_ranges t;
  o_room : (range_count t <= length (ranges t))%nat;
  o_lent : Forall (fun o => o = None) (delegated_channels t) /\ delegated_manifest t = None;
  o_stray : stray b = false;
  o_created : created b = bool_decide (is_Some (t_process t));
  o_ended : ended b = false;
  o_root : sent b = None -> created b = true -> is_Some (t_root t);
  o_none : created b = false -> placed b = ∅ }.

(** During a rollback: [todo] is still to be closed and what failed so far is
    left; when nothing failed, [K] holds of the mappings; the child has ended if
    [en] says so. *)
Record rolling (flag en : bool) (K : list ParentMapping -> gmultiset (Z * Z) -> Prop) (todo : gmultiset Z) (failed : bool)
    (s : L) : Prop := mkRolling {
  r_live : exists left, live (books_of s) = left ⊎ todo ⊎ rest /\ (failed = false -> left = ∅);
  r_kept : failed = false -> K (mapped (books_of s)) (placed (books_of s));
  r_ended : en = true -> ended (books_of s) = true;
  r_stray : stray (books_of s) = false;
  r_log : created (books_of s) = created b0 /\ sent (books_of s) = sent b0;
  r_flag : consumed s = flag }.

Lemma rolling_close flag en K h todo failed s p :
  rolling flag en K ({[+ h +]} ⊎ todo) failed s ->
  rolling flag en K todo true (after s p (books_of s)) /\
  rolling flag en K todo failed (after s p (dispose {[+ h +]} (books_of s))).
Proof.
  intros [(left & Hl & Hf) Hk He Hs Hlog Hc]. split; split; try done; cbn.
  - exists (left ⊎ {[+ h +]}). rewrite Hl. split; [multiset_solver | done].
  - exists left. rewrite Hl. split; [multiset_solver | done].
  - rewrite Hs. cbn. apply negb_false_iff, bool_decide_eq_true. rewrite Hl. multiset_solver.
Qed.

Lemma rolling_failed flag en K todo failed s : rolling flag en K todo failed s -> rolling flag en K todo (failed || true) s.
Proof. intros [(left & Hl & Hf) Hk He Hs Hlog Hc]. rewrite orb_true_r. split; try done. by exists left. Qed.

(** Only the books matter. *)
Lemma rolling_tx flag en K todo failed s t :
  rolling flag en K todo failed s -> rolling flag en K todo failed (mkLoader (plat s) t (consumed s)).
Proof. by intros []. Qed.

Lemma close_spec {X} flag en K h todo failed s :
  rolling flag en K ({[+ h +]} ⊎ todo) failed s ->
  wp (is_err (fun p => close p h)) (fun f => rolling flag en K todo (failed || f)) (fun (_ : X) _ => False) s.
Proof.
  intros Hr. apply wp_is_err; intros p; [|intros _]; destruct (rolling_close _ _ _ _ _ _ _ p Hr) as [H1 H2].
  - by rewrite orb_true_r.
  - by rewrite orb_false_r.
Qed.

Lemma close_opt_spec {X} flag en K o todo failed s :
  rolling flag en K (mopt o ⊎ todo) failed s ->
  wp (match o with Some h => is_err (fun p => close p h) | None => mret false end)
    (fun f => rolling flag en K todo (failed || f)) (fun (_ : X) _ => False) s.
Proof.
  destruct o as [h|]; [apply close_spec|]. cbn [mopt]. rewrite (left_id_L ∅ (⊎)). intros Hr. apply wp_ret. by rewrite orb_false_r.
Qed.

Lemma close_all_spec {X} flag en K hs : forall todo failed s,
  rolling flag en K (mopts hs ⊎ todo) failed s ->
  wp (close_all hs) (fun f => rolling flag en K todo (failed || f)) (fun (_ : X) _ => False) s.
Proof.
  induction hs as [|[h|] hs IH]; intros todo failed s Hr; cbn [close_all mopts foldr mopt] in *.
  - rewrite (left_id_L ∅ (⊎)) in Hr. apply wp_ret. by rewrite orb_false_r.
  - rewrite <- (assoc_L (⊎)) in Hr. wp_step. eapply wp_mono; [by apply close_spec | | done]. intros f s' Hf.
    wp_step. eapply wp_mono; [apply (IH todo), Hf | | done]. intros f' s'' Hf'. apply wp_ret. by rewrite orb_assoc.
  - rewrite (left_id_L ∅ (⊎)) in Hr. by apply IH.
Qed.

Definition range_set (rs : list Range) : gmultiset (Z * Z) := list_to_set_disj (pair_of <$> rs).

Lemma unmap_ranges_spec {X} flag en root rs count : forall todo failed s,
  ranges (tx s) = rs -> (count <= length rs)%nat ->
  rolling flag en (fun m pl => m = [] /\ pl = range_set (take count rs)) todo failed s ->
  wp (unmap_ranges root count) (fun f => rolling flag en (fun m pl => m = [] /\ pl = ∅) todo (failed || f))
    (fun (_ : X) _ => False) s.
Proof.
  induction count as [|count IH]; intros todo failed s Hrs Hn Hr; cbn [unmap_ranges].
  { apply wp_ret. by rewrite orb_false_r. }
  wp_step. apply wp_set_tx. wp_step. apply wp_gets. cbn [tx set_range_count ranges]. rewrite Hrs.
  destruct (lookup_lt_is_Some_2 rs count) as [r Hlook]; [lia|]. rewrite Hlook.
  rewrite (take_S_r _ _ _ Hlook) in Hr. destruct Hr as [Hl Hk He Hs Hlog Hc].
  wp_step. apply wp_is_err; intros p; [|intros _]; wp_step.
  - eapply wp_mono; [apply (IH todo true) | | done].
    + done.
    + lia.
    + split; try done. destruct Hl as (left & Hl & _). by exists left.
    + intros f s' Hf. apply wp_ret. by rewrite !orb_true_r.
  - eapply wp_mono; [apply (IH todo failed) | | done].
    + done.
    + lia.
    + split; try done. intros Hf. destruct (Hk Hf) as [Hm Hp]. split; [done|]. change (placed (books_of s) ∖ {[+ pair_of r +]} = range_set (take count rs)). rewrite Hp.
      unfold range_set. rewrite fmap_app, list_to_set_disj_app. cbn [fmap list_fmap list_to_set_disj]. multiset_solver.
    + intros f s' Hf. by apply wp_ret.
Qed.

(** ** Rollback *)

Lemma rolling_en flag en en' K todo failed s :
  rolling flag en K todo failed s -> (en' = true -> ended (books_of s) = true) -> rolling flag en' K todo failed s.
Proof. by intros [] ?. Qed.

Lemma rolling_K flag en K K' todo failed s :
  rolling flag en K todo failed s -> (forall m pl, K m pl -> K' m pl) -> rolling flag en K' todo failed s.
Proof. intros [] ?. split; auto. Qed.

(** A call that only ends the child. *)
Lemma terminate_spec {X} (op : P -> P * (E + unit)) flag en K todo failed s :
  rolling flag en K todo failed s ->
  wp (is_err (enter (fun _ => end_child) op)) (fun refused s' => rolling flag (negb refused || en) K todo failed s')
    (fun (_ : X) _ => False) s.
Proof. intros []. apply (wp_is_err (fun _ => end_child)); intros; by split. Qed.

Lemma unmap_parent_spec {X} t s :
  owns t (books_of s) -> books_of s = b0 ->
  wp (match parent_mapping t with Some m => is_err (fun p => unmap_parent p (t_parent_root t) m) | None => mret false end)
    (fun f s' => rolling (consumed s) false (fun m pl => m = [] /\ pl = placed b0)
       (held t) f s' /\ tx s' = tx s) (fun (_ : X) _ => False) s.
Proof.
  intros [Hl Hm Hp Hr [Hc Hd] Hs _ _ _ _] Hb0.
  assert (Hlive : exists left, live (books_of s) = left ⊎ held t ⊎ rest /\ left = ∅)
    by (exists ∅; by rewrite Hl, (left_id_L ∅ (⊎))).
  destruct Hlive as (left & Hlive & Hleft). destruct (parent_mapping t) as [m|] eqn:Em.
  - apply wp_is_err; intros p; [|intros _]; (split; [|done]); split; try done; try (by exists left); try (by rewrite <- Hb0).
    intros _. cbn. rewrite Hm. cbn. rewrite <- Hb0. destruct (decide_rel (∈) m [m]) as [|Hn]; [done | exfalso; apply Hn; constructor].
  - apply wp_ret. split; [|done]. split; try done; [by exists left | by rewrite <- Hb0 | by rewrite <- Hb0].
Qed.

Lemma thread_spec {X} o flag K todo failed s :
  rolling flag false K (mopt o ⊎ todo) failed s ->
  wp (match o with
      | Some thread =>
          refused ← is_err (fun p => thread_terminate p thread);
          failed ← is_err (fun p => close p thread);
          mret (Some (negb refused), failed)
      | None => mret (None, false)
      end) (fun r s' => rolling flag (bool_decide (r.1 = Some true)) K todo (failed || r.2) s') (fun (_ : X) _ => False) s.
Proof.
  intros Hr. destruct o as [h|].
  - wp_step. eapply wp_mono; [apply terminate_spec, Hr | | done]. intros refused s1 H1. cbv beta in H1. rewrite orb_false_r in H1.
    wp_step. eapply wp_mono; [apply close_spec, H1 | | done]. intros f s2 H2. apply wp_ret. by destruct refused.
  - apply wp_ret. cbn [mopt] in Hr. rewrite (left_id_L ∅ (⊎)) in Hr. cbn. by rewrite orb_false_r.
Qed.

Lemma process_spec {X} o ended_already flag K todo failed s :
  rolling flag ended_already K (mopt o ⊎ todo) failed s ->
  wp (match o with
      | Some process =>
          terminated ← (if ended_already then mret true
                        else refused ← is_err (fun p => process_terminate p process); mret (negb refused));
          failed ← is_err (fun p => close p process);
          mret (negb terminated || failed)
      | None => mret false
      end)
    (fun f s' => exists en, rolling flag en K todo (failed || f) s' /\ (f = false -> is_Some o -> en = true))
    (fun (_ : X) _ => False) s.
Proof.
  intros Hr. destruct o as [h|].
  2: { apply wp_ret. exists ended_already. cbn [mopt] in Hr. rewrite (left_id_L ∅ (⊎)) in Hr. rewrite orb_false_r.
       split; [done | by intros _ []]. }
  wp_step. destruct ended_already.
  - apply wp_ret. wp_step. eapply wp_mono; [apply close_spec, Hr | | done]. intros f s2 H2. apply wp_ret. by exists true.
  - wp_step. eapply wp_mono; [apply terminate_spec, Hr | | done]. intros refused s1 H1. cbv beta in H1. rewrite orb_false_r in H1.
    apply wp_ret. wp_step. eapply wp_mono; [apply close_spec, H1 | | done]. intros f s2 H2. apply wp_ret.
    exists (negb refused). destruct refused; cbn in *; [|by destruct f].
    split; [|done]. destruct H2 as [(left & Hl & _) _ _ ? ? ?]. rewrite orb_true_r. split; try done. by exists left.
Qed.

(** What a failed load leaves, [failed] telling whether its rollback did. *)
Record aborted (flag failed : bool) (s : L) : Prop := mkAborted {
  u_live : exists left, live (books_of s) = left ⊎ rest /\ (failed = false -> left = ∅);
  u_mapped : failed = false -> mapped (books_of s) = [];
  u_placed : failed = false -> sent (books_of s) = None -> placed (books_of s) = ∅;
  u_ended : failed = false -> created (books_of s) = true -> ended (books_of s) = true;
  u_stray : stray (books_of s) = false;
  u_flag : consumed s = flag }.

Lemma unmap_child_spec {X} t flag todo failed s :
  owns t b0 -> ranges (tx s) = ranges t ->
  rolling flag false (fun m pl => m = [] /\ pl = placed b0) todo failed s ->
  wp (match t_root t with Some root => unmap_ranges root (range_count t) | None => mret false end)
    (fun f => rolling flag false (fun m pl => m = [] /\ pl = if t_root t then ∅ else placed b0) todo (failed || f))
    (fun (_ : X) _ => False) s.
Proof.
  intros Ho Hrs Hr. pose proof (o_placed _ _ Ho) as Hp. destruct (t_root t) as [root|].
  - eapply unmap_ranges_spec; [exact Hrs | apply Ho |]. eapply rolling_K; [exact Hr|].
    intros m pl [? ->]. split; [done | by apply Hp].
  - apply wp_ret. rewrite orb_false_r. exact Hr.
Qed.
End rest.

Lemma rollback_spec {X} rest s :
  owns rest (tx s) (books_of s) ->
  wp rollback (aborted rest (consumed s)) (fun (_ : X) _ => False) s.
Proof.
  intros Ho. unfold rollback. wp_step. apply wp_gets. wp_step. apply wp_set_tx. wp_step.
  set (t := tx s) in *. set (b0 := books_of s) in *. destruct (o_lent _ _ _ Ho) as [Hch Hman].
  eapply wp_mono; [by apply (unmap_parent_spec rest b0 t) | | done]. cbn [consumed tx]. intros f1 s1 [H1 Ht1].
  wp_step. apply wp_set_tx. wp_step.
  eapply wp_mono; [apply (unmap_child_spec rest b0 t); [apply Ho | cbn [tx]; by rewrite Ht1 | by apply rolling_tx, H1] | | done].
  intros f2 s2 H2. wp_step. apply wp_set_tx. wp_step. unfold held in H2. rewrite mopts_cons in H2.
  eapply wp_mono; [apply thread_spec, rolling_tx, H2 | | done]. intros [tt f3] s3 H3. cbn [fst snd] in H3.
  wp_step. rewrite mopts_cons in H3. eapply wp_mono; [apply close_opt_spec, H3 | | done]. intros f4 s4 H4. cbv beta in H4.
  wp_step. apply wp_set_tx. wp_step. rewrite mopts_cons in H4.
  eapply wp_mono; [apply process_spec, rolling_tx, H4 | | done]. intros f5 s5 (en & H5 & Hen).
  wp_step. apply wp_set_tx. wp_step.
  change (mopts _) with (mopts ([scratch_memory t; delegated_task_group t; delegated_resource_domain t; delegated_bootfs t]
    ++ [child_endpoint t; broad_parent t; parent_channel t])) in H5. rewrite mopts_app in H5.
  eapply wp_mono; [apply close_all_spec, rolling_tx, H5 | | done]. intros f6 s6 H6.
  wp_step. apply wp_set_tx. wp_step.
  eapply wp_mono; [eapply (close_all_spec _ _ _ _ _ _ (mopts [child_endpoint t; broad_parent t; parent_channel t])), rolling_tx | | done].
  { rewrite (mopts_none (delegated_channels t)) by done. rewrite (left_id_L ∅ (⊎)). exact H6. }
  intros f7 s7 H7. wp_step. apply wp_set_tx. wp_step.
  eapply wp_mono; [eapply (close_all_spec _ _ _ _ _ _ ∅), rolling_tx | | done].
  { rewrite mopts_cons, Hman, (right_id_L ∅ (⊎)). cbn [mopt]. rewrite (left_id_L ∅ (⊎)). exact H7. }
  intros f8 s8 [(left & Hl & Hleft) Hk He Hs [Hc1 Hc2] Hc]. apply wp_ret. rewrite (right_id_L ∅ (⊎)) in Hl.
  destruct Ho as [_ _ _ _ _ _ Ocreated _ Oroot Onone].
  split; try done.
  - by exists left.
  - intros Hf. by apply Hk.
  - intros Hf Hsent. destruct (Hk Hf) as [_ ->]. rewrite Hc2 in Hsent. destruct (created b0) eqn:Ec.
    + by destruct (Oroot Hsent eq_refl) as [? ->].
    + rewrite (Onone eq_refl). by destruct (t_root t).
  - intros Hf Hcr. rewrite Hc1, Ocreated in Hcr. apply He, Hen; [by destruct f1, f2, f3, f4, f5 | by apply bool_decide_eq_true in Hcr].
Qed.

(** ** Forward *)

Ltac fields := cbn [t_parent_root broad_parent child_endpoint parent_channel t_process t_root t_thread scratch_memory
  parent_mapping delegated_bootfs delegated_task_group delegated_resource_domain delegated_channels delegated_manifest
  ranges range_count set_broad_parent set_child_endpoint set_parent_channel set_process set_root set_thread
  set_scratch_memory set_parent_mapping set_delegated_bootfs set_delegated_task_group set_delegated_resource_domain
  set_delegated_channels set_delegated_manifest set_ranges set_range_count transaction_new forget_lent
  plat tx consumed books under after books_of live mapped placed created ended started stray sent acquire dispose
  create_child end_child option_list from_option] in *.
(** Handles of a transaction as a sum. *)
Ltac handles := unfold held, mopts, child_ranges in *; cbn [foldr mopt] in *; fields.

Section load.
(** What the caller lent; whether the request fails the tests made at once; and what
    a load leaves behind when it finds out late that the resource domain is missing. *)
Context (lent : gmultiset Z) (early : Prop) (orphan : L -> Prop).
Definition start_books : Books := mkBooks lent [] ∅ false false false false None.

Definition rest_of (flag : bool) : gmultiset Z := if flag then ∅ else lent.

Definition untouched (s : L) : Prop := books_of s = start_books /\ consumed s = false.

(** The end of a load that fails: nothing happened, or all of it was undone, but for
    the missing resource domain. *)
Definition settled (e : LoadError E) (s : L) : Prop :=
  match e with
  | PlatformFailed _ _ failed => aborted (rest_of (consumed s)) (consumed s) failed s
  | LaunchFailed HandleCount => early /\ untouched s \/ orphan s
  | _ => untouched s
  end.

Definition inv (s : L) : Prop := owns (rest_of (consumed s)) (tx s) (books_of s).

Lemma fail_spec {A} stage cause (Q : A -> L -> Prop) s : inv s -> wp (fail stage cause) Q settled s.
Proof.
  intros Hi. unfold fail. wp_step. eapply wp_mono; [apply rollback_spec, Hi | | done]. intros f s' Hu. apply wp_throw.
  unfold settled. by rewrite (u_flag _ _ _ _ Hu).
Qed.

Lemma wp_attempt {A} stage (f : A -> Books -> Books) (op : P -> P * (E + A)) (Q : A -> L -> Prop) s :
  inv s -> (forall p a, Q a (after s p (f a (books_of s)))) -> wp (attempt stage (enter f op)) Q settled s.
Proof.
  intros Hi HQ. unfold wp, attempt, enter. destruct (op (under (plat s))) as [p [cause|a]]; [|apply HQ].
  by apply (fail_spec stage cause Q (after s p (books_of s))).
Qed.

Lemma wp_materialize (op : P -> P * res E ParentMapping) (Q : ParentMapping -> L -> Prop) s :
  inv s -> (op (under (plat s))).2 <> Panic ->
  (forall p m, Q m (after s p (let b := books_of s in
     mkBooks (live b) (m :: mapped b) (placed b) (created b) (ended b) (started b) (stray b) (sent b)))) ->
  wp (attempt_materialize (enter_mapping op)) Q settled s.
Proof.
  intros Hi Hn HQ. unfold wp, attempt_materialize, enter_mapping.
  destruct (op (under (plat s))) as [p [m|cause|]]; [apply HQ | | done].
  by apply (fail_spec ParentMaterialize cause Q (after s p (books_of s))).
Qed.

(** While the child is built: nothing of the caller's has moved. *)
Record building (t : Transaction) (s : L) : Prop := mkBuilding {
  g_tx : tx s = t;
  g_owns : owns lent t (books_of s);
  g_sent : sent (books_of s) = None;
  g_flag : consumed s = false }.

Lemma building_inv t s : building t s -> inv s.
Proof. intros [<- Ho _ Hf]. unfold inv, rest_of. by rewrite Hf. Qed.

(** The state after a call and an assignment. *)
Lemma building_step t s p b t' :
  building t s -> owns lent t' b -> sent b = None -> building t' (mkLoader (mkLedger p b) t' (consumed s)).
Proof. by intros [_ _ _ Hf] ? ?. Qed.

Lemma take_put_range (rs rs' : list Range) (n : nat) r :
  put_range rs (Z.of_nat n) [r] = Some rs' ->
  length rs' = length rs /\ (n < length rs)%nat /\ range_set (take (S n) rs') = {[+ pair_of r +]} ⊎ range_set (take n rs).
Proof.
  intros Hp. pose proof (length_put_range _ _ _ _ Hp) as Hl.
  apply put_range_Some in Hp as (Hn & Hlen & ->). cbn [length] in Hlen. split_conj; [done | lia |].
  rewrite Nat2Z.id, app_assoc, take_app_length' by (rewrite length_app, length_take; cbn; lia).
  unfold range_set. rewrite fmap_app, list_to_set_disj_app. cbn [fmap list_fmap list_to_set_disj]. multiset_solver.
Qed.

Lemma owns_unmap rest m t b :
  owns rest (set_parent_mapping (Some m) t) b ->
  owns rest (set_parent_mapping None t)
    (mkBooks (live b) (list_difference (mapped b) [m]) (placed b) (created b) (ended b) (started b) (stray b) (sent b)).
Proof.
  intros []. split; try done. fields. rewrite o_mapped0. cbn.
  destruct (decide_rel (∈) m [m]) as [|Hn]; [done | exfalso; apply Hn; constructor].
Qed.

Lemma owns_mapped rest address bytes rs t b :
  put_range (ranges t) (Z.of_nat (range_count t)) [mkRange address bytes] = Some rs ->
  owns rest t b -> is_Some (t_root t) -> is_Some (t_process t) ->
  owns rest (set_range_count (S (range_count t)) (set_ranges rs t))
    (mkBooks (live b) (mapped b) ({[+ (address, bytes) +]} ⊎ placed b) (created b) (ended b) (started b) (stray b) (sent b)).
Proof.
  intros (Hl & Hn & Hset)%take_put_range [] Hr Hp. split; fields; try done; [| lia |].
  - intros _. change (child_ranges _) with (range_set (take (S (range_count t)) rs)). by rewrite Hset, (o_placed0 Hr).
  - rewrite o_created0, bool_decide_true; done.
Qed.

(** A call that takes a handle out of a field. *)
Lemma owns_gone rest h t b t' :
  owns rest t b -> held t = {[+ h +]} ⊎ held t' -> t' = set_scratch_memory None t \/ t' = set_broad_parent None t ->
  owns rest t' (dispose {[+ h +]} b).
Proof.
  intros [] Hh Ht. assert (Hsub : {[+ h +]} ⊆ live b) by (rewrite o_live0, Hh; multiset_solver).
  assert (Hl : live b ∖ {[+ h +]} = held t' ⊎ rest) by (rewrite o_live0, Hh; multiset_solver).
  destruct Ht as [-> | ->]; split; fields; try done; by rewrite o_stray0, bool_decide_true.
Qed.

Lemma held_scratch t h : scratch_memory t = Some h -> held t = {[+ h +]} ⊎ held (set_scratch_memory None t).
Proof. intros Hs. unfold held. fields. rewrite !mopts_cons, Hs. cbn [mopt]. multiset_solver. Qed.

Lemma hand_over_spec parent_root child_root memory mapping address bytes protection t s :
  scratch_memory t = Some memory -> parent_mapping t = None -> is_Some (t_root t) -> is_Some (t_process t) ->
  (range_count t < length (ranges t))%nat ->
  tx s = t -> owns lent (set_parent_mapping (Some mapping) t) (books_of s) -> sent (books_of s) = None -> consumed s = false ->
  wp (hand_over parent_root child_root memory mapping address bytes protection)
    (fun _ s' => exists rs, length rs = length (ranges t) /\
       building (set_scratch_memory None (set_range_count (S (range_count t)) (set_ranges rs t))) s') settled s.
Proof.
  intros Hsm Hpm Hroot Hproc Hn Htx Ho Hsent Hflag. unfold hand_over.
  wp_step. apply wp_set_tx. rewrite Htx.
  wp_step. apply wp_attempt; [unfold inv, rest_of; fields; by rewrite Hflag|]. intros p1 [].
  apply owns_unmap in Ho. assert (set_parent_mapping None t = t) as Ht by (destruct t; cbn in *; by subst). rewrite Ht in Ho.
  wp_step. apply wp_set_tx. fields. change (set_parent_mapping None (set_parent_mapping (Some mapping) t)) with (set_parent_mapping None t).
  rewrite Ht. wp_step. apply wp_attempt; [unfold inv, rest_of; fields; by rewrite Hflag|]. intros p2 [].
  wp_step. apply wp_gets. fields. wp_step.
  assert (is_Some (put_range (ranges t) (Z.of_nat (range_count t)) [mkRange address bytes])) as [rs Hrs]
    by (apply put_range_is_Some; cbn; lia).
  rewrite Hrs. apply wp_lift; [done | | done]. intros a [= <-]. wp_step. apply wp_set_tx. wp_step. apply wp_set_tx. fields.
  eapply owns_mapped in Ho; [| exact Hrs | done | done].
  wp_step. apply wp_attempt; [unfold inv, rest_of; fields; by rewrite Hflag|]. intros p3 [].
  apply wp_set_tx. fields. exists rs. split; [by apply (length_put_range _ _ _ _ Hrs)|]. split; try done. fields.
  eapply owns_gone; [exact Ho | by apply held_scratch | by left].
Qed.

(** ** Segments and stack *)

(** A transaction whose child exists and that holds no memory object. *)
Definition child_ready (t : Transaction) : Prop :=
  scratch_memory t = None /\ parent_mapping t = None /\ is_Some (t_root t) /\ is_Some (t_process t).

Lemma held_new_scratch t h : scratch_memory t = None -> held (set_scratch_memory (Some h) t) = {[+ h +]} ⊎ held t.
Proof. intros Hs. unfold held. fields. rewrite !mopts_cons, Hs. cbn [mopt]. multiset_solver. Qed.

Lemma owns_scratch rest t b h :
  scratch_memory t = None -> owns rest t b -> owns rest (set_scratch_memory (Some h) t) (acquire {[+ h +]} b).
Proof.
  intros Hs []. split; try done. fields. rewrite held_new_scratch, o_live0 by done. multiset_solver.
Qed.

(** A mapping enters the books and its field. *)
Lemma owns_mapping rest t b m :
  parent_mapping t = None -> owns rest t b ->
  owns rest (set_parent_mapping (Some m) t)
    (mkBooks (live b) (m :: mapped b) (placed b) (created b) (ended b) (started b) (stray b) (sent b)).
Proof. intros Hm []. split; try done. fields. by rewrite o_mapped0, Hm. Qed.

Lemma create_spec {A} size t s (k : Z -> SM L (LoadError E) A) Q :
  building t s -> scratch_memory t = None ->
  (forall memory s', building (set_scratch_memory (Some memory) t) s' -> wp (k memory) Q settled s') ->
  wp (memory ← attempt MemoryCreate (fun p => memory_create p size MEMORY_RIGHTS);
      _ ← set_tx (set_scratch_memory (Some memory)); k memory) Q settled s.
Proof.
  intros Hb Hs HQ. pose proof Hb as [Htx Ho Hsent Hflag].
  wp_step. apply wp_attempt; [by apply (building_inv t)|]. intros p1 memory. wp_step. apply wp_set_tx. fields. rewrite Htx.
  apply HQ. split; try done. by apply owns_scratch.
Qed.

Lemma fill_spec (op : P -> P * res E ParentMapping) t s parent_root child_root memory address bytes protection Q :
  building t s -> (op (under (plat s))).2 <> Panic ->
  scratch_memory t = Some memory -> parent_mapping t = None -> is_Some (t_root t) -> is_Some (t_process t) ->
  (range_count t < length (ranges t))%nat ->
  (forall rs s', length rs = length (ranges t) ->
     building (set_scratch_memory None (set_range_count (S (range_count t)) (set_ranges rs t))) s' -> Q tt s') ->
  wp (attempt_materialize (enter_mapping op))
    (fun mapping => wp (hand_over parent_root child_root memory mapping address bytes protection) Q settled) settled s.
Proof.
  intros Hb Hop Hs Hm Hr Hp Hn HQ. pose proof Hb as [Htx Ho Hsent Hflag].
  apply wp_materialize; [by apply (building_inv t) | done |]. intros p2 m.
  eapply owns_mapping in Ho; [|done]. eapply wp_mono; [apply (hand_over_spec _ _ memory m _ _ _ t); first [done | exact Ho] | | done].
  intros [] s' (rs & Hrs & Hb'). by apply (HQ rs).
Qed.

Lemma materialize_parent_np (q : P) parent_root memory size offset (source : list Z) :
  (materialize_parent q parent_root memory size offset source).2 <> Panic.
Proof. apply materialize_returns. intros block Hl. by rewrite Hl, Z.eqb_refl. Qed.

(** The state between objects, after [n] more ranges. *)
Definition extended (t : Transaction) (n : nat) (s : L) : Prop :=
  exists rs, length rs = length (ranges t) /\ building (set_range_count (range_count t + n) (set_ranges rs t)) s.

Lemma extended_one t t' n s :
  (exists rs, length rs = length (ranges t) /\ t' = set_range_count (S (range_count t)) (set_ranges rs t)) ->
  extended t' n s -> extended t (S n) s.
Proof.
  intros (rs & Hl & ->) (rs' & Hl' & Hb). fields. exists rs'. split; [congruence|].
  by rewrite Nat.add_succ_r.
Qed.

Lemma load_segments_spec image parent_root child_root segments : forall t s,
  Forall (ElfThms.placed image) segments -> len image <= Elf.MAX_ELF_BYTES ->
  child_ready t -> (range_count t + length segments <= length (ranges t))%nat -> building t s ->
  wp (load_segments image parent_root child_root segments) (fun _ => extended t (length segments)) settled s.
Proof.
  induction segments as [|segment segments IH]; intros t s Hpl Himg (Hs & Hm & Hr & Hp) Hn Hb; cbn [load_segments length].
  { apply wp_ret. exists (ranges t). split; [done|]. rewrite Nat.add_0_r. by destruct t. }
  apply Forall_cons_iff in Hpl as [(Hf0 & Hf1 & _ & Hf2 & _) Hpl]. cbn [length] in Hn. cbv zeta.
  apply (create_spec _ t); [done | done |]. intros memory s1 Hb1.
  wp_step. cbn [Image.source_offset Image.source_size Image.from_segment].
  apply wp_lift; [apply plus_np; unfold Elf.MAX_ELF_BYTES in *; lia | | intros e He; unfold plus in He; by destruct (checked_add_u64 _ _)].
  intros source_end [-> _]%plus_Ok. wp_step.
  destruct (proj2 (get_range_is_Some image (Elf.file_offset segment) (Elf.file_offset segment + Elf.file_size segment))) as [source Hsrc];
    [lia|]. rewrite Hsrc. apply wp_lift; [done | | done]. intros source' [= <-].
  wp_step. eapply wp_mono; [| | done].
  - eapply (fill_spec _ (set_scratch_memory (Some memory) t) s1 parent_root child_root memory _ _ _
      (fun _ => wp (load_segments image parent_root child_root segments) (fun _ => extended t (S (length segments))) settled));
      try done; [apply materialize_parent_np | fields; lia |].
    intros rs s2 Hrs Hb2. eapply wp_mono; [eapply (IH _ s2 Hpl Himg); [| | exact Hb2]; fields; [by split_conj | lia] | | done].
    intros [] s3. apply extended_one. exists rs. split; [done|]. by destruct t; cbn in *; subst.
  - intros m s2 H2. cbv beta in H2. wp_step. exact H2.
Qed.

Lemma load_stack_spec parent_root child_root startup offset fault t s :
  (forall q memory, (match startup with
     | LegacyBlock block => materialize_parent q parent_root memory (Image.s_object_size Image.INITIAL_STACK) offset block
     | JobV2Block plan => materialize_parent_with q parent_root memory (Image.s_object_size Image.INITIAL_STACK) offset
         Image.STARTUP_V2_BLOCK_BYTES (fill_v2 plan fault)
     end).2 <> (Panic : res E ParentMapping)) ->
  child_ready t -> (range_count t < length (ranges t))%nat -> building t s ->
  wp (load_stack parent_root child_root startup offset fault) (fun _ => extended t 1) settled s.
Proof.
  intros Hnp (Hs & Hm & Hr & Hp) Hn Hb. unfold load_stack. cbv zeta.
  apply (create_spec _ t); [done | done |]. intros memory s1 Hb1. wp_step.
  assert (Hop : exists op, (forall q, (op q).2 <> Panic) /\ (fun p : Ledger P => match startup with
      | LegacyBlock block => materialize_parent p parent_root memory (Image.s_object_size Image.INITIAL_STACK) offset block
      | JobV2Block plan => materialize_parent_with p parent_root memory (Image.s_object_size Image.INITIAL_STACK) offset
          Image.STARTUP_V2_BLOCK_BYTES (fill_v2 plan fault)
      end) = enter_mapping op).
  { eexists. split; [intros q; apply (Hnp q memory)|]. by destruct startup. }
  destruct Hop as (op & Hop & ->).
  eapply wp_mono; [eapply (fill_spec op (set_scratch_memory (Some memory) t) s1 parent_root child_root memory _ _ _ (fun _ => extended t 1));
    try done | | done].
  - intros rs s2 Hrs Hb2. exists rs. split; [done|]. rewrite Nat.add_1_r. by destruct t; cbn in *; subst.
  - intros m s2 H2. exact H2.
Qed.

(** ** The handles INIT moves *)

(** [t'] holds [h] more than [t]. *)
Record adds (h : Z) (t t' : Transaction) : Prop := mkAdds {
  a_held : held t' = {[+ h +]} ⊎ held t;
  a_mapping : parent_mapping t' = parent_mapping t;
  a_root : t_root t' = t_root t;
  a_process : t_process t' = t_process t;
  a_ranges : ranges t' = ranges t /\ range_count t' = range_count t;
  a_lent : delegated_channels t' = delegated_channels t /\ delegated_manifest t' = delegated_manifest t }.

Lemma owns_adds rest h t t' b : adds h t t' -> owns rest t b -> owns rest t' (acquire {[+ h +]} b).
Proof.
  intros [Hh Hm Hr Hp [Hrs Hrc] [Hdc Hdm]] []. unfold child_ranges in *.
  split; unfold child_ranges; fields; rewrite ?Hm, ?Hr, ?Hp, ?Hrs, ?Hrc, ?Hdc, ?Hdm; try done.
  rewrite Hh, o_live0. multiset_solver.
Qed.

Ltac adds_field := intros ?; split; try done; unfold held; fields; rewrite ?mopts_cons; simplify_option_eq;
  repeat match goal with H : _ = None |- _ => rewrite H; clear H end; cbn [mopt]; multiset_solver.

Lemma adds_bootfs h t : delegated_bootfs t = None -> adds h t (set_delegated_bootfs (Some h) t).
Proof. adds_field. Qed.
Lemma adds_task_group h t : delegated_task_group t = None -> adds h t (set_delegated_task_group (Some h) t).
Proof. adds_field. Qed.
Lemma adds_domain h t : delegated_resource_domain t = None -> adds h t (set_delegated_resource_domain (Some h) t).
Proof. adds_field. Qed.
Lemma adds_thread h t : t_thread t = None -> adds h t (set_thread (Some h) t).
Proof. adds_field. Qed.

(** A call that creates a handle, and the assignment that records it. *)
Lemma gain_spec {A} stage (op : P -> P * (E + Z)) (f : Z -> Transaction -> Transaction) t s (k : Z -> SM L (LoadError E) A) Q :
  building t s -> (forall h, adds h t (f h t)) -> (forall h s', building (f h t) s' -> wp (k h) Q settled s') ->
  wp (h ← attempt stage (enter (fun h => acquire {[+ h +]}) op); _ ← set_tx (f h); k h) Q settled s.
Proof.
  intros Hb Hf HQ. pose proof Hb as [Htx Ho Hsent Hflag].
  wp_step. apply wp_attempt; [by apply (building_inv t)|]. intros p h. wp_step. apply wp_set_tx. fields. rewrite Htx.
  apply HQ. split; try done. by eapply owns_adds.
Qed.

Lemma delegate_spec hs : forall index s,
  0 <= index -> index + len hs <= len (delegated_channels (tx s)) ->
  wp (delegate index hs) (fun _ s' => forget_lent (tx s') = forget_lent (tx s) /\ plat s' = plat s /\ consumed s' = consumed s)
    (fun (_ : LoadError E) _ => False) s.
Proof.
  induction hs as [|h hs IH]; intros index s Hi Hn; cbn [delegate length] in *; [by apply wp_ret|].
  wp_step. apply wp_gets. wp_step.
  destruct (proj2 (put_range_is_Some (delegated_channels (tx s)) index [Some h])) as [cs Hcs]; [cbn; lia|].
  rewrite Hcs. apply wp_lift; [done | | done]. intros ? [= <-]. wp_step. apply wp_set_tx.
  pose proof (length_put_range _ _ _ _ Hcs) as Hl.
  eapply wp_mono; [apply IH; fields; lia | | done]. intros [] s' (H1 & H2 & H3). fields. split_conj; [|done..].
  rewrite H1. unfold forget_lent. fields. by rewrite Hl.
Qed.

(** What the transaction holds once INIT has moved the handles of the profile. *)
Definition moved_tx (p : LaunchProfile) (t : Transaction) : Transaction :=
  let t := if bool_decide (p = DeviceCoordinatorResourceDomain) then set_delegated_resource_domain None t else t in
  if needs_self_root p then
    let t := set_root None t in
    if has_loader_authority_trio p || has_loader_authority_quartet p
    then set_delegated_resource_domain None (set_delegated_task_group None (set_delegated_bootfs None t)) else t
  else if bool_decide (p = D6ResourceOwner) then set_delegated_resource_domain None t
  else t.

Definition delegated (t : Transaction) (bootfs task_group domain : option Z) : Transaction :=
  set_delegated_resource_domain domain (set_delegated_task_group task_group (set_delegated_bootfs bootfs t)).

(** The profiles whose request must name a resource domain. *)
Definition needs_domain (p : LaunchProfile) : bool :=
  match p with SupervisorResourceDomain | D6ResourceOwner | DeviceCoordinatorResourceDomain => true | _ => false end.

(** A request that passed the first tests. *)
Record fits (request : InternalLoadRequest) : Prop := mkFits {
  f_channels : len (channels request) = expected_channels (profile request);
  f_manifest : is_Some (device_manifest request) <-> is_coordinator (profile request) = true;
  f_lent : lent = list_to_set_disj (channels request) ⊎ mopt (device_manifest request) }.

(** Only the profiles that move a duplicate have one. *)
Definition only_moved (p : LaunchProfile) (bootfs task_group domain : option Z) : Prop :=
  (has_loader_authority_trio p || has_loader_authority_quartet p = false -> bootfs = None /\ task_group = None) /\
  (has_loader_authority_trio p || needs_domain p = false -> domain = None).

Record staged (p : LaunchProfile) (t : Transaction) (ts : list HandleTransfer) (s : L) : Prop := mkStaged {
  st_tx : exists bootfs task_group domain, forget_lent (tx s) = delegated t bootfs task_group domain /\
    only_moved p bootfs task_group domain;
  st_owns : owns lent (forget_lent (tx s)) (books_of s);
  st_moved : list_to_set_disj (map x_handle ts) ⊎ held (moved_tx p (forget_lent (tx s))) = held (forget_lent (tx s)) ⊎ lent;
  st_rights : Forall2 (fun g x => requested_rights x = g.2 /\ x_operation x = DW_HANDLE_TRANSFER_MOVE) (grants p) ts;
  st_sent : sent (books_of s) = None;
  st_flag : consumed s = false }.

(** Before the lent endpoints are recorded. *)
Definition fresh (t : Transaction) (child_root : Z) : Prop :=
  t_root t = Some child_root /\ delegated_bootfs t = None /\ delegated_task_group t = None /\
  delegated_resource_domain t = None /\ delegated_channels t = replicate 6 None /\ delegated_manifest t = None.

(** The end of a branch: [s'] is [s] with the lent endpoints recorded. *)
Lemma staged_ret p child_root t bootfs task_group domain ts s s' :
  fresh t child_root -> only_moved p bootfs task_group domain -> building (delegated t bootfs task_group domain) s ->
  forget_lent (tx s') = forget_lent (tx s) -> plat s' = plat s -> consumed s' = consumed s ->
  list_to_set_disj (map x_handle ts) ⊎ held (moved_tx p (delegated t bootfs task_group domain))
    = held (delegated t bootfs task_group domain) ⊎ lent ->
  Forall2 (fun g x => requested_rights x = g.2 /\ x_operation x = DW_HANDLE_TRANSFER_MOVE) (grants p) ts ->
  wp (mret ts) (staged p t) settled s'.
Proof.
  intros (_ & _ & _ & _ & Hdc & Hdm) Honly [Htx Ho Hs Hf] Ht Hp Hc Hm Hr. apply wp_ret.
  assert (forget_lent (tx s') = delegated t bootfs task_group domain) as Hforget
    by (rewrite Ht, Htx; destruct t; cbn in *; by subst).
  unfold books_of in *. rewrite <- Hp in *. split; rewrite ?Hforget; try done; [by exists bootfs, task_group, domain | congruence].
Qed.

Lemma first_transfers_all n ts : Z.to_nat n = length ts -> first_transfers n ts = ts.
Proof. intros Hn. unfold first_transfers. rewrite Hn. by rewrite take_app_length. Qed.

Lemma delegated_none t :
  delegated_bootfs t = None -> delegated_task_group t = None -> delegated_resource_domain t = None -> delegated t None None None = t.
Proof. intros. destruct t; cbn in *; by subst. Qed.

(** Handles of a closed profile: split the sums. *)
Ltac moved := unfold moved_tx, delegated, held; cbn [needs_self_root has_loader_authority_trio has_loader_authority_quartet
  orb andb]; repeat match goal with |- context [bool_decide (?x = ?y :> LaunchProfile)] =>
  let v := eval vm_compute in (bool_decide (x = y)) in change (bool_decide (x = y)) with v end; cbv iota; fields.

(** Reduce the tests on a closed profile. *)
Ltac on_profile := cbn [has_loader_authority_trio has_loader_authority_quartet is_coordinator needs_self_root channel_role
    needs_domain orb andb] in *;
  repeat match goal with
  | |- context [bool_decide (?x = ?y :> LaunchProfile)] =>
      let v := eval vm_compute in (bool_decide (x = y)) in change (bool_decide (x = y)) with v
  | |- context [bool_decide (is_Some (@None ?A))] => change (bool_decide (is_Some (@None A))) with false
  | |- context [bool_decide (is_Some (@Some ?A ?x))] => change (bool_decide (is_Some (@Some A x))) with true
  end; cbv iota.

(** The sums of a branch. *)
Ltac sums := rewrite ?first_transfers_all by done; moved; rewrite !mopts_cons;
  repeat match goal with H : _ = None |- _ => rewrite H in * | H : t_root _ = Some _ |- _ => rewrite H in * end;
  cbn [map x_handle transfer child_channel list_to_set_disj mopt] in *; subst; multiset_solver.

Lemma no_lent request : fits request -> expected_channels (profile request) = 0 -> lent = ∅ /\ channels request = [].
Proof.
  intros [Hch Hman ->] He. rewrite He in Hch. destruct (channels request); [|done]. split; [|done].
  destruct (device_manifest request); [|done]. exfalso.
  assert (is_coordinator (profile request) = true) as Hc by (by apply Hman).
  by destruct (profile request).
Qed.

(** The branches, by what they move. *)
Lemma stage_nothing p t child_root s :
  fresh t child_root -> building t s -> lent = ∅ -> grants p = [] -> moved_tx p t = t ->
  wp (mret []) (staged p t) settled s.
Proof.
  intros Hfr Hb Hl Hg Hm. pose proof Hfr as (_ & ? & ? & ? & _).
  assert (delegated t None None None = t) as Hd by (by apply delegated_none).
  eapply (staged_ret p child_root t None None None [] s s); rewrite ?Hd; try done; [|by rewrite Hg].
  rewrite Hm, Hl. cbn [map list_to_set_disj]. multiset_solver.
Qed.

(** The bootfs and task-group duplicates of the loader authorities. *)
Lemma stage_authority {A} authority t child_root s (k : Z -> Z -> SM L (LoadError E) A) Q :
  fresh t child_root -> building t s ->
  (forall bootfs task_group s', building (delegated t (Some bootfs) (Some task_group) None) s' -> wp (k bootfs task_group) Q settled s') ->
  wp (bootfs ← attempt CapabilityDuplicate (fun p => duplicate p (a_bootfs authority) BOOTFS_RIGHTS);
      _ ← set_tx (set_delegated_bootfs (Some bootfs));
      task_group ← attempt CapabilityDuplicate (fun p => duplicate p (a_task_group authority) LOADER_TASK_GROUP_RIGHTS);
      _ ← set_tx (set_delegated_task_group (Some task_group));
      k bootfs task_group) Q settled s.
Proof.
  intros (_ & Hb0 & Hg0 & Hd0 & _) Hb HQ.
  apply (gain_spec _ _ (fun h => set_delegated_bootfs (Some h)) t); [done | intros; by apply adds_bootfs |]. intros bootfs s1 Hb1.
  apply (gain_spec _ _ (fun h => set_delegated_task_group (Some h)) _ _ _ _ Hb1); [intros; by apply adds_task_group |].
  intros task_group s2 Hb2. apply HQ. destruct t; cbn in *; by subst.
Qed.

(** Recording the lent channels. *)
Lemma stage_delegate {A} handles T s (k : SM L (LoadError E) A) Q :
  building T s -> delegated_channels T = replicate 6 None -> (length handles <= 6)%nat ->
  (forall s', forget_lent (tx s') = forget_lent (tx s) -> plat s' = plat s -> consumed s' = consumed s -> wp k Q settled s') ->
  wp (_ ← delegate 0 handles; k) Q settled s.
Proof.
  intros [Htx _ _ _] Hdc Hl HQ. wp_step. eapply wp_mono; [apply delegate_spec; [lia | rewrite Htx, Hdc; cbn; lia] | | done].
  intros [] s' (H1 & H2 & H3). by apply HQ.
Qed.

Lemma channel_at_spec {A} request i h (k : Z -> SM L (LoadError E) A) Q s :
  get_at (channels request) i = Some h -> wp (k h) Q settled s -> wp (c ← channel_at request i; k c) Q settled s.
Proof. intros Hg HQ. wp_step. unfold channel_at. rewrite Hg. apply wp_lift; [done | | done]. by intros ? [= <-]. Qed.

Lemma stage_channel p request t child_root s c :
  match p with BootstrapRegistry | BootstrapService | RegistryClient | LaunchClient | DeviceDriver => True | _ => False end ->
  channels request = [c] -> lent = {[+ c +]} -> fresh t child_root -> building t s ->
  wp (channel ← channel_at request 0;
      _ ← delegate 0 [channel];
      mret (first_transfers 2 [transfer child_root SELF_ROOT_RIGHTS; child_channel channel])) (staged p t) settled s.
Proof.
  intros Hp Hc Hl Hfr Hb. pose proof Hfr as (Hroot & Hb0 & Hg0 & Hd0 & Hdc & Hdm).
  apply (channel_at_spec _ _ c); [by rewrite Hc|]. apply (stage_delegate _ t); [done | done | cbn; lia |].
  intros s' Ht Hpl Hcs. eapply (staged_ret _ child_root t None None None _ s); try done.
  - by rewrite delegated_none.
  - clear Hb Ht Hpl Hcs. destruct p; try done; sums.
  - rewrite first_transfers_all by done. destruct p; try done; by repeat constructor.
Qed.

Lemma one_channel request :
  fits request -> expected_channels (profile request) = 1 -> is_coordinator (profile request) = false ->
  exists c, channels request = [c] /\ lent = {[+ c +]}.
Proof.
  intros [Hch Hman ->] He Hc. rewrite He in Hch. destruct (channels request) as [|c [|]]; cbn [length] in Hch; [lia | | lia].
  exists c. split; [done|]. destruct (device_manifest request) as [m|].
  - rewrite Hc in Hman. assert (false = true) by (apply Hman; by eexists). done.
  - cbn [list_to_set_disj mopt]. multiset_solver.
Qed.

(** Every channel moved with the child's rights. *)
Lemma stage_streams p n request t child_root s :
  fresh t child_root -> building t s -> lent = list_to_set_disj (channels request) -> Z.to_nat n = length (channels request) ->
  (length (channels request) <= 6)%nat -> moved_tx p t = t ->
  length (grants p) = length (channels request) -> Forall (fun g => g.2 = CHILD_CHANNEL_RIGHTS) (grants p) ->
  wp (_ ← delegate 0 (channels request); mret (first_transfers n (map child_channel (channels request)))) (staged p t) settled s.
Proof.
  intros Hfr Hb Hl Hn Hmax Hm Hg Hr. pose proof Hfr as (Hroot & Hb0 & Hg0 & Hd0 & Hdc & Hdm).
  apply (stage_delegate _ t); [done | done | done |]. intros s' Ht Hpl Hcons.
  rewrite first_transfers_all by (by rewrite length_map).
  eapply (staged_ret _ child_root t None None None _ s); try done; rewrite ?delegated_none by done; [done | |].
  - rewrite Hm, Hl, map_map. cbn [x_handle child_channel transfer]. rewrite map_id. multiset_solver.
  - clear -Hg Hr. revert Hg. generalize (channels request) as cs.
    induction Hr as [|g gs Hg1 _ IH]; intros [|c cs] Hl; try done; constructor; [done|]. apply IH. cbn in Hl. lia.
Qed.

(** The coordinator's channel, manifest and, staged before, its domain. *)
Lemma stage_coordinator request t child_root s c manifest (domain : option Z) p :
  p = (if domain then DeviceCoordinatorResourceDomain else DeviceCoordinator) ->
  channels request = [c] -> lent = {[+ c +]} ⊎ {[+ manifest +]} -> fresh t child_root ->
  building (delegated t None None domain) s ->
  wp (channel ← channel_at request 0;
      _ ← delegate 0 [channel];
      _ ← set_tx (set_delegated_manifest (Some manifest));
      match domain with
      | Some domain =>
          mret (first_transfers 4 ([transfer child_root SELF_ROOT_RIGHTS; child_channel channel;
            transfer manifest DEVICE_MANIFEST_RIGHTS] ++ [transfer domain RESOURCE_DOMAIN_CLAIM_RIGHTS]))
      | None =>
          mret (first_transfers 3 [transfer child_root SELF_ROOT_RIGHTS; child_channel channel;
            transfer manifest DEVICE_MANIFEST_RIGHTS])
      end) (staged p t) settled s.
Proof.
  intros -> Hc Hl Hfr Hb. pose proof Hfr as (Hroot & Hb0 & Hg0 & Hd0 & Hdc & Hdm).
  apply (channel_at_spec _ _ c); [by rewrite Hc|]. apply (stage_delegate _ _ _ _ _ Hb); [done | cbn; lia |].
  intros s' Ht Hpl Hcs. wp_step. apply wp_set_tx.
  destruct domain as [d|].
  1: eapply (staged_ret _ child_root t None None (Some d) _ s); [done | done | exact Hb | exact Ht | exact Hpl | exact Hcs | |].
  3: eapply (staged_ret _ child_root t None None None _ s); [done | done | exact Hb | exact Ht | exact Hpl | exact Hcs | |].
  1,3: clear Hb Ht Hpl Hcs; sums.
  all: rewrite first_transfers_all by done; by repeat constructor.
Qed.

Lemma coordinator_lent request :
  fits request -> is_coordinator (profile request) = true ->
  exists c manifest, channels request = [c] /\ device_manifest request = Some manifest /\ lent = {[+ c +]} ⊎ {[+ manifest +]}.
Proof.
  intros [Hch Hman ->] Hc. destruct (proj2 Hman Hc) as [m ->].
  assert (expected_channels (profile request) = 1) as He by (by destruct (profile request)).
  rewrite He in Hch. destruct (channels request) as [|c [|]]; cbn [length] in Hch; [lia | | lia].
  exists c, m. split_conj; try done. cbn [list_to_set_disj mopt]. multiset_solver.
Qed.

Lemma channels_lent request :
  fits request -> is_coordinator (profile request) = false -> lent = list_to_set_disj (channels request).
Proof.
  intros [_ Hman ->] Hc. destruct (device_manifest request) as [m|]; cbn [mopt]; [|multiset_solver].
  rewrite Hc in Hman. assert (false = true) by (apply Hman; by eexists). done.
Qed.

Lemma stage_given authority request child_root t s :
  fits request -> fresh t child_root -> building t s -> (needs_domain (profile request) = true -> is_Some (resource_domain request)) ->
  wp (stage_capabilities authority request child_root) (staged (profile request) t) settled s.
Proof.
  intros Hfit Hfr Hb Hdom. pose proof Hfit as [Hch Hman Hlent]. pose proof Hfr as (Hroot & Hb0 & Hg0 & Hd0 & Hdc & Hdm).
  pose proof (no_lent _ Hfit) as Hnone. unfold stage_capabilities. cbv zeta.
  pose proof (one_channel _ Hfit) as Hone.
  destruct (profile request) eqn:Hp; on_profile.
  all: try (destruct (Hnone eq_refl) as [Hl _]; by apply (stage_nothing _ _ child_root)).
  all: try (destruct (Hone eq_refl eq_refl) as (c & Hc & Hl); by apply (stage_channel _ _ _ _ _ c)).
  1-3,5: apply (stage_authority _ t child_root); [done | done |]; intros bootfs task_group s1 Hb1; destruct (Hnone eq_refl) as [Hl _];
      (eapply (staged_ret _ child_root t (Some bootfs) (Some task_group) None _ s1); [done | done | done | done | done | done | sums |];
       rewrite first_transfers_all by done; by repeat constructor).
  - (* ProbeChild *) destruct (Hnone eq_refl) as [Hl _].
    eapply (staged_ret _ child_root t None None None _ s); try done; [by rewrite delegated_none | sums |].
    rewrite first_transfers_all by done. by repeat constructor.
  - (* SupervisorResourceDomain *) apply (stage_authority _ t child_root); [done | done |]. intros bootfs task_group s1 Hb1.
    destruct (Hnone eq_refl) as [Hl _]. destruct Hdom as [domain Hdomain]; [done|]. rewrite Hdomain.
    apply wp_bind, wp_ret. apply (gain_spec _ _ (fun h => set_delegated_resource_domain (Some h)) _ _ _ _ Hb1); [intros; by apply adds_domain|].
    intros staged_domain s2 Hb2.
    eapply (staged_ret _ child_root t (Some bootfs) (Some task_group) (Some staged_domain) _ s2); [done | done | done | done | done | done | sums |].
    rewrite first_transfers_all by done. by repeat constructor.
  - (* Consoled *) pose proof (channels_lent _ Hfit) as Hl. rewrite Hp in Hl. specialize (Hl eq_refl).
    destruct (channels request) as [|c1 [|c2 [|]]] eqn:Hcs in Hch, Hl; try discriminate Hch;
      [|change (expected_channels Consoled) with 2 in Hch; cbn [length] in Hch; lia].
    rewrite Hcs. apply (stage_delegate _ t); [done | done | cbn; lia |]. intros s' Ht Hpl Hcons.
    apply (channel_at_spec _ _ c1); [by rewrite Hcs|]. apply (channel_at_spec _ _ c2); [by rewrite Hcs|].
    eapply (staged_ret _ child_root t None None None _ s); try done; [by rewrite delegated_none | clear -Hroot Hb0 Hg0 Hd0 Hl; sums |].
    rewrite first_transfers_all by done. by repeat constructor.
  - (* Wyrmsh *) change (expected_channels Wyrmsh) with 6 in Hch.
    apply (stage_streams _ _ _ _ child_root); [done | done | | unfold MAX_CAPABILITIES; lia | lia | done | cbn; lia | by repeat constructor].
    apply channels_lent; [done | by rewrite Hp].
  - (* JobV2Streams *) change (expected_channels JobV2Streams) with 3 in Hch.
    apply (stage_streams _ _ _ _ child_root); [done | done | | unfold MAX_CAPABILITIES; lia | lia | done | cbn; lia | by repeat constructor].
    apply channels_lent; [done | by rewrite Hp].
  - (* Dw1bProgress *) destruct (Hone eq_refl eq_refl) as (c & Hc & Hl). apply (channel_at_spec _ _ c); [by rewrite Hc|].
    apply (stage_delegate _ t); [done | done | cbn; lia |]. intros s' Ht Hpl Hcs.
    eapply (staged_ret _ child_root t None None None _ s); try done; [by rewrite delegated_none | clear -Hroot Hb0 Hg0 Hd0 Hl; sums |].
    rewrite first_transfers_all by done. by repeat constructor.
  - (* DeviceCoordinator *) destruct (coordinator_lent _ Hfit) as (c & m & Hc & Hm & Hl); [by rewrite Hp|]. rewrite Hm.
    apply wp_bind, wp_ret, wp_bind, wp_ret. apply (stage_coordinator _ _ _ _ c m None); try done. by rewrite delegated_none.
  - (* DeviceCoordinatorResourceDomain *) destruct (coordinator_lent _ Hfit) as (c & m & Hc & Hm & Hl); [by rewrite Hp|]. rewrite Hm.
    destruct Hdom as [domain Hdomain]; [done|]. rewrite Hdomain. apply wp_bind, wp_ret, wp_bind, wp_bind, wp_ret.
    apply (gain_spec _ _ (fun h => set_delegated_resource_domain (Some h)) t); [done | intros; by apply adds_domain|].
    intros staged_domain s2 Hb2. apply wp_ret. apply (stage_coordinator _ _ _ _ c m (Some staged_domain)); try done.
    destruct t; cbn in *; by subst.
  - (* D6ResourceOwner *) destruct (Hnone eq_refl) as [Hl _]. destruct Hdom as [domain Hdomain]; [done|]. rewrite Hdomain.
    apply wp_bind, wp_ret. apply (gain_spec _ _ (fun h => set_delegated_resource_domain (Some h)) t); [done | intros; by apply adds_domain|].
    intros d s2 Hb2. eapply (staged_ret _ child_root t None None (Some d) _ s2); try done; [by destruct t; cbn in *; subst | sums |].
    rewrite first_transfers_all by done. by repeat constructor.
Qed.

(** The request names no resource domain where the profile moves one. *)
Definition misses_domain (request : InternalLoadRequest) : Prop :=
  needs_domain (profile request) = true /\ resource_domain request = None.
(** The duplicates made by then. *)
Definition made_by_then (p : LaunchProfile) (bootfs task_group : option Z) : Prop :=
  if bool_decide (p = SupervisorResourceDomain) then is_Some bootfs /\ is_Some task_group else bootfs = None /\ task_group = None.

(** The missing domain is noticed while the capabilities are staged, and nothing is
    undone. *)
Lemma stage_missing authority request child_root t s (Q : list HandleTransfer -> L -> Prop) :
  fits request -> fresh t child_root -> building t s -> misses_domain request ->
  (forall bootfs task_group s', made_by_then (profile request) bootfs task_group -> building (delegated t bootfs task_group None) s' -> orphan s') ->
  wp (stage_capabilities authority request child_root) Q settled s.
Proof.
  intros Hfit Hfr Hb [Hn Hd] Horphan. pose proof Hfr as (Hroot & Hb0 & Hg0 & Hd0 & Hdc & Hdm). unfold made_by_then in Horphan.
  assert (delegated t None None None = t) as Ht by (by apply delegated_none).
  unfold stage_capabilities. cbv zeta. destruct (profile request) eqn:Hp; try discriminate Hn; on_profile; rewrite Hd.
  - apply (stage_authority _ t child_root); [done | done |]. intros bootfs task_group s1 Hb1. apply wp_bind, wp_throw. right.
    by apply (Horphan (Some bootfs) (Some task_group)); [split; eexists|].
  - destruct (coordinator_lent _ Hfit) as (c & m & Hc & Hm & Hl); [by rewrite Hp|]. rewrite Hm. apply wp_bind, wp_ret, wp_bind, wp_bind, wp_throw. right.
    apply (Horphan None None); [done|by rewrite Ht].
  - apply wp_bind, wp_throw. right. apply (Horphan None None); [done|by rewrite Ht].
Qed.

Lemma stage_spec authority request child_root t s :
  fits request -> fresh t child_root -> building t s ->
  (misses_domain request -> forall bootfs task_group s', made_by_then (profile request) bootfs task_group ->
     building (delegated t bootfs task_group None) s' -> orphan s') ->
  wp (stage_capabilities authority request child_root) (fun ts s' => staged (profile request) t ts s' /\ ~ misses_domain request) settled s.
Proof.
  intros Hfit Hfr Hb Horphan. destruct (decide (needs_domain (profile request) = true /\ resource_domain request = None)) as [Hm|Hm].
  - by apply (stage_missing _ _ _ t); [..|apply Horphan].
  - eapply wp_mono; [apply (stage_given _ _ _ t); try done | by intros ts s' Hs | done].
    intros Hn. destruct (resource_domain request) eqn:Hd; [by eexists | by destruct Hm].
Qed.

(** ** INIT and after *)

Lemma fault_handles ts fault :
  list_to_set_disj (map x_handle (apply_capability_fault ts fault)) = list_to_set_disj (map x_handle ts) :> gmultiset Z.
Proof.
  destruct fault; try done; destruct ts as [|a [|b [|c [|]]]]; try done. cbn [apply_capability_fault map list_to_set_disj].
  multiset_solver.
Qed.

Lemma rest_moved request : fits request -> rest_of (negb (bool_decide (channels request = []))) = ∅.
Proof.
  intros Hfit. case_bool_decide as Hc; [|done]. cbn. apply (no_lent request Hfit).
  rewrite <- (f_channels _ Hfit), Hc. done.
Qed.

Lemma moved_fields p t :
  parent_mapping (moved_tx p t) = parent_mapping t /\ t_process (moved_tx p t) = t_process t /\
  ranges (moved_tx p t) = ranges t /\ range_count (moved_tx p t) = range_count t /\
  delegated_channels (moved_tx p t) = delegated_channels t /\ delegated_manifest (moved_tx p t) = delegated_manifest t /\
  t_root (moved_tx p t) = (if needs_self_root p then None else t_root t).
Proof. destruct p; done. Qed.

Lemma owns_sent p t b ts bytes transfers :
  list_to_set_disj ts ⊎ held (moved_tx p t) = held t ⊎ lent -> owns lent t b ->
  owns ∅ (moved_tx p t)
    (let b := dispose (list_to_set_disj ts) b in
     mkBooks (live b) (mapped b) (placed b) (created b) (ended b) (started b) (stray b) (Some (bytes, transfers))).
Proof.
  intros Hm []. destruct (moved_fields p t) as (H1 & H2 & H3 & H4 & H5 & H6 & H7). cbv zeta.
  split; fields; unfold child_ranges; rewrite ?H1, ?H2, ?H3, ?H4, ?H5, ?H6, ?H7; try done.
  - rewrite o_live0, <- Hm. multiset_solver.
  - intros Hr. apply o_placed0. destruct (needs_self_root p); [by destruct Hr | done].
  - rewrite o_stray0, bool_decide_true; [done|]. rewrite o_live0, <- Hm. multiset_solver.
Qed.

(** INIT was sent: nothing of the caller's is left, [T] is what the code will
    hold once it has noted what moved. *)
Record handed (T : Transaction) (bytes : list Z) (ts : list HandleTransfer) (flag : bool) (s : L) : Prop := mkHanded {
  h_owns : owns ∅ T (books_of s);
  h_sent : sent (books_of s) = Some (bytes, ts);
  h_flag : consumed s = flag }.

Lemma send_spec request channel bytes ts fault t s :
  fits request -> staged (profile request) t ts s ->
  wp (send request channel bytes (apply_capability_fault ts fault))
    (fun _ s' => tx s' = forget_lent (tx s) /\
       handed (moved_tx (profile request) (tx s')) bytes (apply_capability_fault ts fault)
         (negb (bool_decide (channels request = []))) s') settled s.
Proof.
  intros Hfit [_ Ho Hm _ Hs Hf]. unfold wp, send. cbn. unfold enter.
  destruct (send_init (under (plat s)) channel bytes (apply_capability_fault ts fault)) as [p [cause|[]]].
  - set (s0 := mkLoader (mkLedger p (books_of s)) (forget_lent (tx s)) (consumed s)).
    assert (inv s0) as Hi by (unfold inv, rest_of; subst s0; fields; by rewrite Hf).
    pose proof (fail_spec (A := unit) InitSend cause (fun _ _ => False) s0 Hi) as HF. unfold wp in HF. change (books (plat s)) with (books_of s).
    subst s0. destruct (fail _ _ _) as [s' [a|e|]]; done.
  - split; [done|]. split; try done. apply owns_sent; [|done]. by rewrite fault_handles.
Qed.

(** A handle taken out after INIT. *)
Lemma owns_taken rest h t t' b :
  owns rest t b -> held t = {[+ h +]} ⊎ held t' -> t' = set_root None t -> sent b <> None -> owns rest t' (dispose {[+ h +]} b).
Proof.
  intros [] Hh -> Hsent. split; fields; try done.
  - rewrite o_live0, Hh. multiset_solver.
  - rewrite o_stray0, bool_decide_true; [done|]. rewrite o_live0, Hh. multiset_solver.
Qed.

Lemma held_root t h : t_root t = Some h -> held t = {[+ h +]} ⊎ held (set_root None t).
Proof. intros Hr. unfold held. fields. rewrite !mopts_cons, Hr. cbn [mopt]. multiset_solver. Qed.

Lemma close_root_spec T child_root bytes ts flag s :
  tx s = T -> t_root T = Some child_root -> handed T bytes ts flag s -> rest_of flag = ∅ ->
  wp (_ ← attempt SuccessCleanup (fun p => close p child_root); set_tx (set_root None))
    (fun _ s' => tx s' = set_root None T /\ handed (set_root None T) bytes ts flag s') settled s.
Proof.
  intros Htx Hr [Ho Hs Hf] Hrest. wp_step.
  apply wp_attempt; [unfold inv; by rewrite Hf, Hrest, Htx|]. intros p []. apply wp_set_tx. fields. rewrite Htx.
  split; [done|]. split; try done. eapply owns_taken; [exact Ho | by apply held_root | done | by rewrite Hs].
Qed.

Lemma after_send_spec request child_root bytes ts flag s :
  t_root (tx s) = Some child_root -> rest_of flag = ∅ -> handed (moved_tx (profile request) (tx s)) bytes ts flag s ->
  wp (after_send request child_root)
    (fun _ s' => tx s' = set_root None (moved_tx (profile request) (tx s)) /\ handed (tx s') bytes ts flag s') settled s.
Proof.
  intros Hr Hrest Hh. unfold after_send. cbv zeta. destruct (profile request); on_profile.
  all: apply wp_bind; first [apply wp_ret | apply wp_set_tx].
  all: try (apply wp_bind, wp_set_tx; first [apply wp_ret | apply wp_set_tx]; by destruct Hh).
  all: try (eapply wp_mono; [by apply (close_root_spec (tx s) child_root bytes ts flag) | | done]; by intros [] s' [-> ?]).
  (* D6ResourceOwner *)
  apply wp_bind, wp_set_tx. eapply wp_mono; [eapply (close_root_spec _ child_root bytes ts flag); [reflexivity | done | | done] | | done].
  - by destruct Hh.
  - by intros [] s' [-> ?].
Qed.

(** ** The last steps *)

(** What a completed load leaves: the two handles it returns. *)
Record complete (loaded : LoadedProcess) (bytes : list Z) (ts : list HandleTransfer) (flag : bool) (s : L) : Prop := mkComplete {
  c_live : live (books_of s) = {[+ lp_process loaded; lp_launch_channel loaded +]};
  c_mapped : mapped (books_of s) = [];
  c_running : created (books_of s) = true /\ started (books_of s) = true /\ ended (books_of s) = false;
  c_sent : sent (books_of s) = Some (bytes, ts);
  c_stray : stray (books_of s) = false;
  c_flag : consumed s = flag }.

(** Three handles, the child running. *)
Lemma running_rolling T thread process_ channel bytes ts flag s :
  handed T bytes ts flag s -> held T = {[+ thread +]} ⊎ ({[+ process_ +]} ⊎ ({[+ channel +]} ⊎ ∅)) -> parent_mapping T = None ->
  forall failed, rolling ∅ (books_of s) flag false (fun m _ => m = []) ({[+ thread +]} ⊎ ({[+ process_ +]} ⊎ ({[+ channel +]} ⊎ ∅))) failed s.
Proof.
  intros [[] Hs Hf] Hheld Hm failed. split; try done.
  - exists ∅. rewrite o_live0, Hheld. split; [multiset_solver | done].
  - intros _. by rewrite o_mapped0, Hm.
Qed.

(** The child is ended by hand and its handles are closed. *)
Lemma end_by_hand_spec stage (cause : E) b0 flag thread process_ channel s (Q : unit -> L -> Prop) :
  rest_of flag = ∅ -> is_Some (sent b0) ->
  rolling ∅ b0 flag false (fun m _ => m = []) ({[+ thread +]} ⊎ ({[+ process_ +]} ⊎ ({[+ channel +]} ⊎ ∅))) false s ->
  wp (refused ← is_err (fun p => process_terminate p process_);
      thread_terminated ← (if negb refused then mret false
                           else refused ← is_err (fun p => thread_terminate p thread); mret (negb refused));
      f1 ← is_err (fun p => close p thread);
      f2 ← is_err (fun p => close p process_);
      f3 ← is_err (fun p => close p channel);
      throw (PlatformFailed stage cause (negb (negb refused || thread_terminated) || f1 || f2 || f3))) Q settled s.
Proof.
  intros Hrest Hsent Hr. wp_step. eapply wp_mono; [apply terminate_spec, Hr | | done]. intros refused s1 H1. cbv beta in H1.
  rewrite orb_false_r in H1. wp_step.
  apply (wp_mono _ (fun tt s' => rolling ∅ b0 flag (negb refused || tt) (fun m _ => m = [])
    ({[+ thread +]} ⊎ ({[+ process_ +]} ⊎ ({[+ channel +]} ⊎ ∅))) false s') _ (fun _ _ => False)); [| | done].
  { destruct refused; cbn [negb] in *; [|by apply wp_ret].
    wp_step. eapply wp_mono; [apply terminate_spec, H1 | | done]. intros refused s2 H2. cbv beta in H2.
    rewrite orb_false_r in H2. by apply wp_ret. }
  intros en s2 H2. set (ended_now := negb refused || en) in *.
  wp_step. eapply wp_mono; [apply close_spec, H2 | | done]. intros f1 s3 H3.
  wp_step. eapply wp_mono; [apply close_spec, H3 | | done]. intros f2 s4 H4.
  wp_step. eapply wp_mono; [apply close_spec, H4 | | done]. intros f3 s5 [(left & Hl & Hleft) Hk He Hs [Hc1 Hc2] Hc].
  apply wp_throw. unfold settled. rewrite Hc, Hrest. split; try done.
  - exists left. rewrite Hl. split; [multiset_solver|]. intros Hf. apply Hleft. by destruct ended_now, f1, f2, f3.
  - intros Hf. apply Hk. by destruct ended_now, f1, f2, f3.
  - intros _ Hn. rewrite Hc2 in Hn. rewrite Hn in Hsent. by destruct Hsent.
  - intros Hf _. apply He. by destruct ended_now.
Qed.

Lemma close_thread_spec T thread process_ channel bytes ts flag s :
  tx s = T -> handed T bytes ts flag s -> rest_of flag = ∅ -> started (books_of s) = true ->
  held T = {[+ thread +]} ⊎ ({[+ process_ +]} ⊎ ({[+ channel +]} ⊎ ∅)) -> parent_mapping T = None -> is_Some (t_process T) ->
  wp (close_thread thread process_ channel) (fun _ => complete (mkLoaded process_ channel) bytes ts flag) settled s.
Proof.
  intros Htx Hh Hrest Hst Hheld Hm Hp. pose proof (running_rolling _ thread process_ channel _ _ _ _ Hh Hheld Hm false) as Hr.
  destruct Hh as [Ho Hs Hf]. pose proof Ho as [Ol Om _ _ _ Os Oc Oe _ _].
  unfold wp at 1, close_thread. cbn. unfold enter. destruct (close (under (plat s)) thread) as [p [cause|[]]].
  2: { split; fields; try done.
       - change (live (books_of s) ∖ {[+ thread +]} = {[+ process_; channel +]}). rewrite Ol, Hheld. multiset_solver.
       - change (mapped (books_of s) = []). by rewrite Om, Hm.
       - rewrite bool_decide_true in Oc; done.
       - change (stray (books_of s) || negb (bool_decide ({[+ thread +]} ⊆ live (books_of s))) = false).
         rewrite Os, bool_decide_true; [done|]. rewrite Ol, Hheld. multiset_solver. }
  set (s0 := mkLoader (mkLedger p (books_of s)) (tx s) (consumed s)).
  assert (rolling ∅ (books_of s) flag false (fun m _ => m = []) ({[+ thread +]} ⊎ ({[+ process_ +]} ⊎ ({[+ channel +]} ⊎ ∅))) false s0)
    as Hr0 by (by destruct Hr).
  exact (end_by_hand_spec SuccessCleanup cause (books_of s) flag thread process_ channel s0
    (fun _ => complete (mkLoaded process_ channel) bytes ts flag) Hrest (ltac:(rewrite Hs; by eexists)) Hr0).
Qed.

(** ** The message *)

(** What INIT says, as the child will read it. *)
Definition init_of (request : InternalLoadRequest) : option Init :=
  let tx := transaction_id request in
  match profile request with
  | Wyrmsh =>
      c ← wyrmsh_correlation request;
      Some (ShellInit (mkWyrmsh tx (wc_registry_generation c) (wc_registry_endpoint_id c) (wc_registry_endpoint_generation c)
        (wc_launch_connection_id c) (wc_launch_connection_generation c) (wc_console_generation c) (wc_status_generation c)
        (wc_child_generation c) (wc_outer_launch_transaction c)))
  | Consoled =>
      c ← consoled_correlation request;
      let '(a, b, c, d, e) := c in Some (ConsoleInit (mkConsoled tx a b c d e))
  | DeviceCoordinator => g ← supervisor_generation request; Some (CoordinatorInit false (mkCoordinator tx g))
  | DeviceCoordinatorResourceDomain => g ← supervisor_generation request; Some (CoordinatorInit true (mkCoordinator tx g))
  | DeviceDriver =>
      c ← driver_correlation request;
      let '(a, b, c, d, e, f) := c in Some (DriverInit (mkDriver tx a b c d e f))
  | p => Some (PlainInit p tx)
  end.

(** The numbers of a request are 64-bit words. *)
Definition typed (request : InternalLoadRequest) : Prop :=
  forall i, init_of request = Some i -> in_u64 (transaction_of i) /\ Forall in_u64 (tail_of i).2.

Lemma encode_request_eq request out s :
  encode_request request out s =
  (s, match init_of request return res (LoadError E) (Z * list Z) with
      | Some i => match encode_message i out with Ok a => Ok a | Err e => Err (LaunchFailed e) | Panic => Panic end
      | None => Err (LaunchFailed ZeroTransaction)
      end).
Proof.
  unfold encode_request, init_of. destruct (profile request); on_profile; try done.
  - by destruct (consoled_correlation request) as [[[[[]]]]|].
  - by destruct (wyrmsh_correlation request).
  - by destruct (supervisor_generation request).
  - by destruct (supervisor_generation request).
  - by destruct (driver_correlation request) as [[[[[[]]]]]|].
Qed.

Lemma init_of_profile request i :
  init_of request = Some i -> profile_of i = profile request /\ match i with PlainInit p _ => LaunchThms.plain p = true | _ => True end.
Proof.
  unfold init_of. destruct (profile request); try (by intros [= <-]).
  - by destruct (consoled_correlation request) as [[[[[]]]]|]; intros [= <-].
  - by destruct (wyrmsh_correlation request); intros [= <-].
  - by destruct (supervisor_generation request); intros [= <-].
  - by destruct (supervisor_generation request); intros [= <-].
  - by destruct (driver_correlation request) as [[[[[[]]]]]|]; intros [= <-].
Qed.

(** The child reads [bytes] as [i], given the handles of its profile. *)
Definition understood (p : LaunchProfile) (bytes : list Z) (i : Init) : Prop :=
  forall handles, Forall2 granted (grants p) handles -> parse_message p bytes handles = Ok i.

Lemma encode_request_spec request out s :
  typed request -> len out = WYRMSH_BYTES ->
  wp (encode_request request out)
    (fun r s' => s' = s /\ r.1 = init_size (profile request) /\ len r.2 = WYRMSH_BYTES /\
       exists i, init_of request = Some i /\ understood (profile request) (take (Z.to_nat r.1) r.2) i)
    (fun (e : LoadError E) s' => s' = s /\ e = LaunchFailed ZeroTransaction) s.
Proof.
  intros Hty Hlen. unfold wp. rewrite encode_request_eq. destruct (init_of request) as [i|] eqn:Hi; [|done].
  destruct (init_of_profile _ _ Hi) as [Hpr Hpl]. destruct (Hty i Hi) as [Htx Htl].
  assert (init_size (profile_of i) <= len out) as Hsz by (rewrite Hlen; by destruct (profile_of i)).
  destruct (decide (transaction_of i = 0 \/ 0 ∈ (tail_of i).2)) as [Hz|Hz].
  - by rewrite encode_message_refuses by done.
  - assert (init_ok i) as Hok by (unfold init_ok; naive_solver).
    destruct (message_written i out Hok Hsz) as (out' & -> & Hp & Hl & _). rewrite Hpr in *. split_conj; try done.
    + cbn. lia.
    + by exists i.
Qed.

(** ** From the channel to the process *)

(** The transaction of a child with no memory yet. *)
Definition opened (parent_root channel process_ root_ : Z) : Transaction :=
  set_root (Some root_) (set_process (Some process_) (set_parent_channel (Some channel) (transaction_new parent_root))).

Lemma owns_start parent_root : owns lent (transaction_new parent_root) (start_books).
Proof.
  split; try done.
  - unfold held. fields. rewrite !mopts_cons, mopts_nil. cbn [mopt start_books live]. multiset_solver.
  - cbn. lia.
  - cbn. split; [|done]. by repeat constructor.
Qed.

Lemma owns_channel parent_root broad child :
  owns lent (set_child_endpoint (Some child) (set_broad_parent (Some broad) (transaction_new parent_root)))
    (acquire {[+ broad; child +]} start_books).
Proof.
  destruct (owns_start parent_root). split; try done. unfold held in *. fields. rewrite !mopts_cons, mopts_nil in *.
  cbn [mopt start_books live] in *. multiset_solver.
Qed.

Lemma adds_channel h t : parent_channel t = None -> adds h t (set_parent_channel (Some h) t).
Proof. adds_field. Qed.

Lemma owns_created t b child process_ root_ :
  owns lent t b -> child_endpoint t = Some child -> t_process t = None -> t_root t = None -> range_count t = 0%nat -> sent b = None ->
  owns lent (set_root (Some root_) (set_process (Some process_) (set_child_endpoint None t)))
    (create_child (acquire {[+ process_; root_ +]} (dispose {[+ child +]} b))).
Proof.
  intros [] Hc Hp Hr Hn Hs. assert (created b = false) as Hcr by (by rewrite o_created0, Hp).
  assert (held t = {[+ child +]} ⊎ held (set_child_endpoint None t)) as Hh
    by (unfold held; fields; rewrite !mopts_cons, Hc; cbn [mopt]; multiset_solver).
  assert (held (set_root (Some root_) (set_process (Some process_) (set_child_endpoint None t)))
    = {[+ process_; root_ +]} ⊎ held (set_child_endpoint None t)) as Hh'
    by (unfold held; fields; rewrite !mopts_cons, Hp, Hr; cbn [mopt]; multiset_solver).
  split; fields; try done.
  - rewrite Hh', o_live0, Hh. multiset_solver.
  - intros _. unfold child_ranges. fields. rewrite Hn, (o_none0 Hcr). done.
  - rewrite o_stray0, bool_decide_true; [done|]. rewrite o_live0, Hh. multiset_solver.
Qed.

(** Nothing is undone when the first call fails. *)
Lemma channel_create_spec (Q : Z * Z -> L -> Prop) s :
  books_of s = start_books -> consumed s = false ->
  (forall p broad child, Q (broad, child) (after s p (acquire {[+ broad; child +]} start_books))) ->
  wp (fun s : L => match channel_create (plat s) CHANNEL_BROAD_RIGHTS with
      | (p, inr ends) => (mkLoader p (tx s) (consumed s), Ok ends)
      | (p, inl cause) => (mkLoader p (tx s) (consumed s), Err (PlatformFailed ChannelCreate cause false))
      end) Q settled s.
Proof.
  intros Hb Hf HQ. unfold wp. cbn [channel_create ledger_platform]. unfold enter, books_of in *. rewrite Hb.
  destruct (channel_create (under (plat s)) CHANNEL_BROAD_RIGHTS) as [p [cause|[broad child]]]; [|apply HQ].
  unfold settled. fields. rewrite Hf. split; try done. exists ∅. split; [|done].
  change (lent = ∅ ⊎ lent). multiset_solver.
Qed.

Lemma open_spec {A} authority (k : Z -> ProcessCreateResult -> SM L (LoadError E) A) Q s :
  building (transaction_new (a_parent_root authority)) s -> books_of s = start_books ->
  (forall channel created s', building (opened (a_parent_root authority) channel (process created) (root created)) s' ->
     wp (k channel created) Q settled s') ->
  wp (ends ← (fun s : L => match channel_create (plat s) CHANNEL_BROAD_RIGHTS with
          | (p, inr ends) => (mkLoader p (tx s) (consumed s), Ok ends)
          | (p, inl cause) => (mkLoader p (tx s) (consumed s), Err (PlatformFailed ChannelCreate cause false))
          end);
      let '(broad, child_end) := ends in
      _ ← set_tx (set_broad_parent (Some broad));
      _ ← set_tx (set_child_endpoint (Some child_end));
      channel ← attempt ChannelReduce (fun p => duplicate p broad CHANNEL_RETAINED_RIGHTS);
      _ ← set_tx (set_parent_channel (Some channel));
      _ ← attempt ChannelReduce (fun p => close p broad);
      _ ← set_tx (set_broad_parent None);
      created ← attempt ProcessCreate (fun p => process_create p
              (mkCreate (a_task_group authority) child_end PROCESS_RIGHTS ROOT_RIGHTS CHANNEL_RETAINED_RIGHTS));
      _ ← set_tx (set_child_endpoint None);
      _ ← set_tx (set_process (Some (process created)));
      _ ← set_tx (set_root (Some (root created)));
      k channel created) Q settled s.
Proof.
  intros [Htx Ho Hs Hf] Hb0 HQ. set (pr := a_parent_root authority) in *. wp_step.
  apply channel_create_spec; [done | done |]. intros p broad child. unfold after. rewrite Htx, Hf.
  wp_step. apply wp_set_tx. wp_step. apply wp_set_tx. cbn [plat tx consumed].
  set (t1 := set_child_endpoint _ _). assert (building t1 (mkLoader (mkLedger p (acquire {[+ broad; child +]} start_books)) t1 false)) as H1
    by (split; try done; apply owns_channel).
  apply (gain_spec _ _ (fun h => set_parent_channel (Some h)) t1); [exact H1 | intros; by apply adds_channel |].
  intros channel s2 H2. pose proof H2 as [Htx2 Ho2 Hs2 Hf2].
  wp_step. apply wp_attempt; [by apply (building_inv _ _ H2)|]. intros p3 []. wp_step. apply wp_set_tx. fields. rewrite Htx2.
  eapply (owns_gone _ broad _ _ (set_broad_parent None (set_parent_channel (Some channel) t1))) in Ho2; [| | by right].
  2: { unfold held. fields. rewrite !mopts_cons. cbn [mopt]. multiset_solver. }
  wp_step. apply wp_attempt; [unfold inv, rest_of; fields; by rewrite Hf2|]. intros p4 created.
  wp_step. apply wp_set_tx. wp_step. apply wp_set_tx. wp_step. apply wp_set_tx. fields.
  apply HQ. split; try done. fields. by apply (owns_created _ _ child _ _ Ho2).
Qed.

(** ** The whole load *)

(** A completed load of the request: the child is running, the caller holds the
    two handles and the child was told what the request says. *)
Definition loaded_as (request : InternalLoadRequest) (fault : LoadFault) (loaded : LoadedProcess) (s : L) : Prop :=
  ~ misses_domain request /\ exists bytes ts, complete loaded bytes ts (negb (bool_decide (channels request = []))) s /\
    (fault = NoFault -> (exists i, init_of request = Some i /\ understood (profile request) bytes i) /\
       Forall2 (fun g x => requested_rights x = g.2 /\ x_operation x = DW_HANDLE_TRANSFER_MOVE) (grants (profile request)) ts).

(** What is left when INIT has moved its handles and the root is gone. *)
Lemma held_final p t bootfs task_group domain thread process_ channel :
  only_moved p bootfs task_group domain -> scratch_memory t = None -> child_endpoint t = None -> broad_parent t = None ->
  t_thread t = Some thread -> t_process t = Some process_ -> parent_channel t = Some channel ->
  held (set_root None (moved_tx p (delegated t bootfs task_group domain)))
    = {[+ thread +]} ⊎ ({[+ process_ +]} ⊎ ({[+ channel +]} ⊎ ∅)).
Proof.
  intros [H1 H2] Hs Hc Hb Ht Hp Hch.
  destruct p; on_profile; try (destruct (H1 eq_refl) as [-> ->]); try (rewrite (H2 eq_refl));
    moved; rewrite !mopts_cons, Hs, Hc, Hb, Ht, Hp, Hch; cbn [mopt]; multiset_solver.
Qed.

(** What is left when the missing domain is noticed: the launch channel, the process,
    its root and its thread are still held, and for the supervisor the two duplicates
    made for it; the child exists, has not ended and was sent nothing. *)
Definition stranded (request : InternalLoadRequest) (b : Books) : Prop :=
  misses_domain request /\
  (exists channel process_ root_ thread duplicates,
     live b = {[+ channel; process_; root_; thread +]} ⊎ list_to_set_disj duplicates ⊎ lent /\
     length duplicates = (if bool_decide (profile request = SupervisorResourceDomain) then 2 else 0)%nat) /\
  mapped b = [] /\ created b = true /\ ended b = false /\ sent b = None /\ stray b = false.

Lemma stranded_spec request t thread process_ channel root_ bootfs task_group s :
  misses_domain request -> fresh t root_ -> child_ready t -> child_endpoint t = None -> broad_parent t = None ->
  t_process t = Some process_ -> parent_channel t = Some channel ->
  made_by_then (profile request) bootfs task_group -> building (delegated (set_thread (Some thread) t) bootfs task_group None) s ->
  stranded request (books_of s) /\ consumed s = false.
Proof.
  intros Hm (Hroot & _) (Hsc & Hpm & _ & _) Hce Hbp Hpr Hpc Hmade [_ Ho Hs Hf]. destruct Ho as [Hl Hmap _ _ _ Hst Hcr He _ _].
  split; [|done]. split; [done|]. split; [|split_conj; try done].
  - exists channel, process_, root_, thread, (option_list bootfs ++ option_list task_group). split.
    + rewrite Hl. unfold delegated, held. fields. rewrite !mopts_cons, Hsc, Hce, Hbp, Hpr, Hpc, Hroot, mopts_nil.
      destruct bootfs, task_group; cbn [mopt option_list from_option app list_to_set_disj]; multiset_solver.
    + unfold made_by_then in Hmade. destruct (bool_decide _); [by destruct Hmade as [[? ->] [? ->]] | by destruct Hmade as [-> ->]].
  - rewrite Hmap. cbn [delegated]. unfold delegated. fields. by rewrite Hpm.
  - rewrite Hcr. unfold delegated. fields. by rewrite Hpr.
Qed.

(** From the thread on. *)
Lemma start_spec authority request fault plan channel created bytes stack_pointer startup_abi t s :
  fits request -> building t s -> fresh t (root created) -> child_ready t ->
  child_endpoint t = None -> broad_parent t = None -> t_thread t = None ->
  t_process t = Some (process created) -> parent_channel t = Some channel ->
  (forall s', stranded request (books_of s') -> consumed s' = false -> orphan s') ->
  wp (thread ← attempt ThreadCreate (fun p => thread_create p (process created) THREAD_RIGHTS);
      _ ← set_tx (set_thread (Some thread));
      transfers ← stage_capabilities authority request (root created);
      _ ← send request channel bytes (apply_capability_fault transfers fault);
      _ ← after_send request (root created);
      _ ← attempt ThreadStart (fun p => thread_start p thread (Elf.entry plan) stack_pointer (child_bootstrap created) startup_abi);
      _ ← close_thread thread (process created) channel;
      mret (mkLoaded (process created) channel))
    (fun loaded s' => ~ misses_domain request /\ exists ts,
       Forall2 (fun g x => requested_rights x = g.2 /\ x_operation x = DW_HANDLE_TRANSFER_MOVE) (grants (profile request)) ts /\
       complete loaded bytes (apply_capability_fault ts fault) (negb (bool_decide (channels request = []))) s') settled s.
Proof.
  intros Hfit Hb Hfr Hready Hce Hbp Hth Hpr Hpc Horphan. destruct (Hready) as (Hsc & Hpm & _ & _).
  apply (gain_spec _ _ (fun h => set_thread (Some h)) t); [exact Hb | intros; by apply adds_thread |]. intros thread s1 H1.
  wp_step. eapply wp_mono; [apply (stage_spec _ _ _ (set_thread (Some thread) t) _ Hfit); [exact Hfr | exact H1 |] | | done].
  { intros Hm bootfs task_group s' Hmade Hb'.
    destruct (stranded_spec request t thread (process created) channel (root created) bootfs task_group s') as [H2 H3]; [done..|]. by apply Horphan. }
  intros ts s2 [H2 Hgiven]. wp_step. eapply wp_mono; [eapply send_spec; [done | exact H2] | | done]. intros [] s3 [Ht3 H3].
  destruct H2 as [(bootfs & task_group & domain & Hd & Honly) _ _ Hrights _ _]. rewrite Hd in Ht3.
  wp_step. eapply wp_mono; [eapply after_send_spec; [|by apply rest_moved | exact H3] | | done].
  { rewrite Ht3. apply Hfr. }
  intros [] s4 [Ht4 [Ho4 Hs4 Hf4]]. rewrite Ht3 in Ht4.
  wp_step. apply wp_attempt; [unfold inv; by rewrite Hf4, rest_moved|]. intros p5 [].
  set (s5 := after s4 p5 _).
  destruct (moved_fields (profile request) (delegated (set_thread (Some thread) t) bootfs task_group domain)) as (Hmap & Hproc & _).
  wp_step.
  eapply wp_mono; [apply (close_thread_spec (tx s4) thread (process created) channel bytes (apply_capability_fault ts fault)
    (negb (bool_decide (channels request = []))) s5) | | done]; try done.
  - split; [|exact Hs4 | exact Hf4]. by destruct Ho4.
  - by apply rest_moved.
  - rewrite Ht4. by eapply held_final.
  - rewrite Ht4. cbn [set_root parent_mapping]. by rewrite Hmap.
  - rewrite Ht4. cbn [set_root t_process]. rewrite Hproc. by eexists.
  - intros [] s6 H6. apply wp_ret. split; [done|]. by exists ts.
Qed.

(** The bytes of the startup block never make the load panic. *)
Lemma startup_fault_fits argc rest fault : apply_startup_fault (to_le 8 argc ++ rest) fault <> None.
Proof.
  unfold apply_startup_fault. case_bool_decide; [|done]. unfold overwrite.
  destruct (proj2 (put_range_is_Some (to_le 8 argc ++ rest) 0 (to_le 8 2))) as [out ->]; [|done].
  rewrite length_app, !length_to_le. lia.
Qed.

Lemma init_fault_fits bytes fault : 40 <= len bytes -> apply_init_fault bytes fault <> None.
Proof.
  intros Hl. unfold apply_init_fault. case_bool_decide; [|done]. unfold overwrite.
  destruct (proj2 (put_range_is_Some bytes 20 (to_le 4 2))) as [out ->]; [|done]. rewrite length_to_le. lia.
Qed.

(** A startup block the stack can be filled with. *)
Definition fillable (startup : StartupMaterialization) (fault : LoadFault) : Prop :=
  match startup with
  | LegacyBlock _ => True
  | JobV2Block plan => forall block, len block = Image.STARTUP_V2_BLOCK_BYTES -> fill_v2 plan fault block <> None
  end.

Lemma v2_fillable address path argv environment plan fault :
  Image.v2_plan_new Image.STARTUP_V2_BLOCK_BYTES address path argv environment = Ok plan -> fillable (JobV2Block plan) fault.
Proof.
  intros (_ & Hv & ->)%v2_plan_new_sound block Hlen. unfold fill_v2.
  destruct Hv as (Ha & He & _ & _ & _ & Hb & _ & Hend).
  rewrite v2_plan_write_spec; [| done | by apply v2_room | done]. rewrite block_image_eq. apply startup_fault_fits.
Qed.

Lemma materialized_spec authority request fault plan startup offset stack_pointer abi_version s :
  fits request -> typed request -> Forall (ElfThms.placed (image request)) (Elf.segments plan) ->
  len (image request) <= Elf.MAX_ELF_BYTES -> (length (Elf.segments plan) <= 8)%nat -> fillable startup fault ->
  books_of s = start_books -> consumed s = false ->
  (forall s', stranded request (books_of s') -> consumed s' = false -> orphan s') ->
  wp (load_process_materialized authority request fault plan startup offset stack_pointer abi_version)
    (loaded_as request fault) settled s.
Proof.
  intros Hfit Hty Hpl Himg Hseg Hfill Hb Hf Horphan. unfold load_process_materialized.
  wp_step. eapply wp_mono; [apply (encode_request_spec request _ s Hty); by rewrite length_replicate | | by intros e s' [-> ->]].
  intros [n out] s' (-> & Hn & Hlen & i & Hi & Hund). cbn [fst snd] in *. subst n.
  assert (40 <= init_size (profile request) <= 160) as Hsz by (destruct (profile request); by vm_compute).
  change WYRMSH_BYTES with 160 in Hlen.
  wp_step. assert (get_range out 0 (init_size (profile request)) = Some (take (Z.to_nat (init_size (profile request))) out)) as ->.
  { apply get_range_Some. rewrite Z.sub_0_r, drop_0. split_conj; try done; lia. }
  apply wp_lift; [done | | done]. intros bytes0 [= <-].
  set (bytes0 := take _ out) in *.
  assert (40 <= len bytes0) by (subst bytes0; rewrite length_take; lia).
  wp_step. destruct (apply_init_fault bytes0 fault) as [bytes|] eqn:Hbytes; [|by apply init_fault_fits in Hbytes].
  apply wp_lift; [done | | done]. intros ? [= <-]. wp_step. apply wp_set_tx.
  apply open_spec; [| exact Hb |].
  { split; try done; unfold books_of in *; cbn [plat]; rewrite Hb; [apply owns_start | done]. }
  intros channel created s1 H1. set (t1 := opened _ _ _ _) in *.
  wp_step. eapply wp_mono; [apply (load_segments_spec _ _ _ _ t1); [done | done | by split_conj; try eexists | change (0 + length (Elf.segments plan) <= 9)%nat; lia | done] | | done].
  intros [] s2 (rs & Hrs & H2). set (t2 := set_range_count _ _) in *.
  wp_step. eapply wp_mono; [apply (load_stack_spec _ _ _ _ _ t2); [| by split_conj; try eexists | | done] | | done].
  { intros q memory. destruct startup as [block|v2]; [apply materialize_parent_np | by apply materialize_returns]. }
  { change (0 + length (Elf.segments plan) < length rs)%nat. change (length rs = 9)%nat in Hrs. lia. }
  intros [] s3 (rs' & Hrs' & H3). set (t3 := set_range_count (range_count t2 + 1) (set_ranges rs' t2)) in *.
  assert (fresh t3 (root created)) as Hfresh by (by repeat split).
  assert (child_ready t3) as Hready by (unfold child_ready; split_conj; [done | done | by eexists | by eexists]).
  eapply wp_mono; [by apply (start_spec authority request fault plan channel created bytes stack_pointer abi_version t3) | | done].
  intros loaded s4 (Hgiven & ts & Hr & Hc). split; [done|]. exists bytes, (apply_capability_fault ts fault). split; [done|]. intros ->.
  cbn in Hbytes. injection Hbytes as <-. split; [by exists i | done].
Qed.

Lemma plan_segments image0 out plan out' :
  bytes_ok image0 -> Elf.plan image0 out = Ok (plan, out') ->
  Forall (ElfThms.placed image0) (Elf.segments plan) /\ len image0 <= Elf.MAX_ELF_BYTES /\ (length (Elf.segments plan) <= 8)%nat.
Proof.
  intros Hok (h & ss & Hh & _ & _ & HF & HP & _ & Hn & _)%plan_sound; [|done].
  destruct (elf_header_spec _ _ Hok Hh) as (_ & _ & Himg & _). unfold Elf.MAX_LOAD_SEGMENTS in Hn.
  split_conj; [|lia|lia]. rewrite HP. by eapply loads_placed.
Qed.

(** The tests [load_process_internal] makes at once. *)
Definition screened (request : InternalLoadRequest) : bool :=
  (len (channels request) =? expected_channels (profile request)) &&
  Bool.eqb (is_coordinator (profile request)) (bool_decide (is_Some (device_manifest request))) &&
  Bool.eqb (bool_decide (profile request = DeviceDriver)) (bool_decide (is_Some (driver_correlation request))) &&
  Bool.eqb (bool_decide (profile request = Consoled)) (bool_decide (is_Some (consoled_correlation request))) &&
  Bool.eqb (bool_decide (profile request = Wyrmsh)) (bool_decide (is_Some (wyrmsh_correlation request))).

Lemma internal_spec authority request fault s :
  bytes_ok (image request) -> typed request -> (screened request = false -> early) ->
  (forall s', stranded request (books_of s') -> consumed s' = false -> orphan s') ->
  lent = list_to_set_disj (channels request) ⊎ mopt (device_manifest request) ->
  books_of s = start_books -> consumed s = false ->
  wp (load_process_internal authority request fault) (loaded_as request fault) settled s.
Proof.
  intros Hok Hty Hearly Horphan Hlent Hb Hf. unfold load_process_internal. cbv zeta. unfold screened in Hearly.
  assert (Hat_once : early -> settled (LaunchFailed HandleCount) s) by (by left).
  destruct (Z.eqb_spec (len (channels request)) (expected_channels (profile request))) as [Hch|]; cbn [negb andb] in *; [|apply wp_throw; auto].
  destruct (Bool.eqb (is_coordinator _) _) eqn:Hman; cbn [negb andb] in *; [|apply wp_throw; auto].
  destruct (Bool.eqb _ (bool_decide (is_Some (driver_correlation request)))); cbn [negb andb] in *; [|apply wp_throw; auto].
  destruct (Bool.eqb _ (bool_decide (is_Some (consoled_correlation request)))); cbn [negb andb] in *; [|apply wp_throw; auto].
  destruct (Bool.eqb _ (bool_decide (is_Some (wyrmsh_correlation request)))); cbn [negb andb] in *; [|apply wp_throw; auto].
  assert (fits request) as Hfit.
  { split; try done. apply eqb_prop in Hman. rewrite Hman. symmetry. apply bool_decide_eq_true. }
  destruct (bool_decide (fault = MalformedElf)).
  { destruct (Elf.plan _ _) as [?|e|] eqn:Hplan; [| by apply wp_throw |]; by vm_compute in Hplan. }
  wp_step. apply wp_lift; [by apply plan_np | | done]. intros [plan out] Hplan.
  destruct (plan_segments _ _ _ _ Hok Hplan) as (Hpl & Himg & Hseg).
  destruct (startup request) as [path|path argv environment].
  - unfold load_legacy_process_materialized. wp_step.
    destruct (write_startup_block_spec (replicate (Z.to_nat Elf.PAGE_SIZE) 0) Image.INITIAL_STACK_POINTER path) as [Hnp Hsp]; [done|].
    apply wp_lift; [done | | done]. intros block (_ & _ & ->)%Hsp. wp_step. rewrite block_image_eq.
    destruct (apply_startup_fault _ fault) as [block|] eqn:Hblock; [|by apply startup_fault_fits in Hblock].
    apply wp_lift; [done | | done]. intros ? [= <-]. by apply materialized_spec.
  - unfold load_job_v2_process_materialized. wp_step. apply wp_lift; [apply v2_plan_new_np | | done].
    intros v2 Hv2. apply materialized_spec; try done. by eapply v2_fillable.
Qed.
End load.
End custody.

(** * The outcome of constructing a process

    What the caller of the loader sees, for the common routine and for the launch
    of the shell, with a concrete platform to run them on. *)

Local Open Scope Z_scope.

(** ** What the caller sees *)

Section outcome.
Context {abi : Abi} {pabi : ProcessAbi} {P E : Type} {platform : LoaderPlatform P E}.

(** What the request lends to the loader. *)
Definition lent_by (request : InternalLoadRequest) : gmultiset Z :=
  list_to_set_disj (channels request) ⊎ mopt (device_manifest request).

(** The outcome of a load, as the books kept beside the platform see it. *)
Definition atomic (request : InternalLoadRequest) (fault : LoadFault) (run : Ledger P * res (LoadError E) LoadedProcess * bool) : Prop :=
  let '(l, r, moved) := run in
  let b := books l in
  stray b = false /\
  match r with
  | Ok loaded =>
      ~ misses_domain request /\ live b = {[+ lp_process loaded; lp_launch_channel loaded +]} /\ mapped b = [] /\
      created b = true /\ started b = true /\ ended b = false /\
      moved = negb (bool_decide (channels request = [])) /\
      exists bytes transfers, sent b = Some (bytes, transfers) /\
        (fault = NoFault ->
         (exists i, init_of request = Some i /\ understood (profile request) bytes i) /\
         Forall2 (fun g x => requested_rights x = g.2 /\ x_operation x = DW_HANDLE_TRANSFER_MOVE) (grants (profile request)) transfers)
  | Err (PlatformFailed _ _ failed) =>
      (moved = false -> lent_by request ⊆ live b) /\
      (failed = false ->
       live b = (if moved then ∅ else lent_by request) /\ mapped b = [] /\
       (sent b = None -> placed b = ∅) /\ (created b = true -> ended b = true))
  | Err (LaunchFailed HandleCount) =>
      moved = false /\ (screened request = false /\ b = start_books (lent_by request) \/ stranded (lent_by request) request b)
  | Err _ => b = start_books (lent_by request) /\ moved = false
  | Panic => False
  end.

Lemma internal_atomic authority request fault (p : P) :
  bytes_ok (image request) -> typed request ->
  atomic request fault (internal authority request fault (mkLedger p (start_books (lent_by request)))).
Proof.
  intros Hok Hty.
  pose proof (internal_spec (platform := platform) (lent_by request) (screened request = false)
    (fun s => stranded (lent_by request) request (books_of s) /\ consumed s = false) authority request fault
    (mkLoader (mkLedger p (start_books (lent_by request))) (transaction_new 0) false) Hok Hty id (fun _ H1 H2 => conj H1 H2) eq_refl eq_refl eq_refl) as H.
  unfold internal, wp in *. destruct (load_process_internal _ _ _ _) as [s [loaded|e|]]; [| |done].
  - destruct H as (Hgiven & bytes & ts & [Hl Hm (Hc & Hst & He) Hs Hstray Hf] & Hu). unfold atomic, books_of in *.
    split_conj; try done. by exists bytes, ts.
  - destruct e as [e|e|e|stage cause failed]; unfold settled, untouched, atomic, books_of in *;
      try (destruct H as [H1 H2]; rewrite H1, H2; by split_conj).
    + destruct e; try (destruct H as [H1 H2]; rewrite H1, H2; by split_conj).
      destruct H as [(Hearly & H1 & H2)|[H1 H2]]; [rewrite H1, H2; split_conj; try done; by left|].
      split; [apply H1|]. split; [done|by right].
    + destruct H as [(left & Hl & Hleft) Hm Hp He Hs Hf]. unfold books_of in *. split_conj; try done.
      * intros Hmoved. rewrite Hl, Hmoved. cbn [rest_of]. multiset_solver.
      * intros ->. rewrite Hl, (Hleft eq_refl), (left_id_L ∅ (⊎)). split_conj; auto.
Qed.

(** With a domain where one is needed, an error other than the platform's is found
    before anything is touched. *)
Lemma atomic_at_once request fault l e moved :
  ~ misses_domain request -> atomic request fault (l, Err e, moved) -> (forall stage cause failed, e <> PlatformFailed stage cause failed) ->
  books l = start_books (lent_by request) /\ moved = false.
Proof.
  intros Hm [_ H] He. destruct e as [e|e|e|stage cause failed]; try done; [|by destruct (He stage cause failed)].
  destruct e; try done. destruct H as [-> [[_ ->]|[Hs _]]]; [done|by destruct Hm].
Qed.
End outcome.

(** ** The entry points *)

Section custody_flags.
Context {abi : Abi} {pabi : ProcessAbi} {P E : Type} {platform : LoaderPlatform P E}.

Definition shell_endpoints (request : WyrmshLoadRequest) : list Z :=
  [ws_stdin request; ws_stdout request; ws_stderr request; ws_console_status request; ws_registry_client request;
   ws_launch_session request].
Definition custody_flags {E'} (e : WyrmshLoadError E') : list bool :=
  [stdin_consumed _ e; stdout_consumed _ e; stderr_consumed _ e; console_status_consumed _ e; registry_client_consumed _ e;
   ws_launch_session_consumed _ e].
Definition shell_numbers (request : WyrmshLoadRequest) : list Z :=
  [ws_transaction_id request; ws_registry_generation request; ws_registry_endpoint_id request;
   ws_registry_endpoint_generation request; ws_launch_connection_id request; ws_launch_connection_generation request;
   ws_console_generation request; ws_status_generation request; ws_child_generation request; ws_outer_launch_transaction request].

(** C37: Endpoint custody of the shell launch. When [load_wyrmsh_process] fails
    on whatever platform, its six flags agree, none of the six endpoints is lost
    while they say the caller keeps them, and, unless the rollback itself was
    refused a call, the handles the loader's process is left with are exactly the
    endpoints it did not give away; when it succeeds they are exactly the process
    and the launch channel it returns. *)
Theorem wyrmsh_custody_exact authority request (p : P) :
  bytes_ok (ws_image request) -> Forall in_u64 (shell_numbers request) ->
  let lent := list_to_set_disj (shell_endpoints request) in
  match load_wyrmsh_process authority request (mkLedger p (start_books lent)) with
  | (l, Ok loaded) => live (books l) = {[+ lp_process loaded; lp_launch_channel loaded +]} /\ stray (books l) = false
  | (l, Err e) =>
      exists flag, custody_flags e = replicate 6 flag /\ stray (books l) = false /\
        (flag = false -> lent ⊆ live (books l)) /\
        ((forall stage cause, ws_error _ e <> PlatformFailed stage cause true) -> live (books l) = if flag then ∅ else lent)
  | (l, Panic) => False
  end.
Proof.
  intros Hok Hnum lent. unfold load_wyrmsh_process.
  destruct (_ || _); [by exists false|]. destruct (contains _ _); [by exists false|].
  set (request' := mkInternal _ _ _ _ _ _ _ _ _ _ _).
  assert (lent = lent_by request') as Hlent by (unfold lent_by; cbn [mopt device_manifest request' channels]; by rewrite (right_id_L ∅ (⊎))).
  rewrite Hlent.
  pose proof (internal_atomic authority request' NoFault p Hok) as H.
  destruct (internal _ _ _ _) as [[l r] moved]. cbn [with_custody].
  assert (typed request') as Hty by (intros i [= <-]; split; by inversion Hnum).
  specialize (H Hty). assert (~ misses_domain request') as Hgiven by (by intros [? _]).
  destruct r as [loaded|e|]; [by destruct H as (? & ? & ? & ?) | | by destruct H]. exists moved. pose proof (atomic_at_once request' NoFault l e moved Hgiven H) as Hnone. destruct H as [Hs H]. split_conj; try done.
  - intros ->. destruct e as [e|e|e|stage cause failed]; [by destruct Hnone as [-> _].. | by apply H].
  - intros Hf. destruct e as [e|e|e|stage cause [|]]; [by destruct Hnone as [-> ->].. | by destruct (Hf stage cause) | by apply H].
Qed.
End custody_flags.

(** C4: Atomic construction of a child. Whatever the platform answers and refuses,
    [load_process_internal] does not panic and closes or moves no handle it does
    not hold. When it succeeds the child is running, the loader's process holds
    the two returned handles and nothing else, has nothing of the child mapped,
    and an INIT sent without an injected fault is one the child's parser accepts
    as the request's message, with the rights of the profile. When a platform
    call fails, either the rollback reports a refusal of its own, and what the
    caller lent is still held if the flag says so, or every handle is closed,
    every mapping undone, the child ended, and what the caller lent is held
    exactly when the flag says so. Any other error is found before the platform is
    touched, with one exception: a request that passes the first tests but lacks the
    resource domain its profile moves never succeeds, and the [HandleCount] it ends
    with leaves the child alive, its channel, process, root and thread still held. *)
Theorem load_atomic {abi : Abi} {pabi : ProcessAbi} {P E} {platform : LoaderPlatform P E} authority request fault (p : P) :
  bytes_ok (image request) -> typed request ->
  atomic request fault (internal authority request fault (mkLedger p (start_books (lent_by request)))).
Proof. apply internal_atomic. Qed.

(** ** A concrete platform *)

(** It hands out consecutive handles and refuses one call. *)
Record Script := mkScript { next : Z; refuse : option nat }.

Definition scripted {A} (take : Z) (answer : Z -> A) (s : Script) : Script * (unit + A) :=
  match refuse s with
  | Some 0%nat => (mkScript (next s) None, inl tt)
  | Some (S n) => (mkScript (next s + take) (Some n), inr (answer (next s)))
  | None => (mkScript (next s + take) None, inr (answer (next s)))
  end.

#[global] Program Instance script_platform : LoaderPlatform Script unit := {
  channel_create s _ := scripted 2 (fun h => (h, h + 1)) s;
  duplicate s _ _ := scripted 1 id s;
  close s _ := scripted 0 (fun _ => tt) s;
  process_create s _ := scripted 3 (fun h => mkCreated h (h + 1) (h + 2)) s;
  memory_create s _ _ := scripted 1 id s;
  materialize_parent_with s _ _ size _ n f :=
    match scripted 0 (fun _ => tt) s with
    | (s, inl e) => (s, Err e)
    | (s, inr _) =>
        (s, if n <? 0 then Err tt else match f (replicate (Z.to_nat n) 0) with Some _ => Ok (mkMapping 4096 size) | None => Panic end)
    end;
  unmap_parent s _ _ := scripted 0 (fun _ => tt) s;
  map_child s _ _ _ _ _ := scripted 0 (fun _ => tt) s;
  unmap_child s _ _ _ := scripted 0 (fun _ => tt) s;
  thread_create s _ _ := scripted 1 id s;
  send_init s _ _ _ := scripted 0 (fun _ => tt) s;
  thread_start s _ _ _ _ _ := scripted 0 (fun _ => tt) s;
  thread_terminate s _ := scripted 0 (fun _ => tt) s;
  process_terminate s _ := scripted 0 (fun _ => tt) s }.
Next Obligation.
  intros s ? ? size ? n f Hf. cbn. destruct (scripted 0 _ s) as [s' [e|[]]]; [done|].
  destruct (Z.ltb_spec n 0); [done|]. destruct (f (replicate (Z.to_nat n) 0)) eqn:Hb; [done|].
  destruct (Hf (replicate (Z.to_nat n) 0)); [|done]. rewrite length_replicate. lia.
Qed.

Definition sample_process_abi : ProcessAbi := {|
  DW_RIGHT_EXECUTE := 512; DW_HANDLE_TRANSFER_MOVE := 1;
  DW_MEMORY_PROTECTION_READ := 1; DW_MEMORY_PROTECTION_WRITE := 2; DW_MEMORY_PROTECTION_EXECUTE := 4 |}.
Definition sample_authority : LoadAuthority := mkAuthority 1 2 3.
Definition sample_shell : WyrmshLoadRequest :=
  mkWyrmshLoad ElfThms.sample_image 11 12 13 14 15 16 1 2 3 4 5 6 7 8 9 10.
Definition sample_driver_load : InternalLoadRequest :=
  mkInternal ElfThms.sample_image DeviceDriver 9 (Legacy DRIVER_PATH) [11] None None (Some (1, 2, 3, 4, 5, 6)) None None None.

Lemma sample_bytes_ok : bytes_ok ElfThms.sample_image.
Proof. by apply (bool_decide_unpack _). Qed.

Lemma sample_driver_typed : typed sample_driver_load.
Proof. intros i [= <-]. split; [by split|]. apply (bool_decide_unpack _). by vm_compute. Qed.

(** The load of a driver when the call [refused] is refused. *)
Definition sample_run (refused : option nat) : Ledger Script * res (LoadError unit) LoadedProcess * bool :=
  internal (abi := sample_abi) (pabi := sample_process_abi) sample_authority sample_driver_load NoFault
    (mkLedger (mkScript 100 refused) (start_books (lent_by sample_driver_load))).

Lemma load_atomic_witness :
  bytes_ok (image sample_driver_load) /\ typed sample_driver_load /\
  (exists l, sample_run None = (l, Ok (mkLoaded 103 102), true) /\ live (books l) = {[+ 103; 102 +]}) /\
  exists l, sample_run (Some 20%nat) = (l, Err (PlatformFailed InitSend tt false), false) /\ live (books l) = {[+ 11 +]}.
Proof.
  split; [apply sample_bytes_ok|]. split; [apply sample_driver_typed|].
  assert (forall refused, atomic (abi := sample_abi) (pabi := sample_process_abi) sample_driver_load NoFault (sample_run refused)) as H.
  { intros refused. unfold sample_run. apply load_atomic; [apply sample_bytes_ok | apply sample_driver_typed]. }
  split.
  - assert (((sample_run None).1.2, (sample_run None).2) = (Ok (mkLoaded 103 102), true)) as Hr by by vm_compute.
    specialize (H None). destruct (sample_run None) as [[l r] moved]. injection Hr as -> ->.
    exists l. split; [done|]. apply H.
  - assert (((sample_run (Some 20%nat)).1.2, (sample_run (Some 20%nat)).2) = (Err (PlatformFailed InitSend tt false), false)) as Hr
      by by vm_compute.
    specialize (H (Some 20%nat)). destruct (sample_run (Some 20%nat)) as [[l r] moved].
    injection Hr as -> ->. exists l. split; [done|]. destruct H as [_ [_ H]]. destruct (H eq_refl) as [-> _]. by vm_compute.
Defined.

Lemma wyrmsh_custody_exact_witness :
  bytes_ok (ws_image sample_shell) /\ Forall in_u64 (shell_numbers sample_shell) /\
  exists l loaded, load_wyrmsh_process (abi := sample_abi) (pabi := sample_process_abi) sample_authority sample_shell
      (mkLedger (mkScript 100 None) (start_books (list_to_set_disj (shell_endpoints sample_shell)))) = (l, Ok loaded) /\
    live (books l) = {[+ lp_process loaded; lp_launch_channel loaded +]}.
Proof.
  assert (Forall in_u64 (shell_numbers sample_shell)) as Hnum by (apply (bool_decide_unpack _); by vm_compute).
  split; [apply sample_bytes_ok|]. split; [done|].
  pose proof (wyrmsh_custody_exact (abi := sample_abi) (pabi := sample_process_abi) (E := unit) sample_authority sample_shell
    (mkScript 100 None) sample_bytes_ok Hnum) as H. cbv zeta in H.
  set (run := load_wyrmsh_process _ _ _) in *.
  assert (run.2 = Ok (mkLoaded 103 102)) as Hr by (subst run; by vm_compute). clearbody run.
  destruct run as [l r]. cbn in Hr. subst r. exists l, (mkLoaded 103 102). split; [done|]. apply H.
Defined.


