(* ===== verification/Stream.v ===== *)
(** * Byte streams over channels (crates/wyrmroot-runtime/src/stream.rs)

    A process reads and writes a stream in WRST records: [NativeInput] keeps the
    unread part of one record, [NativeOutput] cuts what it is given into records.
    The kernel is a [StreamSystem].  A loop that the code does not bound itself
    answers [None] while it is still running after the given number of rounds. *)

From stdpp Require Import base tactics option list list_numbers.
From Stdlib Require Import ZArith Lia.
From S2P Require Import Prelude Bytes StreamProto Launch StateM Supervision.

Class StreamAbi := {
  DW_SIGNAL_WRITABLE : Z; DW_STATUS_PEER_CLOSED : Z; DW_STATUS_WOULD_BLOCK : Z }.

(** ** Loops *)

(** [loop { ... }], each round of which goes on with [inl] or returns with [inr]. *)
Fixpoint rounds {S E A B} (fuel : nat) (body : A -> SM S E (A + B)) (a : A) (s : S) : S * option (res E B) :=
  match fuel with
  | O => (s, None)
  | S fuel =>
      match body a s with
      | (s, Ok (inl a)) => rounds fuel body a s
      | (s, Ok (inr b)) => (s, Some (Ok b))
      | (s, Err e) => (s, Some (Err e))
      | (s, Panic) => (s, Some Panic)
      end
  end.

Module Stream.

Inductive NativeOutputError :=
| InvalidObjectInfo | InvalidMemoryObjectInfo | InvalidChannelReceive | InvalidMappedRange | InvalidLoaderOutput
| InvalidWaitResult | InvalidTaskTerminationInfo | DeadlineOverflow.
Inductive NativeError := Status (status : Z) | Output (e : NativeOutputError).

Definition MAX_RECEIVED_HANDLES : Z := 16.
(** [DwReceivedHandleInfoV1::default()] *)
Definition default_handle : Launch.HandleInfo := Launch.mkHandle 0 0 0 0 [0; 0].

(** A receive fills the caller's buffers, which keep their lengths. *)
Class StreamSystem (P : Type) := {
  receive : P -> Z -> list Z -> list Launch.HandleInfo
            -> P * (NativeError + Supervision.ReceiveCounts) * list Z * list Launch.HandleInfo;
  send : P -> Z -> list Z -> P * (NativeError + unit);
  close : P -> Z -> P * (NativeError + unit);
  wait : P -> Z -> Z -> P * (NativeError + Z);
  receive_keeps_bytes p channel bytes handles : length (receive p channel bytes handles).1.2 = length bytes;
  receive_keeps_handles p channel bytes handles : length (receive p channel bytes handles).2 = length handles }.

Inductive StreamError :=
| Native (e : NativeError) | WouldBlock | Eof | Broken | Protocol | ReceivedHandles | Failed | LaunchFailed (e : Launch.LaunchError).

Record StreamEndpoint := mkEndpoint { endpoint_handle : Z }.
Definition from_validated_handle (handle : Z) : res StreamError StreamEndpoint :=
  if handle =? 0 then Err Protocol else Ok (mkEndpoint handle).

Record JobV2Streams := mkStreams { stdin : StreamEndpoint; stdout : StreamEndpoint; stderr : StreamEndpoint }.

(** ** Input state *)

Record NativeInput := mkInput {
  in_endpoint : StreamEndpoint; record : list Z; offset : Z; used : Z; eof : bool; failed : bool }.
Definition input_new (endpoint : StreamEndpoint) : NativeInput :=
  mkInput endpoint (replicate (Z.to_nat StreamProto.MAX_PAYLOAD_BYTES) 0) 0 0 false false.
Definition set_record (r : list Z) (i : NativeInput) : NativeInput :=
  mkInput (in_endpoint i) r (offset i) (used i) (eof i) (failed i).
Definition set_window (o u : Z) (i : NativeInput) : NativeInput :=
  mkInput (in_endpoint i) (record i) o u (eof i) (failed i).
Definition set_eof (i : NativeInput) : NativeInput :=
  mkInput (in_endpoint i) (record i) (offset i) (used i) true (failed i).
Definition set_failed (i : NativeInput) : NativeInput :=
  mkInput (in_endpoint i) (record i) (offset i) (used i) (eof i) true.

(** [NativeInput::drain], on the part of the output it is given: the input, that
    part and the count. *)
Definition drain (i : NativeInput) (output : list Z) : res StreamError (NativeInput * list Z * Z) :=
  let! rest := minus (used i) (offset i) in
  let count := Z.min (len output) rest in
  let! end_ := plus (offset i) count in
  let! bytes := or_panic (get_range (record i) (offset i) end_) in
  let! output := or_panic (put_range output 0 bytes) in
  let i := set_window end_ (used i) i in
  let i := if offset i =? used i then set_window 0 0 i else i in
  Ok (i, output, count).

Record NativeOutput := mkOutput { out_endpoint : StreamEndpoint }.

Section stream.
Context {abi : Launch.Abi} {sabi : SupervisionAbi} {stabi : StreamAbi} {P : Type} {system : StreamSystem P}.

Definition JOB_V2_STREAM_RIGHTS : Z :=
  Z.lor (Z.lor (Z.lor Launch.DW_RIGHT_READ Launch.DW_RIGHT_WRITE) Launch.DW_RIGHT_WAIT) Launch.DW_RIGHT_INSPECT.

Definition extract_job_v2_streams (bytes : list Z) (handles : list Launch.HandleInfo) : res Launch.LaunchError JobV2Streams :=
  let! _ := Launch.parse_init Launch.JobV2Streams bytes handles in
  let! h0 := or_panic (get_at handles 0) in
  let! h1 := or_panic (get_at handles 1) in
  let! h2 := or_panic (get_at handles 2) in
  Ok (mkStreams (mkEndpoint (Launch.handle h0)) (mkEndpoint (Launch.handle h1)) (mkEndpoint (Launch.handle h2))).

Definition INPUT_WAIT_SIGNALS : Z := Z.lor DW_SIGNAL_READABLE DW_SIGNAL_PEER_CLOSED.
Definition OUTPUT_WAIT_SIGNALS : Z := Z.lor DW_SIGNAL_WRITABLE DW_SIGNAL_PEER_CLOSED.
Definition CHANNEL_OBSERVED_SIGNALS : Z := Z.lor (Z.lor DW_SIGNAL_READABLE DW_SIGNAL_WRITABLE) DW_SIGNAL_PEER_CLOSED.

Definition classify (error : NativeError) : StreamError :=
  match error with
  | Status status => if status =? DW_STATUS_WOULD_BLOCK then WouldBlock else Native error
  | _ => Native error
  end.

(** ** Reading *)

(** A reader at work: the system, the input and the caller's buffer. *)
Record Reading := mkReading { r_system : P; r_input : NativeInput; r_output : list Z }.
Definition RM := SM Reading StreamError.

Definition update_input (f : NativeInput -> NativeInput) : RM unit :=
  modify (fun r => mkReading (r_system r) (f (r_input r)) (r_output r)).
(** A pure step. *)
Definition liftr {A} (c : res StreamError A) : RM A := fun r => (r, c).

Definition input_observe_wait (observed : Z) : RM unit :=
  if negb (Z.ldiff observed CHANNEL_OBSERVED_SIGNALS =? 0) then throw Protocol
  else if (Z.land observed DW_SIGNAL_READABLE =? 0) && negb (Z.land observed DW_SIGNAL_PEER_CLOSED =? 0)
  then update_input set_eof
  else mret tt.

Definition wait_readable : RM unit := fun r =>
  if failed (r_input r) then (r, Err Failed)
  else match wait (r_system r) (endpoint_handle (in_endpoint (r_input r))) INPUT_WAIT_SIGNALS with
  | (p, inl e) => (mkReading p (r_input r) (r_output r), Err (classify e))
  | (p, inr observed) => input_observe_wait observed (mkReading p (r_input r) (r_output r))
  end.

(** [for received in handles], every close's answer ignored *)
Fixpoint close_received (handles : list Launch.HandleInfo) (p : P) : P :=
  match handles with
  | [] => p
  | received :: handles =>
      close_received handles (if Launch.handle received =? 0 then p else (close p (Launch.handle received)).1)
  end.
Definition input_fail (handles : list Launch.HandleInfo) : RM unit := fun r =>
  (mkReading (close_received handles (r_system r)) (set_failed (r_input r)) (r_output r), Ok tt).

(** [copied += self.drain(&mut output[copied..])] *)
Definition drain_into (copied : Z) : RM Z := fun r =>
  match (let! room := or_panic (get_from (r_output r) copied) in
         let! drained := drain (r_input r) room in
         let '(input, room, count) := drained in
         let! output := or_panic (put_range (r_output r) copied room) in
         let! copied := plus copied count in
         Ok (input, output, copied)) with
  | Ok (input, output, copied) => (mkReading (r_system r) input output, Ok copied)
  | Err e => (r, Err e)
  | Panic => (r, Panic)
  end.

Inductive Received := Counts (c : Supervision.ReceiveCounts) (wire : list Z) (handles : list Launch.HandleInfo) | Refused (e : NativeError).
(** [system.receive] into fresh buffers. *)
Definition receive_record : RM Received := fun r =>
  let '(p, answer, wire, handles) :=
    receive (r_system r) (endpoint_handle (in_endpoint (r_input r)))
      (replicate (Z.to_nat StreamProto.MAX_RECORD_BYTES) 0) (replicate (Z.to_nat MAX_RECEIVED_HANDLES) default_handle) in
  (mkReading p (r_input r) (r_output r),
   Ok match answer with inr counts => Counts counts wire handles | inl e => Refused e end).

(** The new record replaces the drained one. *)
Definition keep_record (payload : list Z) : RM unit :=
  _ ← update_input (set_window 0 (len payload));
  i ← gets r_input;
  updated ← liftr (or_panic (put_range (record i) 0 payload));
  update_input (set_record updated).

(** One round of the loop of [NativeInput::read]. *)
Definition read_round (copied : Z) : RM (Z + Z) :=
  i ← gets r_input;
  size ← gets (fun r => len (r_output r));
  if negb (offset i =? used i) then
    copied ← drain_into copied;
    mret (if copied =? size then inr copied else inl copied)
  else if eof i then
    (if copied =? 0 then throw Eof else mret (inr copied))
  else
  received ← receive_record;
  match received with
  | Refused error =>
      if (match error with Status status => status =? DW_STATUS_PEER_CLOSED | _ => false end) then
        _ ← update_input set_eof; mret (inl copied)
      else
        match classify error with
        | WouldBlock => if negb (copied =? 0) then mret (inr copied) else throw WouldBlock
        | error => throw error
        end
  | Counts counts wire handles =>
      if (Supervision.c_bytes counts >? len wire) || (Supervision.c_handles counts >? len handles) then
        _ ← input_fail handles; throw Protocol
      else if negb (Supervision.c_handles counts =? 0) then
        moved ← liftr (or_panic (get_range handles 0 (Supervision.c_handles counts)));
        _ ← input_fail moved; throw ReceivedHandles
      else
      bytes ← liftr (or_panic (get_range wire 0 (Supervision.c_bytes counts)));
      match StreamProto.decode_data bytes with
      | Ok data => _ ← keep_record (StreamProto.payload data); mret (inl copied)
      | Err _ => _ ← update_input set_failed; throw Protocol
      | Panic => liftr Panic
      end
  end.

Definition read (fuel : nat) (r : Reading) : Reading * option (res StreamError Z) :=
  if len (r_output r) =? 0 then (r, Some (Ok 0))
  else if failed (r_input r) then (r, Some (Err Failed))
  else rounds fuel read_round 0 r.

(** ** Writing *)

Definition WM := SM P StreamError.
Definition liftw {A} (c : res StreamError A) : WM A := fun p => (p, c).

Definition output_observe_wait (observed : Z) : res StreamError unit :=
  reject_if! negb (Z.ldiff observed CHANNEL_OBSERVED_SIGNALS =? 0) with Protocol;;
  reject_if! negb (Z.land observed DW_SIGNAL_PEER_CLOSED =? 0) with Broken;;
  Ok tt.

Definition wait_writable (o : NativeOutput) : WM unit := fun p =>
  match wait p (endpoint_handle (out_endpoint o)) OUTPUT_WAIT_SIGNALS with
  | (p, inl e) => (p, Err (classify e))
  | (p, inr observed) => (p, output_observe_wait observed)
  end.

(** The answer of [system.send], its error classified. *)
Definition send_record (o : NativeOutput) (wire : list Z) : WM (StreamError + unit) := fun p =>
  match send p (endpoint_handle (out_endpoint o)) wire with
  | (p, inr tt) => (p, Ok (inr tt))
  | (p, inl error) =>
      (p, Ok (inl (if (match error with Status status => status =? DW_STATUS_PEER_CLOSED | _ => false end) then Broken
                   else classify error)))
  end.

(** One round of [while committed != bytes.len()]. *)
Definition write_round (o : NativeOutput) (bytes : list Z) (committed : Z) : WM (Z + Z) :=
  if committed =? len bytes then mret (inr committed)
  else
  rest ← liftw (minus (len bytes) committed);
  let packet := Z.min rest StreamProto.MAX_PAYLOAD_BYTES in
  end_ ← liftw (plus committed packet);
  payload ← liftw (or_panic (get_range bytes committed end_));
  encoded ← liftw (map_err (fun _ => Protocol) (StreamProto.encode_data payload (replicate (Z.to_nat StreamProto.MAX_RECORD_BYTES) 0)));
  let '(size, wire) := encoded in
  wire ← liftw (or_panic (get_range wire 0 size));
  answer ← send_record o wire;
  match answer with
  | inr _ => committed ← liftw (plus committed packet); mret (inl committed)
  | inl error =>
      if (match error with WouldBlock | Broken => true | _ => false end) && negb (committed =? 0) then mret (inr committed)
      else throw error
  end.

(** Every round but the last commits a byte. *)
Definition write (o : NativeOutput) (bytes : list Z) (p : P) : P * option (res StreamError Z) :=
  if len bytes =? 0 then (p, Some (Ok 0)) else rounds (S (length bytes)) (write_round o bytes) 0 p.

(** The outcome of a call of [write], as a value. *)
Definition written_by (o : NativeOutput) (bytes : list Z) : WM (StreamError + Z) := fun p =>
  match write o bytes p with
  | (p, Some (Ok written)) => (p, Ok (inr written))
  | (p, Some (Err error)) => (p, Ok (inl error))
  | (p, _) => (p, Panic)
  end.

(** One round of [write_wait]. *)
Definition write_wait_round (o : NativeOutput) (bytes : list Z) (committed : Z) : WM (Z + Z) :=
  if committed =? len bytes then mret (inr committed)
  else
  suffix ← liftw (or_panic (get_from bytes committed));
  answer ← written_by o suffix;
  match answer with
  | inr written =>
      committed ← liftw (plus committed written);
      if committed =? len bytes then mret (inr committed)
      else _ ← wait_writable o; mret (inl committed)
  | inl WouldBlock => _ ← wait_writable o; mret (inl committed)
  | inl error => throw error
  end.
Definition write_wait (fuel : nat) (o : NativeOutput) (bytes : list Z) (p : P) : P * option (res StreamError Z) :=
  rounds fuel (write_wait_round o bytes) 0 p.
End stream.

End Stream.
