(* ===== verification/StreamThms.v ===== *)
(** * Streams carry exactly the bytes that were written

    A kernel channel is an interface: a queue of datagrams from one endpoint to
    the other ([Conduit]).  On any such channel the records of a writer and the
    buffer of a reader, each acting in steps of one kernel call, form a byte
    stream: nothing is lost, repeated or reordered, whatever the sizes of the
    reads and writes. *)

From stdpp Require Import base tactics option list list_numbers.
From Stdlib Require Import ZArith Lia.
From S2P Require Import Prelude Bytes StreamProto Launch LaunchThms StateM Supervision Stream.
Import Stream.
Local Open Scope Z_scope.

(** ** Loops *)

(** The loop has returned, in [Q] with a value or in [R] with an error. *)
Definition ends {S E B} (Q : B -> S -> Prop) (R : E -> S -> Prop) (run : S * option (res E B)) : Prop :=
  match run with
  | (s, Some (Ok b)) => Q b s
  | (s, Some (Err e)) => R e s
  | _ => False
  end.
(** The same if it has returned. *)
Definition may_end {S E B} (Q : B -> S -> Prop) (R : E -> S -> Prop) (run : S * option (res E B)) : Prop :=
  run.2 = None \/ ends Q R run.

Section rounds.
Context {S E A B : Type} (body : A -> SM S E (A + B)) (Q : B -> S -> Prop) (R : E -> S -> Prop).

Lemma rounds_total (I : nat -> A -> S -> Prop) :
  (forall n a s, I n a s ->
     wp (body a) (fun next s' => match next with inl a' => exists n', (n' < n)%nat /\ I n' a' s' | inr b => Q b s' end) R s) ->
  forall fuel n a s, I n a s -> (n < fuel)%nat -> ends Q R (rounds fuel body a s).
Proof.
  intros Hbody. induction fuel as [|fuel IH]; intros n a s HI Hn; [lia|]. specialize (Hbody n a s HI). unfold wp in Hbody.
  cbn [rounds]. destruct (body a s) as [s' [[a'|b]|e|]]; try done. destruct Hbody as (n' & Hlt & HI'). apply (IH n'); [done|lia].
Qed.

Lemma rounds_partial (I : A -> S -> Prop) :
  (forall a s, I a s -> wp (body a) (fun next s' => match next with inl a' => I a' s' | inr b => Q b s' end) R s) ->
  forall fuel a s, I a s -> may_end Q R (rounds fuel body a s).
Proof.
  intros Hbody. induction fuel as [|fuel IH]; intros a s HI; [by left|]. specialize (Hbody a s HI). unfold wp in Hbody.
  cbn [rounds]. destruct (body a s) as [s' [[a'|b]|e|]]; [by apply IH | by right.. | done].
Qed.
End rounds.

(** ** The reader's record *)

(** The record of the input still holds [rest]. *)
Record retains (i : NativeInput) (rest : list Z) : Prop := mkRetains {
  rt_size : len (record i) = StreamProto.MAX_PAYLOAD_BYTES;
  rt_split : exists pre post, record i = pre ++ rest ++ post /\ offset i = len pre /\ used i = len pre + len rest }.

Lemma retains_new e : retains (input_new e) [].
Proof. split; [done|]. by exists [], (replicate 1024 0). Qed.

Lemma retains_empty i : len (record i) = StreamProto.MAX_PAYLOAD_BYTES -> retains (set_window 0 0 i) [].
Proof. intros H. split; [done|]. by exists [], (record i). Qed.

Lemma retains_drained i rest : retains i rest -> (offset i =? used i) = bool_decide (rest = []).
Proof.
  intros [_ (pre & post & _ & -> & ->)]. destruct rest; [by rewrite Z.add_0_r, Z.eqb_refl|].
  rewrite bool_decide_eq_false_2 by done. apply Z.eqb_neq. cbn. lia.
Qed.

(** What the calls leave alone. *)
Definition same_flags (i i' : NativeInput) : Prop := in_endpoint i' = in_endpoint i /\ eof i' = eof i /\ failed i' = failed i.

Lemma input_drain_spec i rest room :
  retains i rest -> len room < 2 ^ 63 ->
  let n := Nat.min (length room) (length rest) in
  exists i', drain i room = Ok (i', take n rest ++ drop n room, Z.of_nat n) /\ retains i' (drop n rest) /\ same_flags i i'.
Proof.
  intros [Hsz (pre & post & Hrec & Ho & Hu)] Hroom n. unfold drain, StreamProto.MAX_PAYLOAD_BYTES in *.
  assert (len pre + len rest + len post = 1024) as Hlen by (rewrite Hrec, !length_app in Hsz; lia).
  rewrite (proj2 (minus_Ok _ _ (len rest))) by lia. cbn [res_bind].
  replace (Z.min (len room) (len rest)) with (Z.of_nat n) by lia.
  rewrite (proj2 (plus_Ok _ _ (len pre + Z.of_nat n))) by lia. cbn [res_bind].
  assert (get_range (record i) (offset i) (len pre + Z.of_nat n) = Some (take n rest)) as ->.
  { rewrite Hrec, Ho. replace (Z.of_nat n) with (len (take n rest)) by (rewrite length_take; lia).
    rewrite <-(take_drop n rest) at 1. rewrite <-app_assoc. apply get_range_middle. }
  cbn [or_panic res_bind].
  assert (put_range room 0 (take n rest) = Some (take n rest ++ drop n room)) as ->.
  { apply put_range_Some. rewrite length_take. split_conj; [lia|lia|].
    by replace (Z.to_nat (0 + Z.of_nat (n `min` length rest))) with n by lia. }
  cbn [or_panic res_bind set_window offset used]. eexists. split; [reflexivity|]. rewrite Hu.
  destruct (Z.eqb_spec (len pre + Z.of_nat n) (len pre + len rest)) as [He|He].
  - split; [|done]. rewrite drop_ge by lia. by apply retains_empty.
  - split; [|done]. split; [done|]. exists (pre ++ take n rest), post. cbn [record set_window offset used].
    rewrite Hrec, <-app_assoc. rewrite length_app, length_take, length_drop. split_conj; [|lia|lia].
    f_equal. by rewrite app_assoc, take_drop.
Qed.

(** The reader at work: [copied] bytes are in the buffer, [rest] in the record. *)
Record reads {P} (r : Reading (P := P)) (copied : Z) (done_ rest : list Z) : Prop := mkReads {
  rd_retains : retains (r_input r) rest;
  rd_room : exists room, r_output r = done_ ++ room /\ copied = len done_;
  rd_small : len (r_output r) < 2 ^ 62 }.

Section reader.
Context {abi : Abi} {sabi : SupervisionAbi} {stabi : StreamAbi} {P : Type} {system : StreamSystem P}.
Implicit Types (r : Reading (P := P)).

Lemma drain_into_spec copied done_ rest r Q (R : StreamError -> Reading -> Prop) :
  reads r copied done_ rest ->
  (forall r', let n := Nat.min (length (r_output r) - length done_) (length rest) in
     reads r' (copied + Z.of_nat n) (done_ ++ take n rest) (drop n rest) -> r_system r' = r_system r ->
     same_flags (r_input r) (r_input r') -> length (r_output r') = length (r_output r) -> Q (copied + Z.of_nat n) r') ->
  wp (drain_into copied) Q R r.
Proof.
  intros [Hr (room & Hout & ->) Hs] HQ. cbv zeta in HQ. rewrite Hout, length_app in HQ, Hs.
  replace (length done_ + length room - length done_)%nat with (length room) in HQ by lia.
  unfold wp, drain_into. rewrite Hout, get_from_app. cbn [or_panic res_bind].
  destruct (input_drain_spec _ _ room Hr) as (i' & -> & Hr' & Hf); [lia|]. cbn [res_bind].
  set (n := Nat.min (length room) (length rest)) in *.
  assert (put_range (done_ ++ room) (len done_) (take n rest ++ drop n room) = Some (done_ ++ take n rest ++ drop n room)) as ->.
  { apply put_range_Some. rewrite !length_app, length_take, length_drop. split_conj; [lia|lia|].
    rewrite Nat2Z.id, take_app_length, (drop_ge (done_ ++ room)) by (rewrite length_app; lia). by rewrite app_nil_r. }
  cbn [or_panic res_bind]. rewrite (proj2 (plus_Ok _ _ (len done_ + Z.of_nat n))) by lia. cbn [res_bind].
  apply HQ; try done.
  - split; [done| |cbn [r_output]; rewrite !length_app, length_take, length_drop; lia].
    exists (drop n room). cbn [r_output]. rewrite <-app_assoc. split; [done|]. rewrite length_app, length_take. lia.
  - cbn [r_output]. rewrite !length_app, length_take, length_drop. lia.
Qed.

Lemma keep_record_spec payload r copied done_ Q (R : StreamError -> Reading -> Prop) :
  reads r copied done_ [] -> len payload <= StreamProto.MAX_PAYLOAD_BYTES ->
  (forall r', reads r' copied done_ payload -> r_system r' = r_system r -> same_flags (r_input r) (r_input r') ->
     r_output r' = r_output r -> Q tt r') ->
  wp (keep_record payload) Q R r.
Proof.
  intros [[Hsz _] Hroom Hs] Hp HQ. unfold keep_record. wp_step. apply wp_modify. wp_step. apply wp_gets. wp_step.
  cbn [r_input set_window record]. destruct (put_range (record (r_input r)) 0 payload) as [rec|] eqn:Hput.
  2:{ exfalso. apply eq_None_not_Some in Hput. apply Hput, put_range_is_Some. lia. }
  unfold wp at 1. cbn [liftr or_panic]. apply wp_modify. apply HQ; try done. split; try done.
  pose proof (length_put_range _ _ _ _ Hput). apply put_range_Some in Hput as (_ & _ & ->).
  split; cbn [r_input set_record set_window record offset used] in *; [lia|].
  exists [], (drop (Z.to_nat (0 + len payload)) (record (r_input r))). done.
Qed.
End reader.

(** ** Channels *)

(** One direction of a kernel channel, from the endpoint [sender] of one process
    to the endpoint [receiver] of another: the datagrams accepted so far, how many
    of them were delivered, and whether the sending side is closed.  Only this
    sender adds to the log; while it waits, datagrams may be delivered. *)
Class Conduit {sabi : SupervisionAbi} {stabi : StreamAbi} (P : Type) {system : StreamSystem P} (sender receiver : Z) := {
  log : P -> list (list Z);
  seen : P -> nat;
  sealed : P -> bool;
  seen_le p : (seen p <= length (log p))%nat;
  closed_is_not_blocked : DW_STATUS_PEER_CLOSED <> DW_STATUS_WOULD_BLOCK;
  send_law p wire :
    match send p sender wire with
    | (p', inr _) => log p' = log p ++ [wire] /\ seen p' = seen p /\ sealed p = false /\ sealed p' = false
    | (p', inl _) => log p' = log p /\ seen p' = seen p /\ sealed p' = sealed p
    end;
  receive_law p wire handles :
    match drop (seen p) (log p) with
    | [] => exists p' w h, receive p receiver wire handles =
              (p', inl (Status (if sealed p then DW_STATUS_PEER_CLOSED else DW_STATUS_WOULD_BLOCK)), w, h) /\
              log p' = log p /\ seen p' = seen p /\ sealed p' = sealed p
    | d :: _ => len d <= len wire ->
            exists p' w h, receive p receiver wire handles = (p', inr (Supervision.mkCounts (len d) 0), w, h) /\
              take (length d) w = d /\ log p' = log p /\ seen p' = S (seen p) /\ sealed p' = sealed p
    end;
  wait_receiver_law p signals :
    let '(p', r) := wait p receiver signals in
    log p' = log p /\ seen p' = seen p /\ sealed p' = sealed p /\
    forall observed, r = inr observed -> Z.land observed DW_SIGNAL_READABLE = 0 -> Z.land observed DW_SIGNAL_PEER_CLOSED <> 0 ->
      drop (seen p) (log p) = [] /\ sealed p = true;
  wait_sender_law p signals :
    let p' := (wait p sender signals).1 in log p' = log p /\ (seen p <= seen p')%nat /\ sealed p' = sealed p }.

Section conduit.
Context {abi : Abi} {sabi : SupervisionAbi} {stabi : StreamAbi} {P : Type} {system : StreamSystem P} {tx rx : Z}
  {conduit : Conduit P tx rx}.
Implicit Types (r : Reading (P := P)) (p : P).

Definition queued p : list (list Z) := drop (seen p) (log p).

(** Every datagram is a record, and what the records carry. *)
Definition framed p : Prop := Forall (fun d => exists pl, StreamProto.decode_data d = Ok pl) (queued p).
Definition payload_of (d : list Z) : list Z := match StreamProto.decode_data d with Ok pl => StreamProto.payload pl | _ => [] end.
Definition pending p : list Z := concat (payload_of <$> queued p).

Lemma decoded_small d pl :
  StreamProto.decode_data d = Ok pl -> len (StreamProto.payload pl) <= StreamProto.MAX_PAYLOAD_BYTES /\ len d <= StreamProto.MAX_RECORD_BYTES.
Proof.
  destruct pl as [pl]. intros (_ & Hl & Hm)%StreamProto.decode_data_spec. unfold StreamProto.MAX_RECORD_BYTES. cbn. lia.
Qed.

(** The state of a reader of the channel. *)
Record reader (r : Reading) (copied : Z) (done_ rest : list Z) : Prop := mkReader {
  re_reads : reads r copied done_ rest;
  re_live : failed (r_input r) = false;
  re_endpoint : endpoint_handle (in_endpoint (r_input r)) = rx;
  re_framed : framed (r_system r);
  re_eof : eof (r_input r) = true -> sealed (r_system r) = true /\ queued (r_system r) = [] }.

(** The rounds a read can still make. *)
Definition work r (rest : list Z) : nat :=
  2 * length (queued (r_system r)) + (if rest then 0 else 1) + (if eof (r_input r) then 0 else 1).

(** [r'] continues [r]: the bytes are the same, none moved back. *)
Record continues r (done_ rest : list Z) r' (done' rest' : list Z) : Prop := mkContinues {
  ct_bytes : done' ++ rest' ++ pending (r_system r') = done_ ++ rest ++ pending (r_system r);
  ct_size : length (r_output r') = length (r_output r);
  ct_log : log (r_system r') = log (r_system r);
  ct_seen : (seen (r_system r) <= seen (r_system r'))%nat;
  ct_sealed : sealed (r_system r') = sealed (r_system r) }.

Lemma read_round_spec copied done_ rest r :
  reader r copied done_ rest -> (length done_ < length (r_output r))%nat ->
  wp (read_round copied)
    (fun next r' => exists done' rest', continues r done_ rest r' done' rest' /\
       match next with
       | inl c => reader r' c done' rest' /\ (length done' < length (r_output r))%nat /\ (work r' rest' < work r rest)%nat
       | inr n => reader r' n done' rest' /\ 0 < n <= len (r_output r)
       end)
    (fun e r' => continues r done_ rest r' done_ rest /\ reader r' copied done_ rest /\ done_ = [] /\ rest = [] /\
       queued (r_system r') = [] /\ e = if sealed (r_system r) then Eof else WouldBlock) r.
Proof.
  intros [Hrd Hlive Hend Hfr Heof] Hroom. pose proof Hrd as [Hret (room & Hout & Hc) Hsmall].
  unfold read_round. wp_step. apply wp_gets. wp_step. apply wp_gets. rewrite (retains_drained _ _ Hret).
  destruct (bool_decide_reflect (rest = [])) as [->|Hne]; cbn [negb].
  2:{ wp_step. eapply drain_into_spec; [exact Hrd|]. intros r' n Hr' Hsys (Hf1 & Hf2 & Hf3) Hlen. apply wp_ret.
      exists (done_ ++ take n rest), (drop n rest).
      assert (0 < length rest)%nat by (destruct rest; [done|cbn; lia]).
      assert (0 < n)%nat by (unfold n; lia).
      split. { split; [|done|by rewrite Hsys|by rewrite Hsys|by rewrite Hsys]. rewrite Hsys, <-app_assoc. f_equal. by rewrite app_assoc, take_drop. }
      assert (reader r' (copied + Z.of_nat n) (done_ ++ take n rest) (drop n rest)) as Hre.
      { split; [done|congruence|congruence|by rewrite Hsys|]. rewrite Hf2, Hsys. exact Heof. }
      destruct (Z.eqb_spec (copied + Z.of_nat n) (len (r_output r))) as [He|He].
      - split; [done|]. lia.
      - assert (drop n rest = []) as Hd by (apply drop_ge; unfold n in *; lia).
        split; [done|]. rewrite length_app, length_take. split; [unfold n in *; lia|].
        unfold work. rewrite Hd, Hf2, Hsys. destruct rest; [done|]. lia. }
  destruct (eof (r_input r)) eqn:He.
  { destruct (Heof eq_refl) as [Hs Hq]. destruct (Z.eqb_spec copied 0) as [H0|H0].
    - apply wp_throw. assert (done_ = []) as -> by (apply length_zero_iff_nil; lia). rewrite Hs. split_conj; try done.
    - apply wp_ret. exists done_, []. split; [done|]. split; [done|]. rewrite Hout, length_app. lia. }
  wp_step. unfold wp at 1, receive_record. rewrite Hend.
  pose proof (receive_law (r_system r) (replicate (Z.to_nat StreamProto.MAX_RECORD_BYTES) 0)
    (replicate (Z.to_nat MAX_RECEIVED_HANDLES) default_handle)) as Hlaw.
  destruct (drop (seen (r_system r)) (log (r_system r))) as [|d q] eqn:Hq; fold (queued (r_system r)) in Hq.
  { destruct Hlaw as (p' & w & h & -> & Hlog & Hseen & Hseal). cbv beta iota zeta.
    set (r1 := mkReading p' (r_input r) (r_output r)).
    assert (queued p' = []) as Hq' by (unfold queued in *; by rewrite Hseen, Hlog).
    assert (Hreads : forall i, retains i [] -> reads (mkReading p' i (r_output r)) copied done_ []).
    { intros i Hi. split; [done| |done]. by exists room. }
    assert (Hct : forall i, continues r done_ [] (mkReading p' i (r_output r)) done_ []).
    { intros i. split; try done; cbn [r_system]; [|lia]. unfold pending. by rewrite Hq, Hq'. }
    assert (Hfr' : framed p') by (unfold framed; rewrite Hq'; constructor).
    destruct (sealed (r_system r)) eqn:Hs.
    - rewrite Z.eqb_refl. wp_step. apply wp_modify. apply wp_ret. exists done_, []. split; [apply Hct|].
      split; [|split; [done|]].
      + split; try done. apply Hreads. by destruct Hret.
      + unfold work. cbn. rewrite He, Hq, Hq'. cbn. lia.
    - rewrite (proj2 (Z.eqb_neq _ _)) by (pose proof closed_is_not_blocked; congruence).
      cbn [classify]. rewrite Z.eqb_refl. assert (Hre : reader r1 copied done_ []).
      { split; try done; [by apply Hreads | cbn; congruence]. }
      destruct (Z.eqb_spec copied 0) as [H0|H0]; cbn [negb].
      + apply wp_throw. assert (done_ = []) as -> by (apply length_zero_iff_nil; lia). split_conj; try done. apply Hct.
      + apply wp_ret. exists done_, []. split; [apply Hct|]. split; [done|]. rewrite Hout, length_app. lia. }
  assert (exists pl, StreamProto.decode_data d = Ok pl) as [pl Hpl] by (unfold framed in Hfr; rewrite Hq in Hfr; by inversion Hfr).
  destruct (decoded_small _ _ Hpl) as [Hpay Hd].
  destruct Hlaw as (p' & w & h & Hrecv & Hw & Hlog & Hseen & Hseal); [by rewrite length_replicate|].
  pose proof (receive_keeps_bytes (r_system r) rx (replicate (Z.to_nat StreamProto.MAX_RECORD_BYTES) 0)
    (replicate (Z.to_nat MAX_RECEIVED_HANDLES) default_handle)) as Hkeep. rewrite Hrecv in *. cbn [fst snd] in Hkeep.
  rewrite length_replicate in Hkeep. cbv beta iota zeta. cbn [Supervision.c_bytes Supervision.c_handles].
  rewrite (gtb_false (len d) (len w)) by (rewrite Hkeep; exact Hd). rewrite (gtb_false 0 (len h)) by lia. cbn [orb negb Z.eqb].
  assert (len d <= len w) as Hdw by (rewrite Hkeep; exact Hd).
  rewrite get_range_take_nat, Hw by lia. wp_step. unfold wp at 1. cbn [liftr or_panic]. rewrite Hpl.
  assert (queued p' = q) as Hq'.
  { unfold queued in *. rewrite Hseen, Hlog. change (S (seen (r_system r))) with (1 + seen (r_system r))%nat.
    rewrite Nat.add_comm, <-drop_drop, Hq. done. }
  wp_step. eapply (keep_record_spec _ _ copied done_); [split; [done|by exists room|done] | done |].
  intros r' Hr' Hsys (Hf1 & Hf2 & Hf3) Hout'. apply wp_ret. cbn [r_system r_input r_output] in *.
  exists done_, (StreamProto.payload pl). split.
  - split; rewrite ?Hsys, ?Hout'; try done; [|lia]. unfold pending. rewrite Hq', Hq. cbn [fmap list_fmap concat].
    unfold payload_of at 2. by rewrite Hpl.
  - split; [|split; [done|]].
    + split; [done|congruence|congruence| |rewrite Hf2; congruence]. unfold framed in *. rewrite Hsys, Hq'. rewrite Hq in Hfr. by inversion Hfr.
    + unfold work. rewrite Hsys, Hq', Hq, Hf2, He. destruct (StreamProto.payload pl); cbn; lia.
Qed.

Lemma continues_trans r0 d0 e0 r1 d1 e1 r2 d2 e2 :
  continues r0 d0 e0 r1 d1 e1 -> continues r1 d1 e1 r2 d2 e2 -> continues r0 d0 e0 r2 d2 e2.
Proof. intros [] []. split; try congruence. lia. Qed.

(** A read of a nonempty buffer returns. *)
Lemma stream_read_spec fuel r rest :
  reader r 0 [] rest -> (0 < length (r_output r))%nat -> (work r rest < fuel)%nat ->
  ends (fun n r' => exists done' rest', continues r [] rest r' done' rest' /\ reader r' n done' rest' /\ 0 < n <= len (r_output r))
    (fun e r' => continues r [] rest r' [] [] /\ reader r' 0 [] [] /\ queued (r_system r') = [] /\
       e = if sealed (r_system r) then Eof else WouldBlock) (read fuel r).
Proof.
  intros Hr Hout Hfuel. unfold read. rewrite (proj2 (Z.eqb_neq _ _)) by lia. rewrite (re_live _ _ _ _ Hr).
  apply (rounds_total _ _ _ (fun n copied r' => exists done' rest', continues r [] rest r' done' rest' /\
    reader r' copied done' rest' /\ (length done' < length (r_output r))%nat /\ n = work r' rest')) with (work r rest);
    [| by exists [], rest | done].
  clear fuel Hfuel. intros n copied r1 (d1 & e1 & H1 & Hr1 & Hl1 & ->).
  eapply wp_mono; [apply (read_round_spec _ _ _ _ Hr1); by rewrite (ct_size _ _ _ _ _ _ H1) | |].
  - intros [c|k] r2 (d2 & e2 & H2 & Hn); pose proof (continues_trans _ _ _ _ _ _ _ _ _ H1 H2) as H3.
    + destruct Hn as (Hr2 & Hl2 & Hw). exists (work r2 e2). split; [done|]. exists d2, e2. split_conj; try done.
      by rewrite (ct_size _ _ _ _ _ _ H1) in Hl2.
    + destruct Hn as (Hr2 & Hl2). exists d2, e2. rewrite (ct_size _ _ _ _ _ _ H1) in Hl2. split_conj; try done; lia.
  - intros e r2 (H2 & Hr2 & -> & -> & Hq & ->).
    pose proof (continues_trans _ _ _ _ _ _ _ _ _ H1 H2) as H3. rewrite (ct_sealed _ _ _ _ _ _ H1).
    pose proof (rd_room _ _ _ _ (re_reads _ _ _ _ Hr2)) as (room & _ & ->). by split_conj.
Qed.

(** ** The writer *)

(** From [p] to [p'] the writer sent records that carry [bytes]. *)
Record appended p p' (bytes : list Z) : Prop := mkAppended {
  ap_log : exists ds, log p' = log p ++ ds /\ Forall (fun d => exists pl, StreamProto.decode_data d = Ok pl) ds /\
             concat (payload_of <$> ds) = bytes;
  ap_seen : (seen p <= seen p')%nat;
  ap_sealed : sealed p' = sealed p;
  ap_open : sealed p = true -> log p' = log p }.

Lemma appended_nil p p' : log p' = log p -> (seen p <= seen p')%nat -> sealed p' = sealed p -> appended p p' [].
Proof. intros. split; try done. exists []. by rewrite app_nil_r. Qed.

Lemma appended_refl p : appended p p [].
Proof. by apply appended_nil. Qed.

Lemma appended_trans p1 p2 p3 xs ys : appended p1 p2 xs -> appended p2 p3 ys -> appended p1 p3 (xs ++ ys).
Proof.
  intros [(ds & H1 & F1 & <-) ? Hs1 Ho1] [(es & H2 & F2 & <-) ? ? Ho2].
  split; [|lia|congruence|intros Hs; rewrite Ho2 by congruence; auto].
  exists (ds ++ es). rewrite H2, H1, <-app_assoc, fmap_app, concat_app. split_conj; [done|by apply Forall_app|done].
Qed.

(** The record of a packet. *)
Lemma record_written payload :
  len payload <= StreamProto.MAX_PAYLOAD_BYTES ->
  exists wire d, StreamProto.encode_data payload (replicate (Z.to_nat StreamProto.MAX_RECORD_BYTES) 0) =
      Ok (StreamProto.HEADER_BYTES + len payload, wire) /\
    get_range wire 0 (StreamProto.HEADER_BYTES + len payload) = Some d /\ StreamProto.decode_data d = Ok (StreamProto.Build_Data payload).
Proof.
  intros Hp. destruct (StreamProto.encode_data_spec payload (replicate (Z.to_nat StreamProto.MAX_RECORD_BYTES) 0)) as (wire & He & Hlen & Hrec & _);
    [done | rewrite length_replicate; unfold StreamProto.MAX_RECORD_BYTES in *; unfold StreamProto.HEADER_BYTES, StreamProto.MAX_PAYLOAD_BYTES in *; lia|].
  rewrite length_replicate in Hlen. unfold StreamProto.MAX_RECORD_BYTES, StreamProto.HEADER_BYTES, StreamProto.MAX_PAYLOAD_BYTES in *.
  exists wire, (take (Z.to_nat (24 + len payload)) wire). split_conj; [done| |].
  - apply get_range_Some. rewrite Z.sub_0_r, drop_0. split_conj; try lia. done.
  - apply StreamProto.decode_data_spec. unfold StreamProto.MAX_PAYLOAD_BYTES, StreamProto.HEADER_BYTES. split_conj; [|rewrite length_take; lia|done].
    destruct Hrec as (? & ? & ? & ? & ? & ? & ? & ? & ?). unfold StreamProto.record_of, StreamProto.HEADER_BYTES in *.
    rewrite !get_le_take, !get_range_take by lia. by split_conj.
Qed.

Lemma send_record_spec o d Q (R : StreamError -> P -> Prop) p :
  endpoint_handle (out_endpoint o) = tx ->
  (forall p' pl, StreamProto.decode_data d = Ok pl -> appended p p' (StreamProto.payload pl) -> Q (inr tt) p') ->
  (forall p' e, appended p p' [] -> Q (inl e) p') ->
  (exists pl, StreamProto.decode_data d = Ok pl) ->
  wp (send_record o d) Q R p.
Proof.
  intros Ho H1 H2 [pl Hpl]. unfold wp, send_record. rewrite Ho. pose proof (send_law p d) as Hlaw.
  destruct (send p tx d) as [p' [e|[]]].
  - destruct Hlaw as (? & Hs & ?). apply H2, appended_nil; [done|lia|done].
  - destruct Hlaw as (Hlog & Hs & Hs1 & Hs2). apply (H1 p' pl Hpl). split; [|lia|congruence|congruence].
    exists [d]. split_conj; [done|by repeat econstructor|]. cbn. unfold payload_of. rewrite Hpl. apply app_nil_r.
Qed.

(** What a call of the writer has done to the channel: [n] bytes went out. *)
Definition put_out (bytes : list Z) p n p' : Prop := 0 <= n <= len bytes /\ appended p p' (take (Z.to_nat n) bytes).

Lemma wp_liftw {A B} (c : res StreamError A) a (k : A -> WM (P := P) B) Q R p :
  c = Ok a -> wp (k a) Q R p -> wp (a ← liftw c; k a) Q R p.
Proof. intros -> H. exact H. Qed.

Lemma write_round_spec o bytes committed p :
  endpoint_handle (out_endpoint o) = tx -> len bytes < 2 ^ 62 -> 0 <= committed <= len bytes ->
  wp (write_round o bytes committed)
    (fun next p' => match next with
       | inl c => committed < c <= len bytes /\ appended p p' (take (Z.to_nat (c - committed)) (drop (Z.to_nat committed) bytes))
       | inr n => appended p p' [] /\ n = committed /\ (n = len bytes \/ 0 < n)
       end)
    (fun e p' => appended p p' [] /\ committed < len bytes /\ (e = WouldBlock \/ e = Broken -> committed = 0)) p.
Proof.
  intros Ho Hlen Hc. unfold write_round.
  destruct (Z.eqb_spec committed (len bytes)) as [->|Hne]; [apply wp_ret; split_conj; auto using appended_refl|].
  set (packet := Z.min (len bytes - committed) StreamProto.MAX_PAYLOAD_BYTES).
  assert (0 < packet <= 1024) as Hpk by (unfold packet, StreamProto.MAX_PAYLOAD_BYTES; lia).
  assert (committed + packet <= len bytes) as Hend by (unfold packet; lia).
  eapply wp_liftw; [apply minus_Ok; split; [reflexivity|lia]|]. cbv zeta. fold packet.
  eapply wp_liftw; [apply plus_Ok; split; [reflexivity|lia]|].
  destruct (get_range bytes committed (committed + packet)) as [payload|] eqn:Hpay.
  2:{ exfalso. apply eq_None_not_Some in Hpay. apply Hpay, get_range_is_Some. lia. }
  eapply wp_liftw; [reflexivity|]. pose proof (length_get_range _ _ _ _ Hpay) as Hplen. apply get_range_Some in Hpay as (_ & _ & _ & Hpay).
  destruct (record_written payload) as (wire & d & He & Hd & Hdec); [unfold StreamProto.MAX_PAYLOAD_BYTES; lia|].
  eapply wp_liftw; [by rewrite He|]. cbv beta iota. eapply wp_liftw; [by rewrite Hd|].
  wp_step. apply send_record_spec; [done | | |by eexists].
  - intros p' pl Hpl Hsent. rewrite Hdec in Hpl. injection Hpl as <-. cbn [StreamProto.payload] in Hsent.
    eapply wp_liftw; [apply plus_Ok; split; [reflexivity|lia]|]. apply wp_ret.
    split; [lia|]. by rewrite <-Hpay.
  - intros p' e Hnone.
    destruct (_ && _) eqn:Hb.
    + apply wp_ret. apply andb_true_iff in Hb as [_ Hb]. apply negb_true_iff, Z.eqb_neq in Hb. split_conj; try done; try lia.
    + apply wp_throw. split; [done|]. split; [lia|]. intros He'. destruct (Z.eqb_spec committed 0); [done|].
      by destruct He' as [-> | ->].
Qed.

Lemma put_out_more bytes p0 c p n p' :
  put_out bytes p0 c p -> 0 <= n -> c + n <= len bytes -> appended p p' (take (Z.to_nat n) (drop (Z.to_nat c) bytes)) ->
  put_out bytes p0 (c + n) p'.
Proof.
  intros [Hc Hap] Hn Hle Hs. split; [lia|]. pose proof (appended_trans _ _ _ _ _ Hap Hs) as H.
  replace (Z.to_nat (c + n)) with (Z.to_nat c + Z.to_nat n)%nat by lia. by rewrite take_take_drop in H.
Qed.

Lemma put_out_same bytes p0 c p p' : put_out bytes p0 c p -> appended p p' [] -> put_out bytes p0 c p'.
Proof. intros [Hc Hap] Hs. split; [done|]. rewrite <-(app_nil_r (take _ _)). by eapply appended_trans. Qed.

(** A write always returns. *)
Lemma write_spec o bytes p :
  endpoint_handle (out_endpoint o) = tx -> len bytes < 2 ^ 62 ->
  ends (fun n p' => put_out bytes p n p' /\ (bytes <> [] -> 0 < n))
    (fun e p' => exists n, put_out bytes p n p' /\ n < len bytes /\ (e = WouldBlock \/ e = Broken -> n = 0)) (write o bytes p).
Proof.
  intros Ho Hlen. unfold write. destruct (Z.eqb_spec (len bytes) 0) as [Hz|Hz].
  - apply (f_equal Z.to_nat) in Hz. rewrite Nat2Z.id in Hz. apply nil_length_inv in Hz as ->. split; [|done]. split; [done|]. apply appended_refl.
  - apply (rounds_total _ _ _ (fun n c p' => put_out bytes p c p' /\ n = Z.to_nat (len bytes - c))) with (length bytes); [| |lia].
    + intros n c p1 [Hp ->]. pose proof Hp as [Hc _]. eapply wp_mono; [by apply (write_round_spec o bytes c) | |].
      * intros [c'|k] p2 H; cbv beta iota in H.
        -- destruct H as [Hc' H]. exists (Z.to_nat (len bytes - c')). split; [lia|]. split; [|done].
           replace c' with (c + (c' - c)) by lia. eapply put_out_more; [done|lia|lia|done].
        -- destruct H as (H & -> & Hk). split; [by eapply put_out_same|]. lia.
      * intros e p2 (? & ? & ?). exists c. split_conj; try done. by eapply put_out_same.
    + split; [|lia]. split; [lia|]. apply appended_refl.
Qed.

Lemma wait_writable_spec o p0 bytes n p (Q : unit -> P -> Prop) (R : StreamError -> P -> Prop) :
  endpoint_handle (out_endpoint o) = tx -> put_out bytes p0 n p ->
  (forall p', put_out bytes p0 n p' -> Q tt p') -> (forall e p', put_out bytes p0 n p' -> R e p') ->
  wp (wait_writable o) Q R p.
Proof.
  intros Ho [Hn Hap] HQ HR. unfold wp, wait_writable. rewrite Ho. pose proof (wait_sender_law p OUTPUT_WAIT_SIGNALS) as Hlaw.
  cbv zeta in Hlaw. assert (put_out bytes p0 n (wait p tx OUTPUT_WAIT_SIGNALS).1) as Hw.
  { eapply put_out_same; [by split|]. destruct Hlaw as (? & ? & ?). by apply appended_nil. }
  destruct (wait p tx OUTPUT_WAIT_SIGNALS) as [p' [e|observed]]; cbn [fst] in Hw; [by apply HR|].
  unfold output_observe_wait. destruct (negb _); [by apply HR|]. destruct (negb _); [by apply HR|by apply HQ].
Qed.

Lemma write_wait_spec fuel o bytes p :
  endpoint_handle (out_endpoint o) = tx -> len bytes < 2 ^ 62 ->
  may_end (fun n p' => n = len bytes /\ appended p p' bytes)
    (fun e p' => exists n, put_out bytes p n p' /\ n < len bytes) (write_wait fuel o bytes p).
Proof.
  intros Ho Hlen. unfold write_wait.
  apply rounds_partial with (fun c p' => put_out bytes p c p'); [|split; [lia|apply appended_refl]].
  clear fuel. intros c p1 Hp. unfold write_wait_round. pose proof Hp as [Hc Hap].
  assert (Hdone : forall p', put_out bytes p (len bytes) p' -> appended p p' bytes).
  { intros p' [_ H]. by rewrite Nat2Z.id, take_ge in H by lia. }
  destruct (Z.eqb_spec c (len bytes)) as [->|Hne]; [apply wp_ret; auto|].
  eapply wp_liftw. { unfold get_from, or_panic. by rewrite (proj2 (get_range_Some bytes c (len bytes) (take (Z.to_nat (len bytes - c)) (drop (Z.to_nat c) bytes)))) by (split_conj; [lia..|done]). }
  rewrite take_ge by (rewrite length_drop; lia). set (suffix := drop _ _).
  assert (len suffix = len bytes - c) as Hsuf by (unfold suffix; rewrite length_drop; lia).
  assert (Hmore : forall n p', put_out suffix p1 n p' -> put_out bytes p (c + n) p').
  { intros n p' [Hn Hs]. eapply put_out_more; [done|lia|lia|done]. }
  wp_step. pose proof (write_spec o suffix p1 Ho ltac:(lia)) as Hw. unfold wp at 1, written_by.
  destruct (write o suffix p1) as [p2 [[n|e|]|]]; try done.
  - destruct Hw as [Hn Hpos]. pose proof (Hmore _ _ Hn) as Hm. assert (0 < n) by (apply Hpos; destruct suffix; cbn in *; [lia|done]).
    destruct Hn as [Hn _]. eapply wp_liftw; [apply plus_Ok; split; [reflexivity|lia]|].
    destruct (Z.eqb_spec (c + n) (len bytes)) as [Heq|]; [apply wp_ret; rewrite Heq in *; auto|].
    wp_step. apply (wait_writable_spec o p bytes (c + n)); [done|done| |].
    + intros p' H'. by apply wp_ret.
    + intros e p' H'. exists (c + n). split; [done|lia].
  - destruct Hw as (n & Hn & Hlt & Hzero). pose proof (Hmore _ _ Hn) as Hm.
    destruct e; try (apply wp_throw; exists (c + n); split; [done|lia]).
    rewrite (Hzero (or_introl eq_refl)), Z.add_0_r in Hm. wp_step. apply (wait_writable_spec o p bytes c); [done|done| |].
    + intros p' H'. by apply wp_ret.
    + intros e p' H'. exists c. split; [done|lia].
Qed.
End conduit.
