(* ===== verification/StreamPipe.v ===== *)
(** * A stream between two processes

    A writer and a reader share a kernel channel.  The steps of the system are
    the rounds of their loops, each of one kernel call, in any order; what the
    reader's callers have received, followed by what is under way, is always what
    the writer sent. *)

From stdpp Require Import base tactics option list list_numbers relations.
From Stdlib Require Import ZArith Lia.
From S2P Require Import Prelude Bytes StreamProto Launch LaunchThms StateM Supervision Stream StreamThms.
Import Stream.
Local Open Scope Z_scope.

Section pipe.
Context {abi : Abi} {sabi : SupervisionAbi} {stabi : StreamAbi} {P : Type} {system : StreamSystem P} {tx rx : Z}
  {conduit : Conduit P tx rx}.
Implicit Types (p k : P) (i : NativeInput).

(** The kernel, the reader's input, the read and the write that are under way with
    their progress, the bytes delivered by completed reads, the bytes completed
    writes sent, and the last error of the reader. *)
Record Pipe := mkPipe {
  kernel : P; input : NativeInput; reading : option (list Z * Z); writing : option (list Z * Z);
  received : list Z; accepted : list Z; last_error : option StreamError }.

Definition buffer_ok (bytes : list Z) : Prop := bytes <> [] /\ len bytes < 2 ^ 62.

Inductive step (o : NativeOutput) : Pipe -> Pipe -> Prop :=
| begin_read k i w rcv acc l out : buffer_ok out ->
    step o (mkPipe k i None w rcv acc l) (mkPipe k i (Some (out, 0)) w rcv acc l)
| read_more k i w rcv acc l out c r' c' : read_round c (mkReading k i out) = (r', Ok (inl c')) ->
    step o (mkPipe k i (Some (out, c)) w rcv acc l) (mkPipe (r_system r') (r_input r') (Some (r_output r', c')) w rcv acc l)
| read_done k i w rcv acc l out c r' n : read_round c (mkReading k i out) = (r', Ok (inr n)) ->
    step o (mkPipe k i (Some (out, c)) w rcv acc l)
      (mkPipe (r_system r') (r_input r') None w (rcv ++ take (Z.to_nat n) (r_output r')) acc l)
| read_failed k i w rcv acc l out c r' e : read_round c (mkReading k i out) = (r', Err e) ->
    step o (mkPipe k i (Some (out, c)) w rcv acc l) (mkPipe (r_system r') (r_input r') None w rcv acc (Some e))
| read_waits k i w rcv acc l r' x : wait_readable (mkReading k i []) = (r', x) ->
    step o (mkPipe k i None w rcv acc l) (mkPipe (r_system r') (r_input r') None w rcv acc l)
| begin_write k i r rcv acc l bytes : buffer_ok bytes ->
    step o (mkPipe k i r None rcv acc l) (mkPipe k i r (Some (bytes, 0)) rcv acc l)
| write_more k i r rcv acc l bytes c k' c' : write_round o bytes c k = (k', Ok (inl c')) ->
    step o (mkPipe k i r (Some (bytes, c)) rcv acc l) (mkPipe k' i r (Some (bytes, c')) rcv acc l)
| write_done k i r rcv acc l bytes c k' n : write_round o bytes c k = (k', Ok (inr n)) ->
    step o (mkPipe k i r (Some (bytes, c)) rcv acc l) (mkPipe k' i r None rcv (acc ++ take (Z.to_nat n) bytes) l)
| write_failed k i r rcv acc l bytes c k' e : write_round o bytes c k = (k', Err e) ->
    step o (mkPipe k i r (Some (bytes, c)) rcv acc l) (mkPipe k' i r None rcv (acc ++ take (Z.to_nat c) bytes) l)
| writer_closes k i r rcv acc l k' : log k' = log k -> seen k' = seen k -> sealed k' = true ->
    step o (mkPipe k i r None rcv acc l) (mkPipe k' i r None rcv acc l).

Definition pipe_new k (e : StreamEndpoint) : Pipe := mkPipe k (input_new e) None None [] [] None.

(** ** The invariant *)

(** The bytes a write under way has sent, and the read under way. *)
Definition sent_so_far (pp : Pipe) : list Z :=
  accepted pp ++ match writing pp with Some (bytes, c) => take (Z.to_nat c) bytes | None => [] end.
Definition reading_of (pp : Pipe) : Reading :=
  mkReading (kernel pp) (input pp) (match reading pp with Some (out, _) => out | None => [] end).
Definition progress (pp : Pipe) : Z := match reading pp with Some (_, c) => c | None => 0 end.

Record pipe_inv (pp : Pipe) (done_ rest : list Z) : Prop := mkPipeInv {
  pi_reader : reader (rx := rx) (reading_of pp) (progress pp) done_ rest;
  pi_room : reading pp <> None -> (length done_ < length (r_output (reading_of pp)))%nat;
  pi_idle : reading pp = None -> done_ = [];
  pi_writing : forall bytes c, writing pp = Some (bytes, c) -> 0 <= c <= len bytes /\ len bytes < 2 ^ 62;
  pi_bytes : sent_so_far pp = received pp ++ done_ ++ rest ++ pending (kernel pp) }.

Lemma pipe_inv_new k e : endpoint_handle e = rx -> queued k = [] -> pipe_inv (pipe_new k e) [] [].
Proof.
  intros He Hq. split; try done.
  - split; try done; [|by unfold framed; cbn; rewrite Hq]. split; [apply retains_new| |done]. by exists [].
  - cbn. unfold pending. by rewrite Hq.
Qed.

(** The reader does not mind a different buffer. *)
Lemma reader_idle k i out rest : reader (rx := rx) (mkReading k i out) 0 [] rest -> forall out', len out' < 2 ^ 62 ->
  reader (rx := rx) (mkReading k i out') 0 [] rest.
Proof. intros [[] ? ? ? ?] out' Hlen. split; try done. split; try done. by exists out'. Qed.

(** The rest of a read is kept when it has returned. *)
Lemma reader_done r c done_ rest : reader (rx := rx) r c done_ rest ->
  reader (rx := rx) (mkReading (r_system r) (r_input r) []) 0 [] rest /\ take (Z.to_nat c) (r_output r) = done_.
Proof.
  intros [[Hret (room & Hout & ->) Hs] ? ? ? ?]. split.
  - split; try done. split; try done. by exists [].
  - by rewrite Hout, Nat2Z.id, take_app_length.
Qed.

(** A writer's round delivers nothing. *)
Lemma write_round_seen o bytes c k :
  endpoint_handle (out_endpoint o) = tx -> seen (write_round o bytes c k).1 = seen k.
Proof.
  intros Ho. unfold write_round. destruct (c =? len bytes); [done|]. unfold mbind, SM_bind, liftw.
  destruct (minus _ _); try done. destruct (plus _ _); try done. destruct (or_panic _); try done.
  destruct (map_err _ _) as [[size wire]|e|]; try done. destruct (or_panic _) as [d| |]; try done. unfold send_record. rewrite Ho.
  pose proof (send_law k d) as Hlaw. destruct (send k tx d) as [k' [e|[]]].
  - by destruct (_ && _), Hlaw as (_ & ? & _).
  - destruct Hlaw as (_ & ? & _). by repeat case_match.
Qed.

(** The reader after the writer's round. *)
Lemma reader_appended k i out c done_ rest k' bytes :
  reader (rx := rx) (mkReading k i out) c done_ rest -> appended k k' bytes -> seen k' = seen k ->
  reader (rx := rx) (mkReading k' i out) c done_ rest /\ pending k' = pending k ++ bytes.
Proof.
  intros [Hrd Hl He Hf Heof] [(ds & Hlog & Hds & Hb) _ Hs Hopen] Hseen. cbn [r_system r_input] in *.
  assert (queued k' = queued k ++ ds) as Hq.
  { unfold queued. rewrite Hseen, Hlog, drop_app_le; [done|]. apply seen_le. }
  split.
  - split; try done; cbn [r_system r_input].
    + by destruct Hrd.
    + unfold framed in *. rewrite Hq. by apply Forall_app.
    + intros Heo. destruct (Heof Heo) as [Hse Hqe]. split; [congruence|]. unfold queued in *. by rewrite Hseen, Hopen.
  - unfold pending. by rewrite Hq, fmap_app, concat_app, Hb.
Qed.

(** A write under way, after its round. *)
Lemma inv_write k i r rcv acc l bytes c k' w' acc' done_ rest new :
  pipe_inv (mkPipe k i r (Some (bytes, c)) rcv acc l) done_ rest -> appended k k' new -> seen k' = seen k ->
  (forall bytes c, w' = Some (bytes, c) -> 0 <= c <= len bytes /\ len bytes < 2 ^ 62) ->
  sent_so_far (mkPipe k' i r w' rcv acc' l) = acc ++ take (Z.to_nat c) bytes ++ new ->
  pipe_inv (mkPipe k' i r w' rcv acc' l) done_ rest.
Proof.
  intros [Hr Hroom Hidle Hw Hb] Hap Hseen Hw' Hsent. destruct (reader_appended _ _ _ _ _ _ _ _ Hr Hap Hseen) as [Hr' Hp].
  split; try done. rewrite Hsent. cbn [kernel received]. rewrite Hp. unfold sent_so_far in Hb. cbn in Hb.
  by rewrite app_assoc, Hb, <-!app_assoc.
Qed.

Lemma inv_read k i out c w rcv acc l r' rd' rcv' l' done_ rest done' rest' :
  pipe_inv (mkPipe k i (Some (out, c)) w rcv acc l) done_ rest ->
  continues (mkReading k i out) done_ rest r' done' rest' ->
  let pp' := mkPipe (r_system r') (r_input r') rd' w rcv' acc l' in
  forall done'', reader (rx := rx) (reading_of pp') (progress pp') done'' rest' ->
  (rd' <> None -> (length done'' < length (r_output (reading_of pp')))%nat) -> (rd' = None -> done'' = []) ->
  rcv' ++ done'' = rcv ++ done' ->
  pipe_inv pp' done'' rest'.
Proof.
  intros [Hr _ _ Hw Hb] Hct pp' done'' Hr' Hroom' Hidle' Hd. split; try done.
  change (sent_so_far pp') with (sent_so_far (mkPipe k i (Some (out, c)) w rcv acc l)). rewrite Hb. cbn [received pp' kernel].
  rewrite (app_assoc rcv' done''), Hd, <-app_assoc. f_equal. symmetry. apply (ct_bytes _ _ _ _ _ _ Hct).
Qed.

Lemma inv_waits k i w rcv acc l r' x done_ rest :
  pipe_inv (mkPipe k i None w rcv acc l) done_ rest -> wait_readable (mkReading k i []) = (r', x) ->
  pipe_inv (mkPipe (r_system r') (r_input r') None w rcv acc l) done_ rest.
Proof.
  intros [[Hrd Hlive Hend Hfr Heof] Hroom Hidle Hw Hb] Hwait. cbn [reading_of r_system r_input kernel input] in *.
  unfold wait_readable in Hwait. cbn [r_input r_system r_output] in Hwait. rewrite Hlive, Hend in Hwait. pose proof (wait_receiver_law k INPUT_WAIT_SIGNALS) as Hlaw.
  destruct (wait k rx INPUT_WAIT_SIGNALS) as [k' a]. destruct Hlaw as (Hlog & Hseen & Hseal & Hobs).
  assert (queued k' = queued k) as Hq by (unfold queued; congruence).
  assert (pending k' = pending k) as Hp by (unfold pending; congruence).
  assert (r_system r' = k' /\ (r_input r' = i \/ r_input r' = set_eof i /\ sealed k = true /\ queued k = [])) as [-> Hi].
  { destruct a as [e|observed]; [injection Hwait as <- <-; auto|]. unfold input_observe_wait in Hwait.
    destruct (negb _) eqn:?; [injection Hwait as <- <-; auto|]. destruct (_ && _) eqn:Hbits; [|injection Hwait as <- <-; auto].
    apply andb_true_iff in Hbits as [H1%Z.eqb_eq H2%negb_true_iff%Z.eqb_neq].
    destruct (Hobs observed eq_refl H1 H2). injection Hwait as <- <-. auto. }
  split; try done; [|by cbn in *; rewrite Hp].
  destruct Hi as [-> | (-> & Hs & Hqe)]; split; try done; cbn [reading_of r_system r_input kernel input];
    try (by unfold framed in *; rewrite Hq); try (by destruct Hrd as [[] ? ?]); rewrite Hseal, Hq; auto.
Qed.

(** What the rounds under way do, by the specifications of the rounds. *)
Lemma read_ran k i out c w rcv acc l done_ rest r' x :
  pipe_inv (mkPipe k i (Some (out, c)) w rcv acc l) done_ rest -> read_round c (mkReading k i out) = (r', x) ->
  match x with
  | Ok next => exists done' rest', continues (mkReading k i out) done_ rest r' done' rest' /\
      match next with
      | inl c' => reader (rx := rx) r' c' done' rest' /\ (length done' < length out)%nat
      | inr n => reader (rx := rx) r' n done' rest' /\ 0 < n
      end
  | Err e => continues (mkReading k i out) done_ rest r' done_ rest /\ reader (rx := rx) r' c done_ rest /\ done_ = [] /\ rest = [] /\
      queued (r_system r') = [] /\ e = if sealed k then Eof else WouldBlock
  | Panic => False
  end.
Proof.
  intros Hi Hrun.
  pose proof (read_round_spec c done_ rest (mkReading k i out) (pi_reader _ _ _ Hi) (pi_room _ _ _ Hi ltac:(done))) as Hwp.
  unfold wp in Hwp. rewrite Hrun in Hwp. destruct x as [[c'|n]|e|]; try done.
  - destruct Hwp as (d' & e' & Hct & Hr' & Hl & _). by exists d', e'.
  - destruct Hwp as (d' & e' & Hct & Hr' & Hn & _). by exists d', e'.
Qed.

Lemma write_ran o k i r bytes c rcv acc l done_ rest k' x :
  endpoint_handle (out_endpoint o) = tx ->
  pipe_inv (mkPipe k i r (Some (bytes, c)) rcv acc l) done_ rest -> write_round o bytes c k = (k', x) ->
  seen k' = seen k /\ 0 <= c <= len bytes /\ len bytes < 2 ^ 62 /\
  match x with
  | Ok (inl c') => c < c' <= len bytes /\ appended k k' (take (Z.to_nat (c' - c)) (drop (Z.to_nat c) bytes))
  | Ok (inr n) => n = c /\ appended k k' []
  | Err _ => appended k k' []
  | Panic => False
  end.
Proof.
  intros Ho Hi Hrun. destruct (pi_writing _ _ _ Hi bytes c eq_refl) as [Hc Hlen].
  pose proof (write_round_spec o bytes c k Ho Hlen Hc) as Hwp. unfold wp in Hwp. rewrite Hrun in Hwp.
  pose proof (write_round_seen o bytes c k Ho) as Hseen. rewrite Hrun in Hseen.
  destruct x as [[c'|n]|e|]; naive_solver.
Qed.

Definition pipe_ok (pp : Pipe) : Prop := exists done_ rest, pipe_inv pp done_ rest.

Lemma step_ok o pp pp' : endpoint_handle (out_endpoint o) = tx -> step o pp pp' -> pipe_ok pp -> pipe_ok pp'.
Proof.
  intros Ho Hstep (done_ & rest & Hi). destruct Hstep as
    [k i w rcv acc l out Hout | k i w rcv acc l out c r' c' Hrun | k i w rcv acc l out c r' n Hrun
    | k i w rcv acc l out c r' e Hrun | k i w rcv acc l r' x Hrun | k i r rcv acc l bytes Hbytes
    | k i r rcv acc l bytes c k' c' Hrun | k i r rcv acc l bytes c k' n Hrun | k i r rcv acc l bytes c k' e Hrun
    | k i r rcv acc l k' Hlog Hseen Hseal].
  - destruct Hi as [Hr _ Hidle Hw Hb]. specialize (Hidle eq_refl) as ->. exists [], rest. split; try done.
    + eapply reader_idle; [exact Hr|apply Hout].
    + intros _. cbn. destruct Hout as [Hout _]. destruct out; [done|cbn; lia].
  - destruct (read_ran _ _ _ _ _ _ _ _ _ _ _ _ Hi Hrun) as (d' & e' & Hct & Hr' & Hl). exists d', e'.
    eapply inv_read; [done|done| | |done|done]; [by destruct r'|]. intros _. cbn. by rewrite (ct_size _ _ _ _ _ _ Hct).
  - destruct (read_ran _ _ _ _ _ _ _ _ _ _ _ _ Hi Hrun) as (d' & e' & Hct & Hr' & _). exists [], e'.
    destruct (reader_done _ _ _ _ Hr') as [Hr0 Hd]. eapply inv_read; [done|done|exact Hr0|done|done|]. by rewrite app_nil_r, Hd.
  - destruct (read_ran _ _ _ _ _ _ _ _ _ _ _ _ Hi Hrun) as (Hct & Hr' & -> & -> & _). exists [], [].
    destruct (reader_done _ _ _ _ Hr') as [Hr0 _]. by eapply inv_read.
  - eexists _, _. by eapply inv_waits.
  - exists done_, rest. destruct Hi as [Hr Hroom Hidle Hw Hb]. destruct Hbytes as [Hne Hlen]. split; try done.
    intros b c [= <- <-]. lia.
  - exists done_, rest. destruct (write_ran _ _ _ _ _ _ _ _ _ _ _ _ _ Ho Hi Hrun) as (Hseen & Hc & Hlen & Hc' & Hap).
    eapply inv_write; [done|exact Hap|done| |].
    + intros b x [= <- <-]. lia.
    + unfold sent_so_far. cbn. rewrite take_take_drop. do 2 f_equal. lia.
  - exists done_, rest. destruct (write_ran _ _ _ _ _ _ _ _ _ _ _ _ _ Ho Hi Hrun) as (Hseen & _ & _ & -> & Hap).
    eapply inv_write; [done|exact Hap|done|done|]. unfold sent_so_far. cbn. by rewrite !app_nil_r.
  - exists done_, rest. destruct (write_ran _ _ _ _ _ _ _ _ _ _ _ _ _ Ho Hi Hrun) as (Hseen & _ & _ & Hap).
    eapply inv_write; [done|exact Hap|done|done|]. unfold sent_so_far. cbn. by rewrite !app_nil_r.
  - exists done_, rest. destruct Hi as [[Hrd Hl He Hf Heof] Hroom Hidle Hw Hb]. cbn [reading_of r_system r_input kernel input] in *.
    assert (queued k' = queued k) as Hq by (unfold queued; congruence).
    split; try done; [|by unfold pending in *; cbn in *; rewrite Hq].
    split; try done; cbn [reading_of r_system r_input kernel input]; [by destruct Hrd | by unfold framed in *; rewrite Hq |].
    intros Heo. destruct (Heof Heo) as [_ ?]. by rewrite Hq.
Qed.

Lemma pipe_reachable_ok k e o pp :
  endpoint_handle e = rx -> endpoint_handle (out_endpoint o) = tx -> queued k = [] -> rtc (step o) (pipe_new k e) pp -> pipe_ok pp.
Proof.
  intros He Ho Hq Hrun. assert (pipe_ok (pipe_new k e)) as Hok by (eexists _, _; by apply pipe_inv_new).
  clear He Hq. induction Hrun; eauto using step_ok.
Qed.

(** ** Reading to the end *)

(** [n] reads of buffers of the given size, until one fails: what they delivered
    and the error. *)
Fixpoint read_all (n fuel size : nat) (k : P) (i : NativeInput) : list Z * option StreamError :=
  match n with
  | O => ([], None)
  | S n =>
      match read fuel (mkReading k i (replicate size 0)) with
      | (r, Some (Ok m)) =>
          let '(bytes, e) := read_all n fuel size (r_system r) (r_input r) in (take (Z.to_nat m) (r_output r) ++ bytes, e)
      | (_, Some (Err e)) => ([], Some e)
      | _ => ([], None)
      end
  end.

Lemma stream_read_all_spec n fuel size k i rest :
  reader (rx := rx) (mkReading k i []) 0 [] rest -> (0 < size)%nat -> Z.of_nat size < 2 ^ 62 ->
  (length (rest ++ pending k) < n)%nat -> (2 * length (queued k) + 2 < fuel)%nat ->
  read_all n fuel size k i = (rest ++ pending k, Some (if sealed k then Eof else WouldBlock)).
Proof.
  revert k i rest. induction n as [|n IH]; intros k i rest Hr Hsize Hmax Hn Hfuel; [lia|]. cbn [read_all].
  set (r0 := mkReading k i (replicate size 0)).
  assert (reader (rx := rx) r0 0 [] rest) as Hr0 by (eapply reader_idle; [done|]; by rewrite length_replicate).
  pose proof (stream_read_spec fuel r0 rest Hr0) as Hread. cbn [r0 r_output] in Hread. rewrite length_replicate in Hread.
  specialize (Hread Hsize). assert (work r0 rest < fuel)%nat as Hw by (unfold work; cbn; destruct rest, (eof i); lia).
  specialize (Hread Hw). unfold ends in Hread. destruct (read fuel r0) as [r [[m|e|]|]]; try done.
  - destruct Hread as (d & rest' & Hct & Hr' & Hm). destruct (reader_done _ _ _ _ Hr') as [Hr1 Hd].
    pose proof (ct_bytes _ _ _ _ _ _ Hct) as Hb. cbn [app r_system r0] in Hb.
    pose proof (rd_room _ _ _ _ (re_reads _ _ _ _ Hr')) as (room & _ & Hmd).
    rewrite (IH (r_system r) (r_input r) rest' Hr1 Hsize Hmax).
    + cbn [fst snd]. rewrite Hd, Hb. by rewrite (ct_sealed _ _ _ _ _ _ Hct).
    + rewrite <-Hb, length_app in Hn. lia.
    + unfold queued in *. rewrite length_drop in *. rewrite (ct_log _ _ _ _ _ _ Hct). pose proof (ct_seen _ _ _ _ _ _ Hct). cbn in *. lia.
  - destruct Hread as (Hct & _ & Hq & ->). pose proof (ct_bytes _ _ _ _ _ _ Hct) as Hb. cbn [app r_system r0] in Hb.
    unfold pending in Hb at 1. rewrite Hq in Hb. cbn in Hb. by rewrite <-Hb.
Qed.

(** C11: A stream loses, repeats and reorders nothing. Start a reader and a writer
    on an empty channel and let their loops take rounds of one kernel call in any
    order, with reads, writes and waits of any sizes: in every state reached, what
    the completed reads delivered is a prefix of what the writer has sent, no round
    can panic, a write that reports [n] bytes has sent exactly the first [n], and
    the reader sees the end of the stream only when the writer is closed and every
    byte was delivered. *)
Theorem stream_lossless k e o pp :
  endpoint_handle e = rx -> endpoint_handle (out_endpoint o) = tx -> queued k = [] -> rtc (step o) (pipe_new k e) pp ->
  received pp `prefix_of` sent_so_far pp /\
  (forall out c, reading pp = Some (out, c) ->
     let '(r', x) := read_round c (mkReading (kernel pp) (input pp) out) in
     x <> Panic /\ (x = Err Eof -> sealed (kernel pp) = true /\ received pp = sent_so_far pp)) /\
  (forall bytes c, writing pp = Some (bytes, c) ->
     let '(k', x) := write_round o bytes c (kernel pp) in
     x <> Panic /\ forall n, x = Ok (inr n) -> n = c /\ sent_so_far pp = accepted pp ++ take (Z.to_nat n) bytes).
Proof.
  intros He Ho Hq Hrun. destruct (pipe_reachable_ok _ _ _ _ He Ho Hq Hrun) as (done_ & rest & Hi).
  destruct pp as [k' i r w rcv acc l]. pose proof (pi_bytes _ _ _ Hi) as Hb. split_conj.
  - rewrite Hb. by apply prefix_app_r.
  - intros out c [= ->]. destruct (read_round c _) as [r' x] eqn:Hx. pose proof (read_ran _ _ _ _ _ _ _ _ _ _ _ _ Hi Hx) as Hr.
    split; [by intros ->|]. intros ->. destruct Hr as (Hct & _ & -> & -> & Hq' & Heof).
    destruct (sealed k') eqn:Hs; [|done]. split; [done|]. rewrite Hb. cbn [received kernel app].
    pose proof (ct_bytes _ _ _ _ _ _ Hct) as Hp. cbn [app r_system] in Hp. rewrite <-Hp.
    unfold pending. rewrite Hq'. by rewrite app_nil_r.
  - intros bytes c [= ->]. destruct (write_round o bytes c _) as [k2 x] eqn:Hx.
    destruct (write_ran _ _ _ _ _ _ _ _ _ _ _ _ _ Ho Hi Hx) as (_ & _ & _ & Hw). split; [by intros ->|].
    intros n ->. by destruct Hw as [-> _].
Qed.

(** C34: A closed stream is delivered to the end. From every state reached by a
    reader and a writer, once neither is in a call and the writer has closed its
    side, reads of any nonempty buffer size deliver all bytes that were sent and
    not yet received and then report the end of the stream, after at most one read
    per byte and one more; before the writer closes the last answer is
    [WouldBlock] instead. *)
Theorem stream_drains k e o pp size n fuel :
  endpoint_handle e = rx -> endpoint_handle (out_endpoint o) = tx -> queued k = [] -> rtc (step o) (pipe_new k e) pp ->
  reading pp = None -> writing pp = None -> (0 < size)%nat -> Z.of_nat size < 2 ^ 62 ->
  (length (accepted pp) - length (received pp) < n)%nat -> (2 * length (queued (kernel pp)) + 2 < fuel)%nat ->
  exists bytes, read_all n fuel size (kernel pp) (input pp) = (bytes, Some (if sealed (kernel pp) then Eof else WouldBlock)) /\
    received pp ++ bytes = accepted pp.
Proof.
  intros He Ho Hq Hrun Hr Hw Hsize Hmax Hn Hfuel. destruct (pipe_reachable_ok _ _ _ _ He Ho Hq Hrun) as (done_ & rest & Hi).
  pose proof (pi_idle _ _ _ Hi Hr) as ->. pose proof (pi_bytes _ _ _ Hi) as Hb. unfold sent_so_far in Hb. rewrite Hw, app_nil_r in Hb.
  cbn [app] in Hb. exists (rest ++ pending (kernel pp)). split; [|done].
  apply stream_read_all_spec; try done.
  - pose proof (pi_reader _ _ _ Hi) as H. unfold reading_of, progress in H. by rewrite Hr in H.
  - apply (f_equal length) in Hb. rewrite !length_app in *. lia.
Qed.
End pipe.

(** ** A concrete channel *)

Definition sample_sabi : SupervisionAbi := {|
  DW_DEADLINE_INFINITE := 0; DW_SIGNAL_EXITED := 8; DW_SIGNAL_PEER_CLOSED := 4; DW_SIGNAL_READABLE := 1;
  DW_TASK_STATE_EXITED := 1; DW_TASK_TERMINATION_INFO_V1_SIZE := 64; DW_TERMINATION_NORMAL_EXIT := 1 |}.
Definition sample_stabi : StreamAbi := {|
  DW_SIGNAL_WRITABLE := 2; DW_STATUS_PEER_CLOSED := -5; DW_STATUS_WOULD_BLOCK := -6 |}.

(** A channel of four datagrams from handle 1 to handle 2. *)
Record Queue := mkQueue { q_done : list (list Z); q_left : list (list Z); q_sealed : bool }.

Definition queue_receive (q : Queue) (channel : Z) (wire : list Z) (handles : list Launch.HandleInfo)
    : Queue * (NativeError + Supervision.ReceiveCounts) * list Z * list Launch.HandleInfo :=
  match q_left q with
  | d :: ds =>
      if len d <=? len wire then
        (mkQueue (q_done q ++ [d]) ds (q_sealed q), inr (Supervision.mkCounts (len d) 0), d ++ drop (length d) wire, handles)
      else (q, inl (Output InvalidChannelReceive), wire, handles)
  | [] => (q, inl (Status (if q_sealed q then -5 else -6)), wire, handles)
  end.
Definition queue_send (q : Queue) (channel : Z) (wire : list Z) : Queue * (NativeError + unit) :=
  if q_sealed q then (q, inl (Status (-5))) else if len (q_left q) >=? 4 then (q, inl (Status (-6)))
  else (mkQueue (q_done q) (q_left q ++ [wire]) false, inr tt).
Definition queue_wait (q : Queue) (channel signals : Z) : Queue * (NativeError + Z) :=
  (q, inr (match q_left q with [] => if q_sealed q then 4 else 2 | _ => 3 end)).
#[global] Program Instance queue_system : StreamSystem Queue := {
  receive := queue_receive; send := queue_send; close q channel := (q, inr tt); wait := queue_wait }.
Next Obligation.
  intros q channel wire handles. unfold queue_receive. destruct (q_left q) as [|d ds]; [done|].
  destruct (Z.leb_spec (len d) (len wire)); [|done]. cbn. rewrite length_app, length_drop. lia.
Qed.
Next Obligation. intros q channel wire handles. unfold queue_receive. by repeat case_match. Qed.

Lemma queue_drop (q : Queue) : drop (length (q_done q)) (q_done q ++ q_left q) = q_left q.
Proof. by rewrite drop_app_length. Qed.

#[global] Program Instance queue_conduit : Conduit (sabi := sample_sabi) (stabi := sample_stabi) Queue 1 2 := {
  log q := q_done q ++ q_left q; seen q := length (q_done q); sealed := q_sealed }.
Next Obligation. intros q. cbn. rewrite length_app. lia. Qed.
Next Obligation. done. Qed.
Next Obligation.
  intros q wire. cbn. unfold queue_send. destruct (q_sealed q) eqn:Hs; [done|]. destruct (_ >=? _); [done|]. cbn. by rewrite <-app_assoc.
Qed.
Next Obligation.
  intros q wire handles. cbn. rewrite queue_drop. unfold queue_receive. destruct (q_left q) as [|d ds] eqn:Hq.
  - eexists _, _, _. split; [reflexivity|]. cbn. by rewrite Hq.
  - intros Hle%Z.leb_le. rewrite Hle. eexists _, _, _. split; [reflexivity|]. cbn. rewrite take_app_length, length_app, <-app_assoc.
    split_conj; try done. cbn. lia.
Qed.
Next Obligation.
  intros q signals. cbn. rewrite queue_drop. split_conj; try done. intros observed [= <-]. by destruct (q_left q), (q_sealed q).
Qed.
Next Obligation. intros q signals. cbn. split_conj; done. Qed.

Definition sample_output : NativeOutput := mkOutput (mkEndpoint 1).
Definition sample_pipe : Pipe := pipe_new (P := Queue) (mkQueue [] [] false) (mkEndpoint 2).
Definition sample_sent : Pipe :=
  mkPipe (mkQueue [] [[87; 82; 83; 84; 1; 0; 0; 0; 24; 0; 1; 0; 0; 0; 0; 0; 3; 0; 0; 0; 0; 0; 0; 0; 7; 8; 9]] false)
    (input_new (mkEndpoint 2)) None (Some ([7; 8; 9], 3)) [] [] None.
Definition sample_closed : Pipe :=
  mkPipe (mkQueue [] (q_left (kernel sample_sent)) true) (input_new (mkEndpoint 2)) None None [] [7; 8; 9] None.

Lemma sample_steps :
  rtc (step (sabi := sample_sabi) (stabi := sample_stabi) sample_output) sample_pipe sample_sent.
Proof.
  eapply rtc_l; [apply begin_write with (bytes := [7; 8; 9]); by split|].
  eapply rtc_l; [eapply write_more; by vm_compute|]. apply rtc_refl.
Qed.

Lemma sample_closes :
  rtc (step (sabi := sample_sabi) (stabi := sample_stabi) sample_output) sample_pipe sample_closed.
Proof.
  eapply rtc_trans; [apply sample_steps|]. eapply rtc_l; [eapply write_done; by vm_compute|].
  eapply rtc_l; [by apply writer_closes with (k' := kernel sample_closed)|]. apply rtc_refl.
Qed.

Lemma stream_lossless_witness :
  rtc (step (sabi := sample_sabi) (stabi := sample_stabi) sample_output) sample_pipe sample_sent /\
  received sample_sent `prefix_of` sent_so_far sample_sent.
Proof.
  split; [apply sample_steps|].
  exact (proj1 (stream_lossless (conduit := queue_conduit) (mkQueue [] [] false) (mkEndpoint 2) sample_output sample_sent
    eq_refl eq_refl eq_refl sample_steps)).
Defined.

Lemma stream_drains_witness :
  rtc (step (sabi := sample_sabi) (stabi := sample_stabi) sample_output) sample_pipe sample_closed /\
  exists bytes, read_all (stabi := sample_stabi) 4 5 2 (kernel sample_closed) (input sample_closed) = (bytes, Some Eof) /\
    bytes = [7; 8; 9].
Proof.
  split; [apply sample_closes|].
  destruct (stream_drains (conduit := queue_conduit) (mkQueue [] [] false) (mkEndpoint 2) sample_output sample_closed 2 4 5
    eq_refl eq_refl eq_refl sample_closes eq_refl eq_refl) as (bytes & H1 & H2); [lia|lia|cbn; lia|vm_compute; lia|].
  exists bytes. split; [exact H1|exact H2].
Defined.
