(* ===== verification/Sha256.v ===== *)
(** * SHA-256 (crates/wyrmroot-runtime/src/sha256.rs)

    The digest that binds immutable artifacts.  Arrays are lists; an index out of
    range is [Panic].  A 32-bit word is a [Z] and its operations reduce modulo
    [2 ^ 32]. *)

From stdpp Require Import base tactics option list list_numbers.
From Stdlib Require Import ZArith Lia.
From S2P Require Import Prelude Bytes.

Module Sha256.

Definition INITIAL : list Z :=
  [0x6A09E667; 0xBB67AE85; 0x3C6EF372; 0xA54FF53A; 0x510E527F; 0x9B05688C; 0x1F83D9AB; 0x5BE0CD19].

Definition ROUND : list Z :=
  [0x428A2F98; 0x71374491; 0xB5C0FBCF; 0xE9B5DBA5; 0x3956C25B; 0x59F111F1; 0x923F82A4; 0xAB1C5ED5;
   0xD807AA98; 0x12835B01; 0x243185BE; 0x550C7DC3; 0x72BE5D74; 0x80DEB1FE; 0x9BDC06A7; 0xC19BF174;
   0xE49B69C1; 0xEFBE4786; 0x0FC19DC6; 0x240CA1CC; 0x2DE92C6F; 0x4A7484AA; 0x5CB0A9DC; 0x76F988DA;
   0x983E5152; 0xA831C66D; 0xB00327C8; 0xBF597FC7; 0xC6E00BF3; 0xD5A79147; 0x06CA6351; 0x14292967;
   0x27B70A85; 0x2E1B2138; 0x4D2C6DFC; 0x53380D13; 0x650A7354; 0x766A0ABB; 0x81C2C92E; 0x92722C85;
   0xA2BFE8A1; 0xA81A664B; 0xC24B8B70; 0xC76C51A3; 0xD192E819; 0xD6990624; 0xF40E3585; 0x106AA070;
   0x19A4C116; 0x1E376C08; 0x2748774C; 0x34B0BCB5; 0x391C0CB3; 0x4ED8AA4A; 0x5B9CCA4F; 0x682E6FF3;
   0x748F82EE; 0x78A5636F; 0x84C87814; 0x8CC70208; 0x90BEFFFA; 0xA4506CEB; 0xBEF9A3F7; 0xC67178F2].

(** [to_be_bytes] of [n] bytes, [from_be_bytes] *)
Definition to_be (n : nat) (v : Z) : list Z := reverse (to_le n v).
Definition of_be (bs : list Z) : Z := of_le (reverse bs).

Definition wrapping_add (a b : Z) : Z := (a + b) mod 2 ^ 32.
Definition rotate_right (x n : Z) : Z := Z.lor (Z.shiftr x n) (Z.shiftl x (32 - n) mod 2 ^ 32).
Definition complement (x : Z) : Z := Z.lxor x (2 ^ 32 - 1).

(** [as_chunks::<N>]: the full chunks and the remainder, in as many steps as there
    can be chunks. *)
Fixpoint chunk {A} (fuel n : nat) (l : list A) : list (list A) * list A :=
  match fuel with
  | O => ([], l)
  | S fuel =>
      if (length l <? n)%nat then ([], l)
      else let '(cs, rest) := chunk fuel n (drop n l) in (take n l :: cs, rest)
  end.
Definition as_chunks {A} (n : nat) (l : list A) : list (list A) * list A := chunk (length l) n l.

Section sha256.
Context {E : Type}.

Definition word_at (words : list Z) (index : Z) : res E Z := or_panic (get_at words index).

(** [for (index, source) in block.as_chunks::<4>().0.iter().enumerate()] *)
Fixpoint load_words (words : list Z) (index : Z) (sources : list (list Z)) : res E (list Z) :=
  match sources with
  | [] => Ok words
  | source :: sources =>
      let! words := or_panic (put_range words index [of_be source]) in
      load_words words (index + 1) sources
  end.

(** [for index in 16..64], from [index] on *)
Fixpoint extend_words (count : nat) (index : Z) (words : list Z) : res E (list Z) :=
  match count with
  | O => Ok words
  | S count =>
      let! w15 := word_at words (index - 15) in
      let s0 := Z.lxor (Z.lxor (rotate_right w15 7) (rotate_right w15 18)) (Z.shiftr w15 3) in
      let! w2 := word_at words (index - 2) in
      let s1 := Z.lxor (Z.lxor (rotate_right w2 17) (rotate_right w2 19)) (Z.shiftr w2 10) in
      let! w16 := word_at words (index - 16) in
      let! w7 := word_at words (index - 7) in
      let! words := or_panic (put_range words index [wrapping_add (wrapping_add (wrapping_add w16 s0) w7) s1]) in
      extend_words count (index + 1) words
  end.

(** The eight working variables. *)
Record Vars := mkVars { va : Z; vb : Z; vc : Z; vd : Z; ve : Z; vf : Z; vg : Z; vh : Z }.

(** [for index in 0..64], from [index] on *)
Fixpoint round_loop (count : nat) (index : Z) (words : list Z) (v : Vars) : res E Vars :=
  match count with
  | O => Ok v
  | S count =>
      let '(mkVars a b c d e f g h) := v in
      let upper_e := Z.lxor (Z.lxor (rotate_right e 6) (rotate_right e 11)) (rotate_right e 25) in
      let choose := Z.lxor (Z.land e f) (Z.land (complement e) g) in
      let! k := word_at ROUND index in
      let! w := word_at words index in
      let temporary1 := wrapping_add (wrapping_add (wrapping_add (wrapping_add h upper_e) choose) k) w in
      let upper_a := Z.lxor (Z.lxor (rotate_right a 2) (rotate_right a 13)) (rotate_right a 22) in
      let majority := Z.lxor (Z.lxor (Z.land a b) (Z.land a c)) (Z.land b c) in
      let temporary2 := wrapping_add upper_a majority in
      round_loop count (index + 1) words
        (mkVars (wrapping_add temporary1 temporary2) a b c (wrapping_add d temporary1) e f g)
  end.

Definition compress (state block : list Z) : res E (list Z) :=
  let! words := load_words (replicate 64 0) 0 (as_chunks 4 block).1 in
  let! words := extend_words 48 16 words in
  match state with
  | [a; b; c; d; e; f; g; h] =>
      let! v := round_loop 64 0 words (mkVars a b c d e f g h) in
      Ok (zip_with wrapping_add state [va v; vb v; vc v; vd v; ve v; vf v; vg v; vh v])
  | _ => Panic
  end.

(** [for block in blocks { compress(&mut state, block) }] *)
Fixpoint compress_all (state : list Z) (blocks : list (list Z)) : res E (list Z) :=
  match blocks with
  | [] => Ok state
  | block :: blocks => let! state := compress state block in compress_all state blocks
  end.

Definition digest (bytes : list Z) : res E (list Z) :=
  let '(blocks, remainder) := as_chunks 64 bytes in
  let! state := compress_all INITIAL blocks in
  let! final_blocks := or_panic (put_range (replicate 128 0) 0 remainder) in
  let! final_blocks := or_panic (put_range final_blocks (len remainder) [128]) in
  let final_len := if len remainder <? 56 then 64 else 128 in
  let bit_len := (len bytes * 8) mod 2 ^ 64 in
  let! final_blocks := or_panic (put_range final_blocks (final_len - 8) (to_be 8 bit_len)) in
  let! last := or_panic (get_range final_blocks 0 final_len) in
  let! state := compress_all state (as_chunks 64 last).1 in
  Ok (concat (map (to_be 4) state)).

Definition prefix_u64 (digest : list Z) : res E Z :=
  let! prefix := or_panic (get_range digest 0 8) in
  Ok (of_be prefix).
End sha256.

End Sha256.
