(* ===== verification/Sha256Thms.v ===== *)
(** * The digest is SHA-256

    SHA-256 as FIPS 180-4 defines it: constants from the roots of the primes,
    logical functions bit by bit, the message schedule as a recurrence, padding to
    whole blocks.  The code's digest is that function. *)

From stdpp Require Import base tactics option list list_numbers.
From Stdlib Require Import ZArith Lia.
From S2P Require Import Prelude Bytes Sha256.
Import Sha256.
Local Open Scope Z_scope.

(** ** The standard *)

Module Fips.
(** The integer part of the [k]-th root of [n], bit by bit. *)
Fixpoint root_from (bits : nat) (k n acc : Z) : Z :=
  match bits with
  | O => acc
  | S bits =>
      let next := acc + 2 ^ Z.of_nat bits in
      root_from bits k n (if next ^ k <=? n then next else acc)
  end.
(** The first 32 bits of the fractional part of the [k]-th root of [p]. *)
Definition frac_root (k p : Z) : Z := root_from 36 k (p * 2 ^ (32 * k)) 0 mod 2 ^ 32.

Definition is_prime (n : nat) : bool := forallb (fun d => negb (Nat.eqb (n mod d) 0)) (seq 2 (n - 2)).
(** The first [count] primes, all below 312. *)
Definition primes (count : nat) : list Z := map Z.of_nat (take count (filter (fun n => is_prime n = true) (seq 2 310))).

Definition H0 : list Z := map (frac_root 2) (primes 8).
Definition K : list Z := map (frac_root 3) (primes 64).

(** The word whose bits are [f]. *)
Fixpoint bits (n : nat) (f : Z -> bool) : Z :=
  match n with O => 0 | S n => Z.lor (bits n f) (Z.shiftl (Z.b2z (f (Z.of_nat n))) (Z.of_nat n)) end.
Definition word_of (f : Z -> bool) : Z := bits 32 f.

Definition ROTR (n x : Z) : Z := word_of (fun i => Z.testbit x ((i + n) mod 32)).
Definition SHR (n x : Z) : Z := word_of (fun i => Z.testbit x (i + n)).
Definition XOR (x y : Z) : Z := word_of (fun i => xorb (Z.testbit x i) (Z.testbit y i)).
Definition Ch (x y z : Z) : Z := word_of (fun i => if Z.testbit x i then Z.testbit y i else Z.testbit z i).
(** The value of at least two of the three bits. *)
Definition Maj (x y z : Z) : Z :=
  word_of (fun i => 2 <=? Z.b2z (Z.testbit x i) + Z.b2z (Z.testbit y i) + Z.b2z (Z.testbit z i)).
Definition Sigma0 (x : Z) : Z := XOR (XOR (ROTR 2 x) (ROTR 13 x)) (ROTR 22 x).
Definition Sigma1 (x : Z) : Z := XOR (XOR (ROTR 6 x) (ROTR 11 x)) (ROTR 25 x).
Definition sigma0 (x : Z) : Z := XOR (XOR (ROTR 7 x) (ROTR 18 x)) (SHR 3 x).
Definition sigma1 (x : Z) : Z := XOR (XOR (ROTR 17 x) (ROTR 19 x)) (SHR 10 x).

Definition round (W : nat -> Z) (v : Vars) (t : nat) : Vars :=
  let '(mkVars a b c d e f g h) := v in
  let T1 := (h + Sigma1 e + Ch e f g + K !!! t + W t) mod 2 ^ 32 in
  let T2 := (Sigma0 a + Maj a b c) mod 2 ^ 32 in
  mkVars ((T1 + T2) mod 2 ^ 32) a b c ((d + T1) mod 2 ^ 32) e f g.

(** The message schedule of a block. *)
Definition schedule (block : list Z) (W : nat -> Z) : Prop :=
  (forall t, (t < 16)%nat -> W t = of_be (take 4 (drop (4 * t) block))) /\
  (forall t, (16 <= t < 64)%nat -> W t = (sigma1 (W (t - 2)%nat) + W (t - 7)%nat + sigma0 (W (t - 15)%nat) + W (t - 16)%nat) mod 2 ^ 32).

Definition vars_of (H : list Z) : Vars := mkVars (H !!! 0%nat) (H !!! 1%nat) (H !!! 2%nat) (H !!! 3%nat) (H !!! 4%nat) (H !!! 5%nat) (H !!! 6%nat) (H !!! 7%nat).
Definition to_list (v : Vars) : list Z := [va v; vb v; vc v; vd v; ve v; vf v; vg v; vh v].

(** One block, and all of them. *)
Definition hash_block (H block H' : list Z) : Prop :=
  exists W, schedule block W /\
    H' = zip_with (fun x y => (x + y) mod 2 ^ 32) (to_list (foldl (round W) (vars_of H) (seq 0 64))) H.
Inductive hash_blocks : list Z -> list (list Z) -> list Z -> Prop :=
| hash_nil H : hash_blocks H [] H
| hash_cons H block H' blocks H'' : hash_block H block H' -> hash_blocks H' blocks H'' -> hash_blocks H (block :: blocks) H''.

(** A one bit, the zeros that fill the last block, the length in bits. *)
Definition pad (M : list Z) : list Z :=
  M ++ [128] ++ replicate (Z.to_nat ((55 - len M) mod 64)) 0 ++ to_be 8 (8 * len M).

Definition SHA256 (M D : list Z) : Prop :=
  exists blocks H, Forall (fun b => length b = 64%nat) blocks /\ concat blocks = pad M /\ hash_blocks H0 blocks H /\
    D = concat (map (to_be 4) H).
End Fips.
Import Fips.

(** ** Constants *)

Lemma initial_is_H0 : INITIAL = H0.
Proof. by vm_compute. Qed.

Lemma round_is_K : ROUND = K.
Proof. by vm_compute. Qed.

(** ** Words *)

Definition word (x : Z) : Prop := 0 <= x < 2 ^ 32.

Lemma word_high x i : word x -> 32 <= i -> Z.testbit x i = false.
Proof.
  intros Hx Hi. destruct (Z.eq_dec x 0) as [->|Hz]; [apply Z.bits_0|]. apply Z.bits_above_log2; [apply Hx|].
  destruct Hx as [Hx1 Hx2]. apply Z.log2_lt_pow2 in Hx2; lia.
Qed.

Lemma bits_spec n f i : 0 <= i -> Z.testbit (bits n f) i = if i <? Z.of_nat n then f i else false.
Proof.
  intros Hi. induction n as [|n IH].
  - cbn [bits]. rewrite Z.bits_0. by destruct (Z.ltb_spec i (Z.of_nat 0)); [lia|].
  - cbn [bits]. rewrite Z.lor_spec, IH, Z.shiftl_spec by done.
    destruct (Z.ltb_spec i (Z.of_nat n)), (Z.ltb_spec i (Z.of_nat (S n))); try lia.
    + rewrite Z.testbit_neg_r by lia. apply orb_false_r.
    + replace (i - Z.of_nat n) with 0 by lia. replace i with (Z.of_nat n) by lia. by rewrite Z.b2z_bit0.
    + cbn [orb]. destruct (f (Z.of_nat n)); [|apply Z.bits_0]. apply Z.bits_above_log2; [done|]. cbn. lia.
Qed.

(** A word is given by its bits. *)
Lemma word_of_eq x f : word x -> (forall i, 0 <= i < 32 -> Z.testbit x i = f i) -> x = word_of f.
Proof.
  intros Hx Hf. apply Z.bits_inj'. intros i Hi. unfold word_of. rewrite bits_spec by done.
  destruct (Z.ltb_spec i (Z.of_nat 32)); [apply Hf; lia|]. apply word_high; [done|lia].
Qed.

Lemma word_bits x : 0 <= x -> (forall i, 32 <= i -> Z.testbit x i = false) -> word x.
Proof.
  intros H0 Hb. split; [done|]. destruct (Z.eq_dec x 0) as [->|Hz]; [done|]. apply Z.log2_lt_pow2; [lia|].
  destruct (Z.lt_ge_cases (Z.log2 x) 32) as [|Hge]; [done|]. specialize (Hb _ Hge). rewrite Z.bit_log2 in Hb by lia. done.
Qed.

Lemma word_mod x : word (x mod 2 ^ 32).
Proof. by apply Z.mod_pos_bound. Qed.

Lemma word_lxor x y : word x -> word y -> word (Z.lxor x y).
Proof.
  intros Hx Hy. apply word_bits; [apply Z.lxor_nonneg; unfold word in *; lia|]. intros i Hi.
  by rewrite Z.lxor_spec, !word_high.
Qed.

Lemma word_land x y : word x -> word y -> word (Z.land x y).
Proof.
  intros Hx Hy. apply word_bits; [apply Z.land_nonneg; unfold word in *; lia|]. intros i Hi.
  by rewrite Z.land_spec, !word_high.
Qed.

Lemma word_shiftr x n : word x -> 0 <= n -> word (Z.shiftr x n).
Proof.
  intros Hx Hn. apply word_bits; [apply Z.shiftr_nonneg; unfold word in *; lia|]. intros i Hi.
  rewrite Z.shiftr_spec by lia. apply word_high; [done|lia].
Qed.

Lemma word_complement x : word x -> word (complement x).
Proof. intros Hx. apply word_lxor; [done|]. by split. Qed.

Lemma word_rotate x n : word x -> 0 <= n -> word (rotate_right x n).
Proof.
  intros Hx Hn. unfold rotate_right. pose proof (word_shiftr x n Hx Hn) as Hs. pose proof (word_mod (Z.shiftl x (32 - n))) as Hm.
  apply word_bits; [apply Z.lor_nonneg; unfold word in *; lia|]. intros i Hi. by rewrite Z.lor_spec, !word_high.
Qed.

#[local] Hint Resolve word_mod word_lxor word_land word_shiftr word_complement word_rotate : word.

(** ** Operations *)

Lemma rotate_right_eq x n : word x -> 0 < n < 32 -> rotate_right x n = ROTR n x.
Proof.
  intros Hx Hn. apply word_of_eq; [apply word_rotate; [done|lia]|]. intros i Hi. unfold rotate_right.
  rewrite Z.lor_spec, Z.shiftr_spec, Z.mod_pow2_bits_low, Z.shiftl_spec by lia.
  destruct (Z.lt_ge_cases (i + n) 32).
  - rewrite Z.mod_small by lia. rewrite (Z.testbit_neg_r x (i - (32 - n))) by lia. apply orb_false_r.
  - rewrite (word_high x (i + n)) by (done || lia). cbn [orb]. f_equal. apply Z.mod_unique_pos with 1; lia.
Qed.

Lemma shiftr_eq x n : word x -> 0 <= n -> Z.shiftr x n = SHR n x.
Proof. intros Hx Hn. apply word_of_eq; [by apply word_shiftr|]. intros i Hi. by rewrite Z.shiftr_spec by lia. Qed.

Lemma lxor_eq x y : word x -> word y -> Z.lxor x y = XOR x y.
Proof. intros Hx Hy. apply word_of_eq; [by apply word_lxor|]. intros i Hi. apply Z.lxor_spec. Qed.

Lemma complement_bit x i : 0 <= i < 32 -> Z.testbit (complement x) i = negb (Z.testbit x i).
Proof.
  intros Hi. unfold complement. rewrite Z.lxor_spec. change (2 ^ 32 - 1) with (Z.ones 32).
  rewrite Z.ones_spec_low by lia. by destruct (Z.testbit x i).
Qed.

Lemma choose_eq x y z : word x -> word y -> word z -> Z.lxor (Z.land x y) (Z.land (complement x) z) = Ch x y z.
Proof.
  intros Hx Hy Hz. apply word_of_eq; [auto with word|]. intros i Hi. rewrite Z.lxor_spec, !Z.land_spec, complement_bit by done.
  by destruct (Z.testbit x i), (Z.testbit y i), (Z.testbit z i).
Qed.

Lemma majority_eq x y z : word x -> word y -> word z ->
  Z.lxor (Z.lxor (Z.land x y) (Z.land x z)) (Z.land y z) = Maj x y z.
Proof.
  intros Hx Hy Hz. apply word_of_eq; [auto with word|]. intros i Hi. rewrite !Z.lxor_spec, !Z.land_spec.
  by destruct (Z.testbit x i), (Z.testbit y i), (Z.testbit z i).
Qed.

Lemma wrapping_adds a b c : wrapping_add (wrapping_add a b) c = wrapping_add a (b + c).
Proof. unfold wrapping_add. rewrite Zplus_mod_idemp_l. f_equal. lia. Qed.

Lemma wrapping_add5 h x y k w :
  wrapping_add (wrapping_add (wrapping_add (wrapping_add h x) y) k) w = (h + x + y + k + w) mod 2 ^ 32.
Proof. rewrite !wrapping_adds. unfold wrapping_add. f_equal. lia. Qed.

(** The four functions of the code. *)
Ltac to_fips :=
  repeat match goal with
  | |- context [rotate_right ?x ?n] => rewrite (rotate_right_eq x n) by (assumption || lia)
  | |- context [Z.shiftr ?x ?n] => rewrite (shiftr_eq x n) by (assumption || lia)
  end.

Lemma word_word_of f : word (word_of f).
Proof.
  apply word_bits.
  - unfold word_of. generalize 32%nat as n. induction n as [|n IH]; cbn [bits]; [done|]. apply Z.lor_nonneg. split; [done|].
    apply Z.shiftl_nonneg. by destruct (f _).
  - intros i Hi. unfold word_of. rewrite bits_spec by lia. by rewrite (proj2 (Z.ltb_ge _ _)) by lia.
Qed.
#[local] Hint Resolve word_word_of : word.

Lemma lxor3_eq x y z : word x -> word y -> word z -> Z.lxor (Z.lxor x y) z = XOR (XOR x y) z.
Proof. intros Hx Hy Hz. rewrite <-(lxor_eq x y) by done. apply lxor_eq; auto with word. Qed.

Lemma sigmas_eq x : word x ->
  Z.lxor (Z.lxor (rotate_right x 7) (rotate_right x 18)) (Z.shiftr x 3) = sigma0 x /\
  Z.lxor (Z.lxor (rotate_right x 17) (rotate_right x 19)) (Z.shiftr x 10) = sigma1 x /\
  Z.lxor (Z.lxor (rotate_right x 2) (rotate_right x 13)) (rotate_right x 22) = Sigma0 x /\
  Z.lxor (Z.lxor (rotate_right x 6) (rotate_right x 11)) (rotate_right x 25) = Sigma1 x.
Proof.
  intros Hx. to_fips. split_conj; apply lxor3_eq; apply word_word_of.
Qed.

#[local] Opaque word_of sigma0 sigma1 Sigma0 Sigma1 Ch Maj K H0.

(** ** The schedule *)

(** The recurrence, on the array of words. *)
Definition next_word (words : list Z) (t : nat) : Z :=
  (sigma1 (words !!! (t - 2)%nat) + words !!! (t - 7)%nat + sigma0 (words !!! (t - 15)%nat) + words !!! (t - 16)%nat) mod 2 ^ 32.

Lemma sha_word_at {E} (words : list Z) (t : nat) : (t < length words)%nat -> word_at (E := E) words (Z.of_nat t) = Ok (words !!! t).
Proof.
  intros Ht. unfold word_at, get_at. rewrite (proj2 (Z.leb_le _ _)) by lia. rewrite Nat2Z.id.
  by rewrite (list_lookup_lookup_total_lt words t Ht).
Qed.

Lemma put_word (words : list Z) (t : nat) v : (t < length words)%nat -> put_range words (Z.of_nat t) [v] = Some (<[t := v]> words).
Proof.
  intros Ht. apply put_range_Some. cbn [length]. split_conj; [lia|lia|]. rewrite insert_take_drop by done. rewrite Nat2Z.id.
  cbn [app]. do 3 f_equal. lia.
Qed.

Lemma word_total (words : list Z) t : Forall word words -> word (words !!! t).
Proof.
  intros H. destruct (words !! t) as [x|] eqn:Hx.
  - rewrite (list_lookup_total_correct _ _ _ Hx). by eapply Forall_lookup_1.
  - rewrite list_lookup_total_alt, Hx. by split.
Qed.

Lemma extend_words_spec {E} count t words :
  length words = 64%nat -> Forall word words -> (16 <= t)%nat -> (t + count = 64)%nat ->
  exists words', extend_words (E := E) count (Z.of_nat t) words = Ok words' /\ length words' = 64%nat /\ Forall word words' /\
    (forall s, (s < t)%nat -> words' !!! s = words !!! s) /\ (forall s, (t <= s < 64)%nat -> words' !!! s = next_word words' s).
Proof.
  revert t words. induction count as [|count IH]; intros t words Hlen Hw Ht Hc; cbn [extend_words].
  { exists words. split_conj; try done. intros s Hs. lia. }
  assert (Hat : forall d z, z = Z.of_nat d -> (d <= 16)%nat -> word_at (E := E) words (Z.of_nat t - z) = Ok (words !!! (t - d)%nat)).
  { intros d z -> Hd. replace (Z.of_nat t - Z.of_nat d) with (Z.of_nat (t - d)) by lia. apply sha_word_at. lia. }
  rewrite (Hat 15%nat 15), (Hat 2%nat 2), (Hat 16%nat 16), (Hat 7%nat 7) by lia. cbn [res_bind].
  destruct (sigmas_eq _ (word_total words (t - 15) Hw)) as (-> & _). destruct (sigmas_eq _ (word_total words (t - 2) Hw)) as (_ & -> & _).
  rewrite put_word by lia. cbn [or_panic res_bind].
  set (v := wrapping_add _ _). assert (v = next_word words t) as Hv.
  { unfold v. rewrite !wrapping_adds. unfold wrapping_add, next_word. f_equal. lia. }
  destruct (IH (S t) (<[t:=v]> words)) as (words' & He & Hl & Hw' & Hold & Hnew).
  { by rewrite length_insert. } { apply Forall_insert; [done|]. apply word_mod. } { lia. } { lia. }
  replace (Z.of_nat (S t)) with (Z.of_nat t + 1) in He by lia. exists words'. split_conj; try done.
  - intros s Hs. rewrite Hold by lia. apply list_lookup_total_insert_ne. lia.
  - intros s Hs. destruct (decide (s = t)) as [->|]; [|apply Hnew; lia]. unfold next_word. rewrite !Hold by lia.
    rewrite list_lookup_total_insert by lia. rewrite !list_lookup_total_insert_ne by lia. clearbody v. rewrite Hv, decide_True by lia. done.
Qed.

Lemma load_words_spec {E} sources t words :
  (t + length sources <= length words)%nat ->
  exists words', load_words (E := E) words (Z.of_nat t) sources = Ok words' /\ length words' = length words /\
    (forall s, (s < length sources)%nat -> words' !!! (t + s)%nat = of_be (sources !!! s)) /\
    (forall s, (s < t \/ t + length sources <= s)%nat -> words' !!! s = words !!! s).
Proof.
  revert t words. induction sources as [|x sources IH]; intros t words Hlen; cbn [load_words length] in *.
  { exists words. split_conj; try done. intros s Hs. lia. }
  rewrite put_word by lia. cbn [or_panic res_bind].
  destruct (IH (S t) (<[t:=of_be x]> words)) as (words' & He & Hl & Hnew & Hold); [rewrite length_insert; lia|].
  replace (Z.of_nat (S t)) with (Z.of_nat t + 1) in He by lia. exists words'. rewrite length_insert in Hl. split_conj; try done.
  - intros [|s] Hs; [change ((x :: sources) !!! 0%nat) with x|change ((x :: sources) !!! S s) with (sources !!! s)].
    + rewrite Hold by lia. rewrite Nat.add_0_r, list_lookup_total_insert. by rewrite decide_True by lia.
    + rewrite <-Hnew by lia. f_equal. lia.
  - intros s Hs. rewrite Hold by lia. apply list_lookup_total_insert_ne. lia.
Qed.

(** ** Chunks *)

Lemma chunk_spec {A} fuel n (l : list A) cs rest :
  (0 < n)%nat -> (length l <= fuel)%nat -> chunk fuel n l = (cs, rest) ->
  l = concat cs ++ rest /\ Forall (fun c => length c = n) cs /\ (length rest < n)%nat.
Proof.
  intros Hn. revert l cs rest. induction fuel as [|fuel IH]; intros l cs rest Hl; cbn [chunk].
  { intros [= <- <-]. split_conj; [done|done|lia]. }
  destruct (Nat.ltb_spec (length l) n) as [Hlt|Hge]; [intros [= <- <-]; by split_conj|].
  destruct (chunk fuel n (drop n l)) as [cs' r'] eqn:Hc. intros [= <- <-].
  destruct (IH (drop n l) cs' r') as (H1 & H2 & H3); [rewrite length_drop; lia|done|]. split_conj; [|constructor|done].
  - cbn [concat]. by rewrite <-app_assoc, <-H1, take_drop.
  - rewrite length_take. lia.
  - done.
Qed.

Lemma as_chunks_spec {A} n (l : list A) cs rest :
  (0 < n)%nat -> as_chunks n l = (cs, rest) -> l = concat cs ++ rest /\ Forall (fun c => length c = n) cs /\ (length rest < n)%nat.
Proof. intros Hn. by apply chunk_spec. Qed.

Lemma concat_lookup {A} n (cs : list (list A)) t :
  Forall (fun c => length c = n) cs -> (t < length cs)%nat -> take n (drop (n * t) (concat cs)) = cs !!! t.
Proof.
  intros Hf. revert t. induction Hf as [|c cs Hc Hf IH]; intros t Ht; cbn [length] in Ht; [lia|]. cbn [concat]. destruct t as [|t].
  - rewrite Nat.mul_0_r, drop_0, take_app_length' by done. done.
  - rewrite drop_app_ge by (subst n; lia). replace (n * S t - length c)%nat with (n * t)%nat by (subst n; lia).
    rewrite IH by lia. done.
Qed.

Lemma length_concat_chunks {A} n (cs : list (list A)) : Forall (fun c => length c = n) cs -> length (concat cs) = (n * length cs)%nat.
Proof. induction 1 as [|c cs Hc Hf IH]; cbn; [lia|]. rewrite length_app, IH. lia. Qed.

Lemma of_be_word bs : bytes_ok bs -> length bs = 4%nat -> word (of_be bs).
Proof.
  intros Hb Hl. unfold of_be. pose proof (of_le_bound (reverse bs)) as H. rewrite length_reverse, Hl in H.
  apply H. unfold bytes_ok in *. by apply Forall_reverse.
Qed.

(** ** A block *)

(** The sixteen words of a block, then the recurrence. *)
Lemma words_spec {E} block :
  bytes_ok block -> length block = 64%nat ->
  exists words words', load_words (E := E) (replicate 64 0) 0 (as_chunks 4 block).1 = Ok words /\
    extend_words (E := E) 48 16 words = Ok words' /\ length words' = 64%nat /\ Forall word words' /\
    schedule block (fun t => words' !!! t).
Proof.
  intros Hb Hlen. destruct (as_chunks 4 block) as [cs rest] eqn:Hc. destruct (as_chunks_spec 4 _ _ _ ltac:(lia) Hc) as (Hcat & Hf & Hr).
  assert (length cs = 16%nat) as Hn.
  { apply (f_equal length) in Hcat. rewrite length_app, (length_concat_chunks 4 cs Hf) in Hcat. lia. }
  assert (rest = []) as ->.
  { apply nil_length_inv. apply (f_equal length) in Hcat. rewrite length_app, (length_concat_chunks 4 cs Hf) in Hcat. lia. }
  rewrite app_nil_r in Hcat. cbn [fst].
  destruct (load_words_spec (E := E) cs 0 (replicate 64 0)) as (words & Hload & Hl & Hnew & Hold); [rewrite length_replicate; lia|].
  rewrite length_replicate in Hl.
  assert (Hhead : forall t, (t < 16)%nat -> words !!! t = of_be (take 4 (drop (4 * t) block))).
  { intros t Ht. rewrite Hcat, concat_lookup by (done || lia). apply (Hnew t). lia. }
  assert (Forall word words) as Hw.
  { apply Forall_lookup. intros t x Hx. pose proof (lookup_lt_Some _ _ _ Hx). apply list_lookup_total_correct in Hx as <-.
    destruct (decide (t < 16)%nat).
    - rewrite Hhead by done. apply of_be_word.
      + by apply Forall_take, Forall_drop.
      + rewrite length_take, length_drop. lia.
    - rewrite Hold by lia. rewrite list_lookup_total_alt, lookup_replicate_2 by lia. by split. }
  destruct (extend_words_spec (E := E) 48 16 words) as (words' & Hext & Hl' & Hw' & Hold' & Hnew'); [done|done|lia|lia|].
  exists words, words'. split_conj; try done. split.
  - intros t Ht. rewrite Hold' by lia. by apply Hhead.
  - intros t Ht. by apply Hnew'.
Qed.

Definition vars_ok (v : Vars) : Prop := Forall word (to_list v).

Lemma round_loop_spec {E} count t words v :
  length words = 64%nat -> Forall word words -> (t + count <= 64)%nat -> vars_ok v ->
  round_loop (E := E) count (Z.of_nat t) words v = Ok (foldl (round (fun s => words !!! s)) v (seq t count)) /\
  vars_ok (foldl (round (fun s => words !!! s)) v (seq t count)).
Proof.
  intros Hlen Hw. revert t v. induction count as [|count IH]; intros t v Ht Hv; cbn [round_loop seq foldl]; [done|].
  destruct v as [a b c d e f g h]. unfold vars_ok, to_list in Hv. cbn [va vb vc vd ve vf vg vh] in Hv.
  repeat match goal with H : Forall word (_ :: _) |- _ => apply Forall_cons_iff in H as [? H] end.
  rewrite (sha_word_at ROUND) by (change (length ROUND) with 64%nat; lia). rewrite (sha_word_at words) by lia. cbn [res_bind].
  destruct (sigmas_eq a) as (_ & _ & -> & _); [done|]. destruct (sigmas_eq e) as (_ & _ & _ & ->); [done|].
  rewrite choose_eq, majority_eq by done. rewrite round_is_K, (wrapping_add5 h (Sigma1 e)).
  replace (Z.of_nat t + 1) with (Z.of_nat (S t)) by lia.
  match goal with |- context [round_loop count _ words ?x] =>
    assert (x = round (fun s => words !!! s) (mkVars a b c d e f g h) t) as -> end.
  { unfold round, wrapping_add. reflexivity. }
  apply IH; [lia|].
  unfold vars_ok, to_list, round. cbn [va vb vc vd ve vf vg vh].
  repeat (constructor; [by try apply word_mod|]). constructor.
Qed.

Definition state_ok (st : list Z) : Prop := length st = 8%nat /\ Forall word st.

Lemma compress_spec {E} st block :
  state_ok st -> bytes_ok block -> length block = 64%nat ->
  exists st', compress (E := E) st block = Ok st' /\ hash_block st block st' /\ state_ok st'.
Proof.
  intros [Hl Hst] Hb Hlen. destruct (words_spec (E := E) block Hb Hlen) as (words & words' & Hload & Hext & Hl' & Hw & Hsch).
  unfold compress. rewrite Hload. cbn [res_bind]. rewrite Hext. cbn [res_bind].
  do 8 (destruct st as [|? st]; [done|]). destruct st; [|done].
  set (v := mkVars _ _ _ _ _ _ _ _). destruct (round_loop_spec (E := E) 64 0 words' v Hl' Hw) as [Hround Hok]; [lia|exact Hst|].
  change (Z.of_nat 0) with 0 in Hround. rewrite Hround. cbn [res_bind]. set (v' := foldl _ _ _) in *.
  eexists. split; [reflexivity|]. split.
  - exists (fun t => words' !!! t). split; [done|]. change (vars_of _) with v. fold v'. unfold to_list.
    cbn [zip_with]. unfold wrapping_add. rewrite (Z.add_comm (va v')), (Z.add_comm (vb v')), (Z.add_comm (vc v')), (Z.add_comm (vd v')),
      (Z.add_comm (ve v')), (Z.add_comm (vf v')), (Z.add_comm (vg v')), (Z.add_comm (vh v')). reflexivity.
  - split; [done|]. cbn [zip_with]. repeat (constructor; [apply word_mod|]). constructor.
Qed.

Lemma compress_all_spec {E} blocks st :
  state_ok st -> Forall (fun b => bytes_ok b /\ length b = 64%nat) blocks ->
  exists st', compress_all (E := E) st blocks = Ok st' /\ hash_blocks st blocks st' /\ state_ok st'.
Proof.
  intros Hst Hf. revert st Hst. induction Hf as [|b blocks [Hb Hl] Hf IH]; intros st Hst; cbn [compress_all].
  { exists st. split_conj; [done|constructor|done]. }
  destruct (compress_spec (E := E) st b Hst Hb Hl) as (st1 & -> & Hh & Hok). cbn [res_bind].
  destruct (IH st1 Hok) as (st2 & -> & Hh2 & Hok2). exists st2. split_conj; [done| |done]. by econstructor.
Qed.

Lemma hash_blocks_app st bs st1 cs st2 : hash_blocks st bs st1 -> hash_blocks st1 cs st2 -> hash_blocks st (bs ++ cs) st2.
Proof. induction 1; cbn; [done|]. intros. econstructor; eauto. Qed.

(** ** Padding *)

(** The buffer of the last blocks is the end of the padded message. *)
Lemma final_blocks_spec (bytes blocks_bytes remainder : list Z) :
  bytes = blocks_bytes ++ remainder -> (length remainder < 64)%nat -> len blocks_bytes mod 64 = 0 -> len bytes * 8 < 2 ^ 64 ->
  exists f1 f2 f3 last, put_range (replicate 128 0) 0 remainder = Some f1 /\ put_range f1 (len remainder) [128] = Some f2 /\
    let final_len := if len remainder <? 56 then 64 else 128 in
    put_range f2 (final_len - 8) (to_be 8 ((len bytes * 8) mod 2 ^ 64)) = Some f3 /\
    get_range f3 0 final_len = Some last /\ blocks_bytes ++ last = pad bytes /\ len last = final_len.
Proof.
  intros Hbytes Hr Hmod Hsmall. set (n := length remainder) in *.
  rewrite Z.mod_small by lia. set (size := to_be 8 _).
  assert (length size = 8%nat) as Hsize by (unfold size, to_be; by rewrite length_reverse, length_to_le).
  exists (remainder ++ replicate (128 - n) 0), (remainder ++ [128] ++ replicate (127 - n) 0).
  set (m := if Z.of_nat n <? 56 then 64%nat else 128%nat).
  assert (n + 9 <= m <= 128)%nat as Hm by (unfold m; destruct (Z.ltb_spec (Z.of_nat n) 56); lia).
  exists (remainder ++ [128] ++ replicate (m - n - 9) 0 ++ size ++ replicate (128 - m) 0),
    (remainder ++ [128] ++ replicate (m - n - 9) 0 ++ size).
  cbv zeta. replace (if Z.of_nat n <? 56 then 64 else 128) with (Z.of_nat m) by (unfold m; by destruct (_ <? _)).
  split_conj.
  - apply put_range_Some. rewrite length_replicate. split_conj; [lia|lia|].
    change (Z.to_nat 0) with 0%nat. rewrite take_0, drop_replicate. cbn [app]. by replace (128 - n)%nat with (128 - Z.to_nat (0 + Z.of_nat n))%nat by lia.
  - replace (replicate (128 - n) 0) with ([0] ++ replicate (127 - n) (0 : Z)) by (change [0] with (replicate 1 (0 : Z)); rewrite <-replicate_add; f_equal; lia).
    by apply put_range_middle.
  - replace (replicate (127 - n) 0) with (replicate (m - n - 9) 0 ++ replicate 8 0 ++ replicate (128 - m) (0 : Z))
      by (rewrite <-!replicate_add; f_equal; lia).
    rewrite !app_assoc, <-(app_assoc _ (replicate 8 0)), <-(app_assoc _ size).
    replace (Z.of_nat m - 8) with (len ((remainder ++ [128]) ++ replicate (m - n - 9) 0))
      by (rewrite !length_app, length_replicate; cbn [length]; lia).
    apply put_range_middle. by rewrite Hsize, length_replicate.
  - set (last := remainder ++ [128] ++ replicate (m - n - 9) 0 ++ size).
    replace (remainder ++ _) with (last ++ replicate (128 - m) 0) by (unfold last; by rewrite <-!app_assoc).
    replace (Z.of_nat m) with (len last); [apply get_prefix|]. unfold last. rewrite !length_app, length_replicate, Hsize. cbn [length]. lia.
  - unfold pad. rewrite Hbytes at 1. rewrite <-!app_assoc. do 2 f_equal. f_equal.
    assert (m - n - 9 = Z.to_nat ((55 - len bytes) mod 64))%nat as ->.
    { apply Z.mod_divide in Hmod as [q Hq]; [|lia]. assert (len bytes = 64 * q + Z.of_nat n) as -> by (rewrite Hbytes, length_app; lia).
      unfold m. destruct (Z.ltb_spec (Z.of_nat n) 56).
      - replace ((55 - (64 * q + Z.of_nat n)) mod 64) with (55 - Z.of_nat n) by (apply Z.mod_unique_pos with (-q); lia). lia.
      - replace ((55 - (64 * q + Z.of_nat n)) mod 64) with (119 - Z.of_nat n) by (apply Z.mod_unique_pos with (-q - 1); lia). lia. }
    unfold size. do 2 f_equal. lia.
  - rewrite !length_app, length_replicate, Hsize. cbn [length]. lia.
Qed.

Lemma bytes_ok_concat (bs : list (list Z)) : bytes_ok (concat bs) -> Forall bytes_ok bs.
Proof. unfold bytes_ok. induction bs as [|b bs IH]; [done|]. cbn. intros [? ?]%Forall_app. constructor; auto. Qed.

Lemma to_be_bytes_ok n v : bytes_ok (to_be n v).
Proof. unfold to_be, bytes_ok. apply Forall_reverse, to_le_bytes_ok. Qed.

Lemma pad_bytes_ok M : bytes_ok M -> bytes_ok (pad M).
Proof.
  intros HM. unfold pad, bytes_ok. rewrite !Forall_app. split_conj; [done| |apply bytes_ok_replicate_0|apply to_be_bytes_ok].
  constructor; [by split|constructor].
Qed.

Lemma good_chunks bs : bytes_ok (concat bs) -> Forall (fun b => length b = 64%nat) bs ->
  Forall (fun b => bytes_ok b /\ length b = 64%nat) bs.
Proof. intros H1%bytes_ok_concat H2. apply Forall_and. by split. Qed.

Lemma initial_ok : state_ok INITIAL.
Proof. split; [done|]. apply (bool_decide_unpack _). by vm_compute. Qed.

(** C16: The digest is SHA-256. For every byte string shorter than [2 ^ 61] bytes,
    [digest] answers without a panic with 32 bytes, and they are the hash that
    FIPS 180-4 gives the string: initial values and round constants from the
    square and cube roots of the primes, the logical functions defined on bits,
    the message schedule by its recurrence, and the padded message cut into
    blocks. *)
Theorem digest_is_sha256 {E : Type} (bytes : list Z) :
  bytes_ok bytes -> len bytes < 2 ^ 61 ->
  exists D, digest (E := E) bytes = Ok D /\ length D = 32%nat /\ SHA256 bytes D.
Proof.
  intros Hok Hlen. unfold digest. destruct (as_chunks 64 bytes) as [blocks remainder] eqn:Hc.
  destruct (as_chunks_spec 64 _ _ _ ltac:(lia) Hc) as (Hcat & Hf & Hr). pose proof Hok as Hok'. rewrite Hcat in Hok'.
  apply Forall_app in Hok' as [Hok1 _]. pose proof (length_concat_chunks _ _ Hf) as Hcl.
  destruct (compress_all_spec (E := E) blocks INITIAL initial_ok) as (st1 & -> & Hh1 & Hst1); [by apply good_chunks|]. cbn [res_bind].
  destruct (final_blocks_spec bytes (concat blocks) remainder Hcat Hr) as (f1 & f2 & f3 & last & -> & H2 & H3 & H4 & Hpad & Hlast).
  { rewrite Hcl. apply Z.mod_divide; [done|]. exists (len blocks). lia. } { lia. }
  cbn [or_panic res_bind]. rewrite H2. cbn [or_panic res_bind]. rewrite H3. cbn [or_panic res_bind]. rewrite H4. cbn [or_panic res_bind].
  destruct (as_chunks 64 last) as [cs rest] eqn:Hc2. destruct (as_chunks_spec 64 _ _ _ ltac:(lia) Hc2) as (Hcat2 & Hf2 & Hr2).
  assert (rest = []) as ->.
  { apply nil_length_inv. apply (f_equal length) in Hcat2. rewrite length_app, (length_concat_chunks _ _ Hf2) in Hcat2.
    destruct (len remainder <? 56); lia. }
  rewrite app_nil_r in Hcat2. cbn [fst].
  assert (bytes_ok (concat cs)) as Hok2.
  { rewrite <-Hcat2. pose proof (pad_bytes_ok bytes Hok) as Hp. rewrite <-Hpad in Hp. by apply Forall_app in Hp as [_ Hp]. }
  destruct (compress_all_spec (E := E) cs st1 Hst1) as (st2 & -> & Hh2 & Hst2); [by apply good_chunks|]. cbn [res_bind].
  eexists. split; [reflexivity|]. split.
  - destruct Hst2 as [Hl _]. do 8 (destruct st2 as [|? st2]; [done|]). by destruct st2.
  - exists (blocks ++ cs), st2. split_conj; [by apply Forall_app| |rewrite <-initial_is_H0; by eapply hash_blocks_app|done].
    by rewrite concat_app, <-Hcat2, Hpad.
Qed.

Lemma digest_is_sha256_witness :
  bytes_ok [97; 98; 99] /\
  SHA256 [97; 98; 99] [186; 120; 22; 191; 143; 1; 207; 234; 65; 65; 64; 222; 93; 174; 34; 35; 176; 3; 97; 163; 150; 23; 122; 156;
    180; 16; 255; 97; 242; 0; 21; 173].
Proof.
  assert (bytes_ok [97; 98; 99]) as Hok by (by apply (bool_decide_unpack _)). split; [done|].
  destruct (digest_is_sha256 (E := unit) [97; 98; 99] Hok) as (D & HD & _ & H); [done|].
  assert (digest (E := unit) [97; 98; 99] = Ok [186; 120; 22; 191; 143; 1; 207; 234; 65; 65; 64; 222; 93; 174; 34; 35; 176; 3; 97; 163;
    150; 23; 122; 156; 180; 16; 255; 97; 242; 0; 21; 173]) as Hv by by vm_compute.
  rewrite Hv in HD. by injection HD as <-.
Defined.
