(* ===== verification/Memory.v ===== *)
(** * Byte primitives (crates/wyrmroot-runtime/src/memory.rs)

    The four symbols the compiler calls for raw copies, fills and comparisons.
    Memory is a function from addresses to bytes; a valid range does not wrap
    around, so addresses are integers.  Each loop makes one access per byte in the
    order of the code. *)

From stdpp Require Import base tactics option list list_numbers.
From Stdlib Require Import ZArith Lia.
From S2P Require Import Prelude Bytes.
Local Open Scope Z_scope.

Module Memory.

Definition Mem : Type := Z -> Z.
Definition write_byte (m : Mem) (a v : Z) : Mem := fun b => if b =? a then v else m b.

(** [for index in 0..length], from [index] on, reading before each write. *)
Fixpoint copy_forward (count : nat) (index destination source : Z) (m : Mem) : Mem :=
  match count with
  | O => m
  | S count => copy_forward count (index + 1) destination source (write_byte m (destination + index) (m (source + index)))
  end.
(** [for index in (0..length).rev()] *)
Fixpoint copy_backward (length : nat) (destination source : Z) (m : Mem) : Mem :=
  match length with
  | O => m
  | S index => copy_backward index destination source
                 (write_byte m (destination + Z.of_nat index) (m (source + Z.of_nat index)))
  end.

Definition memcpy (destination source : Z) (length : nat) (m : Mem) : Mem * Z :=
  (copy_forward length 0 destination source m, destination).

Definition memmove (destination source : Z) (length : nat) (m : Mem) : Mem * Z :=
  if destination <=? source then (copy_forward length 0 destination source m, destination)
  else (copy_backward length destination source m, destination).

Fixpoint fill_forward (count : nat) (index destination value : Z) (m : Mem) : Mem :=
  match count with
  | O => m
  | S count => fill_forward count (index + 1) destination value (write_byte m (destination + index) (value mod 2 ^ 8))
  end.
(** [value as u8] keeps the low byte of the [c_int]. *)
Definition memset (destination value : Z) (length : nat) (m : Mem) : Mem * Z :=
  (fill_forward length 0 destination value m, destination).

Fixpoint compare_from (count : nat) (index left right : Z) (m : Mem) : Z :=
  match count with
  | O => 0
  | S count =>
      let left_byte := m (left + index) in
      let right_byte := m (right + index) in
      if negb (left_byte =? right_byte) then left_byte - right_byte else compare_from count (index + 1) left right m
  end.
Definition memcmp (left right : Z) (length : nat) (m : Mem) : Z := compare_from length 0 left right m.

(** ** Correctness *)

(** The [n] bytes at [a]. *)
Definition bytes_at (m : Mem) (a : Z) (n : nat) : list Z := map (fun i => m (a + Z.of_nat i)) (seq 0 n).

Lemma copy_forward_spec count index destination source m b :
  destination <= source \/ source + index + Z.of_nat count <= destination + index ->
  copy_forward count index destination source m b =
  if (destination + index <=? b) && (b <? destination + index + Z.of_nat count) then m (b - destination + source) else m b.
Proof.
  revert index m. induction count as [|count IH]; intros index m Hov; cbn [copy_forward].
  { destruct (Z.leb_spec (destination + index) b), (Z.ltb_spec b (destination + index + Z.of_nat 0)); cbn; lia || done. }
  rewrite IH by lia. unfold write_byte.
  destruct (Z.leb_spec (destination + (index + 1)) b), (Z.ltb_spec b (destination + (index + 1) + Z.of_nat count)),
    (Z.leb_spec (destination + index) b), (Z.ltb_spec b (destination + index + Z.of_nat (S count))),
    (Z.eqb_spec b (destination + index)), (Z.eqb_spec (b - destination + source) (destination + index)); cbn [andb];
    try lia; try done; f_equal; lia.
Qed.

Lemma copy_backward_spec length destination source m b :
  source < destination ->
  copy_backward length destination source m b =
  if (destination <=? b) && (b <? destination + Z.of_nat length) then m (b - destination + source) else m b.
Proof.
  intros Hlt. revert m. induction length as [|index IH]; intros m; cbn [copy_backward].
  { destruct (Z.leb_spec destination b), (Z.ltb_spec b (destination + Z.of_nat 0)); cbn; lia || done. }
  rewrite IH. unfold write_byte.
  destruct (Z.leb_spec destination b), (Z.ltb_spec b (destination + Z.of_nat index)),
    (Z.ltb_spec b (destination + Z.of_nat (S index))), (Z.eqb_spec b (destination + Z.of_nat index)),
    (Z.eqb_spec (b - destination + source) (destination + Z.of_nat index)); cbn [andb];
    try lia; try done; f_equal; lia.
Qed.

Lemma fill_forward_spec count index destination value m b :
  fill_forward count index destination value m b =
  if (destination + index <=? b) && (b <? destination + index + Z.of_nat count) then value mod 2 ^ 8 else m b.
Proof.
  revert index m. induction count as [|count IH]; intros index m; cbn [fill_forward].
  { destruct (Z.leb_spec (destination + index) b), (Z.ltb_spec b (destination + index + Z.of_nat 0)); cbn; lia || done. }
  rewrite IH. unfold write_byte.
  destruct (Z.leb_spec (destination + (index + 1)) b), (Z.ltb_spec b (destination + (index + 1) + Z.of_nat count)),
    (Z.leb_spec (destination + index) b), (Z.ltb_spec b (destination + index + Z.of_nat (S count))),
    (Z.eqb_spec b (destination + index)); cbn [andb]; lia || done.
Qed.

(** The sign of the comparison is the order of the byte strings. *)
Lemma compare_from_spec count index left right m :
  compare_from count (Z.of_nat index) left right m ?= 0 =
  bytes_cmp (map (fun i => m (left + Z.of_nat i)) (seq index count)) (map (fun i => m (right + Z.of_nat i)) (seq index count)).
Proof.
  revert index. induction count as [|count IH]; intros index; cbn [compare_from seq map bytes_cmp]; [done|].
  destruct (Z.eqb_spec (m (left + Z.of_nat index)) (m (right + Z.of_nat index))) as [He|He]; cbn [negb].
  - rewrite He, Z.compare_refl. replace (Z.of_nat index + 1) with (Z.of_nat (S index)) by lia. apply IH.
  - destruct (Z.compare_spec (m (left + Z.of_nat index)) (m (right + Z.of_nat index))); [done| |].
    + apply Z.compare_lt_iff. lia.
    + apply Z.compare_gt_iff. lia.
Qed.

(** The byte primitives do what the compiler expects of them. [memmove] gives
    the destination the bytes the source held before the call, however the two
    ranges overlap, and changes nothing else; [memcpy] does the same for ranges
    that do not overlap; [memset] fills the range with the low byte of its value;
    [memcmp] orders the ranges as byte strings; each but the last returns its
    destination. *)
Theorem memory_primitives_correct (d s value : Z) (n : nat) (m : Mem) :
  let inside b := (d <=? b) && (b <? d + Z.of_nat n) in
  (let '(m', r) := memmove d s n m in r = d /\ forall b, m' b = if inside b then m (b - d + s) else m b) /\
  (d + Z.of_nat n <= s \/ s + Z.of_nat n <= d ->
   let '(m', r) := memcpy d s n m in r = d /\ forall b, m' b = if inside b then m (b - d + s) else m b) /\
  (let '(m', r) := memset d value n m in r = d /\ forall b, m' b = if inside b then value mod 2 ^ 8 else m b) /\
  (memcmp d s n m ?= 0) = bytes_cmp (bytes_at m d n) (bytes_at m s n).
Proof.
  cbv zeta. split_conj.
  - unfold memmove. destruct (Z.leb_spec d s) as [Hle|Hlt]; (split; [done|]; intros b).
    + rewrite copy_forward_spec by lia. by rewrite Z.add_0_r.
    + by apply copy_backward_spec.
  - intros Hov. split; [done|]. intros b. rewrite copy_forward_spec by lia. by rewrite Z.add_0_r.
  - split; [done|]. intros b. rewrite fill_forward_spec. by rewrite Z.add_0_r.
  - apply (compare_from_spec n 0).
Qed.

(** A move by one byte upwards over itself. *)
Lemma memory_primitives_correct_witness :
  let m a := a in
  (10 + 3 <= 20 \/ 20 + 3 <= 10) /\ (memmove 11 10 3 m).1 13 = 12 /\ (memcpy 10 20 3 m).1 12 = 22.
Proof.
  cbv zeta. split; [lia|]. split.
  - destruct (memory_primitives_correct 11 10 0 3 (fun a => a)) as [H _]. apply H.
  - destruct (memory_primitives_correct 10 20 0 3 (fun a => a)) as (_ & H & _). apply H. lia.
Defined.
End Memory.
