(* ===== verification/BootInfo.v ===== *)
(** * The boot handoff record (loader/src/boot_info.rs)

    The UEFI loader describes memory, modules and optional devices to the kernel
    in one record with two tables.  The kernel's generated constants are a class,
    [BootAbi]; its laws say that they are unsigned and that the kinds differ.  A
    module's storage and the tables are given by their physical ranges. *)

From stdpp Require Import base tactics option list list_numbers.
From Stdlib Require Import ZArith Lia.
From S2P Require Import Prelude Bytes.
Local Open Scope Z_scope.

(** [DwBootMemoryRangeV1], [DwBootModuleV1], [DwBootFramebufferV1], [DwBootEntropyV1] *)
Record MemoryRange := mkRange {
  mr_size : Z; mr_version : Z; mr_kind : Z; mr_reserved0 : Z; mr_start : Z; mr_pages : Z; mr_attributes : Z; mr_reserved : list Z }.
Record BootModule := mkModule {
  bm_size : Z; bm_version : Z; bm_kind : Z; bm_flags : Z; bm_start : Z; bm_bytes : Z; bm_reserved : list Z }.
Record BootFramebuffer := mkFramebuffer {
  fb_size : Z; fb_version : Z; fb_flags : Z; fb_pixel_format : Z; fb_start : Z; fb_bytes : Z; fb_width : Z; fb_height : Z;
  fb_pixels_per_scanline : Z; fb_reserved0 : Z; fb_red : Z; fb_green : Z; fb_blue : Z; fb_reserved_mask : Z; fb_reserved : list Z }.
Record BootEntropy := mkEntropy {
  en_size : Z; en_version : Z; en_source : Z; en_flags : Z; en_start : Z; en_bytes : Z; en_reserved : list Z }.
#[global] Instance BootFramebuffer_eq_dec : EqDecision BootFramebuffer.
Proof. solve_decision. Defined.
#[global] Instance BootEntropy_eq_dec : EqDecision BootEntropy.
Proof. solve_decision. Defined.

Class BootAbi := {
  DW_BOOT_BASE_PAGE_SIZE : Z;
  DW_BOOT_INFO_V1_SIZE : Z; DW_BOOT_INFO_V1_VERSION : Z;
  DW_BOOT_MEMORY_RANGE_V1_SIZE : Z; DW_BOOT_MEMORY_RANGE_V1_VERSION : Z; align_of_memory_range : Z;
  DW_BOOT_MODULE_V1_SIZE : Z; DW_BOOT_MODULE_V1_VERSION : Z; align_of_module : Z;
  DW_BOOT_FRAMEBUFFER_V1_SIZE : Z; DW_BOOT_FRAMEBUFFER_V1_VERSION : Z;
  DW_BOOT_ENTROPY_V1_SIZE : Z; DW_BOOT_ENTROPY_V1_VERSION : Z;
  DW_BOOT_MEMORY_KIND_USABLE : Z; DW_BOOT_MEMORY_KIND_RESERVED : Z; DW_BOOT_MEMORY_KIND_ACPI_RECLAIM : Z;
  DW_BOOT_MEMORY_KIND_ACPI_NVS : Z; DW_BOOT_MEMORY_KIND_MMIO : Z; DW_BOOT_MEMORY_KIND_RUNTIME_SERVICES : Z;
  DW_BOOT_MEMORY_KIND_UNUSABLE : Z;
  DW_BOOT_MODULE_KIND_WYRMROOT_BOOTSTRAP : Z; DW_BOOT_MODULE_KIND_WYRMROOT_BOOTFS : Z;
  DW_BOOT_MODULE_KIND_DEEPWYRM_X86_64_PAGING_HANDOFF_V1 : Z; DW_BOOT_MODULE_KIND_DEEPWYRM_BOOT_DEVICE_TABLE_V1 : Z;
  DW_BOOT_MODULE_FLAG_READ_ONLY : Z;
  DW_BOOT_X86_64_PAGING_HANDOFF_TABLE_FRAMES_OFFSET : Z; DW_BOOT_X86_64_PAGING_HANDOFF_TABLE_FRAME_STRIDE : Z;
  DW_BOOT_X86_64_PAGING_HANDOFF_MIN_TABLE_FRAME_COUNT : Z; DW_BOOT_X86_64_PAGING_HANDOFF_MAX_BYTE_LEN : Z;
  DW_BOOT_INFO_FLAG_FRAMEBUFFER_PRESENT : Z; DW_BOOT_FRAMEBUFFER_FLAG_LINEAR : Z;
  DW_BOOT_PIXEL_FORMAT_RGBX8 : Z; DW_BOOT_PIXEL_FORMAT_BGRX8 : Z; DW_BOOT_PIXEL_FORMAT_BITMASK : Z;
  DW_BOOT_ENTROPY_SOURCE_UEFI_RNG_PROTOCOL : Z; DW_BOOT_ENTROPY_SOURCE_FIRMWARE_PLATFORM : Z;
  DW_BOOT_ENTROPY_SOURCE_MIXED_FIRMWARE : Z; DW_BOOT_ENTROPY_FLAG_CONDITIONED : Z;
  default_framebuffer : BootFramebuffer; default_entropy : BootEntropy;
  page_size_ok : 0 < DW_BOOT_BASE_PAGE_SIZE < 2 ^ 32;
  sizes_ok : 0 <= DW_BOOT_INFO_V1_SIZE < 2 ^ 32 /\ 0 <= DW_BOOT_MEMORY_RANGE_V1_SIZE < 2 ^ 32 /\ 0 <= DW_BOOT_MODULE_V1_SIZE < 2 ^ 32;
  extents_ok : Forall in_u32 [DW_BOOT_X86_64_PAGING_HANDOFF_TABLE_FRAMES_OFFSET; DW_BOOT_X86_64_PAGING_HANDOFF_TABLE_FRAME_STRIDE;
    DW_BOOT_X86_64_PAGING_HANDOFF_MIN_TABLE_FRAME_COUNT; DW_BOOT_X86_64_PAGING_HANDOFF_MAX_BYTE_LEN];
  module_kinds_differ : NoDup [DW_BOOT_MODULE_KIND_WYRMROOT_BOOTSTRAP; DW_BOOT_MODULE_KIND_WYRMROOT_BOOTFS;
    DW_BOOT_MODULE_KIND_DEEPWYRM_X86_64_PAGING_HANDOFF_V1; DW_BOOT_MODULE_KIND_DEEPWYRM_BOOT_DEVICE_TABLE_V1];
  read_only_is_a_bit : 0 < DW_BOOT_MODULE_FLAG_READ_ONLY }.

Module BootInfo.

Definition MAX_COMMAND_LINE_BYTES : Z := 4096.
Definition MAX_ENTROPY_BYTES : Z := 4096.
Definition ACPI_RSDP_MINIMUM_BYTES : Z := 20.
Definition ACPI_RSDP_ALIGNMENT : Z := 16.

Inductive FirmwarePhase := BeforeExitBootServices | AfterExitBootServices.
Inductive UefiMemoryKind := Conventional | BootServices | LoaderKind | Reserved | AcpiReclaim | AcpiNvs | Mmio | RuntimeServices | Unusable.
Inductive AllocationLifetime :=
| RetainedUntilDeepwyrmPageTableReplacement | ReleasedBeforeDeepwyrmPageTableReplacement | AllocationFailed.
Record HandoffAllocation := mkAllocation { ha_start : Z; ha_bytes : Z; ha_lifetime : AllocationLifetime }.
Inductive FirmwareEntropySource := UefiRngProtocol | FirmwarePlatform | MixedFirmware.
Record EntropyInput := mkEntropyInput { ei_storage : HandoffAllocation; ei_bytes : Z; ei_source : FirmwareEntropySource; ei_conditioned : bool }.
Record CommandLineInput := mkCommandLine { cl_storage : HandoffAllocation; cl_bytes : Z }.
Inductive FramebufferPixelFormat := Rgbx8 | Bgrx8 | Bitmask (red green blue reserved : Z).
Record FramebufferInput := mkFramebufferInput {
  fi_start : Z; fi_bytes : Z; fi_width : Z; fi_height : Z; fi_pixels_per_scanline : Z; fi_pixel_format : FramebufferPixelFormat }.
Record AcpiRsdpInput := mkRsdp { ar_storage : HandoffAllocation; ar_bytes : Z }.
Record BootInfoInput := mkInput {
  phase : FirmwarePhase; boot_info_storage : HandoffAllocation; memory_map_storage : HandoffAllocation;
  module_table_storage : HandoffAllocation; memory_map : list MemoryRange; modules : list BootModule;
  acpi_rsdp : option AcpiRsdpInput; framebuffer : option FramebufferInput; command_line : option CommandLineInput;
  entropy : option EntropyInput }.
Record BootInfoLimits := mkLimits { max_memory_map_entries : Z; max_module_entries : Z }.
(** [DwBootInfoV1] *)
Record Info := mkInfo {
  bi_size : Z; bi_version : Z; bi_flags : Z; memory_map_physical_start : Z; memory_map_entry_count : Z; memory_map_entry_size : Z;
  bi_reserved0 : Z; modules_physical_start : Z; module_count : Z; module_entry_size : Z; bi_reserved1 : Z;
  acpi_rsdp_physical_address : Z; bi_framebuffer : BootFramebuffer; command_line_physical_start : Z; command_line_byte_len : Z;
  bi_entropy : BootEntropy; bi_reserved : list Z }.

Inductive BootInfoError :=
| ExitBootServicesIncomplete | AllocationUnavailable | AllocationReleased | EmptyMemoryMap | OutputLengthMismatch
| MemoryMapEntryLimitExceeded | ModuleEntryLimitExceeded | PhysicalAddressUnaligned | EmptyRange | RangeOverflow
| MemoryMapOverlap | HandoffStorageNotReserved | HandoffStorageOverlap | MissingBootstrapModule | MissingBootfsModule
| MissingPagingHandoffModule | InvalidModuleOrder | DuplicateModule | ModuleMustBeReadOnly | UnsupportedModuleFlags
| CommandLineTooLarge | InvalidOptionalAddress | InvalidAcpiRsdp | InvalidFramebuffer | InvalidEntropy | InvalidHeader
| InvalidReservedField | InvalidTableReference | UnknownMemoryKind.

Definition result := res BootInfoError.

(** [x.is_multiple_of(n)] *)
Definition is_multiple_of (x n : Z) : bool := x mod n =? 0.
(** [values.iter().any(|value| *value != 0)] *)
Definition any_nonzero (values : list Z) : bool := existsb (fun v => negb (v =? 0)) values.

Section boot_info.
Context {babi : BootAbi}.
Abbreviation PAGE := DW_BOOT_BASE_PAGE_SIZE.

(** ** Ranges *)

Definition page_range_end (physical_start page_count : Z) : result Z :=
  let! byte_len := ok_or RangeOverflow (checked_mul_u64 page_count PAGE) in
  ok_or RangeOverflow (checked_add_u64 physical_start byte_len).

Definition validate_page_range (physical_start page_count : Z) : result unit :=
  reject_if! page_count =? 0 with EmptyRange;;
  reject_if! negb (is_multiple_of physical_start PAGE) with PhysicalAddressUnaligned;;
  let! _ := page_range_end physical_start page_count in
  Ok tt.

Definition validate_module_range (physical_start byte_len : Z) : result unit :=
  reject_if! byte_len =? 0 with EmptyRange;;
  reject_if! (physical_start =? 0) || negb (is_multiple_of physical_start PAGE) with PhysicalAddressUnaligned;;
  let! _ := ok_or RangeOverflow (checked_add_u64 physical_start byte_len) in
  Ok tt.

Definition module_allocation_len (byte_len : Z) : result Z :=
  let! slack := minus PAGE 1 in
  let! rounded := ok_or RangeOverflow (checked_add_u64 byte_len slack) in
  Ok (rounded / PAGE * PAGE).

Definition ranges_overlap (left_start left_len right_start right_len : Z) : result bool :=
  let! left_end := ok_or RangeOverflow (checked_add_u64 left_start left_len) in
  let! right_end := ok_or RangeOverflow (checked_add_u64 right_start right_len) in
  Ok ((left_start <? right_end) && (right_start <? left_end)).

(** [for entry in memory_map], until one holds the range *)
Fixpoint some_entry_holds (physical_start end_ : Z) (memory_map : list MemoryRange) (accepts : Z -> bool) : result bool :=
  match memory_map with
  | [] => Ok false
  | entry :: memory_map =>
      let! entry_end := page_range_end (mr_start entry) (mr_pages entry) in
      if accepts (mr_kind entry) && (physical_start >=? mr_start entry) && (end_ <=? entry_end) then Ok true
      else some_entry_holds physical_start end_ memory_map accepts
  end.
Definition range_has_kind (physical_start byte_len : Z) (memory_map : list MemoryRange) (accepts : Z -> bool) : result bool :=
  let! end_ := ok_or RangeOverflow (checked_add_u64 physical_start byte_len) in
  some_entry_holds physical_start end_ memory_map accepts.

Definition is_reserved (kind : Z) : bool := kind =? DW_BOOT_MEMORY_KIND_RESERVED.
Definition validate_reserved_range (physical_start byte_len : Z) (memory_map : list MemoryRange) : result unit :=
  let! ok := range_has_kind physical_start byte_len memory_map is_reserved in
  if (ok : bool) then Ok tt else Err HandoffStorageNotReserved.
Definition validate_reserved_storage (allocation : HandoffAllocation) (memory_map : list MemoryRange) : result unit :=
  let! ok := range_has_kind (ha_start allocation) (ha_bytes allocation) memory_map is_reserved in
  if (ok : bool) then Ok tt else Err HandoffStorageNotReserved.
Definition range_is_framebuffer_backed (physical_start byte_len : Z) (memory_map : list MemoryRange) : result bool :=
  range_has_kind physical_start byte_len memory_map
    (fun kind => (kind =? DW_BOOT_MEMORY_KIND_RESERVED) || (kind =? DW_BOOT_MEMORY_KIND_MMIO)).

(** ** Storage *)

Definition validate_retained (allocation : HandoffAllocation) (minimum_len : Z) : result unit :=
  match ha_lifetime allocation with
  | AllocationFailed => Err AllocationUnavailable
  | ReleasedBeforeDeepwyrmPageTableReplacement => Err AllocationReleased
  | RetainedUntilDeepwyrmPageTableReplacement =>
      reject_if! (ha_start allocation =? 0) || (ha_bytes allocation <? minimum_len) with EmptyRange;;
      reject_if! negb (is_multiple_of (ha_start allocation) PAGE) || negb (is_multiple_of (ha_bytes allocation) PAGE)
        with PhysicalAddressUnaligned;;
      reject_if! bool_decide (checked_add_u64 (ha_start allocation) (ha_bytes allocation) = None) with RangeOverflow;;
      Ok tt
  end.

Definition validate_table_storage (allocation : HandoffAllocation) (entry_count entry_size alignment : Z) : result unit :=
  let! required := ok_or RangeOverflow (checked_mul_u64 entry_count entry_size) in
  let! _ := validate_retained allocation required in
  reject_if! negb (is_multiple_of (ha_start allocation) alignment) with PhysicalAddressUnaligned;;
  Ok tt.

Definition validate_table_reference (physical_start count entry_size expected_size alignment : Z) : result unit :=
  reject_if! (count =? 0) || negb (entry_size =? expected_size) || (physical_start =? 0)
    || negb (is_multiple_of physical_start alignment) with InvalidTableReference;;
  let! byte_len := ok_or RangeOverflow (checked_mul_u64 count entry_size) in
  let! _ := ok_or RangeOverflow (checked_add_u64 physical_start byte_len) in
  Ok tt.

Definition validate_byte_reference (physical_start byte_len maximum_len : Z) : result unit :=
  reject_if! (byte_len >? maximum_len) || ((byte_len =? 0) && negb (physical_start =? 0))
    || (negb (byte_len =? 0) && (physical_start =? 0)) with InvalidOptionalAddress;;
  reject_if! negb (byte_len =? 0) && bool_decide (checked_add_u64 physical_start byte_len = None) with RangeOverflow;;
  Ok tt.

(** ** The memory map *)

Definition is_known_memory_kind (kind : Z) : bool :=
  (kind =? DW_BOOT_MEMORY_KIND_USABLE) || (kind =? DW_BOOT_MEMORY_KIND_RESERVED) || (kind =? DW_BOOT_MEMORY_KIND_ACPI_RECLAIM)
  || (kind =? DW_BOOT_MEMORY_KIND_ACPI_NVS) || (kind =? DW_BOOT_MEMORY_KIND_MMIO) || (kind =? DW_BOOT_MEMORY_KIND_RUNTIME_SERVICES)
  || (kind =? DW_BOOT_MEMORY_KIND_UNUSABLE).

(** The loop of [validate_memory_map]; [previous_end] is [None] at index 0. *)
Fixpoint validate_entries (memory_map : list MemoryRange) (previous_end : option Z) : result unit :=
  match memory_map with
  | [] => Ok tt
  | entry :: memory_map =>
      reject_if! negb (mr_size entry =? DW_BOOT_MEMORY_RANGE_V1_SIZE) || negb (mr_version entry =? DW_BOOT_MEMORY_RANGE_V1_VERSION)
        with InvalidHeader;;
      reject_if! negb (mr_reserved0 entry =? 0) || any_nonzero (mr_reserved entry) with InvalidReservedField;;
      reject_if! negb (is_known_memory_kind (mr_kind entry)) with UnknownMemoryKind;;
      let! _ := validate_page_range (mr_start entry) (mr_pages entry) in
      let! end_ := page_range_end (mr_start entry) (mr_pages entry) in
      reject_if! (match previous_end with Some p => mr_start entry <? p | None => false end) with MemoryMapOverlap;;
      validate_entries memory_map (Some end_)
  end.
Definition validate_memory_map (memory_map : list MemoryRange) : result unit := validate_entries memory_map None.

(** ** Modules *)

Record Seen := mkSeen { bootstrap_seen : bool; bootfs_seen : bool; paging_handoff_seen : bool; boot_device_table_seen : bool }.

(** The test on the extent of a paging handoff. *)
Definition valid_paging_extent (byte_len : Z) : result bool :=
  let offset := DW_BOOT_X86_64_PAGING_HANDOFF_TABLE_FRAMES_OFFSET in
  let stride := DW_BOOT_X86_64_PAGING_HANDOFF_TABLE_FRAME_STRIDE in
  let! frames := or_panic (checked_mul_u64 DW_BOOT_X86_64_PAGING_HANDOFF_MIN_TABLE_FRAME_COUNT stride) in
  let! minimum := plus offset frames in
  if (minimum <=? byte_len) && (byte_len <=? DW_BOOT_X86_64_PAGING_HANDOFF_MAX_BYTE_LEN) then
    let! tables := minus byte_len offset in
    Ok (is_multiple_of tables stride)
  else Ok false.

(** What the kind of a module requires, and the new [*_seen] flags. *)
Definition see_module (module : BootModule) (seen : Seen) : result Seen :=
  let '(mkSeen b f g d) := seen in
  if bm_kind module =? DW_BOOT_MODULE_KIND_WYRMROOT_BOOTSTRAP then
    reject_if! b with DuplicateModule;;
    Ok (mkSeen true f g d)
  else if bm_kind module =? DW_BOOT_MODULE_KIND_WYRMROOT_BOOTFS then
    reject_if! f with DuplicateModule;;
    reject_if! Z.land (bm_flags module) DW_BOOT_MODULE_FLAG_READ_ONLY =? 0 with ModuleMustBeReadOnly;;
    Ok (mkSeen b true g d)
  else if bm_kind module =? DW_BOOT_MODULE_KIND_DEEPWYRM_X86_64_PAGING_HANDOFF_V1 then
    reject_if! g with DuplicateModule;;
    reject_if! negb (bm_flags module =? DW_BOOT_MODULE_FLAG_READ_ONLY) with ModuleMustBeReadOnly;;
    let! valid := valid_paging_extent (bm_bytes module) in
    reject_if! negb valid with InvalidHeader;;
    Ok (mkSeen b f true d)
  else if bm_kind module =? DW_BOOT_MODULE_KIND_DEEPWYRM_BOOT_DEVICE_TABLE_V1 then
    reject_if! d with DuplicateModule;;
    reject_if! negb (bm_flags module =? DW_BOOT_MODULE_FLAG_READ_ONLY) with ModuleMustBeReadOnly;;
    Ok (mkSeen b f g true)
  else Err InvalidHeader.

(** [for right in rights], each against one range *)
Fixpoint reject_overlaps (start bytes : Z) (rights : list (Z * result Z)) : result unit :=
  match rights with
  | [] => Ok tt
  | (right_start, right_len) :: rights =>
      let! right_len := right_len in
      let! overlap := ranges_overlap start bytes right_start right_len in
      reject_if! overlap with HandoffStorageOverlap;;
      reject_overlaps start bytes rights
  end.
(** A module's allocation as a range, its length computed when it is used. *)
Definition module_range (module : BootModule) : Z * result Z := (bm_start module, module_allocation_len (bm_bytes module)).

(** The loop of [validate_modules]. *)
Fixpoint validate_each_module (modules : list BootModule) (seen : Seen) : result Seen :=
  match modules with
  | [] => Ok seen
  | module :: others =>
      reject_if! negb (bm_size module =? DW_BOOT_MODULE_V1_SIZE) || negb (bm_version module =? DW_BOOT_MODULE_V1_VERSION)
        with InvalidHeader;;
      reject_if! any_nonzero (bm_reserved module) with InvalidReservedField;;
      let! _ := validate_module_range (bm_start module) (bm_bytes module) in
      reject_if! negb (Z.ldiff (bm_flags module) DW_BOOT_MODULE_FLAG_READ_ONLY =? 0) with UnsupportedModuleFlags;;
      let! seen := see_module module seen in
      let! _ :=
        match others with
        | [] => Ok tt
        | _ => let! bytes := module_allocation_len (bm_bytes module) in reject_overlaps (bm_start module) bytes (map module_range others)
        end in
      validate_each_module others seen
  end.

Definition expected_kinds (with_device_table : bool) : list Z :=
  [DW_BOOT_MODULE_KIND_WYRMROOT_BOOTSTRAP; DW_BOOT_MODULE_KIND_WYRMROOT_BOOTFS; DW_BOOT_MODULE_KIND_DEEPWYRM_X86_64_PAGING_HANDOFF_V1]
  ++ (if with_device_table then [DW_BOOT_MODULE_KIND_DEEPWYRM_BOOT_DEVICE_TABLE_V1] else []).

Definition validate_modules (modules : list BootModule) : result unit :=
  let! seen := validate_each_module modules (mkSeen false false false false) in
  reject_if! negb (bootstrap_seen seen) with MissingBootstrapModule;;
  reject_if! negb (bootfs_seen seen) with MissingBootfsModule;;
  reject_if! negb (paging_handoff_seen seen) with MissingPagingHandoffModule;;
  let expected := expected_kinds (boot_device_table_seen seen) in
  reject_if! negb (len modules =? len expected)
    || existsb (fun '(module, kind) => negb (bm_kind module =? kind)) (zip modules expected) with InvalidModuleOrder;;
  Ok tt.

(** ** Optional parts *)

Definition build_command_line (command_line : option CommandLineInput) (memory_map : list MemoryRange) : result CommandLineInput :=
  match command_line with
  | None => Ok (mkCommandLine (mkAllocation 0 0 RetainedUntilDeepwyrmPageTableReplacement) 0)
  | Some command_line =>
      let! _ := validate_retained (cl_storage command_line) (cl_bytes command_line) in
      reject_if! cl_bytes command_line >? MAX_COMMAND_LINE_BYTES with CommandLineTooLarge;;
      reject_if! cl_bytes command_line =? 0 with InvalidOptionalAddress;;
      let! _ := validate_reserved_storage (cl_storage command_line) memory_map in
      Ok command_line
  end.

Definition build_entropy (entropy : option EntropyInput) (memory_map : list MemoryRange) : result BootEntropy :=
  match entropy with
  | None => Ok default_entropy
  | Some entropy =>
      reject_if! (ei_bytes entropy =? 0) || (ei_bytes entropy >? MAX_ENTROPY_BYTES) || (ei_bytes entropy >? ha_bytes (ei_storage entropy))
        with InvalidEntropy;;
      let! _ := validate_retained (ei_storage entropy) (ei_bytes entropy) in
      let! _ := validate_reserved_storage (ei_storage entropy) memory_map in
      let source := match ei_source entropy with
        | UefiRngProtocol => DW_BOOT_ENTROPY_SOURCE_UEFI_RNG_PROTOCOL
        | FirmwarePlatform => DW_BOOT_ENTROPY_SOURCE_FIRMWARE_PLATFORM
        | MixedFirmware => DW_BOOT_ENTROPY_SOURCE_MIXED_FIRMWARE
        end in
      let flags := if ei_conditioned entropy then DW_BOOT_ENTROPY_FLAG_CONDITIONED else 0 in
      Ok (mkEntropy DW_BOOT_ENTROPY_V1_SIZE DW_BOOT_ENTROPY_V1_VERSION source flags (ha_start (ei_storage entropy)) (ei_bytes entropy)
            [0; 0; 0; 0])
  end.

Definition build_acpi_rsdp (rsdp : option AcpiRsdpInput) (memory_map : list MemoryRange) : result Z :=
  match rsdp with
  | None => Ok 0
  | Some rsdp =>
      reject_if! (ha_start (ar_storage rsdp) =? 0) || negb (is_multiple_of (ha_start (ar_storage rsdp)) ACPI_RSDP_ALIGNMENT)
        || (ar_bytes rsdp <? ACPI_RSDP_MINIMUM_BYTES) || (ar_bytes rsdp >? ha_bytes (ar_storage rsdp)) with InvalidAcpiRsdp;;
      let! _ := validate_retained (ar_storage rsdp) (ar_bytes rsdp) in
      let! _ := validate_reserved_storage (ar_storage rsdp) memory_map in
      Ok (ha_start (ar_storage rsdp))
  end.

Definition masks_overlap (red green blue reserved : Z) : bool :=
  negb (Z.land red green =? 0) || negb (Z.land red blue =? 0) || negb (Z.land red reserved =? 0) || negb (Z.land green blue =? 0)
  || negb (Z.land green reserved =? 0) || negb (Z.land blue reserved =? 0).

Definition framebuffer_descriptor (f : FramebufferInput) : result BootFramebuffer :=
  reject_if! (fi_width f =? 0) || (fi_height f =? 0) || (fi_pixels_per_scanline f <? fi_width f) with InvalidFramebuffer;;
  let! bytes_per_line := ok_or InvalidFramebuffer (checked_mul_u64 (fi_pixels_per_scanline f) 4) in
  let! required_len := ok_or InvalidFramebuffer (checked_mul_u64 bytes_per_line (fi_height f)) in
  reject_if! (fi_bytes f <? required_len) || bool_decide (checked_add_u64 (fi_start f) (fi_bytes f) = None) with InvalidFramebuffer;;
  let! '(pixel_format, red, green, blue, reserved) :=
    match fi_pixel_format f with
    | Rgbx8 => Ok (DW_BOOT_PIXEL_FORMAT_RGBX8, 0, 0, 0, 0)
    | Bgrx8 => Ok (DW_BOOT_PIXEL_FORMAT_BGRX8, 0, 0, 0, 0)
    | Bitmask red green blue reserved =>
        reject_if! (red =? 0) || (green =? 0) || (blue =? 0) || masks_overlap red green blue reserved with InvalidFramebuffer;;
        Ok (DW_BOOT_PIXEL_FORMAT_BITMASK, red, green, blue, reserved)
    end in
  Ok (mkFramebuffer DW_BOOT_FRAMEBUFFER_V1_SIZE DW_BOOT_FRAMEBUFFER_V1_VERSION DW_BOOT_FRAMEBUFFER_FLAG_LINEAR pixel_format
        (fi_start f) (fi_bytes f) (fi_width f) (fi_height f) (fi_pixels_per_scanline f) 0 red green blue reserved [0; 0; 0; 0]).

Definition build_framebuffer (framebuffer : option FramebufferInput) (memory_map : list MemoryRange) : result (Z * BootFramebuffer) :=
  match framebuffer with
  | None => Ok (0, default_framebuffer)
  | Some framebuffer =>
      let! descriptor := framebuffer_descriptor framebuffer in
      let! backed := range_is_framebuffer_backed (fb_start descriptor) (fb_bytes descriptor) memory_map in
      reject_if! negb backed with HandoffStorageNotReserved;;
      Ok (DW_BOOT_INFO_FLAG_FRAMEBUFFER_PRESENT, descriptor)
  end.

Definition validate_framebuffer (f : BootFramebuffer) : result unit :=
  reject_if! negb (fb_size f =? DW_BOOT_FRAMEBUFFER_V1_SIZE) || negb (fb_version f =? DW_BOOT_FRAMEBUFFER_V1_VERSION)
    || negb (fb_flags f =? DW_BOOT_FRAMEBUFFER_FLAG_LINEAR) || negb (fb_reserved0 f =? 0) || any_nonzero (fb_reserved f)
    with InvalidFramebuffer;;
  let! input :=
    if fb_pixel_format f =? DW_BOOT_PIXEL_FORMAT_RGBX8 then Ok Rgbx8
    else if fb_pixel_format f =? DW_BOOT_PIXEL_FORMAT_BGRX8 then Ok Bgrx8
    else if fb_pixel_format f =? DW_BOOT_PIXEL_FORMAT_BITMASK then Ok (Bitmask (fb_red f) (fb_green f) (fb_blue f) (fb_reserved_mask f))
    else Err InvalidFramebuffer in
  reject_if! (match input with Bitmask _ _ _ _ => false | _ => true end)
    && (negb (fb_red f =? 0) || negb (fb_green f =? 0) || negb (fb_blue f =? 0) || negb (fb_reserved_mask f =? 0)) with InvalidFramebuffer;;
  let! _ := framebuffer_descriptor
    (mkFramebufferInput (fb_start f) (fb_bytes f) (fb_width f) (fb_height f) (fb_pixels_per_scanline f) input) in
  Ok tt.

Definition validate_entropy (e : BootEntropy) : result unit :=
  reject_if! negb (en_size e =? DW_BOOT_ENTROPY_V1_SIZE) || negb (en_version e =? DW_BOOT_ENTROPY_V1_VERSION)
    || any_nonzero (en_reserved e) || (en_bytes e =? 0) || (en_bytes e >? MAX_ENTROPY_BYTES) || (en_start e =? 0)
    || negb (is_multiple_of (en_start e) PAGE) || bool_decide (checked_add_u64 (en_start e) (en_bytes e) = None)
    || negb (Z.ldiff (en_flags e) DW_BOOT_ENTROPY_FLAG_CONDITIONED =? 0) with InvalidEntropy;;
  reject_if! negb (en_source e =? DW_BOOT_ENTROPY_SOURCE_UEFI_RNG_PROTOCOL)
    && negb (en_source e =? DW_BOOT_ENTROPY_SOURCE_FIRMWARE_PLATFORM)
    && negb (en_source e =? DW_BOOT_ENTROPY_SOURCE_MIXED_FIRMWARE) with InvalidEntropy;;
  Ok tt.

(** ** Disjointness *)

Definition allocation_range (a : HandoffAllocation) : Z * result Z := (ha_start a, Ok (ha_bytes a)).

(** [for (index, left) in fixed.iter().enumerate()]: against the later ones and
    the modules *)
Fixpoint reject_fixed_overlaps (fixed : list HandoffAllocation) (modules : list BootModule) : result unit :=
  match fixed with
  | [] => Ok tt
  | first :: fixed =>
      let! _ := reject_overlaps (ha_start first) (ha_bytes first) (map allocation_range fixed) in
      let! _ := reject_overlaps (ha_start first) (ha_bytes first) (map module_range modules) in
      reject_fixed_overlaps fixed modules
  end.

(** [for left in fixed], the roles exchanged *)
Fixpoint reject_against_fixed (fixed : list HandoffAllocation) (allocation : HandoffAllocation) : result unit :=
  match fixed with
  | [] => Ok tt
  | first :: fixed =>
      let! overlap := ranges_overlap (ha_start first) (ha_bytes first) (ha_start allocation) (ha_bytes allocation) in
      reject_if! overlap with HandoffStorageOverlap;;
      reject_against_fixed fixed allocation
  end.

(** The second loop, with the allocations before the current one. *)
Fixpoint reject_additional (additional : list (option HandoffAllocation)) (prior : list (option HandoffAllocation))
    (fixed : list HandoffAllocation) (modules : list BootModule) : result unit :=
  match additional with
  | [] => Ok tt
  | None :: additional => reject_additional additional (prior ++ [None]) fixed modules
  | Some allocation :: additional =>
      let! _ := reject_against_fixed fixed allocation in
      let! _ := reject_overlaps (ha_start allocation) (ha_bytes allocation) (map module_range modules) in
      let! _ := reject_overlaps (ha_start allocation) (ha_bytes allocation) (map allocation_range (flatten prior)) in
      reject_additional additional (prior ++ [Some allocation]) fixed modules
  end.

Definition validate_distinct_handoff_ranges (input : BootInfoInput) (command_line : CommandLineInput) (entropy : option EntropyInput)
    (acpi_rsdp : option AcpiRsdpInput) : result unit :=
  let fixed := [boot_info_storage input; memory_map_storage input; module_table_storage input] in
  let! _ := reject_fixed_overlaps fixed (modules input) in
  let additional :=
    [if negb (cl_bytes command_line =? 0) then Some (cl_storage command_line) else None; ei_storage <$> entropy; ar_storage <$> acpi_rsdp] in
  reject_additional additional [] fixed (modules input).

(** ** The record *)

Definition validate_boot_info (info : Info) : result unit :=
  reject_if! negb (bi_size info =? DW_BOOT_INFO_V1_SIZE) || negb (bi_version info =? DW_BOOT_INFO_V1_VERSION) with InvalidHeader;;
  reject_if! negb (bi_reserved0 info =? 0) || negb (bi_reserved1 info =? 0) || any_nonzero (bi_reserved info) with InvalidReservedField;;
  reject_if! negb (Z.ldiff (bi_flags info) DW_BOOT_INFO_FLAG_FRAMEBUFFER_PRESENT =? 0) with InvalidHeader;;
  reject_if! negb (acpi_rsdp_physical_address info =? 0) && negb (is_multiple_of (acpi_rsdp_physical_address info) ACPI_RSDP_ALIGNMENT)
    with InvalidAcpiRsdp;;
  let! _ := validate_table_reference (memory_map_physical_start info) (memory_map_entry_count info) (memory_map_entry_size info)
              DW_BOOT_MEMORY_RANGE_V1_SIZE align_of_memory_range in
  let! _ := validate_table_reference (modules_physical_start info) (module_count info) (module_entry_size info)
              DW_BOOT_MODULE_V1_SIZE align_of_module in
  reject_if! command_line_byte_len info >? MAX_COMMAND_LINE_BYTES with CommandLineTooLarge;;
  let! _ := validate_byte_reference (command_line_physical_start info) (command_line_byte_len info) MAX_COMMAND_LINE_BYTES in
  let! _ :=
    if negb (Z.land (bi_flags info) DW_BOOT_INFO_FLAG_FRAMEBUFFER_PRESENT =? 0) then validate_framebuffer (bi_framebuffer info)
    else if bool_decide (bi_framebuffer info <> default_framebuffer) then Err InvalidFramebuffer else Ok tt in
  if bool_decide (bi_entropy info <> default_entropy) then validate_entropy (bi_entropy info) else Ok tt.

Definition is_acpi_backed (kind : Z) : bool :=
  (kind =? DW_BOOT_MEMORY_KIND_ACPI_RECLAIM) || (kind =? DW_BOOT_MEMORY_KIND_ACPI_NVS) || (kind =? DW_BOOT_MEMORY_KIND_RESERVED).

Definition validate_tables (info : Info) (memory_map : list MemoryRange) (modules : list BootModule) : result unit :=
  reject_if! negb (memory_map_entry_count info =? len memory_map) || negb (module_count info =? len modules) with InvalidTableReference;;
  let! _ := validate_memory_map memory_map in
  let! bad :=
    if negb (acpi_rsdp_physical_address info =? 0) then
      let! ok := range_has_kind (acpi_rsdp_physical_address info) ACPI_RSDP_MINIMUM_BYTES memory_map is_acpi_backed in Ok (negb ok)
    else Ok false in
  reject_if! bad with InvalidAcpiRsdp;;
  validate_modules modules.

(** [for module in input.modules] *)
Fixpoint validate_module_storage (modules : list BootModule) (memory_map : list MemoryRange) : result unit :=
  match modules with
  | [] => Ok tt
  | module :: modules =>
      let! bytes := module_allocation_len (bm_bytes module) in
      let! _ := validate_reserved_range (bm_start module) bytes memory_map in
      validate_module_storage modules memory_map
  end.

(** [build_inner]: with the record, what the caller's module table holds.  A slice
    has fewer than [2 ^ 64] entries, so the conversions of the lengths succeed. *)
Definition build_inner (input : BootInfoInput) (output_modules : list BootModule) (limits : option BootInfoLimits)
    : result (Info * list BootModule) :=
  reject_if! (match phase input with AfterExitBootServices => false | _ => true end) with ExitBootServicesIncomplete;;
  reject_if! bool_decide (memory_map input = []) with EmptyMemoryMap;;
  reject_if! negb (len (modules input) =? len output_modules) with OutputLengthMismatch;;
  let! _ :=
    match limits with
    | Some limits =>
        reject_if! len (memory_map input) >? max_memory_map_entries limits with MemoryMapEntryLimitExceeded;;
        reject_if! len (modules input) >? max_module_entries limits with ModuleEntryLimitExceeded;;
        Ok tt
    | None => Ok tt
    end in
  let! _ := validate_retained (boot_info_storage input) DW_BOOT_INFO_V1_SIZE in
  let! _ := validate_table_storage (memory_map_storage input) (len (memory_map input)) DW_BOOT_MEMORY_RANGE_V1_SIZE align_of_memory_range in
  let! _ := validate_table_storage (module_table_storage input) (len (modules input)) DW_BOOT_MODULE_V1_SIZE align_of_module in
  let! _ := validate_memory_map (memory_map input) in
  let! _ := validate_reserved_storage (boot_info_storage input) (memory_map input) in
  let! _ := validate_reserved_storage (memory_map_storage input) (memory_map input) in
  let! _ := validate_reserved_storage (module_table_storage input) (memory_map input) in
  let! _ := validate_modules (modules input) in
  let! _ := validate_module_storage (modules input) (memory_map input) in
  let! command_line := build_command_line (command_line input) (memory_map input) in
  let! entropy_ := build_entropy (entropy input) (memory_map input) in
  let! '(flags, framebuffer_) := build_framebuffer (framebuffer input) (memory_map input) in
  let! rsdp := build_acpi_rsdp (acpi_rsdp input) (memory_map input) in
  let! _ := validate_distinct_handoff_ranges input command_line (entropy input) (acpi_rsdp input) in
  let info := mkInfo DW_BOOT_INFO_V1_SIZE DW_BOOT_INFO_V1_VERSION flags (ha_start (memory_map_storage input)) (len (memory_map input))
    DW_BOOT_MEMORY_RANGE_V1_SIZE 0 (ha_start (module_table_storage input)) (len (modules input)) DW_BOOT_MODULE_V1_SIZE 0 rsdp framebuffer_
    (ha_start (cl_storage command_line)) (cl_bytes command_line) entropy_ (replicate 8 0) in
  let! _ := validate_boot_info info in
  let! output_modules := or_panic (put_range output_modules 0 (modules input)) in
  let! _ := validate_tables info (memory_map input) output_modules in
  Ok (info, output_modules).

Definition build (input : BootInfoInput) (output_modules : list BootModule) : result (Info * list BootModule) :=
  build_inner input output_modules None.
Definition build_with_limits (input : BootInfoInput) (output_modules : list BootModule) (limits : BootInfoLimits)
    : result (Info * list BootModule) := build_inner input output_modules (Some limits).
End boot_info.
End BootInfo.
