(* ===== verification/BootPlan.v ===== *)
(** * Planning the handoff (loader/src/memory_map.rs, loader/src/modules.rs)

    [MemoryMap]: the firmware's descriptors become the kernel's memory map, with
    adjacent ranges of one kind merged.  [Modules]: the physical extents of the
    modules the loader hands over. *)

From stdpp Require Import base tactics option list list_numbers.
From Stdlib Require Import ZArith Lia.
From S2P Require Import Prelude Bytes BootInfo.
Local Open Scope Z_scope.

Module MemoryMap.
Import BootInfo.

Record FirmwareMemoryDescriptor := mkDescriptor {
  d_kind : option UefiMemoryKind; d_start : Z; d_pages : Z; d_attributes : Z }.

Inductive MemoryMapError :=
| UnknownMemoryKind | EmptyRange | PhysicalAddressUnaligned | RangeOverflow | UnsortedInput | OverlappingInput | OutputExhausted.

Section memory_map.
Context {babi : BootAbi}.

Definition normalize_kind (kind : UefiMemoryKind) : Z :=
  match kind with
  | Conventional | BootServices => DW_BOOT_MEMORY_KIND_USABLE
  | LoaderKind | Reserved => DW_BOOT_MEMORY_KIND_RESERVED
  | AcpiReclaim => DW_BOOT_MEMORY_KIND_ACPI_RECLAIM
  | AcpiNvs => DW_BOOT_MEMORY_KIND_ACPI_NVS
  | Mmio => DW_BOOT_MEMORY_KIND_MMIO
  | RuntimeServices => DW_BOOT_MEMORY_KIND_RUNTIME_SERVICES
  | Unusable => DW_BOOT_MEMORY_KIND_UNUSABLE
  end.

Definition page_range_end (physical_start page_count page_size : Z) : res MemoryMapError Z :=
  let! byte_len := ok_or RangeOverflow (checked_mul_u64 page_count page_size) in
  ok_or RangeOverflow (checked_add_u64 physical_start byte_len).

Definition checked_end (physical_start page_count page_size : Z) : res MemoryMapError Z :=
  reject_if! page_count =? 0 with EmptyRange;;
  reject_if! negb (is_multiple_of physical_start page_size) with PhysicalAddressUnaligned;;
  page_range_end physical_start page_count page_size.

(** The slot written for a descriptor that starts a new range. *)
Definition new_range (kind : Z) (d : FirmwareMemoryDescriptor) : MemoryRange :=
  mkRange DW_BOOT_MEMORY_RANGE_V1_SIZE DW_BOOT_MEMORY_RANGE_V1_VERSION kind 0 (d_start d) (d_pages d) (d_attributes d) [0; 0; 0].

Definition can_merge (previous : option MemoryRange) (kind : Z) (d : FirmwareMemoryDescriptor) : res MemoryMapError bool :=
  match previous with
  | Some previous =>
      if (mr_kind previous =? kind) && (mr_attributes previous =? d_attributes d) then
        let! end_ := page_range_end (mr_start previous) (mr_pages previous) DW_BOOT_BASE_PAGE_SIZE in
        Ok (end_ =? d_start d)
      else Ok false
  | None => Ok false
  end.

(** [previous.page_count = ...] *)
Definition set_pages (r : MemoryRange) (pages : Z) : MemoryRange :=
  mkRange (mr_size r) (mr_version r) (mr_kind r) (mr_reserved0 r) (mr_start r) pages (mr_attributes r) (mr_reserved r).

Definition check_order (d : FirmwareMemoryDescriptor) (previous : option (Z * Z)) : res MemoryMapError unit :=
  match previous with
  | Some (previous_start, previous_end) =>
      reject_if! d_start d <? previous_start with UnsortedInput;;
      reject_if! d_start d <? previous_end with OverlappingInput;;
      Ok tt
  | None => Ok tt
  end.

(** The loop, with the previous input's start and end. *)
Fixpoint coalesce (input : list FirmwareMemoryDescriptor) (output : list MemoryRange) (output_len : Z) (previous : option (Z * Z))
    : res MemoryMapError (list MemoryRange * Z) :=
  match input with
  | [] => Ok (output, output_len)
  | descriptor :: input =>
      let! kind := ok_or UnknownMemoryKind (normalize_kind <$> d_kind descriptor) in
      let! end_ := checked_end (d_start descriptor) (d_pages descriptor) DW_BOOT_BASE_PAGE_SIZE in
      let! _ := check_order descriptor previous in
      let previous := Some (d_start descriptor, end_) in
      let! written := or_panic (get_range output 0 output_len) in
      let! merge := can_merge (last written) kind descriptor in
      if (merge : bool) then
        let! index := minus output_len 1 in
        let! slot := or_panic (get_at output index) in
        let! pages := ok_or RangeOverflow (checked_add_u64 (mr_pages slot) (d_pages descriptor)) in
        let! output := or_panic (put_range output index [set_pages slot pages]) in
        coalesce input output output_len previous
      else
        let! output := ok_or OutputExhausted (put_range output output_len [new_range kind descriptor]) in
        let! output_len := ok_or OutputExhausted (checked_add_u64 output_len 1) in
        coalesce input output output_len previous
  end.

(** The returned slice is the first part of the output. *)
Definition normalize_and_coalesce (input : list FirmwareMemoryDescriptor) (output : list MemoryRange)
    : res MemoryMapError (list MemoryRange) :=
  let! '(output, output_len) := coalesce input output 0 None in
  or_panic (get_range output 0 output_len).
End memory_map.
End MemoryMap.

Module Modules.
Import BootInfo.

Record ModuleInput := mkModuleInput { mi_kind : Z; mi_start : Z; mi_bytes : Z }.
Inductive AllocationState := LoaderRetainedThroughHandoff.
Record PlannedModule := mkPlanned { p_kind : Z; p_start : Z; p_bytes : Z; allocated_len : Z; allocation : AllocationState }.
Record ModulePlan := mkModulePlan { bootstrap : PlannedModule; bootfs : PlannedModule; paging_handoff : PlannedModule }.

Inductive ModulePlanError :=
| UnexpectedKind (expected actual : Z) | ZeroLength (kind : Z) | UnalignedStart (kind physical_start : Z) | RangeOverflow (kind : Z)
| AllocationOverflow (kind : Z) | InvalidPagingHandoffExtent | OverlappingAllocations.

Section modules.
Context {babi : BootAbi}.

Definition valid_paging_handoff_extent (byte_len : Z) : res ModulePlanError bool :=
  let offset := DW_BOOT_X86_64_PAGING_HANDOFF_TABLE_FRAMES_OFFSET in
  let stride := DW_BOOT_X86_64_PAGING_HANDOFF_TABLE_FRAME_STRIDE in
  let! frames := or_panic (checked_mul_u64 DW_BOOT_X86_64_PAGING_HANDOFF_MIN_TABLE_FRAME_COUNT stride) in
  let! minimum := plus offset frames in
  if (minimum <=? byte_len) && (byte_len <=? DW_BOOT_X86_64_PAGING_HANDOFF_MAX_BYTE_LEN) then
    let! tables := minus byte_len offset in
    Ok (is_multiple_of tables stride)
  else Ok false.

Definition from_input (input : ModuleInput) : res ModulePlanError PlannedModule :=
  reject_if! mi_bytes input =? 0 with ZeroLength (mi_kind input);;
  let! bad :=
    if mi_kind input =? DW_BOOT_MODULE_KIND_DEEPWYRM_X86_64_PAGING_HANDOFF_V1 then
      let! valid := valid_paging_handoff_extent (mi_bytes input) in Ok (negb valid)
    else Ok false in
  reject_if! bad with InvalidPagingHandoffExtent;;
  reject_if! negb (is_multiple_of (mi_start input) DW_BOOT_BASE_PAGE_SIZE) with UnalignedStart (mi_kind input) (mi_start input);;
  let! _ := ok_or (RangeOverflow (mi_kind input)) (checked_add_u64 (mi_start input) (mi_bytes input)) in
  let! slack := minus DW_BOOT_BASE_PAGE_SIZE 1 in
  let! rounded := ok_or (AllocationOverflow (mi_kind input)) (checked_add_u64 (mi_bytes input) slack) in
  let allocated_len := rounded / DW_BOOT_BASE_PAGE_SIZE * DW_BOOT_BASE_PAGE_SIZE in
  let! _ := ok_or (AllocationOverflow (mi_kind input)) (checked_add_u64 (mi_start input) allocated_len) in
  Ok (mkPlanned (mi_kind input) (mi_start input) (mi_bytes input) allocated_len LoaderRetainedThroughHandoff).

Definition allocation_end (m : PlannedModule) : res ModulePlanError Z := plus (p_start m) (allocated_len m).

Definition to_abi (m : PlannedModule) : BootModule :=
  mkModule DW_BOOT_MODULE_V1_SIZE DW_BOOT_MODULE_V1_VERSION (p_kind m)
    (if (p_kind m =? DW_BOOT_MODULE_KIND_WYRMROOT_BOOTFS) || (p_kind m =? DW_BOOT_MODULE_KIND_DEEPWYRM_X86_64_PAGING_HANDOFF_V1)
        || (p_kind m =? DW_BOOT_MODULE_KIND_DEEPWYRM_BOOT_DEVICE_TABLE_V1)
     then DW_BOOT_MODULE_FLAG_READ_ONLY else 0)
    (p_start m) (p_bytes m) [0; 0; 0; 0].

Definition to_abi_modules (plan : ModulePlan) : list BootModule :=
  [to_abi (bootstrap plan); to_abi (bootfs plan); to_abi (paging_handoff plan)].

Definition require_kind (input : ModuleInput) (expected : Z) : res ModulePlanError unit :=
  reject_if! negb (mi_kind input =? expected) with UnexpectedKind expected (mi_kind input);;
  Ok tt.

Definition ranges_overlap (left_ right_ : PlannedModule) : res ModulePlanError bool :=
  match p_start left_ ?= p_start right_ with
  | Lt => let! end_ := allocation_end left_ in Ok (end_ >? p_start right_)
  | Eq => Ok true
  | Gt => let! end_ := allocation_end right_ in Ok (end_ >? p_start left_)
  end.

(** [a || rest] *)
Definition or_else (a : res ModulePlanError bool) (rest : res ModulePlanError bool) : res ModulePlanError bool :=
  let! hit := a in if (hit : bool) then Ok true else rest.

Definition plan_modules (bootstrap bootfs paging_handoff : ModuleInput) : res ModulePlanError ModulePlan :=
  let! _ := require_kind bootstrap DW_BOOT_MODULE_KIND_WYRMROOT_BOOTSTRAP in
  let! _ := require_kind bootfs DW_BOOT_MODULE_KIND_WYRMROOT_BOOTFS in
  let! _ := require_kind paging_handoff DW_BOOT_MODULE_KIND_DEEPWYRM_X86_64_PAGING_HANDOFF_V1 in
  let! bootstrap := from_input bootstrap in
  let! bootfs := from_input bootfs in
  let! paging_handoff := from_input paging_handoff in
  let! overlap := or_else (ranges_overlap bootstrap bootfs)
    (or_else (ranges_overlap bootstrap paging_handoff) (ranges_overlap bootfs paging_handoff)) in
  reject_if! overlap with OverlappingAllocations;;
  Ok (mkModulePlan bootstrap bootfs paging_handoff).

(** [iter().copied().any(|module| ranges_overlap(module, right))] *)
Fixpoint any_overlaps (modules : list PlannedModule) (right_ : PlannedModule) : res ModulePlanError bool :=
  match modules with
  | [] => Ok false
  | module :: modules => or_else (ranges_overlap module right_) (any_overlaps modules right_)
  end.

Definition plan_modules_with_boot_device_table (bootstrap_ bootfs_ paging_handoff_ boot_device_table : ModuleInput)
    : res ModulePlanError (list BootModule) :=
  let! _ := require_kind boot_device_table DW_BOOT_MODULE_KIND_DEEPWYRM_BOOT_DEVICE_TABLE_V1 in
  let! boot_device_table := from_input boot_device_table in
  let! historical := plan_modules bootstrap_ bootfs_ paging_handoff_ in
  let historical_modules := [bootstrap historical; bootfs historical; paging_handoff historical] in
  let! overlap := any_overlaps historical_modules boot_device_table in
  reject_if! overlap with OverlappingAllocations;;
  Ok (map to_abi historical_modules ++ [to_abi boot_device_table]).
End modules.
End Modules.
