(* ===== verification/BootPlanThms.v ===== *)
(** * The handoff plans are sound

    The kernel's memory map says of every address what the firmware's map said,
    in sorted, disjoint and maximally merged ranges; planned modules are disjoint
    page extents; and both pass the validation of the boot record. *)

From stdpp Require Import base tactics option list list_numbers.
From Stdlib Require Import ZArith Lia.
From S2P Require Import Prelude Bytes BootInfo BootPlan.
Local Open Scope Z_scope.

Section memory_map.
Context {babi : BootAbi}.
Import BootInfo MemoryMap.
Abbreviation PAGE := DW_BOOT_BASE_PAGE_SIZE.
Implicit Types (r : MemoryRange) (d : FirmwareMemoryDescriptor) (w : list MemoryRange).

Definition range_end r : Z := mr_start r + mr_pages r * PAGE.
Definition descriptor_end d : Z := d_start d + d_pages d * PAGE.

(** An entry the kernel can use. *)
Record range_ok r : Prop := mkRangeOk {
  ro_header : mr_size r = DW_BOOT_MEMORY_RANGE_V1_SIZE /\ mr_version r = DW_BOOT_MEMORY_RANGE_V1_VERSION;
  ro_reserved : mr_reserved0 r = 0 /\ mr_reserved r = [0; 0; 0];
  ro_kind : is_known_memory_kind (mr_kind r) = true;
  ro_start : 0 <= mr_start r /\ mr_start r mod PAGE = 0;
  ro_pages : 0 < mr_pages r;
  ro_end : range_end r < 2 ^ 64 }.

(** Entries in order, the first not before [lo]. *)
Fixpoint sorted_from (lo : Z) w : Prop :=
  match w with
  | [] => True
  | r :: w => lo <= mr_start r /\ range_ok r /\ sorted_from (range_end r) w
  end.
Definition end_of (lo : Z) w : Z := match last w with Some r => range_end r | None => lo end.

(** Two ranges the loader would have merged. *)
Definition mergeable r1 r2 : Prop :=
  mr_kind r1 = mr_kind r2 /\ mr_attributes r1 = mr_attributes r2 /\ range_end r1 = mr_start r2.
Fixpoint apart w : Prop :=
  match w with
  | r1 :: (r2 :: _) as w' => ~ mergeable r1 r2 /\ apart w'
  | _ => True
  end.

(** What the two maps say of an address. *)
Definition covers w (a k t : Z) : Prop :=
  exists r, r ∈ w /\ mr_start r <= a < range_end r /\ mr_kind r = k /\ mr_attributes r = t.
Definition covers_in (input : list FirmwareMemoryDescriptor) (a k t : Z) : Prop :=
  exists d kind, d ∈ input /\ d_kind d = Some kind /\ d_start d <= a < descriptor_end d /\ normalize_kind kind = k /\ d_attributes d = t.

Lemma last_snoc_end lo w r : end_of lo (w ++ [r]) = range_end r.
Proof. unfold end_of. by rewrite last_snoc. Qed.

Lemma end_of_cons lo r w : end_of lo (r :: w) = end_of (range_end r) w.
Proof. unfold end_of. destruct w as [|r' w]; [done|]. cbn [last]. destruct (last (r' :: w)) eqn:H; [done|]. by apply last_None in H. Qed.

Lemma sorted_snoc lo w r : sorted_from lo (w ++ [r]) <-> sorted_from lo w /\ end_of lo w <= mr_start r /\ range_ok r.
Proof.
  revert lo. induction w as [|x w IH]; intros lo; cbn [app sorted_from].
  - unfold end_of. cbn. tauto.
  - rewrite IH, end_of_cons. tauto.
Qed.

Lemma apart_snoc w r : apart (w ++ [r]) <-> apart w /\ (forall p, last w = Some p -> ~ mergeable p r).
Proof.
  induction w as [|x w IH]; cbn [app apart].
  - split; [done|]. done.
  - destruct w as [|y w]; cbn [app apart] in *.
    + split; [intros [H _]; split; [done|]; by intros p [= <-]|]. intros [_ H]. split; [|done]. by apply H.
    + rewrite IH. change (last (x :: y :: w)) with (last (y :: w)). tauto.
Qed.

Lemma covers_snoc w r a k t : covers (w ++ [r]) a k t <->
  covers w a k t \/ (mr_start r <= a < range_end r /\ mr_kind r = k /\ mr_attributes r = t).
Proof.
  unfold covers. split.
  - intros (x & [Hx|Hx%list_elem_of_singleton]%elem_of_app & H); [left; by exists x|right; by subst].
  - intros [(x & Hx & H)|H]; [exists x|exists r]; (split; [|done]); apply elem_of_app; [by left|right; by apply list_elem_of_singleton].
Qed.

Lemma covers_in_cons d input a k t : covers_in (d :: input) a k t <->
  (exists kind, d_kind d = Some kind /\ d_start d <= a < descriptor_end d /\ normalize_kind kind = k /\ d_attributes d = t) \/
  covers_in input a k t.
Proof.
  unfold covers_in. split.
  - intros (x & kind & [->|Hx]%elem_of_cons & H); [left; by exists kind|right; by exists x, kind].
  - intros [(kind & H)|(x & kind & Hx & H)]; [exists d, kind|exists x, kind]; (split; [|done]); apply elem_of_cons; auto.
Qed.

Lemma known_kinds kind : is_known_memory_kind (normalize_kind kind) = true.
Proof. unfold is_known_memory_kind. destruct kind; cbn [normalize_kind]; rewrite Z.eqb_refl; by rewrite ?orb_true_r. Qed.

Definition descriptor_ok d : Prop := in_u64 (d_start d) /\ in_u64 (d_pages d).

(** The numbers of a descriptor that passes. *)
Lemma checked_end_Ok d e :
  descriptor_ok d -> checked_end (d_start d) (d_pages d) PAGE = Ok e ->
  e = descriptor_end d /\ 0 < d_pages d /\ d_start d mod PAGE = 0 /\ descriptor_end d < 2 ^ 64.
Proof.
  intros [Hs Hp]. unfold checked_end, page_range_end, is_multiple_of, descriptor_end.
  destruct (Z.eqb_spec (d_pages d) 0); [done|]. destruct (Z.eqb_spec (d_start d mod PAGE) 0); cbn [negb]; [|done].
  intros H. res_inv. apply checked_mul_Some in H0 as [-> ?]. apply checked_add_Some in H as [-> ?].
  unfold in_u64 in *. split_conj; try done; lia.
Qed.

Lemma checked_end_refuses d :
  0 < d_pages d -> d_start d mod PAGE = 0 -> descriptor_end d < 2 ^ 64 -> 0 <= d_start d ->
  checked_end (d_start d) (d_pages d) PAGE = Ok (descriptor_end d).
Proof.
  intros Hp Hm He Hs. pose proof page_size_ok. unfold descriptor_end in *. unfold checked_end, is_multiple_of, page_range_end.
  rewrite (proj2 (Z.eqb_neq _ _)) by lia. rewrite Hm. cbn [Z.eqb negb].
  rewrite checked_mul_u64_ok by lia. cbn [ok_or res_bind]. by rewrite checked_add_u64_ok by lia.
Qed.

(** Whether the descriptor extends the last range. *)
Definition extends w kind d : Prop :=
  exists p, last w = Some p /\ mr_kind p = kind /\ mr_attributes p = d_attributes d /\ range_end p = d_start d.

Lemma sorted_last lo w p : sorted_from lo w -> last w = Some p -> range_ok p.
Proof.
  intros Hs (w' & ->)%last_Some. by apply sorted_snoc in Hs as (_ & _ & H).
Qed.

Lemma page_range_end_ok p : range_ok p -> page_range_end (mr_start p) (mr_pages p) PAGE = Ok (range_end p).
Proof.
  intros []. pose proof page_size_ok. unfold range_end in *. unfold page_range_end.
  rewrite checked_mul_u64_ok by lia. cbn [ok_or res_bind]. by rewrite checked_add_u64_ok by lia.
Qed.

Lemma can_merge_spec w kind d :
  sorted_from 0 w -> exists b, can_merge (last w) kind d = Ok b /\ (b = true <-> extends w kind d).
Proof.
  intros Hs. unfold can_merge, extends. destruct (last w) as [p|] eqn:Hl; [|exists false; split; [done|]; naive_solver].
  pose proof (page_range_end_ok p (sorted_last _ _ _ Hs Hl)) as He.
  destruct (Z.eqb_spec (mr_kind p) kind), (Z.eqb_spec (mr_attributes p) (d_attributes d)); cbn [andb].
  2-4: exists false; split; [done|]; split; [done|]; intros (? & [= <-] & ? & ? & ?); congruence.
  rewrite He. cbn [res_bind]. eexists. split; [reflexivity|]. rewrite Z.eqb_eq. naive_solver.
Qed.

(** ** One descriptor *)

(** The previous input ends where the last output does. *)
Definition previous_ok w (previous : option (Z * Z)) : Prop :=
  match previous with
  | None => w = []
  | Some (ps, pe) => ps <= pe /\ pe = end_of 0 w /\ w <> []
  end.

(** What the maps look like after [d]. *)
Record adds w kind d w' : Prop := mkAdds {
  ad_sorted : sorted_from 0 w';
  ad_apart : apart w';
  ad_end : end_of 0 w' = descriptor_end d /\ w' <> [];
  ad_covers : forall a k t, covers w' a k t <->
    covers w a k t \/ (d_start d <= a < descriptor_end d /\ normalize_kind kind = k /\ d_attributes d = t) }.

Lemma adds_new w kind d :
  sorted_from 0 w -> apart w -> descriptor_ok d -> 0 < d_pages d -> d_start d mod PAGE = 0 -> descriptor_end d < 2 ^ 64 ->
  end_of 0 w <= d_start d -> ~ extends w (normalize_kind kind) d -> adds w kind d (w ++ [new_range (normalize_kind kind) d]).
Proof.
  intros Hs Ha [Hd _] Hp Hm He Hle Hne. split.
  - apply sorted_snoc. split_conj; try done. split; try done; [apply known_kinds | split; [apply Hd|done]].
  - apply apart_snoc. split; [done|]. intros p Hl (H1 & H2 & H3). apply Hne. by exists p.
  - split; [apply last_snoc_end|]. by destruct w.
  - intros a k t. by rewrite covers_snoc.
Qed.

Lemma adds_merged w0 p kind d :
  sorted_from 0 (w0 ++ [p]) -> apart (w0 ++ [p]) -> 0 < d_pages d -> descriptor_end d < 2 ^ 64 ->
  mr_kind p = normalize_kind kind -> mr_attributes p = d_attributes d -> range_end p = d_start d ->
  adds (w0 ++ [p]) kind d (w0 ++ [set_pages p (mr_pages p + d_pages d)]).
Proof.
  intros Hs Ha Hp He Hk Ht Hend. apply sorted_snoc in Hs as (Hs & Hle & [? ? ? ? ? ?]). apply apart_snoc in Ha as [Ha Hl].
  set (p' := set_pages _ _). assert (range_end p' = descriptor_end d) as Hend'.
  { unfold range_end, descriptor_end, p' in *. cbn [mr_start mr_pages set_pages]. lia. }
  pose proof page_size_ok. split.
  - apply sorted_snoc. split_conj; try done. split; try done; cbn [mr_pages set_pages p']; lia.
  - apply apart_snoc. split; [done|]. intros q Hq Hmq. apply (Hl q Hq). exact Hmq.
  - split; [by rewrite last_snoc_end|]. by destruct w0.
  - intros a k t. rewrite !covers_snoc, Hend'. cbn [mr_kind mr_attributes mr_start set_pages p'].
    unfold descriptor_end, range_end in *. rewrite Hk, Ht. intuition lia.
Qed.

(** ** The loop *)

(** A firmware map as it should be, from [lo] on. *)
Fixpoint valid_from (lo : Z) (input : list FirmwareMemoryDescriptor) : Prop :=
  match input with
  | [] => True
  | d :: input => is_Some (d_kind d) /\ 0 < d_pages d /\ d_start d mod PAGE = 0 /\ descriptor_end d < 2 ^ 64 /\ lo <= d_start d /\
                  valid_from (descriptor_end d) input
  end.

(** What the loop answers on [input] after writing [w], with [room] slots left. *)
Definition coalesced w (room : nat) input (answer : res MemoryMapError (list MemoryRange * Z)) : Prop :=
  match answer with
  | Ok (output, n) => exists w' rest, output = w' ++ rest /\ n = len w' /\ sorted_from 0 w' /\ apart w' /\ valid_from (end_of 0 w) input /\
      forall a k t, covers w' a k t <-> covers w a k t \/ covers_in input a k t
  | Err e => ~ valid_from (end_of 0 w) input \/ (e = OutputExhausted /\ (room < length input)%nat)
  | Panic => False
  end.

(** The rest of the loop continues from [w']. *)
Lemma coalesced_cons w kind d w' input room room' answer :
  adds w kind d w' -> d_kind d = Some kind -> 0 < d_pages d -> d_start d mod PAGE = 0 -> descriptor_end d < 2 ^ 64 ->
  end_of 0 w <= d_start d -> (room <= S room')%nat -> coalesced w' room' input answer -> coalesced w room (d :: input) answer.
Proof.
  intros [Hs Ha [He _] Hc] Hk Hp Hm Hend Hle Hroom H. unfold coalesced in *. destruct answer as [[output n]|e|]; [| |done].
  - destruct H as (w2 & rest & -> & -> & Hs2 & Ha2 & Hv & Hc2). exists w2, rest. rewrite He in Hv. split_conj; try done.
    intros a k t. rewrite Hc2, Hc, covers_in_cons, Hk. naive_solver.
  - rewrite He in H. destruct H as [H|[-> H]]; [left|right; cbn; split; [done|lia]]. intros (_ & _ & _ & _ & _ & Hv). done.
Qed.

Lemma check_order_spec w d previous :
  previous_ok w previous -> 0 <= d_start d ->
  (end_of 0 w <= d_start d /\ check_order d previous = Ok tt) \/ (~ end_of 0 w <= d_start d /\ exists e, check_order d previous = Err e).
Proof.
  intros Hp Hd. unfold check_order. destruct previous as [[ps pe]|]; cbn in Hp.
  - destruct Hp as (Hle & -> & _). destruct (Z.ltb_spec (d_start d) ps), (Z.ltb_spec (d_start d) (end_of 0 w)); try lia;
      [right | right | left]; (split; [lia|]); eauto.
  - subst w. left. by split.
Qed.

Lemma checked_end_np a b c : checked_end a b c <> Panic.
Proof. unfold checked_end, page_range_end. repeat case_match; try done. apply res_bind_not_panic; [apply ok_or_not_panic|]. intros. apply ok_or_not_panic. Qed.

Lemma coalesce_spec input : forall w rest previous,
  sorted_from 0 w -> apart w -> Forall descriptor_ok input -> previous_ok w previous -> len (w ++ rest) < 2 ^ 62 ->
  coalesced w (length rest) input (coalesce input (w ++ rest) (len w) previous).
Proof.
  induction input as [|d input IH]; intros w rest previous Hs Ha Hok Hprev Hlen; cbn [coalesce].
  { exists w, rest. split_conj; try done. intros a k t. unfold covers_in. split; [by left|]. intros [?|(? & ? & ?%not_elem_of_nil & _)]; done. }
  apply Forall_cons_iff in Hok as [Hd Hok]. destruct (d_kind d) as [kind|] eqn:Hkind; cbn [fmap option_fmap option_map ok_or res_bind].
  2:{ left. intros ([? H] & _). congruence. }
  destruct (checked_end (d_start d) (d_pages d) PAGE) as [e|e|] eqn:Hce; cbn [res_bind].
  3:{ by apply checked_end_np in Hce. }
  2:{ left. intros (_ & Hp & Hm & He & _). rewrite checked_end_refuses in Hce by (done || apply Hd). done. }
  destruct (checked_end_Ok _ _ Hd Hce) as (-> & Hp & Hm & He).
  destruct (check_order_spec w d previous Hprev) as [[Hle Hchk]|[Hnle [e Hchk]]]; [apply Hd| |]; rewrite Hchk; cbn [res_bind].
  2:{ left. intros (_ & _ & _ & _ & ? & _). done. }
  rewrite get_prefix. cbn [or_panic res_bind].
  destruct (can_merge_spec w (normalize_kind kind) d Hs) as (b & -> & Hb). cbn [res_bind].
  assert (Hprev' : forall w', adds w kind d w' -> previous_ok w' (Some (d_start d, descriptor_end d))).
  { intros w' Hadd. destruct (ad_end _ _ _ _ Hadd) as [? ?]. unfold previous_ok. split_conj; [|by symmetry|done]. unfold descriptor_end. pose proof page_size_ok. lia. }
  destruct b.
  - destruct (proj1 Hb eq_refl) as (p & (w0 & ->)%last_Some & Hk & Ht & Hend).
    pose proof (adds_merged w0 p kind d Hs Ha Hp He Hk Ht Hend) as Hadd. rewrite length_app in *. cbn [length] in *.
    rewrite (proj2 (minus_Ok _ 1 (len w0))) by lia. cbn [res_bind]. rewrite <-app_assoc.
    assert (get_at (w0 ++ [p] ++ rest) (len w0) = Some p) as ->.
    { unfold get_at. rewrite (proj2 (Z.leb_le _ _)) by lia. rewrite Nat2Z.id, lookup_app_r, Nat.sub_diag by lia. done. }
    cbn [or_panic res_bind]. apply sorted_snoc in Hs as Hs'. destruct Hs' as (_ & _ & Hrp). pose proof page_size_ok.
    rewrite checked_add_u64_ok; [|unfold descriptor_end, range_end in *; destruct Hrp; nia]. cbn [ok_or res_bind].
    rewrite put_range_middle by done. cbn [or_panic res_bind]. rewrite app_assoc.
    replace (Z.of_nat (length w0 + 1)) with (len (w0 ++ [set_pages p (mr_pages p + d_pages d)])) by (by rewrite !length_app).
    eapply coalesced_cons; [exact Hadd|done|done|done|done|done|apply Nat.le_succ_diag_r|].
    apply IH; try done; [apply Hadd|apply Hadd|by apply Hprev'|]. rewrite !length_app in *. cbn [length] in *. lia.
  - pose proof (adds_new w kind d Hs Ha Hd Hp Hm He Hle) as Hadd. specialize (Hadd ltac:(intros H; by apply Hb in H)).
    destruct rest as [|x rest].
    + rewrite app_nil_r. replace (put_range w (len w) _) with (@None (list MemoryRange)).
      * right. cbn. split; [done|lia].
      * symmetry. apply eq_None_not_Some. rewrite put_range_is_Some. cbn [length]. lia.
    + change (x :: rest) with ([x] ++ rest) in *. rewrite put_range_middle by done. cbn [ok_or res_bind].
      rewrite checked_add_u64_ok by (rewrite !length_app in Hlen; lia). cbn [ok_or res_bind]. rewrite app_assoc.
      replace (len w + 1) with (len (w ++ [new_range (normalize_kind kind) d])) by (rewrite length_app; cbn; lia).
      eapply coalesced_cons; [exact Hadd|done|done|done|done|done| |].
      2:{ apply IH; try done; [apply Hadd|apply Hadd|by apply Hprev'|]. rewrite !length_app in *. cbn [length] in *. lia. }
      cbn. lia.
Qed.

Lemma length_coalesce input : forall output n previous output' n', coalesce input output n previous = Ok (output', n') ->
  length output' = length output.
Proof.
  induction input as [|d input IH]; intros output n previous output' n'; cbn [coalesce]; [by intros [= <- _]|].
  intros H. res_inv. match type of H with (if ?b then _ else _) = _ => destruct b end; res_inv;
    match goal with Hp : put_range _ _ _ = Some _, Hc : coalesce _ _ _ _ = Ok _ |- _ =>
    apply length_put_range in Hp; apply IH in Hc; congruence end.
Qed.

(** ** Validation of the map *)

Lemma boot_page_range_end_ok r : range_ok r -> BootInfo.page_range_end (mr_start r) (mr_pages r) = Ok (range_end r).
Proof.
  intros []. pose proof page_size_ok. unfold range_end in *. unfold BootInfo.page_range_end.
  rewrite checked_mul_u64_ok by lia. cbn [ok_or res_bind]. by rewrite checked_add_u64_ok by lia.
Qed.

Lemma validate_entries_ok w : forall previous,
  sorted_from (default 0 previous) w -> validate_entries w previous = Ok tt.
Proof.
  induction w as [|r w IH]; intros previous Hs; cbn [validate_entries]; [done|]. destruct Hs as (Hle & Hr & Hs).
  pose proof (boot_page_range_end_ok r Hr) as Hend. destruct Hr as [[-> ->] [-> ->] -> [Hst Hm] Hp He]. rewrite !Z.eqb_refl. cbn.
  unfold validate_page_range, is_multiple_of. rewrite (proj2 (Z.eqb_neq (mr_pages r) 0)) by lia. rewrite Hm. cbn [Z.eqb negb].
  rewrite Hend. cbn [res_bind].
  replace (match previous with Some p => mr_start r <? p | None => false end) with false.
  - by apply IH.
  - destruct previous as [p|]; [|done]. symmetry. apply Z.ltb_ge. exact Hle.
Qed.

(** C15: The kernel's memory map is the firmware's. [normalize_and_coalesce] never
    panics; when it succeeds its result says of every physical address the same
    kind and attributes as the firmware's descriptors, or nothing where they say
    nothing; its ranges are page aligned, nonempty, in order and disjoint, no two
    neighbours could be merged, and it passes the validation of the boot record;
    and it succeeds on every well-formed firmware map that is given one slot per
    descriptor. *)
Theorem memory_map_faithful (input : list FirmwareMemoryDescriptor) (output : list MemoryRange) :
  Forall descriptor_ok input -> len output < 2 ^ 62 ->
  normalize_and_coalesce input output <> Panic /\
  (forall w, normalize_and_coalesce input output = Ok w ->
     (forall a k t, covers w a k t <-> covers_in input a k t) /\ sorted_from 0 w /\ apart w /\ (length w <= length output)%nat /\
     validate_memory_map w = Ok tt) /\
  (valid_from 0 input -> (length input <= length output)%nat -> exists w, normalize_and_coalesce input output = Ok w).
Proof.
  intros Hok Hlen. pose proof (coalesce_spec input [] output None) as H. cbn [app length] in H.
  specialize (H I I Hok eq_refl Hlen). unfold normalize_and_coalesce. change (Z.of_nat 0) with 0 in H.
  pose proof (length_coalesce input output 0 None) as Hl.
  destruct (coalesce input output 0 None) as [[output' n]|e|]; cbn [coalesced] in H; [| |done].
  - destruct H as (w & rest & -> & -> & Hs & Ha & Hv & Hc). cbn [res_bind]. rewrite get_prefix. cbn [or_panic].
    split; [done|]. split; [|by exists w]. intros ? [= <-]. split_conj; try done.
    + intros a k t. rewrite Hc. split; [intros [(x & Hx & _)|?]; [by apply not_elem_of_nil in Hx|done]|by right].
    + specialize (Hl _ _ eq_refl). rewrite length_app in Hl. lia.
    + by apply validate_entries_ok.
  - cbn [res_bind]. split; [done|]. split; [done|]. intros Hv Hroom. destruct H as [H|[_ H]]; [done|lia].
Qed.
End memory_map.

Section modules.
Context {babi : BootAbi}.
Import BootInfo Modules.
Abbreviation PAGE := DW_BOOT_BASE_PAGE_SIZE.
Abbreviation BOOTSTRAP := DW_BOOT_MODULE_KIND_WYRMROOT_BOOTSTRAP.
Abbreviation BOOTFS := DW_BOOT_MODULE_KIND_WYRMROOT_BOOTFS.
Abbreviation PAGING := DW_BOOT_MODULE_KIND_DEEPWYRM_X86_64_PAGING_HANDOFF_V1.
Abbreviation DEVICES := DW_BOOT_MODULE_KIND_DEEPWYRM_BOOT_DEVICE_TABLE_V1.
Implicit Types (m : PlannedModule) (i : ModuleInput).

(** A planned module: its payload lies in whole pages that exist. *)
Record planned m : Prop := mkPlannedOk {
  pl_bytes : 0 < p_bytes m <= allocated_len m;
  pl_tight : allocated_len m < p_bytes m + PAGE;
  pl_start : 0 <= p_start m /\ p_start m mod PAGE = 0;
  pl_pages : allocated_len m mod PAGE = 0;
  pl_len : BootInfo.module_allocation_len (p_bytes m) = Ok (allocated_len m);
  pl_end : p_start m + allocated_len m < 2 ^ 64;
  pl_extent : p_kind m = PAGING -> BootInfo.valid_paging_extent (p_bytes m) = Ok true }.

Definition disjoint m1 m2 : Prop :=
  p_start m1 + allocated_len m1 <= p_start m2 \/ p_start m2 + allocated_len m2 <= p_start m1.

Definition input_ok i : Prop := in_u64 (mi_start i) /\ in_u64 (mi_bytes i).

Lemma minimum_extent {E} : exists minimum,
  (let! frames := or_panic (E := E) (checked_mul_u64 DW_BOOT_X86_64_PAGING_HANDOFF_MIN_TABLE_FRAME_COUNT DW_BOOT_X86_64_PAGING_HANDOFF_TABLE_FRAME_STRIDE) in
   plus DW_BOOT_X86_64_PAGING_HANDOFF_TABLE_FRAMES_OFFSET frames) = Ok minimum /\ DW_BOOT_X86_64_PAGING_HANDOFF_TABLE_FRAMES_OFFSET <= minimum.
Proof.
  pose proof extents_ok as H. repeat (apply Forall_cons_iff in H as [? H]). unfold in_u32 in *.
  rewrite checked_mul_u64_ok by nia. cbn [or_panic res_bind]. eexists. split; [apply plus_Ok; split; [reflexivity|nia]|nia].
Qed.

(** The two copies of the test on the extent agree. *)
Lemma extent_same bytes :
  exists b, valid_paging_handoff_extent bytes = Ok b /\ BootInfo.valid_paging_extent bytes = Ok b.
Proof.
  unfold valid_paging_handoff_extent, BootInfo.valid_paging_extent.
  destruct (minimum_extent (E := ModulePlanError)) as (m1 & H1 & Hm1). destruct (minimum_extent (E := BootInfoError)) as (m2 & H2 & Hm2).
  pose proof extents_ok as H. repeat (apply Forall_cons_iff in H as [? H]). unfold in_u32 in *.
  rewrite checked_mul_u64_ok in * by nia. cbn [or_panic res_bind] in *. rewrite H1, H2. cbn [res_bind].
  apply plus_Ok in H1 as [-> _]. apply plus_Ok in H2 as [-> _].
  destruct (Z.leb_spec (DW_BOOT_X86_64_PAGING_HANDOFF_TABLE_FRAMES_OFFSET +
    DW_BOOT_X86_64_PAGING_HANDOFF_MIN_TABLE_FRAME_COUNT * DW_BOOT_X86_64_PAGING_HANDOFF_TABLE_FRAME_STRIDE) bytes); cbn [andb];
    [|by exists false]. destruct (bytes <=? _); [|by exists false].
  assert (DW_BOOT_X86_64_PAGING_HANDOFF_TABLE_FRAMES_OFFSET <= bytes) by nia.
  rewrite (proj2 (minus_Ok (E := ModulePlanError) bytes _ (bytes - DW_BOOT_X86_64_PAGING_HANDOFF_TABLE_FRAMES_OFFSET))) by done.
  rewrite (proj2 (minus_Ok (E := BootInfoError) bytes _ (bytes - DW_BOOT_X86_64_PAGING_HANDOFF_TABLE_FRAMES_OFFSET))) by done.
  cbn [res_bind]. eauto.
Qed.

Lemma page_ceil bytes : 0 <= bytes -> bytes <= (bytes + (PAGE - 1)) / PAGE * PAGE < bytes + PAGE.
Proof.
  intros Hb. pose proof page_size_ok as Hpage. destruct Hpage as [Hpage _].
  pose proof (Z.mod_pos_bound (bytes + (PAGE - 1)) PAGE Hpage). pose proof (Z.div_mod (bytes + (PAGE - 1)) PAGE). lia.
Qed.

Lemma from_input_Ok i m :
  input_ok i -> from_input i = Ok m -> planned m /\ p_kind m = mi_kind i /\ p_start m = mi_start i /\ p_bytes m = mi_bytes i.
Proof.
  intros [Hs Hb]. unfold from_input. pose proof page_size_ok as Hpage. unfold in_u64 in *.
  destruct (Z.eqb_spec (mi_bytes i) 0); [done|].
  destruct (extent_same (mi_bytes i)) as (b & He1 & He2). rewrite He1. cbn [res_bind].
  intros H. apply res_bind_Ok in H as (bad & Hbad & H). destruct bad eqn:Eb; [done|].
  unfold is_multiple_of in H. destruct (Z.eqb_spec (mi_start i mod PAGE) 0); cbn [negb] in H; [|done].
  apply res_bind_Ok in H as (? & H3 & H). apply ok_or_Ok, checked_add_Some in H3 as [_ ?].
  apply res_bind_Ok in H as (slack & H4 & H). apply minus_Ok in H4 as [-> _].
  apply res_bind_Ok in H as (rounded & H5 & H). apply ok_or_Ok, checked_add_Some in H5 as [-> ?].
  apply res_bind_Ok in H as (? & H6 & H). apply ok_or_Ok, checked_add_Some in H6 as [_ ?].
  injection H as <-. cbn [p_kind p_start p_bytes]. split; [|done].
  assert (0 <= mi_bytes i) as Hb0 by lia. pose proof (page_ceil (mi_bytes i) Hb0).
  split; cbn [p_kind p_start p_bytes allocated_len]; try lia.
  - apply Z.mod_mul. lia.
  - unfold BootInfo.module_allocation_len. rewrite (proj2 (minus_Ok PAGE 1 (PAGE - 1))) by lia. cbn [res_bind].
    by rewrite checked_add_u64_ok by lia.
  - intros Hk. rewrite Hk, Z.eqb_refl in Hbad. destruct b; [done|discriminate Hbad].
Qed.

Lemma from_input_np i : from_input i <> Panic.
Proof.
  unfold from_input. pose proof page_size_ok as Hpage. destruct (mi_bytes i =? 0); [done|].
  destruct (extent_same (mi_bytes i)) as (b & -> & _). cbn [res_bind].
  assert (@minus ModulePlanError PAGE 1 = Ok (PAGE - 1)) as -> by (apply minus_Ok; lia). cbn [res_bind].
  destruct (mi_kind i =? PAGING); [destruct b|]; cbn [res_bind negb]; [|done|]; destruct (is_multiple_of _ _); cbn [negb]; try done;
    repeat (destruct (checked_add_u64 _ _); cbn [ok_or res_bind]; try done).
Qed.

(** The three-way comparison is the disjointness of the allocations. *)
Lemma overlap_spec m1 m2 :
  planned m1 -> planned m2 -> exists b, ranges_overlap m1 m2 = Ok b /\ (b = false <-> disjoint m1 m2).
Proof.
  intros H1 H2. pose proof (pl_end _ H1). pose proof (pl_end _ H2). pose proof (pl_bytes _ H1). pose proof (pl_bytes _ H2).
  unfold ranges_overlap, allocation_end, disjoint. destruct (Z.compare_spec (p_start m1) (p_start m2)).
  - exists true. split; [done|]. split; [done|]. lia.
  - rewrite (proj2 (plus_Ok _ _ (p_start m1 + allocated_len m1))) by lia. cbn [res_bind]. eexists. split; [reflexivity|].
    rewrite Z.gtb_ltb, Z.ltb_ge. lia.
  - rewrite (proj2 (plus_Ok _ _ (p_start m2 + allocated_len m2))) by lia. cbn [res_bind]. eexists. split; [reflexivity|].
    rewrite Z.gtb_ltb, Z.ltb_ge. lia.
Qed.

Lemma or_else_spec a rest (P Q : Prop) :
  (exists b, a = Ok b /\ (b = false <-> P)) -> (exists b, rest = Ok b /\ (b = false <-> Q)) ->
  exists b, or_else a rest = Ok b /\ (b = false <-> P /\ Q).
Proof. intros (b & -> & Hb) (c & -> & Hc). unfold or_else. cbn [res_bind]. destruct b; eexists; (split; [reflexivity|]); naive_solver. Qed.

Lemma any_overlaps_spec ms m :
  Forall planned ms -> planned m -> exists b, any_overlaps ms m = Ok b /\ (b = false <-> Forall (fun m' => disjoint m' m) ms).
Proof.
  intros Hms Hm. induction Hms as [|m' ms Hm' _ IH]; cbn [any_overlaps]; [by exists false|].
  destruct (or_else_spec _ _ _ _ (overlap_spec m' m Hm' Hm) IH) as (b & H & Hb). exists b. by rewrite Forall_cons.
Qed.

Lemma require_kind_Ok i kind : require_kind i kind = Ok tt <-> mi_kind i = kind.
Proof. unfold require_kind. destruct (Z.eqb_spec (mi_kind i) kind); naive_solver. Qed.

(** A planned module is an input with its allocation. *)
Definition plans i m : Prop := p_kind m = mi_kind i /\ p_start m = mi_start i /\ p_bytes m = mi_bytes i.

(** Whole pages that do not meet. *)
Definition laid_out (ms : list PlannedModule) : Prop := Forall planned ms /\ ForallOrdPairs disjoint ms.

Lemma require_then {A} i kind (k : unit -> res ModulePlanError A) a :
  res_bind (require_kind i kind) k = Ok a <-> mi_kind i = kind /\ k tt = Ok a.
Proof.
  rewrite res_bind_Ok. rewrite <-(require_kind_Ok i kind). split; [intros ([] & ? & ?)|intros []]; eauto.
Qed.

Lemma plan_modules_Ok b f g plan :
  input_ok b -> input_ok f -> input_ok g -> plan_modules b f g = Ok plan ->
  let ms := [bootstrap plan; bootfs plan; paging_handoff plan] in
  laid_out ms /\ Forall2 plans [b; f; g] ms /\ map p_kind ms = expected_kinds false.
Proof.
  intros Hb Hf Hg. unfold plan_modules. rewrite !require_then. intros (Kb & Kf & Kg & H).
  apply res_bind_Ok in H as (mb & Eb & H). apply res_bind_Ok in H as (mf & Ef & H). apply res_bind_Ok in H as (mg & Eg & H).
  apply from_input_Ok in Eb as (Pb & Xb); [|done]. apply from_input_Ok in Ef as (Pf & Xf); [|done].
  apply from_input_Ok in Eg as (Pg & Xg); [|done].
  destruct (or_else_spec _ _ _ _ (overlap_spec mb mf Pb Pf) (or_else_spec _ _ _ _ (overlap_spec mb mg Pb Pg) (overlap_spec mf mg Pf Pg)))
    as (o & Eo & Ho). rewrite Eo in H. cbn [res_bind] in H. destruct o; [done|]. injection H as <-. cbn.
  destruct (proj1 Ho eq_refl) as (? & ? & ?). split; [split|].
  - eauto.
  - eauto 10 using FOP_cons, FOP_nil.
  - split; [eauto 10 using Forall2_cons_2, Forall2_nil_2|].
    destruct Xb as (-> & _), Xf as (-> & _), Xg as (-> & _). by rewrite Kb, Kf, Kg.
Qed.

Lemma plan_modules_np b f g : input_ok b -> input_ok f -> input_ok g -> plan_modules b f g <> Panic.
Proof.
  intros Hb Hf Hg. unfold plan_modules, require_kind.
  repeat (destruct (negb (_ =? _)); cbn [res_bind]; [done|]).
  destruct (from_input b) as [mb|e|] eqn:Eb; [|done|by apply from_input_np in Eb].
  destruct (from_input f) as [mf|e|] eqn:Ef; [|done|by apply from_input_np in Ef].
  destruct (from_input g) as [mg|e|] eqn:Eg; [|done|by apply from_input_np in Eg]. cbn [res_bind].
  apply from_input_Ok in Eb as (Pb & Xb); [|done]. apply from_input_Ok in Ef as (Pf & Xf); [|done].
  apply from_input_Ok in Eg as (Pg & Xg); [|done].
  destruct (or_else_spec _ _ _ _ (overlap_spec mb mf Pb Pf) (or_else_spec _ _ _ _ (overlap_spec mb mg Pb Pg) (overlap_spec mf mg Pf Pg)))
    as (o & -> & _). cbn [res_bind]. by destruct o.
Qed.

Lemma plan_with_table_Ok b f g d table :
  input_ok b -> input_ok f -> input_ok g -> input_ok d -> plan_modules_with_boot_device_table b f g d = Ok table ->
  exists ms, table = map to_abi ms /\ laid_out ms /\ Forall2 plans [b; f; g; d] ms /\ map p_kind ms = expected_kinds true.
Proof.
  intros Hb Hf Hg Hd. unfold plan_modules_with_boot_device_table. rewrite require_then. intros (Kd & H).
  apply res_bind_Ok in H as (md & Ed & H). apply from_input_Ok in Ed as (Pd & Xd); [|done].
  apply res_bind_Ok in H as (plan & Ep & H). apply plan_modules_Ok in Ep; [|done..]. cbn zeta in Ep. destruct Ep as ((Hp & Hdis) & Hin & Hk).
  destruct (any_overlaps_spec _ md Hp Pd) as (o & Eo & Ho). rewrite Eo in H. cbn [res_bind] in H. destruct o; [done|].
  injection H as <-. exists ([bootstrap plan; bootfs plan; paging_handoff plan] ++ [md]). split_conj.
  - by rewrite map_app.
  - split; [apply Forall_app; eauto|]. pose proof (proj1 Ho eq_refl) as Hl.
    repeat (apply Forall_cons in Hl as [? Hl]). cbn. inversion Hdis as [|? ? D1 Hdis']; subst. inversion Hdis' as [|? ? D2 _]; subst.
    repeat (apply Forall_cons in D1 as [? D1]). repeat (apply Forall_cons in D2 as [? D2]). eauto 20 using FOP_cons, FOP_nil.
  - refine (Forall2_app Hin _). eauto using Forall2_cons_2, Forall2_nil_2.
  - rewrite map_app, Hk. cbn. destruct Xd as (-> & _). by rewrite Kd.
Qed.

Lemma plan_with_table_np b f g d :
  input_ok b -> input_ok f -> input_ok g -> input_ok d -> plan_modules_with_boot_device_table b f g d <> Panic.
Proof.
  intros Hb Hf Hg Hd. unfold plan_modules_with_boot_device_table, require_kind. destruct (negb (_ =? _)); cbn [res_bind]; [done|].
  destruct (from_input d) as [md|e|] eqn:Ed; [|done|by apply from_input_np in Ed]. cbn [res_bind].
  destruct (plan_modules b f g) as [plan|e|] eqn:Ep; [|done|by apply plan_modules_np in Ep]. cbn [res_bind].
  apply from_input_Ok in Ed as (Pd & _); [|done]. apply plan_modules_Ok in Ep; [|done..]. cbn zeta in Ep. destruct Ep as ((Hp & _) & _).
  destruct (any_overlaps_spec _ md Hp Pd) as (o & -> & _). cbn [res_bind]. by destruct o.
Qed.

(** ** The record's own check of a planned table *)

Lemma range_clear m1 m2 :
  planned m1 -> planned m2 -> disjoint m1 m2 ->
  BootInfo.ranges_overlap (p_start m1) (allocated_len m1) (p_start m2) (allocated_len m2) = Ok false.
Proof.
  intros H1 H2 H. pose proof (pl_end _ H1). pose proof (pl_end _ H2). unfold BootInfo.ranges_overlap.
  rewrite !checked_add_u64_ok by lia. cbn [ok_or res_bind]. f_equal. unfold disjoint in H.
  rewrite andb_false_iff, !Z.ltb_ge. lia.
Qed.

Lemma reject_overlaps_clear m ms :
  planned m -> Forall planned ms -> Forall (disjoint m) ms ->
  reject_overlaps (p_start m) (allocated_len m) (map module_range (map to_abi ms)) = Ok tt.
Proof.
  intros Hm Hms Hd. induction Hms as [|m' ms Hm' _ IH]; [done|]. apply Forall_cons in Hd as [Hd Hds].
  cbn [map reject_overlaps module_range to_abi bm_start bm_bytes]. rewrite (pl_len _ Hm'). cbn [res_bind].
  rewrite range_clear by done. cbn [res_bind]. by apply IH.
Qed.

Lemma validate_step m ms seen seen' :
  planned m -> p_start m <> 0 -> Forall planned ms -> Forall (disjoint m) ms -> see_module (to_abi m) seen = Ok seen' ->
  validate_each_module (map to_abi (m :: ms)) seen = validate_each_module (map to_abi ms) seen'.
Proof.
  intros Hm Hs Hms Hd Hsee. pose proof (pl_end _ Hm). pose proof (pl_bytes _ Hm). destruct (pl_start _ Hm) as [_ Ha].
  cbn [map validate_each_module]. rewrite Hsee. cbn [bm_size bm_version bm_reserved bm_start bm_bytes bm_flags to_abi].
  rewrite !Z.eqb_refl. cbn [negb orb any_nonzero existsb]. unfold validate_module_range, BootInfo.is_multiple_of.
  rewrite Ha. rewrite (proj2 (Z.eqb_neq (p_bytes m) 0)) by lia. rewrite (proj2 (Z.eqb_neq (p_start m) 0)) by lia.
  cbn [orb negb Z.eqb]. rewrite checked_add_u64_ok by lia. cbn [ok_or res_bind].
  assert (Z.ldiff (if (p_kind m =? BOOTFS) || (p_kind m =? PAGING) || (p_kind m =? DEVICES) then DW_BOOT_MODULE_FLAG_READ_ONLY else 0)
    DW_BOOT_MODULE_FLAG_READ_ONLY = 0) as -> by (destruct (_ || _); [apply Z.ldiff_diag|apply Z.ldiff_0_l]).
  cbn [negb Z.eqb]. rewrite (pl_len _ Hm). cbn [res_bind]. pose proof (reject_overlaps_clear m ms Hm Hms Hd) as Hr.
  destruct ms as [|m' ms]; [done|]. cbn [map] in Hr |- *. by rewrite Hr.
Qed.

Lemma kinds_differ :
  BOOTFS <> BOOTSTRAP /\ PAGING <> BOOTSTRAP /\ PAGING <> BOOTFS /\ DEVICES <> BOOTSTRAP /\ DEVICES <> BOOTFS /\ DEVICES <> PAGING.
Proof. pose proof module_kinds_differ as H. rewrite !NoDup_cons, !not_elem_of_cons in H. naive_solver. Qed.

Lemma see_bootstrap m f g d : p_kind m = BOOTSTRAP -> see_module (to_abi m) (mkSeen false f g d) = Ok (mkSeen true f g d).
Proof. intros H. unfold see_module. cbn [bm_kind to_abi]. by rewrite H, Z.eqb_refl. Qed.

(** The modules the kernel may only read: the test of the kind passes. *)
Lemma see_read_only m b f g d :
  planned m ->
  (p_kind m = BOOTFS -> see_module (to_abi m) (mkSeen b false g d) = Ok (mkSeen b true g d)) /\
  (p_kind m = PAGING -> see_module (to_abi m) (mkSeen b f false d) = Ok (mkSeen b f true d)) /\
  (p_kind m = DEVICES -> see_module (to_abi m) (mkSeen b f g false) = Ok (mkSeen b f g true)).
Proof.
  intros Hm. destruct kinds_differ as (D1 & D2 & D3 & D4 & D5 & D6). pose proof read_only_is_a_bit.
  unfold see_module. cbn [bm_kind bm_flags bm_bytes to_abi]. split_conj; intros Hk; rewrite Hk.
  - rewrite (proj2 (Z.eqb_neq _ _) D1), Z.eqb_refl. cbn [orb]. rewrite Z.land_diag.
    by rewrite (proj2 (Z.eqb_neq DW_BOOT_MODULE_FLAG_READ_ONLY 0)) by lia.
  - rewrite (proj2 (Z.eqb_neq _ _) D2), (proj2 (Z.eqb_neq _ _) D3), Z.eqb_refl. cbn [orb]. rewrite Z.eqb_refl.
    by rewrite (pl_extent _ Hm Hk).
  - rewrite (proj2 (Z.eqb_neq _ _) D4), (proj2 (Z.eqb_neq _ _) D5), (proj2 (Z.eqb_neq _ _) D6), Z.eqb_refl.
    cbn [orb]. by rewrite Z.eqb_refl.
Qed.

(** What the planner lays out, the record's check accepts. *)
Lemma validate_planned ms table :
  laid_out ms -> Forall (fun m => p_start m <> 0) ms -> map p_kind ms = expected_kinds table -> validate_modules (map to_abi ms) = Ok tt.
Proof.
  intros [Hp Hd] Hs Hk. unfold validate_modules.
  assert (validate_each_module (map to_abi ms) (mkSeen false false false false) = Ok (mkSeen true true true table)) as ->.
  { destruct ms as [|m1 [|m2 [|m3 ms]]]; try discriminate Hk. injection Hk as K1 K2 K3 Hk.
    inversion Hd as [|? ? D1 Hd1]; subst. inversion Hd1 as [|? ? D2 Hd2]; subst. inversion Hd2 as [|? ? D3 Hd3]; subst.
    apply Forall_cons in Hp as [P1 Hp]. apply Forall_cons in Hs as [S1 Hs].
    rewrite (validate_step m1 _ _ (mkSeen true false false false)) by eauto using see_bootstrap.
    apply Forall_cons in Hp as [P2 Hp]. apply Forall_cons in Hs as [S2 Hs].
    rewrite (validate_step m2 _ _ _ P2 S2 Hp D2 (proj1 (see_read_only m2 true false false false P2) K2)).
    apply Forall_cons in Hp as [P3 Hp]. apply Forall_cons in Hs as [S3 Hs].
    rewrite (validate_step m3 _ _ _ P3 S3 Hp D3 (proj1 (proj2 (see_read_only m3 true true false false P3)) K3)).
    destruct table; [|by destruct ms]. destruct ms as [|m4 [|]]; try discriminate Hk. injection Hk as K4.
    apply Forall_cons in Hp as [P4 Hp]. apply Forall_cons in Hs as [S4 Hs].
    inversion Hd3 as [|? ? D4 _]; subst.
    by rewrite (validate_step m4 _ _ _ P4 S4 Hp D4 (proj2 (proj2 (see_read_only m4 true true true false P4)) K4)). }
  cbn [res_bind bootstrap_seen bootfs_seen paging_handoff_seen boot_device_table_seen negb]. rewrite <-Hk.
  assert (len (map to_abi ms) =? len (map p_kind ms) = true) as -> by (apply Z.eqb_eq; unfold len; by rewrite !length_map).
  cbn [negb orb]. assert (existsb (fun '(module, kind) => negb (bm_kind module =? kind)) (zip (map to_abi ms) (map p_kind ms)) = false) as ->; [|done].
  clear. induction ms as [|m ms IH]; [done|]. cbn [map zip zip_with existsb bm_kind to_abi]. by rewrite Z.eqb_refl, IH.
Qed.

(** C35: The module planner and the record's own check agree: planning never panics,
    a plan holds the three (or, with the boot device table, four) modules as given,
    in the fixed order, each in whole pages with its payload inside and no two
    sharing a page; and the table written from it passes [validate_modules] of the
    boot record whenever no module starts at address 0. *)
Theorem module_plan_accepted b f g d :
  Forall input_ok [b; f; g; d] ->
  (plan_modules b f g <> Panic /\ plan_modules_with_boot_device_table b f g d <> Panic) /\
  (forall plan, plan_modules b f g = Ok plan ->
     let ms := [bootstrap plan; bootfs plan; paging_handoff plan] in
     laid_out ms /\ Forall2 plans [b; f; g] ms /\
     (Forall (fun i => mi_start i <> 0) [b; f; g] -> validate_modules (to_abi_modules plan) = Ok tt)) /\
  (forall table, plan_modules_with_boot_device_table b f g d = Ok table ->
     exists ms, table = map to_abi ms /\ laid_out ms /\ Forall2 plans [b; f; g; d] ms /\
       (Forall (fun i => mi_start i <> 0) [b; f; g; d] -> validate_modules table = Ok tt)).
Proof.
  intros H. apply Forall_cons in H as [Hb H]. apply Forall_cons in H as [Hf H]. apply Forall_cons in H as [Hg H].
  apply Forall_cons in H as [Hd _]. assert (Hstart : forall l ms, Forall2 plans l ms -> Forall (fun i => mi_start i <> 0) l ->
    Forall (fun m => p_start m <> 0) ms).
  { intros l ms Hin. induction Hin as [|i m l ms (_ & E & _) _ IH]; intros Hn; [done|]. apply Forall_cons in Hn as [? ?].
    apply Forall_cons. rewrite E. auto. }
  split; [split; [by apply plan_modules_np|by apply plan_with_table_np]|]. split.
  - intros plan Hplan. apply plan_modules_Ok in Hplan as (Hl & Hin & Hk); [|done..]. split; [done|]. split; [done|]. intros Hn.
    apply (validate_planned [_; _; _] false); eauto.
  - intros table Ht. apply plan_with_table_Ok in Ht as (ms & -> & Hl & Hin & Hk); [|done..]. exists ms. split; [done|]. split; [done|].
    split; [done|]. intros Hn. eapply validate_planned; eauto.
Qed.
End modules.

(** ** The theorems at work *)

(** Constants like the kernel's. *)
Definition sample_abi : BootAbi.
Proof.
  refine {| DW_BOOT_BASE_PAGE_SIZE := 4096; DW_BOOT_INFO_V1_SIZE := 320; DW_BOOT_INFO_V1_VERSION := 1;
    DW_BOOT_MEMORY_RANGE_V1_SIZE := 64; DW_BOOT_MEMORY_RANGE_V1_VERSION := 1; align_of_memory_range := 8;
    DW_BOOT_MODULE_V1_SIZE := 64; DW_BOOT_MODULE_V1_VERSION := 1; align_of_module := 8;
    DW_BOOT_FRAMEBUFFER_V1_SIZE := 96; DW_BOOT_FRAMEBUFFER_V1_VERSION := 1; DW_BOOT_ENTROPY_V1_SIZE := 64; DW_BOOT_ENTROPY_V1_VERSION := 1;
    DW_BOOT_MEMORY_KIND_USABLE := 1; DW_BOOT_MEMORY_KIND_RESERVED := 2; DW_BOOT_MEMORY_KIND_ACPI_RECLAIM := 3;
    DW_BOOT_MEMORY_KIND_ACPI_NVS := 4; DW_BOOT_MEMORY_KIND_MMIO := 5; DW_BOOT_MEMORY_KIND_RUNTIME_SERVICES := 6;
    DW_BOOT_MEMORY_KIND_UNUSABLE := 7;
    DW_BOOT_MODULE_KIND_WYRMROOT_BOOTSTRAP := 1; DW_BOOT_MODULE_KIND_WYRMROOT_BOOTFS := 2;
    DW_BOOT_MODULE_KIND_DEEPWYRM_X86_64_PAGING_HANDOFF_V1 := 3; DW_BOOT_MODULE_KIND_DEEPWYRM_BOOT_DEVICE_TABLE_V1 := 4;
    DW_BOOT_MODULE_FLAG_READ_ONLY := 1;
    DW_BOOT_X86_64_PAGING_HANDOFF_TABLE_FRAMES_OFFSET := 4096; DW_BOOT_X86_64_PAGING_HANDOFF_TABLE_FRAME_STRIDE := 4096;
    DW_BOOT_X86_64_PAGING_HANDOFF_MIN_TABLE_FRAME_COUNT := 4; DW_BOOT_X86_64_PAGING_HANDOFF_MAX_BYTE_LEN := 1048576;
    DW_BOOT_INFO_FLAG_FRAMEBUFFER_PRESENT := 1; DW_BOOT_FRAMEBUFFER_FLAG_LINEAR := 1;
    DW_BOOT_PIXEL_FORMAT_RGBX8 := 1; DW_BOOT_PIXEL_FORMAT_BGRX8 := 2; DW_BOOT_PIXEL_FORMAT_BITMASK := 3;
    DW_BOOT_ENTROPY_SOURCE_UEFI_RNG_PROTOCOL := 1; DW_BOOT_ENTROPY_SOURCE_FIRMWARE_PLATFORM := 2;
    DW_BOOT_ENTROPY_SOURCE_MIXED_FIRMWARE := 3; DW_BOOT_ENTROPY_FLAG_CONDITIONED := 1;
    default_framebuffer := mkFramebuffer 0 0 0 0 0 0 0 0 0 0 0 0 0 0 [0; 0; 0; 0]; default_entropy := mkEntropy 0 0 0 0 0 0 [0; 0; 0; 0] |}.
  - lia.
  - lia.
  - repeat constructor; unfold in_u32; lia.
  - apply (bool_decide_unpack _). by vm_compute.
  - lia.
Defined.

Definition sample_input (kind start bytes : Z) := Modules.mkModuleInput kind start bytes.

Lemma module_plan_accepted_witness :
  exists ms, @Modules.plan_modules_with_boot_device_table sample_abi (sample_input 1 4096 100) (sample_input 2 8192 5000)
    (sample_input 3 1048576 20480) (sample_input 4 65536 64) = Ok (map (@Modules.to_abi sample_abi) ms) /\ @laid_out sample_abi ms.
Proof.
  assert (H : Forall input_ok [sample_input 1 4096 100; sample_input 2 8192 5000; sample_input 3 1048576 20480; sample_input 4 65536 64])
    by (repeat constructor; cbn; lia).
  destruct (proj2 (proj2 (@module_plan_accepted sample_abi _ _ _ _ H)) _ eq_refl) as (ms & E & Hl & _).
  exists ms. split; [|exact Hl]. rewrite <-E. reflexivity.
Defined.

(** Boot-services memory joins the conventional memory below it; the loader's own
    pages stay reserved. *)
Definition sample_map : list MemoryMap.FirmwareMemoryDescriptor :=
  [MemoryMap.mkDescriptor (Some BootInfo.Conventional) 0 16 15; MemoryMap.mkDescriptor (Some BootInfo.BootServices) 65536 16 15;
   MemoryMap.mkDescriptor (Some BootInfo.LoaderKind) 131072 4 15].

Lemma memory_map_faithful_witness :
  exists w, @MemoryMap.normalize_and_coalesce sample_abi sample_map (replicate 3 (mkRange 0 0 0 0 0 0 0 [])) = Ok w /\
    map (fun r => (mr_kind r, mr_start r, mr_pages r)) w = [(1, 0, 32); (2, 131072, 4)] /\
    @covers sample_abi w 70000 1 15 /\ @BootInfo.validate_memory_map sample_abi w = Ok tt.
Proof.
  assert (H : Forall descriptor_ok sample_map) by (repeat constructor; cbn; lia).
  destruct (proj1 (proj2 (@memory_map_faithful sample_abi sample_map (replicate 3 (mkRange 0 0 0 0 0 0 0 [])) H ltac:(done))) _ eq_refl)
    as (Hc & _ & _ & _ & Hv).
  eexists. split; [reflexivity|]. split; [reflexivity|]. split; [|exact Hv]. apply Hc.
  exists (MemoryMap.mkDescriptor (Some BootInfo.BootServices) 65536 16 15), BootInfo.BootServices.
  split; [apply list_elem_of_further, list_elem_of_here|]. by split_conj.
Defined.
