(* ===== verification/BootInfoThms.v ===== *)
(** * Properties of the boot handoff record

    What the kernel may rely on when [build] has succeeded: every range the loader
    hands over is retained, lies in reserved memory and is shared with no other. *)

From stdpp Require Import base tactics option list list_numbers.
From Stdlib Require Import ZArith Lia.
From S2P Require Import Prelude Bytes BootInfo BootPlan BootPlanThms.
Local Open Scope Z_scope.

Section boot_info.
Context {babi : BootAbi}.
Import BootInfo.
Abbreviation PAGE := DW_BOOT_BASE_PAGE_SIZE.
Implicit Types (a b : HandoffAllocation) (m : BootModule) (w : list MemoryRange).

(** A physical range: its start and its length. *)
Definition Region : Type := Z * Z.
Definition clear (x y : Region) : Prop := x.1 + x.2 <= y.1 \/ y.1 + y.2 <= x.1.

Definition region a : Region := (ha_start a, ha_bytes a).
Definition module_pages m : Z := (bm_bytes m + (PAGE - 1)) / PAGE * PAGE.
Definition module_region m : Region := (bm_start m, module_pages m).

(** The range lies in one entry of the map, of an accepted kind. *)
Definition within w (accepts : Z -> bool) (x : Region) : Prop :=
  exists r, r ∈ w /\ accepts (mr_kind r) = true /\ mr_start r <= x.1 /\ x.1 + x.2 <= range_end r.

(** Storage that stays until the kernel replaces the page tables. *)
Record retained (minimum : Z) a : Prop := mkRetained {
  rt_lifetime : ha_lifetime a = RetainedUntilDeepwyrmPageTableReplacement;
  rt_start : ha_start a <> 0 /\ ha_start a mod PAGE = 0;
  rt_bytes : minimum <= ha_bytes a /\ ha_bytes a mod PAGE = 0;
  rt_end : ha_start a + ha_bytes a < 2 ^ 64 }.

Definition optional_storage (input : BootInfoInput) : list HandoffAllocation :=
  flatten [cl_storage <$> command_line input; ei_storage <$> entropy input; ar_storage <$> acpi_rsdp input].
Definition fixed_storage (input : BootInfoInput) : list HandoffAllocation :=
  [boot_info_storage input; memory_map_storage input; module_table_storage input].

(** Everything the loader hands over. *)
Definition handed_over (input : BootInfoInput) : list Region :=
  map region (fixed_storage input) ++ map module_region (modules input) ++ map region (optional_storage input).

(** ** Lists of ranges *)

Lemma clear_sym x y : clear x y -> clear y x.
Proof. unfold clear. lia. Qed.

(** No range of the one list meets one of the other. *)
Definition all_clear (xs ys : list Region) : Prop := Forall (fun x => Forall (clear x) ys) xs.

Lemma all_clear_sym xs ys : all_clear xs ys -> all_clear ys xs.
Proof. unfold all_clear. rewrite !Forall_forall. setoid_rewrite Forall_forall. eauto using clear_sym. Qed.
Lemma all_clear_cons xs y ys : all_clear xs (y :: ys) <-> Forall (clear y) xs /\ all_clear xs ys.
Proof.
  unfold all_clear. rewrite !Forall_forall. setoid_rewrite Forall_forall. setoid_rewrite elem_of_cons.
  split; [naive_solver eauto using clear_sym|]. intros [H1 H2] x Hx z [->|Hz]; eauto using clear_sym.
Qed.
Lemma all_clear_nil xs : all_clear xs [].
Proof. unfold all_clear. rewrite Forall_forall. intros. constructor. Qed.

Lemma pairs_app (l1 l2 : list Region) :
  ForallOrdPairs clear l1 -> ForallOrdPairs clear l2 -> all_clear l1 l2 -> ForallOrdPairs clear (l1 ++ l2).
Proof.
  intros H1 H2 H. induction H1 as [|x l1 Hx _ IH]; cbn; [done|]. apply Forall_cons in H as [Hh Ht].
  constructor; [by apply Forall_app|by apply IH].
Qed.

Lemma page_range_end_Ok s n e : page_range_end s n = Ok e -> e = s + n * PAGE.
Proof.
  unfold page_range_end. intros H. apply res_bind_Ok in H as (n' & Hn & He).
  apply ok_or_Ok, checked_mul_Some in Hn as [-> _]. by apply ok_or_Ok, checked_add_Some in He as [-> _].
Qed.

Lemma overlap_clear s1 n1 s2 n2 : ranges_overlap s1 n1 s2 n2 = Ok false -> clear (s1, n1) (s2, n2).
Proof.
  unfold ranges_overlap, clear. intros H. apply res_bind_Ok in H as (e1 & H1 & H). apply res_bind_Ok in H as (e2 & H2 & H).
  apply ok_or_Ok, checked_add_Some in H1 as [-> _]. apply ok_or_Ok, checked_add_Some in H2 as [-> _]. injection H as H.
  rewrite andb_false_iff, !Z.ltb_ge in H. cbn. lia.
Qed.

Lemma module_len_Ok m n : module_allocation_len (bm_bytes m) = Ok n -> n = module_pages m.
Proof.
  unfold module_allocation_len. intros H. apply res_bind_Ok in H as (slack & H1 & H). apply minus_Ok in H1 as [-> _].
  apply res_bind_Ok in H as (e & H2 & H). apply ok_or_Ok, checked_add_Some in H2 as [-> _]. by injection H as <-.
Qed.

Lemma reject_overlaps_Ok s n rights :
  reject_overlaps s n rights = Ok tt -> Forall (fun r => exists k, r.2 = Ok k /\ clear (s, n) (r.1, k)) rights.
Proof.
  induction rights as [|[s' k'] rights IH]; [done|]. cbn [reject_overlaps]. intros H.
  apply res_bind_Ok in H as (k & -> & H). apply res_bind_Ok in H as (o & Ho & H). destruct o; [done|].
  constructor; [|by apply IH]. exists k. split; [done|]. by apply overlap_clear.
Qed.

Lemma against_modules s n ms :
  reject_overlaps s n (map module_range ms) = Ok tt -> Forall (clear (s, n)) (map module_region ms).
Proof.
  intros H%reject_overlaps_Ok. rewrite Forall_map in H |- *. eapply Forall_impl; [done|]. intros m (k & Hk & Hc). cbn in *.
  apply module_len_Ok in Hk as ->. done.
Qed.

Lemma against_storage s n others :
  reject_overlaps s n (map allocation_range others) = Ok tt -> Forall (clear (s, n)) (map region others).
Proof.
  intros H%reject_overlaps_Ok. rewrite Forall_map in H |- *. eapply Forall_impl; [done|]. intros m (k & [= <-] & Hc). done.
Qed.

Lemma reject_fixed_Ok fixed ms :
  reject_fixed_overlaps fixed ms = Ok tt ->
  ForallOrdPairs clear (map region fixed) /\ all_clear (map region fixed) (map module_region ms).
Proof.
  induction fixed as [|a fixed IH]; cbn [reject_fixed_overlaps map]; intros H; [split; constructor|].
  apply res_bind_Ok in H as ([] & H1 & H). apply res_bind_Ok in H as ([] & H2 & H). apply IH in H as [Hp Hm].
  split; constructor; eauto using against_storage, against_modules.
Qed.

Lemma against_fixed_Ok fixed a : reject_against_fixed fixed a = Ok tt -> Forall (clear (region a)) (map region fixed).
Proof.
  induction fixed as [|b fixed IH]; cbn [reject_against_fixed map]; intros H; [done|].
  apply res_bind_Ok in H as (o & Ho & H). destruct o; [done|]. constructor; [by apply clear_sym, overlap_clear|by apply IH].
Qed.

(** The second loop: the optional storage is clear of the fixed storage, of the
    modules and of the storage before it. *)
Lemma reject_additional_Ok fixed ms additional prior :
  reject_additional additional prior fixed ms = Ok tt ->
  all_clear (map region fixed) (map region (flatten additional)) /\ all_clear (map module_region ms) (map region (flatten additional)) /\
  all_clear (map region (flatten prior)) (map region (flatten additional)) /\ ForallOrdPairs clear (map region (flatten additional)).
Proof.
  revert prior. induction additional as [|[a|] additional IH]; intros prior H; cbn [reject_additional flatten map] in *.
  - eauto using all_clear_nil, FOP_nil.
  - apply res_bind_Ok in H as ([] & H1 & H). apply res_bind_Ok in H as ([] & H2 & H). apply res_bind_Ok in H as ([] & H3 & H).
    apply IH in H as (I1 & I2 & I3 & I4). rewrite flatten_app, map_app in I3. apply Forall_app in I3 as [I3 I5].
    apply Forall_cons in I5 as [I5 _]. rewrite !all_clear_cons.
    split_conj; try done; [by apply against_fixed_Ok|by apply against_modules|by apply against_storage|by constructor].
  - apply IH in H as (I1 & I2 & I3 & I4). rewrite flatten_app, app_nil_r in I3. done.
Qed.

(** ** Memory *)

Lemma some_entry_Ok s e w accepts :
  some_entry_holds s e w accepts = Ok true -> exists r, r ∈ w /\ accepts (mr_kind r) = true /\ mr_start r <= s /\ e <= range_end r.
Proof.
  induction w as [|r w IH]; [done|]. cbn [some_entry_holds]. intros H. apply res_bind_Ok in H as (e' & He & H).
  apply page_range_end_Ok in He as ->. destruct (accepts (mr_kind r)) eqn:Ea; cbn [andb] in H.
  - rewrite Z.geb_leb in H. destruct (Z.leb_spec (mr_start r) s), (Z.leb_spec e (mr_start r + mr_pages r * PAGE)); cbn [andb] in H;
      [exists r; split; [left|]; by unfold range_end|destruct (IH H) as (r' & ? & ?); exists r'; split; [by right|done]..].
  - destruct (IH H) as (r' & ? & ?); exists r'; split; [by right|done].
Qed.

Lemma range_has_kind_Ok s n w accepts : range_has_kind s n w accepts = Ok true -> within w accepts (s, n).
Proof.
  unfold range_has_kind, within. intros H. apply res_bind_Ok in H as (e & He & H). apply ok_or_Ok, checked_add_Some in He as [-> _].
  by apply some_entry_Ok.
Qed.

Lemma reserved_range_Ok s n w : validate_reserved_range s n w = Ok tt -> within w is_reserved (s, n).
Proof. unfold validate_reserved_range. intros H. apply res_bind_Ok in H as (o & Ho & H). destruct o; [|done]. by apply range_has_kind_Ok. Qed.
Lemma reserved_storage_Ok a w : validate_reserved_storage a w = Ok tt -> within w is_reserved (region a).
Proof. apply reserved_range_Ok. Qed.

Lemma retained_Ok a minimum : validate_retained a minimum = Ok tt -> retained minimum a.
Proof.
  unfold validate_retained. destruct (ha_lifetime a) eqn:El; try done. unfold is_multiple_of.
  destruct (Z.eqb_spec (ha_start a) 0), (Z.ltb_spec (ha_bytes a) minimum); cbn [orb]; try done.
  destruct (Z.eqb_spec (ha_start a mod PAGE) 0), (Z.eqb_spec (ha_bytes a mod PAGE) 0); cbn [orb negb]; try done.
  case_bool_decide as Hc; [done|]. intros _. split; try done.
  apply not_eq_None_Some in Hc as [end_ He]. by apply checked_add_Some in He as [_ ?].
Qed.

Lemma table_storage_Ok a count size alignment :
  validate_table_storage a count size alignment = Ok tt -> retained (count * size) a /\ ha_start a mod alignment = 0.
Proof.
  unfold validate_table_storage. intros H. apply res_bind_Ok in H as (n & Hn & H). apply ok_or_Ok, checked_mul_Some in Hn as [-> _].
  apply res_bind_Ok in H as ([] & Hr & H). apply retained_Ok in Hr. unfold is_multiple_of in H.
  destruct (Z.eqb_spec (ha_start a mod alignment) 0); done.
Qed.

Lemma module_storage_Ok ms w : validate_module_storage ms w = Ok tt -> Forall (within w is_reserved) (map module_region ms).
Proof.
  induction ms as [|m ms IH]; [done|]. cbn [validate_module_storage map]. intros H. apply res_bind_Ok in H as (n & Hn & H).
  apply module_len_Ok in Hn as ->. apply res_bind_Ok in H as ([] & Hr & H). constructor; [by apply reserved_range_Ok|by apply IH].
Qed.

(** The kernel's own reading of the module table: no two modules share a page. *)
Lemma each_module_Ok ms seen seen' : validate_each_module ms seen = Ok seen' -> ForallOrdPairs clear (map module_region ms).
Proof.
  revert seen. induction ms as [|m ms IH]; intros seen H; cbn [map]; [constructor|]. cbn [validate_each_module] in H.
  destruct (_ || _); [done|]. destruct (any_nonzero _); [done|]. apply res_bind_Ok in H as ([] & _ & H).
  destruct (negb _); [done|]. apply res_bind_Ok in H as (seen1 & _ & H). apply res_bind_Ok in H as ([] & Ho & H).
  constructor; [|by eapply IH]. destruct ms as [|m' ms]; [done|]. apply res_bind_Ok in Ho as (n & Hn & Ho).
  apply module_len_Ok in Hn as ->. by apply against_modules.
Qed.

(** ** Optional parts *)

(** Storage as the kernel needs it: retained, and in reserved memory. *)
Definition stored w a : Prop := retained 0 a /\ within w is_reserved (region a).

Lemma retained_mono n k a : k <= n -> retained n a -> retained k a.
Proof. intros H [? ? [? ?] ?]. split; try done. split; [lia|done]. Qed.

Lemma command_line_Ok o w c :
  build_command_line o w = Ok c -> Forall (fun i => 0 <= cl_bytes i) (option_list o) ->
  (if negb (cl_bytes c =? 0) then Some (cl_storage c) else None) = cl_storage <$> o /\ Forall (stored w) (option_list (cl_storage <$> o)).
Proof.
  destruct o as [i|]; cbn; intros H Hi; [|by injection H as <-]. apply Forall_cons in Hi as [Hi _].
  apply res_bind_Ok in H as ([] & Hr & H). destruct (_ >? _); [done|]. destruct (Z.eqb_spec (cl_bytes i) 0) as [|Hn]; [done|].
  apply res_bind_Ok in H as ([] & Hs & H). injection H as <-. rewrite (proj2 (Z.eqb_neq _ _) Hn). split; [done|].
  apply Forall_singleton. split; [|by apply reserved_storage_Ok]. eapply retained_mono, retained_Ok; eauto.
Qed.

Lemma entropy_Ok o w e :
  build_entropy o w = Ok e -> Forall (fun i => 0 <= ei_bytes i) (option_list o) -> Forall (stored w) (option_list (ei_storage <$> o)).
Proof.
  destruct o as [i|]; cbn; intros H Hi; [|done]. apply Forall_cons in Hi as [Hi _]. destruct (_ || _); [done|].
  apply res_bind_Ok in H as ([] & Hr & H). apply res_bind_Ok in H as ([] & Hs & H).
  apply Forall_singleton. split; [|by apply reserved_storage_Ok]. eapply retained_mono, retained_Ok; eauto.
Qed.

Lemma rsdp_Ok o w z :
  build_acpi_rsdp o w = Ok z -> Forall (fun i => 0 <= ar_bytes i) (option_list o) -> Forall (stored w) (option_list (ar_storage <$> o)).
Proof.
  destruct o as [i|]; cbn; intros H Hi; [|done]. apply Forall_cons in Hi as [Hi _]. destruct (_ || _); [done|].
  apply res_bind_Ok in H as ([] & Hr & H). apply res_bind_Ok in H as ([] & Hs & H).
  apply Forall_singleton. split; [|by apply reserved_storage_Ok]. eapply retained_mono, retained_Ok; eauto.
Qed.

(** The frame buffer the kernel is told of: every pixel of it lies in memory of a
    suitable kind. *)
Definition framebuffer_backed w (f : FramebufferInput) : Prop :=
  0 < fi_width f <= fi_pixels_per_scanline f /\ 0 < fi_height f /\ fi_pixels_per_scanline f * 4 * fi_height f <= fi_bytes f /\
  within w (fun kind => (kind =? DW_BOOT_MEMORY_KIND_RESERVED) || (kind =? DW_BOOT_MEMORY_KIND_MMIO)) (fi_start f, fi_bytes f).

Lemma framebuffer_Ok f w flags d :
  build_framebuffer (Some f) w = Ok (flags, d) -> 0 <= fi_width f -> 0 <= fi_height f -> framebuffer_backed w f.
Proof.
  cbn [build_framebuffer]. unfold framebuffer_descriptor. intros H Hw Hh. apply res_bind_Ok in H as (d' & Hd & H).
  destruct (Z.eqb_spec (fi_width f) 0), (Z.eqb_spec (fi_height f) 0), (Z.ltb_spec (fi_pixels_per_scanline f) (fi_width f));
    cbn [orb] in Hd; try done.
  apply res_bind_Ok in Hd as (line & Hl & Hd). apply ok_or_Ok, checked_mul_Some in Hl as [-> _].
  apply res_bind_Ok in Hd as (need & Hn & Hd). apply ok_or_Ok, checked_mul_Some in Hn as [-> _].
  destruct (Z.ltb_spec (fi_bytes f) (fi_pixels_per_scanline f * 4 * fi_height f)); cbn [orb] in Hd; [done|].
  destruct (bool_decide _); [done|]. apply res_bind_Ok in Hd as ([[[[pf r] g] b] z] & _ & Hd). injection Hd as <-.
  cbn [fb_start fb_bytes] in H. apply res_bind_Ok in H as (ok & Hok & H). destruct ok; [|done].
  apply range_has_kind_Ok in Hok. unfold framebuffer_backed. split_conj; lia || done.
Qed.

(** ** Nothing panics *)

Create HintDb np discriminated.
Ltac no_panic := repeat match goal with
  | |- res_bind _ _ <> Panic => apply res_bind_not_panic; [|intros ? ?]
  | |- ok_or _ _ <> Panic => apply ok_or_not_panic
  | |- (if ?b then _ else _) <> Panic => destruct b eqn:?
  | |- (match ?x with _ => _ end) <> Panic => destruct x
  | |- Ok _ <> Panic => discriminate
  | |- Err _ <> Panic => discriminate
  | |- _ <> Panic => solve [eauto with np]
  end.

Lemma page_range_end_np s n : page_range_end s n <> Panic.
Proof. unfold page_range_end. no_panic. Qed.
Lemma overlap_np s1 n1 s2 n2 : ranges_overlap s1 n1 s2 n2 <> Panic.
Proof. unfold ranges_overlap. no_panic. Qed.
Lemma module_len_np n : module_allocation_len n <> Panic.
Proof. pose proof page_size_ok. unfold module_allocation_len. apply res_bind_not_panic; [apply minus_np; lia|]. intros. no_panic. Qed.
Lemma extent_np n : valid_paging_extent n <> Panic.
Proof. destruct (extent_same n) as (b & _ & ->). done. Qed.
#[local] Hint Resolve page_range_end_np overlap_np module_len_np extent_np : np.

Lemma some_entry_np s e w accepts : some_entry_holds s e w accepts <> Panic.
Proof. induction w as [|r w IH]; cbn [some_entry_holds]; [done|]. no_panic. Qed.
#[local] Hint Resolve some_entry_np : np.
Lemma range_has_kind_np s n w accepts : range_has_kind s n w accepts <> Panic.
Proof. unfold range_has_kind. no_panic. Qed.
#[local] Hint Resolve range_has_kind_np : np.
Lemma reserved_np s n w : validate_reserved_range s n w <> Panic.
Proof. unfold validate_reserved_range. no_panic. Qed.
Lemma reserved_storage_np a w : validate_reserved_storage a w <> Panic.
Proof. apply reserved_np. Qed.
Lemma retained_np a n : validate_retained a n <> Panic.
Proof. unfold validate_retained. no_panic. Qed.
#[local] Hint Resolve reserved_np reserved_storage_np retained_np : np.
Lemma table_storage_np a count size alignment : validate_table_storage a count size alignment <> Panic.
Proof. unfold validate_table_storage. no_panic. Qed.
Lemma entries_np w previous : validate_entries w previous <> Panic.
Proof. revert previous. induction w as [|r w IH]; intros; cbn [validate_entries]; [done|]. unfold validate_page_range. no_panic; apply IH. Qed.
Lemma memory_map_np w : validate_memory_map w <> Panic.
Proof. apply entries_np. Qed.
Lemma reject_overlaps_np s n rights : Forall (fun r => r.2 <> Panic) rights -> reject_overlaps s n rights <> Panic.
Proof. induction 1 as [|[s' k'] rights Hr _ IH]; cbn [reject_overlaps]; [done|]. no_panic; done. Qed.
Lemma against_modules_np s n ms : reject_overlaps s n (map module_range ms) <> Panic.
Proof. apply reject_overlaps_np, Forall_map, Forall_true. intros. apply module_len_np. Qed.
Lemma against_storage_np s n others : reject_overlaps s n (map allocation_range others) <> Panic.
Proof. apply reject_overlaps_np, Forall_map, Forall_true. done. Qed.
Lemma see_module_np m seen : see_module m seen <> Panic.
Proof. unfold see_module. no_panic. Qed.
#[local] Hint Resolve table_storage_np memory_map_np against_modules_np against_storage_np see_module_np : np.
Lemma each_module_np ms seen : validate_each_module ms seen <> Panic.
Proof.
  revert seen. induction ms as [|m ms IH]; intros seen; cbn [validate_each_module]; [done|]. unfold validate_module_range. no_panic.
Qed.
#[local] Hint Resolve each_module_np : np.
Lemma modules_np ms : validate_modules ms <> Panic.
Proof. unfold validate_modules. no_panic. Qed.
Lemma module_storage_np ms w : validate_module_storage ms w <> Panic.
Proof. induction ms as [|m ms IH]; cbn [validate_module_storage]; [done|]. no_panic. Qed.
Lemma descriptor_np f : framebuffer_descriptor f <> Panic.
Proof. unfold framebuffer_descriptor. no_panic. Qed.
Lemma reject_fixed_np fixed ms : reject_fixed_overlaps fixed ms <> Panic.
Proof. induction fixed as [|a fixed IH]; cbn [reject_fixed_overlaps]; [done|]. no_panic. Qed.
Lemma against_fixed_np fixed a : reject_against_fixed fixed a <> Panic.
Proof. induction fixed as [|b fixed IH]; cbn [reject_against_fixed]; [done|]. no_panic. Qed.
#[local] Hint Resolve modules_np module_storage_np descriptor_np reject_fixed_np against_fixed_np : np.
Lemma reject_additional_np additional prior fixed ms : reject_additional additional prior fixed ms <> Panic.
Proof. revert prior. induction additional as [|[a|] additional IH]; intros; cbn [reject_additional]; [done| |apply IH]. no_panic; apply IH. Qed.
Lemma boot_info_np info : validate_boot_info info <> Panic.
Proof.
  unfold validate_boot_info, validate_table_reference, validate_byte_reference, validate_framebuffer, validate_entropy. no_panic.
Qed.
Lemma tables_np info w ms : validate_tables info w ms <> Panic.
Proof. unfold validate_tables. no_panic. Qed.
#[local] Hint Resolve reject_additional_np boot_info_np tables_np : np.

Lemma build_np input out limits : build_inner input out limits <> Panic.
Proof.
  unfold build_inner. destruct (len (modules input) =? len out) eqn:El; cbn [negb].
  - unfold build_command_line, build_entropy, build_framebuffer, build_acpi_rsdp, validate_distinct_handoff_ranges. no_panic.
    apply or_panic_not_panic, put_range_is_Some. lia.
  - destruct (match phase input with AfterExitBootServices => _ | _ => _ end); [done|]. by destruct (bool_decide _).
Qed.

(** ** The record *)

(** The lengths and counts in the input are unsigned. *)
Definition unsigned (input : BootInfoInput) : Prop :=
  Forall (fun r => 0 <= mr_pages r) (memory_map input) /\ Forall (fun i => 0 <= cl_bytes i) (option_list (command_line input)) /\
  Forall (fun i => 0 <= ei_bytes i) (option_list (entropy input)) /\ Forall (fun i => 0 <= ar_bytes i) (option_list (acpi_rsdp input)) /\
  Forall (fun f => 0 <= fi_width f /\ 0 <= fi_height f) (option_list (framebuffer input)).

Lemma entries_ordered w previous :
  validate_entries w previous = Ok tt -> Forall (fun r => 0 <= mr_pages r) w ->
  Forall (fun r => match previous with Some p => p <= mr_start r | None => True end) w /\
  ForallOrdPairs (fun r1 r2 => range_end r1 <= mr_start r2) w.
Proof.
  revert previous. induction w as [|r w IH]; intros previous H Hp; cbn [validate_entries] in H; [split; constructor|].
  apply Forall_cons in Hp as [Hr Hp]. destruct (_ || _); [done|]. destruct (_ || _); [done|]. destruct (negb _); [done|].
  apply res_bind_Ok in H as ([] & _ & H). apply res_bind_Ok in H as (e & He & H). apply page_range_end_Ok in He as ->.
  destruct (match previous with Some p => _ | None => _ end) eqn:Eo; [done|]. apply IH in H as [Hf Ho]; [|done].
  pose proof page_size_ok. split; constructor; try done.
  - destruct previous as [p|]; [|done]. by apply Z.ltb_ge.
  - destruct previous as [p|]; [|by apply Forall_true]. eapply Forall_impl; [exact Hf|]. intros r' Hr'. cbn in *.
    apply Z.ltb_ge in Eo. nia.
Qed.

(** What a checked record promises the kernel about what it was handed. *)
Record handoff_sound (input : BootInfoInput) (info : Info) (out : list BootModule) : Prop := mkHandoff {
  hs_exited : phase input = AfterExitBootServices;
  hs_modules : out = modules input;
  hs_ordered : ForallOrdPairs (fun r1 r2 => range_end r1 <= mr_start r2) (memory_map input);
  hs_storage : Forall (retained 0) (fixed_storage input ++ optional_storage input);
  hs_reserved : Forall (within (memory_map input) is_reserved) (handed_over input);
  hs_disjoint : ForallOrdPairs clear (handed_over input);
  hs_map_table : memory_map_physical_start info = ha_start (memory_map_storage input) /\
    memory_map_entry_count info * memory_map_entry_size info <= ha_bytes (memory_map_storage input);
  hs_module_table : modules_physical_start info = ha_start (module_table_storage input) /\
    module_count info * module_entry_size info <= ha_bytes (module_table_storage input);
  hs_framebuffer : Forall (framebuffer_backed (memory_map input)) (option_list (framebuffer input));
  hs_checked : validate_boot_info info = Ok tt /\ validate_tables info (memory_map input) out = Ok tt }.

Lemma retained_zero n a : 0 <= n -> retained n a -> retained 0 a.
Proof. apply retained_mono. Qed.

Lemma flatten_three {A} (P : A -> Prop) (o1 o2 o3 : option A) :
  Forall P (option_list o1) -> Forall P (option_list o2) -> Forall P (option_list o3) -> Forall P (flatten [o1; o2; o3]).
Proof. destruct o1, o2, o3; cbn; rewrite ?Forall_cons; naive_solver. Qed.

Lemma build_Ok input out limits info out' :
  unsigned input -> build_inner input out limits = Ok (info, out') -> handoff_sound input info out'.
Proof.
  intros (Up & Uc & Ue & Ua & Uf) H. unfold build_inner in H. pose proof sizes_ok as (S1 & S2 & S3).
  destruct (phase input) eqn:Eph; [done|]. destruct (bool_decide _); [done|].
  destruct (Z.eqb_spec (len (modules input)) (len out)) as [El|]; cbn [negb] in H; [|done].
  apply res_bind_Ok in H as (_ & _ & H). apply res_bind_Ok in H as ([] & R1%retained_Ok & H).
  apply res_bind_Ok in H as ([] & [R2 _]%table_storage_Ok & H). apply res_bind_Ok in H as ([] & [R3 _]%table_storage_Ok & H).
  apply res_bind_Ok in H as ([] & Hmap & H). apply entries_ordered in Hmap as [_ Hord]; [|done].
  apply res_bind_Ok in H as ([] & W1%reserved_storage_Ok & H). apply res_bind_Ok in H as ([] & W2%reserved_storage_Ok & H).
  apply res_bind_Ok in H as ([] & W3%reserved_storage_Ok & H).
  apply res_bind_Ok in H as ([] & Hms & H). unfold validate_modules in Hms. apply res_bind_Ok in Hms as (seen & Hpairs%each_module_Ok & _).
  apply res_bind_Ok in H as ([] & Hm%module_storage_Ok & H).
  apply res_bind_Ok in H as (c & Hc & H). apply command_line_Ok in Hc as [Ec Hc]; [|done].
  apply res_bind_Ok in H as (e & He & H). apply entropy_Ok in He; [|done].
  apply res_bind_Ok in H as ([flags fb] & Hf & H). apply res_bind_Ok in H as (z & Hz & H). apply rsdp_Ok in Hz; [|done].
  apply res_bind_Ok in H as ([] & Hd & H). unfold validate_distinct_handoff_ranges in Hd. rewrite Ec in Hd.
  apply res_bind_Ok in Hd as ([] & [Hfix Hfm]%reject_fixed_Ok & (A1 & A2 & _ & A4)%reject_additional_Ok).
  apply res_bind_Ok in H as ([] & Hinfo & H). apply res_bind_Ok in H as (o & Ho & H). apply or_panic_Ok, put_range_Some in Ho as (_ & _ & ->).
  change (Z.to_nat 0) with 0%nat in H. rewrite Z.add_0_l, (drop_ge out), app_nil_r in H by lia.
  cbn [take app] in H. apply res_bind_Ok in H as ([] & Htab & H). injection H as <- <-.
  pose proof (flatten_three _ _ _ _ Hc He Hz) as Hopt. change (flatten _) with (optional_storage input) in *.
  assert (0 <= len (memory_map input) * DW_BOOT_MEMORY_RANGE_V1_SIZE /\ 0 <= len (modules input) * DW_BOOT_MODULE_V1_SIZE) as [N1 N2] by nia.
  split; try done.
  - apply Forall_app. split; [|by eapply Forall_impl; [exact Hopt|intros a []]].
    eapply retained_zero in R1; [|lia]. eapply retained_zero in R2; [|done]. eapply retained_zero in R3; [|done].
    by repeat (apply Forall_cons; split).
  - unfold handed_over. rewrite !Forall_app, Forall_map. split; [by repeat (apply Forall_cons; split)|]. split; [done|].
    rewrite Forall_map. eapply Forall_impl; [exact Hopt|by intros a []].
  - unfold handed_over. apply pairs_app; [done|by apply pairs_app|]. unfold all_clear. rewrite Forall_forall. intros x Hx.
    apply Forall_app. split; [by eapply (proj1 (Forall_forall _ _) Hfm)|by eapply (proj1 (Forall_forall _ _) A1)].
  - split; [done|]. apply R2.
  - split; [done|]. apply R3.
  - destruct (framebuffer input) as [f|]; [|done]. apply Forall_cons in Uf as [[? ?] _]. apply Forall_singleton.
    by eapply framebuffer_Ok.
Qed.

(** C12: The boot record is sound. [build] and [build_with_limits] never panic; when
    they succeed the firmware's boot services have been exited, the module table is
    copied, the memory map is in order without overlaps, the allocations that carry a
    lifetime (the record, the two tables, the command line, the entropy and the RSDP;
    a module has none) are kept until the kernel replaces its page tables, they and
    the modules in whole pages lie in reserved memory and none shares a byte with
    another, the tables fit in their storage, every pixel of a frame buffer lies in
    reserved or device memory, and the record and the tables pass the checks a reader
    of the record makes. *)
Theorem boot_record_sound input out limits :
  unsigned input ->
  (build input out <> Panic /\ build_with_limits input out limits <> Panic) /\
  (forall info out', build input out = Ok (info, out') -> handoff_sound input info out') /\
  (forall info out', build_with_limits input out limits = Ok (info, out') ->
     handoff_sound input info out' /\ len (memory_map input) <= max_memory_map_entries limits /\
     len (modules input) <= max_module_entries limits).
Proof.
  intros Hu. split; [split; apply build_np|]. split; [intros info out' H; exact (build_Ok _ _ _ _ _ Hu H)|].
  intros info out' H. split; [exact (build_Ok _ _ _ _ _ Hu H)|].
  unfold build_with_limits, build_inner in H. destruct (match phase input with AfterExitBootServices => _ | _ => _ end); [done|].
  destruct (bool_decide _); [done|]. destruct (negb _); [done|].
  destruct (Z.gtb_spec (len (memory_map input)) (max_memory_map_entries limits)); [done|].
  destruct (Z.gtb_spec (len (modules input)) (max_module_entries limits)); [done|]. lia.
Qed.
End boot_info.

(** ** The theorem at work *)

Definition kept (start : Z) : BootInfo.HandoffAllocation :=
  BootInfo.mkAllocation start 4096 BootInfo.RetainedUntilDeepwyrmPageTableReplacement.
Definition sample_module (kind flags start bytes : Z) : BootModule := mkModule 64 1 kind flags start bytes [0; 0; 0; 0].

(** One reserved entry from 1 MiB on, a frame buffer in device memory, and every
    optional part. *)
Definition sample_handoff : BootInfo.BootInfoInput :=
  BootInfo.mkInput BootInfo.AfterExitBootServices (kept 1048576) (kept 1052672) (kept 1056768)
    [mkRange 64 1 1 0 0 256 15 [0; 0; 0]; mkRange 64 1 2 0 1048576 256 15 [0; 0; 0]; mkRange 64 1 5 0 2147483648 2048 1 [0; 0; 0]]
    [sample_module 1 0 1064960 100; sample_module 2 1 1069056 5000; sample_module 3 1 1081344 20480]
    (Some (BootInfo.mkRsdp (kept 1110016) 36)) (Some (BootInfo.mkFramebufferInput 2147483648 8294400 1920 1080 1920 BootInfo.Bgrx8))
    (Some (BootInfo.mkCommandLine (kept 1114112) 12))
    (Some (BootInfo.mkEntropyInput (kept 1118208) 64 BootInfo.UefiRngProtocol true)).

Lemma boot_record_sound_witness :
  exists info, @BootInfo.build sample_abi sample_handoff (replicate 3 (sample_module 0 0 0 0)) = Ok (info, BootInfo.modules sample_handoff) /\
    BootInfo.command_line_physical_start info = 1114112 /\
    @handoff_sound sample_abi sample_handoff info (BootInfo.modules sample_handoff).
Proof.
  assert (H : unsigned sample_handoff) by (repeat constructor; cbn; lia).
  eexists. split; [vm_compute; reflexivity|]. split; [reflexivity|].
  refine (proj1 (proj2 (@boot_record_sound sample_abi sample_handoff (replicate 3 (sample_module 0 0 0 0)) (BootInfo.mkLimits 0 0) H)) _ _ _).
  vm_compute. reflexivity.
Defined.
