(* ===== verification/Service.v ===== *)
(** * The registry service (userspace/registryd/src/service.rs)

    One step of the service: wait for a datagram or a closed peer, and act on it
    through [RegistryState].  The channels are a [Transport], a state with seven
    calls.  [oc] says whether overflow checks are compiled in, as in
    [RegistryProto].  Retiring a peer notifies watchers, and a watcher that cannot
    be told is retired in turn: this recursion runs on fuel, and running out of it
    is [Panic]. *)

From stdpp Require Import base tactics option list list_numbers.
From Stdlib Require Import ZArith Lia.
From S2P Require Import Prelude Bytes RegistryProto Registry StateM.
Import RegistryProto Registry.

Module Service.

Definition MAX_MESSAGE_BYTES : nat := 416.
Definition MAX_ENDPOINTS : nat := 64.
Definition MAX_RECEIVED_HANDLES : nat := 16.

Inductive ChannelRights := Child | Broad.
Record ReceivedHandle := mkReceived { handle : Z; metadata_is_channel : bool; metadata_rights : Z }.
(** [ReceivedHandle::default()] *)
Definition default_received : ReceivedHandle := mkReceived 0 false 0.
Record ReceiveCounts := mkCounts { bytes_count : nat; handles_count : nat }.
Record WaitEvent := mkEvent { endpoint_index : option nat; readable : bool; peer_closed_signal : bool }.
Record ProbeSignals := mkSignals { probe_readable : bool; probe_peer_closed : bool }.

(** The trait.  A receive fills the caller's arrays, which keep their lengths; no
    channel has the null handle. *)
Class Transport (T E : Type) := {
  wait : T -> Z -> list InstalledEndpoint -> T * (E + WaitEvent);
  probe : T -> InstalledEndpoint -> T * (E + ProbeSignals);
  receive : T -> Z -> list Z -> list ReceivedHandle -> T * (E + ReceiveCounts) * (list Z * list ReceivedHandle);
  validate_channel : T -> ReceivedHandle -> ChannelRights -> T * (E + unit);
  send : T -> Z -> list Z -> T * (E + unit);
  send_move : T -> Z -> list Z -> Z -> ChannelRights -> T * (E + unit);
  close : T -> Z -> T * (E + unit);
  receive_lengths t channel bytes handles :
    length (receive t channel bytes handles).2.1 = length bytes /\ length (receive t channel bytes handles).2.2 = length handles;
  receive_bytes t channel bytes handles : bytes_ok bytes -> bytes_ok (receive t channel bytes handles).2.1;
  channel_not_null t h rights : (validate_channel t h rights).2 = inr tt -> handle h <> 0 }.

Inductive ServiceError (E : Type) := TransportError (e : E) | StateError (e : RegistryError) | ControlPeerClosed | InvalidWaitEvent.
Arguments TransportError {_}. Arguments StateError {_}. Arguments ControlPeerClosed {_}. Arguments InvalidWaitEvent {_}.

(** [RegistryService] together with the transport it is given. *)
Record World (T : Type) := mkWorld { control : Z; state : option RegistryState; io : T }.
Arguments mkWorld {_}. Arguments control {_}. Arguments state {_}. Arguments io {_}.

Definition request_type_allowed (kind : EndpointKind) (message : option MessageType) : bool :=
  match kind, message with
  | KPublication, Some (MtPublish | MtRetire) => true
  | KClient, Some (MtLookupConnect | MtEnumerate | MtWatch | MtCancel) => true
  | _, _ => false
  end.

Definition error_code (error : RegistryError) : ErrorCode :=
  match error with
  | RTransactionLive => EcTransactionLive
  | RTransactionReplay => EcTransactionReplay
  | ROutstandingLimit => EcOutstandingLimit
  | RCapacity => EcCapacity
  | RNotPublished => EcNotPublished
  | RUnsupportedVersion => EcUnsupportedVersion
  | REnumerationDenied => EcEnumerationDenied
  | RUnknownTransaction | RUnknownEndpoint => EcUnknownTransaction
  | RWrongEndpointKind => EcWrongEndpointKind
  | _ => EcInvalidState
  end.

Definition record (value : ServiceMetadata) : ServiceListRecord :=
  mkServiceListRecord (md_protocol_id value) (md_service_generation value) (md_versions value) (md_version_count value)
    (metadata_name value).

(** [Header { message_type: kind, ..header }] *)
Definition with_type (kind : MessageType) (header : Header) : Header :=
  mkHeader kind (registry_generation header) (endpoint_id header) (endpoint_generation header) (transaction_id header).

Section service.
Context (oc : bool) {T E : Type} {transport : Transport T E}.
Abbreviation M := (SM (World T) (ServiceError E)).

(** ** Calls *)

Definition call {A} (op : T -> T * (E + A)) : M (E + A) := fun w =>
  let '(t, r) := op (io w) in (mkWorld (control w) (state w) t, Ok r).
(** [.map_err(ServiceError::Transport)?] *)
Definition try_io {A} (op : T -> T * (E + A)) : M A :=
  r ← call op; match r with inr a => mret a | inl e => throw (TransportError e) end.
(** [.is_ok()] *)
Definition succeeds {A} (op : T -> T * (E + A)) : M bool :=
  r ← call op; mret (match r with inr _ => true | inl _ => false end).
Definition receive_call (channel : Z) : M (E + ReceiveCounts * list Z * list ReceivedHandle) := fun w =>
  let '(t, r, (bytes, handles)) :=
    receive (io w) channel (replicate MAX_MESSAGE_BYTES 0) (replicate MAX_RECEIVED_HANDLES default_received) in
  (mkWorld (control w) (state w) t, Ok (match r with inr counts => inr (counts, bytes, handles) | inl e => inl e end)).
(** [self.state.as_mut().unwrap().method(..)] *)
Definition on_state {A} (method : Registry.M A) : M (RegistryError + A) := fun w =>
  match state w with
  | None => (w, Panic)
  | Some s =>
      let '(s, r) := method s in
      (mkWorld (control w) (Some s) (io w), match r with Ok a => Ok (inr a) | Err e => Ok (inl e) | Panic => Panic end)
  end.
(** [.unwrap()] of a result that does not touch the world *)
Definition unwrap {X A} (r : res X A) : M A := fun w => (w, match r with Ok a => Ok a | _ => Panic end).
(** [.unwrap()] of a method's result *)
Definition on_state_unwrap {A} (method : Registry.M A) : M A :=
  r ← on_state method; unwrap (match r with inr a => Ok a | inl e => Err e end).
(** [self.state.as_ref().unwrap().generation()] *)
Definition generation : M Z := s ← gets state; unwrap (X := RegistryError) (or_panic (r_generation <$> s)).
(** [&bytes[..size]] of an encoded datagram *)
Definition datagram (encoded : res Error (Z * list Z)) : M (list Z) :=
  '(size, bytes) ← unwrap encoded; unwrap (X := Error) (or_panic (get_range bytes 0 size)).

Definition send_empty_raw (channel : Z) (header : Header) (kind : MessageType) : M bool :=
  bytes ← datagram (encode_empty (with_type kind header) (replicate (Z.to_nat HEADER_BYTES) 0));
  succeeds (fun t => send t channel bytes).
Definition send_generation (channel : Z) (header : Header) (generation : Z) : M bool :=
  bytes ← datagram (encode_generation_changed (with_type MtGenerationChanged header) generation (replicate 72 0));
  succeeds (fun t => send t channel bytes).

(** [for value in handles.iter().take(count)], over what is left of the slice *)
Fixpoint close_each (handles : list ReceivedHandle) : M unit :=
  match handles with
  | [] => mret tt
  | value :: handles =>
      _ ← (if negb (handle value =? 0) then try_io (fun t => close t (handle value)) else mret tt);
      close_each handles
  end.
Definition close_received (handles : list ReceivedHandle) (count : nat) : M unit := close_each (take count handles).

(** ** Retiring a peer and telling the watchers *)

(** The loop of [send_notifications], from [index], [count] to go; [remove] is the
    recursive call. *)
Fixpoint notify_each (remove : InstalledEndpoint -> M unit) (values : WatchNotifications) (index count : nat) : M unit :=
  match count with
  | O => mret tt
  | S count =>
      n ← unwrap (X := Error) (or_panic (notifications_get values index));
      g ← generation;
      let header := mkHeader MtGenerationChanged g (id (wn_client n)) (id_generation (wn_client n)) (wn_transaction_id n) in
      sent ← send_generation (wn_client_handle n) header (wn_service_generation n);
      _ ← (if negb sent then remove (mkInstalledEndpoint (wn_client n) (wn_client_handle n) KClient) else mret tt);
      notify_each remove values (S index) count
  end.

Fixpoint retire_peer_from (fuel : nat) (endpoint : InstalledEndpoint) : M unit :=
  match fuel with
  | O => fun w => (w, Panic)
  | S fuel =>
      s ← gets state;
      match s with
      | None => throw (StateError RInvalidState)
      | Some _ =>
          r ← on_state (peer_closed (ie_identity endpoint));
          match r with
          | inl e => throw (StateError e)
          | inr outcome =>
              _ ← try_io (fun t => close t (pc_handle outcome));
              notify_each (fun endpoint =>
                  s ← gets state;
                  match s with Some _ => retire_peer_from fuel endpoint | None => mret tt end)
                (pc_notifications outcome) 0 (wns_len (pc_notifications outcome))
          end
      end
  end.

(** Every retirement takes an endpoint off the registry, which holds at most
    [MAX_ENDPOINTS]. *)
Definition RETIRE_FUEL : nat := S MAX_ENDPOINTS.
Definition retire_peer (endpoint : InstalledEndpoint) : M unit := retire_peer_from RETIRE_FUEL endpoint.
Definition remove (endpoint : InstalledEndpoint) : M unit :=
  s ← gets state;
  match s with Some _ => retire_peer endpoint | None => mret tt end.
Definition send_notifications (values : WatchNotifications) : M unit := notify_each remove values 0 (wns_len values).

(** ** Answers *)

Definition send_error (endpoint : InstalledEndpoint) (header : Header) (code : ErrorCode) : M unit :=
  bytes ← datagram (encode_error (with_type MtError header) code (replicate 72 0));
  sent ← succeeds (fun t => send t (ie_handle endpoint) bytes);
  if negb sent then remove endpoint else mret tt.
Definition state_error (endpoint : InstalledEndpoint) (header : Header) (error : RegistryError) : M unit :=
  send_error endpoint header (error_code error).
Definition complete_error (endpoint : InstalledEndpoint) (header : Header) (code : ErrorCode) : M unit :=
  r ← on_state (complete_transaction (ie_identity endpoint) (ie_kind endpoint) (transaction_id header));
  match r with
  | inr _ => send_error endpoint header code
  | inl e => state_error endpoint header e
  end.
Definition send_empty (endpoint : InstalledEndpoint) (header : Header) (kind : MessageType) : M bool :=
  sent ← send_empty_raw (ie_handle endpoint) header kind;
  if (sent : bool) then mret true else _ ← remove endpoint; mret false.

(** [.ok().flatten()] of a record of the enumeration *)
Definition page_entry (ticket : EnumerationTicket) (index : nat) : M (option ServiceMetadata) :=
  r ← on_state (enumeration_record ticket index);
  mret (match r with inr m => m | inl _ => None end).

Definition send_page (endpoint : InstalledEndpoint) (header : Header) (ticket : EnumerationTicket) (page : nat) : M bool :=
  let start := (page * 2)%nat in
  first ← page_entry ticket start;
  second ← page_entry ticket (start + 1);
  records ← unwrap (X := Error) (match first, second with
                                 | None, None => Ok []
                                 | Some a, None => Ok [record a]
                                 | Some a, Some b => Ok [record a; record b]
                                 | None, Some _ => Panic
                                 end);
  bytes ← datagram (encode_service_list oc (with_type MtServiceList header) (Z.of_nat page) (et_page_count ticket)
                      (et_total_count ticket) records (replicate MAX_MESSAGE_BYTES 0));
  succeeds (fun t => send t (ie_handle endpoint) bytes).

(** [for page in 0..ticket.page_count]; [false] when a page could not be sent *)
Fixpoint send_pages (endpoint : InstalledEndpoint) (header : Header) (ticket : EnumerationTicket) (page count : nat) : M bool :=
  match count with
  | O => mret true
  | S count =>
      sent ← send_page endpoint header ticket page;
      if (sent : bool) then send_pages endpoint header ticket (S page) count else mret false
  end.

Definition enumerate (endpoint : InstalledEndpoint) (header : Header) : M unit :=
  r ← on_state (enumerate_begin (ie_identity endpoint) (transaction_id header));
  match r with
  | inl e => state_error endpoint header e
  | inr ticket =>
      sent ← send_pages endpoint header ticket 0 (Z.to_nat (et_page_count ticket));
      if (sent : bool) then on_state_unwrap (enumeration_complete ticket) else remove endpoint
  end.

Definition connect (endpoint : InstalledEndpoint) (header : Header) (request : Lookup) (service_endpoint : ReceivedHandle) : M unit :=
  valid ← succeeds (fun t => validate_channel t service_endpoint Broad);
  if negb valid then
    _ ← (if negb (handle service_endpoint =? 0) then try_io (fun t => close t (handle service_endpoint)) else mret tt);
    complete_error endpoint header EcMalformedRequest
  else
    r ← on_state (lookup (ie_identity endpoint) (transaction_id header) request);
    match r with
    | inl e =>
        _ ← try_io (fun t => close t (handle service_endpoint));
        state_error endpoint header e
    | inr offer =>
        let reply := mkHeader MtConnectOffer (registry_generation header) (id (fo_publication offer))
                       (id_generation (fo_publication offer)) (transaction_id header) in
        bytes ← datagram (encode_lookup reply request (replicate MAX_MESSAGE_BYTES 0));
        moved ← succeeds (fun t => send_move t (fo_publication_handle offer) bytes (handle service_endpoint) Child);
        if negb moved then
          _ ← try_io (fun t => close t (handle service_endpoint));
          send_error endpoint header EcForwardFailed
        else
          _ ← send_empty endpoint header MtConnected;
          mret tt
    end.

(** ** Requests *)

Definition dispatch (endpoint : InstalledEndpoint) (header : Header) (message : Message) (handles : list ReceivedHandle) : M unit :=
  match ie_kind endpoint, message with
  | KPublication, MPublish =>
      r ← on_state (prepare_publish (ie_identity endpoint) (transaction_id header));
      match r with
      | inr ticket =>
          sent ← send_empty_raw (ie_handle endpoint) header MtPublished;
          if negb sent then remove endpoint
          else
            outcome ← on_state_unwrap (commit_publish ticket);
            send_notifications (po_notifications outcome)
      | inl e => state_error endpoint header e
      end
  | KPublication, MRetire =>
      r ← on_state (retire (ie_identity endpoint) (transaction_id header));
      match r with
      | inr outcome =>
          _ ← send_empty_raw (ro_registry_handle outcome) header MtRetired;
          _ ← try_io (fun t => close t (ro_registry_handle outcome));
          send_notifications (ro_notifications outcome)
      | inl e => state_error endpoint header e
      end
  | KClient, MLookupConnect request =>
      first ← unwrap (X := Error) (or_panic (head handles));
      connect endpoint header request first
  | KClient, MEnumerate => enumerate endpoint header
  | KClient, MWatch request =>
      r ← on_state (watch (ie_identity endpoint) (transaction_id header) request);
      match r with
      | inr (Immediate service_generation) =>
          sent ← send_generation (ie_handle endpoint) header service_generation;
          if negb sent then remove endpoint else mret tt
      | inr Pending => mret tt
      | inl e => state_error endpoint header e
      end
  | KClient, MCancel target =>
      r ← on_state (cancel (ie_identity endpoint) (transaction_id header) target);
      match r with
      | inr _ =>
          bytes ← datagram (encode_cancel (with_type MtCancelled header) target (replicate 72 0));
          sent ← succeeds (fun t => send t (ie_handle endpoint) bytes);
          if negb sent then remove endpoint else mret tt
      | inl e => state_error endpoint header e
      end
  | _, _ =>
      first ← unwrap (X := Error) (or_panic (head handles));
      _ ← close_received handles (if negb (handle first =? 0) then 1 else 0);
      complete_error endpoint header EcWrongEndpointKind
  end.

Definition receive_endpoint (endpoint : InstalledEndpoint) : M unit :=
  r ← receive_call (ie_handle endpoint);
  match r with
  | inl _ => remove endpoint
  | inr (counts, bytes, handles) =>
      if (length bytes <? bytes_count counts)%nat || (length handles <? handles_count counts)%nat then
        _ ← close_received handles (handles_count counts `min` length handles);
        remove endpoint
      else
        let bytes := take (bytes_count counts) bytes in
        match decode_header bytes with
        | Panic => fun w => (w, Panic)
        | Err _ => close_received handles (handles_count counts)
        | Ok decoded =>
            g ← generation;
            let canonical := mkHeader (default MtError (dh_message_type decoded)) g (id (ie_identity endpoint))
                               (id_generation (ie_identity endpoint)) (dh_transaction_id decoded) in
            let refuse code := _ ← close_received handles (handles_count counts); complete_error endpoint canonical code in
            if negb (dh_major decoded =? 1) || negb (dh_minor decoded =? 0) then refuse EcUnsupportedVersion
            else if bool_decide (dh_message_type decoded = None) then refuse EcMalformedRequest
            else if negb (request_type_allowed (ie_kind endpoint) (dh_message_type decoded)) then refuse EcWrongEndpointKind
            else if negb (dh_registry_generation decoded =? registry_generation canonical)
                 || negb (dh_endpoint_id decoded =? endpoint_id canonical)
                 || negb (dh_endpoint_generation decoded =? endpoint_generation canonical) then refuse EcCorrelationMismatch
            else
              match parse oc bytes (Z.of_nat (handles_count counts)) with
              | Panic => fun w => (w, Panic)
              | Err _ => refuse EcMalformedRequest
              | Ok request => dispatch endpoint (pm_header request) (pm_message request) handles
              end
        end
  end.

(** The endpoints the registry holds, copied into an array: [while let Some(endpoint)
    = state.installed_endpoint(count)]. *)
Fixpoint collect_from (fuel : nat) (s : RegistryState) (endpoints : list InstalledEndpoint) (count : nat)
    : res Error (list InstalledEndpoint * nat) :=
  match fuel with
  | O => Panic
  | S fuel =>
      match installed_endpoint s count with
      | None => Ok (endpoints, count)
      | Some endpoint =>
          if (count <? length endpoints)%nat then collect_from fuel s (<[count := endpoint]> endpoints) (S count) else Panic
      end
  end.
Definition placeholder : InstalledEndpoint := mkInstalledEndpoint (mkIdentity 1 1) 1 KClient.
Definition collect : M (list InstalledEndpoint * nat) :=
  s ← gets state;
  match s with
  | Some s => unwrap (collect_from (S MAX_ENDPOINTS) s (replicate MAX_ENDPOINTS placeholder) 0)
  | None => mret (replicate MAX_ENDPOINTS placeholder, 0%nat)
  end.

(** The two loops of [sweep_closed_endpoints], over the endpoints in use *)
Fixpoint probe_each (endpoints : list InstalledEndpoint) : M (list bool) :=
  match endpoints with
  | [] => mret []
  | endpoint :: endpoints =>
      signals ← try_io (fun t => probe t endpoint);
      closed ← probe_each endpoints;
      mret (probe_peer_closed signals :: closed)
  end.
Fixpoint retire_closed (endpoints : list InstalledEndpoint) (closed : list bool) : M unit :=
  match endpoints, closed with
  | endpoint :: endpoints, c :: closed =>
      _ ← (if (c : bool) then retire_peer endpoint else mret tt);
      retire_closed endpoints closed
  | _, _ => mret tt
  end.
Definition sweep_closed_endpoints : M unit :=
  '(endpoints, count) ← collect;
  closed ← probe_each (take count endpoints);
  retire_closed (take count endpoints) closed.

(** ** Control messages *)

Definition is_install (message : Message) : bool :=
  match message with MInstallPublication _ | MInstallClient _ => true | _ => false end.

(** Run [c], and return its error as a value. *)
Definition catch {A} (c : M A) : M (ServiceError E + A) := fun w =>
  match c w with
  | (w, Ok a) => (w, Ok (inr a))
  | (w, Err e) => (w, Ok (inl e))
  | (w, Panic) => (w, Panic)
  end.

(** [self.state = RegistryState::new(..).ok()] when there is none *)
Definition ensure_state (g : Z) : M unit :=
  StateM.modify (fun w => match state w with
                   | Some _ => w
                   | None => mkWorld (control w) (match registry_new g with Ok s => Some s | _ => None end) (io w)
                   end).

(** The install of the message, or [unreachable!()] *)
Definition install (header : Header) (message : Message) (h : Z) : M (RegistryError + unit) :=
  match message with
  | MInstallPublication value => on_state (install_publication (registry_generation header) h value)
  | MInstallClient value => on_state (install_client (registry_generation header) h value)
  | _ => fun w => (w, Panic)
  end.

Definition receive_control : M unit :=
  channel ← gets control;
  r ← receive_call channel;
  match r with
  | inl e => throw (TransportError e)
  | inr (counts, bytes, handles) =>
      if (length bytes <? bytes_count counts)%nat || (length handles <? handles_count counts)%nat then
        close_received handles (handles_count counts `min` length handles)
      else
        match parse oc (take (bytes_count counts) bytes) (Z.of_nat (handles_count counts)) with
        | Panic => fun w => (w, Panic)
        | Err _ => close_received handles (handles_count counts)
        | Ok request =>
            first ← unwrap (X := Error) (or_panic (head handles));
            valid ← (if is_install (pm_message request) && (handles_count counts =? 1)%nat
                     then succeeds (fun t => validate_channel t first Child) else mret false);
            if negb valid then close_received handles (handles_count counts)
            else
              _ ← ensure_state (registry_generation (pm_header request));
              swept ← (match pm_message request with
                       | MInstallClient _ => catch sweep_closed_endpoints
                       | _ => mret (inr tt)
                       end);
              match swept with
              | inl error => _ ← try_io (fun t => close t (handle first)); throw error
              | inr _ =>
                  s ← gets state;
                  match s with
                  | None => try_io (fun t => close t (handle first))
                  | Some _ =>
                      result ← install (pm_header request) (pm_message request) (handle first);
                      match result with
                      | inl _ => try_io (fun t => close t (handle first))
                      | inr _ => mret tt
                      end
                  end
              end
        end
  end.

(** ** The step *)

Definition step : M unit :=
  '(endpoints, count) ← collect;
  channel ← gets control;
  event ← try_io (fun t => wait t channel (take count endpoints));
  match endpoint_index event with
  | Some index =>
      match (if (index <? count)%nat then endpoints !! index else None) with
      | None => throw InvalidWaitEvent
      | Some endpoint =>
          if readable event then receive_endpoint endpoint
          else if peer_closed_signal event then retire_peer endpoint
          else throw InvalidWaitEvent
      end
  | None =>
      if readable event then receive_control
      else if peer_closed_signal event then throw ControlPeerClosed
      else throw InvalidWaitEvent
  end.

(** [n] rounds of the loop of the process, [loop { service.step(&mut transport)?; }] *)
Fixpoint serve (n : nat) : M unit :=
  match n with
  | O => mret tt
  | S n => _ ← step; serve n
  end.
End service.

(** [RegistryService::new] *)
Definition service_new {T} (control : Z) (t : T) : World T := mkWorld control None t.

End Service.
