(* ===== verification/ServiceInv.v ===== *)
(** * What the registry service relies on

    The parts of [RegistryState] that only installing and retiring change: which
    endpoints are installed, under which handles, and what is listed of them.
    From them follow that every answer of the service can be encoded and which
    handles its process holds. *)

From stdpp Require Import base tactics option list list_numbers gmultiset sorting.
From Stdlib Require Import ZArith Lia.
From S2P Require Import Prelude StateM Bytes Utf8 RegistryProto RegistryWire RegistryCodec Registry RegistryReplay RegistryInv RegistryOps RegistryThms Service.
Import RegistryProto Registry.

Implicit Types (s : RegistryState) (e : EndpointIdentity).

(** ** Views *)

Record PublicationView := mkPubView {
  pv_endpoint : EndpointIdentity; pv_handle : Z; pv_generation : Z; pv_protocol : Z;
  pv_versions : list ProtocolVersion; pv_count : Z }.
Definition publication_view (p : Publication) : PublicationView :=
  mkPubView (p_endpoint p) (p_handle p) (service_generation p) (protocol_id p) (versions p) (version_count p).
(** The name of a slot and what is installed in it. *)
Definition slot_view (x : ServiceSlot) : list Z * option PublicationView := (slot_name x, publication_view <$> active x).
Definition client_view (c : Client) : EndpointIdentity * Z := (c_endpoint c, c_handle c).

Definition slot_views s : list (option (list Z * option PublicationView)) := fmap (M := option) slot_view <$> services s.
Definition client_views s : list (option (EndpointIdentity * Z)) := fmap (M := option) client_view <$> clients s.
Definition view s := (r_generation s, slot_views s, client_views s).

(** The handles of the installed endpoints. *)
Definition slot_hand (o : option (list Z * option PublicationView)) : option Z := o ≫= fun v => pv_handle <$> v.2.
Definition client_hand (o : option (EndpointIdentity * Z)) : option Z := snd <$> o.
Definition hands s : gmultiset Z := list_to_set_disj (omap slot_hand (slot_views s) ++ omap client_hand (client_views s)).

(** An identity the protocol can carry, and a publication it can list. *)
Definition nonzero e : Prop := id e <> 0 /\ id_generation e <> 0.
Definition listable (v : list Z * option PublicationView) : Prop :=
  forall p, v.2 = Some p -> nonzero (pv_endpoint p) /\ pv_generation p <> 0 /\ pv_protocol p <> 0 /\ name_valid v.1 /\
    exists vs, get_range (pv_versions p) 0 (pv_count p) = Some vs /\ validate_versions vs = Ok tt.

Definition tidy_view (g : Z) (SV : list (option (list Z * option PublicationView))) (CV : list (option (EndpointIdentity * Z))) : Prop :=
  g <> 0 /\ Forall (from_option listable True) SV /\ Forall (from_option (fun v => nonzero v.1) True) CV.
Definition tidy s : Prop := tidy_view (r_generation s) (slot_views s) (client_views s).

Lemma tidy_same s s' : view s' = view s -> tidy s -> tidy s'.
Proof. unfold tidy, view. by intros [= -> -> ->]. Qed.
Lemma hands_same s s' : view s' = view s -> hands s' = hands s.
Proof. unfold hands, view. by intros [= _ -> ->]. Qed.

(** ** What keeps the view *)

Lemma view_set_client i c c' s :
  clients s !! i = Some (Some c) -> client_view c' = client_view c -> view (set_clients s (<[i := Some c']> (clients s))) = view s.
Proof.
  intros Hi Hc. unfold view, client_views, slot_views. simpl. f_equal. rewrite list_fmap_insert. apply list_insert_id.
  rewrite list_lookup_fmap, Hi. simpl. by rewrite Hc.
Qed.

Lemma view_set_slot i x x' s :
  services s !! i = Some (Some x) -> slot_view x' = slot_view x -> view (set_services s (<[i := Some x']> (services s))) = view s.
Proof.
  intros Hi Hc. unfold view, client_views, slot_views. simpl. do 2 f_equal. rewrite list_fmap_insert. apply list_insert_id.
  rewrite list_lookup_fmap, Hi. simpl. by rewrite Hc.
Qed.

Lemma client_at_Ok i s s' c : client_at i s = (s', Ok c) -> s' = s /\ clients s !! i = Some (Some c).
Proof. unfold client_at, reads. intros [= <- H]. split; [done|]. destruct (clients s !! i) as [[d|]|]; simplify_eq/=; done. Qed.
Lemma slot_at_Ok i s s' x : slot_at i s = (s', Ok x) -> s' = s /\ services s !! i = Some (Some x).
Proof. unfold slot_at, reads. intros [= <- H]. split; [done|]. destruct (services s !! i) as [[d|]|]; simplify_eq/=; done. Qed.
Lemma publication_at_Ok i s s' p :
  publication_at i s = (s', Ok p) -> s' = s /\ exists x, services s !! i = Some (Some x) /\ active x = Some p.
Proof.
  unfold publication_at, mbind, M_bind. destruct (slot_at i s) as [s1 [x|err|]] eqn:Hx; [|done..].
  apply slot_at_Ok in Hx as [-> Hx]. unfold reads. intros [= <- H]. apply or_panic_Ok in H. eauto.
Qed.

Lemma reserve_view c t c' : reserve c t = Ok c' -> client_view c' = client_view c.
Proof. unfold reserve. intros H. res_inv. by subst. Qed.
Lemma complete_view c t c' : complete c t = Ok c' -> client_view c' = client_view c.
Proof.
  unfold complete. destruct (position _ _); [|by intros [= <-]]. destruct (_ !! _); [|done]. by intros [= <-].
Qed.
Lemma publication_reserve_view p t p' : publication_reserve p t = Ok p' -> publication_view p' = publication_view p.
Proof. unfold publication_reserve. intros H. res_inv. by subst. Qed.
Lemma publication_complete_view p t p' : publication_complete p t = Ok p' -> publication_view p' = publication_view p.
Proof. unfold publication_complete. intros H. res_inv. by subst. Qed.

(** Reading a client or a publication, and going on from what was read. *)
Lemma keeps_at_client {A} i (k : Client -> M A) :
  (forall s c, clients s !! i = Some (Some c) -> view (fst (k c s)) = view s) -> keeps view (c ← client_at i; k c).
Proof.
  intros Hk s. unfold mbind, M_bind. destruct (client_at i s) as [s1 [c|err|]] eqn:Hc;
    [apply client_at_Ok in Hc as [-> Hc]; by apply Hk|unfold client_at, reads in Hc; by injection Hc as <-..].
Qed.
Lemma keeps_at_publication {A} i (k : Publication -> M A) :
  (forall s x p, services s !! i = Some (Some x) -> active x = Some p -> view (fst (k p s)) = view s) -> keeps view (p ← publication_at i; k p).
Proof.
  intros Hk s. unfold mbind, M_bind. destruct (publication_at i s) as [s1 [p|err|]] eqn:Hp;
    [apply publication_at_Ok in Hp as (-> & x & Hx & Hp); by eapply Hk
    |unfold publication_at, slot_at, mbind, M_bind, reads in Hp; by destruct (or_panic _) in Hp; injection Hp as <-..].
Qed.

Lemma slot_view_same x p p' : active x = Some p -> publication_view p' = publication_view p -> slot_view (with_active x (Some p')) = slot_view x.
Proof. intros Hx Hp. unfold slot_view, slot_name. simpl. by rewrite Hx, Hp. Qed.

Lemma keeps_client_reserve i t : keeps view (client_reserve i t).
Proof.
  apply keeps_at_client. intros s c Hi. unfold mbind, M_bind, reads. destruct (reserve c t) as [c'| |] eqn:Hc; [|done..]. simpl.
  by eapply view_set_client, reserve_view.
Qed.
Lemma keeps_client_complete i t : keeps view (client_complete i t).
Proof.
  apply keeps_at_client. intros s c Hi. unfold mbind, M_bind, reads. destruct (complete c t) as [c'| |] eqn:Hc; [|done..]. simpl.
  by eapply view_set_client, complete_view.
Qed.
Lemma keeps_reserve_publication i t : keeps view (reserve_publication i t).
Proof.
  apply keeps_at_publication. intros s x p Hi Hp. unfold mbind, M_bind, reads. destruct (publication_reserve p t) as [p'| |] eqn:Hc; [|done..].
  rewrite (run_set_publication _ _ _ _ Hi). eapply view_set_slot, slot_view_same, publication_reserve_view; eauto.
Qed.
Lemma keeps_complete_publication i t : keeps view (complete_publication i t).
Proof.
  apply keeps_at_publication. intros s x p Hi Hp. unfold mbind, M_bind, reads. destruct (publication_complete p t) as [p'| |] eqn:Hc; [|done..].
  rewrite (run_set_publication _ _ _ _ Hi). eapply view_set_slot, slot_view_same, publication_complete_view; eauto.
Qed.
Lemma keeps_publication_at i : keeps view (publication_at i).
Proof. unfold publication_at, slot_at. apply keeps_bind; [apply keeps_reads|intros; apply keeps_reads]. Qed.
Lemma keeps_set_watch i w : keeps view (set_watch i w).
Proof. done. Qed.

#[local] Hint Resolve keeps_ret keeps_reads keeps_fail keeps_client_reserve keeps_client_complete keeps_reserve_publication
  keeps_complete_publication keeps_publication_at keeps_set_watch : core.
Ltac keeps_all := repeat match goal with
  | |- keeps _ (mbind _ _) => apply keeps_bind; [|intros ?]
  | |- keeps _ (match ?x with _ => _ end) => destruct x
  | |- keeps _ (client_at _) => unfold client_at
  | |- keeps _ (slot_at _) => unfold slot_at
  | |- keeps _ _ => by auto
  end.

Lemma keeps_notify protocol name g : keeps view (notify protocol name g).
Proof.
  unfold notify. apply keeps_bind; [auto|]. intros n. generalize notifications_new. generalize 0%nat.
  induction n as [|n IH]; intros index ns; simpl; keeps_all.
Qed.
#[local] Hint Resolve keeps_notify : core.

Lemma keeps_prepare e t : keeps view (prepare_publish e t).
Proof. unfold prepare_publish. keeps_all. Qed.
Lemma keeps_commit ticket : keeps view (commit_publish ticket).
Proof.
  unfold commit_publish. apply keeps_bind; [auto|]. intros i. apply keeps_at_publication. intros s x p Hi Hp.
  destruct (_ || _); [done|]. unfold mbind at 1, M_bind at 1. rewrite (run_set_publication _ _ _ _ Hi).
  transitivity (view (set_services s (<[i := Some (with_active x (Some (set_published p)))]> (services s))));
    [|by eapply view_set_slot, slot_view_same].
  match goal with |- view (fst (?c _)) = _ => assert (keeps view c) as Hk by (cbv zeta; keeps_all) end. apply Hk.
Qed.
Lemma keeps_lookup e t request : keeps view (lookup e t request).
Proof. unfold lookup. keeps_all. Qed.
Lemma keeps_watch e t request : keeps view (watch e t request).
Proof. unfold watch. keeps_all. Qed.
Lemma keeps_cancel e t target : keeps view (cancel e t target).
Proof. unfold cancel. keeps_all. Qed.
Lemma keeps_enumerate_begin e t : keeps view (enumerate_begin e t).
Proof. unfold enumerate_begin. keeps_all. Qed.
Lemma keeps_enumeration_record ticket i : keeps view (enumeration_record ticket i).
Proof. unfold enumeration_record. keeps_all. Qed.
Lemma keeps_enumeration_complete ticket : keeps view (enumeration_complete ticket).
Proof. unfold enumeration_complete. keeps_all. Qed.
Lemma keeps_complete_transaction e kind t : keeps view (complete_transaction e kind t).
Proof. unfold complete_transaction. keeps_all. Qed.

(** ** Installing and retiring *)

Definition bag (o : option Z) : gmultiset Z := from_option (fun x => {[+ x +]}) ∅ o.

Lemma omap_insert {A} (f : A -> option Z) (l : list A) i x y :
  l !! i = Some x ->
  list_to_set_disj (omap f (<[i := y]> l)) ⊎ bag (f x) =@{gmultiset Z} list_to_set_disj (omap f l) ⊎ bag (f y).
Proof.
  intros Hi. pose proof (take_drop_middle l i x Hi) as Hl. rewrite (insert_take_drop _ _ _ (lookup_lt_Some _ _ _ Hi)).
  rewrite <-Hl at 3. rewrite !omap_app, !list_to_set_disj_app. cbn [omap list_omap].
  destruct (f x), (f y); cbn [list_to_set_disj bag from_option]; multiset_solver.
Qed.

(** One slot or one client changes. *)
Lemma hands_slot s s' i v v' :
  slot_views s !! i = Some v -> slot_views s' = <[i := v']> (slot_views s) -> client_views s' = client_views s ->
  hands s' ⊎ bag (slot_hand v) = hands s ⊎ bag (slot_hand v').
Proof.
  unfold hands. intros Hi -> ->. rewrite !list_to_set_disj_app. pose proof (omap_insert slot_hand _ i v v' Hi). multiset_solver.
Qed.
Lemma hands_client s s' i v v' :
  client_views s !! i = Some v -> client_views s' = <[i := v']> (client_views s) -> slot_views s' = slot_views s ->
  hands s' ⊎ bag (client_hand v) = hands s ⊎ bag (client_hand v').
Proof.
  unfold hands. intros Hi -> ->. rewrite !list_to_set_disj_app. pose proof (omap_insert client_hand _ i v v' Hi). multiset_solver.
Qed.

(** The notifications of a change can be sent. *)
Definition announces (n : WatchNotifications) : Prop :=
  exists L, notes n L /\ Forall (fun x => nonzero (wn_client x) /\ wn_transaction_id x <> 0) L.

Lemma client_nonzero s i c : tidy s -> clients s !! i = Some (Some c) -> nonzero (c_endpoint c).
Proof.
  intros (_ & _ & H) Hi. rewrite Forall_lookup in H. specialize (H i (Some (client_view c))).
  unfold client_views in H. rewrite list_lookup_fmap, Hi in H. by apply H.
Qed.
Lemma publication_listed s i x p :
  tidy s -> services s !! i = Some (Some x) -> active x = Some p -> listable (slot_view x).
Proof.
  intros (_ & H & _) Hi Hp. rewrite Forall_lookup in H. specialize (H i (Some (slot_view x))).
  unfold slot_views in H. rewrite list_lookup_fmap, Hi in H. by apply H.
Qed.

Lemma matched_sendable s protocol name g :
  wf s -> tidy s -> Forall (fun x => nonzero (wn_client x) /\ wn_transaction_id x <> 0) (matched protocol name g (watches s)).
Proof.
  intros [Hw _] Ht. apply Forall_forall. intros n Hn. unfold matched in Hn.
  apply list_elem_of_fmap in Hn as (w & -> & Hin). simpl.
  apply list_elem_of_filter in Hin as [_ (j & Hj)%elem_of_flatten_lookup].
  destruct (wf_watches _ Hw) as (_ & Hww & _). destruct (Hww j w Hj) as (_ & _ & i & c & Hi & He & _ & Hlive).
  split; [rewrite <-He; by eapply client_nonzero|]. destruct (proj2 (wf_clients _ Hw) i c Hi) as (_ & _ & _ & _ & Hnz & _).
  rewrite Forall_forall in Hnz. by apply Hnz.
Qed.

Lemma slot_views_set s i x x' :
  services s !! i = Some (Some x) -> slot_views (set_services s (<[i := Some x']> (services s))) = <[i := Some (slot_view x')]> (slot_views s).
Proof. intros. unfold slot_views. simpl. by rewrite list_fmap_insert. Qed.

(** What [notify] leaves alone is all the view shows. *)
Lemma retired_effect s i x p s' :
  wf s -> tidy s -> services s !! i = Some (Some x) -> active x = Some p ->
  view s' = view (set_services s (<[i := Some (with_active x None)]> (services s))) ->
  tidy s' /\ hands s = {[+ p_handle p +]} ⊎ hands s'.
Proof.
  intros Hw (Hg & HS & HC) Hi Hp Hv. split.
  - apply (tidy_same _ _ Hv). split; [done|split; [|done]]. rewrite (slot_views_set _ _ x) by done. apply Forall_insert; [done|].
    intros q Hq. done.
  - rewrite (hands_same _ _ Hv).
    pose proof (hands_slot s (set_services s (<[i := Some (with_active x None)]> (services s))) i (Some (slot_view x))
      (Some (slot_view (with_active x None)))) as H.
    assert (slot_views s !! i = Some (Some (slot_view x))) as Hs by (unfold slot_views; by rewrite list_lookup_fmap, Hi).
    specialize (H Hs (slot_views_set _ _ _ _ Hi) eq_refl). simpl in H. rewrite Hp in H. simpl in H. multiset_solver.
Qed.

Lemma peer_closed_effect s e :
  wf s -> tidy s ->
  match peer_closed e s with
  | (s', Ok o) => wf s' /\ tidy s' /\ hands s = {[+ pc_handle o +]} ⊎ hands s' /\ announces (pc_notifications o)
  | (s', Err _) => s' = s
  | (_, Panic) => False
  end.
Proof.
  intros Hw Ht. pose proof (peer_closed_good s e Hw) as [Hw' Hnp]. unfold peer_closed, mbind, M_bind, reads in *.
  destruct (publication_index e s) as [i|err|] eqn:Hpi; [|clear err Hpi|by destruct (publication_index_not_panic e s)].
  - destruct (publication_index_Ok_1 _ _ _ Hpi) as (x & p & Hi & Hp & _).
    rewrite (run_publication_at _ _ _ _ Hi Hp), (run_set_publication _ _ _ _ Hi) in *.
    rewrite (run_slot_at _ i (with_active x None)) in * by by apply (lookup_insert_slot s i x).
    destruct (unpublish_run s i x p Hw Hi Hp) as (s' & n & Hn & _ & _ & _ & HN & _).
    pose proof (keeps_notify (protocol_id p) (slot_name x) 0 (set_services s (<[i := Some (with_active x None)]> (services s)))) as Hk.
    change (slot_name (with_active x None)) with (slot_name x) in *. rewrite Hn in *. simpl in *.
    destruct (retired_effect s i x p s' Hw Ht Hi Hp Hk). split_conj; try done. eexists. split; [done|]. by apply matched_sendable.
  - destruct (client_index e s) as [i| |] eqn:Hci; [|done|by destruct (client_index_not_panic e s)].
    destruct (client_index_Ok_1 _ _ _ Hci) as (c & Hi & He). rewrite (run_client_at _ _ _ Hi) in *. simpl in *. destruct Ht as (Hg & HS & HC).
    assert (client_views s !! i = Some (Some (client_view c))) as Hv by (unfold client_views; by rewrite list_lookup_fmap, Hi).
    match goal with |- wf ?s' /\ _ => set (s2 := s') in * end.
    assert (client_views s2 = <[i := None]> (client_views s)) as Hv2 by (unfold client_views; simpl; by rewrite list_fmap_insert).
    split; [done|split; [split; [done|split; [done|]]|split]].
    + rewrite Hv2. by apply Forall_insert.
    + pose proof (hands_client s s2 i _ None Hv Hv2 eq_refl) as H. simpl in H. multiset_solver.
    + exists []. split; [apply notes_new|done].
Qed.

Lemma retire_effect s e t :
  wf s -> tidy s ->
  match retire e t s with
  | (s', Ok o) => wf s' /\ tidy s' /\ hands s = {[+ ro_registry_handle o +]} ⊎ hands s' /\ announces (ro_notifications o)
  | (s', Err _) => wf s' /\ view s' = view s
  | (_, Panic) => False
  end.
Proof.
  intros Hw Ht. pose proof (retire_good s e t Hw) as [Hw' Hnp]. unfold retire, mbind, M_bind, reads in *.
  destruct (publication_index e s) as [i|err|] eqn:Hpi; [|done|by destruct (publication_index_not_panic e s)].
  destruct (publication_index_Ok_1 _ _ _ Hpi) as (x & p & Hi & Hp & _).
  destruct (run_answer_publication s i x p t Hw Hi Hp)
    as [(err & _ & Hr)|(p1 & p2 & H1 & Hph1 & Hs2 & Hph2 & Hr2 & Hr & Hc)]; [by rewrite Hr in *|].
  rewrite Hr, Hc in *. pose proof (wf_set_publication _ _ _ _ _ Hw Hi Hp Hs2 Hr2 Hph2) as Hw2.
  pose proof (lookup_insert_slot s i x (with_active x (Some p2)) Hi) as Hi2.
  assert (view (set_services s (<[i := Some (with_active x (Some p2))]> (services s))) = view s) as Hv2.
  { eapply view_set_slot, slot_view_same; [done..|]. destruct Hs2 as (? & ? & ? & ? & ? & ? & _). unfold publication_view. congruence. }
  rewrite (run_publication_at _ i (with_active x (Some p2)) p2 Hi2) in * by done.
  rewrite (run_set_publication _ i (with_active x (Some p2)) None Hi2) in *.
  rewrite (run_slot_at _ i (with_active (with_active x (Some p2)) None)) in * by by apply (lookup_insert_slot _ i (with_active x (Some p2))).
  destruct (unpublish_run _ i _ p2 Hw2 Hi2 eq_refl) as (s' & n & Hn & _ & _ & _ & HN & _).
  match type of Hn with notify ?a ?b ?c ?d = _ => pose proof (keeps_notify a b c d) as Hk end.
  change (slot_name (with_active (with_active x (Some p2)) None)) with (slot_name (with_active x (Some p2))) in *.
  rewrite Hn in *. simpl fst in *. simpl snd in *.
  destruct (retired_effect _ i _ p2 s' Hw2 (tidy_same _ _ Hv2 Ht) Hi2 eq_refl Hk) as [Ht' Hh]. rewrite (hands_same _ _ Hv2) in Hh.
  split; [done|split; [done|split; [exact Hh|]]]. eexists. split; [exact HN|]. apply (matched_sendable _ _ _ _ Hw2).
  by eapply tidy_same.
Qed.

(** The version table of a datagram, copied into the array of a publication. *)
Lemma copy_versions_bytes k vs1 vs2 :
  Forall version_u16 vs2 -> len (vs1 ++ vs2) < 2 ^ 60 -> (length vs2 <= k)%nat ->
  copy_versions (replicate k default_version) (mkVersionList (versions_bytes (vs1 ++ vs2))) (len vs1) =
    Ok (vs2 ++ replicate (k - length vs2) default_version).
Proof.
  revert k vs1. induction vs2 as [|v vs2 IH]; intros k vs1 Hok Hlen Hk.
  - rewrite Nat.sub_0_r. destruct k; [done|]. cbn [replicate copy_versions]. unfold version_list_len. cbn [vl_bytes].
    rewrite length_versions_bytes, app_nil_r, Z.mul_comm, Z.div_mul, Z.ltb_irrefl by lia. done.
  - destruct k as [|k]; [simpl in Hk; lia|]. cbn [replicate copy_versions]. apply Forall_cons in Hok as [Hv Hok].
    unfold version_list_len at 1. cbn [vl_bytes]. rewrite length_versions_bytes, Z.mul_comm, Z.div_mul by lia.
    rewrite (proj2 (Z.ltb_lt _ _)) by (rewrite length_app; simpl; lia). rewrite version_list_get_bytes by done. cbn [or_panic res_bind].
    assert (vs1 ++ v :: vs2 = (vs1 ++ [v]) ++ vs2) as Happ by by rewrite <-app_assoc.
    replace (len vs1 + 1) with (len (vs1 ++ [v])) by (rewrite length_app; simpl; lia).
    rewrite Happ in Hlen |- *. rewrite IH by (done || (simpl in Hk; lia)). done.
Qed.

Lemma install_versions v vs :
  body_valid (MInstallPublication v) -> body_types (MInstallPublication v) ->
  copy_versions (replicate (Z.to_nat MAX_PROTOCOL_VERSIONS) default_version) (ip_versions v) 0 = Ok vs ->
  exists ds, get_range vs 0 (version_list_len (ip_versions v) mod 2 ^ 8) = Some ds /\ validate_versions ds = Ok tt.
Proof.
  intros (_ & _ & _ & _ & _ & _ & Hval & _ & n & Hn & Hl) Ht Hc.
  assert (bytes_ok (vl_bytes (ip_versions v))) as Hb by (destruct Ht; tauto).
  destruct (bytes_decode_versions (Z.to_nat n) (vl_bytes (ip_versions v)) Hb ltac:(lia)) as (E1 & E2 & E3).
  destruct (ip_versions v) as [bs]. cbn [vl_bytes] in *. set (ds := decode_versions bs) in *. rewrite <-E1 in Hval, Hc |- *.
  rewrite (validate_version_list_bytes ds) in Hval by (done || lia).
  pose proof (copy_versions_bytes 4 [] ds E2 ltac:(simpl; lia) ltac:(lia)) as Hcopy. simpl app in Hcopy.
  change (Z.to_nat MAX_PROTOCOL_VERSIONS) with 4%nat in Hc. change (len (@nil ProtocolVersion)) with 0 in Hcopy.
  rewrite Hcopy in Hc. injection Hc as <-.
  exists ds. unfold version_list_len. cbn [vl_bytes]. rewrite length_versions_bytes, Z.mul_comm, Z.div_mul, Z.mod_small by lia.
  split; [|unfold validate_versions, MAX_PROTOCOL_VERSIONS; rewrite bool_decide_eq_false_2, gtb_false by (lia || (intros ->; simpl in *; lia)); done].
  apply get_range_Some. rewrite length_app. split_conj; [lia|lia|lia|]. by rewrite Z.sub_0_r, Nat2Z.id, drop_0, take_app_length.
Qed.

Lemma install_publication_effect s g h v :
  wf s -> tidy s -> body_valid (MInstallPublication v) -> body_types (MInstallPublication v) ->
  match install_publication g h v s with
  | (s', Ok _) => wf s' /\ tidy s' /\ hands s' = {[+ h +]} ⊎ hands s
  | (s', Err _) => s' = s
  | (_, Panic) => False
  end.
Proof.
  intros Hw (Hg & HS & HC) Hv Ht. pose proof Hv as (Hi & Hig & _ & _ & Hsg & Hpr & _ & Hname & n & Hn & Hl).
  assert (install_ok v) as Hok.
  { split; [pose proof (name_valid_len _ Hname); lia|]. unfold version_list_len. rewrite Hl, Z.mul_comm, Z.div_mul by lia. lia. }
  pose proof (install_publication_good s g h v Hw Hok) as [Hw' _].
  destruct (install_publication_run s g h v Hw Hok)
    as [(err & Hrun)|(i & name & vs & Hrun & _ & _ & _ & Hslot & Hnm & _ & _ & (_ & Hvs) & _)]; rewrite Hrun in *; [done|].
  split; [done|]. set (x := installed_slot v h name vs) in *.
  destruct (free_or_matching_slot_Ok _ _ _ (wf_services _ (proj1 Hw)) Hslot) as (Hlt & _ & Hold).
  assert (slot_views (with_publication s i x v) = <[i := Some (slot_view x)]> (slot_views s)) as Hsv
    by (unfold slot_views; simpl; by rewrite list_fmap_insert).
  destruct (lookup_lt_is_Some_2 _ _ Hlt) as [o Ho].
  assert (slot_views s !! i = Some (slot_view <$> o)) as Hoi by (unfold slot_views; by rewrite list_lookup_fmap, Ho).
  assert (slot_hand (slot_view <$> o) = None) as Hnone.
  { destruct o as [y|]; [|done]. destruct (Hold y Ho) as (_ & Ha & _). simpl. by rewrite Ha. }
  split.
  - split; [done|split; [|done]]. rewrite Hsv. apply Forall_insert; [done|]. intros q [= <-]. split_conj; try done.
    + simpl. by rewrite Hnm.
    + by apply install_versions.
  - pose proof (hands_slot s (with_publication s i x v) i _ (Some (slot_view x)) Hoi Hsv eq_refl) as H. rewrite Hnone in H.
    simpl in H. multiset_solver.
Qed.

Lemma install_client_effect s g h v :
  wf s -> tidy s -> body_valid (MInstallClient v) ->
  match install_client g h v s with
  | (s', Ok _) => wf s' /\ tidy s' /\ hands s' = {[+ h +]} ⊎ hands s
  | (s', Err _) => s' = s
  | (_, Panic) => False
  end.
Proof.
  intros Hw (Hg & HS & HC) (Hi & Hig & _). pose proof (install_client_good s g h v Hw) as [Hw' _].
  destruct (install_client_run s g h v Hw) as [(err & Hrun)|(i & Hrun & _ & _ & _ & Hfree & _)]; rewrite Hrun in *; [done|].
  split; [done|].
  assert (client_views (with_client s i h v) = <[i := Some (client_view (installed_client v h))]> (client_views s)) as Hcv
    by (unfold client_views; simpl; by rewrite list_fmap_insert).
  assert (client_views s !! i = Some None) as Hoi by (unfold client_views; by rewrite list_lookup_fmap, Hfree).
  split.
  - split; [done|split; [done|]]. rewrite Hcv. by apply Forall_insert.
  - pose proof (hands_client s (with_client s i h v) i _ _ Hoi Hcv eq_refl) as H. simpl in H. multiset_solver.
Qed.

Lemma registry_new_effect g s : registry_new g = Ok s -> wf s /\ tidy s /\ hands s = ∅.
Proof.
  intros H. split; [by eapply registry_new_wf|]. unfold registry_new in H. destruct (Z.eqb_spec g 0); [done|]. injection H as <-.
  split; [|by vm_compute]. split; [done|]. split; by repeat constructor.
Qed.

(** The registry has room for no more endpoints than the service has. *)
Lemma omap_length {A B} (f : A -> option B) l : (length (omap f l) <= length l)%nat.
Proof. induction l as [|x l IH]; csimpl; [lia|]. destruct (f x); csimpl; lia. Qed.

Lemma size_bag_list (l : list Z) : size (list_to_set_disj l : gmultiset Z) = length l.
Proof.
  induction l as [|x l IH]; [apply gmultiset_size_empty|]. cbn [list_to_set_disj length].
  by rewrite gmultiset_size_disj_union, gmultiset_size_singleton, IH.
Qed.

Lemma hands_size s : wf s -> (size (hands s) <= 64)%nat.
Proof.
  intros [Hw _]. unfold hands. rewrite size_bag_list, length_app.
  pose proof (omap_length slot_hand (slot_views s)). pose proof (omap_length client_hand (client_views s)).
  unfold slot_views, client_views in *. rewrite !length_fmap in *. destruct (wf_services _ Hw) as (? & _), (wf_clients _ Hw) as (? & _). lia.
Qed.

(** ** Every answer can be encoded *)

(** Any header the protocol allows, and room for the datagram. *)
Lemma encode_header_fits h handles size out :
  header_valid h -> 64 <= size <= len out -> size < 2 ^ 32 -> 0 <= handles < 2 ^ 32 ->
  exists out', encode_header h handles size out = Ok out' /\ length out' = length out.
Proof.
  intros (Hg & Ht & Hs) Hsize H32 Hh. unfold encode_header, HEADER_BYTES.
  replace (negb (Bool.eqb _ _)) with false; cycle 1.
  { destruct (is_supervisor_type _); destruct Hs; by bool_cases. }
  bool_cases; try done.
  destruct (fill_zero out size) as [out0|] eqn:Hfill; cycle 1.
  { exfalso. apply eq_None_not_Some in Hfill. apply Hfill, put_range_is_Some. buf_lia. }
  apply fill_zero_Some in Hfill as (_ & Hlen & Hz); [|lia].
  cbn [or_panic res_bind]. unfold try_from_unsigned, MAGIC, MAJOR, MINOR.
  do 4 proto_write. bool_cases; try done. do 6 proto_write. eexists. split; [reflexivity|]. congruence.
Qed.

(** A datagram: the bytes an encoder returns. *)
Definition encodes (r : res Error (Z * list Z)) : Prop := exists n out, r = Ok (n, out) /\ 0 <= n <= len out.

Lemma encodes_empty h out :
  header_valid h -> match message_type h with MtPublish | MtPublished | MtRetire | MtRetired | MtConnected | MtEnumerate => True | _ => False end ->
  len out = 64 -> encodes (encode_empty h out).
Proof.
  intros Hv Ht Hl. unfold encode_empty, HEADER_BYTES. replace (negb _) with false by by destruct (message_type h).
  destruct (encode_header_fits h 0 64 out) as (out' & -> & Hl'); [done|lia|lia|lia|]. exists 64, out'. split; [done|]. lia.
Qed.
Lemma encodes_generation_changed h n out :
  header_valid h -> message_type h = MtGenerationChanged -> len out = 72 -> encodes (encode_generation_changed h n out).
Proof.
  intros Hv Ht Hl. unfold encode_generation_changed. bool_cases.
  destruct (encode_header_fits h 0 72 out) as (out1 & -> & Hl'); [done|lia|lia|lia|]. cbn [res_bind]. proto_write.
  eexists 72, _. split; [reflexivity|]. lia.
Qed.
Lemma encodes_cancel h n out :
  header_valid h -> message_type h = MtCancelled -> n <> 0 -> len out = 72 -> encodes (encode_cancel h n out).
Proof.
  intros Hv Ht Hn Hl. unfold encode_cancel. replace (negb _) with false by by rewrite Ht. bool_cases.
  destruct (encode_header_fits h 0 72 out) as (out1 & -> & Hl'); [done|lia|lia|lia|]. cbn [res_bind]. proto_write.
  eexists 72, _. split; [reflexivity|]. lia.
Qed.
Lemma encodes_error h c out : header_valid h -> message_type h = MtError -> len out = 72 -> encodes (encode_error h c out).
Proof.
  intros Hv Ht Hl. unfold encode_error. bool_cases.
  destruct (encode_header_fits h 0 72 out) as (out1 & -> & Hl'); [done|lia|lia|lia|]. cbn [res_bind]. proto_write.
  eexists 72, _. split; [reflexivity|]. lia.
Qed.
Lemma encodes_offer h v out :
  header_valid h -> message_type h = MtConnectOffer -> body_valid (MLookupConnect v) -> len out = 416 -> encodes (encode_lookup h v out).
Proof.
  intros Hv Ht [Hp Hn] Hl. pose proof (name_valid_len _ Hn). unfold encode_lookup. replace (negb _) with false by by rewrite Ht.
  bool_cases. rewrite Hn. simpl. rewrite checked_add_u64_ok by lia. simpl.
  destruct (encode_header_fits h 1 (80 + len (lk_service_name v)) out) as (out1 & -> & Hl'); [done|lia|lia|lia|]. cbn [res_bind].
  do 5 proto_write. eexists _, _. split; [reflexivity|]. lia.
Qed.

(** ** A page of an enumeration *)

Definition record_ok (r : ServiceListRecord) : Prop :=
  sr_protocol_id r <> 0 /\ sr_service_generation r <> 0 /\ name_valid (sr_service_name r) /\
  exists vs, get_range (sr_versions r) 0 (sr_version_count r) = Some vs /\ validate_versions vs = Ok tt.

(** Records in the order of their names, the first after [previous]. *)
Fixpoint records_sorted (previous : option (list Z)) (records : list ServiceListRecord) : Prop :=
  match records with
  | [] => True
  | r :: records => match previous with Some name => bytes_lt name (sr_service_name r) | None => True end /\ record_ok r /\
      records_sorted (Some (sr_service_name r)) records
  end.

Lemma put_records_fits records : forall out index previous,
  records_sorted previous records -> 0 <= index -> 80 + (index + len records) * 168 <= len out -> len out < 2 ^ 63 ->
  exists out', put_records out records index previous = Ok out' /\ length out' = length out.
Proof.
  induction records as [|r records IH]; intros out index previous Hs Hi Hfit Hmax; [by exists out|].
  destruct Hs as (Hprev & (Hp & Hg & Hn & vs & Hvs & Hval) & Hs). cbn [put_records]. bool_cases; try done. cbn [orb].
  rewrite Hn. cbn [res_bind]. rewrite Hvs. cbn [ok_or res_bind]. rewrite Hval. cbn [res_bind].
  replace (match previous with Some name => bytes_geb name (sr_service_name r) | None => false end) with false; cycle 1.
  { destruct previous as [name|]; [|done]. symmetry. unfold bytes_geb. apply negb_false_iff. by apply bytes_ltb_lt. }
  pose proof (name_valid_len _ Hn) as Hnl. apply get_range_Some in Hvs as (_ & Hc & _ & ->). rewrite Z.sub_0_r, drop_0 in Hval.
  assert (len (take (Z.to_nat (sr_version_count r)) (sr_versions r)) <= 4) as H4.
  { unfold validate_versions, MAX_PROTOCOL_VERSIONS in Hval. destruct (Z.gtb_spec (len (take (Z.to_nat (sr_version_count r)) (sr_versions r))) 4);
      [|done]. by rewrite orb_true_r in Hval. }
  unfold SERVICE_LIST_PREFIX_BYTES, SERVICE_LIST_RECORD_BYTES in *. cbn [length] in Hfit.
  pose proof (length_versions_bytes (take (Z.to_nat (sr_version_count r)) (sr_versions r))).
  do 4 proto_write. rewrite put_versions_spec by lia. proto_write. proto_write.
  destruct (IH out5 (index + 1) (Some (sr_service_name r))) as (out' & -> & Hl'); [done|lia|lia|lia|]. exists out'. split; [done|]. lia.
Qed.

(** The records of page [page] of the listed services. *)
Definition page_of (L : list ServiceListRecord) (page : nat) : list ServiceListRecord := take 2 (drop (page * 2) L).

Lemma sorted_drop previous L k : records_sorted previous L -> exists previous', records_sorted previous' (drop k L).
Proof.
  revert previous L. induction k as [|k IH]; intros previous L H; [by exists previous|]. destruct L as [|r L]; [by exists None|].
  destruct H as (_ & _ & H). by apply (IH _ L H).
Qed.
Lemma sorted_take previous L k : records_sorted previous L -> records_sorted previous (take k L).
Proof.
  revert previous L. induction k as [|k IH]; intros previous L H; [done|]. destruct L as [|r L]; [done|].
  destruct H as (? & ? & H). split; [done|]. split; [done|]. by apply IH.
Qed.
Lemma sorted_none previous L : records_sorted previous L -> records_sorted None L.
Proof. destruct L; [done|]. by intros (_ & ? & ?). Qed.

Definition pages (total : Z) : Z := if total =? 0 then 1 else div_ceil2 total.

Lemma page_shape_ok total page n :
  0 <= total <= 32 -> 0 <= page < pages total -> n = Z.min 2 (total - 2 * page) `max` 0 ->
  validate_page_shape false page (pages total) total n = Ok tt.
Proof.
  intros Ht Hp Hn. unfold validate_page_shape, pages in *. destruct (Z.eqb_spec total 0) as [->|Hz].
  - cbn [res_bind]. bool_cases. done.
  - assert (total = 2 * (total / 2) + total mod 2 /\ 0 <= total mod 2 < 2) as [Hd Hm]
      by (pose proof (Z.div_mod total 2); pose proof (Z.mod_pos_bound total 2); lia).
    unfold div_ceil2 in *. set (q := total / 2) in *. set (r := total mod 2) in *.
    unfold add_unsigned, sub_unsigned. rewrite (proj2 (Z.ltb_lt _ _)) by lia. cbn [res_bind].
    destruct (Z.ltb_spec (page + 1) (q + r)); cbn [res_bind].
    + bool_cases. done.
    + rewrite (proj2 (Z.leb_le 1 (q + r))) by lia || rewrite (proj2 (Z.leb_le _ _)) by lia. cbn [res_bind].
      rewrite (proj2 (Z.ltb_lt _ _)) by lia. cbn [res_bind]. rewrite (proj2 (Z.leb_le _ _)) by lia. cbn [res_bind]. bool_cases. done.
Qed.

Lemma encodes_page h L page out :
  header_valid h -> message_type h = MtServiceList -> records_sorted None L -> len L <= 32 -> Z.of_nat page < pages (len L) ->
  len out = 416 -> encodes (encode_service_list false h (Z.of_nat page) (pages (len L)) (len L) (page_of L page) out).
Proof.
  intros Hv Ht Hs HL Hp Hl. unfold encode_service_list, MAX_SERVICE_LIST_RECORDS, MAX_SERVICE_LIST_PAGES, MAX_SERVICES,
    SERVICE_LIST_PREFIX_BYTES, SERVICE_LIST_RECORD_BYTES.
  assert (len (page_of L page) = Z.min 2 (len L - 2 * Z.of_nat page) `max` 0) as Hn
    by (unfold page_of; rewrite length_take, length_drop; lia).
  assert (1 <= pages (len L) <= 16) as Hpages.
  { unfold pages. destruct (Z.eqb_spec (len L) 0); [lia|]. pose proof (div_ceil2_bound (len L) ltac:(lia)). unfold div_ceil2 in *.
    pose proof (Z.div_mod (len L) 2). pose proof (Z.mod_pos_bound (len L) 2). lia. }
  rewrite bool_decide_eq_false_2 by (intros H; by apply H). bool_cases; try done. cbn [orb].
  rewrite page_shape_ok by (done || lia). cbn [res_bind].
  destruct (encode_header_fits h 0 (80 + len (page_of L page) * 168) out) as (out1 & -> & Hl1); [done|lia|lia|lia|]. cbn [res_bind].
  do 4 proto_write. destruct (sorted_drop _ _ (page * 2) Hs) as (previous & Hd).
  destruct (put_records_fits (page_of L page) out4 0 None) as (out6 & -> & Hl6); [by eapply sorted_none, sorted_take|lia|lia|lia|].
  cbn [res_bind]. eexists _, _. split; [reflexivity|]. lia.
Qed.

(** What a page shows of a published slot. *)
Definition entry_of (x : ServiceSlot) : option ServiceListRecord := Service.record <$> metadata x.

Lemma entry_ok s x :
  tidy s -> x ∈ filter (fun x => is_published x = true) (flatten (services s)) ->
  exists r, entry_of x = Some r /\ record_ok r /\ sr_service_name r = slot_name x.
Proof.
  intros Ht [Hp (i & Hi)%elem_of_flatten_lookup]%list_elem_of_filter. unfold is_published in Hp. apply bool_decide_eq_true_1 in Hp.
  destruct Hp as [m Hm]. unfold entry_of. rewrite Hm. eexists. split; [done|]. unfold metadata in Hm.
  destruct (active x) as [p|] eqn:Ha; [|done]. case_bool_decide; [done|]. injection Hm as <-.
  destruct (publication_listed s i x p Ht Hi Ha (publication_view p)) as (_ & Hg & Hpr & Hn & Hv); [simpl; by rewrite Ha|].
  split; [|done]. split_conj; done.
Qed.

Lemma sorted_entries s L :
  tidy s -> StronglySorted name_lt L -> (forall x, x ∈ L -> x ∈ filter (fun x => is_published x = true) (flatten (services s))) ->
  exists R, mapM entry_of L = Some R /\ records_sorted None R /\ length R = length L /\
    Forall2 (fun x r => entry_of x = Some r /\ sr_service_name r = slot_name x) L R.
Proof.
  intros Ht Hs. induction Hs as [|x L Hs IH Hx]; intros Hin; [exists []; by split_conj|].
  destruct IH as (R & HM & HR & Hl & H2); [intros y Hy; apply Hin; by right|].
  destruct (entry_ok s x Ht) as (r & Hr & Hok & Hname); [apply Hin; by left|].
  exists (r :: R). cbn [mapM]. rewrite Hr. cbn. rewrite HM. split_conj; [done|done|done| |simpl; lia|by constructor].
  destruct H2 as [|y r' L R' [_ Hn'] H2]; [done|]. destruct HR as (_ & ? & ?). split; [|done].
  rewrite Hname, Hn'. by apply Forall_cons in Hx as [? _].
Qed.

(** The records the service lists, in the order of their names. *)
Lemma listing s :
  wf s -> tidy s ->
  exists R, records_sorted None R /\ length R = published_count s /\
    forall k, Service.record <$> (match nth_canonical (services s) k with Some x => metadata x | None => None end) = R !! k.
Proof.
  intros Hw Ht. destruct (canonical_listing s Hw) as (L & HP & Hs & Hl & Hn).
  destruct (sorted_entries s L Ht Hs) as (R & _ & HR & HlR & H2); [intros x; by rewrite HP|].
  exists R. split_conj; [done|congruence|]. intros k. rewrite Hn. destruct (L !! k) as [x|] eqn:Hk.
  - destruct (Forall2_lookup_l _ _ _ _ _ H2 Hk) as (r & -> & Hr & _). exact Hr.
  - symmetry. apply lookup_ge_None. apply lookup_ge_None in Hk. lia.
Qed.

Lemma page_entries (R : list ServiceListRecord) page (first second : option ServiceListRecord) :
  first = R !! (page * 2)%nat -> second = R !! (page * 2 + 1)%nat ->
  match first, second with
  | None, None => page_of R page = []
  | Some a, None => page_of R page = [a]
  | Some a, Some b => page_of R page = [a; b]
  | None, Some _ => False
  end.
Proof.
  intros H1 H2. unfold page_of. assert (R !! (page * 2)%nat = drop (page * 2) R !! 0%nat) as E1 by (rewrite lookup_drop; f_equal; lia).
  rewrite E1 in H1. assert (R !! (page * 2 + 1)%nat = drop (page * 2) R !! 1%nat) as E2 by (rewrite lookup_drop; f_equal; lia). rewrite E2 in H2.
  destruct (drop (page * 2) R) as [|a [|b D]]; simpl in *; subst; done.
Qed.

(** ** Requests that take two calls *)

(** A publication that was prepared can be committed. *)
Lemma prepare_then_commit s e t s1 ticket :
  wf s -> tidy s -> prepare_publish e t s = (s1, Ok ticket) ->
  wf s1 /\ exists s2 o, commit_publish ticket s1 = (s2, Ok o) /\ wf s2 /\ announces (po_notifications o).
Proof.
  intros Hw Ht H. pose proof (prepare_publish_good s e t Hw) as [Hw1 _]. pose proof (keeps_prepare e t s) as Hv. rewrite H in Hw1, Hv.
  simpl in Hw1, Hv. split; [done|]. unfold prepare_publish, mbind, M_bind, reads in H.
  destruct (publication_index e s) as [i|err|] eqn:Hpi; [|done..].
  destruct (publication_index_Ok_1 _ _ _ Hpi) as (x & p & Hi & Hp & He).
  destruct (run_answer_publication s i x p t Hw Hi Hp) as [(err & _ & Hr)|(p1 & p2 & H1 & Hph1 & Hs2 & Hph2 & Hr2 & Hr & Hc)];
    rewrite Hr in H; [done|].
  rewrite (run_publication_at _ i (with_active x (Some p1)) p1) in H by (done || by apply (lookup_insert_slot s i x)).
  destruct (bool_decide_reflect (phase p1 <> Installed)) as [|Hph]; [by rewrite Hc in H|]. injection H as <- <-.
  destruct (publication_reserve_Ok _ _ _ H1) as (Hs1 & _ & Hl1 & _).
  pose proof (lookup_insert_slot s i x (with_active x (Some p1)) Hi) as Hi1.
  destruct (commit_publish_run _ (mkPublishTicket e t) i (with_active x (Some p1)) p1 Hw1) as (s2 & n & p' & Hrun & Hw2 & _ & _ & _ & _ & HN & _);
    [|done|done|done|by destruct (phase p1); [|destruct Hph]|].
  { eapply publication_index_Ok_2; [apply Hw1|done|done|]. destruct Hs1 as (-> & _). done. }
  eexists s2, _. split; [done|]. split; [done|]. eexists. split; [exact HN|]. apply (matched_sendable _ _ _ _ Hw1). by eapply tidy_same.
Qed.

Lemma lookup_offer s e t request s1 o :
  wf s -> tidy s -> lookup e t request s = (s1, Ok o) -> nonzero (fo_publication o).
Proof.
  intros Hw Ht H. unfold lookup, mbind, M_bind, reads in H. destruct (client_index e s) as [i|err|] eqn:Hci; [|done..].
  destruct (client_index_Ok_1 _ _ _ Hci) as (c & Hi & He).
  destruct (run_answer s i c t Hw Hi) as [(err & _ & Hr)|(c1 & c2 & Ha & _ & Hr & Hc)]; rewrite Hr in H; [done|]. rewrite Hc in H.
  injection H as _ H. unfold lookup_result in H. apply res_bind_Ok in H as (p & Hp & H). apply ok_or_Ok in Hp.
  destruct (supports _ _); [|done]. injection H as <-. simpl.
  apply lookup_publication_spec in Hp as (j & x & Hj & Hx & _); [|apply (wf_services _ (proj1 Hw))]. simpl in Hj.
  by destruct (publication_listed s j x p Ht Hj Hx (publication_view p)) as (? & _); [simpl; by rewrite Hx|].
Qed.

(** An enumeration that began stays open: its records are those of the listing,
    and it can be completed. *)
Lemma enumeration_open s e t s1 ticket :
  wf s -> enumerate_begin e t s = (s1, Ok ticket) ->
  wf s1 /\ et_total_count ticket = Z.of_nat (published_count s1) /\ et_page_count ticket = pages (et_total_count ticket) /\
  (forall k, enumeration_record ticket k s1 = (s1, Ok (match nth_canonical (services s1) k with Some x => metadata x | None => None end))) /\
  exists s2, enumeration_complete ticket s1 = (s2, Ok tt) /\ wf s2.
Proof.
  intros Hw H. pose proof (enumerate_begin_good s e t Hw) as [Hw1 _]. rewrite H in Hw1. simpl in Hw1. split; [done|].
  unfold enumerate_begin, mbind, M_bind, reads in H. destruct (client_index e s) as [i|err|] eqn:Hci; [|done..].
  destruct (client_index_Ok_1 _ _ _ Hci) as (c & Hi & He). rewrite (run_client_at _ _ _ Hi) in H.
  destruct (run_answer s i c t Hw Hi) as [(err & _ & Hr)|(c1 & c2 & Ha & H1 & Hr & Hc)]; [by destruct (bool_decide _); rewrite Hr in H|].
  destruct (bool_decide _); [by rewrite Hr, Hc in H|]. rewrite Hr in H.
  destruct (_ <=? MAX_SERVICE_LIST_PAGES); [|done]. injection H as <- <-. simpl et_total_count. simpl et_page_count.
  set (s1 := set_clients s (<[i := Some c1]> (clients s))) in *.
  pose proof (published_count_bound _ (wf_services _ (proj1 Hw1))) as Hb. change (published_count s) with (published_count s1).
  rewrite Z.mod_small by lia. split; [done|]. split; [done|].
  pose proof (lookup_insert_client s i c c1 Hi) as Hi1. fold s1 in Hi1.
  destruct (reserve_Ok c t c1 (client_at_wf _ _ _ Hw Hi) H1) as (_ & (Hse & _) & Hl1 & _).
  assert (c_endpoint c1 = e) as He1 by congruence.
  assert (t ∈ client_live c1) as Hlive by (rewrite Hl1; apply elem_of_app; right; by apply list_elem_of_singleton).
  pose proof (client_index_Ok_2 e s1 i c1 (wf_ids _ (proj1 Hw1)) Hi1 He1) as Hci1.
  split.
  - intros k. unfold enumeration_record, mbind, M_bind, reads. simpl et_client. rewrite Hci1, (run_client_at _ _ _ Hi1). simpl et_transaction.
    by rewrite (proj2 (contains_true _ _) Hlive).
  - assert (unwatched s1 e t) as Hu.
    { intros j w Hj Hwe. rewrite <-He in Hwe. by eapply (reserved_unwatched s i c t c1 Hw Hi H1). }
    match goal with |- exists s2, enumeration_complete ?tk s1 = _ /\ _ => set (ticket := tk) end.
    pose proof (enumeration_complete_good s1 ticket Hw1 Hu) as [Hw2 _].
    destruct (complete_live c1 t (client_at_wf _ _ _ Hw1 Hi1) Hlive) as (c' & Hc' & _).
    assert (enumeration_complete ticket s1 = (set_clients s1 (<[i := Some c']> (clients s1)), Ok tt)) as Hrun.
    { unfold enumeration_complete, mbind, M_bind, reads. simpl et_client. simpl et_transaction.
      rewrite Hci1, (run_client_at _ _ _ Hi1), (proj2 (contains_true _ _) Hlive). simpl negb. cbv iota.
      exact (run_client_complete _ _ _ _ _ Hi1 Hc'). }
    rewrite Hrun in Hw2 |- *. eexists. split; [reflexivity|exact Hw2].
Qed.
