(* ===== verification/ServiceThms.v ===== *)
(** * The registry service neither panics nor loses a handle

    The theorems hold for every transport.  A ledger is kept beside it: the
    handles the process holds, from what it receives, moves and closes. *)

From stdpp Require Import base tactics option list list_numbers gmultiset.
From Stdlib Require Import ZArith Lia.
From S2P Require Import Prelude StateM Bytes Utf8 RegistryProto RegistryWire RegistryCodec Registry RegistryReplay RegistryInv RegistryOps RegistryThms Service ServiceInv.
Import RegistryProto Registry Service.

(** ** The ledger *)

Record Books := mkBooks { live : gmultiset Z; stray : bool }.
Record Ledger (T : Type) := mkLedger { under : T; books : Books }.
Arguments mkLedger {_}. Arguments under {_}. Arguments books {_}.

(** A handle leaves the process; one it does not hold makes the books stray. *)
Definition release (h : Z) (b : Books) : Books :=
  if decide (h ∈ live b) then mkBooks (live b ∖ {[+ h +]}) (stray b) else mkBooks (live b) true.
Definition nonnull (handles : list ReceivedHandle) : list Z := filter (fun h => h <> 0) (handle <$> handles).
Definition arrived (handles : list ReceivedHandle) : gmultiset Z := list_to_set_disj (nonnull handles).

Definition enter {T E A} (f : A -> Books -> Books) (op : T -> T * (E + A)) (l : Ledger T) : Ledger T * (E + A) :=
  match op (under l) with
  | (t, inr a) => (mkLedger t (f a (books l)), inr a)
  | (t, inl e) => (mkLedger t (books l), inl e)
  end.
Definition unchanged {A} (_ : A) (b : Books) : Books := b.

#[global] Program Instance ledger_transport {T E} {transport : Transport T E} : Transport (Ledger T) E := {
  wait l channel endpoints := enter unchanged (fun t => wait t channel endpoints) l;
  probe l endpoint := enter unchanged (fun t => probe t endpoint) l;
  receive l channel bytes handles :=
    match receive (under l) channel bytes handles with
    | (t, inr counts, (bytes, handles)) =>
        (mkLedger t (mkBooks (live (books l) ⊎ arrived (take (handles_count counts) handles)) (stray (books l))), inr counts, (bytes, handles))
    | (t, inl e, buffers) => (mkLedger t (books l), inl e, buffers)
    end;
  validate_channel l h rights := enter unchanged (fun t => validate_channel t h rights) l;
  send l channel bytes := enter unchanged (fun t => send t channel bytes) l;
  send_move l channel bytes moved rights := enter (fun _ => release moved) (fun t => send_move t channel bytes moved rights) l;
  close l h := enter (fun _ => release h) (fun t => close t h) l }.
Next Obligation.
  intros T E transport l channel bytes handles. cbn. pose proof (receive_lengths (under l) channel bytes handles) as H.
  destruct (receive (under l) channel bytes handles) as [[t [e|c]] [bs hs]]; exact H.
Qed.
Next Obligation.
  intros T E transport l channel bytes handles Hb. cbn. pose proof (receive_bytes (under l) channel bytes handles Hb) as H.
  destruct (receive (under l) channel bytes handles) as [[t [e|c]] [bs hs]]; exact H.
Qed.
Next Obligation.
  intros T E transport l h rights. cbn. unfold enter. pose proof (channel_not_null (under l) h rights) as H.
  destruct (validate_channel (under l) h rights) as [t [e|[]]]; [done|]. intros _. by apply H.
Qed.

Section service.
Context (c0 : Z) {T E : Type} {transport : Transport T E}.
Abbreviation W := (World (Ledger T)).
Abbreviation M := (SM W (ServiceError E)).
Implicit Types (w : W) (x : gmultiset Z) (endpoint : InstalledEndpoint).

(** The handles of the installed endpoints, and what is known of the state. *)
Definition installed w : gmultiset Z := from_option hands ∅ (state w).
Definition sound w : Prop := forall s, state w = Some s -> wf s /\ tidy s.

(** The process holds its control channel [c0], the installed endpoints and [x]. *)
Record held x w : Prop := mkHeld {
  hd_sound : sound w;
  hd_live : live (books (io w)) = {[+ c0 +]} ⊎ installed w ⊎ x;
  hd_stray : stray (books (io w)) = false }.

(** After an error the same holds, except that a transport that refused may have
    left more. *)
Definition failed x (e : ServiceError E) w : Prop :=
  match e with TransportError _ => exists z, held (z ⊎ x) w | _ => held x w end.

Lemma held_failed x e w : held x w -> failed x e w.
Proof. destruct e; cbn; [|done..]. exists ∅. by rewrite (left_id_L ∅ (⊎)). Qed.

(** ** Calls *)

(** Calls that move no handle. *)
Lemma wp_call {A} (op : T -> T * (E + A)) x w (Q : (E + A) -> W -> Prop) R :
  held x w -> (forall t r w', held x w' -> state w' = state w -> control w' = control w -> op t = (under (io w'), r) -> Q r w') ->
  wp (call (enter unchanged op)) Q R w.
Proof.
  intros [Hs Hl Hst] HQ. unfold wp, call, enter. destruct (op (under (io w))) as [t [e|a]] eqn:Ho;
    (eapply HQ; [split; done|done|done|exact Ho]).
Qed.

Lemma wp_try {A} (op : T -> T * (E + A)) x w (Q : A -> W -> Prop) :
  held x w -> (forall a w', held x w' -> state w' = state w -> Q a w') -> wp (try_io (enter unchanged op)) Q (failed x) w.
Proof.
  intros Hh HQ. unfold try_io. wp_step. apply (wp_call _ x); [done|]. intros t r w' Hh' Hs _ _. destruct r as [e|a]; wp_step; [|by apply HQ].
  by apply held_failed.
Qed.

Lemma wp_succeeds {A} (op : T -> T * (E + A)) x w (Q : bool -> W -> Prop) R :
  held x w -> (forall (b : bool) w', held x w' -> state w' = state w -> (b = true -> exists t a, (op t).2 = inr a) -> Q b w') ->
  wp (succeeds (enter unchanged op)) Q R w.
Proof.
  intros Hh HQ. unfold succeeds. wp_step. apply (wp_call _ x); [done|]. intros t r w' Hh' Hs _ Ho. wp_step. apply HQ; [done..|].
  destruct r as [e|a]; [done|]. intros _. exists t, a. by rewrite Ho.
Qed.

(** A handle the process holds goes. *)
Lemma release_held h x w t :
  held ({[+ h +]} ⊎ x) w -> held x (mkWorld (control w) (state w) (mkLedger t (release h (books (io w))))).
Proof.
  intros [Hs Hl Hst]. unfold release. rewrite decide_True by (rewrite Hl; multiset_solver).
  split; [done| |done]. cbn [io books live control]. rewrite Hl. unfold installed. cbn [state]. multiset_solver.
Qed.

(** The transport refused. *)
Definition broken x (e : ServiceError E) w : Prop := (exists f, e = TransportError f) /\ exists z, held (z ⊎ x) w.

Lemma broken_failed x e w : broken x e w -> failed x e w.
Proof. intros [[f ->] H]. exact H. Qed.
Lemma broken_less y x e w : broken (y ⊎ x) e w -> broken x e w.
Proof. intros [Hf [z Hz]]. split; [done|]. exists (z ⊎ y). by rewrite <-(assoc_L (⊎)). Qed.

Lemma wp_close_broken h x w (Q : unit -> W -> Prop) :
  held ({[+ h +]} ⊎ x) w -> (forall w', held x w' -> state w' = state w -> Q tt w') ->
  wp (try_io (fun l => close l h)) Q (broken x) w.
Proof.
  intros Hh HQ. unfold try_io, wp, mbind, SM_bind, call. cbn. unfold enter. destruct (close (under (io w)) h) as [t [e|[]]].
  - cbn. split; [by eexists|]. exists {[+ h +]}. destruct Hh. by split.
  - cbn. apply HQ; [by apply release_held|done].
Qed.
Lemma wp_close h x w (Q : unit -> W -> Prop) :
  held ({[+ h +]} ⊎ x) w -> (forall w', held x w' -> state w' = state w -> Q tt w') ->
  wp (try_io (fun l => close l h)) Q (failed x) w.
Proof. intros Hh HQ. eapply wp_mono; [by eapply wp_close_broken|done|]. intros. by apply broken_failed. Qed.

(** Moving a handle: it goes, or it stays. *)
Lemma wp_move channel bytes h rights x w (Q : bool -> W -> Prop) R :
  held ({[+ h +]} ⊎ x) w -> (forall w', held x w' -> state w' = state w -> Q true w') ->
  (forall w', held ({[+ h +]} ⊎ x) w' -> state w' = state w -> Q false w') ->
  wp (succeeds (fun l => send_move l channel bytes h rights)) Q R w.
Proof.
  intros Hh HQ HF. unfold succeeds, wp, mbind, SM_bind, call. cbn. unfold enter.
  destruct (send_move (under (io w)) channel bytes h rights) as [t [e|[]]].
  - cbn. apply HF; [destruct Hh; by split|done].
  - cbn. apply HQ; [by apply release_held|done].
Qed.

Lemma wp_receive_call channel x w (Q : (E + ReceiveCounts * list Z * list ReceivedHandle) -> W -> Prop) R :
  held x w ->
  (forall e w', held x w' -> state w' = state w -> control w' = control w -> Q (inl e) w') ->
  (forall counts bytes handles w', held (arrived (take (handles_count counts) handles) ⊎ x) w' -> state w' = state w ->
     length bytes = MAX_MESSAGE_BYTES -> length handles = MAX_RECEIVED_HANDLES -> bytes_ok bytes -> Q (inr (counts, bytes, handles)) w') ->
  wp (receive_call channel) Q R w.
Proof.
  intros [Hs Hl Hst] HE HO. unfold wp, receive_call.
  pose proof (receive_lengths (under (io w)) channel (replicate MAX_MESSAGE_BYTES 0) (replicate MAX_RECEIVED_HANDLES default_received)) as HL.
  pose proof (receive_bytes (under (io w)) channel (replicate MAX_MESSAGE_BYTES 0) (replicate MAX_RECEIVED_HANDLES default_received)
    (bytes_ok_replicate_0 _)) as HB. unfold receive at 1. cbn [ledger_transport].
  destruct (receive (under (io w)) channel _ _) as [[t [e|c]] [bs hs]]; cbn [snd fst] in HL, HB; rewrite !length_replicate in HL; destruct HL.
  - apply HE; [by split|done|done].
  - apply HO; [|done..]. split; [done| |done]. cbn [io books live control]. rewrite Hl. unfold installed. cbn [state]. multiset_solver.
Qed.

(** ** Methods of the registry *)

Definition with_state s w : W := mkWorld (control w) (Some s) (io w).

Lemma with_state_same s w : state w = Some s -> with_state s w = w.
Proof. unfold with_state. intros <-. by destruct w. Qed.

Lemma wp_on_state {A} (m : Registry.M A) s w (Q : (RegistryError + A) -> W -> Prop) (R : ServiceError E -> W -> Prop) :
  state w = Some s ->
  match m s with
  | (s', Ok a) => Q (inr a) (with_state s' w)
  | (s', Err e) => Q (inl e) (with_state s' w)
  | (_, Panic) => False
  end -> wp (on_state m) Q R w.
Proof. intros Hs H. unfold wp, on_state. rewrite Hs. by destruct (m s) as [s' [a|e|]]. Qed.

(** A method that installs and retires nothing. *)
Lemma held_view x w s s' : held x w -> state w = Some s -> wf s' -> view s' = view s -> held x (with_state s' w).
Proof.
  intros [Hs Hl Hst] Hw Hwf Hv. destruct (Hs s Hw) as [_ Ht]. split; [| |done].
  - intros s2 [= <-]. split; [done|]. by eapply tidy_same.
  - cbn [io control with_state]. rewrite Hl. unfold installed. rewrite Hw. cbn. by rewrite (hands_same _ _ Hv).
Qed.

Lemma wp_keeping {A} (m : Registry.M A) x s w (Q : (RegistryError + A) -> W -> Prop) (R : ServiceError E -> W -> Prop) :
  held x w -> state w = Some s -> good (m s) -> keeps view m ->
  (forall s' r w', held x w' -> state w' = Some s' -> m s = (s', match r with inr a => Ok a | inl e => Err e end) -> Q r w') ->
  wp (on_state m) Q R w.
Proof.
  intros Hh Hs [Hw Hnp] Hk HQ. apply (wp_on_state _ s); [done|]. specialize (Hk s). destruct (m s) as [s' [a|e|]]; [| |done].
  - apply (HQ s'); [by eapply held_view|done|done].
  - apply (HQ s'); [by eapply held_view|done|done].
Qed.

Lemma wp_datagram r w (Q : list Z -> W -> Prop) (R : ServiceError E -> W -> Prop) : encodes r -> (forall bytes, Q bytes w) -> wp (datagram r) Q R w.
Proof.
  intros (n & out & -> & Hn) HQ. unfold datagram, wp, mbind, SM_bind, unwrap. cbn.
  destruct (proj2 (get_range_is_Some out 0 n) ltac:(lia)) as [bytes ->]. cbn. apply HQ.
Qed.

(** ** Retiring a peer *)

(** The registry runs, with at most [n] endpoints installed. *)
Definition steady (n : nat) x w : Prop := held x w /\ exists s, state w = Some s /\ (size (hands s) <= n)%nat.

Lemma steady_same n x w w' : steady n x w -> held x w' -> state w' = state w -> steady n x w'.
Proof. intros [_ Hs] Hh Heq. split; [done|]. by rewrite Heq. Qed.

Definition notification_header s (n : WatchNotification) : Header :=
  mkHeader MtGenerationChanged (r_generation s) (id (wn_client n)) (id_generation (wn_client n)) (wn_transaction_id n).

Lemma wp_send_generation channel h g x w (Q : bool -> W -> Prop) R :
  held x w -> header_valid (with_type MtGenerationChanged h) -> (forall b w', held x w' -> state w' = state w -> Q b w') ->
  wp (send_generation channel h g) Q R w.
Proof.
  intros Hh Hv HQ. unfold send_generation. wp_step. apply wp_datagram; [by apply encodes_generation_changed|]. intros bytes.
  apply (wp_succeeds _ x); [done|]. eauto.
Qed.

(** The loop over the notifications, given a way to remove a watcher. *)
Lemma wp_notify_each n x remove values L count : forall index w,
  (forall endpoint w, steady n x w -> wp (remove endpoint) (fun _ => steady n x) (failed x) w) ->
  notes values L -> Forall (fun y => nonzero (wn_client y) /\ wn_transaction_id y <> 0) L -> (index + count = length L)%nat ->
  steady n x w -> wp (notify_each remove values index count : M unit) (fun _ => steady n x) (failed x) w.
Proof.
  induction count as [|count IH]; intros index w Hr HN HL Hlen Hw; cbn [notify_each]; [by wp_step|].
  destruct (lookup_lt_is_Some_2 L index ltac:(lia)) as [y Hy]. wp_step. rewrite (notifications_get_notes _ _ _ HN), Hy.
  change (wp (unwrap (or_panic (Some y)) : M WatchNotification) ?Q ?R w) with (Q y w). cbv beta.
  destruct Hw as [Hh (s & Hs & Hn)]. wp_step. unfold generation. wp_step. wp_step. rewrite Hs.
  change (wp (unwrap (or_panic (r_generation <$> Some s)) : M Z) ?Q ?R w) with (Q (r_generation s) w). cbv beta zeta.
  rewrite Forall_lookup in HL. destruct (HL _ _ Hy) as [[Hid Hgen] Htx]. destruct (hd_sound _ _ Hh s Hs) as [_ (Hg & _)].
  wp_step. apply (wp_send_generation _ _ _ x); [done|split_conj; done|]. intros b w1 Hh1 Hs1.
  assert (steady n x w1) as Hw1 by (split; [done|exists s; by rewrite Hs1]).
  wp_step. eapply wp_mono with (Q := fun _ => steady n x) (R := failed x); [|intros _ w2 Hw2|done].
  - destruct b; cbn [negb]; [by wp_step|by apply Hr].
  - apply IH; [done|done|by rewrite Forall_lookup|lia|done].
Qed.

Lemma wp_retire_peer fuel : forall n x endpoint w,
  steady n x w -> (n < fuel)%nat -> wp (retire_peer_from fuel endpoint : M unit) (fun _ => steady n x) (failed x) w.
Proof.
  induction fuel as [|fuel IH]; intros n x endpoint w Hw Hf; [lia|]. cbn [retire_peer_from]. destruct Hw as [Hh (s & Hs & Hn)].
  wp_step. wp_step. rewrite Hs. wp_step. destruct (hd_sound _ _ Hh s Hs) as [Hwf Ht].
  pose proof (peer_closed_effect s (ie_identity endpoint) Hwf Ht) as He. apply (wp_on_state _ s); [done|].
  destruct (peer_closed (ie_identity endpoint) s) as [s' [o|e|]]; [| |done].
  - destruct He as (Hwf' & Ht' & Hhands & L & HN & HL).
    assert (held ({[+ pc_handle o +]} ⊎ x) (with_state s' w)) as Hh'.
    { destruct Hh as [_ Hl Hst]. split; [by intros ? [= <-]| |done]. cbn [io control with_state]. rewrite Hl. unfold installed.
      rewrite Hs. cbn [state with_state from_option]. rewrite Hhands. multiset_solver. }
    assert (size (hands s) = S (size (hands s'))) as Hsize by by rewrite Hhands, gmultiset_size_disj_union, gmultiset_size_singleton.
    wp_step. apply (wp_close _ x); [done|]. intros w1 Hh1 Hs1.
    assert (steady (n - 1) x w1) as Hw1 by (split; [done|exists s'; rewrite Hs1; split; [done|lia]]).
    eapply wp_mono with (Q := fun _ => steady (n - 1) x) (R := failed x); [|intros _ w2 [? (s2 & ? & ?)]; split; [done|exists s2; split; [done|lia]]|done].
    destruct HN as (HN1 & HN2 & HN3). eapply (wp_notify_each (n - 1) x _ _ L); [|by split_conj|done|lia|done].
    intros ep w2 Hw2. destruct (Hw2) as [_ (s2 & Hs2 & _)]. wp_step. wp_step. rewrite Hs2. apply IH; [done|]. lia.
  - subst s'. wp_step. cbn. by rewrite (with_state_same s w Hs).
Qed.

(** The registry runs. *)
Definition ready x w : Prop := held x w /\ is_Some (state w).

Lemma ready_steady x w : ready x w -> steady 64 x w.
Proof. intros [Hh [s Hs]]. split; [done|]. exists s. split; [done|]. apply hands_size. by destruct (hd_sound _ _ Hh s Hs). Qed.
Lemma steady_ready n x w : steady n x w -> ready x w.
Proof. intros [Hh (s & Hs & _)]. split; [done|eauto]. Qed.

Lemma wp_retire x endpoint w : ready x w -> wp (retire_peer endpoint : M unit) (fun _ => ready x) (failed x) w.
Proof.
  intros Hw. eapply wp_mono; [eapply (wp_retire_peer _ 64); [by apply ready_steady|unfold RETIRE_FUEL, MAX_ENDPOINTS; lia]| |done].
  intros u w'. apply steady_ready.
Qed.
Lemma wp_remove x endpoint w : ready x w -> wp (remove endpoint : M unit) (fun _ => ready x) (failed x) w.
Proof. intros Hw. unfold remove. wp_step. wp_step. destruct (Hw) as [_ [s Hs]]. rewrite Hs. by apply wp_retire. Qed.
Lemma wp_send_notifications x values w :
  announces values -> ready x w -> wp (send_notifications values : M unit) (fun _ => ready x) (failed x) w.
Proof.
  intros (L & HN & HL) Hw. unfold send_notifications. pose proof HN as (_ & -> & _).
  eapply wp_mono; [eapply (wp_notify_each 64 x _ _ L); [|done|done|done|by apply ready_steady]|intros u w'; apply steady_ready|done].
  intros ep w' Hw'. eapply wp_mono; [apply wp_remove; by eapply steady_ready|intros u w2; apply ready_steady|done].
Qed.

(** ** Answers *)

(** A header an answer can repeat. *)
Definition answerable (h : Header) : Prop :=
  registry_generation h <> 0 /\ transaction_id h <> 0 /\ endpoint_id h <> 0 /\ endpoint_generation h <> 0.

Lemma answerable_as kind h : answerable h -> is_supervisor_type kind = false -> header_valid (with_type kind h).
Proof. intros (? & ? & ? & ?) Hk. unfold header_valid. cbn. by rewrite Hk. Qed.

Lemma ready_same x w w' : ready x w -> held x w' -> state w' = state w -> ready x w'.
Proof. intros [_ Hs] Hh Heq. split; [done|]. by rewrite Heq. Qed.

(** Send, and remove the peer that cannot be reached. *)
Lemma wp_send_or_remove channel bytes endpoint x w :
  ready x w ->
  wp (sent ← succeeds (fun t : Ledger T => send t channel bytes); if negb sent then remove endpoint else mret tt : M unit)
    (fun _ => ready x) (failed x) w.
Proof.
  intros Hw. wp_step. apply (wp_succeeds _ x); [apply Hw|]. intros b w' Hh Hs _. pose proof (ready_same _ _ _ Hw Hh Hs) as Hw'.
  destruct b; cbn [negb]; [by wp_step|by apply wp_remove].
Qed.

Lemma wp_send_error endpoint h code x w :
  ready x w -> answerable h -> wp (send_error endpoint h code : M unit) (fun _ => ready x) (failed x) w.
Proof.
  intros Hw Ha. unfold send_error. wp_step. apply wp_datagram; [by apply encodes_error; [apply answerable_as| |]|]. intros bytes.
  by apply wp_send_or_remove.
Qed.
Lemma wp_state_error endpoint h e x w :
  ready x w -> answerable h -> wp (state_error endpoint h e : M unit) (fun _ => ready x) (failed x) w.
Proof. apply wp_send_error. Qed.

(** A method on the running registry that installs and retires nothing. *)
Lemma wp_method {A} (m : Registry.M A) x w (Q : (RegistryError + A) -> W -> Prop) (R : ServiceError E -> W -> Prop) :
  ready x w -> (forall s, wf s -> tidy s -> good (m s)) -> keeps view m ->
  (forall s s' r w', wf s -> tidy s -> ready x w' -> state w' = Some s' -> m s = (s', match r with inr a => Ok a | inl e => Err e end) -> Q r w') ->
  wp (on_state m) Q R w.
Proof.
  intros [Hh [s Hs]] Hg Hk HQ. destruct (hd_sound _ _ Hh s Hs) as [Hw Ht]. apply (wp_keeping _ x s); [done|done|by apply Hg|done|].
  intros s' r w' Hh' Hs' Hm. eapply HQ; [exact Hw|exact Ht|split; [done|eauto]|exact Hs'|exact Hm].
Qed.

Lemma wp_complete_error endpoint h code x w :
  ready x w -> answerable h -> wp (complete_error endpoint h code : M unit) (fun _ => ready x) (failed x) w.
Proof.
  intros Hw Ha. unfold complete_error. wp_step. apply (wp_method _ x); [done|intros; by apply complete_transaction_good|apply keeps_complete_transaction|].
  intros s s' r w' _ _ Hw' _ _. destruct r; [by apply wp_state_error|by apply wp_send_error].
Qed.

Lemma wp_send_empty_raw channel h kind x w (Q : bool -> W -> Prop) R :
  held x w -> answerable h -> match kind with MtPublished | MtRetired | MtConnected => True | _ => False end ->
  (forall b w', held x w' -> state w' = state w -> Q b w') -> wp (send_empty_raw channel h kind) Q R w.
Proof.
  intros Hh Ha Hk HQ. unfold send_empty_raw. wp_step. apply wp_datagram.
  { apply encodes_empty; [|by destruct kind|done]. apply answerable_as; [done|by destruct kind]. }
  intros bytes. apply (wp_succeeds _ x); [done|]. eauto.
Qed.

(** ** Requests *)

Lemma wp_page_entry ticket k s x w (Q : option ServiceMetadata -> W -> Prop) (R : ServiceError E -> W -> Prop) m :
  held x w -> state w = Some s -> wf s -> enumeration_record ticket k s = (s, Ok m) -> Q m w -> wp (page_entry ticket k) Q R w.
Proof.
  intros Hh Hs Hw Hm HQ. unfold page_entry. wp_step. apply (wp_on_state _ s); [done|]. rewrite Hm. rewrite (with_state_same s w Hs). by wp_step.
Qed.

Lemma wp_send_pages endpoint h ticket s (R : list ServiceListRecord) x count : forall page w,
  held x w -> state w = Some s -> wf s -> answerable h -> records_sorted None R -> len R <= 32 ->
  et_total_count ticket = len R -> et_page_count ticket = pages (len R) ->
  (forall k, exists m, enumeration_record ticket k s = (s, Ok m) /\ record <$> m = R !! k) ->
  Z.of_nat (page + count) = pages (len R) ->
  wp (send_pages false endpoint h ticket page count : M bool) (fun _ w' => held x w' /\ state w' = Some s) (failed x) w.
Proof.
  induction count as [|count IH]; intros page w Hh Hs Hw Ha HR HL Ht Hp Hrec Hc; cbn [send_pages]; [by wp_step|].
  destruct (Hrec (page * 2)%nat) as (m1 & Hm1 & E1). destruct (Hrec (page * 2 + 1)%nat) as (m2 & Hm2 & E2).
  wp_step. unfold send_page. wp_step. eapply (wp_page_entry _ _ s x); [done..|]. wp_step. eapply (wp_page_entry _ _ s x); [done..|].
  pose proof (page_entries R page _ _ E1 E2) as Hpage. wp_step.
  assert (forall records (Q : list ServiceListRecord -> W -> Prop) RR, page_of R page = records -> Q records w ->
    wp (unwrap (X := Error) (Ok records) : M (list ServiceListRecord)) Q RR w) as Hun by done.
  assert (forall records, page_of R page = records -> wp (bytes ← datagram (encode_service_list false (with_type MtServiceList h) (Z.of_nat page)
      (et_page_count ticket) (et_total_count ticket) records (replicate MAX_MESSAGE_BYTES 0)); succeeds (fun t : Ledger T => send t (ie_handle endpoint) bytes))
    (fun sent w' => wp (if sent then send_pages false endpoint h ticket (S page) count else mret false : M bool)
       (fun _ w' => held x w' /\ state w' = Some s) (failed x) w') (failed x) w) as Hsend.
  { intros records <-. wp_step. apply wp_datagram.
    - rewrite Ht, Hp. apply encodes_page; [by apply answerable_as|done|done|done|lia|done].
    - intros bytes. apply (wp_succeeds _ x); [done|]. intros b w1 Hh1 Hs1 _. rewrite Hs in Hs1. destruct b; [|by wp_step].
      apply IH; try done. lia. }
  destruct m1 as [a|], m2 as [b|]; cbn [fmap option_fmap option_map] in Hpage; [| |done|]; (eapply Hun; [exact Hpage|]); by apply Hsend.
Qed.

Lemma wp_enumerate endpoint h x w :
  ready x w -> answerable h -> wp (enumerate false endpoint h : M unit) (fun _ => ready x) (failed x) w.
Proof.
  intros Hw Ha. unfold enumerate. wp_step. apply (wp_method _ x); [done|intros; by apply enumerate_begin_good|apply keeps_enumerate_begin|].
  intros s s1 r w1 Hwf Ht Hw1 Hs1 Hm. destruct r as [e|ticket]; [by apply wp_state_error|].
  destruct (enumeration_open _ _ _ _ _ Hwf Hm) as (Hwf1 & Htot & Hpages & Hrec & s2 & Hdone & Hwf2).
  assert (tidy s1) as Ht1.
  { pose proof (keeps_enumerate_begin (ie_identity endpoint) (transaction_id h) s) as Hk. rewrite Hm in Hk. by eapply tidy_same. }
  destruct (listing s1 Hwf1 Ht1) as (R & HR & HL & Hlist).
  pose proof (published_count_bound _ (wf_services _ (proj1 Hwf1))). rewrite <-HL in Htot. rewrite Htot in Hpages.
  assert (1 <= pages (len R)) by (unfold pages, div_ceil2; destruct (Z.eqb_spec (len R) 0); [lia|]; pose proof (Z.div_mod (len R) 2); pose proof (Z.mod_pos_bound (len R) 2); lia).
  wp_step. eapply wp_mono with (R := failed x); [eapply (wp_send_pages endpoint h ticket s1 R x); [apply Hw1|exact Hs1|done|done|done|lia|done|done| |rewrite Hpages; lia]| |done].
  - intros k. eexists. split; [apply Hrec|apply Hlist].
  - intros sent w2 [Hh2 Hs2]. cbv beta. assert (ready x w2) as Hw2 by (split; [done|eauto]). destruct sent; [|by apply wp_remove].
    unfold on_state_unwrap. wp_step. apply (wp_on_state _ s1); [done|]. rewrite Hdone. change (ready x (with_state s2 w2)).
    split; [|by eexists]. apply (held_view x w2 s1); [done|done|done|].
    pose proof (keeps_enumeration_complete ticket s1) as Hk. by rewrite Hdone in Hk.
Qed.

Lemma arrived_nil x : arrived [] ⊎ x = x.
Proof. change (arrived []) with (∅ : gmultiset Z). multiset_solver. Qed.
Lemma arrived_one h : arrived [h] = if handle h =? 0 then ∅ else {[+ handle h +]}.
Proof.
  unfold arrived, nonnull. change (handle <$> [h]) with [handle h].
  destruct (Z.eqb_spec (handle h) 0); [by rewrite filter_cons_False by lia|]. rewrite filter_cons_True by lia.
  change (filter (fun h => h <> 0) []) with (@nil Z). cbn [list_to_set_disj]. multiset_solver.
Qed.

(** Close one received handle, unless it is null. *)
Lemma wp_close_one h x w :
  held (arrived [h] ⊎ x) w ->
  wp (if negb (handle h =? 0) then try_io (fun t : Ledger T => close t (handle h)) else mret tt : M unit)
    (fun _ w' => held x w' /\ state w' = state w) (broken x) w.
Proof.
  rewrite arrived_one. intros Hh. destruct (handle h =? 0); cbn [negb].
  - wp_step. split; [|done]. by rewrite (left_id_L ∅ (⊎)) in Hh.
  - apply (wp_close_broken _ x); [done|]. by intros.
Qed.

Lemma wp_connect endpoint h request received x w :
  ready (arrived [received] ⊎ x) w -> answerable h -> body_valid (MLookupConnect request) ->
  wp (connect endpoint h request received : M unit) (fun _ => ready x) (failed x) w.
Proof.
  intros Hw Ha Hb. unfold connect. wp_step. apply (wp_succeeds _ (arrived [received] ⊎ x)); [apply Hw|]. intros valid w1 Hh1 Hs1 Hvalid.
  pose proof (ready_same _ _ _ Hw Hh1 Hs1) as Hw1. destruct valid; cbn [negb]; cycle 1.
  { wp_step. eapply wp_mono; [by apply wp_close_one| |intros; by apply broken_failed]. intros u w2 [Hh2 Hs2]. cbv beta. apply wp_complete_error; [|done].
    split; [done|]. rewrite Hs2. apply Hw1. }
  destruct (Hvalid eq_refl) as (t & [] & Hnn). apply channel_not_null in Hnn. rewrite arrived_one, (proj2 (Z.eqb_neq _ _) Hnn) in Hw1. clear Hvalid.
  wp_step. apply (wp_method _ ({[+ handle received +]} ⊎ x)); [done|intros; by apply lookup_good|apply keeps_lookup|].
  intros s s2 r w2 Hwf Ht Hw2 Hs2 Hm. destruct r as [e|offer].
  { wp_step. apply (wp_close _ x); [apply Hw2|]. intros w3 Hh3 Hs3. apply wp_state_error; [|done]. split; [done|]. rewrite Hs3. apply Hw2. }
  destruct (lookup_offer _ _ _ _ _ _ Hwf Ht Hm) as [Hid Hgen]. wp_step. apply wp_datagram.
  { apply encodes_offer; [|done|done|done]. destruct Ha as (? & ? & _). by split_conj. }
  intros bytes. wp_step. apply (wp_move _ _ _ _ x); [apply Hw2|..]; intros w3 Hh3 Hs3; cbn [negb].
  - wp_step. unfold send_empty. wp_step. apply (wp_send_empty_raw _ _ _ x); [done|done|done|]. intros b w4 Hh4 Hs4.
    assert (ready x w4) as Hw4 by (split; [done|rewrite Hs4, Hs3; apply Hw2]). destruct b; [by wp_step; wp_step|].
    wp_step. eapply wp_mono; [by apply wp_remove| |done]. intros u w5 Hw5. cbv beta. by wp_step; wp_step.
  - wp_step. apply (wp_close _ x); [done|]. intros w4 Hh4 Hs4. apply wp_send_error; [|done]. split; [done|]. rewrite Hs4, Hs3. apply Hw2.
Qed.

Lemma wp_publish endpoint h x w :
  ready x w -> answerable h ->
  wp (r ← on_state (prepare_publish (ie_identity endpoint) (transaction_id h));
      match r with
      | inr ticket =>
          sent ← send_empty_raw (ie_handle endpoint) h MtPublished;
          if negb sent then remove endpoint
          else outcome ← on_state_unwrap (commit_publish ticket); send_notifications (po_notifications outcome)
      | inl e => state_error endpoint h e
      end : M unit) (fun _ => ready x) (failed x) w.
Proof.
  intros Hw Ha. wp_step. apply (wp_method _ x); [done|intros; by apply prepare_publish_good|apply keeps_prepare|].
  intros s s1 r w1 Hwf Ht Hw1 Hs1 Hm. destruct r as [e|ticket]; [by apply wp_state_error|].
  destruct (prepare_then_commit _ _ _ _ _ Hwf Ht Hm) as (Hwf1 & s2 & o & Hc & Hwf2 & Hn).
  wp_step. apply (wp_send_empty_raw _ _ _ x); [apply Hw1|done|done|]. intros b w2 Hh2 Hs2.
  pose proof (ready_same _ _ _ Hw1 Hh2 Hs2) as Hw2. destruct b; cbn [negb]; [|by apply wp_remove].
  wp_step. unfold on_state_unwrap. wp_step. rewrite Hs1 in Hs2. apply (wp_on_state _ s1); [done|]. rewrite Hc.
  change (wp (send_notifications (po_notifications o) : M unit) (fun _ => ready x) (failed x) (with_state s2 w2)).
  apply wp_send_notifications; [done|]. split; [|by eexists]. apply (held_view x w2 s1); [done|done|done|].
  pose proof (keeps_commit ticket s1) as Hk. by rewrite Hc in Hk.
Qed.

Lemma wp_retire_request endpoint h x w :
  ready x w -> answerable h ->
  wp (r ← on_state (retire (ie_identity endpoint) (transaction_id h));
      match r with
      | inr outcome =>
          _ ← send_empty_raw (ro_registry_handle outcome) h MtRetired;
          _ ← try_io (fun t : Ledger T => close t (ro_registry_handle outcome));
          send_notifications (ro_notifications outcome)
      | inl e => state_error endpoint h e
      end : M unit) (fun _ => ready x) (failed x) w.
Proof.
  intros [Hh [s Hs]] Ha. destruct (hd_sound _ _ Hh s Hs) as [Hwf Ht]. wp_step. apply (wp_on_state _ s); [done|].
  pose proof (retire_effect s (ie_identity endpoint) (transaction_id h) Hwf Ht) as He.
  destruct (retire (ie_identity endpoint) (transaction_id h) s) as [s' [o|e|]]; [| |done].
  - destruct He as (Hwf' & Ht' & Hhands & Hn).
    assert (held ({[+ ro_registry_handle o +]} ⊎ x) (with_state s' w)) as Hh'.
    { destruct Hh as [_ Hl Hst]. split; [by intros ? [= <-]| |done]. cbn [io control with_state]. rewrite Hl. unfold installed.
      rewrite Hs. cbn [state with_state from_option]. rewrite Hhands. multiset_solver. }
    wp_step. apply (wp_send_empty_raw _ _ _ _ _ _ _ Hh'); [done|done|]. intros b w2 Hh2 Hs2.
    wp_step. apply (wp_close _ x); [done|]. intros w3 Hh3 Hs3. apply wp_send_notifications; [done|]. split; [done|]. rewrite Hs3, Hs2. by eexists.
  - destruct He as [Hwf' Hv]. apply wp_state_error; [|done]. split; [by apply (held_view x w s)|by eexists].
Qed.

Lemma wp_dispatch endpoint h m handles x w :
  ready (arrived (take (Z.to_nat (handles_of m)) handles) ⊎ x) w -> answerable h -> body_valid m ->
  request_type_allowed (ie_kind endpoint) (Some (type_of m)) = true -> length handles = MAX_RECEIVED_HANDLES ->
  wp (dispatch false endpoint h m handles : M unit) (fun _ => ready x) (failed x) w.
Proof.
  intros Hw Ha Hb Hk Hl. unfold dispatch. destruct (ie_kind endpoint), m; try discriminate Hk; cbn [handles_of] in Hw.
  all: try (change (take (Z.to_nat 0) handles) with (@nil ReceivedHandle) in Hw; rewrite arrived_nil in Hw).
  - by apply wp_publish.
  - by apply wp_retire_request.
  - destruct handles as [|received handles]; [done|]. change (take (Z.to_nat 1) (received :: handles)) with [received] in Hw.
    wp_step. change (wp (connect endpoint h v received : M unit) (fun _ => ready x) (failed x) w). by apply wp_connect.
  - by apply wp_enumerate.
  - wp_step. apply (wp_method _ x); [done| |apply keeps_watch|].
    { intros. apply watch_good; [done|]. destruct Hb as [_ Hn]. pose proof (name_valid_len _ Hn). lia. }
    intros s s1 r w1 _ _ Hw1 Hs1 _. destruct r as [e|[g|]]; [by apply wp_state_error| |by wp_step].
    wp_step. apply (wp_send_generation _ _ _ x); [apply Hw1|by apply answerable_as|]. intros b w2 Hh2 Hs2.
    pose proof (ready_same _ _ _ Hw1 Hh2 Hs2) as Hw2. destruct b; cbn [negb]; [by wp_step|by apply wp_remove].
  - wp_step. apply (wp_method _ x); [done|intros; by apply cancel_good|apply keeps_cancel|].
    intros s s1 r w1 _ _ Hw1 Hs1 _. destruct r as [e|[]]; [by apply wp_state_error|].
    wp_step. apply wp_datagram; [by apply encodes_cancel; [apply answerable_as|..]|]. intros bytes. by apply wp_send_or_remove.
Qed.

(** ** Datagrams *)

Lemma arrived_cons h hs : arrived (h :: hs) = arrived [h] ⊎ arrived hs.
Proof.
  rewrite arrived_one. unfold arrived, nonnull. rewrite fmap_cons. destruct (Z.eqb_spec (handle h) 0).
  - rewrite filter_cons_False by lia. multiset_solver.
  - rewrite filter_cons_True by lia. cbn [list_to_set_disj]. multiset_solver.
Qed.

Lemma wp_close_each hs x : forall w,
  held (arrived hs ⊎ x) w -> wp (close_each hs : M unit) (fun _ w' => held x w' /\ state w' = state w) (broken x) w.
Proof.
  induction hs as [|h hs IH]; intros w Hh; cbn [close_each]; [wp_step; by rewrite arrived_nil in Hh|].
  rewrite arrived_cons, <-(assoc_L (⊎)) in Hh. wp_step. eapply wp_mono; [by apply wp_close_one| |intros e w'; apply broken_less].
  intros u w1 [Hh1 Hs1]. cbv beta. eapply wp_mono; [by apply IH| |done]. intros u' w2 [Hh2 Hs2]. split; [done|congruence].
Qed.

(** Close what arrived, and go on. *)
Lemma wp_close_received handles count x w (k : unit -> M unit) Q :
  held (arrived (take count handles) ⊎ x) w -> (forall w', held x w' -> state w' = state w -> wp (k tt) Q (failed x) w') ->
  wp (close_received handles count ≫= k) Q (failed x) w.
Proof.
  intros Hh Hk. wp_step. eapply wp_mono; [by apply wp_close_each| |intros; by apply broken_failed]. intros [] w' [? ?]. by apply Hk.
Qed.

Lemma decode_header_np bytes : decode_header bytes <> Panic.
Proof.
  unfold decode_header. destruct (Z.ltb_spec (len bytes) HEADER_BYTES); [done|]. unfold HEADER_BYTES in *.
  destruct (proj2 (get_range_is_Some bytes 0 4) ltac:(lia)) as [magic ->]. cbn [or_panic res_bind].
  no_panic; (apply read_u16_np || apply read_u32_np || apply read_u64_np).
Qed.

(** The two readings of a header agree on the type, and [decode_header] wants a
    transaction. *)
Lemma decode_parse_type bytes n d r :
  decode_header bytes = Ok d -> parse false bytes n = Ok r -> dh_message_type d = Some (message_type (pm_header r)).
Proof.
  intros Hd Hp. unfold parse in Hp. apply res_bind_Ok in Hp as (f & Hf & Hp). destruct (negb _); [done|].
  apply res_bind_Ok in Hp as (m & _ & Hp). injection Hp as <-. cbn. unfold decode_header in Hd. unfold parse_header in Hf. res_inv. subst.
  cbn in *. simplify_eq. match goal with H : message_type_parse ?a = Ok _ |- context [message_type_parse ?b] =>
    replace b with a by congruence; by rewrite H end.
Qed.
Lemma decode_transaction bytes d : decode_header bytes = Ok d -> dh_transaction_id d <> 0.
Proof. intros Hd. unfold decode_header in Hd. res_inv. by subst. Qed.

Lemma wp_receive_endpoint endpoint x w :
  ready x w -> nonzero (ie_identity endpoint) ->
  wp (receive_endpoint false endpoint : M unit) (fun _ => ready x) (failed x) w.
Proof.
  intros Hw [Hid Hgen]. unfold receive_endpoint. wp_step. apply (wp_receive_call _ x); [apply Hw| |].
  { intros e w1 Hh1 Hs1 _. apply wp_remove. by eapply ready_same. }
  intros counts bytes handles w1 Hh1 Hs1 Hlb Hlh Hok. assert (is_Some (state w1)) as Hsome by (rewrite Hs1; apply Hw).
  destruct ((length bytes <? bytes_count counts)%nat || (length handles <? handles_count counts)%nat).
  { apply wp_close_received; [|intros w2 Hh2 Hs2; apply wp_remove; by split; [|rewrite Hs2]].
    by rewrite <-firstn_firstn, firstn_all. }
  set (data := take (bytes_count counts) bytes).
  destruct (decode_header data) as [d|e|] eqn:Hd; [| |by destruct (decode_header_np data)]; cycle 1.
  { eapply wp_mono; [by apply wp_close_each| |intros; by apply broken_failed]. intros u w2 [Hh2 Hs2]. split; [done|]. by rewrite Hs2. }
  destruct Hsome as [s Hs]. destruct (hd_sound _ _ Hh1 s Hs) as [Hwf Ht]. wp_step. unfold generation. wp_step. wp_step. rewrite Hs.
  change (wp (unwrap (or_panic (r_generation <$> Some s)) : M Z) ?Q ?R w1) with (Q (r_generation s) w1). cbv beta zeta.
  set (canonical := mkHeader _ _ _ _ _).
  assert (answerable canonical) as Ha.
  { unfold answerable. split_conj; cbn; [apply Ht|by eapply decode_transaction|done|done]. }
  assert (forall code, wp (_ ← close_received handles (handles_count counts); complete_error endpoint canonical code : M unit)
    (fun _ => ready x) (failed x) w1) as Hrefuse.
  { intros code. apply wp_close_received; [done|]. intros w2 Hh2 Hs2. apply wp_complete_error; [|done]. split; [done|]. rewrite Hs2, Hs. eauto. }
  destruct (_ || _); [apply Hrefuse|]. destruct (bool_decide _); [apply Hrefuse|].
  destruct (request_type_allowed (ie_kind endpoint) (dh_message_type d)) eqn:Hallow; cbn [negb]; [|apply Hrefuse].
  destruct (_ || _); [apply Hrefuse|].
  destruct (parse false data (Z.of_nat (handles_count counts))) as [r|e|] eqn:Hp; [|apply Hrefuse|]; cycle 1.
  { destruct (wrrg_parse_no_panic data (Z.of_nat (handles_count counts))); [|done]. by apply Forall_take. }
  rewrite (decode_parse_type _ _ _ _ Hd Hp) in Hallow. destruct r as [h m]. cbn [pm_header pm_message] in *.
  pose proof (parse_type _ _ _ _ _ Hp) as Htype. rewrite <-Htype in Hallow.
  apply parse_spec in Hp as [(Hmt & _ & Hv & _ & Hb) Hn]; [|intros p ->; by destruct (ie_kind endpoint)].
  apply wp_dispatch; [|clear Hrefuse| |done|done].
  - split; [|by rewrite Hs]. by replace (Z.to_nat (handles_of m)) with (handles_count counts) by lia.
  - destruct Hv as (? & ? & Hsup). rewrite Hmt in Hsup. assert (is_supervisor_type (type_of m) = false) as Hno by by destruct (ie_kind endpoint), m.
    rewrite Hno in Hsup. destruct Hsup. unfold answerable. by split_conj.
  - done.
Qed.

(** ** The installed endpoints *)

Definition endpoints_of s : list InstalledEndpoint :=
  flatten ((fun y : ServiceSlot => (fun p => mkInstalledEndpoint (p_endpoint p) (p_handle p) KPublication) <$> active y) <$> flatten (services s)) ++
  ((fun c => mkInstalledEndpoint (c_endpoint c) (c_handle c) KClient) <$> flatten (clients s)).

Lemma endpoints_bound s : wf s -> (length (endpoints_of s) <= MAX_ENDPOINTS)%nat.
Proof.
  intros [Hw _]. destruct (wf_services _ Hw) as (H1 & _), (wf_clients _ Hw) as (H2 & _). unfold endpoints_of, MAX_ENDPOINTS.
  rewrite length_app, length_fmap. etrans; [apply Nat.add_le_mono; [apply length_flatten|apply length_flatten]|].
  rewrite length_fmap. pose proof (length_flatten (services s)). lia.
Qed.

Lemma endpoint_nonzero s endpoint : tidy s -> endpoint ∈ endpoints_of s -> nonzero (ie_identity endpoint).
Proof.
  intros Ht [H|H]%elem_of_app.
  - apply elem_of_flatten, list_elem_of_fmap in H as (y & Hy & (i & Hi)%elem_of_flatten_lookup).
    destruct (active y) as [p|] eqn:Hp; [|done]. injection Hy as ->. cbn.
    by destruct (publication_listed s i y p Ht Hi Hp (publication_view p)) as (? & _); [cbn; by rewrite Hp|].
  - apply list_elem_of_fmap in H as (c & -> & (i & Hi)%elem_of_flatten_lookup). by eapply client_nonzero.
Qed.

Lemma collect_from_spec s fuel : forall es count,
  (length (endpoints_of s) < fuel + count)%nat -> (count <= length (endpoints_of s))%nat -> (length (endpoints_of s) <= length es)%nat ->
  take count es = take count (endpoints_of s) ->
  exists es', collect_from fuel s es count = Ok (es', length (endpoints_of s)) /\ take (length (endpoints_of s)) es' = endpoints_of s.
Proof.
  induction fuel as [|fuel IH]; intros es count Hf Hc Hl Ht; [lia|]. cbn [collect_from].
  change (installed_endpoint s count) with (endpoints_of s !! count). destruct (endpoints_of s !! count) as [ep|] eqn:He.
  - apply lookup_lt_Some in He as Hlt. rewrite (proj2 (Nat.ltb_lt _ _)) by lia. apply IH; [lia|lia|by rewrite length_insert|].
    rewrite (take_S_r _ _ ep He), (take_S_r (<[count := ep]> es) count ep) by (apply list_lookup_insert_eq; lia).
    by rewrite take_insert_ge, Ht by lia.
  - apply lookup_ge_None in He. assert (count = length (endpoints_of s)) as -> by lia. exists es. split; [done|].
    by rewrite Ht, firstn_all.
Qed.

Lemma wp_collect x w (Q : list InstalledEndpoint * nat -> W -> Prop) (R : ServiceError E -> W -> Prop) :
  held x w -> (forall es count, Forall (fun e => nonzero (ie_identity e)) (take count es) -> (state w = None -> count = 0%nat) -> Q (es, count) w) ->
  wp collect Q R w.
Proof.
  intros Hh HQ. unfold collect. wp_step. wp_step. destruct (state w) as [s|] eqn:Hs; [|wp_step; by apply HQ].
  destruct (hd_sound _ _ Hh s Hs) as [Hwf Ht]. pose proof (endpoints_bound s Hwf).
  destruct (collect_from_spec s (S MAX_ENDPOINTS) (replicate MAX_ENDPOINTS placeholder) 0) as (es & Hrun & Htake); [lia|lia|by rewrite length_replicate|done|].
  rewrite Hrun. change (wp (unwrap (Ok ?a) : M (list InstalledEndpoint * nat)) Q R w) with (Q a w). apply HQ; [|done].
  rewrite Htake. apply Forall_lookup. intros i ep Hep. by eapply endpoint_nonzero, list_elem_of_lookup_2.
Qed.

(** ** Control messages *)

Lemma wp_probe_each es x : forall w (Q : list bool -> W -> Prop),
  held x w -> (forall bs w', held x w' -> state w' = state w -> Q bs w') -> wp (probe_each es : M (list bool)) Q (failed x) w.
Proof.
  induction es as [|e es IH]; intros w Q Hh HQ; cbn [probe_each]; [wp_step; by apply HQ|].
  wp_step. apply (wp_try _ x); [done|]. intros a w1 Hh1 Hs1. wp_step. apply IH; [done|]. intros bs w2 Hh2 Hs2. wp_step. apply HQ; [done|congruence].
Qed.

Lemma wp_retire_closed es : forall closed x w,
  ready x w -> wp (retire_closed es closed : M unit) (fun _ => ready x) (failed x) w.
Proof.
  induction es as [|e es IH]; intros [|c closed] x w Hw; cbn [retire_closed]; try by wp_step.
  wp_step. eapply wp_mono with (Q := fun _ => ready x); [|intros u w1; apply IH|done]. destruct c; [by apply wp_retire|by wp_step].
Qed.

Lemma wp_sweep x w :
  held x w ->
  wp (sweep_closed_endpoints : M unit) (fun _ w' => held x w' /\ (is_Some (state w) -> is_Some (state w'))) (failed x) w.
Proof.
  intros Hh. unfold sweep_closed_endpoints. wp_step. apply (wp_collect x); [done|]. intros es count _ Hnone. wp_step.
  apply (wp_probe_each _ x); [done|]. intros closed w1 Hh1 Hs1. destruct (state w) as [s|] eqn:Hs.
  - eapply wp_mono; [apply (wp_retire_closed _ _ x); split; [done|rewrite Hs1; eauto]|intros u w2 [? ?]; by split|done].
  - rewrite (Hnone eq_refl). change (take 0 es) with (@nil InstalledEndpoint). cbn [retire_closed]. wp_step. split; [done|]. intros [? [=]].
Qed.

Lemma wp_catch {A} (c : M A) (Q : A -> W -> Prop) (P : ServiceError E -> W -> Prop) R w :
  wp c Q P w -> wp (catch c) (fun r => match r with inr a => Q a | inl e => P e end) R w.
Proof. unfold wp, catch. by destruct (c w) as [w' [a|e|]]. Qed.

Lemma held_install (m : Registry.M unit) s h x w :
  held ({[+ h +]} ⊎ x) w -> state w = Some s ->
  match m s with
  | (s', Ok _) => wf s' /\ tidy s' /\ hands s' = {[+ h +]} ⊎ hands s
  | (s', Err _) => s' = s
  | (_, Panic) => False
  end ->
  wp (on_state m) (fun r w' => held (match r with inr _ => x | inl _ => {[+ h +]} ⊎ x end) w' /\ is_Some (state w')) (failed x) w.
Proof.
  intros Hh Hs Hm. apply (wp_on_state _ s); [done|]. destruct (m s) as [s' [u|e|]]; [| |done].
  - destruct Hm as (Hwf & Ht & Hhands). split; [|by eexists]. destruct Hh as [_ Hl Hst]. split; [by intros ? [= <-]| |done].
    cbn [io control with_state]. rewrite Hl. unfold installed. rewrite Hs. cbn [state with_state from_option]. rewrite Hhands. multiset_solver.
  - subst s'. by rewrite (with_state_same s w Hs).
Qed.

Lemma wp_install h m hd s x w :
  held ({[+ hd +]} ⊎ x) w -> state w = Some s -> Service.is_install m = true -> body_valid m -> body_types m ->
  wp (install h m hd : M (RegistryError + unit))
    (fun r w' => held (match r with inr _ => x | inl _ => {[+ hd +]} ⊎ x end) w' /\ is_Some (state w')) (failed x) w.
Proof.
  intros Hh Hs Hi Hv Ht. destruct (hd_sound _ _ Hh s Hs) as [Hwf Htd]. destruct m; try discriminate Hi; apply (held_install _ s); try done.
  - by apply install_publication_effect.
  - by apply install_client_effect.
Qed.

Lemma ensure_state_held g x w : held x w -> held x (match state w with Some _ => w
  | None => mkWorld (control w) (match registry_new g with Ok s => Some s | _ => None end) (io w) end).
Proof.
  intros Hh. destruct (state w) as [s|] eqn:Hs; [done|]. destruct Hh as [_ Hl Hst]. unfold installed in Hl. rewrite Hs in Hl.
  destruct (registry_new g) as [s| |] eqn:Hn; split; cbn in *; try done.
  - intros s' [= <-]. by destruct (registry_new_effect g s Hn) as (? & ? & _).
  - rewrite Hl. unfold installed. cbn. destruct (registry_new_effect g s Hn) as (_ & _ & ->). done.
Qed.

(** Close the handle of a refused installation; the error stays. *)
Lemma wp_close_throw hd x e w :
  failed ({[+ hd +]} ⊎ x) e w -> wp (_ ← try_io (fun t : Ledger T => close t hd); throw e : M unit) (fun _ => held x) (failed x) w.
Proof.
  intros He. wp_step. unfold failed in He. destruct e as [f|e| |]; [destruct He as [z Hz]; rewrite (assoc_L (⊎)), (comm_L (⊎) z), <-(assoc_L (⊎)) in Hz|..].
  1: eapply wp_mono with (Q := fun _ => held (z ⊎ x)) (R := broken (z ⊎ x));
       [apply (wp_close_broken _ (z ⊎ x)); [done|]; by intros|intros u w' Hw'; wp_step; by exists z|intros e w' Hb; by eapply broken_failed, broken_less].
  all: apply (wp_close _ x); [done|]; intros w' Hh' _; by wp_step.
Qed.

(** An installation, once its message and its channel have passed. *)
Lemma wp_admit h m hd x w :
  held ({[+ hd +]} ⊎ x) w -> Service.is_install m = true -> body_valid m -> body_types m ->
  wp (swept ← (match m with MInstallClient _ => catch sweep_closed_endpoints | _ => mret (inr tt) end);
      match swept with
      | inl error => _ ← try_io (fun t : Ledger T => close t hd); throw error
      | inr _ =>
          s ← gets state;
          match s with
          | None => try_io (fun t : Ledger T => close t hd)
          | Some _ =>
              result ← install h m hd;
              match result with inl _ => try_io (fun t : Ledger T => close t hd) | inr _ => mret tt end
          end
      end : M unit) (fun _ => held x) (failed x) w.
Proof.
  intros Hh Hi Hv Ht. wp_step.
  eapply wp_mono with (Q := fun r w' => match r with inr _ => held ({[+ hd +]} ⊎ x) w' | inl e => failed ({[+ hd +]} ⊎ x) e w' end) (R := failed x); [| |done].
  { destruct m; try discriminate Hi; [by wp_step|]. eapply wp_mono; [apply wp_catch; by apply (wp_sweep ({[+ hd +]} ⊎ x))| |done].
    intros [e|u] w'; [done|]. by intros []. }
  intros [e|u] w1 Hw1; cbv beta iota; [by apply wp_close_throw|]. wp_step. wp_step. destruct (state w1) as [s|] eqn:Hs.
  - wp_step. eapply wp_mono; [by apply (wp_install h m hd s x)| |done]. intros [e|u'] w2 [Hh2 _]; [|by wp_step].
    apply (wp_close _ x); [done|]. by intros.
  - apply (wp_close _ x); [done|]. by intros.
Qed.

Lemma wp_receive_control x w : held x w -> wp (receive_control false : M unit) (fun _ => held x) (failed x) w.
Proof.
  intros Hh. unfold receive_control. wp_step. wp_step. wp_step. apply (wp_receive_call _ x); [done| |].
  { intros e w1 Hh1 _ _. wp_step. by apply held_failed. }
  intros counts bytes handles w1 Hh1 Hs1 Hlb Hlh Hok.
  assert (forall count, take count handles = take (handles_count counts) handles ->
    wp (close_received handles count : M unit) (fun _ => held x) (failed x) w1) as Hclose.
  { intros count Hc. rewrite <-Hc in Hh1. eapply wp_mono; [by apply wp_close_each|by intros u w2 []|intros; by apply broken_failed]. }
  destruct ((length bytes <? bytes_count counts)%nat || (length handles <? handles_count counts)%nat).
  { apply Hclose. by rewrite <-firstn_firstn, firstn_all. }
  set (data := take (bytes_count counts) bytes). assert (bytes_ok data) as Hdata by by apply Forall_take.
  destruct (parse false data (Z.of_nat (handles_count counts))) as [[h m]|e|] eqn:Hp; [|by apply Hclose|by apply wrrg_parse_no_panic in Hp].
  cbn [pm_header pm_message]. destruct handles as [|first handles]; [done|]. wp_step.
  change (wp (unwrap (or_panic (head (first :: handles))) : M ReceivedHandle) ?Q ?R w1) with (Q first w1). cbv beta.
  destruct (Service.is_install m && (handles_count counts =? 1)%nat) eqn:Hi; cycle 1.
  { wp_step. wp_step. cbn [negb]. by apply Hclose. }
  apply andb_true_iff in Hi as [Hi H1]. apply Nat.eqb_eq in H1. wp_step.
  apply (wp_succeeds _ (arrived (take (handles_count counts) (first :: handles)) ⊎ x)); [done|]. intros valid w2 Hh2 Hs2 Hvalid.
  destruct valid; cbn [negb]; cycle 1.
  { eapply wp_mono; [by apply wp_close_each|by intros u w3 []|intros; by apply broken_failed]. }
  destruct (Hvalid eq_refl) as (t & [] & Hnn). apply channel_not_null in Hnn.
  rewrite H1 in Hh2. change (take 1 (first :: handles)) with [first] in Hh2. rewrite arrived_one, (proj2 (Z.eqb_neq _ _) Hnn) in Hh2.
  apply parse_spec in Hp as [Hwire Hn]; [|by intros p ->]. pose proof (wire_types _ _ _ Hdata Hwire) as [_ Ht]. destruct Hwire as (_ & _ & _ & _ & Hv).
  wp_step. unfold ensure_state. wp_step. apply wp_admit; [|done|done|done]. by apply ensure_state_held.
Qed.

(** ** The step *)

Lemma wp_service_step w : held ∅ w -> wp (step false : M unit) (fun _ => held ∅) (failed ∅) w.
Proof.
  intros Hh. unfold step. wp_step. apply (wp_collect ∅); [done|]. intros es count Hnz Hnone. wp_step. wp_step. wp_step.
  apply (wp_try _ ∅); [done|]. intros event w1 Hh1 Hs1. destruct (endpoint_index event) as [index|]; cycle 1.
  { destruct (readable event); [by apply wp_receive_control|]. destruct (peer_closed_signal event); wp_step; by apply held_failed. }
  destruct (Nat.ltb_spec index count) as [Hlt|Hge]; [|wp_step; by apply held_failed].
  destruct (es !! index) as [endpoint|] eqn:He; [|wp_step; by apply held_failed].
  assert (nonzero (ie_identity endpoint)) as Hep.
  { rewrite Forall_lookup in Hnz. apply (Hnz index). by rewrite lookup_take_lt. }
  assert (ready ∅ w1) as Hw1.
  { split; [done|]. rewrite Hs1. destruct (state w) as [s|]; [by eexists|]. rewrite Hnone in Hlt by done. lia. }
  destruct (readable event).
  - eapply wp_mono; [by apply wp_receive_endpoint|by intros u w2 []|done].
  - destruct (peer_closed_signal event); [|wp_step; by apply held_failed]. eapply wp_mono; [by apply wp_retire|by intros u w2 []|done].
Qed.
(** ** The loop *)

Lemma wp_serve n w : held ∅ w -> wp (serve false n : M unit) (fun _ => held ∅) (failed ∅) w.
Proof.
  revert w. induction n as [|n IH]; intros w Hh; [by unfold wp|].
  change (serve false (S n)) with (step false (E := E) (T := Ledger T) ≫= fun _ => serve false n). wp_step.
  eapply wp_mono; [by apply wp_service_step| |done]. intros u w1. apply IH.
Qed.

Lemma held_start t : held ∅ (service_new c0 (mkLedger t (mkBooks {[+ c0 +]} false))).
Proof. split; [done| |done]. cbn [service_new io books live]. unfold installed. cbn [service_new state from_option]. multiset_solver. Qed.
End service.

(** C2: The registry service never panics, and it keeps its handles exactly.  Started
    with its control channel, over any transport and after any number of rounds, it
    holds that channel, the handles of the endpoints installed in the registry, and
    nothing else; it never closes or moves a handle it does not hold.  The same is
    true when it stops, except that a transport which refused a call may have left it
    with more.  Every retirement of a peer ends, though watchers that cannot be told
    are retired in turn.  (Overflow checks are not compiled in.) *)
Theorem registry_service_custody {T E} {transport : Transport T E} control t n :
  match serve false n (service_new control (mkLedger t (mkBooks {[+ control +]} false))) with
  | (w, Ok _) => held control ∅ w
  | (w, Err e) => failed control ∅ e w
  | (_, Panic) => False
  end.
Proof.
  pose proof (wp_serve control n _ (held_start control t)) as H. unfold wp in H.
  by destruct (serve false n _) as [w [a|e|]].
Qed.

(** ** A transport that follows a script *)

(** Each wait brings up a scene: an event, the datagram it carries, and the channels
    that are closed by then. *)
Record Scene := mkScene { sc_event : WaitEvent; sc_message : list Z; sc_handles : list ReceivedHandle; sc_dead : list Z }.
Record Script := mkScript { scenes : list Scene; now : Scene }.
Definition idle : Scene := mkScene (mkEvent None false true) [] [] [].
Definition fill {A} (buffer data : list A) : list A := take (length buffer) (data ++ drop (length data) buffer).
Definition answer (t : Script) (channel : Z) : unit + unit := if bool_decide (channel ∈ sc_dead (now t)) then inl tt else inr tt.

#[global] Program Instance script_transport : Transport Script unit := {
  wait t _ _ := match scenes t with s :: rest => (mkScript rest s, inr (sc_event s)) | [] => (t, inr (sc_event idle)) end;
  probe t e := (t, inr (mkSignals false (bool_decide (ie_handle e ∈ sc_dead (now t)))));
  receive t _ bytes handles :=
    (t, inr (mkCounts (length (sc_message (now t))) (length (sc_handles (now t)))),
     (fill bytes (map (fun b => b mod 256) (sc_message (now t))), fill handles (sc_handles (now t))));
  validate_channel t h _ := (t, if handle h =? 0 then inl tt else inr tt);
  send t channel _ := (t, answer t channel);
  send_move t channel _ _ _ := (t, answer t channel);
  close t _ := (t, inr tt) }.
Next Obligation. intros. cbn. unfold fill. rewrite !length_take, !length_app, !length_drop. lia. Qed.
Next Obligation.
  intros t channel bytes handles Hb. cbn. unfold fill. apply Forall_take, Forall_app. split; [|by apply Forall_drop].
  apply Forall_map, Forall_true. intros b. unfold in_u8. pose proof (Z.mod_pos_bound b 256). lia.
Qed.
Next Obligation. intros t h rights. cbn. destruct (Z.eqb_spec (handle h) 0); [done|by intros]. Qed.

Definition message_bytes (r : res Error (Z * list Z)) : list Z := match r with Ok (n, bs) => take (Z.to_nat n) bs | _ => [] end.
Definition datagram_on (i : option nat) : WaitEvent := mkEvent i true false.
Definition channel_handle (h : Z) : ReceivedHandle := mkReceived h true 0.

(** A publisher on channel 200 and a client on channel 100 are installed; the
    publisher publishes, the client watches; both close before the control peer asks
    to install a second client. *)
Definition both_closed : list Scene :=
  let buffer := replicate MAX_MESSAGE_BYTES 0 in [
  mkScene (datagram_on None) (message_bytes (encode_install_publication (mkHeader MtInstallPublication 7 0 0 1) 2 1 1 9 4 17 [mkVersion 1 0] [97] buffer)) [channel_handle 200] [];
  mkScene (datagram_on None) (message_bytes (encode_install_client (mkHeader MtInstallClient 7 0 0 2) (mkInstallClient 1 1 5 1 BootstrapMetadata) buffer)) [channel_handle 100] [];
  mkScene (datagram_on (Some 0%nat)) (message_bytes (encode_empty (mkHeader MtPublish 7 2 1 60) buffer)) [] [];
  mkScene (datagram_on (Some 1%nat)) (message_bytes (encode_watch (mkHeader MtWatch 7 1 1 50) (mkWatch 17 4 [97]) buffer)) [] [];
  mkScene (datagram_on None) (message_bytes (encode_install_client (mkHeader MtInstallClient 7 0 0 3) (mkInstallClient 8 1 6 1 BootstrapMetadata) buffer)) [channel_handle 300] [100; 200]].

Lemma registry_service_custody_witness :
  let start := service_new 9 (mkLedger (mkScript both_closed idle) (mkBooks {[+ 9 +]} false)) in
  (serve false 4 start).2 = Ok tt /\
  match serve false 4 start with (w, Ok _) => held 9 ∅ w | (w, Err e) => failed 9 ∅ e w | (_, Panic) => False end.
Proof. cbv zeta. split; [by vm_compute|]. apply (registry_service_custody 9 (mkScript both_closed idle) 4). Defined.
