(* ===== verification/ServiceSweep.v ===== *)
(** * The sweep of closed endpoints and the clients that watch them

    [sweep_closed_endpoints] collects the closed endpoints first and retires them one
    by one.  Retiring a publication notifies its watchers, and a watcher that cannot
    be told is retired on the spot; when the sweep comes to it the registry does not
    know it any more. *)

From stdpp Require Import base tactics option list list_numbers gmultiset.
From Stdlib Require Import ZArith Lia.
From S2P Require Import Prelude StateM Bytes Utf8 RegistryProto RegistryWire RegistryCodec Registry RegistryReplay RegistryInv RegistryOps RegistryThms Service ServiceInv ServiceThms.
Import RegistryProto Registry Service.

(** ** What a retirement does to the registry *)

Definition publishes (s : RegistryState) (e : EndpointIdentity) : Prop :=
  exists i x p, services s !! i = Some (Some x) /\ active x = Some p /\ p_endpoint p = e.
Definition serves (s : RegistryState) (e : EndpointIdentity) : Prop := exists i c, clients s !! i = Some (Some c) /\ c_endpoint c = e.

(** Client [client], reached on [handle], waits for news of the service endpoint [e]
    publishes, of which it has seen a generation. *)
Definition watching (s : RegistryState) (e client : EndpointIdentity) (handle : Z) : Prop :=
  exists i x p j w, services s !! i = Some (Some x) /\ active x = Some p /\ p_endpoint p = e /\
    watches s !! j = Some (Some w) /\ w_client w = client /\ w_client_handle w = handle /\
    w_protocol_id w = protocol_id p /\ watch_name w = slot_name x /\ w_last_generation w <> 0.

Section registry.
(** The registry the sweep starts with. *)
Context (s0 : RegistryState) (Hwf0 : wf s0).
Implicit Types (s : RegistryState) (e : EndpointIdentity).

(** Nothing was installed since. *)
Record shrunk s : Prop := mkShrunk {
  sh_wf : wf s;
  sh_tidy : tidy s;
  sh_publishes : forall e, publishes s e -> publishes s0 e;
  sh_serves : forall e, serves s e -> serves s0 e }.

(** An id is installed once. *)
Lemma one_client e d : serves s0 e -> serves s0 d -> id d = id e -> d = e.
Proof.
  intros (i & c & Hi & <-) (j & b & Hj & <-) Hid. destruct (wf_ids _ (proj1 Hwf0)) as [Hinj _].
  assert (inr i = inr j :> nat + nat) as [= ->]; [|congruence]. eapply (Hinj _ _ (id (c_endpoint c))); [by exists c|by exists b].
Qed.
Lemma one_kind e d : serves s0 e -> publishes s0 d -> id d <> id e.
Proof.
  intros (i & c & Hi & <-) (j & x & p & Hj & Hp & <-) Hid. destruct (wf_ids _ (proj1 Hwf0)) as [Hinj _].
  assert (inr i = inl j :> nat + nat); [|done]. eapply (Hinj _ _ (id (c_endpoint c))); [by exists c|by exists x, p].
Qed.

Lemma client_unknown s e : ~ serves s e -> (forall d, serves s d -> id d = id e -> d = e) -> client_index e s = Err RUnknownEndpoint.
Proof.
  intros Hn Hone. unfold client_index. destruct (position _ _) as [k|] eqn:Hp; [|done]. exfalso.
  apply position_Some in Hp as ([c|] & Hk & Hc & _); [|done]. bool_prop. apply Hn. exists k, c. split; [done|]. apply Hone; [by exists k, c|done].
Qed.

(** A client: unknown, or removed with its watches. *)
Lemma close_client s e : shrunk s -> serves s0 e ->
  match peer_closed e s with
  | (s', Ok o) => shrunk s' /\ pc_notifications o = notifications_new /\ services s' = services s /\
      (forall d, serves s' d -> serves s d) /\ ~ serves s' e /\ serves s e /\
      forall j w, watches s !! j = Some (Some w) -> w_client w <> e -> watches s' !! j = Some (Some w)
  | (_, Err err) => err = RUnknownEndpoint
  | (_, Panic) => False
  end.
Proof.
  intros [Hw Ht HP HS] He. pose proof (peer_closed_effect s e Hw Ht) as Hgen. revert Hgen. unfold peer_closed, mbind, M_bind, reads.
  destruct (publication_index e s) as [k|err|] eqn:Hpi; [exfalso| |by destruct (publication_index_not_panic e s)].
  { apply (one_kind e e He); [|done]. apply HP. destruct (publication_index_Ok_1 _ _ _ Hpi) as (x & p & H1 & H2 & H3). by exists k, x, p. }
  destruct (client_index e s) as [i|err'|] eqn:Hci; [| |by destruct (client_index_not_panic e s)].
  - destruct (client_index_Ok_1 _ _ _ Hci) as (c & Hi & Hc). rewrite (run_client_at _ _ _ Hi). simpl. intros (Hw' & Ht' & _).
    match goal with |- shrunk ?s' /\ _ => set (s2 := s') in * end.
    assert (forall d, serves s2 d -> serves s d) as Hsub.
    { intros d (j & b & [(_ & [=] & _)|[_ Hj]]%insert_Some_inv & Hb). by exists j, b. }
    split_and!; try done.
    + split; try done. intros d Hd. by apply HS, Hsub.
    + intros (j & b & Hj & Hb). apply insert_Some_inv in Hj as [(_ & [=] & _)|[Hne Hj]]. apply Hne.
      assert (inr i = inr j :> nat + nat) as [= ->]; [|done]. eapply (proj1 (wf_ids _ (proj1 Hw)) _ _ (id e)); [exists c; split; [done|by rewrite Hc]|exists b; split; [done|by rewrite Hb]].
    + by exists i, c.
    + intros j w Hj Hne. simpl. rewrite list_lookup_fmap, Hj. simpl. by rewrite bool_decide_eq_false_2.
  - intros _. assert (~ serves s e) as Hn.
    { intros (i & c & Hi & Hc). rewrite (client_index_Ok_2 e s i c (wf_ids _ (proj1 Hw)) Hi Hc) in Hci. done. }
    rewrite (client_unknown s e Hn) in Hci by (intros d Hd; by apply (one_client e d He), HS). by injection Hci as <-.
Qed.

(** The clients are what the view shows. *)
Lemma serves_view s s' : client_views s' = client_views s -> forall e, serves s' e -> serves s e.
Proof.
  intros Hv e (i & c & Hi & <-). assert (client_views s !! i = Some (Some (client_view c))) as H by (rewrite <-Hv; unfold client_views; by rewrite list_lookup_fmap, Hi).
  unfold client_views in H. rewrite list_lookup_fmap in H. destruct (clients s !! i) as [[b|]|] eqn:Hb; simplify_eq/=. exists i, b. split; [done|].
  unfold client_view in H. congruence.
Qed.

(** A publication: unknown, or withdrawn, with a note for each watch of the service. *)
Lemma close_publication s e : shrunk s -> publishes s0 e ->
  match peer_closed e s with
  | (s', Ok o) => shrunk s' /\ (forall d, serves s' d -> serves s d) /\
      exists i x p, services s !! i = Some (Some x) /\ active x = Some p /\ p_endpoint p = e /\
        services s' = <[i := Some (with_active x None)]> (services s) /\
        watches s' = swept (protocol_id p) (slot_name x) 0 <$> watches s /\
        notes (pc_notifications o) (matched (protocol_id p) (slot_name x) 0 (watches s))
  | (_, Err err) => err = RUnknownEndpoint
  | (_, Panic) => False
  end.
Proof.
  intros [Hw Ht HP HS] He. pose proof (peer_closed_effect s e Hw Ht) as Hgen. revert Hgen. unfold peer_closed, mbind, M_bind, reads.
  destruct (publication_index e s) as [i|err|] eqn:Hpi; [| |by destruct (publication_index_not_panic e s)].
  - destruct (publication_index_Ok_1 _ _ _ Hpi) as (x & p & Hi & Hp & Hpe).
    rewrite (run_publication_at _ _ _ _ Hi Hp), (run_set_publication _ _ _ _ Hi).
    rewrite (run_slot_at _ i (with_active x None)) by by apply (lookup_insert_slot s i x).
    destruct (unpublish_run s i x p Hw Hi Hp) as (s' & n & Hn & Hw' & Ho & HW & HN & _).
    pose proof (keeps_notify (protocol_id p) (slot_name x) 0 (set_services s (<[i := Some (with_active x None)]> (services s)))) as Hk.
    change (slot_name (with_active x None)) with (slot_name x). rewrite Hn in *. simpl in *. intros (_ & Ht' & _).
    assert (services s' = <[i := Some (with_active x None)]> (services s)) as Hs' by by rewrite Ho.
    assert (forall d, serves s' d -> serves s d) as Hsub by (intros d Hd; unfold view in Hk; injection Hk as _ _ Hk; by apply (serves_view _ _ Hk) in Hd).
    split_and!; [|done|by exists i, x, p]. split; [done|done| |intros d Hd; by apply HS, Hsub].
    intros d (j & y & q & Hj & Hq & Hd). rewrite Hs' in Hj. apply insert_Some_inv in Hj as [(_ & [= <-] & _)|[_ Hj]]; [done|]. apply HP. by exists j, y, q.
  - intros _. rewrite (client_unknown s e).
    + done.
    + intros Hd. by apply (one_kind e e (HS _ Hd) He).
    + intros d Hd Hid. exfalso. by apply (one_kind d e (HS _ Hd) He).
Qed.

(** A watch lasts until its client or its publication is retired. *)
Lemma watch_kept s s' ep client handle : services s' = services s -> (forall j w, watches s !! j = Some (Some w) -> w_client w = client -> watches s' !! j = Some (Some w)) ->
  watching s ep client handle -> watching s' ep client handle.
Proof. intros Hs Hw (i & x & p & j & w & H1 & H2 & H3 & H4 & H5 & H6). exists i, x, p, j, w. rewrite Hs. eauto 10. Qed.

Lemma watch_kept_publication s s' e i x p ep client handle : shrunk s -> services s !! i = Some (Some x) -> active x = Some p -> p_endpoint p = e -> e <> ep ->
  services s' = <[i := Some (with_active x None)]> (services s) -> watches s' = swept (protocol_id p) (slot_name x) 0 <$> watches s ->
  watching s ep client handle -> watching s' ep client handle.
Proof.
  intros Hsh Hi Hp He Hne Hs' HW (k & y & q & j & w & Hk & Hq & Hqe & Hj & Hc & Hh & Hpr & Hn & Hg).
  assert (i <> k) as Hik by (intros ->; congruence). exists k, y, q, j, w. rewrite Hs', list_lookup_insert_ne by done. split_and!; try done.
  rewrite HW, list_lookup_fmap, Hj. cbn [fmap option_fmap option_map swept]. unfold watch_matches.
  rewrite (bool_decide_eq_false_2 (watch_name w = slot_name x)), andb_false_r; [done|].
  intros Heq. apply Hik. eapply (wf_services _ (proj1 (sh_wf _ Hsh))); [exact Hi|exact Hk|congruence].
Qed.

(** The note of a watch, and what every note names. *)
Lemma watch_noted s e client handle i x p : shrunk s -> services s !! i = Some (Some x) -> active x = Some p -> p_endpoint p = e -> watching s e client handle ->
  exists n, n ∈ matched (protocol_id p) (slot_name x) 0 (watches s) /\ wn_client n = client /\ wn_client_handle n = handle.
Proof.
  intros Hsh Hi Hp He (k & y & q & j & w & Hk & Hq & Hqe & Hj & Hc & Hh & Hpr & Hn & Hg).
  assert (inl i = inl k :> nat + nat) as [= ->].
  { eapply (proj1 (wf_ids _ (proj1 (sh_wf _ Hsh))) _ _ (id e)); [exists x, p|exists y, q]; split_and!; try done; congruence. }
  exists (note_of 0 w). split_and!; [|done|done]. apply list_elem_of_fmap_2, list_elem_of_filter. split; [|apply elem_of_flatten_lookup; by exists j].
  assert (y = x) as -> by congruence. assert (q = p) as -> by congruence.
  unfold watch_matches. rewrite Hpr, Z.eqb_refl, Hn, bool_decide_eq_true_2 by done. by destruct (Z.eqb_spec (w_last_generation w) 0).
Qed.
Lemma note_served s protocol name g n : shrunk s -> n ∈ matched protocol name g (watches s) -> serves s0 (wn_client n).
Proof.
  intros Hsh (w & -> & [_ (j & Hj)%elem_of_flatten_lookup]%list_elem_of_filter)%list_elem_of_fmap. apply (sh_serves _ Hsh).
  destruct (wf_watches _ (proj1 (sh_wf _ Hsh))) as (_ & Hww & _). destruct (Hww j w Hj) as (_ & _ & i & c & Hi & Hc & _). by exists i, c.
Qed.
End registry.

(** ** The sweep *)

Section sweep.
Context (s0 : RegistryState) (Hwf0 : wf s0) {T E : Type} {transport : Transport T E}.
Abbreviation W := (World T).
Abbreviation M := (SM W (ServiceError E)).
Implicit Types (s : RegistryState) (w : W) (endpoint : InstalledEndpoint).

(** How a sweep may end early. *)
Definition stopped (e : ServiceError E) (_ : W) : Prop := (exists refusal, e = TransportError refusal) \/ e = StateError RUnknownEndpoint.
(** A channel that takes no message any more. *)
Definition dead (handle : Z) : Prop := forall (t : T) bytes, exists e : E, (send t handle bytes).2 = inl e.
(** A channel no probe finds open. *)
Definition shut endpoint : Prop := forall (t : T) signals, (probe t endpoint).2 = inr (A := E) signals -> probe_peer_closed signals = true.

(** [s'] comes after [s], by retiring clients. *)
Record later s s' : Prop := mkLater {
  la_shrunk : shrunk s0 s';
  la_serves : forall d, serves s' d -> serves s d;
  la_services : services s' = services s;
  la_watches : forall j v, watches s !! j = Some (Some v) -> serves s' (w_client v) -> watches s' !! j = Some (Some v) }.

Lemma later_refl s : shrunk s0 s -> later s s.
Proof. by split. Qed.
Lemma later_trans s1 s2 s3 : later s1 s2 -> later s2 s3 -> later s1 s3.
Proof. intros [H1 H2 H3 H4] [G1 G2 G3 G4]. split; [done|auto|congruence|auto]. Qed.
Lemma serves_or s e : wf s -> serves s e \/ ~ serves s e.
Proof.
  intros [Hw _]. destruct (client_index e s) as [i|err|] eqn:H; [left|right|by destruct (client_index_not_panic e s)].
  - destruct (client_index_Ok_1 _ _ _ H) as (c & ? & ?). by exists i, c.
  - intros (i & c & Hi & Hc). by rewrite (client_index_Ok_2 e s i c (wf_ids _ Hw) Hi Hc) in H.
Qed.

(** Either the client is gone, or it still watches. *)
Definition doomed s (ep client : EndpointIdentity) (handle : Z) : Prop := ~ serves s client \/ watching s ep client handle.
Lemma doomed_later s s' ep client handle : later s s' -> doomed s ep client handle -> doomed s' ep client handle.
Proof.
  intros [Hsh Hsub Hs Hw] [Hn|Hd]; [left; auto|]. destruct (serves_or s' client (sh_wf _ _ Hsh)) as [Hc|]; [right|by left].
  eapply watch_kept; [done| |done]. intros j v Hj Hv. apply Hw; [done|by rewrite Hv].
Qed.

Lemma wp_io {A} (op : T -> T * (E + A)) w (Q : A -> W -> Prop) :
  (forall a w', state w' = state w -> (op (io w)).2 = inr a -> Q a w') -> wp (try_io op) Q stopped w.
Proof.
  intros HQ. unfold try_io, call, wp, mbind, SM_bind. destruct (op (io w)) as [t [e|a]] eqn:Hop; cbn; [left; by eexists|]. by apply HQ.
Qed.

Definition after s w : W := mkWorld (control w) (Some s) (io w).
Lemma wp_registry {A} (m : Registry.M A) s w (Q : (RegistryError + A) -> W -> Prop) (R : ServiceError E -> W -> Prop) : state w = Some s ->
  match m s with
  | (s', Ok a) => Q (inr a) (after s' w)
  | (s', Err e) => Q (inl e) (after s' w)
  | (_, Panic) => False
  end -> wp (on_state m) Q R w.
Proof. intros Hs H. unfold wp, on_state. rewrite Hs. by destruct (m s) as [s' [a|e|]]. Qed.

(** Tell a watcher. *)
Lemma wp_tell channel h g w (Q : bool -> W -> Prop) R : header_valid (with_type MtGenerationChanged h) ->
  (forall b w', state w' = state w -> (dead channel -> b = false) -> Q b w') -> wp (send_generation channel h g) Q R w.
Proof.
  intros Hv HQ. destruct (encodes_generation_changed _ g (replicate 72 0) Hv eq_refl eq_refl) as (n & out & He & Hn).
  destruct (proj2 (get_range_is_Some out 0 n) ltac:(lia)) as [bytes Hb].
  unfold send_generation, datagram, succeeds, call, wp, mbind, SM_bind, unwrap. rewrite He. cbn. rewrite Hb. cbn.
  destruct (send (io w) channel bytes) as [t r] eqn:Hs. cbn. apply HQ; [done|]. intros Hd. destruct (Hd (io w) bytes) as [e Hr]. rewrite Hs in Hr. cbn in Hr. by subst.
Qed.

(** Retire a client. *)
Lemma wp_client fuel endpoint w s (Q : unit -> W -> Prop) : state w = Some s -> shrunk s0 s -> serves s0 (ie_identity endpoint) ->
  (forall w' s', state w' = Some s' -> later s s' -> serves s (ie_identity endpoint) -> ~ serves s' (ie_identity endpoint) -> Q tt w') ->
  wp (retire_peer_from (S fuel) endpoint) Q stopped w.
Proof.
  intros Hs Hsh He HQ. cbn [retire_peer_from]. wp_step. wp_step. rewrite Hs. wp_step. pose proof (close_client s0 Hwf0 s _ Hsh He) as Hc.
  apply (wp_registry _ s); [done|]. destruct (peer_closed _ s) as [s' [o|err|]]; [|wp_step; right; by subst|done].
  destruct Hc as (Hsh' & Hn & Hserv & Hsub & Hgone & Hhad & Hwat). wp_step. apply wp_io. intros [] w' Hw' _. rewrite Hn. cbn [wns_len notifications_new notify_each].
  wp_step. apply (HQ w' s'); [done| |done|done]. split; try done. intros j v Hj Hv. apply Hwat; [done|]. intros Heq. apply Hgone. by rewrite <-Heq.
Qed.

Definition remover (fuel : nat) endpoint : M unit :=
  s ← gets state; match s with Some _ => retire_peer_from (S fuel) endpoint | None => mret tt end.

(** Tell the watchers: the ones that cannot be told are gone afterwards. *)
Lemma wp_notes fuel values L count : forall index w s (Q : unit -> W -> Prop),
  notes values L -> Forall (fun y => nonzero (wn_client y) /\ wn_transaction_id y <> 0) L -> Forall (fun y => serves s0 (wn_client y)) L ->
  (index + count = length L)%nat -> state w = Some s -> shrunk s0 s ->
  (forall w' s', state w' = Some s' -> later s s' ->
     (forall k y, (index <= k)%nat -> L !! k = Some y -> dead (wn_client_handle y) -> ~ serves s' (wn_client y)) -> Q tt w') ->
  wp (notify_each (remover fuel) values index count) Q stopped w.
Proof.
  induction count as [|count IH]; intros index w s Q HN HL HS Hlen Hs Hsh HQ; cbn [notify_each].
  { wp_step. apply (HQ w s); [done|by apply later_refl|]. intros k y Hk Hy. apply lookup_lt_Some in Hy. lia. }
  destruct (lookup_lt_is_Some_2 L index ltac:(lia)) as [y Hy]. wp_step. rewrite (notifications_get_notes _ _ _ HN), Hy.
  change (wp (unwrap (or_panic (Some y)) : M WatchNotification) ?Q ?R w) with (Q y w). cbv beta.
  wp_step. unfold generation. wp_step. wp_step. rewrite Hs.
  change (wp (unwrap (or_panic (r_generation <$> Some s)) : M Z) ?Q ?R w) with (Q (r_generation s) w). cbv beta zeta.
  pose proof HL as HL'. rewrite Forall_lookup in HL'. destruct (HL' _ _ Hy) as [[Hid Hgen] Htx]. destruct (sh_tidy _ _ Hsh) as (Hg & _).
  pose proof HS as HS'. rewrite Forall_lookup in HS'. specialize (HS' _ _ Hy). cbv beta in HS'.
  wp_step. apply wp_tell; [split_conj; done|]. intros b w1 Hw1 Hdead. rewrite Hs in Hw1. wp_step.
  assert (forall w' s', state w' = Some s' -> later s s' -> (dead (wn_client_handle y) -> ~ serves s' (wn_client y)) ->
    wp (notify_each (remover fuel) values (S index) count) Q stopped w') as Hrest.
  { intros w' s' Hw' Hlat Hgone. apply (IH (S index) w' s'); [done|done|done|lia|done|apply Hlat|]. intros w2 s2 Hw2 Hlat2 Hafter.
    apply (HQ w2 s2); [done|by eapply later_trans|]. intros k z Hk Hz Hd. destruct (decide (k = index)) as [->|]; [|apply (Hafter k z); [lia|done|done]].
    assert (z = y) as -> by congruence. intros Hc. by apply Hgone; [|apply (la_serves _ _ Hlat2)]. }
  destruct b; cbn [negb].
  - wp_step. apply (Hrest w1 s); [done|by apply later_refl|]. intros Hd. by specialize (Hdead Hd).
  - unfold remover at 1. wp_step. wp_step. rewrite Hw1. apply (wp_client _ _ _ s); [done|done|done|]. intros w2 s2 Hw2 Hlat _ Hgone. by apply (Hrest w2 s2).
Qed.

Section doomed.
Context (ep client : EndpointIdentity) (handle : Z) (Hdead : dead handle).

(** Retire a publication: if it is the watched one, the watcher is gone. *)
Lemma wp_publication fuel endpoint w s (Q : unit -> W -> Prop) : state w = Some s -> shrunk s0 s -> publishes s0 (ie_identity endpoint) -> doomed s ep client handle ->
  (forall w' s', state w' = Some s' -> shrunk s0 s' -> doomed s' ep client handle ->
     (~ serves s client \/ ie_identity endpoint = ep -> ~ serves s' client) -> Q tt w') ->
  wp (retire_peer_from (S (S fuel)) endpoint) Q stopped w.
Proof.
  intros Hs Hsh He Hd HQ. cbn [retire_peer_from]. wp_step. wp_step. rewrite Hs. wp_step. pose proof (close_publication s0 Hwf0 s _ Hsh He) as Hc.
  apply (wp_registry _ s); [done|]. destruct (peer_closed _ s) as [s' [o|err|]]; [|wp_step; right; by subst|done].
  destruct Hc as (Hsh' & Hsub & i & x & p & Hi & Hp & Hpe & Hserv & Hwat & HN). wp_step. apply wp_io. intros [] w' Hw' _. cbn [state after] in Hw'.
  set (L := matched _ _ _ _) in *. pose proof HN as (_ & -> & _).
  apply (wp_notes fuel _ L _ 0 w' s'); [done|apply matched_sendable; apply Hsh| |done|done|done|].
  { apply Forall_lookup. intros k n Hn%list_elem_of_lookup_2. exact (note_served s0 s (protocol_id p) (slot_name x) 0 n Hsh Hn). }
  intros w2 s2 Hw2 Hlat Hnotes.
  assert (~ serves s client -> ~ serves s2 client) as Hgone by (intros Hn Hc; by apply Hn, Hsub, (la_serves _ _ Hlat)).
  assert (watching s ep client handle -> ie_identity endpoint = ep -> ~ serves s2 client) as Hwatched.
  { intros Hw Heq. rewrite Heq in Hpe. destruct (watch_noted s0 s ep client handle i x p Hsh Hi Hp Hpe Hw) as (n & [k Hk]%list_elem_of_lookup_1 & <- & Hh).
    apply (Hnotes k n); [lia|done|by rewrite Hh]. }
  apply (HQ w2 s2); [done|apply Hlat| |].
  - destruct Hd as [Hn|Hw]; [left; auto|]. destruct (decide (ie_identity endpoint = ep)) as [Heq|Hne]; [left; auto|].
    eapply doomed_later; [exact Hlat|]. right. by apply (watch_kept_publication s0 s s' (ie_identity endpoint) i x p).
  - destruct Hd as [Hn|Hw]; [auto|]. intros [Hn|Heq]; auto.
Qed.

(** The closed publications. *)
Lemma wp_publications es : forall closed w s (Q : unit -> W -> Prop), Forall (fun e => publishes s0 (ie_identity e)) es ->
  state w = Some s -> shrunk s0 s -> doomed s ep client handle ->
  (forall w' s', state w' = Some s' -> shrunk s0 s' ->
     (~ serves s client \/ (exists k e, es !! k = Some e /\ ie_identity e = ep /\ closed !! k = Some true) -> ~ serves s' client) -> Q tt w') ->
  wp (retire_closed es closed) Q stopped w.
Proof.
  induction es as [|e es IH]; intros closed w s Q Hes Hs Hsh Hd HQ.
  { cbn [retire_closed]. wp_step. apply (HQ w s); [done|done|]. by intros [?|(k & e & [=] & _)]. }
  apply Forall_cons_iff in Hes as [He Hes]. destruct closed as [|c closed]; cbn [retire_closed].
  { wp_step. apply (HQ w s); [done|done|]. by intros [?|(k & e' & _ & _ & [=])]. }
  wp_step. destruct c.
  - unfold retire_peer, RETIRE_FUEL, MAX_ENDPOINTS. apply (wp_publication _ e w s); [done..|]. intros w1 s1 Hw1 Hsh1 Hd1 Hgone1.
    apply (IH closed w1 s1); [done..|]. intros w2 s2 Hw2 Hsh2 Hgone2. apply (HQ w2 s2); [done|done|].
    intros [Hn|([|k] & e' & Hk & Heq & Hc)]; [by apply Hgone2; left; auto|injection Hk as <-; by apply Hgone2; left; auto|]. apply Hgone2. right. by exists k, e'.
  - wp_step. apply (IH closed w s); [done..|]. intros w2 s2 Hw2 Hsh2 Hgone2. apply (HQ w2 s2); [done|done|].
    intros [Hn|([|k] & e' & Hk & Heq & Hc)]; [by apply Hgone2; left|done|]. apply Hgone2. right. by exists k, e'.
Qed.

(** The closed clients: the one that is gone stops the sweep. *)
Lemma wp_clients es : forall closed w s (Q : unit -> W -> Prop), Forall (fun e => serves s0 (ie_identity e)) es ->
  state w = Some s -> shrunk s0 s -> ~ serves s client ->
  (exists k e, es !! k = Some e /\ ie_identity e = client /\ closed !! k = Some true) -> wp (retire_closed es closed) Q stopped w.
Proof.
  induction es as [|e es IH]; intros closed w s Q Hes Hs Hsh Hn (k & e' & Hk & He' & Hc); [done|]. apply Forall_cons_iff in Hes as [He Hes].
  destruct closed as [|c closed]; [done|]. cbn [retire_closed]. wp_step. destruct c.
  - unfold retire_peer, RETIRE_FUEL, MAX_ENDPOINTS. apply (wp_client _ e w s); [done..|]. intros w1 s1 Hw1 Hlat Hhad _. destruct k as [|k].
    + injection Hk as <-. by rewrite He' in Hhad.
    + apply (IH closed w1 s1); [done|done|apply Hlat| |by exists k, e']. intros Hc1. by apply Hn, (la_serves _ _ Hlat).
  - wp_step. destruct k as [|k]; [done|]. apply (IH closed w s); [done..|]. by exists k, e'.
Qed.
End doomed.

Lemma wp_probes es : forall w (Q : list bool -> W -> Prop),
  (forall closed w', state w' = state w -> length closed = length es -> (forall k e, es !! k = Some e -> shut e -> closed !! k = Some true) -> Q closed w') ->
  wp (probe_each es) Q stopped w.
Proof.
  induction es as [|e es IH]; intros w Q HQ; cbn [probe_each]; [wp_step; by apply HQ|].
  wp_step. apply wp_io. intros signals w1 Hw1 Hp. wp_step. apply IH. intros closed w2 Hw2 Hl Hs. wp_step. apply HQ; [congruence|cbn; lia|].
  intros [|k] e' Hk Hsh; [|by apply (Hs k e')]. injection Hk as <-. cbn. by rewrite (Hsh _ _ Hp).
Qed.

Lemma wp_retire_app es1 es2 : forall closed1 closed2 w (Q : unit -> W -> Prop) R, length closed1 = length es1 ->
  wp (retire_closed es1 closed1) (fun _ => wp (retire_closed es2 closed2) Q R) R w -> wp (retire_closed (es1 ++ es2) (closed1 ++ closed2) : M unit) Q R w.
Proof.
  induction es1 as [|e es1 IH]; intros [|c closed1] closed2 w Q R Hl; try done. cbn [app retire_closed]. unfold wp, mbind, SM_bind.
  destruct ((if (c : bool) then retire_peer e else mret tt) w) as [w' [[]|err|]]; try done. intros H. apply (IH closed1 closed2 w' Q R); [cbn in Hl; lia|done].
Qed.
End sweep.

(** ** What the sweep does with a closed publication whose watcher is closed *)

Definition publication_endpoint (p : Publication) : InstalledEndpoint := mkInstalledEndpoint (p_endpoint p) (p_handle p) KPublication.
Definition client_endpoint (c : Client) : InstalledEndpoint := mkInstalledEndpoint (c_endpoint c) (c_handle c) KClient.
Definition publication_endpoints (s : RegistryState) : list InstalledEndpoint :=
  flatten ((fun y : ServiceSlot => publication_endpoint <$> active y) <$> flatten (services s)).
Definition client_endpoints (s : RegistryState) : list InstalledEndpoint := client_endpoint <$> flatten (clients s).

Lemma publications_published s : Forall (fun e => publishes s (ie_identity e)) (publication_endpoints s).
Proof.
  apply Forall_lookup. intros k e He%list_elem_of_lookup_2. apply elem_of_flatten, list_elem_of_fmap in He as (y & Hy & (i & Hi)%elem_of_flatten_lookup).
  destruct (active y) as [p|] eqn:Hp; [|done]. injection Hy as ->. by exists i, y, p.
Qed.
Lemma clients_served s : Forall (fun e => serves s (ie_identity e)) (client_endpoints s).
Proof.
  apply Forall_lookup. intros k e He%list_elem_of_lookup_2. apply list_elem_of_fmap in He as (c & -> & (i & Hi)%elem_of_flatten_lookup). by exists i, c.
Qed.

Lemma sweep_stops {T E} {transport : Transport T E} (w : World T) s i x p client_slot c :
  state w = Some s -> wf s -> tidy s ->
  services s !! i = Some (Some x) -> active x = Some p -> clients s !! client_slot = Some (Some c) ->
  watching s (p_endpoint p) (c_endpoint c) (c_handle c) -> dead (E := E) (T := T) (c_handle c) ->
  shut (E := E) (T := T) (publication_endpoint p) -> shut (E := E) (T := T) (client_endpoint c) ->
  wp (sweep_closed_endpoints : SM (World T) (ServiceError E) unit) (fun _ _ => False) stopped w.
Proof.
  intros Hs Hw Ht Hi Hp Hc Hwat Hdead Hshut_p Hshut_c. unfold sweep_closed_endpoints, collect. wp_step. wp_step. wp_step. rewrite Hs.
  pose proof (endpoints_bound s Hw).
  destruct (collect_from_spec s (S MAX_ENDPOINTS) (replicate MAX_ENDPOINTS placeholder) 0) as (es & Hrun & Htake); [lia|lia|by rewrite length_replicate|done|].
  rewrite Hrun. change (wp (unwrap (Ok ?a) : SM (World T) (ServiceError E) (list InstalledEndpoint * nat)) ?Q ?R w) with (Q a w). cbv beta iota. rewrite Htake.
  change (endpoints_of s) with (publication_endpoints s ++ client_endpoints s). wp_step. apply wp_probes. intros closed w1 Hw1 Hl Hclosed.
  rewrite <-(take_drop (length (publication_endpoints s)) closed). rewrite length_app in Hl.
  apply wp_retire_app; [rewrite length_take; lia|].
  assert (publication_endpoint p ∈ publication_endpoints s) as [kp Hkp]%list_elem_of_lookup_1.
  { apply elem_of_flatten, list_elem_of_fmap. exists x. rewrite Hp. split; [done|]. apply elem_of_flatten_lookup. by exists i. }
  assert (client_endpoint c ∈ client_endpoints s) as [kc Hkc]%list_elem_of_lookup_1.
  { apply list_elem_of_fmap_2, elem_of_flatten_lookup. by exists client_slot. }
  pose proof (lookup_lt_Some _ _ _ Hkp). pose proof (Hclosed kp _ (lookup_app_l_Some _ _ _ _ Hkp) Hshut_p) as Hcp.
  assert (closed !! (length (publication_endpoints s) + kc)%nat = Some true) as Hcc.
  { apply (Hclosed _ (client_endpoint c)); [|done]. rewrite lookup_app_r by lia. by replace (length (publication_endpoints s) + kc - length (publication_endpoints s))%nat with kc by lia. }
  assert (shrunk s s) as Hsh by by split. rewrite Hs in Hw1.
  apply (wp_publications s Hw (p_endpoint p) (c_endpoint c) (c_handle c) Hdead _ _ w1 s); [apply publications_published|done|done|by right|].
  intros w2 s2 Hw2 Hsh2 Hgone. apply (wp_clients s Hw (c_endpoint c) _ _ w2 s2); [apply clients_served|done|done| |].
  - apply Hgone. right. exists kp, (publication_endpoint p). by rewrite lookup_take_lt by lia.
  - exists kc, (client_endpoint c). by rewrite lookup_drop.
Qed.

(** C39: The sweep of closed endpoints stops the service when a closed publication is
    watched by a closed client.  In every registry state that satisfies the invariant
    (every state the service reaches does) and over every transport: if a published
    service is watched by a client that has seen it, no probe finds either channel open
    and the client's takes no message, [sweep_closed_endpoints] never succeeds.  It ends
    with [UnknownEndpoint], unless the transport refuses a probe or the closing of a
    handle: the watcher is retired when it cannot be told, and then a second time. *)
Theorem sweep_stops_service {T E} {transport : Transport T E} (w : World T) s i x p client_slot c :
  state w = Some s -> wf s -> tidy s ->
  services s !! i = Some (Some x) -> active x = Some p -> clients s !! client_slot = Some (Some c) ->
  watching s (p_endpoint p) (c_endpoint c) (c_handle c) -> dead (E := E) (T := T) (c_handle c) ->
  shut (E := E) (T := T) (publication_endpoint p) -> shut (E := E) (T := T) (client_endpoint c) ->
  match (sweep_closed_endpoints (E := E) w).2 with
  | Ok _ | Panic => False
  | Err error => (exists refusal, error = TransportError refusal) \/ error = StateError RUnknownEndpoint
  end.
Proof.
  intros. pose proof (sweep_stops w s i x p client_slot c) as Hsweep. unfold wp, stopped in Hsweep. destruct (sweep_closed_endpoints w) as [w' [a|e|]]; cbn; eauto 20.
Qed.

(** Every peer has closed its channel, and nothing is refused but the sends. *)
#[global] Program Instance closed_transport : Transport unit unit := {
  wait t _ _ := (t, inr (sc_event idle));
  probe t _ := (t, inr (mkSignals false true));
  receive t _ bytes handles := (t, inl tt, (bytes, handles));
  validate_channel t h _ := (t, if handle h =? 0 then inl tt else inr tt);
  send t _ _ := (t, inl tt);
  send_move t _ _ _ _ := (t, inl tt);
  close t _ := (t, inr tt) }.
Next Obligation. done. Qed.
Next Obligation. done. Qed.
Next Obligation. intros t h rights. cbn. by destruct (Z.eqb_spec (handle h) 0). Qed.

(** The service after the four first rounds of the script: a publication, and a client
    that watches it. *)
Definition start : World (Ledger Script) := service_new 9 (mkLedger (mkScript both_closed idle) (mkBooks {[+ 9 +]} false)).
Definition rounds : SM (World (Ledger Script)) (ServiceError unit) unit := serve false 4.
Definition watched_registry : RegistryState := match state (rounds start).1 with Some s => s | None => mkState 0 [] [] [] [] 0 [] 0 [] 0 end.

Lemma rounds_held : wp rounds (fun _ => held 9 ∅) (failed 9 ∅) start.
Proof. apply wp_serve, held_start. Qed.
Lemma run_sound (c : SM (World (Ledger Script)) (ServiceError unit) unit) w : wp c (fun _ => held 9 ∅) (failed 9 ∅) w -> (c w).2 = Ok tt ->
  forall s, state (c w).1 = Some s -> wf s /\ tidy s.
Proof. unfold wp. destruct (c w) as [w' [[]|e|]]; [|done..]. intros H _ s Hs. by apply (hd_sound _ _ _ H). Qed.
Lemma watched_sound : wf watched_registry /\ tidy watched_registry.
Proof.
  assert ((rounds start).2 = Ok tt) as Hr by (vm_compute; reflexivity).
  assert (state (rounds start).1 = Some watched_registry) as Hs by (vm_compute; reflexivity).
  exact (run_sound rounds start rounds_held Hr watched_registry Hs).
Qed.

Lemma sweep_stops_service_witness :
  (sweep_closed_endpoints (E := unit) (mkWorld 9 (Some watched_registry) tt)).2 = Err (StateError RUnknownEndpoint) /\
  match (sweep_closed_endpoints (E := unit) (mkWorld 9 (Some watched_registry) tt)).2 with
  | Ok _ | Panic => False
  | Err error => (exists refusal, error = TransportError refusal) \/ error = StateError RUnknownEndpoint
  end.
Proof.
  split; [by vm_compute|]. destruct watched_sound as [Hw Ht].
  eapply (sweep_stops_service (mkWorld 9 (Some watched_registry) tt) watched_registry 0 _ _ 0 _ eq_refl Hw Ht).
  - vm_compute. reflexivity.
  - reflexivity.
  - vm_compute. reflexivity.
  - exists 0%nat. do 2 eexists. exists 0%nat. eexists. split_conj; try (vm_compute; reflexivity). vm_compute. discriminate.
  - intros t bytes. by eexists.
  - by intros t signals [= <-].
  - by intros t signals [= <-].
Defined.
