(* ===== verification/DeviceManifest.v ===== *)
(** * The device-role manifest WRDM (crates/wyrmroot-device-proto/src/manifest.rs)

    The product's table of device roles, its writer and its two readers, and the
    admission of the one role the device manager accepts.  The newtypes over integers
    ([RoleId], [ProfileId], ...) are integers; [ContentIdentity] is its bytes. *)

From Stdlib Require Import String.
From stdpp Require Import base tactics option list list_numbers.
From Stdlib Require Import ZArith Lia.
From S2P Require Import Prelude Bytes Layout.

Module Manifest.

Definition MAGIC : list Z := literal "WRDM".
Definition MAJOR : Z := 1.
Definition MINOR : Z := 0.
Definition HEADER_BYTES : Z := 32.
Definition RECORD_BYTES : Z := 144.
Definition MAX_RECORDS : nat := 4.
Definition MAX_DRIVER_PATH_BYTES : Z := 64.

Definition PROFILE_Q35 : Z := 1.
Definition PROFILE_Q35_VERSION : Z := 1.
Definition COM2_ROLE_ID : Z := 1.
Definition UART16550D_PATH : list Z := literal "system/uart16550d".
Definition SERIAL_TRANSPORT_METADATA_POLICY : Z := 1.

Record PioRange := mkPio { pio_base : Z; pio_length : Z }.
(** [PioRange::end] *)
Definition pio_end (r : PioRange) : Z := pio_base r + pio_length r.
(** [PioRange::as_range], as the ports it runs through, and [Range::contains] *)
Definition as_range (r : PioRange) : list Z := seqZ (pio_base r) (pio_end r - pio_base r).
Definition range_contains (r : PioRange) (port : Z) : bool := (pio_base r <=? port) && (port <? pio_end r).

Inductive Hardware := Com1 | Com2.
Inductive ResourceKind := PioInterrupt.

Record DeviceRole := mkRole {
  role_id : Z;
  hardware : Hardware;
  resource_kind : ResourceKind;
  pio : PioRange;
  irq : Z;
  driver_path : list Z;
  content_identity : list Z;
  metadata_policy : Z }.

Record Com2Policy := mkPolicy {
  po_role_id : Z; po_profile : Z; po_profile_version : Z; po_pio : PioRange; po_irq : Z; po_driver_path : list Z;
  po_metadata_policy : Z }.
Definition COM2_POLICY : Com2Policy :=
  mkPolicy COM2_ROLE_ID PROFILE_Q35 PROFILE_Q35_VERSION (mkPio 760 8) 3 UART16550D_PATH SERIAL_TRANSPORT_METADATA_POLICY.

Inductive ManifestError :=
| WrongSize | WrongMagic | WrongVersion | WrongProfile | NonzeroReserved | NonzeroObjectPadding | ZeroRole
| UnknownHardware | UnknownResourceKind | ZeroPioLength | PioRangeOverflow | ZeroIrq | ZeroContentIdentity
| ZeroMetadataPolicy | PathEmpty | PathTooLong | NonzeroPathPadding | DuplicateRole | DuplicateIrq | OverlappingPio
| UnexpectedRoleCount | UnknownRole | Com1Rejected | WrongResource | WrongDriverPath | WrongMetadataPolicy
| WrongContentIdentity.

Abbreviation result := (res ManifestError).

#[global] Instance pio_eq_dec : EqDecision PioRange.
Proof. solve_decision. Defined.
#[global] Instance hardware_eq_dec : EqDecision Hardware.
Proof. solve_decision. Defined.
#[global] Instance resource_kind_eq_dec : EqDecision ResourceKind.
Proof. solve_decision. Defined.
#[global] Instance role_eq_dec : EqDecision DeviceRole.
Proof. solve_decision. Defined.

(** ** Writing *)

Definition encode_com2_manifest (content : list Z) (output : list Z) : result (Z * list Z) :=
  let TOTAL := HEADER_BYTES + RECORD_BYTES in
  reject_if! len output <? TOTAL with WrongSize;;
  reject_if! negb (any_nonzero content) with ZeroContentIdentity;;
  let! output := splice output 0 (replicate (Z.to_nat TOTAL) 0) in
  let! output := splice output 0 MAGIC in
  let! output := put16 output 4 MAJOR in
  let! output := put16 output 6 MINOR in
  let! output := put32 output 8 TOTAL in
  let! output := put16 output 12 1 in
  let! output := put32 output 16 (po_profile COM2_POLICY) in
  let! output := put32 output 20 (po_profile_version COM2_POLICY) in
  let base := HEADER_BYTES in
  let! output := put64 output base (po_role_id COM2_POLICY) in
  let! output := put32 output (base + 8) 2 in
  let! output := put32 output (base + 12) 1 in
  let! output := put16 output (base + 16) (pio_base (po_pio COM2_POLICY)) in
  let! output := put16 output (base + 18) (pio_length (po_pio COM2_POLICY)) in
  let! output := put32 output (base + 20) (po_irq COM2_POLICY) in
  let! output := put16 output (base + 24) (len (po_driver_path COM2_POLICY)) in
  let! output := splice output (base + 28) content in
  let! output := put32 output (base + 60) (po_metadata_policy COM2_POLICY) in
  let! output := splice output (base + 72) (po_driver_path COM2_POLICY) in
  Ok (TOTAL, output).

(** ** Reading *)

Definition parse_record (bytes : list Z) (base : Z) : result DeviceRole :=
  let! role := get64 bytes base in
  reject_if! role =? 0 with ZeroRole;;
  let! hw := get32 bytes (base + 8) in
  let! hw := (if hw =? 1 then Ok Com1 else if hw =? 2 then Ok Com2 else Err UnknownHardware) in
  let! kind := get32 bytes (base + 12) in
  let! kind := (if kind =? 1 then Ok PioInterrupt else Err UnknownResourceKind) in
  let! port := get16 bytes (base + 16) in
  let! ports := get16 bytes (base + 18) in
  let range := mkPio port ports in
  reject_if! pio_length range =? 0 with ZeroPioLength;;
  reject_if! 65536 <? pio_end range with PioRangeOverflow;;
  let! line := get32 bytes (base + 20) in
  reject_if! line =? 0 with ZeroIrq;;
  let! path_len := get16 bytes (base + 24) in
  reject_if! path_len =? 0 with PathEmpty;;
  reject_if! MAX_DRIVER_PATH_BYTES <? path_len with PathTooLong;;
  let! reserved := get16 bytes (base + 26) in
  reject_if! negb (reserved =? 0) with NonzeroReserved;;
  let! reserved := slice bytes (base + 64) (base + 72) in
  reject_if! any_nonzero reserved with NonzeroReserved;;
  let! reserved := slice bytes (base + 136) (base + RECORD_BYTES) in
  reject_if! any_nonzero reserved with NonzeroReserved;;
  let! content := slice bytes (base + 28) (base + 60) in
  reject_if! negb (any_nonzero content) with ZeroContentIdentity;;
  let! policy := get32 bytes (base + 60) in
  reject_if! policy =? 0 with ZeroMetadataPolicy;;
  let! path := ok_or WrongSize (get_range bytes (base + 72) (base + 72 + MAX_DRIVER_PATH_BYTES)) in
  let! padding := slice path path_len (len path) in
  reject_if! any_nonzero padding with NonzeroPathPadding;;
  let! path := slice path 0 path_len in
  Ok (mkRole role hw kind range line path content policy).

(** [for previous in records.iter().flatten()] *)
Fixpoint check_distinct (record : DeviceRole) (records : list (option DeviceRole)) : result unit :=
  match records with
  | [] => Ok tt
  | None :: records => check_distinct record records
  | Some previous :: records =>
      reject_if! role_id previous =? role_id record with DuplicateRole;;
      reject_if! irq previous =? irq record with DuplicateIrq;;
      reject_if! existsb (range_contains (pio record)) (as_range (pio previous)) with OverlappingPio;;
      check_distinct record records
  end.

(** [for index in 0..count], from [index], [n] rounds to go *)
Fixpoint parse_records (bytes : list Z) (index n : nat) (records : list (option DeviceRole))
    : result (list (option DeviceRole)) :=
  match n with
  | O => Ok records
  | S n =>
      let base := HEADER_BYTES + Z.of_nat index * RECORD_BYTES in
      let! record := parse_record bytes base in
      let! _ := check_distinct record records in
      if (index <? length records)%nat then parse_records bytes (S index) n (<[index := Some record]> records) else Panic
  end.

Record ManifestView := mkManifest { profile : Z; profile_version : Z; records : list (option DeviceRole); count : nat }.

(** [Manifest::parse] *)
Definition parse (bytes : list Z) : result ManifestView :=
  reject_if! len bytes <? HEADER_BYTES with WrongSize;;
  let! magic := slice bytes 0 4 in
  reject_if! negb (bool_decide (magic = MAGIC)) with WrongMagic;;
  let! major := get16 bytes 4 in
  let! minor := get16 bytes 6 in
  reject_if! negb (major =? MAJOR) || negb (minor =? MINOR) with WrongVersion;;
  let! total := get32 bytes 8 in
  let! n := get16 bytes 12 in
  reject_if! negb (total =? len bytes) || (n =? 0) || (Z.of_nat MAX_RECORDS <? n) with WrongSize;;
  let! reserved := get16 bytes 14 in
  let! reserved' := get64 bytes 24 in
  reject_if! negb (reserved =? 0) || negb (reserved' =? 0) with NonzeroReserved;;
  let! prof := get32 bytes 16 in
  let! version := get32 bytes 20 in
  reject_if! negb (prof =? PROFILE_Q35) || negb (version =? PROFILE_Q35_VERSION) with WrongProfile;;
  let! body := ok_or WrongSize (checked_mul_u64 n RECORD_BYTES) in
  let! expected := ok_or WrongSize (checked_add_u64 HEADER_BYTES body) in
  reject_if! negb (expected =? len bytes) with WrongSize;;
  let! roles := parse_records bytes 0 (Z.to_nat n) (replicate MAX_RECORDS None) in
  Ok (mkManifest prof version roles (Z.to_nat n)).

(** [Manifest::parse_padded] *)
Definition parse_padded (bytes : list Z) : result ManifestView :=
  reject_if! len bytes <? HEADER_BYTES with WrongSize;;
  let! magic := slice bytes 0 4 in
  reject_if! negb (bool_decide (magic = MAGIC)) with WrongMagic;;
  let! major := get16 bytes 4 in
  let! minor := get16 bytes 6 in
  reject_if! negb (major =? MAJOR) || negb (minor =? MINOR) with WrongVersion;;
  let! total := get32 bytes 8 in
  reject_if! (total <? HEADER_BYTES) || (len bytes <? total) with WrongSize;;
  let! padding := slice bytes total (len bytes) in
  reject_if! any_nonzero padding with NonzeroObjectPadding;;
  let! exact := slice bytes 0 total in
  parse exact.

(** [Manifest::get] *)
Definition manifest_get (m : ManifestView) (index : nat) : option DeviceRole := mjoin (records m !! index).

(** [Manifest::match_com2] *)
Definition match_com2 (m : ManifestView) (expected_content : list Z) : result DeviceRole :=
  reject_if! negb (count m =? 1)%nat with UnexpectedRoleCount;;
  let! first := or_panic (records m !! 0%nat) in
  let! role := ok_or WrongSize first in
  reject_if! negb (role_id role =? po_role_id COM2_POLICY) with UnknownRole;;
  reject_if! negb (bool_decide (hardware role = Com2)) with Com1Rejected;;
  reject_if! negb (bool_decide (resource_kind role = PioInterrupt)) || negb (bool_decide (pio role = po_pio COM2_POLICY))
    || negb (irq role =? po_irq COM2_POLICY) with WrongResource;;
  reject_if! negb (bool_decide (driver_path role = po_driver_path COM2_POLICY)) with WrongDriverPath;;
  reject_if! negb (metadata_policy role =? po_metadata_policy COM2_POLICY) with WrongMetadataPolicy;;
  reject_if! negb (bool_decide (content_identity role = expected_content)) with WrongContentIdentity;;
  Ok role.

End Manifest.
