(* ===== verification/Coordinator.v ===== *)
(** * The device manager's coordinator (crates/wyrmroot-device-proto/src/coordinator.rs)

    The life of one device driver: its manifest role, the registry it publishes in,
    the device bundle, and the attempts to launch it.  The identity newtypes are
    integers.  A call returns the state it leaves behind with its result, since some
    errors come after a change. *)

From stdpp Require Import base tactics option list list_numbers.
From Stdlib Require Import ZArith Lia.
From S2P Require Import Prelude Bytes StateM DeviceManifest.

Module Coordinator.

Definition MAX_ATTEMPTS : Z := 4.
Definition RETRY_BACKOFF_NS : Z := 25000000.

Record DeviceBundle := mkBundle { bundle_role : Z; bundle_generation : Z }.
Record DriverEndpoint := mkEndpoint { endpoint_id : Z; endpoint_generation : Z }.
Record DriverAttempt := mkAttempt { attempt_generation : Z; launch_session : Z; attempt_endpoint : DriverEndpoint }.
Record RegistryEndpoint := mkRegistryEndpoint { registry_endpoint_id : Z; registry_endpoint_generation : Z }.
Record RegistryBinding := mkBinding { registry_generation : Z; binding_endpoint : RegistryEndpoint }.

Inductive CoordinatorState :=
| Starting | WaitingForRegistry | WaitingForDeviceBundle | Matched | LaunchingDriver | AwaitingDriverReady
| AwaitingPublication | Published | CleaningUp | Backoff (attempt until_ns : Z) | PermanentFailure.

Inductive CoordinatorError :=
| InvalidSupervisorGeneration | InvalidState | ManifestFailure (e : Manifest.ManifestError) | StaleRegistry
| InvalidRegistryIdentity | InvalidBundle | StaleBundle | InvalidAttempt | AttemptBudgetExhausted | StaleDriverEndpoint
| DriverAlreadyReady | StaleDriverAttempt | StalePublicationEndpoint | StalePublishedGeneration | BackoffNotElapsed
| TimeOverflow.

#[global] Instance endpoint_eq_dec : EqDecision DriverEndpoint.
Proof. solve_decision. Defined.
#[global] Instance attempt_eq_dec : EqDecision DriverAttempt.
Proof. solve_decision. Defined.
#[global] Instance registry_endpoint_eq_dec : EqDecision RegistryEndpoint.
Proof. solve_decision. Defined.
#[global] Instance binding_eq_dec : EqDecision RegistryBinding.
Proof. solve_decision. Defined.
#[global] Instance state_eq_dec : EqDecision CoordinatorState.
Proof. solve_decision. Defined.

Record C := mkC {
  supervisor_generation : Z;
  state : CoordinatorState;
  role : option Manifest.DeviceRole;
  bundle : option DeviceBundle;
  attempt : option DriverAttempt;
  attempts_started : Z;
  registry : option RegistryBinding;
  publication_endpoint : option RegistryEndpoint;
  published_generation : option Z;
  last_published_generation : Z;
  next_attempt : Z;
  next_session : Z;
  next_endpoint : Z;
  last_bundle_generation : Z }.

(** Field updates *)
Definition set_state x c := mkC (supervisor_generation c) x (role c) (bundle c) (attempt c) (attempts_started c) (registry c) (publication_endpoint c) (published_generation c) (last_published_generation c) (next_attempt c) (next_session c) (next_endpoint c) (last_bundle_generation c).
Definition set_role x c := mkC (supervisor_generation c) (state c) x (bundle c) (attempt c) (attempts_started c) (registry c) (publication_endpoint c) (published_generation c) (last_published_generation c) (next_attempt c) (next_session c) (next_endpoint c) (last_bundle_generation c).
Definition set_bundle x c := mkC (supervisor_generation c) (state c) (role c) x (attempt c) (attempts_started c) (registry c) (publication_endpoint c) (published_generation c) (last_published_generation c) (next_attempt c) (next_session c) (next_endpoint c) (last_bundle_generation c).
Definition set_attempt x c := mkC (supervisor_generation c) (state c) (role c) (bundle c) x (attempts_started c) (registry c) (publication_endpoint c) (published_generation c) (last_published_generation c) (next_attempt c) (next_session c) (next_endpoint c) (last_bundle_generation c).
Definition set_attempts_started x c := mkC (supervisor_generation c) (state c) (role c) (bundle c) (attempt c) x (registry c) (publication_endpoint c) (published_generation c) (last_published_generation c) (next_attempt c) (next_session c) (next_endpoint c) (last_bundle_generation c).
Definition set_registry x c := mkC (supervisor_generation c) (state c) (role c) (bundle c) (attempt c) (attempts_started c) x (publication_endpoint c) (published_generation c) (last_published_generation c) (next_attempt c) (next_session c) (next_endpoint c) (last_bundle_generation c).
Definition set_publication e g c := mkC (supervisor_generation c) (state c) (role c) (bundle c) (attempt c) (attempts_started c) (registry c) e g (last_published_generation c) (next_attempt c) (next_session c) (next_endpoint c) (last_bundle_generation c).
Definition set_last_published x c := mkC (supervisor_generation c) (state c) (role c) (bundle c) (attempt c) (attempts_started c) (registry c) (publication_endpoint c) (published_generation c) x (next_attempt c) (next_session c) (next_endpoint c) (last_bundle_generation c).
Definition set_next_attempt x c := mkC (supervisor_generation c) (state c) (role c) (bundle c) (attempt c) (attempts_started c) (registry c) (publication_endpoint c) (published_generation c) (last_published_generation c) x (next_session c) (next_endpoint c) (last_bundle_generation c).
Definition set_next_session x c := mkC (supervisor_generation c) (state c) (role c) (bundle c) (attempt c) (attempts_started c) (registry c) (publication_endpoint c) (published_generation c) (last_published_generation c) (next_attempt c) x (next_endpoint c) (last_bundle_generation c).
Definition set_next_endpoint x c := mkC (supervisor_generation c) (state c) (role c) (bundle c) (attempt c) (attempts_started c) (registry c) (publication_endpoint c) (published_generation c) (last_published_generation c) (next_attempt c) (next_session c) x (last_bundle_generation c).
Definition set_last_bundle x c := mkC (supervisor_generation c) (state c) (role c) (bundle c) (attempt c) (attempts_started c) (registry c) (publication_endpoint c) (published_generation c) (last_published_generation c) (next_attempt c) (next_session c) (next_endpoint c) x.

Abbreviation M := (SM C CoordinatorError).

(** [Coordinator::new] *)
Definition coordinator_new (generation : Z) : res CoordinatorError C :=
  reject_if! generation =? 0 with InvalidSupervisorGeneration;;
  Ok (mkC generation Starting None None None 0 None None None 0 1 1 1 0).

(** [if condition { return Err(error); }] *)
Definition refuse_if (condition : bool) (error : CoordinatorError) : M unit := if condition then throw error else mret tt.
(** [if self.state != expected { return Err(CoordinatorError::InvalidState); }] *)
Definition require_state (expected : CoordinatorState) : M unit :=
  s ← gets state; refuse_if (negb (bool_decide (s = expected))) InvalidState.

Definition validate_registry (binding : RegistryBinding) : M unit :=
  refuse_if ((registry_generation binding =? 0) || (registry_endpoint_id (binding_endpoint binding) =? 0)
             || (registry_endpoint_generation (binding_endpoint binding) =? 0)) InvalidRegistryIdentity.

Definition intake_manifest (manifest : Manifest.ManifestView) (content : list Z) : M unit :=
  _ ← require_state Starting;
  r ← match Manifest.match_com2 manifest content with
      | Ok r => mret r
      | Err e => throw (ManifestFailure e)
      | Panic => fun c => (c, Panic)
      end;
  _ ← modify (set_role (Some r));
  modify (set_state WaitingForRegistry).

Definition registry_ready (binding : RegistryBinding) : M unit :=
  _ ← validate_registry binding;
  _ ← require_state WaitingForRegistry;
  _ ← modify (set_registry (Some binding));
  modify (set_state WaitingForDeviceBundle).

Definition replace_registry (binding : RegistryBinding) : M unit :=
  _ ← validate_registry binding;
  current ← gets registry;
  _ ← match current with
      | Some old =>
          _ ← refuse_if (bool_decide (old = binding)) StaleRegistry;
          refuse_if ((registry_generation binding <=? registry_generation old)
                     || (registry_endpoint_id (binding_endpoint binding) =? registry_endpoint_id (binding_endpoint old))
                        && (registry_endpoint_generation (binding_endpoint binding)
                            <=? registry_endpoint_generation (binding_endpoint old))) StaleRegistry
      | None => mret tt
      end;
  _ ← modify (set_registry (Some binding));
  _ ← modify (set_publication None None);
  s ← gets state;
  if bool_decide (s = Published) then modify (set_state AwaitingPublication) else mret tt.

Definition accept_bundle (b : DeviceBundle) : M unit :=
  _ ← require_state WaitingForDeviceBundle;
  r ← gets role;
  _ ← refuse_if ((bundle_generation b =? 0) || negb (bool_decide (Manifest.role_id <$> r = Some (bundle_role b)))) InvalidBundle;
  last ← gets last_bundle_generation;
  _ ← refuse_if (bundle_generation b <=? last) StaleBundle;
  _ ← modify (set_last_bundle (bundle_generation b));
  _ ← modify (set_attempts_started 0);
  _ ← modify (set_bundle (Some b));
  modify (set_state Matched).

(** [self.field = self.field.checked_add(1).ok_or(CoordinatorError::InvalidAttempt)?] *)
Definition advance (bound : Z) (get : C -> Z) (set : Z -> C -> C) : M unit :=
  value ← gets get;
  match checked_add bound value 1 with
  | Some value => modify (set value)
  | None => throw InvalidAttempt
  end.

Definition begin_launch : M unit :=
  _ ← require_state Matched;
  started ← gets attempts_started;
  _ ← refuse_if (MAX_ATTEMPTS <=? started) AttemptBudgetExhausted;
  generation ← gets next_attempt;
  session ← gets next_session;
  endpoint ← gets next_endpoint;
  _ ← advance (2 ^ 64) next_attempt set_next_attempt;
  _ ← advance (2 ^ 64) next_session set_next_session;
  _ ← advance (2 ^ 64) next_endpoint set_next_endpoint;
  _ ← advance (2 ^ 8) attempts_started set_attempts_started;
  _ ← modify (set_attempt (Some (mkAttempt generation session (mkEndpoint endpoint generation))));
  modify (set_state LaunchingDriver).

(** [self.attempt.map(|attempt| attempt.endpoint) != Some(endpoint)] *)
Definition stale_endpoint (endpoint : DriverEndpoint) (current : option DriverAttempt) : bool :=
  negb (bool_decide (attempt_endpoint <$> current = Some endpoint)).

Definition launch_accepted (endpoint : DriverEndpoint) : M unit :=
  _ ← require_state LaunchingDriver;
  current ← gets attempt;
  _ ← refuse_if (stale_endpoint endpoint current || (endpoint_id endpoint =? 0) || (endpoint_generation endpoint =? 0))
        StaleDriverEndpoint;
  modify (set_state AwaitingDriverReady).

Definition driver_ready (endpoint : DriverEndpoint) : M unit :=
  s ← gets state;
  _ ← refuse_if (bool_decide (s = AwaitingPublication)) DriverAlreadyReady;
  _ ← require_state AwaitingDriverReady;
  current ← gets attempt;
  _ ← refuse_if (stale_endpoint endpoint current) StaleDriverEndpoint;
  modify (set_state AwaitingPublication).

Definition publish (a : DriverAttempt) (endpoint : RegistryEndpoint) (service_generation : Z) : M unit :=
  _ ← require_state AwaitingPublication;
  current ← gets attempt;
  _ ← refuse_if (negb (bool_decide (current = Some a))) StaleDriverAttempt;
  bound ← gets registry;
  _ ← refuse_if (negb (bool_decide (binding_endpoint <$> bound = Some endpoint))) StalePublicationEndpoint;
  last ← gets last_published_generation;
  _ ← refuse_if ((service_generation =? 0) || (service_generation <=? last)) StalePublishedGeneration;
  _ ← modify (set_publication (Some endpoint) (Some service_generation));
  _ ← modify (set_last_published service_generation);
  modify (set_state Published).

Definition retire : M unit :=
  s ← gets state;
  _ ← refuse_if (negb (bool_decide (s = Published)) && negb (bool_decide (s = AwaitingPublication))) InvalidState;
  _ ← modify (set_publication None None);
  modify (set_state CleaningUp).

Definition complete_retire_cleanup : M unit :=
  _ ← require_state CleaningUp;
  _ ← modify (set_bundle None);
  _ ← modify (set_attempt None);
  modify (set_state WaitingForDeviceBundle).

Definition driver_failed (endpoint : DriverEndpoint) : M unit :=
  s ← gets state;
  _ ← refuse_if (negb (bool_decide (s = AwaitingDriverReady)) && negb (bool_decide (s = AwaitingPublication))
                 && negb (bool_decide (s = Published))) InvalidState;
  current ← gets attempt;
  _ ← refuse_if (stale_endpoint endpoint current) StaleDriverEndpoint;
  _ ← modify (set_publication None None);
  modify (set_state CleaningUp).

Definition cleanup_failed : M unit :=
  _ ← require_state CleaningUp;
  modify (set_state PermanentFailure).

Definition complete_failure_cleanup (now_ns : Z) : M unit :=
  _ ← require_state CleaningUp;
  _ ← modify (set_attempt None);
  started ← gets attempts_started;
  if MAX_ATTEMPTS <=? started then modify (set_state PermanentFailure)
  else
    match checked_add_u64 now_ns RETRY_BACKOFF_NS with
    | None => throw TimeOverflow
    | Some until_ns => modify (set_state (Backoff (started + 1) until_ns))
    end.

Definition backoff_elapsed (now_ns : Z) : M unit :=
  s ← gets state;
  match s with
  | Backoff _ until_ns =>
      _ ← refuse_if (now_ns <? until_ns) BackoffNotElapsed;
      b ← gets bundle;
      _ ← refuse_if (bool_decide (b = None)) InvalidBundle;
      modify (set_state Matched)
  | _ => throw InvalidState
  end.

End Coordinator.
