(* ===== verification/CoordinatorThms.v ===== *)
(** * What a coordinator can have done

    Any sequence of calls, from a new coordinator: the accepted calls form a log
    (newest first), and the log satisfies the rules of the driver's life. *)

From stdpp Require Import base tactics option list list_numbers.
From Stdlib Require Import ZArith Lia Sorted.
From S2P Require Import Prelude Bytes StateM DeviceManifest Coordinator.
Import Coordinator.

(** ** Calls and logs *)

Inductive Call :=
| Intake (manifest : Manifest.ManifestView) (content : list Z)
| RegistryReady (binding : RegistryBinding) | ReplaceRegistry (binding : RegistryBinding)
| AcceptBundle (b : DeviceBundle) | BeginLaunch | LaunchAccepted (endpoint : DriverEndpoint)
| DriverReady (endpoint : DriverEndpoint) | Publish (a : DriverAttempt) (endpoint : RegistryEndpoint) (generation : Z)
| Retire | CompleteRetire | DriverFailed (endpoint : DriverEndpoint) | CleanupFailed | CompleteFailure (now : Z)
| BackoffElapsed (now : Z).

Definition invoke (call : Call) : M unit :=
  match call with
  | Intake m content => intake_manifest m content
  | RegistryReady b => registry_ready b
  | ReplaceRegistry b => replace_registry b
  | AcceptBundle b => accept_bundle b
  | BeginLaunch => begin_launch
  | LaunchAccepted e => launch_accepted e
  | DriverReady e => driver_ready e
  | Publish a e g => publish a e g
  | Retire => retire
  | CompleteRetire => complete_retire_cleanup
  | DriverFailed e => driver_failed e
  | CleanupFailed => cleanup_failed
  | CompleteFailure now => complete_failure_cleanup now
  | BackoffElapsed now => backoff_elapsed now
  end.

(** An accepted call with the state it left. *)
Definition Log : Type := list (Call * C).
Definition after (call : Call) (c : C) (log : Log) : option (C * Log) :=
  match invoke call c with
  | (c', Ok _) => Some (c', (call, c') :: log)
  | (c', Err _) => Some (c', log)
  | (_, Panic) => None
  end.
Fixpoint run (calls : list Call) (c : C) (log : Log) : option (C * Log) :=
  match calls with
  | [] => Some (c, log)
  | call :: calls => '(c, log) ← after call c log; run calls c log
  end.

(** The array of a manifest has its four slots. *)
Definition call_ok (call : Call) : Prop :=
  match call with Intake m _ => length (Manifest.records m) = Manifest.MAX_RECORDS | _ => True end.

(** ** The rules *)

(** The launches: bundle, which attempt for it, and the number the attempt got. *)
Definition launch_of (entry : Call * C) : option (Z * Z * Z) :=
  match entry with
  | (BeginLaunch, c) =>
      match attempt c with Some a => Some (last_bundle_generation c, attempts_started c, attempt_generation a) | None => None end
  | _ => None
  end.
Definition launches (log : Log) : list (Z * Z * Z) := omap launch_of log.
Definition of_bundle (b : Z) (l : Z * Z * Z) : Prop := l.1.1 = b.
#[global] Instance of_bundle_dec b l : Decision (of_bundle b l).
Proof. unfold of_bundle. apply _. Defined.

(** Attempts are numbered through, from 1; a bundle gets at most four. *)
Fixpoint numbered (l : list (Z * Z * Z)) : Prop :=
  match l with
  | [] => True
  | (b, k, n) :: l => n = 1 + len l /\ k = 1 + len (filter (of_bundle b) l) /\ k <= MAX_ATTEMPTS /\ numbered l
  end.

(** What was accepted since the latest launch. *)
Fixpoint recent (log : Log) : list Call :=
  match log with
  | [] => []
  | (BeginLaunch, _) :: _ => []
  | (call, _) :: log => call :: recent log
  end.
(** A failed attempt was cleaned up and its backoff has passed. *)
Definition backed_off (calls : list Call) : Prop :=
  exists now1 now2, CompleteFailure now1 ∈ calls /\ BackoffElapsed now2 ∈ calls /\ now1 + RETRY_BACKOFF_NS <= now2.
(** Its driver was accepted and became ready. *)
Definition was_ready (a : DriverAttempt) (calls : list Call) : Prop :=
  LaunchAccepted (attempt_endpoint a) ∈ calls /\ DriverReady (attempt_endpoint a) ∈ calls.

(** Every launch after a bundle's first waits for the backoff, and what is published is
    the ready driver of the latest launch, in the registry bound then. *)
Definition entry_orderly (entry : Call * C) (log : Log) : Prop :=
  match entry with
  | (BeginLaunch, c) => attempts_started c = 1 \/ backed_off (recent log)
  | (Publish a endpoint g, c) =>
      attempt c = Some a /\ was_ready a (recent log) /\ launches log <> [] /\ attempt_generation a = len (launches log) /\
      binding_endpoint <$> registry c = Some endpoint
  | _ => True
  end.
Fixpoint orderly (log : Log) : Prop :=
  match log with
  | [] => True
  | entry :: log => entry_orderly entry log /\ orderly log
  end.

Definition publication_of (entry : Call * C) : option Z := match entry with (Publish _ _ g, _) => Some g | _ => None end.
Definition publications (log : Log) : list Z := omap publication_of log.

(** ** The invariant *)

Definition launched (s : CoordinatorState) : bool :=
  match s with LaunchingDriver | AwaitingDriverReady | AwaitingPublication | Published => true | _ => false end.
Definition has_bundle (s : CoordinatorState) : bool :=
  match s with Matched | CleaningUp | Backoff _ _ => true | s => launched s end.
Definition has_role (s : CoordinatorState) : bool := match s with Starting => false | _ => true end.
Definition has_registry (s : CoordinatorState) : bool := match s with Starting | WaitingForRegistry => false | _ => true end.

Record inv (c : C) (log : Log) : Prop := mkInv {
  i_role : has_role (state c) = true -> exists r, role c = Some r;
  i_registry : has_registry (state c) = true -> exists b, registry c = Some b;
  i_bundle : has_bundle (state c) = true ->
    exists b, bundle c = Some b /\ bundle_generation b = last_bundle_generation c /\ Manifest.role_id <$> role c = Some (bundle_role b);
  i_attempt : launched (state c) = true ->
    exists a, attempt c = Some a /\ attempt_generation a = len (launches log) /\ launch_session a = attempt_generation a /\
      attempt_endpoint a = mkEndpoint (attempt_generation a) (attempt_generation a) /\ 1 <= attempts_started c;
  i_accepted : state c = AwaitingDriverReady -> forall a, attempt c = Some a -> LaunchAccepted (attempt_endpoint a) ∈ recent log;
  i_ready : state c = AwaitingPublication \/ state c = Published -> forall a, attempt c = Some a -> was_ready a (recent log);
  i_waiting : forall n u, state c = Backoff n u -> n = attempts_started c + 1 /\ attempts_started c < MAX_ATTEMPTS /\
    exists now, CompleteFailure now ∈ recent log /\ u = now + RETRY_BACKOFF_NS;
  i_matched : state c = Matched -> attempts_started c < MAX_ATTEMPTS /\ (attempts_started c = 0 \/ backed_off (recent log));
  i_published : match state c with
                | Published => publication_endpoint c = binding_endpoint <$> registry c /\ published_generation c = Some (last_published_generation c)
                | _ => publication_endpoint c = None /\ published_generation c = None
                end;
  i_started : 0 <= attempts_started c <= MAX_ATTEMPTS /\ attempts_started c = len (filter (of_bundle (last_bundle_generation c)) (launches log));
  i_next : next_attempt c = 1 + len (launches log) /\ next_session c = next_attempt c /\ next_endpoint c = next_attempt c;
  i_old : 0 <= last_bundle_generation c /\ Forall (fun l => l.1.1 <= last_bundle_generation c) (launches log);
  i_numbered : numbered (launches log);
  i_orderly : orderly log;
  i_last : 0 <= last_published_generation c;
  i_sorted : StronglySorted (fun a b => b < a) (publications log) /\ Forall (fun g => 0 < g <= last_published_generation c) (publications log) }.

(** ** Every call keeps it *)

Lemma backed_off_more call calls : backed_off calls -> backed_off (call :: calls).
Proof. intros (n1 & n2 & H1 & H2 & H). exists n1, n2. split_conj; [by right|by right|done]. Qed.
Lemma was_ready_more a call calls : was_ready a calls -> was_ready a (call :: calls).
Proof. intros [H1 H2]. split; by right. Qed.

Lemma filter_none {A} (P : A -> Prop) `{!forall x, Decision (P x)} l : Forall (fun x => ~ P x) l -> filter P l = [].
Proof. induction 1 as [|x l Hx _ IH]; [done|]. by rewrite filter_cons_False. Qed.

Create HintDb coord.
#[local] Hint Resolve backed_off_more was_ready_more list_elem_of_further list_elem_of_here : coord.

Lemma wp_refuse_if (b : bool) e Q R c : (b = true -> R e c) -> (b = false -> Q tt c) -> wp (refuse_if b e) Q R c.
Proof. destruct b; intros HR HQ; [by apply HR|by apply HQ]. Qed.

Lemma wp_require_state s Q R c : (state c <> s -> R InvalidState c) -> (state c = s -> Q tt c) -> wp (require_state s) Q R c.
Proof.
  intros HR HQ. unfold require_state. wp_step. wp_step. apply wp_refuse_if.
  - intros H%negb_true_iff%bool_decide_eq_false. by apply HR.
  - intros H%negb_false_iff%bool_decide_eq_true. by apply HQ.
Qed.

Ltac coord_step :=
  match goal with
  | |- wp (require_state _) _ _ _ => apply wp_require_state; [by intros|intros ?Hs]
  | |- wp (refuse_if _ _) _ _ _ => apply wp_refuse_if; [by intros|intros ?Hb]
  | _ => wp_step
  end.

Definition kept (call : Call) (log : Log) (c : C) : Prop :=
  wp (invoke call) (fun _ c' => inv c' ((call, c') :: log)) (fun _ c' => inv c' log) c.

(** Open the invariant in a known state and close the fields that do not change. *)
Ltac known :=
  repeat match goal with
  | H : state ?c = _, H' : context [state ?c] |- _ => lazymatch H with H' => fail | _ => rewrite H in H'; cbn in H' end
  end;
  repeat match goal with
  | H : true = true -> _ |- _ => specialize (H eq_refl)
  | H : false = true -> _ |- _ => clear H
  | H : ?x = ?x -> _ |- _ => specialize (H eq_refl)
  | H : _ = _ \/ _ = _ -> _ |- _ => first [specialize (H (or_introl eq_refl)) | specialize (H (or_intror eq_refl))]
  end.
Ltac keep :=
  match goal with H : inv _ _ |- _ => destruct H end; known;
  constructor; cbn; try match goal with H : state ?c = _ |- context [state ?c] => rewrite H; cbn end;
  try done; try (intros ?; done); try (by intros [|]); try (intros _; by eauto with coord).

Lemma keeps_retire log c : inv c log -> kept Retire log c.
Proof.
  intros Hi. unfold kept. cbn [invoke]. unfold retire. repeat coord_step.
  assert (state c = Published \/ state c = AwaitingPublication) as [Hs|Hs].
  { by rewrite andb_false_iff, !negb_false_iff, !bool_decide_eq_true in Hb. }
  all: keep.
Qed.
Lemma keeps_registry_ready b log c : inv c log -> kept (RegistryReady b) log c.
Proof. intros Hi. unfold kept. cbn [invoke]. unfold registry_ready, validate_registry. repeat coord_step. keep. Qed.
Lemma keeps_cleanup_failed log c : inv c log -> kept CleanupFailed log c.
Proof. intros Hi. unfold kept. cbn [invoke]. unfold cleanup_failed. repeat coord_step. keep. Qed.
Lemma keeps_complete_retire log c : inv c log -> kept CompleteRetire log c.
Proof. intros Hi. unfold kept. cbn [invoke]. unfold complete_retire_cleanup. repeat coord_step. keep. Qed.

Lemma keeps_intake m content log c : call_ok (Intake m content) -> inv c log -> kept (Intake m content) log c.
Proof.
  intros Hm Hi. unfold kept. cbn [invoke]. unfold intake_manifest. coord_step. coord_step. coord_step.
  destruct (Manifest.match_com2 m content) as [r|e|] eqn:E; [|by wp_step|].
  - repeat wp_step. keep.
  - exfalso. revert E. cbn in Hm. unfold Manifest.match_com2. destruct (Manifest.records m) as [|[r|] rs]; [done| |]; cbn; repeat case_match; done.
Qed.

Lemma keeps_replace_registry b log c : inv c log -> kept (ReplaceRegistry b) log c.
Proof.
  intros Hi. unfold kept. cbn [invoke]. unfold replace_registry, validate_registry. coord_step. coord_step. repeat wp_step.
  eapply wp_mono with (Q := fun _ c' => c' = c) (R := fun _ c' => c' = c); [|intros u c' ->|by intros e c' ->].
  { destruct (registry c); repeat first [coord_step | apply wp_refuse_if; intros]; done. }
  repeat wp_step. cbn [state set_publication set_registry]. case_bool_decide as Hp; wp_step.
  - keep.
  - destruct Hi. destruct (state c) eqn:Hs; try done; known; constructor; cbn; rewrite ?Hs; cbn; try done; try (intros ?; done);
      try (by intros [|]); try (intros; by eauto with coord).
    + intros _. destruct i_matched0 as [? [?|?]]; eauto with coord.
    + intros n u' [= <- <-]. destruct (i_waiting0 _ _ eq_refl) as (? & ? & now & ? & ?). eauto 10 with coord.
Qed.

Lemma keeps_accept_bundle b log c : inv c log -> kept (AcceptBundle b) log c.
Proof.
  intros Hi. unfold kept. cbn [invoke]. unfold accept_bundle. repeat coord_step.
  apply orb_false_iff in Hb as [Hz Hr]. apply negb_false_iff, bool_decide_eq_true in Hr. apply Z.leb_gt in Hb0.
  keep.
  - intros _. split; [done|by left].
  - destruct i_old0 as [_ Hold]. split; [done|]. fold (launches log). rewrite filter_none; [done|].
    eapply Forall_impl; [exact Hold|]. unfold of_bundle. intros l Hl. cbv beta in *. lia.
  - destruct i_old0 as [H0 Hold]. split; [lia|]. eapply Forall_impl; [exact Hold|]. intros l Hl. cbv beta in *. lia.
Qed.

(** A counter goes up by one, or stays at its bound. *)
Lemma wp_advance bound get set Q R c :
  (bound <= get c + 1 -> R InvalidAttempt c) -> (get c + 1 < bound -> Q tt (set (get c + 1) c)) -> wp (advance bound get set) Q R c.
Proof. intros HR HQ. unfold advance, checked_add. wp_step. wp_step. destruct (Z.ltb_spec (get c + 1) bound); wp_step; auto. Qed.

Lemma keeps_begin_launch log c : inv c log -> kept BeginLaunch log c.
Proof.
  intros Hi. unfold kept. cbn [invoke]. unfold begin_launch. repeat coord_step.
  apply wp_advance; [done|]. intros Hn. cbn. pose proof (i_next _ _ Hi) as (Hn1 & Hn2 & Hn3). pose proof (i_started _ _ Hi) as [Hst Hcnt].
  destruct (i_matched _ _ Hi Hs) as [Hlt Hoff]. unfold MAX_ATTEMPTS in *.
  repeat first [wp_step | apply wp_advance; cbn; [intros; exfalso; lia|intros _]]. keep.
  all: unfold launches, MAX_ATTEMPTS in *.
  - intros _. eexists. split; [reflexivity|]. cbn. rewrite Hn2, Hn3. split_conj; [lia|done|done|lia].
  - split; [lia|]. rewrite decide_True by done. cbn [length]. rewrite Nat2Z.inj_succ. exact (f_equal Z.succ Hcnt).
  - lia.
  - destruct i_old0. split; [done|]. by constructor.
  - split_conj; [done| |lia|done]. rewrite Z.add_comm. exact (f_equal (Z.add 1) Hcnt).
  - split; [|done]. destruct Hoff as [->|]; [by left|by right].
Qed.

Lemma fresh_endpoint endpoint a : stale_endpoint endpoint (Some a) = false -> attempt_endpoint a = endpoint.
Proof. unfold stale_endpoint. cbn. rewrite negb_false_iff, bool_decide_eq_true. congruence. Qed.

Lemma keeps_launch_accepted e log c : inv c log -> kept (LaunchAccepted e) log c.
Proof.
  intros Hi. unfold kept. cbn [invoke]. unfold launch_accepted. repeat coord_step.
  apply orb_false_iff in Hb as [[Hb _]%orb_false_iff _]. keep.
  intros _ a Ha. rewrite Ha in Hb. apply fresh_endpoint in Hb as <-. by left.
Qed.

Lemma keeps_driver_ready e log c : inv c log -> kept (DriverReady e) log c.
Proof.
  intros Hi. unfold kept. cbn [invoke]. unfold driver_ready. repeat coord_step. keep.
  intros _ a Ha. rewrite Ha in Hb0. apply fresh_endpoint in Hb0 as <-. split; [right; by apply i_accepted0|by left].
Qed.

Lemma keeps_publish a e g log c : inv c log -> kept (Publish a e g) log c.
Proof.
  intros Hi. unfold kept. cbn [invoke]. unfold publish. repeat coord_step.
  apply negb_false_iff, bool_decide_eq_true in Hb, Hb0. apply orb_false_iff in Hb1 as [_ Hg%Z.leb_gt]. keep.
  all: unfold launches, publications in *.
  - destruct i_attempt0 as (a' & Ha & Hgen & _ & _ & Hone). assert (a' = a) as -> by congruence.
    split; [|done]. split_conj; [done|by apply i_ready0| |done|done].
    intros Hnil. destruct i_started0 as [_ Hc]. rewrite Hnil in Hc. cbn in Hc. lia.
  - lia.
  - destruct i_sorted0 as [Hsort Hall]. split.
    + constructor; [done|]. eapply Forall_impl; [exact Hall|]. intros x Hx. cbv beta in *. lia.
    + constructor; [lia|]. eapply Forall_impl; [exact Hall|]. intros x Hx. cbv beta in *. lia.
Qed.

Lemma keeps_driver_failed e log c : inv c log -> kept (DriverFailed e) log c.
Proof.
  intros Hi. unfold kept. cbn [invoke]. unfold driver_failed. repeat coord_step.
  assert (state c = AwaitingDriverReady \/ state c = AwaitingPublication \/ state c = Published) as [Hs|[Hs|Hs]].
  { rewrite !andb_false_iff, !negb_false_iff, !bool_decide_eq_true in Hb. tauto. }
  all: keep.
Qed.

Lemma keeps_complete_failure now log c : inv c log -> kept (CompleteFailure now) log c.
Proof.
  intros Hi. unfold kept. cbn [invoke]. unfold complete_failure_cleanup. repeat coord_step. cbn.
  destruct (Z.leb_spec MAX_ATTEMPTS (attempts_started c)) as [Hm|Hm]; [wp_step; keep|].
  unfold checked_add_u64, checked_add. destruct (now + RETRY_BACKOFF_NS <? 2 ^ 64); wp_step; keep.
  intros n u [= <- <-]. split_conj; [done|done|]. exists now. split; [by left|done].
Qed.

Lemma keeps_backoff_elapsed now log c : inv c log -> kept (BackoffElapsed now) log c.
Proof.
  intros Hi. unfold kept. cbn [invoke]. unfold backoff_elapsed. wp_step. wp_step. destruct (state c) eqn:Hs; try (by wp_step).
  repeat coord_step. apply Z.ltb_ge in Hb. destruct (i_waiting _ _ Hi _ _ Hs) as (-> & Hlt & n1 & Hin & ->). keep.
  intros _. split; [done|]. right. exists n1, now. split_conj; [by right|by left|done].
Qed.

Lemma keeps_call call log c : call_ok call -> inv c log -> kept call log c.
Proof.
  destruct call; intros Hok Hi.
  - by apply keeps_intake.
  - by apply keeps_registry_ready.
  - by apply keeps_replace_registry.
  - by apply keeps_accept_bundle.
  - by apply keeps_begin_launch.
  - by apply keeps_launch_accepted.
  - by apply keeps_driver_ready.
  - by apply keeps_publish.
  - by apply keeps_retire.
  - by apply keeps_complete_retire.
  - by apply keeps_driver_failed.
  - by apply keeps_cleanup_failed.
  - by apply keeps_complete_failure.
  - by apply keeps_backoff_elapsed.
Qed.

Lemma keeps_run calls : forall c log, Forall call_ok calls -> inv c log -> exists c' log', run calls c log = Some (c', log') /\ inv c' log'.
Proof.
  induction calls as [|call calls IH]; intros c log Hok Hi; [by exists c, log|]. apply Forall_cons in Hok as [Hc Hok].
  pose proof (keeps_call call log c Hc Hi) as Hk. unfold kept, wp in Hk. cbn [run]. unfold after.
  destruct (invoke call c) as [c' [u|e|]]; [by apply IH|by apply IH|done].
Qed.

Lemma coordinator_inv_new g c : coordinator_new g = Ok c -> inv c [].
Proof. unfold coordinator_new. destruct (g =? 0); [done|]. intros [= <-]. constructor; cbn; try done; by repeat constructor. Qed.

(** C17: Whatever calls a coordinator gets, in whatever order, none panics, and the
    accepted ones obey the life of a driver: attempts are numbered 1, 2, 3, ... with
    their session and endpoint, never reused, and at most four for one bundle; a
    further attempt for a bundle comes only after the previous one was cleaned up and
    25 ms have passed since; what is published is the driver of the latest launch,
    after its launch was accepted and it reported ready, at the registry endpoint
    bound then; and published generations only grow.  A service is published exactly
    in the state [Published]. *)
Theorem coordinator_lifecycle (generation : Z) (calls : list Call) :
  generation <> 0 -> Forall call_ok calls ->
  exists c0 c log, coordinator_new generation = Ok c0 /\ run calls c0 [] = Some (c, log) /\
    numbered (launches log) /\ orderly log /\ StronglySorted (fun a b => b < a) (publications log) /\
    (is_Some (published_generation c) <-> state c = Published) /\
    (forall a, launched (state c) = true -> attempt c = Some a -> attempt_generation a = len (launches log)).
Proof.
  intros Hg Hok. assert (exists c0, coordinator_new generation = Ok c0) as [c0 H0].
  { unfold coordinator_new. rewrite (proj2 (Z.eqb_neq _ _) Hg). by eexists. }
  destruct (keeps_run calls c0 [] Hok (coordinator_inv_new _ _ H0)) as (c & log & Hr & []). exists c0, c, log. split_conj; try done.
  - by destruct i_sorted0.
  - split; [|intros Hs; rewrite Hs in i_published0; destruct i_published0 as [_ ->]; by eexists].
    intros [g Hg']. destruct (state c); try done; destruct i_published0; congruence.
  - intros a Hl Ha. destruct (i_attempt0 Hl) as (a' & Ha' & Hn & _). congruence.
Qed.

(** A driver that fails once and is published on its second attempt. *)
Definition sample_role : Manifest.DeviceRole :=
  Manifest.mkRole 1 Manifest.Com2 Manifest.PioInterrupt (Manifest.mkPio 760 8) 3 Manifest.UART16550D_PATH (replicate 32 7) 1.
Definition sample_calls : list Call := [
  Intake (Manifest.mkManifest 1 1 [Some sample_role; None; None; None] 1) (replicate 32 7);
  RegistryReady (mkBinding 3 (mkRegistryEndpoint 4 1)); AcceptBundle (mkBundle 1 5);
  BeginLaunch; LaunchAccepted (mkEndpoint 1 1); DriverFailed (mkEndpoint 1 1); CompleteFailure 1000;
  BackoffElapsed 2000; BackoffElapsed 25001000; BeginLaunch; LaunchAccepted (mkEndpoint 2 2); DriverReady (mkEndpoint 2 2);
  Publish (mkAttempt 2 2 (mkEndpoint 2 2)) (mkRegistryEndpoint 4 1) 9].

Lemma coordinator_lifecycle_witness :
  (exists c log, run sample_calls (mkC 10 Starting None None None 0 None None None 0 1 1 1 0) [] = Some (c, log) /\
    launches log = [(5, 2, 2); (5, 1, 1)] /\ publications log = [9] /\ length log = 12%nat) /\
  exists c0 c log, coordinator_new 10 = Ok c0 /\ run sample_calls c0 [] = Some (c, log) /\
    numbered (launches log) /\ orderly log /\ StronglySorted (fun a b => b < a) (publications log) /\
    (is_Some (published_generation c) <-> state c = Published) /\
    (forall a, launched (state c) = true -> attempt c = Some a -> attempt_generation a = len (launches log)).
Proof.
  split.
  - eexists _, _. split; [by vm_compute|]. by vm_compute.
  - apply (coordinator_lifecycle 10 sample_calls); [done|]. repeat constructor.
Defined.
