(* ===== verification/DeviceControl.v ===== *)
(** * Control of a device driver, WRDC (crates/wyrmroot-device-proto/src/{control,control_v1_1}.rs)

    The messages between the device manager and a driver: version 1.0, and the separate
    codec of version 1.1.  Fixed records; a message says how many handles travel
    with it. *)

From Stdlib Require Import String.
From stdpp Require Import base tactics option list list_numbers.
From Stdlib Require Import ZArith Lia.
From S2P Require Import Prelude Bytes Layout DeviceManifest.

Module Control.

Definition MAGIC : list Z := literal "WRDC".
Definition MAJOR : Z := 1.
Definition MINOR : Z := 0.
Definition HEADER_BYTES : Z := 72.
Definition CONFIGURE_BYTES : Z := HEADER_BYTES + 16.
Definition RESOURCE_BUNDLE_BYTES : Z := HEADER_BYTES.
Definition READY_BYTES : Z := HEADER_BYTES.
Definition FAILURE_BYTES : Z := HEADER_BYTES + 8.
Definition RETIRE_BYTES : Z := HEADER_BYTES.
Definition TRIGGER_FAILURE_BYTES : Z := HEADER_BYTES.
Definition CONTROL_READY_BYTES : Z := HEADER_BYTES.
Definition CONFIGURE_HANDLE_COUNT : Z := 0.
Definition RESOURCE_BUNDLE_HANDLE_COUNT : Z := 2.
Definition READY_HANDLE_COUNT : Z := 0.
Definition FAILURE_HANDLE_COUNT : Z := 0.
Definition RETIRE_HANDLE_COUNT : Z := 0.
Definition CONTROL_READY_HANDLE_COUNT : Z := 0.

Record ControlEndpoint := mkControlEndpoint { id : Z; generation : Z }.

Inductive FailureCode := MalformedResource | DriverRejected | DriverExited | CleanupFailed | IntentionalRestart.
(** [code as u32] *)
Definition failure_number (code : FailureCode) : Z :=
  match code with
  | MalformedResource => 1 | DriverRejected => 2 | DriverExited => 3 | CleanupFailed => 4 | IntentionalRestart => 5
  end.

Inductive ControlMessage :=
| Configure (role bundle attempt : Z) (endpoint : ControlEndpoint) (transaction profile profile_version : Z)
| ResourceBundle (role bundle attempt : Z) (endpoint : ControlEndpoint) (transaction : Z)
| Ready (role bundle attempt : Z) (endpoint : ControlEndpoint) (transaction : Z)
| ControlReady (role attempt : Z) (endpoint : ControlEndpoint) (transaction : Z)
| Failure (role bundle attempt : Z) (endpoint : ControlEndpoint) (transaction : Z) (code : FailureCode)
| TriggerFailure (role bundle attempt : Z) (endpoint : ControlEndpoint) (transaction : Z)
| Retire (role bundle attempt : Z) (endpoint : ControlEndpoint) (transaction : Z).

Inductive ControlParseError :=
| WrongSize | WrongMagic | WrongVersion | UnknownMessage | NonzeroFlags | WrongHandleCount | ZeroIdentity
| NonzeroReserved | InvalidProfile | UnknownFailure.

Abbreviation result := (res ControlParseError).

(** [FailureCode::parse] *)
Definition parse_failure (value : Z) : result FailureCode :=
  if value =? 1 then Ok MalformedResource
  else if value =? 2 then Ok DriverRejected
  else if value =? 3 then Ok DriverExited
  else if value =? 4 then Ok CleanupFailed
  else if value =? 5 then Ok IntentionalRestart
  else Err UnknownFailure.

Definition handle_count (m : ControlMessage) : Z :=
  match m with ResourceBundle _ _ _ _ _ => RESOURCE_BUNDLE_HANDLE_COUNT | _ => 0 end.

Definition wire_size (m : ControlMessage) : Z :=
  match m with
  | Configure _ _ _ _ _ _ _ => CONFIGURE_BYTES
  | ResourceBundle _ _ _ _ _ => RESOURCE_BUNDLE_BYTES
  | Ready _ _ _ _ _ | Retire _ _ _ _ _ | TriggerFailure _ _ _ _ _ => HEADER_BYTES
  | ControlReady _ _ _ _ => CONTROL_READY_BYTES
  | Failure _ _ _ _ _ _ => FAILURE_BYTES
  end.

Definition message_type (m : ControlMessage) : Z :=
  match m with
  | Configure _ _ _ _ _ _ _ => 1
  | ResourceBundle _ _ _ _ _ => 2
  | Ready _ _ _ _ _ => 3
  | Failure _ _ _ _ _ _ => 4
  | Retire _ _ _ _ _ => 5
  | ControlReady _ _ _ _ => 6
  | TriggerFailure _ _ _ _ _ => 7
  end.
Definition role_id (m : ControlMessage) : Z :=
  match m with
  | Configure role _ _ _ _ _ _ | ResourceBundle role _ _ _ _ | Ready role _ _ _ _ | Failure role _ _ _ _ _
  | Retire role _ _ _ _ | TriggerFailure role _ _ _ _ => role
  | ControlReady role _ _ _ => role
  end.
Definition bundle_generation (m : ControlMessage) : Z :=
  match m with
  | Configure _ bundle _ _ _ _ _ | ResourceBundle _ bundle _ _ _ | Ready _ bundle _ _ _ | Failure _ bundle _ _ _ _
  | Retire _ bundle _ _ _ | TriggerFailure _ bundle _ _ _ => bundle
  | ControlReady _ _ _ _ => 0
  end.
Definition attempt_generation (m : ControlMessage) : Z :=
  match m with
  | Configure _ _ attempt _ _ _ _ | ResourceBundle _ _ attempt _ _ | Ready _ _ attempt _ _ | Failure _ _ attempt _ _ _
  | Retire _ _ attempt _ _ | TriggerFailure _ _ attempt _ _ | ControlReady _ attempt _ _ => attempt
  end.
Definition endpoint (m : ControlMessage) : ControlEndpoint :=
  match m with
  | Configure _ _ _ e _ _ _ | ResourceBundle _ _ _ e _ | Ready _ _ _ e _ | Failure _ _ _ e _ _ | Retire _ _ _ e _
  | TriggerFailure _ _ _ e _ => e
  | ControlReady _ _ e _ => e
  end.
Definition transaction_id (m : ControlMessage) : Z :=
  match m with
  | Configure _ _ _ _ t _ _ | ResourceBundle _ _ _ _ t | Ready _ _ _ _ t | Failure _ _ _ _ t _ | Retire _ _ _ _ t
  | TriggerFailure _ _ _ _ t => t
  | ControlReady _ _ _ t => t
  end.

Definition validate_identity (m : ControlMessage) : result unit :=
  reject_if! (role_id m =? 0)
    || (negb (match m with ControlReady _ _ _ _ => true | _ => false end) && (bundle_generation m =? 0))
    || (attempt_generation m =? 0) || (id (endpoint m) =? 0) || (generation (endpoint m) =? 0)
    || (transaction_id m =? 0) with ZeroIdentity;;
  match m with
  | Configure _ _ _ _ _ profile profile_version =>
      reject_if! negb (profile =? Manifest.PROFILE_Q35) || negb (profile_version =? Manifest.PROFILE_Q35_VERSION)
        with InvalidProfile;;
      Ok tt
  | _ => Ok tt
  end.

Definition encode (m : ControlMessage) (output : list Z) : result (list Z) :=
  reject_if! negb (len output =? wire_size m) with WrongSize;;
  let! _ := validate_identity m in
  let output := zeroed output in
  let! output := splice output 0 MAGIC in
  let! output := put16 output 4 MAJOR in
  let! output := put16 output 6 MINOR in
  let! output := put32 output 8 (message_type m) in
  let! output := put32 output 16 (len output) in
  let! output := put32 output 20 (handle_count m) in
  let! output := put64 output 24 (role_id m) in
  let! output := put64 output 32 (bundle_generation m) in
  let! output := put64 output 40 (attempt_generation m) in
  let! output := put64 output 48 (id (endpoint m)) in
  let! output := put64 output 56 (generation (endpoint m)) in
  let! output := put64 output 64 (transaction_id m) in
  match m with
  | Configure _ _ _ _ _ profile profile_version =>
      let! output := put32 output HEADER_BYTES profile in
      put32 output (HEADER_BYTES + 4) profile_version
  | ResourceBundle _ _ _ _ _ | Ready _ _ _ _ _ | Retire _ _ _ _ _ | TriggerFailure _ _ _ _ _ | ControlReady _ _ _ _ =>
      Ok output
  | Failure _ _ _ _ _ code => put32 output HEADER_BYTES (failure_number code)
  end.

Definition parse (bytes : list Z) : result ControlMessage :=
  reject_if! len bytes <? HEADER_BYTES with WrongSize;;
  let! magic := slice bytes 0 4 in
  reject_if! negb (bool_decide (magic = MAGIC)) with WrongMagic;;
  let! major := get16 bytes 4 in
  let! minor := get16 bytes 6 in
  reject_if! negb (major =? MAJOR) || negb (minor =? MINOR) with WrongVersion;;
  let! flags := get32 bytes 12 in
  let! transaction := get64 bytes 64 in
  reject_if! negb (flags =? 0) || (transaction =? 0) with (if negb (flags =? 0) then NonzeroFlags else ZeroIdentity);;
  let! size := get32 bytes 16 in
  let! handles := get32 bytes 20 in
  reject_if! negb (size =? len bytes) with WrongSize;;
  let! role := get64 bytes 24 in
  let! bundle := get64 bytes 32 in
  let! attempt := get64 bytes 40 in
  let! e_id := get64 bytes 48 in
  let! e_generation := get64 bytes 56 in
  let e := mkControlEndpoint e_id e_generation in
  let! kind := get32 bytes 8 in
  let! m :=
    (if kind =? 1 then
       reject_if! negb (len bytes =? CONFIGURE_BYTES) || negb (handles =? CONFIGURE_HANDLE_COUNT) with WrongSize;;
       let! reserved := get64 bytes (HEADER_BYTES + 8) in
       reject_if! negb (reserved =? 0) with WrongSize;;
       let! profile := get32 bytes HEADER_BYTES in
       let! profile_version := get32 bytes (HEADER_BYTES + 4) in
       reject_if! negb (profile =? Manifest.PROFILE_Q35) || negb (profile_version =? Manifest.PROFILE_Q35_VERSION)
         with InvalidProfile;;
       Ok (Configure role bundle attempt e transaction profile profile_version)
     else if kind =? 2 then
       reject_if! negb (len bytes =? RESOURCE_BUNDLE_BYTES) || negb (handles =? RESOURCE_BUNDLE_HANDLE_COUNT)
         with WrongHandleCount;;
       Ok (ResourceBundle role bundle attempt e transaction)
     else if kind =? 3 then
       reject_if! negb (len bytes =? READY_BYTES) || negb (handles =? READY_HANDLE_COUNT) with WrongHandleCount;;
       Ok (Ready role bundle attempt e transaction)
     else if kind =? 4 then
       reject_if! negb (len bytes =? FAILURE_BYTES) || negb (handles =? FAILURE_HANDLE_COUNT) with NonzeroReserved;;
       let! reserved := get32 bytes (HEADER_BYTES + 4) in
       reject_if! negb (reserved =? 0) with NonzeroReserved;;
       let! code := get32 bytes HEADER_BYTES in
       let! code := parse_failure code in
       Ok (Failure role bundle attempt e transaction code)
     else if kind =? 5 then
       reject_if! negb (len bytes =? RETIRE_BYTES) || negb (handles =? RETIRE_HANDLE_COUNT) with WrongHandleCount;;
       Ok (Retire role bundle attempt e transaction)
     else if kind =? 6 then
       reject_if! negb (len bytes =? CONTROL_READY_BYTES) || negb (handles =? CONTROL_READY_HANDLE_COUNT)
         with WrongHandleCount;;
       reject_if! negb (bundle =? 0) with NonzeroReserved;;
       Ok (ControlReady role attempt e transaction)
     else if kind =? 7 then
       reject_if! negb (len bytes =? TRIGGER_FAILURE_BYTES) || negb (handles =? 0) with WrongHandleCount;;
       Ok (TriggerFailure role bundle attempt e transaction)
     else Err UnknownMessage) in
  let! _ := validate_identity m in
  Ok m.

End Control.

Module ControlV1_1.
Import Control.

Definition MAGIC : list Z := literal "WRDC".
Definition MAJOR : Z := 1.
Definition MINOR : Z := 1.
Definition HEADER_BYTES : Z := 72.
Definition DEVICE_STAGE_BYTES : Z := 112.
Definition DEVICE_QUIESCED_BYTES : Z := 80.
Definition INTERRUPT_STAGE_BYTES : Z := 96.
Definition ATTACH_STREAM_BYTES : Z := 96.
Definition READY_BYTES : Z := HEADER_BYTES.
Definition FAILURE_BYTES : Z := HEADER_BYTES + 8.
Definition RETIRE_BYTES : Z := HEADER_BYTES.

Record ControlIdentity := mkIdentity {
  i_role : Z; i_bundle : Z; i_attempt : Z; i_endpoint : ControlEndpoint; i_transaction : Z }.

Inductive ControlMessage :=
| DeviceStage (identity : ControlIdentity) (stage_generation resource_id pio_base pio_length source : Z)
| DeviceQuiesced (identity : ControlIdentity) (stage_generation : Z)
| InterruptStage (identity : ControlIdentity) (stage_generation parent_resource_id source : Z)
| AttachStream (identity : ControlIdentity) (stream_generation publication_generation : Z)
| StreamReady (identity : ControlIdentity) (stream_generation publication_generation : Z)
| StreamDetached (identity : ControlIdentity) (stream_generation publication_generation : Z)
| Ready (identity : ControlIdentity)
| Failure (identity : ControlIdentity) (code : FailureCode)
| Retire (identity : ControlIdentity).

Inductive ControlParseError :=
| WrongSize | WrongMagic | WrongVersion | UnknownMessage | NonzeroFlags | WrongHandleCount | ZeroIdentity
| NonzeroReserved | UnknownFailure.

Abbreviation result := (res ControlParseError).

Definition identity_of (m : ControlMessage) : ControlIdentity :=
  match m with
  | DeviceStage i _ _ _ _ _ | DeviceQuiesced i _ | InterruptStage i _ _ _ | AttachStream i _ _ | StreamReady i _ _
  | StreamDetached i _ _ | Ready i | Failure i _ | Retire i => i
  end.
Definition wire_size (m : ControlMessage) : Z :=
  match m with
  | DeviceStage _ _ _ _ _ _ => DEVICE_STAGE_BYTES
  | DeviceQuiesced _ _ => DEVICE_QUIESCED_BYTES
  | InterruptStage _ _ _ _ => INTERRUPT_STAGE_BYTES
  | AttachStream _ _ _ | StreamReady _ _ _ | StreamDetached _ _ _ => ATTACH_STREAM_BYTES
  | Ready _ | Retire _ => HEADER_BYTES
  | Failure _ _ => FAILURE_BYTES
  end.
Definition handle_count (m : ControlMessage) : Z :=
  match m with DeviceStage _ _ _ _ _ _ | InterruptStage _ _ _ _ | AttachStream _ _ _ => 1 | _ => 0 end.
Definition message_type (m : ControlMessage) : Z :=
  match m with
  | Ready _ => 3 | Failure _ _ => 4 | Retire _ => 5 | DeviceStage _ _ _ _ _ _ => 8 | DeviceQuiesced _ _ => 9
  | InterruptStage _ _ _ _ => 10 | AttachStream _ _ _ => 11 | StreamReady _ _ _ => 12 | StreamDetached _ _ _ => 13
  end.

Definition validate_identity (i : ControlIdentity) : result unit :=
  if (i_role i =? 0) || (i_bundle i =? 0) || (i_attempt i =? 0) || (id (i_endpoint i) =? 0)
     || (generation (i_endpoint i) =? 0) || (i_transaction i =? 0)
  then Err ZeroIdentity else Ok tt.

Definition validate_body (m : ControlMessage) : result unit :=
  let ok := match m with
    | DeviceStage _ stage resource _ pio_length source =>
        negb (stage =? 0) && negb (resource =? 0) && negb (pio_length =? 0) && negb (source =? 0)
    | DeviceQuiesced _ stage => negb (stage =? 0)
    | InterruptStage _ stage parent source => negb (stage =? 0) && negb (parent =? 0) && negb (source =? 0)
    | AttachStream _ stream publication | StreamReady _ stream publication | StreamDetached _ stream publication =>
        negb (stream =? 0) && negb (publication =? 0)
    | Failure _ code => match code with IntentionalRestart => false | _ => true end
    | Ready _ | Retire _ => true
    end in
  if (ok : bool) then Ok tt else Err ZeroIdentity.

Definition require_shape (bytes : list Z) (size actual_handles expected_handles : Z) : result unit :=
  if negb (len bytes =? size) then Err WrongSize
  else if negb (actual_handles =? expected_handles) then Err WrongHandleCount
  else Ok tt.
Definition require_zero (bytes : list Z) (start end_ : Z) : result unit :=
  let! range := slice bytes start end_ in
  if any_nonzero range then Err NonzeroReserved else Ok tt.

Definition encode (m : ControlMessage) (output : list Z) : result (list Z) :=
  reject_if! negb (len output =? wire_size m) with WrongSize;;
  let! _ := validate_identity (identity_of m) in
  let! _ := validate_body m in
  let output := zeroed output in
  let! output := splice output 0 MAGIC in
  let! output := put16 output 4 MAJOR in
  let! output := put16 output 6 MINOR in
  let! output := put32 output 8 (message_type m) in
  let! output := put32 output 16 (len output) in
  let! output := put32 output 20 (handle_count m) in
  let i := identity_of m in
  let! output := put64 output 24 (i_role i) in
  let! output := put64 output 32 (i_bundle i) in
  let! output := put64 output 40 (i_attempt i) in
  let! output := put64 output 48 (id (i_endpoint i)) in
  let! output := put64 output 56 (generation (i_endpoint i)) in
  let! output := put64 output 64 (i_transaction i) in
  match m with
  | DeviceStage _ stage resource pio_base pio_length source =>
      let! output := put64 output 72 stage in
      let! output := put64 output 80 resource in
      let! output := put16 output 88 pio_base in
      let! output := put16 output 90 pio_length in
      put32 output 92 source
  | DeviceQuiesced _ stage => put64 output 72 stage
  | InterruptStage _ stage parent source =>
      let! output := put64 output 72 stage in
      let! output := put64 output 80 parent in
      put32 output 88 source
  | AttachStream _ stream publication | StreamReady _ stream publication | StreamDetached _ stream publication =>
      let! output := put64 output 72 stream in
      put64 output 80 publication
  | Failure _ code => put32 output 72 (failure_number code)
  | Ready _ | Retire _ => Ok output
  end.

Definition parse_failure (value : Z) : result FailureCode :=
  if value =? 1 then Ok MalformedResource
  else if value =? 2 then Ok DriverRejected
  else if value =? 3 then Ok DriverExited
  else if value =? 4 then Ok CleanupFailed
  else if value =? 5 then Ok IntentionalRestart
  else Err UnknownFailure.

Definition parse (bytes : list Z) : result ControlMessage :=
  reject_if! len bytes <? HEADER_BYTES with WrongSize;;
  let! magic := slice bytes 0 4 in
  reject_if! negb (bool_decide (magic = MAGIC)) with WrongMagic;;
  let! major := get16 bytes 4 in
  let! minor := get16 bytes 6 in
  reject_if! negb (major =? MAJOR) || negb (minor =? MINOR) with WrongVersion;;
  let! flags := get32 bytes 12 in
  reject_if! negb (flags =? 0) with NonzeroFlags;;
  let! size := get32 bytes 16 in
  reject_if! negb (size =? len bytes) with WrongSize;;
  let! role := get64 bytes 24 in
  let! bundle := get64 bytes 32 in
  let! attempt := get64 bytes 40 in
  let! e_id := get64 bytes 48 in
  let! e_generation := get64 bytes 56 in
  let! transaction := get64 bytes 64 in
  let i := mkIdentity role bundle attempt (mkControlEndpoint e_id e_generation) transaction in
  let! _ := validate_identity i in
  let! handles := get32 bytes 20 in
  let! kind := get32 bytes 8 in
  let! m :=
    (if kind =? 8 then
       let! _ := require_shape bytes DEVICE_STAGE_BYTES handles 1 in
       let! _ := require_zero bytes 96 112 in
       let! stage := get64 bytes 72 in
       let! resource := get64 bytes 80 in
       let! pio_base := get16 bytes 88 in
       let! pio_length := get16 bytes 90 in
       let! source := get32 bytes 92 in
       Ok (DeviceStage i stage resource pio_base pio_length source)
     else if kind =? 9 then
       let! _ := require_shape bytes DEVICE_QUIESCED_BYTES handles 0 in
       let! stage := get64 bytes 72 in
       Ok (DeviceQuiesced i stage)
     else if kind =? 10 then
       let! _ := require_shape bytes INTERRUPT_STAGE_BYTES handles 1 in
       let! _ := require_zero bytes 92 96 in
       let! stage := get64 bytes 72 in
       let! parent := get64 bytes 80 in
       let! source := get32 bytes 88 in
       Ok (InterruptStage i stage parent source)
     else if (11 <=? kind) && (kind <=? 13) then
       let! _ := require_shape bytes ATTACH_STREAM_BYTES handles (if kind =? 11 then 1 else 0) in
       let! _ := require_zero bytes 88 96 in
       let! stream := get64 bytes 72 in
       let! publication := get64 bytes 80 in
       Ok (if kind =? 11 then AttachStream i stream publication
           else if kind =? 12 then StreamReady i stream publication
           else StreamDetached i stream publication)
     else if kind =? 3 then
       let! _ := require_shape bytes READY_BYTES handles 0 in
       Ok (Ready i)
     else if kind =? 4 then
       let! _ := require_shape bytes FAILURE_BYTES handles 0 in
       let! _ := require_zero bytes 76 80 in
       let! code := get32 bytes 72 in
       let! code := parse_failure code in
       Ok (Failure i code)
     else if kind =? 5 then
       let! _ := require_shape bytes RETIRE_BYTES handles 0 in
       Ok (Retire i)
     else Err UnknownMessage) in
  let! _ := validate_body m in
  Ok m.

End ControlV1_1.
