(* ===== verification/ControlThms.v ===== *)
(** * Driver control: the two codecs of WRDC are exact *)

From stdpp Require Import base tactics option list list_numbers.
From Stdlib Require Import ZArith Lia.
From S2P Require Import Prelude Bytes Layout DeviceManifest DeviceControl.

(** The seven fields every record starts with. *)
Definition head_fields (magic : list Z) (minor kind bytes handles : Z) : list field :=
  [Raw magic; Int 2 1; Int 2 minor; Int 4 kind; Int 4 0; Int 4 bytes; Int 4 handles].

Module ControlSpec.
Import Control.

Definition layout (m : ControlMessage) : list field :=
  head_fields MAGIC MINOR (message_type m) (wire_size m) (handle_count m) ++
  [Int 8 (role_id m); Int 8 (bundle_generation m); Int 8 (attempt_generation m); Int 8 (id (endpoint m));
   Int 8 (generation (endpoint m)); Int 8 (transaction_id m)] ++
  match m with
  | Configure _ _ _ _ _ profile profile_version => [Int 4 profile; Int 4 profile_version; Int 8 0]
  | Failure _ _ _ _ _ code => [Int 4 (failure_number code); Int 4 0]
  | _ => []
  end.
Definition valid (m : ControlMessage) : Prop := validate_identity m = Ok tt.

Lemma wrdc_layout_size m : Z.of_nat (size (layout m)) = wire_size m.
Proof. by destruct m. Qed.

Lemma wrdc_encode_as_layout m output : valid m -> length output = size (layout m) -> encode m output = Ok (render (layout m)).
Proof.
  intros Hv Hl. unfold encode. unfold valid in Hv. rewrite Hl, wrdc_layout_size, Z.eqb_refl, Hv. unfold zeroed. rewrite Hl. clear.
  destruct m; cbv -[Z.modulo Z.div failure_number]; reflexivity.
Qed.

Lemma wrdc_validate_no_panic m : validate_identity m <> Panic.
Proof. unfold validate_identity. no_panic. destruct m; no_panic. Qed.

Lemma wrdc_encode_refuses_size m output : len output <> wire_size m -> exists e, encode m output = Err e.
Proof. intros H%Z.eqb_neq. unfold encode. rewrite H. by eexists. Qed.
Lemma wrdc_encode_refuses_message m output e : len output = wire_size m -> validate_identity m = Err e -> encode m output = Err e.
Proof. intros Hl H. unfold encode. by rewrite Hl, Z.eqb_refl, H. Qed.

Lemma wrdc_parse_failure_Ok value code : parse_failure value = Ok code <-> value = failure_number code.
Proof.
  split; [|intros ->; by destruct code]. unfold parse_failure. intros H. record_cases; done.
Qed.

Lemma wrdc_parse_only_layouts bytes m :
  bytes_ok bytes -> parse bytes = Ok m -> valid m /\ Forall field_ok (layout m) /\ bytes = render (layout m).
Proof.
  intros Hb H. unfold parse, slice, get16, get32, get64 in H. record_cases.
  all: match goal with H : len ?b = _, H' : get_le 4 ?b 16 = _ |- _ => rewrite H in H' end.
  all: match goal with H : validate_identity _ = Ok ?u |- _ => destruct u end; split; [assumption|].
  4: match goal with H : parse_failure _ = _ |- _ => apply wrdc_parse_failure_Ok in H as -> end.
  all: read_back; apply Nat2Z.inj; rewrite wrdc_layout_size; assumption.
Qed.

Lemma wrdc_valid_facts m : valid m ->
  (transaction_id m =? 0) = false /\
  match m with
  | Configure _ _ _ _ _ profile profile_version =>
      negb (profile =? Manifest.PROFILE_Q35) || negb (profile_version =? Manifest.PROFILE_Q35_VERSION) = false
  | _ => True
  end.
Proof. unfold valid, validate_identity. intros H. repeat res_step. apply orb_false_iff in E as [_ E]. split; [done|]. destruct m; by repeat res_step. Qed.

Lemma wrdc_parse_layout m : valid m -> Forall field_ok (layout m) -> parse (render (layout m)) = Ok m.
Proof.
  intros Hv Hok. destruct (wrdc_valid_facts m Hv) as [Ht Hp]. unfold valid in Hv. unfold parse, slice, get16, get32, get64.
  rewrite length_render, wrdc_layout_size. destruct m as [r b a []|r b a []|r b a []|r a []|r b a [] t code|r b a []|r b a []];
    try pose proof (proj2 (wrdc_parse_failure_Ok _ code) eq_refl) as Hf; unfold layout, head_fields in Hok |- *; known_fields; accept.
Qed.

Lemma wrdc_parse_total bytes : parse bytes <> Panic.
Proof.
  unfold parse, parse_failure, slice, get16, get32, get64. no_panic; try apply wrdc_validate_no_panic.
  all: bool_prop; unfold HEADER_BYTES, CONFIGURE_BYTES, FAILURE_BYTES, HEADER_BYTES in *; lia.
Qed.

Definition proper (m : ControlMessage) : Prop := Forall field_ok (layout m).
#[export] Instance exact : Exact encode parse layout valid proper := {
  encode_layout := wrdc_encode_as_layout;
  encode_valid := writer_valid _ _ _ _ wrdc_layout_size wrdc_validate_no_panic wrdc_encode_refuses_size wrdc_encode_refuses_message wrdc_encode_as_layout;
  encode_no_panic := writer_total _ _ _ _ wrdc_layout_size wrdc_validate_no_panic wrdc_encode_refuses_size wrdc_encode_refuses_message wrdc_encode_as_layout;
  parse_sound := wrdc_parse_only_layouts; parse_complete := wrdc_parse_layout; parse_no_panic := wrdc_parse_total;
  proper_fits m H := H }.
End ControlSpec.

Module ControlV1_1Spec.
Import Control ControlV1_1.

Definition layout (m : ControlMessage) : list field :=
  let i := identity_of m in
  head_fields MAGIC MINOR (message_type m) (wire_size m) (handle_count m) ++
  [Int 8 (i_role i); Int 8 (i_bundle i); Int 8 (i_attempt i); Int 8 (id (i_endpoint i)); Int 8 (generation (i_endpoint i));
   Int 8 (i_transaction i)] ++
  match m with
  | DeviceStage _ stage resource pio_base pio_length source =>
      [Int 8 stage; Int 8 resource; Int 2 pio_base; Int 2 pio_length; Int 4 source; zeros 16]
  | DeviceQuiesced _ stage => [Int 8 stage]
  | InterruptStage _ stage parent source => [Int 8 stage; Int 8 parent; Int 4 source; zeros 4]
  | AttachStream _ stream publication | StreamReady _ stream publication | StreamDetached _ stream publication =>
      [Int 8 stream; Int 8 publication; zeros 8]
  | Failure _ code => [Int 4 (failure_number code); zeros 4]
  | Ready _ | Retire _ => []
  end.
Definition check (m : ControlMessage) : result unit := let! _ := validate_identity (identity_of m) in validate_body m.
Definition valid (m : ControlMessage) : Prop := check m = Ok tt.

Lemma wrdc11_valid_intro m : validate_identity (identity_of m) = Ok tt -> validate_body m = Ok tt -> valid m.
Proof. unfold valid, check. by intros ->. Qed.

Lemma wrdc11_layout_size m : Z.of_nat (size (layout m)) = wire_size m.
Proof. by destruct m. Qed.
Lemma wrdc11_validate_identity_total i : validate_identity i <> Panic.
Proof. unfold validate_identity. no_panic. Qed.
Lemma wrdc11_validate_body_total m : validate_body m <> Panic.
Proof. unfold validate_body. no_panic. Qed.
Lemma wrdc11_check_total m : check m <> Panic.
Proof. unfold check. no_panic; [apply wrdc11_validate_identity_total|apply wrdc11_validate_body_total]. Qed.
Lemma wrdc11_encode_refuses_size m output : len output <> wire_size m -> exists e, encode m output = Err e.
Proof. intros H%Z.eqb_neq. unfold encode. rewrite H. by eexists. Qed.
Lemma wrdc11_encode_refuses_message m output e : len output = wire_size m -> check m = Err e -> encode m output = Err e.
Proof.
  intros Hl H. unfold encode. rewrite Hl, Z.eqb_refl. cbn [negb]. unfold check in H.
  destruct (validate_identity _) as [[]|e'|]; cbn in H |- *; [by rewrite H|congruence|done].
Qed.
Lemma wrdc11_encode_as_layout m output : valid m -> length output = size (layout m) -> encode m output = Ok (render (layout m)).
Proof.
  intros Hv Hl. unfold encode. unfold valid, check in Hv. apply res_bind_Ok in Hv as ([] & Hi & Hb).
  rewrite Hl, wrdc11_layout_size, Z.eqb_refl, Hi. unfold res_bind at 1. rewrite Hb. unfold zeroed. rewrite Hl. clear.
  destruct m; cbv -[Z.modulo Z.div failure_number]; reflexivity.
Qed.

Lemma wrdc11_parse_failure_Ok value code : parse_failure value = Ok code <-> value = failure_number code.
Proof.
  split; [|intros ->; by destruct code]. unfold parse_failure. intros H. record_cases; done.
Qed.

Lemma wrdc11_require_shape_Ok bytes size handles expected u :
  require_shape bytes size handles expected = Ok u <-> len bytes = size /\ handles = expected.
Proof.
  destruct u. unfold require_shape. destruct (Z.eqb_spec (len bytes) size), (Z.eqb_spec handles expected); cbn; split; naive_solver.
Qed.
Lemma wrdc11_require_shape_total bytes size handles expected : require_shape bytes size handles expected <> Panic.
Proof. unfold require_shape. no_panic. Qed.
Lemma wrdc11_require_zero_total bytes a b : 0 <= a <= b /\ b <= len bytes -> require_zero bytes a b <> Panic.
Proof. intros H. unfold require_zero, slice. no_panic. lia. Qed.
Lemma wrdc11_require_zero_Ok bytes a b u :
  require_zero bytes a b = Ok u -> get_range bytes a b = Some (replicate (Z.to_nat (b - a)) 0).
Proof.
  unfold require_zero, slice. intros H. repeat res_step. apply any_nonzero_false in E. rewrite H0, E. do 2 f_equal.
  apply length_get_range in H0. lia.
Qed.

Lemma wrdc11_parse_only_layouts bytes m :
  bytes_ok bytes -> parse bytes = Ok m -> valid m /\ Forall field_ok (layout m) /\ bytes = render (layout m).
Proof.
  intros Hb H. unfold parse, slice, get16, get32, get64 in H. record_cases.
  4: assert (a12 = 11 \/ a12 = 12 \/ a12 = 13) as [->|[->| ->]] by lia; cbv [Z.eqb Pos.eqb] in *.
  all: repeat match goal with
    | H : require_shape _ _ _ _ = _ |- _ => apply wrdc11_require_shape_Ok in H as [? ->]
    | H : require_zero _ _ _ = _ |- _ => apply wrdc11_require_zero_Ok in H
    | H : parse_failure _ = _ |- _ => apply wrdc11_parse_failure_Ok in H as ->
    | u : unit |- _ => destruct u
    end.
  all: match goal with H : len ?b = _, H' : get_le 4 ?b 16 = _ |- _ => rewrite H in H' end.
  all: split; [apply wrdc11_valid_intro; assumption|].
  all: read_back; apply Nat2Z.inj; rewrite wrdc11_layout_size; assumption.
Qed.

Lemma wrdc11_parse_layout m : valid m -> Forall field_ok (layout m) -> parse (render (layout m)) = Ok m.
Proof.
  intros Hv Hok. unfold valid, check in Hv. apply res_bind_Ok in Hv as ([] & Hi & Hb).
  unfold parse, require_zero, require_shape, slice, get16, get32, get64. rewrite length_render, wrdc11_layout_size.
  destruct m as [[? ? ? []]|[? ? ? []]|[? ? ? []]|[? ? ? []]|[? ? ? []]|[? ? ? []]|[? ? ? []]|[? ? ? []] code|[? ? ? []]];
    try pose proof (proj2 (wrdc11_parse_failure_Ok _ code) eq_refl) as Hf; unfold layout, head_fields in Hok |- *; known_fields; accept.
Qed.

Lemma wrdc11_parse_total bytes : parse bytes <> Panic.
Proof.
  unfold parse, parse_failure, slice, get16, get32, get64. no_panic.
  all: repeat match goal with H : require_shape _ _ _ _ = _ |- _ => apply wrdc11_require_shape_Ok in H as [? _] end.
  all: first [apply wrdc11_validate_identity_total | apply wrdc11_validate_body_total | apply wrdc11_require_shape_total | idtac].
  all: bool_prop; unfold DEVICE_STAGE_BYTES, DEVICE_QUIESCED_BYTES, INTERRUPT_STAGE_BYTES, ATTACH_STREAM_BYTES, FAILURE_BYTES, HEADER_BYTES in *.
  all: first [lia | apply wrdc11_require_zero_total; lia].
Qed.

Definition proper (m : ControlMessage) : Prop := Forall field_ok (layout m).
#[export] Instance exact : Exact encode parse layout valid proper := {
  encode_layout := wrdc11_encode_as_layout;
  encode_valid := writer_valid _ _ _ _ wrdc11_layout_size wrdc11_check_total wrdc11_encode_refuses_size wrdc11_encode_refuses_message wrdc11_encode_as_layout;
  encode_no_panic := writer_total _ _ _ _ wrdc11_layout_size wrdc11_check_total wrdc11_encode_refuses_size wrdc11_encode_refuses_message wrdc11_encode_as_layout;
  parse_sound := wrdc11_parse_only_layouts; parse_complete := wrdc11_parse_layout; parse_no_panic := wrdc11_parse_total;
  proper_fits m H := H }.
End ControlV1_1Spec.
