(* ===== verification/DeviceController.v ===== *)
(** * Records of the device manager's other channels (crates/wyrmroot-device-proto/src)

    WRCS, with which the supervisor installs the registry endpoint (controller.rs, and
    the 1.1 extension of controller_v1_1.rs); WRSC, the serial connector
    (connector.rs); and WDR5, the acceptance controller's relay (d5_controller.rs). *)

From Stdlib Require Import String.
From stdpp Require Import base tactics option list list_numbers.
From Stdlib Require Import ZArith Lia.
From S2P Require Import Prelude Bytes Layout DeviceManifest StateM Coordinator.

Module Controller.
Import Coordinator.

Definition MAGIC : list Z := literal "WRCS".
Definition MAJOR : Z := 1.
Definition MINOR : Z := 0.
Definition HEADER_BYTES : Z := 72.
Definition INSTALL_BYTES : Z := HEADER_BYTES.
Definition STATUS_BYTES : Z := HEADER_BYTES + 16.
Definition INSTALL_HANDLE_COUNT : Z := 0.
Definition REBIND_HANDLE_COUNT : Z := 1.
Definition STATUS_HANDLE_COUNT : Z := 0.

Inductive ControllerParseError :=
| WrongSize | WrongMagic | WrongVersion | UnknownMessage | NonzeroFlags | WrongHandleCount | ZeroIdentity
| NonzeroReserved | StaleBinding | DeviceBoundStatus | MissingAttempt.

Abbreviation result := (res ControllerParseError).

Inductive MessageType := TInstallPublication | TRebindPublication | TStatus.
(** [message_type as u32] *)
Definition type_number (t : MessageType) : Z := match t with TInstallPublication => 1 | TRebindPublication => 2 | TStatus => 3 end.
(** [MessageType::parse] *)
Definition parse_type (value : Z) : result MessageType :=
  if value =? 1 then Ok TInstallPublication
  else if value =? 2 then Ok TRebindPublication
  else if value =? 3 then Ok TStatus
  else Err UnknownMessage.

Inductive StatusCode :=
| OperationalWaitingForRegistry | OperationalWaitingForDeviceBundle | SCleaningUp | SBackoff | SPermanentFailure
| OperationalResourceOwned.
(** [status as u32] *)
Definition status_number (s : StatusCode) : Z :=
  match s with
  | OperationalWaitingForRegistry => 1 | OperationalWaitingForDeviceBundle => 2 | SCleaningUp => 3 | SBackoff => 4
  | SPermanentFailure => 5 | OperationalResourceOwned => 6
  end.
(** [StatusCode::parse] *)
Definition parse_status (value : Z) : result StatusCode :=
  if value =? 1 then Ok OperationalWaitingForRegistry
  else if value =? 2 then Ok OperationalWaitingForDeviceBundle
  else if value =? 3 then Ok SCleaningUp
  else if value =? 4 then Ok SBackoff
  else if value =? 5 then Ok SPermanentFailure
  else if value =? 6 then Ok OperationalResourceOwned
  else Err DeviceBoundStatus.
Definition is_device_bound (_ : StatusCode) : bool := false.

Inductive ControllerMessage :=
| InstallPublication (supervisor : Z) (bound : RegistryBinding) (transaction : Z)
| RebindPublication (supervisor : Z) (bound : RegistryBinding) (transaction : Z)
| Status (supervisor : Z) (bound : option RegistryBinding) (transaction : Z) (status : StatusCode) (attempt : option Z).

Definition message_type (m : ControllerMessage) : MessageType :=
  match m with
  | InstallPublication _ _ _ => TInstallPublication
  | RebindPublication _ _ _ => TRebindPublication
  | Status _ _ _ _ _ => TStatus
  end.
Definition wire_size (m : ControllerMessage) : Z :=
  match m with Status _ _ _ _ _ => STATUS_BYTES | InstallPublication _ _ _ | RebindPublication _ _ _ => INSTALL_BYTES end.
Definition handle_count (m : ControllerMessage) : Z :=
  match m with
  | InstallPublication _ _ _ => INSTALL_HANDLE_COUNT
  | RebindPublication _ _ _ => REBIND_HANDLE_COUNT
  | Status _ _ _ _ _ => STATUS_HANDLE_COUNT
  end.
Definition supervisor_of (m : ControllerMessage) : Z :=
  match m with InstallPublication s _ _ | RebindPublication s _ _ | Status s _ _ _ _ => s end.
(** [fn binding] *)
Definition binding_of (m : ControllerMessage) : option RegistryBinding :=
  match m with InstallPublication _ b _ | RebindPublication _ b _ => Some b | Status _ b _ _ _ => b end.
Definition transaction_id (m : ControllerMessage) : Z :=
  match m with InstallPublication _ _ t | RebindPublication _ _ t | Status _ _ t _ _ => t end.

(** The statuses that need a binding *)
Definition needs_binding (status : StatusCode) : bool :=
  match status with
  | OperationalWaitingForDeviceBundle | OperationalResourceOwned | SCleaningUp | SBackoff | SPermanentFailure => true
  | OperationalWaitingForRegistry => false
  end.
Definition is_backoff (status : StatusCode) : bool := match status with SBackoff => true | _ => false end.

Definition validate_message (m : ControllerMessage) : result unit :=
  reject_if! (supervisor_of m =? 0) || (transaction_id m =? 0) with ZeroIdentity;;
  reject_if! match binding_of m with
             | Some b => (registry_generation b =? 0) || (registry_endpoint_id (binding_endpoint b) =? 0)
                         || (registry_endpoint_generation (binding_endpoint b) =? 0)
             | None => false
             end with ZeroIdentity;;
  match m with
  | Status _ bound _ status attempt =>
      reject_if! is_device_bound status with DeviceBoundStatus;;
      reject_if! needs_binding status && bool_decide (bound = None) with StaleBinding;;
      reject_if! is_backoff status && bool_decide (attempt = None) with MissingAttempt;;
      Ok tt
  | _ => Ok tt
  end.

Definition encode (m : ControllerMessage) (output : list Z) : result (list Z) :=
  reject_if! negb (len output =? wire_size m) with WrongSize;;
  let! _ := validate_message m in
  let output := zeroed output in
  let! output := splice output 0 MAGIC in
  let! output := put16 output 4 MAJOR in
  let! output := put16 output 6 MINOR in
  let! output := put32 output 8 (type_number (message_type m)) in
  let! output := put32 output 16 (len output) in
  let! output := put32 output 20 (handle_count m) in
  let! output := put64 output 24 (supervisor_of m) in
  let! output :=
    match binding_of m with
    | Some b =>
        let! output := put64 output 32 (registry_generation b) in
        let! output := put64 output 40 (registry_endpoint_id (binding_endpoint b)) in
        put64 output 48 (registry_endpoint_generation (binding_endpoint b))
    | None => Ok output
    end in
  let! output := put64 output 56 (transaction_id m) in
  match m with
  | Status _ _ _ status attempt =>
      let! output := put32 output HEADER_BYTES (status_number status) in
      put64 output (HEADER_BYTES + 8) (match attempt with Some v => v | None => 0 end)
  | InstallPublication _ _ _ | RebindPublication _ _ _ => Ok output
  end.

Definition binding_from_bytes (bytes : list Z) : result (option RegistryBinding) :=
  let! g := get64 bytes 32 in
  let! i := get64 bytes 40 in
  let! e := get64 bytes 48 in
  if (g =? 0) && (i =? 0) && (e =? 0) then Ok None
  else
    reject_if! (g =? 0) || (i =? 0) || (e =? 0) with ZeroIdentity;;
    Ok (Some (mkBinding g (mkRegistryEndpoint i e))).

Definition parse (bytes : list Z) : result ControllerMessage :=
  reject_if! len bytes <? HEADER_BYTES with WrongSize;;
  let! magic := slice bytes 0 4 in
  reject_if! negb (bool_decide (magic = MAGIC)) with WrongMagic;;
  let! major := get16 bytes 4 in
  let! minor := get16 bytes 6 in
  reject_if! negb (major =? MAJOR) || negb (minor =? MINOR) with WrongVersion;;
  let! flags := get32 bytes 12 in
  reject_if! negb (flags =? 0) with NonzeroFlags;;
  let! kind := get32 bytes 8 in
  let! kind := parse_type kind in
  let expected_size := match kind with TStatus => STATUS_BYTES | TInstallPublication | TRebindPublication => INSTALL_BYTES end in
  reject_if! negb (len bytes =? expected_size) with WrongSize;;
  let! size := get32 bytes 16 in
  reject_if! negb (size =? expected_size) with WrongSize;;
  let expected_handles :=
    match kind with
    | TStatus => STATUS_HANDLE_COUNT | TInstallPublication => INSTALL_HANDLE_COUNT | TRebindPublication => REBIND_HANDLE_COUNT
    end in
  let! handles := get32 bytes 20 in
  reject_if! negb (handles =? expected_handles) with WrongHandleCount;;
  let! reserved := get64 bytes 64 in
  reject_if! negb (reserved =? 0) with NonzeroReserved;;
  let! supervisor := get64 bytes 24 in
  let! bound := binding_from_bytes bytes in
  let! transaction := get64 bytes 56 in
  reject_if! (supervisor =? 0) || (transaction =? 0) with ZeroIdentity;;
  let! m :=
    match kind with
    | TInstallPublication => let! b := ok_or ZeroIdentity bound in Ok (InstallPublication supervisor b transaction)
    | TRebindPublication => let! b := ok_or ZeroIdentity bound in Ok (RebindPublication supervisor b transaction)
    | TStatus =>
        let! reserved := get32 bytes (HEADER_BYTES + 4) in
        reject_if! negb (reserved =? 0) with NonzeroReserved;;
        let! status := get32 bytes HEADER_BYTES in
        let! status := parse_status status in
        let! raw_attempt := get64 bytes (HEADER_BYTES + 8) in
        let attempt := if raw_attempt =? 0 then None else Some raw_attempt in
        reject_if! needs_binding status && bool_decide (bound = None) with StaleBinding;;
        reject_if! is_backoff status && bool_decide (attempt = None) with MissingAttempt;;
        Ok (Status supervisor bound transaction status attempt)
    end in
  let! _ := validate_message m in
  Ok m.

Definition validate_binding_transition (supervisor : Z) (current : option RegistryBinding) (incoming : ControllerMessage)
    : result RegistryBinding :=
  let! '(g, b) :=
    match incoming with
    | InstallPublication s b _ | RebindPublication s b _ => Ok (s, b)
    | Status _ _ _ _ _ => Err StaleBinding
    end in
  reject_if! negb (g =? supervisor) with StaleBinding;;
  let! _ :=
    match incoming with
    | InstallPublication _ _ _ => if bool_decide (current = None) then Ok tt else Err StaleBinding
    | RebindPublication _ _ _ => if bool_decide (current = None) then Err StaleBinding else Ok tt
    | Status _ _ _ _ _ => Err StaleBinding
    end in
  reject_if! match current with
             | Some old =>
                 (registry_generation b <? registry_generation old)
                 || (registry_endpoint_id (binding_endpoint b) <? registry_endpoint_id (binding_endpoint old))
                 || ((registry_endpoint_id (binding_endpoint b) =? registry_endpoint_id (binding_endpoint old))
                     && (registry_endpoint_generation (binding_endpoint b)
                         <=? registry_endpoint_generation (binding_endpoint old)))
             | None => false
             end with StaleBinding;;
  Ok b.

End Controller.

Module ControllerV1_1.
Import Controller.

Definition MINOR : Z := 1.
Definition RECORD_BYTES : Z := 80.

Record PublicationMessage := mkPublication { controller : ControllerMessage; service_generation : Z }.

Definition encode (m : PublicationMessage) (output : list Z) : result (list Z) :=
  reject_if! negb (len output =? RECORD_BYTES) with WrongSize;;
  reject_if! match controller m with Status _ _ _ _ _ => true | _ => false end with UnknownMessage;;
  reject_if! service_generation m =? 0 with ZeroIdentity;;
  let! head := slice output 0 HEADER_BYTES in
  let! head := Controller.encode (controller m) head in
  let! output := splice output 0 head in
  let! output := put16 output 6 MINOR in
  let! output := put32 output 16 RECORD_BYTES in
  put64 output 72 (service_generation m).

Definition parse (bytes : list Z) : result PublicationMessage :=
  reject_if! negb (len bytes =? RECORD_BYTES) with WrongSize;;
  let! magic := slice bytes 0 4 in
  reject_if! negb (bool_decide (magic = MAGIC)) with WrongMagic;;
  let! major := slice bytes 4 6 in
  let! minor := slice bytes 6 8 in
  reject_if! negb (bool_decide (major = to_le 2 MAJOR)) || negb (bool_decide (minor = to_le 2 MINOR)) with WrongVersion;;
  let! size := slice bytes 16 20 in
  reject_if! negb (bool_decide (size = to_le 4 RECORD_BYTES)) with WrongSize;;
  let! kind := slice bytes 8 12 in
  reject_if! negb (bool_decide (kind = to_le 4 (type_number TInstallPublication)))
             && negb (bool_decide (kind = to_le 4 (type_number TRebindPublication))) with UnknownMessage;;
  let! header := slice bytes 0 HEADER_BYTES in
  let! header := put16 header 6 Controller.MINOR in
  let! header := put32 header 16 HEADER_BYTES in
  let! c := Controller.parse header in
  let! g := get64 bytes 72 in
  reject_if! g =? 0 with ZeroIdentity;;
  Ok (mkPublication c g).

End ControllerV1_1.

Module Connector.

Definition MAGIC : list Z := literal "WRSC".
Definition MAJOR : Z := 1.
Definition MINOR : Z := 1.
Definition RECORD_BYTES : Z := 128.
Definition CLIENT_STREAM_HANDLE_COUNT : Z := 1.

Record ConnectorIdentity := mkIdentity {
  publication_generation : Z;
  client_transaction_id : Z;
  device_role_id : Z;
  bundle_generation : Z;
  driver_attempt_generation : Z;
  driver_control_endpoint_id : Z;
  driver_control_endpoint_generation : Z;
  attach_transaction_id : Z;
  stream_generation : Z }.

Inductive ConnectorErrorCode := Busy | NotReady | Stale | InternalFailure.
(** [code as u32] *)
Definition code_number (c : ConnectorErrorCode) : Z := match c with Busy => 1 | NotReady => 2 | Stale => 3 | InternalFailure => 4 end.

Inductive ConnectorMessage :=
| ConnectStream (publication client : Z)
| Connected (identity : ConnectorIdentity)
| ConnectorFailure (publication client : Z) (code : ConnectorErrorCode).

Inductive ConnectorParseError :=
| WrongSize | WrongMagic | WrongVersion | UnknownMessage | NonzeroFlags | WrongHandleCount | ZeroIdentity
| InvalidResult | NonzeroReserved.

Abbreviation result := (res ConnectorParseError).

Definition handle_count (m : ConnectorMessage) : Z := match m with Connected _ => CLIENT_STREAM_HANDLE_COUNT | _ => 0 end.
Definition message_type (m : ConnectorMessage) : Z :=
  match m with ConnectStream _ _ => 1 | Connected _ => 2 | ConnectorFailure _ _ _ => 3 end.

Definition validate (m : ConnectorMessage) : result unit :=
  let ok := match m with
    | ConnectStream publication client | ConnectorFailure publication client _ => negb (publication =? 0) && negb (client =? 0)
    | Connected i =>
        forallb (fun value => negb (value =? 0))
          [publication_generation i; client_transaction_id i; device_role_id i; bundle_generation i;
           driver_attempt_generation i; driver_control_endpoint_id i; driver_control_endpoint_generation i;
           attach_transaction_id i; stream_generation i]
    end in
  if (ok : bool) then Ok tt else Err ZeroIdentity.

Definition put_identity (output : list Z) (i : ConnectorIdentity) : result (list Z) :=
  let! output := put64 output 24 (publication_generation i) in
  let! output := put64 output 32 (client_transaction_id i) in
  let! output := put64 output 40 (device_role_id i) in
  let! output := put64 output 48 (bundle_generation i) in
  let! output := put64 output 56 (driver_attempt_generation i) in
  let! output := put64 output 64 (driver_control_endpoint_id i) in
  let! output := put64 output 72 (driver_control_endpoint_generation i) in
  let! output := put64 output 80 (attach_transaction_id i) in
  put64 output 88 (stream_generation i).

Definition get_identity (bytes : list Z) : result ConnectorIdentity :=
  let! publication := get64 bytes 24 in
  let! client := get64 bytes 32 in
  let! role := get64 bytes 40 in
  let! bundle := get64 bytes 48 in
  let! attempt := get64 bytes 56 in
  let! endpoint := get64 bytes 64 in
  let! endpoint_generation := get64 bytes 72 in
  let! attach := get64 bytes 80 in
  let! stream := get64 bytes 88 in
  Ok (mkIdentity publication client role bundle attempt endpoint endpoint_generation attach stream).

Definition encode (m : ConnectorMessage) (output : list Z) : result (list Z) :=
  reject_if! negb (len output =? RECORD_BYTES) with WrongSize;;
  let! _ := validate m in
  let output := zeroed output in
  let! output := splice output 0 MAGIC in
  let! output := put16 output 4 MAJOR in
  let! output := put16 output 6 MINOR in
  let! output := put32 output 8 (message_type m) in
  let! output := put32 output 16 RECORD_BYTES in
  let! output := put32 output 20 (handle_count m) in
  match m with
  | ConnectStream publication client =>
      let! output := put64 output 24 publication in
      put64 output 32 client
  | Connected i => put_identity output i
  | ConnectorFailure publication client code =>
      let! output := put64 output 24 publication in
      let! output := put64 output 32 client in
      put32 output 96 (code_number code)
  end.

Definition parse_code (value : Z) : result ConnectorErrorCode :=
  if value =? 1 then Ok Busy
  else if value =? 2 then Ok NotReady
  else if value =? 3 then Ok Stale
  else if value =? 4 then Ok InternalFailure
  else Err InvalidResult.

Definition parse (bytes : list Z) : result ConnectorMessage :=
  reject_if! negb (len bytes =? RECORD_BYTES) with WrongSize;;
  let! magic := slice bytes 0 4 in
  reject_if! negb (bool_decide (magic = MAGIC)) with WrongMagic;;
  let! major := get16 bytes 4 in
  let! minor := get16 bytes 6 in
  reject_if! negb (major =? MAJOR) || negb (minor =? MINOR) with WrongVersion;;
  let! flags := get32 bytes 12 in
  reject_if! negb (flags =? 0) with NonzeroFlags;;
  let! size := get32 bytes 16 in
  reject_if! negb (size =? RECORD_BYTES) with WrongSize;;
  let! reserved := slice bytes 100 (len bytes) in
  reject_if! any_nonzero reserved with NonzeroReserved;;
  let! handles := get32 bytes 20 in
  let! publication := get64 bytes 24 in
  let! client := get64 bytes 32 in
  let! kind := get32 bytes 8 in
  let! m :=
    (if kind =? 1 then
       reject_if! negb (handles =? 0) with WrongHandleCount;;
       let! reserved := slice bytes 40 100 in
       reject_if! any_nonzero reserved with NonzeroReserved;;
       Ok (ConnectStream publication client)
     else if kind =? 2 then
       reject_if! negb (handles =? CLIENT_STREAM_HANDLE_COUNT) with WrongHandleCount;;
       let! outcome := get32 bytes 96 in
       reject_if! negb (outcome =? 0) with InvalidResult;;
       let! i := get_identity bytes in
       Ok (Connected i)
     else if kind =? 3 then
       reject_if! negb (handles =? 0) with WrongHandleCount;;
       let! reserved := slice bytes 40 96 in
       reject_if! any_nonzero reserved with NonzeroReserved;;
       let! code := get32 bytes 96 in
       let! code := parse_code code in
       Ok (ConnectorFailure publication client code)
     else Err UnknownMessage) in
  let! _ := validate m in
  Ok m.

End Connector.

Module D5Controller.

Definition MAGIC : list Z := literal "WDR5".
Definition MAJOR : Z := 1.
Definition MINOR : Z := 0.
Definition RECORD_BYTES : Z := 96.
Definition DRIVER_READY : Z := 1.
Definition REQUEST_RETIRE : Z := 2.
Definition CLIENT_RELEASED : Z := 3.
Definition REQUEST_DRAIN : Z := 4.
Definition TX_DRAINED : Z := 5.

Record D5DriverIdentity := mkDriver {
  device_role_id : Z;
  bundle_generation : Z;
  driver_attempt_generation : Z;
  driver_control_endpoint_id : Z;
  driver_control_endpoint_generation : Z;
  launch_transaction_id : Z }.
Record D5StreamIdentity := mkStream {
  stream_driver : D5DriverIdentity;
  publication_generation : Z;
  client_transaction_id : Z;
  attach_transaction_id : Z;
  stream_generation : Z }.
Record D5DrainIdentity := mkDrain {
  drain_driver : D5DriverIdentity;
  drain_attach_transaction_id : Z;
  drain_stream_generation : Z;
  target_tx_bytes : Z;
  leg : Z }.

Inductive D5ControllerMessage :=
| DriverReady (i : D5DriverIdentity) | RequestRetire (i : D5DriverIdentity) | ClientReleased (i : D5StreamIdentity)
| RequestDrain (i : D5DrainIdentity) | TxDrained (i : D5DrainIdentity).

Inductive D5ControllerParseError :=
| WrongSize | WrongMagic | WrongVersion | UnknownMessage | NonzeroFlags | ZeroIdentity | NonzeroReserved | InvalidDrainTarget.

Abbreviation result := (res D5ControllerParseError).

Definition message_type (m : D5ControllerMessage) : Z :=
  match m with
  | DriverReady _ => DRIVER_READY | RequestRetire _ => REQUEST_RETIRE | ClientReleased _ => CLIENT_RELEASED
  | RequestDrain _ => REQUEST_DRAIN | TxDrained _ => TX_DRAINED
  end.
Definition driver_identity (m : D5ControllerMessage) : D5DriverIdentity :=
  match m with
  | DriverReady i | RequestRetire i => i
  | ClientReleased i => stream_driver i
  | RequestDrain i | TxDrained i => drain_driver i
  end.

(** [.any(|value| value == 0)] *)
Definition any_zero (values : list Z) : bool := existsb (fun value => value =? 0) values.

Definition validate (m : D5ControllerMessage) : result unit :=
  let d := driver_identity m in
  reject_if! any_zero [device_role_id d; bundle_generation d; driver_attempt_generation d; driver_control_endpoint_id d;
                       driver_control_endpoint_generation d; launch_transaction_id d] with ZeroIdentity;;
  match m with
  | ClientReleased i =>
      reject_if! any_zero [publication_generation i; client_transaction_id i; attach_transaction_id i; stream_generation i]
        with ZeroIdentity;;
      Ok tt
  | RequestDrain i | TxDrained i =>
      reject_if! (drain_attach_transaction_id i =? 0) || (drain_stream_generation i =? 0) with ZeroIdentity;;
      reject_if! negb (((leg i =? 2) && (target_tx_bytes i =? 45)) || ((leg i =? 4) && (target_tx_bytes i =? 46)))
        with InvalidDrainTarget;;
      Ok tt
  | _ => Ok tt
  end.

Definition put_driver (output : list Z) (i : D5DriverIdentity) : result (list Z) :=
  let! output := put64 output 16 (device_role_id i) in
  let! output := put64 output 24 (bundle_generation i) in
  let! output := put64 output 32 (driver_attempt_generation i) in
  let! output := put64 output 40 (driver_control_endpoint_id i) in
  let! output := put64 output 48 (driver_control_endpoint_generation i) in
  put64 output 56 (launch_transaction_id i).

Definition get_driver (bytes : list Z) : result D5DriverIdentity :=
  let! role := get64 bytes 16 in
  let! bundle := get64 bytes 24 in
  let! attempt := get64 bytes 32 in
  let! endpoint := get64 bytes 40 in
  let! endpoint_generation := get64 bytes 48 in
  let! launch := get64 bytes 56 in
  Ok (mkDriver role bundle attempt endpoint endpoint_generation launch).

Definition require_zero (bytes : list Z) : result unit := if any_nonzero bytes then Err NonzeroReserved else Ok tt.

Definition encode (m : D5ControllerMessage) (output : list Z) : result (list Z) :=
  reject_if! negb (len output =? RECORD_BYTES) with WrongSize;;
  let! _ := validate m in
  let output := zeroed output in
  let! output := splice output 0 MAGIC in
  let! output := put16 output 4 MAJOR in
  let! output := put16 output 6 MINOR in
  let! output := put16 output 8 (message_type m) in
  let! output := put32 output 12 RECORD_BYTES in
  let! output := put_driver output (driver_identity m) in
  match m with
  | ClientReleased i =>
      let! output := put64 output 64 (publication_generation i) in
      let! output := put64 output 72 (client_transaction_id i) in
      let! output := put64 output 80 (attach_transaction_id i) in
      put64 output 88 (stream_generation i)
  | RequestDrain i | TxDrained i =>
      let! output := put64 output 64 (drain_attach_transaction_id i) in
      let! output := put64 output 72 (drain_stream_generation i) in
      let! output := put64 output 80 (target_tx_bytes i) in
      put64 output 88 (leg i)
  | _ => Ok output
  end.

Definition parse (bytes : list Z) : result D5ControllerMessage :=
  reject_if! negb (len bytes =? RECORD_BYTES) with WrongSize;;
  let! magic := slice bytes 0 4 in
  reject_if! negb (bool_decide (magic = MAGIC)) with WrongMagic;;
  let! major := get16 bytes 4 in
  let! minor := get16 bytes 6 in
  reject_if! negb (major =? MAJOR) || negb (minor =? MINOR) with WrongVersion;;
  let! flags := get16 bytes 10 in
  reject_if! negb (flags =? 0) with NonzeroFlags;;
  let! size := get32 bytes 12 in
  reject_if! negb (size =? RECORD_BYTES) with WrongSize;;
  let! d := get_driver bytes in
  let! kind := get16 bytes 8 in
  let! m :=
    (if kind =? DRIVER_READY then
       let! rest := slice bytes 64 (len bytes) in
       let! _ := require_zero rest in
       Ok (DriverReady d)
     else if kind =? REQUEST_RETIRE then
       let! rest := slice bytes 64 (len bytes) in
       let! _ := require_zero rest in
       Ok (RequestRetire d)
     else if kind =? CLIENT_RELEASED then
       let! publication := get64 bytes 64 in
       let! client := get64 bytes 72 in
       let! attach := get64 bytes 80 in
       let! stream := get64 bytes 88 in
       Ok (ClientReleased (mkStream d publication client attach stream))
     else if (kind =? REQUEST_DRAIN) || (kind =? TX_DRAINED) then
       let! attach := get64 bytes 64 in
       let! stream := get64 bytes 72 in
       let! target := get64 bytes 80 in
       let! l := get64 bytes 88 in
       let i := mkDrain d attach stream target l in
       if kind =? REQUEST_DRAIN then Ok (RequestDrain i) else Ok (TxDrained i)
     else Err UnknownMessage) in
  let! _ := validate m in
  Ok m.

End D5Controller.
