(* ===== verification/ControllerThms.v ===== *)
(** * The other device records are exact: WRSC, WDR5, WRCS 1.0 and 1.1 *)

From stdpp Require Import base tactics option list list_numbers.
From Stdlib Require Import ZArith Lia.
From S2P Require Import Prelude Bytes Layout DeviceManifest StateM Coordinator DeviceController DeviceControl ControlThms.

(** A range without a nonzero byte. *)
Lemma zero_range bs a b r : get_range bs a b = Some r -> any_nonzero r = false -> get_range bs a b = Some (replicate (Z.to_nat (b - a)) 0).
Proof. intros Hr H%any_nonzero_false. rewrite Hr, H. do 2 f_equal. apply length_get_range in Hr. lia. Qed.

(** Zero ranges found by a reader, as fields. *)
Ltac zero_ranges :=
  repeat match goal with
  | H : get_range _ _ _ = Some ?r, E : any_nonzero ?r = false |- _ => apply (zero_range _ _ _ _ H) in E; clear H
  end.

Module ConnectorSpec.
Import Connector.

Definition layout (m : ConnectorMessage) : list field :=
  head_fields MAGIC MINOR (message_type m) RECORD_BYTES (handle_count m) ++
  match m with
  | ConnectStream publication client => [Int 8 publication; Int 8 client; zeros 60; zeros 28]
  | Connected i =>
      [Int 8 (publication_generation i); Int 8 (client_transaction_id i); Int 8 (device_role_id i);
       Int 8 (bundle_generation i); Int 8 (driver_attempt_generation i); Int 8 (driver_control_endpoint_id i);
       Int 8 (driver_control_endpoint_generation i); Int 8 (attach_transaction_id i); Int 8 (stream_generation i);
       Int 4 0; zeros 28]
  | ConnectorFailure publication client code => [Int 8 publication; Int 8 client; zeros 56; Int 4 (code_number code); zeros 28]
  end.
Definition valid (m : ConnectorMessage) : Prop := validate m = Ok tt.
Definition proper (m : ConnectorMessage) : Prop := Forall field_ok (layout m).

Lemma wrsc_layout_size m : Z.of_nat (size (layout m)) = RECORD_BYTES.
Proof. by destruct m. Qed.
Lemma wrsc_check_total m : validate m <> Panic.
Proof. unfold validate. no_panic. Qed.
Lemma wrsc_refuses_size m output : len output <> RECORD_BYTES -> exists e, encode m output = Err e.
Proof. intros H%Z.eqb_neq. unfold encode. rewrite H. by eexists. Qed.
Lemma wrsc_refuses_message m output e : len output = RECORD_BYTES -> validate m = Err e -> encode m output = Err e.
Proof. intros Hl H. unfold encode. by rewrite Hl, Z.eqb_refl, H. Qed.
Lemma wrsc_writes m output : valid m -> length output = size (layout m) -> encode m output = Ok (render (layout m)).
Proof.
  intros Hv Hl. unfold encode. unfold valid in Hv. rewrite Hl, wrsc_layout_size, Z.eqb_refl, Hv. unfold zeroed. rewrite Hl. clear.
  destruct m as [?|[]|]; cbv -[Z.modulo Z.div code_number]; reflexivity.
Qed.
Lemma wrsc_code value code : parse_code value = Ok code <-> value = code_number code.
Proof. split; [|intros ->; by destruct code]. unfold parse_code. intros H. record_cases; done. Qed.

Lemma wrsc_sound bytes m : bytes_ok bytes -> parse bytes = Ok m -> valid m /\ proper m /\ bytes = render (layout m).
Proof.
  intros Hb H. unfold parse, get_identity, slice, get16, get32, get64 in H. record_cases.
  all: try match goal with H : len ?b = _ |- _ => rewrite H in * end; zero_ranges.
  all: match goal with H : validate _ = Ok ?u |- _ => destruct u; split; [exact H|] end.
  3: match goal with H : parse_code _ = _ |- _ => apply wrsc_code in H as -> end.
  all: read_back; apply Nat2Z.inj; by rewrite wrsc_layout_size.
Qed.

Lemma wrsc_complete m : valid m -> proper m -> parse (render (layout m)) = Ok m.
Proof.
  intros Hv Hok. unfold valid in Hv. unfold proper in Hok. unfold parse, get_identity, slice, get16, get32, get64.
  rewrite length_render, wrsc_layout_size.
  destruct m as [|[]|? ? code]; try pose proof (proj2 (wrsc_code _ code) eq_refl) as Hf;
    unfold layout, head_fields in Hok |- *; known_fields; accept.
Qed.

Lemma wrsc_total bytes : parse bytes <> Panic.
Proof.
  unfold parse, parse_code, get_identity, slice, get16, get32, get64. no_panic; try apply wrsc_check_total.
  all: bool_prop; unfold RECORD_BYTES in *; lia.
Qed.

#[export] Instance exact : Exact encode parse layout valid proper := {
  encode_layout := wrsc_writes;
  encode_valid := writer_valid _ _ _ _ wrsc_layout_size wrsc_check_total wrsc_refuses_size wrsc_refuses_message wrsc_writes;
  encode_no_panic := writer_total _ _ _ _ wrsc_layout_size wrsc_check_total wrsc_refuses_size wrsc_refuses_message wrsc_writes;
  parse_sound := wrsc_sound; parse_complete := wrsc_complete; parse_no_panic := wrsc_total; proper_fits m H := H }.
End ConnectorSpec.

Module D5Spec.
Import D5Controller.

Definition layout (m : D5ControllerMessage) : list field :=
  let d := driver_identity m in
  [Raw MAGIC; Int 2 MAJOR; Int 2 MINOR; Int 2 (message_type m); Int 2 0; Int 4 RECORD_BYTES;
   Int 8 (device_role_id d); Int 8 (bundle_generation d); Int 8 (driver_attempt_generation d);
   Int 8 (driver_control_endpoint_id d); Int 8 (driver_control_endpoint_generation d); Int 8 (launch_transaction_id d)] ++
  match m with
  | DriverReady _ | RequestRetire _ => [zeros 32]
  | ClientReleased i =>
      [Int 8 (publication_generation i); Int 8 (client_transaction_id i); Int 8 (attach_transaction_id i); Int 8 (stream_generation i)]
  | RequestDrain i | TxDrained i =>
      [Int 8 (drain_attach_transaction_id i); Int 8 (drain_stream_generation i); Int 8 (target_tx_bytes i); Int 8 (leg i)]
  end.
Definition valid (m : D5ControllerMessage) : Prop := validate m = Ok tt.
Definition proper (m : D5ControllerMessage) : Prop := Forall field_ok (layout m).

Lemma wdr5_layout_size m : Z.of_nat (size (layout m)) = RECORD_BYTES.
Proof. by destruct m. Qed.
Lemma wdr5_check_total m : validate m <> Panic.
Proof. unfold validate. no_panic. destruct m; no_panic. Qed.
Lemma wdr5_refuses_size m output : len output <> RECORD_BYTES -> exists e, encode m output = Err e.
Proof. intros H%Z.eqb_neq. unfold encode. rewrite H. by eexists. Qed.
Lemma wdr5_refuses_message m output e : len output = RECORD_BYTES -> validate m = Err e -> encode m output = Err e.
Proof. intros Hl H. unfold encode. by rewrite Hl, Z.eqb_refl, H. Qed.
Lemma wdr5_writes m output : valid m -> length output = size (layout m) -> encode m output = Ok (render (layout m)).
Proof.
  intros Hv Hl. unfold encode. unfold valid in Hv. rewrite Hl, wdr5_layout_size, Z.eqb_refl, Hv. unfold zeroed. rewrite Hl. clear.
  destruct m; cbv -[Z.modulo Z.div]; reflexivity.
Qed.

Lemma wdr5_sound bytes m : bytes_ok bytes -> parse bytes = Ok m -> valid m /\ proper m /\ bytes = render (layout m).
Proof.
  intros Hb H. unfold parse, get_driver, require_zero, slice, get16, get32, get64 in H. record_cases.
  all: try match goal with H : len ?b = _ |- _ => rewrite H in * end; zero_ranges.
  all: match goal with H : validate _ = Ok ?u |- _ => destruct u; split; [exact H|] end.
  5: match goal with H : _ \/ _ |- _ => destruct H as [H|H]; [done|apply Z.eqb_eq in H as ->] end.
  all: read_back; apply Nat2Z.inj; by rewrite wdr5_layout_size.
Qed.

Lemma wdr5_complete m : valid m -> proper m -> parse (render (layout m)) = Ok m.
Proof.
  intros Hv Hok. unfold valid in Hv. unfold proper in Hok. unfold parse, get_driver, require_zero, slice, get16, get32, get64.
  rewrite length_render, wdr5_layout_size.
  destruct m as [[]|[]|[[]]|[[]]|[[]]]; unfold layout in Hok |- *; known_fields; accept.
Qed.

Lemma wdr5_total bytes : parse bytes <> Panic.
Proof.
  unfold parse, get_driver, require_zero, slice, get16, get32, get64. no_panic; try apply wdr5_check_total.
  all: bool_prop; unfold RECORD_BYTES in *; lia.
Qed.

#[export] Instance exact : Exact encode parse layout valid proper := {
  encode_layout := wdr5_writes;
  encode_valid := writer_valid _ _ _ _ wdr5_layout_size wdr5_check_total wdr5_refuses_size wdr5_refuses_message wdr5_writes;
  encode_no_panic := writer_total _ _ _ _ wdr5_layout_size wdr5_check_total wdr5_refuses_size wdr5_refuses_message wdr5_writes;
  parse_sound := wdr5_sound; parse_complete := wdr5_complete; parse_no_panic := wdr5_total; proper_fits m H := H }.
End D5Spec.

Module ControllerSpec.
Import Coordinator Controller.

Definition layout (m : ControllerMessage) : list field :=
  head_fields MAGIC MINOR (type_number (message_type m)) (wire_size m) (handle_count m) ++
  [Int 8 (supervisor_of m)] ++
  match binding_of m with
  | Some b => [Int 8 (registry_generation b); Int 8 (registry_endpoint_id (binding_endpoint b));
               Int 8 (registry_endpoint_generation (binding_endpoint b))]
  | None => [Int 8 0; Int 8 0; Int 8 0]
  end ++
  [Int 8 (transaction_id m); Int 8 0] ++
  match m with
  | Status _ _ _ status attempt => [Int 4 (status_number status); Int 4 0; Int 8 (match attempt with Some v => v | None => 0 end)]
  | _ => []
  end.
Definition valid (m : ControllerMessage) : Prop := validate_message m = Ok tt.
(** An attempt of number zero would be written as no attempt. *)
Definition named_attempt (m : ControllerMessage) : Prop := match m with Status _ _ _ _ (Some v) => v <> 0 | _ => True end.
Definition proper (m : ControllerMessage) : Prop := Forall field_ok (layout m) /\ named_attempt m.

Lemma wrcs_layout_size m : Z.of_nat (size (layout m)) = wire_size m.
Proof. by destruct m as [| |? [] ? ? []]. Qed.
Lemma wrcs_check_total m : validate_message m <> Panic.
Proof. unfold validate_message. no_panic. destruct m; no_panic. Qed.
Lemma wrcs_refuses_size m output : len output <> wire_size m -> exists e, encode m output = Err e.
Proof. intros H%Z.eqb_neq. unfold encode. rewrite H. by eexists. Qed.
Lemma wrcs_refuses_message m output e : len output = wire_size m -> validate_message m = Err e -> encode m output = Err e.
Proof. intros Hl H. unfold encode. by rewrite Hl, Z.eqb_refl, H. Qed.
Lemma wrcs_writes m output : valid m -> length output = size (layout m) -> encode m output = Ok (render (layout m)).
Proof.
  intros Hv Hl. unfold encode. unfold valid in Hv. rewrite Hl, wrcs_layout_size, Z.eqb_refl, Hv. unfold zeroed. rewrite Hl. clear.
  destruct m as [| |? [] ? ? []]; cbv -[Z.modulo Z.div status_number]; reflexivity.
Qed.

Lemma wrcs_status value status : parse_status value = Ok status <-> value = status_number status.
Proof. split; [|intros ->; by destruct status]. unfold parse_status. intros H. record_cases; done. Qed.
Lemma wrcs_type value t : parse_type value = Ok t <-> value = type_number t.
Proof. split; [|intros ->; by destruct t]. unfold parse_type. intros H. record_cases; done. Qed.

Lemma wrcs_binding bytes b : binding_from_bytes bytes = Ok b ->
  match b with
  | Some b => get_le 8 bytes 32 = Some (registry_generation b) /\ get_le 8 bytes 40 = Some (registry_endpoint_id (binding_endpoint b)) /\
              get_le 8 bytes 48 = Some (registry_endpoint_generation (binding_endpoint b))
  | None => get_le 8 bytes 32 = Some 0 /\ get_le 8 bytes 40 = Some 0 /\ get_le 8 bytes 48 = Some 0
  end.
Proof. unfold binding_from_bytes, get64. intros H. record_cases; done. Qed.

Lemma wrcs_sound bytes m : bytes_ok bytes -> parse bytes = Ok m -> valid m /\ proper m /\ bytes = render (layout m).
Proof.
  intros Hb H. unfold parse, slice, get16, get32, get64 in H. repeat res_step.
  match goal with H : binding_from_bytes _ = Ok ?b |- _ => apply wrcs_binding in H end.
  match goal with H : parse_type _ = Ok ?k |- _ => apply wrcs_type in H; destruct k end; record_cases.
  all: match goal with H : validate_message _ = Ok ?u |- _ => destruct u; split; [exact H|] end.
  3: match goal with H : parse_status _ = _ |- _ => apply wrcs_status in H as -> end.
  all: repeat match goal with H : match ?b with Some _ => _ | None => _ end |- _ => destruct b end; destruct_and?.
  all: try match goal with |- context [if ?a =? 0 then None else Some ?a] => destruct (Z.eqb_spec a 0); subst end.
  all: unfold proper; rewrite <-(assoc and), (and_comm _ (_ = _)), (assoc and); split; [|done].
  all: read_back; apply Nat2Z.inj; by rewrite wrcs_layout_size.
Qed.

Lemma wrcs_facts m : valid m ->
  (supervisor_of m =? 0) || (transaction_id m =? 0) = false /\
  match binding_of m with
  | Some b => (registry_generation b =? 0) = false /\ (registry_endpoint_id (binding_endpoint b) =? 0) = false /\
              (registry_endpoint_generation (binding_endpoint b) =? 0) = false
  | None => True
  end /\
  match m with
  | Status _ bound _ status attempt =>
      needs_binding status && bool_decide (bound = None) = false /\ is_backoff status && bool_decide (attempt = None) = false
  | _ => True
  end.
Proof.
  unfold valid, validate_message. intros H. repeat res_step. split_conj; [done| |].
  - destruct (binding_of m); [|done]. apply orb_false_iff in E0 as [[]%orb_false_iff ?]. done.
  - destruct m; by repeat res_step.
Qed.

Lemma wrcs_complete m : valid m -> proper m -> parse (render (layout m)) = Ok m.
Proof.
  intros Hv [Hok Hn]. destruct (wrcs_facts m Hv) as (Hi & Hb & Hs). unfold valid in Hv.
  unfold parse, binding_from_bytes, slice, get16, get32, get64. rewrite length_render, wrcs_layout_size.
  pose proof (proj2 (wrcs_type _ (message_type m)) eq_refl) as Ht.
  destruct m as [s [g []] t|s [g []] t|s [[g []]|] t status [a|]]; destruct_and?; try apply Z.eqb_neq in Hn;
    try pose proof (proj2 (wrcs_status _ status) eq_refl) as Hf; unfold layout, head_fields in Hok |- *;
    cbn [supervisor_of transaction_id binding_of registry_generation binding_endpoint registry_endpoint_id
         registry_endpoint_generation message_type] in *; known_fields; accept.
  all: change (if 0 =? 0 then None else Some 0) with (@None Z); accept.
Qed.

Lemma wrcs_total bytes : parse bytes <> Panic.
Proof.
  unfold parse, parse_type, parse_status, binding_from_bytes, slice, get16, get32, get64. no_panic; try apply wrcs_check_total.
  all: try match goal with k : MessageType |- _ => destruct k end; no_panic.
  all: bool_prop; unfold STATUS_BYTES, INSTALL_BYTES, HEADER_BYTES in *; lia.
Qed.

#[export] Instance exact : Exact encode parse layout valid proper := {
  encode_layout := wrcs_writes;
  encode_valid := writer_valid _ _ _ _ wrcs_layout_size wrcs_check_total wrcs_refuses_size wrcs_refuses_message wrcs_writes;
  encode_no_panic := writer_total _ _ _ _ wrcs_layout_size wrcs_check_total wrcs_refuses_size wrcs_refuses_message wrcs_writes;
  parse_sound := wrcs_sound; parse_complete := wrcs_complete; parse_no_panic := wrcs_total; proper_fits m H := proj1 H }.

(** An attempt of number zero is written as no attempt: the reader refuses it after
    [Backoff], and returns no attempt otherwise. *)
Lemma unnamed_attempt s b t status : let m := Status s b t status (Some 0) in
  valid m -> Forall field_ok (layout m) ->
  parse (render (layout m)) = if is_backoff status then Err MissingAttempt else Ok (Status s b t status None).
Proof.
  intros m Hv Hok. destruct (is_backoff status) eqn:Hback.
  - destruct (wrcs_facts m Hv) as (Hi & Hb & Hs & _). subst m. unfold parse, binding_from_bytes, slice, get16, get32, get64. rewrite length_render, wrcs_layout_size.
    pose proof (proj2 (wrcs_status _ status) eq_refl) as Hf. pose proof (proj2 (wrcs_type _ TStatus) eq_refl) as Ht. destruct status; try discriminate Hback.
    destruct b as [[g []]|]; [|discriminate Hs]; destruct_and?; unfold layout, head_fields in Hok |- *;
    cbn [supervisor_of transaction_id binding_of registry_generation binding_endpoint registry_endpoint_id
         registry_endpoint_generation message_type] in *; known_fields; accept.
  - apply (wrcs_complete (Status s b t status None)); [|by split].
    unfold valid, validate_message in *. subst m. cbn [supervisor_of transaction_id binding_of] in *. by rewrite Hback in *.
Qed.
End ControllerSpec.

Module ControllerV1_1Spec.
Import Coordinator Controller ControllerV1_1.

Definition layout (m : PublicationMessage) : list field :=
  let c := controller m in
  head_fields MAGIC MINOR (type_number (message_type c)) RECORD_BYTES (handle_count c) ++
  [Int 8 (supervisor_of c)] ++
  match binding_of c with
  | Some b => [Int 8 (registry_generation b); Int 8 (registry_endpoint_id (binding_endpoint b));
               Int 8 (registry_endpoint_generation (binding_endpoint b))]
  | None => [Int 8 0; Int 8 0; Int 8 0]
  end ++
  [Int 8 (transaction_id c); Int 8 0; Int 8 (service_generation m)].
Definition is_status (c : ControllerMessage) : bool := match c with Status _ _ _ _ _ => true | _ => false end.
Definition check (m : PublicationMessage) : result unit :=
  reject_if! is_status (controller m) with UnknownMessage;;
  reject_if! service_generation m =? 0 with ZeroIdentity;;
  validate_message (controller m).
Definition valid (m : PublicationMessage) : Prop := check m = Ok tt.
Definition proper (m : PublicationMessage) : Prop := Forall field_ok (layout m).

Lemma wrcs11_layout_size m : Z.of_nat (size (layout m)) = RECORD_BYTES.
Proof. by destruct m as [[| |? []]]. Qed.
Lemma wrcs11_check_total m : check m <> Panic.
Proof. unfold check. no_panic. apply ControllerSpec.wrcs_check_total. Qed.
Lemma wrcs11_refuses_size m output : len output <> RECORD_BYTES -> exists e, encode m output = Err e.
Proof. intros H%Z.eqb_neq. unfold encode. rewrite H. by eexists. Qed.

(** The first 72 bytes of the buffer, and the eight that are left. *)
Lemma wrcs11_halves output : len output = RECORD_BYTES ->
  exists head a b c d e f g h, output = head ++ [a; b; c; d; e; f; g; h] /\ length head = 72%nat /\
    slice (E := ControllerParseError) output 0 HEADER_BYTES = Ok head.
Proof.
  intros Hl. unfold RECORD_BYTES in Hl. destruct (drop 72 output) as [|a [|b [|c [|d [|e [|f [|g [|h [|i t]]]]]]]]] eqn:Hd;
    apply (f_equal length) in Hd as Hd'; rewrite length_drop in Hd'; cbn in Hd'; try lia.
  exists (take 72 output), a, b, c, d, e, f, g, h. rewrite <-Hd, take_drop. split_conj; [done|rewrite length_take; lia|].
  unfold slice. rewrite (proj2 (get_range_Some output 0 HEADER_BYTES (take 72 output))); [done|].
  unfold HEADER_BYTES. split_conj; [lia|lia|lia|done].
Qed.

Lemma wrcs11_refuses_message m output e : len output = RECORD_BYTES -> check m = Err e -> encode m output = Err e.
Proof.
  intros Hl H. destruct (wrcs11_halves output Hl) as (head & a & b & c & d & e' & f & g & h & -> & Hh & Hs).
  unfold encode. rewrite Hl, Z.eqb_refl. cbn [negb]. unfold check in H. fold (is_status (controller m)).
  destruct (is_status (controller m)) eqn:Hst; [congruence|]. destruct (service_generation m =? 0); [congruence|].
  rewrite Hs. cbn [res_bind]. rewrite (ControllerSpec.wrcs_refuses_message _ _ e); [done| |done].
  rewrite Hh. by destruct (controller m).
Qed.

Lemma wrcs11_writes m output : valid m -> length output = size (layout m) -> encode m output = Ok (render (layout m)).
Proof.
  intros Hv Hl. assert (len output = RECORD_BYTES) as Hr by (rewrite Hl; apply wrcs11_layout_size).
  destruct (wrcs11_halves output Hr) as (head & a & b & c & d & e' & f & g & h & -> & Hh & Hs).
  unfold encode. rewrite Hr, Z.eqb_refl. cbn [negb]. unfold valid, check in Hv. fold (is_status (controller m)).
  destruct (is_status (controller m)) eqn:Hst; [done|]. destruct (service_generation m =? 0); [done|].
  rewrite Hs. cbn [res_bind]. destruct m as [[s b' t|s b' t|] gen]; [| |done]; cbn [controller] in *.
  all: rewrite (ControllerSpec.wrcs_writes _ _ Hv) by (rewrite Hh; reflexivity); cbn [res_bind].
  all: do 73 (destruct head as [|? head]; try discriminate Hh); clear; cbv -[Z.modulo Z.div]; reflexivity.
Qed.

(** Undo a write. *)
Lemma put_back n bs a v bs' w :
  put_le n bs a v = Some bs' -> get_range bs a (a + Z.of_nat n) = Some (to_le n w) -> put_le n bs' a w = Some bs.
Proof.
  intros Hp Hg. pose proof (length_put_le _ _ _ _ _ Hp) as Hl. unfold put_le in *.
  destruct (put_range bs' a (to_le n w)) as [bs2|] eqn:H2.
  - f_equal. apply list_eq. intros i. rewrite (lookup_put_range _ _ _ _ _ H2), (lookup_put_range _ _ _ _ _ Hp), !length_to_le.
    destruct (decide (a <= Z.of_nat i < a + Z.of_nat n)); [|done].
    apply get_range_Some in Hg as Hg'. rewrite (lookup_get_range _ _ _ _ _ Hg) by lia. f_equal. lia.
  - exfalso. apply eq_None_not_Some in H2. apply H2, put_range_is_Some. apply get_range_Some in Hg as (? & ? & ? & _).
    rewrite length_to_le, Hl. lia.
Qed.
Lemma put_le_bytes_ok n bs a v bs' : bytes_ok bs -> put_le n bs a v = Some bs' -> bytes_ok bs'.
Proof.
  intros Hb (_ & _ & ->)%put_range_Some. repeat apply Forall_app_2; [by apply Forall_take|apply to_le_bytes_ok|by apply Forall_drop].
Qed.

Lemma prefix_range (bs h : list Z) n a b : get_range bs 0 n = Some h -> b <= n -> get_range h a b = get_range bs a b.
Proof.
  intros Hr Hb. pose proof (length_get_range _ _ _ _ Hr) as Hl. apply get_range_Some in Hr as (_ & _ & Hn & ->).
  unfold get_range. rewrite Hl, Z.sub_0_r. change (Z.to_nat 0) with 0%nat. rewrite drop_0.
  destruct (Z.leb_spec 0 a), (Z.leb_spec a b), (Z.leb_spec b n), (Z.leb_spec b (len bs)); cbn; try done; try lia. f_equal.
  apply list_eq. intros i. destruct (decide (i < Z.to_nat (b - a))%nat); [|by rewrite !lookup_take_ge by lia].
  rewrite !lookup_take_lt, !lookup_drop, lookup_take_lt by lia. done.
Qed.

(** The 1.0 header that the reader checks. *)
Lemma wrcs11_header m : is_status (controller m) = false ->
  (let! h := slice (render (layout m)) 0 HEADER_BYTES in
   let! h := put16 h 6 Controller.MINOR in
   put32 (E := ControllerParseError) h 16 HEADER_BYTES) = Ok (render (ControllerSpec.layout (controller m))).
Proof. destruct m as [[| |] g]; [| |done]; intros _; cbv -[Z.modulo Z.div]; reflexivity. Qed.

(** And the record it came from. *)
Lemma wrcs11_record c g h1 h0 : is_status c = false ->
  put_le 4 (render (ControllerSpec.layout c)) 16 RECORD_BYTES = Some h1 -> put_le 2 h1 6 MINOR = Some h0 ->
  h0 ++ to_le 8 g = render (layout (mkPublication c g)).
Proof.
  destruct c; [| |done]; intros _ H1 H0; cbv -[Z.modulo Z.div] in H1; injection H1 as <-; cbv -[Z.modulo Z.div] in H0; injection H0 as <-;
    cbv -[Z.modulo Z.div]; reflexivity.
Qed.

Lemma wrcs11_sound bytes m : bytes_ok bytes -> parse bytes = Ok m -> valid m /\ proper m /\ bytes = render (layout m).
Proof.
  intros Hb H. unfold parse, slice, put16, put32, get64 in H. repeat res_step. bool_prop. subst.
  pose proof (length_get_range _ _ _ _ H5) as Hl4. assert (bytes_ok a6) as Hb6.
  { eapply put_le_bytes_ok, H7. eapply put_le_bytes_ok, H6. apply get_range_Some in H5 as (_ & _ & _ & ->). by apply Forall_take, Forall_drop. }
  destruct (ControllerSpec.wrcs_sound _ _ Hb6 H8) as (Hv & [Hok _] & ->).
  assert (is_status a7 = false) as Hst.
  { apply length_put_le in H6, H7. rewrite length_render in H7. apply (f_equal Z.of_nat) in H7. rewrite ControllerSpec.wrcs_layout_size in H7.
    unfold HEADER_BYTES in Hl4. destruct a7; [done|done|]. cbn in H7. unfold STATUS_BYTES, HEADER_BYTES in H7. lia. }
  split_conj.
  - unfold valid, check. cbn. by rewrite Hst, (proj2 (Z.eqb_neq _ _) E4).
  - apply (get_le_in_range _ _ _ _ Hb) in H9 as Hg. unfold proper. destruct a7; [| |done]; repeat (apply Forall_cons in Hok as [? Hok]);
      repeat (apply Forall_cons; split; [first [assumption | exact Hg | by vm_compute]|]); constructor.
  - assert (put_le 4 (render (ControllerSpec.layout a7)) 16 RECORD_BYTES = Some a5) as P1.
    { apply (put_back _ _ _ _ _ _ H7). rewrite (get_range_put_le_other _ _ _ _ _ _ _ H6) by lia. by rewrite (prefix_range _ _ _ _ _ H5) by done. }
    assert (put_le 2 a5 6 MINOR = Some a4) as P2.
    { apply (put_back _ _ _ _ _ _ H6). by rewrite (prefix_range _ _ _ _ _ H5) by done. }
    rewrite <-(wrcs11_record _ a8 _ _ Hst P1 P2). rewrite <-(take_drop 72 bytes). f_equal.
    + by apply get_range_Some in H5 as (_ & _ & _ & ->).
    + unfold get_le in H9. apply fmap_Some in H9 as (r & Hr & ->). apply get_range_Some in Hr as (_ & _ & _ & Hr).
      unfold RECORD_BYTES in E. rewrite (take_ge _ (Z.to_nat (72 + Z.of_nat 8 - 72))) in Hr by (rewrite length_drop; lia).
      subst r. rewrite <-(to_le_of_le (drop 72 bytes)) at 1 by (by apply Forall_drop). f_equal. rewrite length_drop. lia.
Qed.

Lemma wrcs11_slices m : is_status (controller m) = false ->
  get_range (render (layout m)) 0 4 = Some MAGIC /\ get_range (render (layout m)) 4 6 = Some (to_le 2 MAJOR) /\
  get_range (render (layout m)) 6 8 = Some (to_le 2 MINOR) /\ get_range (render (layout m)) 16 20 = Some (to_le 4 RECORD_BYTES) /\
  get_range (render (layout m)) 8 12 = Some (to_le 4 (type_number (message_type (controller m)))).
Proof. destruct m as [[| |] g]; [| |done]; intros _; split_conj; cbv -[Z.modulo Z.div]; reflexivity. Qed.

Lemma wrcs11_proper m : is_status (controller m) = false -> proper m -> ControllerSpec.proper (controller m).
Proof.
  unfold proper. destruct m as [[| |] g]; [| |done]; intros _ Hok; (split; [|done]); cbn [controller]; repeat (apply Forall_cons in Hok as [? Hok]);
    repeat (apply Forall_cons; split; [first [assumption | by vm_compute]|]); constructor.
Qed.

Lemma wrcs11_complete m : valid m -> proper m -> parse (render (layout m)) = Ok m.
Proof.
  intros Hv Hok. unfold valid, check in Hv. repeat res_step. pose proof (wrcs11_header m E) as Hh. pose proof (wrcs11_slices m E) as Hs.
  pose proof (ControllerSpec.wrcs_complete _ Hv (wrcs11_proper m E Hok)) as Hp.
  assert (get_le 8 (render (layout m)) 72 = Some (service_generation m)) as Hg.
  { apply render_reads in Hok. destruct m as [[| |] g]; [| |done]; apply Hok. }
  unfold parse. rewrite length_render, wrcs11_layout_size. unfold slice, put16, put32, get64 in *. repeat res_step. destruct_and?.
  generalize dependent (render (layout m)). intros bs. intros. destruct m as [[| |] g]; [| |done]; accept.
Qed.

Lemma wrcs11_total bytes : parse bytes <> Panic.
Proof.
  unfold parse, slice, put16, put32, get64. no_panic; try apply ControllerSpec.wrcs_total.
  all: bool_prop; unfold RECORD_BYTES, HEADER_BYTES in *; try lia.
  all: repeat match goal with H : or_panic _ = Ok _ |- _ => apply or_panic_Ok in H end; apply or_panic_not_panic, put_le_is_Some.
  - apply length_get_range in H4. lia.
  - apply length_get_range in H4. apply length_put_le in H5. lia.
Qed.

#[export] Instance exact : Exact encode parse layout valid proper := {
  encode_layout := wrcs11_writes;
  encode_valid := writer_valid _ _ _ _ wrcs11_layout_size wrcs11_check_total wrcs11_refuses_size wrcs11_refuses_message wrcs11_writes;
  encode_no_panic := writer_total _ _ _ _ wrcs11_layout_size wrcs11_check_total wrcs11_refuses_size wrcs11_refuses_message wrcs11_writes;
  parse_sound := wrcs11_sound; parse_complete := wrcs11_complete; parse_no_panic := wrcs11_total; proper_fits m H := H }.
End ControllerV1_1Spec.
