(* ===== verification/DriverLaunch.v ===== *)
(** * Launching a driver (crates/wyrmroot-device-proto/src/driver_launch.rs)

    The private records between the device manager and the first process (the launch
    request, the three acknowledgements, the facts), and the life of one attempt. *)

From Stdlib Require Import String.
From stdpp Require Import base tactics option list list_numbers.
From Stdlib Require Import ZArith Lia.
From S2P Require Import Prelude Bytes Layout StateM DeviceManifest DeviceControl.

Module DriverLaunch.
Import Control.

Definition DEVICE_DRIVER_PATH : list Z := literal "/system/uart16550d".
Definition LAUNCH_REQUEST_BYTES : Z := 128.
Definition LAUNCH_REQUEST_HANDLE_COUNT : Z := 1.
Definition LAUNCH_RESPONSE_BYTES : Z := 80.
Definition REAPED_RESPONSE_BYTES : Z := LAUNCH_RESPONSE_BYTES.
Definition DRIVER_RETIRED_BYTES : Z := LAUNCH_RESPONSE_BYTES.
Definition C6_FACT_BYTES : Z := 96.
Definition SELECTOR29_FAILURE_SUPERVISOR_GENERATION : Z := 1.
Definition SELECTOR29_FAILURE_ATTEMPT_GENERATION : Z := Z.shiftl SELECTOR29_FAILURE_SUPERVISOR_GENERATION 32 + 1.

Definition selector29_should_fail (supervisor_generation attempt_generation : Z) : bool :=
  (supervisor_generation =? SELECTOR29_FAILURE_SUPERVISOR_GENERATION)
  && (attempt_generation =? SELECTOR29_FAILURE_ATTEMPT_GENERATION).

Inductive DirectControlRights := ExactReduced | Other.

Record DriverLaunchRequest := mkRequest {
  supervisor_generation : Z;
  role_id : Z;
  attempt_generation : Z;
  launch_session : Z;
  endpoint : ControlEndpoint;
  transaction_id : Z;
  driver_path : list Z;
  actor_identity : list Z;
  child_is_channel : bool;
  child_rights : DirectControlRights }.

Inductive DriverLaunchState := Constructed | AwaitingControlReady | SControlReady | BundleTransferred | SDriverReady | Reaped.
Inductive DriverLaunchError :=
| ZeroIdentity | WrongPath | WrongChannel | WrongRights | WrongMessage | StaleEndpoint | Replay | AlreadyReaped
| SupervisorReplaced.

#[global] Instance rights_eq_dec : EqDecision DirectControlRights.
Proof. solve_decision. Defined.
#[global] Instance launch_state_eq_dec : EqDecision DriverLaunchState.
Proof. solve_decision. Defined.
#[global] Instance control_endpoint_eq_dec : EqDecision ControlEndpoint.
Proof. solve_decision. Defined.

Abbreviation result := (res DriverLaunchError).

(** [struct DriverLaunch] *)
Record Launch := mkLaunch { request : DriverLaunchRequest; state : DriverLaunchState }.

(** [DriverLaunch::new] *)
Definition launch_new (r : DriverLaunchRequest) : result Launch :=
  reject_if! (supervisor_generation r =? 0) || (role_id r =? 0) || (attempt_generation r =? 0) || (launch_session r =? 0)
    || (id (endpoint r) =? 0) || (generation (endpoint r) =? 0) || (transaction_id r =? 0)
    || bool_decide (actor_identity r = replicate 32 0) with ZeroIdentity;;
  reject_if! negb (bool_decide (driver_path r = DEVICE_DRIVER_PATH))
    || negb (bool_decide (Manifest.UART16550D_PATH = literal "system/uart16550d")) with WrongPath;;
  reject_if! negb (child_is_channel r) with WrongChannel;;
  reject_if! negb (bool_decide (child_rights r = ExactReduced)) with WrongRights;;
  Ok (mkLaunch r Constructed).

(** ** Records *)

(** [for (offset, value) in [..] { output[offset..offset + 8].copy_from_slice(&value.to_le_bytes()); }] *)
Fixpoint put_values (output : list Z) (values : list (Z * Z)) : result (list Z) :=
  match values with
  | [] => Ok output
  | (offset, value) :: values => let! output := put64 output offset value in put_values output values
  end.
(** [[get(24), get(32), ..]] *)
Fixpoint get_values (bytes : list Z) (offsets : list Z) : result (list Z) :=
  match offsets with
  | [] => Ok []
  | offset :: offsets =>
      let! value := get64 bytes offset in
      let! values := get_values bytes offsets in
      Ok (value :: values)
  end.

Definition request_values (r : DriverLaunchRequest) : list Z :=
  [supervisor_generation r; role_id r; attempt_generation r; launch_session r; id (endpoint r); generation (endpoint r);
   transaction_id r].
Definition value_offsets : list Z := [24; 32; 40; 48; 56; 64; 72].

(** The body of [encode_reaped], [encode_driver_retired] and [encode_constructed]. *)
Definition encode_response (magic : list Z) (kind bytes : Z) (r : DriverLaunchRequest) (output : list Z) : result (list Z) :=
  let! _ := launch_new r in
  reject_if! negb (len output =? bytes) with WrongMessage;;
  let output := zeroed output in
  let! output := splice output 0 magic in
  let! output := put16 output 4 1 in
  let! output := put32 output 8 kind in
  let! output := put32 output 16 bytes in
  put_values output (combine value_offsets (request_values r)).

(** The body of the three readers. *)
Definition parse_response (magic : list Z) (kind size : Z) (bytes : list Z) (r : DriverLaunchRequest) : result unit :=
  reject_if! negb (len bytes =? size) with WrongMessage;;
  let! found := slice bytes 0 4 in
  reject_if! negb (bool_decide (found = magic)) with WrongMessage;;
  let! major := get16 bytes 4 in
  reject_if! negb (major =? 1) with WrongMessage;;
  let! minor := get16 bytes 6 in
  reject_if! negb (minor =? 0) with WrongMessage;;
  let! found := get32 bytes 8 in
  reject_if! negb (found =? kind) with WrongMessage;;
  let! flags := get32 bytes 12 in
  reject_if! negb (flags =? 0) with WrongMessage;;
  let! found := get32 bytes 16 in
  reject_if! negb (found =? size) with WrongMessage;;
  let! handles := slice bytes 20 24 in
  reject_if! any_nonzero handles with WrongMessage;;
  let! values := get_values bytes value_offsets in
  reject_if! negb (bool_decide (values = request_values r)) with StaleEndpoint;;
  Ok tt.

Definition encode_reaped (r : DriverLaunchRequest) (output : list Z) : result (list Z) :=
  encode_response (literal "WRLR") 2 REAPED_RESPONSE_BYTES r output.
Definition parse_reaped (bytes : list Z) (r : DriverLaunchRequest) : result unit :=
  parse_response (literal "WRLR") 2 REAPED_RESPONSE_BYTES bytes r.
Definition encode_driver_retired (r : DriverLaunchRequest) (output : list Z) : result (list Z) :=
  encode_response (literal "WRDT") 3 DRIVER_RETIRED_BYTES r output.
Definition parse_driver_retired (bytes : list Z) (r : DriverLaunchRequest) : result unit :=
  parse_response (literal "WRDT") 3 DRIVER_RETIRED_BYTES bytes r.
Definition encode_constructed (r : DriverLaunchRequest) (output : list Z) : result (list Z) :=
  encode_response (literal "WRLA") 1 LAUNCH_RESPONSE_BYTES r output.
Definition parse_constructed (bytes : list Z) (r : DriverLaunchRequest) : result unit :=
  parse_response (literal "WRLA") 1 LAUNCH_RESPONSE_BYTES bytes r.

Definition encode_request (r : DriverLaunchRequest) (output : list Z) : result (list Z) :=
  let! _ := launch_new r in
  reject_if! negb (len output =? LAUNCH_REQUEST_BYTES) with WrongMessage;;
  let output := zeroed output in
  let! output := splice output 0 (literal "WRDL") in
  let! output := put16 output 4 1 in
  let! output := put32 output 8 1 in
  let! output := put32 output 16 LAUNCH_REQUEST_BYTES in
  let! output := put32 output 20 LAUNCH_REQUEST_HANDLE_COUNT in
  let! output := put_values output (combine value_offsets (request_values r)) in
  splice output 80 (actor_identity r).

Definition parse_request (bytes : list Z) : result DriverLaunchRequest :=
  reject_if! negb (len bytes =? LAUNCH_REQUEST_BYTES) with WrongMessage;;
  let! found := slice bytes 0 4 in
  reject_if! negb (bool_decide (found = literal "WRDL")) with WrongMessage;;
  let! major := get16 bytes 4 in
  reject_if! negb (major =? 1) with WrongMessage;;
  let! minor := get16 bytes 6 in
  reject_if! negb (minor =? 0) with WrongMessage;;
  let! kind := get32 bytes 8 in
  reject_if! negb (kind =? 1) with WrongMessage;;
  let! flags := get32 bytes 12 in
  reject_if! negb (flags =? 0) with WrongMessage;;
  let! size := get32 bytes 16 in
  reject_if! negb (size =? LAUNCH_REQUEST_BYTES) with WrongMessage;;
  let! handles := get32 bytes 20 in
  reject_if! negb (handles =? LAUNCH_REQUEST_HANDLE_COUNT) with WrongMessage;;
  let! reserved := slice bytes 112 (len bytes) in
  reject_if! any_nonzero reserved with WrongMessage;;
  let! identity := slice bytes 80 112 in
  let! supervisor := get64 bytes 24 in
  let! role := get64 bytes 32 in
  let! attempt := get64 bytes 40 in
  let! session := get64 bytes 48 in
  let! e_id := get64 bytes 56 in
  let! e_generation := get64 bytes 64 in
  let! transaction := get64 bytes 72 in
  let r := mkRequest supervisor role attempt session (mkControlEndpoint e_id e_generation) transaction DEVICE_DRIVER_PATH
             identity true ExactReduced in
  let! _ := launch_new r in
  Ok r.

Record C6Fact := mkFact { event : Z; lease : Z; binding : Z; value : Z; aux : Z }.
(** [(1..=26).contains(&event)] *)
Definition known_event (event : Z) : bool := (1 <=? event) && (event <=? 26).

Definition encode_c6_fact (fact : C6Fact) (output : list Z) : result (list Z) :=
  reject_if! negb (len output =? C6_FACT_BYTES) || negb (known_event (event fact)) with WrongMessage;;
  let output := zeroed output in
  let! output := splice output 0 (literal "WRCF") in
  let! output := put16 output 4 1 in
  let! output := put32 output 8 4 in
  let! output := put32 output 16 C6_FACT_BYTES in
  let! output := splice output 24 [event fact] in
  put_values output [(32, lease fact); (40, binding fact); (48, value fact); (56, aux fact)].

Definition parse_c6_fact (bytes : list Z) : result C6Fact :=
  reject_if! negb (len bytes =? C6_FACT_BYTES) with WrongMessage;;
  let! found := slice bytes 0 4 in
  reject_if! negb (bool_decide (found = literal "WRCF")) with WrongMessage;;
  let! major := get16 bytes 4 in
  reject_if! negb (major =? 1) with WrongMessage;;
  let! minor := get16 bytes 6 in
  reject_if! negb (minor =? 0) with WrongMessage;;
  let! kind := get32 bytes 8 in
  reject_if! negb (kind =? 4) with WrongMessage;;
  let! flags := get32 bytes 12 in
  reject_if! negb (flags =? 0) with WrongMessage;;
  let! size := get32 bytes 16 in
  reject_if! negb (size =? C6_FACT_BYTES) with WrongMessage;;
  let! handles := slice bytes 20 24 in
  reject_if! any_nonzero handles with WrongMessage;;
  let! e := or_panic (get_le 1 bytes 24) in
  reject_if! negb (known_event e) with WrongMessage;;
  let! reserved := slice bytes 25 32 in
  reject_if! any_nonzero reserved with WrongMessage;;
  let! reserved := slice bytes 64 (len bytes) in
  reject_if! any_nonzero reserved with WrongMessage;;
  let! l := get64 bytes 32 in
  let! b := get64 bytes 40 in
  let! v := get64 bytes 48 in
  let! a := get64 bytes 56 in
  Ok (mkFact e l b v a).

(** ** The life of an attempt *)

Abbreviation M := (SM Launch DriverLaunchError).
Definition enter_state (s : DriverLaunchState) (l : Launch) : Launch := mkLaunch (request l) s.
Definition refuse_when (condition : bool) (error : DriverLaunchError) : M unit := if condition then throw error else mret tt.
Definition in_state (s : DriverLaunchState) : M bool := now ← gets state; mret (bool_decide (now = s)).

Definition constructed : M unit :=
  b ← in_state Constructed;
  _ ← refuse_when (negb b) Replay;
  modify (enter_state AwaitingControlReady).

Definition accept_control_ready (message : ControlMessage) : M unit :=
  b ← in_state Reaped;
  _ ← refuse_when b AlreadyReaped;
  b ← in_state AwaitingControlReady;
  _ ← refuse_when (negb b) Replay;
  match message with
  | ControlReady role attempt e transaction =>
      r ← gets request;
      _ ← refuse_when (negb (role =? role_id r) || negb (attempt =? attempt_generation r)
                       || negb (bool_decide (e = endpoint r)) || negb (transaction =? transaction_id r)) StaleEndpoint;
      modify (enter_state SControlReady)
  | _ => throw WrongMessage
  end.

Definition bundle_transferred : M unit :=
  b ← in_state Reaped;
  _ ← refuse_when b AlreadyReaped;
  b ← in_state AwaitingControlReady;
  _ ← refuse_when (negb b) Replay;
  modify (enter_state BundleTransferred).

Definition driver_ready : M unit :=
  b ← in_state Reaped;
  _ ← refuse_when b AlreadyReaped;
  b ← in_state BundleTransferred;
  _ ← refuse_when (negb b) Replay;
  modify (enter_state SDriverReady).

Definition reap : M unit :=
  b ← in_state Reaped;
  _ ← refuse_when b AlreadyReaped;
  modify (enter_state Reaped).

Definition invalidate_for_replacement (supervisor session : Z) : M unit :=
  _ ← refuse_when ((supervisor =? 0) || (session =? 0)) ZeroIdentity;
  r ← gets request;
  _ ← refuse_when ((supervisor =? supervisor_generation r) && (session =? launch_session r)) Replay;
  modify (enter_state Reaped).

End DriverLaunch.
