(* ===== verification/DriverLaunchThms.v ===== *)
(** * The records of a driver launch, and the life of an attempt *)

From Stdlib Require Import String.
From stdpp Require Import base tactics option list list_numbers.
From Stdlib Require Import ZArith Lia.
From S2P Require Import Prelude Bytes Layout StateM DeviceManifest DeviceControl Coordinator DeviceController DriverLaunch ControlThms ControllerThms.

Module FactSpec.
Import DriverLaunch.

Definition layout (f : C6Fact) : list field :=
  [Raw (literal "WRCF"); Int 2 1; Int 2 0; Int 4 4; Int 4 0; Int 4 C6_FACT_BYTES; zeros 4; Int 1 (event f); zeros 7;
   Int 8 (lease f); Int 8 (binding f); Int 8 (value f); Int 8 (aux f); zeros 32].
Definition check (f : C6Fact) : result unit := if known_event (event f) then Ok tt else Err WrongMessage.
Definition valid (f : C6Fact) : Prop := check f = Ok tt.
Definition proper (f : C6Fact) : Prop := Forall field_ok (layout f).

Lemma wrcf_layout_size f : Z.of_nat (size (layout f)) = C6_FACT_BYTES.
Proof. done. Qed.
Lemma wrcf_check_total f : check f <> Panic.
Proof. unfold check. no_panic. Qed.
Lemma wrcf_refuses_size f output : len output <> C6_FACT_BYTES -> exists e, encode_c6_fact f output = Err e.
Proof. intros H%Z.eqb_neq. unfold encode_c6_fact. rewrite H. by eexists. Qed.
Lemma wrcf_refuses_message f output e : len output = C6_FACT_BYTES -> check f = Err e -> encode_c6_fact f output = Err e.
Proof.
  intros Hl. unfold check, encode_c6_fact. rewrite Hl, Z.eqb_refl. destruct (known_event (event f)); cbn; congruence.
Qed.
Lemma wrcf_writes f output : valid f -> length output = size (layout f) -> encode_c6_fact f output = Ok (render (layout f)).
Proof.
  intros Hv Hl. unfold valid, check in Hv. unfold encode_c6_fact. rewrite Hl, wrcf_layout_size, Z.eqb_refl.
  destruct (known_event (event f)) eqn:Hk; [|done]. cbn [negb orb]. unfold zeroed. rewrite Hl.
  assert ([event f] = to_le 1 (event f)) as ->.
  { cbn. unfold known_event in Hk. bool_prop. by rewrite Z.mod_small by lia. }
  clear. destruct f. cbv -[Z.modulo Z.div]. reflexivity.
Qed.

Lemma wrcf_sound bytes f : bytes_ok bytes -> parse_c6_fact bytes = Ok f -> valid f /\ proper f /\ bytes = render (layout f).
Proof.
  intros Hb H. unfold parse_c6_fact, slice, get16, get32, get64 in H. record_cases. rewrite E in *. zero_ranges.
  split; [unfold valid, check; cbn; match goal with H : known_event _ = true |- _ => by rewrite H end|].
  read_back. apply Nat2Z.inj. by rewrite wrcf_layout_size.
Qed.
Lemma wrcf_complete f : valid f -> proper f -> parse_c6_fact (render (layout f)) = Ok f.
Proof.
  intros Hv Hok. unfold proper in Hok. assert (negb (known_event (event f)) = false) as Hk.
  { unfold valid, check in Hv. by destruct (known_event (event f)). }
  unfold parse_c6_fact, slice, get16, get32, get64. rewrite length_render, wrcf_layout_size.
  destruct f. unfold layout in Hok |- *. known_fields. accept.
Qed.
Lemma wrcf_total bytes : parse_c6_fact bytes <> Panic.
Proof. unfold parse_c6_fact, slice, get16, get32, get64. no_panic; bool_prop; unfold C6_FACT_BYTES in *; lia. Qed.

#[export] Instance exact : Exact encode_c6_fact parse_c6_fact layout valid proper := {
  encode_layout := wrcf_writes;
  encode_valid := writer_valid _ _ _ _ wrcf_layout_size wrcf_check_total wrcf_refuses_size wrcf_refuses_message wrcf_writes;
  encode_no_panic := writer_total _ _ _ _ wrcf_layout_size wrcf_check_total wrcf_refuses_size wrcf_refuses_message wrcf_writes;
  parse_sound := wrcf_sound; parse_complete := wrcf_complete; parse_no_panic := wrcf_total; proper_fits m H := H }.
End FactSpec.

Module LaunchSpec.
Import Control DriverLaunch.

(** The fields all launch records share. *)
Definition record (magic : string) (kind bytes : Z) (handles : field) (r : DriverLaunchRequest) : list field :=
  [Raw (literal magic); Int 2 1; Int 2 0; Int 4 kind; Int 4 0; Int 4 bytes; handles] ++ (Int 8 <$> request_values r).

(** *** The request *)

Definition request_layout (r : DriverLaunchRequest) : list field :=
  record "WRDL" 1 LAUNCH_REQUEST_BYTES (Int 4 LAUNCH_REQUEST_HANDLE_COUNT) r ++ [Raw (actor_identity r); zeros 16].
(** What the types of the source say of a request. *)
Definition typed (r : DriverLaunchRequest) : Prop := length (actor_identity r) = 32%nat /\ Forall field_ok (request_layout r).
Definition admitted (r : DriverLaunchRequest) : Prop := launch_new r = Ok (mkLaunch r Constructed).

Lemma launch_new_total r : launch_new r <> Panic.
Proof. unfold launch_new. no_panic. Qed.
Lemma launch_new_Ok r l : launch_new r = Ok l -> l = mkLaunch r Constructed.
Proof. unfold launch_new. intros H. by repeat res_step. Qed.

Lemma request_size r : length (actor_identity r) = 32%nat -> Z.of_nat (size (request_layout r)) = LAUNCH_REQUEST_BYTES.
Proof.
  destruct r as [sg ro at_ ls e tx dp ai cc cr]. cbn [actor_identity]. intros Hi. apply thirty_two in Hi. do 32 destruct Hi as [? Hi]. by subst ai.
Qed.

Lemma request_written r output : admitted r -> length (actor_identity r) = 32%nat -> len output = LAUNCH_REQUEST_BYTES ->
  encode_request r output = Ok (render (request_layout r)).
Proof.
  intros Ha Hi Hl. unfold encode_request. rewrite Ha. cbn [res_bind]. rewrite Hl, Z.eqb_refl. cbn [negb].
  unfold zeroed. replace (length output) with 128%nat by (unfold LAUNCH_REQUEST_BYTES in Hl; lia). clear Ha Hl.
  destruct r as [sg ro at_ ls [ei eg] tx dp ai cc cr]. cbn [actor_identity] in Hi.
  apply thirty_two in Hi. do 32 destruct Hi as [? Hi]. subst ai. cbv -[Z.modulo Z.div]. reflexivity.
Qed.

Lemma request_sound bytes r : bytes_ok bytes -> parse_request bytes = Ok r -> admitted r /\ typed r /\ bytes = render (request_layout r).
Proof.
  intros Hb H. unfold parse_request, slice, get16, get32, get64 in H. record_cases. rewrite E in *. zero_ranges.
  match goal with H : launch_new _ = Ok ?l |- _ => pose proof (launch_new_Ok _ _ H); subst l; split; [exact H|clear H] end.
  match goal with H : get_range _ 80 112 = Some ?i |- _ => pose proof (length_get_range _ _ _ _ H) as Hi end.
  unfold typed. cbn [actor_identity]. rewrite <-(assoc and). split; [lia|].
  apply reads_sound; [done| |cbn [reads app record request_layout request_values fmap list_fmap zeros]; repeat split; try assumption].
  { apply Nat2Z.inj. rewrite E, request_size; [done|cbn; lia]. }
  all: cbn [actor_identity width]; rewrite Hi; assumption.
Qed.

Lemma request_complete r : admitted r -> typed r -> parse_request (render (request_layout r)) = Ok r.
Proof.
  intros Ha [Hi Hok]. unfold parse_request, slice, get16, get32, get64. rewrite length_render, request_size by done.
  assert (driver_path r = DEVICE_DRIVER_PATH /\ child_is_channel r = true /\ child_rights r = ExactReduced) as (Hd & Hc & Hx).
  { unfold admitted, launch_new in Ha. repeat res_step. apply orb_false_iff in E0 as [E0 _]. bool_prop. done. }
  destruct r as [sg ro at_ ls [ei eg] tx dp ai cc cr]. cbn [actor_identity driver_path child_is_channel child_rights] in *. subst.
  unfold request_layout, record in Hok |- *. cbn [request_values fmap list_fmap app actor_identity] in Hok |- *. unfold admitted in Ha. known_fields.
  cbn [width] in *. rewrite Hi in *. accept.
Qed.

Lemma request_total bytes : parse_request bytes <> Panic.
Proof.
  unfold parse_request, slice, get16, get32, get64. no_panic; try apply launch_new_total. all: bool_prop; unfold LAUNCH_REQUEST_BYTES in *; lia.
Qed.

(** *** The acknowledgements *)

Definition response (magic : string) (kind : Z) (r : DriverLaunchRequest) : list field := record magic kind LAUNCH_RESPONSE_BYTES (zeros 4) r.

Lemma response_written magic kind r output : length (literal magic) = 4%nat -> admitted r -> len output = LAUNCH_RESPONSE_BYTES ->
  encode_response (literal magic) kind LAUNCH_RESPONSE_BYTES r output = Ok (render (response magic kind r)).
Proof.
  intros Hm Ha Hl. unfold encode_response. rewrite Ha. cbn [res_bind]. rewrite Hl, Z.eqb_refl. cbn [negb].
  unfold zeroed. replace (length output) with 80%nat by (unfold LAUNCH_RESPONSE_BYTES in Hl; lia). clear Ha Hl.
  unfold response, record. destruct (literal magic) as [|a [|b [|c [|d []]]]]; try discriminate Hm. cbv -[Z.modulo Z.div]. reflexivity.
Qed.

Lemma get_values_Ok bytes offsets values : get_values bytes offsets = Ok values <-> Forall2 (fun a v => get_le 8 bytes a = Some v) offsets values.
Proof.
  revert values. induction offsets as [|a offsets IH]; intros values; cbn.
  - split; [intros [= <-]; constructor|]. by intros ->%Forall2_nil_inv_l.
  - unfold get64. split.
    + intros H. repeat res_step. subst. constructor; [done|]. by apply IH.
    + intros (v & vs & Hv & Hvs & ->)%Forall2_cons_inv_l. rewrite Hv. cbn. by rewrite (proj2 (IH vs) Hvs).
Qed.

(** An acknowledgement is accepted exactly when it is the one of this very request. *)
Lemma response_exact magic kind bytes r :
  length (literal magic) = 4%nat -> bytes_ok bytes -> Forall field_ok (response magic kind r) ->
  parse_response (literal magic) kind LAUNCH_RESPONSE_BYTES bytes r = Ok tt <-> bytes = render (response magic kind r).
Proof.
  intros Hm Hb Hok. unfold parse_response, slice, get16, get32. split.
  - intros H. record_cases. zero_ranges.
    match goal with H : get_values _ _ = Ok _ |- _ => apply get_values_Ok in H; unfold value_offsets, request_values in H end.
    repeat match goal with H : Forall2 _ (_ :: _) _ |- _ => apply Forall2_cons in H as [? H] end.
    apply reads_render; [done| |cbn [response record reads app request_values fmap list_fmap zeros width]; rewrite Hm; repeat split; assumption].
    apply Nat2Z.inj. match goal with H : len bytes = _ |- _ => rewrite H end. unfold response, record, size. cbn. by rewrite Hm.
  - intros ->. apply render_reads in Hok as Hr. assert (len (render (response magic kind r)) = LAUNCH_RESPONSE_BYTES) as Hl.
    { rewrite length_render. unfold response, record, size. cbn. by rewrite Hm. }
    revert Hr Hl. generalize (render (response magic kind r)). intros bs Hr Hl. unfold response, record in Hr.
    cbn [reads app request_values fmap list_fmap zeros width] in Hr. rewrite Hm in Hr.
    repeat match goal with H : _ /\ _ |- _ => destruct H end. rewrite Hl.
    assert (get_values bs value_offsets = Ok (request_values r)) as Hv.
    { apply get_values_Ok. unfold value_offsets, request_values. repeat (constructor; [assumption|]). constructor. }
    assert (negb (bool_decide (literal magic = literal magic)) = false) by (by rewrite bool_decide_true).
    assert (negb (kind =? kind) = false) by (by rewrite Z.eqb_refl).
    assert (negb (bool_decide (request_values r = request_values r)) = false) by (by rewrite bool_decide_true).
    accept.
Qed.

(** What an acknowledgement says of the attempt it names. *)
Definition acknowledges (magic : string) (kind : Z) (encode : DriverLaunchRequest -> list Z -> result (list Z))
    (parse : list Z -> DriverLaunchRequest -> result unit) : Prop :=
  (forall r output, admitted r -> len output = LAUNCH_RESPONSE_BYTES -> encode r output = Ok (render (response magic kind r))) /\
  (forall bytes r, bytes_ok bytes -> Forall field_ok (response magic kind r) -> parse bytes r = Ok tt <-> bytes = render (response magic kind r)).
End LaunchSpec.

(** ** Versions *)

Lemma control_minor bytes m : Control.parse bytes = Ok m -> get_le 2 bytes 6 = Some 0.
Proof. intros H. unfold Control.parse, slice, get16 in H. repeat record_step; bool_prop; subst; assumption. Qed.
Lemma control_1_1_minor bytes m : ControlV1_1.parse bytes = Ok m -> get_le 2 bytes 6 = Some 1.
Proof. intros H. unfold ControlV1_1.parse, slice, get16 in H. repeat record_step; bool_prop; subst; assumption. Qed.
Lemma controller_minor bytes m : Controller.parse bytes = Ok m -> get_le 2 bytes 6 = Some 0.
Proof. intros H. unfold Controller.parse, slice, get16 in H. repeat record_step; bool_prop; subst; assumption. Qed.
Lemma controller_1_1_minor bytes m : ControllerV1_1.parse bytes = Ok m -> get_le 2 bytes 6 = Some 1.
Proof.
  intros H. unfold ControllerV1_1.parse, slice in H. do 4 record_step. repeat record_step. bool_prop. subst. unfold get_le.
  by match goal with H : get_range bytes 6 8 = _ |- _ => rewrite (H : get_range bytes 6 (6 + Z.of_nat 2) = _) end.
Qed.

Definition exclusive {E M E' M'} (parse : list Z -> res E M) (parse' : list Z -> res E' M') : Prop :=
  forall bytes m m', parse bytes = Ok m -> parse' bytes = Ok m' -> False.

Lemma minors_exclude {E M E' M'} (parse : list Z -> res E M) (parse' : list Z -> res E' M') :
  (forall bytes m, parse bytes = Ok m -> get_le 2 bytes 6 = Some 0) -> (forall bytes m, parse' bytes = Ok m -> get_le 2 bytes 6 = Some 1) ->
  exclusive parse parse'.
Proof. intros H H' bytes m m' Hm Hm'. apply H in Hm. apply H' in Hm'. congruence. Qed.

(** C18: the records of the device protocols have one spelling each.  For driver
    control 1.0 and 1.1, controller handoff 1.0 and 1.1, registry connector, D5 control and
    launch facts: the writer writes exactly the valid messages, into a buffer of
    exactly their size, field by field as the layout says and whatever the buffer held;
    the reader accepts exactly the layouts of the valid messages that are proper, those
    whose values fit their fields and which, for a status of controller handoff 1.0, do
    not name an attempt of number zero, and returns the message; neither panics.  Such a
    status is written as one without an attempt: after Backoff the reader refuses it, and
    otherwise it returns no attempt.  No bytes are accepted by both versions of a
    protocol.  A launch request that is admitted is written as its layout and read back,
    and nothing else is accepted; and an acknowledgement (constructed, reaped,
    retired) is accepted for a request exactly when it is the one record written for it. *)
Theorem device_records_exact :
  Exact Control.encode Control.parse ControlSpec.layout ControlSpec.valid ControlSpec.proper /\
  Exact ControlV1_1.encode ControlV1_1.parse ControlV1_1Spec.layout ControlV1_1Spec.valid ControlV1_1Spec.proper /\
  Exact Controller.encode Controller.parse ControllerSpec.layout ControllerSpec.valid ControllerSpec.proper /\
  Exact ControllerV1_1.encode ControllerV1_1.parse ControllerV1_1Spec.layout ControllerV1_1Spec.valid ControllerV1_1Spec.proper /\
  Exact Connector.encode Connector.parse ConnectorSpec.layout ConnectorSpec.valid ConnectorSpec.proper /\
  Exact D5Controller.encode D5Controller.parse D5Spec.layout D5Spec.valid D5Spec.proper /\
  Exact DriverLaunch.encode_c6_fact DriverLaunch.parse_c6_fact FactSpec.layout FactSpec.valid FactSpec.proper /\
  (forall s b t status, let m := Controller.Status s b t status (Some 0) in
    ControllerSpec.valid m -> Forall field_ok (ControllerSpec.layout m) ->
    Controller.parse (render (ControllerSpec.layout m)) =
      if Controller.is_backoff status then Err Controller.MissingAttempt else Ok (Controller.Status s b t status None)) /\
  exclusive Control.parse ControlV1_1.parse /\ exclusive Controller.parse ControllerV1_1.parse /\
  (forall r output, LaunchSpec.admitted r -> LaunchSpec.typed r -> len output = DriverLaunch.LAUNCH_REQUEST_BYTES ->
    DriverLaunch.encode_request r output = Ok (render (LaunchSpec.request_layout r)) /\
    DriverLaunch.parse_request (render (LaunchSpec.request_layout r)) = Ok r) /\
  (forall bytes r, bytes_ok bytes -> DriverLaunch.parse_request bytes = Ok r ->
    LaunchSpec.admitted r /\ LaunchSpec.typed r /\ bytes = render (LaunchSpec.request_layout r)) /\
  (forall bytes, DriverLaunch.parse_request bytes <> Panic) /\
  LaunchSpec.acknowledges "WRLA" 1 DriverLaunch.encode_constructed DriverLaunch.parse_constructed /\
  LaunchSpec.acknowledges "WRLR" 2 DriverLaunch.encode_reaped DriverLaunch.parse_reaped /\
  LaunchSpec.acknowledges "WRDT" 3 DriverLaunch.encode_driver_retired DriverLaunch.parse_driver_retired.
Proof.
  refine (conj ControlSpec.exact (conj ControlV1_1Spec.exact (conj ControllerSpec.exact (conj ControllerV1_1Spec.exact
    (conj ConnectorSpec.exact (conj D5Spec.exact (conj FactSpec.exact (conj ControllerSpec.unnamed_attempt _)))))))). split_conj.
  - apply minors_exclude; [apply control_minor|apply control_1_1_minor].
  - apply minors_exclude; [apply controller_minor|apply controller_1_1_minor].
  - intros r output Ha Ht Hl. split; [apply LaunchSpec.request_written; [done|by destruct Ht|done]|by apply LaunchSpec.request_complete].
  - apply LaunchSpec.request_sound.
  - apply LaunchSpec.request_total.
  - split; intros; [by apply LaunchSpec.response_written|by apply LaunchSpec.response_exact].
  - split; intros; [by apply LaunchSpec.response_written|by apply LaunchSpec.response_exact].
  - split; intros; [by apply LaunchSpec.response_written|by apply LaunchSpec.response_exact].
Qed.
