(* ===== verification/DeviceManifestThms.v ===== *)
(** * What the device-role manifest promises

    The readers accept a table only when its roles do not compete for anything; the
    writer's one table is read back, padded or not; and the device manager admits
    exactly the role that table holds. *)

From Stdlib Require Import String.
From stdpp Require Import base tactics option list list_numbers.
From Stdlib Require Import ZArith Lia.
From S2P Require Import Prelude Bytes Layout DeviceManifest.

Module ManifestSpec.
Import Manifest.

(** ** Specification *)

(** What a role of an accepted table is. *)
Definition sound_role (r : DeviceRole) : Prop :=
  role_id r <> 0 /\ irq r <> 0 /\ metadata_policy r <> 0 /\ 0 < pio_length (pio r) /\ 0 <= pio_base (pio r) /\ pio_end (pio r) <= 65536 /\
  0 < len (driver_path r) <= MAX_DRIVER_PATH_BYTES /\ length (content_identity r) = 32%nat /\ any_nonzero (content_identity r) = true.
(** Two roles want nothing in common. *)
Definition apart (r s : DeviceRole) : Prop :=
  role_id r <> role_id s /\ irq r <> irq s /\ forall port, range_contains (pio r) port = true -> range_contains (pio s) port = false.
(** The roles fill the table from its start. *)
Definition holds (m : ManifestView) (roles : list DeviceRole) : Prop :=
  count m = length roles /\ records m = (Some <$> roles) ++ replicate (MAX_RECORDS - length roles) None.
(** The one role of the product. *)
Definition com2_role (content : list Z) : DeviceRole :=
  mkRole COM2_ROLE_ID Com2 PioInterrupt (mkPio 760 8) 3 UART16550D_PATH content SERIAL_TRANSPORT_METADATA_POLICY.

(** ** The readers do not panic *)

Lemma parse_record_total bytes base : bytes_ok bytes -> 0 <= base -> base + RECORD_BYTES <= len bytes -> parse_record bytes base <> Panic.
Proof.
  intros Hok Hb Hl. unfold parse_record, slice, get16, get32, get64, RECORD_BYTES, MAX_DRIVER_PATH_BYTES in *. no_panic; try lia.
  all: repeat match goal with
    | H : or_panic _ = Ok _ |- _ => apply or_panic_Ok in H
    | H : ok_or _ _ = Ok _ |- _ => apply ok_or_Ok in H
    | H : get_le _ _ _ = Some _ |- _ => apply get_le_in_range in H; [|done]
    | H : get_range _ _ _ = Some _ |- _ => apply length_get_range in H
    end; bool_prop; lia.
Qed.

Lemma check_distinct_total r records : check_distinct r records <> Panic.
Proof. induction records as [|[p|] records IH]; cbn [check_distinct]; [done| |done]. no_panic. done. Qed.

(** ** What they accept *)

Definition table (roles : list DeviceRole) : list (option DeviceRole) := (Some <$> roles) ++ replicate (MAX_RECORDS - length roles) None.
Definition pairwise_apart (roles : list DeviceRole) : Prop := forall i j r s, i <> j -> roles !! i = Some r -> roles !! j = Some s -> apart r s.

Lemma apart_sym r s : apart r s -> apart s r.
Proof.
  intros (? & ? & H). split_and!; [done..|]. intros port Hp. destruct (range_contains (pio r) port) eqn:E; [|done]. apply H in E. congruence.
Qed.

Lemma length_table roles : (length roles <= MAX_RECORDS)%nat -> length (table roles) = MAX_RECORDS.
Proof. intros. unfold table. rewrite length_app, length_fmap, length_replicate. lia. Qed.

Lemma table_snoc roles r : (length roles < MAX_RECORDS)%nat -> <[length roles := Some r]> (table roles) = table (roles ++ [r]).
Proof.
  intros H. unfold table. rewrite length_app, fmap_app, <-(assoc_L (++)). cbn [length].
  rewrite insert_app_r_alt by (rewrite length_fmap; lia). rewrite length_fmap, Nat.sub_diag. f_equal.
  replace (MAX_RECORDS - length roles)%nat with (S (MAX_RECORDS - (length roles + 1)))%nat by lia. done.
Qed.

Lemma in_as_range r port : In port (as_range r) <-> range_contains r port = true.
Proof.
  rewrite <-list_elem_of_In. unfold as_range, range_contains. rewrite elem_of_seqZ. split; [intros; bool_cases; done|]. intros. bool_prop. lia.
Qed.

Lemma check_distinct_Ok r roles k : check_distinct r ((Some <$> roles) ++ replicate k None) = Ok tt -> Forall (fun p => apart p r) roles.
Proof.
  induction roles as [|p roles IH]; intros H; [constructor|]. cbn in H. repeat res_step. bool_prop. constructor; [|by apply IH].
  split_and!; [done..|]. intros port Hp%in_as_range. apply not_true_iff_false. intros Hr.
  assert (existsb (range_contains (pio r)) (as_range (pio p)) = true) by (apply existsb_exists; by exists port). congruence.
Qed.

Lemma pairwise_snoc roles r : pairwise_apart roles -> Forall (fun p => apart p r) roles -> pairwise_apart (roles ++ [r]).
Proof.
  intros Hp Hr i j a b Hij. rewrite Forall_lookup in Hr.
  rewrite !lookup_app_Some, !list_lookup_singleton_Some. intros [Hi|(? & ? & <-)] [Hj|(? & ? & <-)].
  - by eapply Hp.
  - by eapply Hr.
  - apply apart_sym. by eapply Hr.
  - lia.
Qed.

Lemma parse_record_sound bytes base r : bytes_ok bytes -> parse_record bytes base = Ok r -> sound_role r.
Proof.
  intros Hok H. unfold parse_record, slice, get16, get32, get64 in H. repeat record_step; bool_prop; subst; unfold sound_role; cbn in *.
  all: repeat match goal with
    | H : get_le _ _ (_ + 16) = Some _ |- _ => apply get_le_in_range in H; [|done]
    | H : get_le _ _ (_ + 18) = Some _ |- _ => apply get_le_in_range in H; [|done]
    | H : get_range _ _ _ = Some _ |- _ => apply length_get_range in H
    end; split_and!; try assumption; unfold MAX_DRIVER_PATH_BYTES in *; lia.
Qed.

Lemma parse_records_cases bytes : bytes_ok bytes -> forall n roles,
  (length roles + n <= MAX_RECORDS)%nat -> HEADER_BYTES + (Z.of_nat (length roles) + Z.of_nat n) * RECORD_BYTES <= len bytes ->
  Forall sound_role roles -> pairwise_apart roles ->
  match parse_records bytes (length roles) n (table roles) with
  | Ok out => exists roles', length roles' = (length roles + n)%nat /\ out = table roles' /\ Forall sound_role roles' /\ pairwise_apart roles'
  | Err _ => True
  | Panic => False
  end.
Proof.
  intros Hok. induction n as [|n IH]; intros roles Hc Hl Hs Hp.
  { cbn. exists roles. split_and!; [lia|done..]. }
  cbn [parse_records]. unfold HEADER_BYTES, RECORD_BYTES in Hl.
  destruct (parse_record _ _) as [r| |] eqn:Er; cbn [res_bind]; [|done|].
  2: { apply parse_record_total in Er; [done|done| |]; unfold HEADER_BYTES, RECORD_BYTES; lia. }
  destruct (check_distinct r _) as [[]| |] eqn:Ed; cbn [res_bind]; [|done|by apply check_distinct_total in Ed].
  rewrite length_table by lia. destruct (Nat.ltb_spec (length roles) MAX_RECORDS); [|lia].
  rewrite table_snoc by lia. replace (S (length roles)) with (length (roles ++ [r])) by (rewrite length_app; cbn; lia).
  specialize (IH (roles ++ [r])). rewrite !length_app in IH |- *. cbn [length] in IH |- *. unfold HEADER_BYTES, RECORD_BYTES in IH.
  assert (Forall sound_role (roles ++ [r])) as Hs'.
  { apply Forall_app. split; [done|]. constructor; [by eapply parse_record_sound|constructor]. }
  assert (pairwise_apart (roles ++ [r])) as Hp' by (apply pairwise_snoc; [done|]; by eapply check_distinct_Ok).
  destruct (parse_records _ _ _ _); [|done|]; specialize (IH ltac:(lia) ltac:(lia) Hs' Hp'); [|done].
  destruct IH as (roles' & Hn & -> & ? & ?). exists roles'. split_and!; [lia|done..].
Qed.

(** A table that is accepted. *)
Definition sound_manifest (m : ManifestView) : Prop :=
  exists roles, holds m roles /\ (1 <= length roles <= MAX_RECORDS)%nat /\ Forall sound_role roles /\ pairwise_apart roles.

Lemma parse_all_records bytes n : bytes_ok bytes -> 0 < n <= Z.of_nat MAX_RECORDS -> HEADER_BYTES + n * RECORD_BYTES <= len bytes ->
  match parse_records bytes 0 (Z.to_nat n) (replicate MAX_RECORDS None) with
  | Ok out => forall p v, sound_manifest (mkManifest p v out (Z.to_nat n))
  | Err _ => True
  | Panic => False
  end.
Proof.
  intros Hok Hn Hl. pose proof (parse_records_cases bytes Hok (Z.to_nat n) []) as Hc. cbn [length] in Hc.
  change (table []) with (replicate MAX_RECORDS (@None DeviceRole)) in Hc. unfold HEADER_BYTES, RECORD_BYTES in *.
  specialize (Hc ltac:(lia) ltac:(lia) ltac:(constructor) ltac:(by intros ?)).
  destruct (parse_records _ _ _ _); [|done..]. destruct Hc as (roles & Hr & -> & Hs & Hp). intros p v. exists roles.
  split_and!; [split; cbn; [lia|done]|lia|lia|done|done].
Qed.

Lemma wrdm_Ok bytes m : bytes_ok bytes -> parse bytes = Ok m -> sound_manifest m.
Proof.
  intros Hok H. unfold parse, slice, get16, get32, get64 in H. repeat record_step. subst. bool_prop.
  match goal with H : parse_records _ _ (Z.to_nat ?n) _ = Ok _, G : get_le 2 _ 12 = Some ?n |- _ =>
    pose proof (get_le_in_range _ _ _ _ Hok G); pose proof (parse_all_records bytes n Hok) as Hc; rewrite H in Hc end.
  apply Hc; [lia|]. apply checked_mul_Some in H9 as [-> _]. apply checked_add_Some in H10 as [-> _]. lia.
Qed.

Lemma wrdm_total bytes : bytes_ok bytes -> parse bytes <> Panic.
Proof.
  intros Hok. unfold parse, slice, get16, get32, get64. no_panic. 1-9: bool_prop; unfold HEADER_BYTES in *; lia.
  repeat match goal with H : or_panic _ = Ok _ |- _ => apply or_panic_Ok in H | H : ok_or _ _ = Ok _ |- _ => apply ok_or_Ok in H end.
  match goal with |- parse_records _ _ (Z.to_nat ?n) _ <> _ => pose proof (parse_all_records bytes n Hok) as Hc; intros Hpr; rewrite Hpr in Hc end.
  match goal with G : get_le 2 _ 12 = Some ?n |- _ => pose proof (get_le_in_range _ _ _ _ Hok G) end. bool_prop.
  apply Hc; [lia|]. apply checked_mul_Some in H8 as [-> _]. apply checked_add_Some in H9 as [-> _]. lia.
Qed.

Lemma wrdm_padded_total bytes : bytes_ok bytes -> parse_padded bytes <> Panic.
Proof.
  intros Hok. unfold parse_padded, slice, get16, get32, get64. no_panic. 1-6: bool_prop; unfold HEADER_BYTES in *; lia.
  apply wrdm_total. repeat match goal with H : or_panic _ = Ok _ |- _ => apply or_panic_Ok in H end. by eapply bytes_ok_get_range.
Qed.
Lemma wrdm_padded_Ok bytes m : bytes_ok bytes -> parse_padded bytes = Ok m -> sound_manifest m.
Proof.
  intros Hok H. unfold parse_padded, slice, get16, get32, get64 in H. repeat record_step. eapply wrdm_Ok; [|done]. by eapply bytes_ok_get_range.
Qed.

(** ** The one table that is written *)

Definition com2_layout (content : list Z) : list field :=
  [Raw MAGIC; Int 2 1; Int 2 0; Int 4 176; Int 2 1; Int 2 0; Int 4 PROFILE_Q35; Int 4 PROFILE_Q35_VERSION; Int 8 0;
   Int 8 COM2_ROLE_ID; Int 4 2; Int 4 1; Int 2 760; Int 2 8; Int 4 3; Int 2 17; Int 2 0; Raw content;
   Int 4 SERIAL_TRANSPORT_METADATA_POLICY; zeros 8; Raw (UART16550D_PATH ++ replicate 47 0); zeros 8].

Lemma com2_written content : length content = 32%nat -> any_nonzero content = true ->
  encode_com2_manifest content (replicate 176 0) = Ok (176, render (com2_layout content)).
Proof.
  intros Hl Hn. unfold encode_com2_manifest. rewrite Hn. clear Hn. apply thirty_two in Hl. do 32 destruct Hl as [? Hl]. subst. 
  cbv -[Z.modulo Z.div]. reflexivity.
Qed.

Lemma com2_written_in content output : length content = 32%nat -> any_nonzero content = true -> 176 <= len output ->
  encode_com2_manifest content output = Ok (176, render (com2_layout content) ++ drop 176 output).
Proof.
  intros Hl Hn Ho. pose proof (com2_written content Hl Hn) as H. unfold encode_com2_manifest in *. rewrite Hn in *.
  destruct (Z.ltb_spec (len output) (HEADER_BYTES + RECORD_BYTES)) as [Hlt|_]; [unfold HEADER_BYTES, RECORD_BYTES in Hlt; lia|].
  cbn [negb] in *. destruct (len (replicate 176 0) <? _); [discriminate H|].
  assert (splice (E:=ManifestError) output 0 (replicate (Z.to_nat (HEADER_BYTES + RECORD_BYTES)) 0) = Ok (replicate 176 0 ++ drop 176 output)) as ->.
  { apply or_panic_Ok, put_range_Some. rewrite length_replicate. split_and!; [done|unfold HEADER_BYTES, RECORD_BYTES; lia|done]. }
  assert (splice (E:=ManifestError) (replicate 176 0) 0 (replicate (Z.to_nat (HEADER_BYTES + RECORD_BYTES)) 0) = Ok (replicate 176 0)) as Hz by done.
  rewrite Hz in H. clear Hz. cbn [res_bind] in *.
  repeat match goal with H : res_bind _ _ = Ok (_, _) |- _ => apply res_bind_Ok in H as (? & ? & H) end. injection H as <-.
  written_before (drop 176 output). done.
Qed.

Definition com2_manifest (content : list Z) : ManifestView :=
  mkManifest PROFILE_Q35 PROFILE_Q35_VERSION [Some (com2_role content); None; None; None] 1.

Lemma com2_fits content : bytes_ok content -> Forall field_ok (com2_layout content).
Proof. intros. unfold com2_layout. repeat constructor; try done; try (cbn; lia). Qed.
Lemma com2_size content : length content = 32%nat -> len (render (com2_layout content)) = 176.
Proof. intros Hl. rewrite length_render. unfold com2_layout, size. cbn. by rewrite Hl. Qed.

Lemma com2_read content : length content = 32%nat -> bytes_ok content -> any_nonzero content = true -> 
  parse (render (com2_layout content)) = Ok (com2_manifest content).
Proof.
  intros Hl Hb Hn. pose proof (com2_fits content Hb) as Hok. pose proof (com2_size content Hl) as Hs. 
  assert (negb (any_nonzero content) = false) as Hz by (by rewrite Hn).
  unfold parse, slice, get16, get32, get64. rewrite Hs. revert Hs. unfold com2_layout in Hok |- *. known_fields. intros Hs. cbn [width] in *. rewrite Hl in *.
  assert (parse_record bs 32 = Ok (com2_role content)) as Hr.
  { unfold parse_record, slice, get16, get32, get64. accept. }
  assert (parse_records bs 0 (Z.to_nat 1) (replicate MAX_RECORDS None) = Ok [Some (com2_role content); None; None; None]) as Hrs.
  { change (Z.to_nat 1) with 1%nat. cbn [parse_records]. change (HEADER_BYTES + _) with 32. by rewrite Hr. }
  accept. change (checked_mul_u64 1 RECORD_BYTES) with (Some 144). cbn [ok_or res_bind].
  change (checked_add_u64 HEADER_BYTES 144) with (Some 176). cbn [ok_or res_bind]. accept.
Qed.

Lemma com2_read_padded content n : length content = 32%nat -> bytes_ok content -> any_nonzero content = true ->
  parse_padded (render (com2_layout content) ++ replicate n 0) = Ok (com2_manifest content).
Proof.
  intros Hl Hb Hn. pose proof (com2_size content Hl) as Hs. pose proof (com2_read content Hl Hb Hn) as Hp.
  assert (get_range (render (com2_layout content) ++ replicate n 0) 0 176 = Some (render (com2_layout content))) as Hx.
  { apply get_range_Some. rewrite length_app. split_and!; [lia..|]. change (Z.to_nat 0) with 0%nat. rewrite drop_0. by rewrite take_app_length' by lia. }
  assert (get_range (render (com2_layout content) ++ replicate n 0) 176 (176 + Z.of_nat n) = Some (replicate n 0)) as Ht.
  { apply get_range_Some. rewrite length_app, length_replicate. split_and!; [lia..|]. rewrite drop_app_length' by lia. rewrite take_ge by (rewrite length_replicate; lia). done. }
  assert (Forall field_ok (com2_layout content ++ [zeros n])) as Hok.
  { apply Forall_app. split; [by apply com2_fits|]. constructor; [|constructor]. by apply Forall_replicate. }
  assert (any_nonzero (replicate n 0) = false) as Hz by (apply any_nonzero_false; by rewrite length_replicate).
  assert (len (render (com2_layout content) ++ replicate n 0) = 176 + Z.of_nat n) as Hlen by (rewrite length_app, length_replicate; lia).
  assert (render (com2_layout content) ++ replicate n 0 = render (com2_layout content ++ [zeros n])) as Hr.
  { unfold render. rewrite fmap_app, join_app. cbn. by rewrite (app_nil_r (replicate _ _)). }
  rewrite Hr in *. unfold parse_padded, slice, get16, get32. rewrite Hlen. clear Hr Hlen Hs. revert Hp Hx Ht. generalize (render (com2_layout content)). intros exact.
  unfold com2_layout in Hok |- *. cbn [app] in Hok |- *. known_fields. intros Hp Hx Ht. rewrite (proj2 (Z.ltb_ge _ _)) by (unfold HEADER_BYTES; lia).
  assert (((176 <? HEADER_BYTES) || (176 + Z.of_nat n <? 176)) = false) as Hsz by (apply orb_false_iff; split; [done|apply Z.ltb_ge; lia]).
  accept. exact Hp.
Qed.

Lemma match_com2_Ok m content role : match_com2 m content = Ok role -> count m = 1%nat /\ manifest_get m 0 = Some role /\ role = com2_role content.
Proof.
  unfold match_com2, manifest_get. intros H. repeat res_step. bool_prop. subst.
  apply Nat.eqb_eq in E. destruct role. cbn [role_id hardware resource_kind pio irq driver_path metadata_policy content_identity] in *. subst.
  match goal with H : records m !! _ = Some _ |- _ => rewrite H end. done.
Qed.

(** A wrong size or an empty identity is refused. *)
Lemma com2_refused content output : len output < 176 \/ any_nonzero content = false -> exists e, encode_com2_manifest content output = Err e.
Proof.
  intros H. unfold encode_com2_manifest. destruct (Z.ltb_spec (len output) (HEADER_BYTES + RECORD_BYTES)) as [Hl|Hl]; [by eexists|].
  destruct H as [H| ->]; [unfold HEADER_BYTES, RECORD_BYTES in Hl; lia|]. by eexists.
Qed.

(** The product's own table is read as the one role. *)
Definition written_and_read (content output : list Z) : Prop :=
  exists table, encode_com2_manifest content output = Ok (176, table ++ drop 176 output) /\ length table = 176%nat /\
    parse table = Ok (com2_manifest content) /\
    (forall n, drop 176 output = replicate n 0 -> parse_padded (table ++ drop 176 output) = Ok (com2_manifest content)) /\
    match_com2 (com2_manifest content) content = Ok (com2_role content).

Lemma com2_round_trip content output : length content = 32%nat -> bytes_ok content -> any_nonzero content = true -> 176 <= len output ->
  written_and_read content output.
Proof.
  intros Hl Hb Hn Ho. exists (render (com2_layout content)). split_and!.
  - by apply com2_written_in.
  - apply Nat2Z.inj. by rewrite com2_size.
  - by apply com2_read.
  - intros n ->. by apply com2_read_padded.
  - unfold match_com2, com2_manifest, com2_role. cbn [count records role_id hardware resource_kind pio irq driver_path metadata_policy content_identity].
    cbn. by rewrite !bool_decide_true.
Qed.

(** C28: the device-role manifest gives out no device twice and the product's own table is
    the one that is admitted.  Neither reader panics on any bytes.  A table either reader
    accepts holds one to four roles, in its first slots and nowhere else; each has
    nonzero identity, interrupt and policy, ports inside the 16-bit port space, a path
    of 1 to 64 bytes and a nonzero content identity; and no two of them share a role id,
    an interrupt or a port.  The writer, given a nonzero 32-byte identity and room for the
    table, writes 176 bytes and leaves the rest of the buffer alone; both readers, the
    padded one for any number of zero bytes behind, return the COM2 role with that
    identity, and matching admits it; without room or identity it reports an error.
    And matching admits nothing but that role of a table of one. *)
Theorem device_manifest_sound :
  (forall bytes, bytes_ok bytes -> parse bytes <> Panic /\ parse_padded bytes <> Panic) /\
  (forall bytes m, bytes_ok bytes -> parse bytes = Ok m \/ parse_padded bytes = Ok m -> sound_manifest m) /\
  (forall content output, length content = 32%nat -> bytes_ok content -> any_nonzero content = true -> 176 <= len output ->
    written_and_read content output) /\
  (forall content output, len output < 176 \/ any_nonzero content = false -> exists e, encode_com2_manifest content output = Err e) /\
  (forall m content role, match_com2 m content = Ok role -> count m = 1%nat /\ manifest_get m 0 = Some role /\ role = com2_role content).
Proof.
  split_and!.
  - intros bytes Hok. split; [by apply wrdm_total|by apply wrdm_padded_total].
  - intros bytes m Hok [H|H]; [by eapply wrdm_Ok|by eapply wrdm_padded_Ok].
  - exact com2_round_trip.
  - exact com2_refused.
  - exact match_com2_Ok.
Qed.

(** An object view larger than the table. *)
Lemma device_manifest_sound_witness : written_and_read (replicate 32 7) (replicate 512 0).
Proof.
  refine (proj1 (proj2 (proj2 device_manifest_sound)) (replicate 32 7) (replicate 512 0) _ _ _ _).
  - reflexivity.
  - apply Forall_replicate. by vm_compute.
  - reflexivity.
  - vm_compute. discriminate.
Defined.
End ManifestSpec.
