(* ===== verification/ConsoleProto.v ===== *)
(** * The console status protocol WRCN (crates/wyrmroot-console-proto)

    The three messages, their writers and reader, and the session in which one shell
    asks for the console's status. *)

From Stdlib Require Import String.
From stdpp Require Import base tactics option list list_numbers.
From Stdlib Require Import ZArith Lia.
From S2P Require Import Prelude Bytes Layout StateM.

Module ConsoleProto.

Definition HEADER_BYTES : Z := 48.
Definition ERROR_BYTES : Z := 56.
Definition SNAPSHOT_BYTES : Z := 160.
Definition MAX_MESSAGE_BYTES : Z := SNAPSHOT_BYTES.
Definition MAX_QUEUE_BYTES : Z := 4096.
Definition MAX_FAILURES : Z := 4.
Definition SHELL_PATH : list Z := literal "system/wyrmsh".
Definition LIVE_PEER_MASK : Z := 7.
Definition FLAG_SERIAL_PRESENT : Z := Z.shiftl 1 0.
Definition FLAG_CHILD_PRESENT : Z := Z.shiftl 1 1.
Definition FLAG_SERIAL_INVALIDATED : Z := Z.shiftl 1 2.
Definition FLAG_PENDING_LAUNCH : Z := Z.shiftl 1 3.
Definition FLAG_PENDING_LAUNCH_CLEANUP : Z := Z.shiftl 1 4.
Definition FLAG_CHILD_RESTART_EXHAUSTED : Z := Z.shiftl 1 5.
Definition FLAG_SERIAL_RESTART_EXHAUSTED : Z := Z.shiftl 1 6.
Definition FLAGS_MASK : Z := Z.shiftl 1 7 - 1.
Definition MAGIC : list Z := literal "WRCN".
Definition MAJOR : Z := 1.
Definition MINOR : Z := 0.
Definition QUERY_STATUS : Z := 1.
Definition STATUS_SNAPSHOT : Z := 2.
Definition ERROR : Z := 3.

Record Header := mkHeader { transaction_id : Z; console_generation : Z; status_generation : Z }.
(** [Header::valid] *)
Definition header_valid (h : Header) : bool :=
  negb (transaction_id h =? 0) && negb (console_generation h =? 0) && negb (status_generation h =? 0).

Inductive State := Active | RetiringChild | AwaitingReap | Reconnecting | Exhausted | FailClosed.
Inductive LastFailure :=
| NoFailure | ZeroCorrelation | StaleCorrelation | WrongConnectionState | NoChild | IncompleteCleanup | AlreadyReserved
| UnknownReservation | Backpressure | TooLarge | MonotonicRegression | ArithmeticOverflow | RestartExhausted
| SerialDisconnected | ChildDisconnected | WrongDirection.
Inductive ErrorCode := Malformed | StaleGeneration | Replay | Unavailable.
Inductive EncodeError := EBuffer | EIdentity | EBounds | EInvariant.
Inductive DecodeError :=
| DSize | DHandles | DMagic | DVersion | DFlags | DIdentity | DMessageType | DState | DLastFailure | DErrorCode | DBounds
| DInvariant | DReserved.

(** Their numbers ([as u32]), and the readers of them *)
Definition state_number (s : State) : Z :=
  match s with
  | Active => 1 | RetiringChild => 2 | AwaitingReap => 3 | Reconnecting => 4 | Exhausted => 5 | FailClosed => 6
  end.
Definition parse_state (value : Z) : res DecodeError State :=
  if value =? 1 then Ok Active else if value =? 2 then Ok RetiringChild else if value =? 3 then Ok AwaitingReap
  else if value =? 4 then Ok Reconnecting else if value =? 5 then Ok Exhausted else if value =? 6 then Ok FailClosed
  else Err DState.
Definition failure_number (f : LastFailure) : Z :=
  match f with
  | NoFailure => 0 | ZeroCorrelation => 1 | StaleCorrelation => 2 | WrongConnectionState => 3 | NoChild => 4
  | IncompleteCleanup => 5 | AlreadyReserved => 6 | UnknownReservation => 7 | Backpressure => 8 | TooLarge => 9
  | MonotonicRegression => 10 | ArithmeticOverflow => 11 | RestartExhausted => 12 | SerialDisconnected => 13
  | ChildDisconnected => 14 | WrongDirection => 15
  end.
Definition parse_last_failure (value : Z) : res DecodeError LastFailure :=
  if value =? 0 then Ok NoFailure else if value =? 1 then Ok ZeroCorrelation else if value =? 2 then Ok StaleCorrelation
  else if value =? 3 then Ok WrongConnectionState else if value =? 4 then Ok NoChild
  else if value =? 5 then Ok IncompleteCleanup else if value =? 6 then Ok AlreadyReserved
  else if value =? 7 then Ok UnknownReservation else if value =? 8 then Ok Backpressure else if value =? 9 then Ok TooLarge
  else if value =? 10 then Ok MonotonicRegression else if value =? 11 then Ok ArithmeticOverflow
  else if value =? 12 then Ok RestartExhausted else if value =? 13 then Ok SerialDisconnected
  else if value =? 14 then Ok ChildDisconnected else if value =? 15 then Ok WrongDirection
  else Err DLastFailure.
Definition code_number (c : ErrorCode) : Z :=
  match c with Malformed => 1 | StaleGeneration => 2 | Replay => 3 | Unavailable => 4 end.
Definition parse_code (value : Z) : res DecodeError ErrorCode :=
  if value =? 1 then Ok Malformed else if value =? 2 then Ok StaleGeneration else if value =? 3 then Ok Replay
  else if value =? 4 then Ok Unavailable else Err DErrorCode.

(** [struct Snapshot] *)
Record Snapshot := mkSnapshot {
  state : State;
  flags : Z;
  serial_registry_generation : Z;
  publication_generation : Z;
  device_bundle : Z;
  driver_attempt : Z;
  raw_stream_generation : Z;
  child_generation : Z;
  outer_job : Z;
  outer_launch_transaction : Z;
  live_peer_mask : Z;
  input_queue_bytes : Z;
  stdout_queue_bytes : Z;
  stderr_queue_bytes : Z;
  child_failures : Z;
  serial_failures : Z;
  last_failure : LastFailure }.

(** [self.flags & flag != 0] *)
Definition has_flag (s : Snapshot) (flag : Z) : bool := negb (Z.land (flags s) flag =? 0).
(** [values.iter().all(|value| *value != 0)]; the other test of the source is [any_nonzero]. *)
Definition all_nonzero (values : list Z) : bool := forallb (fun value => negb (value =? 0)) values.

(** [Snapshot::validate] *)
Definition validate (s : Snapshot) : res EncodeError unit :=
  reject_if! negb (Z.land (flags s) (Z.lnot FLAGS_MASK) =? 0)
    || negb (Z.land (live_peer_mask s) (Z.lnot LIVE_PEER_MASK) =? 0)
    || (MAX_QUEUE_BYTES <? input_queue_bytes s) || (MAX_QUEUE_BYTES <? stdout_queue_bytes s)
    || (MAX_QUEUE_BYTES <? stderr_queue_bytes s) || (MAX_FAILURES <? child_failures s)
    || (MAX_FAILURES <? serial_failures s) with EBounds;;
  let serial := [serial_registry_generation s; publication_generation s; device_bundle s; driver_attempt s;
                 raw_stream_generation s] in
  reject_if! negb (Bool.eqb (has_flag s FLAG_SERIAL_PRESENT) (all_nonzero serial))
    || (negb (has_flag s FLAG_SERIAL_PRESENT) && any_nonzero serial) with EInvariant;;
  let child := [child_generation s; outer_job s; outer_launch_transaction s] in
  reject_if! negb (Bool.eqb (has_flag s FLAG_CHILD_PRESENT) (all_nonzero child))
    || (negb (has_flag s FLAG_CHILD_PRESENT) && (any_nonzero child || negb (live_peer_mask s =? 0))) with EInvariant;;
  Ok tt.

(** [enum Message] *)
Inductive Message :=
| Query (h : Header)
| SnapshotOf (h : Header) (s : Snapshot)
| ErrorOf (h : Header) (c : ErrorCode).

(** ** Writing: the number of bytes written, and the buffer *)

Definition encode_header (h : Header) (message_type size : Z) (output : list Z) : res EncodeError (list Z) :=
  reject_if! negb (header_valid h) with EIdentity;;
  reject_if! len output <? size with EBuffer;;
  let! output := splice output 0 (replicate (Z.to_nat size) 0) in
  let! output := splice output 0 MAGIC in
  let! output := put16 output 4 MAJOR in
  let! output := put16 output 6 MINOR in
  let! output := put32 output 8 message_type in
  let! output := put32 output 16 size in
  let! output := put64 output 24 (transaction_id h) in
  let! output := put64 output 32 (console_generation h) in
  put64 output 40 (status_generation h).

Definition encode_query (h : Header) (output : list Z) : res EncodeError (Z * list Z) :=
  let! output := encode_header h QUERY_STATUS HEADER_BYTES output in
  Ok (HEADER_BYTES, output).

(** [for (index, value) in [..].into_iter().enumerate() { put_u64(output, 56 + index * 8, value); }] *)
Fixpoint put_from (output : list Z) (offset : Z) (values : list Z) : res EncodeError (list Z) :=
  match values with
  | [] => Ok output
  | value :: values => let! output := put64 output offset value in put_from output (offset + 8) values
  end.

Definition encode_snapshot (h : Header) (s : Snapshot) (output : list Z) : res EncodeError (Z * list Z) :=
  let! _ := validate s in
  let! output := encode_header h STATUS_SNAPSHOT SNAPSHOT_BYTES output in
  let! output := put32 output 48 (state_number (state s)) in
  let! output := put32 output 52 (flags s) in
  let! output := put_from output 56
    [serial_registry_generation s; publication_generation s; device_bundle s; driver_attempt s; raw_stream_generation s;
     child_generation s; outer_job s; outer_launch_transaction s] in
  let! output := put32 output 120 (live_peer_mask s) in
  let! output := put32 output 124 (input_queue_bytes s) in
  let! output := put32 output 128 (stdout_queue_bytes s) in
  let! output := put32 output 132 (stderr_queue_bytes s) in
  let! output := put32 output 136 (child_failures s) in
  let! output := put32 output 140 (serial_failures s) in
  let! output := put32 output 144 (failure_number (last_failure s)) in
  Ok (SNAPSHOT_BYTES, output).

Definition encode_error (h : Header) (c : ErrorCode) (output : list Z) : res EncodeError (Z * list Z) :=
  let! output := encode_header h ERROR ERROR_BYTES output in
  let! output := put32 output 48 (code_number c) in
  Ok (ERROR_BYTES, output).

(** ** Reading *)

Definition parse_header (bytes : list Z) (handles : Z) : res DecodeError Header :=
  reject_if! len bytes <? HEADER_BYTES with DSize;;
  let! inline_handles := get32 bytes 20 in
  reject_if! negb (handles =? 0) || negb (inline_handles =? 0) with DHandles;;
  let! magic := slice bytes 0 4 in
  reject_if! negb (bool_decide (magic = MAGIC)) with DMagic;;
  let! major := get16 bytes 4 in
  let! minor := get16 bytes 6 in
  reject_if! negb (major =? MAJOR) || negb (minor =? MINOR) with DVersion;;
  let! flags := get32 bytes 12 in
  reject_if! negb (flags =? 0) with DFlags;;
  let! t := get64 bytes 24 in
  let! c := get64 bytes 32 in
  let! s := get64 bytes 40 in
  let h := mkHeader t c s in
  reject_if! negb (header_valid h) with DIdentity;;
  Ok h.

(** [.map_err(|error| match error { Bounds => Bounds, _ => Invariant })] *)
Definition decode_error (e : EncodeError) : DecodeError := match e with EBounds => DBounds | _ => DInvariant end.

Definition decode (bytes : list Z) (handles : Z) : res DecodeError Message :=
  let! h := parse_header bytes handles in
  let! message_type := get32 bytes 8 in
  let! expected :=
    (if message_type =? QUERY_STATUS then Ok HEADER_BYTES
     else if message_type =? STATUS_SNAPSHOT then Ok SNAPSHOT_BYTES
     else if message_type =? ERROR then Ok ERROR_BYTES
     else Err DMessageType) in
  reject_if! negb (len bytes =? expected) with DSize;;
  let! size := get32 bytes 16 in
  reject_if! negb (size =? expected) with DSize;;
  if message_type =? QUERY_STATUS then Ok (Query h)
  else if message_type =? STATUS_SNAPSHOT then
    let! reserved := get32 bytes 148 in
    reject_if! negb (reserved =? 0) with DReserved;;
    let! reserved := get64 bytes 152 in
    reject_if! negb (reserved =? 0) with DReserved;;
    let! value := get32 bytes 48 in
    let! st := parse_state value in
    let! f := get32 bytes 52 in
    let! srg := get64 bytes 56 in
    let! pg := get64 bytes 64 in
    let! db := get64 bytes 72 in
    let! da := get64 bytes 80 in
    let! rsg := get64 bytes 88 in
    let! cg := get64 bytes 96 in
    let! oj := get64 bytes 104 in
    let! olt := get64 bytes 112 in
    let! lpm := get32 bytes 120 in
    let! iq := get32 bytes 124 in
    let! oq := get32 bytes 128 in
    let! eq := get32 bytes 132 in
    let! cf := get32 bytes 136 in
    let! sf := get32 bytes 140 in
    let! value := get32 bytes 144 in
    let! lf := parse_last_failure value in
    let s := mkSnapshot st f srg pg db da rsg cg oj olt lpm iq oq eq cf sf lf in
    let! _ := map_err decode_error (validate s) in
    Ok (SnapshotOf h s)
  else if message_type =? ERROR then
    let! reserved := get32 bytes 52 in
    reject_if! negb (reserved =? 0) with DReserved;;
    let! value := get32 bytes 48 in
    let! c := parse_code value in
    Ok (ErrorOf h c)
  else Err DMessageType.

(** ** The status session *)

Record Relationship := mkRelationship {
  rel_console_generation : Z; rel_status_generation : Z; rel_child_generation : Z; rel_outer_launch_transaction : Z }.
(** [Relationship::valid] *)
Definition relationship_valid (r : Relationship) : bool :=
  negb (rel_console_generation r =? 0) && negb (rel_status_generation r =? 0) && negb (rel_child_generation r =? 0)
  && negb (rel_outer_launch_transaction r =? 0).

(** [struct QueryTicket] *)
Record QueryTicket := mkTicket { ticket_header : Header }.
Record StatusSession := mkSession {
  relationship : Relationship; high_water : Z; outstanding : option Z; is_open : bool }.

(** [StatusSession::new] *)
Definition session_new (r : Relationship) : res ErrorCode StatusSession :=
  reject_if! negb (relationship_valid r) with StaleGeneration;;
  Ok (mkSession r 0 None true).

Abbreviation M := (SM StatusSession ErrorCode).
Definition refuse (condition : bool) (error : ErrorCode) : M unit := if condition then throw error else mret tt.
Definition set_high_water x s := mkSession (relationship s) x (outstanding s) (is_open s).
Definition set_outstanding x s := mkSession (relationship s) (high_water s) x (is_open s).

Definition admit_query (h : Header) : M QueryTicket :=
  open ← gets is_open;
  _ ← refuse (negb open) Unavailable;
  high ← gets high_water;
  _ ← refuse (transaction_id h <=? high) Replay;
  _ ← modify (set_high_water (transaction_id h));
  r ← gets relationship;
  _ ← refuse (negb (console_generation h =? rel_console_generation r)
              || negb (status_generation h =? rel_status_generation r)) StaleGeneration;
  o ← gets outstanding;
  _ ← refuse (bool_decide (o <> None)) Unavailable;
  _ ← modify (set_outstanding (Some (transaction_id h)));
  mret (mkTicket h).

Definition complete (t : QueryTicket) : M unit :=
  open ← gets is_open;
  o ← gets outstanding;
  _ ← refuse (negb open || negb (bool_decide (o = Some (transaction_id (ticket_header t))))) Unavailable;
  modify (set_outstanding None).

Definition close : M unit := modify (fun s => mkSession (relationship s) (high_water s) None false).

End ConsoleProto.
