(* ===== verification/ConsoleProtoThms.v ===== *)
(** * The console status protocol: one spelling for each message, one answer for each query *)

From stdpp Require Import base tactics option list list_numbers sorting.
From Stdlib Require Import ZArith Lia.
From S2P Require Import Prelude Bytes Layout StateM ConsoleProto.
Import ConsoleProto.

(** ** Layouts *)

Definition head_of (kind size : Z) (h : Header) : list field :=
  [Raw MAGIC; Int 2 1; Int 2 0; Int 4 kind; Int 4 0; Int 4 size; Int 4 0; Int 8 (transaction_id h); Int 8 (console_generation h);
   Int 8 (status_generation h)].
Definition snapshot_fields (s : Snapshot) : list field :=
  [Int 4 (state_number (state s)); Int 4 (flags s); Int 8 (serial_registry_generation s); Int 8 (publication_generation s);
   Int 8 (device_bundle s); Int 8 (driver_attempt s); Int 8 (raw_stream_generation s); Int 8 (child_generation s);
   Int 8 (outer_job s); Int 8 (outer_launch_transaction s); Int 4 (live_peer_mask s); Int 4 (input_queue_bytes s);
   Int 4 (stdout_queue_bytes s); Int 4 (stderr_queue_bytes s); Int 4 (child_failures s); Int 4 (serial_failures s);
   Int 4 (failure_number (last_failure s)); Int 4 0; Int 8 0].
Definition layout (m : Message) : list field :=
  match m with
  | Query h => head_of QUERY_STATUS HEADER_BYTES h
  | SnapshotOf h s => head_of STATUS_SNAPSHOT SNAPSHOT_BYTES h ++ snapshot_fields s
  | ErrorOf h c => head_of ERROR ERROR_BYTES h ++ [Int 4 (code_number c); Int 4 0]
  end.
Definition wire_size (m : Message) : Z :=
  match m with Query _ => HEADER_BYTES | SnapshotOf _ _ => SNAPSHOT_BYTES | ErrorOf _ _ => ERROR_BYTES end.
Definition encode (m : Message) (output : list Z) : res EncodeError (Z * list Z) :=
  match m with
  | Query h => encode_query h output
  | SnapshotOf h s => encode_snapshot h s output
  | ErrorOf h c => encode_error h c output
  end.
Definition header_of (m : Message) : Header := match m with Query h | SnapshotOf h _ | ErrorOf h _ => h end.
Definition valid (m : Message) : Prop :=
  header_valid (header_of m) = true /\ match m with SnapshotOf _ s => validate s = Ok tt | _ => True end.

Lemma wrcn_size m : Z.of_nat (size (layout m)) = wire_size m.
Proof. by destruct m. Qed.

(** ** Writing *)

Lemma validate_total s : validate s <> Panic.
Proof. unfold validate. no_panic. Qed.

(** On an empty buffer of the right size. *)
Lemma wrcn_written m : valid m -> encode m (replicate (Z.to_nat (wire_size m)) 0) = Ok (wire_size m, render (layout m)).
Proof.
  intros [Hh Hs]. destruct m as [h|h s|h c]; cbn [header_of encode wire_size] in *;
    unfold encode_query, encode_snapshot, encode_error, encode_header; rewrite Hh, ?Hs; clear.
  all: cbv -[Z.modulo Z.div code_number state_number failure_number]; reflexivity.
Qed.

Lemma header_run h kind sz output w : 0 <= sz -> encode_header h kind sz (replicate (Z.to_nat sz) 0) = Ok w -> sz <= len output ->
  encode_header h kind sz output = Ok (w ++ drop (Z.to_nat sz) output).
Proof.
  intros Hz H Ho. unfold encode_header in *. destruct (negb (header_valid h)); [discriminate H|].
  rewrite length_replicate, Z2Nat.id, Z.ltb_irrefl in H by done. rewrite (proj2 (Z.ltb_ge _ _)) by done.
  assert (splice (E:=EncodeError) output 0 (replicate (Z.to_nat sz) 0) = Ok (replicate (Z.to_nat sz) 0 ++ drop (Z.to_nat sz) output)) as ->.
  { apply or_panic_Ok, put_range_Some. rewrite length_replicate. split_and!; [done|lia|]. by rewrite Z.add_0_l, Nat2Z.id. }
  assert (splice (E:=EncodeError) (replicate (Z.to_nat sz) 0) 0 (replicate (Z.to_nat sz) 0) = Ok (replicate (Z.to_nat sz) 0)) as Hs.
  { apply or_panic_Ok, put_range_Some. rewrite length_replicate. split_and!; [done|lia|]. rewrite drop_ge; [by rewrite app_nil_r|]. rewrite length_replicate. lia. }
  rewrite Hs in H. clear Hs. cbn [res_bind] in *.
  repeat match goal with H : res_bind _ _ = Ok _ |- _ => apply res_bind_Ok in H as (? & ? & H) end.
  written_before (drop (Z.to_nat sz) output). done.
Qed.

Lemma put_from_app t values : forall w offset w', put_from w offset values = Ok w' -> put_from (w ++ t) offset values = Ok (w' ++ t).
Proof.
  induction values as [|v values IH]; intros w offset w' H; cbn [put_from] in *; [by injection H as <-|].
  apply res_bind_Ok in H as (? & ? & H). written_before t. by apply IH.
Qed.

(** In the front of any buffer with room for it. *)
Lemma wrcn_written_in m output : valid m -> wire_size m <= len output ->
  encode m output = Ok (wire_size m, render (layout m) ++ drop (Z.to_nat (wire_size m)) output).
Proof.
  intros Hv Ho. pose proof (wrcn_written m Hv) as H. revert H. set (t := drop (Z.to_nat (wire_size m)) output).
  destruct m as [h|h s|h c]; cbn [encode wire_size] in *; unfold encode_query, encode_snapshot, encode_error; intros H.
  all: try (destruct Hv as [_ Hs]; rewrite Hs in *; cbn [res_bind] in * ).
  all: repeat match goal with H : res_bind _ _ = Ok (_, _) |- _ => apply res_bind_Ok in H as (? & ? & H) end.
  all: match goal with H : encode_header _ _ ?sz _ = Ok _ |- _ => apply (header_run _ _ sz output) in H; [rewrite H; clear H; fold t|done|done] end.
  all: cbn [res_bind]; written_before t.
  all: try match goal with H : put_from _ _ _ = Ok _ |- _ => apply (put_from_app t) in H; rewrite H; clear H end; written_before t.
  all: match type of H with Ok (_, ?x) = Ok (_, ?y) => assert (x = y) as -> by congruence end; done.
Qed.

(** What the writers do in all cases. *)
Lemma wrcn_encode_cases m output :
  match encode m output with
  | Ok (n, w) => valid m /\ n = wire_size m /\ n <= len output /\ w = render (layout m) ++ drop (Z.to_nat n) output
  | Err _ => ~ valid m \/ len output < wire_size m
  | Panic => False
  end.
Proof.
  destruct (decide (wire_size m <= len output)) as [Ho|Ho].
  - destruct (header_valid (header_of m)) eqn:Hh.
    + destruct m as [h|h s|h c]; [rewrite wrcn_written_in by done; by split_and!| |rewrite wrcn_written_in by done; by split_and!].
      destruct (validate s) as [[]|e|] eqn:Hv; [rewrite wrcn_written_in by done; by split_and!| |by apply validate_total in Hv].
      cbn [encode]. unfold encode_snapshot. rewrite Hv. left. intros [_ H]. cbn in H. congruence.
    + assert (exists e, encode m output = Err e) as [e ->]; [|left; intros [H _]; congruence].
      destruct m as [h|h s|h c]; cbn [encode header_of] in *; unfold encode_query, encode_snapshot, encode_error, encode_header; rewrite Hh.
      1,3: by eexists. destruct (validate s) as [[]|e|] eqn:Hv; [by eexists..|by apply validate_total in Hv].
  - assert (exists e, encode m output = Err e) as [e ->]; [|right; lia].
    destruct m as [h|h s|h c]; cbn [encode wire_size] in *; unfold encode_query, encode_snapshot, encode_error, encode_header;
      rewrite (proj2 (Z.ltb_lt _ _)) by lia; destruct (negb (header_valid h)); try by eexists.
    all: destruct (validate s) as [[]|e|] eqn:Hv; [by eexists..|by apply validate_total in Hv].
Qed.

(** ** Reading *)

Lemma parse_state_Ok v s : parse_state v = Ok s <-> v = state_number s.
Proof. split; [|intros ->; by destruct s]. unfold parse_state. intros H. record_cases; done. Qed.
Lemma parse_last_failure_Ok v f : parse_last_failure v = Ok f <-> v = failure_number f.
Proof. split; [|intros ->; by destruct f]. unfold parse_last_failure. intros H. record_cases; done. Qed.
Lemma parse_code_Ok v c : parse_code v = Ok c <-> v = code_number c.
Proof. split; [|intros ->; by destruct c]. unfold parse_code. intros H. record_cases; done. Qed.
Lemma map_err_Ok {E F A} (f : E -> F) (c : res E A) a : map_err f c = Ok a <-> c = Ok a.
Proof. destruct c; cbn; split; congruence. Qed.

Lemma wrcn_sound bytes handles m : bytes_ok bytes -> decode bytes handles = Ok m ->
  handles = 0 /\ valid m /\ Forall field_ok (layout m) /\ bytes = render (layout m).
Proof.
  intros Hb H. unfold decode, parse_header, slice, get16, get32, get64 in H. record_cases.
  all: repeat match goal with
    | H : parse_state _ = Ok _ |- _ => apply parse_state_Ok in H
    | H : parse_last_failure _ = Ok _ |- _ => apply parse_last_failure_Ok in H
    | H : parse_code _ = Ok _ |- _ => apply parse_code_Ok in H
    | H : map_err _ (validate _) = Ok ?u |- _ => destruct u; apply map_err_Ok in H
    end; subst; split; [done|]; split; [by split|].
  all: read_back; apply Nat2Z.inj; rewrite wrcn_size; assumption.
Qed.

Lemma wrcn_complete m : valid m -> Forall field_ok (layout m) -> decode (render (layout m)) 0 = Ok m.
Proof.
  intros [Hh Hv] Hok. pose proof (length_render (layout m)) as Hl. assert (len (render (layout m)) = wire_size m) as Hs by (by rewrite Hl, wrcn_size).
  clear Hl. unfold decode, parse_header, slice, get16, get32, get64. revert Hs.
  assert (negb (header_valid (header_of m)) = false) as Hn by (by rewrite Hh).
  destruct m as [[t c g]|[t c g] s|[t c g] code]; cbn [header_of wire_size] in *; unfold layout, head_of, snapshot_fields in Hok |- *; cbn [app transaction_id console_generation status_generation] in Hok |- *; known_fields; intros Hs; rewrite Hs.
  - accept.
  - pose proof (proj2 (parse_state_Ok _ _) (eq_refl (state_number (state s)))). pose proof (proj2 (parse_last_failure_Ok _ _) (eq_refl (failure_number (last_failure s)))).
    pose proof (proj2 (map_err_Ok decode_error _ _) Hv). destruct s. accept.
  - pose proof (proj2 (parse_code_Ok _ _) (eq_refl (code_number code))). accept.
Qed.

Lemma parse_header_total bytes handles : parse_header bytes handles <> Panic.
Proof. unfold parse_header, slice, get16, get32, get64. no_panic; bool_prop; unfold HEADER_BYTES in *; lia. Qed.
Lemma parse_header_room bytes handles h : parse_header bytes handles = Ok h -> HEADER_BYTES <= len bytes.
Proof. unfold parse_header. intros H. repeat res_step. bool_prop. lia. Qed.

Lemma wrcn_total bytes handles : decode bytes handles <> Panic.
Proof.
  unfold decode. apply res_bind_not_panic; [apply parse_header_total|]. intros h Hh%parse_header_room.
  unfold get32, get64. no_panic.
  all: try (unfold parse_state, parse_last_failure, parse_code; no_panic).
  all: try (destruct (validate _) eqn:Hv; [done|done|by apply validate_total in Hv]).
  all: repeat record_step; bool_prop; subst; unfold HEADER_BYTES, SNAPSHOT_BYTES, ERROR_BYTES in *; lia.
Qed.

(** ** The status session *)

Inductive SessionCall := Admit (h : Header) | Complete (t : QueryTicket) | Close.
(** Run some calls; the tickets handed out, the latest first. *)
Fixpoint run_session (calls : list SessionCall) (s : StatusSession) (tickets : list QueryTicket) : StatusSession * list QueryTicket :=
  match calls with
  | [] => (s, tickets)
  | Admit h :: calls =>
      match admit_query h s with
      | (s', Ok t) => run_session calls s' (t :: tickets)
      | (s', _) => run_session calls s' tickets
      end
  | Complete t :: calls => run_session calls (complete t s).1 tickets
  | Close :: calls => run_session calls (close s).1 tickets
  end.

Definition ticket_id (t : QueryTicket) : Z := transaction_id (ticket_header t).
Definition ticket_of (r : Relationship) (t : QueryTicket) : Prop :=
  console_generation (ticket_header t) = rel_console_generation r /\ status_generation (ticket_header t) = rel_status_generation r.

Record session_inv (r : Relationship) (s : StatusSession) (tickets : list QueryTicket) : Prop := {
  si_relationship : relationship s = r;
  si_tickets : Forall (ticket_of r) tickets;
  si_sorted : StronglySorted (fun a b => ticket_id b < ticket_id a) tickets;
  si_high : Forall (fun t => ticket_id t <= high_water s) tickets;
  (** What is outstanding is the latest ticket. *)
  si_outstanding : forall i, outstanding s = Some i -> is_open s = true /\ exists t, head tickets = Some t /\ ticket_id t = i }.

Lemma admit_keeps r h s tickets : session_inv r s tickets ->
  match admit_query h s with
  | (s', Ok t) => t = mkTicket h /\ is_open s = true /\ outstanding s = None /\ high_water s < transaction_id h /\ session_inv r s' (t :: tickets)
  | (s', Err _) => session_inv r s' tickets
  | (_, Panic) => False
  end.
Proof.
  intros [Hr Ht Hs Hh Ho]. unfold admit_query, refuse, gets, modify, throw, mbind, SM_bind, mret, SM_ret.
  destruct (is_open s) eqn:Hop; cbn; [|split; rewrite ?Hop; assumption]. destruct (Z.leb_spec (transaction_id h) (high_water s)) as [|Hnew]; cbn; [split; rewrite ?Hop; assumption|].
  assert (Forall (fun t => ticket_id t <= transaction_id h) tickets) as Hh' by (eapply Forall_impl; [exact Hh|]; intros t; cbn; lia).
  destruct (negb _ || negb _) eqn:Hg; cbn; [split; cbn; try assumption; rewrite ?Hop; assumption|].
  apply orb_false_iff in Hg as [Hc Hst]. bool_prop. case_bool_decide as Hn; cbn; [split; cbn; try assumption; rewrite ?Hop; assumption|].
  split; [done|]. split; [done|]. split; [by destruct (outstanding s); [destruct Hn|]|]. split; [done|]. split; cbn; try done.
  - constructor; [|done]. by rewrite Hr in *.
  - constructor; [done|]. eapply Forall_impl; [exact Hh|]. intros t. unfold ticket_id. cbn. lia.
  - constructor; [unfold ticket_id; cbn; lia|done].
  - intros i [= <-]. split; [done|]. by eexists.
Qed.

Lemma complete_keeps r t s tickets : session_inv r s tickets ->
  match complete t s with
  | (s', Ok _) => outstanding s = Some (ticket_id t) /\ session_inv r s' tickets
  | (s', Err _) => s' = s
  | (_, Panic) => False
  end.
Proof.
  intros [Hr Ht Hs Hh Ho]. unfold complete, refuse, gets, modify, throw, mbind, SM_bind, mret, SM_ret.
  destruct (negb _ || negb _) eqn:Hg; [done|]. bool_prop. split; [done|]. by split.
Qed.

Lemma close_keeps r s tickets : session_inv r s tickets -> session_inv r (close s).1 tickets.
Proof. intros [Hr Ht Hs Hh Ho]. by split. Qed.

Lemma session_run_keeps r calls : forall s tickets, session_inv r s tickets ->
  let '(s', tickets') := run_session calls s tickets in session_inv r s' tickets' /\ (is_open s = false -> is_open s' = false /\ tickets' = tickets).
Proof.
  induction calls as [|[h|t|] calls IH]; intros s tickets Hi; cbn [run_session]; [done| | |].
  - pose proof (admit_keeps r h s tickets Hi) as Ha. destruct (admit_query h s) as [s' [t|e|]] eqn:Hrun; [| |done].
    + destruct Ha as (_ & Hop & _ & _ & Hi'). specialize (IH _ _ Hi'). destruct (run_session calls s' _). destruct IH as [? _]. split; [done|congruence].
    + specialize (IH _ _ Ha). destruct (run_session calls s' tickets). destruct IH as [? IH]. split; [done|]. intros Hc. apply IH.
      unfold admit_query, gets, refuse, throw, mbind, SM_bind in Hrun. rewrite Hc in Hrun. cbn in Hrun. by injection Hrun as <- _.
  - pose proof (complete_keeps r t s tickets Hi) as Ha. destruct (complete t s) as [s' [u|e|]] eqn:Hrun; [|subst s'|done].
    + destruct Ha as [Hout Hi']. specialize (IH _ _ Hi'). cbn. destruct (run_session calls s' tickets). destruct IH as [? _]. split; [done|].
      destruct Hi. apply si_outstanding0 in Hout as [? _]. congruence.
    + cbn. by apply IH.
  - pose proof (close_keeps r s tickets Hi) as Hi'. specialize (IH _ _ Hi'). destruct (run_session calls _ tickets). destruct IH as [? IH]. split; [done|].
    intros _. by apply IH.
Qed.

(** C19: the console status protocol has one spelling for each message and one answer for
    each query.  A writer succeeds exactly when the message is valid (nonzero header, a
    snapshot that passes its own check) and the buffer has room, writes the layout of
    the message into its front and leaves the rest alone; the reader accepts exactly
    those bytes, without handles, and returns the message; neither panics.  In a
    session, whatever is asked in whatever order, the tickets given out carry the
    generations of the relationship and strictly increasing transaction ids, so that
    none is given twice; a query is admitted only while the session is open and no
    other is outstanding; completing needs the outstanding ticket; and once closed it
    stays closed and gives out nothing. *)
Theorem console_protocol_exact :
  (forall m output,
    match encode m output with
    | Ok (n, w) => valid m /\ n = wire_size m /\ n <= len output /\ w = render (layout m) ++ drop (Z.to_nat n) output
    | Err _ => ~ valid m \/ len output < wire_size m
    | Panic => False
    end) /\
  (forall bytes handles m, bytes_ok bytes ->
    decode bytes handles = Ok m <-> handles = 0 /\ valid m /\ Forall field_ok (layout m) /\ bytes = render (layout m)) /\
  (forall bytes handles, decode bytes handles <> Panic) /\
  (forall r s calls, session_new r = Ok s ->
    let '(s', tickets) := run_session calls s [] in
    Forall (ticket_of r) tickets /\ StronglySorted (fun a b => ticket_id b < ticket_id a) tickets /\
    (forall h s'' t, admit_query h s' = (s'', Ok t) -> t = mkTicket h /\ is_open s' = true /\ outstanding s' = None /\ high_water s' < transaction_id h) /\
    (forall t s'', complete t s' = (s'', Ok tt) -> exists t', head tickets = Some t' /\ ticket_id t' = ticket_id t) /\
    (is_open s' = false -> forall more, (run_session more s' tickets).2 = tickets)).
Proof.
  split_and!.
  - apply wrcn_encode_cases.
  - intros bytes handles m Hb. split; [by apply wrcn_sound|]. intros (-> & Hv & Hok & ->). by apply wrcn_complete.
  - apply wrcn_total.
  - intros r s calls Hn. assert (session_inv r s []) as Hi.
    { unfold session_new in Hn. destruct (negb _); [done|]. injection Hn as <-. split; try done; by constructor. }
    pose proof (session_run_keeps r calls s [] Hi) as Hr. destruct (run_session calls s []) as [s' tickets]. destruct Hr as [Hi' _].
    split_and!; [by destruct Hi'|by destruct Hi'| | |].
    + intros h s'' t Ha. pose proof (admit_keeps r h s' tickets Hi') as Hk. rewrite Ha in Hk. by destruct Hk as (? & ? & ? & ? & _).
    + intros t s'' Hc. pose proof (complete_keeps r t s' tickets Hi') as Hk. rewrite Hc in Hk. destruct Hk as [Ho _].
      destruct Hi'. by apply si_outstanding0 in Ho as [_ ?].
    + intros Hop more. pose proof (session_run_keeps r more s' tickets Hi') as Hm. destruct (run_session more s' tickets). cbn.
      destruct Hm as [_ Hm]. by destruct (Hm Hop) as [_ ?].
Qed.

(** A query answered with an error record, then a replay. *)
Lemma console_protocol_exact_witness :
  decode (render (layout (ErrorOf (mkHeader 7 11 13) Replay))) 0 = Ok (ErrorOf (mkHeader 7 11 13) Replay) /\
  exists tickets, run_session [Admit (mkHeader 7 11 13); Complete (mkTicket (mkHeader 7 11 13)); Admit (mkHeader 7 11 13); Admit (mkHeader 8 11 13)]
    (mkSession (mkRelationship 11 13 1 1) 0 None true) [] = tickets /\ length tickets.2 = 2%nat.
Proof.
  split.
  - apply (proj1 (proj2 console_protocol_exact)); [by vm_compute; repeat constructor|]. split_and!; [done|by split|by repeat constructor|done].
  - eexists. split; [reflexivity|]. reflexivity.
Defined.
