(* ===== verification/Console.v ===== *)
(** * The console's core (userspace/consoled/src/lib.rs)

    Connection, child and launch state, the three staging queues with their newline
    transforms, reservations, restart windows and the status snapshot of the serial
    console.  Arrays of three are [Three]; the normalizers are their one flag. *)

From Stdlib Require Import String.
From stdpp Require Import base tactics option list list_numbers.
From Stdlib Require Import ZArith Lia.
From S2P Require Import Prelude Bytes Layout StateM ConsoleProto.

Module Console.

Definition STAGING_CAPACITY : Z := 4096.
Definition FAIR_SOURCE_BYTES_PER_TURN : Z := 1024.
Definition RESTART_WINDOW_MILLIS : Z := 60000.
Definition STABLE_RUN_MILLIS : Z := 60000.
Definition SERIAL_RETRY_BACKOFF_MILLIS : Z := 25.
Definition MAX_FAILURES_PER_WINDOW : Z := 4.

(** ** Helpers of the native process *)

Inductive ReleaseWitnessEvent := Released | Malformed.
Definition classify_release_witness (readable peer_closed : bool) : ReleaseWitnessEvent :=
  if negb readable && peer_closed then Released else Malformed.

(** [close] is the caller's, with its own state. *)
Definition release_raw_then_witness {W H} (raw : H) (witness : option H) (close : H -> W -> W * bool) (w : W) : W * bool :=
  let '(w, raw_closed) := close raw w in
  let '(w, witness_closed) := match witness with Some witness => close witness w | None => (w, true) end in
  (w, raw_closed && witness_closed).

Definition cleanup_after_event_loop_failure {S C} (serial : S) (child : C)
    (close_serial retire_watch : S -> S * bool) (close_child : C -> C * bool) : S * C * bool :=
  let '(serial, serial_closed) := close_serial serial in
  let '(serial, watch_retired) := retire_watch serial in
  let '(child, child_closed) := close_child child in
  (serial, child, serial_closed && watch_retired && child_closed).

Inductive ChildPolicy := ConsoleEcho | Wyrmsh.
(** [ChildPolicy::selected]; the build says whether the feature is on. *)
Definition selected (wyr1e_wyrmsh : bool) : ChildPolicy := if wyr1e_wyrmsh then Wyrmsh else ConsoleEcho.
Definition path (p : ChildPolicy) : list Z :=
  match p with ConsoleEcho => literal "bin/console-echo" | Wyrmsh => ConsoleProto.SHELL_PATH end.

(** ** Data *)

Inductive ModelError :=
| ZeroCorrelation | StaleCorrelation | WrongConnectionState | NoChild | IncompleteCleanup | AlreadyReserved
| UnknownReservation | Backpressure | TooLarge | MonotonicRegression | ArithmeticOverflow | RestartExhausted
| SerialDisconnected | ChildDisconnected | WrongDirection.
Inductive ConnectionState := Active | RetiringChild | AwaitingReap | Reconnecting | Exhausted | FailClosed.
Inductive OutputSource := Stdout | Stderr.
Inductive StreamKind := Stdin | StdoutStream | StderrStream.

Abbreviation result := (res ModelError).

(** [[T; 3]] *)
Record Three (T : Type) := mk3 { third0 : T; third1 : T; third2 : T }.
#[global] Arguments mk3 {T}.
#[global] Arguments third0 {T}.
#[global] Arguments third1 {T}.
#[global] Arguments third2 {T}.
(** [array[kind.index()]], and an assignment to it *)
Definition at_kind {T} (a : Three T) (k : StreamKind) : T :=
  match k with Stdin => third0 a | StdoutStream => third1 a | StderrStream => third2 a end.
Definition set_kind {T} (k : StreamKind) (x : T) (a : Three T) : Three T :=
  match k with
  | Stdin => mk3 x (third1 a) (third2 a) | StdoutStream => mk3 (third0 a) x (third2 a) | StderrStream => mk3 (third0 a) (third1 a) x
  end.
Definition list_of {T} (a : Three T) : list T := [third0 a; third1 a; third2 a].

Record SerialCorrelation := mkSerial {
  sc_registry_generation : Z;
  sc_registry_endpoint_id : Z;
  sc_registry_endpoint_generation : Z;
  sc_publication_generation : Z;
  sc_connector_client_transaction : Z;
  sc_device_role : Z;
  sc_device_bundle : Z;
  sc_driver_attempt : Z;
  sc_driver_control_endpoint_id : Z;
  sc_driver_control_endpoint_generation : Z;
  sc_attach_transaction : Z;
  sc_stream_generation : Z }.

(** [SerialCorrelation::connected] *)
Definition connected (c : SerialCorrelation) : bool :=
  negb (sc_registry_generation c =? 0) && negb (sc_registry_endpoint_id c =? 0)
  && negb (sc_registry_endpoint_generation c =? 0) && negb (sc_publication_generation c =? 0)
  && negb (sc_connector_client_transaction c =? 0) && negb (sc_device_role c =? 0) && negb (sc_device_bundle c =? 0)
  && negb (sc_driver_attempt c =? 0) && negb (sc_driver_control_endpoint_id c =? 0)
  && negb (sc_driver_control_endpoint_generation c =? 0) && negb (sc_attach_transaction c =? 0)
  && negb (sc_stream_generation c =? 0).

Definition valid_transition_from (c previous : SerialCorrelation) : bool :=
  if negb (sc_registry_generation c =? sc_registry_generation previous)
     || negb (sc_registry_endpoint_id c =? sc_registry_endpoint_id previous)
     || negb (sc_registry_endpoint_generation c =? sc_registry_endpoint_generation previous)
     || negb (sc_device_role c =? sc_device_role previous)
     || (sc_connector_client_transaction c <=? sc_connector_client_transaction previous)
  then false
  else if sc_publication_generation c =? sc_publication_generation previous then
    (sc_device_bundle c =? sc_device_bundle previous) && (sc_driver_attempt c =? sc_driver_attempt previous)
    && (sc_driver_control_endpoint_id c =? sc_driver_control_endpoint_id previous)
    && (sc_driver_control_endpoint_generation c =? sc_driver_control_endpoint_generation previous)
    && (sc_attach_transaction previous <? sc_attach_transaction c) && (sc_stream_generation previous <? sc_stream_generation c)
  else
    (sc_publication_generation previous <? sc_publication_generation c) && (sc_driver_attempt previous <? sc_driver_attempt c)
    && negb ((sc_driver_control_endpoint_id c =? sc_driver_control_endpoint_id previous)
             && (sc_driver_control_endpoint_generation c =? sc_driver_control_endpoint_generation previous))
    && (sc_attach_transaction previous <? sc_attach_transaction c) && (sc_stream_generation previous <? sc_stream_generation c)
    && (sc_device_bundle previous <=? sc_device_bundle c).

Record ConnectRequest := mkConnect {
  cr_registry_generation : Z; cr_registry_endpoint_id : Z; cr_registry_endpoint_generation : Z;
  cr_requested_publication_generation : Z; cr_connector_client_transaction : Z }.
(** [ConnectRequest::valid] and [ConnectRequest::matches] *)
Definition connect_valid (r : ConnectRequest) : bool :=
  negb (cr_registry_generation r =? 0) && negb (cr_registry_endpoint_id r =? 0)
  && negb (cr_registry_endpoint_generation r =? 0) && negb (cr_requested_publication_generation r =? 0)
  && negb (cr_connector_client_transaction r =? 0).
Definition connect_matches (r : ConnectRequest) (c : SerialCorrelation) : bool :=
  (cr_registry_generation r =? sc_registry_generation c) && (cr_registry_endpoint_id r =? sc_registry_endpoint_id c)
  && (cr_registry_endpoint_generation r =? sc_registry_endpoint_generation c)
  && (cr_requested_publication_generation r =? sc_publication_generation c)
  && (cr_connector_client_transaction r =? sc_connector_client_transaction c).

Record SessionIds := mkIds {
  id_serial : SerialCorrelation; id_console_generation : Z; id_child_generation : Z; id_child_job : Z; id_child_launch : Z }.
(** [SessionIds::complete] *)
Definition ids_complete (i : SessionIds) : bool :=
  connected (id_serial i) && negb (id_console_generation i =? 0) && negb (id_child_generation i =? 0)
  && negb (id_child_job i =? 0) && negb (id_child_launch i =? 0).

Record EventGeneration := mkEvent {
  ev_serial : SerialCorrelation; ev_console_generation : Z; ev_child_generation : Z; ev_child_job : Z; ev_child_launch : Z }.
(** [EventGeneration::from] *)
Definition event_from (i : SessionIds) : EventGeneration :=
  mkEvent (id_serial i) (id_console_generation i) (id_child_generation i) (id_child_job i) (id_child_launch i).

(** [Endpoint] is its number. *)
Record PeerState := mkPeer { peer_endpoint : Z; peer_live : bool }.
Record ChildSession := mkChild { ids : SessionIds; peers : Three PeerState }.
Definition all_peers_live (c : ChildSession) : bool :=
  peer_live (third0 (peers c)) && peer_live (third1 (peers c)) && peer_live (third2 (peers c)).

Inductive CleanupDisposition := CloseConsoledPeer | CloseUnmovedChildPeer | RevokeMovedChildPeerFromLaunch.
Record EndpointCleanup := mkCleanup { cleanup_endpoint : Z; disposition : CleanupDisposition }.
(** [LaunchCleanup] is its six entries. *)
Definition LaunchCleanup : Type := list EndpointCleanup.

Record LaunchIdentity := mkIdentity {
  li_serial : SerialCorrelation; li_console_generation : Z; li_child_generation : Z; li_child_launch : Z }.
Record LaunchCleanupToken := mkCleanupToken { token_identity : LaunchIdentity; token_cleanup : LaunchCleanup }.
Record LaunchCleanupEvidence := mkEvidence {
  consoled_peers_closed : Three bool; unmoved_child_peers_closed : Three bool; moved_child_peers_revoked : Three bool }.

Record LaunchTransaction := mkTransaction {
  tx_serial : SerialCorrelation; tx_console_generation : Z; tx_child_generation : Z; tx_child_job : Z; tx_child_launch : Z;
  tx_consoled : Three Z; tx_child_peers : Three Z; tx_moved : Three bool; tx_committed : bool }.
Definition identity_of (t : LaunchTransaction) : LaunchIdentity :=
  mkIdentity (tx_serial t) (tx_console_generation t) (tx_child_generation t) (tx_child_launch t).

(** [LaunchTransaction::move_child_peer] *)
Definition move_child_peer (k : StreamKind) (t : LaunchTransaction) : LaunchTransaction * result Z :=
  if tx_committed t || at_kind (tx_moved t) k then (t, Err WrongConnectionState)
  else (mkTransaction (tx_serial t) (tx_console_generation t) (tx_child_generation t) (tx_child_job t) (tx_child_launch t)
          (tx_consoled t) (tx_child_peers t) (set_kind k true (tx_moved t)) (tx_committed t), Ok (at_kind (tx_child_peers t) k)).
Definition all_moved (t : LaunchTransaction) : bool := third0 (tx_moved t) && third1 (tx_moved t) && third2 (tx_moved t).

Definition child_cleanup (moved : bool) : CleanupDisposition :=
  if moved then RevokeMovedChildPeerFromLaunch else CloseUnmovedChildPeer.
Definition abort_cleanup (t : LaunchTransaction) : result LaunchCleanup :=
  reject_if! tx_committed t with WrongConnectionState;;
  Ok [mkCleanup (third0 (tx_consoled t)) CloseConsoledPeer; mkCleanup (third1 (tx_consoled t)) CloseConsoledPeer;
      mkCleanup (third2 (tx_consoled t)) CloseConsoledPeer;
      mkCleanup (third0 (tx_child_peers t)) (child_cleanup (third0 (tx_moved t)));
      mkCleanup (third1 (tx_child_peers t)) (child_cleanup (third1 (tx_moved t)));
      mkCleanup (third2 (tx_child_peers t)) (child_cleanup (third2 (tx_moved t)))].

(** [while index < 6], from [index], [n] rounds to go *)
Fixpoint evidence_from (cleanup : LaunchCleanup) (evidence : LaunchCleanupEvidence) (index : Z) (n : nat) : result bool :=
  match n with
  | O => Ok true
  | S n =>
      let! entry := or_panic (get_at cleanup index) in
      let! satisfied :=
        match disposition entry with
        | CloseConsoledPeer => or_panic (get_at (list_of (consoled_peers_closed evidence)) index)
        | CloseUnmovedChildPeer =>
            let! i := minus index 3 in or_panic (get_at (list_of (unmoved_child_peers_closed evidence)) i)
        | RevokeMovedChildPeerFromLaunch =>
            let! i := minus index 3 in or_panic (get_at (list_of (moved_child_peers_revoked evidence)) i)
        end in
      if negb satisfied then Ok false else evidence_from cleanup evidence (index + 1) n
  end.
Definition evidence_matches_cleanup (cleanup : LaunchCleanup) (evidence : LaunchCleanupEvidence) : result bool :=
  evidence_from cleanup evidence 0 6.

(** ** The staging queue *)

Record BoundedQueue := mkQueue { q_bytes : list Z; q_head : Z; q_len : Z }.
Definition queue_new : BoundedQueue := mkQueue (replicate (Z.to_nat STAGING_CAPACITY) 0) 0 0.
Definition queue_is_empty (q : BoundedQueue) : bool := q_len q =? 0.
Definition queue_available (q : BoundedQueue) : result Z := minus STAGING_CAPACITY (q_len q).

(** [push], which does not look at the capacity *)
Fixpoint queue_push (source : list Z) (q : BoundedQueue) : result BoundedQueue :=
  match source with
  | [] => Ok q
  | byte :: source =>
      let! position := plus (q_head q) (q_len q) in
      let! bytes := or_panic (put_range (q_bytes q) (position mod STAGING_CAPACITY) [byte]) in
      let! count := plus (q_len q) 1 in
      queue_push source (mkQueue bytes (q_head q) count)
  end.

(** The loop of [copy_prefix]: [n] bytes from [index] on *)
Fixpoint queue_copy (q : BoundedQueue) (index : Z) (n : nat) : result (list Z) :=
  match n with
  | O => Ok []
  | S n =>
      let! position := plus (q_head q) index in
      let! byte := or_panic (get_at (q_bytes q) (position mod STAGING_CAPACITY)) in
      let! rest := queue_copy q (index + 1) n in
      Ok (byte :: rest)
  end.
(** The count, and the destination *)
Definition copy_prefix (q : BoundedQueue) (destination : list Z) (maximum : Z) : result (Z * list Z) :=
  let count := Z.min (Z.min (len destination) maximum) (q_len q) in
  let! copied := queue_copy q 0 (Z.to_nat count) in
  let! destination := splice destination 0 copied in
  Ok (count, destination).
Definition queue_consume (count : Z) (q : BoundedQueue) : result BoundedQueue :=
  let! next := plus (q_head q) count in
  let! rest := minus (q_len q) count in
  Ok (mkQueue (q_bytes q) (next mod STAGING_CAPACITY) rest).
Definition queue_clear (q : BoundedQueue) : BoundedQueue := mkQueue (q_bytes q) 0 0.

(** ** Newline transforms *)

Definition CR : Z := 13.
Definition LF : Z := 10.

(** [InputNormalizer::output_len] *)
Fixpoint input_len (suppress : bool) (input : list Z) : Z :=
  match input with
  | [] => 0
  | byte :: input => if suppress && (byte =? LF) then input_len false input else 1 + input_len (byte =? CR) input
  end.
(** The loop of [InputNormalizer::stage] *)
Fixpoint input_loop (input : list Z) (suppress_lf_after_cr : bool) (q : BoundedQueue) : result (bool * BoundedQueue) :=
  match input with
  | [] => Ok (suppress_lf_after_cr, q)
  | byte :: input =>
      if suppress_lf_after_cr && (byte =? LF) then input_loop input false q
      else if byte =? CR then let! q := queue_push [LF] q in input_loop input true q
      else let! q := queue_push [byte] q in input_loop input false q
  end.
Definition input_stage (input : list Z) (suppress_lf_after_cr : bool) (q : BoundedQueue) : result (bool * BoundedQueue) :=
  reject_if! FAIR_SOURCE_BYTES_PER_TURN <? len input with TooLarge;;
  let! available := queue_available q in
  reject_if! available <? input_len suppress_lf_after_cr input with Backpressure;;
  input_loop input suppress_lf_after_cr q.

(** [OutputNormalizer::output_len] *)
Fixpoint output_len (previous : bool) (input : list Z) : Z :=
  match input with
  | [] => 0
  | byte :: input => (if (byte =? LF) && negb previous then 2 else 1) + output_len (byte =? CR) input
  end.
Fixpoint output_loop (input : list Z) (previous_was_cr : bool) (q : BoundedQueue) : result (bool * BoundedQueue) :=
  match input with
  | [] => Ok (previous_was_cr, q)
  | byte :: input =>
      let! q := (if (byte =? LF) && negb previous_was_cr then queue_push [CR] q else Ok q) in
      let! q := queue_push [byte] q in
      output_loop input (byte =? CR) q
  end.
Definition output_stage (input : list Z) (previous_was_cr : bool) (q : BoundedQueue) : result (bool * BoundedQueue) :=
  reject_if! FAIR_SOURCE_BYTES_PER_TURN <? len input with TooLarge;;
  let! available := queue_available q in
  reject_if! available <? output_len previous_was_cr input with Backpressure;;
  output_loop input previous_was_cr q.

(** ** Restart windows *)

Inductive RecoveryAction :=
| NoAction | TerminateChild (job : Z) | ReapChild (job : Z) | ReplaceChild | RetrySerialAt (when : Z) | Escalate.

(** [times] has four places. *)
Record RestartWindow := mkWindow { times : list Z; w_len : Z }.
Definition window_new : RestartWindow := mkWindow (replicate (Z.to_nat MAX_FAILURES_PER_WINDOW) 0) 0.
Definition failures (w : RestartWindow) : Z := w_len w.

(** [while index < self.len], [n] rounds to go: the times and how many are kept *)
Fixpoint window_keep (now : Z) (times : list Z) (index kept : Z) (n : nat) : result (list Z * Z) :=
  match n with
  | O => Ok (times, kept)
  | S n =>
      let! time := or_panic (get_at times index) in
      let! age := minus now time in
      if age <? RESTART_WINDOW_MILLIS then
        let! times := or_panic (put_range times kept [time]) in
        window_keep now times (index + 1) (kept + 1) n
      else window_keep now times (index + 1) kept n
  end.
Definition window_add (now : Z) (w : RestartWindow) : result (RestartWindow * bool) :=
  let! '(times, kept) := window_keep now (times w) 0 0 (Z.to_nat (w_len w)) in
  let! w :=
    (if kept <? MAX_FAILURES_PER_WINDOW then
       let! times := or_panic (put_range times kept [now]) in
       Ok (mkWindow times (kept + 1))
     else Ok (mkWindow times kept)) in
  Ok (w, MAX_FAILURES_PER_WINDOW <=? w_len w).
Definition window_clear (w : RestartWindow) : RestartWindow := mkWindow (times w) 0.

Record ReadyToken := mkReady { ready_ids : SessionIds; ready_peers : Three Z }.
Record Reservation := mkReservation {
  res_token : Z; res_source : option OutputSource; res_length : Z; res_event : EventGeneration }.

#[global] Instance error_eq_dec : EqDecision ModelError.
Proof. solve_decision. Defined.
#[global] Instance connection_eq_dec : EqDecision ConnectionState.
Proof. solve_decision. Defined.
#[global] Instance source_eq_dec : EqDecision OutputSource.
Proof. solve_decision. Defined.
#[global] Instance serial_eq_dec : EqDecision SerialCorrelation.
Proof. solve_decision. Defined.
#[global] Instance connect_eq_dec : EqDecision ConnectRequest.
Proof. solve_decision. Defined.
#[global] Instance ids_eq_dec : EqDecision SessionIds.
Proof. solve_decision. Defined.
#[global] Instance event_eq_dec : EqDecision EventGeneration.
Proof. solve_decision. Defined.
#[global] Instance identity_eq_dec : EqDecision LaunchIdentity.
Proof. solve_decision. Defined.
#[global] Instance three_eq_dec {T} `{EqDecision T} : EqDecision (Three T).
Proof. solve_decision. Defined.
#[global] Instance ready_eq_dec : EqDecision ReadyToken.
Proof. solve_decision. Defined.
#[global] Instance reservation_eq_dec : EqDecision Reservation.
Proof. solve_decision. Defined.

(** ** The model *)

Record C := mkC {
  state : ConnectionState;
  serial : option SerialCorrelation;
  last_serial : option SerialCorrelation;
  console_generation : option Z;
  child : option ChildSession;
  input : BoundedQueue;
  stdout : BoundedQueue;
  stderr : BoundedQueue;
  input_normalizer : bool;
  stdout_normalizer : bool;
  stderr_normalizer : bool;
  next_output : OutputSource;
  pending_stdin : option Reservation;
  pending_tx : option Reservation;
  pending_launch : option LaunchIdentity;
  pending_launch_cleanup : option LaunchIdentity;
  pending_connect : option ConnectRequest;
  child_window : RestartWindow;
  serial_window : RestartWindow;
  stable : option (ReadyToken * Z);
  ready_observed : option EventGeneration;
  serial_cleanup : bool;
  serial_invalidated : bool;
  child_exhausted : bool;
  serial_exhausted : bool;
  is_terminated : bool;
  is_reaped : bool;
  child_failure_at : option Z;
  last_now : option Z;
  next_generation : Z;
  next_endpoint : Z;
  next_reservation : Z;
  last_failure : option ModelError;
  pending_recovery : option RecoveryAction }.

(** Field updates *)
Definition set_state x c := mkC x (serial c) (last_serial c) (console_generation c) (child c) (input c) (stdout c) (stderr c) (input_normalizer c) (stdout_normalizer c) (stderr_normalizer c) (next_output c) (pending_stdin c) (pending_tx c) (pending_launch c) (pending_launch_cleanup c) (pending_connect c) (child_window c) (serial_window c) (stable c) (ready_observed c) (serial_cleanup c) (serial_invalidated c) (child_exhausted c) (serial_exhausted c) (is_terminated c) (is_reaped c) (child_failure_at c) (last_now c) (next_generation c) (next_endpoint c) (next_reservation c) (last_failure c) (pending_recovery c).
Definition set_serial x c := mkC (state c) x (last_serial c) (console_generation c) (child c) (input c) (stdout c) (stderr c) (input_normalizer c) (stdout_normalizer c) (stderr_normalizer c) (next_output c) (pending_stdin c) (pending_tx c) (pending_launch c) (pending_launch_cleanup c) (pending_connect c) (child_window c) (serial_window c) (stable c) (ready_observed c) (serial_cleanup c) (serial_invalidated c) (child_exhausted c) (serial_exhausted c) (is_terminated c) (is_reaped c) (child_failure_at c) (last_now c) (next_generation c) (next_endpoint c) (next_reservation c) (last_failure c) (pending_recovery c).
Definition set_last_serial x c := mkC (state c) (serial c) x (console_generation c) (child c) (input c) (stdout c) (stderr c) (input_normalizer c) (stdout_normalizer c) (stderr_normalizer c) (next_output c) (pending_stdin c) (pending_tx c) (pending_launch c) (pending_launch_cleanup c) (pending_connect c) (child_window c) (serial_window c) (stable c) (ready_observed c) (serial_cleanup c) (serial_invalidated c) (child_exhausted c) (serial_exhausted c) (is_terminated c) (is_reaped c) (child_failure_at c) (last_now c) (next_generation c) (next_endpoint c) (next_reservation c) (last_failure c) (pending_recovery c).
Definition set_console_generation x c := mkC (state c) (serial c) (last_serial c) x (child c) (input c) (stdout c) (stderr c) (input_normalizer c) (stdout_normalizer c) (stderr_normalizer c) (next_output c) (pending_stdin c) (pending_tx c) (pending_launch c) (pending_launch_cleanup c) (pending_connect c) (child_window c) (serial_window c) (stable c) (ready_observed c) (serial_cleanup c) (serial_invalidated c) (child_exhausted c) (serial_exhausted c) (is_terminated c) (is_reaped c) (child_failure_at c) (last_now c) (next_generation c) (next_endpoint c) (next_reservation c) (last_failure c) (pending_recovery c).
Definition set_child x c := mkC (state c) (serial c) (last_serial c) (console_generation c) x (input c) (stdout c) (stderr c) (input_normalizer c) (stdout_normalizer c) (stderr_normalizer c) (next_output c) (pending_stdin c) (pending_tx c) (pending_launch c) (pending_launch_cleanup c) (pending_connect c) (child_window c) (serial_window c) (stable c) (ready_observed c) (serial_cleanup c) (serial_invalidated c) (child_exhausted c) (serial_exhausted c) (is_terminated c) (is_reaped c) (child_failure_at c) (last_now c) (next_generation c) (next_endpoint c) (next_reservation c) (last_failure c) (pending_recovery c).
Definition set_input x c := mkC (state c) (serial c) (last_serial c) (console_generation c) (child c) x (stdout c) (stderr c) (input_normalizer c) (stdout_normalizer c) (stderr_normalizer c) (next_output c) (pending_stdin c) (pending_tx c) (pending_launch c) (pending_launch_cleanup c) (pending_connect c) (child_window c) (serial_window c) (stable c) (ready_observed c) (serial_cleanup c) (serial_invalidated c) (child_exhausted c) (serial_exhausted c) (is_terminated c) (is_reaped c) (child_failure_at c) (last_now c) (next_generation c) (next_endpoint c) (next_reservation c) (last_failure c) (pending_recovery c).
Definition set_stdout x c := mkC (state c) (serial c) (last_serial c) (console_generation c) (child c) (input c) x (stderr c) (input_normalizer c) (stdout_normalizer c) (stderr_normalizer c) (next_output c) (pending_stdin c) (pending_tx c) (pending_launch c) (pending_launch_cleanup c) (pending_connect c) (child_window c) (serial_window c) (stable c) (ready_observed c) (serial_cleanup c) (serial_invalidated c) (child_exhausted c) (serial_exhausted c) (is_terminated c) (is_reaped c) (child_failure_at c) (last_now c) (next_generation c) (next_endpoint c) (next_reservation c) (last_failure c) (pending_recovery c).
Definition set_stderr x c := mkC (state c) (serial c) (last_serial c) (console_generation c) (child c) (input c) (stdout c) x (input_normalizer c) (stdout_normalizer c) (stderr_normalizer c) (next_output c) (pending_stdin c) (pending_tx c) (pending_launch c) (pending_launch_cleanup c) (pending_connect c) (child_window c) (serial_window c) (stable c) (ready_observed c) (serial_cleanup c) (serial_invalidated c) (child_exhausted c) (serial_exhausted c) (is_terminated c) (is_reaped c) (child_failure_at c) (last_now c) (next_generation c) (next_endpoint c) (next_reservation c) (last_failure c) (pending_recovery c).
Definition set_input_normalizer x c := mkC (state c) (serial c) (last_serial c) (console_generation c) (child c) (input c) (stdout c) (stderr c) x (stdout_normalizer c) (stderr_normalizer c) (next_output c) (pending_stdin c) (pending_tx c) (pending_launch c) (pending_launch_cleanup c) (pending_connect c) (child_window c) (serial_window c) (stable c) (ready_observed c) (serial_cleanup c) (serial_invalidated c) (child_exhausted c) (serial_exhausted c) (is_terminated c) (is_reaped c) (child_failure_at c) (last_now c) (next_generation c) (next_endpoint c) (next_reservation c) (last_failure c) (pending_recovery c).
Definition set_stdout_normalizer x c := mkC (state c) (serial c) (last_serial c) (console_generation c) (child c) (input c) (stdout c) (stderr c) (input_normalizer c) x (stderr_normalizer c) (next_output c) (pending_stdin c) (pending_tx c) (pending_launch c) (pending_launch_cleanup c) (pending_connect c) (child_window c) (serial_window c) (stable c) (ready_observed c) (serial_cleanup c) (serial_invalidated c) (child_exhausted c) (serial_exhausted c) (is_terminated c) (is_reaped c) (child_failure_at c) (last_now c) (next_generation c) (next_endpoint c) (next_reservation c) (last_failure c) (pending_recovery c).
Definition set_stderr_normalizer x c := mkC (state c) (serial c) (last_serial c) (console_generation c) (child c) (input c) (stdout c) (stderr c) (input_normalizer c) (stdout_normalizer c) x (next_output c) (pending_stdin c) (pending_tx c) (pending_launch c) (pending_launch_cleanup c) (pending_connect c) (child_window c) (serial_window c) (stable c) (ready_observed c) (serial_cleanup c) (serial_invalidated c) (child_exhausted c) (serial_exhausted c) (is_terminated c) (is_reaped c) (child_failure_at c) (last_now c) (next_generation c) (next_endpoint c) (next_reservation c) (last_failure c) (pending_recovery c).
Definition set_next_output x c := mkC (state c) (serial c) (last_serial c) (console_generation c) (child c) (input c) (stdout c) (stderr c) (input_normalizer c) (stdout_normalizer c) (stderr_normalizer c) x (pending_stdin c) (pending_tx c) (pending_launch c) (pending_launch_cleanup c) (pending_connect c) (child_window c) (serial_window c) (stable c) (ready_observed c) (serial_cleanup c) (serial_invalidated c) (child_exhausted c) (serial_exhausted c) (is_terminated c) (is_reaped c) (child_failure_at c) (last_now c) (next_generation c) (next_endpoint c) (next_reservation c) (last_failure c) (pending_recovery c).
Definition set_pending_stdin x c := mkC (state c) (serial c) (last_serial c) (console_generation c) (child c) (input c) (stdout c) (stderr c) (input_normalizer c) (stdout_normalizer c) (stderr_normalizer c) (next_output c) x (pending_tx c) (pending_launch c) (pending_launch_cleanup c) (pending_connect c) (child_window c) (serial_window c) (stable c) (ready_observed c) (serial_cleanup c) (serial_invalidated c) (child_exhausted c) (serial_exhausted c) (is_terminated c) (is_reaped c) (child_failure_at c) (last_now c) (next_generation c) (next_endpoint c) (next_reservation c) (last_failure c) (pending_recovery c).
Definition set_pending_tx x c := mkC (state c) (serial c) (last_serial c) (console_generation c) (child c) (input c) (stdout c) (stderr c) (input_normalizer c) (stdout_normalizer c) (stderr_normalizer c) (next_output c) (pending_stdin c) x (pending_launch c) (pending_launch_cleanup c) (pending_connect c) (child_window c) (serial_window c) (stable c) (ready_observed c) (serial_cleanup c) (serial_invalidated c) (child_exhausted c) (serial_exhausted c) (is_terminated c) (is_reaped c) (child_failure_at c) (last_now c) (next_generation c) (next_endpoint c) (next_reservation c) (last_failure c) (pending_recovery c).
Definition set_pending_launch x c := mkC (state c) (serial c) (last_serial c) (console_generation c) (child c) (input c) (stdout c) (stderr c) (input_normalizer c) (stdout_normalizer c) (stderr_normalizer c) (next_output c) (pending_stdin c) (pending_tx c) x (pending_launch_cleanup c) (pending_connect c) (child_window c) (serial_window c) (stable c) (ready_observed c) (serial_cleanup c) (serial_invalidated c) (child_exhausted c) (serial_exhausted c) (is_terminated c) (is_reaped c) (child_failure_at c) (last_now c) (next_generation c) (next_endpoint c) (next_reservation c) (last_failure c) (pending_recovery c).
Definition set_pending_launch_cleanup x c := mkC (state c) (serial c) (last_serial c) (console_generation c) (child c) (input c) (stdout c) (stderr c) (input_normalizer c) (stdout_normalizer c) (stderr_normalizer c) (next_output c) (pending_stdin c) (pending_tx c) (pending_launch c) x (pending_connect c) (child_window c) (serial_window c) (stable c) (ready_observed c) (serial_cleanup c) (serial_invalidated c) (child_exhausted c) (serial_exhausted c) (is_terminated c) (is_reaped c) (child_failure_at c) (last_now c) (next_generation c) (next_endpoint c) (next_reservation c) (last_failure c) (pending_recovery c).
Definition set_pending_connect x c := mkC (state c) (serial c) (last_serial c) (console_generation c) (child c) (input c) (stdout c) (stderr c) (input_normalizer c) (stdout_normalizer c) (stderr_normalizer c) (next_output c) (pending_stdin c) (pending_tx c) (pending_launch c) (pending_launch_cleanup c) x (child_window c) (serial_window c) (stable c) (ready_observed c) (serial_cleanup c) (serial_invalidated c) (child_exhausted c) (serial_exhausted c) (is_terminated c) (is_reaped c) (child_failure_at c) (last_now c) (next_generation c) (next_endpoint c) (next_reservation c) (last_failure c) (pending_recovery c).
Definition set_child_window x c := mkC (state c) (serial c) (last_serial c) (console_generation c) (child c) (input c) (stdout c) (stderr c) (input_normalizer c) (stdout_normalizer c) (stderr_normalizer c) (next_output c) (pending_stdin c) (pending_tx c) (pending_launch c) (pending_launch_cleanup c) (pending_connect c) x (serial_window c) (stable c) (ready_observed c) (serial_cleanup c) (serial_invalidated c) (child_exhausted c) (serial_exhausted c) (is_terminated c) (is_reaped c) (child_failure_at c) (last_now c) (next_generation c) (next_endpoint c) (next_reservation c) (last_failure c) (pending_recovery c).
Definition set_serial_window x c := mkC (state c) (serial c) (last_serial c) (console_generation c) (child c) (input c) (stdout c) (stderr c) (input_normalizer c) (stdout_normalizer c) (stderr_normalizer c) (next_output c) (pending_stdin c) (pending_tx c) (pending_launch c) (pending_launch_cleanup c) (pending_connect c) (child_window c) x (stable c) (ready_observed c) (serial_cleanup c) (serial_invalidated c) (child_exhausted c) (serial_exhausted c) (is_terminated c) (is_reaped c) (child_failure_at c) (last_now c) (next_generation c) (next_endpoint c) (next_reservation c) (last_failure c) (pending_recovery c).
Definition set_stable x c := mkC (state c) (serial c) (last_serial c) (console_generation c) (child c) (input c) (stdout c) (stderr c) (input_normalizer c) (stdout_normalizer c) (stderr_normalizer c) (next_output c) (pending_stdin c) (pending_tx c) (pending_launch c) (pending_launch_cleanup c) (pending_connect c) (child_window c) (serial_window c) x (ready_observed c) (serial_cleanup c) (serial_invalidated c) (child_exhausted c) (serial_exhausted c) (is_terminated c) (is_reaped c) (child_failure_at c) (last_now c) (next_generation c) (next_endpoint c) (next_reservation c) (last_failure c) (pending_recovery c).
Definition set_ready_observed x c := mkC (state c) (serial c) (last_serial c) (console_generation c) (child c) (input c) (stdout c) (stderr c) (input_normalizer c) (stdout_normalizer c) (stderr_normalizer c) (next_output c) (pending_stdin c) (pending_tx c) (pending_launch c) (pending_launch_cleanup c) (pending_connect c) (child_window c) (serial_window c) (stable c) x (serial_cleanup c) (serial_invalidated c) (child_exhausted c) (serial_exhausted c) (is_terminated c) (is_reaped c) (child_failure_at c) (last_now c) (next_generation c) (next_endpoint c) (next_reservation c) (last_failure c) (pending_recovery c).
Definition set_serial_cleanup x c := mkC (state c) (serial c) (last_serial c) (console_generation c) (child c) (input c) (stdout c) (stderr c) (input_normalizer c) (stdout_normalizer c) (stderr_normalizer c) (next_output c) (pending_stdin c) (pending_tx c) (pending_launch c) (pending_launch_cleanup c) (pending_connect c) (child_window c) (serial_window c) (stable c) (ready_observed c) x (serial_invalidated c) (child_exhausted c) (serial_exhausted c) (is_terminated c) (is_reaped c) (child_failure_at c) (last_now c) (next_generation c) (next_endpoint c) (next_reservation c) (last_failure c) (pending_recovery c).
Definition set_serial_invalidated x c := mkC (state c) (serial c) (last_serial c) (console_generation c) (child c) (input c) (stdout c) (stderr c) (input_normalizer c) (stdout_normalizer c) (stderr_normalizer c) (next_output c) (pending_stdin c) (pending_tx c) (pending_launch c) (pending_launch_cleanup c) (pending_connect c) (child_window c) (serial_window c) (stable c) (ready_observed c) (serial_cleanup c) x (child_exhausted c) (serial_exhausted c) (is_terminated c) (is_reaped c) (child_failure_at c) (last_now c) (next_generation c) (next_endpoint c) (next_reservation c) (last_failure c) (pending_recovery c).
Definition set_child_exhausted x c := mkC (state c) (serial c) (last_serial c) (console_generation c) (child c) (input c) (stdout c) (stderr c) (input_normalizer c) (stdout_normalizer c) (stderr_normalizer c) (next_output c) (pending_stdin c) (pending_tx c) (pending_launch c) (pending_launch_cleanup c) (pending_connect c) (child_window c) (serial_window c) (stable c) (ready_observed c) (serial_cleanup c) (serial_invalidated c) x (serial_exhausted c) (is_terminated c) (is_reaped c) (child_failure_at c) (last_now c) (next_generation c) (next_endpoint c) (next_reservation c) (last_failure c) (pending_recovery c).
Definition set_serial_exhausted x c := mkC (state c) (serial c) (last_serial c) (console_generation c) (child c) (input c) (stdout c) (stderr c) (input_normalizer c) (stdout_normalizer c) (stderr_normalizer c) (next_output c) (pending_stdin c) (pending_tx c) (pending_launch c) (pending_launch_cleanup c) (pending_connect c) (child_window c) (serial_window c) (stable c) (ready_observed c) (serial_cleanup c) (serial_invalidated c) (child_exhausted c) x (is_terminated c) (is_reaped c) (child_failure_at c) (last_now c) (next_generation c) (next_endpoint c) (next_reservation c) (last_failure c) (pending_recovery c).
Definition set_is_terminated x c := mkC (state c) (serial c) (last_serial c) (console_generation c) (child c) (input c) (stdout c) (stderr c) (input_normalizer c) (stdout_normalizer c) (stderr_normalizer c) (next_output c) (pending_stdin c) (pending_tx c) (pending_launch c) (pending_launch_cleanup c) (pending_connect c) (child_window c) (serial_window c) (stable c) (ready_observed c) (serial_cleanup c) (serial_invalidated c) (child_exhausted c) (serial_exhausted c) x (is_reaped c) (child_failure_at c) (last_now c) (next_generation c) (next_endpoint c) (next_reservation c) (last_failure c) (pending_recovery c).
Definition set_is_reaped x c := mkC (state c) (serial c) (last_serial c) (console_generation c) (child c) (input c) (stdout c) (stderr c) (input_normalizer c) (stdout_normalizer c) (stderr_normalizer c) (next_output c) (pending_stdin c) (pending_tx c) (pending_launch c) (pending_launch_cleanup c) (pending_connect c) (child_window c) (serial_window c) (stable c) (ready_observed c) (serial_cleanup c) (serial_invalidated c) (child_exhausted c) (serial_exhausted c) (is_terminated c) x (child_failure_at c) (last_now c) (next_generation c) (next_endpoint c) (next_reservation c) (last_failure c) (pending_recovery c).
Definition set_child_failure_at x c := mkC (state c) (serial c) (last_serial c) (console_generation c) (child c) (input c) (stdout c) (stderr c) (input_normalizer c) (stdout_normalizer c) (stderr_normalizer c) (next_output c) (pending_stdin c) (pending_tx c) (pending_launch c) (pending_launch_cleanup c) (pending_connect c) (child_window c) (serial_window c) (stable c) (ready_observed c) (serial_cleanup c) (serial_invalidated c) (child_exhausted c) (serial_exhausted c) (is_terminated c) (is_reaped c) x (last_now c) (next_generation c) (next_endpoint c) (next_reservation c) (last_failure c) (pending_recovery c).
Definition set_last_now x c := mkC (state c) (serial c) (last_serial c) (console_generation c) (child c) (input c) (stdout c) (stderr c) (input_normalizer c) (stdout_normalizer c) (stderr_normalizer c) (next_output c) (pending_stdin c) (pending_tx c) (pending_launch c) (pending_launch_cleanup c) (pending_connect c) (child_window c) (serial_window c) (stable c) (ready_observed c) (serial_cleanup c) (serial_invalidated c) (child_exhausted c) (serial_exhausted c) (is_terminated c) (is_reaped c) (child_failure_at c) x (next_generation c) (next_endpoint c) (next_reservation c) (last_failure c) (pending_recovery c).
Definition set_next_generation x c := mkC (state c) (serial c) (last_serial c) (console_generation c) (child c) (input c) (stdout c) (stderr c) (input_normalizer c) (stdout_normalizer c) (stderr_normalizer c) (next_output c) (pending_stdin c) (pending_tx c) (pending_launch c) (pending_launch_cleanup c) (pending_connect c) (child_window c) (serial_window c) (stable c) (ready_observed c) (serial_cleanup c) (serial_invalidated c) (child_exhausted c) (serial_exhausted c) (is_terminated c) (is_reaped c) (child_failure_at c) (last_now c) x (next_endpoint c) (next_reservation c) (last_failure c) (pending_recovery c).
Definition set_next_endpoint x c := mkC (state c) (serial c) (last_serial c) (console_generation c) (child c) (input c) (stdout c) (stderr c) (input_normalizer c) (stdout_normalizer c) (stderr_normalizer c) (next_output c) (pending_stdin c) (pending_tx c) (pending_launch c) (pending_launch_cleanup c) (pending_connect c) (child_window c) (serial_window c) (stable c) (ready_observed c) (serial_cleanup c) (serial_invalidated c) (child_exhausted c) (serial_exhausted c) (is_terminated c) (is_reaped c) (child_failure_at c) (last_now c) (next_generation c) x (next_reservation c) (last_failure c) (pending_recovery c).
Definition set_next_reservation x c := mkC (state c) (serial c) (last_serial c) (console_generation c) (child c) (input c) (stdout c) (stderr c) (input_normalizer c) (stdout_normalizer c) (stderr_normalizer c) (next_output c) (pending_stdin c) (pending_tx c) (pending_launch c) (pending_launch_cleanup c) (pending_connect c) (child_window c) (serial_window c) (stable c) (ready_observed c) (serial_cleanup c) (serial_invalidated c) (child_exhausted c) (serial_exhausted c) (is_terminated c) (is_reaped c) (child_failure_at c) (last_now c) (next_generation c) (next_endpoint c) x (last_failure c) (pending_recovery c).
Definition set_last_failure x c := mkC (state c) (serial c) (last_serial c) (console_generation c) (child c) (input c) (stdout c) (stderr c) (input_normalizer c) (stdout_normalizer c) (stderr_normalizer c) (next_output c) (pending_stdin c) (pending_tx c) (pending_launch c) (pending_launch_cleanup c) (pending_connect c) (child_window c) (serial_window c) (stable c) (ready_observed c) (serial_cleanup c) (serial_invalidated c) (child_exhausted c) (serial_exhausted c) (is_terminated c) (is_reaped c) (child_failure_at c) (last_now c) (next_generation c) (next_endpoint c) (next_reservation c) x (pending_recovery c).
Definition set_pending_recovery x c := mkC (state c) (serial c) (last_serial c) (console_generation c) (child c) (input c) (stdout c) (stderr c) (input_normalizer c) (stdout_normalizer c) (stderr_normalizer c) (next_output c) (pending_stdin c) (pending_tx c) (pending_launch c) (pending_launch_cleanup c) (pending_connect c) (child_window c) (serial_window c) (stable c) (ready_observed c) (serial_cleanup c) (serial_invalidated c) (child_exhausted c) (serial_exhausted c) (is_terminated c) (is_reaped c) (child_failure_at c) (last_now c) (next_generation c) (next_endpoint c) (next_reservation c) (last_failure c) x.

(** [ConsoleModel::new] *)
Definition console_new : C :=
  mkC Reconnecting None None None None queue_new queue_new queue_new false false false Stdout None None None None None
    window_new window_new None None true false false false true true None None 1 1 1 None None.

Abbreviation M := (SM C ModelError).
(** [if condition { return Err(error); }] *)
Definition refuse_if (condition : bool) (error : ModelError) : M unit := if condition then throw error else mret tt.
Definition in_state (s : ConnectionState) : M bool := now ← gets state; mret (bool_decide (now = s)).
Definition self : M C := gets (fun c => c).
(** A computation on a part of the state that returns a value or an error. *)
Definition lift {A} (c : result A) : M A := fun s => (s, c).
Definition is_some {A} (o : option A) : bool := match o with Some _ => true | None => false end.

Definition fail (error : ModelError) : M ModelError :=
  _ ← modify (set_state FailClosed);
  _ ← modify (set_last_failure (Some error));
  _ ← modify (set_stable None);
  mret error.
(** [.ok_or_else(|| self.fail(error))?] *)
Definition or_fail {A} (o : option A) (error : ModelError) : M A :=
  match o with Some a => mret a | None => e ← fail error; throw e end.

Definition time (now : Z) : M unit :=
  last ← gets last_now;
  if match last with Some previous => now <? previous | None => false end
  then _ ← fail MonotonicRegression; throw MonotonicRegression
  else modify (set_last_now (Some now)).

Definition allocate_generation : M Z :=
  value ← gets next_generation;
  next ← or_fail (checked_add_u64 value 1) ArithmeticOverflow;
  _ ← modify (set_next_generation next);
  mret value.
Definition allocate_endpoint : M Z :=
  value ← gets next_endpoint;
  next ← or_fail (checked_add_u64 value 1) ArithmeticOverflow;
  _ ← modify (set_next_endpoint next);
  mret value.
Definition allocate_reservation : M Z :=
  value ← gets next_reservation;
  next ← or_fail (checked_add_u64 value 1) ArithmeticOverflow;
  _ ← modify (set_next_reservation next);
  mret value.

Definition clear_reservations : M unit :=
  _ ← modify (set_pending_stdin None);
  modify (set_pending_tx None).
Definition clear_volatile : M unit :=
  _ ← modify (fun c => set_input (queue_clear (input c)) c);
  _ ← modify (fun c => set_stdout (queue_clear (stdout c)) c);
  _ ← modify (fun c => set_stderr (queue_clear (stderr c)) c);
  _ ← modify (set_stdout_normalizer false);
  _ ← modify (set_stderr_normalizer false);
  _ ← modify (set_next_output Stdout);
  _ ← clear_reservations;
  _ ← modify (set_stable None);
  modify (set_ready_observed None).

Definition event_is_current (c : C) (event : EventGeneration) : bool :=
  bool_decide (state c = Active) && bool_decide (((fun v => event_from (ids v)) <$> child c) = Some event).
Definition event_matches_child (c : C) (event : EventGeneration) : bool :=
  bool_decide (((fun v => event_from (ids v)) <$> child c) = Some event).
Definition require_current (event : EventGeneration) : M unit :=
  current ← gets (fun c => event_is_current c event);
  if (current : bool) then mret tt
  else _ ← modify (set_last_failure (Some StaleCorrelation)); throw StaleCorrelation.

(** [live_event]; it does not change the state. *)
Definition live_event (c : C) : result EventGeneration :=
  let! v := ok_or NoChild (child c) in
  let event := event_from (ids v) in
  reject_if! negb (bool_decide (state c = Active)) || negb (all_peers_live v) with WrongConnectionState;;
  Ok event.
Definition get_live_event : M EventGeneration := fun c => (c, live_event c).

Definition mark_child_peer_closed (event : EventGeneration) (kind : StreamKind) : M unit :=
  matches ← gets (fun c => event_matches_child c event);
  _ ← refuse_if (negb matches) StaleCorrelation;
  current ← gets child;
  v ← lift (ok_or NoChild current);
  modify (set_child (Some (mkChild (ids v) (set_kind kind (mkPeer (peer_endpoint (at_kind (peers v) kind)) false) (peers v))))).

Definition child_job_or_zero (c : C) : Z := match child c with Some v => id_child_job (ids v) | None => 0 end.

Definition start_child_retirement (with_serial_cleanup capture_child_failure : bool) (now : Z) : M RecoveryAction :=
  _ ← clear_volatile;
  _ ← modify (set_is_terminated false);
  _ ← modify (set_is_reaped false);
  at_ ← gets child_failure_at;
  _ ← (if capture_child_failure && negb (is_some at_) then modify (set_child_failure_at (Some now)) else mret tt);
  _ ← (if with_serial_cleanup then modify (set_serial_cleanup false) else mret tt);
  _ ← modify (set_state RetiringChild);
  job ← gets child_job_or_zero;
  mret (TerminateChild job).

Definition any_peer_live (v : ChildSession) : bool :=
  peer_live (third0 (peers v)) || peer_live (third1 (peers v)) || peer_live (third2 (peers v)).

(** [self.child_window.add(..)] and [self.serial_window.add(..)] *)
Definition child_window_add (now : Z) : M bool :=
  w ← gets child_window;
  '(w, full) ← lift (window_add now w);
  _ ← modify (set_child_window w);
  mret full.
Definition serial_window_add (now : Z) : M bool :=
  w ← gets serial_window;
  '(w, full) ← lift (window_add now w);
  _ ← modify (set_serial_window w);
  mret full.

Definition complete_retirement (now : Z) : M RecoveryAction :=
  current ← gets child;
  v ← lift (ok_or NoChild current);
  _ ← refuse_if (any_peer_live v) IncompleteCleanup;
  clean ← gets serial_cleanup;
  if negb clean then mret NoAction
  else
    _ ← modify (set_child None);
    _ ← clear_volatile;
    at_ ← gets child_failure_at;
    _ ← modify (set_child_failure_at None);
    full ← child_window_add (default now at_);
    if (full : bool) then
      _ ← modify (set_state Exhausted);
      _ ← modify (set_child_exhausted true);
      _ ← modify (set_last_failure (Some RestartExhausted));
      mret Escalate
    else
      _ ← modify (set_state Active);
      mret ReplaceChild.

Definition finish_serial_cleanup (now : Z) : M RecoveryAction :=
  retry ← or_fail (checked_add_u64 now SERIAL_RETRY_BACKOFF_MILLIS) ArithmeticOverflow;
  _ ← modify (set_serial None);
  _ ← modify (set_console_generation None);
  _ ← modify (set_serial_cleanup true);
  _ ← modify (set_serial_invalidated false);
  _ ← modify (set_state Reconnecting);
  _ ← clear_volatile;
  _ ← modify (set_input_normalizer false);
  mret (RetrySerialAt retry).

Definition maybe_finish_serial_invalidation : M unit :=
  c ← self;
  if serial_invalidated c && negb (is_some (child c)) && negb (is_some (pending_launch c))
     && negb (is_some (pending_launch_cleanup c))
  then
    now ← or_fail (last_now c) MonotonicRegression;
    action ← finish_serial_cleanup now;
    modify (set_pending_recovery (Some action))
  else mret tt.

(** *** Connecting *)

Definition begin_connect (expected : ConnectRequest) : M unit :=
  c ← self;
  _ ← refuse_if (bool_decide (state c = Exhausted) && serial_exhausted c) RestartExhausted;
  _ ← refuse_if (negb (bool_decide (state c = Reconnecting)) || is_some (pending_connect c)) WrongConnectionState;
  _ ← refuse_if (negb (connect_valid expected)) ZeroCorrelation;
  modify (set_pending_connect (Some expected)).

Definition abort_connect (request : ConnectRequest) : M unit :=
  c ← self;
  _ ← refuse_if (negb (bool_decide (state c = Reconnecting) || bool_decide (state c = FailClosed))
                 || negb (bool_decide (pending_connect c = Some request))) StaleCorrelation;
  modify (set_pending_connect None).

Definition attach_connected (incoming : SerialCorrelation) (now : Z) : M Z :=
  _ ← time now;
  c ← self;
  _ ← refuse_if (bool_decide (state c = Exhausted) && serial_exhausted c) RestartExhausted;
  _ ← refuse_if (negb (bool_decide (state c = Reconnecting)) || negb (serial_cleanup c) || negb (is_reaped c)) WrongConnectionState;
  request ← lift (ok_or StaleCorrelation (pending_connect c));
  _ ← refuse_if (negb (connected incoming) || negb (connect_matches request incoming)
                 || match last_serial c with Some previous => negb (valid_transition_from incoming previous) | None => false end)
        StaleCorrelation;
  console ← allocate_generation;
  _ ← modify (set_serial (Some incoming));
  _ ← modify (set_last_serial (Some incoming));
  _ ← modify (set_pending_connect None);
  _ ← modify (set_console_generation (Some console));
  _ ← modify (set_state Active);
  _ ← modify (fun c => set_serial_window (window_clear (serial_window c)) c);
  _ ← clear_volatile;
  _ ← modify (set_input_normalizer false);
  mret console.

(** *** Launching the child *)

Definition begin_child_launch (child_launch : Z) : M LaunchTransaction :=
  c ← self;
  _ ← refuse_if (bool_decide (state c = Exhausted) || child_exhausted c) RestartExhausted;
  _ ← refuse_if (negb (bool_decide (state c = Active)) || negb (is_some (serial c)) || is_some (child c)) WrongConnectionState;
  _ ← refuse_if (is_some (pending_launch c)) WrongConnectionState;
  _ ← refuse_if (child_launch =? 0) ZeroCorrelation;
  child_generation ← allocate_generation;
  s ← lift (ok_or WrongConnectionState (serial c));
  g ← lift (ok_or WrongConnectionState (console_generation c));
  c0 ← allocate_endpoint;
  c1 ← allocate_endpoint;
  c2 ← allocate_endpoint;
  p0 ← allocate_endpoint;
  p1 ← allocate_endpoint;
  p2 ← allocate_endpoint;
  let transaction := mkTransaction s g child_generation 0 child_launch (mk3 c0 c1 c2) (mk3 p0 p1 p2) (mk3 false false false) false in
  _ ← modify (set_pending_launch (Some (identity_of transaction)));
  mret transaction.

(** The transaction is returned as the code leaves it. *)
Definition commit_child_launch (tx : LaunchTransaction) (child_job : Z) : M (LaunchTransaction * ChildSession) :=
  c ← self;
  _ ← refuse_if (bool_decide (state c = Exhausted) || child_exhausted c) RestartExhausted;
  _ ← refuse_if (negb (bool_decide (state c = Active)) || tx_committed tx || negb (all_moved tx) || is_some (child c)
                 || serial_invalidated c || negb (bool_decide (serial c = Some (tx_serial tx)))
                 || negb (bool_decide (console_generation c = Some (tx_console_generation tx))) || (child_job =? 0)
                 || negb (bool_decide (pending_launch c = Some (identity_of tx)))) StaleCorrelation;
  let session := mkChild (mkIds (tx_serial tx) (tx_console_generation tx) (tx_child_generation tx) child_job (tx_child_launch tx))
    (mk3 (mkPeer (third0 (tx_consoled tx)) true) (mkPeer (third1 (tx_consoled tx)) true) (mkPeer (third2 (tx_consoled tx)) true)) in
  let tx := mkTransaction (tx_serial tx) (tx_console_generation tx) (tx_child_generation tx) child_job (tx_child_launch tx)
    (tx_consoled tx) (tx_child_peers tx) (tx_moved tx) true in
  _ ← modify (set_child (Some session));
  _ ← modify (set_pending_launch None);
  _ ← modify (set_stable None);
  mret (tx, session).

Definition abort_child_launch (tx : LaunchTransaction) : M LaunchCleanupToken :=
  c ← self;
  let identity := identity_of tx in
  _ ← refuse_if (negb (bool_decide (state c = Active) || bool_decide (state c = FailClosed)) || is_some (child c)
                 || negb (bool_decide (serial c = Some (li_serial identity)))
                 || negb (bool_decide (console_generation c = Some (li_console_generation identity)))
                 || negb (bool_decide (pending_launch c = Some identity))) StaleCorrelation;
  cleanup ← lift (abort_cleanup tx);
  _ ← modify (set_pending_launch_cleanup (Some identity));
  mret (mkCleanupToken identity cleanup).

Definition complete_abort_child_launch (token : LaunchCleanupToken) (evidence : LaunchCleanupEvidence) : M LaunchCleanup :=
  c ← self;
  _ ← refuse_if (negb (bool_decide (pending_launch c = Some (token_identity token)))
                 || negb (bool_decide (pending_launch_cleanup c = Some (token_identity token)))) StaleCorrelation;
  matches ← lift (evidence_matches_cleanup (token_cleanup token) evidence);
  _ ← refuse_if (negb matches) IncompleteCleanup;
  _ ← modify (set_pending_launch None);
  _ ← modify (set_pending_launch_cleanup None);
  _ ← maybe_finish_serial_invalidation;
  mret (token_cleanup token).

(** *** Staging *)

Definition stage_serial_input (event : EventGeneration) (bytes : list Z) : M unit :=
  _ ← require_current event;
  c ← self;
  '(n, q) ← lift (input_stage bytes (input_normalizer c) (input c));
  _ ← modify (set_input_normalizer n);
  modify (set_input q).

Definition stage_child_output (event : EventGeneration) (source : OutputSource) (bytes : list Z) : M unit :=
  _ ← require_current event;
  c ← self;
  match source with
  | Stdout =>
      '(n, q) ← lift (output_stage bytes (stdout_normalizer c) (stdout c));
      _ ← modify (set_stdout_normalizer n);
      modify (set_stdout q)
  | Stderr =>
      '(n, q) ← lift (output_stage bytes (stderr_normalizer c) (stderr c));
      _ ← modify (set_stderr_normalizer n);
      modify (set_stderr q)
  end.

(** [read] is the caller's, with a state of its own: it may change the buffer. *)
Definition Read (W : Type) : Type := OutputSource -> list Z -> W -> W * (list Z * result (option Z)).
Definition on_model {W A} (m : M A) : SM (C * W) ModelError A := fun '(c, w) => let '(c, r) := m c in (c, w, r).
Definition call_read {W} (read : Read W) (source : OutputSource) (payload : list Z) : SM (C * W) ModelError (list Z * option Z) :=
  fun '(c, w) =>
    let '(w, (payload, outcome)) := read source payload w in
    (c, w, let! found := outcome in Ok (payload, found)).
(** One round of the loop of [poll_output_quiescence]: the buffer and [quiet] *)
Definition poll_source {W} (event : EventGeneration) (read : Read W) (source : OutputSource) (payload : list Z) (quiet : bool)
    : SM (C * W) ModelError (list Z * bool) :=
  '(payload, found) ← call_read read source payload;
  match found with
  | None => mret (payload, quiet)
  | Some count =>
      _ ← on_model (refuse_if ((count =? 0) || (len payload <? count)) TooLarge);
      bytes ← on_model (lift (slice payload 0 count));
      _ ← on_model (stage_child_output event source bytes);
      mret (payload, false)
  end.
Definition poll_output_quiescence {W} (event : EventGeneration) (read : Read W) : SM (C * W) ModelError bool :=
  _ ← on_model (require_current event);
  c ← on_model self;
  if negb (queue_is_empty (input c)) || negb (queue_is_empty (stdout c)) || negb (queue_is_empty (stderr c))
     || is_some (pending_stdin c) || is_some (pending_tx c)
  then mret false
  else
    '(payload, quiet) ← poll_source event read Stdout (replicate (Z.to_nat FAIR_SOURCE_BYTES_PER_TURN) 0) true;
    '(_, quiet) ← poll_source event read Stderr payload quiet;
    mret quiet.

(** *** Failures and retirement *)

Definition wrong_direction_data (event : EventGeneration) (now : Z) : M RecoveryAction :=
  _ ← time now;
  _ ← require_current event;
  _ ← modify (set_last_failure (Some WrongDirection));
  start_child_retirement false true now.

Definition child_terminal (event : EventGeneration) (now : Z) : M RecoveryAction :=
  _ ← time now;
  _ ← require_current event;
  _ ← modify (set_last_failure (Some ChildDisconnected));
  _ ← clear_volatile;
  _ ← modify (set_child_failure_at (Some now));
  _ ← modify (set_is_terminated true);
  _ ← modify (set_is_reaped false);
  _ ← modify (set_state AwaitingReap);
  mret (ReapChild (ev_child_job event)).

Definition child_terminal_precursor (event : EventGeneration) (now : Z) : M RecoveryAction :=
  _ ← time now;
  _ ← require_current event;
  mret NoAction.

Definition child_peer_closed (event : EventGeneration) (kind : StreamKind) (now : Z) : M RecoveryAction :=
  _ ← time now;
  _ ← require_current event;
  _ ← modify (set_last_failure (Some ChildDisconnected));
  _ ← mark_child_peer_closed event kind;
  start_child_retirement false true now.

Definition status_peer_closed (event : EventGeneration) (now : Z) : M RecoveryAction :=
  _ ← time now;
  _ ← require_current event;
  _ ← modify (set_last_failure (Some ChildDisconnected));
  start_child_retirement false true now.

Definition retiring (s : ConnectionState) : bool := bool_decide (s = RetiringChild) || bool_decide (s = AwaitingReap).

Definition observe_child_peer_closed (event : EventGeneration) (kind : StreamKind) (now : Z) : M unit :=
  _ ← time now;
  s ← gets state;
  _ ← refuse_if (negb (retiring s)) WrongConnectionState;
  mark_child_peer_closed event kind.

Definition child_streams_closed (event : EventGeneration) (now : Z) : M unit :=
  _ ← time now;
  s ← gets state;
  _ ← refuse_if (negb (retiring s)) WrongConnectionState;
  _ ← mark_child_peer_closed event Stdin;
  _ ← mark_child_peer_closed event StdoutStream;
  mark_child_peer_closed event StderrStream.

Definition serial_peer_closed (incoming : SerialCorrelation) (generation now : Z) : M RecoveryAction :=
  _ ← time now;
  c ← self;
  _ ← refuse_if (negb (bool_decide (state c = Active) || bool_decide (state c = RetiringChild)
                       || bool_decide (state c = AwaitingReap) || bool_decide (state c = Exhausted))
                 || negb (bool_decide (serial c = Some incoming))
                 || negb (bool_decide (console_generation c = Some generation))) WrongConnectionState;
  _ ← modify (set_last_failure (Some SerialDisconnected));
  _ ← modify (set_child_failure_at None);
  _ ← modify (set_serial_cleanup false);
  _ ← modify (set_serial_invalidated true);
  _ ← modify (set_input_normalizer false);
  _ ← modify (set_stable None);
  _ ← clear_reservations;
  c ← self;
  if is_some (child c) && bool_decide (state c = Active) then start_child_retirement true false now
  else if negb (is_some (child c)) && negb (is_some (pending_launch c)) then
    _ ← modify (set_is_terminated true);
    _ ← modify (set_is_reaped true);
    finish_serial_cleanup now
  else mret NoAction.

Definition child_terminated (event : EventGeneration) (now : Z) : M RecoveryAction :=
  _ ← time now;
  c ← self;
  _ ← refuse_if (negb (bool_decide (state c = RetiringChild)) || negb (event_matches_child c event)) WrongConnectionState;
  _ ← modify (set_is_terminated true);
  _ ← modify (set_state AwaitingReap);
  job ← gets child_job_or_zero;
  mret (ReapChild job).

Definition child_reaped (event : EventGeneration) (now : Z) : M RecoveryAction :=
  _ ← time now;
  c ← self;
  _ ← refuse_if (negb (bool_decide (state c = AwaitingReap)) || negb (is_terminated c) || negb (event_matches_child c event))
        WrongConnectionState;
  _ ← modify (set_is_reaped true);
  complete_retirement now.

Definition complete_serial_cleanup (incoming : SerialCorrelation) (generation now : Z) : M RecoveryAction :=
  _ ← time now;
  c ← self;
  _ ← refuse_if (negb (bool_decide (state c = AwaitingReap)) || serial_cleanup c || negb (is_reaped c)
                 || negb (bool_decide (serial c = Some incoming))
                 || negb (bool_decide (console_generation c = Some generation))) WrongConnectionState;
  _ ← refuse_if (match child c with Some v => any_peer_live v | None => false end) IncompleteCleanup;
  _ ← modify (set_child None);
  finish_serial_cleanup now.

Definition serial_reconnect_failed (now : Z) : M RecoveryAction :=
  _ ← time now;
  b ← in_state Reconnecting;
  _ ← refuse_if (negb b) WrongConnectionState;
  _ ← modify (set_pending_connect None);
  full ← serial_window_add now;
  if (full : bool) then
    _ ← modify (set_state Exhausted);
    _ ← modify (set_serial_exhausted true);
    _ ← modify (set_last_failure (Some RestartExhausted));
    mret Escalate
  else
    retry ← or_fail (checked_add_u64 now SERIAL_RETRY_BACKOFF_MILLIS) ArithmeticOverflow;
    mret (RetrySerialAt retry).

(** *** Reservations: the reservation, and the caller's buffer *)

Definition reserve_child_stdin (output : list Z) : M (option Reservation * list Z) :=
  if len output =? 0 then mret (None, output)
  else
    event ← get_live_event;
    c ← self;
    _ ← refuse_if (is_some (pending_stdin c)) AlreadyReserved;
    if queue_is_empty (input c) then mret (None, output)
    else
      '(length, output) ← lift (copy_prefix (input c) output FAIR_SOURCE_BYTES_PER_TURN);
      token ← allocate_reservation;
      let reservation := mkReservation token None length event in
      _ ← modify (set_pending_stdin (Some reservation));
      mret (Some reservation, output).

(** [self.pending != Some(reservation) || self.live_event()? != reservation.event] *)
Definition require_reservation (pending : C -> option Reservation) (reservation : Reservation) : M unit :=
  c ← self;
  if negb (bool_decide (pending c = Some reservation)) then throw UnknownReservation
  else
    event ← get_live_event;
    refuse_if (negb (bool_decide (event = res_event reservation))) UnknownReservation.

Definition commit_child_stdin (reservation : Reservation) : M unit :=
  _ ← require_reservation pending_stdin reservation;
  c ← self;
  q ← lift (queue_consume (res_length reservation) (input c));
  _ ← modify (set_input q);
  modify (set_pending_stdin None).
Definition release_child_stdin (reservation : Reservation) : M unit :=
  _ ← require_reservation pending_stdin reservation;
  modify (set_pending_stdin None).

Definition other (s : OutputSource) : OutputSource := match s with Stdout => Stderr | Stderr => Stdout end.
Definition queue_for (c : C) (s : OutputSource) : BoundedQueue := match s with Stdout => stdout c | Stderr => stderr c end.
(** [*self.queue_for_mut(source) = q] *)
Definition set_queue_for (s : OutputSource) (q : BoundedQueue) (c : C) : C :=
  match s with Stdout => set_stdout q c | Stderr => set_stderr q c end.

Definition reserve_serial_tx (output : list Z) : M (option Reservation * list Z) :=
  if len output =? 0 then mret (None, output)
  else
    event ← get_live_event;
    c ← self;
    _ ← refuse_if (is_some (pending_tx c)) AlreadyReserved;
    let first := next_output c in
    let source := if queue_is_empty (queue_for c first) then other first else first in
    if queue_is_empty (queue_for c source) then mret (None, output)
    else
      '(length, output) ← lift (copy_prefix (queue_for c source) output FAIR_SOURCE_BYTES_PER_TURN);
      token ← allocate_reservation;
      let reservation := mkReservation token (Some source) length event in
      _ ← modify (set_pending_tx (Some reservation));
      mret (Some reservation, output).

Definition commit_serial_tx (reservation : Reservation) : M unit :=
  _ ← require_reservation pending_tx reservation;
  source ← lift (ok_or UnknownReservation (res_source reservation));
  c ← self;
  q ← lift (queue_consume (res_length reservation) (queue_for c source));
  _ ← modify (set_queue_for source q);
  _ ← modify (set_next_output (other source));
  modify (set_pending_tx None).
Definition release_serial_tx (reservation : Reservation) : M unit :=
  _ ← require_reservation pending_tx reservation;
  modify (set_pending_tx None).

(** *** READY *)

Definition ready_token (c : C) : option ReadyToken :=
  v ← child c;
  if negb (bool_decide (state c = Active)) || negb (ids_complete (ids v)) || negb (all_peers_live v)
     || negb (bool_decide (ready_observed c = Some (event_from (ids v))))
  then None
  else Some (mkReady (ids v) (mk3 (peer_endpoint (third0 (peers v))) (peer_endpoint (third1 (peers v))) (peer_endpoint (third2 (peers v))))).

Definition observe_child_ready (event : EventGeneration) (now : Z) : M ReadyToken :=
  _ ← time now;
  current ← gets (fun c => event_is_current c event);
  _ ← refuse_if (negb current) StaleCorrelation;
  _ ← modify (set_ready_observed (Some event));
  token ← gets ready_token;
  token ← lift (ok_or WrongConnectionState token);
  s ← gets stable;
  _ ← (if bool_decide (fst <$> s = Some token) then mret tt else modify (set_stable (Some (token, now))));
  mret token.

Definition observe_ready (now : Z) (token : ReadyToken) : M bool :=
  _ ← time now;
  current ← gets ready_token;
  _ ← refuse_if (negb (bool_decide (current = Some token))) StaleCorrelation;
  s ← gets stable;
  match s with
  | Some (old, since) =>
      if bool_decide (old = token) then
        age ← lift (minus now since);
        if age <? STABLE_RUN_MILLIS then mret false
        else
          _ ← modify (fun c => set_child_window (window_clear (child_window c)) c);
          _ ← modify (set_stable (Some (token, now)));
          mret true
      else _ ← modify (set_stable (Some (token, now))); mret false
  | None => _ ← modify (set_stable (Some (token, now))); mret false
  end.

(** *** Snapshots *)

Record ConsoleSnapshot := mkConsoleSnapshot {
  sn_state : ConnectionState;
  sn_serial : option SerialCorrelation;
  sn_console_generation : option Z;
  sn_child_generation : option Z;
  sn_child_job : option Z;
  sn_child_launch : option Z;
  sn_peers_live : Three bool;
  sn_input_queued : Z;
  sn_stdout_queued : Z;
  sn_stderr_queued : Z;
  sn_child_failures : Z;
  sn_serial_failures : Z;
  sn_serial_invalidated : bool;
  sn_pending_launch : bool;
  sn_pending_launch_cleanup : bool;
  sn_pending_connect : bool;
  sn_pending_stdin_reservation : bool;
  sn_pending_tx_reservation : bool;
  sn_child_restart_exhausted : bool;
  sn_serial_restart_exhausted : bool;
  sn_last_failure : option ModelError;
  sn_pending_recovery : option RecoveryAction }.

Definition snapshot (c : C) : ConsoleSnapshot :=
  mkConsoleSnapshot (state c) (serial c) (console_generation c)
    ((fun v => id_child_generation (ids v)) <$> child c) ((fun v => id_child_job (ids v)) <$> child c)
    ((fun v => id_child_launch (ids v)) <$> child c)
    match child c with
    | Some v => mk3 (peer_live (third0 (peers v))) (peer_live (third1 (peers v))) (peer_live (third2 (peers v)))
    | None => mk3 false false false
    end
    (q_len (input c)) (q_len (stdout c)) (q_len (stderr c)) (failures (child_window c)) (failures (serial_window c))
    (serial_invalidated c) (is_some (pending_launch c)) (is_some (pending_launch_cleanup c)) (is_some (pending_connect c))
    (is_some (pending_stdin c)) (is_some (pending_tx c)) (child_exhausted c) (serial_exhausted c) (last_failure c)
    (pending_recovery c).

Definition status_state (s : ConnectionState) : ConsoleProto.State :=
  match s with
  | Active => ConsoleProto.Active | RetiringChild => ConsoleProto.RetiringChild | AwaitingReap => ConsoleProto.AwaitingReap
  | Reconnecting => ConsoleProto.Reconnecting | Exhausted => ConsoleProto.Exhausted | FailClosed => ConsoleProto.FailClosed
  end.
Definition status_failure (e : option ModelError) : ConsoleProto.LastFailure :=
  match e with
  | None => ConsoleProto.NoFailure
  | Some ZeroCorrelation => ConsoleProto.ZeroCorrelation
  | Some StaleCorrelation => ConsoleProto.StaleCorrelation
  | Some WrongConnectionState => ConsoleProto.WrongConnectionState
  | Some NoChild => ConsoleProto.NoChild
  | Some IncompleteCleanup => ConsoleProto.IncompleteCleanup
  | Some AlreadyReserved => ConsoleProto.AlreadyReserved
  | Some UnknownReservation => ConsoleProto.UnknownReservation
  | Some Backpressure => ConsoleProto.Backpressure
  | Some TooLarge => ConsoleProto.TooLarge
  | Some MonotonicRegression => ConsoleProto.MonotonicRegression
  | Some ArithmeticOverflow => ConsoleProto.ArithmeticOverflow
  | Some RestartExhausted => ConsoleProto.RestartExhausted
  | Some SerialDisconnected => ConsoleProto.SerialDisconnected
  | Some ChildDisconnected => ConsoleProto.ChildDisconnected
  | Some WrongDirection => ConsoleProto.WrongDirection
  end.

(** [if condition { flags |= flag; }] *)
Definition with_flag (condition : bool) (flag flags : Z) : Z := if condition then Z.lor flags flag else flags.
(** [.fold(0, |mask, (index, live)| mask | (u32::from(live) << index))] *)
Definition peer_mask (live : Three bool) : Z :=
  Z.lor (Z.lor (Z.lor 0 (Z.shiftl (Z.b2z (third0 live)) 0)) (Z.shiftl (Z.b2z (third1 live)) 1)) (Z.shiftl (Z.b2z (third2 live)) 2).
Definition as_u32 (value : Z) : result Z := ok_or TooLarge (try_from_unsigned (2 ^ 32) value).

Definition status_snapshot (c : C) : result ConsoleProto.Snapshot :=
  let s := snapshot c in
  let flags := with_flag (is_some (sn_serial s)) ConsoleProto.FLAG_SERIAL_PRESENT 0 in
  let flags := with_flag (is_some (sn_child_generation s)) ConsoleProto.FLAG_CHILD_PRESENT flags in
  let flags := with_flag (sn_serial_invalidated s) ConsoleProto.FLAG_SERIAL_INVALIDATED flags in
  let flags := with_flag (sn_pending_launch s) ConsoleProto.FLAG_PENDING_LAUNCH flags in
  let flags := with_flag (sn_pending_launch_cleanup s) ConsoleProto.FLAG_PENDING_LAUNCH_CLEANUP flags in
  let flags := with_flag (sn_child_restart_exhausted s) ConsoleProto.FLAG_CHILD_RESTART_EXHAUSTED flags in
  let flags := with_flag (sn_serial_restart_exhausted s) ConsoleProto.FLAG_SERIAL_RESTART_EXHAUSTED flags in
  let of_serial (f : SerialCorrelation -> Z) := match sn_serial s with Some v => f v | None => 0 end in
  let! iq := as_u32 (sn_input_queued s) in
  let! oq := as_u32 (sn_stdout_queued s) in
  let! eq := as_u32 (sn_stderr_queued s) in
  let! cf := as_u32 (sn_child_failures s) in
  let! sf := as_u32 (sn_serial_failures s) in
  let wire := ConsoleProto.mkSnapshot (status_state (sn_state s)) flags (of_serial sc_registry_generation)
    (of_serial sc_publication_generation) (of_serial sc_device_bundle) (of_serial sc_driver_attempt)
    (of_serial sc_stream_generation) (default 0 (sn_child_generation s)) (default 0 (sn_child_job s))
    (default 0 (sn_child_launch s)) (peer_mask (sn_peers_live s)) iq oq eq cf sf (status_failure (sn_last_failure s)) in
  let! _ := map_err (fun _ => WrongConnectionState) (ConsoleProto.validate wire) in
  Ok wire.

Definition take_recovery_action : M (option RecoveryAction) :=
  action ← gets pending_recovery;
  _ ← modify (set_pending_recovery None);
  mret action.

(** The invariants the tests check. *)
Definition validate_invariants (c : C) : bool :=
  if is_some (pending_launch_cleanup c) && negb (bool_decide (pending_launch_cleanup c = pending_launch c)) then false
  else if is_some (pending_launch c)
          && (negb (is_some (serial c)) || negb (is_some (console_generation c)) || is_some (child c)
              || is_some (pending_connect c)) then false
  else if bool_decide (state c = Reconnecting)
          && (is_some (serial c) || is_some (console_generation c) || is_some (child c) || is_some (pending_launch c)
              || serial_invalidated c || negb (serial_cleanup c)) then false
  else if bool_decide (state c = Active) && negb (is_some (serial c)) then false
  else if is_some (pending_connect c)
          && (negb (bool_decide (state c = Reconnecting) || bool_decide (state c = FailClosed)) || is_some (serial c)
              || is_some (console_generation c) || is_some (child c) || is_some (pending_launch c)) then false
  else if is_some (child c)
          && (negb (is_some (serial c)) || negb (is_some (console_generation c)) || is_some (pending_connect c)
              || is_some (pending_launch c)) then false
  else if negb (Bool.eqb (is_some (serial c)) (is_some (console_generation c))) then false
  else if serial_invalidated c && serial_cleanup c then false
  else true.

End Console.
