(* ===== verification/ConsoleInv.v ===== *)
(** * The console's staging queues, newline transforms and restart windows, and the invariant over them *)

From stdpp Require Import base tactics option list list_numbers.
From Stdlib Require Import ZArith Lia.
From S2P Require Import Prelude Bytes Layout StateM ConsoleProto Console.

Import Console.

(** ** The queue holds a list *)

Record holds (q : BoundedQueue) (l : list Z) : Prop := {
  h_size : len (q_bytes q) = STAGING_CAPACITY;
  h_head : 0 <= q_head q < STAGING_CAPACITY;
  h_len : q_len q = len l;
  h_max : len l <= STAGING_CAPACITY;
  h_bytes : forall i b, l !! i = Some b -> get_at (q_bytes q) ((q_head q + Z.of_nat i) mod STAGING_CAPACITY) = Some b }.

(** The waiting bytes, oldest first. *)
Definition contents (q : BoundedQueue) : list Z :=
  (fun i => default 0 (get_at (q_bytes q) ((q_head q + i) mod STAGING_CAPACITY))) <$> seqZ 0 (q_len q).
Definition queue_ok (q : BoundedQueue) : Prop := holds q (contents q).

Lemma holds_contents q l : holds q l -> contents q = l.
Proof.
  intros [Hs Hh Hl Hm Hb]. apply list_eq. intros i. unfold contents. rewrite list_lookup_fmap, Hl.
  destruct (decide (i < length l)%nat) as [Hi|Hi].
  - destruct (lookup_lt_is_Some_2 l i Hi) as [b Hlb]. rewrite lookup_seqZ_lt by lia. cbn [fmap option_fmap option_map]. by rewrite Z.add_0_l, (Hb _ _ Hlb), Hlb.
  - rewrite lookup_seqZ_ge by lia. cbn. symmetry. apply lookup_ge_None. lia.
Qed.
Lemma holds_ok q l : holds q l -> queue_ok q /\ contents q = l.
Proof. intros H. pose proof (holds_contents _ _ H) as Hc. unfold queue_ok. by rewrite Hc. Qed.

Lemma console_queue_new : holds queue_new [].
Proof. by split. Qed.
Lemma console_queue_clear q l : holds q l -> holds (queue_clear q) [].
Proof. intros [Hs _ _ _ _]. by split. Qed.
Lemma clear_contents q : queue_ok q -> queue_ok (queue_clear q) /\ contents (queue_clear q) = [].
Proof. intros H. apply holds_ok. by eapply console_queue_clear. Qed.
Lemma queue_len_contents q : queue_ok q -> q_len q = len (contents q).
Proof. apply h_len. Qed.
Lemma queue_empty_contents q : queue_ok q -> queue_is_empty q = bool_decide (contents q = []).
Proof.
  intros H. unfold queue_is_empty. rewrite (queue_len_contents _ H). destruct (contents q); [done|].
  rewrite bool_decide_false by done. apply Z.eqb_neq. cbn. lia.
Qed.

Lemma push_holds source : forall q l, holds q l -> len l + len source <= STAGING_CAPACITY ->
  exists q', queue_push source q = Ok q' /\ holds q' (l ++ source).
Proof.
  induction source as [|b source IH]; intros q l H Hl; [exists q; by rewrite app_nil_r|].
  destruct H as [Hs Hh Hq Hm Hb]. cbn [queue_push]. rewrite Hq. unfold STAGING_CAPACITY in *. cbn [length] in Hl.
  rewrite (proj2 (plus_Ok _ _ (q_head q + len l))) by lia. cbn [res_bind].
  pose proof (mod_range (q_head q + len l) 4096 ltac:(lia)).
  destruct (proj2 (put_range_is_Some (q_bytes q) ((q_head q + len l) mod 4096) [b])) as [bs Hput]; [cbn; lia|].
  rewrite Hput. destruct (get_at_put _ _ _ _ Hput) as (_ & Hlen & Hsame & Hother). cbn [or_panic res_bind].
  rewrite (proj2 (plus_Ok _ _ (len l + 1))) by lia. cbn [res_bind].
  destruct (IH (mkQueue bs (q_head q) (len l + 1)) (l ++ [b])) as (q' & -> & Hq').
  - split; cbn [q_bytes q_head q_len]; rewrite ?length_app; cbn [length]; unfold STAGING_CAPACITY; try lia.
    intros i x Hi. apply lookup_app_Some in Hi as [Hi|[Hge Hi]].
    + pose proof (lookup_lt_Some _ _ _ Hi). rewrite Hother; [by apply Hb|]. intros Heq. apply ring_injective in Heq; lia.
    + destruct (i - length l)%nat eqn:Hz; [|done]. injection Hi as <-. by replace (Z.of_nat i) with (len l) by lia.
  - rewrite length_app. cbn [length]. unfold STAGING_CAPACITY. lia.
  - exists q'. split; [done|]. by rewrite <-(assoc_L (++)) in Hq'.
Qed.

Lemma copy_holds q l : holds q l -> forall n i, (i + n <= length l)%nat -> queue_copy q (Z.of_nat i) n = Ok (take n (drop i l)).
Proof.
  intros H. pose proof (h_head _ _ H). pose proof (h_max _ _ H). unfold STAGING_CAPACITY in *.
  induction n as [|n IH]; intros i Hi; [done|]. cbn [queue_copy].
  destruct (lookup_lt_is_Some_2 l i) as [b Hb]; [lia|]. rewrite (proj2 (plus_Ok _ _ (q_head q + Z.of_nat i))) by lia. cbn [res_bind].
  rewrite (h_bytes _ _ H _ _ Hb). cbn [or_panic res_bind]. replace (Z.of_nat i + 1) with (Z.of_nat (S i)) by lia.
  rewrite IH by lia. by rewrite (drop_S _ _ _ Hb).
Qed.

Lemma copy_prefix_holds q l destination maximum : holds q l -> 0 <= maximum ->
  let count := Z.min (Z.min (len destination) maximum) (len l) in
  copy_prefix q destination maximum = Ok (count, take (Z.to_nat count) l ++ drop (Z.to_nat count) destination).
Proof.
  intros H Hm count. unfold copy_prefix. rewrite (h_len _ _ H). fold count.
  change 0 with (Z.of_nat 0) at 1. rewrite (copy_holds _ _ H (Z.to_nat count) 0) by lia. cbn [res_bind]. rewrite drop_0. unfold splice.
  assert (len (take (Z.to_nat count) l) = count) as Hc by (rewrite length_take; lia).
  rewrite (proj2 (put_range_Some destination 0 (take (Z.to_nat count) l) (take (Z.to_nat count) l ++ drop (Z.to_nat count) destination))); [done|].
  rewrite Hc. split_and!; [done|lia|]. by rewrite Z.add_0_l.
Qed.

Lemma consume_holds q l count : holds q l -> 0 <= count <= len l ->
  exists q', queue_consume count q = Ok q' /\ holds q' (drop (Z.to_nat count) l).
Proof.
  intros [Hs Hh Hl Hm Hb] Hc. unfold queue_consume. rewrite Hl. unfold STAGING_CAPACITY in *.
  rewrite (proj2 (plus_Ok _ _ (q_head q + count))) by lia. cbn [res_bind].
  rewrite (proj2 (minus_Ok _ _ (len l - count))) by lia. cbn [res_bind]. eexists. split; [done|].
  split; unfold STAGING_CAPACITY; cbn [q_bytes q_head q_len]; rewrite ?length_drop; try lia.
  - by apply mod_range.
  - intros i b Hi. rewrite lookup_drop in Hi. rewrite Zplus_mod_idemp_l.
    replace (q_head q + count + Z.of_nat i) with (q_head q + Z.of_nat (Z.to_nat count + i)) by lia. by apply Hb.
Qed.

(** ** Newlines *)

(** What the child reads for what the terminal sent: CR and CRLF become LF.  The flag: a
    CR was last. *)
Fixpoint to_child (after_cr : bool) (raw : list Z) : list Z * bool :=
  match raw with
  | [] => ([], after_cr)
  | b :: raw =>
      if after_cr && (b =? LF) then to_child false raw
      else let '(text, f) := to_child (b =? CR) raw in ((if b =? CR then LF else b) :: text, f)
  end.
(** What the terminal gets for what the child wrote: LF becomes CRLF, CRLF stays. *)
Fixpoint to_terminal (after_cr : bool) (text : list Z) : list Z * bool :=
  match text with
  | [] => ([], after_cr)
  | b :: text =>
      let '(raw, f) := to_terminal (b =? CR) text in
      ((if (b =? LF) && negb after_cr then [CR; b] else [b]) ++ raw, f)
  end.

(** Where the bytes are cut into records does not matter. *)
Lemma to_child_app a b : forall f, to_child f (a ++ b) =
  let '(x, g) := to_child f a in let '(y, h) := to_child g b in (x ++ y, h).
Proof.
  induction a as [|c a IH]; intros f; cbn; [by destruct (to_child f b)|]. destruct (f && (c =? LF)); [apply IH|].
  rewrite IH. destruct (to_child (c =? CR) a) as [x g]. by destruct (to_child g b).
Qed.
Lemma to_terminal_app a b : forall f, to_terminal f (a ++ b) =
  let '(x, g) := to_terminal f a in let '(y, h) := to_terminal g b in (x ++ y, h).
Proof.
  induction a as [|c a IH]; intros f; cbn; [by destruct (to_terminal f b)|].
  rewrite IH. destruct (to_terminal (c =? CR) a) as [x g]. destruct (to_terminal g b). by rewrite (assoc_L (++)).
Qed.

(** The child never sees a CR. *)
Lemma to_child_no_cr raw : forall f, Forall (fun b => b <> CR) (to_child f raw).1.
Proof.
  induction raw as [|c raw IH]; intros f; cbn; [constructor|]. destruct (f && (c =? LF)); [apply IH|].
  specialize (IH (c =? CR)). destruct (to_child (c =? CR) raw) as [x g]. constructor; [|done].
  destruct (Z.eqb_spec c CR); [done|done].
Qed.

(** Text without CR has every LF of the terminal's output directly after a CR. *)
Fixpoint lf_after_cr (after_cr : bool) (raw : list Z) : bool :=
  match raw with [] => true | b :: raw => (negb (b =? LF) || after_cr) && lf_after_cr (b =? CR) raw end.
Lemma to_terminal_lf text : forall f, lf_after_cr f (to_terminal f text).1 = true.
Proof.
  induction text as [|c text IH]; intros f; cbn; [done|]. specialize (IH (c =? CR)).
  destruct (to_terminal (c =? CR) text) as [x g]. cbn in IH |- *.
  destruct (Z.eqb_spec c LF) as [->|Hc]; destruct f; cbn in *; rewrite ?IH; try done. all: destruct (Z.eqb_spec c LF); [done|done].
Qed.

Lemma input_len_spec raw : forall f, input_len f raw = len (to_child f raw).1.
Proof.
  induction raw as [|c raw IH]; intros f; cbn [input_len to_child]; [done|]. destruct (f && (c =? LF)); [apply IH|].
  rewrite IH. destruct (to_child (c =? CR) raw). cbn. lia.
Qed.
Lemma output_len_spec text : forall f, output_len f text = len (to_terminal f text).1.
Proof.
  induction text as [|c text IH]; intros f; cbn [output_len to_terminal]; [done|]. rewrite IH.
  destruct (to_terminal (c =? CR) text). cbn [fst]. rewrite length_app. destruct ((c =? LF) && negb f); cbn; lia.
Qed.

Lemma input_loop_holds raw : forall f q l, holds q l -> len l + len (to_child f raw).1 <= STAGING_CAPACITY ->
  exists q', input_loop raw f q = Ok ((to_child f raw).2, q') /\ holds q' (l ++ (to_child f raw).1).
Proof.
  induction raw as [|c raw IH]; intros f q l H Hl; cbn [input_loop to_child] in *; [exists q; by rewrite app_nil_r|].
  destruct (f && (c =? LF)); [by apply IH|].
  destruct (Z.eqb_spec c CR) as [->|Hc]; destruct (to_child _ raw) as [x g] eqn:Hx; cbn [fst snd length] in *.
  - destruct (push_holds [LF] q l H) as (q1 & -> & H1); [cbn; lia|]. cbn [res_bind]. specialize (IH true q1 (l ++ [LF]) H1). rewrite Hx in IH.
    destruct IH as (q' & -> & H'); [rewrite length_app; cbn; lia|]. exists q'. split; [done|]. by rewrite <-(assoc_L (++)) in H'.
  - destruct (push_holds [c] q l H) as (q1 & -> & H1); [cbn; lia|]. cbn [res_bind]. specialize (IH false q1 (l ++ [c]) H1). rewrite Hx in IH.
    destruct IH as (q' & -> & H'); [rewrite length_app; cbn; lia|]. exists q'. split; [done|]. by rewrite <-(assoc_L (++)) in H'.
Qed.

Lemma output_loop_holds text : forall f q l, holds q l -> len l + len (to_terminal f text).1 <= STAGING_CAPACITY ->
  exists q', output_loop text f q = Ok ((to_terminal f text).2, q') /\ holds q' (l ++ (to_terminal f text).1).
Proof.
  induction text as [|c text IH]; intros f q l H Hl; cbn [output_loop to_terminal] in *; [exists q; by rewrite app_nil_r|].
  specialize (IH (c =? CR)). destruct (to_terminal (c =? CR) text) as [x g]. cbn [fst snd] in *. rewrite length_app in Hl.
  assert (exists q1, (if (c =? LF) && negb f then queue_push [CR] q else Ok q) = Ok q1 /\
    holds q1 (l ++ if (c =? LF) && negb f then [CR] else [])) as (q1 & -> & H1).
  { destruct ((c =? LF) && negb f); [apply push_holds; [done|]; cbn in *; lia|]. exists q. by rewrite app_nil_r. }
  cbn [res_bind]. destruct (push_holds [c] q1 _ H1) as (q2 & -> & H2); [rewrite length_app; destruct ((c =? LF) && negb f); cbn in *; lia|].
  cbn [res_bind]. destruct (IH q2 _ H2) as (q' & -> & H').
  { rewrite !length_app. destruct ((c =? LF) && negb f); cbn in *; lia. }
  exists q'. split; [done|]. rewrite <-!(assoc_L (++)) in H'. by destruct ((c =? LF) && negb f).
Qed.

(** Staging takes all of the bytes or none. *)
Lemma input_stage_spec raw f q : queue_ok q ->
  match input_stage raw f q with
  | Ok (g, q') => g = (to_child f raw).2 /\ queue_ok q' /\ contents q' = contents q ++ (to_child f raw).1 /\ len raw <= FAIR_SOURCE_BYTES_PER_TURN
  | Err e => (e = TooLarge /\ FAIR_SOURCE_BYTES_PER_TURN < len raw) \/
             (e = Backpressure /\ STAGING_CAPACITY < len (contents q) + len (to_child f raw).1)
  | Panic => False
  end.
Proof.
  intros H. unfold input_stage, queue_available. rewrite (queue_len_contents _ H). pose proof (h_max _ _ H).
  destruct (Z.ltb_spec FAIR_SOURCE_BYTES_PER_TURN (len raw)); [by left|].
  rewrite (proj2 (minus_Ok _ _ (STAGING_CAPACITY - len (contents q)))) by lia. cbn [res_bind]. rewrite input_len_spec.
  destruct (Z.ltb_spec (STAGING_CAPACITY - len (contents q)) (len (to_child f raw).1)); [right; split; [done|lia]|].
  destruct (input_loop_holds raw f q _ H) as (q' & -> & Hq'); [lia|]. destruct (holds_ok _ _ Hq'). by split_and!.
Qed.
Lemma output_stage_spec text f q : queue_ok q ->
  match output_stage text f q with
  | Ok (g, q') => g = (to_terminal f text).2 /\ queue_ok q' /\ contents q' = contents q ++ (to_terminal f text).1 /\ len text <= FAIR_SOURCE_BYTES_PER_TURN
  | Err e => (e = TooLarge /\ FAIR_SOURCE_BYTES_PER_TURN < len text) \/
             (e = Backpressure /\ STAGING_CAPACITY < len (contents q) + len (to_terminal f text).1)
  | Panic => False
  end.
Proof.
  intros H. unfold output_stage, queue_available. rewrite (queue_len_contents _ H). pose proof (h_max _ _ H).
  destruct (Z.ltb_spec FAIR_SOURCE_BYTES_PER_TURN (len text)); [by left|].
  rewrite (proj2 (minus_Ok _ _ (STAGING_CAPACITY - len (contents q)))) by lia. cbn [res_bind]. rewrite output_len_spec.
  destruct (Z.ltb_spec (STAGING_CAPACITY - len (contents q)) (len (to_terminal f text).1)); [right; split; [done|lia]|].
  destruct (output_loop_holds text f q _ H) as (q' & -> & Hq'); [lia|]. destruct (holds_ok _ _ Hq'). by split_and!.
Qed.

(** ** Restart windows *)

(** The failures it remembers, oldest first. *)
Definition recent (w : RestartWindow) : list Z := take (Z.to_nat (w_len w)) (times w).
Definition window_ok (w : RestartWindow) : Prop := len (times w) = MAX_FAILURES_PER_WINDOW /\ 0 <= w_len w <= MAX_FAILURES_PER_WINDOW.
(** The failures that still count at [now]. *)
Definition within (now : Z) (l : list Z) : list Z := filter (fun t => now - t < RESTART_WINDOW_MILLIS) l.

Lemma window_new_ok : window_ok window_new /\ recent window_new = [].
Proof. done. Qed.
Lemma window_clear_ok w : window_ok w -> window_ok (window_clear w) /\ recent (window_clear w) = [].
Proof. by intros [H _]. Qed.
Lemma length_recent w : window_ok w -> len (recent w) = w_len w.
Proof. intros [H ?]. unfold recent. rewrite length_take. lia. Qed.

Lemma window_keep_spec now n : forall times index kept l,
  len times = MAX_FAILURES_PER_WINDOW -> 0 <= kept <= index -> index + Z.of_nat n <= MAX_FAILURES_PER_WINDOW ->
  take (Z.to_nat kept) times = l -> len l = kept ->
  Forall (fun t => t <= now) (take n (drop (Z.to_nat index) times)) ->
  exists times', window_keep now times index kept n =
      Ok (times', kept + len (within now (take n (drop (Z.to_nat index) times)))) /\
    len times' = MAX_FAILURES_PER_WINDOW /\
    take (Z.to_nat (kept + len (within now (take n (drop (Z.to_nat index) times))))) times' = l ++ within now (take n (drop (Z.to_nat index) times)).
Proof.
  induction n as [|n IH]; intros times index kept l Ht Hk Hi Htk Hl Hall.
  { exists times. cbn. rewrite Z.add_0_r, app_nil_r. by split_and!. }
  cbn [window_keep]. destruct (proj2 (get_at_is_Some times index)) as [t Hg]; [lia|]. rewrite Hg. cbn [or_panic res_bind].
  apply get_at_lookup in Hg as [_ Hg]. rewrite (drop_S _ _ _ Hg) in Hall |- *. cbn [take] in Hall |- *. apply Forall_cons in Hall as [Hle Hall].
  rewrite (proj2 (minus_Ok _ _ (now - t))) by lia. cbn [res_bind]. unfold within in *. rewrite filter_cons.
  replace (S (Z.to_nat index)) with (Z.to_nat (index + 1)) in * by lia.
  destruct (Z.ltb_spec (now - t) RESTART_WINDOW_MILLIS) as [Hlt|Hge].
  - rewrite decide_True by done. destruct (proj2 (put_range_is_Some times kept [t])) as [times1 Hput]; [cbn; lia|].
    rewrite Hput. cbn [or_panic res_bind]. apply put_range_Some in Hput as (_ & _ & Hput). cbn [length] in Hput.
    assert (len times1 = MAX_FAILURES_PER_WINDOW) as Ht1.
    { rewrite Hput, !length_app, length_take, length_drop. cbn [length]. lia. }
    assert (drop (Z.to_nat (index + 1)) times1 = drop (Z.to_nat (index + 1)) times) as Hd.
    { rewrite Hput. rewrite drop_app_ge by (rewrite length_take; lia). rewrite length_take.
      rewrite drop_app_ge by (cbn; lia). rewrite drop_drop. f_equal. cbn [length]. lia. }
    destruct (IH times1 (index + 1) (kept + 1) (l ++ [t])) as (times' & Hrun & Hlen & Htake); try lia.
    + rewrite Hput, Htk. rewrite take_app_ge by lia. replace (Z.to_nat (kept + 1) - length l)%nat with 1%nat by lia. done.
    + rewrite length_app. cbn. lia.
    + by rewrite Hd.
    + rewrite Hd in *. exists times'. rewrite Hrun. cbn [length]. rewrite <-(assoc_L (++)) in Htake.
      split_and!; [f_equal; f_equal; lia|done|]. etrans; [|exact Htake]. f_equal. lia.
  - rewrite decide_False by lia. destruct (IH times (index + 1) kept l) as (times' & Hrun & Hlen & Htake); try lia; try done.
    exists times'. by split_and!.
Qed.

(** Recording a failure: the old ones that no longer count are forgotten, and the window
    is full when four count. *)
Lemma window_add_spec now w : window_ok w -> Forall (fun t => t <= now) (recent w) ->
  exists w', window_add now w = Ok (w', MAX_FAILURES_PER_WINDOW <=? w_len w') /\ window_ok w' /\
    recent w' = (if len (within now (recent w)) <? MAX_FAILURES_PER_WINDOW then within now (recent w) ++ [now] else within now (recent w)).
Proof.
  intros [Ht Hl] Hall. unfold window_add.
  destruct (window_keep_spec now (Z.to_nat (w_len w)) (times w) 0 0 []) as (times' & Hrun & Hlen & Htake); try done; try lia.
  unfold recent in *. change (drop (Z.to_nat 0) (times w)) with (times w) in *. rewrite Hrun. cbn [res_bind]. rewrite Z.add_0_l in *.
  set (kept := within now (take (Z.to_nat (w_len w)) (times w))) in *.
  assert (len kept <= MAX_FAILURES_PER_WINDOW) as Hk.
  { pose proof (f_equal length Htake) as Hc. cbn [app] in Hc. rewrite length_take in Hc. lia. }
  destruct (Z.ltb_spec (len kept) MAX_FAILURES_PER_WINDOW) as [Hlt|Hge].
  - destruct (proj2 (put_range_is_Some times' (len kept) [now])) as [times1 Hput]; [cbn; lia|]. rewrite Hput. cbn [or_panic res_bind].
    eexists. split; [done|]. apply put_range_Some in Hput as (_ & _ & ->). unfold window_ok. cbn [times w_len]. split_and!; try lia.
    + rewrite !length_app, length_take, length_drop. cbn [length]. lia.
    + rewrite Htake. cbn [app]. rewrite take_app_ge by lia. f_equal. by replace (Z.to_nat (len kept + 1) - length kept)%nat with 1%nat by lia.
  - cbn [res_bind]. eexists. split; [done|]. unfold window_ok. cbn [times w_len]. split_and!; try lia. done.
Qed.

(** * The console's invariant

    A console together with what its caller holds: launch transactions, cleanup tokens
    and reservations with the bytes they came with, none of which the caller can make
    up.  The log has what was read from the terminal and from the child and what was
    sent to them, by session. *)


(** ** The caller *)

Inductive Entry :=
| Received (e : EventGeneration) (raw : list Z)
| Written (e : EventGeneration) (s : OutputSource) (text : list Z)
| SentToChild (e : EventGeneration) (text : list Z)
| SentToTerminal (e : EventGeneration) (s : OutputSource) (raw : list Z).

Definition entry_event (entry : Entry) : EventGeneration :=
  match entry with Received e _ | Written e _ _ | SentToChild e _ | SentToTerminal e _ _ => e end.

(** The bytes of one kind, of one session, in order. *)
Definition collect (part : Entry -> list Z) (log : list Entry) : list Z := mjoin (part <$> log).
Definition received_of (e : EventGeneration) (entry : Entry) : list Z :=
  match entry with Received e' b => if decide (e' = e) then b else [] | _ => [] end.
Definition written_of (e : EventGeneration) (s : OutputSource) (entry : Entry) : list Z :=
  match entry with Written e' s' b => if decide (e' = e /\ s' = s) then b else [] | _ => [] end.
Definition sent_to_child_of (e : EventGeneration) (entry : Entry) : list Z :=
  match entry with SentToChild e' b => if decide (e' = e) then b else [] | _ => [] end.
Definition sent_to_terminal_of (e : EventGeneration) (s : OutputSource) (entry : Entry) : list Z :=
  match entry with SentToTerminal e' s' b => if decide (e' = e /\ s' = s) then b else [] | _ => [] end.
Definition received (e : EventGeneration) : list Entry -> list Z := collect (received_of e).
Definition written (e : EventGeneration) (s : OutputSource) : list Entry -> list Z := collect (written_of e s).
Definition sent_to_child (e : EventGeneration) : list Entry -> list Z := collect (sent_to_child_of e).
Definition sent_to_terminal (e : EventGeneration) (s : OutputSource) : list Entry -> list Z := collect (sent_to_terminal_of e s).

Lemma collect_snoc part log entry : collect part (log ++ [entry]) = collect part log ++ part entry.
Proof. unfold collect. rewrite fmap_app, join_app. cbn. by rewrite app_nil_r. Qed.
Lemma collect_nil part log : Forall (fun entry => part entry = []) log -> collect part log = [].
Proof. induction 1 as [|entry log He _ IH]; [done|]. unfold collect in *. cbn. by rewrite He. Qed.

Record World := mkWorld {
  model : C; transactions : list LaunchTransaction; cleanup_tokens : list LaunchCleanupToken;
  reserved : list (Reservation * list Z); log : list Entry }.

(** ** The invariant *)

(** Which parts go together in which state. *)
Record shape (c : C) : Prop := {
  s_pair : is_Some (serial c) <-> is_Some (console_generation c);
  s_cleanup : serial_invalidated c = negb (serial_cleanup c);
  s_launch_cleanup : forall p, pending_launch_cleanup c = Some p -> pending_launch c = Some p;
  s_launch : forall p, pending_launch c = Some p ->
    serial c = Some (li_serial p) /\ console_generation c = Some (li_console_generation p) /\ child c = None /\
    li_child_generation p <> 0 /\ li_child_launch p <> 0 /\ (state c = Active \/ state c = FailClosed);
  s_child : forall v, child c = Some v ->
    serial c = Some (id_serial (ids v)) /\ console_generation c = Some (id_console_generation (ids v)) /\
    id_child_generation (ids v) <> 0 /\ id_child_job (ids v) <> 0 /\ id_child_launch (ids v) <> 0 /\
    state c <> Reconnecting /\ state c <> Exhausted;
  s_serial : forall s, serial c = Some s -> connected s = true /\ pending_connect c = None;
  s_state : match state c with
            | Active => is_Some (serial c)
            | RetiringChild | AwaitingReap => is_Some (child c)
            | Reconnecting => serial c = None /\ serial_cleanup c = true
            | Exhausted | FailClosed => True
            end;
  s_connect : forall r, pending_connect c = Some r -> state c = Reconnecting \/ state c = FailClosed;
  s_generation : 0 < next_generation c /\ forall g, console_generation c = Some g -> g <> 0 }.

(** A time that has passed. *)
Definition passed (c : C) (t : Z) : Prop := match last_now c with Some now => t <= now | None => False end.
Record clock (c : C) : Prop := {
  k_child : window_ok (child_window c) /\ Forall (passed c) (recent (child_window c));
  k_serial : window_ok (serial_window c) /\ Forall (passed c) (recent (serial_window c));
  k_failure : forall t, child_failure_at c = Some t -> passed c t /\ Forall (fun s => s <= t) (recent (child_window c));
  k_stable : forall token since, stable c = Some (token, since) -> passed c since }.

Definition normalizer_for (c : C) (s : OutputSource) : bool := match s with Stdout => stdout_normalizer c | Stderr => stderr_normalizer c end.
(** No session can stage anything. *)
Definition quiet (c : C) : Prop := child c = None \/ state c = RetiringChild \/ state c = AwaitingReap.
Definition nothing_staged (c : C) : Prop :=
  contents (input c) = [] /\ (forall s, contents (queue_for c s) = [] /\ normalizer_for c s = false) /\
  pending_stdin c = None /\ pending_tx c = None.

(** All that was received in a session has been sent on or is waiting. *)
Definition accounted_in (e : EventGeneration) (log : list Entry) (waiting : list Z) (after_cr : bool) : Prop :=
  exists before, to_child before (received e log) = (sent_to_child e log ++ waiting, after_cr).
Definition accounted_out (e : EventGeneration) (s : OutputSource) (log : list Entry) (waiting : list Z) (after_cr : bool) : Prop :=
  to_terminal false (written e s log) = (sent_to_terminal e s log ++ waiting, after_cr).
Definition faithful_log (log : list Entry) : Prop :=
  forall e, (exists waiting f, accounted_in e log waiting f) /\ forall s, exists waiting f, accounted_out e s log waiting f.

(** What a pending reservation stands for. *)
Definition stands_for (r : Reservation) (q : BoundedQueue) (reserved : list (Reservation * list Z)) : Prop :=
  0 <= res_length r <= len (contents q) /\ (r, take (Z.to_nat (res_length r)) (contents q)) ∈ reserved.

Record data (c : C) (reserved : list (Reservation * list Z)) (log : list Entry) : Prop := {
  d_input : queue_ok (input c);
  d_output : forall s, queue_ok (queue_for c s);
  d_quiet : quiet c -> nothing_staged c;
  d_stdin : forall r, pending_stdin c = Some r -> res_source r = None /\ stands_for r (input c) reserved;
  d_tx : forall r, pending_tx c = Some r -> exists s, res_source r = Some s /\ stands_for r (queue_for c s) reserved;
  d_tokens : Forall (fun rb => res_token rb.1 < next_reservation c) reserved /\ NoDup ((fun rb => res_token rb.1) <$> reserved);
  d_log : faithful_log log;
  d_current : forall v, state c = Active -> child c = Some v ->
    accounted_in (event_from (ids v)) log (contents (input c)) (input_normalizer c) /\
    forall s, accounted_out (event_from (ids v)) s log (contents (queue_for c s)) (normalizer_for c s);
  d_fresh : Forall (fun entry => ev_child_generation (entry_event entry) < next_generation c) log /\
    (forall v, child c = Some v -> id_child_generation (ids v) < next_generation c) /\
    forall p, pending_launch c = Some p -> li_child_generation p < next_generation c /\
      Forall (fun entry => ev_child_generation (entry_event entry) <> li_child_generation p) log }.

(** A token has the six entries of its transaction. *)
Definition token_ok (t : LaunchCleanupToken) : Prop := exists tx, abort_cleanup tx = Ok (token_cleanup t).

Record inv (c : C) (reserved : list (Reservation * list Z)) (log : list Entry) : Prop := mkInv {
  i_shape : shape c; i_clock : clock c; i_data : data c reserved log }.

(** ** What it gives *)

Lemma shape_validates c : shape c -> validate_invariants c = true.
Proof.
  intros []. unfold validate_invariants.
  repeat match goal with |- (if ?b then false else _) = true => let H := fresh "Hb" in destruct b eqn:H; [exfalso; rename H into Hk|clear H] end; [..|done].
  - destruct (pending_launch_cleanup c) as [p|]; [|done]. rewrite (s_launch_cleanup0 p eq_refl) in Hk. by rewrite bool_decide_true in Hk.
  - destruct (pending_launch c) as [p|]; [|done]. destruct (s_launch0 p eq_refl) as (Hs & Hg & Hc & _).
    rewrite Hs, Hg, Hc in Hk. destruct (s_serial0 _ Hs) as [_ Hp]. by rewrite Hp in Hk.
  - apply andb_true_iff in Hk as [Hs%bool_decide_eq_true Hk]. rewrite Hs in *. destruct s_state0 as [Hn Hcl].
    rewrite Hn, Hcl in *. destruct (console_generation c); [by destruct s_pair0 as [_ []]|].
    destruct (child c) as [v|]; [by destruct (s_child0 v eq_refl)|]. destruct (pending_launch c) as [p|]; [by destruct (s_launch0 p eq_refl)|].
    cbn in Hk. by rewrite s_cleanup0 in Hk.
  - apply andb_true_iff in Hk as [Hs%bool_decide_eq_true Hk]. rewrite Hs in *. by destruct s_state0 as [? Hse]; rewrite Hse in Hk.
  - destruct (pending_connect c) as [r|] eqn:Hr; [|done]. cbn in Hk.
    destruct (serial c) as [s|] eqn:Hs; [by destruct (s_serial0 s eq_refl) as [_ ?]|].
    destruct (console_generation c); [by destruct s_pair0 as [_ []]|].
    destruct (child c) as [v|]; [by destruct (s_child0 v eq_refl)|]. destruct (pending_launch c) as [p|]; [by destruct (s_launch0 p eq_refl)|].
    cbn in Hk. destruct (s_connect0 r eq_refl) as [Hst|Hst]; rewrite Hst in Hk; discriminate Hk.
  - destruct (child c) as [v|] eqn:Hc; [|done]. destruct (s_child0 v eq_refl) as (Hs & Hg & _). rewrite Hs, Hg in *.
    destruct (s_serial0 _ eq_refl) as [_ Hp]. rewrite Hp in Hk. destruct (pending_launch c) as [p|]; [by destruct (s_launch0 p eq_refl) as (_ & _ & ? & _)|done].
  - destruct (serial c), (console_generation c); try done; first [by destruct s_pair0 as [[] _]|by destruct s_pair0 as [_ []]].
  - rewrite s_cleanup0 in Hk. by destruct (serial_cleanup c).
Qed.

(** ** The status it reports *)

Lemma connected_nonzero s : connected s = true ->
  sc_registry_generation s <> 0 /\ sc_publication_generation s <> 0 /\ sc_device_bundle s <> 0 /\ sc_driver_attempt s <> 0 /\ sc_stream_generation s <> 0.
Proof. unfold connected. intros H. bool_prop. done. Qed.

Lemma as_u32_small v : v <= STAGING_CAPACITY -> as_u32 v = Ok v.
Proof. intros H. unfold as_u32, try_from_unsigned, STAGING_CAPACITY in *. by rewrite (proj2 (Z.ltb_lt _ _)) by lia. Qed.

Lemma peer_mask_range live : Z.land (peer_mask live) (Z.lnot ConsoleProto.LIVE_PEER_MASK) = 0.
Proof. by destruct live as [[] [] []]. Qed.

(** The seven flags. *)
Definition seven_flags (a b c d e f g : bool) : Z :=
  with_flag g ConsoleProto.FLAG_SERIAL_RESTART_EXHAUSTED (with_flag f ConsoleProto.FLAG_CHILD_RESTART_EXHAUSTED
    (with_flag e ConsoleProto.FLAG_PENDING_LAUNCH_CLEANUP (with_flag d ConsoleProto.FLAG_PENDING_LAUNCH
      (with_flag c ConsoleProto.FLAG_SERIAL_INVALIDATED (with_flag b ConsoleProto.FLAG_CHILD_PRESENT
        (with_flag a ConsoleProto.FLAG_SERIAL_PRESENT 0)))))).
Lemma seven_flags_spec a b c d e f g :
  Z.land (seven_flags a b c d e f g) (Z.lnot ConsoleProto.FLAGS_MASK) = 0 /\
  (Z.land (seven_flags a b c d e f g) ConsoleProto.FLAG_SERIAL_PRESENT =? 0) = negb a /\
  (Z.land (seven_flags a b c d e f g) ConsoleProto.FLAG_CHILD_PRESENT =? 0) = negb b.
Proof. by destruct a, b, c, d, e, f, g. Qed.

(** A snapshot whose parts are present or not as its flags say. *)
Lemma snapshot_valid (st : ConsoleProto.State) (s : option SerialCorrelation) (v : option ChildSession) c d e f g iq oq eq cf sf lf :
  (forall x, s = Some x -> connected x = true) ->
  (forall x, v = Some x -> id_child_generation (ids x) <> 0 /\ id_child_job (ids x) <> 0 /\ id_child_launch (ids x) <> 0) ->
  iq <= 4096 -> oq <= 4096 -> eq <= 4096 -> cf <= 4 -> sf <= 4 ->
  let of_serial (h : SerialCorrelation -> Z) := match s with Some x => h x | None => 0 end in
  ConsoleProto.validate (ConsoleProto.mkSnapshot st (seven_flags (is_some s) (is_some v) c d e f g) (of_serial sc_registry_generation)
    (of_serial sc_publication_generation) (of_serial sc_device_bundle) (of_serial sc_driver_attempt) (of_serial sc_stream_generation)
    (default 0 ((fun x => id_child_generation (ids x)) <$> v)) (default 0 ((fun x => id_child_job (ids x)) <$> v))
    (default 0 ((fun x => id_child_launch (ids x)) <$> v))
    (peer_mask match v with
               | Some x => mk3 (peer_live (third0 (peers x))) (peer_live (third1 (peers x))) (peer_live (third2 (peers x)))
               | None => mk3 false false false
               end) iq oq eq cf sf lf) = Ok tt.
Proof.
  intros Hs Hv Hi Ho He Hcf Hsf of_serial. unfold ConsoleProto.validate, ConsoleProto.has_flag.
  cbn [ConsoleProto.flags ConsoleProto.live_peer_mask ConsoleProto.input_queue_bytes ConsoleProto.stdout_queue_bytes
    ConsoleProto.stderr_queue_bytes ConsoleProto.child_failures ConsoleProto.serial_failures].
  destruct (seven_flags_spec (is_some s) (is_some v) c d e f g) as (-> & -> & ->). rewrite peer_mask_range.
  unfold ConsoleProto.MAX_QUEUE_BYTES, ConsoleProto.MAX_FAILURES. rewrite !(proj2 (Z.ltb_ge _ _)) by done. cbn [Z.eqb negb orb].
  rewrite !negb_involutive. subst of_serial. destruct s as [s|]; cbn.
  - destruct (connected_nonzero s (Hs s eq_refl)) as (H1 & H2 & H3 & H4 & H5).
    rewrite (proj2 (Z.eqb_neq _ _) H1), (proj2 (Z.eqb_neq _ _) H2), (proj2 (Z.eqb_neq _ _) H3), (proj2 (Z.eqb_neq _ _) H4), (proj2 (Z.eqb_neq _ _) H5). cbn.
    destruct v as [v|]; [|done]. destruct (Hv v eq_refl) as (H6 & H7 & H8). cbn.
    by rewrite (proj2 (Z.eqb_neq _ _) H6), (proj2 (Z.eqb_neq _ _) H7), (proj2 (Z.eqb_neq _ _) H8).
  - destruct v as [v|]; [|done]. destruct (Hv v eq_refl) as (H6 & H7 & H8). cbn.
    by rewrite (proj2 (Z.eqb_neq _ _) H6), (proj2 (Z.eqb_neq _ _) H7), (proj2 (Z.eqb_neq _ _) H8).
Qed.

Lemma inv_reports c reserved log : inv c reserved log -> exists wire, status_snapshot c = Ok wire /\ ConsoleProto.validate wire = Ok tt.
Proof.
  intros [[] [] []]. unfold status_snapshot, snapshot. cbn [sn_input_queued sn_stdout_queued sn_stderr_queued sn_child_failures sn_serial_failures].
  pose proof (d_output0 Stdout) as Ho. pose proof (d_output0 Stderr) as He. cbn [queue_for] in Ho, He.
  rewrite (queue_len_contents _ d_input0), (queue_len_contents _ Ho), (queue_len_contents _ He).
  pose proof (h_max _ _ d_input0). pose proof (h_max _ _ Ho). pose proof (h_max _ _ He).
  destruct k_child0 as [[_ Hcw] _], k_serial0 as [[_ Hsw] _]. unfold failures.
  rewrite !as_u32_small by (unfold STAGING_CAPACITY, MAX_FAILURES_PER_WINDOW in *; lia). cbn [res_bind].
  match goal with |- context [ConsoleProto.validate ?w] => set (wire := w) end.
  assert (ConsoleProto.validate wire = Ok tt) as Hv; [|exists wire; by rewrite Hv].
  cbn [sn_state sn_serial sn_child_generation sn_child_job sn_child_launch sn_peers_live sn_serial_invalidated sn_pending_launch
    sn_pending_launch_cleanup sn_child_restart_exhausted sn_serial_restart_exhausted sn_last_failure] in wire.
  assert (is_some ((fun v => id_child_generation (ids v)) <$> child c) = is_some (child c)) as Hc by (by destruct (child c)).
  unfold wire. rewrite Hc. apply snapshot_valid; try done.
  - intros s Hs. by destruct (s_serial0 s Hs).
  - intros v Hc'. by destruct (s_child0 v Hc') as (_ & _ & ? & ? & ? & _).
  - unfold MAX_FAILURES_PER_WINDOW in Hcw. lia.
  - unfold MAX_FAILURES_PER_WINDOW in Hsw. lia.
Qed.
