(* ===== verification/ConsoleOps.v ===== *)
(** * Every operation of the console keeps the invariant *)

From stdpp Require Import base tactics option list list_numbers.
From Stdlib Require Import ZArith Lia.
From S2P Require Import Prelude Bytes Layout StateM ConsoleProto Console ConsoleInv.

Import Console.

(** ** Steps *)

Section rules.
Context {A : Type}.
Implicit Types (c : C) (Q : A -> C -> Prop) (R : ModelError -> C -> Prop).

Definition failed (e : ModelError) (c : C) : C := set_stable None (set_last_failure (Some e) (set_state FailClosed c)).
Definition unreserved (c : C) : C := set_pending_tx None (set_pending_stdin None c).
Definition cleared (c : C) : C :=
  set_ready_observed None (set_stable None (unreserved (set_next_output Stdout (set_stderr_normalizer false (set_stdout_normalizer false
    (set_stderr (queue_clear (stderr c)) (set_stdout (queue_clear (stdout c)) (set_input (queue_clear (input c)) c)))))))).

Lemma con_refuse_if b e (Q : unit -> C -> Prop) R c : (b = true -> R e c) -> (b = false -> Q tt c) -> wp (refuse_if b e) Q R c.
Proof. intros HR HQ. unfold refuse_if. destruct b; [by apply HR|by apply HQ]. Qed.
Lemma wp_self (Q : C -> C -> Prop) R c : Q c c -> wp self Q R c.
Proof. done. Qed.
Lemma con_lift (r : result A) Q R c : r <> Panic -> (forall e, r = Err e -> R e c) -> (forall a, r = Ok a -> Q a c) -> wp (lift r) Q R c.
Proof. intros HP HR HQ. unfold wp, lift. destruct r; [by apply HQ|by apply HR|done]. Qed.
Lemma wp_live_event (Q : EventGeneration -> C -> Prop) R c :
  (forall e, R e c) -> (forall v, child c = Some v -> state c = Active -> all_peers_live v = true -> Q (event_from (ids v)) c) -> wp get_live_event Q R c.
Proof.
  intros HR HQ. unfold wp, get_live_event, live_event. destruct (child c) as [v|] eqn:Hc; cbn [ok_or res_bind]; [|by apply HR].
  destruct (negb _ || negb _) eqn:Hb; [by apply HR|]. apply orb_false_iff in Hb as [Hs Hl].
  apply negb_false_iff in Hs, Hl. apply bool_decide_eq_true in Hs. by apply HQ.
Qed.
Lemma wp_or_fail (o : option A) e Q R c : (o = None -> R e (failed e c)) -> (forall a, o = Some a -> Q a c) -> wp (or_fail o e) Q R c.
Proof. intros HR HQ. unfold or_fail. destruct o; [by apply HQ|by apply HR]. Qed.
Lemma wp_time now (Q : unit -> C -> Prop) R c :
  R MonotonicRegression (failed MonotonicRegression c) ->
  ((forall t, last_now c = Some t -> t <= now) -> Q tt (set_last_now (Some now) c)) -> wp (time now) Q R c.
Proof.
  intros HR HQ. unfold time. wp_step. wp_step. destruct (last_now c) as [t|] eqn:Hl.
  - destruct (Z.ltb_spec now t); [by repeat wp_step|]. wp_step. apply HQ. by intros t' [= <-].
  - wp_step. by apply HQ.
Qed.
Lemma wp_clear_volatile (Q : unit -> C -> Prop) R c : Q tt (cleared c) -> wp clear_volatile Q R c.
Proof. done. Qed.
Lemma wp_clear_reservations (Q : unit -> C -> Prop) R c : Q tt (unreserved c) -> wp clear_reservations Q R c.
Proof. done. Qed.
Lemma wp_require_current event (Q : unit -> C -> Prop) R c :
  R StaleCorrelation (set_last_failure (Some StaleCorrelation) c) ->
  (forall v, state c = Active -> child c = Some v -> event_from (ids v) = event -> Q tt c) -> wp (require_current event) Q R c.
Proof.
  intros HR HQ. unfold require_current. wp_step. wp_step. unfold event_is_current.
  case_bool_decide as Hs; [|by repeat wp_step]. destruct (child c) as [v|] eqn:Hc; [|by repeat wp_step]. cbn.
  case_bool_decide as He; [|by repeat wp_step]. wp_step. apply (HQ v); [done|done|congruence].
Qed.
End rules.
Lemma wp_allocate get set (Q : Z -> C -> Prop) R c :
  (forall e, R e (failed e c)) -> (get c + 1 < 2 ^ 64 -> Q (get c) (set (get c + 1) c)) ->
  wp (value ← gets get; next ← or_fail (checked_add_u64 value 1) ArithmeticOverflow; _ ← modify (set next); mret value) Q R c.
Proof.
  intros HR HQ. repeat wp_step. apply wp_or_fail; [done|]. intros next [-> Hlt]%checked_add_Some. repeat wp_step. by apply HQ.
Qed.
(** Enter the next statement. *)
Ltac con_step :=
  match goal with
  | |- wp (refuse_if _ _) _ _ _ => apply con_refuse_if; [let H := fresh "Hb" in intros H|let H := fresh "Hb" in intros H]
  | |- wp self _ _ _ => apply wp_self
  | |- wp (time _) _ _ _ => apply wp_time; [|let H := fresh "Hmono" in intros H]
  | |- wp clear_volatile _ _ _ => apply wp_clear_volatile
  | |- wp clear_reservations _ _ _ => apply wp_clear_reservations
  | |- wp (require_current _) _ _ _ => apply wp_require_current; [|let v := fresh "v" in let H1 := fresh "Hact" in let H2 := fresh "Hchild" in let H3 := fresh "Hev" in intros v H1 H2 H3]
  | |- wp get_live_event _ _ _ => apply wp_live_event; [intros ?|let v := fresh "v" in let H1 := fresh "Hact" in let H2 := fresh "Hchild" in let H3 := fresh "Hlive" in intros v H2 H1 H3]
  | |- wp (or_fail _ _) _ _ _ => apply wp_or_fail; [let H := fresh "Hover" in intros H|let a := fresh "a" in let H := fresh "Ho" in intros a H]
  | |- wp allocate_generation _ _ _ => apply wp_allocate; [intros ?|let H := fresh "Hn" in intros H]
  | |- wp allocate_endpoint _ _ _ => apply wp_allocate; [intros ?|let H := fresh "Hn" in intros H]
  | |- wp allocate_reservation _ _ _ => apply wp_allocate; [intros ?|let H := fresh "Hn" in intros H]
  | |- wp (lift (ok_or _ ?o)) _ _ _ => let a := fresh "a" in let H := fresh "Ho" in destruct o as [a|] eqn:H; cbn [ok_or]; (apply con_lift; [done|first [intros ? [= <-]|intros ? [=]]|first [intros ? [= <-]|intros ? [=]]])
  | _ => wp_step
  end.

Lemma is_some_false {A} (o : option A) : is_some o = false <-> o = None.
Proof. by destruct o. Qed.
(** What the passed tests say. *)
Ltac facts :=
  bool_prop; repeat match goal with
  | H : is_some _ = false |- _ => apply is_some_false in H
  | H : bool_decide _ = true |- _ => apply bool_decide_eq_true in H
  | H : bool_decide _ = false |- _ => apply bool_decide_eq_false in H
  end.

(** ** Parts that stay *)

Lemma data_same c c' reserved log : data c reserved log ->
  input c' = input c -> (forall s, queue_for c' s = queue_for c s) -> (forall s, normalizer_for c' s = normalizer_for c s) ->
  (pending_stdin c' = pending_stdin c \/ pending_stdin c' = None) -> (pending_tx c' = pending_tx c \/ pending_tx c' = None) ->
  next_reservation c' = next_reservation c -> next_generation c <= next_generation c' ->
  (forall v', child c' = Some v' -> exists v, child c = Some v /\ ids v = ids v') ->
  (state c' = Active -> is_Some (child c') -> state c = Active /\ input_normalizer c' = input_normalizer c) ->
  (quiet c' -> quiet c) -> (forall p, pending_launch c' = Some p -> pending_launch c = Some p) -> data c' reserved log.
Proof.
  intros [Di Do Dq Ds Dt Dk Dl Dc Df] Hi Hq Hn Hps Hpt Hr Hg Hc Ha Hqu Hp. split; rewrite ?Hi.
  - done.
  - intros s. by rewrite Hq.
  - intros Hquiet%Hqu%Dq. destruct Hquiet as (H1 & H2 & H3 & H4). unfold nothing_staged. rewrite Hi. split_and!; [done| | |].
    + intros s. by rewrite Hq, Hn.
    + destruct Hps as [-> | ->]; done.
    + destruct Hpt as [-> | ->]; done.
  - intros r Hrr. destruct Hps as [Hps|Hps]; [|congruence]. apply Ds. congruence.
  - intros r Hrr. destruct Hpt as [Hpt|Hpt]; [|congruence]. rewrite Hpt in Hrr. destruct (Dt r Hrr) as (s & ? & ?). exists s. by rewrite Hq.
  - by rewrite Hr.
  - done.
  - intros v' Hs Hv'. destruct (Ha Hs) as [Hs' Hin]; [by eexists|]. destruct (Hc v' Hv') as (v & Hv & Hids). rewrite <-Hids, Hin.
    destruct (Dc v Hs' Hv) as [? Hcur]. split; [done|]. intros s. rewrite Hq, Hn. apply Hcur.
  - destruct Df as (H1 & H2 & H3). split_and!.
    + eapply Forall_impl; [exact H1|]. cbn. intros; lia.
    + intros v' Hv'. destruct (Hc v' Hv') as (v & Hv & <-). apply H2 in Hv. lia.
    + intros p Hp'. destruct (H3 p (Hp p Hp')). split; [lia|done].
Qed.

(** A session ends: nothing is staged any more. *)
Lemma data_stop c c' reserved log : data c reserved log ->
  input c' = queue_clear (input c) -> (forall s, queue_for c' s = queue_clear (queue_for c s)) -> (forall s, normalizer_for c' s = false) ->
  pending_stdin c' = None -> pending_tx c' = None ->
  next_reservation c' = next_reservation c -> next_generation c <= next_generation c' ->
  (forall v', child c' = Some v' -> exists v, child c = Some v /\ ids v = ids v') ->
  (state c' = Active -> child c' = None) -> (forall p, pending_launch c' = Some p -> pending_launch c = Some p) -> data c' reserved log.
Proof.
  intros [Di Do Dq Ds Dt Dk Dl Dc Df] Hi Hq Hn Hps Hpt Hr Hg Hc Ha Hp. destruct (clear_contents _ Di) as [Hok Hempty]. split; rewrite ?Hi.
  - done.
  - intros s. rewrite Hq. by apply clear_contents.
  - intros _. unfold nothing_staged. rewrite Hi. split_and!; [done| |done|done]. intros s. rewrite Hq, Hn. by destruct (clear_contents _ (Do s)).
  - rewrite Hps. done.
  - rewrite Hpt. done.
  - by rewrite Hr.
  - done.
  - intros v' Hs Hv'. rewrite (Ha Hs) in Hv'. done.
  - destruct Df as (H1 & H2 & H3). split_and!.
    + eapply Forall_impl; [exact H1|]. cbn. intros; lia.
    + intros v' Hv'. destruct (Hc v' Hv') as (v & Hv & <-). apply H2 in Hv. lia.
    + intros p Hp'. destruct (H3 p (Hp p Hp')). split; [lia|done].
Qed.

Lemma shape_same c c' : shape c -> state c' = state c -> serial c' = serial c -> console_generation c' = console_generation c ->
  child c' = child c -> pending_launch c' = pending_launch c -> pending_launch_cleanup c' = pending_launch_cleanup c ->
  pending_connect c' = pending_connect c -> serial_cleanup c' = serial_cleanup c -> serial_invalidated c' = serial_invalidated c ->
  next_generation c' = next_generation c -> shape c'.
Proof. intros [] H1 H2 H3 H4 H5 H6 H7 H8 H9 H10. split; rewrite ?H1, ?H2, ?H3, ?H4, ?H5, ?H6, ?H7, ?H8, ?H9, ?H10; assumption. Qed.

Lemma clock_same c c' : clock c -> last_now c' = last_now c -> child_window c' = child_window c -> serial_window c' = serial_window c ->
  (child_failure_at c' = child_failure_at c \/ child_failure_at c' = None) -> (stable c' = stable c \/ stable c' = None) -> clock c'.
Proof.
  intros [Kc Ks Kf Kt] Hn Hcw Hsw Hf Hst. unfold passed in *. split; unfold passed; rewrite ?Hn, ?Hcw, ?Hsw; try done.
  - intros t Ht. apply Kf. destruct Hf; congruence.
  - intros token since H. apply (Kt token since). destruct Hst; congruence.
Qed.

Lemma passed_later c now t : (forall t, last_now c = Some t -> t <= now) -> passed c t -> t <= now.
Proof. unfold passed. destruct (last_now c) as [n|]; [|done]. intros H Ht. specialize (H n eq_refl). lia. Qed.

Lemma inv_now now c reserved log : (forall t, last_now c = Some t -> t <= now) -> inv c reserved log -> inv (set_last_now (Some now) c) reserved log.
Proof.
  intros Hm [[Sp Sc Slc Sl Sch Sse Sst Sco Sg] [Kc Ks Kf Kt] Hd]. split.
  - by split.
  - destruct Kc as [? Hc], Ks as [? Hs]. split; cbn.
    + split; [done|]. eapply Forall_impl; [exact Hc|]. intros t Ht. by eapply passed_later.
    + split; [done|]. eapply Forall_impl; [exact Hs|]. intros t Ht. by eapply passed_later.
    + intros t Ht. destruct (Kf t Ht). split; [by eapply passed_later|done].
    + intros token since Hst. eapply passed_later; [done|]. by eapply Kt.
  - eapply data_same; [exact Hd|..]; cbn; eauto; try done. 
Qed.

Lemma inv_failed e c reserved log : inv c reserved log -> inv (failed e c) reserved log.
Proof.
  intros [[Sp Sc Slc Sl Sch Sse Sst Sco Sg] Hk Hd]. split.
  - split; cbn; try done.
    + intros p Hp. destruct (Sl p Hp) as (? & ? & ? & ? & ? & _). by split_and!; try right.
    + intros v Hv. destruct (Sch v Hv) as (? & ? & ? & ? & ? & _). by split_and!.
    + by right.
  - eapply clock_same; [exact Hk|..]; cbn; auto.
  - eapply data_same; [exact Hd|..]; cbn; eauto; try done. unfold quiet. cbn. intros [?|[?|?]]; [by left|done|done].
Qed.

(** ** Operations that leave the staged data alone *)

Definition kept {A} (m : M A) (c : C) (reserved : list (Reservation * list Z)) (log : list Entry) : Prop :=
  wp m (fun _ c' => inv c' reserved log) (fun _ c' => inv c' reserved log) c.

(** Take the invariant apart; what is not settled at once is left. *)
Ltac rebuild :=
  match goal with H : inv ?c _ _ |- _ =>
    destruct H as [[Sp Sc Slc Sl Sch Sse Sst Sco Sg] Hk Hd]
  end;
  split; [split; cbn; try done
         |eapply clock_same; [eassumption|..]; cbn; auto
         |eapply data_same; [eassumption|..]; cbn; eauto; try done].

Section keeps.
Context (reserved : list (Reservation * list Z)) (log : list Entry).

Lemma keeps_last_failure e c : inv c reserved log -> inv (set_last_failure e c) reserved log.
Proof. intros Hi. rebuild. Qed.
Lemma keeps_pending_recovery a c : inv c reserved log -> inv (set_pending_recovery a c) reserved log.
Proof. intros Hi. rebuild. Qed.

Lemma keeps_child_exhausted b c : inv c reserved log -> inv (set_child_exhausted b c) reserved log.
Proof. intros Hi. rebuild. Qed.
Lemma keeps_serial_exhausted b c : inv c reserved log -> inv (set_serial_exhausted b c) reserved log.
Proof. intros Hi. rebuild. Qed.
Lemma keeps_is_reaped b c : inv c reserved log -> inv (set_is_reaped b c) reserved log.
Proof. intros Hi. rebuild. Qed.
Lemma keeps_is_terminated b c : inv c reserved log -> inv (set_is_terminated b c) reserved log.
Proof. intros Hi. rebuild. Qed.

Lemma keeps_begin_connect r c : inv c reserved log -> kept (begin_connect r) c reserved log.
Proof.
  intros Hi. unfold kept, begin_connect. repeat con_step; try done.
  apply orb_false_iff in Hb0 as [Hs Hp]. apply negb_false_iff, bool_decide_eq_true in Hs. rebuild.
  - rewrite Hs in Sst. intros s Hse. by rewrite (proj1 Sst) in Hse.
  - intros r' _. by left.
Qed.
Lemma keeps_abort_connect r c : inv c reserved log -> kept (abort_connect r) c reserved log.
Proof.
  intros Hi. unfold kept, abort_connect. repeat con_step; try done. rebuild. intros s Hs. by destruct (Sse s Hs).
Qed.

(** Operations start by looking at the clock. *)
Lemma kept_after_time {A} now (m : M A) c : inv c reserved log ->
  (forall c0, inv c0 reserved log -> last_now c0 = Some now -> kept m c0 reserved log) -> kept (_ ← time now; m) c reserved log.
Proof. intros Hi Hm. unfold kept. con_step. con_step; [by apply inv_failed|]. apply Hm; [by apply inv_now|done]. Qed.

Lemma keeps_attach_connected s now c : inv c reserved log -> kept (attach_connected s now) c reserved log.
Proof.
  intros Hi. unfold attach_connected. apply kept_after_time; [done|]. clear c Hi. intros c Hi Hnow. unfold kept.
  repeat con_step; try done; [by apply inv_failed|].
  apply orb_false_iff in Hb0 as [[Hs Hcl]%orb_false_iff _]. apply negb_false_iff, bool_decide_eq_true in Hs. apply negb_false_iff in Hcl.
  apply orb_false_iff in Hb1 as [[Hcon _]%orb_false_iff _]. apply negb_false_iff in Hcon.
  destruct Hi as [[Sp Sc Slc Sl Sch Sse Sst Sco Sg] [Kc Ks Kf Kt] Hd]. rewrite Hs in Sst. destruct Sst as [Hnone _].
  assert (child c = None) as Hch by (destruct (child c) as [v|]; [|done]; destruct (Sch v eq_refl) as (_ & _ & _ & _ & _ & ? & _); congruence).
  assert (pending_launch c = None) as Hpl by (destruct (pending_launch c) as [p|]; [|done]; destruct (Sl p eq_refl) as (? & _); congruence).
  split.
  - split; cbn; try done.
    + by rewrite Hpl.
    + by rewrite Hch.
    + by intros s' [= <-].
    + split; [lia|]. intros g [= <-]. lia.
  - split; cbn; try done.
    destruct Ks as [Hw _]. destruct (window_clear_ok _ Hw) as [? ->]. by split.
  - eapply data_stop; [exact Hd|..]; cbn; first [done|lia|by intros []|by rewrite Hch|by rewrite Hpl].
Qed.

(** *** Launching *)

Lemma keeps_next_endpoint x c : inv c reserved log -> inv (set_next_endpoint x c) reserved log.
Proof. intros Hi. rebuild. Qed.
Lemma keeps_next_generation x c : next_generation c <= x -> inv c reserved log -> inv (set_next_generation x c) reserved log.
Proof. intros Hx Hi. rebuild. destruct Sg. split; [lia|done]. Qed.

Lemma keeps_pending_launch s g l c : inv c reserved log ->
  state c = Active -> serial c = Some s -> console_generation c = Some g -> child c = None -> pending_launch c = None -> l <> 0 ->
  inv (set_pending_launch (Some (mkIdentity s g (next_generation c) l)) (set_next_generation (next_generation c + 1) c)) reserved log.
Proof.
  intros [[Sp Sc Slc Sl Sch Sse Sst Sco Sg] Hk [Di Do Dq Ds Dt Dk Dl Dc Df]] Hs Hse Hg Hc Hp Hl. split.
  - split; cbn; try done.
    + intros p Hpc. apply Slc in Hpc. congruence.
    + intros p [= <-]. cbn. destruct Sg. split_and!; [done..|lia|done|by left].
    + destruct Sg. split; [lia|done].
  - eapply clock_same; [exact Hk|..]; cbn; auto.
  - split; cbn; try done. destruct Df as (H1 & H2 & H3). split_and!.
    + eapply Forall_impl; [exact H1|]. cbn. intros; lia.
    + intros v Hv. apply H2 in Hv. lia.
    + intros p [= <-]. cbn. split; [lia|]. eapply Forall_impl; [exact H1|]. cbn. intros; lia.
Qed.

(** The launch can still begin. *)
Definition launchable (p : LaunchIdentity) (c : C) : Prop := inv c reserved log /\ inv (set_pending_launch (Some p) c) reserved log.
Lemma wp_endpoint p c : launchable p c ->
  wp allocate_endpoint (fun _ c' => launchable p c') (fun _ c' => inv c' reserved log) c.
Proof.
  intros [Hi Hp]. apply wp_allocate; [intros e; by apply inv_failed|]. intros _. split; [by apply keeps_next_endpoint|].
  change (inv (set_next_endpoint (next_endpoint c + 1) (set_pending_launch (Some p) c)) reserved log). by apply keeps_next_endpoint.
Qed.

Lemma keeps_begin_child_launch l c : inv c reserved log -> kept (begin_child_launch l) c reserved log.
Proof.
  intros Hi. unfold kept, begin_child_launch. con_step. con_step. do 4 (con_step; con_step; [done|]).
  apply orb_false_iff in Hb0 as [[Hs _]%orb_false_iff Hc]. apply negb_false_iff, bool_decide_eq_true in Hs. apply Z.eqb_neq in Hb2.
  assert (child c = None) as Hnc by (by destruct (child c)). assert (pending_launch c = None) as Hnp by (by destruct (pending_launch c)).
  con_step. con_step; [by apply inv_failed|]. con_step. con_step; [|apply keeps_next_generation; [lia|done]].
  con_step. con_step; [|apply keeps_next_generation; [lia|done]].
  pose proof (keeps_pending_launch _ _ _ c Hi Hs Ho Ho0 Hnc Hnp Hb2) as Hnew.
  assert (launchable (mkIdentity a a0 (next_generation c) l) (set_next_generation (next_generation c + 1) c)) as Hl.
  { split; [apply keeps_next_generation; [lia|done]|done]. }
  revert Hl. generalize (set_next_generation (next_generation c + 1) c). intros c1 Hl.
  do 6 (apply wp_bind; eapply wp_mono; [apply (wp_endpoint _ _ Hl)| |done]; clear c1 Hl; intros ? c1 Hl).
  repeat con_step. by destruct Hl.
Qed.

(** Nothing in the log is of a session whose number was not used before. *)
Lemma unused_empty e : Forall (fun entry => ev_child_generation (entry_event entry) <> ev_child_generation e) log ->
  received e log = [] /\ sent_to_child e log = [] /\ forall s, written e s log = [] /\ sent_to_terminal e s log = [].
Proof.
  intros H. split_and!; [| |intros s; split]; apply collect_nil; (eapply Forall_impl; [exact H|]); intros [] Hne; cbn in *; try done; rewrite decide_False; try done.
  - by intros ->.
  - by intros ->.
  - by intros [-> _].
  - by intros [-> _].
Qed.

Lemma keeps_commit_child_launch tx job c : inv c reserved log -> pending_launch_cleanup c <> Some (identity_of tx) ->
  kept (commit_child_launch tx job) c reserved log.
Proof.
  intros Hi Hnot. unfold kept, commit_child_launch. repeat con_step; try done.
  facts. destruct Hi as [[Sp Sc Slc Sl Sch Sse Sst Sco Sg] Hk [Di Do Dq Ds Dt Dk Dl Dc Df]].
  match goal with H : pending_launch c = Some _ |- _ => rename H into Hp end. destruct (Sl _ Hp) as (L1 & L2 & L3 & L4 & L5 & _). cbn in L1, L2, L4, L5.
  destruct (Dq (or_introl L3)) as (Hin & Hout & Hps & Hpt). destruct Df as (F1 & F2 & F3). destruct (F3 _ Hp) as [Hgen Hfresh]. cbn in Hgen, Hfresh.
  destruct (unused_empty (mkEvent (tx_serial tx) (tx_console_generation tx) (tx_child_generation tx) job (tx_child_launch tx)) Hfresh) as (U1 & U2 & U3).
  split.
  - split; cbn; try done.
    + intros p Hpc. apply Slc in Hpc as Hpc'. congruence.
    + intros v [= <-]. cbn. split_and!; congruence.
    + match goal with H : state c = Active |- _ => by rewrite H in * end.
  - eapply clock_same; [exact Hk|..]; cbn; auto.
  - split; cbn; try done.
    + intros v _ [= <-]. cbn. rewrite Hin. unfold event_from. cbn. split.
      * exists (input_normalizer c). by rewrite U1, U2.
      * intros s. destruct (U3 s) as [W1 W2]. pose proof (Hout s) as [Hq Hno]. unfold accounted_out. rewrite W1, W2.
        destruct s; cbn in *; by rewrite Hq, Hno.
    + split_and!; [done| |done]. by intros v [= <-].
Qed.

Lemma keeps_abort_child_launch tx c : inv c reserved log -> kept (abort_child_launch tx) c reserved log.
Proof.
  intros Hi. unfold kept, abort_child_launch. do 4 con_step; [done|]. con_step. apply con_lift; [by unfold abort_cleanup; destruct (tx_committed tx)|done|].
  intros cleanup _. repeat con_step. facts. rebuild. intros p [= <-]. done.
Qed.

(** *** The end of a serial generation *)

Definition finished (c : C) : C :=
  set_input_normalizer false (cleared (set_state Reconnecting (set_serial_invalidated false (set_serial_cleanup true
    (set_console_generation None (set_serial None c)))))).
Lemma wp_finish now (Q : RecoveryAction -> C -> Prop) R c :
  R ArithmeticOverflow (failed ArithmeticOverflow c) -> (forall a, Q a (finished c)) -> wp (finish_serial_cleanup now) Q R c.
Proof. intros HR HQ. unfold finish_serial_cleanup. con_step. con_step; [done|]. repeat con_step. apply HQ. Qed.

Lemma inv_finished c : clock c -> data c reserved log -> child c = None -> pending_launch c = None -> pending_launch_cleanup c = None ->
  0 < next_generation c -> inv (finished c) reserved log.
Proof.
  intros Hk Hd Hc Hp Hpc Hg. split.
  - split; cbn; try done; rewrite ?Hc, ?Hp, ?Hpc; first [done|by left|by split].
  - eapply clock_same; [exact Hk|..]; cbn; auto.
  - eapply data_stop; [exact Hd|..]; cbn; first [done|lia|by intros []|by rewrite Hc|by rewrite Hp].
Qed.

Lemma no_cleanup_without_launch c : shape c -> pending_launch c = None -> pending_launch_cleanup c = None.
Proof. intros Hs Hp. destruct (pending_launch_cleanup c) as [p|] eqn:E; [|done]. apply (s_launch_cleanup _ Hs) in E. congruence. Qed.

Lemma kept_finish now c : inv c reserved log -> child c = None -> pending_launch c = None -> kept (finish_serial_cleanup now) c reserved log.
Proof.
  intros Hi Hc Hp. apply wp_finish; [by apply inv_failed|]. intros a. destruct Hi as [Hs Hk Hd].
  apply inv_finished; try done; [by apply no_cleanup_without_launch|by apply (s_generation _ Hs)].
Qed.

Lemma keeps_maybe_finish c : inv c reserved log -> kept maybe_finish_serial_invalidation c reserved log.
Proof.
  intros Hi. unfold kept, maybe_finish_serial_invalidation. con_step. con_step. destruct (_ && _) eqn:Hb; [|by con_step].
  facts. con_step. con_step; [by apply inv_failed|]. con_step. eapply wp_mono; [by apply kept_finish| |done].
  intros action c' Hi'. cbv beta. con_step. by apply keeps_pending_recovery.
Qed.

Lemma evidence_total tx cleanup evidence : abort_cleanup tx = Ok cleanup -> evidence_matches_cleanup cleanup evidence <> Panic.
Proof.
  unfold abort_cleanup. destruct (tx_committed tx); [done|]. intros [= <-].
  destruct (tx_moved tx) as [[] [] []], evidence as [[[] [] []] [[] [] []] [[] [] []]]; vm_compute; discriminate.
Qed.

Lemma keeps_complete_abort token evidence c : token_ok token -> inv c reserved log ->
  kept (complete_abort_child_launch token evidence) c reserved log.
Proof.
  intros [tx Ht] Hi. unfold kept, complete_abort_child_launch. do 4 con_step; [done|]. con_step.
  apply con_lift; [by eapply evidence_total|done|]. intros matches _. do 2 con_step; [done|]. do 5 con_step.
  eapply wp_mono; [apply keeps_maybe_finish; rebuild|intros u c' Hc'; by con_step|done].
Qed.

(** *** The end of a child *)

Definition retired (with_serial_cleanup capture_child_failure : bool) (now : Z) (c : C) : C :=
  let c := set_is_reaped false (set_is_terminated false (cleared c)) in
  let c := if capture_child_failure && negb (is_some (child_failure_at c)) then set_child_failure_at (Some now) c else c in
  let c := if with_serial_cleanup then set_serial_cleanup false c else c in
  set_state RetiringChild c.
Lemma con_retire wsc capture now (Q : RecoveryAction -> C -> Prop) R c :
  (forall a, Q a (retired wsc capture now c)) -> wp (start_child_retirement wsc capture now) Q R c.
Proof.
  intros HQ. unfold start_child_retirement. do 8 con_step. unfold retired in HQ. cbv zeta in HQ. con_step.
  destruct (capture && _); repeat con_step; destruct wsc; repeat con_step; apply HQ.
Qed.

Lemma clock_capture now c c' : clock c -> last_now c = Some now -> last_now c' = Some now -> child_window c' = child_window c ->
  serial_window c' = serial_window c -> (child_failure_at c' = child_failure_at c \/ child_failure_at c' = Some now) ->
  (stable c' = stable c \/ stable c' = None) -> clock c'.
Proof.
  intros [Kc Ks Kf Kt] Hn Hn' Hcw Hsw Hf Hst. unfold passed in *. rewrite Hn in *. split; unfold passed; rewrite ?Hn', ?Hcw, ?Hsw; try done.
  - intros t Ht. destruct Hf as [Hf|Hf]; [apply Kf; congruence|]. rewrite Hf in Ht. injection Ht as <-. split; [lia|by apply Kc].
  - intros token since H. apply (Kt token since). destruct Hst; congruence.
Qed.

(** A child that retires or waits to be reaped. *)
Lemma shape_retiring c v st : shape c -> child c = Some v -> st = RetiringChild \/ st = AwaitingReap -> shape (set_state st c).
Proof.
  intros [Sp Sc Slc Sl Sch Sse Sst Sco Sg] Hc Hst. destruct (Sch v Hc) as (C1 & C2 & C3 & C4 & C5 & _). destruct (Sse _ C1) as [_ Hpc].
  split; cbn; try done.
  - intros p Hp. destruct (Sl p Hp) as (_ & _ & ? & _). congruence.
  - intros v' Hv'. assert (v' = v) as -> by congruence. split_and!; try done; by destruct Hst; subst.
  - destruct Hst; subst; by eexists.
  - intros r Hr. congruence.
Qed.

Lemma inv_retired now c v : inv c reserved log -> last_now c = Some now -> child c = Some v -> inv (retired false true now c) reserved log.
Proof.
  intros [Hs Hk Hd] Hn Hc. pose proof (shape_retiring c v RetiringChild Hs Hc (or_introl eq_refl)) as Hs'.
  unfold retired. cbv zeta. destruct (true && _); split.
  all: try (eapply shape_same; [exact Hs'|..]; done).
  all: try (eapply clock_capture; [exact Hk|done|..]; cbn; auto; done).
  all: eapply data_stop; [exact Hd|..]; cbn; first [done|lia|by intros []|by eauto].
Qed.

Lemma inv_mark event kind c : inv c reserved log ->
  wp (mark_child_peer_closed event kind)
    (fun _ c' => inv c' reserved log /\ last_now c' = last_now c /\ state c' = state c /\ is_Some (child c')) (fun _ c' => inv c' reserved log) c.
Proof.
  intros Hi. unfold mark_child_peer_closed. do 4 con_step; [done|]. do 3 con_step. con_step; [|done]. con_step. split_and!; try done.
  rebuild.
  - intros p Hp. destruct (Sl p Hp) as (? & ? & ? & _). congruence.
  - intros v [= <-]. cbn. by apply Sch.
  - destruct (state c); try done.
  - intros v [= <-]. by exists a.
  - unfold quiet. cbn. intros [?|[?|?]]; [done|by right; left|by right; right].
Qed.

Lemma keeps_wrong_direction event now c : inv c reserved log -> kept (wrong_direction_data event now) c reserved log.
Proof.
  intros Hi. unfold wrong_direction_data. apply kept_after_time; [done|]. clear c Hi. intros c Hi Hnow. unfold kept.
  con_step. con_step; [by apply keeps_last_failure|]. do 2 con_step. apply con_retire. intros a.
  eapply inv_retired; [by apply keeps_last_failure|done|done].
Qed.
Lemma keeps_status_peer_closed event now c : inv c reserved log -> kept (status_peer_closed event now) c reserved log.
Proof.
  intros Hi. unfold status_peer_closed. apply kept_after_time; [done|]. clear c Hi. intros c Hi Hnow. unfold kept.
  con_step. con_step; [by apply keeps_last_failure|]. do 2 con_step. apply con_retire. intros a.
  eapply inv_retired; [by apply keeps_last_failure|done|done].
Qed.
Lemma keeps_precursor event now c : inv c reserved log -> kept (child_terminal_precursor event now) c reserved log.
Proof.
  intros Hi. unfold child_terminal_precursor. apply kept_after_time; [done|]. clear c Hi. intros c Hi Hnow. unfold kept.
  con_step. con_step; [by apply keeps_last_failure|]. by con_step.
Qed.
Lemma keeps_child_peer_closed event kind now c : inv c reserved log -> kept (child_peer_closed event kind now) c reserved log.
Proof.
  intros Hi. unfold child_peer_closed. apply kept_after_time; [done|]. clear c Hi. intros c Hi Hnow. unfold kept.
  con_step. con_step; [by apply keeps_last_failure|]. do 3 con_step.
  eapply wp_mono; [apply inv_mark; by apply keeps_last_failure| |done]. intros u c' (Hi' & Hn & _ & [v' Hv']). cbv beta. apply con_retire. intros a.
  eapply inv_retired; [done|by rewrite Hn|done].
Qed.
Lemma keeps_observe_peer_closed event kind now c : inv c reserved log -> kept (observe_child_peer_closed event kind now) c reserved log.
Proof.
  intros Hi. unfold observe_child_peer_closed. apply kept_after_time; [done|]. clear c Hi. intros c Hi Hnow. unfold kept.
  do 4 con_step; [done|]. eapply wp_mono; [by apply inv_mark| |done]. by intros u c' [? _].
Qed.
Lemma keeps_child_streams_closed event now c : inv c reserved log -> kept (child_streams_closed event now) c reserved log.
Proof.
  intros Hi. unfold child_streams_closed. apply kept_after_time; [done|]. clear c Hi. intros c Hi Hnow. unfold kept.
  do 4 con_step; [done|]. con_step. eapply wp_mono; [by apply inv_mark| |done]. intros u1 c1 [Hi1 _]. cbv beta.
  con_step. eapply wp_mono; [by apply inv_mark| |done]. intros u2 c2 [Hi2 _]. cbv beta.
  eapply wp_mono; [by apply inv_mark| |done]. by intros u3 c3 [? _].
Qed.

Lemma keeps_child_terminal event now c : inv c reserved log -> kept (child_terminal event now) c reserved log.
Proof.
  intros Hi. unfold child_terminal. apply kept_after_time; [done|]. clear c Hi. intros c Hi Hnow. unfold kept.
  con_step. con_step; [by apply keeps_last_failure|]. repeat con_step. destruct Hi as [Hs Hk Hd].
  pose proof (shape_retiring c v AwaitingReap Hs Hchild (or_intror eq_refl)) as Hs'. split.
  - eapply shape_same; [exact Hs'|..]; done.
  - eapply clock_capture; [exact Hk|done|..]; cbn; auto.
  - eapply data_stop; [exact Hd|..]; cbn; first [done|lia|by intros []|by eauto].
Qed.

Lemma keeps_child_terminated event now c : inv c reserved log -> kept (child_terminated event now) c reserved log.
Proof.
  intros Hi. unfold child_terminated. apply kept_after_time; [done|]. clear c Hi. intros c Hi Hnow. unfold kept.
  repeat con_step; [done|]. facts. destruct Hi as [Hs Hk Hd].
  assert (is_Some (child c)) as [v Hv] by (pose proof (s_state _ Hs) as Hst; by rewrite H in Hst).
  pose proof (shape_retiring c v AwaitingReap Hs Hv (or_intror eq_refl)) as Hs'. split.
  - eapply shape_same; [exact Hs'|..]; done.
  - eapply clock_same; [exact Hk|..]; cbn; auto.
  - eapply data_same; [exact Hd|..]; cbn; eauto; try done. intros _. by right; left.
Qed.

(** A failure is recorded: the window never looks into the future. *)
Lemma child_window_ok c now : clock c -> last_now c = Some now ->
  exists w, window_add (default now (child_failure_at c)) (child_window c) = Ok (w, MAX_FAILURES_PER_WINDOW <=? w_len w) /\
    window_ok w /\ Forall (fun t => t <= now) (recent w).
Proof.
  intros [[Hw Hp] _ Kf _] Hn. unfold passed in *. rewrite Hn in *.
  assert (default now (child_failure_at c) <= now /\ Forall (fun t => t <= default now (child_failure_at c)) (recent (child_window c))) as [Hle Hall].
  { destruct (child_failure_at c) as [t|]; cbn; [by apply Kf|]. split; [lia|done]. }
  destruct (window_add_spec _ _ Hw Hall) as (w & -> & Hok & Hr). exists w. split_and!; [done|by destruct Hok..|]. rewrite Hr.
  assert (Forall (fun t => t <= now) (within (default now (child_failure_at c)) (recent (child_window c)))) as Hin.
  { apply Forall_forall. intros t Ht. apply list_elem_of_filter in Ht as [_ Ht]. rewrite Forall_forall in Hp. by apply Hp. }
  destruct (_ <? _); [|done]. apply Forall_app. split; [done|]. by constructor.
Qed.

Lemma wp_child_window_add at_ w full (Q : bool -> C -> Prop) R c :
  window_add at_ (child_window c) = Ok (w, full) -> Q full (set_child_window w c) -> wp (child_window_add at_) Q R c.
Proof. intros Hw HQ. unfold child_window_add. do 3 con_step. rewrite Hw. apply con_lift; [done|done|]. intros [w' f'] [= <- <-]. by repeat con_step. Qed.
Lemma wp_serial_window_add at_ w full (Q : bool -> C -> Prop) R c :
  window_add at_ (serial_window c) = Ok (w, full) -> Q full (set_serial_window w c) -> wp (serial_window_add at_) Q R c.
Proof. intros Hw HQ. unfold serial_window_add. do 3 con_step. rewrite Hw. apply con_lift; [done|done|]. intros [w' f'] [= <- <-]. by repeat con_step. Qed.

(** The child is gone, the failure counted. *)
Lemma inv_replaced now w st c : inv c reserved log -> last_now c = Some now -> state c = AwaitingReap ->
  window_ok w -> Forall (fun t => t <= now) (recent w) -> st = Exhausted \/ st = Active ->
  inv (set_state st (set_child_window w (set_child_failure_at None (cleared (set_child None c))))) reserved log.
Proof.
  intros [[Sp Sc Slc Sl Sch Sse Sst Sco Sg] [Kc Ks Kf Kt] Hd] Hn Hst Hw Hall Hs. rewrite Hst in Sst. destruct Sst as [v Hv].
  destruct (Sch v Hv) as (C1 & _). destruct (Sse _ C1) as [_ Hpc].
  assert (pending_launch c = None) as Hp by (destruct (pending_launch c) as [p|]; [|done]; destruct (Sl p eq_refl) as (_ & _ & ? & _); congruence).
  split.
  - split; cbn; rewrite ?Hp, ?Hpc; try done; [by rewrite <-Hp|by intros s [? _]%Sse|]. destruct Hs; subst; [done|]. by rewrite C1.
  - unfold passed in *. split; cbn; unfold passed; cbn; rewrite ?Hn in *; try done.
  - eapply data_stop; [exact Hd|..]; cbn; first [done|lia|by intros []|by rewrite Hp].
Qed.

Lemma keeps_child_reaped event now c : inv c reserved log -> kept (child_reaped event now) c reserved log.
Proof.
  intros Hi. unfold child_reaped. apply kept_after_time; [done|]. clear c Hi. intros c Hi Hnow. unfold kept.
  do 4 con_step; [done|]. do 2 con_step. assert (inv (set_is_reaped true c) reserved log) as Hi'.
  { by apply keeps_is_reaped. }
  facts. assert (state (set_is_reaped true c) = AwaitingReap) as Hst by done. revert Hi' Hst. assert (last_now (set_is_reaped true c) = Some now) as Hn by done.
  revert Hn. generalize (set_is_reaped true c). clear. intros c Hn Hi Hst.
  unfold complete_retirement. do 3 con_step. con_step; [|done]. do 2 con_step; [done|]. do 2 con_step.
  destruct (serial_cleanup c) eqn:Hcl; cbn [negb]; [|by con_step]. do 9 con_step.
  destruct (child_window_ok c now (i_clock _ _ _ Hi) Hn) as (w & Hadd & Hwok & Hall).
  eapply wp_child_window_add; [exact Hadd|]. destruct (_ <=? _).
  - do 6 con_step. con_step. pose proof (inv_replaced now w Exhausted c Hi Hn Hst Hwok Hall (or_introl eq_refl)) as Hi'.
    by apply keeps_last_failure, keeps_child_exhausted.
  - do 3 con_step. by apply (inv_replaced now w Active c Hi Hn Hst Hwok Hall (or_intror eq_refl)).
Qed.

Lemma keeps_complete_serial_cleanup sc g now c : inv c reserved log -> kept (complete_serial_cleanup sc g now) c reserved log.
Proof.
  intros Hi. unfold complete_serial_cleanup. apply kept_after_time; [done|]. clear c Hi. intros c Hi Hnow. unfold kept.
  do 4 con_step; [done|]. do 2 con_step; [done|]. do 2 con_step. facts. destruct Hi as [Hs Hk Hd].
  pose proof (s_state _ Hs) as Hst. match goal with H : state c = _ |- _ => rewrite H in Hst; rename H into Haw end. destruct Hst as [v Hv].
  assert (pending_launch c = None) as Hp.
  { destruct (pending_launch c) as [p|] eqn:E; [|done]. destruct (s_launch _ Hs p E) as (_ & _ & ? & _). congruence. }
  assert (clock (set_child None c)) as Hk' by (eapply clock_same; [exact Hk|..]; cbn; auto).
  assert (data (set_child None c) reserved log) as Hd'.
  { eapply data_same; [exact Hd|..]; cbn; eauto; try done. intros _. by right; right. }
  pose proof (no_cleanup_without_launch _ Hs Hp) as Hpc. apply wp_finish.
  - destruct Hs as [Sp Sc Slc Sl Sch Sse Sst Sco Sg]. split.
    + split; cbn; try done; [|by right]. intros p Hp'. congruence.
    + eapply clock_same; [exact Hk'|..]; cbn; auto.
    + eapply data_same; [exact Hd'|..]; cbn; eauto; try done. by intros _; left.
  - intros a. apply inv_finished; try done. by apply (s_generation _ Hs).
Qed.

(** The serial peer is gone, before anything is cleaned up. *)
Definition closing (c : C) : C :=
  unreserved (set_stable None (set_input_normalizer false (set_serial_invalidated true (set_serial_cleanup false
    (set_child_failure_at None (set_last_failure (Some SerialDisconnected) c)))))).

Lemma shape_closing c : shape c -> state c <> Reconnecting -> shape (closing c).
Proof. intros [Sp Sc Slc Sl Sch Sse Sst Sco Sg] Hs. split; cbn; try done. by destruct (state c). Qed.
Lemma inv_closing c : inv c reserved log -> state c <> Reconnecting -> child c = None \/ state c <> Active -> inv (closing c) reserved log.
Proof.
  intros [Hs Hk Hd] Hst Hor. split; [by apply shape_closing|eapply clock_same; [exact Hk|..]; cbn; auto|].
  eapply data_same; [exact Hd|..]; cbn; eauto; try done. intros Ha [v Hv]. destruct Hor; congruence.
Qed.

Lemma keeps_serial_peer_closed sc g now c : inv c reserved log -> kept (serial_peer_closed sc g now) c reserved log.
Proof.
  intros Hi. unfold serial_peer_closed. apply kept_after_time; [done|]. clear c Hi. intros c Hi Hnow. unfold kept.
  do 4 con_step; [done|]. do 16 con_step. fold (closing c). cbn [child state pending_launch closing unreserved set_pending_tx set_pending_stdin
    set_stable set_input_normalizer set_serial_invalidated set_serial_cleanup set_child_failure_at set_last_failure].
  assert (state c <> Reconnecting) as Hst by (intros Hst; rewrite Hst in Hb; discriminate Hb). clear Hb.
  destruct (is_some (child c) && bool_decide (state c = Active)) eqn:Hca.
  - apply andb_true_iff in Hca as [Hc Ha%bool_decide_eq_true]. destruct (child c) as [v|] eqn:Hv; [|done].
    apply con_retire. intros a. destruct Hi as [Hs Hk Hd].
    pose proof (shape_retiring (closing c) v RetiringChild (shape_closing c Hs Hst) Hv (or_introl eq_refl)) as Hs'. split.
    + eapply shape_same; [exact Hs'|..]; cbn; reflexivity.
    + eapply clock_same; [exact Hk|..]; cbn; auto.
    + eapply data_stop; [exact Hd|..]; cbn; first [done|lia|by intros []|by eauto].
  - assert (child c = None \/ state c <> Active) as Hor.
    { apply andb_false_iff in Hca as [Hc|Ha]; [left; by apply is_some_false|right; by apply bool_decide_eq_false in Ha]. }
    pose proof (inv_closing c Hi Hst Hor) as Hi'. destruct (negb (is_some (child c)) && negb (is_some (pending_launch c))) eqn:Hn; [|by con_step].
    facts. do 4 con_step. apply kept_finish; [by apply keeps_is_reaped, keeps_is_terminated|done|done].
Qed.

Lemma keeps_no_connect c : inv c reserved log -> inv (set_pending_connect None c) reserved log.
Proof. intros Hi. rebuild. by intros s [? _]%Sse. Qed.

Lemma keeps_serial_window w now c : inv c reserved log -> last_now c = Some now -> window_ok w -> Forall (fun t => t <= now) (recent w) ->
  inv (set_serial_window w c) reserved log.
Proof.
  intros [Hs [Kc Ks Kf Kt] Hd] Hn Hw Hall. split; [eapply shape_same; [exact Hs|..]; done| |].
  - split; cbn; try done. split; [done|]. unfold passed. cbn. by rewrite Hn.
  - eapply data_same; [exact Hd|..]; cbn; eauto; try done.
Qed.

Lemma keeps_exhausted c : inv c reserved log -> state c = Reconnecting -> pending_connect c = None -> inv (set_state Exhausted c) reserved log.
Proof.
  intros [[Sp Sc Slc Sl Sch Sse Sst Sco Sg] Hk Hd] Hs Hpc. rewrite Hs in *. split.
  - split; cbn; try done.
    + intros p Hp. destruct (Sl p Hp) as (_ & _ & _ & _ & _ & [?|?]); done.
    + intros v Hv. destruct (Sch v Hv) as (_ & _ & _ & _ & _ & ? & _). done.
    + intros r Hr. congruence.
  - eapply clock_same; [exact Hk|..]; cbn; auto.
  - eapply data_same; [exact Hd|..]; cbn; eauto; try done. intros [?|[?|?]]; [by left|done|done].
Qed.

Lemma keeps_serial_reconnect_failed now c : inv c reserved log -> kept (serial_reconnect_failed now) c reserved log.
Proof.
  intros Hi. unfold serial_reconnect_failed. apply kept_after_time; [done|]. clear c Hi. intros c Hi Hnow. unfold kept.
  unfold in_state. do 6 con_step; [done|]. do 3 con_step. facts.
  destruct Hi as [Hs Hk Hd] eqn:E. clear E. destruct (k_serial _ Hk) as [Hw Hp]. unfold passed in Hp. rewrite Hnow in Hp.
  destruct (window_add_spec now _ Hw Hp) as (w & Hadd & Hwok & Hr).
  assert (Forall (fun t => t <= now) (recent w)) as Hall.
  { rewrite Hr. assert (Forall (fun t => t <= now) (within now (recent (serial_window c)))) as Hin.
    { apply Forall_forall. intros t Ht. apply list_elem_of_filter in Ht as [_ Ht]. rewrite Forall_forall in Hp. by apply Hp. }
    destruct (_ <? _); [|done]. apply Forall_app. split; [done|]. by constructor. }
  assert (inv (set_serial_window w (set_pending_connect None c)) reserved log) as Hi'.
  { eapply keeps_serial_window; [by apply keeps_no_connect|done|done|done]. }
  eapply wp_serial_window_add; [exact Hadd|]. destruct (_ <=? _).
  - do 6 con_step. con_step. apply keeps_last_failure, keeps_serial_exhausted. by apply keeps_exhausted.
  - con_step. con_step; [by apply inv_failed|by con_step].
Qed.

(** *** READY *)

Lemma keeps_ready_observed e c : inv c reserved log -> inv (set_ready_observed e c) reserved log.
Proof. intros Hi. rebuild. Qed.
Lemma keeps_stable token now c : inv c reserved log -> last_now c = Some now -> inv (set_stable (Some (token, now)) c) reserved log.
Proof.
  intros [Hs [Kc Ks Kf Kt] Hd] Hn. split; [eapply shape_same; [exact Hs|..]; done| |eapply data_same; [exact Hd|..]; cbn; eauto; try done].
  split; cbn; try done. intros t since [= <- <-]. unfold passed. cbn. by rewrite Hn.
Qed.
Lemma keeps_window_clear c : inv c reserved log -> inv (set_child_window (window_clear (child_window c)) c) reserved log.
Proof.
  intros [Hs [Kc Ks Kf Kt] Hd]. split; [eapply shape_same; [exact Hs|..]; done| |eapply data_same; [exact Hd|..]; cbn; eauto; try done].
  destruct (window_clear_ok _ (proj1 Kc)) as [Hw Hr]. split; cbn; try done; rewrite Hr. intros t Ht. split; [by apply Kf|constructor].
Qed.

Lemma keeps_observe_child_ready event now c : inv c reserved log -> kept (observe_child_ready event now) c reserved log.
Proof.
  intros Hi. unfold observe_child_ready. apply kept_after_time; [done|]. clear c Hi. intros c Hi Hnow. unfold kept.
  do 4 con_step; [done|]. do 4 con_step. con_step. con_step; [|by apply keeps_ready_observed]. do 3 con_step.
  case_bool_decide; repeat con_step; [by apply keeps_ready_observed|]. apply keeps_stable; [by apply keeps_ready_observed|done].
Qed.
Lemma keeps_observe_ready now token c : inv c reserved log -> kept (observe_ready now token) c reserved log.
Proof.
  intros Hi. unfold observe_ready. apply kept_after_time; [done|]. clear c Hi. intros c Hi Hnow. unfold kept.
  do 4 con_step; [done|]. do 2 con_step. destruct (stable c) as [[old since]|] eqn:Hst; [|repeat con_step; by apply keeps_stable].
  destruct (bool_decide (old = token)); [|repeat con_step; by apply keeps_stable]. con_step.
  assert (since <= now) as Hle by (pose proof (k_stable _ (i_clock _ _ _ Hi) _ _ Hst) as Hp; unfold passed in Hp; by rewrite Hnow in Hp).
  assert (minus (E:=ModelError) now since = Ok (now - since)) as Hm by (apply minus_Ok; lia).
  rewrite Hm. apply con_lift; [done|done|]. intros age _. destruct (age <? _); [by con_step|].
  repeat con_step. apply keeps_stable; [by apply keeps_window_clear|done].
Qed.
Lemma keeps_take_recovery c : inv c reserved log -> kept take_recovery_action c reserved log.
Proof. intros Hi. unfold kept, take_recovery_action. repeat con_step. by apply keeps_pending_recovery. Qed.
End keeps.

(** * The console's data path keeps the invariant: staging, polling, reservations *)


(** ** The log grows *)

Lemma other_event e entry : e <> entry_event entry ->
  received_of e entry = [] /\ sent_to_child_of e entry = [] /\ forall s, written_of e s entry = [] /\ sent_to_terminal_of e s entry = [].
Proof.
  intros Hne. destruct entry; cbn in *; split_and!; try done; try (by rewrite decide_False by congruence).
  all: intros s'; split; try done; by rewrite decide_False by (intros [? _]; congruence).
Qed.

Lemma faithful_snoc log entry : faithful_log log ->
  (exists w f, accounted_in (entry_event entry) (log ++ [entry]) w f) ->
  (forall s, exists w f, accounted_out (entry_event entry) s (log ++ [entry]) w f) -> faithful_log (log ++ [entry]).
Proof.
  intros Hl Hin Hout e. destruct (decide (e = entry_event entry)) as [->|Hne]; [done|].
  destruct (other_event e entry Hne) as (H1 & H2 & H3). destruct (Hl e) as [(w & f & b & Hi) Ho]. split.
  - exists w, f, b. unfold received, sent_to_child in *. by rewrite !collect_snoc, H1, H2, !app_nil_r.
  - intros s. destruct (Ho s) as (w' & f' & Hos). destruct (H3 s) as [W1 W2]. exists w', f'. unfold accounted_out, written, sent_to_terminal in *.
    by rewrite !collect_snoc, W1, W2, !app_nil_r.
Qed.

(** An entry of the current session. *)
Lemma data_advance c c' reserved log entry v : data c reserved log -> shape c -> state c = Active -> child c = Some v ->
  entry_event entry = event_from (ids v) -> state c' = Active -> child c' = Some v -> pending_launch c' = pending_launch c ->
  next_generation c' = next_generation c -> next_reservation c' = next_reservation c -> queue_ok (input c') -> (forall s, queue_ok (queue_for c' s)) ->
  (forall r, pending_stdin c' = Some r -> res_source r = None /\ stands_for r (input c') reserved) ->
  (forall r, pending_tx c' = Some r -> exists s, res_source r = Some s /\ stands_for r (queue_for c' s) reserved) ->
  accounted_in (event_from (ids v)) (log ++ [entry]) (contents (input c')) (input_normalizer c') ->
  (forall s, accounted_out (event_from (ids v)) s (log ++ [entry]) (contents (queue_for c' s)) (normalizer_for c' s)) ->
  data c' reserved (log ++ [entry]).
Proof.
  intros [Di Do Dq Ds Dt Dk Dl Dc (F1 & F2 & F3)] Hs Ha Hv He Ha' Hv' Hp Hg Hr Hqi Hqo Hps Hpt Hin Hout. split; try done.
  - unfold quiet. rewrite Ha', Hv'. intros [?|[?|?]]; done.
  - by rewrite Hr.
  - apply faithful_snoc; [done|rewrite He; eauto..].
  - intros v' _ Hv''. assert (v' = v) as -> by congruence. done.
  - rewrite Hg, Hp. split_and!.
    + apply Forall_app. split; [done|]. constructor; [|constructor]. rewrite He. cbn. by apply F2.
    + intros v' Hv''. assert (v' = v) as -> by congruence. by apply F2.
    + intros p Hp'. destruct (s_launch _ Hs p Hp') as (_ & _ & ? & _). congruence.
Qed.

Lemma stands_for_longer r q q' x reserved : stands_for r q reserved -> contents q' = contents q ++ x -> stands_for r q' reserved.
Proof.
  intros [Hl Hin] Hq. unfold stands_for. rewrite Hq, length_app. split; [lia|]. by rewrite take_app_le by lia.
Qed.

(** ** Staging *)

Lemma keeps_stage_serial_input event raw c reserved log : inv c reserved log ->
  wp (stage_serial_input event raw) (fun _ c' => inv c' reserved (log ++ [Received event raw])) (fun _ c' => inv c' reserved log) c.
Proof.
  intros Hi. unfold stage_serial_input. con_step. con_step; [by apply keeps_last_failure|]. do 3 con_step.
  pose proof (input_stage_spec raw (input_normalizer c) (input c) (d_input _ _ _ (i_data _ _ _ Hi))) as Hst.
  apply con_lift; [by intros Hp; rewrite Hp in Hst|done|]. intros [n q] Hok. rewrite Hok in Hst. destruct Hst as (Hn & Hq & Hc & _).
  repeat con_step. destruct Hi as [Hs Hk Hd]. destruct (d_current _ _ _ Hd v Hact Hchild) as [(b & Hb) Hout]. rewrite Hev in *. split.
  - eapply shape_same; [exact Hs|..]; done.
  - eapply clock_same; [exact Hk|..]; cbn; auto.
  - eapply data_advance; [exact Hd|exact Hs|exact Hact|exact Hchild|..]; cbn; try done.
    + intros s. pose proof (d_output _ _ _ Hd s). by destruct s.
    + intros r Hr. destruct (d_stdin _ _ _ Hd r Hr). split; [done|]. by eapply stands_for_longer.
    + intros r Hr. destruct (d_tx _ _ _ Hd r Hr) as (s & ? & ?). exists s. by destruct s.
    + rewrite Hev. exists b. unfold received, sent_to_child in *. rewrite !collect_snoc. cbn. rewrite decide_True, app_nil_r by done.
      rewrite to_child_app, Hb, Hc, Hn. destruct (to_child (input_normalizer c) raw). cbn. by rewrite (assoc_L (++)).
    + intros s. rewrite Hev. specialize (Hout s). unfold accounted_out, written, sent_to_terminal in *. rewrite !collect_snoc. cbn. rewrite !app_nil_r. by destruct s.
Qed.

(** Output of the current session is appended to its queue. *)
Lemma inv_written event source text n q c c' reserved log v : inv c reserved log -> state c = Active -> child c = Some v -> event_from (ids v) = event ->
  output_stage text (normalizer_for c source) (queue_for c source) = Ok (n, q) ->
  shape c' -> clock c' -> state c' = Active -> child c' = Some v -> pending_launch c' = pending_launch c -> next_generation c' = next_generation c ->
  next_reservation c' = next_reservation c -> input c' = input c -> input_normalizer c' = input_normalizer c ->
  pending_stdin c' = pending_stdin c -> pending_tx c' = pending_tx c -> queue_for c' source = q -> normalizer_for c' source = n ->
  queue_for c' (other source) = queue_for c (other source) -> normalizer_for c' (other source) = normalizer_for c (other source) ->
  inv c' reserved (log ++ [Written event source text]).
Proof.
  intros [Hs Hk Hd] Ha Hv He Hst Hs' Hk' Ha' Hv' Hp Hg Hr Hi Hn Hps Hpt Hq Hno Hq' Hno'. split; [done|done|].
  pose proof (output_stage_spec text (normalizer_for c source) _ (d_output _ _ _ Hd source)) as Hspec. rewrite Hst in Hspec. destruct Hspec as (-> & Hqok & Hc & _).
  destruct (d_current _ _ _ Hd v Ha Hv) as [(b & Hb) Hout]. rewrite He in *.
  assert (forall s, s = source \/ s = other source) as Hsrc by (intros []; destruct source; auto).
  eapply data_advance; [exact Hd|exact Hs|exact Ha|exact Hv|..]; rewrite ?Hi; try done.
  - by apply (d_input _ _ _ Hd).
  - intros s. destruct (Hsrc s) as [->| ->]; rewrite ?Hq, ?Hq'; [done|by apply (d_output _ _ _ Hd)].
  - rewrite Hps. by apply (d_stdin _ _ _ Hd).
  - intros r Hr'. rewrite Hpt in Hr'. destruct (d_tx _ _ _ Hd r Hr') as (s & Hrs & Hsf). exists s. split; [done|].
    destruct (Hsrc s) as [->| ->]; rewrite ?Hq, ?Hq'; [by eapply stands_for_longer|done].
  - rewrite Hn. exists b. unfold received, sent_to_child in *. rewrite He, !collect_snoc. cbn. by rewrite !app_nil_r.
  - intros s. rewrite He. specialize (Hout s). unfold accounted_out, written, sent_to_terminal in *. rewrite !collect_snoc. cbn. rewrite app_nil_r.
    destruct (Hsrc s) as [->| ->].
    + rewrite decide_True by done. rewrite to_terminal_app, Hout, Hq, Hno, Hc. destruct (to_terminal (normalizer_for c source) text). cbn. by rewrite (assoc_L (++)).
    + rewrite decide_False by (intros [_ Hx]; by destruct source). by rewrite app_nil_r, Hq', Hno'.
Qed.

(** Refused only when stale, too long, or more than the queue has room for. *)
Lemma keeps_stage_child_output event source text c reserved log : inv c reserved log ->
  wp (stage_child_output event source text)
    (fun _ c' => inv c' reserved (log ++ [Written event source text]) /\ state c' = state c /\ child c' = child c /\
       queue_for c' (other source) = queue_for c (other source))
    (fun _ c' => inv c' reserved log /\ (event_is_current c event = true -> FAIR_SOURCE_BYTES_PER_TURN < len text \/
       STAGING_CAPACITY < len (contents (queue_for c source)) + len (to_terminal (normalizer_for c source) text).1)) c.
Proof.
  intros Hi. unfold stage_child_output. con_step. unfold require_current. con_step. con_step.
  destruct (event_is_current c event) eqn:Hcur; [|repeat con_step; split; [by apply keeps_last_failure|done]].
  unfold event_is_current in Hcur. facts. destruct (child c) as [v|] eqn:Hchild; [|done]. cbn [fmap option_fmap option_map] in *. simplify_eq. cbv iota. do 3 con_step.
  pose proof (output_stage_spec text (normalizer_for c source) _ (d_output _ _ _ (i_data _ _ _ Hi) source)) as Hst.
  destruct source; cbn [normalizer_for queue_for] in *; con_step; (apply con_lift; [intros Hp; by rewrite Hp in Hst| |]).
  1,3: intros e He; rewrite He in Hst; split; [done|]; intros _; destruct Hst as [[_ ?]|[_ ?]]; auto.
  all: intros [n q] Hok; repeat con_step; split; [|by split_and!; cbn].
  all: eapply inv_written; [exact Hi|done|exact Hchild|..]; try done.
  all: first [eapply shape_same; [exact (i_shape _ _ _ Hi)|..]; done|eapply clock_same; [exact (i_clock _ _ _ Hi)|..]; cbn; auto].
Qed.

(** ** Reservations *)

Lemma stands_for_more r q reserved x : stands_for r q reserved -> stands_for r q (reserved ++ x).
Proof. intros [? ?]. split; [done|]. apply elem_of_app. by left. Qed.
Lemma stands_for_new r q reserved : 0 <= res_length r <= len (contents q) ->
  stands_for r q (reserved ++ [(r, take (Z.to_nat (res_length r)) (contents q))]).
Proof. intros ?. split; [done|]. apply elem_of_app. right. by apply list_elem_of_singleton. Qed.

(** The bytes of a reservation are what it was made with. *)
Lemma stands_for_bytes r q reserved bytes : NoDup ((fun rb => res_token rb.1) <$> reserved) -> stands_for r q reserved -> (r, bytes) ∈ reserved ->
  bytes = take (Z.to_nat (res_length r)) (contents q).
Proof.
  intros Hnd [_ (i & Hi)%list_elem_of_lookup] (j & Hj)%list_elem_of_lookup.
  assert (i = j) as -> by (eapply (NoDup_lookup _ i j (res_token r)); [exact Hnd|..]; rewrite list_lookup_fmap, ?Hi, ?Hj; done). congruence.
Qed.

Lemma data_reserve c c' r bytes reserved log : data c reserved log -> res_token r = next_reservation c -> next_reservation c' = next_reservation c + 1 ->
  state c' = state c -> child c' = child c -> ~ quiet c -> pending_launch c' = pending_launch c -> next_generation c' = next_generation c ->
  input c' = input c -> input_normalizer c' = input_normalizer c -> (forall s, queue_for c' s = queue_for c s) ->
  (forall s, normalizer_for c' s = normalizer_for c s) ->
  (forall p, pending_stdin c' = Some p -> res_source p = None /\ stands_for p (input c) (reserved ++ [(r, bytes)])) ->
  (forall p, pending_tx c' = Some p -> exists s, res_source p = Some s /\ stands_for p (queue_for c s) (reserved ++ [(r, bytes)])) ->
  data c' (reserved ++ [(r, bytes)]) log.
Proof.
  intros [Di Do Dq Ds Dt [K1 K2] Dl Dc Df] Ht Hn Hst Hc Hqu Hp Hg Hi Hin Hq Hno Hps Hpt.
  split; rewrite ?Hi, ?Hg, ?Hst, ?Hc, ?Hp, ?Hin; try done.
  - intros s. by rewrite Hq.
  - unfold quiet. rewrite Hst, Hc. intros H. by destruct Hqu.
  - intros p Hp'. destruct (Hpt p Hp') as (s & ? & ?). exists s. by rewrite Hq.
  - rewrite Hn. split.
    + apply Forall_app. split; [|constructor; [cbn; lia|constructor]]. eapply Forall_impl; [exact K1|]. cbn. lia.
    + rewrite fmap_app. apply NoDup_app. split_and!; [done| |apply NoDup_singleton]. cbn. intros x Hx ->%list_elem_of_singleton.
      apply list_elem_of_fmap in Hx as (rb & Hx & Hrb). rewrite Forall_forall in K1. specialize (K1 rb Hrb). cbn in K1. lia.
  - intros v Hs Hv. destruct (Dc v Hs Hv) as [? Ho]. split; [done|]. intros s. rewrite Hq, Hno. apply Ho.
Qed.

Definition with_reservation (reserved : list (Reservation * list Z)) (r : option Reservation) (output : list Z) : list (Reservation * list Z) :=
  match r with Some r => reserved ++ [(r, take (Z.to_nat (res_length r)) output)] | None => reserved end.

Lemma not_quiet c v : state c = Active -> child c = Some v -> ~ quiet c.
Proof. intros H1 H2 [?|[?|?]]; congruence. Qed.

(** What [copy_prefix] gives for a reservation. *)
Lemma copy_reserved q output : queue_ok q ->
  exists count out, copy_prefix q output FAIR_SOURCE_BYTES_PER_TURN = Ok (count, out) /\ 0 <= count <= len (contents q) /\
    take (Z.to_nat count) out = take (Z.to_nat count) (contents q).
Proof.
  intros Hq. rewrite (copy_prefix_holds q (contents q)) by done. eexists _, _. split; [done|].
  set (count := Z.min _ _). assert (0 <= count <= len (contents q)) by (unfold count, FAIR_SOURCE_BYTES_PER_TURN; lia).
  split; [done|]. rewrite take_app_le by (rewrite length_take; lia). by rewrite take_take, Nat.min_id.
Qed.

Lemma keeps_reserve_child_stdin output c reserved log : inv c reserved log ->
  wp (reserve_child_stdin output) (fun '(r, out) c' => inv c' (with_reservation reserved r out) log) (fun _ c' => inv c' reserved log) c.
Proof.
  intros Hi. unfold reserve_child_stdin. destruct (len output =? 0); [by con_step|]. con_step. con_step; [done|]. do 4 con_step; [done|].
  destruct (queue_is_empty (input c)); [by con_step|]. con_step.
  destruct (copy_reserved (input c) output (d_input _ _ _ (i_data _ _ _ Hi))) as (count & out & Hcp & Hcount & Htake). rewrite Hcp.
  apply con_lift; [done..|]. intros [? ?] [= <- <-]. con_step. con_step; [by apply inv_failed|]. repeat con_step. cbn [with_reservation].
  destruct Hi as [Hs Hk Hd]. split; [eapply shape_same; [exact Hs|..]; done|eapply clock_same; [exact Hk|..]; cbn; auto|].
  eapply data_reserve; [exact Hd|..]; cbn; try done; [by eapply not_quiet|..].
  - intros p [= <-]. split; [done|]. rewrite Htake. by apply (stands_for_new (mkReservation _ _ _ _)).
  - intros p Hp. destruct (d_tx _ _ _ Hd p Hp) as (s & ? & ?). exists s. split; [done|]. by apply stands_for_more.
Qed.

Lemma keeps_reserve_serial_tx output c reserved log : inv c reserved log ->
  wp (reserve_serial_tx output) (fun '(r, out) c' => inv c' (with_reservation reserved r out) log) (fun _ c' => inv c' reserved log) c.
Proof.
  intros Hi. unfold reserve_serial_tx. destruct (len output =? 0); [by con_step|]. con_step. con_step; [done|]. do 4 con_step; [done|].
  cbv zeta. set (source := if queue_is_empty _ then other _ else next_output c). destruct (queue_is_empty (queue_for c source)); [by con_step|]. con_step.
  destruct (copy_reserved (queue_for c source) output (d_output _ _ _ (i_data _ _ _ Hi) source)) as (count & out & Hcp & Hcount & Htake). rewrite Hcp.
  apply con_lift; [done..|]. intros [? ?] [= <- <-]. con_step. con_step; [by apply inv_failed|]. repeat con_step. cbn [with_reservation].
  destruct Hi as [Hs Hk Hd]. split; [eapply shape_same; [exact Hs|..]; done|eapply clock_same; [exact Hk|..]; cbn; auto|].
  eapply data_reserve; [exact Hd|..]; cbn; try done; [by eapply not_quiet|..].
  - intros p Hp. destruct (d_stdin _ _ _ Hd p Hp). split; [done|]. by apply stands_for_more.
  - intros p [= <-]. exists source. split; [done|]. rewrite Htake. by apply (stands_for_new (mkReservation _ _ _ _)).
Qed.

Lemma wp_require_reservation pending r (Q : unit -> C -> Prop) R c : (forall e, R e c) ->
  (forall v, pending c = Some r -> state c = Active -> child c = Some v -> res_event r = event_from (ids v) -> Q tt c) ->
  wp (require_reservation pending r) Q R c.
Proof.
  intros HR HQ. unfold require_reservation. do 2 con_step. case_bool_decide as Hp; cbn [negb]; [|con_step; apply HR].
  con_step. con_step; [apply HR|]. con_step; [apply HR|]. facts. by eapply HQ.
Qed.

Lemma keeps_release_child_stdin r c reserved log : inv c reserved log -> kept (release_child_stdin r) c reserved log.
Proof.
  intros Hi. unfold kept, release_child_stdin. con_step. apply wp_require_reservation; [done|]. intros v Hp Ha Hc _. repeat con_step. rebuild.
Qed.
Lemma keeps_release_serial_tx r c reserved log : inv c reserved log -> kept (release_serial_tx r) c reserved log.
Proof.
  intros Hi. unfold kept, release_serial_tx. con_step. apply wp_require_reservation; [done|]. intros v Hp Ha Hc _. repeat con_step. rebuild.
Qed.

Lemma keeps_commit_child_stdin r bytes c reserved log : inv c reserved log -> (r, bytes) ∈ reserved ->
  wp (commit_child_stdin r) (fun _ c' => inv c' reserved (log ++ [SentToChild (res_event r) bytes])) (fun _ c' => inv c' reserved log) c.
Proof.
  intros [Hs Hk Hd] Hin. unfold commit_child_stdin. con_step. apply wp_require_reservation; [done|]. intros v Hp Ha Hc He.
  do 3 con_step. destruct (d_stdin _ _ _ Hd r Hp) as [_ Hsf]. pose proof (stands_for_bytes _ _ _ _ (proj2 (d_tokens _ _ _ Hd)) Hsf Hin) as Hb.
  destruct Hsf as [Hl _]. destruct (consume_holds _ _ _ (d_input _ _ _ Hd) Hl) as (q & -> & [Hq Hcq]%holds_ok).
  apply con_lift; [done..|]. intros ? [= <-]. repeat con_step. destruct (d_current _ _ _ Hd v Ha Hc) as [(b & Hacc) Hout].
  split; [eapply shape_same; [exact Hs|..]; done|eapply clock_same; [exact Hk|..]; cbn; auto|].
  eapply data_advance; [exact Hd|exact Hs|exact Ha|exact Hc|..]; cbn; try done.
  - intros s. pose proof (d_output _ _ _ Hd s). by destruct s.
  - intros p Hp'. destruct (d_tx _ _ _ Hd p Hp') as (s & ? & ?). exists s. by destruct s.
  - exists b. unfold received, sent_to_child in *. rewrite !collect_snoc. cbn. rewrite decide_True, app_nil_r, Hacc, Hcq, Hb by done.
    by rewrite <-(assoc_L (++)), take_drop.
  - intros s. specialize (Hout s). unfold accounted_out, written, sent_to_terminal in *. rewrite !collect_snoc. cbn. rewrite !app_nil_r. by destruct s.
Qed.

Lemma queue_for_set s q c : queue_for (set_queue_for s q c) s = q.
Proof. by destruct s. Qed.
Lemma queue_for_set_ne s q c : queue_for (set_queue_for s q c) (other s) = queue_for c (other s).
Proof. by destruct s. Qed.

Lemma keeps_commit_serial_tx r bytes s c reserved log : inv c reserved log -> (r, bytes) ∈ reserved -> res_source r = Some s ->
  wp (commit_serial_tx r) (fun _ c' => inv c' reserved (log ++ [SentToTerminal (res_event r) s bytes])) (fun _ c' => inv c' reserved log) c.
Proof.
  intros [Hs Hk Hd] Hin Hsrc. unfold commit_serial_tx. con_step. apply wp_require_reservation; [done|]. intros v Hp Ha Hc He.
  rewrite Hsrc. cbn [ok_or]. con_step. apply con_lift; [done..|]. intros ? [= <-]. do 3 con_step.
  destruct (d_tx _ _ _ Hd r Hp) as (s' & Hs' & Hsf). assert (s' = s) as -> by congruence.
  pose proof (stands_for_bytes _ _ _ _ (proj2 (d_tokens _ _ _ Hd)) Hsf Hin) as Hb.
  destruct Hsf as [Hl _]. destruct (consume_holds _ _ _ (d_output _ _ _ Hd s) Hl) as (q & -> & [Hq Hcq]%holds_ok).
  apply con_lift; [done..|]. intros ? [= <-]. repeat con_step. destruct (d_current _ _ _ Hd v Ha Hc) as [(b & Hacc) Hout].
  assert (forall s', s' = s \/ s' = other s) as Hor by (intros []; destruct s; auto).
  set (c' := set_pending_tx _ _). assert (queue_for c' s = q /\ queue_for c' (other s) = queue_for c (other s)) as [Hqs Hqo] by (by destruct s).
  assert (forall s', normalizer_for c' s' = normalizer_for c s') as Hno by (intros []; by destruct s).
  assert (input c' = input c /\ input_normalizer c' = input_normalizer c /\ pending_stdin c' = pending_stdin c) as (Hin' & Hinn & Hps) by (by destruct s).
  split; [eapply shape_same; [exact Hs|..]; by destruct s|eapply clock_same; [exact Hk|..]; destruct s; cbn; auto|].
  eapply data_advance; [exact Hd|exact Hs|exact Ha|exact Hc|..]; try (by destruct s); rewrite ?Hin', ?Hinn, ?Hps.
  - by apply (d_input _ _ _ Hd).
  - intros s'. destruct (Hor s') as [->| ->]; rewrite ?Hqs, ?Hqo; [done|by apply (d_output _ _ _ Hd)].
  - by apply (d_stdin _ _ _ Hd).
  - exists b. unfold received, sent_to_child in *. rewrite !collect_snoc. cbn. by rewrite !app_nil_r.
  - intros s'. specialize (Hout s'). unfold accounted_out, written, sent_to_terminal in *. rewrite !collect_snoc, Hno. cbn. rewrite !app_nil_r.
    destruct (Hor s') as [->| ->].
    + rewrite decide_True, Hout, Hqs, Hcq, Hb by done. by rewrite <-(assoc_L (++)), take_drop.
    + rewrite decide_False by (intros [_ Hx]; by destruct s). by rewrite app_nil_r, Hqo.
Qed.

(** ** Polling *)

Lemma to_terminal_length text : forall f, len (to_terminal f text).1 <= 2 * len text.
Proof.
  intros f. rewrite <-output_len_spec. revert f. induction text as [|b text IH]; intros f; cbn [output_len length]; [done|].
  specialize (IH (b =? CR)). destruct ((b =? LF) && negb f); lia.
Qed.

(** What a reader may answer: it fills the buffer in place and gives a [usize] or an error. *)
Definition Answer : Type := OutputSource -> list Z -> list Z * result (option Z).
Definition answer_ok (answer : Answer) : Prop := forall source payload,
  let '(payload', outcome) := answer source payload in
  length payload' = length payload /\ match outcome with Ok (Some n) => 0 <= n | Ok None | Err _ => True | Panic => False end.
(** The reader, with the log of what it read. *)
Definition logged (event : EventGeneration) (answer : Answer) : Read (list Entry) := fun source payload log =>
  let '(payload, outcome) := answer source payload in
  (match outcome with
   | Ok (Some n) => if (0 <? n) && (n <=? len payload) then log ++ [Written event source (take (Z.to_nat n) payload)] else log
   | _ => log
   end, (payload, outcome)).

Lemma wp_on_model {A W} (m : M A) (Q : A -> C * W -> Prop) R c w :
  wp m (fun a c' => Q a (c', w)) (fun e c' => R e (c', w)) c -> wp (on_model m) Q R (c, w).
Proof. unfold wp, on_model. by destruct (m c) as [c' [a|e|]]. Qed.

Lemma slice_front (payload : list Z) n : 0 <= n <= len payload -> slice (E := ModelError) payload 0 n = Ok (take (Z.to_nat n) payload).
Proof.
  intros Hn. unfold slice. destruct (proj2 (get_range_is_Some payload 0 n)) as [x Hx]; [lia|]. rewrite Hx.
  apply get_range_Some in Hx as (_ & _ & _ & ->). by rewrite Z.sub_0_r, drop_0.
Qed.

Lemma keeps_poll_source event answer source payload quiet c v reserved log : answer_ok answer -> inv c reserved log ->
  state c = Active -> child c = Some v -> event_from (ids v) = event -> contents (queue_for c source) = [] ->
  len payload = FAIR_SOURCE_BYTES_PER_TURN ->
  wp (poll_source event (logged event answer) source payload quiet)
    (fun '(payload', _) '(c', log') => inv c' reserved log' /\ state c' = Active /\ child c' = Some v /\
       queue_for c' (other source) = queue_for c (other source) /\ len payload' = FAIR_SOURCE_BYTES_PER_TURN)
    (fun _ '(c', log') => inv c' reserved log') (c, log).
Proof.
  intros Hans Hi Ha Hv He Hempty Hlen. unfold poll_source. wp_step. unfold wp at 1, call_read, logged.
  specialize (Hans source payload). destruct (answer source payload) as [payload' outcome]. destruct Hans as [Hl Hout].
  destruct outcome as [[n|]|e|]; cbn [res_bind]; [|by wp_step; rewrite Hl|done|done].
  wp_step. apply wp_on_model, con_refuse_if; intros Hb.
  { rewrite (proj2 (andb_false_iff _ _)); [done|]. apply orb_true_iff in Hb as [Hb%Z.eqb_eq|Hb%Z.ltb_lt]; [left; lia|right; lia]. }
  apply orb_false_iff in Hb as [Hb1%Z.eqb_neq Hb2%Z.ltb_ge]. rewrite (proj2 (andb_true_iff _ _)) by lia.
  wp_step. apply wp_on_model. rewrite slice_front by lia. apply con_lift; [done..|]. intros ? [= <-].
  wp_step. apply wp_on_model. eapply wp_mono; [by apply keeps_stage_child_output| |].
  - intros _ c' (Hi' & Hs' & Hc' & Hq'). wp_step. cbn beta iota. split_and!; try done; [congruence|congruence|lia].
  - intros e c' [_ Hno]. exfalso. unfold event_is_current in Hno. rewrite Ha, Hv, <-He in Hno. rewrite !bool_decide_true in Hno by done.
    specialize (Hno eq_refl). rewrite Hempty in Hno. pose proof (to_terminal_length (take (Z.to_nat n) payload') (normalizer_for c source)) as Hle.
    rewrite length_take in Hno, Hle. unfold FAIR_SOURCE_BYTES_PER_TURN, STAGING_CAPACITY in *. cbn [length] in Hno. lia.
Qed.

Lemma keeps_poll event answer c reserved log : answer_ok answer -> inv c reserved log ->
  wp (poll_output_quiescence event (logged event answer)) (fun _ '(c', log') => inv c' reserved log') (fun _ '(c', log') => inv c' reserved log') (c, log).
Proof.
  intros Hans Hi. unfold poll_output_quiescence. wp_step. apply wp_on_model. con_step; [by apply keeps_last_failure|].
  wp_step. apply wp_on_model. con_step. destruct (_ || _) eqn:Hb; [by wp_step|]. facts.
  rewrite !queue_empty_contents in * by first [by apply (d_input _ _ _ (i_data _ _ _ Hi))|by apply (d_output _ _ _ (i_data _ _ _ Hi) Stdout)|by apply (d_output _ _ _ (i_data _ _ _ Hi) Stderr)].
  facts. wp_step. eapply wp_mono; [eapply keeps_poll_source; try done|..|by intros e [c' log']].
  intros [payload quiet'] [c' log'] (Hi' & Ha' & Hc' & Hq' & Hl). cbn beta iota. wp_step.
  eapply wp_mono; [eapply keeps_poll_source; try done; cbn [other] in Hq'; rewrite Hq'; done|..|by intros e [c2 log2]].
  intros [payload2 quiet2] [c2 log2] (Hi2 & _). by wp_step.
Qed.
