(* ===== verification/ConsoleThms.v ===== *)
(** * The console and its caller

    Any sequence of calls the console's caller can make, with the transactions, tokens
    and reservations it was given.  A call ends in a world or panics ([None]); an error
    is an outcome the caller sees, and the world goes on.  What the console promises
    in every such world comes last. *)

From stdpp Require Import base tactics option list list_numbers.
From Stdlib Require Import ZArith Lia.
From S2P Require Import Prelude Bytes Layout StateM ConsoleProto Console ConsoleInv ConsoleOps.

Import Console.

(** ** Calls *)

(** What the caller was given is named by its place in the world's lists. *)
Inductive Call :=
| BeginConnect (expected : ConnectRequest) | AbortConnect (request : ConnectRequest) | AttachConnected (s : SerialCorrelation) (now : Z)
| BeginChildLaunch (launch : Z) | MoveChildPeer (i : nat) (kind : StreamKind) | CommitChildLaunch (i : nat) (job : Z)
| AbortChildLaunch (i : nat) | CompleteAbortChildLaunch (i : nat) (evidence : LaunchCleanupEvidence)
| StageSerialInput (e : EventGeneration) (raw : list Z) | StageChildOutput (e : EventGeneration) (s : OutputSource) (text : list Z)
| PollOutputQuiescence (e : EventGeneration) (answer : Answer)
| WrongDirectionData (e : EventGeneration) (now : Z) | ChildTerminal (e : EventGeneration) (now : Z) | ChildTerminalPrecursor (e : EventGeneration) (now : Z)
| ChildPeerClosed (e : EventGeneration) (kind : StreamKind) (now : Z) | StatusPeerClosed (e : EventGeneration) (now : Z)
| ObserveChildPeerClosed (e : EventGeneration) (kind : StreamKind) (now : Z) | ChildStreamsClosed (e : EventGeneration) (now : Z)
| SerialPeerClosed (s : SerialCorrelation) (generation now : Z) | ChildTerminated (e : EventGeneration) (now : Z) | ChildReaped (e : EventGeneration) (now : Z)
| CompleteSerialCleanup (s : SerialCorrelation) (generation now : Z) | SerialReconnectFailed (now : Z)
| ReserveChildStdin (output : list Z) | CommitChildStdin (i : nat) | ReleaseChildStdin (i : nat)
| ReserveSerialTx (output : list Z) | CommitSerialTx (i : nat) | ReleaseSerialTx (i : nat)
| ObserveChildReady (e : EventGeneration) (now : Z) | ObserveReady (now : Z) (token : ReadyToken) | TakeRecoveryAction.

Definition call_ok (call : Call) : Prop := match call with PollOutputQuiescence _ answer => answer_ok answer | _ => True end.

Definition with_model (c : C) (w : World) : World := mkWorld c (transactions w) (cleanup_tokens w) (reserved w) (log w).
Definition with_transactions (l : list LaunchTransaction) (w : World) : World := mkWorld (model w) l (cleanup_tokens w) (reserved w) (log w).
Definition with_token (t : LaunchCleanupToken) (w : World) : World := mkWorld (model w) (transactions w) (cleanup_tokens w ++ [t]) (reserved w) (log w).
Definition with_reserved (l : list (Reservation * list Z)) (w : World) : World := mkWorld (model w) (transactions w) (cleanup_tokens w) l (log w).
Definition with_entry (entry : Entry) (w : World) : World := mkWorld (model w) (transactions w) (cleanup_tokens w) (reserved w) (log w ++ [entry]).

(** Run [m] on the console; [k] is what the caller does with the value. *)
Definition after {A} (m : M A) (k : A -> World -> World) (w : World) : option World :=
  let '(c, outcome) := m (model w) in
  match outcome with Ok a => Some (k a (with_model c w)) | Err _ => Some (with_model c w) | Panic => None end.
Definition ignore {A} (_ : A) (w : World) : World := w.
(** What the caller sends when a transmit reservation is committed. *)
Definition send_to_terminal (r : Reservation) (bytes : list Z) (w : World) : World :=
  match res_source r with Some s => with_entry (SentToTerminal (res_event r) s bytes) w | None => w end.
Definition given {T} (o : option T) (f : T -> option World) (w : World) : option World := match o with Some x => f x | None => Some w end.

Definition exec (call : Call) (w : World) : option World :=
  match call with
  | BeginConnect expected => after (begin_connect expected) ignore w
  | AbortConnect request => after (abort_connect request) ignore w
  | AttachConnected s now => after (attach_connected s now) ignore w
  | BeginChildLaunch launch => after (begin_child_launch launch) (fun tx w => with_transactions (transactions w ++ [tx]) w) w
  | MoveChildPeer i kind => given (transactions w !! i) (fun tx => Some (with_transactions (<[i := (move_child_peer kind tx).1]> (transactions w)) w)) w
  | CommitChildLaunch i job => given (transactions w !! i) (fun tx =>
      after (commit_child_launch tx job) (fun r w => with_transactions (<[i := r.1]> (transactions w)) w) w) w
  | AbortChildLaunch i => given (transactions w !! i) (fun tx =>
      after (abort_child_launch tx) with_token (with_transactions (delete i (transactions w)) w)) w
  | CompleteAbortChildLaunch i evidence => given (cleanup_tokens w !! i) (fun t => after (complete_abort_child_launch t evidence) ignore w) w
  | StageSerialInput e raw => after (stage_serial_input e raw) (fun _ => with_entry (Received e raw)) w
  | StageChildOutput e s text => after (stage_child_output e s text) (fun _ => with_entry (Written e s text)) w
  | PollOutputQuiescence e answer =>
      let '(c, log, outcome) := poll_output_quiescence e (logged e answer) (model w, log w) in
      match outcome with Panic => None | _ => Some (mkWorld c (transactions w) (cleanup_tokens w) (reserved w) log) end
  | WrongDirectionData e now => after (wrong_direction_data e now) ignore w
  | ChildTerminal e now => after (child_terminal e now) ignore w
  | ChildTerminalPrecursor e now => after (child_terminal_precursor e now) ignore w
  | ChildPeerClosed e kind now => after (child_peer_closed e kind now) ignore w
  | StatusPeerClosed e now => after (status_peer_closed e now) ignore w
  | ObserveChildPeerClosed e kind now => after (observe_child_peer_closed e kind now) ignore w
  | ChildStreamsClosed e now => after (child_streams_closed e now) ignore w
  | SerialPeerClosed s generation now => after (serial_peer_closed s generation now) ignore w
  | ChildTerminated e now => after (child_terminated e now) ignore w
  | ChildReaped e now => after (child_reaped e now) ignore w
  | CompleteSerialCleanup s generation now => after (complete_serial_cleanup s generation now) ignore w
  | SerialReconnectFailed now => after (serial_reconnect_failed now) ignore w
  | ReserveChildStdin output => after (reserve_child_stdin output) (fun r w => with_reserved (with_reservation (reserved w) r.1 r.2) w) w
  | CommitChildStdin i => given (reserved w !! i) (fun r => after (commit_child_stdin r.1) (fun _ => with_entry (SentToChild (res_event r.1) r.2)) w) w
  | ReleaseChildStdin i => given (reserved w !! i) (fun r => after (release_child_stdin r.1) ignore w) w
  | ReserveSerialTx output => after (reserve_serial_tx output) (fun r w => with_reserved (with_reservation (reserved w) r.1 r.2) w) w
  | CommitSerialTx i => given (reserved w !! i) (fun r => after (commit_serial_tx r.1) (fun _ => send_to_terminal r.1 r.2) w) w
  | ReleaseSerialTx i => given (reserved w !! i) (fun r => after (release_serial_tx r.1) ignore w) w
  | ObserveChildReady e now => after (observe_child_ready e now) ignore w
  | ObserveReady now token => after (observe_ready now token) ignore w
  | TakeRecoveryAction => after take_recovery_action ignore w
  end.

Fixpoint run (calls : list Call) (w : World) : option World :=
  match calls with [] => Some w | call :: calls => match exec call w with Some w => run calls w | None => None end end.
Definition start : World := mkWorld console_new [] [] [] [].

(** ** What no call but an abort changes *)

(** Generations are not reused, and a launch is marked for cleanup by [abort_child_launch] alone. *)
Record steady (c c' : C) : Prop := {
  y_generation : next_generation c <= next_generation c';
  y_cleanup : pending_launch_cleanup c' = pending_launch_cleanup c \/ pending_launch_cleanup c' = None }.
#[global] Instance steady_preorder : PreOrder steady.
Proof. split; [split; auto; lia|]. intros a b c [? H] [? H']. split; [lia|]. destruct H' as [->|]; auto. Qed.

Definition steadily {A} (m : M A) : Prop := forall c, steady c (m c).1.
Lemma steadily_bind {A B} (m : M A) (k : A -> M B) : steadily m -> (forall a, steadily (k a)) -> steadily (m ≫= k).
Proof.
  intros Hm Hk c. specialize (Hm c). unfold mbind, SM_bind. destruct (m c) as [c' [a|e|]]; cbn in *; try done. etrans; [exact Hm|apply Hk].
Qed.
Lemma steadily_same {A} (m : M A) : (forall c, (m c).1 = c) -> steadily m.
Proof. intros H c. by rewrite H. Qed.
Lemma steadily_modify f : (forall c, next_generation (f c) = next_generation c) ->
  (forall c, pending_launch_cleanup (f c) = pending_launch_cleanup c \/ pending_launch_cleanup (f c) = None) -> steadily (modify f).
Proof. intros Hg Hp c. split; cbn; [by rewrite Hg|apply Hp]. Qed.
Lemma steadily_generation : steadily allocate_generation.
Proof.
  intros c. unfold allocate_generation, mbind, SM_bind, gets, or_fail. cbn. destruct (checked_add_u64 _ 1) as [n|] eqn:H; cbn; [|by split; [cbn|left]].
  apply checked_add_Some in H as [-> _]. split; cbn; [lia|auto].
Qed.

Create HintDb console.
Ltac head_of t := match t with ?f _ => head_of f | _ => t end.
(** Follow the monadic structure of an operation. *)
Ltac steady :=
  repeat match goal with
  | |- steadily (mbind _ _) => apply steadily_bind; [|intros ?]
  | |- steadily allocate_generation => apply steadily_generation
  | |- steadily (modify _) => apply steadily_modify; intros ?; cbn; auto
  | |- steadily (match ?x with _ => _ end) => destruct x
  | |- steadily (let _ := _ in _) => cbv zeta
  | |- steadily (refuse_if ?b _) => apply steadily_same; by destruct b
  | |- steadily (or_fail ?o _) => unfold or_fail
  | |- steadily (lift _) => by apply steadily_same
  | |- steadily _ => first [by apply steadily_same|progress cbv beta]
  | |- steadily ?m => let h := head_of m in unfold h
  end.

(** ** The world's invariant *)

Record world_ok (w : World) : Prop := mkWorldOk {
  o_inv : inv (model w) (reserved w) (log w);
  o_tokens : Forall token_ok (cleanup_tokens w);
  o_generations : NoDup (tx_child_generation <$> transactions w);
  o_allocated : Forall (fun tx => tx_child_generation tx < next_generation (model w)) (transactions w);
  (** an aborted launch can not be committed: its transaction is gone *)
  o_aborted : forall p tx, pending_launch_cleanup (model w) = Some p -> tx ∈ transactions w -> identity_of tx <> p }.

Lemma world_steady w c' reserved' log' : world_ok w -> steady (model w) c' -> inv c' reserved' log' ->
  world_ok (mkWorld c' (transactions w) (cleanup_tokens w) reserved' log').
Proof.
  intros [Oi Ot Og Oa Ob] [Yg Yc] Hi. split; cbn; try done.
  - eapply Forall_impl; [exact Oa|]. cbn. lia.
  - intros p tx Hp Htx. apply Ob; [|done]. destruct Yc as [Yc|Yc]; congruence.
Qed.

(** What [after] gives, from what is proved of the operation. *)
Lemma after_spec {A} (m : M A) k w (Q : A -> C -> Prop) (P : World -> Prop) :
  wp m Q (fun _ c' => inv c' (reserved w) (log w)) (model w) -> steadily m ->
  (forall a c', Q a c' -> steady (model w) c' -> P (k a (with_model c' w))) ->
  (forall c', inv c' (reserved w) (log w) -> steady (model w) c' -> P (with_model c' w)) ->
  exists w', after m k w = Some w' /\ P w'.
Proof.
  intros Hm Hs Hok Herr. specialize (Hs (model w)). unfold wp, after in *. destruct (m (model w)) as [c' [a|e|]]; cbn in Hs; [|..|done]; eauto.
Qed.

(** The call leaves the world with what is proved of its operation. *)
Lemma after_keeps {A} (m : M A) k w (Q : A -> C -> Prop) : world_ok w ->
  wp m Q (fun _ c' => inv c' (reserved w) (log w)) (model w) -> steadily m ->
  (forall a c', Q a c' -> steady (model w) c' -> world_ok (k a (with_model c' w))) -> exists w', after m k w = Some w' /\ world_ok w'.
Proof.
  intros Hw Hm Hs Hok. eapply after_spec; [exact Hm|done|done|]. intros c' Hi Hst. by apply world_steady.
Qed.
Lemma after_kept {A} (m : M A) w : world_ok w -> kept m (model w) (reserved w) (log w) -> steadily m ->
  exists w', after m ignore w = Some w' /\ world_ok w'.
Proof. intros Hw Hk Hs. eapply after_keeps; [done|exact Hk|done|]. intros a c' Hi Hst. by apply world_steady. Qed.

(** A new launch has a generation of its own. *)
Lemma begin_child_launch_fresh launch c reserved log : inv c reserved log ->
  wp (begin_child_launch launch) (fun tx c' => tx_child_generation tx = next_generation c /\ next_generation c < next_generation c' /\ inv c' reserved log)
    (fun _ c' => inv c' reserved log) c.
Proof.
  intros Hi. assert (wp (begin_child_launch launch) (fun tx c' => tx_child_generation tx = next_generation c /\ next_generation c < next_generation c') (fun _ _ => True) c) as H.
  { unfold begin_child_launch. repeat con_step; cbn; auto; lia. }
  pose proof (keeps_begin_child_launch reserved log launch c Hi) as Hk. unfold kept, wp in *. by destruct (begin_child_launch launch c) as [c' [tx|e|]]; [destruct H|..].
Qed.

Lemma exec_begin_child_launch launch w : world_ok w -> exists w', exec (BeginChildLaunch launch) w = Some w' /\ world_ok w'.
Proof.
  intros Hw. eapply after_keeps; [done|by apply begin_child_launch_fresh, Hw|unfold begin_child_launch; steady|].
  intros tx c' (Hg & Hlt & Hi) [_ Yc]. destruct Hw as [Oi Ot Og Oa Ob]. split; cbn; try done.
  - rewrite fmap_app. apply NoDup_app. split_and!; [done| |apply NoDup_singleton]. intros g Hin ->%list_elem_of_singleton.
    apply list_elem_of_fmap in Hin as (tx' & Heq & Hin). rewrite Forall_forall in Oa. specialize (Oa tx' Hin). lia.
  - apply Forall_app. split; [eapply Forall_impl; [exact Oa|]; cbn; lia|]. constructor; [lia|constructor].
  - intros p tx' Hp [Hin| ->%list_elem_of_singleton]%elem_of_app; [apply Ob; [destruct Yc; congruence|done]|].
    destruct Yc as [Yc|Yc]; [|congruence]. rewrite Hp in Yc. symmetry in Yc. apply (s_launch_cleanup _ (i_shape _ _ _ Oi)) in Yc.
    destruct (d_fresh _ _ _ (i_data _ _ _ Oi)) as (_ & _ & Hf). destruct (Hf p Yc) as [Hl _]. intros <-. cbn in Hl. lia.
Qed.

(** A transaction is replaced by one of the same launch. *)
Lemma world_update w i tx tx' : world_ok w -> transactions w !! i = Some tx -> identity_of tx' = identity_of tx ->
  world_ok (with_transactions (<[i := tx']> (transactions w)) w).
Proof.
  intros [Oi Ot Og Oa Ob] Hi Hid. assert (tx_child_generation tx' = tx_child_generation tx) as Hg by (by injection Hid). split; cbn; try done.
  - rewrite list_fmap_insert, Hg, list_insert_id; [done|]. by rewrite list_lookup_fmap, Hi.
  - apply Forall_insert; [done|]. rewrite Hg. by eapply (Forall_lookup_1 _ _ _ _ Oa).
  - intros p t Hp Ht. apply list_elem_of_lookup in Ht as (j & Hj). destruct (decide (i = j)) as [<-|Hne].
    + rewrite list_lookup_insert_eq in Hj by (by eapply lookup_lt_Some). injection Hj as <-. rewrite Hid. apply Ob; [done|]. by eapply list_elem_of_lookup_2.
    + rewrite list_lookup_insert_ne in Hj by done. apply Ob; [done|]. by eapply list_elem_of_lookup_2.
Qed.

Lemma exec_move_child_peer i kind w : world_ok w -> exists w', exec (MoveChildPeer i kind) w = Some w' /\ world_ok w'.
Proof.
  intros Hw. cbn. destruct (transactions w !! i) as [tx|] eqn:Hi; cbn; [|eauto]. eexists. split; [done|]. eapply world_update; [done..|].
  unfold move_child_peer. by destruct (tx_committed tx || _).
Qed.

Lemma exec_commit_child_launch i job w : world_ok w -> exists w', exec (CommitChildLaunch i job) w = Some w' /\ world_ok w'.
Proof.
  intros Hw. cbn. destruct (transactions w !! i) as [tx|] eqn:Hi; cbn; [|eauto].
  assert (wp (commit_child_launch tx job) (fun r _ => identity_of r.1 = identity_of tx) (fun _ _ => True) (model w)) as Hid.
  { unfold commit_child_launch. by repeat con_step. }
  assert (kept (commit_child_launch tx job) (model w) (reserved w) (log w)) as Hk.
  { apply keeps_commit_child_launch; [by apply Hw|]. intros Hp. by eapply (o_aborted _ Hw); [exact Hp|eapply list_elem_of_lookup_2|]. }
  assert (steadily (commit_child_launch tx job)) as Hs by (unfold commit_child_launch; steady). specialize (Hs (model w)).
  unfold kept, wp, after in *. destruct (commit_child_launch tx job (model w)) as [c' [r|e|]]; cbn in Hs; [|..|done]; eexists; (split; [done|]).
  - apply (world_update (with_model c' w) i tx); [by apply world_steady|done|done].
  - by apply world_steady.
Qed.

(** A transaction that is given away. *)
Lemma delete_rest {A B} (f : A -> B) l i x : NoDup (f <$> l) -> l !! i = Some x ->
  NoDup (f <$> delete i l) /\ (forall y, y ∈ delete i l -> y ∈ l /\ f y <> f x).
Proof.
  intros Hnd Hi. rewrite delete_take_drop. rewrite <-(take_drop_middle _ _ _ Hi), fmap_app, fmap_cons in Hnd.
  apply NoDup_app in Hnd as (N1 & N2 & N3). apply NoDup_cons in N3 as [N3 N4]. split.
  - rewrite fmap_app. apply NoDup_app. split_and!; [done| |done]. intros y Hy Hy'. apply (N2 y Hy). by right.
  - intros y [Hy|Hy]%elem_of_app.
    + split; [rewrite <-(take_drop i l); apply elem_of_app; by left|]. intros Hf. apply (N2 (f y)); [by apply list_elem_of_fmap_2|]. rewrite Hf. by left.
    + split; [rewrite <-(take_drop (S i) l); apply elem_of_app; by right|]. intros Hf. apply N3. rewrite <-Hf. by apply list_elem_of_fmap_2.
Qed.

Lemma abort_child_launch_spec tx c : wp (abort_child_launch tx)
  (fun t c' => token_ok t /\ c' = set_pending_launch_cleanup (Some (identity_of tx)) c) (fun _ c' => c' = c) c.
Proof.
  unfold abort_child_launch. do 4 con_step; [done|]. con_step. apply con_lift; [unfold abort_cleanup; by destruct (tx_committed tx)|done|].
  intros cleanup Hok. repeat con_step. split; [by exists tx|done].
Qed.

Lemma exec_abort_child_launch i w : world_ok w -> exists w', exec (AbortChildLaunch i) w = Some w' /\ world_ok w'.
Proof.
  intros [Oi Ot Og Oa Ob]. cbn. destruct (transactions w !! i) as [tx|] eqn:Hi; cbn; [|eauto]; [|by eexists; split].
  destruct (delete_rest tx_child_generation _ _ _ Og Hi) as [Hnd Hrest]. pose proof (keeps_abort_child_launch (reserved w) (log w) tx (model w) Oi) as Hk.
  pose proof (abort_child_launch_spec tx (model w)) as Ha. unfold kept, wp, after in *. cbn [model with_transactions].
  assert (Forall (fun t => tx_child_generation t < next_generation (model w)) (delete i (transactions w))) as Hall.
  { apply Forall_forall. intros t Ht. rewrite Forall_forall in Oa. by apply Oa, Hrest. }
  destruct (abort_child_launch tx (model w)) as [c' [t|e|]]; [|..|done]; (eexists; split; [done|]).
  - destruct Ha as [Ht ->]. split; cbn; try done; [by apply Forall_app; split; [|constructor]|].
    intros p t' [= <-] Hin Heq. apply (proj2 (Hrest t' Hin)). by injection Heq.
  - subst c'. split; cbn; try done. intros p t Hp Hin. apply Ob; [done|]. by apply Hrest.
Qed.

(** ** Every call *)

(** The log gains an entry. *)
Lemma world_entry w c' entry : world_ok w -> steady (model w) c' -> inv c' (reserved w) (log w ++ [entry]) -> world_ok (with_entry entry (with_model c' w)).
Proof. intros. by apply (world_steady w). Qed.
Lemma world_reserved w c' l : world_ok w -> steady (model w) c' -> inv c' l (log w) -> world_ok (with_reserved l (with_model c' w)).
Proof. intros. by apply (world_steady w). Qed.

(** The same for an operation with a reader. *)
Definition steadily_with {W A} (m : SM (C * W) ModelError A) : Prop := forall cw, steady cw.1 (m cw).1.1.
Lemma steadily_with_bind {W A B} (m : SM (C * W) ModelError A) (k : A -> SM (C * W) ModelError B) :
  steadily_with m -> (forall a, steadily_with (k a)) -> steadily_with (m ≫= k).
Proof.
  intros Hm Hk cw. specialize (Hm cw). unfold mbind, SM_bind. destruct (m cw) as [cw' [a|e|]]; cbn in *; try done. etrans; [exact Hm|apply Hk].
Qed.
Lemma steadily_with_ret {W A} (a : A) : steadily_with (W := W) (mret a).
Proof. intros cw. cbn. reflexivity. Qed.
Lemma steadily_on_model {W A} (m : M A) : steadily m -> steadily_with (W := W) (on_model m).
Proof. intros Hm [c w]. specialize (Hm c). unfold on_model. by destruct (m c). Qed.
Lemma steadily_poll_source {W} e (read : Read W) source payload quiet : steadily_with (poll_source e read source payload quiet).
Proof.
  apply steadily_with_bind; [|intros [payload' [count|]]; [|apply steadily_with_ret]].
  - intros [c w]. unfold call_read. destruct (read source payload w) as [w' [payload' outcome]]. cbn. reflexivity.
  - repeat (apply steadily_with_bind; [apply steadily_on_model; unfold stage_child_output; steady|intros ?]). apply steadily_with_ret.
Qed.
Lemma steadily_poll {W} e (read : Read W) : steadily_with (poll_output_quiescence e read).
Proof.
  apply steadily_with_bind; [apply steadily_on_model; steady|intros _]. apply steadily_with_bind; [by apply steadily_on_model, steadily_same|intros c].
  destruct (_ || _); [apply steadily_with_ret|]. apply steadily_with_bind; [apply steadily_poll_source|intros [payload quiet]].
  apply steadily_with_bind; [apply steadily_poll_source|intros []; apply steadily_with_ret].
Qed.

Lemma exec_poll e answer w : answer_ok answer -> world_ok w -> exists w', exec (PollOutputQuiescence e answer) w = Some w' /\ world_ok w'.
Proof.
  intros Ha Hw. pose proof (keeps_poll e answer (model w) (reserved w) (log w) Ha (o_inv _ Hw)) as Hk.
  assert (steady (model w) (poll_output_quiescence e (logged e answer) (model w, log w)).1.1) as Hs.
  { apply (steadily_poll e (logged e answer) (model w, log w)). }
  unfold wp in Hk. cbn. destruct (poll_output_quiescence e _ _) as [[c' log'] [b|e'|]]; cbn in Hs; [|..|done]; (eexists; split; [done|]); by apply world_steady.
Qed.

Lemma exec_commit_serial_tx i w : world_ok w -> exists w', exec (CommitSerialTx i) w = Some w' /\ world_ok w'.
Proof.
  intros Hw. cbn. destruct (reserved w !! i) as [[r bytes]|] eqn:Hi; cbn; [|eauto]. apply list_elem_of_lookup_2 in Hi.
  assert (steadily (commit_serial_tx r)) as Hs by (unfold commit_serial_tx; steady; match goal with |- context [set_queue_for ?s] => destruct s end; cbn; auto).
  unfold send_to_terminal. destruct (res_source r) as [s|] eqn:Hsrc.
  - eapply after_keeps; [done|eapply keeps_commit_serial_tx; [by apply Hw|exact Hi|done]|done|]. intros ? c' Hinv Hst. by apply world_entry.
  - apply (after_kept (commit_serial_tx r)); [done| |done]. unfold kept, commit_serial_tx. con_step. apply wp_require_reservation; [by intros; apply Hw|].
    intros v Hp _ _ _. destruct (d_tx _ _ _ (i_data _ _ _ (o_inv _ Hw)) r Hp) as (s & ? & _). congruence.
Qed.

#[local] Hint Resolve keeps_begin_connect keeps_abort_connect keeps_attach_connected keeps_wrong_direction keeps_child_terminal keeps_precursor
  keeps_child_peer_closed keeps_status_peer_closed keeps_observe_peer_closed keeps_child_streams_closed keeps_serial_peer_closed keeps_child_terminated
  keeps_child_reaped keeps_complete_serial_cleanup keeps_serial_reconnect_failed keeps_observe_child_ready keeps_observe_ready keeps_take_recovery
  keeps_release_child_stdin keeps_release_serial_tx : console.

Lemma exec_reserve w (m : M (option Reservation * list Z)) : world_ok w ->
  wp m (fun '(r, out) c' => inv c' (with_reservation (reserved w) r out) (log w)) (fun _ c' => inv c' (reserved w) (log w)) (model w) -> steadily m ->
  exists w', after m (fun r w => with_reserved (with_reservation (reserved w) r.1 r.2) w) w = Some w' /\ world_ok w'.
Proof. intros Hw Hm Hs. eapply after_keeps; [done|exact Hm|done|]. intros [r out] c' Hinv Hst. by apply world_reserved. Qed.

(** No call panics, and each keeps the invariant. *)
Lemma exec_ok call w : call_ok call -> world_ok w -> exists w', exec call w = Some w' /\ world_ok w'.
Proof.
  intros Hc Hw. pose proof (o_inv _ Hw) as Hi.
  destruct call; try (apply after_kept; [done|by auto with console|steady]).
  all: first [by apply exec_begin_child_launch|by apply exec_move_child_peer|by apply exec_commit_child_launch|by apply exec_abort_child_launch|by apply exec_poll|by apply exec_commit_serial_tx|idtac].
  - cbn. destruct (cleanup_tokens w !! i) as [t|] eqn:Ht; cbn; [|by eexists]. apply after_kept; [done| |steady].
    apply keeps_complete_abort; [|done]. by eapply (Forall_lookup_1 _ _ _ _ (o_tokens _ Hw)).
  - eapply after_keeps; [done|by apply keeps_stage_serial_input|steady|]. intros ? c' Hinv Hst. by apply world_entry.
  - eapply after_keeps; [done| |steady|].
    + eapply wp_mono; [by apply keeps_stage_child_output| |by intros ? c' [? _]]. intros ? c' [H _]. exact H.
    + intros ? c' Hinv Hst. by apply world_entry.
  - apply exec_reserve; [done|by apply keeps_reserve_child_stdin|steady].
  - cbn. destruct (reserved w !! i) as [[r bytes]|] eqn:Hr; cbn; [|by eexists]. apply list_elem_of_lookup_2 in Hr.
    eapply after_keeps; [done|by eapply keeps_commit_child_stdin|steady|]. intros ? c' Hinv Hst. by apply world_entry.
  - cbn. destruct (reserved w !! i) as [[r bytes]|] eqn:Hr; cbn; [|by eexists]. apply after_kept; [done|by auto with console|steady].
  - apply exec_reserve; [done|by apply keeps_reserve_serial_tx|steady].
  - cbn. destruct (reserved w !! i) as [[r bytes]|] eqn:Hr; cbn; [|by eexists]. apply after_kept; [done|by auto with console|steady].
Qed.

Lemma run_ok calls : forall w, Forall call_ok calls -> world_ok w -> exists w', run calls w = Some w' /\ world_ok w'.
Proof.
  induction calls as [|call calls IH]; intros w Hc Hw; [by exists w|]. apply Forall_cons in Hc as [H1 H2].
  destruct (exec_ok call w H1 Hw) as (w' & He & Hw'). cbn. rewrite He. by apply IH.
Qed.

Lemma start_ok : world_ok start.
Proof.
  assert (queue_ok queue_new /\ contents queue_new = []) as [Hq Hc] by apply (holds_ok _ _ console_queue_new).
  split; cbn; try done; [|constructor]. split.
  - split; cbn; try done.
  - split; cbn; try done.
  - split; cbn; try done.
    + by intros [].
    + intros _. split_and!; try done. by intros [].
    + split; constructor.
    + intros e. split; [by exists [], false, false|]. intros s. by exists [], false.
Qed.

(** * What the console promises its caller *)


(** ** A session *)

Definition sample_serial : SerialCorrelation := mkSerial 1 2 3 4 5 6 7 8 9 10 11 12.
Definition sample_event : EventGeneration := mkEvent sample_serial 1 2 77 5.
(** Connect, launch, receive [a CR LF], pass it to the child; the child writes [x LF]; a poll reads [y] from it. *)
Definition sample_calls : list Call :=
  [BeginConnect (mkConnect 1 2 3 4 5); AttachConnected sample_serial 10; BeginChildLaunch 5;
   MoveChildPeer 0 Stdin; MoveChildPeer 0 StdoutStream; MoveChildPeer 0 StderrStream; CommitChildLaunch 0 77;
   StageSerialInput sample_event [97; CR; LF]; ReserveChildStdin (replicate 8 0); CommitChildStdin 0;
   StageChildOutput sample_event Stdout [120; LF]; ReserveSerialTx (replicate 8 0); CommitSerialTx 1;
   PollOutputQuiescence sample_event (fun source payload =>
     match source with Stdout => (payload, Ok None) | Stderr => (<[0%nat := 121]> payload, Ok (Some 1)) end)].

Lemma sample_calls_ok : Forall call_ok sample_calls.
Proof.
  unfold sample_calls. repeat (apply Forall_cons; split; [done|]). constructor; [|constructor]. intros [] payload; cbn; [done|]. by rewrite length_insert.
Qed.

(** The session runs as it says. *)
Lemma sample_session : exists w, run sample_calls start = Some w /\ state (model w) = Active /\
  sent_to_child sample_event (log w) = [97; LF] /\ sent_to_terminal sample_event Stdout (log w) = [120; CR; LF] /\
  contents (stderr (model w)) = [121].
Proof. eexists. split; [vm_compute; reflexivity|]. by vm_compute. Qed.

(** ** The invariant *)

(** C13: whatever calls are made on a new console, with any arguments and at any times, none panics, its invariants hold after them, and its status snapshot is a valid one of the console protocol. *)
Theorem console_invariant calls : Forall call_ok calls ->
  exists w, run calls start = Some w /\ validate_invariants (model w) = true /\
    exists wire, status_snapshot (model w) = Ok wire /\ ConsoleProto.validate wire = Ok tt.
Proof.
  intros Hc. destruct (run_ok calls start Hc start_ok) as (w & Hr & Hw). exists w. split_and!; [done|..].
  - apply shape_validates, Hw.
  - eapply inv_reports, Hw.
Qed.
Lemma console_invariant_witness : Forall call_ok sample_calls /\ exists w, run sample_calls start = Some w /\ validate_invariants (model w) = true /\
    exists wire, status_snapshot (model w) = Ok wire /\ ConsoleProto.validate wire = Ok tt.
Proof. split; [exact sample_calls_ok|]. apply (console_invariant sample_calls). exact sample_calls_ok. Defined.

(** ** No byte is lost, doubled or moved *)

Lemma lf_after_cr_prefix a b : forall f, lf_after_cr f (a ++ b) = true -> lf_after_cr f a = true.
Proof. induction a as [|x a IH]; intros f; cbn; [done|]. intros [? ?]%andb_true_iff. apply andb_true_iff. eauto. Qed.

Lemma prefix_no_cr before raw sent waiting f : to_child before raw = (sent ++ waiting, f) -> Forall (fun b => b <> CR) sent.
Proof. intros H. pose proof (to_child_no_cr raw before) as Hn. rewrite H in Hn. cbn in Hn. by apply Forall_app in Hn as [? _]. Qed.
Lemma prefix_lf text sent waiting f : to_terminal false text = (sent ++ waiting, f) -> lf_after_cr false sent = true.
Proof. intros H. pose proof (to_terminal_lf text false) as Hn. rewrite H in Hn. by eapply lf_after_cr_prefix. Qed.

Lemma current_child c e : event_is_current c e = true -> exists v, state c = Active /\ child c = Some v /\ event_from (ids v) = e.
Proof. unfold event_is_current. intros H. facts. destruct (child c) as [v|]; [|done]. cbn in *. exists v. split_and!; congruence. Qed.

Lemma inv_input c reserved log e : inv c reserved log ->
  exists before waiting f, to_child before (received e log) = (sent_to_child e log ++ waiting, f) /\
    (event_is_current c e = true -> waiting = contents (input c)).
Proof.
  intros [_ _ Hd]. destruct (event_is_current c e) eqn:He.
  - destruct (current_child c e He) as (v & Ha & Hv & <-). destruct (d_current _ _ _ Hd v Ha Hv) as [(b & Hb) _]. by exists b, (contents (input c)), (input_normalizer c).
  - destruct (d_log _ _ _ Hd e) as [(w & f & b & Hb) _]. by exists b, w, f.
Qed.
Lemma inv_output c reserved log e s : inv c reserved log ->
  exists waiting f, to_terminal false (written e s log) = (sent_to_terminal e s log ++ waiting, f) /\
    (event_is_current c e = true -> waiting = contents (queue_for c s)).
Proof.
  intros [_ _ Hd]. destruct (event_is_current c e) eqn:He.
  - destruct (current_child c e He) as (v & Ha & Hv & <-). destruct (d_current _ _ _ Hd v Ha Hv) as [_ Ho]. exists (contents (queue_for c s)), (normalizer_for c s). split; [apply Ho|done].
  - destruct (d_log _ _ _ Hd e) as [_ Ho]. destruct (Ho s) as (w & f & Hb). by exists w, f.
Qed.

(** C10: in every session of a console, whatever the calls, the child is sent the terminal's bytes with line ends made LF, and the terminal each of the child's outputs with line ends made CR LF, in order, none lost or doubled: what is not sent yet is what waits in the session's queues while it is current. The child never sees a CR, and the terminal no LF that does not follow a CR. *)
Theorem console_lossless calls : Forall call_ok calls ->
  exists w, run calls start = Some w /\ forall e,
    (exists before waiting f, to_child before (received e (log w)) = (sent_to_child e (log w) ++ waiting, f) /\
       (event_is_current (model w) e = true -> waiting = contents (input (model w)))) /\
    Forall (fun b => b <> CR) (sent_to_child e (log w)) /\
    forall s,
      (exists waiting f, to_terminal false (written e s (log w)) = (sent_to_terminal e s (log w) ++ waiting, f) /\
         (event_is_current (model w) e = true -> waiting = contents (queue_for (model w) s))) /\
      lf_after_cr false (sent_to_terminal e s (log w)) = true.
Proof.
  intros Hc. destruct (run_ok calls start Hc start_ok) as (w & Hr & Hw). exists w. split; [done|]. intros e. pose proof (o_inv _ Hw) as Hi.
  destruct (inv_input _ _ _ e Hi) as (b & wt & f & Hin & Hcur). split_and!; [by exists b, wt, f|by eapply prefix_no_cr|].
  intros s. destruct (inv_output _ _ _ e s Hi) as (wo & fo & Hout & Hcuro). split; [by exists wo, fo|by eapply prefix_lf].
Qed.
Lemma console_lossless_witness : exists w, run sample_calls start = Some w /\ Forall (fun b => b <> CR) (sent_to_child sample_event (log w)).
Proof.
  destruct (console_lossless sample_calls sample_calls_ok) as (w & Hr & H). exists w. split; [exact Hr|]. exact (proj1 (proj2 (H sample_event))).
Defined.
