(* ===== verification/JobProto.v ===== *)
(** * The launch and job protocol WRLJ (crates/wyrmroot-launch-proto)

    Messages between a client and the job controller: a LAUNCH with its path,
    arguments, environment and streams, the requests and answers on jobs, and the
    console's request for a shell.  A [&str] is the list of its bytes.  The checked
    additions inside [get_uN] and [put_uN] only overflow beyond the end of any slice,
    where the access fails anyway. *)

From Stdlib Require Import String.
From stdpp Require Import base tactics option list list_numbers.
From Stdlib Require Import ZArith Lia.
From S2P Require Import Prelude Bytes Utf8.

Module JobProto.

Definition ENVELOPE_BYTES : Z := 40.
Definition PREFIX_BYTES : Z := 8.
Definition HEADER_BYTES : Z := ENVELOPE_BYTES + PREFIX_BYTES.
Definition MAX_LIVE_JOBS : Z := 32.
Definition MAX_COMPLETED_JOBS : Z := 32.
Definition MAX_ARGV : Z := 64.
Definition SHELL_SESSION_SHUTDOWN_STATUS : Z := 1396965377.
Definition MAX_ENVIRONMENT : Z := 64.
Definition MAX_STRING_BYTES : Z := 16 * 1024.
Definition MAX_PATH_BYTES : Z := 256.
Definition STREAM_COUNT : Z := 3.
Definition SHELL_V1_HANDLE_COUNT : Z := 4.
Definition SHELL_V1_REQUEST_BYTES : Z := 128.
Definition SHELL_V1_REPLY_BYTES : Z := 56.
Definition SHELL_V1_PATH : list Z := literal "system/wyrmsh".
Definition SHELL_V1_STARTUP_ABI : Z := 2.
Definition SHELL_V1_POLICY_PROFILE : Z := 2.
Definition MAGIC : list Z := literal "WRLJ".
Definition MAJOR : Z := 1.
Definition MINOR : Z := 0.
Definition SHELL_V1_MINOR : Z := 1.
Definition SHELL_V1_MESSAGE_TYPE : Z := 16.
Definition RECORD_BYTES : Z := 8.
Definition LAUNCH_FIXED_BYTES : Z := 72.
Definition MAX_LAUNCH_MESSAGE_BYTES : Z :=
  LAUNCH_FIXED_BYTES + (MAX_ARGV + MAX_ENVIRONMENT) * RECORD_BYTES + STREAM_COUNT * RECORD_BYTES + MAX_PATH_BYTES + MAX_STRING_BYTES.

(** ** Data *)

Record Reservation := mkReservation { connection_id : Z; generation : Z; transaction_id : Z }.
Record ShellV1Request := mkShellRequest { console_generation : Z; status_generation : Z; requested_child_generation : Z }.
Record ParsedShellV1Request := mkParsedShellRequest { psr_reservation : Reservation; psr_request : ShellV1Request }.

Inductive MessageType :=
| TLaunch | TLaunchAccepted | TQuery | TJobState | TWait | TJobResult | TTerminate | TTerminationAccepted | TListJobs | TJobList
| TCancel | TCancelled | TCloseJob | TClosed | TError.
Inductive StreamRole := Stdin | Stdout | Stderr.
Inductive JobPhase := Running | Terminating | Exited | Reaped.
Inductive ErrorCode :=
| MalformedRequest | StaleOrUnknownSession | TransactionReplay | ForeignOrUnknownJob | InvalidState | CapacityReached
| PolicyRejected | LoaderFailure | CleanupFailure | CancellationUnavailable.
Inductive TerminationClassification := NormalExit | Authorized | UnhandledException | ResourcePolicy | TaskGroupTeardown.
Inductive Error :=
| WrongSize | WrongMagic | UnsupportedVersion | UnknownMessageType | NonzeroFlags | NonzeroReserved | ZeroIdentity
| WrongHandleCount | InvalidPath | InvalidArgumentCount | InvalidEnvironmentCount | InvalidStreamRoles | StringBytesExceeded
| NoncanonicalStringRecords | InvalidUtf8 | InvalidEnvironment | DuplicateEnvironmentName | Argv0Mismatch | InvalidJobState
| InvalidErrorCode | InvalidTerminationClassification | InvalidCleanupResult | ArithmeticOverflow.
Abbreviation result := (res Error).

Inductive ShellV1Reply := ShellAccepted (job_id : Z) | ShellError (code : ErrorCode).
Record ParsedShellV1Reply := mkParsedShellReply { psy_reservation : Reservation; psy_reply : ShellV1Reply }.

(** [as u32], and the readers *)
Definition type_number (t : MessageType) : Z :=
  match t with
  | TLaunch => 1 | TLaunchAccepted => 2 | TQuery => 3 | TJobState => 4 | TWait => 5 | TJobResult => 6 | TTerminate => 7
  | TTerminationAccepted => 8 | TListJobs => 9 | TJobList => 10 | TCancel => 11 | TCancelled => 12 | TCloseJob => 13 | TClosed => 14 | TError => 15
  end.
Definition parse_type (value : Z) : result MessageType :=
  match value with
  | 1 => Ok TLaunch | 2 => Ok TLaunchAccepted | 3 => Ok TQuery | 4 => Ok TJobState | 5 => Ok TWait | 6 => Ok TJobResult | 7 => Ok TTerminate
  | 8 => Ok TTerminationAccepted | 9 => Ok TListJobs | 10 => Ok TJobList | 11 => Ok TCancel | 12 => Ok TCancelled | 13 => Ok TCloseJob
  | 14 => Ok TClosed | 15 => Ok TError | _ => Err UnknownMessageType
  end.
Definition role_number (r : StreamRole) : Z := match r with Stdin => 1 | Stdout => 2 | Stderr => 3 end.
Definition code_number (c : ErrorCode) : Z :=
  match c with
  | MalformedRequest => 1 | StaleOrUnknownSession => 2 | TransactionReplay => 3 | ForeignOrUnknownJob => 4 | InvalidState => 5
  | CapacityReached => 6 | PolicyRejected => 7 | LoaderFailure => 8 | CleanupFailure => 9 | CancellationUnavailable => 10
  end.
Definition parse_code (value : Z) : result ErrorCode :=
  match value with
  | 1 => Ok MalformedRequest | 2 => Ok StaleOrUnknownSession | 3 => Ok TransactionReplay | 4 => Ok ForeignOrUnknownJob | 5 => Ok InvalidState
  | 6 => Ok CapacityReached | 7 => Ok PolicyRejected | 8 => Ok LoaderFailure | 9 => Ok CleanupFailure | 10 => Ok CancellationUnavailable
  | _ => Err InvalidErrorCode
  end.
Definition classification_number (c : TerminationClassification) : Z :=
  match c with NormalExit => 1 | Authorized => 2 | UnhandledException => 3 | ResourcePolicy => 4 | TaskGroupTeardown => 5 end.
Definition parse_classification (value : Z) : result TerminationClassification :=
  match value with
  | 1 => Ok NormalExit | 2 => Ok Authorized | 3 => Ok UnhandledException | 4 => Ok ResourcePolicy | 5 => Ok TaskGroupTeardown
  | _ => Err InvalidTerminationClassification
  end.
Definition phase_number (p : JobPhase) : Z := match p with Running => 1 | Terminating => 2 | Exited => 3 | Reaped => 4 end.
Definition parse_phase (value : Z) : result JobPhase :=
  match value with 1 => Ok Running | 2 => Ok Terminating | 3 => Ok Exited | 4 => Ok Reaped | _ => Err InvalidJobState end.

Definition CLEANUP_RESULT_MASK : Z := 31.
Record TerminationResult := mkTermination {
  classification : TerminationClassification; application_code : Z; exception_class : Z; exception_detail : Z; exception_address : Z; cleanup_result : Z }.

(** ** Access *)

Definition get_u16 (bytes : list Z) (offset : Z) : option Z := get_le 2 bytes offset.
Definition get_u32 (bytes : list Z) (offset : Z) : option Z := get_le 4 bytes offset.
Definition get_u64 (bytes : list Z) (offset : Z) : option Z := get_le 8 bytes offset.
Definition read_u16 (bytes : list Z) (offset : Z) : result Z := ok_or WrongSize (get_u16 bytes offset).
Definition read_u32 (bytes : list Z) (offset : Z) : result Z := ok_or WrongSize (get_u32 bytes offset).
Definition read_u64 (bytes : list Z) (offset : Z) : result Z := ok_or WrongSize (get_u64 bytes offset).
Definition put_u16 (bytes : list Z) (offset value : Z) : result (list Z) := ok_or WrongSize (put_le 2 bytes offset value).
Definition put_u32 (bytes : list Z) (offset value : Z) : result (list Z) := ok_or WrongSize (put_le 4 bytes offset value).
Definition put_u64 (bytes : list Z) (offset value : Z) : result (list Z) := ok_or WrongSize (put_le 8 bytes offset value).
(** [&bytes[a..b]]; [out[a..].copy_from_slice(vs)]; [out[..n].fill(0)] *)
Definition index_range (bytes : list Z) (a b : Z) : result (list Z) := or_panic (get_range bytes a b).
Definition copy_at (out : list Z) (a : Z) (vs : list Z) : result (list Z) := or_panic (put_range out a vs).
Definition fill (out : list Z) (n : Z) : result (list Z) := or_panic (fill_zero out n).

Definition nonzero (value : Z) : result Z := if value =? 0 then Err ZeroIdentity else Ok value.
Definition parse_cleanup_result (value : Z) : result Z :=
  if negb (Z.land value (Z.lnot CLEANUP_RESULT_MASK) =? 0) then Err InvalidCleanupResult else Ok value.
Definition require_size (bytes : list Z) (expected : Z) : result unit := if len bytes =? expected then Ok tt else Err WrongSize.
Definition require_handles (actual expected : Z) : result unit := if actual =? expected then Ok tt else Err WrongHandleCount.

(** ** Text *)

(** [StringRecords] *)
Record StringRecords := mkRecords { records : list Z; strings : list Z; count : Z }.
(** [StringRecords::get]: the outer outcome is a panic or not *)
Definition records_get (r : StringRecords) (index : Z) : result (option (list Z)) :=
  if count r <=? index then Ok None
  else
    let! record := index_range (records r) (index * RECORD_BYTES) ((index + 1) * RECORD_BYTES) in
    Ok (offset ← get_u32 record 0;
        length ← get_u16 record 4;
        finish ← checked_add_u64 offset length;
        text ← get_range (strings r) offset finish;
        _ ← from_utf8 text;
        Some text).

Record LaunchRequest := mkLaunch { rq_path : list Z; rq_argv : StringRecords; rq_environment : StringRecords; rq_stream_count : Z }.
Definition argc (r : LaunchRequest) : Z := count (rq_argv r).
Definition environment_count (r : LaunchRequest) : Z := count (rq_environment r).
Definition arg (r : LaunchRequest) (index : Z) : result (option (list Z)) := records_get (rq_argv r) index.
Definition environment (r : LaunchRequest) (index : Z) : result (option (list Z)) := records_get (rq_environment r) index.

(** [JobIds] is its bytes. *)
Definition JobIds : Type := list Z.
Definition ids_len (j : JobIds) : Z := len j / 8.
Definition ids_is_empty (j : JobIds) : bool := bool_decide (j = []).
Definition ids_get (j : JobIds) (index : Z) : option Z := offset ← checked_mul_u64 index 8; get_u64 j offset.

Inductive Message :=
| Launch (request : LaunchRequest)
| LaunchAccepted (job_id : Z)
| Query (job_id : Z)
| JobState (job_id : Z) (phase : JobPhase)
| Wait (job_id : Z)
| JobResult (job_id : Z) (r : TerminationResult)
| Terminate (job_id : Z)
| TerminationAccepted (job_id : Z)
| ListJobs
| JobList (ids : JobIds)
| Cancel (target_transaction_id : Z)
| Cancelled (target_transaction_id : Z)
| CloseJob (job_id : Z)
| Closed (job_id : Z)
| ErrorOf (code : ErrorCode).
Record ParsedMessage := mkParsed { reservation : Reservation; message : Message }.

(** [path.split('/')] *)
Fixpoint split_slash (bytes : list Z) : list (list Z) :=
  match bytes with
  | [] => [[]]
  | b :: bytes =>
      if b =? 47 then [] :: split_slash bytes
      else match split_slash bytes with part :: parts => (b :: part) :: parts | [] => [[b]] end
  end.
Definition bad_component (component : list Z) : bool :=
  bool_decide (component = []) || bool_decide (component = [46]) || bool_decide (component = [46; 46]).
Definition is_ascii (bytes : list Z) : bool := forallb (fun b => b <? 128) bytes.
Definition validate_path (path : list Z) : result unit :=
  reject_if! bool_decide (path = []) || (MAX_PATH_BYTES <? len path) || negb (is_ascii path)
    || bool_decide (head path = Some 47) || contains 0 path with InvalidPath;;
  reject_if! existsb bad_component (split_slash path) with InvalidPath;;
  Ok tt.

(** [value.split_once('=')], the part before *)
Fixpoint before_equals (bytes : list Z) : option (list Z) :=
  match bytes with
  | [] => None
  | b :: bytes => if b =? 61 then Some [] else cons b <$> before_equals bytes
  end.
Definition is_ascii_uppercase (b : Z) : bool := (65 <=? b) && (b <=? 90).
Definition is_ascii_digit (b : Z) : bool := (48 <=? b) && (b <=? 57).
Definition environment_name (value : list Z) : result (list Z) :=
  let! name := ok_or InvalidEnvironment (before_equals value) in
  match name with
  | [] => Err InvalidEnvironment
  | first :: rest =>
      reject_if! (64 <? len name) || negb (is_ascii_uppercase first || (first =? 95))
        || negb (forallb (fun b => is_ascii_uppercase b || is_ascii_digit b || (b =? 95)) rest) with InvalidEnvironment;;
      Ok name
  end.

(** [environment_name(other).ok() == Some(name)] *)
Definition same_name (name other : list Z) : bool :=
  match environment_name other with Ok n => bool_decide (n = name) | _ => false end.
(** The loop of [validate_environment]; [before] is [values[..index]]. *)
Fixpoint validate_environment_from (before values : list (list Z)) : result unit :=
  match values with
  | [] => Ok tt
  | value :: values =>
      let! name := environment_name value in
      reject_if! existsb (same_name name) before with DuplicateEnvironmentName;;
      validate_environment_from (before ++ [value]) values
  end.
Definition validate_environment (values : list (list Z)) : result unit := validate_environment_from [] values.

(** [for previous in 0..index], from [previous], [n] to go *)
Fixpoint distinct_from (values : StringRecords) (name : list Z) (previous : Z) (n : nat) : result unit :=
  match n with
  | O => Ok tt
  | S n =>
      let! found := records_get values previous in
      let! other := ok_or InvalidUtf8 found in
      let! other_name := environment_name other in
      reject_if! bool_decide (other_name = name) with DuplicateEnvironmentName;;
      distinct_from values name (previous + 1) n
  end.
(** [for index in 0..values.count], from [index], [n] to go *)
Fixpoint environment_records_from (values : StringRecords) (index : Z) (n : nat) : result unit :=
  match n with
  | O => Ok tt
  | S n =>
      let! found := records_get values index in
      let! value := ok_or InvalidUtf8 found in
      let! name := environment_name value in
      let! _ := distinct_from values name 0 (Z.to_nat index) in
      environment_records_from values (index + 1) n
  end.
Definition validate_environment_records (values : StringRecords) : result unit :=
  environment_records_from values 0 (Z.to_nat (count values)).

(** [for index in 0..count] of [validate_records], [n] to go: the offset after the last string *)
Fixpoint records_from (records strings : list Z) (index expected_offset : Z) (n : nat) : result Z :=
  match n with
  | O => Ok expected_offset
  | S n =>
      let! record := index_range records (index * RECORD_BYTES) ((index + 1) * RECORD_BYTES) in
      reject_if! negb (bool_decide (get_u32 record 0 = Some (expected_offset mod 2 ^ 32))) || negb (bool_decide (get_u16 record 6 = Some 0))
        with NoncanonicalStringRecords;;
      let! length := ok_or WrongSize (get_u16 record 4) in
      let! finish := ok_or ArithmeticOverflow (checked_add_u64 expected_offset length) in
      let! text := ok_or WrongSize (get_range strings expected_offset finish) in
      let! _ := ok_or InvalidUtf8 (from_utf8 text) in
      records_from records strings (index + 1) finish n
  end.
Definition validate_records (records strings : list Z) (count : Z) : result unit :=
  let! finish := records_from records strings 0 0 (Z.to_nat count) in
  reject_if! negb (finish =? len strings) with NoncanonicalStringRecords;;
  Ok tt.

(** ** The envelope *)

Definition encode_envelope_version (value : Reservation) (minor : Z) (output : list Z) : result (list Z) :=
  reject_if! len output <? ENVELOPE_BYTES with WrongSize;;
  reject_if! (connection_id value =? 0) || (generation value =? 0) || (transaction_id value =? 0) with ZeroIdentity;;
  let! output := fill output ENVELOPE_BYTES in
  let! output := copy_at output 0 MAGIC in
  let! output := put_u16 output 4 MAJOR in
  let! output := put_u16 output 6 minor in
  let! output := put_u64 output 8 (connection_id value) in
  let! output := put_u64 output 16 (generation value) in
  put_u64 output 24 (transaction_id value).
Definition encode_envelope (value : Reservation) (output : list Z) : result (list Z) := encode_envelope_version value MINOR output.
Definition encode_prefix_version (value : Reservation) (minor message_type : Z) (output : list Z) : result (list Z) :=
  reject_if! len output <? HEADER_BYTES with WrongSize;;
  let! output := encode_envelope_version value minor output in
  put_u32 output 40 message_type.
Definition encode_prefix (value : Reservation) (message_type : MessageType) (output : list Z) : result (list Z) :=
  reject_if! len output <? HEADER_BYTES with WrongSize;;
  let! output := encode_envelope value output in
  put_u32 output 40 (type_number message_type).

Definition parse_envelope_version (bytes : list Z) (minor : Z) : result Reservation :=
  reject_if! len bytes <? ENVELOPE_BYTES with WrongSize;;
  let! magic := index_range bytes 0 4 in
  reject_if! negb (bool_decide (magic = MAGIC)) with WrongMagic;;
  let! x := read_u16 bytes 4 in
  let! y := (if negb (x =? MAJOR) then Ok true else let! y := read_u16 bytes 6 in Ok (negb (y =? minor))) in
  reject_if! y with UnsupportedVersion;;
  let! x := read_u64 bytes 32 in
  reject_if! negb (x =? 0) with NonzeroReserved;;
  let! c := read_u64 bytes 8 in
  let! g := read_u64 bytes 16 in
  let! t := read_u64 bytes 24 in
  reject_if! (c =? 0) || (g =? 0) || (t =? 0) with ZeroIdentity;;
  Ok (mkReservation c g t).
Definition parse_envelope (bytes : list Z) : result Reservation := parse_envelope_version bytes MINOR.

(** The number of bytes written, and the buffer *)
Definition encode (value : Reservation) (output : list Z) : result (Z * list Z) :=
  let! output := encode_envelope value output in
  Ok (ENVELOPE_BYTES, output).
Definition parse (bytes : list Z) : result Reservation :=
  reject_if! negb (len bytes =? ENVELOPE_BYTES) with WrongSize;;
  parse_envelope bytes.
Definition parse_reservation_prefix (bytes : list Z) : result Reservation :=
  reject_if! len bytes <? ENVELOPE_BYTES with WrongSize;;
  parse_envelope bytes.
Definition parse_shell_v1_reservation_prefix (bytes : list Z) : result Reservation :=
  reject_if! len bytes <? ENVELOPE_BYTES with WrongSize;;
  parse_envelope_version bytes SHELL_V1_MINOR.

(** ** The shell's launch *)

(** [for (index, role) in [1, 2, 3, 4].into_iter().enumerate()], at [offset] *)
Fixpoint put_roles (out : list Z) (offset : Z) (roles : list Z) : result (list Z) :=
  match roles with
  | [] => Ok out
  | role :: roles => let! out := put_u32 out offset role in put_roles out (offset + RECORD_BYTES) roles
  end.
Fixpoint check_roles (bytes : list Z) (offset : Z) (roles : list Z) : result unit :=
  match roles with
  | [] => Ok tt
  | role :: roles =>
      let! x := read_u32 bytes offset in
      reject_if! negb (x =? role) with InvalidStreamRoles;;
      let! x := read_u32 bytes (offset + 4) in
      reject_if! negb (x =? 0) with NonzeroReserved;;
      check_roles bytes (offset + RECORD_BYTES) roles
  end.

Definition encode_shell_v1_request (reservation : Reservation) (request : ShellV1Request) (out : list Z) : result (Z * list Z) :=
  let! _ := nonzero (console_generation request) in
  let! _ := nonzero (status_generation request) in
  let! _ := nonzero (requested_child_generation request) in
  reject_if! len out <? SHELL_V1_REQUEST_BYTES with WrongSize;;
  let! out := fill out SHELL_V1_REQUEST_BYTES in
  let! out := encode_prefix_version reservation SHELL_V1_MINOR SHELL_V1_MESSAGE_TYPE out in
  let! out := put_u64 out 48 (console_generation request) in
  let! out := put_u64 out 56 (status_generation request) in
  let! out := put_u64 out 64 (requested_child_generation request) in
  let! out := put_u16 out 72 (len SHELL_V1_PATH) in
  let! out := put_u16 out 74 SHELL_V1_STARTUP_ABI in
  let! out := put_u16 out 76 SHELL_V1_POLICY_PROFILE in
  let! out := put_roles out 80 [1; 2; 3; 4] in
  let! out := copy_at out 112 SHELL_V1_PATH in
  Ok (SHELL_V1_REQUEST_BYTES, out).

(** The size was checked, so the four reads of the [||] test all succeed. *)
Definition parse_shell_v1_request (bytes : list Z) (received_handles : Z) : result ParsedShellV1Request :=
  let! _ := require_size bytes SHELL_V1_REQUEST_BYTES in
  let! _ := require_handles received_handles SHELL_V1_HANDLE_COUNT in
  let! reservation := parse_envelope_version bytes SHELL_V1_MINOR in
  let! x := read_u32 bytes 40 in
  reject_if! negb (x =? SHELL_V1_MESSAGE_TYPE) with UnknownMessageType;;
  let! x := read_u32 bytes 44 in
  reject_if! negb (x =? 0) with NonzeroFlags;;
  let! c := read_u64 bytes 48 in
  let! c := nonzero c in
  let! s := read_u64 bytes 56 in
  let! s := nonzero s in
  let! g := read_u64 bytes 64 in
  let! g := nonzero g in
  let! a := read_u16 bytes 72 in
  let! b := read_u16 bytes 74 in
  let! p := read_u16 bytes 76 in
  let! z := read_u16 bytes 78 in
  reject_if! negb (a =? len SHELL_V1_PATH) || negb (b =? SHELL_V1_STARTUP_ABI) || negb (p =? SHELL_V1_POLICY_PROFILE) || negb (z =? 0)
    with NonzeroReserved;;
  let! _ := check_roles bytes 80 [1; 2; 3; 4] in
  let! path := index_range bytes 112 (112 + len SHELL_V1_PATH) in
  reject_if! negb (bool_decide (path = SHELL_V1_PATH)) with InvalidPath;;
  let! rest := index_range bytes (112 + len SHELL_V1_PATH) (len bytes) in
  reject_if! existsb (fun b => negb (b =? 0)) rest with NonzeroReserved;;
  Ok (mkParsedShellRequest reservation (mkShellRequest c s g)).

Definition encode_shell_v1_reply (reservation : Reservation) (message_type value : Z) (out : list Z) : result (Z * list Z) :=
  reject_if! len out <? SHELL_V1_REPLY_BYTES with WrongSize;;
  let! out := fill out SHELL_V1_REPLY_BYTES in
  let! out := encode_prefix_version reservation SHELL_V1_MINOR message_type out in
  let! out := put_u64 out 48 value in
  Ok (SHELL_V1_REPLY_BYTES, out).
Definition encode_shell_v1_accepted (reservation : Reservation) (job_id : Z) (out : list Z) : result (Z * list Z) :=
  let! _ := nonzero job_id in
  encode_shell_v1_reply reservation (type_number TLaunchAccepted) job_id out.
Definition encode_shell_v1_error (reservation : Reservation) (code : ErrorCode) (out : list Z) : result (Z * list Z) :=
  encode_shell_v1_reply reservation (type_number TError) (code_number code) out.

Definition parse_shell_v1_reply (bytes : list Z) (received_handles : Z) : result ParsedShellV1Reply :=
  let! _ := require_size bytes SHELL_V1_REPLY_BYTES in
  let! _ := require_handles received_handles 0 in
  let! reservation := parse_envelope_version bytes SHELL_V1_MINOR in
  let! x := read_u32 bytes 44 in
  let! bad := (if negb (x =? 0) then Ok true else let! y := read_u32 bytes 52 in Ok (negb (y =? 0))) in
  reject_if! bad with NonzeroReserved;;
  let! kind := read_u32 bytes 40 in
  let! reply :=
    (if kind =? type_number TLaunchAccepted then
       let! job := read_u64 bytes 48 in
       let! job := nonzero job in
       Ok (ShellAccepted job)
     else if kind =? type_number TError then
       let! code := read_u32 bytes 48 in
       let! code := parse_code code in
       Ok (ShellError code)
     else Err UnknownMessageType) in
  Ok (mkParsedShellReply reservation reply).

(** ** Writing *)

(** [for value in argv.iter().chain(environment.iter())]: the records *)
Fixpoint put_records (out : list Z) (record_offset string_offset : Z) (values : list (list Z)) : result (list Z * Z) :=
  match values with
  | [] => Ok (out, record_offset)
  | value :: values =>
      let! out := put_u32 out record_offset string_offset in
      let! out := put_u16 out (record_offset + 4) (len value) in
      put_records out (record_offset + RECORD_BYTES) (string_offset + len value) values
  end.
(** The strings *)
Fixpoint put_strings (out : list Z) (cursor : Z) (values : list (list Z)) : result (list Z) :=
  match values with
  | [] => Ok out
  | value :: values => let! out := copy_at out cursor value in put_strings out (cursor + len value) values
  end.
(** [.try_fold(0, |sum, value| sum.checked_add(value.len()))] *)
Fixpoint add_lengths (sum : Z) (values : list (list Z)) : result Z :=
  match values with
  | [] => Ok sum
  | value :: values => let! sum := ok_or ArithmeticOverflow (checked_add_u64 sum (len value)) in add_lengths sum values
  end.
Definition and_add (o : option Z) (value : Z) : option Z := match o with Some x => checked_add_u64 x value | None => None end.

Definition encode_launch (reservation : Reservation) (path : list Z) (argv environment : list (list Z)) (streams : bool) (out : list Z)
    : result (Z * list Z) :=
  let! _ := validate_path path in
  reject_if! bool_decide (argv = []) || (MAX_ARGV <? len argv) with InvalidArgumentCount;;
  reject_if! MAX_ENVIRONMENT <? len environment with InvalidEnvironmentCount;;
  let! first := or_panic (get_at argv 0) in
  reject_if! negb (bool_decide (first = path)) with Argv0Mismatch;;
  let! _ := validate_environment environment in
  let! string_bytes := add_lengths 0 (argv ++ environment) in
  reject_if! MAX_STRING_BYTES <? string_bytes with StringBytesExceeded;;
  let! records := ok_or ArithmeticOverflow
    (match checked_add_u64 (len argv) (len environment) with Some value => checked_mul_u64 value RECORD_BYTES | None => None end) in
  let stream_bytes := if streams then STREAM_COUNT * RECORD_BYTES else 0 in
  let! total := ok_or ArithmeticOverflow
    (and_add (and_add (and_add (checked_add_u64 LAUNCH_FIXED_BYTES records) stream_bytes) (len path)) string_bytes) in
  reject_if! len out <? total with WrongSize;;
  let! out := fill out total in
  let! out := encode_prefix reservation TLaunch out in
  let! total32 := ok_or WrongSize (try_from_unsigned (2 ^ 32) total) in
  let! out := put_u32 out 48 total32 in
  let! out := put_u32 out 52 (if streams then 3 else 0) in
  let! out := put_u16 out 56 (len path) in
  let! out := put_u16 out 58 (len argv) in
  let! out := put_u16 out 60 (len environment) in
  let! out := put_u16 out 62 (if streams then 3 else 0) in
  let! out := put_u32 out 64 string_bytes in
  let! '(out, record_offset) := put_records out LAUNCH_FIXED_BYTES 0 (argv ++ environment) in
  let! out := (if streams then put_roles out record_offset [role_number Stdin; role_number Stdout; role_number Stderr] else Ok out) in
  let record_offset := if streams then record_offset + 3 * RECORD_BYTES else record_offset in
  let! out := copy_at out record_offset path in
  let! out := put_strings out (record_offset + len path) (argv ++ environment) in
  Ok (total, out).

Definition is_job_message (kind : MessageType) : bool :=
  match kind with
  | TLaunchAccepted | TQuery | TWait | TTerminate | TTerminationAccepted | TCancel | TCancelled | TCloseJob | TClosed => true
  | _ => false
  end.
Definition encode_job_message (reservation : Reservation) (kind : MessageType) (job_id : Z) (out : list Z) : result (Z * list Z) :=
  reject_if! negb (is_job_message kind) with UnknownMessageType;;
  let! _ := nonzero job_id in
  reject_if! len out <? 56 with WrongSize;;
  let! out := fill out 56 in
  let! out := encode_prefix reservation kind out in
  let! out := put_u64 out 48 job_id in
  Ok (56, out).
Definition encode_list_jobs (reservation : Reservation) (out : list Z) : result (Z * list Z) :=
  reject_if! len out <? HEADER_BYTES with WrongSize;;
  let! out := fill out HEADER_BYTES in
  let! out := encode_prefix reservation TListJobs out in
  Ok (HEADER_BYTES, out).
Definition encode_job_state (reservation : Reservation) (job_id : Z) (phase : JobPhase) (out : list Z) : result (Z * list Z) :=
  let! _ := nonzero job_id in
  reject_if! len out <? 64 with WrongSize;;
  let! out := fill out 64 in
  let! out := encode_prefix reservation TJobState out in
  let! out := put_u64 out 48 job_id in
  let! out := put_u32 out 56 (phase_number phase) in
  Ok (64, out).
Definition encode_job_result (reservation : Reservation) (job_id : Z) (r : TerminationResult) (out : list Z) : result (Z * list Z) :=
  let! _ := nonzero job_id in
  reject_if! len out <? 88 with WrongSize;;
  let! out := fill out 88 in
  let! out := encode_prefix reservation TJobResult out in
  let! out := put_u64 out 48 job_id in
  let! out := put_u32 out 56 (classification_number (classification r)) in
  let! out := put_u32 out 60 (application_code r) in
  let! out := put_u32 out 64 (exception_class r) in
  let! out := put_u32 out 68 (exception_detail r) in
  let! out := put_u64 out 72 (exception_address r) in
  let! cleanup := parse_cleanup_result (cleanup_result r) in
  let! out := put_u32 out 80 cleanup in
  Ok (88, out).
Definition encode_error (reservation : Reservation) (code : ErrorCode) (out : list Z) : result (Z * list Z) :=
  reject_if! len out <? 56 with WrongSize;;
  let! out := fill out 56 in
  let! out := encode_prefix reservation TError out in
  let! out := put_u32 out 48 (code_number code) in
  Ok (56, out).
(** [for (index, job_id) in job_ids.iter().copied().enumerate()], at [56 + index * 8] *)
Fixpoint put_jobs (out : list Z) (offset : Z) (job_ids : list Z) : result (list Z) :=
  match job_ids with
  | [] => Ok out
  | job_id :: job_ids =>
      let! _ := nonzero job_id in
      let! out := put_u64 out offset job_id in
      put_jobs out (offset + 8) job_ids
  end.
Definition encode_job_list (reservation : Reservation) (job_ids : list Z) (out : list Z) : result (Z * list Z) :=
  reject_if! MAX_LIVE_JOBS <? len job_ids with WrongSize;;
  let! bytes := ok_or ArithmeticOverflow (checked_mul_u64 (len job_ids) 8) in
  let! size := ok_or ArithmeticOverflow (checked_add_u64 56 bytes) in
  reject_if! len out <? size with WrongSize;;
  let! out := fill out size in
  let! out := encode_prefix reservation TJobList out in
  let! n := ok_or WrongSize (try_from_unsigned (2 ^ 32) (len job_ids)) in
  let! out := put_u32 out 48 n in
  let! out := put_jobs out 56 job_ids in
  Ok (size, out).

(** ** Reading *)

Definition parse_job_id (bytes : list Z) (handles : Z) : result Z :=
  let! _ := require_handles handles 0 in
  let! _ := require_size bytes 56 in
  let! value := read_u64 bytes 48 in
  nonzero value.

(** [for index in 0..ids.len()], from [index], [n] to go *)
Fixpoint check_jobs (ids : JobIds) (index : Z) (n : nat) : result unit :=
  match n with
  | O => Ok tt
  | S n =>
      let! id := ok_or WrongSize (ids_get ids index) in
      let! _ := nonzero id in
      check_jobs ids (index + 1) n
  end.
Definition parse_job_list (bytes : list Z) (received_handles : Z) : result JobIds :=
  let! _ := require_handles received_handles 0 in
  reject_if! len bytes <? 56 with WrongSize;;
  let! n := read_u32 bytes 48 in
  let! bad := (if MAX_LIVE_JOBS <? n then Ok true
               else let! x := read_u32 bytes 52 in Ok (negb (x =? 0) || negb (len bytes =? 56 + n * 8))) in
  reject_if! bad with WrongSize;;
  let! ids := index_range bytes 56 (len bytes) in
  let! _ := check_jobs ids 0 (Z.to_nat (ids_len ids)) in
  Ok ids.

Definition parse_launch (bytes : list Z) (received_handles : Z) : result LaunchRequest :=
  reject_if! len bytes <? LAUNCH_FIXED_BYTES with WrongSize;;
  let! total := read_u32 bytes 48 in
  reject_if! negb (total =? len bytes) with WrongSize;;
  let! declared_handles := read_u32 bytes 52 in
  let! _ := require_handles received_handles declared_handles in
  let! path_len := read_u16 bytes 56 in
  let! argc := read_u16 bytes 58 in
  let! envc := read_u16 bytes 60 in
  let! stream_count := read_u16 bytes 62 in
  let! string_bytes := read_u32 bytes 64 in
  let! x := read_u32 bytes 68 in
  reject_if! negb (x =? 0) with NonzeroReserved;;
  reject_if! negb ((1 <=? argc) && (argc <=? MAX_ARGV)) with InvalidArgumentCount;;
  reject_if! MAX_ENVIRONMENT <? envc with InvalidEnvironmentCount;;
  reject_if! negb ((stream_count =? 0) || (stream_count =? STREAM_COUNT)) || negb (stream_count =? declared_handles) with InvalidStreamRoles;;
  reject_if! MAX_STRING_BYTES <? string_bytes with StringBytesExceeded;;
  let! record_count := ok_or ArithmeticOverflow (checked_add_u64 argc envc) in
  let! records_bytes := ok_or ArithmeticOverflow (checked_mul_u64 record_count RECORD_BYTES) in
  let! records_end := ok_or ArithmeticOverflow (checked_add_u64 LAUNCH_FIXED_BYTES records_bytes) in
  let! stream_bytes := ok_or ArithmeticOverflow (checked_mul_u64 stream_count RECORD_BYTES) in
  let! stream_end := ok_or ArithmeticOverflow (checked_add_u64 records_end stream_bytes) in
  let! path_end := ok_or ArithmeticOverflow (checked_add_u64 stream_end path_len) in
  let! strings_end := ok_or ArithmeticOverflow (checked_add_u64 path_end string_bytes) in
  reject_if! negb (strings_end =? len bytes) with WrongSize;;
  let! _ := (if stream_count =? STREAM_COUNT
             then check_roles bytes records_end [role_number Stdin; role_number Stdout; role_number Stderr] else Ok tt) in
  let! path := index_range bytes stream_end path_end in
  let! _ := ok_or InvalidUtf8 (from_utf8 path) in
  let! _ := validate_path path in
  let! all_records := index_range bytes LAUNCH_FIXED_BYTES records_end in
  let! strings := index_range bytes path_end (len bytes) in
  let! _ := validate_records all_records strings record_count in
  let! argv_records := index_range all_records 0 (argc * RECORD_BYTES) in
  let! environment_records := index_range all_records (argc * RECORD_BYTES) (len all_records) in
  let argv := mkRecords argv_records strings argc in
  let environment := mkRecords environment_records strings envc in
  let! first := records_get argv 0 in
  reject_if! negb (bool_decide (first = Some path)) with Argv0Mismatch;;
  let! _ := validate_environment_records environment in
  Ok (mkLaunch path argv environment stream_count).

Definition parse_message (bytes : list Z) (received_handles : Z) : result ParsedMessage :=
  reject_if! len bytes <? HEADER_BYTES with WrongSize;;
  let! reservation := parse_envelope bytes in
  let! kind := read_u32 bytes 40 in
  let! message_type := parse_type kind in
  let! x := read_u32 bytes 44 in
  reject_if! negb (x =? 0) with NonzeroFlags;;
  let job (f : Z -> Message) := let! id := parse_job_id bytes received_handles in Ok (f id) in
  let! message :=
    match message_type with
    | TLaunch => let! r := parse_launch bytes received_handles in Ok (Launch r)
    | TLaunchAccepted => job LaunchAccepted
    | TQuery => job Query
    | TJobState =>
        let! _ := require_handles received_handles 0 in
        let! _ := require_size bytes 64 in
        let! job_id := read_u64 bytes 48 in
        let! job_id := nonzero job_id in
        let! phase := read_u32 bytes 56 in
        let! phase := parse_phase phase in
        let! x := read_u32 bytes 60 in
        reject_if! negb (x =? 0) with NonzeroReserved;;
        Ok (JobState job_id phase)
    | TWait => job Wait
    | TJobResult =>
        let! _ := require_handles received_handles 0 in
        let! _ := require_size bytes 88 in
        let! x := read_u32 bytes 84 in
        reject_if! negb (x =? 0) with NonzeroReserved;;
        let! job_id := read_u64 bytes 48 in
        let! job_id := nonzero job_id in
        let! class := read_u32 bytes 56 in
        let! class := parse_classification class in
        let! code := read_u32 bytes 60 in
        let! ec := read_u32 bytes 64 in
        let! ed := read_u32 bytes 68 in
        let! ea := read_u64 bytes 72 in
        let! cleanup := read_u32 bytes 80 in
        let! cleanup := parse_cleanup_result cleanup in
        Ok (JobResult job_id (mkTermination class code ec ed ea cleanup))
    | TTerminate => job Terminate
    | TTerminationAccepted => job TerminationAccepted
    | TListJobs =>
        let! _ := require_handles received_handles 0 in
        let! _ := require_size bytes HEADER_BYTES in
        Ok ListJobs
    | TJobList => let! ids := parse_job_list bytes received_handles in Ok (JobList ids)
    | TCancel => job Cancel
    | TCancelled => job Cancelled
    | TCloseJob => job CloseJob
    | TClosed => job Closed
    | TError =>
        let! _ := require_handles received_handles 0 in
        let! _ := require_size bytes 56 in
        let! x := read_u32 bytes 52 in
        reject_if! negb (x =? 0) with NonzeroReserved;;
        let! code := read_u32 bytes 48 in
        let! code := parse_code code in
        Ok (ErrorOf code)
    end in
  Ok (mkParsed reservation message).

End JobProto.
