(* ===== verification/JobWriteThms.v ===== *)
(** * WRLJ: the strings of a LAUNCH, the layout of each message, and that the writers write exactly it *)

From stdpp Require Import base tactics option list list_numbers.
From Stdlib Require Import ZArith Lia.
From S2P Require Import Prelude Bytes Utf8 Layout JobProto.

Import JobProto.

(** ** Records *)

(** The records of [vs], whose first text starts at [offset]. *)
Fixpoint record_fields (offset : Z) (vs : list (list Z)) : list field :=
  match vs with
  | [] => []
  | v :: vs => Int 4 offset :: Int 2 (len v) :: Int 2 0 :: record_fields (offset + len v) vs
  end.
Definition total (vs : list (list Z)) : Z := len (mjoin vs).
Definition text_ok (v : list Z) : Prop := is_Some (from_utf8 v).

Lemma texts_cons (v : list Z) vs : mjoin (v :: vs) = v ++ mjoin vs.
Proof. done. Qed.
Lemma total_nil : total [] = 0.
Proof. done. Qed.
Lemma total_cons v vs : total (v :: vs) = len v + total vs.
Proof. unfold total. rewrite texts_cons, length_app. lia. Qed.
Lemma total_app vs ws : total (vs ++ ws) = total vs + total ws.
Proof. unfold total. rewrite join_app, length_app. lia. Qed.
Lemma lengths_nonneg vs : 0 <= total vs.
Proof. unfold total. lia. Qed.
Lemma record_fields_app vs ws : forall offset, record_fields offset (vs ++ ws) = record_fields offset vs ++ record_fields (offset + total vs) ws.
Proof.
  induction vs as [|v vs IH]; intros offset; cbn [record_fields app].
  - by rewrite total_nil, Z.add_0_r.
  - rewrite IH, total_cons. by rewrite Z.add_assoc.
Qed.
Lemma render_app fs gs : render (fs ++ gs) = render fs ++ render gs.
Proof. unfold render. by rewrite fmap_app, join_app. Qed.
Lemma size_record_fields vs : forall offset, size (record_fields offset vs) = (8 * length vs)%nat.
Proof. induction vs as [|v vs IH]; intros offset; [done|]. cbn [record_fields]. rewrite !size_cons, IH. cbn. lia. Qed.
Lemma length_records offset vs : len (render (record_fields offset vs)) = len vs * RECORD_BYTES.
Proof. rewrite length_render, size_record_fields. unfold RECORD_BYTES. lia. Qed.

(** Records fit their fields when the texts do. *)
Lemma record_fields_ok vs : forall offset, 0 <= offset -> offset + total vs < 2 ^ 16 -> Forall field_ok (record_fields offset vs).
Proof.
  induction vs as [|v vs IH]; intros offset Ho Ht; [constructor|]. rewrite total_cons in Ht. pose proof (lengths_nonneg vs).
  cbn [record_fields]. repeat constructor; try (cbn [field_ok]; lia). apply IH; lia.
Qed.

(** One record of the table. *)
Definition one_record (offset : Z) (v : list Z) : list Z := render [Int 4 offset; Int 2 (len v); Int 2 0].
Lemma one_record_reads offset v : 0 <= offset < 2 ^ 32 -> len v < 2 ^ 16 ->
  get_u32 (one_record offset v) 0 = Some offset /\ get_u16 (one_record offset v) 4 = Some (len v) /\ get_u16 (one_record offset v) 6 = Some 0.
Proof.
  intros Ho Hv. pose proof (render_reads [Int 4 offset; Int 2 (len v); Int 2 0]) as Hr. cbn [reads] in Hr. fold (one_record offset v) in Hr.
  destruct Hr as (H1 & H2 & H3 & _); [repeat constructor; cbn [field_ok]; lia|]. done.
Qed.
Lemma record_fields_cons offset v vs : render (record_fields offset (v :: vs)) = one_record offset v ++ render (record_fields (offset + len v) vs).
Proof. cbn [record_fields]. unfold one_record. by rewrite <-render_app. Qed.

Lemma mid_range (a b c : list Z) x y : x = len a -> y = len a + len b -> get_range (a ++ b ++ c) x y = Some b.
Proof.
  intros -> ->. apply get_range_Some. rewrite !length_app. split_and!; [lia..|].
  rewrite drop_app_length' by lia. by rewrite take_app_length' by lia.
Qed.

(** The table between other bytes. *)
Lemma record_range pre offset vs ws v post index : len pre = index * RECORD_BYTES ->
  get_range (pre ++ render (record_fields offset (vs ++ v :: ws)) ++ post) ((index + len vs) * RECORD_BYTES) ((index + len vs + 1) * RECORD_BYTES) =
    Some (one_record (offset + total vs) v).
Proof.
  intros Hp. rewrite record_fields_app, render_app, record_fields_cons.
  replace (pre ++ (render (record_fields offset vs) ++ one_record (offset + total vs) v ++ render (record_fields (offset + total vs + len v) ws)) ++ post)
    with ((pre ++ render (record_fields offset vs)) ++ one_record (offset + total vs) v ++ (render (record_fields (offset + total vs + len v) ws) ++ post))
    by (by rewrite <-!(assoc_L (++))).
  apply mid_range; rewrite length_app; pose proof (length_records offset vs); unfold RECORD_BYTES in *.
  - lia.
  - assert (len (one_record (offset + total vs) v) = 8) by done. lia.
Qed.

(** ** Reading the table *)

Lemma records_accept strings post vs : forall pre spre spost index offset,
  strings = spre ++ mjoin vs ++ spost -> len spre = offset -> len pre = index * RECORD_BYTES -> 0 <= index ->
  Forall text_ok vs -> offset + total vs < 2 ^ 16 ->
  records_from (pre ++ render (record_fields offset vs) ++ post) strings index offset (length vs) = Ok (offset + total vs).
Proof.
  induction vs as [|v vs IH]; intros pre spre spost index offset Hs Ho Hp Hi Hok Ht; cbn [records_from length].
  { by rewrite total_nil, Z.add_0_r. }
  apply Forall_cons in Hok as [[chars Hv] Hok]. rewrite total_cons in Ht |- *. pose proof (lengths_nonneg vs). unfold index_range.
  pose proof (record_range pre offset [] vs v post index Hp) as Hr. cbn [length app] in Hr. rewrite Z.add_0_r in Hr. rewrite Hr. cbn [or_panic res_bind].
  rewrite total_nil, Z.add_0_r.
  destruct (one_record_reads offset v) as (R1 & R2 & R3); [lia..|]. rewrite R1, R2, R3, Z.mod_small by lia.
  rewrite !bool_decide_true by done. cbn [negb orb ok_or res_bind].
  unfold checked_add_u64. rewrite (proj2 (checked_add_Some _ _ _ (offset + len v))) by lia. cbn [ok_or res_bind].
  assert (get_range strings offset (offset + len v) = Some v) as ->.
  { rewrite Hs, texts_cons. rewrite <-(assoc_L (++)). apply mid_range; lia. }
  cbn [ok_or res_bind]. rewrite Hv. cbn [ok_or res_bind].
  rewrite record_fields_cons, <-(assoc_L (++)), (assoc_L (++) pre). rewrite (IH _ (spre ++ v) spost); [f_equal; lia|..|done|lia].
  - rewrite Hs, texts_cons. by rewrite <-!(assoc_L (++)).
  - rewrite length_app. lia.
  - rewrite length_app. assert (len (one_record offset v) = 8) by done. unfold RECORD_BYTES in *. lia.
  - lia.
Qed.

Lemma range_bytes_ok l a b x : bytes_ok l -> get_range l a b = Some x -> bytes_ok x.
Proof. intros H (_ & _ & _ & ->)%get_range_Some. by apply Forall_take, Forall_drop. Qed.

Lemma records_sound records strings n : bytes_ok records -> len strings < 2 ^ 32 -> forall index offset finish,
  0 <= index -> 0 <= offset <= len strings -> index * RECORD_BYTES <= len records ->
  records_from records strings index offset n = Ok finish ->
  exists vs, length vs = n /\ Forall text_ok vs /\ finish = offset + total vs /\ get_range strings offset finish = Some (mjoin vs) /\
    get_range records (index * RECORD_BYTES) ((index + Z.of_nat n) * RECORD_BYTES) = Some (render (record_fields offset vs)).
Proof.
  intros Hb Hs. induction n as [|n IH]; intros index offset finish Hi Ho Hl H; cbn [records_from] in H.
  { injection H as <-. exists []. rewrite total_nil. split_and!; [done|by apply Forall_nil|lia|..]; apply get_range_Some; split_and!; try lia.
    all: unfold RECORD_BYTES in *; try lia; match goal with |- _ = take ?n _ => replace n with 0%nat by lia end; done. }
  apply res_bind_Ok in H as (record & Hr%or_panic_Ok & H). destruct (_ || _) eqn:Hc; [done|]. apply orb_false_iff in Hc as [H1 H2].
  apply negb_false_iff, bool_decide_eq_true in H1, H2. rewrite Z.mod_small in H1 by lia.
  apply res_bind_Ok in H as (length & H3%ok_or_Ok & H). apply res_bind_Ok in H as (after & [-> _]%ok_or_Ok%checked_add_Some & H).
  apply res_bind_Ok in H as (v & Hv%ok_or_Ok & H). apply res_bind_Ok in H as (chars & Hu%ok_or_Ok & H).
  pose proof (length_get_range _ _ _ _ Hv) as Hlv. replace length with (len v) in * by lia. pose proof (length_get_range _ _ _ _ Hr) as Hlr.
  assert (record = one_record offset v) as ->.
  { apply reads_render; [by eapply range_bytes_ok|unfold RECORD_BYTES in Hlr; cbn; lia|]. by cbn [reads]. }
  apply get_range_Some in Hv as Hv'. apply get_range_Some in Hr as Hr'.
  destruct (IH (index + 1) (offset + len v) finish) as (vs & Hn & Hok & -> & Hj & Hrec); [lia|lia|lia|done|].
  exists (v :: vs). rewrite total_cons, texts_cons, record_fields_cons. split_and!.
  - cbn. by rewrite Hn.
  - constructor; [by exists chars|done].
  - lia.
  - by eapply range_join.
  - replace (index + Z.of_nat (S n)) with (index + 1 + Z.of_nat n) by lia. by eapply range_join.
Qed.

(** ** One text of the table *)

Lemma records_get_text offset vs spre spost i : len spre = offset -> offset + total vs < 2 ^ 16 -> Forall text_ok vs -> 0 <= i ->
  records_get (mkRecords (render (record_fields offset vs)) (spre ++ mjoin vs ++ spost) (len vs)) i = Ok (vs !! Z.to_nat i).
Proof.
  intros Ho Ht Hok Hi. unfold records_get. cbn [count records strings]. destruct (Z.leb_spec (len vs) i) as [Hle|Hlt].
  { rewrite lookup_ge_None_2 by lia. done. }
  destruct (lookup_lt_is_Some_2 vs (Z.to_nat i)) as [v Hv]; [lia|]. rewrite Hv. apply list_elem_of_split_length in Hv as (as_ & bs & Hvs & Hlen).
  pose proof (record_range [] offset as_ bs v [] 0 eq_refl) as Hr. cbn [app] in Hr. rewrite app_nil_r, <-Hvs, Z.add_0_l in Hr. replace (len as_) with i in Hr by lia.
  unfold index_range. rewrite Hr. cbn [or_panic res_bind]. rewrite Hvs in Ht, Hok |- *. rewrite total_app, total_cons in Ht. pose proof (lengths_nonneg as_). pose proof (lengths_nonneg bs).
  destruct (one_record_reads (offset + total as_) v) as (-> & -> & _); [lia..|]. cbn [mbind option_bind].
  unfold checked_add_u64. rewrite (proj2 (checked_add_Some _ _ _ (offset + total as_ + len v))) by lia. cbn [mbind option_bind].
  assert (get_range (spre ++ mjoin (as_ ++ v :: bs) ++ spost) (offset + total as_) (offset + total as_ + len v) = Some v) as ->.
  { rewrite join_app, texts_cons, <-!(assoc_L (++)), (assoc_L (++) spre). apply mid_range; rewrite length_app; unfold total; lia. }
  cbn [mbind option_bind]. apply Forall_app in Hok as [_ [[chars ->] _]%Forall_cons]. done.
Qed.

(** ** Environments *)

(** Each value has a name, and no two the same. *)
Definition environment_ok (vs : list (list Z)) : Prop :=
  exists names, Forall2 (fun v name => environment_name v = Ok name) vs names /\ NoDup names.

Lemma environment_name_total v : environment_name v <> Panic.
Proof. unfold environment_name. destruct (before_equals v) as [[|]|]; cbn; try done. by destruct (_ || _). Qed.

Lemma same_name_spec name v n : environment_name v = Ok n -> same_name name v = bool_decide (n = name).
Proof. unfold same_name. by intros ->. Qed.

Lemma existsb_same_name name vs names : Forall2 (fun v n => environment_name v = Ok n) vs names -> existsb (same_name name) vs = bool_decide (name ∈ names).
Proof.
  induction 1 as [|v n vs names Hv _ IH]; cbn; [by rewrite bool_decide_false by apply not_elem_of_nil|]. rewrite (same_name_spec _ _ _ Hv), IH.
  apply eq_true_iff_eq. rewrite orb_true_iff, !bool_decide_eq_true, elem_of_cons. naive_solver.
Qed.

Lemma environment_from vs : forall before names, Forall2 (fun v n => environment_name v = Ok n) before names -> NoDup names ->
  validate_environment_from before vs = Ok tt <-> exists more, Forall2 (fun v n => environment_name v = Ok n) vs more /\ NoDup (names ++ more).
Proof.
  induction vs as [|v vs IH]; intros before names Hb Hn; cbn [validate_environment_from].
  { split; [|done]. intros _. exists []. by rewrite app_nil_r. }
  destruct (environment_name v) as [name|e|] eqn:Hv; cbn [res_bind].
  - rewrite (existsb_same_name _ _ _ Hb). case_bool_decide as Hin.
    + split; [done|]. intros (more & Hm & Hnd). inversion Hm as [|? n' ? more' Hv' Hm']; subst. assert (n' = name) as -> by congruence.
      apply NoDup_app in Hnd as (_ & Hx & _). exfalso. apply (Hx name Hin). by left.
    + rewrite (IH (before ++ [v]) (names ++ [name])).
      * split; [intros (more & Hm & Hnd); exists (name :: more); rewrite <-(assoc_L (++)) in Hnd; split; [by constructor|done]|].
        intros (more & Hm & Hnd). inversion Hm as [|? n' ? more' Hv' Hm']; subst. assert (n' = name) as -> by congruence.
        exists more'. rewrite <-(assoc_L (++)). done.
      * apply Forall2_app; [done|]. by constructor.
      * apply NoDup_app. split_and!; [done| |apply NoDup_singleton]. intros x Hx ->%list_elem_of_singleton. done.
  - split; [done|]. intros (more & Hm & _). inversion Hm; congruence.
  - by apply environment_name_total in Hv.
Qed.
Lemma environment_accepted vs : validate_environment vs = Ok tt <-> environment_ok vs.
Proof. unfold validate_environment. rewrite (environment_from vs [] []); [done|constructor|constructor]. Qed.

Section environment_records.
Context (values : StringRecords) (vs : list (list Z)).
Hypothesis gets_text : forall i, 0 <= i -> records_get values i = Ok (vs !! Z.to_nat i).

Lemma distinct_spec name ns : forall previous, 0 <= previous ->
  Forall2 (fun v n => environment_name v = Ok n) (take (length ns) (drop (Z.to_nat previous) vs)) ns ->
  distinct_from values name previous (length ns) = Ok tt <-> name ∉ ns.
Proof.
  induction ns as [|n ns IH]; intros previous Hp HF; cbn [length distinct_from]; [split; [intros _; apply not_elem_of_nil|done]|].
  rewrite gets_text by done. cbn [res_bind]. destruct (drop (Z.to_nat previous) vs) as [|v rest] eqn:Hd; [by inversion HF|]. cbn [take length] in HF.
  inversion HF as [|? ? ? ? Hv HF']; subst. assert (vs !! Z.to_nat previous = Some v) as ->.
  { rewrite <-(Nat.add_0_r (Z.to_nat previous)), <-lookup_drop, Hd. done. }
  cbn [ok_or res_bind]. rewrite Hv. cbn [res_bind]. assert (rest = drop (Z.to_nat (previous + 1)) vs) as Hrest.
  { replace (Z.to_nat (previous + 1)) with (Z.to_nat previous + 1)%nat by lia. by rewrite <-drop_drop, Hd. }
  case_bool_decide as Hn; [split; [done|]; intros Hx; destruct Hx; subst; by left|].
  rewrite IH; [rewrite not_elem_of_cons; naive_solver|lia|by rewrite <-Hrest].
Qed.

Lemma environment_records_spec n : forall index names, 0 <= index -> index + Z.of_nat n = len vs -> length names = Z.to_nat index ->
  Forall2 (fun v n => environment_name v = Ok n) (take (Z.to_nat index) vs) names -> NoDup names ->
  environment_records_from values index n = Ok tt <->
    exists more, Forall2 (fun v n => environment_name v = Ok n) (drop (Z.to_nat index) vs) more /\ NoDup (names ++ more).
Proof.
  induction n as [|n IH]; intros index names Hi Hl Hln HF Hnd; cbn [environment_records_from].
  { split; [|done]. intros _. exists []. rewrite drop_ge by lia. rewrite app_nil_r. done. }
  rewrite gets_text by done. cbn [res_bind]. destruct (lookup_lt_is_Some_2 vs (Z.to_nat index)) as [v Hv]; [lia|]. rewrite Hv. cbn [ok_or res_bind].
  rewrite (drop_S _ _ _ Hv). replace (S (Z.to_nat index)) with (Z.to_nat (index + 1)) by lia.
  destruct (environment_name v) as [name|e|] eqn:Hname; cbn [res_bind].
  - assert (distinct_from values name 0 (Z.to_nat index) = Ok tt <-> name ∉ names) as Hdis.
    { rewrite <-Hln. apply distinct_spec; [done|]. by rewrite drop_0, Hln. }
    assert (forall more, Forall2 (fun v n => environment_name v = Ok n) (v :: drop (Z.to_nat (index + 1)) vs) more <->
      exists more', more = name :: more' /\ Forall2 (fun v n => environment_name v = Ok n) (drop (Z.to_nat (index + 1)) vs) more') as Hcons.
    { intros more. split; [|intros (m & -> & Hm); by constructor]. intros Hm. inversion Hm as [|? n' ? m Hv' Hm']; subst. exists m. split; [congruence|done]. }
    destruct (distinct_from values name 0 (Z.to_nat index)) as [[]|e|]; cbn [res_bind].
    + rewrite (IH (index + 1) (names ++ [name])); [|lia|lia|rewrite length_app; cbn; lia| |].
      * split.
        -- intros (more & Hm & Hx). exists (name :: more). rewrite Hcons. split; [by eexists|]. by rewrite <-(assoc_L (++)) in Hx.
        -- intros (more & (m & -> & Hm)%Hcons & Hx). exists m. split; [done|]. by rewrite <-(assoc_L (++)).
      * replace (Z.to_nat (index + 1)) with (S (Z.to_nat index)) by lia. rewrite (take_S_r _ _ _ Hv). apply Forall2_app; [done|]. by constructor.
      * apply NoDup_app. split_and!; [done| |apply NoDup_singleton]. intros x Hx ->%list_elem_of_singleton. by apply Hdis.
    + split; [done|]. intros (more & (m & -> & Hm)%Hcons & Hx). apply NoDup_app in Hx as (_ & Hx & _).
      assert (name ∉ names) as Hno by (intros Hin; apply (Hx name Hin); by left). by apply Hdis in Hno.
    + split; [done|]. intros (more & (m & -> & Hm)%Hcons & Hx). apply NoDup_app in Hx as (_ & Hx & _).
      assert (name ∉ names) as Hno by (intros Hin; apply (Hx name Hin); by left). by apply Hdis in Hno.
  - split; [done|]. intros (more & Hm & _). inversion Hm; congruence.
  - by apply environment_name_total in Hname.
Qed.

Lemma validate_environment_records_spec : count values = len vs -> validate_environment_records values = Ok tt <-> environment_ok vs.
Proof.
  intros Hc. unfold validate_environment_records. rewrite Hc, Nat2Z.id.
  rewrite (environment_records_spec (length vs) 0 []); [done|done|lia|done|constructor|constructor].
Qed.

(** Nothing here panics. *)
Lemma distinct_total name n : forall previous, 0 <= previous -> distinct_from values name previous n <> Panic.
Proof.
  induction n as [|n IH]; intros previous Hp; cbn [distinct_from]; [done|]. rewrite gets_text by done. cbn [res_bind].
  apply res_bind_not_panic; [apply ok_or_not_panic|]. intros other _. apply res_bind_not_panic; [apply environment_name_total|]. intros on _.
  case_bool_decide; [done|]. apply IH. lia.
Qed.
Lemma environment_records_total n : forall index, 0 <= index -> environment_records_from values index n <> Panic.
Proof.
  induction n as [|n IH]; intros index Hi; cbn [environment_records_from]; [done|]. rewrite gets_text by done. cbn [res_bind].
  apply res_bind_not_panic; [apply ok_or_not_panic|]. intros other _. apply res_bind_not_panic; [apply environment_name_total|]. intros on _.
  apply res_bind_not_panic; [by apply distinct_total|]. intros _ _. apply IH. lia.
Qed.
End environment_records.

(** * WRLJ: the layout of each message, and that the writers write exactly it *)


(** ** Messages and their layouts *)

(** What can be sent, whichever function writes it. *)
Inductive Wire :=
| WLaunch (path : list Z) (argv environment : list (list Z)) (streams : bool)
| WJob (kind : MessageType) (id : Z)
| WState (job_id : Z) (phase : JobPhase)
| WResult (job_id : Z) (r : TerminationResult)
| WList
| WJobs (ids : list Z)
| WError (code : ErrorCode).

Definition kind_of (w : Wire) : MessageType :=
  match w with
  | WLaunch _ _ _ _ => TLaunch | WJob kind _ => kind | WState _ _ => TJobState | WResult _ _ => TJobResult
  | WList => TListJobs | WJobs _ => TJobList | WError _ => TError
  end.
Definition encode_wire (r : Reservation) (w : Wire) (out : list Z) : result (Z * list Z) :=
  match w with
  | WLaunch path argv environment streams => encode_launch r path argv environment streams out
  | WJob kind id => encode_job_message r kind id out
  | WState id phase => encode_job_state r id phase out
  | WResult id t => encode_job_result r id t out
  | WList => encode_list_jobs r out
  | WJobs ids => encode_job_list r ids out
  | WError code => encode_error r code out
  end.

Definition envelope_fields (r : Reservation) (minor : Z) : list field :=
  [Raw MAGIC; Int 2 MAJOR; Int 2 minor; Int 8 (connection_id r); Int 8 (generation r); Int 8 (transaction_id r); Int 8 0].
Definition prefix_fields (r : Reservation) (minor kind : Z) : list field := envelope_fields r minor ++ [Int 4 kind; Int 4 0].

Definition streams_of (streams : bool) : Z := if streams then 3 else 0.
Definition role_fields (streams : bool) : list field :=
  if streams then [Int 4 1; Int 4 0; Int 4 2; Int 4 0; Int 4 3; Int 4 0] else [].
Definition launch_size (path : list Z) (values : list (list Z)) (streams : bool) : Z :=
  LAUNCH_FIXED_BYTES + len values * RECORD_BYTES + streams_of streams * RECORD_BYTES + len path + total values.
Definition launch_head (path : list Z) (argv environment : list (list Z)) (streams : bool) : list field :=
  [Int 4 (launch_size path (argv ++ environment) streams); Int 4 (streams_of streams); Int 2 (len path); Int 2 (len argv);
   Int 2 (len environment); Int 2 (streams_of streams); Int 4 (total (argv ++ environment)); Int 4 0].
Definition body (w : Wire) : list field :=
  match w with
  | WLaunch path argv environment streams =>
      launch_head path argv environment streams ++ record_fields 0 (argv ++ environment) ++ role_fields streams ++
        [Raw path; Raw (mjoin (argv ++ environment))]
  | WJob _ id => [Int 8 id]
  | WState id phase => [Int 8 id; Int 4 (phase_number phase); Int 4 0]
  | WResult id t =>
      [Int 8 id; Int 4 (classification_number (classification t)); Int 4 (application_code t); Int 4 (exception_class t);
       Int 4 (exception_detail t); Int 8 (exception_address t); Int 4 (cleanup_result t); Int 4 0]
  | WList => []
  | WJobs ids => [Int 4 (len ids); Int 4 0] ++ (Int 8 <$> ids)
  | WError code => [Int 4 (code_number code); Int 4 0]
  end.
Definition layout (r : Reservation) (w : Wire) : list field := prefix_fields r MINOR (type_number (kind_of w)) ++ body w.
Definition wire_size (w : Wire) : Z :=
  match w with
  | WLaunch path argv environment streams => launch_size path (argv ++ environment) streams
  | WJob _ _ | WError _ => 56 | WState _ _ => 64 | WResult _ _ => 88 | WList => HEADER_BYTES
  | WJobs ids => 56 + len ids * 8
  end.

(** What a writer asks for. *)
Definition reservation_ok (r : Reservation) : Prop := connection_id r <> 0 /\ generation r <> 0 /\ transaction_id r <> 0.
Definition launch_ok (path : list Z) (argv environment : list (list Z)) : Prop :=
  validate_path path = Ok tt /\ head argv = Some path /\ len argv <= MAX_ARGV /\ len environment <= MAX_ENVIRONMENT /\
  environment_ok environment /\ total (argv ++ environment) <= MAX_STRING_BYTES.
Definition wire_ok (w : Wire) : Prop :=
  match w with
  | WLaunch path argv environment _ => launch_ok path argv environment
  | WJob kind id => is_job_message kind = true /\ id <> 0
  | WState id _ => id <> 0
  | WResult id t => id <> 0 /\ Z.land (cleanup_result t) (Z.lnot CLEANUP_RESULT_MASK) = 0
  | WList | WError _ => True
  | WJobs ids => len ids <= MAX_LIVE_JOBS /\ Forall (fun id => id <> 0) ids
  end.

Lemma size_app fs gs : size (fs ++ gs) = (size fs + size gs)%nat.
Proof. induction fs as [|f fs IH]; [done|]. cbn [app]. rewrite !size_cons, IH. lia. Qed.
Lemma size_ids ids : size (Int 8 <$> ids) = (8 * length ids)%nat.
Proof. induction ids as [|id ids IH]; [done|]. rewrite fmap_cons, size_cons, IH. cbn. lia. Qed.
Lemma layout_fits r w : Z.of_nat (size (layout r w)) = wire_size w.
Proof.
  unfold layout. rewrite size_app. change (size (prefix_fields _ _ _)) with 48%nat. destruct w as [path argv env streams| | | | |ids|]; cbn [body wire_size]; try done.
  - unfold launch_size, LAUNCH_FIXED_BYTES, RECORD_BYTES, total. rewrite !size_app, size_record_fields. change (size (launch_head _ _ _ _)) with 24%nat.
    unfold size at 2. cbn [fmap list_fmap width sum_list_with sum_list foldr]. destruct streams; cbn; lia.
  - rewrite size_app, size_ids. cbn. lia.
Qed.

(** ** Writing: what is beyond the written part stays *)

Definition frames (f : list Z -> result (list Z)) : Prop := forall w w' t, f w = Ok w' -> f (w ++ t) = Ok (w' ++ t).
Definition frames_to (f : list Z -> result (Z * list Z)) : Prop := forall w n w' t, f w = Ok (n, w') -> f (w ++ t) = Ok (n, w' ++ t).

Lemma put_range_front (w t vs w' : list Z) a : put_range w a vs = Some w' -> put_range (w ++ t) a vs = Some (w' ++ t).
Proof.
  intros (Ha & Hl & ->)%put_range_Some. apply put_range_Some. rewrite length_app. split_and!; [lia..|].
  rewrite take_app_le, drop_app_le by lia. by rewrite <-!(assoc_L (++)).
Qed.
Lemma frames_copy a vs : frames (fun w => copy_at w a vs).
Proof. intros w w' t H%or_panic_Ok. apply or_panic_Ok. by apply put_range_front. Qed.
Lemma frames_fill n : frames (fun w => fill w n).
Proof. apply frames_copy. Qed.
Lemma frames_u16 a v : frames (fun w => put_u16 w a v).
Proof. intros w w' t H%ok_or_Ok. apply ok_or_Ok. by apply put_range_front. Qed.
Lemma frames_u32 a v : frames (fun w => put_u32 w a v).
Proof. intros w w' t H%ok_or_Ok. apply ok_or_Ok. by apply put_range_front. Qed.
Lemma frames_u64 a v : frames (fun w => put_u64 w a v).
Proof. intros w w' t H%ok_or_Ok. apply ok_or_Ok. by apply put_range_front. Qed.
Lemma frames_bind f g : frames f -> frames g -> frames (fun w => res_bind (f w) g).
Proof. intros Hf Hg w w' t (x & Hx & Hy)%res_bind_Ok. apply res_bind_Ok. exists (x ++ t). auto. Qed.
Lemma frames_room n e f : frames f -> frames (fun w => if len w <? n then Err e else f w).
Proof.
  intros Hf w w' t. destruct (Z.ltb_spec (len w) n); [done|]. intros H'. rewrite (proj2 (Z.ltb_ge _ _)) by (rewrite length_app; lia). by apply Hf.
Qed.
Lemma frames_guard (b : bool) e f : frames f -> frames (fun w => if b then Err e else f w).
Proof. intros Hf. by destruct b. Qed.
Lemma frames_ok : frames (fun w => Ok w).
Proof. by intros w w' t [= ->]. Qed.
Create HintDb frames.
#[export] Hint Resolve frames_copy frames_fill frames_u16 frames_u32 frames_u64 frames_ok : frames.
Ltac frame :=
  repeat match goal with
  | |- frames (fun w => res_bind _ _) => apply frames_bind
  | |- frames (fun w => if len w <? _ then _ else _) => apply frames_room
  | |- frames (fun w => if _ then Err _ else _) => apply frames_guard
  | |- frames _ => by auto with frames
  end.

Lemma frames_envelope r minor : frames (encode_envelope_version r minor).
Proof. unfold encode_envelope_version. frame. Qed.
#[export] Hint Resolve frames_envelope : frames.
Lemma frames_prefix_version r minor kind : frames (encode_prefix_version r minor kind).
Proof. unfold encode_prefix_version. frame. Qed.
Lemma frames_prefix r kind : frames (encode_prefix r kind).
Proof. unfold encode_prefix, encode_envelope. frame. Qed.
#[export] Hint Resolve frames_prefix_version frames_prefix : frames.
Lemma frames_roles roles : forall offset, frames (fun w => put_roles w offset roles).
Proof. induction roles as [|role roles IH]; intros offset; cbn [put_roles]; frame. Qed.
#[export] Hint Resolve frames_roles : frames.

Lemma frames_to_bind f g : frames f -> frames_to g -> frames_to (fun w => res_bind (f w) g).
Proof. intros Hf Hg w n w' t (x & Hx & Hy)%res_bind_Ok. apply res_bind_Ok. exists (x ++ t). auto. Qed.
Lemma frames_to_ok n : frames_to (fun w => Ok (n, w)).
Proof. by intros w n' w' t [= -> ->]. Qed.
Lemma frames_to_pure {A} (c : result A) g : (forall a, frames_to (g a)) -> frames_to (fun w => res_bind c (fun a => g a w)).
Proof. intros Hg w n w' t (x & Hx & Hy)%res_bind_Ok. apply res_bind_Ok. exists x. split; [done|]. by apply Hg. Qed.
Ltac frame_to :=
  repeat match goal with
  | |- frames_to (fun w => res_bind (put_u16 w _ _) _) => apply frames_to_bind; [by auto with frames|]
  | |- frames_to (fun w => res_bind (put_u32 w _ _) _) => apply frames_to_bind; [by auto with frames|]
  | |- frames_to (fun w => res_bind (put_u64 w _ _) _) => apply frames_to_bind; [by auto with frames|]
  | |- frames_to (fun w => res_bind (put_roles w _ _) _) => apply frames_to_bind; [by auto with frames|]
  | |- frames_to (fun w => res_bind (copy_at w _ _) _) => apply frames_to_bind; [by auto with frames|]
  | |- frames_to (fun w => res_bind (encode_prefix _ _ w) _) => apply frames_to_bind; [by auto with frames|]
  | |- frames_to (fun w => res_bind (encode_prefix_version _ _ _ w) _) => apply frames_to_bind; [by auto with frames|]
  | |- frames_to (fun w => res_bind _ _) => apply frames_to_pure; intros ?
  | |- frames_to (fun w => Ok _) => apply frames_to_ok
  end.

(** A record of [n] bytes is written at the front of any buffer with room. *)
Lemma written_front (K : list Z -> result (Z * list Z)) n w out : frames_to K -> 0 <= n ->
  K (replicate (Z.to_nat n) 0) = Ok (n, w) -> n <= len out ->
  res_bind (fill out n) K = Ok (n, w ++ drop (Z.to_nat n) out).
Proof.
  intros HK Hn Hrun Ho. assert (fill out n = Ok (replicate (Z.to_nat n) 0 ++ drop (Z.to_nat n) out)) as ->.
  { apply or_panic_Ok, put_range_Some. rewrite length_replicate. split_and!; [done|lia|]. by rewrite Z.add_0_l, Nat2Z.id. }
  cbn [res_bind]. by apply HK.
Qed.

Lemma reservation_tests r : reservation_ok r -> (connection_id r =? 0) || (generation r =? 0) || (transaction_id r =? 0) = false.
Proof. intros (H1 & H2 & H3). by rewrite !(proj2 (Z.eqb_neq _ _)). Qed.

(** The prefix, on an empty buffer of 48 bytes. *)
Lemma prefix_written r minor kind : reservation_ok r -> encode_prefix_version r minor kind (replicate 48 0) = Ok (render (prefix_fields r minor kind)).
Proof.
  intros Hr%reservation_tests. unfold encode_prefix_version, encode_envelope_version. rewrite Hr. clear.
  cbv -[Z.modulo Z.div]. reflexivity.
Qed.
Lemma prefix_same r kind w : encode_prefix r kind w = encode_prefix_version r MINOR (type_number kind) w.
Proof. done. Qed.
Lemma prefix_front r minor kind n : reservation_ok r ->
  encode_prefix_version r minor kind (replicate (48 + n) 0) = Ok (render (prefix_fields r minor kind) ++ replicate n 0).
Proof. intros Hr. rewrite replicate_add. by apply frames_prefix_version, prefix_written. Qed.

(** [n] zeros from [a] on are replaced. *)
Lemma put_next (pre vs post : list Z) a n : a = len pre -> length vs = n -> put_range (pre ++ replicate n 0 ++ post) a vs = Some (pre ++ vs ++ post).
Proof.
  intros -> Hn. apply put_range_Some. rewrite !length_app, length_replicate. split_and!; [lia..|].
  rewrite take_app_length' by lia. rewrite drop_app_ge by lia. rewrite drop_app_length'; [done|]. rewrite length_replicate. lia.
Qed.

Lemma nonzero_Ok v : v <> 0 -> nonzero v = Ok v.
Proof. intros H. unfold nonzero. by rewrite (proj2 (Z.eqb_neq _ _) H). Qed.
Lemma cleanup_Ok v : Z.land v (Z.lnot CLEANUP_RESULT_MASK) = 0 -> parse_cleanup_result v = Ok v.
Proof. intros H. unfold parse_cleanup_result. by rewrite H. Qed.

(** The records of fixed size. *)
Definition is_fixed (w : Wire) : bool := match w with WLaunch _ _ _ _ | WJobs _ => false | _ => true end.
Lemma fixed_written r w out : is_fixed w = true -> reservation_ok r -> wire_ok w -> wire_size w <= len out ->
  encode_wire r w out = Ok (wire_size w, render (layout r w) ++ drop (Z.to_nat (wire_size w)) out).
Proof.
  intros Hf Hr%reservation_tests Hw Ho. destruct w as [|kind id|id phase|id t| | |code]; try discriminate Hf; cbn [encode_wire wire_ok wire_size] in *; unfold HEADER_BYTES in *.
  - destruct Hw as [Hk Hi]. unfold encode_job_message. rewrite Hk, (nonzero_Ok _ Hi). cbn [negb res_bind]. rewrite (proj2 (Z.ltb_ge _ _)) by done.
    apply written_front; [frame_to|done| |done]. unfold encode_prefix, encode_envelope, encode_envelope_version. rewrite Hr. unfold layout, kind_of.
    generalize (type_number kind). clear. intros k. cbv -[Z.modulo Z.div]. reflexivity.
  - unfold encode_job_state. rewrite (nonzero_Ok _ Hw). cbn [res_bind]. rewrite (proj2 (Z.ltb_ge _ _)) by done.
    apply written_front; [frame_to|done| |done]. unfold encode_prefix, encode_envelope, encode_envelope_version. rewrite Hr. unfold layout, body.
    generalize (phase_number phase). clear. intros k. cbv -[Z.modulo Z.div]. reflexivity.
  - destruct Hw as [Hi Hc]. unfold encode_job_result. rewrite (nonzero_Ok _ Hi). cbn [res_bind]. rewrite (proj2 (Z.ltb_ge _ _)) by done.
    apply written_front; [frame_to|done| |done]. unfold encode_prefix, encode_envelope, encode_envelope_version. rewrite Hr, (cleanup_Ok _ Hc). unfold layout, body.
    generalize (classification_number (classification t)). clear. intros k. cbv -[Z.modulo Z.div]. reflexivity.
  - unfold encode_list_jobs. rewrite (proj2 (Z.ltb_ge _ _)) by done.
    apply written_front; [frame_to|done| |done]. unfold encode_prefix, encode_envelope, encode_envelope_version. rewrite Hr. clear. cbv -[Z.modulo Z.div]. reflexivity.
  - unfold encode_error. rewrite (proj2 (Z.ltb_ge _ _)) by done.
    apply written_front; [frame_to|done| |done]. unfold encode_prefix, encode_envelope, encode_envelope_version. rewrite Hr. unfold layout, body.
    generalize (code_number code). clear. intros k. cbv -[Z.modulo Z.div]. reflexivity.
Qed.

(** *** Job lists *)

Lemma jobs_written ids : forall pre post, Forall (fun id => id <> 0) ids ->
  put_jobs (pre ++ replicate (8 * length ids) 0 ++ post) (len pre) ids = Ok (pre ++ render (Int 8 <$> ids) ++ post).
Proof.
  induction ids as [|id ids IH]; intros pre post Hids; [done|]. apply Forall_cons in Hids as [Hid Hids]. cbn [put_jobs]. rewrite (nonzero_Ok _ Hid). cbn [res_bind].
  replace (8 * length (id :: ids))%nat with (8 + 8 * length ids)%nat by (cbn; lia). rewrite replicate_add, <-(assoc_L (++)).
  unfold put_u64, put_le. rewrite (put_next pre (to_le 8 id)) by (done || apply length_to_le). cbn [ok_or res_bind].
  rewrite (assoc_L (++)). replace (len pre + 8) with (len (pre ++ to_le 8 id)) by (rewrite length_app, length_to_le; lia). rewrite IH by done.
  by rewrite fmap_cons, render_cons, <-!(assoc_L (++)).
Qed.

Lemma jobs_sized (ids : list Z) : len ids <= 32 -> checked_mul_u64 (len ids) 8 = Some (len ids * 8).
Proof. intros H. apply checked_mul_Some. lia. Qed.
Lemma jobs_room (ids : list Z) : len ids <= 32 -> checked_add_u64 56 (len ids * 8) = Some (56 + len ids * 8).
Proof. intros H. apply checked_add_Some. lia. Qed.

Lemma list_written r ids out : reservation_ok r -> wire_ok (WJobs ids) -> wire_size (WJobs ids) <= len out ->
  encode_wire r (WJobs ids) out = Ok (wire_size (WJobs ids), render (layout r (WJobs ids)) ++ drop (Z.to_nat (wire_size (WJobs ids))) out).
Proof.
  intros Hr [Hl Hids] Ho. cbn [encode_wire wire_size] in *. unfold encode_job_list, MAX_LIVE_JOBS in *. rewrite (proj2 (Z.ltb_ge _ _)) by done.
  rewrite jobs_sized by done. cbn [ok_or res_bind]. rewrite jobs_room by done. cbn [ok_or res_bind]. rewrite (proj2 (Z.ltb_ge _ _)) by done.
  assert (try_from_unsigned (2 ^ 32) (len ids) = Some (len ids)) as -> by (apply try_from_unsigned_Some; lia).
  apply (written_front (fun o => let! o := encode_prefix r TJobList o in let! n := ok_or WrongSize (Some (len ids)) in let! o := put_u32 o 48 n in
    let! o := put_jobs o 56 ids in Ok (56 + len ids * 8, o))); [|lia| |done].
  - apply frames_to_bind; [by auto with frames|]. apply frames_to_pure. intros n. apply frames_to_bind; [by auto with frames|].
    apply frames_to_bind; [|apply frames_to_ok]. clear. generalize 56. induction ids as [|id ids IH]; intros o; cbn [put_jobs]; [apply frames_ok|].
    unfold nonzero. destruct (id =? 0); [done|]. cbn [res_bind]. apply frames_bind; [by auto with frames|done].
  - rewrite prefix_same. replace (Z.to_nat (56 + len ids * 8)) with (48 + (4 + (4 + 8 * length ids)))%nat by lia. rewrite prefix_front by done. cbn [ok_or res_bind].
    rewrite replicate_add. unfold put_u32, put_le. rewrite (put_next (render (prefix_fields r MINOR (type_number TJobList))) (to_le 4 (len ids))) by (done || apply length_to_le).
    cbn [ok_or res_bind]. rewrite replicate_add.
    pose proof (jobs_written ids (render (prefix_fields r MINOR (type_number TJobList) ++ [Int 4 (len ids); Int 4 0])) [] Hids) as Hj. rewrite !app_nil_r in Hj.
    assert (len (render (prefix_fields r MINOR (type_number TJobList) ++ [Int 4 (len ids); Int 4 0])) = 56) as H56 by done. rewrite H56 in Hj.
    assert (render (prefix_fields r MINOR (type_number TJobList)) ++ to_le 4 (len ids) ++ replicate 4 0 ++ replicate (8 * length ids) 0 =
      render (prefix_fields r MINOR (type_number TJobList) ++ [Int 4 (len ids); Int 4 0]) ++ replicate (8 * length ids) 0) as ->.
    { rewrite render_app, <-(assoc_L (++)). f_equal. }
    rewrite Hj. cbn [res_bind]. unfold layout. cbn [kind_of body]. by rewrite !render_app, <-!(assoc_L (++)).
Qed.

(** *** LAUNCH *)

Lemma records_written vs : forall pre post offset,
  put_records (pre ++ replicate (8 * length vs) 0 ++ post) (len pre) offset vs = Ok (pre ++ render (record_fields offset vs) ++ post, len pre + len vs * RECORD_BYTES).
Proof.
  induction vs as [|v vs IH]; intros pre post offset; cbn [put_records]; [by rewrite Z.mul_0_l, Z.add_0_r|].
  replace (8 * length (v :: vs))%nat with (4 + (2 + (2 + 8 * length vs)))%nat by (cbn; lia). rewrite !replicate_add, <-!(assoc_L (++)).
  unfold put_u32, put_u16, put_le. rewrite (put_next pre (to_le 4 offset)) by (done || apply length_to_le). cbn [ok_or res_bind].
  rewrite (assoc_L (++) pre). rewrite (put_next (pre ++ to_le 4 offset) (to_le 2 (len v))) by (rewrite ?length_app, ?length_to_le; lia). cbn [ok_or res_bind].
  assert ((pre ++ to_le 4 offset) ++ to_le 2 (len v) ++ replicate 2 0 ++ replicate (8 * length vs) 0 ++ post =
    (pre ++ one_record offset v) ++ replicate (8 * length vs) 0 ++ post) as ->.
  { unfold one_record. rewrite !render_cons. cbn [field_bytes]. rewrite to_le_zero. change (render []) with (@nil Z). by rewrite app_nil_r, <-!(assoc_L (++)). }
  replace (len pre + RECORD_BYTES) with (len (pre ++ one_record offset v)) by (by rewrite length_app, Nat2Z.inj_add).
  rewrite IH, record_fields_cons, <-!(assoc_L (++)). f_equal. f_equal. rewrite length_app. change (length (one_record offset v)) with 8%nat.
  unfold RECORD_BYTES. cbn [length]. lia.
Qed.

Lemma strings_written vs : forall pre post, put_strings (pre ++ replicate (length (mjoin vs)) 0 ++ post) (len pre) vs = Ok (pre ++ mjoin vs ++ post).
Proof.
  induction vs as [|v vs IH]; intros pre post; cbn [put_strings]; [done|]. rewrite texts_cons, length_app, replicate_add, <-!(assoc_L (++)).
  unfold copy_at. rewrite (put_next pre v) by done. cbn [or_panic res_bind]. rewrite (assoc_L (++)).
  replace (len pre + len v) with (len (pre ++ v)) by (rewrite length_app; lia). rewrite IH. by rewrite <-(assoc_L (++)).
Qed.

Lemma roles_written pre post : put_roles (pre ++ replicate 24 0 ++ post) (len pre) [1; 2; 3] = Ok (pre ++ render (role_fields true) ++ post).
Proof.
  cbn [put_roles]. unfold RECORD_BYTES. change 24%nat with (4 + (4 + (4 + (4 + (4 + 4)))))%nat. rewrite !replicate_add, <-!(assoc_L (++)).
  unfold put_u32, put_le. rewrite (put_next pre (to_le 4 1)) by done. cbn [ok_or res_bind].
  rewrite (assoc_L (++) (to_le 4 1)), (assoc_L (++) pre). rewrite (put_next (pre ++ to_le 4 1 ++ replicate 4 0) (to_le 4 2)) by (rewrite ?length_app; cbn; lia). cbn [ok_or res_bind].
  rewrite (assoc_L (++) (to_le 4 2)), (assoc_L (++) (pre ++ _)).
  rewrite (put_next ((pre ++ to_le 4 1 ++ replicate 4 0) ++ to_le 4 2 ++ replicate 4 0) (to_le 4 3)) by (rewrite ?length_app; cbn; lia). cbn [ok_or res_bind].
  by rewrite <-!(assoc_L (++)).
Qed.

Lemma add_lengths_spec vs : forall sum, 0 <= sum -> add_lengths sum vs = if sum + total vs <? 2 ^ 64 then Ok (sum + total vs) else
  match vs with [] => Ok sum | _ => Err ArithmeticOverflow end.
Proof.
  induction vs as [|v vs IH]; intros sum Hs; cbn [add_lengths]; [rewrite total_nil, Z.add_0_r; by destruct (sum <? 2 ^ 64)|].
  rewrite total_cons. pose proof (lengths_nonneg vs). unfold checked_add_u64, checked_add. destruct (Z.ltb_spec (sum + len v) (2 ^ 64)); cbn [ok_or res_bind].
  - rewrite IH by lia. replace (sum + len v + total vs) with (sum + (len v + total vs)) by lia. destruct (Z.ltb_spec (sum + (len v + total vs)) (2 ^ 64)); [done|].
    destruct vs; [rewrite total_nil in *; lia|done].
  - by rewrite (proj2 (Z.ltb_ge _ _)) by lia.
Qed.

(** The fixed part. *)
Definition put_head (r : Reservation) (size s plen argc envc strings : Z) (out : list Z) : result (list Z) :=
  let! out := encode_prefix r TLaunch out in
  let! out := put_u32 out 48 size in
  let! out := put_u32 out 52 s in
  let! out := put_u16 out 56 plen in
  let! out := put_u16 out 58 argc in
  let! out := put_u16 out 60 envc in
  let! out := put_u16 out 62 s in
  put_u32 out 64 strings.
Lemma head_written r size s plen argc envc strings post : reservation_ok r ->
  put_head r size s plen argc envc strings (replicate 72 0 ++ post) =
    Ok (render (prefix_fields r MINOR (type_number TLaunch) ++ [Int 4 size; Int 4 s; Int 2 plen; Int 2 argc; Int 2 envc; Int 2 s; Int 4 strings; Int 4 0]) ++ post).
Proof.
  intros Hr%reservation_tests. assert (frames (put_head r size s plen argc envc strings)) as Hf by (unfold put_head; frame). apply Hf.
  unfold put_head, encode_prefix, encode_envelope, encode_envelope_version. rewrite Hr. clear. cbv -[Z.modulo Z.div]. reflexivity.
Qed.

Lemma path_length path : validate_path path = Ok tt -> path <> [] /\ len path <= MAX_PATH_BYTES.
Proof. unfold validate_path. intros H. destruct (_ || _) eqn:Hb; [done|]. clear H. bool_prop. split; done. Qed.

Lemma launch_bounds path argv environment streams : launch_ok path argv environment -> launch_size path (argv ++ environment) streams <= MAX_LAUNCH_MESSAGE_BYTES.
Proof.
  intros (Hp & _ & Ha & He & _ & Ht). apply path_length in Hp as [_ Hp]. unfold launch_size, streams_of. rewrite length_app.
  unfold MAX_LAUNCH_MESSAGE_BYTES, MAX_ARGV, MAX_ENVIRONMENT, RECORD_BYTES, STREAM_COUNT in *. destruct streams; lia.
Qed.

(** The sizes the writer computes. *)
Lemma launch_sized path argv environment (streams : bool) : launch_ok path argv environment ->
  match checked_add_u64 (len argv) (len environment) with Some value => checked_mul_u64 value RECORD_BYTES | None => None end =
    Some (len (argv ++ environment) * RECORD_BYTES) /\
  and_add (and_add (and_add (checked_add_u64 LAUNCH_FIXED_BYTES (len (argv ++ environment) * RECORD_BYTES)) (if streams then STREAM_COUNT * RECORD_BYTES else 0)) (len path))
    (total (argv ++ environment)) = Some (launch_size path (argv ++ environment) streams).
Proof.
  intros Hok. pose proof (launch_bounds _ _ _ streams Hok) as Hmax. destruct Hok as (_ & _ & Ha & He & _ & _). pose proof (lengths_nonneg (argv ++ environment)).
  unfold launch_size, streams_of, MAX_LAUNCH_MESSAGE_BYTES, MAX_ARGV, MAX_ENVIRONMENT, MAX_STRING_BYTES, MAX_PATH_BYTES, RECORD_BYTES, STREAM_COUNT, LAUNCH_FIXED_BYTES in *.
  unfold and_add, checked_add_u64, checked_mul_u64. split.
  - rewrite (proj2 (checked_add_Some _ _ _ (len (argv ++ environment)))) by (rewrite length_app; lia). apply checked_mul_Some. rewrite length_app. lia.
  - repeat (rewrite (proj2 (checked_add_Some _ _ _ _)) by (split; [reflexivity|destruct streams; lia])). f_equal. destruct streams; lia.
Qed.

(** What follows the fixed part. *)
Lemma tail_written (size : Z) (head post path : list Z) (values : list (list Z)) (streams : bool) : len head = 72 ->
  (res_bind (put_records (head ++ replicate (8 * length values) 0 ++ replicate (if streams then 24 else 0) 0 ++
      replicate (length path) 0 ++ replicate (length (mjoin values)) 0 ++ post) 72 0 values) (fun '((out, record_offset) : list Z * Z) =>
   let! out := (if streams then put_roles out record_offset [role_number Stdin; role_number Stdout; role_number Stderr] else Ok out) in
   let! out := copy_at out (if streams then record_offset + 3 * 8 else record_offset) path in
   let! out := put_strings out ((if streams then record_offset + 3 * 8 else record_offset) + len path) values in
   Ok (size, out))) = Ok (size, head ++ render (record_fields 0 values ++ role_fields streams ++ [Raw path; Raw (mjoin values)]) ++ post).
Proof.
  intros Hh. rewrite <-Hh, records_written. cbn [res_bind]. rewrite (assoc_L (++) head). set (pre := head ++ render (record_fields 0 values)).
  replace (len head + len values * RECORD_BYTES) with (len pre) by (unfold pre; rewrite length_app, Nat2Z.inj_add, length_records; done).
  assert ((if streams then put_roles (pre ++ replicate (if streams then 24 else 0) 0 ++ replicate (length path) 0 ++ replicate (length (mjoin values)) 0 ++ post)
      (len pre) [role_number Stdin; role_number Stdout; role_number Stderr]
    else Ok (pre ++ replicate (if streams then 24 else 0) 0 ++ replicate (length path) 0 ++ replicate (length (mjoin values)) 0 ++ post)) =
    Ok ((pre ++ render (role_fields streams)) ++ replicate (length path) 0 ++ replicate (length (mjoin values)) 0 ++ post)) as ->.
  { destruct streams; [|by rewrite app_nil_r]. cbn [role_number]. by rewrite roles_written, <-(assoc_L (++)). }
  cbn [res_bind]. set (pre2 := pre ++ render (role_fields streams)).
  replace (if streams then len pre + 3 * 8 else len pre) with (len pre2) by (unfold pre2; rewrite length_app; destruct streams; cbn; lia).
  unfold copy_at at 1. rewrite (put_next pre2 path) by done. cbn [or_panic res_bind]. rewrite (assoc_L (++) pre2).
  replace (len pre2 + len path) with (len (pre2 ++ path)) by (rewrite length_app; lia). rewrite strings_written. cbn [res_bind].
  unfold pre2, pre. rewrite !render_app, !render_cons. change (render []) with (@nil Z). cbn [field_bytes]. by rewrite app_nil_r, <-!(assoc_L (++)).
Qed.

Lemma launch_written r path argv environment streams out : reservation_ok r -> launch_ok path argv environment ->
  launch_size path (argv ++ environment) streams <= len out ->
  encode_launch r path argv environment streams out =
    Ok (launch_size path (argv ++ environment) streams,
        render (layout r (WLaunch path argv environment streams)) ++ drop (Z.to_nat (launch_size path (argv ++ environment) streams)) out).
Proof.
  intros Hr Hok Ho. pose proof (launch_bounds _ _ _ streams Hok) as Hmax. pose proof (launch_sized _ _ _ streams Hok) as [Hz1 Hz2]. destruct Hok as (Hp & Hfirst & Ha & He & Henv & Ht).
  pose proof (path_length path Hp) as [_ Hpl]. pose proof (lengths_nonneg (argv ++ environment)) as Hnn.
  unfold encode_launch. rewrite Hp. cbn [res_bind]. destruct argv as [|first argv]; [done|]. injection Hfirst as ->. set (args := path :: argv) in *.
  unfold MAX_LAUNCH_MESSAGE_BYTES, MAX_ARGV, MAX_ENVIRONMENT, MAX_STRING_BYTES, MAX_PATH_BYTES, RECORD_BYTES, STREAM_COUNT, LAUNCH_FIXED_BYTES in *.
  rewrite bool_decide_false by done. rewrite !(proj2 (Z.ltb_ge _ _)) by lia. cbn [orb]. change (get_at args 0) with (Some path). cbn [or_panic res_bind].
  rewrite bool_decide_true by done. cbn [negb]. rewrite (proj2 (environment_accepted _) Henv). cbn [res_bind].
  rewrite add_lengths_spec by done. rewrite Z.add_0_l, (proj2 (Z.ltb_lt _ _)) by lia. cbn [res_bind]. rewrite (proj2 (Z.ltb_ge _ _)) by done.
  rewrite Hz1. cbn [ok_or res_bind]. rewrite Hz2.
  cbn [ok_or res_bind]. rewrite (proj2 (Z.ltb_ge _ _)) by done. set (size := launch_size _ _ _) in *.
  assert (fill out size = Ok (replicate 72 0 ++ replicate (8 * length (args ++ environment)) 0 ++ replicate (if streams then 24 else 0) 0 ++
      replicate (length path) 0 ++ replicate (length (mjoin (args ++ environment))) 0 ++ drop (Z.to_nat size) out)) as ->.
  { rewrite !(assoc_L (++)), <-!replicate_add. apply or_panic_Ok, put_range_Some. rewrite length_replicate. split_and!; [done|lia|].
    change (take (Z.to_nat 0) out) with (@nil Z). rewrite Z.add_0_l, Nat2Z.id. cbn [app]. f_equal. f_equal. unfold size, launch_size, streams_of, total, LAUNCH_FIXED_BYTES, RECORD_BYTES. destruct streams; lia. }
  cbn [res_bind]. match goal with |- context [encode_prefix r TLaunch (replicate 72 0 ++ ?p)] => pose proof (head_written r size (if streams then 3 else 0) (len path) (len args) (len environment) (total (args ++ environment)) p Hr) as Hh end.
  unfold put_head in Hh. repeat match goal with H : res_bind _ _ = Ok _ |- _ => apply res_bind_Ok in H as (? & ? & H) end.
  repeat match goal with H : ?c = Ok _ |- context [res_bind ?c _] => rewrite H; clear H; cbn [res_bind] end.
  rewrite (proj2 (try_from_unsigned_Some _ _ size)) by lia. cbn [ok_or res_bind].
  repeat match goal with H : ?c = Ok _ |- context [res_bind ?c _] => rewrite H; clear H; cbn [res_bind] end.
  rewrite tail_written by done. rewrite (assoc_L (++)), <-render_app, <-(assoc_L (++)). done.
Qed.


(** ** What is refused *)

Lemma fill_room n out : 0 <= n <= len out -> exists w, fill out n = Ok w /\ length w = length out.
Proof.
  intros Hn. destruct (proj2 (put_range_is_Some out 0 (replicate (Z.to_nat n) 0))) as [w Hw]; [rewrite length_replicate; lia|].
  exists w. split; [by apply or_panic_Ok|]. by eapply length_put_range.
Qed.
Lemma prefix_not_panic r minor kind w : encode_prefix_version r minor kind w <> Panic.
Proof.
  unfold encode_prefix_version, HEADER_BYTES, ENVELOPE_BYTES, PREFIX_BYTES. destruct (Z.ltb_spec (len w) (40 + 8)); [done|].
  apply res_bind_not_panic; [|intros ? _; apply ok_or_not_panic]. unfold encode_envelope_version, ENVELOPE_BYTES. destruct (_ <? _); [done|]. destruct (_ || _); [done|].
  destruct (fill_room 40 w) as (w' & -> & Hl); [lia|]. cbn [res_bind]. apply res_bind_not_panic; [|intros ? _].
  - apply or_panic_not_panic, put_range_is_Some. change (len MAGIC) with 4. lia.
  - repeat (apply res_bind_not_panic; [apply ok_or_not_panic|intros ? _]). apply ok_or_not_panic.
Qed.
Lemma prefix_needs r minor kind w w' : encode_prefix_version r minor kind w = Ok w' -> reservation_ok r.
Proof.
  unfold encode_prefix_version, encode_envelope_version. intros H. repeat res_step. bool_prop. split_and!; done.
Qed.
Lemma nonzero_not_panic v : nonzero v <> Panic.
Proof. unfold nonzero. by destruct (v =? 0). Qed.
Lemma nonzero_needs v x : nonzero v = Ok x -> v <> 0 /\ x = v.
Proof. unfold nonzero. destruct (Z.eqb_spec v 0); [done|]. by intros [= <-]. Qed.
Lemma cleanup_needs v x : parse_cleanup_result v = Ok x -> Z.land v (Z.lnot CLEANUP_RESULT_MASK) = 0 /\ x = v.
Proof. unfold parse_cleanup_result. destruct (Z.eqb_spec (Z.land v (Z.lnot CLEANUP_RESULT_MASK)) 0); [|done]. by intros [= <-]. Qed.
Lemma validate_path_total path : validate_path path <> Panic.
Proof. unfold validate_path. destruct (_ || _); [done|]. by destruct (existsb _ _). Qed.
Lemma validate_environment_total vs : validate_environment vs <> Panic.
Proof.
  unfold validate_environment. generalize (@nil (list Z)). induction vs as [|v vs IH]; intros before; cbn [validate_environment_from]; [done|].
  apply res_bind_not_panic; [apply environment_name_total|]. intros name _. destruct (existsb _ _); [done|apply IH].
Qed.

Definition accepted (r : Reservation) (w : Wire) (out : list Z) : Prop := reservation_ok r /\ wire_ok w /\ wire_size w <= len out.

Lemma put_jobs_needs ids : forall out offset out', put_jobs out offset ids = Ok out' -> Forall (fun id => id <> 0) ids.
Proof.
  induction ids as [|id ids IH]; intros out offset out' H; [constructor|]. cbn [put_jobs] in H. repeat res_step. destruct (nonzero_needs _ _ H0). constructor; [done|by eapply IH].
Qed.
Lemma put_jobs_not_panic ids : forall out offset, put_jobs out offset ids <> Panic.
Proof.
  induction ids as [|id ids IH]; intros out offset; cbn [put_jobs]; [done|]. apply res_bind_not_panic; [apply nonzero_not_panic|intros _ _].
  apply res_bind_not_panic; [apply ok_or_not_panic|intros ? _]. apply IH.
Qed.

Ltac not_panic :=
  repeat match goal with
  | |- Ok _ <> Panic => discriminate
  | |- Err _ <> Panic => discriminate
  | |- res_bind (fill ?o ?n) _ <> Panic => destruct (fill_room n o) as (? & -> & ?); [lia|cbn [res_bind]]
  | |- res_bind _ _ <> Panic => apply res_bind_not_panic; [|intros ? _]
  | |- (if ?b then _ else _) <> Panic => let E := fresh "E" in destruct b eqn:E; try apply Z.ltb_ge in E
  | |- ok_or _ _ <> Panic => apply ok_or_not_panic
  | |- put_u32 _ _ _ <> Panic => apply ok_or_not_panic
  | |- put_u64 _ _ _ <> Panic => apply ok_or_not_panic
  | |- nonzero _ <> Panic => apply nonzero_not_panic
  | |- encode_prefix _ _ _ <> Panic => rewrite prefix_same; apply prefix_not_panic
  | |- encode_prefix_version _ _ _ _ <> Panic => apply prefix_not_panic
  | |- put_jobs _ _ _ <> Panic => apply put_jobs_not_panic
  | |- parse_cleanup_result ?v <> Panic => unfold parse_cleanup_result
  end.
Definition is_launch (w : Wire) : bool := match w with WLaunch _ _ _ _ => true | _ => false end.
Lemma not_launch_total r w out : is_launch w = false -> encode_wire r w out <> Panic.
Proof.
  intros Hk. destruct w as [|kind id|id phase|id t| |ids|code]; [done|..]; cbn [encode_wire].
  - unfold encode_job_message. not_panic.
  - unfold encode_job_state. not_panic.
  - unfold encode_job_result. not_panic.
  - unfold encode_list_jobs, HEADER_BYTES, ENVELOPE_BYTES, PREFIX_BYTES. not_panic.
  - unfold encode_job_list, MAX_LIVE_JOBS. destruct (Z.ltb_spec 32 (len ids)); [done|]. rewrite jobs_sized by done. cbn [ok_or res_bind].
    rewrite jobs_room by done. cbn [ok_or res_bind]. not_panic.
  - unfold encode_error. not_panic.
Qed.

(** What is written was acceptable. *)
Lemma not_launch_needs r w out n o : is_launch w = false -> encode_wire r w out = Ok (n, o) -> accepted r w out.
Proof.
  intros Hk H. destruct w as [|kind id|id phase|id t| |ids|code]; [done|..]; cbn [encode_wire] in H; unfold accepted; cbn [wire_ok wire_size].
  all: unfold encode_job_message, encode_job_state, encode_job_result, encode_list_jobs, encode_job_list, encode_error in H; repeat res_step; simplify_eq.
  all: match goal with H : encode_prefix _ _ _ = Ok _ |- _ => rewrite prefix_same in H; apply prefix_needs in H end.
  all: repeat match goal with
    | H : nonzero _ = Ok _ |- _ => apply nonzero_needs in H as [? ->]
    | H : parse_cleanup_result _ = Ok _ |- _ => apply cleanup_needs in H as [? ->]
    | H : put_jobs _ _ _ = Ok _ |- _ => apply put_jobs_needs in H
    | H : checked_mul_u64 _ _ = Some _ |- _ => apply checked_mul_Some in H as [-> _]
    | H : checked_add_u64 _ _ = Some _ |- _ => apply checked_add_Some in H as [-> _]
    end; bool_prop.
  all: split_and!; done.
Qed.

(** A LAUNCH is acceptable or refused. *)
Lemma launch_decided r path argv environment streams out :
  accepted r (WLaunch path argv environment streams) out \/ exists e, encode_launch r path argv environment streams out = Err e.
Proof.
  unfold encode_launch. destruct (validate_path path) as [[]|e|] eqn:Hp; [|by right; eexists|by apply validate_path_total in Hp]. cbn [res_bind].
  destruct argv as [|first argv]; [by right; eexists|]. rewrite bool_decide_false by done. cbn [orb]. destruct (Z.ltb_spec MAX_ARGV (len (first :: argv))); [by right; eexists|].
  destruct (Z.ltb_spec MAX_ENVIRONMENT (len environment)); [by right; eexists|]. change (get_at (first :: argv) 0) with (Some first). cbn [or_panic res_bind].
  case_bool_decide as Hfirst; cbn [negb]; [|by right; eexists]. subst first. set (args := path :: argv) in *.
  destruct (validate_environment environment) as [[]|e|] eqn:He; [|by right; eexists|by apply validate_environment_total in He]. cbn [res_bind].
  apply environment_accepted in He. rewrite add_lengths_spec by done. rewrite Z.add_0_l.
  destruct (Z.ltb_spec (total (args ++ environment)) (2 ^ 64)); [|by right; eexists]. cbn [res_bind].
  destruct (Z.ltb_spec MAX_STRING_BYTES (total (args ++ environment))); [by right; eexists|].
  assert (launch_ok path args environment) as Hok by (split_and!; done). pose proof (launch_bounds _ _ _ streams Hok) as Hb.
  destruct (launch_sized _ _ _ streams Hok) as [-> Hz]. cbn [ok_or res_bind]. rewrite Hz. cbn [ok_or res_bind].
  destruct (Z.ltb_spec (len out) (launch_size path (args ++ environment) streams)) as [|Hroom]; [by right; eexists|].
  pose proof (lengths_nonneg (args ++ environment)). destruct (fill_room (launch_size path (args ++ environment) streams) out) as (w & -> & Hl).
  { split; [|done]. unfold launch_size, streams_of, LAUNCH_FIXED_BYTES, RECORD_BYTES. destruct streams; lia. }
  cbn [res_bind]. rewrite prefix_same. destruct (encode_prefix_version _ _ _ _) as [w'|e|] eqn:Hpre; [|by right; eexists|by apply prefix_not_panic in Hpre].
  left. apply prefix_needs in Hpre. done.
Qed.

(** A writer writes the layout of what is acceptable, and refuses the rest. *)
Lemma wire_encode_cases r w out :
  match encode_wire r w out with
  | Ok (n, o) => accepted r w out /\ n = wire_size w /\ o = render (layout r w) ++ drop (Z.to_nat n) out
  | Err _ => ~ accepted r w out
  | Panic => False
  end.
Proof.
  assert (accepted r w out -> encode_wire r w out = Ok (wire_size w, render (layout r w) ++ drop (Z.to_nat (wire_size w)) out)) as Hyes.
  { intros (Hr & Hw & Ho). destruct w; first [by apply fixed_written|by apply list_written|by apply launch_written]. }
  assert (encode_wire r w out <> Panic /\ forall n o, encode_wire r w out = Ok (n, o) -> accepted r w out) as [Hnp Hneed].
  { destruct (is_launch w) eqn:Hl; [|by split; [apply not_launch_total|intros n o; apply not_launch_needs]].
    destruct w as [path argv environment streams| | | | | |]; try discriminate Hl.
    destruct (launch_decided r path argv environment streams out) as [Hacc|[e He]]; [|cbn [encode_wire]; by rewrite He]. by rewrite Hyes. }
  destruct (encode_wire r w out) as [[n o]|e|] eqn:He; [|intros H; by apply Hyes in H|done].
  pose proof (Hneed n o eq_refl) as Hacc. specialize (Hyes Hacc). injection Hyes as -> ->. done.
Qed.

