(* ===== verification/JobReadThms.v ===== *)
(** * WRLJ: the readers accept exactly the written messages *)

From stdpp Require Import base tactics option list list_numbers.
From Stdlib Require Import ZArith Lia.
From S2P Require Import Prelude Bytes Utf8 Layout JobProto JobWriteThms.

Import JobProto.

(** ** What a reader shows of a message *)

Definition request_of (path : list Z) (argv environment : list (list Z)) (streams : bool) : LaunchRequest :=
  mkLaunch path (mkRecords (render (record_fields 0 argv)) (mjoin (argv ++ environment)) (len argv))
    (mkRecords (render (record_fields (total argv) environment)) (mjoin (argv ++ environment)) (len environment)) (streams_of streams).
Definition view (w : Wire) : Message :=
  match w with
  | WLaunch path argv environment streams => Launch (request_of path argv environment streams)
  | WJob kind id =>
      match kind with
      | TLaunchAccepted => LaunchAccepted id | TQuery => Query id | TWait => Wait id | TTerminate => Terminate id
      | TTerminationAccepted => TerminationAccepted id | TCancel => Cancel id | TCancelled => Cancelled id | TCloseJob => CloseJob id
      | _ => Closed id
      end
  | WState id phase => JobState id phase
  | WResult id t => JobResult id t
  | WList => ListJobs
  | WJobs ids => JobList (render (Int 8 <$> ids))
  | WError code => ErrorOf code
  end.
Definition handles_of (w : Wire) : Z := match w with WLaunch _ _ _ streams => streams_of streams | _ => 0 end.
(** Values fit their fields, and texts are text. *)
Definition proper (r : Reservation) (w : Wire) : Prop :=
  Forall field_ok (layout r w) /\ match w with WLaunch _ argv environment _ => Forall text_ok (argv ++ environment) | _ => True end.
Definition sent (r : Reservation) (w : Wire) : Prop := reservation_ok r /\ wire_ok w /\ proper r w.

(** The request's texts are the sender's. *)
Lemma request_texts path argv environment_ streams : launch_ok path argv environment_ -> Forall text_ok (argv ++ environment_) -> forall i, 0 <= i ->
  arg (request_of path argv environment_ streams) i = Ok (argv !! Z.to_nat i) /\
  environment (request_of path argv environment_ streams) i = Ok (environment_ !! Z.to_nat i).
Proof.
  intros (_ & _ & _ & _ & _ & Ht) [Ha He]%Forall_app i Hi. rewrite total_app in Ht. pose proof (lengths_nonneg argv). pose proof (lengths_nonneg environment_).
  unfold arg, environment, request_of, MAX_STRING_BYTES in *. cbn [rq_argv rq_environment]. rewrite join_app. split.
  - apply (records_get_text 0 argv [] (mjoin environment_)); try done. lia.
  - pose proof (records_get_text (total argv) environment_ (mjoin argv) [] i) as H'. rewrite app_nil_r in H'. apply H'; try done. lia.
Qed.

(** ** Fields *)

Lemma reads_app bs fs gs : forall offset, reads bs (fs ++ gs) offset <-> reads bs fs offset /\ reads bs gs (offset + Z.of_nat (size fs)).
Proof.
  induction fs as [|f fs IH]; intros offset; cbn [app reads]; [rewrite Z.add_0_r; naive_solver|]. rewrite IH, size_cons.
  replace (offset + Z.of_nat (width f) + Z.of_nat (size fs)) with (offset + Z.of_nat (width f + size fs)) by lia. naive_solver.
Qed.

(** Fields that were read are there. *)
Lemma reads_range bs fs : forall offset, bytes_ok bs -> 0 <= offset <= len bs -> reads bs fs offset ->
  get_range bs offset (offset + Z.of_nat (size fs)) = Some (render fs).
Proof.
  induction fs as [|f fs IH]; intros offset Hb Ho Hr.
  { change (size []) with 0%nat. rewrite Z.add_0_r. apply get_range_Some. split_and!; try lia. by rewrite Z.sub_diag. }
  destruct Hr as [Hf Hr]. assert (get_range bs offset (offset + Z.of_nat (width f)) = Some (field_bytes f)) as Hrange.
  { destruct f as [n v|r]; [|exact Hf]. unfold get_le in Hf. apply fmap_Some in Hf as (x & Hx & ->). cbn [width field_bytes]. rewrite Hx. f_equal.
    pose proof (length_get_range _ _ _ _ Hx). replace n with (length x) by lia. symmetry. apply to_le_of_le. by eapply range_bytes_ok. }
  pose proof Hrange as (_ & _ & Hle & _)%get_range_Some. rewrite render_cons, size_cons. eapply range_join; [exact Hrange|].
  replace (offset + Z.of_nat (width f + size fs)) with (offset + Z.of_nat (width f) + Z.of_nat (size fs)) by lia. apply IH; [done|lia|done].
Qed.

(** ** The envelope *)

Lemma envelope_sound bytes minor r : parse_envelope_version bytes minor = Ok r -> reservation_ok r /\ reads bytes (envelope_fields r minor) 0.
Proof.
  unfold parse_envelope_version, index_range, read_u16, read_u64, get_u16, get_u64. intros H. repeat res_step.
  destruct (negb (a0 =? MAJOR)) eqn:Hm; [discriminate|]. repeat res_step. bool_prop. subst. split; [done|]. cbn [envelope_fields reads connection_id generation transaction_id]. by split_and!.
Qed.
Lemma envelope_total bytes minor : parse_envelope_version bytes minor <> Panic.
Proof.
  unfold parse_envelope_version, ENVELOPE_BYTES. destruct (Z.ltb_spec (len bytes) 40); [done|]. unfold index_range, read_u16, read_u64. no_panic. lia.
Qed.
(** The fields of a message are known. *)
Lemma envelope_complete bytes minor r : reservation_ok r -> 40 <= len bytes -> reads bytes (envelope_fields r minor) 0 -> parse_envelope_version bytes minor = Ok r.
Proof.
  intros Hr%reservation_tests Hl (H0 & H1 & H2 & H3 & H4 & H5 & H6 & _).
  change (get_range bytes 0 4 = Some MAGIC) in H0. change (get_le 2 bytes 4 = Some MAJOR) in H1. change (get_le 2 bytes 6 = Some minor) in H2.
  change (get_le 8 bytes 8 = Some (connection_id r)) in H3. change (get_le 8 bytes 16 = Some (generation r)) in H4.
  change (get_le 8 bytes 24 = Some (transaction_id r)) in H5. change (get_le 8 bytes 32 = Some 0) in H6. unfold parse_envelope_version, ENVELOPE_BYTES. rewrite (proj2 (Z.ltb_ge _ _)) by done.
  unfold index_range. rewrite H0. cbn [or_panic res_bind]. rewrite bool_decide_true by done. cbn [negb].
  unfold read_u16, read_u64, get_u16, get_u64. rewrite H1. cbn [ok_or res_bind]. rewrite Z.eqb_refl. cbn [negb]. rewrite H2. cbn [ok_or res_bind]. rewrite Z.eqb_refl. cbn [negb].
  rewrite H6. cbn [ok_or res_bind Z.eqb negb]. rewrite H3, H4, H5. cbn [ok_or res_bind]. rewrite Hr. by destruct r.
Qed.

(** ** Prefix and body *)

(** The match of [parse_message]. *)
Definition parse_body (kind : MessageType) (bytes : list Z) (handles : Z) : result Message :=
  let job (f : Z -> Message) := let! id := parse_job_id bytes handles in Ok (f id) in
  match kind with
  | TLaunch => let! r := parse_launch bytes handles in Ok (Launch r)
  | TLaunchAccepted => job LaunchAccepted
  | TQuery => job Query
  | TJobState =>
      let! _ := require_handles handles 0 in
      let! _ := require_size bytes 64 in
      let! job_id := read_u64 bytes 48 in
      let! job_id := nonzero job_id in
      let! phase := read_u32 bytes 56 in
      let! phase := parse_phase phase in
      let! x := read_u32 bytes 60 in
      reject_if! negb (x =? 0) with NonzeroReserved;;
      Ok (JobState job_id phase)
  | TWait => job Wait
  | TJobResult =>
      let! _ := require_handles handles 0 in
      let! _ := require_size bytes 88 in
      let! x := read_u32 bytes 84 in
      reject_if! negb (x =? 0) with NonzeroReserved;;
      let! job_id := read_u64 bytes 48 in
      let! job_id := nonzero job_id in
      let! class := read_u32 bytes 56 in
      let! class := parse_classification class in
      let! code := read_u32 bytes 60 in
      let! ec := read_u32 bytes 64 in
      let! ed := read_u32 bytes 68 in
      let! ea := read_u64 bytes 72 in
      let! cleanup := read_u32 bytes 80 in
      let! cleanup := parse_cleanup_result cleanup in
      Ok (JobResult job_id (mkTermination class code ec ed ea cleanup))
  | TTerminate => job Terminate
  | TTerminationAccepted => job TerminationAccepted
  | TListJobs =>
      let! _ := require_handles handles 0 in
      let! _ := require_size bytes HEADER_BYTES in
      Ok ListJobs
  | TJobList => let! ids := parse_job_list bytes handles in Ok (JobList ids)
  | TCancel => job Cancel
  | TCancelled => job Cancelled
  | TCloseJob => job CloseJob
  | TClosed => job Closed
  | TError =>
      let! _ := require_handles handles 0 in
      let! _ := require_size bytes 56 in
      let! x := read_u32 bytes 52 in
      reject_if! negb (x =? 0) with NonzeroReserved;;
      let! code := read_u32 bytes 48 in
      let! code := parse_code code in
      Ok (ErrorOf code)
  end.

Lemma parse_type_Ok v t : parse_type v = Ok t <-> v = type_number t.
Proof. split; [|intros ->; by destruct t]. unfold parse_type. intros H. repeat case_match; simplify_eq; done. Qed.
Lemma parse_phase_Ok v p : parse_phase v = Ok p <-> v = phase_number p.
Proof. split; [|intros ->; by destruct p]. unfold parse_phase. intros H. repeat case_match; simplify_eq; done. Qed.
Lemma parse_classification_Ok v c : parse_classification v = Ok c <-> v = classification_number c.
Proof. split; [|intros ->; by destruct c]. unfold parse_classification. intros H. repeat case_match; simplify_eq; done. Qed.
Lemma job_code_Ok v c : parse_code v = Ok c <-> v = code_number c.
Proof. split; [|intros ->; by destruct c]. unfold parse_code. intros H. repeat case_match; simplify_eq; done. Qed.

Lemma parse_message_Ok bytes handles pm : parse_message bytes handles = Ok pm <->
  exists r kind m, 48 <= len bytes /\ reservation_ok r /\ reads bytes (prefix_fields r MINOR (type_number kind)) 0 /\ parse_body kind bytes handles = Ok m /\
    pm = mkParsed r m.
Proof.
  unfold prefix_fields. split.
  - intros H. unfold parse_message, read_u32, get_u32 in H. repeat res_step. unfold parse_envelope in *. destruct (envelope_sound _ _ _ ltac:(eassumption)) as [Hr Henv].
    bool_prop. apply parse_type_Ok in H2. subst. eexists _, _, _. unfold HEADER_BYTES, ENVELOPE_BYTES, PREFIX_BYTES in *.
    split_and!; [lia|exact Hr| |eassumption|done]. apply reads_app. split; [done|]. cbn [reads]. by split_and!.
  - intros (r & kind & m & Hl & Hr & [Henv (H1 & H2 & _)]%reads_app & Hbody & ->). change (get_le 4 bytes 40 = Some (type_number kind)) in H1. change (get_le 4 bytes 44 = Some 0) in H2.
    unfold parse_message, parse_envelope. unfold HEADER_BYTES, ENVELOPE_BYTES, PREFIX_BYTES. rewrite (proj2 (Z.ltb_ge _ _)) by lia.
    rewrite (envelope_complete _ _ r) by (done || lia). cbn [res_bind]. unfold read_u32 at 1 2, get_u32. rewrite H1. cbn [ok_or res_bind].
    rewrite (proj2 (parse_type_Ok _ kind)) by done. cbn [res_bind]. rewrite H2. cbn [ok_or res_bind Z.eqb negb].
    change (res_bind (parse_body kind bytes handles) (fun m0 => Ok (mkParsed r m0)) = Ok (mkParsed r m)). by rewrite Hbody.
Qed.

(** ** Bodies of fixed size *)

(** [w] is what the body of [bytes] says. *)
Record carries (bytes : list Z) (w : Wire) : Prop := {
  c_ok : wire_ok w;
  c_texts : match w with WLaunch _ argv environment _ => Forall text_ok (argv ++ environment) | _ => True end;
  c_size : len bytes = wire_size w;
  c_reads : reads bytes (body w) 48 }.

Lemma job_sound bytes handles id kind : is_job_message kind = true -> parse_job_id bytes handles = Ok id -> handles = 0 /\ carries bytes (WJob kind id).
Proof.
  unfold parse_job_id, require_handles, require_size, read_u64, get_u64. intros Hk H. repeat res_step. bool_prop.
  apply nonzero_needs in H as [? ->]. split; [done|]. by split.
Qed.
Lemma job_complete bytes kind id : carries bytes (WJob kind id) -> parse_job_id bytes 0 = Ok id.
Proof.
  intros [[_ Hid] _ Hs [Hr _]]. cbn in Hs. unfold parse_job_id, require_handles, require_size. rewrite Hs. cbn [Z.eqb res_bind].
  unfold read_u64, get_u64. rewrite Hr. by apply nonzero_Ok.
Qed.

(** The kinds whose bodies do not vary in size. *)
Definition fixed_kind (kind : MessageType) : bool := match kind with TLaunch | TJobList => false | _ => true end.
Lemma fixed_sound kind bytes handles m : fixed_kind kind = true -> parse_body kind bytes handles = Ok m ->
  exists w, kind_of w = kind /\ view w = m /\ handles_of w = handles /\ carries bytes w.
Proof.
  intros Hf H. destruct (is_job_message kind) eqn:Hj.
  - destruct kind; try discriminate Hj; cbn [parse_body] in H; apply res_bind_Ok in H as (id & Hid & [= <-]); destruct (job_sound _ _ _ _ Hj Hid) as [-> Hc]; by eexists (WJob _ id).
  - destruct kind; try discriminate Hj; try discriminate Hf; cbn [parse_body] in H; unfold require_handles, require_size, read_u32, read_u64, get_u32, get_u64 in H; repeat res_step; bool_prop.
    all: repeat match goal with
      | H : nonzero _ = Ok _ |- _ => apply nonzero_needs in H as [? ->]
      | H : parse_cleanup_result _ = Ok _ |- _ => apply cleanup_needs in H as [? ->]
      | H : parse_phase _ = Ok _ |- _ => apply parse_phase_Ok in H
      | H : parse_classification _ = Ok _ |- _ => apply parse_classification_Ok in H
      | H : parse_code _ = Ok _ |- _ => apply job_code_Ok in H
      end; subst.
    + eexists (WState _ _). split_and!; [done|done|done|]. split; try done; cbn [body reads]; by split_and!.
    + eexists (WResult _ (mkTermination _ _ _ _ _ _)). split_and!; [done|done|done|]. split; try done; cbn [body reads]; by split_and!.
    + exists WList. split_and!; [done|done|done|]. by split.
    + eexists (WError _). split_and!; [done|done|done|]. split; try done; cbn [body reads]; by split_and!.
Qed.

(** Use a field that is known. *)
Ltac known_read :=
  match goal with H : get_le ?n ?bs ?a' = Some ?v |- context [get_le ?n ?bs ?a] =>
    unify a a'; rewrite (H : get_le n bs a = Some v); cbn [ok_or res_bind] end.
Lemma fixed_complete bytes w : is_fixed w = true -> carries bytes w -> parse_body (kind_of w) bytes 0 = Ok (view w).
Proof.
  intros Hf Hc. destruct w as [|kind id|id phase|id t| | |code]; try discriminate Hf.
  { pose proof (job_complete _ _ _ Hc) as Hid. destruct (c_ok _ _ Hc) as [Hk _]. destruct kind; try discriminate Hk; cbn [parse_body kind_of view]; by rewrite Hid. }
  all: destruct Hc as [Hok _ Hs Hr]; cbn [wire_ok wire_size body reads kind_of view] in *; destruct_and?.
  all: unfold parse_body, require_handles, require_size, read_u32, read_u64, get_u32, get_u64, HEADER_BYTES in *; rewrite Hs; cbn [Z.eqb Pos.eqb res_bind].
  - repeat known_read. rewrite nonzero_Ok by done. cbn [res_bind]. repeat known_read. rewrite (proj2 (parse_phase_Ok _ phase)) by done. cbn [res_bind]. by repeat known_read.
  - repeat known_read. cbn [Z.eqb negb]. rewrite nonzero_Ok by done. cbn [res_bind]. repeat known_read. rewrite (proj2 (parse_classification_Ok _ _)) by done. cbn [res_bind].
    repeat known_read. rewrite cleanup_Ok by done. by destruct t.
  - done.
  - repeat known_read. cbn [Z.eqb negb]. by rewrite (proj2 (job_code_Ok _ code)) by done.
Qed.

(** ** Job lists *)

Lemma reads_more bs more fs : forall offset, reads bs fs offset -> reads (bs ++ more) fs offset.
Proof.
  induction fs as [|f fs IH]; intros offset; [done|]. intros [Hf Hr]. split; [|by apply IH]. destruct f as [n v|r]; unfold get_le in *.
  - apply fmap_Some in Hf as (x & Hx & ->). pose proof Hx as (_ & _ & Hle & _)%get_range_Some. by rewrite get_range_app_l, Hx.
  - pose proof Hf as (_ & _ & Hle & _)%get_range_Some. by rewrite get_range_app_l.
Qed.
Lemma range_reads bs fs offset : Forall field_ok fs -> get_range bs offset (offset + Z.of_nat (size fs)) = Some (render fs) -> reads bs fs offset.
Proof.
  intros Hok (H1 & H2 & H3 & Hr)%get_range_Some. rewrite <-(take_drop (Z.to_nat offset + size fs) bs). apply reads_more.
  replace (take (Z.to_nat offset + size fs) bs) with (take (Z.to_nat offset) bs ++ render fs).
  - replace offset with (len (take (Z.to_nat offset) bs)) at 2 by (rewrite length_take; lia). by apply reads_after.
  - rewrite Hr, <-take_take_drop. by repeat f_equal; lia.
Qed.

Lemma jobs_sound ids n : bytes_ok ids -> forall index, 0 <= index -> index * 8 <= len ids -> check_jobs ids index n = Ok tt ->
  exists js, length js = n /\ Forall (fun j => j <> 0) js /\ get_range ids (index * 8) ((index + Z.of_nat n) * 8) = Some (render (Int 8 <$> js)) /\
    Forall field_ok (Int 8 <$> js).
Proof.
  intros Hb. induction n as [|n IH]; intros index Hi Hl H; cbn [check_jobs] in H.
  { exists []. split_and!; [done|by apply Forall_nil| |by apply Forall_nil]. rewrite Z.add_0_r. apply get_range_Some. split_and!; try lia. by rewrite Z.sub_diag. }
  repeat res_step. apply nonzero_needs in H1 as [Hne ->]. unfold ids_get in H0. apply bind_Some in H0 as (o & [-> _]%checked_mul_Some & Hg). unfold get_u64, get_le in Hg.
  apply fmap_Some in Hg as (x & Hx & ->). pose proof Hx as (_ & _ & Hle & _)%get_range_Some. pose proof (length_get_range _ _ _ _ Hx) as Hlx.
  assert (bytes_ok x) as Hbx by (by eapply range_bytes_ok). pose proof (of_le_bound x Hbx) as Hbound.
  destruct (IH (index + 1)) as (js & Hn & Hnz & Hr & Hok); [lia|lia|done|]. exists (of_le x :: js). split_and!.
  - cbn. by rewrite Hn.
  - by constructor.
  - rewrite fmap_cons, render_cons. replace (index + Z.of_nat (S n)) with (index + 1 + Z.of_nat n) by lia. eapply range_join; [|exact Hr].
    replace ((index + 1) * 8) with (index * 8 + Z.of_nat 8) by lia. cbn [field_bytes]. rewrite Hx. f_equal. replace 8%nat with (length x) by lia. symmetry. by apply to_le_of_le.
  - rewrite fmap_cons. constructor; [|done]. cbn [field_ok]. by replace (len x) with 8 in Hbound by lia.
Qed.

Lemma job_list_sound bytes handles ids : bytes_ok bytes -> parse_job_list bytes handles = Ok ids ->
  exists js, handles = 0 /\ ids = render (Int 8 <$> js) /\ carries bytes (WJobs js).
Proof.
  intros Hb H. unfold parse_job_list, require_handles, read_u32, get_u32, index_range in H. repeat res_step. bool_prop. subst.
  destruct (MAX_LIVE_JOBS <? _) eqn:Hmax; repeat res_step; try congruence. bool_prop. subst.
  destruct a3. pose proof (length_get_range _ _ _ _ H3) as Hli. pose proof (get_le_in_range _ _ _ _ Hb H1) as Hrange.
  assert (ids_len ids = a0) as Hlen by (unfold ids_len; rewrite Hli; replace (len bytes - 56) with (a0 * 8) by lia; by apply Z.div_mul).
  rewrite Hlen in H4. destruct (jobs_sound ids (Z.to_nat a0) (range_bytes_ok _ _ _ _ Hb H3) 0 ltac:(lia) ltac:(lia) H4) as (js & Hn & Hnz & Hr & Hok).
  assert (ids = render (Int 8 <$> js)) as ->.
  { apply get_range_Some in Hr as (_ & _ & _ & Hr). rewrite Hr. rewrite drop_0, take_ge; [done|]. lia. }
  exists js. split_and!; [done|done|]. split; cbn [wire_ok wire_size]; [split; [lia|done]|done|lia|].
  cbn [body app reads]. split_and!; [by replace (len js) with a0 by lia|done|]. apply range_reads; [done|]. rewrite size_ids.
  change (48 + Z.of_nat (width (Int 4 (len js))) + Z.of_nat (width (Int 4 0))) with 56. by replace (56 + Z.of_nat (8 * length js)) with (len bytes) by lia.
Qed.

Lemma jobs_accept js : forall pre index, Forall (fun j => j <> 0) js -> Forall field_ok (Int 8 <$> js) -> len pre = index * 8 -> 0 <= index -> index + len js <= 2 ^ 32 ->
  check_jobs (pre ++ render (Int 8 <$> js)) index (length js) = Ok tt.
Proof.
  induction js as [|j js IH]; intros pre index Hnz Hok Hp Hi Hmax; cbn [length check_jobs]; [done|]. rewrite fmap_cons in *. apply Forall_cons in Hnz as [Hj Hnz]. apply Forall_cons in Hok as [Hf Hok].
  cbn [length] in Hmax. unfold ids_get, checked_mul_u64. rewrite (proj2 (checked_mul_Some _ _ _ (index * 8))) by lia. cbn [mbind option_bind].
  pose proof (reads_after [Int 8 j] pre) as [Hr _]; [by constructor; [|constructor]|]. rewrite Hp in Hr.
  pose proof (reads_more (pre ++ render [Int 8 j]) (render (Int 8 <$> js)) [Int 8 j] (index * 8)) as [Hr' _]; [by split|].
  assert (pre ++ render (Int 8 j :: (Int 8 <$> js)) = (pre ++ render [Int 8 j]) ++ render (Int 8 <$> js)) as Heq.
  { rewrite render_cons, <-(assoc_L (++)). f_equal. }
  unfold get_u64. rewrite Heq, Hr'. cbn [ok_or res_bind]. rewrite nonzero_Ok by done. cbn [res_bind]. apply IH; try done; [|lia|lia].
  rewrite length_app. change (length (render [Int 8 j])) with 8%nat. lia.
Qed.
Lemma job_list_complete bytes js : bytes_ok bytes -> carries bytes (WJobs js) -> parse_job_list bytes 0 = Ok (render (Int 8 <$> js)).
Proof.
  intros Hb [[Hl Hnz] _ Hs (H1 & H2 & Hr)]. cbn [wire_size] in Hs. change (get_le 4 bytes 48 = Some (len js)) in H1. change (get_le 4 bytes 52 = Some 0) in H2. change (reads bytes (Int 8 <$> js) 56) in Hr.
  pose proof (reads_in_range _ _ _ Hb Hr) as Hok. apply reads_range in Hr as Hrange; [|done|lia]. rewrite size_ids in Hrange.
  unfold parse_job_list, require_handles. cbn [Z.eqb res_bind]. rewrite (proj2 (Z.ltb_ge _ _)) by lia. unfold read_u32, get_u32. rewrite H1. cbn [ok_or res_bind].
  rewrite (proj2 (Z.ltb_ge _ _)) by done. rewrite H2. cbn [ok_or res_bind Z.eqb negb orb]. rewrite Hs, Z.eqb_refl. cbn [negb].
  unfold index_range. replace (56 + Z.of_nat (8 * length js)) with (56 + len js * 8) in Hrange by lia. rewrite Hrange. cbn [or_panic res_bind].
  assert (len (render (Int 8 <$> js)) = len js * 8) as Hlen by (rewrite length_render, size_ids; lia).
  unfold ids_len. rewrite Hlen, Z.div_mul, Nat2Z.id by done. unfold MAX_LIVE_JOBS in Hl. pose proof (jobs_accept js [] 0 Hnz Hok eq_refl ltac:(lia) ltac:(lia)) as Hacc. cbn [app] in Hacc. by rewrite Hacc.
Qed.

(** * WRLJ: reading a LAUNCH *)


(** ** Parts of the message *)

Lemma roles_sound bytes offset : check_roles bytes offset [1; 2; 3] = Ok tt -> reads bytes (role_fields true) offset.
Proof.
  unfold check_roles, read_u32, get_u32, RECORD_BYTES. intros H. repeat res_step. bool_prop. subst. cbn [role_fields reads]. unfold width. rewrite <-!Z.add_assoc in *. by split_and!.
Qed.
Lemma roles_complete bytes offset : reads bytes (role_fields true) offset -> check_roles bytes offset [1; 2; 3] = Ok tt.
Proof.
  cbn [role_fields reads]. unfold width. rewrite <-!Z.add_assoc. intros (H1 & H2 & H3 & H4 & H5 & H6 & _).
  unfold check_roles, read_u32, get_u32, RECORD_BYTES. rewrite <-!Z.add_assoc. by repeat (known_read; cbn [Z.eqb Pos.eqb negb]).
Qed.

(** The table, once it is validated. *)
Lemma table_sound table strings count : bytes_ok table -> len strings < 2 ^ 32 -> len table = count * RECORD_BYTES -> 0 <= count -> validate_records table strings count = Ok tt ->
  exists vs, len vs = count /\ Forall text_ok vs /\ table = render (record_fields 0 vs) /\ strings = mjoin vs.
Proof.
  intros Hb Hs Hl Hc H. unfold validate_records in H. apply res_bind_Ok in H as (finish & Hf & H). destruct (negb _) eqn:Hn; [done|]. apply negb_false_iff, Z.eqb_eq in Hn. subst finish.
  destruct (records_sound table strings (Z.to_nat count) Hb Hs 0 0 (len strings)) as (vs & Hv & Hok & Ht & Hj & Hr); [lia|lia|lia|done|]. exists vs. split_and!; [lia|done|..].
  - apply get_range_Some in Hr as (_ & _ & _ & Hr). rewrite Hr. rewrite Z.mul_0_l, drop_0, take_ge; [done|]. unfold RECORD_BYTES in *. lia.
  - apply get_range_Some in Hj as (_ & _ & _ & Hj). rewrite Hj, drop_0, take_ge; [done|]. lia.
Qed.
Lemma table_complete vs : Forall text_ok vs -> total vs < 2 ^ 16 -> validate_records (render (record_fields 0 vs)) (mjoin vs) (len vs) = Ok tt.
Proof.
  intros Hok Ht. unfold validate_records. rewrite Nat2Z.id.
  pose proof (records_accept (mjoin vs) [] vs [] [] [] 0 0) as H. cbn [app] in H. rewrite !app_nil_r in H. rewrite H by (done || lia).
  cbn [res_bind]. rewrite Z.add_0_l. unfold total. by rewrite Z.eqb_refl.
Qed.

(** The two parts of the table. *)
Lemma table_split argv environment : 
  get_range (render (record_fields 0 (argv ++ environment))) 0 (len argv * RECORD_BYTES) = Some (render (record_fields 0 argv)) /\
  get_range (render (record_fields 0 (argv ++ environment))) (len argv * RECORD_BYTES) (len (render (record_fields 0 (argv ++ environment)))) =
    Some (render (record_fields (total argv) environment)).
Proof.
  rewrite record_fields_app, render_app, Z.add_0_l. pose proof (length_records 0 argv) as Ha. split.
  - apply (mid_range []); [done|]. cbn. lia.
  - rewrite <-(app_nil_r (render (record_fields (total argv) environment))) at 1. rewrite length_app. apply mid_range; lia.
Qed.

Lemma path_text path : validate_path path = Ok tt -> text_ok path.
Proof.
  unfold validate_path. destruct (_ || _) eqn:Hb; [done|]. intros _. assert (forallb (fun b => b <? 128) path = true) as Hall by (unfold is_ascii in Hb; bool_prop; done). clear Hb.
  unfold text_ok. induction path as [|b path IH]; [by eexists|]. cbn in Hall. apply andb_true_iff in Hall as [Hb Hall]. destruct (IH Hall) as [cs Hcs].
  cbn [from_utf8]. rewrite Hb, Hcs. by eexists.
Qed.

(** ** Accepting *)

(** Where the parts lie. *)
Record parts (bytes path : list Z) (vs : list (list Z)) (streams : bool) : Prop := {
  p_size : len bytes = launch_size path vs streams;
  p_table : get_range bytes 72 (72 + len vs * 8) = Some (render (record_fields 0 vs));
  p_path : get_range bytes (72 + len vs * 8 + streams_of streams * 8) (72 + len vs * 8 + streams_of streams * 8 + len path) = Some path;
  p_strings : get_range bytes (72 + len vs * 8 + streams_of streams * 8 + len path) (len bytes) = Some (mjoin vs);
  p_roles : streams = true -> reads bytes (role_fields true) (72 + len vs * 8) }.

Lemma size_roles streams : Z.of_nat (size (role_fields streams)) = streams_of streams * 8.
Proof. by destruct streams. Qed.

Lemma carries_parts bytes path argv environment streams : bytes_ok bytes -> carries bytes (WLaunch path argv environment streams) ->
  parts bytes path (argv ++ environment) streams /\ reads bytes (launch_head path argv environment streams) 48.
Proof.
  intros Hb [_ _ Hs Hr]. cbn [wire_size body] in *. apply reads_app in Hr as [Hhead Hr]. split; [|done]. change (48 + Z.of_nat (size (launch_head path argv environment streams))) with 72 in Hr.
  apply reads_app in Hr as [Htable Hr]. apply reads_app in Hr as [Hroles Hr]. rewrite size_record_fields, size_roles in Hr. rewrite size_record_fields in Hroles.
  destruct Hr as (Hpath & Hstrings & _). cbn [width] in Hstrings. pose proof (lengths_nonneg (argv ++ environment)) as Hnn.
  assert (launch_size path (argv ++ environment) streams = 72 + len (argv ++ environment) * 8 + streams_of streams * 8 + len path + total (argv ++ environment)) as Hsize by done.
  assert (0 <= streams_of streams) by (by destruct streams).
  replace (72 + Z.of_nat (8 * length (argv ++ environment))) with (72 + len (argv ++ environment) * 8) in * by lia. split; try done.
  - apply reads_range in Htable; [|done|lia]. rewrite size_record_fields in Htable. by replace (72 + len (argv ++ environment) * 8) with (72 + Z.of_nat (8 * length (argv ++ environment))) by lia.
  - unfold total in Hsize. by rewrite Hs, Hsize.
  - by intros ->.
Qed.

Lemma parts_carry bytes path argv environment streams : bytes_ok bytes -> parts bytes path (argv ++ environment) streams ->
  reads bytes (launch_head path argv environment streams) 48 -> launch_ok path argv environment -> Forall text_ok (argv ++ environment) ->
  carries bytes (WLaunch path argv environment streams).
Proof.
  intros Hb [Ps Pt Pp Pstr Pr] Hhead Hok Htext. split; try done. cbn [body]. apply reads_app. split; [done|].
  change (48 + Z.of_nat (size (launch_head path argv environment streams))) with 72.
  pose proof (lengths_nonneg (argv ++ environment)). destruct Hok as (_ & _ & _ & _ & _ & Ht). unfold MAX_STRING_BYTES in Ht.
  assert (72 + Z.of_nat (size (record_fields 0 (argv ++ environment))) = 72 + len (argv ++ environment) * 8) as Hsz by (rewrite size_record_fields; lia).
  apply reads_app. split; [apply range_reads; [apply record_fields_ok; lia|by rewrite Hsz]|]. rewrite Hsz.
  apply reads_app. split; [destruct streams; [by apply Pr|done]|]. rewrite size_roles. cbn [reads width]. split_and!; [done| |done].
  rewrite Ps in Pstr. unfold launch_size, LAUNCH_FIXED_BYTES, RECORD_BYTES, total in Pstr. done.
Qed.

(** The offsets the reader computes. *)
Lemma launch_offsets argc envc s plen strings : 0 <= argc <= 64 -> 0 <= envc <= 64 -> 0 <= s <= 3 -> 0 <= plen < 2 ^ 16 -> 0 <= strings < 2 ^ 32 ->
  checked_add_u64 argc envc = Some (argc + envc) /\ checked_mul_u64 (argc + envc) 8 = Some ((argc + envc) * 8) /\
  checked_add_u64 72 ((argc + envc) * 8) = Some (72 + (argc + envc) * 8) /\ checked_mul_u64 s 8 = Some (s * 8) /\
  checked_add_u64 (72 + (argc + envc) * 8) (s * 8) = Some (72 + (argc + envc) * 8 + s * 8) /\
  checked_add_u64 (72 + (argc + envc) * 8 + s * 8) plen = Some (72 + (argc + envc) * 8 + s * 8 + plen) /\
  checked_add_u64 (72 + (argc + envc) * 8 + s * 8 + plen) strings = Some (72 + (argc + envc) * 8 + s * 8 + plen + strings).
Proof. intros. unfold checked_add_u64, checked_mul_u64. rewrite !checked_add_Some, !checked_mul_Some. lia. Qed.

Lemma launch_complete bytes path argv environment streams : bytes_ok bytes -> carries bytes (WLaunch path argv environment streams) ->
  parse_launch bytes (streams_of streams) = Ok (request_of path argv environment streams).
Proof.
  intros Hb Hc. destruct (carries_parts _ _ _ _ _ Hb Hc) as [[Ps Pt Pp Pstr Pr] Hhead]. destruct (c_ok _ _ Hc) as (Hp & Hfirst & Ha & He & Henv & Ht). pose proof (c_texts _ _ Hc) as Htext. cbn beta iota in Htext.
  pose proof (launch_bounds path argv environment streams ltac:(done)) as Hmax. pose proof (path_length path Hp) as [_ Hpl]. pose proof (lengths_nonneg (argv ++ environment)) as Hnn.
  assert (1 <= len argv) as Hone by (destruct argv; [done|cbn; lia]).
  destruct Hhead as (H0 & H1 & H2 & H3 & H4 & H5 & H6 & H7 & _). rewrite <-Ps in H0, Hmax.
  change (get_le 4 bytes 52 = Some (streams_of streams)) in H1. change (get_le 2 bytes 56 = Some (len path)) in H2. change (get_le 2 bytes 58 = Some (len argv)) in H3.
  change (get_le 2 bytes 60 = Some (len environment)) in H4. change (get_le 2 bytes 62 = Some (streams_of streams)) in H5.
  change (get_le 4 bytes 64 = Some (total (argv ++ environment))) in H6. change (get_le 4 bytes 68 = Some 0) in H7.
  unfold parse_launch, launch_size, MAX_LAUNCH_MESSAGE_BYTES, MAX_ARGV, MAX_ENVIRONMENT, MAX_STRING_BYTES, MAX_PATH_BYTES, RECORD_BYTES, STREAM_COUNT, LAUNCH_FIXED_BYTES in *.
  assert (0 <= streams_of streams <= 3) as Hst by (by destruct streams). rewrite length_app in *.
  rewrite (proj2 (Z.ltb_ge _ _)) by lia. unfold read_u32, read_u16, get_u32, get_u16. rewrite H0. cbn [ok_or res_bind]. rewrite Z.eqb_refl. cbn [negb].
  rewrite H1. cbn [ok_or res_bind]. unfold require_handles. rewrite Z.eqb_refl. cbn [res_bind]. rewrite H2, H3, H4, H5, H6, H7. cbn [ok_or res_bind Z.eqb negb].
  rewrite (proj2 (Z.leb_le 1 _)), (proj2 (Z.leb_le _ 64)) by lia. cbn [andb negb]. rewrite !(proj2 (Z.ltb_ge _ _)) by lia.
  assert (negb ((streams_of streams =? 0) || (streams_of streams =? 3)) || negb (streams_of streams =? streams_of streams) = false) as -> by (by destruct streams).
  destruct (launch_offsets (len argv) (len environment) (streams_of streams) (len path) (total (argv ++ environment))) as (-> & E2 & E3 & E4 & E5 & E6 & E7); [lia..|].
  cbn [ok_or res_bind]. rewrite E2. cbn [ok_or res_bind]. rewrite E3. cbn [ok_or res_bind]. rewrite E4. cbn [ok_or res_bind]. rewrite E5. cbn [ok_or res_bind].
  rewrite E6. cbn [ok_or res_bind]. rewrite E7. cbn [ok_or res_bind]. rewrite Ps. cbn [role_number].
  replace (72 + Z.of_nat (length argv + length environment) * 8) with (72 + (len argv + len environment) * 8) in * by lia. rewrite Z.eqb_refl. cbn [negb].
  assert ((if streams_of streams =? 3 then check_roles bytes (72 + (len argv + len environment) * 8) [1; 2; 3] else Ok tt) = Ok tt) as ->.
  { destruct streams; [|done]. by apply roles_complete, Pr. }
  cbn [res_bind]. unfold index_range. rewrite Pp. cbn [or_panic res_bind]. destruct (path_text path Hp) as [chars Hchars]. rewrite Hchars. cbn [ok_or res_bind].
  rewrite Hp. cbn [res_bind]. rewrite Pt. cbn [or_panic res_bind]. rewrite Ps in Pstr. rewrite Pstr. cbn [or_panic res_bind].
  pose proof (table_complete (argv ++ environment) Htext ltac:(lia)) as Hval. rewrite length_app, Nat2Z.inj_add in Hval. rewrite Hval. cbn [res_bind].
  destruct (table_split argv environment) as [S1 S2]. unfold RECORD_BYTES in S1, S2. rewrite S1, S2. cbn [or_panic res_bind].
  destruct (request_texts path argv environment streams (c_ok _ _ Hc) Htext 0 ltac:(lia)) as [Harg _]. unfold arg, request_of in Harg. cbn [rq_argv] in Harg. rewrite Harg. cbn [res_bind].
  assert (argv !! Z.to_nat 0 = Some path) as -> by (by destruct argv). rewrite bool_decide_true by done. cbn [negb].
  assert (forall i, 0 <= i -> records_get (rq_environment (request_of path argv environment streams)) i = Ok (environment !! Z.to_nat i)) as Hget.
  { intros i Hi. by destruct (request_texts path argv environment streams (c_ok _ _ Hc) Htext i Hi) as [_ ?]. }
  pose proof (proj2 (validate_environment_records_spec _ environment Hget eq_refl) Henv) as Hv. cbn [rq_environment request_of] in Hv. by rewrite Hv.
Qed.

(** ** Nothing else is accepted *)

(** The table is split where the arguments end. *)
Lemma take_args {A} (vs : list A) argc envc : 0 <= argc -> 0 <= envc -> len vs = argc + envc ->
  exists argv environment, vs = argv ++ environment /\ len argv = argc /\ len environment = envc.
Proof.
  intros Ha He Hl. exists (take (Z.to_nat argc) vs), (drop (Z.to_nat argc) vs). rewrite take_drop, length_take, length_drop. split; [done|]. lia.
Qed.

(** What the reader has seen is a message. *)
Lemma launch_assembled bytes path argv environment streams : bytes_ok bytes -> parts bytes path (argv ++ environment) streams ->
  reads bytes (launch_head path argv environment streams) 48 -> validate_path path = Ok tt -> len argv <= 64 -> len environment <= 64 ->
  total (argv ++ environment) <= 16 * 1024 -> Forall text_ok (argv ++ environment) ->
  records_get (rq_argv (request_of path argv environment streams)) 0 = Ok (Some path) ->
  validate_environment_records (rq_environment (request_of path argv environment streams)) = Ok tt ->
  carries bytes (WLaunch path argv environment streams).
Proof.
  intros Hb Hparts Hhead Hp Ha He Ht [Ta Te]%Forall_app Hfirst Henv. pose proof (lengths_nonneg argv). pose proof (lengths_nonneg environment). pose proof Ht as Ht'. rewrite total_app in Ht'.
  cbn [rq_argv rq_environment request_of] in *. rewrite join_app in Hfirst, Henv.
  pose proof (records_get_text 0 argv [] (mjoin environment) 0) as Hg. cbn [app] in Hg. rewrite Hg in Hfirst by (done || lia). injection Hfirst as Hfirst.
  apply (validate_environment_records_spec _ environment) in Henv; [| |done].
  - apply parts_carry; [done|done|done| |by apply Forall_app]. split_and!; try done. by destruct argv.
  - intros i Hi. pose proof (records_get_text (total argv) environment (mjoin argv) [] i) as H'. rewrite app_nil_r in H'. apply H'; try done. lia.
Qed.

Tactic Notation "enter" hyp(H) ident(x) ident(Hx) := apply res_bind_Ok in H as (x & Hx & H); cbv beta in H; try apply ok_or_Ok in Hx; try apply or_panic_Ok in Hx.
Ltac passes H E := match type of H with (if ?b then _ else _) = _ => destruct b eqn:E; [discriminate H|] end.
Lemma launch_sound bytes handles rq : bytes_ok bytes -> parse_launch bytes handles = Ok rq ->
  exists path argv environment streams, rq = request_of path argv environment streams /\ handles = streams_of streams /\
    carries bytes (WLaunch path argv environment streams).
Proof.
  intros Hb H. unfold parse_launch, read_u32, read_u16, get_u32, get_u16, index_range, require_handles in H.
  unfold LAUNCH_FIXED_BYTES, MAX_ARGV, MAX_ENVIRONMENT, MAX_STRING_BYTES, STREAM_COUNT, RECORD_BYTES in H. passes H Eroom. enter H size Hsize. passes H Esize. enter H declared Hdeclared.
  enter H u Hhandles. destruct (handles =? declared) eqn:Edecl; [|discriminate Hhandles]. clear u Hhandles. enter H plen Hplen. enter H argc Hargc. enter H envc Henvc.
  enter H sc Hsc. enter H sb Hsb. enter H x Hx. passes H Ex. passes H Eargc. passes H Eenvc. passes H Estreams. passes H Esb. bool_prop.
  assert (exists streams, sc = streams_of streams) as [streams ->] by (destruct H0 as [Es%Z.eqb_eq|Es%Z.eqb_eq]; [by exists false|by exists true]).
  pose proof (get_le_in_range _ _ _ _ Hb Hplen). pose proof (get_le_in_range _ _ _ _ Hb Henvc). pose proof (get_le_in_range _ _ _ _ Hb Hsb). cbn [Z.of_nat Pos.of_succ_nat Pos.succ] in *.
  destruct (launch_offsets argc envc (streams_of streams) plen sb) as (O1 & O2 & O3 & O4 & O5 & O6 & O7); [lia|lia|by destruct streams|lia|lia|].
  rewrite O1 in H. cbn [ok_or res_bind] in H. rewrite O2 in H. cbn [ok_or res_bind] in H. rewrite O3 in H. cbn [ok_or res_bind] in H. rewrite O4 in H. cbn [ok_or res_bind] in H.
  rewrite O5 in H. cbn [ok_or res_bind] in H. rewrite O6 in H. cbn [ok_or res_bind] in H. rewrite O7 in H. cbn [ok_or res_bind] in H. clear O1 O2 O3 O4 O5 O6 O7.
  passes H Eend. bool_prop. enter H u Hroles. enter H path Hpath. enter H chars Hchars. enter H u' Hvp. destruct u, u'. enter H table Htable. enter H strings Hstrings. enter H u Hval. destruct u.
  enter H ar Har. enter H er Her. enter H first Hfirst. passes H Efirst. bool_prop. enter H u Henv. destruct u. injection H as <-.
  pose proof (length_get_range _ _ _ _ Hpath) as Lp. pose proof (length_get_range _ _ _ _ Htable) as Lt. pose proof (length_get_range _ _ _ _ Hstrings) as Ls.
  destruct (table_sound table strings (argc + envc)) as (vs & Hvs & Htext & -> & ->); [by eapply range_bytes_ok|lia|unfold RECORD_BYTES; lia|lia|done|].
  destruct (take_args vs argc envc) as (argv & environment & -> & <- & <-); [lia..|].
  destruct (table_split argv environment) as [S1 S2]. unfold RECORD_BYTES in S1, S2. assert (ar = render (record_fields 0 argv)) as -> by congruence.
  assert (er = render (record_fields (total argv) environment)) as -> by congruence. clear S1 S2 Har Her.
  assert (plen = len path) as -> by lia. assert (sb = total (argv ++ environment)) as -> by (unfold total; lia).
  exists path, argv, environment, streams. split_and!; [done|congruence|].
  assert (len bytes = launch_size path (argv ++ environment) streams) as Hls by (unfold launch_size, LAUNCH_FIXED_BYTES, RECORD_BYTES; lia).
  apply (launch_assembled bytes path argv environment streams); try done; try congruence.
  - split; rewrite ?Hvs; try done. intros ->. by apply roles_sound.
  - rewrite Esize, Hls in Hsize. rewrite <-H1 in Hdeclared. rewrite Ex in Hx. cbn [launch_head reads]. by split_and!.
  - rewrite <-Efirst. exact Hfirst.
Qed.

(** ** No panic *)

Lemma check_roles_total roles : forall bytes offset, check_roles bytes offset roles <> Panic.
Proof. induction roles as [|role roles IH]; intros bytes offset; cbn [check_roles]; [done|]. unfold read_u32. no_panic. apply IH. Qed.
Lemma records_from_total table texts n : forall index offset, 0 <= index -> (index + Z.of_nat n) * RECORD_BYTES <= len table -> records_from table texts index offset n <> Panic.
Proof.
  unfold RECORD_BYTES. induction n as [|n IH]; intros index offset Hi Hl; cbn [records_from]; [done|]. unfold index_range, RECORD_BYTES. no_panic; [lia|]. apply IH; lia.
Qed.
Lemma validate_records_total table texts count : 0 <= count -> count * RECORD_BYTES <= len table -> validate_records table texts count <> Panic.
Proof. intros Hc Hl. unfold validate_records. apply res_bind_not_panic; [|intros finish _; by destruct (negb _)]. apply records_from_total; lia. Qed.

Tactic Notation "go" ident(x) ident(Hx) := apply res_bind_not_panic; [try apply ok_or_not_panic|intros x Hx; try apply ok_or_Ok in Hx; try apply or_panic_Ok in Hx].
Ltac beyond E := match goal with |- (if ?b then _ else _) <> Panic => destruct b eqn:E; [discriminate|] end.
Lemma launch_total bytes handles : bytes_ok bytes -> parse_launch bytes handles <> Panic.
Proof.
  intros Hb. unfold parse_launch, read_u32, read_u16, get_u32, get_u16, index_range.
  unfold LAUNCH_FIXED_BYTES, MAX_ARGV, MAX_ENVIRONMENT, MAX_STRING_BYTES, STREAM_COUNT, RECORD_BYTES. beyond Eroom. go sz Hsz. beyond Esize. go declared Hdeclared.
  go u Hu; [unfold require_handles; destruct (handles =? declared); discriminate|]. go plen Hplen. go argc Hargc. go envc Henvc. go sc Hsc. go sb Hsb. go x Hx.
  beyond Ex. beyond Eargc. beyond Eenvc. beyond Estreams. beyond Esb.
  assert (0 <= sc <= 3) as Hsc3 by (clear -Estreams; destruct (Z.eqb_spec sc 0), (Z.eqb_spec sc 3); first [lia|discriminate Estreams]). clear Estreams. bool_prop.
  pose proof (get_le_in_range _ _ _ _ Hb Hplen). pose proof (get_le_in_range _ _ _ _ Hb Henvc). pose proof (get_le_in_range _ _ _ _ Hb Hsb).
  destruct (launch_offsets argc envc sc plen sb) as (-> & O2 & O3 & O4 & O5 & O6 & O7); [lia|lia|lia|lia|lia|].
  cbn [ok_or res_bind]. rewrite O2. cbn [ok_or res_bind]. rewrite O3. cbn [ok_or res_bind]. rewrite O4. cbn [ok_or res_bind]. rewrite O5. cbn [ok_or res_bind].
  rewrite O6. cbn [ok_or res_bind]. rewrite O7. cbn [ok_or res_bind]. beyond Eend. apply negb_false_iff, Z.eqb_eq in Eend. clear O2 O3 O4 O5 O6 O7.
  go u' Hroles; [destruct (sc =? 3); [apply check_roles_total|done]|]. go pth Hpath; [apply or_panic_not_panic, get_range_is_Some; lia|]. go chars Hchars. go u2 Hvp; [apply validate_path_total|].
  go table Htable; [apply or_panic_not_panic, get_range_is_Some; lia|]. go texts Htexts; [apply or_panic_not_panic, get_range_is_Some; lia|].
  pose proof (length_get_range _ _ _ _ Htable) as Lt. pose proof (length_get_range _ _ _ _ Htexts) as Ls.
  go u3 Hval; [apply validate_records_total; unfold RECORD_BYTES; lia|]. destruct u3.
  destruct (table_sound table texts (argc + envc)) as (vs & Hvs & Htext & -> & ->); [by eapply range_bytes_ok|lia|unfold RECORD_BYTES; lia|lia|done|].
  destruct (take_args vs argc envc) as (argv & env & -> & <- & <-); [lia..|]. destruct (table_split argv env) as [S1 S2]. unfold RECORD_BYTES in S1, S2. rewrite S1, S2. cbn [or_panic res_bind].
  apply Forall_app in Htext as [Ta Te]. assert (total argv + total env <= 16384) as Ht by (rewrite <-total_app; unfold total; lia). pose proof (lengths_nonneg argv). pose proof (lengths_nonneg env).
  rewrite join_app. pose proof (records_get_text 0 argv [] (mjoin env) 0) as Hg. cbn [app] in Hg. rewrite Hg by (done || lia). cbn [res_bind].
  destruct (negb _); [done|]. apply res_bind_not_panic; [|done]. apply (environment_records_total _ env); [|done].
  intros i Hi. pose proof (records_get_text (total argv) env (mjoin argv) [] i) as H'. rewrite app_nil_r in H'. apply H'; try done. lia.
Qed.

Lemma check_jobs_total ids n : forall index, check_jobs ids index n <> Panic.
Proof.
  induction n as [|n IH]; intros index; cbn [check_jobs]; [done|]. apply res_bind_not_panic; [apply ok_or_not_panic|intros id _].
  apply res_bind_not_panic; [apply nonzero_not_panic|intros _ _]. apply IH.
Qed.
Lemma job_list_total bytes handles : parse_job_list bytes handles <> Panic.
Proof.
  unfold parse_job_list, require_handles, read_u32, index_range. no_panic; try apply check_jobs_total. all: bool_prop; lia.
Qed.
Lemma parse_message_total bytes handles : bytes_ok bytes -> parse_message bytes handles <> Panic.
Proof.
  intros Hb. unfold parse_message, parse_envelope. destruct (_ <? _); [done|]. go r Hr; [apply envelope_total|]. unfold read_u32 at 1. go kind Hkind.
  go t Ht; [unfold parse_type; by repeat case_match|]. unfold read_u32 at 1. go x Hx. beyond Ex. cbv zeta. apply res_bind_not_panic; [|done].
  destruct t; unfold parse_job_id, require_handles, require_size, read_u32, read_u64, nonzero, parse_cleanup_result, parse_phase, parse_classification, parse_code.
  1: { apply res_bind_not_panic; [by apply launch_total|done]. }
  9: { apply res_bind_not_panic; [apply job_list_total|done]. }
  all: no_panic; by repeat case_match.
Qed.
