(* ===== verification/JobProtoThms.v ===== *)
(** * WRLJ: what its two ends can rely on, and the reply to the shell's launch that cannot be read *)

From stdpp Require Import base tactics option list list_numbers.
From Stdlib Require Import ZArith Lia.
From S2P Require Import Prelude Bytes Utf8 Layout JobProto JobWriteThms JobReadThms.

Import JobProto.

(** ** Messages *)

Lemma carries_layout bytes r w : bytes_ok bytes -> reads bytes (prefix_fields r MINOR (type_number (kind_of w))) 0 -> carries bytes w ->
  proper r w /\ bytes = render (layout r w).
Proof.
  intros Hb Hp Hc. destruct (reads_sound bytes (layout r w)) as [Hok ->]; [done| | |].
  - apply Nat2Z.inj. rewrite layout_fits. apply (c_size _ _ Hc).
  - unfold layout. apply reads_app. split; [done|]. apply (c_reads _ _ Hc).
  - split; [|done]. split; [done|]. apply (c_texts _ _ Hc).
Qed.
Lemma layout_carries r w : sent r w -> bytes_ok (render (layout r w)) /\ reads (render (layout r w)) (prefix_fields r MINOR (type_number (kind_of w))) 0 /\
  carries (render (layout r w)) w.
Proof.
  intros (_ & Hw & Hok & Ht). pose proof (render_reads _ Hok) as [Hp Hr]%reads_app. split_and!; [by apply render_bytes_ok|done|].
  split; [done|done| |done]. by rewrite length_render, layout_fits.
Qed.

Lemma body_sound kind bytes handles m : bytes_ok bytes -> parse_body kind bytes handles = Ok m ->
  exists w, kind_of w = kind /\ view w = m /\ handles_of w = handles /\ carries bytes w.
Proof.
  intros Hb H. destruct (fixed_kind kind) eqn:Hf; [by eapply fixed_sound|]. destruct kind; try discriminate Hf; cbn [parse_body] in H.
  - apply res_bind_Ok in H as (rq & Hrq & [= <-]). destruct (launch_sound _ _ _ Hb Hrq) as (path & argv & env & streams & -> & -> & Hc). by exists (WLaunch path argv env streams).
  - apply res_bind_Ok in H as (ids & Hids & [= <-]). destruct (job_list_sound _ _ _ Hb Hids) as (js & -> & -> & Hc). by exists (WJobs js).
Qed.
Lemma body_complete bytes w : bytes_ok bytes -> carries bytes w -> parse_body (kind_of w) bytes (handles_of w) = Ok (view w).
Proof.
  intros Hb Hc. destruct w as [path argv env streams| | | | |ids|]; try by apply fixed_complete.
  - cbn [parse_body kind_of handles_of view]. by rewrite (launch_complete _ _ _ _ _ Hb Hc).
  - cbn [parse_body kind_of handles_of view]. by rewrite (job_list_complete _ _ Hb Hc).
Qed.

Lemma message_sound bytes handles pm : bytes_ok bytes -> parse_message bytes handles = Ok pm ->
  exists r w, sent r w /\ handles = handles_of w /\ bytes = render (layout r w) /\ pm = mkParsed r (view w).
Proof.
  intros Hb (r & kind & m & _ & Hr & Hp & Hbody & ->)%parse_message_Ok. destruct (body_sound _ _ _ _ Hb Hbody) as (w & <- & <- & <- & Hc).
  destruct (carries_layout bytes r w Hb Hp Hc) as [Hprop Hbytes]. exists r, w. split_and!; [|done..]. by split_and!; [|apply (c_ok _ _ Hc)|].
Qed.
Lemma message_complete r w : sent r w -> parse_message (render (layout r w)) (handles_of w) = Ok (mkParsed r (view w)).
Proof.
  intros Hs. destruct (layout_carries r w Hs) as (Hb & Hp & Hc). apply parse_message_Ok. exists r, (kind_of w), (view w).
  split_and!; [|apply Hs|done|by apply body_complete|done]. rewrite length_render, layout_fits. destruct w as [path argv env streams| | | | |ids|]; cbn [wire_size]; try (unfold HEADER_BYTES, ENVELOPE_BYTES, PREFIX_BYTES; lia).
  unfold launch_size, LAUNCH_FIXED_BYTES, RECORD_BYTES, streams_of. pose proof (lengths_nonneg (argv ++ env)). destruct streams; lia.
Qed.

(** The job numbers of a list. *)
Lemma view_ids ids i : Forall field_ok (Int 8 <$> ids) -> len ids <= MAX_LIVE_JOBS -> 0 <= i < len ids -> ids_get (render (Int 8 <$> ids)) i = ids !! Z.to_nat i.
Proof.
  intros Hok Hl Hi. destruct (lookup_lt_is_Some_2 ids (Z.to_nat i)) as [j Hj]; [lia|]. rewrite Hj. apply list_elem_of_split_length in Hj as (a & b & -> & Hlen).
  unfold ids_get, checked_mul_u64, MAX_LIVE_JOBS in *. rewrite (proj2 (checked_mul_Some _ _ _ (i * 8))) by lia. cbn [mbind option_bind].
  pose proof (render_reads _ Hok) as Hr. rewrite fmap_app, fmap_cons in Hr. apply reads_app in Hr as [_ [Hr _]]. rewrite size_ids in Hr.
  replace (0 + Z.of_nat (8 * length a)) with (i * 8) in Hr by lia. by rewrite fmap_app, fmap_cons.
Qed.

(** C20: whatever buffer it gets, a writer of the launch protocol writes the one layout of an acceptable message, leaves the rest of the buffer alone and refuses everything else; the reader accepts exactly those bytes, with exactly the handles they announce, never panics, and gives back the path, arguments, environment and job numbers that were sent. *)
Theorem job_protocol_exact :
  (forall r w out,
    match encode_wire r w out with
    | Ok (n, o) => accepted r w out /\ n = wire_size w /\ o = render (layout r w) ++ drop (Z.to_nat n) out
    | Err _ => ~ accepted r w out
    | Panic => False
    end) /\
  (forall bytes handles pm, bytes_ok bytes ->
    parse_message bytes handles = Ok pm <->
    exists r w, sent r w /\ handles = handles_of w /\ bytes = render (layout r w) /\ pm = mkParsed r (view w)) /\
  (forall bytes handles, bytes_ok bytes -> parse_message bytes handles <> Panic) /\
  (forall r path argv env streams i, sent r (WLaunch path argv env streams) -> 0 <= i ->
    arg (request_of path argv env streams) i = Ok (argv !! Z.to_nat i) /\
    environment (request_of path argv env streams) i = Ok (env !! Z.to_nat i)) /\
  (forall r ids i, sent r (WJobs ids) -> 0 <= i < len ids -> ids_get (render (Int 8 <$> ids)) i = ids !! Z.to_nat i).
Proof.
  split_and!.
  - apply wire_encode_cases.
  - intros bytes handles pm Hb. split; [by apply message_sound|]. intros (r & w & Hs & -> & -> & ->). by apply message_complete.
  - intros bytes handles Hb. by apply parse_message_total.
  - intros r path argv env streams i (_ & Hok & _ & Ht) Hi. by apply request_texts.
  - intros r ids i (_ & [Hl _] & Hok & _) Hi. apply view_ids; [|done|done]. unfold layout in Hok. apply Forall_app in Hok as [_ Hok]. by apply Forall_app in Hok as [_ Hok].
Qed.

(** [bin/cat] with one argument, one variable and its streams. *)
Definition sample_reservation : Reservation := mkReservation 1 2 3.
Definition sample_path : list Z := [98; 105; 110; 47; 99; 97; 116].
Definition sample_launch : Wire := WLaunch sample_path [sample_path; [120]] [[65; 61; 49]] true.
Lemma sample_sent : sent sample_reservation sample_launch.
Proof.
  split; [done|]. split; [|split; [vm_compute; repeat constructor; discriminate|repeat constructor; by eexists]].
  cbn [wire_ok sample_launch]. unfold launch_ok. split_and!; try done.
  exists [[65]]. split; [by repeat constructor|apply NoDup_singleton].
Qed.
Lemma job_protocol_exact_witness :
  sent sample_reservation sample_launch /\
  parse_message (render (layout sample_reservation sample_launch)) 3 = Ok (mkParsed sample_reservation (view sample_launch)) /\
  arg (request_of sample_path [sample_path; [120]] [[65; 61; 49]] true) 1 = Ok (Some [120]).
Proof.
  split; [exact sample_sent|]. split.
  - apply (proj1 (proj2 job_protocol_exact)); [apply render_bytes_ok; apply sample_sent|]. exists sample_reservation, sample_launch. split_and!; [exact sample_sent|reflexivity..].
  - apply (proj1 (proj2 (proj2 (proj2 job_protocol_exact))) sample_reservation sample_path [sample_path; [120]] [[65; 61; 49]] true 1); [exact sample_sent|lia].
Defined.

(** * WRLJ: the shell's own launch, and the reply the shell cannot read *)


(** ** The shell's launch *)

Definition role_fields (roles : list Z) : list field := role ← roles; [Int 4 role; Int 4 0].
Definition shell_request_layout (r : Reservation) (q : ShellV1Request) : list field :=
  prefix_fields r SHELL_V1_MINOR SHELL_V1_MESSAGE_TYPE ++
    [Int 8 (console_generation q); Int 8 (status_generation q); Int 8 (requested_child_generation q); Int 2 13; Int 2 2; Int 2 2; Int 2 0] ++
    role_fields [1; 2; 3; 4] ++ [Raw SHELL_V1_PATH; Raw [0; 0; 0]].
Definition shell_request_ok (q : ShellV1Request) : Prop := console_generation q <> 0 /\ status_generation q <> 0 /\ requested_child_generation q <> 0.
Definition reply_kind (reply : ShellV1Reply) : Z := type_number (match reply with ShellAccepted _ => TLaunchAccepted | ShellError _ => TError end).
Definition reply_value (reply : ShellV1Reply) : Z := match reply with ShellAccepted job_id => job_id | ShellError code => code_number code end.
Definition reply_ok (reply : ShellV1Reply) : Prop := match reply with ShellAccepted job_id => job_id <> 0 | ShellError _ => True end.
Definition shell_reply_layout (r : Reservation) (reply : ShellV1Reply) : list field := prefix_fields r SHELL_V1_MINOR (reply_kind reply) ++ [Int 8 (reply_value reply)].
(** The writer of each reply. *)
Definition encode_reply (r : Reservation) (reply : ShellV1Reply) (out : list Z) : result (Z * list Z) :=
  match reply with ShellAccepted job_id => encode_shell_v1_accepted r job_id out | ShellError code => encode_shell_v1_error r code out end.

(** ** Writing *)

Lemma shell_request_written r q out : reservation_ok r -> shell_request_ok q -> 128 <= len out ->
  encode_shell_v1_request r q out = Ok (128, render (shell_request_layout r q) ++ drop 128 out).
Proof.
  intros Hr%reservation_tests (H1 & H2 & H3) Ho. unfold encode_shell_v1_request, SHELL_V1_REQUEST_BYTES. rewrite !nonzero_Ok by done. cbn [res_bind]. rewrite (proj2 (Z.ltb_ge _ _)) by done.
  apply written_front; [frame_to|done| |done]. unfold encode_prefix_version, encode_envelope_version. rewrite Hr. clear. cbv -[Z.modulo Z.div]. reflexivity.
Qed.
Lemma reply_writer r reply out : reply_ok reply -> encode_reply r reply out = encode_shell_v1_reply r (reply_kind reply) (reply_value reply) out.
Proof. intros Hok. destruct reply as [job_id|code]; [|done]. cbn [encode_reply]. unfold encode_shell_v1_accepted. by rewrite nonzero_Ok. Qed.
Lemma shell_reply_written r reply out : reservation_ok r -> reply_ok reply -> 56 <= len out ->
  encode_reply r reply out = Ok (56, render (shell_reply_layout r reply) ++ drop 56 out).
Proof.
  intros Hr%reservation_tests Hok Ho. rewrite reply_writer by done.
  unfold encode_shell_v1_reply, SHELL_V1_REPLY_BYTES. rewrite (proj2 (Z.ltb_ge _ _)) by done.
  apply written_front; [frame_to|done| |done]. unfold encode_prefix_version, encode_envelope_version, shell_reply_layout. rewrite Hr.
  generalize (reply_kind reply), (reply_value reply). clear. intros k v. cbv -[Z.modulo Z.div]. reflexivity.
Qed.

(** ** Reading the request *)

Lemma roles_read bytes roles : forall offset, check_roles bytes offset roles = Ok tt <-> reads bytes (role_fields roles) offset.
Proof.
  induction roles as [|role roles IH]; intros offset; [done|]. cbn [check_roles role_fields mbind list_bind app reads width]. unfold read_u32, get_u32.
  change (Z.of_nat 4) with 4. unfold RECORD_BYTES. split.
  - intros H. repeat res_step. bool_prop. subst. split_and!; [done|done|]. replace (offset + 4 + 4) with (offset + 8) by lia. by apply IH.
  - intros (-> & -> & Hr). cbn [ok_or res_bind]. rewrite Z.eqb_refl. cbn. apply IH. by replace (offset + 8) with (offset + 4 + 4) by lia.
Qed.
Lemma roles_total bytes roles : forall offset, check_roles bytes offset roles <> Panic.
Proof.
  induction roles as [|role roles IH]; intros offset; [done|]. cbn [check_roles]. unfold read_u32. destruct (get_u32 bytes offset); [|done]. cbn [ok_or res_bind].
  destruct (negb _); [done|]. destruct (get_u32 bytes (offset + 4)); [|done]. cbn [ok_or res_bind]. by destruct (negb _).
Qed.
Lemma all_zero l : existsb (fun b => negb (b =? 0)) l = false <-> l = replicate (length l) 0.
Proof.
  induction l as [|x l IH]; [done|]. cbn [existsb length replicate]. rewrite orb_false_iff, IH, negb_false_iff, Z.eqb_eq.
  split; [intros [-> H]; by f_equal|intros H; by injection H].
Qed.

Lemma shell_request_sound bytes handles p : bytes_ok bytes -> parse_shell_v1_request bytes handles = Ok p ->
  exists r q, p = mkParsedShellRequest r q /\ handles = 4 /\ reservation_ok r /\ shell_request_ok q /\ Forall field_ok (shell_request_layout r q) /\
    bytes = render (shell_request_layout r q).
Proof.
  intros Hb H. unfold parse_shell_v1_request, require_size, require_handles, read_u16, read_u32, read_u64, get_u16, get_u32, get_u64, index_range, SHELL_V1_REQUEST_BYTES, SHELL_V1_HANDLE_COUNT in H.
  repeat res_step. bool_prop. subst. destruct a14. destruct (envelope_sound _ _ _ ltac:(eassumption)) as [Hr Henv].
  repeat match goal with H : nonzero _ = Ok _ |- _ => apply nonzero_needs in H as [? ->] end. eexists _, _. split; [done|]. split; [done|]. split; [done|]. split; [done|].
  apply reads_sound; [done|by apply Nat2Z.inj|]. unfold shell_request_layout, prefix_fields. rewrite <-!(assoc_L (++)).
  apply reads_app. split; [done|]. apply reads_app. split; [by split_and!|]. apply reads_app. split; [by split_and!|]. apply reads_app. split; [by apply roles_read|].
  split; [done|]. split; [|done]. apply all_zero in E3. apply length_get_range in H17 as Hl. rewrite E5 in H17. rewrite E3 in H17.
  replace (length a16) with 3%nat in H17 by (change (len SHELL_V1_PATH) with 13 in Hl; lia). exact H17.
Qed.

Lemma shell_request_complete r q : reservation_ok r -> shell_request_ok q -> Forall field_ok (shell_request_layout r q) ->
  parse_shell_v1_request (render (shell_request_layout r q)) 4 = Ok (mkParsedShellRequest r q).
Proof.
  intros Hr (H1 & H2 & H3) Hok. pose proof (length_render (shell_request_layout r q)) as Hl. change (size (shell_request_layout r q)) with 128%nat in Hl.
  pose proof (render_reads _ Hok) as Hreads. revert Hl Hreads. generalize (render (shell_request_layout r q)). clear Hok. intros bytes Hl Hreads.
  unfold shell_request_layout, prefix_fields in Hreads. rewrite <-!(assoc_L (++)) in Hreads.
  apply reads_app in Hreads as [Henv Hreads]. apply reads_app in Hreads as [(Hkind & Hflags & _) Hreads].
  apply reads_app in Hreads as [(Hc & Hs & Hg & Hn & Ha & Hp & Hz & _) Hreads]. apply reads_app in Hreads as [Hroles (Hpath & Hrest & _)].
  unfold parse_shell_v1_request, require_size, require_handles, read_u16, read_u32, read_u64, get_u16, get_u32, get_u64, index_range, SHELL_V1_REQUEST_BYTES, SHELL_V1_HANDLE_COUNT.
  rewrite Hl. change (Z.of_nat 128) with 128. cbn [Z.eqb Pos.eqb negb res_bind]. rewrite (envelope_complete _ _ r) by (done || lia). cbn [res_bind].
  repeat (known_read || (rewrite nonzero_Ok by done) || rewrite Z.eqb_refl || (progress cbn [negb res_bind orb])).
  change (negb (13 =? len SHELL_V1_PATH) || negb (2 =? SHELL_V1_STARTUP_ABI) || negb (2 =? SHELL_V1_POLICY_PROFILE) || negb (0 =? 0)) with false. cbn iota.
  rewrite (proj2 (roles_read bytes [1; 2; 3; 4] 80)) by exact Hroles. cbn [res_bind].
  rewrite (Hpath : get_range bytes 112 (112 + len SHELL_V1_PATH) = _). cbn [or_panic res_bind]. rewrite bool_decide_true by done. cbn [negb].
  rewrite (Hrest : get_range bytes (112 + len SHELL_V1_PATH) 128 = _). cbn. by destruct q.
Qed.

Lemma shell_request_total bytes handles : parse_shell_v1_request bytes handles <> Panic.
Proof.
  unfold parse_shell_v1_request, require_size, SHELL_V1_REQUEST_BYTES. destruct (Z.eqb_spec (len bytes) 128) as [Hl|]; [|done]. cbn [negb res_bind].
  unfold require_handles, read_u16, read_u32, read_u64, get_u16, get_u32, get_u64, index_range.
  pose proof (envelope_total bytes SHELL_V1_MINOR). pose proof (roles_total bytes [1; 2; 3; 4] 80). no_panic.
  1, 5: done. 1-3: by apply nonzero_not_panic. all: change (len SHELL_V1_PATH) with 13; lia.
Qed.

(** ** Reading the reply *)

Lemma of_le_app l1 l2 : of_le (l1 ++ l2) = of_le l1 + 2 ^ (8 * len l1) * of_le l2.
Proof.
  induction l1 as [|x l1 IH]; [change (2 ^ (8 * len [])) with 1; cbn [app of_le]; lia|]. cbn [app of_le]. rewrite IH. cbn [length].
  replace (8 * Z.of_nat (S (length l1))) with (8 + 8 * len l1) by lia. rewrite Z.pow_add_r by lia. lia.
Qed.
(** The two halves of a 64-bit field. *)
Lemma halves bs a v : bytes_ok bs -> get_le 8 bs a = Some v -> get_le 4 bs a = Some (v mod 2 ^ 32) /\ get_le 4 bs (a + 4) = Some (v / 2 ^ 32).
Proof.
  intros Hb H. apply fmap_Some in H as (x & Hx & ->). destruct (get_range_split _ _ (a + 4) _ _ Hx) as (l & h & Hlow & Hhigh & ->); [lia|].
  pose proof (of_le_bound l (range_bytes_ok _ _ _ _ Hb Hlow)) as Hbound. pose proof (length_get_range _ _ _ _ Hlow) as Hl. rewrite of_le_app.
  replace (len l) with 4 in * by lia. change (2 ^ (8 * 4)) with (2 ^ 32) in *. rewrite (Z.mul_comm (2 ^ 32)), Z_mod_plus_full, Z_div_plus_full by lia.
  rewrite Z.mod_small, Z.div_small, Z.add_0_l by lia. unfold get_le. change (Z.of_nat 4) with 4. rewrite Hlow. split; [done|]. replace (a + 4 + 4) with (a + Z.of_nat 8) by lia. by rewrite Hhigh.
Qed.

Lemma shell_reply_read r reply : reservation_ok r -> reply_ok reply -> Forall field_ok (shell_reply_layout r reply) ->
  parse_shell_v1_reply (render (shell_reply_layout r reply)) 0 = if reply_value reply <? 2 ^ 32 then Ok (mkParsedShellReply r reply) else Err NonzeroReserved.
Proof.
  intros Hr Hv Hok. pose proof (length_render (shell_reply_layout r reply)) as Hl. change (size (shell_reply_layout r reply)) with 56%nat in Hl.
  pose proof (render_reads _ Hok) as Hreads. pose proof (render_bytes_ok _ Hok) as Hb. revert Hl Hreads Hb. generalize (render (shell_reply_layout r reply)). clear Hok. intros bytes Hl Hreads Hb.
  unfold shell_reply_layout, prefix_fields in Hreads. rewrite <-!(assoc_L (++)) in Hreads.
  apply reads_app in Hreads as [Henv Hreads]. destruct Hreads as (Hkind & Hflags & Hvalue & _).
  change (get_le 8 bytes 48 = Some (reply_value reply)) in Hvalue. destruct (halves _ _ _ Hb Hvalue) as [Hlow Hhigh]. pose proof (get_le_in_range _ _ _ _ Hb Hvalue) as Hbound.
  change (48 + 4) with 52 in Hhigh. unfold parse_shell_v1_reply, require_size, require_handles, read_u32, read_u64, get_u32, get_u64, SHELL_V1_REPLY_BYTES.
  rewrite Hl. change (Z.of_nat 56) with 56. cbn [Z.eqb Pos.eqb negb res_bind]. rewrite (envelope_complete _ _ r) by (done || lia). cbn [res_bind].
  known_read. cbn [Z.eqb negb]. known_read. destruct (Z.ltb_spec (reply_value reply) (2 ^ 32)).
  - rewrite Z.div_small by lia. cbn [Z.eqb negb]. rewrite Z.mod_small in Hlow by lia. known_read. destruct reply as [job_id|code]; cbn [reply_kind reply_value] in *.
    + rewrite Z.eqb_refl, Hvalue. cbn [ok_or res_bind]. by rewrite nonzero_Ok.
    + cbn. rewrite Hlow. cbn [ok_or res_bind]. by rewrite (proj2 (job_code_Ok _ code)).
  - rewrite (proj2 (Z.eqb_neq _ _)); [done|]. intros H0. apply Z.div_small_iff in H0; lia.
Qed.
Lemma shell_reply_sound bytes handles p : bytes_ok bytes -> parse_shell_v1_reply bytes handles = Ok p ->
  exists r reply, p = mkParsedShellReply r reply /\ handles = 0 /\ reservation_ok r /\ reply_ok reply /\ reply_value reply < 2 ^ 32 /\
    Forall field_ok (shell_reply_layout r reply) /\ bytes = render (shell_reply_layout r reply).
Proof.
  intros Hb H. unfold parse_shell_v1_reply, require_size, require_handles, read_u32, read_u64, get_u32, get_u64, SHELL_V1_REPLY_BYTES in H.
  destruct (Z.eqb_spec (len bytes) 56) as [Hl|]; [|discriminate]. destruct (Z.eqb_spec handles 0) as [->|]; [|discriminate]. cbn [res_bind] in H.
  destruct (parse_envelope_version bytes SHELL_V1_MINOR) as [r| |] eqn:He; [|discriminate..]. destruct (envelope_sound _ _ _ He) as [Hr Henv]. cbn [res_bind] in H.
  destruct (get_le 4 bytes 44) as [f|] eqn:Hf; [|discriminate]. cbn [ok_or res_bind] in H. destruct (Z.eqb_spec f 0) as [->|]; [|discriminate]. cbn [negb] in H.
  destruct (proj2 (get_le_is_Some 8 bytes 48) ltac:(lia)) as [v Hv].
  destruct (halves _ _ _ Hb Hv) as [Hlow Hhigh]. pose proof (get_le_in_range _ _ _ _ Hb Hv) as Hbound. change (48 + 4) with 52 in Hhigh. rewrite Hhigh, Hlow, Hv in H. cbn [ok_or res_bind] in H.
  destruct (Z.eqb_spec (v / 2 ^ 32) 0) as [Hz|]; [|discriminate]. cbn [negb] in H. apply Z.div_small_iff in Hz as [Hz|]; [|lia..]. rewrite Z.mod_small in H by lia.
  destruct (get_le 4 bytes 40) as [k|] eqn:Hk; [|discriminate]. cbn [ok_or res_bind] in H.
  assert (forall reply, reply_kind reply = k -> reply_value reply = v -> Forall field_ok (shell_reply_layout r reply) /\ bytes = render (shell_reply_layout r reply)) as Hwhole.
  { intros reply <- <-. apply reads_sound; [done|by apply Nat2Z.inj|]. unfold shell_reply_layout, prefix_fields. rewrite <-!(assoc_L (++)). apply reads_app. by split_and!. }
  destruct (Z.eqb_spec k (type_number TLaunchAccepted)) as [->|]; [|destruct (Z.eqb_spec k (type_number TError)) as [->|]; [|discriminate]].
  - apply res_bind_Ok in H as (y & (j & [Hj ->]%nonzero_needs & [= <-])%res_bind_Ok & [= <-]). destruct (Hwhole (ShellAccepted v) eq_refl eq_refl) as [? ->].
    exists r, (ShellAccepted v). by split_and!; [| | | |apply Hz| |].
  - apply res_bind_Ok in H as (y & (c & ->%job_code_Ok & [= <-])%res_bind_Ok & [= <-]). destruct (Hwhole (ShellError c) eq_refl eq_refl) as [? ->].
    exists r, (ShellError c). by split_and!; [| | | |apply Hz| |].
Qed.
Lemma shell_reply_total bytes handles : parse_shell_v1_reply bytes handles <> Panic.
Proof.
  unfold parse_shell_v1_reply, require_size, require_handles, read_u32, read_u64, get_u32, get_u64. pose proof (envelope_total bytes SHELL_V1_MINOR).
  no_panic; try done; [apply nonzero_not_panic|unfold parse_code; by repeat case_match].
Qed.

(** ** What the writers refuse *)

Lemma reservation_decided r : reservation_ok r \/ ~ reservation_ok r.
Proof. unfold reservation_ok. lia. Qed.
Lemma prefix_refused r minor kind out : ~ reservation_ok r -> exists e, encode_prefix_version r minor kind out = Err e.
Proof.
  intros Hr. destruct (encode_prefix_version r minor kind out) as [w|e|] eqn:H; [|by exists e|by apply prefix_not_panic in H]. by apply prefix_needs in H.
Qed.
Definition request_accepted (r : Reservation) (q : ShellV1Request) (out : list Z) : Prop := reservation_ok r /\ shell_request_ok q /\ 128 <= len out.
Definition reply_accepted (r : Reservation) (reply : ShellV1Reply) (out : list Z) : Prop := reservation_ok r /\ reply_ok reply /\ 56 <= len out.

Lemma request_cases r q out :
  match encode_shell_v1_request r q out with
  | Ok (n, o) => request_accepted r q out /\ n = 128 /\ o = render (shell_request_layout r q) ++ drop 128 out
  | Err _ => ~ request_accepted r q out
  | Panic => False
  end.
Proof.
  destruct (decide (console_generation q <> 0 /\ status_generation q <> 0 /\ requested_child_generation q <> 0)) as [Hq|Hq].
  2: { assert (exists e, encode_shell_v1_request r q out = Err e) as [e ->]; [|intros (_ & H & _); by apply Hq].
    unfold encode_shell_v1_request, nonzero. destruct (Z.eqb_spec (console_generation q) 0), (Z.eqb_spec (status_generation q) 0), (Z.eqb_spec (requested_child_generation q) 0); try by eexists. by destruct Hq. }
  destruct (Z.le_decidable 128 (len out)) as [Ho|Ho]; [destruct (reservation_decided r) as [Hr|Hr]; [by rewrite shell_request_written|]|].
  all: assert (exists e, encode_shell_v1_request r q out = Err e) as [e ->]; [|by intros (? & _ & ?)].
  all: destruct Hq as (? & ? & ?); unfold encode_shell_v1_request, SHELL_V1_REQUEST_BYTES; rewrite !nonzero_Ok by done; cbn [res_bind].
  - rewrite (proj2 (Z.ltb_ge _ _)) by done. destruct (fill_room 128 out) as (w & -> & _); [done|]. cbn [res_bind]. destruct (prefix_refused r SHELL_V1_MINOR SHELL_V1_MESSAGE_TYPE w Hr) as [e ->]. by eexists.
  - rewrite (proj2 (Z.ltb_lt _ _)) by lia. by eexists.
Qed.
Lemma reply_cases r reply out :
  match encode_reply r reply out with
  | Ok (n, o) => reply_accepted r reply out /\ n = 56 /\ o = render (shell_reply_layout r reply) ++ drop 56 out
  | Err _ => ~ reply_accepted r reply out
  | Panic => False
  end.
Proof.
  destruct (decide (reply_value reply = 0)) as [Hz|Hz].
  { destruct reply as [job_id|code]; [|by destruct code]. cbn [reply_value] in Hz. subst. cbn. by intros (_ & H & _). }
  assert (reply_ok reply) as Hok by (by destruct reply).
  pose proof (reply_writer r reply out Hok) as Hsame.
  destruct (Z.le_decidable 56 (len out)) as [Ho|Ho]; [destruct (reservation_decided r) as [Hr|Hr]; [by rewrite shell_reply_written|]|].
  all: assert (exists e, encode_reply r reply out = Err e) as [e ->]; [rewrite Hsame; unfold encode_shell_v1_reply, SHELL_V1_REPLY_BYTES|by intros (? & _ & ?)].
  - rewrite (proj2 (Z.ltb_ge _ _)) by done. destruct (fill_room 56 out) as (w & -> & _); [done|]. cbn [res_bind]. destruct (prefix_refused r SHELL_V1_MINOR (reply_kind reply) w Hr) as [e ->]. by eexists.
  - rewrite (proj2 (Z.ltb_lt _ _)) by lia. by eexists.
Qed.

(** ** The two ends *)

Definition request_sent (r : Reservation) (q : ShellV1Request) : Prop := reservation_ok r /\ shell_request_ok q /\ Forall field_ok (shell_request_layout r q).
Definition reply_sent (r : Reservation) (reply : ShellV1Reply) : Prop := reservation_ok r /\ reply_ok reply /\ Forall field_ok (shell_reply_layout r reply).

(** C21: the shell's launch request and its reply are written in one layout each, and only when they are acceptable; the request reader accepts exactly the requests so written, with their four handles; the reply reader accepts exactly the replies whose value is below 2^32, so that a launch accepted under a job number the writer takes but above 32 bits is refused as malformed; no byte string makes either reader panic. *)
Theorem shell_launch_exact :
  (forall r q out,
    match encode_shell_v1_request r q out with
    | Ok (n, o) => request_accepted r q out /\ n = 128 /\ o = render (shell_request_layout r q) ++ drop 128 out
    | Err _ => ~ request_accepted r q out
    | Panic => False
    end) /\
  (forall r reply out,
    match encode_reply r reply out with
    | Ok (n, o) => reply_accepted r reply out /\ n = 56 /\ o = render (shell_reply_layout r reply) ++ drop 56 out
    | Err _ => ~ reply_accepted r reply out
    | Panic => False
    end) /\
  (forall bytes handles p, bytes_ok bytes ->
    parse_shell_v1_request bytes handles = Ok p <->
    exists r q, request_sent r q /\ handles = 4 /\ bytes = render (shell_request_layout r q) /\ p = mkParsedShellRequest r q) /\
  (forall bytes handles p, bytes_ok bytes ->
    parse_shell_v1_reply bytes handles = Ok p <->
    exists r reply, reply_sent r reply /\ reply_value reply < 2 ^ 32 /\ handles = 0 /\ bytes = render (shell_reply_layout r reply) /\ p = mkParsedShellReply r reply) /\
  (forall r job_id, reply_sent r (ShellAccepted job_id) -> 2 ^ 32 <= job_id ->
    parse_shell_v1_reply (render (shell_reply_layout r (ShellAccepted job_id))) 0 = Err NonzeroReserved) /\
  (forall bytes handles, parse_shell_v1_request bytes handles <> Panic /\ parse_shell_v1_reply bytes handles <> Panic).
Proof.
  split_and!.
  - apply request_cases.
  - apply reply_cases.
  - intros bytes handles p Hb. split; [|intros (r & q & (? & ? & ?) & -> & -> & ->); by apply shell_request_complete].
    intros (r & q & ? & ? & ? & ? & ? & ?)%shell_request_sound; [|done]. by exists r, q.
  - intros bytes handles p Hb. split; [|intros (r & y & (? & ? & ?) & Hv%Z.ltb_lt & -> & -> & ->); by rewrite shell_reply_read, Hv].
    intros (r & y & ? & ? & ? & ? & ? & ? & ?)%shell_reply_sound; [|done]. by exists r, y.
  - intros r job_id (? & ? & ?) Hj%Z.ltb_ge. rewrite shell_reply_read by done. cbn [reply_value]. by rewrite Hj.
  - split; [apply shell_request_total|apply shell_reply_total].
Qed.

(** A launch accepted as job 2^32, and as job 7. *)
Lemma shell_launch_exact_witness :
  encode_shell_v1_accepted (mkReservation 1 2 3) (2 ^ 32) (replicate 56 0) = Ok (56, render (shell_reply_layout (mkReservation 1 2 3) (ShellAccepted (2 ^ 32)))) /\
  parse_shell_v1_reply (render (shell_reply_layout (mkReservation 1 2 3) (ShellAccepted (2 ^ 32)))) 0 = Err NonzeroReserved /\
  parse_shell_v1_reply (render (shell_reply_layout (mkReservation 1 2 3) (ShellAccepted 7))) 0 = Ok (mkParsedShellReply (mkReservation 1 2 3) (ShellAccepted 7)).
Proof.
  assert (reply_sent (mkReservation 1 2 3) (ShellAccepted (2 ^ 32)) /\ reply_sent (mkReservation 1 2 3) (ShellAccepted 7)) as [Hlarge Hsmall].
  { split; (split; [done|]; split; [done|]; vm_compute; repeat constructor; discriminate). }
  destruct shell_launch_exact as (_ & _ & _ & Hread & Hbug & _). split; [reflexivity|]. split.
  - apply Hbug; [exact Hlarge|done].
  - apply Hread; [apply render_bytes_ok; apply Hsmall|]. exists (mkReservation 1 2 3), (ShellAccepted 7). by split_and!; [exact Hsmall|..].
Defined.
